(* ===== verification/_CoqProject ===== *)
-Q . S2P
Prelude.v
GoStrings.v
UtilsSlices.v
Varint.v
Dsd.v
Container.v
Record.v
Query.v
QueryParser.v
QueryRoundtrip.v
Storage.v
Controller.v
Interface.v
Maintenance.v
Modules.v
StopComplete.v
ModulesInv.v
ModulesLive.v
Tasks.v
TasksInv.v
Microtasks.v
MicrotasksInv.v
GoAny.v
GoSort.v
GoVersion.v
GoPath.v
GoFs.v
UtilsFs.v
UtilsSync.v
ConfigTree.v
Config.v
ConfigInv.v
ConfigProps.v
ConfigRace.v
Subsystems.v
GoBase64.v
Api.v
ApiInv.v
ApiDatabase.v
ApiDatabaseProps.v
Runtime.v
FsTree.v
Bbolt.v
Migration.v
Notifications.v
UpdaterNames.v
Updater.v
UpdaterSelect.v
UpdaterFetch.v
UpdaterSafe.v
UpdaterReg.v
