(* ===== verification/Prelude.v ===== *)
(** * Portbase: a verification library

    Portbase (package root src/) is a Go library for long-running services. A
    module system prepares, starts and stops the parts of a program in the order
    of their dependencies and runs their tasks. A small database (records with
    metadata, a query language, storage back ends behind controllers, an
    interface with permissions and a cache) stands on byte formats (varint,
    container, dsd). A configuration system, an updater of files, notifications,
    the runtime registry, groups of modules (subsystems) and an HTTP API with the
    database over messages use both. This library models these parts and proves
    what makes them correct.

    ** Files

    Shared:
    - [Prelude]: results of Go functions ([go]: value, error or panic), a state
      monad ([st]), machine integers, byte slices, shared lemmas and tactics.
    - [GoStrings], [GoAny], [GoSort], [GoPath], [GoFs], [GoBase64]: the functions
      of Go's library that the sources use: strings and strconv, dynamic values,
      sorting, paths, a file system with faults, base64. [GoVersion]: the version
      library, as classes with laws.
    - [UtilsSlices], [UtilsFs]: utils (slices, directory structures, atomic files).
    - [UtilsSync]: utils/call_limiter.go and onceagain.go as transition systems of
      their callers; broadcastflag.go and stablepool.go call after call.

    Formats and database:
    - [Varint]: formats/varint, with encoding/binary's Uvarint and PutUvarint.
    - [Dsd]: formats/dsd (dump, load, compression, HTTP helpers). The codecs are
      the class [Codecs], their round trips the class [CodecLaws];
      [marked_codecs] is an instance.
    - [Container]: container/container.go, compartments and offset included, and
      its refinement of a plain byte queue.
    - [Record]: database/record (metadata, gencode layout, keys, wrappers).
    - [Query], [QueryParser], [QueryRoundtrip]: database/query (conditions,
      evaluation, printing; lexer and parser; print and parse). Floats and
      regular expressions are the class [QueryLib], instance [plain_lib].
    - [Storage]: the storage interface as the class [StorageInterface] with
      [StorageLaws]; hashmap, sinkhole and injectbase as instances. Records are
      shared objects: a heap from locations to objects.
    - [Controller]: database/controller.go, hook.go, subscription.go.
    - [Interface]: database/interface.go, interface_cache.go, controllers.go and
      registry.go; the LRU cache is the class [Cache].
    - [Maintenance]: database/maintenance.go and the shutdown in main.go, the calls
      that go through all controllers.
    - [FsTree]: database/storage/fstree, files below a base path on [GoFs].
    - [Bbolt]: database/storage/bbolt; the key-value library is the class [Bolt]
      with [BoltLaws], a sorted map is an instance.
    - [Migration]: database/migration, over [Interface].

    Modules:
    - [Modules], [ModulesInv], [ModulesLive]: the life cycle in modules/
      (modules.go, status.go, start.go, stop.go, mgmt.go, worker.go).
    - [Tasks], [TasksInv]: modules/tasks.go, queues, schedule and executions.
    - [Microtasks], [MicrotasksInv]: modules/microtasks.go, clearance and counters.
    - [Subsystems]: modules/subsystems, on top of [Modules] and [Config].
    - [Runtime]: runtime/, the registry of value providers; the radix tree is a
      class with laws, a map is an instance.
    - [Notifications]: notifications/, objects with locks and channels, their
      database, the cleaner and the mirror of the modules' failures.

    Config:
    - [ConfigTree]: hierarchical and flat configurations (persistence.go).
    - [Config], [ConfigInv], [ConfigProps], [ConfigRace]: the rest of config/; its
      invariants; its theorems; a getter next to concurrent writers.

    API:
    - [Api], [ApiInv]: api/authentication.go, endpoints.go, router.go and
      api_bridge.go; the server's state is [Api], a request in work an [Exchange].
    - [ApiDatabase], [ApiDatabaseProps]: api/database.go and
      database/iterator, the message protocol, and queries and subscriptions as a
      transition system.

    Updater:
    - [UpdaterNames], [Updater], [UpdaterSelect], [UpdaterFetch], [UpdaterSafe],
      [UpdaterReg]: updater/ (file names, resources and versions, selection,
      downloads and indexes, what they leave on disk, the registry's invariant).

    A definition has the name of the Go function, with the type as prefix where
    a name occurs twice ([Controller_Put], [Interface_Put]). A method with a
    pointer receiver is a function in [st] over its state, a function that
    returns an error or can panic one into [go]. The current time, the order of
    a range over a map and results of code outside this repository are
    arguments. Where goroutines interleave (modules, tasks, microtasks, getters,
    streams), what happens between two points where others may run is one step,
    and a theorem speaks of all sequences of steps.

    ** What the theorems show

    - Formats: varints of all widths round-trip and their buffers suffice; every
      container method is the operation on a byte queue, and blocks come back in
      order; dsd values round-trip in all general formats, plain, compressed and
      over HTTP requests; Load cannot panic.
    - Records: gencode metadata and whole records survive storage; the life of a
      record with a time to live.
    - Queries: the parser is total, and a printed query parses to itself.
    - Database: a hashmap query delivers exactly the matching, valid, permitted
      records; maintenance removes exactly what it should; Put then Get through
      a controller, its notifications and hook vetoes, proved against the
      storage class; permissions are enforced by the interface on reads and
      writes, whatever the storage, hooks and cache do.
    - Modules: [ModulesInv] refines the runs to an abstract protocol ([astep])
      with invariants by rule induction: dependencies are online while a module
      is in use, no channel is closed twice. [ModulesLive] shows that the marks of
      ManageModules are reachability, that the report loops make progress and end,
      that Start brings up what it should, and that it succeeds unless something
      fails.
    - Tasks and microtasks: a task is never executed twice at the same time, nor
      after it was canceled; the lists agree with the tasks' fields and the
      schedule stays sorted; the microtask counters are exact, the maximum is kept
      and no clearance is lost.
    - Config: stored values are always valid; a getter returns the current value,
      also next to concurrent writers; a replaced configuration is the given one;
      what is saved is loaded again; flattening undoes expanding.
    - API: a handler runs only for a request that has the permission it requires;
      keys and sessions are what was configured; bridged requests stay in scope.
      Commands survive parsing, and the streams keep to the protocol, send each
      record once and in order, end, and can be canceled.
    - Updater: file names round-trip, the selected version is the one the rules
      name, only verified files are stored and made available, an index speaks for
      its own directory only, purging removes old versions only.
    - Storages: fstree replaces files as a whole and a query sends only what files
      hold; bbolt's Get, batches, queries, maintenance and purges do what the plain
      map of records does, and purges end. Maintenance and shutdown reach every
      database up to the first error. A migration run can be resumed.
    - Runtime, notifications, subsystems: registered providers never overlap and a
      query asks exactly those concerned; channels of notifications are closed once,
      expired ones are removed, and a failing module is notified of; a started
      manager lists every module that a subsystem needs once.
    - Utils: directories are created with the right permissions and only inside
      their root; files are replaced as a whole or not at all; calls of a limiter
      run one at a time, after the pause, and all return; OnceAgain likewise;
      broadcast flags refine one bit for each flag; a pool loses nothing but in the
      cases stated.
    - Theorems that document flaws are listed with the source lines in the
      manifest: among others a where clause that ends in a group is rejected;
      records with a relative expiry are never purged; Delete leaves the cache
      entry; a module whose start failed keeps its dependencies from stopping; a
      repeating task can be lost; an error of a query can be taken for its end.

    ** Fuel

    Recursion that is not structural has fuel computed from its input: the
    parser gets more than the number of snippets (each call consumes one;
    [ParseQuery_total] shows it never runs out), the varint loops ten bytes,
    markDependencies the number of modules plus one (each call follows a new
    mark; [buildEnabledTree_exact] shows it is enough), [WriteAllTo] one call
    per compartment with a conforming writer, [top_dir] the number of directory
    objects (a parent is older than its children), [scan_walk] the number of
    entries (each call consumes one), [reader_run] the three steps of a getter,
    [addDependencies] the number of modules plus one, creating directories the
    length of the path, the loops of bbolt more than there are keys and the rounds of
    a purge more than there are records, [find_place] the size of the pool plus one.
    The theorems about these show the result, so that the fuel never runs out.

    ** Not modelled

    The badger storage, the accessor implementations (gjson, sjson, reflection),
    container JSON marshalling, the timer loop of the delayed cache writer and the
    file of the registry, the set-up of the database directories: library calls and
    input or output. Sleep mode and event hooks of modules: a hook waits on the
    channels a module has at that moment, and the model of modules keeps only
    whether the current one is closed. The registration of the config, runtime,
    notifications and subsystems modules, unpacking of archives, the websocket and
    the server's start, the endpoints of other modules, log, metrics, rng, and the
    glue in run, info, dataroot and template.

    Locks are not modelled as such outside [UtilsSync] and [Notifications]: database
    operations are atomic steps, and the steps of the transition systems are what the
    code does under its locks or between two operations on a channel. Notifications,
    subsystems and storages run one operation after another; the locks in the
    EventData of notifications are left out. The pause of [UtilsSync] assumes a clock
    that does not go back, since the source drops its monotonic part. [ScanStorage]
    takes an absolute root, which the source computes from the working directory. *)

From Stdlib Require Import ZArith Lia.
From stdpp Require Export base tactics numbers list option strings gmap sorting.

#[global] Set Default Goal Selector "!".

Declare Scope go_scope.
Delimit Scope go_scope with go.
Create HintDb portbase discriminated.

(** ** Results of Go functions *)

(** A Go function that returns [(T, error)] and may also panic: [Ret] is a nil
    error, [Fail e] a non-nil one (the other results are then not used by any
    caller), [Panic] a run-time panic. *)
Inductive go (E A : Type) : Type :=
| Ret (a : A)
| Fail (e : E)
| Panic.
Arguments Ret {E A} a.
Arguments Fail {E A} e.
Arguments Panic {E A}.

(** Sequencing: [if err != nil { return err }] after every call. *)
Definition go_bind {E A B : Type} (c : go E A) (k : A → go E B) : go E B :=
  match c with
  | Ret a => k a
  | Fail e => Fail e
  | Panic => Panic
  end.

(** [return ..., fmt.Errorf("...: %w", err)]: the error is wrapped, the rest of
    the result stays. *)
Definition go_mapError {E E' A : Type} (f : E → E') (c : go E A) : go E' A :=
  match c with
  | Ret a => Ret a
  | Fail e => Fail (f e)
  | Panic => Panic
  end.

Notation "'let!' x ':=' c 'in' k" := (go_bind c (λ x, k))
  (at level 10, x pattern, c at level 200, k at level 200) : go_scope.
Open Scope go_scope.

(** A method with a pointer receiver: it changes the state also when it
    returns an error. *)
Definition st (S E A : Type) : Type := S → S * go E A.

Definition st_ret {S E A : Type} (a : A) : st S E A := λ s, (s, Ret a).

Definition st_fail {S E A : Type} (e : E) : st S E A := λ s, (s, Fail e).

Definition st_bind {S E A B : Type} (m : st S E A) (k : A → st S E B) : st S E B :=
  λ s, match m s with
       | (s', Ret a) => k a s'
       | (s', Fail e) => (s', Fail e)
       | (s', Panic) => (s', Panic)
       end.

(** A call that only reads the state. *)
Definition st_get {S E A : Type} (f : S → go E A) : st S E A := λ s, (s, f s).

(** A call that only changes the state. *)
Definition st_mod {S E : Type} (f : S → S) : st S E unit := λ s, (f s, Ret tt).

(** [if err != nil { ... }] with a handler of the error. *)
Definition st_catch {S E A : Type} (m : st S E A) (handler : E → st S E A) : st S E A :=
  λ s, match m s with
       | (s', Fail e) => handler e s'
       | r => r
       end.

(** [for _, a := range l { ... }] with a body that may return early with an
    error. *)
Fixpoint st_iter {S E A : Type} (f : A → st S E unit) (l : list A) : st S E unit :=
  match l with
  | [] => st_ret tt
  | a :: l' => st_bind (f a) (λ _, st_iter f l')
  end.

Notation "'let$' x ':=' c 'in' k" := (st_bind c (λ x, k))
  (at level 10, x pattern, c at level 200, k at level 200) : go_scope.

(** The result of a call, without returning its error. *)
Definition st_try {S E E' A : Type} (m : st S E A) : st S E' (go E A) :=
  λ s, match m s with
       | (s', Panic) => (s', Panic)
       | (s', r) => (s', Ret r)
       end.

(** The error of a call wrapped in another one. *)
Definition st_wrap {S E E' A : Type} (f : E → E') (m : st S E A) : st S E' A :=
  λ s, let '(s', r) := m s in (s', go_mapError f r).

(** A call whose error is ignored. *)
Definition st_ignore {S E E' A : Type} (m : st S E A) : st S E' unit :=
  let$ _ := st_try m in st_ret tt.

(** A loop over a list with an accumulator. *)
Fixpoint st_fold {S E A B : Type} (f : B → A → st S E B) (b : B) (l : list A) : st S E B :=
  match l with
  | [] => st_ret b
  | x :: l' => let$ b' := f b x in st_fold f b' l'
  end.

(** What a successful, and any, sequence consists of. *)
Lemma st_bind_inv {T E A B : Type} (m : st T E A) (k : A → st T E B) (s s' : T) (b : B) :
  st_bind m k s = (s', Ret b) → ∃ s1 a, m s = (s1, Ret a) ∧ k a s1 = (s', Ret b).
Proof. unfold st_bind. destruct (m s) as [s1 [a|e|]]; intros H; [|done|done]. by exists s1, a. Qed.

Lemma st_bind_cases {S E A B : Type} (m : st S E A) (k : A → st S E B) (s s' : S) (b : go E B) :
  st_bind m k s = (s', b) →
  (∃ s1 a, m s = (s1, Ret a) ∧ k a s1 = (s', b)) ∨ (∃ e, m s = (s', Fail e) ∧ b = Fail e) ∨ (m s = (s', Panic) ∧ b = Panic).
Proof. unfold st_bind. destruct (m s) as [s1 [a|e|]]; intros H; simplify_eq; eauto 10. Qed.

#[global] Instance go_eq_dec {E A : Type} `{EqDecision E, EqDecision A} : EqDecision (go E A).
Proof. solve_decision. Defined.

(** ** Machine integers

    A w-bit integer is a [Z] in range; conversions wrap. *)

Definition u8 (x : Z) : Z := x `mod` 256.
Definition u16 (x : Z) : Z := x `mod` 2 ^ 16.
Definition u32 (x : Z) : Z := x `mod` 2 ^ 32.
Definition u64 (x : Z) : Z := x `mod` 2 ^ 64.

(** Conversion to int64, and to int on a 64-bit platform. *)
Definition s64 (x : Z) : Z := (x + 2 ^ 63) `mod` 2 ^ 64 - 2 ^ 63.

Definition is_u8 (x : Z) : Prop := (0 ≤ x < 256)%Z.
Definition is_u64 (x : Z) : Prop := (0 ≤ x < 2 ^ 64)%Z.
Definition is_s64 (x : Z) : Prop := (- 2 ^ 63 ≤ x < 2 ^ 63)%Z.

(** ** Byte slices

    A [[]byte] is the list of its elements. A nil slice and an empty one are
    the same list: no modelled code distinguishes them. *)

Abbreviation bytes := (list Z).

Definition bytes_ok (l : bytes) : Prop := Forall is_u8 l.

(** [len(l)] as a Go int. *)
Definition len {A : Type} (l : list A) : Z := Z.of_nat (length l).

Definition b2z (b : bool) : Z := if b then 1 else 0.

(** How many elements satisfy a test. *)
Definition count {A : Type} (P : A → bool) (l : list A) : Z := len (List.filter P l).

(** [l[a:b]] with Go's bounds check. *)
Definition slice {E A : Type} (l : list A) (a b : Z) : go E (list A) :=
  if bool_decide (0 ≤ a ∧ a ≤ b ∧ b ≤ len l)%Z
  then Ret (take (Z.to_nat (b - a)) (drop (Z.to_nat a) l))
  else Panic.

#[global] Arguments len : simpl never.
#[global] Arguments u8 : simpl never.
#[global] Arguments u64 : simpl never.
#[global] Arguments s64 : simpl never.
#[global] Arguments Z.pow : simpl never.
#[global] Arguments Z.mul : simpl never.
#[global] Arguments Z.add : simpl never.
#[global] Arguments Z.sub : simpl never.
#[global] Arguments Z.shiftl : simpl never.
#[global] Arguments Z.shiftr : simpl never.
#[global] Arguments Z.lor : simpl never.
#[global] Arguments Z.land : simpl never.
#[global] Arguments Z.ltb : simpl never.
#[global] Arguments Z.leb : simpl never.
#[global] Arguments Z.eqb : simpl never.

(** ** Tactics *)

Ltac bool_to_prop :=
  repeat match goal with
  | H : (_ <=? _)%Z = true |- _ => apply Z.leb_le in H
  | H : (_ <=? _)%Z = false |- _ => apply Z.leb_gt in H
  | H : (_ <? _)%Z = true |- _ => apply Z.ltb_lt in H
  | H : (_ <? _)%Z = false |- _ => apply Z.ltb_ge in H
  | H : (_ =? _)%Z = true |- _ => apply Z.eqb_eq in H
  | H : (_ =? _)%Z = false |- _ => apply Z.eqb_neq in H
  | H : bool_decide _ = true |- _ => apply bool_decide_eq_true_1 in H
  | H : bool_decide _ = false |- _ => apply bool_decide_eq_false_1 in H
  | H : (_ && _) = true |- _ => apply andb_true_iff in H; destruct H
  | H : (_ || _) = false |- _ => apply orb_false_iff in H; destruct H
  | H : negb _ = true |- _ => apply negb_true_iff in H
  | H : negb _ = false |- _ => apply negb_false_iff in H
  end.

(** Case analysis on the next [if] or [match] of the goal, with its equation
    turned into a proposition. *)
Ltac step_if :=
  case_match; bool_to_prop; simplify_eq/=.

(** Decide the integer comparisons of the goal that follow by arithmetic. *)
Ltac zcmp_with tac :=
  repeat match goal with
  | |- context [(?a <? ?b)%Z] =>
      first [rewrite (proj2 (Z.ltb_lt a b)) by tac | rewrite (proj2 (Z.ltb_ge a b)) by tac]
  | |- context [(?a <=? ?b)%Z] =>
      first [rewrite (proj2 (Z.leb_le a b)) by tac | rewrite (proj2 (Z.leb_gt a b)) by tac]
  | |- context [(?a =? ?b)%Z] =>
      first [rewrite (proj2 (Z.eqb_eq a b)) by tac | rewrite (proj2 (Z.eqb_neq a b)) by tac]
  end; cbn [andb orb negb].
Ltac zcmp := zcmp_with lia.

(** Arithmetic on lengths. *)
Ltac len_lia :=
  unfold len in *;
  repeat (rewrite length_app in * || rewrite length_take in * || rewrite length_drop in *
          || rewrite length_replicate in * || rewrite length_insert in *);
  cbn [length] in *; lia.

(** ** Results *)

Lemma st_bind_Ret {S E A B} (m : st S E A) (k : A → st S E B) (s s' : S) (a : A) :
  m s = (s', Ret a) → st_bind m k s = k a s'.
Proof. unfold st_bind. by intros ->. Qed.

Lemma st_bind_Fail {S E A B} (m : st S E A) (k : A → st S E B) (s s' : S) (e : E) :
  m s = (s', Fail e) → st_bind m k s = (s', Fail e).
Proof. unfold st_bind. by intros ->. Qed.

Lemma st_wrap_Ret {S E E' A} (f : E → E') (m : st S E A) (s s' : S) (a : A) :
  st_wrap f m s = (s', Ret a) → m s = (s', Ret a).
Proof. unfold st_wrap. destruct (m s) as [s1 [a'|e|]]; intros H; by simplify_eq/=. Qed.

Lemma if_bool_commute {A B : Type} (f : A → B) (b : bool) (x y : A) :
  f (if b then x else y) = if b then f x else f y.
Proof. by destruct b. Qed.

(** ** Integers *)

Lemma u8_is_u8 x : is_u8 (u8 x).
Proof. unfold is_u8, u8. apply Z.mod_pos_bound. lia. Qed.

Lemma u8_small x : is_u8 x → u8 x = x.
Proof. intros H. apply Z.mod_small, H. Qed.

Lemma u64_small x : is_u64 x → u64 x = x.
Proof. intros H. apply Z.mod_small, H. Qed.

Lemma s64_small x : is_s64 x → s64 x = x.
Proof. unfold is_s64, s64. intros H. rewrite Z.mod_small; lia. Qed.

Lemma s64_u64 x : is_s64 x → s64 (u64 x) = x.
Proof.
  unfold is_s64, s64, u64. intros H.
  rewrite Zplus_mod_idemp_l, Z.mod_small; lia.
Qed.

Lemma s64_wrap x : (2 ^ 63 ≤ x < 2 ^ 63 + 2 ^ 64)%Z → s64 x = (x - 2 ^ 64)%Z.
Proof.
  unfold s64. intros H.
  rewrite <- (Zmod_unique (x + 2 ^ 63) (2 ^ 64) 1 (x - 2 ^ 63)); lia.
Qed.

#[export] Hint Resolve u8_is_u8 : portbase.

(** Disjoint bit ranges: or is addition. *)
Lemma lor_shiftl_add (a b s : Z) :
  (0 ≤ s)%Z → (0 ≤ a < 2 ^ s)%Z → Z.lor a (Z.shiftl b s) = (a + b * 2 ^ s)%Z.
Proof.
  intros Hs Ha.
  rewrite Z.shiftl_mul_pow2 by done.
  assert (Z.land a (b * 2 ^ s) = 0%Z) as Hland.
  { apply Z.bits_inj'. intros n Hn.
    rewrite Z.land_spec, Z.bits_0.
    destruct (decide (n < s)%Z).
    - rewrite (Z.mul_pow2_bits_low b s n) by done. apply andb_false_r.
    - destruct (decide (a = 0%Z)) as [->|].
      + by rewrite Z.bits_0.
      + rewrite (Z.bits_above_log2 a n); [done|lia|].
        assert (Z.log2 a < s)%Z; [|lia].
        apply Z.log2_lt_pow2; lia. }
  rewrite Z.add_nocarry_lxor by done.
  by rewrite Z.lxor_lor.
Qed.

Lemma lor_bound (a b k : Z) :
  (0 ≤ k)%Z → (0 ≤ a < 2 ^ k)%Z → (0 ≤ b < 2 ^ k)%Z → (0 ≤ Z.lor a b < 2 ^ k)%Z.
Proof.
  intros Hk Ha Hb. assert (0 ≤ Z.lor a b)%Z as H0 by (apply Z.lor_nonneg; lia).
  split; [done|]. destruct (decide (Z.lor a b = 0%Z)) as [->|Hne]; [lia|].
  apply Z.log2_lt_pow2; [lia|]. rewrite Z.log2_lor by lia.
  destruct (decide (a = 0%Z)) as [->|]; destruct (decide (b = 0%Z)) as [->|];
    try done; change (Z.log2 0) with 0%Z; apply Z.max_lub_lt;
    try (apply Z.log2_lt_pow2; lia).
  - destruct (decide (k = 0%Z)) as [->|]; [simpl in *; lia|lia].
  - destruct (decide (k = 0%Z)) as [->|]; [simpl in *; lia|lia].
Qed.

(** ** Lists *)

Lemma len_nonneg {A} (l : list A) : (0 ≤ len l)%Z.
Proof. unfold len. lia. Qed.

Lemma to_nat_len {A} (l : list A) : Z.to_nat (len l) = length l.
Proof. unfold len. lia. Qed.

Lemma len_app {A} (l k : list A) : len (l ++ k) = (len l + len k)%Z.
Proof. unfold len. rewrite length_app. lia. Qed.

Lemma len_cons {A} (x : A) (l : list A) : len (x :: l) = (len l + 1)%Z.
Proof. unfold len. simpl. lia. Qed.

Lemma len_singleton {A} (x : A) : len [x] = 1%Z.
Proof. done. Qed.

(** *** Counting *)

Lemma len_filter_app {A} (P : A → bool) l k : len (List.filter P (l ++ k)) = (len (List.filter P l) + len (List.filter P k))%Z.
Proof. by rewrite List.filter_app, len_app. Qed.

Lemma len_filter_one {A} (P : A → bool) x : len (List.filter P [x]) = b2z (P x).
Proof. simpl. by destruct (P x). Qed.

Lemma len_filter_alter {A} (P : A → bool) f i l x :
  l !! i = Some x → len (List.filter P (alter f i l)) = (len (List.filter P l) - b2z (P x) + b2z (P (f x)))%Z.
Proof.
  revert i. induction l as [|y l IH]; intros [|i] Hi; simpl in Hi; [done|done|injection Hi as ->|].
  - change (alter f 0%nat (x :: l)) with (f x :: l). simpl. destruct (P x), (P (f x)); simpl; rewrite ?len_cons; lia.
  - change (alter f (S i) (y :: l)) with (y :: alter f i l). simpl. specialize (IH i Hi). destruct (P y); rewrite ?len_cons; lia.
Qed.

Lemma count_nonneg {A} (P : A → bool) l : (0 <= count P l)%Z.
Proof. apply len_nonneg. Qed.

Lemma count_app {A} (P : A → bool) l k : count P (l ++ k) = (count P l + count P k)%Z.
Proof. apply len_filter_app. Qed.

(** An element is replaced, and others are put at the end. *)
Lemma count_update {A} (P : A → bool) i l k x y :
  l !! i = Some x → count P (<[i := y]> (l ++ k)) = (count P l - b2z (P x) + b2z (P y) + count P k)%Z.
Proof.
  intros Hi. rewrite insert_app_l by (by eapply lookup_lt_Some). rewrite count_app. f_equal.
  pose proof (len_filter_alter P (λ _, y) i l x Hi) as Ha. cbv beta in Ha. unfold count. rewrite <- Ha. do 2 f_equal. apply list_eq. intros j. rewrite list_lookup_alter. destruct (decide (i = j)) as [<-|Hj].
  - rewrite Hi. simpl. apply list_lookup_insert_eq. by eapply lookup_lt_Some.
  - by rewrite list_lookup_insert_ne.
Qed.

Lemma count_insert {A} (P : A → bool) i l x y : l !! i = Some x → count P (<[i := y]> l) = (count P l - b2z (P x) + b2z (P y))%Z.
Proof. intros Hi. rewrite <- (app_nil_r l) at 1. rewrite (count_update P i l [] x y Hi). unfold count at 2. simpl. unfold len. simpl. lia. Qed.

Lemma count_one {A} (P : A → bool) x : count P [x] = b2z (P x).
Proof. apply len_filter_one. Qed.

Lemma count_lookup {A} (P : A → bool) l i x : l !! i = Some x → (b2z (P x) <= count P l)%Z.
Proof.
  intros Hi. pose proof (count_insert P i l x x Hi) as H. pose proof (count_app P (take i l) (x :: drop (S i) l)) as Ha.
  rewrite take_drop_middle in Ha by done. unfold count in Ha at 3. simpl in Ha. pose proof (count_nonneg P (take i l)).
  pose proof (len_nonneg (List.filter P (drop (S i) l))). destruct (P x); simpl; rewrite ?len_cons in Ha; unfold b2z; lia.
Qed.

Lemma count_elem {A} (P : A → bool) l i x : l !! i = Some x → P x = true → (1 <= count P l)%Z.
Proof.
  intros Hi Hx. pose proof (count_lookup P l i x Hi) as H. by rewrite Hx in H.
Qed.

Lemma count_elem_inv {A} (P : A → bool) l : (1 <= count P l)%Z → ∃ i x, l !! i = Some x ∧ P x = true.
Proof.
  unfold count. induction l as [|y l IH]; [done|]. simpl. destruct (P y) eqn:Hy; intros H; [by exists 0%nat, y|].
  destruct (IH H) as (i & x & Hi & Hx). by exists (S i), x.
Qed.

Lemma count_disjoint {A} (P Q R : A → bool) l :
  (∀ x, P x = true → R x = true) → (∀ x, Q x = true → R x = true ∧ P x = false) → (count P l + count Q l <= count R l)%Z.
Proof.
  intros HP HQ. unfold count. induction l as [|y l IH]; [done|]. simpl. specialize (HP y). specialize (HQ y).
  destruct (P y), (Q y), (R y); rewrite ?len_cons; try lia; exfalso; naive_solver.
Qed.

Lemma count_mono {A} (P Q : A → bool) l : (∀ x, P x = true → Q x = true) → (count P l <= count Q l)%Z.
Proof.
  intros HPQ. unfold count. induction l as [|y l IH]; [done|]. simpl. destruct (P y) eqn:Hy; [rewrite (HPQ y Hy), !len_cons; lia|].
  destruct (Q y); rewrite ?len_cons; lia.
Qed.

Lemma slice_prefix {E A} (l k : list A) : slice (E:=E) (l ++ k) 0 (len l) = Ret l.
Proof.
  unfold slice. rewrite bool_decide_true by (rewrite len_app; unfold len; lia).
  unfold len. rewrite Z.sub_0_r, Nat2Z.id.
  change (Z.to_nat 0) with 0. by rewrite drop_0, take_app_length.
Qed.

Lemma slice_middle {E A} (l k m : list A) :
  slice (E:=E) (l ++ k ++ m) (len l) (len l + len k) = Ret k.
Proof.
  unfold slice. rewrite bool_decide_true by (rewrite !len_app; unfold len; lia).
  replace (len l + len k - len l)%Z with (len k) by lia.
  unfold len. rewrite !Nat2Z.id, drop_app_length. by rewrite take_app_length.
Qed.

Lemma slice_suffix {E A} (l k : list A) :
  slice (E:=E) (l ++ k) (len l) (len (l ++ k)) = Ret k.
Proof.
  rewrite len_app. rewrite <- (app_nil_r k) at 1. apply slice_middle.
Qed.

Lemma slice_tail {E A} (x : A) (k : list A) : slice (E:=E) (x :: k) 1 (len (x :: k)) = Ret k.
Proof. apply (slice_suffix [x]). Qed.

(** Slicing from an offset inside the second part. *)
Lemma slice_shift {E A} (l k : list A) (n : Z) :
  (0 ≤ n)%Z → slice (E:=E) (l ++ k) (len l + n) (len (l ++ k)) = slice k n (len k).
Proof.
  intros Hn. unfold slice. rewrite len_app. pose proof (len_nonneg l).
  rewrite (bool_decide_ext _ (0 ≤ n ∧ n ≤ len k ∧ len k ≤ len k)%Z) by lia.
  case_bool_decide; [|done]. do 2 f_equal; [lia|].
  replace (Z.to_nat (len l + n)) with (length l + Z.to_nat n) by (unfold len; lia).
  by rewrite drop_app_add.
Qed.

Lemma bytes_ok_app l k : bytes_ok (l ++ k) ↔ bytes_ok l ∧ bytes_ok k.
Proof. apply Forall_app. Qed.

#[export] Hint Resolve len_nonneg : portbase.
