(* ===== verification/GoStrings.v ===== *)
(** * The parts of Go's strings and strconv packages the program uses

    A Go string is a sequence of bytes; here it is a [string], whose characters
    are bytes. Separators are single characters everywhere in the program, so
    [Split] and [SplitN] take a character. Case mapping and white space are
    those of ASCII: bytes above 127 are left alone. *)

From Stdlib Require Import ZArith Lia Ascii String.
From S2P Require Import Prelude.
Local Open Scope string_scope.

#[global] Arguments String.append : simpl nomatch.

(** ** Conversions *)

Definition string_bytes (s : string) : bytes := (λ a, Z.of_nat (nat_of_ascii a)) <$> list_ascii_of_string s.

Definition bytes_string (l : bytes) : string := string_of_list_ascii ((λ b, ascii_of_nat (Z.to_nat b)) <$> l).

(** ** strings *)

Definition HasPrefix (s p : string) : bool := String.prefix p s.

(** [s < t]: the order of the bytes. *)
Fixpoint bytes_lt (s t : string) : bool :=
  match s, t with
  | _, EmptyString => false
  | EmptyString, String _ _ => true
  | String a s, String b t => if Ascii.eqb a b then bytes_lt s t else (N_of_ascii a <? N_of_ascii b)%N
  end.

(** Remove the first [n] bytes. *)
Fixpoint string_drop (n : nat) (s : string) : string :=
  match n, s with
  | O, _ => s
  | S n', String _ s' => string_drop n' s'
  | S _, EmptyString => EmptyString
  end.

Fixpoint string_rev_append (s acc : string) : string :=
  match s with
  | EmptyString => acc
  | String a s' => string_rev_append s' (String a acc)
  end.

Definition string_rev (s : string) : string := string_rev_append s "".

Definition HasSuffix (s p : string) : bool := HasPrefix (string_rev s) (string_rev p).

Fixpoint Contains (s sub : string) : bool :=
  HasPrefix s sub ||
  match s with
  | EmptyString => false
  | String _ s' => Contains s' sub
  end.

(** [strings.Split] at a one-byte separator. *)
Fixpoint Split (s : string) (sep : ascii) : list string :=
  match s with
  | EmptyString => [""]
  | String a s' =>
      if Ascii.eqb a sep then "" :: Split s' sep
      else match Split s' sep with
           | [] => [String a ""]
           | h :: t => String a h :: t
           end
  end.

(** [strings.Cut] at a one-byte separator. *)
Fixpoint Cut (s : string) (sep : ascii) : option (string * string) :=
  match s with
  | EmptyString => None
  | String a s' =>
      if Ascii.eqb a sep then Some ("", s')
      else match Cut s' sep with
           | Some (before, after) => Some (String a before, after)
           | None => None
           end
  end.

(** [strings.SplitN(s, sep, 2)]. *)
Definition SplitN2 (s : string) (sep : ascii) : list string :=
  match Cut s sep with
  | Some (before, after) => [before; after]
  | None => [s]
  end.

Fixpoint Join (l : list string) (sep : string) : string :=
  match l with
  | [] => ""
  | [s] => s
  | s :: l' => s ++ sep ++ Join l' sep
  end.

Definition is_space (a : ascii) : bool :=
  match nat_of_ascii a with
  | 9 | 10 | 11 | 12 | 13 | 32 => true
  | _ => false
  end.

Fixpoint TrimLeftBy (f : ascii → bool) (s : string) : string :=
  match s with
  | EmptyString => EmptyString
  | String a s' => if f a then TrimLeftBy f s' else s
  end.

Definition TrimRightBy (f : ascii → bool) (s : string) : string :=
  string_rev (TrimLeftBy f (string_rev s)).

Definition TrimSpace (s : string) : string :=
  TrimRightBy is_space (TrimLeftBy is_space s).

Definition lower (a : ascii) : ascii :=
  let n := nat_of_ascii a in
  if (65 <=? n)%nat && (n <=? 90)%nat then ascii_of_nat (n + 32) else a.

Fixpoint ToLower (s : string) : string :=
  match s with
  | EmptyString => EmptyString
  | String a s' => String (lower a) (ToLower s')
  end.

Definition ContainsAny (s : string) (f : ascii → bool) : bool :=
  existsb f (list_ascii_of_string s).

(** ** strconv *)

Definition digit (a : ascii) : option Z :=
  let n := Z.of_nat (nat_of_ascii a) in
  if (48 <=? n)%Z && (n <=? 57)%Z then Some (n - 48)%Z else None.

(** The value of a run of decimal digits; [None] on any other byte. *)
Fixpoint digits_value (s : string) (acc : Z) : option Z :=
  match s with
  | EmptyString => Some acc
  | String a s' =>
      match digit a with
      | Some d => digits_value s' (10 * acc + d)%Z
      | None => None
      end
  end.

(** [strconv.ParseUint(s, 10, bitSize)]; [None] is an error. *)
Definition ParseUint (s : string) (bitSize : Z) : option Z :=
  match s with
  | EmptyString => None
  | _ =>
      match digits_value s 0 with
      | Some n => if (n <? 2 ^ bitSize)%Z then Some n else None
      | None => None
      end
  end.

(** [strconv.ParseInt(s, 10, 64)]. *)
Definition ParseInt64 (s : string) : option Z :=
  let '(neg, digits) :=
    match s with
    | String "+" s' => (false, s')
    | String "-" s' => (true, s')
    | _ => (false, s)
    end%char in
  match digits with
  | EmptyString => None
  | _ =>
      match digits_value digits 0 with
      | Some n =>
          if neg then if (n <=? 2 ^ 63)%Z then Some (- n)%Z else None
          else if (n <? 2 ^ 63)%Z then Some n else None
      | None => None
      end
  end.

Definition ParseBool (s : string) : option bool :=
  if bool_decide (s ∈ ["1"; "t"; "T"; "true"; "TRUE"; "True"]) then Some true
  else if bool_decide (s ∈ ["0"; "f"; "F"; "false"; "FALSE"; "False"]) then Some false
  else None.

(** [strconv.FormatUint(n, 10)]; the fuel bounds the number of digits. *)
Fixpoint FormatUint_loop (fuel : nat) (n : Z) (acc : string) : string :=
  match fuel with
  | O => acc
  | S fuel' =>
      let acc := String (ascii_of_nat (Z.to_nat (48 + n `mod` 10))) acc in
      if (n <? 10)%Z then acc else FormatUint_loop fuel' (n / 10) acc
  end.

Definition FormatUint (n : Z) : string := FormatUint_loop (S (Z.to_nat (Z.log2 n))) n "".

(** [strconv.FormatInt(n, 10)], also the verb %d. *)
Definition FormatInt (n : Z) : string :=
  if (n <? 0)%Z then "-" ++ FormatUint (- n) else FormatUint n.

(** ** Lemmas *)

Lemma bytes_string_bytes (s : string) : bytes_string (string_bytes s) = s.
Proof.
  unfold bytes_string, string_bytes. rewrite <- list_fmap_compose.
  rewrite <- (string_of_list_ascii_of_string s) at 2. f_equal. rewrite <- (list_fmap_id (list_ascii_of_string s)) at 2.
  apply list_fmap_ext. intros _ a _. simpl. by rewrite Nat2Z.id, ascii_nat_embedding.
Qed.

Lemma bytes_lt_irrefl (s : string) : bytes_lt s s = false.
Proof. induction s as [|a s IH]; [done|]. simpl. by rewrite Ascii.eqb_refl. Qed.

Lemma bytes_lt_trans (s t u : string) : bytes_lt s t = true → bytes_lt t u = true → bytes_lt s u = true.
Proof.
  revert t u. induction s as [|a s IH]; intros [|b t] [|c u]; simpl; try done.
  destruct (Ascii.eqb_spec a b) as [->|Hab]; destruct (Ascii.eqb_spec b c) as [->|Hbc].
  - apply IH.
  - done.
  - by destruct (Ascii.eqb_spec a c).
  - intros H1%N.ltb_lt H2%N.ltb_lt. destruct (Ascii.eqb_spec a c) as [->|]; [lia|]. apply N.ltb_lt. lia.
Qed.

Lemma bytes_lt_total (s t : string) : s = t ∨ bytes_lt s t = true ∨ bytes_lt t s = true.
Proof.
  revert t. induction s as [|a s IH]; intros [|b t]; simpl; eauto. rewrite (Ascii.eqb_sym b a).
  destruct (Ascii.eqb_spec a b) as [->|Hab].
  - destruct (IH t) as [->|[?|?]]; eauto.
  - right. destruct (N.lt_total (N_of_ascii a) (N_of_ascii b)) as [H|[H|H]]; [left; by apply N.ltb_lt| |right; by apply N.ltb_lt].
    exfalso. apply Hab. rewrite <- (ascii_N_embedding a), <- (ascii_N_embedding b). by rewrite H.
Qed.

Lemma bytes_lt_asym (s t : string) : bytes_lt s t = true → bytes_lt t s = false.
Proof. intros H. apply not_true_iff_false. intros H'. pose proof (bytes_lt_trans _ _ _ H H'). by rewrite bytes_lt_irrefl in *. Qed.

Lemma string_app_assoc (a b c : string) : (a ++ b) ++ c = a ++ b ++ c.
Proof. induction a as [|x a IH]; simpl; [done|]. by rewrite IH. Qed.

Lemma string_app_nil_r (s : string) : s ++ "" = s.
Proof. induction s as [|x s IH]; simpl; [done|]. by rewrite IH. Qed.

Lemma string_app_assoc_cons (s t : string) (c : ascii) : (s ++ String c "") ++ t = s ++ String c t.
Proof. by rewrite string_app_assoc. Qed.

Lemma digit_ascii (d : Z) : (0 ≤ d < 10)%Z → digit (ascii_of_nat (Z.to_nat (48 + d))) = Some d.
Proof.
  intros Hd. unfold digit. rewrite nat_ascii_embedding by lia. rewrite Z2Nat.id by lia.
  zcmp. f_equal. lia.
Qed.

Lemma digits_value_app (s t : string) (acc : Z) :
  digits_value (s ++ t) acc = digits_value s acc ≫= digits_value t.
Proof.
  revert acc. induction s as [|a s IH]; intros acc; simpl; [done|].
  by destruct (digit a); simpl.
Qed.

Lemma FormatUint_loop_value (fuel : nat) (n : Z) (acc : string) :
  (0 ≤ n < 2 ^ Z.of_nat fuel)%Z → (0 < fuel)%nat →
  ∃ s, FormatUint_loop fuel n acc = s ++ acc ∧ s ≠ "" ∧ digits_value s 0 = Some n.
Proof.
  revert n acc. induction fuel as [|fuel IH]; intros n acc Hn Hf; [lia|]. simpl.
  assert (0 ≤ n `mod` 10 < 10)%Z as Hm by (apply Z.mod_pos_bound; lia).
  set (c := ascii_of_nat (Z.to_nat (48 + n `mod` 10))).
  assert (digit c = Some (n `mod` 10)%Z) as Hc by (by apply digit_ascii).
  destruct (Z.ltb_spec n 10).
  - exists (String c ""). split_and!; [done|done|]. simpl. rewrite Hc, Z.mod_small by lia. done.
  - rewrite Nat2Z.inj_succ, Z.pow_succ_r in Hn by lia.
    assert (n / 10 < 2 ^ Z.of_nat fuel)%Z by (apply Z.div_lt_upper_bound; lia).
    destruct (IH (n / 10)%Z (String c acc)) as (s & Hs & Hne & Hv).
    + split; [apply Z.div_pos; lia|done].
    + destruct fuel; [|lia]. change (2 ^ Z.of_nat 0)%Z with 1%Z in *. lia.
    + exists (s ++ String c ""). rewrite Hs, digits_value_app, Hv, string_app_assoc_cons. simpl.
      rewrite Hc. split_and!; [done|by destruct s|]. f_equal. pose proof (Z.div_mod n 10). lia.
Qed.

Lemma FormatUint_value (n : Z) :
  (0 ≤ n)%Z → FormatUint n ≠ "" ∧ digits_value (FormatUint n) 0 = Some n.
Proof.
  intros Hn. unfold FormatUint.
  destruct (FormatUint_loop_value (S (Z.to_nat (Z.log2 n))) n "") as (s & -> & Hne & Hv); [|lia|].
  - split; [done|]. rewrite Nat2Z.inj_succ, Z2Nat.id by apply Z.log2_nonneg.
    destruct (decide (n = 0%Z)) as [->|]; [done|]. apply Z.log2_spec. lia.
  - by rewrite string_app_nil_r.
Qed.

Lemma Cut_Some (s before after : string) (sep : ascii) :
  Cut s sep = Some (before, after) → s = before ++ String sep after.
Proof.
  revert before. induction s as [|a s IH]; intros before H; simpl in H; [done|].
  destruct (Ascii.eqb_spec a sep) as [->|Hne]; [by simplify_eq|].
  destruct (Cut s sep) as [[b' a']|] eqn:Hc; simplify_eq. simpl. by rewrite (IH _ eq_refl).
Qed.

(** [s] has no byte equal to [sep]. *)
Definition lacks (sep : ascii) (s : string) : Prop := sep ∉ list_ascii_of_string s.

Lemma lacks_cons (sep a : ascii) (s : string) :
  lacks sep (String a s) ↔ sep ≠ a ∧ lacks sep s.
Proof. unfold lacks. simpl. rewrite not_elem_of_cons. done. Qed.

Lemma Cut_None (s : string) (sep : ascii) : Cut s sep = None ↔ lacks sep s.
Proof.
  induction s as [|a s IH]; simpl.
  { split; [intros _; unfold lacks; set_solver|done]. }
  rewrite lacks_cons. destruct (Ascii.eqb_spec a sep) as [->|Hne].
  - split; [done|]. by intros [? _].
  - rewrite <- IH. destruct (Cut s sep) as [[b a']|]; [|by split; [intros _; split|]].
    split; [done|]. by intros [_ ?].
Qed.

Lemma Cut_app (before after : string) (sep : ascii) :
  lacks sep before → Cut (before ++ String sep after) sep = Some (before, after).
Proof.
  induction before as [|a s IH]; intros H; simpl; [by rewrite Ascii.eqb_refl|].
  apply lacks_cons in H as [Hne H].
  destruct (Ascii.eqb_spec a sep) as [->|_]; [done|]. by rewrite IH.
Qed.

Lemma Cut_before_lacks (s before after : string) (sep : ascii) :
  Cut s sep = Some (before, after) → lacks sep before.
Proof.
  revert before. induction s as [|a s IH]; intros before H; simpl in H; [done|].
  destruct (Ascii.eqb_spec a sep) as [->|Hne].
  - simplify_eq. unfold lacks. set_solver.
  - destruct (Cut s sep) as [[b' a']|] eqn:Hc; simplify_eq. apply lacks_cons. split; [done|]. by apply IH.
Qed.

Lemma HasPrefix_app (p s : string) : HasPrefix (p ++ s) p = true.
Proof.
  unfold HasPrefix. induction p as [|a p IH]; simpl; [by destruct s|].
  by destruct (ascii_dec a a).
Qed.

Lemma HasPrefix_spec (s p : string) : HasPrefix s p = true ↔ ∃ t, s = p ++ t.
Proof.
  split; [|intros [t ->]; apply HasPrefix_app].
  unfold HasPrefix. revert s. induction p as [|a p IH]; intros s H; simpl in *; [by exists s|].
  destruct s as [|b s]; [done|]. simpl in H. destruct (ascii_dec a b) as [->|]; [|done].
  destruct (IH s H) as [t ->]. by exists t.
Qed.

Lemma Join_Split (s : string) (sep : ascii) : Join (Split s sep) (String sep "") = s.
Proof.
  induction s as [|a s IH]; simpl; [done|].
  assert (Split s sep ≠ []) as Hne.
  { destruct s as [|b s']; simpl; [done|]. destruct (Ascii.eqb b sep); [done|]. by destruct (Split s' sep). }
  destruct (Ascii.eqb_spec a sep) as [->|Hne'].
  - destruct (Split s sep) as [|h t] eqn:Hs; [done|]. simpl in *. by rewrite IH.
  - destruct (Split s sep) as [|h t] eqn:Hs; [done|]. destruct t as [|h' t]; simpl in *; by rewrite IH.
Qed.

Lemma digits_value_first (a : ascii) (s : string) (acc n : Z) :
  digits_value (String a s) acc = Some n → a ≠ "+"%char ∧ a ≠ "-"%char.
Proof. simpl. intros H. split; intros ->; done. Qed.

(** Printing and parsing integers. *)
Lemma ParseInt64_FormatInt (n : Z) : is_s64 n → ParseInt64 (FormatInt n) = Some n.
Proof.
  unfold is_s64. intros Hn. unfold FormatInt. destruct (Z.ltb_spec n 0).
  - destruct (FormatUint_value (- n)) as [Hne Hv]; [lia|]. unfold ParseInt64. simpl.
    rewrite Hv. destruct (FormatUint (- n)); [done|]. zcmp. f_equal. lia.
  - destruct (FormatUint_value n) as [Hne Hv]; [lia|]. unfold ParseInt64.
    destruct (FormatUint n) as [|a s] eqn:Hs; [done|].
    pose proof (digits_value_first _ _ _ _ Hv) as [Hp Hm].
    assert ((match String a s with
      | String "+" s' => (false, s')
      | String "-" s' => (true, s')
      | _ => (false, String a s) end)%char = (false, String a s)) as ->.
    { destruct a as [[] [] [] [] [] [] [] []]; done. }
    rewrite Hv. by zcmp.
Qed.

Lemma ParseUint_FormatUint (n bits : Z) : (0 ≤ n < 2 ^ bits)%Z → ParseUint (FormatUint n) bits = Some n.
Proof.
  intros Hn. destruct (FormatUint_value n) as [Hne Hv]; [lia|]. unfold ParseUint.
  destruct (FormatUint n); [done|]. rewrite Hv. by zcmp.
Qed.

(** Slices of a concatenation. *)
Lemma substring_prefix (a b : string) : String.substring 0 (String.length a) (a ++ b) = a.
Proof. induction a as [|x a IH]; simpl; [by destruct b|]. by rewrite IH. Qed.

Lemma substring_middle (a b c : string) :
  String.substring (String.length a) (String.length b) (a ++ b ++ c) = b.
Proof. induction a as [|x a IH]; simpl; [apply substring_prefix|done]. Qed.

Lemma length_string_app (a b : string) :
  String.length (a ++ b) = (String.length a + String.length b)%nat.
Proof. induction a as [|x a IH]; simpl; [done|]. by rewrite IH. Qed.

(** All bytes satisfy a test. *)
Definition all_bytes (f : ascii → bool) (s : string) : bool := forallb f (list_ascii_of_string s).

Lemma all_bytes_app (f : ascii → bool) (a b : string) :
  all_bytes f (a ++ b) = all_bytes f a && all_bytes f b.
Proof. unfold all_bytes. induction a as [|x a IH]; simpl; [done|]. by rewrite IH, andb_assoc. Qed.

Lemma all_bytes_impl (f g : ascii → bool) (s : string) :
  (∀ a, f a = true → g a = true) → all_bytes f s = true → all_bytes g s = true.
Proof.
  unfold all_bytes. intros H. induction s as [|a s IH]; simpl; [done|].
  rewrite !andb_true_iff. intros [Ha Hs]. by split; [apply H|apply IH].
Qed.

Lemma string_rev_append_app (s acc : string) :
  string_rev_append s acc = string_rev s ++ acc.
Proof.
  unfold string_rev. revert acc. induction s as [|a s IH]; intros acc; simpl; [done|].
  rewrite IH, (IH (String a "")). by rewrite string_app_assoc.
Qed.

Lemma string_rev_cons (a : ascii) (s : string) : string_rev (String a s) = string_rev s ++ String a "".
Proof. unfold string_rev at 1. simpl. apply string_rev_append_app. Qed.

Lemma string_rev_app (s t : string) : string_rev (s ++ t) = string_rev t ++ string_rev s.
Proof.
  induction s as [|a s IH]; simpl; [by rewrite string_app_nil_r|].
  by rewrite !string_rev_cons, IH, string_app_assoc.
Qed.

Lemma string_rev_involutive (s : string) : string_rev (string_rev s) = s.
Proof. induction s as [|a s IH]; [done|]. by rewrite string_rev_cons, string_rev_app, IH. Qed.

Lemma TrimLeftBy_none (f : ascii → bool) (s : string) :
  all_bytes (λ a, negb (f a)) s = true → TrimLeftBy f s = s.
Proof. destruct s as [|a s]; [done|]. unfold all_bytes. simpl. by destruct (f a). Qed.

Lemma all_bytes_rev (f : ascii → bool) (s : string) : all_bytes f (string_rev s) = all_bytes f s.
Proof.
  induction s as [|a s IH]; [done|]. rewrite string_rev_cons, all_bytes_app, IH.
  unfold all_bytes. simpl. by rewrite andb_true_r, andb_comm.
Qed.

Lemma TrimRightBy_none (f : ascii → bool) (s : string) :
  all_bytes (λ a, negb (f a)) s = true → TrimRightBy f s = s.
Proof.
  intros H. unfold TrimRightBy. rewrite TrimLeftBy_none by (by rewrite all_bytes_rev).
  apply string_rev_involutive.
Qed.

(** Splitting at the first separator. *)
Lemma Split_nonempty (s : string) (sep : ascii) : Split s sep ≠ [].
Proof. destruct s as [|a s]; simpl; [done|]. destruct (Ascii.eqb a sep); [done|]. by destruct (Split s sep). Qed.

Lemma Split_app (a b : string) (sep : ascii) :
  all_bytes (λ x, negb (Ascii.eqb x sep)) a = true → Split (a ++ String sep b) sep = a :: Split b sep.
Proof.
  unfold all_bytes. induction a as [|x a IH]; simpl; [by rewrite Ascii.eqb_refl|].
  destruct (Ascii.eqb x sep); [done|]. simpl. intros H. by rewrite IH.
Qed.

Lemma lacks_not_eqb (sep : ascii) (s : string) :
  lacks sep s → all_bytes (λ x, negb (Ascii.eqb x sep)) s = true.
Proof.
  unfold all_bytes. induction s as [|a s IH]; [done|]. intros [Ha Hs]%lacks_cons. simpl.
  rewrite IH by done. destruct (Ascii.eqb_spec a sep); [by subst|done].
Qed.

Lemma Split_lacks (s : string) (sep : ascii) : lacks sep s → Split s sep = [s].
Proof.
  induction s as [|a s IH]; [done|]. intros [Ha Hs]%lacks_cons. cbn [Split].
  destruct (Ascii.eqb_spec a sep); [by subst|]. by rewrite IH.
Qed.

Lemma Split_Join (l : list string) (sep : ascii) :
  l ≠ [] → Forall (lacks sep) l → Split (Join l (String sep "")) sep = l.
Proof.
  intros Hne H. induction H as [|s l Hs Hl IH]; [done|].
  destruct l as [|s' l]; [by apply Split_lacks|].
  change (Join (s :: s' :: l) (String sep "")) with (s ++ String sep (Join (s' :: l) (String sep "")))%string.
  rewrite Split_app by (by apply lacks_not_eqb). by rewrite IH.
Qed.
