(* ===== verification/UtilsSlices.v ===== *)
(** * utils/slices.go: slices of strings and bytes

    A slice that the functions only read or copy is a list. *)

From Stdlib Require Import ZArith Lia String.
From stdpp Require Import list strings.
From S2P Require Import Prelude.
Local Open Scope Z_scope.

Fixpoint IndexOfString_from (i : Z) (a : list string) (s : string) : Z :=
  match a with
  | [] => -1
  | entry :: a' => if String.eqb entry s then i else IndexOfString_from (i + 1) a' s
  end.

Definition IndexOfString (a : list string) (s : string) : Z := IndexOfString_from 0 a s.

Definition StringInSlice (a : list string) (s : string) : bool := 0 <=? IndexOfString a s.

(** The slice that is returned. The array of the argument is overwritten, which
    the callers do not rely on. *)
Definition RemoveFromStringSlice (a : list string) (s : string) : list string :=
  let i := IndexOfString a s in
  if 0 <? i then take (Z.to_nat i) a ++ drop (Z.to_nat (i + 1)) a else a.

Fixpoint StringSliceEqual (a b : list string) : bool :=
  match a, b with
  | [], [] => true
  | v :: a', w :: b' => String.eqb v w && StringSliceEqual a' b'
  | _, _ => false
  end.

Lemma IndexOfString_from_spec i a s :
  0 ≤ i →
  (IndexOfString_from i a s = -1 ∧ s ∉ a) ∨
  (∃ n, IndexOfString_from i a s = i + Z.of_nat n ∧ a !! n = Some s ∧ s ∉ take n a).
Proof.
  revert i. induction a as [|x a IH]; intros i Hi; simpl.
  { left. split; [done|apply not_elem_of_nil]. }
  destruct (String.eqb_spec x s) as [->|Hx].
  - right. exists 0%nat. split_and!; [lia|done|apply not_elem_of_nil].
  - destruct (IH (i + 1)) as [[-> Hn]|(n & -> & Hl & Hn)]; [lia| |].
    + left. split; [done|]. rewrite not_elem_of_cons. done.
    + right. exists (S n). split_and!; [lia|done|]. simpl. rewrite not_elem_of_cons. done.
Qed.

Lemma StringInSlice_true a s : StringInSlice a s = true ↔ s ∈ a.
Proof.
  unfold StringInSlice, IndexOfString. destruct (IndexOfString_from_spec 0 a s) as [[-> Hn]|(n & -> & Hl & _)]; [lia| |].
  - split; [done|]. intros H. by destruct Hn.
  - split; [|intros _; apply Z.leb_le; lia]. intros _. by eapply list_elem_of_lookup_2.
Qed.

Lemma StringSliceEqual_true a b : StringSliceEqual a b = true ↔ a = b.
Proof.
  revert b. induction a as [|v a IH]; intros [|w b]; simpl; try done.
  rewrite andb_true_iff, String.eqb_eq, IH. naive_solver.
Qed.

(** The first occurrence is removed, unless it is at the start of the slice. *)
Lemma RemoveFromStringSlice_keeps_first (s : string) (a : list string) :
  RemoveFromStringSlice (s :: a) s = s :: a.
Proof. unfold RemoveFromStringSlice, IndexOfString. simpl. by rewrite String.eqb_refl. Qed.

Lemma RemoveFromStringSlice_removes (s : string) (a1 a2 : list string) :
  s ∉ a1 → a1 ≠ [] → RemoveFromStringSlice (a1 ++ s :: a2) s = a1 ++ a2.
Proof.
  intros Hn Hne. unfold RemoveFromStringSlice, IndexOfString.
  destruct (IndexOfString_from_spec 0 (a1 ++ s :: a2) s) as [[_ Hni]|(n & -> & Hl & Ht)]; [lia| |].
  { exfalso. apply Hni, elem_of_app. right. by left. }
  assert (n = length a1) as ->.
  { destruct (lt_eq_lt_dec n (length a1)) as [[Hlt|]|Hgt]; [|done|].
    - rewrite lookup_app_l in Hl by done. exfalso. by eapply Hn, list_elem_of_lookup_2.
    - exfalso. apply Ht, elem_of_take. exists (length a1). split; [|done].
      by rewrite lookup_app_r, Nat.sub_diag by done. }
  destruct (Z.ltb_spec 0 (0 + Z.of_nat (length a1))) as [_|Hz]; [|destruct a1; [done|simpl in Hz; lia]].
  replace (Z.to_nat (0 + Z.of_nat (length a1))) with (length a1) by lia.
  replace (Z.to_nat (0 + Z.of_nat (length a1) + 1)) with (S (length a1)) by lia.
  rewrite take_app_length, drop_app_ge by lia. by replace (S (length a1) - length a1)%nat with 1%nat by lia.
Qed.
