(* ===== verification/Varint.v ===== *)
(** * formats/varint: variable-length integers and length-prefixed blocks

    [Pack8] ... [Unpack64] of varint.go, [PrependLength], [GetNextBlock] and
    [EncodedSize] of helpers.go, and the two functions of Go's encoding/binary
    they call. Every function is total here; a write past the end of a buffer
    and a slice expression out of range are [Panic]. *)

From Stdlib Require Import ZArith Lia.
From S2P Require Import Prelude.
Local Open Scope Z_scope.

(** The errors of the package, one constructor per message. *)
Inductive varint_error : Type :=
| ErrBufTooSmall
| ErrGreaterThanUint8
| ErrGreaterThanUint16
| ErrGreaterThanUint32
| ErrGreaterThanUint64
| ErrNotEnoughData.

#[global] Instance varint_error_eq_dec : EqDecision varint_error.
Proof. solve_decision. Defined.

(** ** encoding/binary *)

(** [binary.PutUvarint(buf, x)] followed by [buf[:w]]: the bytes written. The
    buffer bounds the loop; a write past its end panics. *)
Fixpoint PutUvarint (buf : bytes) (x : Z) : go varint_error bytes :=
  match buf with
  | [] => Panic
  | _ :: buf' =>
      if 128 <=? x
      then let! written := PutUvarint buf' (Z.shiftr x 7) in
           Ret (Z.lor (u8 x) 128 :: written)
      else Ret [u8 x]
  end.

(** The loop of [binary.Uvarint]: [i] is the index, [x] the value so far and
    [s] the shift. The result is the value and the count: 0 when the buffer is
    too small, negative on an overflow. *)
Fixpoint Uvarint_loop (buf : bytes) (i x s : Z) : Z * Z :=
  match buf with
  | [] => (0, 0)
  | b :: buf' =>
      if i =? 10 then (0, - (i + 1))
      else if b <? 128 then
        if (i =? 9) && (1 <? b) then (0, - (i + 1))
        else (Z.lor x (u64 (Z.shiftl b s)), i + 1)
      else Uvarint_loop buf' (i + 1) (Z.lor x (u64 (Z.shiftl (Z.land b 127) s))) (s + 7)
  end.

Definition Uvarint (buf : bytes) : Z * Z := Uvarint_loop buf 0 0 0.

(** ** varint.go *)

Definition Pack8 (n : Z) : bytes :=
  if n <? 128 then [n] else [n; 1].

Definition Pack16 (n : Z) : go varint_error bytes :=
  PutUvarint (replicate 3 0) n.

Definition Pack32 (n : Z) : go varint_error bytes :=
  PutUvarint (replicate 5 0) n.

Definition Pack64 (n : Z) : go varint_error bytes :=
  PutUvarint (replicate 10 0) n.

Definition Unpack8 (blob : bytes) : go varint_error (Z * Z) :=
  match blob with
  | [] => Fail ErrBufTooSmall
  | b0 :: blob' =>
      if b0 <? 128 then Ret (b0, 1)
      else match blob' with
           | [] => Fail ErrBufTooSmall
           | b1 :: _ =>
               if negb (b1 =? 1) then Fail ErrGreaterThanUint8
               else Ret (b0, 1)
           end
  end.

Definition Unpack16 (blob : bytes) : go varint_error (Z * Z) :=
  let '(n, r) := Uvarint blob in
  if r =? 0 then Fail ErrBufTooSmall
  else if r <? 0 then Fail ErrGreaterThanUint64
  else if 65535 <? n then Fail ErrGreaterThanUint16
  else Ret (u16 n, r).

Definition Unpack32 (blob : bytes) : go varint_error (Z * Z) :=
  let '(n, r) := Uvarint blob in
  if r =? 0 then Fail ErrBufTooSmall
  else if r <? 0 then Fail ErrGreaterThanUint64
  else if 4294967295 <? n then Fail ErrGreaterThanUint32
  else Ret (u32 n, r).

Definition Unpack64 (blob : bytes) : go varint_error (Z * Z) :=
  let '(n, r) := Uvarint blob in
  if r =? 0 then Fail ErrBufTooSmall
  else if r <? 0 then Fail ErrGreaterThanUint64
  else Ret (n, r).

(** ** helpers.go *)

Definition PrependLength (data : bytes) : go varint_error bytes :=
  let! l := Pack64 (u64 (len data)) in
  Ret (l ++ data).

(** [int(l)] and the addition wrap at 64 bits. *)
Definition GetNextBlock (data : bytes) : go varint_error (bytes * Z) :=
  let! (l, n) := Unpack64 data in
  let length := s64 l in
  let totalLength := s64 (length + n) in
  if len data <? totalLength then Fail ErrNotEnoughData
  else let! block := slice data n totalLength in
       Ret (block, totalLength).

Definition EncodedSize (n : Z) : Z :=
  if n <? Z.shiftl 1 7 then 1
  else if n <? Z.shiftl 1 14 then 2
  else if n <? Z.shiftl 1 21 then 3
  else if n <? Z.shiftl 1 28 then 4
  else if n <? Z.shiftl 1 35 then 5
  else if n <? Z.shiftl 1 42 then 6
  else if n <? Z.shiftl 1 49 then 7
  else if n <? Z.shiftl 1 56 then 8
  else if n <? Z.shiftl 1 63 then 9
  else 10.

(** ** Lemmas *)

(** A buffer of [k] bytes is enough for [7 * k] bits, and the encoding has
    between one byte and the size of the buffer. *)
Lemma PutUvarint_enough (buf : bytes) (x : Z) :
  0 ≤ x < 2 ^ (7 * len buf) → 0 < len buf →
  ∃ out, PutUvarint buf x = Ret out ∧ 0 < len out ≤ len buf ∧ bytes_ok out.
Proof.
  revert x. induction buf as [|b buf IH]; intros x Hx Hlen; [done|].
  cbn [PutUvarint]. rewrite len_cons in *. step_if.
  - destruct buf as [|b' buf'].
    { change (2 ^ (7 * (len (@nil Z) + 1))) with 128 in Hx. lia. }
    destruct (IH (Z.shiftr x 7)) as (out & -> & Hout & Hok).
    + rewrite Z.shiftr_div_pow2 by done. split; [apply Z.div_pos; lia|].
      apply Z.div_lt_upper_bound; [done|]. rewrite <- Z.pow_add_r; [|done|unfold len; lia].
      replace (7 + 7 * len (b' :: buf')) with (7 * (len (b' :: buf') + 1)) by lia. lia.
    + rewrite len_cons. pose proof (len_nonneg buf'). lia.
    + simpl. eexists. split; [done|]. rewrite len_cons. split; [lia|].
      constructor; [|done].
      apply (lor_bound _ _ 8); [done|apply u8_is_u8|done].
  - eexists. split; [done|]. rewrite len_singleton.
    pose proof (len_nonneg buf). split; [lia|]. repeat constructor; apply u8_is_u8.
Qed.

Lemma u64_shiftl (b s k : Z) :
  0 ≤ s → s + k ≤ 64 → 0 ≤ b < 2 ^ k → 0 ≤ k → u64 (Z.shiftl b s) = Z.shiftl b s.
Proof.
  intros Hs Hsk Hb Hk. apply u64_small. unfold is_u64.
  rewrite Z.shiftl_mul_pow2 by done. split; [nia|].
  apply Z.lt_le_trans with (2 ^ k * 2 ^ s); [apply Z.mul_lt_mono_pos_r; [apply Z.pow_pos_nonneg|]; lia|].
  rewrite <- Z.pow_add_r by done. apply Z.pow_le_mono_r; lia.
Qed.

Lemma land_127_lor_128 (x : Z) : Z.land (Z.lor (u8 x) 128) 127 = x `mod` 2 ^ 7.
Proof.
  rewrite <- Z.land_ones by done. unfold u8. change 256 with (2 ^ 8). rewrite <- (Z.land_ones x 8) by done.
  apply Z.bits_inj'. intros n Hn.
  rewrite !Z.land_spec, Z.lor_spec, Z.land_spec.
  change 127 with (Z.ones 7). rewrite !Z.testbit_ones by lia.
  destruct (decide (n < 7)).
  - change 128 with (2 ^ 7). rewrite (Z.pow2_bits_false 7 n) by lia.
    replace (0 <=? n) with true by (symmetry; apply Z.leb_le; lia).
    replace (n <? 7) with true by (symmetry; apply Z.ltb_lt; lia).
    replace (n <? 8) with true by (symmetry; apply Z.ltb_lt; lia).
    simpl. by rewrite !andb_true_r, orb_false_r.
  - replace (n <? 7) with false by (symmetry; apply Z.ltb_ge; lia).
    by rewrite !andb_false_r.
Qed.

(** The decoder inverts the encoder, from any point of the loop. *)
Lemma Uvarint_loop_PutUvarint (buf : bytes) (n : Z) (out rest : bytes) (i x : Z) :
  PutUvarint buf n = Ret out →
  0 ≤ i ≤ 9 → 0 ≤ n < 2 ^ (64 - 7 * i) → 0 ≤ x < 2 ^ (7 * i) →
  Uvarint_loop (out ++ rest) i x (7 * i) = (x + n * 2 ^ (7 * i), i + len out).
Proof.
  revert n out i x. induction buf as [|b buf IH]; intros n out i x Hput Hi Hn Hx; [done|].
  cbn [PutUvarint] in Hput. step_if.
  - destruct (PutUvarint buf (Z.shiftr n 7)) as [out'| |] eqn:Hput'; simplify_eq/=.
    destruct (decide (i = 9)) as [->|Hi9]; [change (2 ^ (64 - 7 * 9)) with 2 in Hn; lia|].
    rewrite (proj2 (Z.eqb_neq i 10)) by lia.
    assert (128 ≤ Z.lor (u8 n) 128) as Hge.
    { pose proof (u8_is_u8 n) as [Hu0 _].
      rewrite Z.lor_comm. apply Z.ldiff_le; [apply Z.lor_nonneg; lia|].
      apply Z.bits_inj'. intros k Hk. rewrite Z.ldiff_spec, Z.lor_spec, Z.bits_0.
      by destruct (Z.testbit 128 k). }
    rewrite (proj2 (Z.ltb_ge _ _) Hge), land_127_lor_128.
    pose proof (Z.mod_pos_bound n (2 ^ 7) ltac:(lia)) as Hmod.
    rewrite (u64_shiftl _ _ 7) by lia.
    rewrite lor_shiftl_add by lia.
    replace (7 * i + 7) with (7 * (i + 1)) by lia.
    rewrite (IH (Z.shiftr n 7) out').
    + rewrite len_cons, Z.shiftr_div_pow2 by done. f_equal; [|lia].
      replace (7 * (i + 1)) with (7 + 7 * i) by lia. rewrite Z.pow_add_r by lia.
      rewrite (Z.div_mod n (2 ^ 7)) at 3 by lia. lia.
    + done.
    + lia.
    + rewrite Z.shiftr_div_pow2 by done. split; [apply Z.div_pos; lia|].
      apply Z.div_lt_upper_bound; [done|]. rewrite <- Z.pow_add_r by lia.
      replace (7 + (64 - 7 * (i + 1))) with (64 - 7 * i) by lia. lia.
    + replace (7 * (i + 1)) with (7 + 7 * i) by lia. rewrite Z.pow_add_r by lia. nia.
  - cbn [app Uvarint_loop]. rewrite u8_small by (unfold is_u8; lia).
    rewrite (proj2 (Z.eqb_neq i 10)) by lia. rewrite (proj2 (Z.ltb_lt n 128)) by lia.
    destruct ((i =? 9) && (1 <? n)) eqn:Hov.
    { bool_to_prop. subst i. change (2 ^ (64 - 7 * 9)) with 2 in Hn. lia. }
    rewrite (u64_shiftl _ _ (64 - 7 * i)) by lia. rewrite lor_shiftl_add by lia.
    by rewrite len_singleton.
Qed.

Lemma Uvarint_PutUvarint (buf : bytes) (n : Z) (out rest : bytes) :
  PutUvarint buf n = Ret out → is_u64 n → Uvarint (out ++ rest) = (n, len out).
Proof.
  intros Hput Hn. unfold Uvarint. change (Uvarint_loop _ 0 0 0) with (Uvarint_loop (out ++ rest) 0 0 (7 * 0)).
  rewrite (Uvarint_loop_PutUvarint buf n out rest 0 0 Hput ltac:(lia) Hn ltac:(done)).
  change (2 ^ (7 * 0)) with 1. f_equal. lia.
Qed.

(** [Pack64] never panics and its length is between 1 and 10. *)
Lemma Pack64_ret (n : Z) :
  is_u64 n → ∃ out, Pack64 n = Ret out ∧ 0 < len out ≤ 10 ∧ bytes_ok out.
Proof.
  intros [H0 H]. apply (PutUvarint_enough (replicate 10 0) n); [|done].
  split; [done|]. apply (Z.lt_le_trans _ _ _ H). done.
Qed.

Lemma Pack64_bounds (n : Z) (out : bytes) :
  is_u64 n → Pack64 n = Ret out → 0 < len out ≤ 10 ∧ bytes_ok out.
Proof.
  intros Hn Hp. destruct (Pack64_ret n Hn) as (out' & Hp' & H).
  rewrite Hp in Hp'. by simplify_eq.
Qed.

Lemma Unpack64_Pack64 (n : Z) (out rest : bytes) :
  is_u64 n → Pack64 n = Ret out → Unpack64 (out ++ rest) = Ret (n, len out).
Proof.
  intros Hn Hp. destruct (Pack64_bounds n out Hn Hp) as [Hlen _].
  unfold Unpack64. rewrite (Uvarint_PutUvarint _ n out rest Hp Hn).
  by zcmp.
Qed.

Lemma Unpack8_read (blob : bytes) (n r : Z) : Unpack8 blob = Ret (n, r) → r = 1 ∧ (1 ≤ len blob).
Proof.
  unfold Unpack8, len. intros H. destruct blob as [|b0 [|b1 blob]]; simpl in H; repeat case_match; simplify_eq; (split; [done|simpl; lia]).
Qed.

(** Splitting off a length-prefixed block. *)
Lemma GetNextBlock_block (data pre rest : bytes) :
  len (pre ++ data) < 2 ^ 63 → Pack64 (u64 (len data)) = Ret pre →
  GetNextBlock (pre ++ data ++ rest) = Ret (data, len pre + len data).
Proof.
  rewrite len_app. intros Hlt Hp. pose proof (len_nonneg data). pose proof (len_nonneg pre).
  assert (is_u64 (len data)) as Hn by (unfold is_u64; lia).
  rewrite u64_small in Hp by done.
  unfold GetNextBlock. rewrite (Unpack64_Pack64 (len data)) by done. cbn [go_bind].
  rewrite (s64_small (len data)) by (unfold is_s64; lia).
  rewrite s64_small by (unfold is_s64; lia).
  pose proof (len_nonneg rest).
  zcmp_with ltac:(rewrite ?len_app; lia).
  replace (len data + len pre) with (len pre + len data) by lia.
  by rewrite slice_middle.
Qed.

Lemma PutUvarint_len_bounds (buf : bytes) (x : Z) (out : bytes) (k : Z) :
  PutUvarint buf x = Ret out → 0 ≤ x → 0 ≤ k →
  (len out ≤ k + 1 ↔ x < 2 ^ (7 * (k + 1))).
Proof.
  revert x out k. induction buf as [|b buf IH]; intros x out k Hput Hx Hk; [done|].
  cbn [PutUvarint] in Hput. step_if.
  - destruct (PutUvarint buf (Z.shiftr x 7)) as [out'| |] eqn:Hput'; simplify_eq/=.
    rewrite len_cons.
    assert (0 ≤ Z.shiftr x 7) as Hs by (apply Z.shiftr_nonneg; lia).
    destruct (decide (k = 0)) as [->|Hk0].
    { change (2 ^ (7 * (0 + 1))) with 128.
      assert (0 < len out'); [|lia].
      destruct buf as [|b' buf']; [done|]. cbn [PutUvarint] in Hput'. step_if.
      - destruct (PutUvarint buf' _); simplify_eq/=. rewrite len_cons.
        match goal with |- context [len ?l] => pose proof (len_nonneg l) end. lia.
      - done. }
    rewrite Z.shiftr_div_pow2 in * by done.
    specialize (IH _ _ (k - 1) Hput' Hs ltac:(lia)).
    replace (k - 1 + 1) with k in IH by lia.
    replace (7 * (k + 1)) with (7 * k + 7) by lia. rewrite Z.pow_add_r by lia.
    assert (len out' + 1 ≤ k + 1 ↔ len out' ≤ k) as -> by lia. rewrite IH.
    change (2 ^ 7) with 128 in *. split; intros.
    + rewrite (Z.div_mod x 128) by done. pose proof (Z.mod_pos_bound x 128). lia.
    + apply Z.div_lt_upper_bound; lia.
  - rewrite len_singleton. split; intros _; [|lia].
    apply Z.lt_le_trans with (2 ^ 7); [lia|]. apply Z.pow_le_mono_r; lia.
Qed.

Lemma EncodedSize_spec (n k : Z) :
  0 ≤ n → 1 ≤ k → n < 2 ^ 64 → (EncodedSize n ≤ k ↔ n < 2 ^ (7 * k) ∨ 10 ≤ k).
Proof.
  intros Hn Hk Hlt. unfold EncodedSize. rewrite !Z.shiftl_1_l.
  destruct (decide (10 ≤ k)).
  { repeat case_match; split; intros; lia. }
  assert (k = 1 ∨ k = 2 ∨ k = 3 ∨ k = 4 ∨ k = 5 ∨ k = 6 ∨ k = 7 ∨ k = 8 ∨ k = 9) as Hcases by lia.
  destruct_or! Hcases; subst k; repeat case_match; bool_to_prop; split; intros; lia.
Qed.

(** The announced size is the number of bytes [Pack64] produces. *)
Lemma Pack64_len (n : Z) (out : bytes) :
  is_u64 n → Pack64 n = Ret out → len out = EncodedSize n.
Proof.
  intros Hn Hp. destruct (Pack64_bounds n out Hn Hp) as [Hlen _]. destruct Hn as [Hn0 Hn1].
  assert (∀ k, 1 ≤ k ≤ 9 → (len out ≤ k ↔ EncodedSize n ≤ k)) as Hk.
  { intros k Hk. rewrite EncodedSize_spec by lia.
    pose proof (PutUvarint_len_bounds _ n out (k - 1) Hp ltac:(lia) ltac:(lia)) as Hb.
    replace (k - 1 + 1) with k in Hb by lia. lia. }
  assert (1 ≤ EncodedSize n ≤ 10) as He by (unfold EncodedSize; repeat case_match; lia).
  pose proof (Hk (len out)). pose proof (Hk (EncodedSize n)). lia.
Qed.

(** What [Uvarint] reports lies within the buffer and in 64 bits. *)
Lemma Uvarint_loop_bounds (buf : bytes) (i x n r : Z) :
  bytes_ok buf → 0 ≤ i ≤ 10 → 0 ≤ x < 2 ^ 64 →
  Uvarint_loop buf i x (7 * i) = (n, r) → 0 < r →
  0 ≤ n < 2 ^ 64 ∧ i < r ≤ 10 ∧ r ≤ i + len buf.
Proof.
  revert i x. induction buf as [|b buf IH]; intros i x Hok Hi Hx Hu Hr; simpl in Hu; [simplify_eq; lia|].
  apply Forall_cons in Hok as [Hb Hok]. rewrite len_cons. pose proof (len_nonneg buf).
  assert (∀ y, 0 ≤ u64 y < 2 ^ 64) as Hu64 by (intros y; apply Z.mod_pos_bound; lia).
  destruct (i =? 10) eqn:Hi10; bool_to_prop; [simplify_eq; lia|].
  destruct (b <? 128) eqn:Hb128; bool_to_prop.
  - destruct ((i =? 9) && (1 <? b)); simplify_eq; [lia|].
    split; [by apply lor_bound|lia].
  - replace (7 * i + 7) with (7 * (i + 1)) in Hu by lia.
    apply IH in Hu; [lia|done|lia|by apply lor_bound|done].
Qed.

Lemma Unpack64_bounds (data : bytes) (l n : Z) :
  bytes_ok data → Unpack64 data = Ret (l, n) →
  0 ≤ l < 2 ^ 64 ∧ 0 < n ≤ 10 ∧ n ≤ len data.
Proof.
  intros Hok Hu. unfold Unpack64, Uvarint in Hu.
  destruct (Uvarint_loop data 0 0 0) as [l' n'] eqn:Hl. repeat case_match; simplify_eq. bool_to_prop.
  apply (Uvarint_loop_bounds data 0 0) in Hl; [lia|done|lia|lia|lia].
Qed.

(** ** Properties *)

(** Every uint64 survives [Pack64] and [Unpack64], whatever follows it in
    the stream; packing never overruns its ten-byte buffer, [Unpack64] reports
    exactly the bytes that were written, and [EncodedSize] predicts them. *)
Theorem varint_roundtrip (n : Z) (rest : bytes) :
  is_u64 n →
  ∃ out, Pack64 n = Ret out ∧ Unpack64 (out ++ rest) = Ret (n, len out) ∧
    len out = EncodedSize n.
Proof.
  intros Hn. destruct (Pack64_ret n Hn) as (out & Hp & _).
  exists out. split; [done|]. split; [by apply Unpack64_Pack64|by apply Pack64_len].
Qed.

Lemma varint_roundtrip_witness :
  ∃ out, Pack64 (2 ^ 64 - 1) = Ret out ∧ Unpack64 (out ++ [7]) = Ret (2 ^ 64 - 1, len out) ∧
    len out = EncodedSize (2 ^ 64 - 1).
Proof. apply (varint_roundtrip (2 ^ 64 - 1) [7]). unfold is_u64. lia. Defined.

(** The buffers of [Pack16] (3 bytes) and [Pack32] (5 bytes) hold every
    value of their width, so packing cannot panic, and unpacking returns the
    value with the number of bytes written. *)
Theorem varint_roundtrip_narrow (n : Z) (rest : bytes) :
  0 ≤ n →
  (n < 2 ^ 16 → ∃ out, Pack16 n = Ret out ∧ Unpack16 (out ++ rest) = Ret (n, len out)) ∧
  (n < 2 ^ 32 → ∃ out, Pack32 n = Ret out ∧ Unpack32 (out ++ rest) = Ret (n, len out)).
Proof.
  intros H0. split; intros Hn.
  - destruct (PutUvarint_enough (replicate 3 0) n) as (out & Hp & Hlen & _); [|done|].
    { split; [done|]. by apply (Z.lt_le_trans _ _ _ Hn). }
    exists out. split; [done|]. unfold Unpack16.
    rewrite (Uvarint_PutUvarint _ n out rest Hp) by (unfold is_u64; lia).
    zcmp. unfold u16. by rewrite Z.mod_small by lia.
  - destruct (PutUvarint_enough (replicate 5 0) n) as (out & Hp & Hlen & _); [|done|].
    { split; [done|]. by apply (Z.lt_le_trans _ _ _ Hn). }
    exists out. split; [done|]. unfold Unpack32.
    rewrite (Uvarint_PutUvarint _ n out rest Hp) by (unfold is_u64; lia).
    zcmp. unfold u32. by rewrite Z.mod_small by lia.
Qed.

Lemma varint_roundtrip_narrow_witness :
  (65535 < 2 ^ 16 → ∃ out, Pack16 65535 = Ret out ∧ Unpack16 (out ++ []) = Ret (65535, len out)) ∧
  (65535 < 2 ^ 32 → ∃ out, Pack32 65535 = Ret out ∧ Unpack32 (out ++ []) = Ret (65535, len out)).
Proof. apply (varint_roundtrip_narrow 65535 []). lia. Defined.

(** [Unpack8] returns the packed byte, but it reports one byte read also
    for the two-byte form [Pack8] gives to 128 and above, so a reader that
    advances by the reported count stops in the middle of the integer. *)
Theorem Unpack8_reports_one_byte (n : Z) (rest : bytes) :
  is_u8 n →
  Unpack8 (Pack8 n ++ rest) = Ret (n, 1) ∧
  (128 ≤ n → len (Pack8 n) = 2 ∧ drop 1 (Pack8 n ++ rest) = 1 :: rest).
Proof.
  intros [Hn0 Hn1]. unfold Pack8, Unpack8.
  destruct (n <? 128) eqn:Hn; bool_to_prop; simpl; zcmp; [split; [done|lia]|done].
Qed.

Lemma Unpack8_reports_one_byte_witness :
  Unpack8 (Pack8 200 ++ [5]) = Ret (200, 1) ∧
  (128 ≤ 200 → len (Pack8 200) = 2 ∧ drop 1 (Pack8 200 ++ [5]) = [1; 5]).
Proof. apply (Unpack8_reports_one_byte 200 [5]). unfold is_u8. lia. Defined.

(** [GetNextBlock] on any data whose length prefix decodes: it returns
    exactly the announced block when it is there, the error when it is not,
    and it panics on a slice out of range when the announced end does not fit
    a positive int64. *)
Theorem GetNextBlock_outcome (data : bytes) (l n : Z) :
  bytes_ok data → len data < 2 ^ 63 → Unpack64 data = Ret (l, n) →
  GetNextBlock data =
    (if l + n <=? len data then
       Ret (take (Z.to_nat l) (drop (Z.to_nat n) data), l + n)
     else if l + n <? 2 ^ 63 then Fail ErrNotEnoughData
     else Panic).
Proof.
  intros Hok Hdata Hu. destruct (Unpack64_bounds data l n Hok Hu) as (Hl & Hn & Hnd).
  unfold GetNextBlock. rewrite Hu. cbn [go_bind].
  destruct (decide (l < 2 ^ 63)) as [Hsmall|Hbig].
  - rewrite (s64_small l) by (unfold is_s64; lia).
    destruct (decide (l + n < 2 ^ 63)) as [Hfit|Hover].
    + rewrite (s64_small (l + n)) by (unfold is_s64; lia).
      destruct (decide (l + n ≤ len data)); zcmp; [|done].
      unfold slice. rewrite bool_decide_true by lia.
      by replace (l + n - n) with l by lia.
    + rewrite (s64_wrap (l + n)) by lia.
      zcmp. unfold slice. rewrite bool_decide_false by lia. done.
  - rewrite (s64_wrap l) by lia.
    rewrite (s64_small (l - 2 ^ 64 + n)) by (unfold is_s64; lia).
    zcmp. unfold slice. rewrite bool_decide_false by lia. done.
Qed.

Lemma GetNextBlock_outcome_witness :
  GetNextBlock (replicate 9 255 ++ [1; 42]) = Panic.
Proof.
  rewrite (GetNextBlock_outcome _ (2 ^ 64 - 1) 10); [vm_compute; reflexivity| | |vm_compute; reflexivity].
  - unfold bytes_ok, is_u8. simpl. repeat constructor; lia.
  - vm_compute. reflexivity.
Defined.
