(* ===== verification/Dsd.v ===== *)
(** * formats/dsd: dynamically structured data

    Format identifiers and their validation (format.go), dumping and loading
    with an identifier (dsd.go), the compressed variant (compression.go) and
    the HTTP helpers (http.go). The codecs (encoding/json, ghodss/yaml,
    fxamacker/cbor, vmihailenco/msgpack, compress/gzip) and the type of the
    dumped value are parameters, collected in the class [Codecs]; what the
    program relies on is the class [CodecLaws]. *)

From Stdlib Require Import ZArith Lia Ascii String.
From S2P Require Import Prelude GoStrings Varint.

(** ** format.go *)

Definition AUTO : Z := 0.
Definition RAW : Z := 1.
Definition CBOR : Z := 67.
Definition GenCode : Z := 71.
Definition JSON : Z := 74.
Definition MsgPack : Z := 77.
Definition YAML : Z := 89.
Definition GZIP : Z := 90.
Definition LIST : Z := 76.

Definition DefaultSerializationFormat : Z := JSON.
Definition DefaultCompressionFormat : Z := GZIP.

(** [(format, true)] is [Some format], [(0, false)] is [None]. *)
Definition ValidateSerializationFormat (format : Z) : option Z :=
  if (format =? AUTO)%Z then Some DefaultSerializationFormat
  else if (format =? RAW)%Z then Some format
  else if (format =? CBOR)%Z then Some format
  else if (format =? GenCode)%Z then Some format
  else if (format =? JSON)%Z then Some format
  else if (format =? YAML)%Z then Some format
  else if (format =? MsgPack)%Z then Some format
  else None.

Definition ValidateCompressionFormat (format : Z) : option Z :=
  if (format =? AUTO)%Z then Some DefaultCompressionFormat
  else if (format =? GZIP)%Z then Some format
  else None.

(** ** Codecs *)

(** [T] is the Go type behind the interface value and [X] the errors of the
    codec libraries. [gencode_*] and [raw_bytes] are [None] when [T] fails the
    type assertion to GenCodeCompatible, or to []byte. *)
Class Codecs (T X : Type) := {
  json_Marshal : T → X + bytes;
  json_MarshalIndent : string → T → X + bytes;
  json_Unmarshal : bytes → X + T;
  yaml_Marshal : T → X + bytes;
  yaml_Unmarshal : bytes → X + T;
  cbor_Marshal : T → X + bytes;
  cbor_Unmarshal : bytes → X + T;
  msgpack_Marshal : T → X + bytes;
  msgpack_Unmarshal : bytes → X + T;
  gencode_Marshal : option (T → X + bytes);
  gencode_Unmarshal : option (bytes → X + T);
  raw_bytes : T → option bytes;
  gzip_compress : bytes → X + bytes;
  gzip_decompress : bytes → X + bytes;
}.

Inductive dsd_error (X : Type) : Type :=
| ErrIncompatibleFormat
| ErrIsRaw
| ErrUnexpectedEOF
| ErrIdentifier (e : varint_error)
| ErrGenCodeUnsupported
| ErrUnpack (format : Z) (e : X)
| ErrPack (format : Z) (e : X)
| ErrCompression (e : X)
| ErrSerialize (e : dsd_error X).
Arguments ErrIncompatibleFormat {X}.
Arguments ErrIsRaw {X}.
Arguments ErrUnexpectedEOF {X}.
Arguments ErrIdentifier {X} e.
Arguments ErrGenCodeUnsupported {X}.
Arguments ErrUnpack {X} format e.
Arguments ErrPack {X} format e.
Arguments ErrCompression {X} e.
Arguments ErrSerialize {X} e.

(** ** dsd.go *)

Section Dsd.
Context {T X : Type} `{!Codecs T X}.

Definition of_codec {A : Type} (wrap : X → dsd_error X) (r : X + A) : go (dsd_error X) A :=
  match r with
  | inl e => Fail (wrap e)
  | inr a => Ret a
  end.

Definition LoadAsFormat (data : bytes) (format : Z) : go (dsd_error X) T :=
  if (format =? RAW)%Z then Fail ErrIsRaw
  else if (format =? JSON)%Z then of_codec (ErrUnpack JSON) (json_Unmarshal data)
  else if (format =? YAML)%Z then of_codec (ErrUnpack YAML) (yaml_Unmarshal data)
  else if (format =? CBOR)%Z then of_codec (ErrUnpack CBOR) (cbor_Unmarshal data)
  else if (format =? MsgPack)%Z then of_codec (ErrUnpack MsgPack) (msgpack_Unmarshal data)
  else if (format =? GenCode)%Z then
    match gencode_Unmarshal with
    | None => Fail ErrGenCodeUnsupported
    | Some unmarshal => of_codec (ErrUnpack GenCode) (unmarshal data)
    end
  else Fail ErrIncompatibleFormat.

Definition loadFormat (data : bytes) : go (dsd_error X) (Z * Z) :=
  let! (format, read) := go_mapError ErrIdentifier (Unpack8 data) in
  if (len data <=? read)%Z then Fail ErrUnexpectedEOF
  else Ret (format, read).

(** ** compression.go, loading *)

(** The source validates the format and then switches on the unvalidated
    parameter. *)
Definition DecompressAndLoad (data : bytes) (compression : Z) : go (dsd_error X) (Z * T) :=
  match ValidateCompressionFormat compression with
  | None => Fail ErrIncompatibleFormat
  | Some _ =>
      if (compression =? GZIP)%Z then
        let! data := of_codec ErrCompression (gzip_decompress data) in
        let! (format, read) := loadFormat data in
        let! body := slice data read (len data) in
        let! t := LoadAsFormat body format in
        Ret (format, t)
      else Fail ErrIncompatibleFormat
  end.

Definition Load (data : bytes) : go (dsd_error X) (Z * T) :=
  let! (format, read) := loadFormat data in
  let! body := slice data read (len data) in
  match ValidateSerializationFormat format with
  | Some _ => let! t := LoadAsFormat body format in Ret (format, t)
  | None => DecompressAndLoad body format
  end.

Definition dumpWithoutIdentifier (t : T) (format : Z) (indent : string)
    : go (dsd_error X) bytes :=
  match ValidateSerializationFormat format with
  | None => Fail ErrIncompatibleFormat
  | Some format =>
      if (format =? RAW)%Z then
        match raw_bytes t with
        | Some data => Ret data
        | None => Fail ErrIncompatibleFormat
        end
      else if (format =? JSON)%Z then
        if negb (String.eqb indent "") then of_codec (ErrPack JSON) (json_MarshalIndent indent t)
        else of_codec (ErrPack JSON) (json_Marshal t)
      else if (format =? YAML)%Z then of_codec (ErrPack YAML) (yaml_Marshal t)
      else if (format =? CBOR)%Z then of_codec (ErrPack CBOR) (cbor_Marshal t)
      else if (format =? MsgPack)%Z then of_codec (ErrPack MsgPack) (msgpack_Marshal t)
      else if (format =? GenCode)%Z then
        match gencode_Marshal with
        | None => Fail ErrGenCodeUnsupported
        | Some marshal => of_codec (ErrPack GenCode) (marshal t)
        end
      else Fail ErrIncompatibleFormat
  end.

(** The identifier written is the format as given, not as validated. *)
Definition DumpIndent (t : T) (format : Z) (indent : string) : go (dsd_error X) bytes :=
  let! data := dumpWithoutIdentifier t format indent in
  Ret (Pack8 format ++ data).

Definition Dump (t : T) (format : Z) : go (dsd_error X) bytes := DumpIndent t format "".

(** ** compression.go, dumping *)

Definition DumpAndCompress (t : T) (format compression : Z) : go (dsd_error X) bytes :=
  match ValidateCompressionFormat compression with
  | None => Fail ErrIncompatibleFormat
  | Some compression =>
      let! data := Dump t format in
      let packetFormat := Pack8 compression in
      if (compression =? GZIP)%Z then
        let! compressed := of_codec ErrCompression (gzip_compress data) in
        Ret (packetFormat ++ compressed)
      else Fail ErrIncompatibleFormat
  end.

(** ** http.go *)

(** The parts of a request and of a response these functions use. *)
Record http_request : Type := mkRequest {
  req_Accept : string;
  req_ContentType : string;
  req_Body : bytes;
}.

Record http_response : Type := mkResponse {
  resp_ContentType : string;
  resp_Body : bytes;
}.

Definition FormatToMimeType (format : Z) : option string :=
  if (format =? CBOR)%Z then Some "application/cbor"
  else if (format =? JSON)%Z then Some "application/json"
  else if (format =? MsgPack)%Z then Some "application/msgpack"
  else if (format =? YAML)%Z then Some "application/yaml"
  else None.

Definition MimeTypeToFormat (mimeType : string) : option Z :=
  if String.eqb mimeType "cbor" then Some CBOR
  else if String.eqb mimeType "json" then Some JSON
  else if String.eqb mimeType "msgpack" then Some MsgPack
  else if String.eqb mimeType "yaml" then Some YAML
  else if String.eqb mimeType "yml" then Some YAML
  else None.

(** The body of the loop: from a list element to the name that is looked up. *)
Definition cleanMimeType (mimeType : string) : string :=
  let mimeType := TrimSpace mimeType in
  let mimeType := match Cut mimeType ";" with Some (before, _) => before | None => mimeType end in
  let mimeType :=
    if Contains mimeType "/"
    then match Cut mimeType "/" with Some (_, after) => after | None => "" end
    else mimeType in
  ToLower mimeType.

Fixpoint FormatFromAccept_loop (types : list string) (foundWildcard : bool) : Z :=
  match types with
  | [] => if foundWildcard then DefaultSerializationFormat else AUTO
  | mimeType :: types' =>
      let mimeType := cleanMimeType mimeType in
      match MimeTypeToFormat mimeType with
      | Some format => format
      | None => FormatFromAccept_loop types' (foundWildcard || String.eqb mimeType "*")
      end
  end.

Definition FormatFromAccept (accept : string) : Z :=
  if String.eqb accept "" then DefaultSerializationFormat
  else FormatFromAccept_loop (Split accept ",") false.

Definition MimeLoad (data : bytes) (accept : string) : go (dsd_error X) (Z * T) :=
  let format := FormatFromAccept accept in
  if (format =? 0)%Z then Fail ErrIncompatibleFormat
  else let! t := LoadAsFormat data format in Ret (format, t).

(** The named result [mimeType] of the source is never assigned: it is the
    empty string. *)
Definition MimeDump (t : T) (accept : string) : go (dsd_error X) (bytes * string * Z) :=
  let format := FormatFromAccept accept in
  if (format =? AUTO)%Z then Fail ErrIncompatibleFormat
  else let! data := dumpWithoutIdentifier t format "" in
       Ret (data, ""%string, format).

Definition loadFromHTTP (body : bytes) (mimeType : string) : go (dsd_error X) (Z * T) :=
  MimeLoad body mimeType.

Definition LoadFromHTTPRequest (r : http_request) : go (dsd_error X) (Z * T) :=
  loadFromHTTP (req_Body r) (req_ContentType r).

Definition LoadFromHTTPResponse (resp : http_response) : go (dsd_error X) (Z * T) :=
  loadFromHTTP (resp_Body resp) (resp_ContentType resp).

Definition RequestHTTPResponseFormat (format : Z) : st http_request (dsd_error X) string :=
  λ r, match FormatToMimeType format with
       | None => (r, Fail ErrIncompatibleFormat)
       | Some mimeType =>
           ({| req_Accept := mimeType; req_ContentType := req_ContentType r;
               req_Body := req_Body r |}, Ret mimeType)
       end.

Definition DumpToHTTPRequest (t : T) (format : Z) : st http_request (dsd_error X) unit :=
  let$ mimeType := RequestHTTPResponseFormat format in
  let$ data := st_get (λ _, go_mapError ErrSerialize (dumpWithoutIdentifier t format "")) in
  st_mod (λ r, {| req_Accept := req_Accept r; req_ContentType := mimeType; req_Body := data |}).

(** A response writer is the response built so far. *)
Definition DumpToHTTPResponse (r : http_request) (t : T)
    : st http_response (dsd_error X) unit :=
  let$ (data, mimeType, _) := st_get (λ _, go_mapError ErrSerialize (MimeDump t (req_Accept r))) in
  st_mod (λ w, {| resp_ContentType := mimeType; resp_Body := resp_Body w ++ data |}).

End Dsd.

(** ** What the codecs promise

    For the values a caller dumps: decoding inverts encoding, an encoding is
    not empty, and decompression inverts compression. *)
Class CodecLaws (T X : Type) `{!Codecs T X} (P : T → Prop) := {
  json_law t : P t → ∃ d, json_Marshal t = inr d ∧ d ≠ [] ∧ json_Unmarshal d = inr t;
  yaml_law t : P t → ∃ d, yaml_Marshal t = inr d ∧ d ≠ [] ∧ yaml_Unmarshal d = inr t;
  cbor_law t : P t → ∃ d, cbor_Marshal t = inr d ∧ d ≠ [] ∧ cbor_Unmarshal d = inr t;
  msgpack_law t : P t → ∃ d, msgpack_Marshal t = inr d ∧ d ≠ [] ∧ msgpack_Unmarshal d = inr t;
  gzip_law d : ∃ z, gzip_compress d = inr z ∧ z ≠ [] ∧ gzip_decompress z = inr d;
}.

(** The formats every value can be dumped in. *)
Definition general_format (format : Z) : Prop :=
  format = JSON ∨ format = YAML ∨ format = CBOR ∨ format = MsgPack.

Section Lemmas.
Context {T X : Type} `{!Codecs T X} {P : T → Prop} `{!CodecLaws T X P}.

Lemma dumpWithoutIdentifier_law (t : T) (format : Z) :
  P t → general_format format →
  ∃ d, dumpWithoutIdentifier t format "" = Ret d ∧ d ≠ [] ∧ LoadAsFormat d format = Ret t.
Proof.
  intros HP Hf. unfold dumpWithoutIdentifier, LoadAsFormat.
  destruct Hf as [->|[->|[->| ->]]]; simpl.
  - destruct (json_law t HP) as (d & -> & Hd & Hu). exists d. simpl. by rewrite Hu.
  - destruct (yaml_law t HP) as (d & -> & Hd & Hu). exists d. simpl. by rewrite Hu.
  - destruct (cbor_law t HP) as (d & -> & Hd & Hu). exists d. simpl. by rewrite Hu.
  - destruct (msgpack_law t HP) as (d & -> & Hd & Hu). exists d. simpl. by rewrite Hu.
Qed.

(** An identifier below 128 in front of a body is one byte and is split off
    again. *)
Lemma Pack8_identifier (format : Z) (d : bytes) :
  (0 ≤ format < 128)%Z → Pack8 format ++ d = [format] ++ d.
Proof. intros Hf. unfold Pack8. by zcmp. Qed.

Lemma loadFormat_identifier (format : Z) (d : bytes) :
  (0 ≤ format < 128)%Z → d ≠ [] →
  loadFormat ([format] ++ d) = Ret (format, 1%Z) :> go (dsd_error X) _.
Proof.
  intros Hf Hd. unfold loadFormat, Unpack8. simpl. zcmp. simpl.
  destruct d as [|x d]; [done|]. zcmp_with ltac:(len_lia). done.
Qed.

Lemma Dump_general (t : T) (format : Z) :
  P t → general_format format →
  ∃ d, Dump t format = Ret ([format] ++ d) ∧ d ≠ [] ∧ (0 ≤ format < 128)%Z ∧
    LoadAsFormat d format = Ret t ∧ ValidateSerializationFormat format = Some format.
Proof.
  intros HP Hf. destruct (dumpWithoutIdentifier_law t format HP Hf) as (d & Hd & Hne & Hl).
  assert (0 ≤ format < 128)%Z as Hr by (destruct Hf as [->|[->|[->| ->]]]; done).
  exists d. unfold Dump, DumpIndent. rewrite Hd. simpl. rewrite Pack8_identifier by done.
  split_and!; [done|done|lia|lia|done|]. by destruct Hf as [->|[->|[->| ->]]].
Qed.

Lemma loadFormat_no_panic (data : bytes) : loadFormat (X:=X) data ≠ Panic.
Proof.
  unfold loadFormat, Unpack8. intros H.
  destruct data as [|b0 [|b1 data]]; simpl in H; repeat (case_match; simplify_eq/=); done.
Qed.

Lemma loadFormat_read (data : bytes) (format read : Z) :
  loadFormat (X:=X) data = Ret (format, read) → read = 1%Z ∧ (1 < len data)%Z.
Proof.
  unfold loadFormat, Unpack8. intros H.
  destruct data as [|b0 [|b1 data]]; simpl in H;
    repeat (case_match; simplify_eq/=); bool_to_prop; done.
Qed.

Lemma LoadAsFormat_no_panic (data : bytes) (format : Z) : LoadAsFormat data format ≠ Panic.
Proof. unfold LoadAsFormat, of_codec. repeat case_match; done. Qed.

Lemma load_rest_no_panic {A} (data : bytes) (k : Z → bytes → go (dsd_error X) A) :
  (∀ format body, k format body ≠ Panic) →
  (let! (format, read) := loadFormat data in
   let! body := slice data read (len data) in k format body) ≠ Panic.
Proof.
  intros Hk. destruct (loadFormat data) as [[format read]|e|] eqn:Hl; simpl;
    [|done|by apply loadFormat_no_panic in Hl].
  apply loadFormat_read in Hl as [-> Hlen]. unfold slice.
  rewrite bool_decide_true by lia. simpl. apply Hk.
Qed.
End Lemmas.

#[local] Arguments MimeTypeToFormat : simpl never.
#[local] Arguments cleanMimeType : simpl never.

(** The reference for [FormatFromAccept], in the words of its comment. *)
Definition FormatFromAccept_spec (accept : string) : Z :=
  if bool_decide (accept = ""%string) then DefaultSerializationFormat
  else
    let types := map cleanMimeType (Split accept ",") in
    match list_find (λ m, is_Some (MimeTypeToFormat m)) types with
    | Some (_, m) => default AUTO (MimeTypeToFormat m)
    | None => if bool_decide ("*"%string ∈ types) then DefaultSerializationFormat else AUTO
    end.

Lemma FormatFromAccept_loop_spec (types : list string) (w : bool) :
  FormatFromAccept_loop types w =
    match list_find (λ m, is_Some (MimeTypeToFormat m)) (map cleanMimeType types) with
    | Some (_, m) => default AUTO (MimeTypeToFormat m)
    | None => if w || bool_decide ("*"%string ∈ map cleanMimeType types)
              then DefaultSerializationFormat else AUTO
    end.
Proof.
  revert w. induction types as [|m types IH]; intros w; simpl; [by rewrite orb_false_r|].
  destruct (MimeTypeToFormat (cleanMimeType m)) as [f|] eqn:Hm.
  - rewrite (decide_True (P:=is_Some _)) by (by eexists). by rewrite Hm.
  - rewrite (decide_False (P:=is_Some _)) by (by intros [? ?]). rewrite IH.
    destruct (list_find _ (map cleanMimeType types)) as [[i m']|]; simpl; [done|].
    rewrite <- orb_assoc.
    assert (String.eqb (cleanMimeType m) "*" || bool_decide ("*"%string ∈ map cleanMimeType types)
      = bool_decide ("*"%string ∈ cleanMimeType m :: map cleanMimeType types)) as ->; [|done].
    apply Bool.eq_iff_eq_true. rewrite orb_true_iff, String.eqb_eq, !bool_decide_eq_true, elem_of_cons.
    split; (intros [?|?]; [left; congruence|by right]).
Qed.

(** A concrete choice of codecs that keeps the laws: a marker byte and the
    bytes themselves. *)
Definition marked_encode (d : bytes) : unit + bytes := inr (0%Z :: d).

Definition marked_decode (d : bytes) : unit + bytes :=
  match d with
  | [] => inl tt
  | _ :: d' => inr d'
  end.

#[global] Instance marked_codecs : Codecs bytes unit := {|
  json_Marshal := marked_encode; json_MarshalIndent _ := marked_encode;
  json_Unmarshal := marked_decode;
  yaml_Marshal := marked_encode; yaml_Unmarshal := marked_decode;
  cbor_Marshal := marked_encode; cbor_Unmarshal := marked_decode;
  msgpack_Marshal := marked_encode; msgpack_Unmarshal := marked_decode;
  gencode_Marshal := None; gencode_Unmarshal := None;
  raw_bytes d := Some d;
  gzip_compress := marked_encode; gzip_decompress := marked_decode;
|}.

#[global] Instance marked_codecs_laws : CodecLaws bytes unit (λ _, True).
Proof. split; intros; by eexists. Qed.

(** ** Properties *)

(** C40: A value dumped in any of the general formats, plain or gzipped (named
    or default compression), is loaded back with its format by [Load], which
    finds format and compression from the identifier bytes alone. *)
Theorem dsd_roundtrip {T X : Type} `{!Codecs T X} (P : T → Prop) `{!CodecLaws T X P}
    (t : T) (format compression : Z) :
  P t → general_format format → (compression = GZIP ∨ compression = AUTO) →
  (∃ blob, Dump t format = Ret blob ∧ Load blob = Ret (format, t)) ∧
  (∃ blob, DumpAndCompress t format compression = Ret blob ∧ Load blob = Ret (format, t)).
Proof.
  intros HP Hf Hc. destruct (Dump_general t format HP Hf) as (d & Hd & Hne & Hr & Hl & Hv).
  split.
  - exists ([format] ++ d). split; [done|]. unfold Load. rewrite loadFormat_identifier by done.
    cbn [go_bind]. change 1%Z with (len [format]). rewrite slice_suffix. simpl. by rewrite Hv, Hl.
  - unfold DumpAndCompress. rewrite Hd.
    destruct (gzip_law (P:=P) ([format] ++ d)) as (z & Hz & Hzne & Hu).
    exists ([GZIP] ++ z). split.
    + simpl in Hz. destruct Hc as [-> | ->]; simpl; by rewrite Hz.
    + unfold Load. rewrite loadFormat_identifier by done.
      cbn [go_bind]. change 1%Z with (len [GZIP]) at 1. rewrite slice_suffix. simpl.
      unfold DecompressAndLoad. simpl. rewrite Hu. simpl.
      change (format :: d) with ([format] ++ d). rewrite loadFormat_identifier by done.
      cbn [go_bind]. change 1%Z with (len [format]). rewrite slice_suffix. simpl. by rewrite Hl.
Qed.

Lemma dsd_roundtrip_witness :
  (∃ blob, Dump [5]%Z CBOR = Ret blob ∧ Load blob = Ret (CBOR, [5]%Z)) ∧
  (∃ blob, DumpAndCompress [5]%Z CBOR AUTO = Ret blob ∧ Load blob = Ret (CBOR, [5]%Z)).
Proof.
  apply (dsd_roundtrip (λ _, True) [5]%Z CBOR AUTO); [done| |by right].
  right. right. by left.
Defined.

(** [Load] is safe on arbitrary input: no byte sequence makes it panic. *)
Theorem Load_no_panic {T X : Type} `{!Codecs T X} (data : bytes) :
  Load data ≠ (Panic : go (dsd_error X) (Z * T)).
Proof.
  unfold Load. apply (load_rest_no_panic data (λ format body,
    match ValidateSerializationFormat format with
    | Some _ => let! t := LoadAsFormat body format in Ret (format, t)
    | None => DecompressAndLoad body format
    end)).
  assert (∀ format body, (let! t := LoadAsFormat body format in Ret (format, t))
    ≠ (Panic : go (dsd_error X) (Z * T))) as Hload.
  { intros format body. pose proof (LoadAsFormat_no_panic (T:=T) (X:=X) body format).
    by destruct (LoadAsFormat body format). }
  intros format body. destruct (ValidateSerializationFormat format); [apply Hload|].
  unfold DecompressAndLoad. destruct (ValidateCompressionFormat format); [|done].
  destruct (format =? GZIP)%Z; [|done].
  unfold of_codec. destruct (gzip_decompress body) as [e|d]; [done|]. cbn [go_bind].
  apply (load_rest_no_panic d (λ format body, let! t := LoadAsFormat body format in Ret (format, t))).
  apply Hload.
Qed.

(** Dumping in the AUTO format serializes with the default format but
    writes the AUTO identifier, and no blob with that identifier can be
    loaded. *)
Theorem Dump_AUTO_not_loadable {T X : Type} `{!Codecs T X} (P : T → Prop) `{!CodecLaws T X P}
    (t : T) :
  P t → ∃ blob, Dump t AUTO = Ret blob ∧ Load blob = Fail ErrIncompatibleFormat.
Proof.
  intros HP. destruct (json_law t HP) as (d & Hd & Hne & _).
  exists ([AUTO] ++ d). unfold Dump, DumpIndent, dumpWithoutIdentifier. simpl. rewrite Hd.
  split; [done|]. unfold Load. change (AUTO :: d) with ([AUTO] ++ d).
  rewrite loadFormat_identifier by done.
  cbn [go_bind]. change 1%Z with (len [AUTO]). rewrite slice_suffix. done.
Qed.

Lemma Dump_AUTO_not_loadable_witness :
  ∃ blob, Dump [5]%Z AUTO = Ret blob ∧
    Load (T := bytes) (X := unit) blob = Fail ErrIncompatibleFormat.
Proof. apply (Dump_AUTO_not_loadable (λ _, True) [5]%Z). done. Defined.

(** [FormatFromAccept] is its comment: an empty header gives the default
    format, else the first supported type of the list wins, else a wildcard
    gives the default, else AUTO. *)
Theorem FormatFromAccept_correct (accept : string) :
  FormatFromAccept accept = FormatFromAccept_spec accept.
Proof.
  unfold FormatFromAccept, FormatFromAccept_spec.
  destruct (String.eqb_spec accept "") as [->|Hne]; [done|].
  rewrite bool_decide_false by done. by rewrite FormatFromAccept_loop_spec.
Qed.

(** A value dumped to a request is loaded back from it, in the format the
    caller chose. *)
Theorem http_request_roundtrip {T X : Type} `{!Codecs T X} (P : T → Prop) `{!CodecLaws T X P}
    (t : T) (format : Z) (r : http_request) :
  P t → general_format format →
  ∃ r', DumpToHTTPRequest t format r = (r', Ret tt) ∧ LoadFromHTTPRequest r' = Ret (format, t).
Proof.
  intros HP Hf. destruct (dumpWithoutIdentifier_law t format HP Hf) as (d & Hd & _ & Hl).
  unfold DumpToHTTPRequest, RequestHTTPResponseFormat, st_bind, st_get, st_mod.
  rewrite Hd. unfold LoadFromHTTPRequest, loadFromHTTP, MimeLoad.
  destruct Hf as [->|[->|[->| ->]]]; (eexists; split; [reflexivity|]); cbn [req_Body req_ContentType];
    match goal with |- context [FormatFromAccept ?m] =>
      let v := eval vm_compute in (FormatFromAccept m) in
      change (FormatFromAccept m) with v end;
    cbn -[LoadAsFormat]; unfold JSON, YAML, CBOR, MsgPack in Hl; by rewrite Hl.
Qed.

Lemma http_request_roundtrip_witness :
  ∃ r', DumpToHTTPRequest [5]%Z YAML (mkRequest "" "" []) = (r', Ret tt) ∧
    LoadFromHTTPRequest r' = Ret (YAML, [5]%Z).
Proof. apply (http_request_roundtrip (λ _, True) [5]%Z YAML); [done|]. right. by left. Defined.

(** A response never names its format: [MimeDump] leaves the mime type
    empty, so [DumpToHTTPResponse] sets an empty Content-Type whatever format
    it used, and a client reads any such response as JSON. *)
Theorem http_response_without_type {T X : Type} `{!Codecs T X} (t : T) (r : http_request)
    (w w' : http_response) :
  DumpToHTTPResponse r t w = (w', Ret tt) →
  resp_ContentType w' = ""%string ∧
  LoadFromHTTPResponse w' =
    (let! t' := LoadAsFormat (resp_Body w') JSON in Ret (JSON, t')).
Proof.
  unfold DumpToHTTPResponse, MimeDump, st_bind, st_get, st_mod. intros H.
  destruct (FormatFromAccept (req_Accept r) =? AUTO)%Z; [done|].
  destruct (dumpWithoutIdentifier t (FormatFromAccept (req_Accept r)) ""); simplify_eq/=. done.
Qed.

Lemma http_response_without_type_witness :
  resp_ContentType (mkResponse "" [0; 5]%Z) = ""%string ∧
  LoadFromHTTPResponse (T := bytes) (X := unit) (mkResponse "" [0; 5]%Z) =
    (let! t' := LoadAsFormat (resp_Body (mkResponse "" [0; 5]%Z)) JSON in Ret (JSON, t')).
Proof.
  apply (http_response_without_type [5]%Z (mkRequest "application/cbor" "" []) (mkResponse "" []) _).
  reflexivity.
Defined.
