(* ===== verification/Container.v ===== *)
(** * container: a byte queue made of slices

    [Container] of container.go with all its methods. The state is the slice of
    compartments and the offset of the first one in use; the [err] field of the
    source is never read or set and is left out. [content] is the abstract
    view: the bytes a reader still sees. Running out of memory is not modelled:
    [make([]byte, n)] always succeeds. *)

From Stdlib Require Import ZArith Lia.
From S2P Require Import Prelude Varint.

Inductive container_error : Type :=
| ErrNotEnoughToReturn
| ErrVarint (e : varint_error).

#[global] Instance container_error_eq_dec : EqDecision container_error.
Proof. solve_decision. Defined.

Record Container : Type := mkContainer {
  compartments : list bytes;
  offset : nat;
}.

(** ** Construction *)

Definition Container_New (data : list bytes) : Container :=
  {| compartments := data; offset := 0 |}.

Definition NewContainer (data : list bytes) : Container :=
  {| compartments := data; offset := 0 |}.

(** ** Private helpers *)

Definition renewCompartments (c : Container) : Container :=
  {| compartments := replicate 5 [] ++ drop (offset c) (compartments c);
     offset := 4 |}.

Definition Container_clean (c : Container) : Container :=
  if bool_decide (100 < offset c) then renewCompartments c else c.

Definition carbonCopy (c : Container) : Container :=
  {| compartments := compartments c; offset := offset c |}.

Definition checkOffset (c : Container) : Container :=
  if bool_decide (length (compartments c) ≤ offset c)
  then {| compartments := compartments c; offset := length (compartments c) `div` 2 |}
  else c.

(** The loop of [skip] from index [i], which is also the offset so far: the
    loop sets the offset to [i + 1] whenever it moves on. *)
Fixpoint skip_loop (comps : list bytes) (i : nat) (n : nat) : list bytes * nat :=
  match comps with
  | [] => ([], i)
  | c :: comps' =>
      if bool_decide (length c ≤ n) then
        if bool_decide (n - length c = 0) then ([] :: comps', S i)
        else let '(rest, off) := skip_loop comps' (S i) (n - length c) in ([] :: rest, off)
      else (drop n c :: comps', i)
  end.

(** Every caller passes a length, so [n] is not negative. *)
Definition Container_skip (n : nat) (c : Container) : Container :=
  let '(rest, off) := skip_loop (drop (offset c) (compartments c)) (offset c) n in
  checkOffset {| compartments := take (offset c) (compartments c) ++ rest; offset := off |}.

(** ** Adding data *)

(** The assignment to the compartment before the offset panics out of range,
    after the offset was decremented. *)
Definition Container_Prepend (data : bytes) : st Container container_error unit :=
  λ c,
    let c := if bool_decide (offset c < 1) then renewCompartments c else c in
    let i := offset c - 1 in
    if bool_decide (i < length (compartments c))
    then ({| compartments := <[i := data]> (compartments c); offset := i |}, Ret tt)
    else ({| compartments := compartments c; offset := i |}, Panic).

Definition Container_Append (data : bytes) (c : Container) : Container :=
  {| compartments := compartments c ++ [data]; offset := offset c |}.

Definition PrependNumber (n : Z) : st Container container_error unit :=
  let$ p := st_get (λ _, go_mapError ErrVarint (Pack64 n)) in
  Container_Prepend p.

Definition AppendNumber (n : Z) : st Container container_error unit :=
  let$ p := st_get (λ _, go_mapError ErrVarint (Pack64 n)) in
  st_mod (Container_Append p).

Definition PrependInt (n : Z) : st Container container_error unit :=
  let$ p := st_get (λ _, go_mapError ErrVarint (Pack64 (u64 n))) in
  Container_Prepend p.

Definition AppendInt (n : Z) : st Container container_error unit :=
  let$ p := st_get (λ _, go_mapError ErrVarint (Pack64 (u64 n))) in
  st_mod (Container_Append p).

Definition AppendAsBlock (data : bytes) : st Container container_error unit :=
  let$ _ := AppendNumber (u64 (len data)) in
  st_mod (Container_Append data).

Definition PrependAsBlock (data : bytes) : st Container container_error unit :=
  let$ _ := Container_Prepend data in
  PrependNumber (u64 (len data)).

Definition AppendContainer (data : Container) (c : Container) : Container :=
  {| compartments := compartments c ++ compartments data; offset := offset c |}.

(** ** Inspecting *)

Fixpoint HoldsData_loop (comps : list bytes) : bool :=
  match comps with
  | [] => false
  | c :: comps' => if bool_decide (0 < length c) then true else HoldsData_loop comps'
  end.

Definition HoldsData (c : Container) : bool :=
  HoldsData_loop (drop (offset c) (compartments c)).

Definition Container_Length (c : Container) : nat :=
  foldl (λ n comp, n + length comp) 0 (drop (offset c) (compartments c)).

Definition AppendContainerAsBlock (data : Container) : st Container container_error unit :=
  let$ _ := AppendNumber (u64 (Z.of_nat (Container_Length data))) in
  st_mod (AppendContainer data).

Definition Container_PrependLength : st Container container_error unit :=
  λ c, (let$ p := st_get (λ _, go_mapError ErrVarint (Pack64 (u64 (Z.of_nat (Container_Length c))))) in
        Container_Prepend p) c.

(** The new slice is assigned, the offset is not touched. *)
Definition Container_Replace (data : bytes) (c : Container) : Container :=
  {| compartments := [data]; offset := offset c |}.

Definition CompileData : st Container container_error bytes :=
  λ c,
    let c := if bool_decide (length (compartments c) ≠ 1)
             then {| compartments := [concat (drop (offset c) (compartments c))]; offset := 0 |}
             else c in
    match compartments c with
    | [] => (c, Panic)
    | data :: _ => (c, Ret data)
    end.

(** Gathering in [Peek]: [acc] is the part of the new slice filled so far and
    [n] the length of the part still free. *)
Fixpoint gather (comps : list bytes) (n : nat) (acc : bytes) : bytes :=
  match comps with
  | [] => acc
  | c :: comps' =>
      if bool_decide (n ≤ length c) then acc ++ take n c
      else gather comps' (n - length c) (acc ++ c)
  end.

(** Indexing the compartment at the offset panics when there is none. *)
Definition Container_Peek (n : Z) (c : Container) : go container_error bytes :=
  if (n <=? 0)%Z then Ret []
  else match compartments c !! offset c with
       | None => Panic
       | Some first =>
           if (n <=? len first)%Z then Ret (take (Z.to_nat n) first)
           else Ret (gather (drop (offset c) (compartments c)) (Z.to_nat n) [])
       end.

(** The loop of [PeekContainer]: the new compartments and what is left of [n]. *)
Fixpoint PeekContainer_loop (comps : list bytes) (n : nat) : list bytes * nat :=
  match comps with
  | [] => ([], n)
  | c :: comps' =>
      if bool_decide (length c ≤ n) then
        let '(rest, n') := PeekContainer_loop comps' (n - length c) in (c :: rest, n')
      else
        let '(rest, n') := PeekContainer_loop comps' 0 in (take n c :: rest, n')
  end.

Definition PeekContainer (n : Z) (c : Container) : option Container :=
  if (n <? 0)%Z then None
  else if (n =? 0)%Z then Some {| compartments := []; offset := 0 |}
  else let '(comps, n') := PeekContainer_loop (drop (offset c) (compartments c)) (Z.to_nat n) in
       if bool_decide (0 < n') then None
       else Some {| compartments := comps; offset := 0 |}.

(** ** Consuming *)

Definition Container_Get (n : Z) : st Container container_error bytes :=
  let$ buf := st_get (Container_Peek n) in
  if (len buf <? n)%Z then st_fail ErrNotEnoughToReturn
  else let$ _ := st_mod (Container_skip (length buf)) in
       st_ret buf.

Definition GetAll : st Container container_error bytes :=
  let$ buf := st_get (λ c, Container_Peek (Z.of_nat (Container_Length c)) c) in
  let$ _ := st_mod (Container_skip (length buf)) in
  st_ret buf.

Definition GetAsContainer (n : Z) : st Container container_error Container :=
  λ c, match PeekContainer n c with
       | None => (c, Fail ErrNotEnoughToReturn)
       | Some newC => (Container_skip (Z.to_nat n) c, Ret newC)
       end.

Definition GetMax (n : Z) : st Container container_error bytes :=
  let$ buf := st_get (Container_Peek n) in
  let$ _ := st_mod (Container_skip (length buf)) in
  st_ret buf.

(** The loop of [WriteToSlice] from index [i], which is also the offset so
    far, with [k] bytes of the slice free: the new compartments, the offset,
    the bytes written and whether the container was emptied. *)
Fixpoint WriteToSlice_loop (comps : list bytes) (i : nat) (k : nat)
    : list bytes * nat * bytes * bool :=
  match comps with
  | [] => ([], i, [], true)
  | c :: comps' =>
      if bool_decide (k < length c) then (drop k c :: comps', i, take k c, false)
      else
        let '(rest, off, written, emptied) := WriteToSlice_loop comps' (S i) (k - length c) in
        ([] :: rest, off, c ++ written, emptied)
  end.

(** [k] is the length of the destination; the result is the bytes copied to
    its front and the flag. *)
Definition WriteToSlice (k : nat) (c : Container) : Container * (bytes * bool) :=
  let '(rest, off, written, emptied) :=
    WriteToSlice_loop (drop (offset c) (compartments c)) (offset c) k in
  (checkOffset {| compartments := take (offset c) (compartments c) ++ rest; offset := off |},
   (written, emptied)).

Definition GetNextN8 : st Container container_error Z :=
  let$ buf := st_get (Container_Peek 2) in
  let$ (num, n) := st_get (λ _, go_mapError ErrVarint (Unpack8 buf)) in
  let$ _ := st_mod (Container_skip (Z.to_nat n)) in
  st_ret num.

Definition GetNextN16 : st Container container_error Z :=
  let$ buf := st_get (Container_Peek 3) in
  let$ (num, n) := st_get (λ _, go_mapError ErrVarint (Unpack16 buf)) in
  let$ _ := st_mod (Container_skip (Z.to_nat n)) in
  st_ret num.

Definition GetNextN32 : st Container container_error Z :=
  let$ buf := st_get (Container_Peek 5) in
  let$ (num, n) := st_get (λ _, go_mapError ErrVarint (Unpack32 buf)) in
  let$ _ := st_mod (Container_skip (Z.to_nat n)) in
  st_ret num.

Definition GetNextN64 : st Container container_error Z :=
  let$ buf := st_get (Container_Peek 10) in
  let$ (num, n) := st_get (λ _, go_mapError ErrVarint (Unpack64 buf)) in
  let$ _ := st_mod (Container_skip (Z.to_nat n)) in
  st_ret num.

Definition Container_GetNextBlock : st Container container_error bytes :=
  let$ blockSize := GetNextN64 in
  Container_Get (s64 blockSize).

Definition GetNextBlockAsContainer : st Container container_error Container :=
  let$ blockSize := GetNextN64 in
  GetAsContainer (s64 blockSize).

(** ** WriteAllTo

    The writer is a parameter: [write w p] gives the writer after
    [Write(p)], the reported count and the error. *)
Section WriteAllTo.
Context {W E : Type} (write : W → bytes → W * Z * option E).

(** The inner loop; it repeats until the compartment is written, so it is
    bounded by a fuel that counts calls of [Write]. [None] is fuel exhausted. *)
Fixpoint WriteAllTo_compartment (fuel : nat) (w : W) (comp : bytes) (written : Z)
    : option (W * option E) :=
  if (written <? len comp)%Z then
    match fuel with
    | O => None
    | S fuel =>
        let '(w, n, err) := write w (drop (Z.to_nat written) comp) in
        match err with
        | Some e => Some (w, Some e)
        | None => WriteAllTo_compartment fuel w comp (written + n)
        end
    end
  else Some (w, None).

Fixpoint WriteAllTo_loop (fuel : nat) (w : W) (comps : list bytes) : option (W * option E) :=
  match comps with
  | [] => Some (w, None)
  | comp :: comps' =>
      match WriteAllTo_compartment fuel w comp 0 with
      | None => None
      | Some (w, Some e) => Some (w, Some e)
      | Some (w, None) => WriteAllTo_loop fuel w comps'
      end
  end.

Definition WriteAllTo (fuel : nat) (w : W) (c : Container) : option (W * option E) :=
  WriteAllTo_loop fuel w (drop (offset c) (compartments c)).
End WriteAllTo.

(** ** The abstract view *)

(** The bytes a reader of the container still sees. *)
Definition content (c : Container) : bytes :=
  concat (drop (offset c) (compartments c)).

(** The invariant: everything before the offset is consumed, and the offset
    points into the compartments unless there are none. *)
Definition Container_ok (c : Container) : Prop :=
  Forall (λ comp, comp = []) (take (offset c) (compartments c)) ∧
  (offset c < length (compartments c) ∨ (offset c = 0 ∧ compartments c = [])).

(** ** Lemmas *)

Lemma concat_empties (l : list bytes) : Forall (λ comp, comp = []) l → concat l = [].
Proof. induction 1 as [|c l -> _ IH]; [done|]. exact IH. Qed.

Lemma concat_drop_empties (l : list bytes) (n : nat) :
  Forall (λ comp, comp = []) (take n l) → concat (drop n l) = concat l.
Proof.
  intros H. rewrite <- (take_drop n l) at 2. rewrite concat_app, (concat_empties _ H). done.
Qed.

Lemma Container_ok_New (data : list bytes) : Container_ok (Container_New data).
Proof.
  split; simpl; [rewrite take_0; constructor|]. destruct data; simpl; [by right|left; lia].
Qed.

Lemma content_New (data : list bytes) : content (Container_New data) = concat data.
Proof. unfold content. simpl. by rewrite drop_0. Qed.

(** Under the invariant the content is the concatenation of all compartments. *)
Lemma content_all (c : Container) : Container_ok c → content c = concat (compartments c).
Proof. intros [H _]. by apply concat_drop_empties. Qed.

Lemma Container_Prepend_spec (data : bytes) (c : Container) :
  Container_ok c →
  ∃ c', Container_Prepend data c = (c', Ret tt) ∧ Container_ok c' ∧
    content c' = data ++ content c ∧ compartments c' ≠ [].
Proof.
  intros Hok. pose proof (content_all c Hok) as Hall. destruct Hok as [Hpre Hoff].
  unfold Container_Prepend. destruct (decide (offset c < 1)) as [H1|H1]; [rewrite (bool_decide_true (offset c < 1)) by done|rewrite (bool_decide_false (offset c < 1)) by done].
  - assert (offset c = 0) as H0 by lia.
    unfold renewCompartments, content. rewrite H0, !drop_0. simpl.
    eexists. split; [done|]. split; [|done].
    split; simpl; [|left; lia]. by repeat constructor.
  - destruct Hoff as [Hoff|[? _]]; [|lia].
    rewrite bool_decide_true by lia. eexists. split; [done|]. unfold content. simpl.
    assert (offset c - 1 < length (compartments c)) as Hi by lia.
    split; [split; simpl|split].
    + rewrite take_insert_ge by lia.
      replace (take (offset c) (compartments c))
        with (take (offset c - 1) (compartments c) ++
              take 1 (drop (offset c - 1) (compartments c))) in Hpre
        by (rewrite take_take_drop; f_equal; lia).
      by apply Forall_app in Hpre as [? _].
    + left. rewrite length_insert. lia.
    + rewrite drop_insert_ge, Nat.sub_diag by lia.
      destruct (lookup_lt_is_Some_2 (compartments c) (offset c - 1) Hi) as [x Hx].
      rewrite (drop_S _ x) by done. simpl. by replace (S (offset c - 1)) with (offset c) by lia.
    + intros Hnil. apply (f_equal length) in Hnil. rewrite length_insert in Hnil. simpl in Hnil. lia.
Qed.

Lemma Container_Append_spec (data : bytes) (c : Container) :
  Container_ok c →
  Container_ok (Container_Append data c) ∧
  content (Container_Append data c) = content c ++ data.
Proof.
  intros [Hpre Hoff]. unfold content. simpl.
  assert (offset c ≤ length (compartments c)) as Hle by (destruct Hoff as [|[-> _]]; lia).
  split.
  - split; simpl; [by rewrite take_app_le|]. left. rewrite length_app. simpl. lia.
  - rewrite drop_app_le by done. rewrite concat_app. simpl. by rewrite app_nil_r.
Qed.

Lemma AppendContainer_spec (data c : Container) :
  Container_ok data → Container_ok c →
  Container_ok (AppendContainer data c) ∧
  content (AppendContainer data c) = content c ++ content data.
Proof.
  intros Hd [Hpre Hoff]. rewrite (content_all data Hd). unfold content. simpl.
  assert (offset c ≤ length (compartments c)) as Hle by (destruct Hoff as [|[-> _]]; lia).
  split.
  - split; simpl; [by rewrite take_app_le|]. rewrite length_app.
    destruct Hoff as [?|[-> ->]]; [left; lia|]. simpl. destruct (compartments data); [by right|left; simpl; lia].
  - rewrite drop_app_le by done. by rewrite concat_app.
Qed.

Lemma Container_Length_spec (c : Container) : Container_Length c = length (content c).
Proof.
  unfold Container_Length, content. generalize (drop (offset c) (compartments c)) as l.
  assert (∀ (l : list bytes) k, foldl (λ n comp, n + length comp) k l = k + length (concat l)) as H.
  { intros l. induction l as [|a l IH]; intros k; simpl; [lia|].
    rewrite IH, length_app. lia. }
  intros l. by rewrite H.
Qed.

Lemma HoldsData_spec (c : Container) : HoldsData c = bool_decide (content c ≠ []).
Proof.
  unfold HoldsData, content. generalize (drop (offset c) (compartments c)) as l.
  intros l. induction l as [|a l IH]; simpl; [done|].
  destruct a as [|x a]; simpl; [exact IH|]. done.
Qed.

(** [checkOffset] only moves the offset when everything is consumed. *)
Lemma checkOffset_spec (c : Container) :
  Forall (λ comp, comp = []) (take (offset c) (compartments c)) →
  Container_ok (checkOffset c) ∧ content (checkOffset c) = content c.
Proof.
  intros Hpre. unfold checkOffset. case_bool_decide as Hle.
  - rewrite take_ge in Hpre by done. unfold content. simpl.
    assert (∀ n, concat (drop n (compartments c)) = []) as Hnil.
    { intros n. apply concat_empties. by apply Forall_drop. }
    split; [|by rewrite !Hnil].
    split; simpl; [by apply Forall_take|].
    destruct (compartments c) as [|x l] eqn:Hc; [by right|]. left. apply (Nat.div_lt (S (length l)) 2); lia.
  - split; [|done]. split; [done|]. left. lia.
Qed.

Lemma skip_loop_spec (comps : list bytes) (i n : nat) :
  let '(rest, off) := skip_loop comps i n in
  i ≤ off ≤ i + length comps ∧ length rest = length comps ∧
  Forall (λ comp, comp = []) (take (off - i) rest) ∧
  concat rest = drop n (concat comps).
Proof.
  revert i n. induction comps as [|c comps IH]; intros i n; simpl.
  { rewrite drop_nil, take_nil. split_and!; [lia|lia|done|constructor|done]. }
  case_bool_decide as Hle.
  - case_bool_decide as Hz.
    + replace (S i - i) with 1 by lia. simpl. rewrite take_0.
      split_and!; [lia|lia|done|by repeat constructor|].
      rewrite drop_app_ge by lia. by replace (n - length c) with 0 by lia.
    + specialize (IH (S i) (n - length c)).
      destruct (skip_loop comps (S i) (n - length c)) as [rest off].
      destruct IH as ([Hi Hoff] & Hlen & Hpre & Hcat). simpl.
      split_and!; [lia|lia|lia| |by rewrite drop_app_ge by lia].
      replace (off - i) with (S (off - S i)) by lia. simpl. by constructor.
  - rewrite Nat.sub_diag, take_0. simpl.
    split_and!; [lia|lia|done|constructor|]. by rewrite drop_app_le by lia.
Qed.

(** [skip n] drops [n] bytes (all of them when there are fewer). *)
Lemma Container_skip_spec (n : nat) (c : Container) :
  Container_ok c →
  Container_ok (Container_skip n c) ∧ content (Container_skip n c) = drop n (content c) ∧
  (compartments c ≠ [] → compartments (Container_skip n c) ≠ []).
Proof.
  intros [Hpre Hoff]. unfold Container_skip.
  pose proof (skip_loop_spec (drop (offset c) (compartments c)) (offset c) n) as Hloop.
  destruct (skip_loop _ _ _) as [rest off].
  destruct Hloop as ([Hi _] & Hlen & Hrest & Hcat).
  assert (offset c ≤ length (compartments c)) as Hle by (destruct Hoff as [|[-> _]]; lia).
  assert (length (take (offset c) (compartments c)) = offset c) as Hlt by (rewrite length_take; lia).
  set (c' := {| compartments := take (offset c) (compartments c) ++ rest; offset := off |}).
  assert (Forall (λ comp, comp = []) (take (offset c') (compartments c'))) as Hpre'.
  { simpl. rewrite take_app_ge, Hlt by lia. by apply Forall_app_2. }
  destruct (checkOffset_spec c' Hpre') as [Hok ->].
  split; [done|]. split.
  - unfold content at 1. rewrite (concat_drop_empties _ _ Hpre'). simpl.
    by rewrite concat_app, (concat_empties _ Hpre).
  - intros Hne. unfold checkOffset. subst c'. simpl.
    assert (take (offset c) (compartments c) ++ rest ≠ []) as Hne'.
    { intros Hnil. apply Hne, length_zero_iff_nil. apply (f_equal length) in Hnil.
      rewrite length_app, Hlt, Hlen, length_drop in Hnil. simpl in Hnil. lia. }
    by case_bool_decide.
Qed.

Lemma gather_spec (comps : list bytes) (n : nat) (acc : bytes) :
  gather comps n acc = acc ++ take n (concat comps).
Proof.
  revert n acc. induction comps as [|c comps IH]; intros n acc; simpl.
  { by rewrite take_nil, app_nil_r. }
  case_bool_decide as Hle; [by rewrite take_app_le|].
  rewrite IH, take_app_ge by lia. by rewrite app_assoc.
Qed.

(** [Peek n] shows the first [n] bytes, or all when there are fewer. *)
Lemma Container_Peek_spec (n : Z) (c : Container) :
  Container_ok c → compartments c ≠ [] →
  Container_Peek n c = Ret (take (Z.to_nat n) (content c)).
Proof.
  intros [Hpre Hoff] Hne. unfold Container_Peek.
  destruct (n <=? 0)%Z eqn:Hn; bool_to_prop.
  { replace (Z.to_nat n) with 0 by lia. by rewrite take_0. }
  destruct Hoff as [Hoff|[_ ?]]; [|done].
  destruct (lookup_lt_is_Some_2 _ _ Hoff) as [first Hfirst]. rewrite Hfirst.
  unfold content. rewrite (drop_S _ first) by done. simpl.
  destruct (n <=? len first)%Z eqn:Hlen; bool_to_prop.
  - rewrite take_app_le by (unfold len in Hlen; lia). done.
  - rewrite bool_decide_false by (unfold len in Hlen; lia).
    rewrite gather_spec. simpl. rewrite take_app_ge by (unfold len in Hlen; lia). done.
Qed.

Lemma PeekContainer_loop_spec (comps : list bytes) (n : nat) :
  let '(rest, n') := PeekContainer_loop comps n in
  concat rest = take n (concat comps) ∧ n' = n - length (concat comps).
Proof.
  revert n. induction comps as [|c comps IH]; intros n; simpl.
  { rewrite take_nil. split; [done|lia]. }
  rewrite length_app. case_bool_decide as Hle.
  - specialize (IH (n - length c)). destruct (PeekContainer_loop comps (n - length c)) as [rest n'].
    destruct IH as [Hcat Hn]. simpl. rewrite Hcat, take_app_ge by lia. split; [done|lia].
  - specialize (IH 0). destruct (PeekContainer_loop comps 0) as [rest n'].
    destruct IH as [Hcat Hn]. simpl. rewrite Hcat, take_0, app_nil_r, take_app_le by lia.
    split; [done|lia].
Qed.

Lemma WriteToSlice_loop_spec (comps : list bytes) (i k : nat) :
  let '(rest, off, written, emptied) := WriteToSlice_loop comps i k in
  i ≤ off ≤ i + length comps ∧ length rest = length comps ∧
  Forall (λ comp, comp = []) (take (off - i) rest) ∧
  concat rest = drop k (concat comps) ∧ written = take k (concat comps) ∧
  emptied = bool_decide (length (concat comps) ≤ k).
Proof.
  revert i k. induction comps as [|c comps IH]; intros i k; simpl.
  { rewrite drop_nil, !take_nil. split_and!; first [done | lia]. }
  rewrite length_app. case_bool_decide as Hlt.
  - rewrite Nat.sub_diag, take_0. simpl.
    split_and!; first [done | lia | by rewrite drop_app_le by lia | by rewrite take_app_le by lia
                      | by rewrite bool_decide_false by lia].
  - specialize (IH (S i) (k - length c)).
    destruct (WriteToSlice_loop comps (S i) (k - length c)) as [[[rest off] written] emptied].
    destruct IH as ([Hi Hoff] & Hlen & Hpre & Hcat & -> & ->). simpl.
    split_and!; [lia|lia|lia| |by rewrite drop_app_ge by lia|by rewrite take_app_ge by lia|].
    + replace (off - i) with (S (off - S i)) by lia. simpl. by constructor.
    + apply bool_decide_ext. lia.
Qed.

(** ** Refinement: a container is a queue of bytes

    [refines] relates a container method to an operation on plain byte lists:
    from every container in use (invariant, at least one compartment) both
    give the same result and the contents stay equal. *)

Definition in_use (c : Container) : Prop := Container_ok c ∧ compartments c ≠ [].

Definition go_rel {E A B : Type} (R : A → B → Prop) (x : go E A) (y : go E B) : Prop :=
  match x, y with
  | Ret a, Ret b => R a b
  | Fail e, Fail e' => e = e'
  | Panic, Panic => True
  | _, _ => False
  end.

Definition refines {A B : Type} (R : A → B → Prop)
    (m : st Container container_error A) (s : st bytes container_error B) : Prop :=
  ∀ c, in_use c →
    in_use (m c).1 ∧ content (m c).1 = (s (content c)).1 ∧ go_rel R (m c).2 (s (content c)).2.

Lemma refines_bind {A B A' B'} (R : A → B → Prop) (R' : A' → B' → Prop) m s k l :
  refines R m s → (∀ a b, R a b → refines R' (k a) (l b)) →
  refines R' (st_bind m k) (st_bind s l).
Proof.
  intros Hm Hk c Hc. destruct (Hm c Hc) as (Hin & Hcont & Hrel). unfold st_bind.
  destruct (m c) as [c' [a|e|]], (s (content c)) as [q' [b|e'|]]; simpl in *; try done.
  - subst q'. by apply Hk.
Qed.

Lemma refines_ret {A B} (R : A → B → Prop) a b : R a b → refines R (st_ret a) (st_ret b).
Proof. by intros HR c Hc. Qed.

Lemma refines_fail {A B} (R : A → B → Prop) e : refines R (st_fail e) (st_fail e).
Proof. by intros c Hc. Qed.

Lemma refines_pure {A} (r : go container_error A) :
  refines eq (st_get (λ _, r)) (st_get (λ _, r)).
Proof. intros c Hc. split; [done|]. split; [done|]. by destruct r. Qed.

Lemma refines_Prepend data : refines eq (Container_Prepend data) (st_mod (λ q, data ++ q)).
Proof.
  intros c [Hok Hne]. destruct (Container_Prepend_spec data c Hok) as (c' & -> & Hok' & Hc' & Hne').
  by split.
Qed.

Lemma refines_Append data : refines eq (st_mod (Container_Append data)) (st_mod (λ q, q ++ data)).
Proof.
  intros c [Hok Hne]. destruct (Container_Append_spec data c Hok) as [Hok' Hc'].
  split; [split; [done|]|by split]. simpl. by destruct (compartments c).
Qed.

Lemma refines_skip n : refines eq (st_mod (Container_skip n)) (st_mod (drop n)).
Proof.
  intros c [Hok Hne]. destruct (Container_skip_spec n c Hok) as (Hok' & Hc' & Hne').
  split; [|by split]. split; [done|]. by apply Hne'.
Qed.

Lemma refines_Peek n :
  refines eq (st_get (Container_Peek n)) (st_get (λ q, Ret (take (Z.to_nat n) q))).
Proof.
  intros c [Hok Hne]. split; [by split|]. split; [done|].
  simpl. by rewrite (Container_Peek_spec n c Hok Hne).
Qed.

(** ** The queue operations *)

Definition queue_AppendAsBlock (data : bytes) : st bytes container_error unit :=
  let$ p := st_get (λ _, go_mapError ErrVarint (Pack64 (u64 (len data)))) in
  st_mod (λ q, q ++ p ++ data).

Definition queue_PrependAsBlock (data : bytes) : st bytes container_error unit :=
  λ q, match go_mapError ErrVarint (Pack64 (u64 (len data))) with
       | Ret p => (p ++ data ++ q, Ret tt)
       | Fail e => (data ++ q, Fail e)
       | Panic => (data ++ q, Panic)
       end.

Definition queue_Get (n : Z) : st bytes container_error bytes :=
  λ q, if (len q <? n)%Z then (q, Fail ErrNotEnoughToReturn)
       else (drop (Z.to_nat n) q, Ret (take (Z.to_nat n) q)).

Definition queue_GetMax (n : Z) : st bytes container_error bytes :=
  λ q, (drop (Z.to_nat n) q, Ret (take (Z.to_nat n) q)).

Definition queue_GetAll : st bytes container_error bytes := λ q, ([], Ret q).

Definition queue_GetNext (width : nat) (unpack : bytes → go varint_error (Z * Z))
    : st bytes container_error Z :=
  λ q, match go_mapError ErrVarint (unpack (take width q)) with
       | Ret (num, n) => (drop (Z.to_nat n) q, Ret num)
       | Fail e => (q, Fail e)
       | Panic => (q, Panic)
       end.

Definition queue_GetNextBlock : st bytes container_error bytes :=
  let$ blockSize := queue_GetNext 10 Unpack64 in
  queue_Get (s64 blockSize).

Lemma refines_AppendAsBlock data : refines eq (AppendAsBlock data) (queue_AppendAsBlock data).
Proof.
  intros c Hc.
  assert (refines eq (AppendAsBlock data)
    (let$ p := st_get (λ _, go_mapError ErrVarint (Pack64 (u64 (len data)))) in
     let$ _ := st_mod (λ q, q ++ p) in st_mod (λ q, q ++ data))) as H.
  { unfold AppendAsBlock, AppendNumber. intros c' Hc'.
    unfold st_bind, st_get. destruct (go_mapError _ _) as [p|e|]; [|done|done].
    destruct (refines_Append p c' Hc') as (H1 & H2 & _). simpl in *. rewrite <- H2.
    apply (refines_Append data _ H1). }
  specialize (H c Hc). unfold queue_AppendAsBlock.
  unfold st_bind, st_get in *. destruct (go_mapError _ _) as [p|e|]; [|done|done].
  simpl in *. by rewrite app_assoc.
Qed.

Lemma refines_PrependAsBlock data : refines eq (PrependAsBlock data) (queue_PrependAsBlock data).
Proof.
  intros c Hc. unfold PrependAsBlock, PrependNumber, queue_PrependAsBlock, st_bind, st_get.
  destruct (refines_Prepend data c Hc) as (H1 & H2 & H3).
  destruct (Container_Prepend data c) as [c1 [[]|e|]]; simpl in *; [|done|done].
  destruct (go_mapError _ _) as [p|e|]; simpl; [|done|done].
  destruct (refines_Prepend p c1 H1) as (H4 & H5 & H6). simpl in *. by rewrite <- H2, H5.
Qed.

Lemma refines_Get n : refines eq (Container_Get n) (queue_Get n).
Proof.
  intros c Hc.
  destruct (refines_Peek n c Hc) as (H1 & _ & H3).
  unfold Container_Get, queue_Get, st_bind, st_get in *. simpl in *.
  destruct (Container_Peek n c) as [buf|e|] eqn:Hp; simpl in *; [|done|done]. subst buf.
  assert ((len (take (Z.to_nat n) (content c)) <? n)%Z = (len (content c) <? n)%Z) as ->.
  { apply Bool.eq_iff_eq_true. rewrite !Z.ltb_lt. len_lia. }
  destruct (len (content c) <? n)%Z eqn:Hn; [done|]. bool_to_prop.
  destruct (refines_skip (length (take (Z.to_nat n) (content c))) c Hc) as (H4 & H5 & _).
  simpl in *. split; [done|]. split; [|done]. rewrite H5. f_equal. len_lia.
Qed.

Lemma drop_length_take (k : nat) (q : bytes) : drop (length (take k q)) q = drop k q.
Proof.
  rewrite length_take. destruct (decide (k ≤ length q)).
  - by rewrite Nat.min_l by lia.
  - rewrite Nat.min_r by lia. by rewrite !drop_ge by lia.
Qed.

Lemma refines_GetMax n : refines eq (GetMax n) (queue_GetMax n).
Proof.
  intros c Hc. destruct (refines_Peek n c Hc) as (_ & _ & H3).
  unfold GetMax, queue_GetMax, st_bind, st_get in *. simpl in *.
  destruct (Container_Peek n c) as [buf|e|] eqn:Hp; simpl in *; [|done|done]. subst buf.
  destruct (refines_skip (length (take (Z.to_nat n) (content c))) c Hc) as (H4 & H5 & _).
  simpl in *. by rewrite H5, drop_length_take.
Qed.

Lemma refines_GetAll : refines eq GetAll queue_GetAll.
Proof.
  intros c Hc. pose proof (refines_GetMax (Z.of_nat (Container_Length c)) c Hc) as H.
  unfold queue_GetMax in H. rewrite Container_Length_spec in H. simpl in H.
  rewrite Nat2Z.id, drop_all, take_ge in H by lia.
  unfold GetAll, GetMax, st_bind, st_get in *. by rewrite Container_Length_spec.
Qed.

Lemma refines_GetNext (width : Z) (unpack : bytes → go varint_error (Z * Z)) :
  refines eq
    (let$ buf := st_get (Container_Peek width) in
     let$ (num, n) := st_get (λ _, go_mapError ErrVarint (unpack buf)) in
     let$ _ := st_mod (Container_skip (Z.to_nat n)) in
     st_ret num)
    (queue_GetNext (Z.to_nat width) unpack).
Proof.
  intros c Hc. destruct (refines_Peek width c Hc) as (_ & _ & H3).
  unfold queue_GetNext, st_bind, st_get in *. simpl in *.
  destruct (Container_Peek width c) as [buf|e|]; simpl in *; [|done|done]. subst buf.
  destruct (go_mapError _ _) as [[num n]|e|]; simpl; [|done|done].
  destruct (refines_skip (Z.to_nat n) c Hc) as (H4 & H5 & _). by simpl in *.
Qed.

Lemma refines_GetNextBlock : refines eq Container_GetNextBlock queue_GetNextBlock.
Proof.
  eapply refines_bind; [apply (refines_GetNext 10 Unpack64)|].
  intros a ? <-. apply refines_Get.
Qed.

Lemma refines_WriteToSlice k :
  refines eq (λ c, let '(c', r) := WriteToSlice k c in (c', Ret r))
    (λ q, (drop k q, Ret (take k q, bool_decide (length q ≤ k)))).
Proof.
  intros c [[Hpre Hoff] Hne]. unfold WriteToSlice.
  pose proof (WriteToSlice_loop_spec (drop (offset c) (compartments c)) (offset c) k) as Hloop.
  destruct (WriteToSlice_loop _ _ _) as [[[rest off] written] emptied].
  destruct Hloop as ([Hi _] & Hlen & Hrest & Hcat & -> & ->).
  destruct Hoff as [Hoff|[_ ?]]; [|done].
  assert (length (take (offset c) (compartments c)) = offset c) as Hlt by (rewrite length_take; lia).
  set (c' := {| compartments := take (offset c) (compartments c) ++ rest; offset := off |}).
  assert (Forall (λ comp, comp = []) (take (offset c') (compartments c'))) as Hpre'.
  { simpl. rewrite take_app_ge, Hlt by lia. by apply Forall_app_2. }
  destruct (checkOffset_spec c' Hpre') as [Hok Hc']. simpl.
  split; [split; [done|]|split; [|done]].
  - rewrite length_drop in Hlen.
    assert (compartments c' ≠ []) as Hne'.
    { intros Hnil. apply (f_equal length) in Hnil. subst c'. simpl in Hnil.
      rewrite length_app, Hlt in Hnil. simpl in Hnil. lia. }
    unfold checkOffset. by case_bool_decide.
  - rewrite Hc'. unfold content at 1. rewrite (concat_drop_empties _ _ Hpre'). subst c'. simpl.
    by rewrite concat_app, (concat_empties _ Hpre).
Qed.

Lemma refines_CompileData : refines eq CompileData (λ q, (q, Ret q)).
Proof.
  intros c [Hok Hne]. pose proof (content_all c Hok) as Hall. destruct Hok as [Hpre Hoff].
  unfold CompileData. case_bool_decide as Hlen; simpl.
  - unfold in_use, Container_ok, content. simpl. rewrite app_nil_r.
    split; [|done]. split; [|done]. split; [constructor|left; lia].
  - destruct (compartments c) as [|d [|d' l]] eqn:Hc; [done| |by simpl in Hlen].
    simpl. split; [|split; [done|by rewrite Hall; simpl; rewrite app_nil_r]].
    unfold in_use, Container_ok. rewrite Hc. split; [|done]. simpl in Hoff |- *.
    destruct Hoff as [Hoff|[_ ?]]; [|done]. split; [|by left].
    replace (offset c) with 0 by lia. constructor.
Qed.

Lemma refines_GetAsContainer n :
  refines (λ c' b, Container_ok c' ∧ content c' = b) (GetAsContainer n)
    (λ q, if (n <? 0)%Z || (len q <? n)%Z then (q, Fail ErrNotEnoughToReturn)
          else (drop (Z.to_nat n) q, Ret (take (Z.to_nat n) q))).
Proof.
  intros c Hc. unfold GetAsContainer, PeekContainer.
  destruct (n <? 0)%Z eqn:Hneg; bool_to_prop; [done|]. simpl.
  destruct (refines_skip (Z.to_nat n) c Hc) as (H4 & H5 & _). simpl in *.
  destruct (n =? 0)%Z eqn:Hz; bool_to_prop.
  { subst n. zcmp_with ltac:(len_lia). simpl in *. rewrite take_0. split; [done|]. split; [done|].
    split; [|done]. split; [constructor|by right]. }
  pose proof (PeekContainer_loop_spec (drop (offset c) (compartments c)) (Z.to_nat n)) as Hl.
  destruct (PeekContainer_loop _ _) as [comps n']. destruct Hl as [Hcat Hn'].
  fold (content c) in Hcat, Hn'. case_bool_decide as Hp.
  - zcmp_with ltac:(len_lia). done.
  - zcmp_with ltac:(len_lia). simpl. split; [done|]. split; [done|].
    split; [apply (Container_ok_New comps)|]. rewrite <- Hcat. apply (content_New comps).
Qed.

(** ** Sequences of blocks *)

Definition append_blocks (ds : list bytes) : st Container container_error unit :=
  foldr (λ d k, let$ _ := AppendAsBlock d in k) (st_ret tt) ds.

Fixpoint read_blocks (n : nat) : st Container container_error (list bytes) :=
  match n with
  | O => st_ret []
  | S n => let$ d := Container_GetNextBlock in
           let$ ds := read_blocks n in
           st_ret (d :: ds)
  end.

Definition encoded_blocks (ds : list bytes) : bytes :=
  concat (map (λ d, match Pack64 (len d) with Ret p => p ++ d | _ => [] end) ds).

Lemma append_blocks_spec (ds : list bytes) (c : Container) :
  in_use c → Forall (λ d, len d < 2 ^ 63)%Z ds →
  ∃ c', append_blocks ds c = (c', Ret tt) ∧ in_use c' ∧
    content c' = content c ++ encoded_blocks ds.
Proof.
  revert c. induction ds as [|d ds IH]; intros c Hc Hds.
  { exists c. unfold encoded_blocks. simpl. by rewrite app_nil_r. }
  apply Forall_cons in Hds as [Hd Hds]. pose proof (len_nonneg d).
  assert (is_u64 (len d)) as Hu by (unfold is_u64; lia).
  destruct (Pack64_ret _ Hu) as (p & Hp & _).
  destruct (refines_AppendAsBlock d c Hc) as (H1 & H2 & H3).
  cbn [append_blocks foldr]. unfold st_bind at 1.
  unfold queue_AppendAsBlock, st_bind, st_get in H2, H3.
  rewrite (u64_small (len d) Hu), Hp in H2, H3. simpl in H2, H3.
  destruct (AppendAsBlock d c) as [c1 [[]|e|]]; simpl in *; [|done|done].
  destruct (IH c1 H1 Hds) as (c' & Hap & Hc' & Hcont). exists c'. split; [done|]. split; [done|].
  rewrite Hcont, H2. unfold encoded_blocks. simpl. by rewrite Hp, <- !app_assoc.
Qed.

Lemma GetNextBlock_content (c : Container) (d p rest : bytes) :
  in_use c → (len d < 2 ^ 63)%Z → Pack64 (len d) = Ret p → content c = p ++ d ++ rest →
  ∃ c', Container_GetNextBlock c = (c', Ret d) ∧ in_use c' ∧ content c' = rest.
Proof.
  intros Hc Hd Hp Hcont. pose proof (len_nonneg d).
  assert (is_u64 (len d)) as Hu by (unfold is_u64; lia).
  destruct (Pack64_bounds _ _ Hu Hp) as [Hlen _].
  destruct (refines_GetNextBlock c Hc) as (H1 & H2 & H3). rewrite Hcont in H2, H3.
  assert (queue_GetNextBlock (p ++ d ++ rest) = (rest, Ret d)) as Hq.
  { unfold queue_GetNextBlock, queue_GetNext, st_bind.
    rewrite take_app_ge by (unfold len in Hlen; lia).
    rewrite (Unpack64_Pack64 (len d) p _ Hu Hp). simpl.
    rewrite to_nat_len, drop_app_length.
    unfold queue_Get. rewrite s64_small by (unfold is_s64; lia).
    zcmp_with ltac:(len_lia). by rewrite to_nat_len, drop_app_length, take_app_length. }
  rewrite Hq in H2, H3. destruct (Container_GetNextBlock c) as [c' [d'|e|]]; simpl in *; [|done|done].
  subst d'. by exists c'.
Qed.

Lemma read_blocks_spec (ds : list bytes) (c : Container) (rest : bytes) :
  in_use c → Forall (λ d, len d < 2 ^ 63)%Z ds → content c = encoded_blocks ds ++ rest →
  ∃ c', read_blocks (length ds) c = (c', Ret ds) ∧ in_use c' ∧ content c' = rest.
Proof.
  revert c. induction ds as [|d ds IH]; intros c Hc Hds Hcont; [by exists c|].
  apply Forall_cons in Hds as [Hd Hds]. pose proof (len_nonneg d).
  destruct (Pack64_ret (len d)) as (p & Hp & _); [unfold is_u64; lia|].
  unfold encoded_blocks in Hcont. simpl in Hcont. rewrite Hp, <- !app_assoc in Hcont.
  destruct (GetNextBlock_content c d p _ Hc Hd Hp Hcont) as (c1 & Hg & Hc1 & Hcont1).
  destruct (IH c1 Hc1 Hds Hcont1) as (c' & Hr & Hc' & Hcont').
  exists c'. cbn [length read_blocks]. unfold st_bind. by rewrite Hg, Hr.
Qed.

(** ** Properties *)

(** C1: Every method of a container in use behaves as the same operation on a
    plain queue of bytes: prepending and appending, block framing, reading with
    and without a minimum, copying out, compiling. Results, errors included,
    are equal, the contents stay equal, and the invariant of the compartments
    is preserved, so the statement chains over any sequence of calls. *)
Theorem container_refines_queue :
  (∀ d, refines eq (Container_Prepend d) (st_mod (λ q, d ++ q))) ∧
  (∀ d, refines eq (st_mod (Container_Append d)) (st_mod (λ q, q ++ d))) ∧
  (∀ d, refines eq (PrependAsBlock d) (queue_PrependAsBlock d)) ∧
  (∀ d, refines eq (AppendAsBlock d) (queue_AppendAsBlock d)) ∧
  (∀ n, refines eq (Container_Get n) (queue_Get n)) ∧
  (∀ n, refines eq (GetMax n) (queue_GetMax n)) ∧
  refines eq GetAll queue_GetAll ∧
  (∀ n, refines (λ c' b, Container_ok c' ∧ content c' = b) (GetAsContainer n)
     (λ q, if (n <? 0)%Z || (len q <? n)%Z then (q, Fail ErrNotEnoughToReturn)
           else (drop (Z.to_nat n) q, Ret (take (Z.to_nat n) q)))) ∧
  refines eq GetNextN8 (queue_GetNext 2 Unpack8) ∧
  refines eq GetNextN16 (queue_GetNext 3 Unpack16) ∧
  refines eq GetNextN32 (queue_GetNext 5 Unpack32) ∧
  refines eq GetNextN64 (queue_GetNext 10 Unpack64) ∧
  refines eq Container_GetNextBlock queue_GetNextBlock ∧
  (∀ k, refines eq (λ c, let '(c', r) := WriteToSlice k c in (c', Ret r))
     (λ q, (drop k q, Ret (take k q, bool_decide (length q ≤ k))))) ∧
  refines eq CompileData (λ q, (q, Ret q)).
Proof.
  split_and!; intros;
    first [apply refines_Prepend | apply refines_Append | apply refines_PrependAsBlock
          | apply refines_AppendAsBlock | apply refines_Get | apply refines_GetMax
          | apply refines_GetAll | apply refines_GetAsContainer
          | apply (refines_GetNext 2 Unpack8) | apply (refines_GetNext 3 Unpack16)
          | apply (refines_GetNext 5 Unpack32) | apply (refines_GetNext 10 Unpack64)
          | apply refines_GetNextBlock | apply refines_WriteToSlice | apply refines_CompileData].
Qed.

(** A list of blocks appended to an empty container with [AppendAsBlock]
    is read back, block by block and in order, with [GetNextBlock], and
    nothing is left over. *)
Theorem container_blocks_roundtrip (ds : list bytes) :
  Forall (λ d, len d < 2 ^ 63)%Z ds →
  ∃ c c', append_blocks ds (Container_New [[]]) = (c, Ret tt) ∧
    read_blocks (length ds) c = (c', Ret ds) ∧ content c' = [].
Proof.
  intros Hds.
  assert (in_use (Container_New [[]])) as Hin by (split; [apply Container_ok_New|done]).
  destruct (append_blocks_spec ds _ Hin Hds) as (c & Ha & Hc & Hcont).
  destruct (read_blocks_spec ds c [] Hc Hds) as (c' & Hr & _ & Hcont').
  { by rewrite Hcont, app_nil_r. }
  eauto.
Qed.

Lemma container_blocks_roundtrip_witness :
  ∃ c c', append_blocks [[1; 2; 3]; []; [9]]%Z (Container_New [[]]) = (c, Ret tt) ∧
    read_blocks 3 c = (c', Ret [[1; 2; 3]; []; [9]]%Z) ∧ content c' = [].
Proof.
  apply (container_blocks_roundtrip [[1; 2; 3]; []; [9]]%Z).
  repeat constructor.
Defined.

(** [Replace] keeps the old offset, so on a container whose offset is not
    zero (any container that had something prepended) the new data is out of
    sight: no data is reported, the length is zero and reading panics. *)
Theorem Replace_after_Prepend_loses_data (c : Container) (data : bytes) (n : Z) :
  0 < offset c → (0 < n)%Z →
  HoldsData (Container_Replace data c) = false ∧
  Container_Length (Container_Replace data c) = 0 ∧
  Container_Peek n (Container_Replace data c) = Panic.
Proof.
  intros Hoff Hn. unfold HoldsData, Container_Length, Container_Peek, Container_Replace. simpl.
  rewrite drop_ge by (simpl; lia). rewrite lookup_ge_None_2 by (simpl; lia). by zcmp.
Qed.

Lemma Replace_after_Prepend_loses_data_witness :
  let c := (Container_Prepend [1]%Z (Container_New [[2]%Z])).1 in
  content c = [1; 2]%Z ∧ HoldsData (Container_Replace [3]%Z c) = false ∧
  Container_Length (Container_Replace [3]%Z c) = 0 ∧
  Container_Peek 1 (Container_Replace [3]%Z c) = Panic.
Proof.
  intros c. split; [reflexivity|].
  apply (Replace_after_Prepend_loses_data c [3]%Z 1); [vm_compute; lia|lia].
Defined.

(** A block whose announced size does not fit a positive int is not an
    error: [GetNextBlock] consumes the size and returns an empty block. *)
Theorem GetNextBlock_negative_size (c : Container) (n : Z) (p rest : bytes) :
  in_use c → (2 ^ 63 ≤ n < 2 ^ 64)%Z → Pack64 n = Ret p → content c = p ++ rest →
  ∃ c', Container_GetNextBlock c = (c', Ret []) ∧ content c' = rest.
Proof.
  intros Hc Hn Hp Hcont.
  assert (is_u64 n) as Hu by (unfold is_u64; lia).
  destruct (Pack64_bounds _ _ Hu Hp) as [Hlen _].
  destruct (refines_GetNextBlock c Hc) as (H1 & H2 & H3). rewrite Hcont in H2, H3.
  assert (queue_GetNextBlock (p ++ rest) = (rest, Ret [])) as Hq.
  { unfold queue_GetNextBlock, queue_GetNext, st_bind.
    rewrite take_app_ge by (unfold len in Hlen; lia).
    rewrite (Unpack64_Pack64 n p _ Hu Hp). simpl.
    rewrite to_nat_len, drop_app_length.
    unfold queue_Get. rewrite s64_wrap by lia. pose proof (len_nonneg rest).
    zcmp. replace (Z.to_nat (n - 2 ^ 64)) with 0 by lia. by rewrite take_0, drop_0. }
  rewrite Hq in H2, H3. destruct (Container_GetNextBlock c) as [c' [d'|e|]]; simpl in *; [|done|done].
  subst d'. by exists c'.
Qed.

Lemma GetNextBlock_negative_size_witness :
  ∃ c', Container_GetNextBlock (Container_New [replicate 9 255 ++ [1]; [7]]%Z) = (c', Ret []) ∧
    content c' = [7]%Z.
Proof.
  apply (GetNextBlock_negative_size _ (2 ^ 64 - 1) (replicate 9 255 ++ [1])%Z [7]%Z).
  - split; [apply Container_ok_New|done].
  - lia.
  - vm_compute. reflexivity.
  - reflexivity.
Defined.

(** With a writer that obeys the contract of io.Writer (a write without an
    error takes all bytes), [WriteAllTo] needs one call per compartment, ends
    without an error and appends exactly the content. *)
Theorem WriteAllTo_writes_content {W E : Type} (write : W → bytes → W * Z * option E)
    (out : W → bytes) (w : W) (c : Container) :
  (∀ w p, ∃ w', write w p = (w', len p, None) ∧ out w' = out w ++ p) →
  ∃ w', WriteAllTo write 1 w c = Some (w', None) ∧ out w' = out w ++ content c.
Proof.
  intros Hwrite. unfold WriteAllTo, content.
  generalize (drop (offset c) (compartments c)) as comps. intros comps.
  revert w. induction comps as [|comp comps IH]; intros w; simpl.
  { exists w. by rewrite app_nil_r. }
  destruct (0 <? len comp)%Z eqn:Hlen; bool_to_prop.
  - destruct (Hwrite w (drop (Z.to_nat 0) comp)) as (w1 & -> & Hout). rewrite drop_0 in *.
    zcmp. destruct (IH w1) as (w' & -> & Hout'). exists w'. split; [done|].
    by rewrite Hout', Hout, <- app_assoc.
  - destruct (IH w) as (w' & -> & Hout'). exists w'. split; [done|].
    assert (comp = []) as ->; [|done]. apply length_zero_iff_nil. unfold len in Hlen. lia.
Qed.

Lemma WriteAllTo_writes_content_witness :
  ∃ w', WriteAllTo (E := unit) (λ w p, (w ++ p, len p, None)) 1 [] (Container_New [[1]; [2; 3]]%Z)
    = Some (w', None) ∧ w' = [] ++ content (Container_New [[1]; [2; 3]]%Z).
Proof.
  apply (WriteAllTo_writes_content (λ w p, (w ++ p, len p, None)) id [] _).
  intros w p. by exists (w ++ p).
Defined.
