(* ===== verification/Record.v ===== *)
(** * database/record: keys, metadata, record serialization

    key.go, meta.go, meta-gencode.go, base.go and wrapper.go. The clock
    ([time.Now().Unix()]) is the argument [now]; a [*Meta] that may be nil is
    an [option Meta]. The serialization goes through the models of packages
    container, varint and dsd. *)

From Stdlib Require Import ZArith Lia Ascii String.
From S2P Require Import Prelude GoStrings Varint Container Dsd.
Local Open Scope Z_scope.

(** ** key.go *)

Definition ParseKey (key : string) : string * string :=
  match Cut key ":" with
  | None => (key, ""%string)
  | Some (dbName, dbKey) => (dbName, dbKey)
  end.

(** ** meta.go *)

Record Meta : Type := mkMeta {
  Created : Z;
  Modified : Z;
  Expires : Z;
  Deleted : Z;
  secret : bool;
  cronjewel : bool;
}.

#[global] Instance Meta_eq_dec : EqDecision Meta.
Proof. solve_decision. Defined.

(** [&Meta{}] *)
Definition zeroMeta : Meta := mkMeta 0 0 0 0 false false.

Definition SetAbsoluteExpiry (seconds : Z) (m : Meta) : Meta :=
  mkMeta (Created m) (Modified m) seconds 0 (secret m) (cronjewel m).

Definition SetRelativateExpiry (seconds : Z) (m : Meta) : Meta :=
  if 0 <=? seconds
  then mkMeta (Created m) (Modified m) (Expires m) (- seconds) (secret m) (cronjewel m)
  else m.

Definition GetAbsoluteExpiry (m : Meta) : Z := Expires m.

Definition GetRelativeExpiry (now : Z) (m : Meta) : Z :=
  if Expires m =? 0 then -1
  else let abs := s64 (Expires m - now) in
       if abs <? 0 then 0 else abs.

Definition MakeCrownJewel (m : Meta) : Meta :=
  mkMeta (Created m) (Modified m) (Expires m) (Deleted m) (secret m) true.

Definition MakeSecret (m : Meta) : Meta :=
  mkMeta (Created m) (Modified m) (Expires m) (Deleted m) true (cronjewel m).

Definition Meta_Update (now : Z) (m : Meta) : Meta :=
  mkMeta (if Created m =? 0 then now else Created m) now
    (if Deleted m <? 0 then s64 (now - Deleted m) else Expires m)
    (Deleted m) (secret m) (cronjewel m).

Definition Meta_Reset (m : Meta) : Meta :=
  mkMeta 0 0 0 0 (secret m) (cronjewel m).

Definition Meta_Delete (now : Z) (m : Meta) : Meta :=
  mkMeta (Created m) (Modified m) (Expires m) now (secret m) (cronjewel m).

Definition IsDeleted (m : Meta) : bool := 0 <? Deleted m.

Definition CheckValidity (now : Z) (m : option Meta) : bool :=
  match m with
  | None => false
  | Some m =>
      if 0 <? Deleted m then false
      else if (0 <? Expires m) && (Expires m <? now) then false
      else true
  end.

Definition CheckPermission (m : option Meta) (local internal : bool) : bool :=
  match m with
  | None => false
  | Some m =>
      if negb local && cronjewel m then false
      else if negb internal && secret m then false
      else true
  end.

Definition Meta_Duplicate (m : Meta) : Meta :=
  mkMeta (Created m) (Modified m) (Expires m) (Deleted m) (secret m) (cronjewel m).

(** ** meta-gencode.go *)

Definition GenCodeSize : Z := 34.

(** [buf[k+off] = byte(v >> 8*k)] for the eight bytes of an int64. *)
Definition put_int64 (off : nat) (v : Z) (buf : bytes) : bytes :=
  foldl (λ buf k, <[(k + off)%nat := u8 (Z.shiftr v (8 * Z.of_nat k))]> buf) buf (seq 0 8).

(** The argument is the backing array of the buffer up to its capacity. *)
Definition GenCodeMarshal (m : Meta) (buf : bytes) : bytes :=
  let size := Z.to_nat GenCodeSize in
  let buf := if (size <=? length buf)%nat then take size buf else replicate size 0 in
  let buf := put_int64 0 (Created m) buf in
  let buf := put_int64 8 (Modified m) buf in
  let buf := put_int64 16 (Expires m) buf in
  let buf := put_int64 24 (Deleted m) buf in
  let buf := <[32%nat := if secret m then 1 else 0]> buf in
  let buf := <[33%nat := if cronjewel m then 1 else 0]> buf in
  take 34 buf.

(** [buf[i]], used below the checked length only. *)
Definition byte_at (buf : bytes) (i : nat) : Z := default 0 (buf !! i).

(** [0 | int64(buf[0+off])<<0 | ... | int64(buf[7+off])<<56] *)
Definition get_int64 (off : nat) (buf : bytes) : Z :=
  foldl (λ acc k, Z.lor acc (s64 (Z.shiftl (byte_at buf (k + off)) (8 * Z.of_nat k)))) 0 (seq 0 8).

(** The first result is the number of bytes read. *)
Definition GenCodeUnmarshal (buf : bytes) : go Z (Z * Meta) :=
  if len buf <? GenCodeSize then Fail (len buf)
  else Ret (34, mkMeta (get_int64 0 buf) (get_int64 8 buf) (get_int64 16 buf) (get_int64 24 buf)
                  (byte_at buf 32 =? 1) (byte_at buf 33 =? 1)).

(** Errors of unpacking metadata: too short for gencode, or one of the other
    codecs'. *)
Inductive meta_error (X : Type) : Type :=
| InsufficientData (got : Z)
| MetaCodecError (e : X).
Arguments InsufficientData {X} got.
Arguments MetaCodecError {X} e.

Definition wrap_codec {X A : Type} (r : X + A) : meta_error X + A :=
  match r with inl e => inl (MetaCodecError e) | inr a => inr a end.

(** [*Meta] as package dsd sees it: gencode is the code above, the other
    codecs are those of the libraries. *)
Definition meta_codecs {X : Type} (lib : Codecs Meta X) : Codecs Meta (meta_error X) := {|
  json_Marshal m := wrap_codec (json_Marshal m);
  json_MarshalIndent indent m := wrap_codec (json_MarshalIndent indent m);
  json_Unmarshal d := wrap_codec (json_Unmarshal d);
  yaml_Marshal m := wrap_codec (yaml_Marshal m);
  yaml_Unmarshal d := wrap_codec (yaml_Unmarshal d);
  cbor_Marshal m := wrap_codec (cbor_Marshal m);
  cbor_Unmarshal d := wrap_codec (cbor_Unmarshal d);
  msgpack_Marshal m := wrap_codec (msgpack_Marshal m);
  msgpack_Unmarshal d := wrap_codec (msgpack_Unmarshal d);
  gencode_Marshal := Some (λ m, inr (GenCodeMarshal m []));
  gencode_Unmarshal := Some (λ d,
    match GenCodeUnmarshal d with
    | Ret (_, m) => inr m
    | Fail got => inl (InsufficientData got)
    | Panic => inl (InsufficientData 0)
    end);
  raw_bytes _ := None;
  gzip_compress d := wrap_codec (gzip_compress d);
  gzip_decompress d := wrap_codec (gzip_decompress d);
|}.

(** ** base.go *)

Record Base : Type := mkBase {
  dbName : string;
  dbKey : string;
  meta : option Meta;
}.

#[global] Instance Base_eq_dec : EqDecision Base.
Proof. solve_decision. Defined.

Definition KeyIsSet (b : Base) : bool := negb (String.eqb (dbName b) "").

Definition SetKey (key : string) (b : Base) : Base :=
  if negb (KeyIsSet b)
  then let '(n, k) := ParseKey key in mkBase n k (meta b)
  else b.

Definition ResetKey (b : Base) : Base := mkBase "" "" (meta b).

Definition Base_Key (b : Base) : string := (dbName b ++ ":" ++ dbKey b)%string.

Definition DatabaseName (b : Base) : string := dbName b.

Definition DatabaseKey (b : Base) : string := dbKey b.

Definition Base_Meta (b : Base) : option Meta := meta b.

Definition SetMeta (m : option Meta) (b : Base) : Base := mkBase (dbName b) (dbKey b) m.

Definition CreateMeta (b : Base) : Base := SetMeta (Some zeroMeta) b.

Definition UpdateMeta (now : Z) (b : Base) : Base :=
  let b := match meta b with None => CreateMeta b | Some _ => b end in
  SetMeta (option_map (Meta_Update now) (meta b)) b.

(** ** wrapper.go *)

Record Wrapper : Type := mkWrapper {
  wbase : Base;
  Format : Z;
  Data : bytes;
}.

#[global] Instance Wrapper_eq_dec : EqDecision Wrapper.
Proof. solve_decision. Defined.

Inductive record_error (X : Type) : Type :=
| ErrMissingMeta
| ErrFormatMismatch
| ErrRecordVarint (e : varint_error)
| ErrRecordVersion (version : Z)
| ErrMetaSection (e : varint_error)
| ErrMetaUnmarshal (e : dsd_error (meta_error X))
| ErrMetaMarshal (e : dsd_error (meta_error X))
| ErrDsdFormat (e : varint_error)
| ErrDumpRecord (e : dsd_error X)
| ErrCompile (e : container_error)
| ErrCannotUnwrap
| ErrUnwrap (e : dsd_error X).
Arguments ErrMissingMeta {X}.
Arguments ErrFormatMismatch {X}.
Arguments ErrRecordVarint {X} e.
Arguments ErrRecordVersion {X} version.
Arguments ErrMetaSection {X} e.
Arguments ErrMetaUnmarshal {X} e.
Arguments ErrMetaMarshal {X} e.
Arguments ErrDsdFormat {X} e.
Arguments ErrDumpRecord {X} e.
Arguments ErrCompile {X} e.
Arguments ErrCannotUnwrap {X}.
Arguments ErrUnwrap {X} e.

Definition NewWrapper (key : string) (m : option Meta) (format : Z) (data : bytes) : Wrapper :=
  let '(n, k) := ParseKey key in mkWrapper (mkBase n k m) format data.

Definition Wrapper_Marshal {X : Type} (w : Wrapper) (format : Z) : go (record_error X) bytes :=
  match meta (wbase w) with
  | None => Fail ErrMissingMeta
  | Some m =>
      if 0 <? Deleted m then Ret []
      else if negb (format =? AUTO) && negb (format =? Format w) then Fail ErrFormatMismatch
      else Ret (Format w :: Data w)
  end.

Section Records.
Context {X : Type} (lib : Codecs Meta X).

(** [dsd.Dump(b.meta, dsd.GenCode)] *)
Definition dump_meta (m : Meta) : go (record_error X) bytes :=
  go_mapError ErrMetaMarshal (Dump (Codecs0 := meta_codecs lib) m GenCode).

(** The container steps of both MarshalRecord methods: version, meta block,
    data. *)
Definition compile_record (metaSection dataSection : bytes) : go (record_error X) bytes :=
  go_mapError ErrCompile (snd ((
    let$ _ := AppendAsBlock metaSection in
    let$ _ := st_mod (Container_Append dataSection) in
    CompileData) (Container_New [[1]]))).

Definition Wrapper_MarshalRecord (w : Wrapper) : go (record_error X) bytes :=
  match meta (wbase w) with
  | None => Fail ErrMissingMeta
  | Some m =>
      let! metaSection := dump_meta m in
      let! dataSection := Wrapper_Marshal w AUTO in
      compile_record metaSection dataSection
  end.

Definition NewRawWrapper (database key : string) (data : bytes) : go (record_error X) Wrapper :=
  let! (version, offset) := go_mapError ErrRecordVarint (Unpack8 data) in
  if negb (version =? 1) then Fail (ErrRecordVersion version)
  else
    let! rest := slice data offset (len data) in
    let! (metaSection, n) := go_mapError ErrMetaSection (GetNextBlock rest) in
    let offset := offset + n in
    let! (_, newMeta) := go_mapError ErrMetaUnmarshal (Load (Codecs0 := meta_codecs lib) metaSection) in
    let! (format, offset) :=
      (if negb (IsDeleted newMeta) then
         let! rest := slice data offset (len data) in
         let! (format, n) := go_mapError ErrDsdFormat (Unpack8 rest) in
         Ret (format, offset + n)
       else Ret (RAW, offset)) in
    let! payload := slice data offset (len data) in
    Ret (mkWrapper (mkBase database key (Some newMeta)) format payload).

(** ** Records of a Go type [T] that embeds Base, and wrapped records *)

Context {T : Type} `{!Codecs T X}.

Inductive record : Type :=
| Typed (b : Base) (v : T)
| Wrapped (w : Wrapper).

Definition record_base (r : record) : Base :=
  match r with Typed b _ => b | Wrapped w => wbase w end.

Definition IsWrapped (r : record) : bool :=
  match r with Typed _ _ => false | Wrapped _ => true end.

Definition Base_Marshal (b : Base) (self : T) (format : Z) : go (record_error X) bytes :=
  match meta b with
  | None => Fail ErrMissingMeta
  | Some m =>
      if 0 <? Deleted m then Ret []
      else go_mapError ErrDumpRecord (Dump self format)
  end.

Definition Base_MarshalRecord (b : Base) (self : T) : go (record_error X) bytes :=
  match meta b with
  | None => Fail ErrMissingMeta
  | Some m =>
      let! metaSection := dump_meta m in
      let! dataSection := Base_Marshal b self JSON in
      compile_record metaSection dataSection
  end.

(** The calls through the Record interface. *)
Definition Marshal (r : record) (format : Z) : go (record_error X) bytes :=
  match r with
  | Typed b v => Base_Marshal b v format
  | Wrapped w => Wrapper_Marshal w format
  end.

Definition MarshalRecord (r : record) : go (record_error X) bytes :=
  match r with
  | Typed b v => Base_MarshalRecord b v
  | Wrapped w => Wrapper_MarshalRecord w
  end.

(** [Unwrap(wrapped, r)]: [b] is the Base of the target, whose value is
    overwritten by the loaded one. *)
Definition Unwrap (wrapped : record) (b : Base) : go (record_error X) record :=
  match wrapped with
  | Typed _ _ => Fail ErrCannotUnwrap
  | Wrapped w =>
      let! v := go_mapError ErrUnwrap (LoadAsFormat (T := T) (Data w) (Format w)) in
      Ret (Typed (SetMeta (meta (wbase w)) (SetKey (Base_Key (wbase w)) b)) v)
  end.

End Records.
Arguments record : clear implicits.

(** ** Byte layout of an int64 *)

Lemma u8_shiftr_step (v : Z) (k : Z) :
  0 ≤ k → Z.lor (v `mod` 2 ^ (8 * k)) (Z.shiftl (u8 (Z.shiftr v (8 * k))) (8 * k))
    = v `mod` 2 ^ (8 * (k + 1)).
Proof.
  intros Hk. rewrite lor_shiftl_add by (first [lia | apply Z.mod_pos_bound; lia]).
  unfold u8. rewrite Z.shiftr_div_pow2 by lia.
  replace (8 * (k + 1)) with (8 * k + 8) by lia. rewrite Z.pow_add_r by lia.
  change (2 ^ 8) with 256. rewrite Z.rem_mul_r by lia. lia.
Qed.

Lemma s64_top_byte (v : Z) :
  is_s64 v → s64 (Z.shiftl (u8 (Z.shiftr v 56)) 56) = Z.shiftl (Z.shiftr v 56) 56.
Proof.
  unfold is_s64. intros Hv. rewrite Z.shiftr_div_pow2, !Z.shiftl_mul_pow2 by lia.
  assert (-128 ≤ v / 2 ^ 56 < 128) as Hq.
  { split; [apply Z.div_le_lower_bound|apply Z.div_lt_upper_bound]; lia. }
  unfold u8. destruct (decide (0 ≤ v / 2 ^ 56)).
  - rewrite Z.mod_small by lia. apply s64_small. unfold is_s64. lia.
  - rewrite <- (Zmod_unique (v / 2 ^ 56) 256 (-1) (v / 2 ^ 56 + 256)) by lia.
    rewrite s64_wrap; lia.
Qed.

Lemma s64_low_byte (b k : Z) : is_u8 b → 0 ≤ k < 7 → s64 (Z.shiftl b (8 * k)) = Z.shiftl b (8 * k).
Proof.
  unfold is_u8. intros Hb Hk. apply s64_small. unfold is_s64.
  rewrite Z.shiftl_mul_pow2 by lia.
  assert (2 ^ (8 * k) ≤ 2 ^ 48) by (apply Z.pow_le_mono_r; lia).
  assert (0 < 2 ^ (8 * k)) by (apply Z.pow_pos_nonneg; lia). nia.
Qed.

Lemma lor_int64_bytes (v : Z) :
  is_s64 v →
  foldl (λ acc k, Z.lor acc (s64 (Z.shiftl (u8 (Z.shiftr v (8 * Z.of_nat k))) (8 * Z.of_nat k))))
    0 (seq 0 8) = v.
Proof.
  intros Hv. cbn [foldl seq].
  assert (∀ k, (k < 7)%nat → Z.lor (v `mod` 2 ^ (8 * Z.of_nat k))
    (s64 (Z.shiftl (u8 (Z.shiftr v (8 * Z.of_nat k))) (8 * Z.of_nat k)))
      = v `mod` 2 ^ (8 * Z.of_nat (S k))) as Hstep.
  { intros k Hk. rewrite s64_low_byte by (first [apply u8_is_u8 | lia]).
    rewrite Nat2Z.inj_succ. apply u8_shiftr_step. lia. }
  replace 0 with (v `mod` 2 ^ (8 * Z.of_nat 0)) at 1
    by (change (2 ^ (8 * Z.of_nat 0)) with 1; apply Z.mod_1_r).
  rewrite !Hstep by lia.
  change (8 * Z.of_nat 7) with 56.
  rewrite s64_top_byte by done. rewrite lor_shiftl_add by (first [lia | apply Z.mod_pos_bound; lia]).
  rewrite Z.shiftr_div_pow2 by lia. pose proof (Z.div_mod v (2 ^ 56)). lia.
Qed.

Definition int64_bytes (v : Z) : bytes :=
  map (λ k, u8 (Z.shiftr v (8 * Z.of_nat k))) (seq 0 8).

Lemma put_int64_app (pre old post : bytes) (v : Z) :
  length old = 8%nat →
  put_int64 (length pre) v (pre ++ old ++ post) = pre ++ int64_bytes v ++ post.
Proof.
  intros Hold. unfold put_int64, int64_bytes.
  destruct old as [|b0 [|b1 [|b2 [|b3 [|b4 [|b5 [|b6 [|b7 [|]]]]]]]]]; simplify_eq/=.
  induction pre as [|a pre IH]; simpl; [done|]. by rewrite IH.
Qed.

Lemma get_int64_app (pre post : bytes) (v : Z) :
  is_s64 v → get_int64 (length pre) (pre ++ int64_bytes v ++ post) = v.
Proof.
  intros Hv. rewrite <- (lor_int64_bytes v Hv) at 2. unfold get_int64, byte_at.
  cbn -[Z.of_nat]. induction pre as [|a pre IH]; [done|apply IH].
Qed.

Definition flag_byte (b : bool) : Z := if b then 1 else 0.

(** The layout: four little-endian int64 and two flag bytes. *)
Definition meta_layout (m : Meta) : bytes :=
  int64_bytes (Created m) ++ int64_bytes (Modified m) ++ int64_bytes (Expires m) ++
  int64_bytes (Deleted m) ++ [flag_byte (secret m); flag_byte (cronjewel m)].

#[local] Arguments meta_layout : simpl never.

Lemma GenCodeMarshal_layout (m : Meta) (buf : bytes) : GenCodeMarshal m buf = meta_layout m.
Proof.
  unfold GenCodeMarshal. cbv zeta.
  set (b := if (_ <=? _)%nat then _ else _).
  assert (length b = 34%nat) as Hb.
  { subst b. case_match eqn:H.
    - apply Nat.leb_le in H. rewrite length_take. change (Z.to_nat GenCodeSize) with 34%nat in *. lia.
    - by rewrite length_replicate. }
  clearbody b. do 34 (destruct b as [|? b]; [discriminate Hb|]).
  destruct b; [reflexivity|discriminate Hb].
Qed.

Lemma len_meta_layout (m : Meta) : len (meta_layout m) = 34.
Proof. done. Qed.

(** The values a [Meta] can hold. *)
Definition Meta_ok (m : Meta) : Prop :=
  is_s64 (Created m) ∧ is_s64 (Modified m) ∧ is_s64 (Expires m) ∧ is_s64 (Deleted m).

Lemma GenCodeUnmarshal_layout (m : Meta) (rest : bytes) :
  Meta_ok m → GenCodeUnmarshal (meta_layout m ++ rest) = Ret (34, m).
Proof.
  intros (Hc & Hm & He & Hd). unfold GenCodeUnmarshal.
  rewrite len_app, len_meta_layout. pose proof (len_nonneg rest). unfold GenCodeSize. zcmp.
  destruct m as [cr mo ex de se cj]. simpl in Hc, Hm, He, Hd.
  assert (get_int64 0 (meta_layout (mkMeta cr mo ex de se cj) ++ rest) = cr) as ->
    by exact (get_int64_app [] _ cr Hc).
  assert (get_int64 8 (meta_layout (mkMeta cr mo ex de se cj) ++ rest) = mo) as ->
    by exact (get_int64_app (int64_bytes cr) _ mo Hm).
  assert (get_int64 16 (meta_layout (mkMeta cr mo ex de se cj) ++ rest) = ex) as ->
    by exact (get_int64_app (int64_bytes cr ++ int64_bytes mo) _ ex He).
  assert (get_int64 24 (meta_layout (mkMeta cr mo ex de se cj) ++ rest) = de) as ->
    by exact (get_int64_app (int64_bytes cr ++ int64_bytes mo ++ int64_bytes ex) _ de Hd).
  by destruct se, cj.
Qed.

(** ** The stored form of a record *)

Lemma compile_record_spec {X : Type} (ms ds : bytes) :
  len ms < 2 ^ 63 →
  ∃ p, Pack64 (u64 (len ms)) = Ret p ∧ compile_record (X := X) ms ds = Ret ([1] ++ p ++ ms ++ ds).
Proof.
  intros Hms. pose proof (len_nonneg ms).
  destruct (Pack64_ret (u64 (len ms))) as (p & Hp & _).
  { apply Z.mod_pos_bound. lia. }
  exists p. split; [done|]. unfold compile_record.
  assert (in_use (Container_New [[1]])) as Hc by (by split; [apply Container_ok_New|]).
  destruct (refines_AppendAsBlock ms _ Hc) as (H1 & H2 & H3).
  unfold queue_AppendAsBlock, st_bind, st_get in H2, H3. rewrite Hp in H2, H3. cbn in H2, H3.
  unfold st_bind. destruct (AppendAsBlock ms (Container_New [[1]])) as [c [?|?|]]; simpl in H1, H2, H3; [|done|done].
  destruct (refines_Append ds c H1) as (H4 & H5 & H6).
  unfold st_mod in *. cbn [fst snd] in *.
  destruct (refines_CompileData _ H4) as (H7 & H8 & H9). cbn in H9.
  destruct (CompileData (Container_Append ds c)) as [c' [?|?|]]; simpl in *; [|done|done].
  rewrite H9. change (concat _) with (content (Container_Append ds c)).
  rewrite H5, H2. simpl. by rewrite <- !app_assoc.
Qed.

Section Stored.
Context {X : Type} (lib : Codecs Meta X).

Lemma dump_meta_spec (m : Meta) : dump_meta lib m = Ret ([GenCode] ++ meta_layout m).
Proof.
  unfold dump_meta, Dump, DumpIndent, dumpWithoutIdentifier. simpl.
  by rewrite GenCodeMarshal_layout.
Qed.

Lemma load_meta_spec (m : Meta) :
  Meta_ok m →
  Load (Codecs0 := meta_codecs lib) ([GenCode] ++ meta_layout m) = Ret (GenCode, m).
Proof.
  intros Hm. unfold Load. rewrite loadFormat_identifier by done. cbn [go_bind].
  change 1 with (len [GenCode]). rewrite slice_suffix. cbn -[GenCodeUnmarshal meta_layout].
  unfold LoadAsFormat. cbn -[GenCodeUnmarshal meta_layout].
  by rewrite <- (app_nil_r (meta_layout m)), GenCodeUnmarshal_layout.
Qed.

(** Reading version and metadata off a stored record. *)
Lemma NewRawWrapper_stored (database key : string) (m : Meta) (p ds : bytes) :
  Meta_ok m → Pack64 (u64 35) = Ret p →
  NewRawWrapper lib database key ([1] ++ p ++ ([GenCode] ++ meta_layout m) ++ ds) =
    if IsDeleted m then Ret (mkWrapper (mkBase database key (Some m)) RAW ds)
    else let! (format, n) := go_mapError ErrDsdFormat (Unpack8 ds) in
         let! payload := slice ds n (len ds) in
         Ret (mkWrapper (mkBase database key (Some m)) format payload).
Proof.
  intros Hm Hp. set (ms := [GenCode] ++ meta_layout m).
  assert (len ms = 35) as Hms by done.
  destruct (Pack64_bounds (u64 35) p) as [Hplen _]; [done|done|].
  unfold NewRawWrapper. cbn [app Unpack8]. change (1 <? 128) with true.
  cbn [go_mapError go_bind]. change (negb (1 =? 1)) with false. cbv iota.
  rewrite (slice_tail 1). cbn [go_bind].
  rewrite (GetNextBlock_block ms p ds) by (rewrite ?len_app, Hms; done || lia).
  cbn [go_mapError go_bind]. subst ms. rewrite load_meta_spec by done. cbn [go_mapError go_bind].
  set (ms := [GenCode] ++ meta_layout m) in *.
  assert (1 + (len p + len ms) = len ([1] ++ p ++ ms)) as ->.
  { by rewrite !len_app, len_singleton. }
  assert (1 :: p ++ ms ++ ds = ([1] ++ p ++ ms) ++ ds) as -> by (by rewrite <- !app_assoc).
  destruct (IsDeleted m); cbn [negb].
  - cbn [go_bind]. by rewrite slice_suffix.
  - rewrite slice_suffix. cbn [go_bind].
    destruct (Unpack8 ds) as [[format n]|e|] eqn:Hu; cbn [go_mapError go_bind]; [|done|done].
    rewrite slice_shift; [done|]. apply Unpack8_read in Hu. lia.
Qed.
End Stored.

(** A concrete set of codecs for [*Meta], for the witnesses: all of them
    refuse. *)
Definition no_codecs {T : Type} : Codecs T unit := {|
  json_Marshal _ := inl tt; json_MarshalIndent _ _ := inl tt; json_Unmarshal _ := inl tt;
  yaml_Marshal _ := inl tt; yaml_Unmarshal _ := inl tt;
  cbor_Marshal _ := inl tt; cbor_Unmarshal _ := inl tt;
  msgpack_Marshal _ := inl tt; msgpack_Unmarshal _ := inl tt;
  gencode_Marshal := None; gencode_Unmarshal := None;
  raw_bytes _ := None;
  gzip_compress _ := inl tt; gzip_decompress _ := inl tt;
|}.

(** ** Properties *)

(** Gencode metadata round-trips: whatever buffer it is written into and
    whatever follows it, the 34 bytes give back the same metadata, for every
    value of the four int64 fields and both flags. *)
Theorem GenCode_roundtrip (m : Meta) (buf rest : bytes) :
  Meta_ok m →
  len (GenCodeMarshal m buf) = GenCodeSize ∧
  GenCodeUnmarshal (GenCodeMarshal m buf ++ rest) = Ret (GenCodeSize, m).
Proof.
  intros Hm. rewrite GenCodeMarshal_layout. split; [done|]. by apply GenCodeUnmarshal_layout.
Qed.

Lemma GenCode_roundtrip_witness :
  len (GenCodeMarshal (mkMeta 1 (-2) (2 ^ 63 - 1) (- 2 ^ 63) true false) []) = GenCodeSize ∧
  GenCodeUnmarshal (GenCodeMarshal (mkMeta 1 (-2) (2 ^ 63 - 1) (- 2 ^ 63) true false) [] ++ [7])
    = Ret (GenCodeSize, mkMeta 1 (-2) (2 ^ 63 - 1) (- 2 ^ 63) true false).
Proof. apply (GenCode_roundtrip (mkMeta 1 (-2) (2 ^ 63 - 1) (- 2 ^ 63) true false)). done. Defined.

(** What storage backends rely on: a wrapper packed by [MarshalRecord] is
    read back by [NewRawWrapper] with its metadata, format and data; of a
    deleted record only the metadata survives, with an empty RAW payload. *)
Theorem wrapper_storage_roundtrip {X : Type} (lib : Codecs Meta X) (w : Wrapper) (m : Meta) :
  meta (wbase w) = Some m → Meta_ok m → 0 ≤ Format w < 128 →
  ∃ stored, Wrapper_MarshalRecord lib w = Ret stored ∧
    NewRawWrapper lib (dbName (wbase w)) (dbKey (wbase w)) stored =
      Ret (if IsDeleted m then mkWrapper (wbase w) RAW [] else w).
Proof.
  intros Hw Hm Hf. destruct (compile_record_spec (X := X) ([GenCode] ++ meta_layout m)
    (if IsDeleted m then [] else Format w :: Data w)) as (p & Hp & Hc); [done|].
  exists ([1] ++ p ++ ([GenCode] ++ meta_layout m) ++ (if IsDeleted m then [] else Format w :: Data w)).
  unfold Wrapper_MarshalRecord, Wrapper_Marshal. rewrite Hw, dump_meta_spec. unfold IsDeleted in *.
  split; [simpl; by destruct (0 <? Deleted m)|].
  rewrite NewRawWrapper_stored by done. unfold IsDeleted. clear Hp Hc.
  destruct w as [[n k me] f d]. simpl in *. subst me.
  destruct (0 <? Deleted m); [done|]. unfold Unpack8. zcmp. cbn [go_mapError go_bind].
  by rewrite slice_tail.
Qed.

Lemma wrapper_storage_roundtrip_witness :
  ∃ stored, Wrapper_MarshalRecord no_codecs
      (mkWrapper (mkBase "test" "a/b" (Some (mkMeta 1 2 0 0 false true))) JSON [123; 125]) = Ret stored ∧
    NewRawWrapper no_codecs "test" "a/b" stored =
      Ret (mkWrapper (mkBase "test" "a/b" (Some (mkMeta 1 2 0 0 false true))) JSON [123; 125]).
Proof.
  apply (wrapper_storage_roundtrip no_codecs
    (mkWrapper (mkBase "test" "a/b" (Some (mkMeta 1 2 0 0 false true))) JSON [123; 125])
    (mkMeta 1 2 0 0 false true)); done.
Defined.

(** A typed record that is not deleted survives storage: packed by
    [MarshalRecord], read by [NewRawWrapper] and unwrapped into a fresh object
    it has its key, its metadata and its value. *)
Theorem typed_storage_roundtrip {T X : Type} (lib : Codecs Meta X) `{!Codecs T X}
    (P : T → Prop) `{!CodecLaws T X P} (b : Base) (m : Meta) (v : T) :
  meta b = Some m → Meta_ok m → IsDeleted m = false → Cut (dbName b) ":" = None → P v →
  ∃ stored w, MarshalRecord lib (Typed b v) = Ret stored ∧
    NewRawWrapper lib (dbName b) (dbKey b) stored = Ret w ∧
    Unwrap (Wrapped w) (mkBase "" "" None) = Ret (Typed b v).
Proof.
  intros Hb Hm Hdel Hname HP. destruct (Dump_general v JSON HP) as (d & Hd & _ & _ & Hl & _); [by left|].
  destruct (compile_record_spec (X := X) ([GenCode] ++ meta_layout m) ([JSON] ++ d))
    as (p & Hp & Hc); [done|].
  exists ([1] ++ p ++ ([GenCode] ++ meta_layout m) ++ [JSON] ++ d), (mkWrapper b JSON d).
  unfold MarshalRecord, Base_MarshalRecord, Base_Marshal. rewrite Hb, dump_meta_spec.
  unfold IsDeleted in Hdel. rewrite Hdel. cbn [go_bind]. rewrite Hd. split; [done|].
  rewrite NewRawWrapper_stored by done. unfold IsDeleted. rewrite Hdel.
  destruct b as [n k me]. simpl in Hb, Hname |- *. subst me.
  change (JSON <? 128) with true. cbv iota. cbn [go_mapError go_bind]. rewrite slice_tail. split; [done|].
  rewrite Hl. simpl. unfold SetKey, Base_Key, ParseKey. simpl.
  by rewrite Cut_app by (by apply Cut_None).
Qed.

Lemma typed_storage_roundtrip_witness :
  ∃ stored w, MarshalRecord no_codecs (Typed (mkBase "test" "a" (Some (mkMeta 1 2 0 (-60) false true))) [5])
      = Ret stored ∧
    NewRawWrapper no_codecs "test" "a" stored = Ret w ∧
    Unwrap (Wrapped w) (mkBase "" "" None) =
      Ret (Typed (mkBase "test" "a" (Some (mkMeta 1 2 0 (-60) false true))) [5]).
Proof.
  apply (typed_storage_roundtrip no_codecs (λ _, True)
    (mkBase "test" "a" (Some (mkMeta 1 2 0 (-60) false true))) (mkMeta 1 2 0 (-60) false true) [5]); done.
Defined.

(** The life of a record with a TTL: every save at time [t] moves its
    expiry to [t + ttl], so it is valid exactly until then, its remaining time
    is what [GetRelativeExpiry] reports, and after a deletion it is invalid at
    all times. *)
Theorem relative_expiry (m : Meta) (ttl t now : Z) :
  0 < ttl → 0 < t → 0 ≤ now → t + ttl < 2 ^ 63 → now < 2 ^ 63 →
  let m' := Meta_Update t (SetRelativateExpiry ttl m) in
  (∀ t', 0 < t' → t' + ttl < 2 ^ 63 → Expires (Meta_Update t' m') = t' + ttl) ∧
  CheckValidity now (Some m') = bool_decide (now ≤ t + ttl) ∧
  GetRelativeExpiry now m' = Z.max 0 (t + ttl - now) ∧
  CheckValidity now (Some (Meta_Delete t m')) = false.
Proof.
  intros Httl Ht Hnow Hlt Hlt'. unfold SetRelativateExpiry. zcmp. unfold Meta_Update. simpl. zcmp.
  rewrite s64_small by (unfold is_s64; lia).
  assert (t - - ttl = t + ttl) as -> by lia.
  split_and!.
  - intros t' ? ?. rewrite s64_small by (unfold is_s64; lia). lia.
  - case_bool_decide; by zcmp.
  - unfold GetRelativeExpiry. simpl. rewrite s64_small by (unfold is_s64; lia). zcmp.
    step_if; lia.
  - by zcmp.
Qed.

Lemma relative_expiry_witness :
  let m' := Meta_Update 1000 (SetRelativateExpiry 60 zeroMeta) in
  (∀ t', 0 < t' → t' + 60 < 2 ^ 63 → Expires (Meta_Update t' m') = t' + 60) ∧
  CheckValidity 1030 (Some m') = bool_decide (1030 ≤ 1000 + 60) ∧
  GetRelativeExpiry 1030 m' = Z.max 0 (1000 + 60 - 1030) ∧
  CheckValidity 1030 (Some (Meta_Delete 1000 m')) = false.
Proof. apply (relative_expiry zeroMeta 60 1000 1030); lia. Defined.

(** Keys: a key with a colon is split at the first one and [Key] puts it
    together again; a set key is never replaced until it is reset. *)
Theorem key_roundtrip (key other : string) (m : option Meta) (db rest : string) :
  Cut key ":" = Some (db, rest) → db ≠ ""%string →
  let b := SetKey key (mkBase "" "" m) in
  Base_Key b = key ∧ DatabaseName b = db ∧ DatabaseKey b = rest ∧ Base_Meta b = m ∧
  SetKey other b = b ∧ SetKey other (ResetKey b) = SetKey other (mkBase "" "" m).
Proof.
  intros Hcut Hdb. pose proof (Cut_Some _ _ _ _ Hcut) as Hkey.
  assert (SetKey key (mkBase "" "" m) = mkBase db rest m) as ->.
  { unfold SetKey, ParseKey. simpl. by rewrite Hcut. }
  cbv zeta. unfold Base_Key. simpl. split_and!; try done.
  unfold SetKey, KeyIsSet. simpl. by rewrite (proj2 (String.eqb_neq db "")).
Qed.

Lemma key_roundtrip_witness :
  let b := SetKey "core:a:b" (mkBase "" "" None) in
  Base_Key b = "core:a:b"%string ∧ DatabaseName b = "core"%string ∧ DatabaseKey b = "a:b"%string ∧
  Base_Meta b = None ∧
  SetKey "x:y" b = b ∧ SetKey "x:y" (ResetKey b) = SetKey "x:y" (mkBase "" "" None).
Proof. apply (key_roundtrip "core:a:b" "x:y" None "core" "a:b"); done. Defined.
