(* ===== verification/Query.v ===== *)
(** * database/query: conditions, queries and their text form

    condition*.go, operators.go, query.go and parser.go. What comes from
    libraries is collected in the class [QueryLib]: regular expressions,
    parsing and printing of floats, and the texts of the error messages that
    Sprintf builds. A float64 is a [spec_float] of the Standard Library with 53
    bits of precision; the comparison operators are IEEE 754's. An accessor is
    the record of its read methods. *)

From Stdlib Require Import ZArith Lia Ascii String SpecFloat.
From S2P Require Import Prelude GoStrings UtilsSlices Record.
Local Open Scope Z_scope.

(** ** Values and accessors *)

Abbreviation float64 := spec_float.

(** [float64(v)] of an integer: rounded to nearest. *)
Definition float64_of_int (v : Z) : float64 := binary_normalize 53 1024 v 0 false.

(** The dynamic types the [interface{}] value of [Where] is inspected for; any
    other type behaves as [V_other]. *)
Inductive value : Type :=
| V_int (v : Z)
| V_int8 (v : Z)
| V_int16 (v : Z)
| V_int32 (v : Z)
| V_int64 (v : Z)
| V_uint (v : Z)
| V_uint8 (v : Z)
| V_uint16 (v : Z)
| V_uint32 (v : Z)
| V_float32 (v : float64)
| V_float64 (v : float64)
| V_bool (v : bool)
| V_string (v : string)
| V_strings (v : list string)
| V_other.

(** accessor.go: the read methods; [(v, false)] is [None]. *)
Record Accessor : Type := mkAccessor {
  acc_GetString : string → option string;
  acc_GetInt : string → option Z;
  acc_GetFloat : string → option float64;
  acc_GetBool : string → option bool;
  acc_Exists : string → bool;
}.

(** Library code: the regexp package ([None] is a compile error), float
    parsing and the verb %g, and the texts of the error conditions. *)
Class QueryLib (R : Type) := {
  regexp_Compile : string → option R;
  regexp_MatchString : R → string → bool;
  regexp_String : R → string;
  ParseFloat64 : string → option float64;
  FormatFloat : float64 → string;
  msg_int64 : value → string;
  msg_float64 : value → string;
  msg_string : value → string;
  msg_strings : value → string;
  msg_regex : value → string;
  msg_bool : value → string;
  msg_operator : Z → string;
}.

(** ** condition.go: operators *)

Definition op_Equals : Z := 0.
Definition op_GreaterThan : Z := 1.
Definition op_GreaterThanOrEqual : Z := 2.
Definition op_LessThan : Z := 3.
Definition op_LessThanOrEqual : Z := 4.
Definition op_FloatEquals : Z := 5.
Definition op_FloatGreaterThan : Z := 6.
Definition op_FloatGreaterThanOrEqual : Z := 7.
Definition op_FloatLessThan : Z := 8.
Definition op_FloatLessThanOrEqual : Z := 9.
Definition op_SameAs : Z := 10.
Definition op_Contains : Z := 11.
Definition op_StartsWith : Z := 12.
Definition op_EndsWith : Z := 13.
Definition op_In : Z := 14.
Definition op_Matches : Z := 15.
Definition op_Is : Z := 16.
Definition op_Exists : Z := 17.
Definition errorPresent : Z := 255.

(** ** operators.go *)

Definition operatorNames : list (string * Z) := [
  ("==", op_Equals); (">", op_GreaterThan); (">=", op_GreaterThanOrEqual);
  ("<", op_LessThan); ("<=", op_LessThanOrEqual);
  ("f==", op_FloatEquals); ("f>", op_FloatGreaterThan); ("f>=", op_FloatGreaterThanOrEqual);
  ("f<", op_FloatLessThan); ("f<=", op_FloatLessThanOrEqual);
  ("sameas", op_SameAs); ("s==", op_SameAs);
  ("contains", op_Contains); ("co", op_Contains);
  ("startswith", op_StartsWith); ("sw", op_StartsWith);
  ("endswith", op_EndsWith); ("ew", op_EndsWith);
  ("in", op_In); ("matches", op_Matches); ("re", op_Matches); ("is", op_Is);
  ("exists", op_Exists); ("ex", op_Exists)]%string.

(** The body of the init loop. *)
Definition primaryNames_step (entry : string * Z) (names : gmap Z string) : gmap Z string :=
  let '(opName, opID) := entry in
  match names !! opID with
  | Some name =>
      if (String.length name <? String.length opName)%nat then <[opID := opName]> names else names
  | None => <[opID := opName]> names
  end.

(** The init function ranges over a map: the list is its entries in the
    order of the iteration (first entry last). *)
Definition primaryNames_init (entries : list (string * Z)) : gmap Z string :=
  foldr primaryNames_step ∅ entries.

Definition primaryNames : gmap Z string := primaryNames_init operatorNames.

Definition getOpName (operator : Z) : string :=
  default "[unknown]"%string (primaryNames !! operator).

Definition lookup_operator (name : string) : option Z :=
  (λ e : nat * (string * Z), e.2.2) <$> list_find (λ e, e.1 = name) operatorNames.

(** ** escapeString and prepToken (parser.go) *)

(** Parentheses, double quote, backslash, tab, return, newline, space. *)
Definition needs_escape (a : ascii) : bool :=
  match nat_of_ascii a with
  | 40 | 41 | 34 | 92 | 9 | 13 | 10 | 32 => true
  | _ => false
  end%nat.

Definition char_quote : ascii := ascii_of_nat 34.
Definition char_backslash : ascii := ascii_of_nat 92.

(** [strings.ReplaceAll]: a backslash in front of every double quote. *)
Fixpoint escape_quotes (s : string) : string :=
  match s with
  | EmptyString => EmptyString
  | String a s' =>
      if Ascii.eqb a char_quote then String char_backslash (String char_quote (escape_quotes s'))
      else String a (escape_quotes s')
  end.

Definition escapeString (token : string) : string :=
  if ContainsAny token needs_escape
  then String char_quote (escape_quotes token ++ String char_quote "")%string
  else token.

(** [escapeReplacer.ReplaceAllString]: a backslash in front of anything but a
    backslash is dropped. *)
Fixpoint unescape (s : string) : string :=
  match s with
  | String a ((String b s'') as s') =>
      if Ascii.eqb a char_backslash && negb (Ascii.eqb b char_backslash)
      then String b (unescape s'')
      else String a (unescape s')
  | _ => s
  end.

Definition prepToken (text : string) : string :=
  let is_quote a := Ascii.eqb a char_quote in
  unescape (TrimRightBy is_quote (TrimLeftBy is_quote text)).

(** ** Conditions *)

Section Conditions.
Context {R : Type} `{!QueryLib R}.

(** The condition types; a nil regex is [None]. *)
Inductive Condition : Type :=
| intCondition (key : string) (operator : Z) (value : Z)
| floatCondition (key : string) (operator : Z) (value : float64)
| stringCondition (key : string) (operator : Z) (value : string)
| stringSliceCondition (key : string) (operator : Z) (value : list string)
| regexCondition (key : string) (operator : Z) (regex : option R)
| boolCondition (key : string) (operator : Z) (value : bool)
| existsCondition (key : string) (operator : Z)
| errorCondition (err : string)
| andCond (conditions : list Condition)
| orCond (conditions : list Condition)
| notCond (notC : Condition).

Definition newIntCondition (key : string) (operator : Z) (value : value) : Condition :=
  match value with
  | V_int v | V_int8 v | V_int16 v | V_int32 v | V_int64 v
  | V_uint8 v | V_uint16 v | V_uint32 v => intCondition key operator v
  | V_uint v => intCondition key operator (s64 v)
  | V_string v =>
      match ParseInt64 v with
      | Some v => intCondition key operator v
      | None => intCondition (msg_int64 value) errorPresent 0
      end
  | _ => intCondition (msg_int64 value) errorPresent 0
  end.

Definition newFloatCondition (key : string) (operator : Z) (value : value) : Condition :=
  match value with
  | V_int v | V_int8 v | V_int16 v | V_int32 v | V_int64 v
  | V_uint v | V_uint8 v | V_uint16 v | V_uint32 v =>
      floatCondition key operator (float64_of_int v)
  | V_float32 v | V_float64 v => floatCondition key operator v
  | V_string v =>
      match ParseFloat64 v with
      | Some v => floatCondition key operator v
      | None => floatCondition (msg_float64 value) errorPresent (S754_zero false)
      end
  | _ => floatCondition (msg_float64 value) errorPresent (S754_zero false)
  end.

Definition newStringCondition (key : string) (operator : Z) (value : value) : Condition :=
  match value with
  | V_string v => stringCondition key operator v
  | _ => stringCondition (msg_string value) errorPresent ""
  end.

Definition newStringSliceCondition (key : string) (operator : Z) (value : value) : Condition :=
  match value with
  | V_string v =>
      let parsedValue := Split v "," in
      if (length parsedValue <? 2)%nat then stringSliceCondition v errorPresent []
      else stringSliceCondition key operator parsedValue
  | V_strings v => stringSliceCondition key operator v
  | _ => stringSliceCondition (msg_strings value) errorPresent []
  end.

Definition newRegexCondition (key : string) (operator : Z) (value : value) : Condition :=
  match value with
  | V_string v =>
      match regexp_Compile v with
      | Some r => regexCondition key operator (Some r)
      | None => regexCondition (msg_regex value) errorPresent None
      end
  | _ => regexCondition (msg_regex value) errorPresent None
  end.

Definition newBoolCondition (key : string) (operator : Z) (value : value) : Condition :=
  match value with
  | V_bool v => boolCondition key operator v
  | V_string v =>
      match ParseBool v with
      | Some v => boolCondition key operator v
      | None => boolCondition (msg_bool value) errorPresent false
      end
  | _ => boolCondition (msg_bool value) errorPresent false
  end.

Definition newExistsCondition (key : string) (operator : Z) : Condition :=
  existsCondition key operator.

Definition newErrorCondition (err : string) : Condition := errorCondition err.

Definition And (conditions : list Condition) : Condition := andCond conditions.
Definition Or (conditions : list Condition) : Condition := orCond conditions.
Definition Not (c : Condition) : Condition := notCond c.

(** The switch on the operator ranges of condition.go. *)
Definition Where (key : string) (operator : Z) (value : value) : Condition :=
  if bool_decide (operator ∈ [op_Equals; op_GreaterThan; op_GreaterThanOrEqual; op_LessThan;
      op_LessThanOrEqual]) then newIntCondition key operator value
  else if bool_decide (operator ∈ [op_FloatEquals; op_FloatGreaterThan; op_FloatGreaterThanOrEqual;
      op_FloatLessThan; op_FloatLessThanOrEqual]) then newFloatCondition key operator value
  else if bool_decide (operator ∈ [op_SameAs; op_Contains; op_StartsWith; op_EndsWith])
  then newStringCondition key operator value
  else if operator =? op_In then newStringSliceCondition key operator value
  else if operator =? op_Matches then newRegexCondition key operator value
  else if operator =? op_Is then newBoolCondition key operator value
  else if operator =? op_Exists then newExistsCondition key operator
  else newErrorCondition (msg_operator operator).

(** ** The methods complies *)

Definition int_complies (key : string) (operator value : Z) (acc : Accessor) : bool :=
  match acc_GetInt acc key with
  | None => false
  | Some comp =>
      if operator =? op_Equals then comp =? value
      else if operator =? op_GreaterThan then value <? comp
      else if operator =? op_GreaterThanOrEqual then value <=? comp
      else if operator =? op_LessThan then comp <? value
      else if operator =? op_LessThanOrEqual then comp <=? value
      else false
  end.

(** Comparisons with NaN are false. *)
Definition float_complies (key : string) (operator : Z) (value : float64) (acc : Accessor) : bool :=
  match acc_GetFloat acc key with
  | None => false
  | Some comp =>
      if operator =? op_FloatEquals then SFeqb comp value
      else if operator =? op_FloatGreaterThan then SFltb value comp
      else if operator =? op_FloatGreaterThanOrEqual then SFleb value comp
      else if operator =? op_FloatLessThan then SFltb comp value
      else if operator =? op_FloatLessThanOrEqual then SFleb comp value
      else false
  end.

Definition string_complies (key : string) (operator : Z) (value : string) (acc : Accessor) : bool :=
  match acc_GetString acc key with
  | None => false
  | Some comp =>
      if operator =? op_SameAs then String.eqb value comp
      else if operator =? op_Contains then Contains comp value
      else if operator =? op_StartsWith then HasPrefix comp value
      else if operator =? op_EndsWith then HasSuffix comp value
      else false
  end.

Definition stringSlice_complies (key : string) (operator : Z) (value : list string) (acc : Accessor) : bool :=
  match acc_GetString acc key with
  | None => false
  | Some comp => if operator =? op_In then StringInSlice value comp else false
  end.

(** The regex of a condition with the operator matches is not nil. *)
Definition regex_complies (key : string) (operator : Z) (regex : option R) (acc : Accessor) : bool :=
  match acc_GetString acc key with
  | None => false
  | Some comp =>
      if operator =? op_Matches
      then match regex with Some r => regexp_MatchString r comp | None => false end
      else false
  end.

Definition bool_complies (key : string) (operator : Z) (value : bool) (acc : Accessor) : bool :=
  match acc_GetBool acc key with
  | None => false
  | Some comp => if operator =? op_Is then Bool.eqb comp value else false
  end.

Definition exists_complies (key : string) (acc : Accessor) : bool := acc_Exists acc key.

Fixpoint complies (c : Condition) (acc : Accessor) : bool :=
  match c with
  | intCondition key op v => int_complies key op v acc
  | floatCondition key op v => float_complies key op v acc
  | stringCondition key op v => string_complies key op v acc
  | stringSliceCondition key op v => stringSlice_complies key op v acc
  | regexCondition key op regex => regex_complies key op regex acc
  | boolCondition key op v => bool_complies key op v acc
  | existsCondition key _ => exists_complies key acc
  | errorCondition _ => false
  | andCond conditions => forallb (λ cond, complies cond acc) conditions
  | orCond conditions => existsb (λ cond, complies cond acc) conditions
  | notCond notC => negb (complies notC acc)
  end.

(** [None] is a nil error. *)
Definition check_operator (key : string) (op : Z) : option string :=
  if op =? errorPresent then Some key else None.

Fixpoint Condition_check (c : Condition) : option string :=
  match c with
  | intCondition key op _ | floatCondition key op _ | stringCondition key op _
  | regexCondition key op _ | boolCondition key op _ | existsCondition key op =>
      check_operator key op
  | stringSliceCondition key op _ =>
      if op =? errorPresent
      then Some ("could not parse " ++ String char_quote (key ++ String char_quote " to []string"))%string
      else None
  | errorCondition err => Some err
  | andCond conditions | orCond conditions =>
      (fix check_all (l : list Condition) : option string :=
         match l with
         | [] => None
         | cond :: l' =>
             match Condition_check cond with
             | Some err => Some err
             | None => check_all l'
             end
         end) conditions
  | notCond notC => Condition_check notC
  end.

Definition format_bool (b : bool) : string := if b then "true" else "false".

(** [fmt.Sprintf("%s %s %s", escapeString(c.key), getOpName(c.operator), v)] *)
Definition print_leaf (key : string) (op : Z) (v : string) : string :=
  (escapeString key ++ " " ++ getOpName op ++ " " ++ v)%string.

(** The method [string]; a nil regex is dereferenced. *)
Fixpoint Condition_string (c : Condition) : go unit string :=
  match c with
  | intCondition key op v => Ret (print_leaf key op (FormatInt v))
  | floatCondition key op v => Ret (print_leaf key op (FormatFloat v))
  | stringCondition key op v => Ret (print_leaf key op (escapeString v))
  | stringSliceCondition key op v => Ret (print_leaf key op (escapeString (Join v ",")))
  | regexCondition key op (Some r) => Ret (print_leaf key op (escapeString (regexp_String r)))
  | regexCondition key op None => Panic
  | boolCondition key op v => Ret (print_leaf key op (format_bool v))
  | existsCondition key op => Ret (escapeString key ++ " " ++ getOpName op)%string
  | errorCondition _ => Ret "[ERROR]"%string
  | andCond conditions =>
      let! all := (fix strings (l : list Condition) : go unit (list string) :=
        match l with
        | [] => Ret []
        | cond :: l' =>
            let! s := Condition_string cond in let! rest := strings l' in Ret (s :: rest)
        end) conditions in
      Ret ("(" ++ Join all " and " ++ ")")%string
  | orCond conditions =>
      let! all := (fix strings (l : list Condition) : go unit (list string) :=
        match l with
        | [] => Ret []
        | cond :: l' =>
            let! s := Condition_string cond in let! rest := strings l' in Ret (s :: rest)
        end) conditions in
      Ret ("(" ++ Join all " or " ++ ")")%string
  | notCond notC =>
      let! next := Condition_string notC in
      if HasPrefix next "(" then Ret ("not " ++ next)%string
      else match Split next " " with
           | first :: rest => Ret (Join (first :: "not"%string :: rest) " ")
           | [] => Panic
           end
  end.

(** ** query.go *)

Record Query : Type := mkQuery {
  q_checked : bool;
  q_dbName : string;
  q_dbKeyPrefix : string;
  q_where : option Condition;
  q_orderBy : string;
  q_limit : Z;
  q_offset : Z;
}.

Definition Query_New (prefix : string) : Query :=
  let '(n, k) := ParseKey prefix in mkQuery false n k None "" 0 0.

Definition Query_Where (c : Condition) (q : Query) : Query :=
  mkQuery (q_checked q) (q_dbName q) (q_dbKeyPrefix q) (Some c) (q_orderBy q) (q_limit q) (q_offset q).

Definition Query_Limit (limit : Z) (q : Query) : Query :=
  mkQuery (q_checked q) (q_dbName q) (q_dbKeyPrefix q) (q_where q) (q_orderBy q) limit (q_offset q).

Definition Query_Offset (offset : Z) (q : Query) : Query :=
  mkQuery (q_checked q) (q_dbName q) (q_dbKeyPrefix q) (q_where q) (q_orderBy q) (q_limit q) offset.

Definition Query_OrderBy (key : string) (q : Query) : Query :=
  mkQuery (q_checked q) (q_dbName q) (q_dbKeyPrefix q) (q_where q) key (q_limit q) (q_offset q).

(** [Check] sets the flag of the query it is called on. *)
Definition Query_Check : st Query string unit :=
  λ q,
    if q_checked q then (q, Ret tt)
    else
      match q_where q ≫= Condition_check with
      | Some err => (q, Fail err)
      | None =>
          (mkQuery true (q_dbName q) (q_dbKeyPrefix q) (q_where q) (q_orderBy q) (q_limit q)
             (q_offset q), Ret tt)
      end.

Definition MustBeValid (q : Query) : go string Query :=
  match Query_Check q with
  | (q', Ret _) => Ret q'
  | _ => Panic
  end.

Definition MatchesKey (q : Query) (dbKey : string) : bool := HasPrefix dbKey (q_dbKeyPrefix q).

(** The accessor argument is the result of [r.GetAccessor(r)]. *)
Definition MatchesRecord (q : Query) (accessor : option Accessor) : bool :=
  match q_where q with
  | None => true
  | Some c =>
      match accessor with
      | None => false
      | Some acc => complies c acc
      end
  end.

Definition MatchesAccessor (q : Query) (acc : Accessor) : bool :=
  match q_where q with
  | None => true
  | Some c => complies c acc
  end.

Definition Query_Matches (q : Query) (dbKey : string) (accessor : option Accessor) : bool :=
  if negb (MatchesKey q dbKey) then false else MatchesRecord q accessor.

(** [where[1:len(where)-1]] *)
Definition strip_parens (s : string) : string :=
  String.substring 1 (String.length s - 2) s.

Definition Query_Print (q : Query) : go unit string :=
  let! where_ :=
    match q_where q with
    | None => Ret ""%string
    | Some c =>
        let! s := Condition_string c in
        if negb (String.eqb s "")
        then Ret (" where " ++ (if HasPrefix s "(" then strip_parens s else s))%string
        else Ret s
    end in
  let orderBy := if negb (String.eqb (q_orderBy q) "") then (" orderby " ++ q_orderBy q)%string else ""%string in
  let limit := if 0 <? q_limit q then (" limit " ++ FormatInt (q_limit q))%string else ""%string in
  let offset := if 0 <? q_offset q then (" offset " ++ FormatInt (q_offset q))%string else ""%string in
  Ret ("query " ++ q_dbName q ++ ":" ++ q_dbKeyPrefix q ++ where_ ++ orderBy ++ limit ++ offset)%string.

End Conditions.
Arguments Condition : clear implicits.
Arguments Query : clear implicits.

(** A concrete library for the witnesses: every string is a regular expression
    that matches nothing, no string is a float. *)
#[global] Instance plain_lib : QueryLib string := {|
  regexp_Compile s := Some s; regexp_MatchString _ _ := false; regexp_String s := s;
  ParseFloat64 _ := None; FormatFloat _ := ""%string;
  msg_int64 _ := "no int64"%string; msg_float64 _ := "no float64"%string;
  msg_string _ := "no string"%string; msg_strings _ := "no []string"%string;
  msg_regex _ := "no regex"%string; msg_bool _ := "no bool"%string;
  msg_operator _ := "no operator"%string;
|}.
