(* ===== verification/QueryParser.v ===== *)
(** * database/query: the parser (parser.go)

    [extractSnippets] runs over the runes of the text, [parseAndOr],
    [parseCondition] and [ParseQuery] over the snippets. The closures
    getSnippet and remainingSnippets are the snippet list and the position
    [snippetsPos], which the functions pass on. *)

From Stdlib Require Import ZArith Lia Ascii String.
From S2P Require Import Prelude GoStrings Record Query.
Local Open Scope Z_scope.

Inductive parse_error : Type :=
| ErrQuoteInWord (pos : Z)
| ErrUnexpectedEnd (pos : Z)
| ErrNotQuery
| ErrDuplicateClause (clause : string) (pos : Z)
| ErrParseInteger (text : string) (pos : Z)
| ErrUnknownClause (clause : string) (pos : Z)
| ErrMixAndOr (pos : Z)
| ErrUnknownOperator (pos : Z)
| ErrCheck (err : string)
| ErrOutOfFuel.

Record snippet : Type := mkSnippet {
  sn_text : string;
  globalPosition : Z;
}.

(** ** Runes *)

Definition byte_in (lo hi : nat) (s : string) : bool :=
  match s with
  | String b _ => (lo <=? nat_of_ascii b)%nat && (nat_of_ascii b <=? hi)%nat
  | EmptyString => false
  end.

(** The number of bytes [range] decodes as one rune at the start of a string
    (unicode/utf8: the ranges of the second byte by the first; an invalid
    sequence is one byte). *)
Definition rune_width (s : string) : nat :=
  match s with
  | EmptyString => 0
  | String b0 s1 =>
      let b := nat_of_ascii b0 in
      let cont s := byte_in 128 191 s in
      let tail s := match s with String _ s' => s' | EmptyString => EmptyString end in
      let wide2 lo hi := if byte_in lo hi s1 then 2 else 1 in
      let wide3 lo hi := if byte_in lo hi s1 && cont (tail s1) then 3 else 1 in
      let wide4 lo hi := if byte_in lo hi s1 && cont (tail s1) && cont (tail (tail s1)) then 4 else 1 in
      if (b <? 194)%nat then 1
      else if (b <? 224)%nat then wide2 128 191
      else if (b =? 224)%nat then wide3 160 191
      else if (b =? 237)%nat then wide3 128 159
      else if (b <? 240)%nat then wide3 128 191
      else if (b =? 240)%nat then wide4 144 191
      else if (b <? 244)%nat then wide4 128 191
      else if (b =? 244)%nat then wide4 128 143
      else 1
  end%nat.

(** ** extractSnippets *)

Record lexer : Type := mkLexer {
  lx_skip : bool;
  lx_start : Z;
  lx_inParenthesis : bool;
  lx_pos : Z;
  lx_snippets : list snippet;
}.

(** [text[a:b]]; the lexer only slices inside the text. *)
Definition text_slice (text : string) (a b : Z) : string :=
  String.substring (Z.to_nat a) (Z.to_nat (b - a)) text.

Definition is_segment_end (char : ascii) : bool :=
  match nat_of_ascii char with
  | 9 | 10 | 13 | 32 | 40 | 41 => true
  | _ => false
  end%nat.

Definition is_paren (char : ascii) : bool :=
  match nat_of_ascii char with
  | 40 | 41 => true
  | _ => false
  end%nat.

(** The loop body for the rune at [pos] that starts with the byte [char]. *)
Definition extract_step (text : string) (pos : Z) (char : ascii) (s : lexer) : go parse_error lexer :=
  if lx_skip s then Ret (mkLexer false (lx_start s) (lx_inParenthesis s) pos (lx_snippets s))
  else
    let skip := Ascii.eqb char char_backslash in
    if lx_inParenthesis s then
      if Ascii.eqb char char_quote
      then Ret (mkLexer skip (-1) false pos
        (lx_snippets s ++ [mkSnippet (prepToken (text_slice text (lx_start s + 1) pos)) (lx_start s + 1)]))
      else Ret (mkLexer skip (lx_start s) true pos (lx_snippets s))
    else
      let '(start, snippets) :=
        if is_segment_end char then
          if 0 <=? lx_start s
          then (-1, lx_snippets s ++
            [mkSnippet (prepToken (text_slice text (lx_start s) pos)) (lx_start s + 1)])
          else (lx_start s, lx_snippets s)
        else (if lx_start s =? -1 then pos else lx_start s, lx_snippets s) in
      if is_paren char
      then Ret (mkLexer skip start false pos
        (snippets ++ [mkSnippet (text_slice text pos (pos + 1)) (pos + 1)]))
      else if Ascii.eqb char char_quote
      then if start <? pos then Fail (ErrQuoteInWord (pos + 1))
           else Ret (mkLexer skip start true pos snippets)
      else Ret (mkLexer skip start false pos snippets).

(** [pending] counts the bytes left of the current rune. *)
Fixpoint extract_loop (text rest : string) (pos : Z) (pending : nat) (s : lexer)
    : go parse_error lexer :=
  match rest with
  | EmptyString => Ret s
  | String char rest' =>
      match pending with
      | S pending' => extract_loop text rest' (pos + 1) pending' s
      | O =>
          let! s := extract_step text pos char s in
          extract_loop text rest' (pos + 1) (Nat.pred (rune_width rest)) s
      end
  end.

Definition extractSnippets (text : string) : go parse_error (list snippet) :=
  let! s := extract_loop text text 0 0 (mkLexer false (-1) false 0 []) in
  if 0 <=? lx_start s
  then Ret (lx_snippets s ++
    [mkSnippet (prepToken (text_slice text (lx_start s) (lx_pos s + 1))) (lx_start s + 1)])
  else Ret (lx_snippets s).

(** ** The grammar *)

Section Parser.
Context {R : Type} `{!QueryLib R}.

(** The snippets of the query and the length of its text. *)
Context (snippets : list snippet) (text_len : Z).

(** The position is advanced also when there is no snippet left. *)
Definition getSnippet : st nat parse_error snippet :=
  λ snippetsPos,
    (S snippetsPos,
     match snippets !! snippetsPos with
     | Some sn => Ret sn
     | None => Fail (ErrUnexpectedEnd text_len)
     end).

Definition remainingSnippets (snippetsPos : nat) : Z := len snippets - Z.of_nat snippetsPos.

Definition parseCondition (firstSnippet : snippet) : st nat parse_error (Condition R) :=
  let$ opName := getSnippet in
  let$ (wrapInNot, opName) :=
    (if String.eqb (sn_text opName) "not"
     then let$ opName := getSnippet in st_ret (true, opName)
     else st_ret (false, opName)) in
  match lookup_operator (sn_text opName) with
  | None => st_fail (ErrUnknownOperator (globalPosition opName))
  | Some operator =>
      if operator =? op_Exists then
        let c := Where (sn_text firstSnippet) operator V_other in
        st_ret (if wrapInNot then Not c else c)
      else
        let$ value := getSnippet in
        let c := Where (sn_text firstSnippet) operator (V_string (sn_text value)) in
        st_ret (if wrapInNot then Not c else c)
  end.

(** The three returns of the combined condition. *)
Definition finish_conditions (isOr : bool) (conditions : list (Condition R)) : Condition R :=
  match conditions with
  | [c] => c
  | _ => if isOr then Or conditions else And conditions
  end.

(** The local variables of [parseAndOr]. *)
Record and_or : Type := mkAndOr {
  isOr : bool;
  typeSet : bool;
  wrapInNot : bool;
  expectingMore : bool;
  conditions : list (Condition R);
}.

(** Appending a condition, wrapped if a "not" is pending. *)
Definition add_condition (condition : Condition R) (expecting : bool) (v : and_or) : and_or :=
  mkAndOr (isOr v) (typeSet v) false expecting
    (conditions v ++ [if wrapInNot v then Not condition else condition]).

Definition is_clause (text : string) : bool :=
  String.eqb text "orderby" || String.eqb text "limit" || String.eqb text "offset".

Definition and_or_init : and_or := mkAndOr false false false true [].

(** One call of [parseAndOr] from the loop head on with the variables [v]; a
    call from outside starts with [and_or_init]. *)
Fixpoint parseAndOr (fuel : nat) (rootCondition : bool) (v : and_or)
    : st nat parse_error (Condition R) :=
  match fuel with
  | O => st_fail ErrOutOfFuel
  | S fuel' => λ snippetsPos,
      if negb (expectingMore v) && rootCondition && (remainingSnippets snippetsPos =? 0)
      then (S snippetsPos, Ret (finish_conditions (isOr v) (conditions v)))
      else (
        let$ firstSnippet := getSnippet in
        let text := sn_text firstSnippet in
        if negb (expectingMore v) && rootCondition && is_clause text
        then st_ret (finish_conditions (isOr v) (conditions v))
        else if String.eqb text "(" then
          let$ condition := parseAndOr fuel' false and_or_init in
          parseAndOr fuel' rootCondition (add_condition condition true v)
        else if String.eqb text ")" then
          st_ret (finish_conditions (isOr v) (conditions v))
        else if String.eqb text "and" then
          if typeSet v && isOr v then st_fail (ErrMixAndOr (globalPosition firstSnippet))
          else parseAndOr fuel' rootCondition (mkAndOr false true (wrapInNot v) true (conditions v))
        else if String.eqb text "or" then
          if typeSet v && negb (isOr v) then st_fail (ErrMixAndOr (globalPosition firstSnippet))
          else parseAndOr fuel' rootCondition (mkAndOr true true (wrapInNot v) true (conditions v))
        else if String.eqb text "not" then
          parseAndOr fuel' rootCondition (mkAndOr (isOr v) (typeSet v) true true (conditions v))
        else
          let$ condition := parseCondition firstSnippet in
          parseAndOr fuel' rootCondition (add_condition condition false v)) snippetsPos
  end.

(** The loop over the clauses. *)
Fixpoint parse_clauses (fuel : nat) (q : Query R) : st nat parse_error (Query R) :=
  match fuel with
  | O => st_fail ErrOutOfFuel
  | S fuel' => λ snippetsPos,
      if negb (0 <? remainingSnippets snippetsPos) then (snippetsPos, Ret q)
      else (
        let$ command := getSnippet in
        let clause := sn_text command in
        let duplicate : st nat parse_error (Query R) :=
          st_fail (ErrDuplicateClause clause (globalPosition command)) in
        let integer (k : Z → Query R → Query R) : st nat parse_error (Query R) :=
          let$ sn := getSnippet in
          match ParseUint (sn_text sn) 31 with
          | Some n => parse_clauses fuel' (k n q)
          | None => st_fail (ErrParseInteger (sn_text sn) (globalPosition sn))
          end in
        if String.eqb clause "where" then
          match q_where q with
          | Some _ => duplicate
          | None =>
              let$ condition := parseAndOr fuel true and_or_init in
              let$ _ := st_mod Nat.pred in
              parse_clauses fuel' (Query_Where condition q)
          end
        else if String.eqb clause "orderby" then
          if negb (String.eqb (q_orderBy q) "") then duplicate
          else let$ sn := getSnippet in parse_clauses fuel' (Query_OrderBy (sn_text sn) q)
        else if String.eqb clause "limit" then
          if negb (q_limit q =? 0) then duplicate else integer Query_Limit
        else if String.eqb clause "offset" then
          if negb (q_offset q =? 0) then duplicate else integer Query_Offset
        else st_fail (ErrUnknownClause clause (globalPosition command))) snippetsPos
  end.

Definition parse_snippets : st nat parse_error (Query R) :=
  let$ queryWord := getSnippet in
  if negb (String.eqb (sn_text queryWord) "query") then st_fail ErrNotQuery
  else
    let$ prefix := getSnippet in
    parse_clauses (S (length snippets)) (Query_New (sn_text prefix)).

End Parser.

Definition ParseQuery {R : Type} `{!QueryLib R} (query : string) : go parse_error (Query R) :=
  let! snippets := extractSnippets query in
  let! q := snd (parse_snippets snippets (Z.of_nat (String.length query)) 0%nat) in
  match Query_Check q with
  | (q', Ret _) => Ret q'
  | (_, Fail err) => Fail (ErrCheck err)
  | (_, Panic) => Panic
  end.

(** ** The grammar functions terminate within their fuel *)

Section ParserLemmas.
Context {R : Type} `{!QueryLib R}.
Context (snippets : list snippet) (text_len : Z).

Definition remaining (snippetsPos : nat) : nat := (length snippets - snippetsPos)%nat.

(** A step that moves the position forward and has none of the outcomes the
    source does not have. *)
Definition advances {A : Type} (pos : nat) (r : nat * go parse_error A) : Prop :=
  (pos ≤ r.1)%nat ∧ r.2 ≠ Fail ErrOutOfFuel ∧ r.2 ≠ Panic.

Lemma getSnippet_cases (pos : nat) :
  (∃ sn, snippets !! pos = Some sn ∧ (pos < length snippets)%nat ∧
     getSnippet snippets text_len pos = (S pos, Ret sn)) ∨
  (snippets !! pos = None ∧
     getSnippet snippets text_len pos = (S pos, Fail (ErrUnexpectedEnd text_len))).
Proof.
  unfold getSnippet. destruct (snippets !! pos) as [sn|] eqn:Hs; [left|by right].
  exists sn. split_and!; [done|by eapply lookup_lt_Some|done].
Qed.

Lemma parseCondition_advances (sn : snippet) (pos : nat) :
  advances pos (parseCondition snippets text_len sn pos).
Proof.
  unfold parseCondition, st_bind, advances.
  destruct (getSnippet_cases pos) as [(s1 & _ & _ & ->)|[_ ->]]; [|by simpl; split_and!; [lia|done|done]].
  destruct (String.eqb (sn_text s1) "not").
  - unfold st_ret. destruct (getSnippet_cases (S pos)) as [(s2 & _ & _ & ->)|[_ ->]];
      [|by simpl; split_and!; [lia|done|done]].
    destruct (lookup_operator (sn_text s2)) as [op|]; [|by simpl; split_and!; [lia|done|done]].
    destruct (op =? op_Exists); [by simpl; split_and!; [lia|done|done]|].
    destruct (getSnippet_cases (S (S pos))) as [(s3 & _ & _ & ->)|[_ ->]]; by simpl; split_and!; [lia|done|done].
  - unfold st_ret. destruct (lookup_operator (sn_text s1)) as [op|]; [|by simpl; split_and!; [lia|done|done]].
    destruct (op =? op_Exists); [by simpl; split_and!; [lia|done|done]|].
    destruct (getSnippet_cases (S pos)) as [(s3 & _ & _ & ->)|[_ ->]]; by simpl; split_and!; [lia|done|done].
Qed.

Lemma parseAndOr_fuel (f : nat) : ∀ f2 root v pos,
  (remaining pos < f)%nat → (remaining pos < f2)%nat →
  parseAndOr (R := R) snippets text_len f root v pos =
    parseAndOr snippets text_len f2 root v pos ∧
  advances (S pos) (parseAndOr (R := R) snippets text_len f root v pos).
Proof.
  assert (∀ A pos (r : go parse_error A), r ≠ Fail ErrOutOfFuel → r ≠ Panic → advances pos (pos, r)) as Hdone.
  { intros. by split_and!. }
  induction f as [|f IH]; intros f2 root v pos Hf Hf2; [lia|]. destruct f2 as [|f2]; [lia|].
  assert (∀ root v pos', (S pos ≤ pos')%nat → (pos < length snippets)%nat →
    parseAndOr (R := R) snippets text_len f root v pos' = parseAndOr snippets text_len f2 root v pos' ∧
    advances (S pos) (parseAndOr (R := R) snippets text_len f root v pos')) as Hnext.
  { intros root' v' pos' Hp Hl. unfold remaining in *.
    destruct (IH f2 root' v' pos') as [H1 (H2 & H3 & H4)]; [lia|lia|].
    split; [done|]. split_and!; [lia|done|done]. }
  cbn [parseAndOr]. destruct (_ && _ && (_ =? 0)); [split; [done|by apply Hdone]|].
  destruct (getSnippet_cases pos) as [(sn & _ & Hlt & Hg)|[_ Hg]];
    [rewrite !(st_bind_Ret _ _ _ _ _ Hg)|
     rewrite !(st_bind_Fail _ _ _ _ _ Hg); split; [done|by apply Hdone]].
  cbv zeta.
  repeat match goal with
  | |- context [if (negb (expectingMore v) && root && ?c) then _ else _] =>
      destruct (negb (expectingMore v) && root && c); [split; [done|by apply Hdone]|]
  end.
  destruct (String.eqb (sn_text sn) "(").
  { unfold st_bind. destruct (Hnext false and_or_init (S pos)) as [<- (H2 & H3 & H4)]; [lia|done|].
    destruct (parseAndOr snippets text_len f false and_or_init (S pos)) as [p' [c|e|]]; simpl in *;
      [apply Hnext; [lia|done]|split; [done|by split_and!]|done]. }
  destruct (String.eqb (sn_text sn) ")"); [split; [done|by apply Hdone]|].
  destruct (String.eqb (sn_text sn) "and").
  { destruct (typeSet v && isOr v); [split; [done|by apply Hdone]|]. by apply Hnext. }
  destruct (String.eqb (sn_text sn) "or").
  { destruct (typeSet v && negb (isOr v)); [split; [done|by apply Hdone]|]. by apply Hnext. }
  destruct (String.eqb (sn_text sn) "not"); [by apply Hnext|].
  unfold st_bind. destruct (parseCondition_advances sn (S pos)) as (H2 & H3 & H4).
  destruct (parseCondition snippets text_len sn (S pos)) as [p' [c|e|]]; simpl in *;
    [apply Hnext; [lia|done]|split; [done|by split_and!]|done].
Qed.

Lemma parse_clauses_fuel (f : nat) : ∀ q pos,
  (remaining pos < f)%nat → advances pos (parse_clauses (R := R) snippets text_len f q pos).
Proof.
  assert (∀ A pos pos' (r : go parse_error A), (pos ≤ pos')%nat → r ≠ Fail ErrOutOfFuel → r ≠ Panic →
    advances pos (pos', r)) as Hdone.
  { intros. by split_and!. }
  induction f as [|f IH]; intros q pos Hf; [lia|].
  assert (∀ q pos', (S pos ≤ pos')%nat → (pos < length snippets)%nat →
    advances pos (parse_clauses (R := R) snippets text_len f q pos')) as Hnext.
  { intros q' pos' Hp Hl. unfold remaining in *. destruct (IH q' pos') as (H1 & H2 & H3); [lia|].
    split_and!; [lia|done|done]. }
  cbn [parse_clauses]. destruct (negb _); [by apply Hdone; [lia|..]|].
  destruct (getSnippet_cases pos) as [(sn & _ & Hlt & Hg)|[_ Hg]];
    [rewrite !(st_bind_Ret _ _ _ _ _ Hg); cbv zeta|
     rewrite !(st_bind_Fail _ _ _ _ _ Hg); by apply Hdone; [lia|..]].
  assert (∀ k, advances pos ((let$ sn := getSnippet snippets text_len in
     match ParseUint (sn_text sn) 31 with
     | Some n => parse_clauses snippets text_len f (k n q)
     | None => st_fail (ErrParseInteger (sn_text sn) (globalPosition sn))
     end) (S pos))) as Hint.
  { intros k. unfold st_bind.
    destruct (getSnippet_cases (S pos)) as [(s2 & _ & _ & ->)|[_ ->]]; [|by apply Hdone; [lia|..]].
    destruct (ParseUint (sn_text s2) 31); [apply Hnext; lia|by apply Hdone; [lia|..]]. }
  destruct (String.eqb (sn_text sn) "where").
  { destruct (q_where q); [by apply Hdone; [lia|..]|].
    unfold st_bind, st_mod, remaining in *.
    destruct (parseAndOr_fuel (S f) (S f) true and_or_init (S pos)) as [_ (H1 & H2 & H3)];
      [unfold remaining; lia..|].
    destruct (parseAndOr snippets text_len (S f) true and_or_init (S pos)) as [p' [c|e|]]; simpl in *;
      [apply Hnext; lia|apply Hdone; [lia|congruence|done]|done]. }
  destruct (String.eqb (sn_text sn) "orderby").
  { destruct (negb _); [by apply Hdone; [lia|..]|]. unfold st_bind.
    destruct (getSnippet_cases (S pos)) as [(s2 & _ & _ & ->)|[_ ->]]; [|by apply Hdone; [lia|..]].
    apply Hnext; lia. }
  destruct (String.eqb (sn_text sn) "limit").
  { destruct (negb _); [by apply Hdone; [lia|..]|apply Hint]. }
  destruct (String.eqb (sn_text sn) "offset").
  { destruct (negb _); [by apply Hdone; [lia|..]|apply Hint]. }
  by apply Hdone; [lia|..].
Qed.

Lemma parse_snippets_outcome :
  (parse_snippets (R := R) snippets text_len 0%nat).2 ≠ Fail ErrOutOfFuel ∧
  (parse_snippets (R := R) snippets text_len 0%nat).2 ≠ Panic.
Proof.
  unfold parse_snippets, st_bind. destruct (getSnippet_cases 0) as [(sn & _ & _ & ->)|[_ ->]]; [|done].
  destruct (negb _); [done|].
  destruct (getSnippet_cases 1) as [(s2 & _ & _ & ->)|[_ ->]]; [|done].
  apply parse_clauses_fuel. unfold remaining. lia.
Qed.

(** The unfolding equation with the fuel kept: the recursion of the source. *)
Definition parse_from (root : bool) (v : and_or) : st nat parse_error (Condition R) :=
  parseAndOr snippets text_len (S (length snippets)) root v.

Lemma parse_from_continue (root : bool) (v : and_or) (pos : nat) :
  (1 ≤ pos)%nat → (0 < length snippets)%nat →
  parseAndOr snippets text_len (length snippets) root v pos = parse_from root v pos.
Proof. intros H1 H2. unfold parse_from. apply parseAndOr_fuel; unfold remaining; lia. Qed.
End ParserLemmas.

(** ** The lexer against a reference tokenizer

    On text without quotes, backslashes and non-ASCII bytes a snippet is a
    maximal run of bytes other than whitespace and parentheses, or one
    parenthesis. *)

Definition plain_char (a : ascii) : bool :=
  (nat_of_ascii a <? 128)%nat && negb (Ascii.eqb a char_quote) && negb (Ascii.eqb a char_backslash).

Definition flush (cur : string) : list string := if String.eqb cur "" then [] else [cur].

Fixpoint words_from (cur s : string) : list string :=
  match s with
  | EmptyString => flush cur
  | String a s' =>
      if is_segment_end a
      then flush cur ++ (if is_paren a then [String a ""] else []) ++ words_from "" s'
      else words_from (cur ++ String a "")%string s'
  end.

Definition words (s : string) : list string := words_from "" s.

Lemma unescape_plain (s : string) :
  all_bytes (λ a, negb (Ascii.eqb a char_backslash)) s = true → unescape s = s.
Proof.
  unfold all_bytes. induction s as [|a s IH]; intros H; [done|].
  cbn in H. apply andb_true_iff in H as [Ha Hs]. specialize (IH Hs).
  destruct s as [|b s']; [done|]. apply negb_true_iff in Ha.
  change (unescape (String a (String b s'))) with
    (if Ascii.eqb a char_backslash && negb (Ascii.eqb b char_backslash)
     then String b (unescape s') else String a (unescape (String b s'))).
  rewrite Ha, IH. done.
Qed.

Lemma prepToken_plain (s : string) : all_bytes plain_char s = true → prepToken s = s.
Proof.
  intros H. unfold prepToken.
  assert (all_bytes (λ a, negb (Ascii.eqb a char_quote)) s = true) as Hq.
  { revert H. apply all_bytes_impl. unfold plain_char. intros a Ha. bool_to_prop. by apply negb_true_iff. }
  rewrite TrimLeftBy_none, TrimRightBy_none by done. apply unescape_plain.
  revert H. apply all_bytes_impl. unfold plain_char. intros a Ha. bool_to_prop. by apply negb_true_iff.
Qed.

Lemma plain_segment (a : ascii) :
  plain_char a = true →
  Ascii.eqb a char_backslash = false ∧ Ascii.eqb a char_quote = false ∧
  (∀ s, rune_width (String a s) = 1%nat) ∧ (is_segment_end a = false → is_paren a = false).
Proof.
  unfold plain_char. intros H. bool_to_prop. apply Nat.ltb_lt in H. split_and!; [done|done| |].
  - intros s. unfold rune_width. by rewrite (proj2 (Nat.ltb_lt (nat_of_ascii a) 194)) by lia.
  - unfold is_segment_end, is_paren. intros He. repeat case_match; done.
Qed.

(** The result of the lexer from its final state on. *)
Definition lexer_result (text : string) (s : lexer) : list snippet :=
  if 0 <=? lx_start s
  then lx_snippets s ++
    [mkSnippet (prepToken (text_slice text (lx_start s) (lx_pos s + 1))) (lx_start s + 1)]
  else lx_snippets s.

Lemma text_slice_middle (pre cur rest : string) :
  text_slice (pre ++ cur ++ rest) (Z.of_nat (String.length pre))
    (Z.of_nat (String.length pre + String.length cur)) = cur.
Proof.
  unfold text_slice. rewrite Nat2Z.id.
  replace (Z.to_nat _) with (String.length cur) by lia. apply substring_middle.
Qed.

Lemma extract_loop_words (rest pre cur : string) (p : Z) (snips : list snippet) :
  all_bytes plain_char cur = true → all_bytes plain_char rest = true →
  (cur ≠ ""%string → p + 1 = Z.of_nat (String.length pre + String.length cur)) →
  ∃ s, extract_loop (pre ++ cur ++ rest) rest (Z.of_nat (String.length pre + String.length cur)) 0
      (mkLexer false (if String.eqb cur "" then -1 else Z.of_nat (String.length pre)) false p snips) = Ret s ∧
    map sn_text (lexer_result (pre ++ cur ++ rest) s) = map sn_text snips ++ words_from cur rest.
Proof.
  revert pre cur p snips. induction rest as [|a rest IH]; intros pre cur p snips Hcur Hrest Hp.
  - eexists. split; [done|]. unfold lexer_result. simpl. unfold flush.
    destruct (String.eqb_spec cur ""); [by rewrite app_nil_r|]. zcmp_with ltac:(lia).
    rewrite map_app, Hp by done. simpl. by rewrite text_slice_middle, prepToken_plain.
  - unfold all_bytes in Hrest. simpl in Hrest. apply andb_true_iff in Hrest as [Ha Hrest].
    destruct (plain_segment a Ha) as (Hbs & Hq & Hw & Hpar).
    cbn [extract_loop]. unfold extract_step at 1. cbn [lx_skip lx_start lx_inParenthesis lx_pos lx_snippets].
    rewrite Hbs, Hq, Hw. simpl (Nat.pred 1). cbn [words_from].
    set (n := (String.length pre + String.length cur)%nat).
    destruct (is_segment_end a) eqn:He.
    + set (pre' := (pre ++ cur ++ String a "")%string).
      assert ((pre ++ cur ++ String a rest)%string = (pre' ++ "" ++ rest)%string) as Htext.
      { unfold pre'. by rewrite !string_app_assoc. }
      assert (Z.of_nat n + 1 = Z.of_nat (String.length pre' + String.length "")) as Hn.
      { unfold pre', n. rewrite !length_string_app. simpl. lia. }
      assert (text_slice (pre ++ cur ++ String a rest) (Z.of_nat n) (Z.of_nat n + 1) = String a "") as Hsl.
      { unfold text_slice, n. rewrite Nat2Z.id, <- length_string_app, <- string_app_assoc.
        replace (Z.to_nat _) with (String.length (String a "")) by (simpl; lia).
        apply (substring_middle (pre ++ cur) (String a "") rest). }
      assert (∀ snips', ∃ s, extract_loop (pre ++ cur ++ String a rest) rest (Z.of_nat n + 1) 0
          (mkLexer false (-1) false (Z.of_nat n) snips') = Ret s ∧
          map sn_text (lexer_result (pre ++ cur ++ String a rest) s) = map sn_text snips' ++ words_from "" rest) as Hnext.
      { intros snips'. rewrite Htext, Hn. apply (IH pre' "" (Z.of_nat n) snips'); [done|done|done]. }
      unfold flush. destruct (String.eqb_spec cur "") as [->|Hne].
      * change (0 <=? -1) with false. cbv iota beta.
        destruct (is_paren a); cbn [go_bind]; [|apply Hnext].
        destruct (Hnext (snips ++ [mkSnippet (text_slice (pre ++ "" ++ String a rest) (Z.of_nat n) (Z.of_nat n + 1)) (Z.of_nat n + 1)])) as (s & Hs & Hm).
        exists s. split; [done|]. rewrite Hm, map_app. cbn [map sn_text]. rewrite Hsl. by rewrite <- app_assoc.
      * rewrite (proj2 (Z.leb_le 0 (Z.of_nat (String.length pre)))) by lia. cbv iota beta.
        unfold n at 1. rewrite text_slice_middle, prepToken_plain by done.
        destruct (is_paren a); cbn [go_bind].
        -- destruct (Hnext ((snips ++ [mkSnippet cur (Z.of_nat (String.length pre) + 1)]) ++ [mkSnippet (text_slice (pre ++ cur ++ String a rest) (Z.of_nat n) (Z.of_nat n + 1)) (Z.of_nat n + 1)])) as (s & Hs & Hm).
           exists s. split; [done|]. rewrite Hm, !map_app. cbn [map sn_text]. rewrite Hsl. by rewrite <- !app_assoc.
        -- destruct (Hnext (snips ++ [mkSnippet cur (Z.of_nat (String.length pre) + 1)])) as (s & Hs & Hm).
           exists s. split; [done|]. rewrite Hm, !map_app. cbn [map sn_text]. by rewrite <- !app_assoc.
    + rewrite Hpar by done. cbn [go_bind].
      assert (Z.of_nat n + 1 = Z.of_nat (String.length pre + String.length (cur ++ String a ""))) as Hn.
      { unfold n. rewrite !length_string_app. simpl. lia. }
      destruct (IH pre (cur ++ String a "")%string (Z.of_nat n) snips) as (s & Hs & Hm).
      * rewrite all_bytes_app, Hcur. unfold all_bytes. simpl. by rewrite Ha.
      * done.
      * intros _. done.
      * rewrite string_app_assoc in Hs, Hm. simpl in Hs, Hm. exists s. split; [|done].
        rewrite <- Hs, Hn. f_equal. f_equal.
        assert (String.eqb (cur ++ String a "") "" = false) as -> by (by destruct cur).
        destruct (String.eqb_spec cur "") as [->|]; simpl.
        -- unfold n. simpl. lia.
        -- destruct (Z.eqb_spec (Z.of_nat (String.length pre)) (-1)); [lia|done].
Qed.

Lemma extract_step_ok (text : string) (pos : Z) (a : ascii) (s : lexer) :
  extract_step text pos a s ≠ Panic ∧ extract_step text pos a s ≠ Fail ErrOutOfFuel.
Proof. unfold extract_step. repeat case_match; done. Qed.

Lemma extract_loop_ok (text rest : string) : ∀ pos pending s,
  extract_loop text rest pos pending s ≠ Panic ∧
  extract_loop text rest pos pending s ≠ Fail ErrOutOfFuel.
Proof.
  induction rest as [|a rest IH]; intros pos pending s; simpl; [done|].
  destruct pending as [|pending]; [|apply IH].
  destruct (extract_step_ok text pos a s) as [H1 H2].
  destruct (extract_step text pos a s) as [s'|e|]; simpl; [apply IH|split; congruence|done].
Qed.

Lemma extractSnippets_words (text : string) :
  all_bytes plain_char text = true →
  ∃ snippets, extractSnippets text = Ret snippets ∧ map sn_text snippets = words text.
Proof.
  intros Ht. destruct (extract_loop_words text "" "" 0 []) as (s & Hs & Hm); [done|done|done|].
  simpl in Hs, Hm. change (Z.of_nat 0) with 0 in Hs. unfold extractSnippets. rewrite Hs. cbn [go_bind].
  exists (lexer_result text s). split; [|done]. unfold lexer_result. by destruct (0 <=? lx_start s).
Qed.

(** ** Properties *)

(** The parser is total: every text gives a query or one of the errors of
    the source; neither the recursion of [parseAndOr] nor the clause loop runs
    out of the fuel the model gives them, and nothing panics. *)
Theorem ParseQuery_total {R : Type} `{!QueryLib R} (query : string) :
  (∃ q : Query R, ParseQuery query = Ret q) ∨
  (∃ e, e ≠ ErrOutOfFuel ∧ ParseQuery query = (Fail e : go _ (Query R))).
Proof.
  unfold ParseQuery, extractSnippets.
  destruct (extract_loop_ok query query 0 0 (mkLexer false (-1) false 0 [])) as [Hp Hf].
  destruct (extract_loop query query 0 0 _) as [s|e|] eqn:He; cbn [go_bind];
    [|right; exists e; split; [congruence|done]|congruence].
  rewrite <- (if_bool_commute Ret). cbn [go_bind].
  match goal with |- context [parse_snippets ?l ?n] =>
    destruct (parse_snippets_outcome (R := R) l n) as [H1 H2];
    destruct (parse_snippets l n 0%nat) as [p [q|e|]] end; simpl in *;
    [|right; exists e; split; [congruence|done]|done].
  unfold Query_Check. destruct (q_checked q); [by left; eexists|].
  destruct (q_where q ≫= Condition_check) as [err|]; [right; by exists (ErrCheck err)|left; by eexists].
Qed.

(** The lexer against the reference: on plain text (ASCII, no quotes, no
    escapes) the snippets are the maximal words and the parentheses, in
    order. *)
Theorem extractSnippets_plain (text : string) :
  all_bytes plain_char text = true →
  ∃ snippets, extractSnippets text = Ret snippets ∧ map sn_text snippets = words text.
Proof. apply extractSnippets_words. Qed.

Lemma extractSnippets_plain_witness :
  ∃ snippets, extractSnippets "query a:b where (x > 1)" = Ret snippets ∧
    map sn_text snippets = words "query a:b where (x > 1)".
Proof. apply (extractSnippets_plain "query a:b where (x > 1)"). reflexivity. Defined.
