(* ===== verification/QueryRoundtrip.v ===== *)
(** * database/query: printing and parsing are inverse

    Which queries [Print] writes so that [ParseQuery] reads them back: the
    printed text is split into tokens by the reference tokenizer [words], and
    the grammar functions rebuild the condition from its tokens. *)

From Stdlib Require Import ZArith Lia Ascii String.
From S2P Require Import Prelude GoStrings Record Query QueryParser.
Local Open Scope Z_scope.

(** ** Words *)

Definition word_char (a : ascii) : bool := plain_char a && negb (is_segment_end a).

(** A token that is printed as it is. *)
Definition word (s : string) : Prop := s ≠ ""%string ∧ all_bytes word_char s = true.

Definition connector (isOr : bool) : string := if isOr then "or" else "and".

(** Words that cannot be the key of a printed condition. *)
Definition connectors : list string := ["and"; "or"; "not"]%string.

Definition int_operators : list Z :=
  [op_Equals; op_GreaterThan; op_GreaterThanOrEqual; op_LessThan; op_LessThanOrEqual].
Definition float_operators : list Z :=
  [op_FloatEquals; op_FloatGreaterThan; op_FloatGreaterThanOrEqual; op_FloatLessThan;
   op_FloatLessThanOrEqual].
Definition string_operators : list Z := [op_SameAs; op_Contains; op_StartsWith; op_EndsWith].

Section Printable.
Context {R : Type} `{!QueryLib R}.

(** Leaf conditions that print and parse: keys and values are words, numbers
    are in range; for floats and regular expressions the library's own round
    trip is required of the value. *)
Inductive printable_leaf : Condition R → Prop :=
| pl_int key op n :
    word key → key ∉ connectors → op ∈ int_operators → is_s64 n →
    printable_leaf (intCondition key op n)
| pl_float key op f :
    word key → key ∉ connectors → op ∈ float_operators →
    word (FormatFloat f) → ParseFloat64 (FormatFloat f) = Some f →
    printable_leaf (floatCondition key op f)
| pl_string key op v :
    word key → key ∉ connectors → op ∈ string_operators → word v →
    printable_leaf (stringCondition key op v)
| pl_strings key l :
    word key → key ∉ connectors → (2 ≤ length l)%nat →
    Forall (λ s, all_bytes word_char s = true ∧ lacks "," s) l →
    printable_leaf (stringSliceCondition key op_In l)
| pl_regex key r :
    word key → key ∉ connectors →
    word (regexp_String r) → regexp_Compile (regexp_String r) = Some r →
    printable_leaf (regexCondition key op_Matches (Some r))
| pl_bool key b : word key → key ∉ connectors → printable_leaf (boolCondition key op_Is b)
| pl_exists key : word key → key ∉ connectors → printable_leaf (existsCondition key op_Exists).

Definition combine (isOr : bool) (cs : list (Condition R)) : Condition R :=
  if isOr then Or cs else And cs.

(** Conditions: leaves, negated leaves, and groups of two or more, negated or
    not. *)
Inductive printable : Condition R → Prop :=
| pr_leaf c : printable_leaf c → printable c
| pr_not_leaf c : printable_leaf c → printable (Not c)
| pr_group b cs : (2 ≤ length cs)%nat → printables cs → printable (combine b cs)
| pr_not_group b cs : (2 ≤ length cs)%nat → printables cs → printable (Not (combine b cs))
with printables : list (Condition R) → Prop :=
| prs_one c : printable c → printables [c]
| prs_cons c cs : printable c → printables cs → printables (c :: cs).

Scheme printable_ind' := Minimality for printable Sort Prop
with printables_ind' := Minimality for printables Sort Prop.
Combined Scheme printable_printables_ind from printable_ind', printables_ind'.

(** A condition that does not end in a parenthesis. *)
Definition ends_open (c : Condition R) : bool :=
  match c with
  | andCond _ | orCond _ | notCond (andCond _) | notCond (orCond _) => false
  | _ => true
  end.

(** What a query's [where] may be: a leaf, or a group whose last member does
    not end in a parenthesis. *)
Inductive printable_root : Condition R → Prop :=
| root_leaf c : printable c → ends_open c = true → printable_root c
| root_group b cs c :
    (1 ≤ length cs)%nat → printables (cs ++ [c]) → ends_open c = true →
    printable_root (combine b (cs ++ [c])).

End Printable.

(** ** The reference tokenizer on concatenations *)

Lemma words_from_app (cur a b : string) (d : ascii) :
  is_segment_end d = true →
  words_from cur (a ++ String d b) =
    words_from cur a ++ (if is_paren d then [String d ""] else []) ++ words b.
Proof.
  intros Hd. revert cur. induction a as [|x a IH]; intros cur; simpl.
  - by rewrite Hd.
  - destruct (is_segment_end x); [|apply IH]. rewrite IH. by rewrite <- !app_assoc.
Qed.

Lemma words_space (a b : string) : words (a ++ String " " b) = words a ++ words b.
Proof. unfold words. by rewrite words_from_app. Qed.

Lemma words_open (b : string) : words (String "(" b) = "("%string :: words b.
Proof. done. Qed.

Lemma words_close (a : string) : words (a ++ ")") = words a ++ [")"%string].
Proof. unfold words. by rewrite words_from_app. Qed.

Lemma words_from_word (cur w : string) :
  all_bytes word_char w = true → (cur ++ w)%string ≠ ""%string → words_from cur w = [(cur ++ w)%string].
Proof.
  revert cur. induction w as [|a w IH]; intros cur Hw Hne; simpl.
  - rewrite string_app_nil_r in *. unfold flush. by destruct (String.eqb_spec cur "").
  - unfold all_bytes in Hw. simpl in Hw. apply andb_true_iff in Hw as [Ha Hw].
    unfold word_char in Ha. bool_to_prop.
    match goal with H : is_segment_end a = false |- _ => rewrite H end.
    rewrite IH; [by rewrite string_app_assoc|done|]. by destruct cur.
Qed.

Lemma words_word (w : string) : word w → words w = [w].
Proof. intros [Hne Hw]. unfold words. by rewrite words_from_word. Qed.

Lemma word_plain (w : string) : word w → all_bytes plain_char w = true.
Proof.
  intros [_ H]. revert H. apply all_bytes_impl. unfold word_char. intros a Ha. by bool_to_prop.
Qed.

Lemma word_no_escape (w : string) : word w → escapeString w = w.
Proof.
  intros [_ Hw]. unfold escapeString.
  assert (ContainsAny w needs_escape = false) as ->; [|done].
  unfold ContainsAny. unfold all_bytes in Hw.
  induction (list_ascii_of_string w) as [|a l IH]; simpl in *; [done|].
  apply andb_true_iff in Hw as [Ha Hw]. rewrite IH by done. rewrite orb_false_r.
  destruct a as [[] [] [] [] [] [] [] []]; try done.
Qed.

Lemma word_no_space (w : string) : word w → all_bytes (λ x, negb (Ascii.eqb x " ")) w = true.
Proof.
  intros [_ H]. revert H. apply all_bytes_impl. intros a Ha.
  by destruct a as [[] [] [] [] [] [] [] []].
Qed.

Lemma digits_word (s : string) (acc n : Z) :
  digits_value s acc = Some n → all_bytes word_char s = true.
Proof.
  revert acc. unfold all_bytes. induction s as [|a s IH]; intros acc H; [done|].
  simpl in H. destruct (digit a) as [d|] eqn:Hd; [|done]. simpl.
  rewrite (IH _ H), andb_true_r. by destruct a as [[] [] [] [] [] [] [] []].
Qed.

Lemma FormatInt_word (n : Z) : word (FormatInt n).
Proof.
  unfold FormatInt. destruct (Z.ltb_spec n 0).
  - destruct (FormatUint_value (- n)) as [Hne Hv]; [lia|]. split; [done|].
    apply digits_word in Hv. rewrite all_bytes_app, Hv. done.
  - destruct (FormatUint_value n) as [Hne Hv]; [lia|]. split; [done|]. by apply digits_word in Hv.
Qed.

Lemma all_bytes_Join (f : ascii → bool) (l : list string) (sep : string) :
  all_bytes f sep = true → Forall (λ s, all_bytes f s = true) l → all_bytes f (Join l sep) = true.
Proof.
  intros Hsep. induction l as [|s [|s' l] IH]; intros H; [done| |].
  - by inversion_clear H.
  - inversion_clear H. change (Join (s :: s' :: l) sep) with (s ++ sep ++ Join (s' :: l) sep)%string.
    rewrite !all_bytes_app, Hsep, IH by done. by rewrite H0.
Qed.

(** ** Leaves *)

Lemma operator_name (op : Z) :
  0 ≤ op < 18 →
  word (getOpName op) ∧ getOpName op ≠ "not"%string ∧ lookup_operator (getOpName op) = Some op.
Proof.
  intros H. assert (op ∈ seqZ 0 18) as Hin by (apply elem_of_seqZ; lia).
  assert (Forall (λ op, word (getOpName op) ∧ getOpName op ≠ "not"%string ∧
    lookup_operator (getOpName op) = Some op) (seqZ 0 18)) as Hall.
  { repeat (constructor; [split_and!; [split|..]; vm_compute; done|]). constructor. }
  rewrite Forall_forall in Hall. by apply Hall.
Qed.

Section Roundtrip.
Context {R : Type} `{!QueryLib R}.

(** The tokens of a leaf: key, operator name, and the value unless the
    operator is exists. *)
Definition leaf_tokens (c : Condition R) (key : string) (op : Z) (args : list string) : Prop :=
  word key ∧ (key ∉ connectors) ∧ Forall word args ∧ (0 ≤ op < 18)%Z ∧
  (match args with
   | [] => op = op_Exists ∧ c = Where key op V_other
   | [v] => op ≠ op_Exists ∧ c = Where key op (V_string v)
   | _ => False
   end) ∧
  Condition_string c = Ret (Join (key :: getOpName op :: args) " ").

Lemma leaf_tokens_value (key : string) (op : Z) (v : string) (c : Condition R) :
  word key → key ∉ connectors → word v → 0 ≤ op < 17 →
  Where key op (V_string v) = c → Condition_string c = Ret (print_leaf key op v) →
  leaf_tokens c key op [v].
Proof.
  intros Hk Hc Hv Hop HW Hs. unfold leaf_tokens. split_and!; try done; try lia.
  - by constructor.
  - unfold op_Exists. lia.
  - rewrite Hs. unfold print_leaf. by rewrite word_no_escape.
Qed.

Ltac each_operator H := repeat (apply elem_of_cons in H as [->|H]); [..|by apply elem_of_nil in H].

Lemma Where_int (key : string) (op : Z) (v : value) :
  op ∈ int_operators → Where key op v = newIntCondition key op v.
Proof. unfold int_operators. intros H. by each_operator H. Qed.

Lemma Where_float (key : string) (op : Z) (v : value) :
  op ∈ float_operators → Where key op v = newFloatCondition key op v.
Proof. unfold float_operators. intros H. by each_operator H. Qed.

Lemma Where_string (key : string) (op : Z) (v : value) :
  op ∈ string_operators → Where key op v = newStringCondition key op v.
Proof. unfold string_operators. intros H. by each_operator H. Qed.

Lemma operator_range (op : Z) :
  op ∈ int_operators ++ float_operators ++ string_operators → 0 ≤ op < 17.
Proof. intros H. simpl in H. by each_operator H. Qed.

Lemma printable_leaf_tokens (c : Condition R) :
  printable_leaf c → ∃ key op args, leaf_tokens c key op args.
Proof.
  intros H. destruct H as [key op n Hk Hc Hop Hn|key op f Hk Hc Hop Hf Hp|key op v Hk Hc Hop Hv|
    key l Hk Hc Hlen Hl|key r Hk Hc Hr Hp|key b Hk Hc|key Hk Hc].
  - exists key, op, [FormatInt n].
    apply leaf_tokens_value; [done|done|apply FormatInt_word|apply operator_range; rewrite !elem_of_app; tauto| |done].
    rewrite Where_int by done. unfold newIntCondition. by rewrite ParseInt64_FormatInt.
  - exists key, op, [FormatFloat f].
    apply leaf_tokens_value; [done|done|done|apply operator_range; rewrite !elem_of_app; tauto| |done].
    rewrite Where_float by done. unfold newFloatCondition. by rewrite Hp.
  - exists key, op, [v].
    apply leaf_tokens_value; [done|done|done|apply operator_range; rewrite !elem_of_app; tauto| |].
    + by rewrite Where_string.
    + simpl. by rewrite (word_no_escape v).
  - exists key, op_In, [Join l ","].
    assert (word (Join l ",")) as Hj.
    { split; [destruct l as [|[|] [|]]; simpl in Hlen |- *; by (lia || done)|].
      apply all_bytes_Join; [done|]. eapply Forall_impl; [done|]. by intros ? [? _]. }
    assert (Split (Join l ",") "," = l) as Hsplit.
    { apply Split_Join; [by destruct l; [simpl in Hlen; lia|]|]. eapply Forall_impl; [done|]. by intros ? [_ ?]. }
    apply leaf_tokens_value; [done|done|done|done| |].
    + change (Where key op_In ?v) with (newStringSliceCondition key op_In v).
      unfold newStringSliceCondition. rewrite Hsplit. by rewrite (proj2 (Nat.ltb_ge (length l) 2)).
    + simpl. by rewrite (word_no_escape (Join l ",")).
  - exists key, op_Matches, [regexp_String r].
    apply leaf_tokens_value; [done|done|done|done| |].
    + change (Where key op_Matches ?v) with (newRegexCondition key op_Matches v).
      unfold newRegexCondition. by rewrite Hp.
    + simpl. by rewrite (word_no_escape (regexp_String r)).
  - exists key, op_Is, [format_bool b]. apply leaf_tokens_value; [done|done|by destruct b|done|by destruct b|done].
  - exists key, op_Exists, []. unfold leaf_tokens. split_and!; try done.
    simpl. by rewrite (word_no_escape key).
Qed.

(** ** The grammar on tokens *)

Context (snippets : list snippet) (text_len : Z).

Definition tokens_at (pos : nat) (ts : list string) : Prop :=
  ∃ rest, drop pos (map sn_text snippets) = ts ++ rest.

Lemma tokens_at_cons (pos : nat) (t : string) (ts : list string) :
  tokens_at pos (t :: ts) →
  ∃ sn, snippets !! pos = Some sn ∧ sn_text sn = t ∧ tokens_at (S pos) ts.
Proof.
  intros [rest Hd].
  assert (map sn_text snippets !! pos = Some t) as Hl.
  { rewrite <- (Nat.add_0_r pos), <- lookup_drop, Hd. done. }
  change (map sn_text snippets) with (sn_text <$> snippets) in Hl.
  apply list_lookup_fmap_Some_1 in Hl as (sn & -> & Hs). exists sn. split_and!; [done|done|].
  exists rest. rewrite <- Nat.add_1_r, <- drop_drop, Hd. done.
Qed.

Lemma tokens_at_app (pos : nat) (ts us : list string) :
  tokens_at pos (ts ++ us) → tokens_at pos ts ∧ tokens_at (pos + length ts) us.
Proof.
  intros [rest Hd]. split; [exists (us ++ rest); by rewrite app_assoc|].
  exists rest. rewrite <- drop_drop, Hd, <- app_assoc. by rewrite drop_app_length.
Qed.

Lemma tokens_at_lt (pos : nat) (t : string) (ts : list string) :
  tokens_at pos (t :: ts) → (pos < length snippets)%nat.
Proof. intros H. apply tokens_at_cons in H as (sn & Hs & _). by eapply lookup_lt_Some. Qed.

(** One turn of the loop of [parseAndOr] at a snippet. *)
Lemma parse_step (root : bool) (v : and_or (R := R)) (pos : nat) (sn : snippet) :
  snippets !! pos = Some sn →
  negb (expectingMore v) && root && is_clause (sn_text sn) = false →
  parse_from snippets text_len root v pos =
    (if String.eqb (sn_text sn) "(" then
       let$ condition := parse_from snippets text_len false and_or_init in
       parse_from snippets text_len root (add_condition condition true v)
     else if String.eqb (sn_text sn) ")" then st_ret (finish_conditions (isOr v) (conditions v))
     else if String.eqb (sn_text sn) "and" then
       if typeSet v && isOr v then st_fail (ErrMixAndOr (globalPosition sn))
       else parse_from snippets text_len root (mkAndOr false true (wrapInNot v) true (conditions v))
     else if String.eqb (sn_text sn) "or" then
       if typeSet v && negb (isOr v) then st_fail (ErrMixAndOr (globalPosition sn))
       else parse_from snippets text_len root (mkAndOr true true (wrapInNot v) true (conditions v))
     else if String.eqb (sn_text sn) "not" then
       parse_from snippets text_len root (mkAndOr (isOr v) (typeSet v) true true (conditions v))
     else
       let$ condition := parseCondition snippets text_len sn in
       parse_from snippets text_len root (add_condition condition false v)) (S pos).
Proof.
  intros Hs Hcl. assert (pos < length snippets)%nat as Hlt by (by eapply lookup_lt_Some).
  assert (∀ root v pos', (1 ≤ pos')%nat →
    parseAndOr snippets text_len (length snippets) root v pos' = parse_from (R := R) snippets text_len root v pos') as Hcont.
  { intros. apply parse_from_continue; lia. }
  unfold parse_from at 1. cbn [parseAndOr].
  assert ((remainingSnippets snippets pos =? 0) = false) as ->.
  { unfold remainingSnippets, len. apply Z.eqb_neq. lia. }
  rewrite andb_false_r.
  rewrite (st_bind_Ret _ _ pos (S pos) sn) by (unfold getSnippet; by rewrite Hs).
  cbv zeta. rewrite Hcl. clear Hcl.
  repeat (match goal with |- context [if String.eqb ?a ?b then _ else _] => destruct (String.eqb a b) end);
    try (by apply Hcont; lia); try done.
  - unfold st_bind. rewrite Hcont by lia.
    destruct (parse_from snippets text_len false and_or_init (S pos)) as [p' [c|e|]] eqn:Hp; [|done|done].
    apply Hcont.
    destruct (parseAndOr_fuel snippets text_len (S (length snippets)) (S (length snippets)) false and_or_init (S pos))
      as [_ [Ha _]]; [unfold remaining; lia..|].
    unfold parse_from in Hp. rewrite Hp in Ha. simpl in Ha. lia.
  - destruct (_ && _); [done|apply Hcont; lia].
  - destruct (_ && _); [done|apply Hcont; lia].
  - unfold st_bind. destruct (parseCondition_advances snippets text_len sn (S pos)) as [Ha _].
    destruct (parseCondition snippets text_len sn (S pos)) as [p' [c|e|]]; [|done|done].
    apply Hcont. simpl in Ha. lia.
Qed.

(** Reading the tokens of one condition, and of a list of conditions joined by
    one connector. *)
Definition reads (c : Condition R) (ts : list string) : Prop :=
  ∀ root v pos, tokens_at pos ts → wrapInNot v = false → expectingMore v = true →
    parse_from snippets text_len root v pos =
      parse_from snippets text_len root
        (mkAndOr (isOr v) (typeSet v) false (negb (ends_open c)) (conditions v ++ [c]))
        (pos + length ts)%nat.

Definition adds (b : bool) (cs : list (Condition R)) (v : and_or (R := R)) : and_or (R := R) :=
  mkAndOr (if (2 <=? length cs)%nat then b else isOr v)
    (if (2 <=? length cs)%nat then true else typeSet v) false
    (match last cs with Some c => negb (ends_open c) | None => false end) (conditions v ++ cs).

Definition reads_list (b : bool) (cs : list (Condition R)) (ts : list string) : Prop :=
  ∀ root v pos, tokens_at pos ts → wrapInNot v = false → expectingMore v = true →
    (typeSet v = true → isOr v = b) →
    parse_from snippets text_len root v pos =
      parse_from snippets text_len root (adds b cs v) (pos + length ts)%nat.

Lemma word_not_paren (w : string) : word w → String.eqb w "(" = false ∧ String.eqb w ")" = false.
Proof. intros [_ Hw]. split; apply String.eqb_neq; intros ->; done. Qed.

Lemma not_connector (key : string) :
  key ∉ connectors →
  String.eqb key "and" = false ∧ String.eqb key "or" = false ∧ String.eqb key "not" = false.
Proof. unfold connectors. intros H. rewrite !String.eqb_neq. set_solver. Qed.

Lemma getSnippet_at (pos : nat) (t : string) (ts : list string) :
  tokens_at pos (t :: ts) →
  ∃ sn, getSnippet snippets text_len pos = (S pos, Ret sn) ∧ sn_text sn = t ∧ tokens_at (S pos) ts.
Proof.
  intros H. apply tokens_at_cons in H as (sn & Hs & Ht & Hr). exists sn. unfold getSnippet. by rewrite Hs.
Qed.

#[local] Opaque getOpName lookup_operator Where.

Lemma parseCondition_leaf (c : Condition R) key op args (sn : snippet) (neg : bool) (pos : nat) :
  leaf_tokens c key op args → sn_text sn = key →
  tokens_at pos ((if neg then ["not"%string] else []) ++ getOpName op :: args) →
  parseCondition snippets text_len sn pos =
    ((pos + length ((if neg then ["not"%string] else []) ++ getOpName op :: args))%nat,
     Ret (if neg then Not c else c)).
Proof.
  intros (Hk & Hc & Ha & Hop & Hargs & _) Hsn Hat. unfold parseCondition.
  destruct (operator_name op Hop) as (_ & Hnot & Hlook).
  assert (∀ pos', tokens_at pos' (getOpName op :: args) →
    ∃ s1, getSnippet snippets text_len pos' = (S pos', Ret s1) ∧ sn_text s1 = getOpName op ∧
    (match lookup_operator (sn_text s1) with
     | None => st_fail (ErrUnknownOperator (globalPosition s1))
     | Some operator =>
         if operator =? op_Exists then
           let c := Where (sn_text sn) operator V_other in
           st_ret (if neg then Not c else c)
         else
           let$ value := getSnippet snippets text_len in
           let c := Where (sn_text sn) operator (V_string (sn_text value)) in
           st_ret (if neg then Not c else c)
     end) (S pos') = ((pos' + length (getOpName op :: args))%nat, Ret (if neg then Not c else c))) as Hrest.
  { intros pos' H'. destruct (getSnippet_at _ _ _ H') as (s1 & Hg & Ht & Hr). exists s1.
    split_and!; [done|done|]. rewrite Ht, Hlook, Hsn.
    destruct args as [|v [|]]; [|destruct Hargs as [Hne ->]|destruct Hargs].
    - destruct Hargs as [-> ->]. change (op_Exists =? op_Exists) with true. cbv iota zeta.
      unfold st_ret. simpl. by rewrite Nat.add_1_r.
    - rewrite (proj2 (Z.eqb_neq op op_Exists) Hne).
      destruct (getSnippet_at _ _ _ Hr) as (s2 & Hg2 & Ht2 & _).
      rewrite (st_bind_Ret _ _ _ _ _ Hg2), Ht2. unfold st_ret. simpl. f_equal. lia. }
  destruct neg; simpl in Hat.
  - destruct (getSnippet_at _ _ _ Hat) as (s0 & Hg0 & Ht0 & Hr0).
    destruct (Hrest _ Hr0) as (s1 & Hg & Ht & Hres).
    rewrite (st_bind_Ret _ _ _ _ _ Hg0). rewrite Ht0. change (String.eqb "not" "not") with true. cbv iota.
    rewrite (st_bind_Ret _ _ _ (S (S pos)) (true, s1)) by (by rewrite (st_bind_Ret _ _ _ _ _ Hg)).
    etransitivity; [exact Hres|]. f_equal. simpl. lia.
  - destruct (Hrest _ Hat) as (s1 & Hg & Ht & Hres).
    rewrite (st_bind_Ret _ _ _ _ _ Hg). rewrite Ht.
    rewrite (proj2 (String.eqb_neq (getOpName op) "not") Hnot).
    rewrite (st_bind_Ret _ _ _ (S pos) (false, s1)) by done. exact Hres.
Qed.

Lemma reads_leaf (c : Condition R) key op args (neg : bool) :
  leaf_tokens c key op args → (∀ neg : bool, ends_open (if neg then Not c else c) = true) →
  reads (if neg then Not c else c)
    (key :: (if neg then ["not"%string] else []) ++ getOpName op :: args).
Proof.
  intros Hleaf Hopen root v pos Hat Hw He. pose proof Hleaf as (Hk & Hc & _).
  destruct (tokens_at_cons _ _ _ Hat) as (sn & Hs & Ht & Hr).
  destruct (word_not_paren key Hk) as [H1 H2]. destruct (not_connector key Hc) as (H3 & H4 & H5).
  rewrite (parse_step root v pos sn Hs) by (by rewrite He).
  rewrite Ht, H1, H2, H3, H4, H5.
  rewrite (st_bind_Ret _ _ _ _ _ (parseCondition_leaf c key op args sn neg (S pos) Hleaf Ht Hr)).
  unfold add_condition. rewrite Hw, Hopen. f_equal. simpl. lia.
Qed.

Lemma printable_leaf_open (c : Condition R) (neg : bool) :
  printable_leaf c → ends_open (if neg then Not c else c) = true.
Proof. intros H. by destruct H, neg. Qed.

Lemma parse_connector (root b : bool) (v : and_or (R := R)) (pos : nat) (ts : list string) :
  tokens_at pos (connector b :: ts) → (typeSet v = true → isOr v = b) →
  parse_from snippets text_len root v pos =
    parse_from snippets text_len root (mkAndOr b true (wrapInNot v) true (conditions v)) (S pos).
Proof.
  intros Hat Ht. destruct (tokens_at_cons _ _ _ Hat) as (sn & Hs & Hsn & _).
  rewrite (parse_step root v pos sn Hs) by (rewrite Hsn; destruct b; by rewrite andb_false_r).
  rewrite Hsn. destruct b; simpl.
  - destruct (typeSet v); [rewrite Ht by done|]; done.
  - destruct (typeSet v); [rewrite Ht by done|]; done.
Qed.

Lemma reads_list_cons (b : bool) (c : Condition R) (cs : list (Condition R)) (ts us : list string) :
  cs ≠ [] → reads c ts → reads_list b cs us →
  reads_list b (c :: cs) (ts ++ connector b :: us).
Proof.
  intros Hne Hc Hcs root v pos Hat Hw He Ht.
  apply tokens_at_app in Hat as [Hat1 Hat2]. rewrite Hc by done.
  rewrite (parse_connector root b _ _ us) by done.
  destruct (tokens_at_cons _ _ _ Hat2) as (_ & _ & _ & Hat3).
  rewrite Hcs by done. unfold adds. simpl.
  assert (last (c :: cs) = last cs) as -> by (by destruct cs).
  rewrite <- app_assoc. rewrite length_app. simpl.
  destruct cs as [|c' cs]; [done|]. simpl. destruct cs; simpl; f_equal; lia.
Qed.

Lemma reads_group (b : bool) (cs : list (Condition R)) (ts : list string) (neg : bool) :
  (2 ≤ length cs)%nat → reads_list b cs ts →
  reads (if neg then Not (combine b cs) else combine b cs)
    ((if neg then ["not"%string] else []) ++ "("%string :: ts ++ [")"%string]).
Proof.
  intros Hlen Hcs root v pos Hat Hw He.
  assert (∀ v pos, tokens_at pos ("("%string :: ts ++ [")"%string]) → expectingMore v = true →
    parse_from snippets text_len root v pos =
    parse_from snippets text_len root (add_condition (combine b cs) true v) (pos + length ts + 2)%nat) as Hgroup.
  { clear v pos Hat Hw He. intros v pos Hat He.
    destruct (tokens_at_cons _ _ _ Hat) as (sn & Hs & Hsn & Hr).
    rewrite (parse_step root v pos sn Hs) by (by rewrite He).
    rewrite Hsn. change (String.eqb "(" "(") with true. cbv iota.
    apply tokens_at_app in Hr as [Hr1 Hr2].
    destruct (tokens_at_cons _ _ _ Hr2) as (sn2 & Hs2 & Hsn2 & _).
    rewrite (st_bind_Ret _ _ (S pos) (S (S pos + length ts))%nat (combine b cs)); [f_equal; lia|].
    rewrite Hcs by done. rewrite (parse_step false _ _ sn2 Hs2) by (by rewrite andb_false_r).
    rewrite Hsn2. unfold adds. rewrite (proj2 (Nat.leb_le 2 (length cs)) Hlen). cbn.
    unfold st_ret, finish_conditions, combine. destruct cs as [|c1 [|c2 cs]]; simpl in Hlen; [lia|lia|done]. }
  destruct neg; simpl in Hat.
  - destruct (tokens_at_cons _ _ _ Hat) as (sn & Hs & Hsn & Hr).
    rewrite (parse_step root v pos sn Hs) by (by rewrite He). rewrite Hsn. simpl.
    rewrite Hgroup by done. unfold add_condition. simpl. f_equal; [by destruct b|].
    rewrite length_app. simpl. lia.
  - rewrite Hgroup by done. unfold add_condition. rewrite Hw. f_equal; [by destruct b|].
    simpl. rewrite length_app. simpl. lia.
Qed.

(** ** Printed conditions *)

Fixpoint Condition_strings (l : list (Condition R)) : go unit (list string) :=
  match l with
  | [] => Ret []
  | cond :: l' =>
      let! s := Condition_string cond in let! rest := Condition_strings l' in Ret (s :: rest)
  end.

Lemma Condition_string_combine (b : bool) (cs : list (Condition R)) (ss : list string) :
  Condition_strings cs = Ret ss →
  Condition_string (combine b cs) = Ret ("(" ++ Join ss (" " ++ connector b ++ " ") ++ ")")%string.
Proof.
  intros H. destruct b; cbn [combine Or And Condition_string connector].
  - change ((let! all := Condition_strings cs in Ret ("(" ++ Join all " or " ++ ")")%string) =
      (Ret ("(" ++ Join ss " or " ++ ")")%string : go unit string)). by rewrite H.
  - change ((let! all := Condition_strings cs in Ret ("(" ++ Join all " and " ++ ")")%string) =
      (Ret ("(" ++ Join ss " and " ++ ")")%string : go unit string)). by rewrite H.
Qed.

Lemma Join_words (w : string) (l : list string) :
  Forall word (w :: l) →
  words (Join (w :: l) " ") = w :: l ∧ all_bytes plain_char (Join (w :: l) " ") = true.
Proof.
  intros H. split.
  - induction H as [|x l' Hx Hl IH]; [done|]. destruct l' as [|y l']; [by apply words_word|].
    change (Join (x :: y :: l') " ") with (x ++ String " " (Join (y :: l') " "))%string.
    by rewrite words_space, IH, words_word.
  - apply all_bytes_Join; [done|]. eapply Forall_impl; [done|]. apply word_plain.
Qed.

Lemma leaf_words (c : Condition R) key op args (neg : bool) :
  leaf_tokens c key op args →
  Forall word (key :: (if neg then ["not"%string] else []) ++ getOpName op :: args).
Proof.
  intros (Hk & _ & Ha & Hop & _). destruct (operator_name op Hop) as (Hw & _).
  apply Forall_cons; split; [exact Hk|]. apply Forall_app. split; [by destruct neg; repeat constructor|].
  apply Forall_cons; split; [exact Hw|exact Ha].
Qed.

Lemma word_HasPrefix (w s : string) : word w → HasPrefix (w ++ s) "(" = false.
Proof.
  intros [Hne Hw]. destruct (HasPrefix (w ++ s) "(") eqn:H; [|done].
  apply HasPrefix_spec in H as [t Ht]. destruct w as [|a w]; [done|].
  simpl in Ht. injection Ht as -> _. done.
Qed.

Lemma Condition_string_not (c : Condition R) :
  Condition_string (Not c) =
    let! next := Condition_string c in
    if HasPrefix next "(" then Ret ("not " ++ next)%string
    else match Split next " " with
         | first :: rest => Ret (Join (first :: "not"%string :: rest) " ")
         | [] => Panic
         end.
Proof. done. Qed.

Lemma Condition_string_not_leaf (c : Condition R) key op args :
  leaf_tokens c key op args →
  Condition_string (Not c) = Ret (Join (key :: "not"%string :: getOpName op :: args) " ").
Proof.
  intros Hleaf. pose proof Hleaf as (Hk & _ & _ & _ & _ & Hs). rewrite Condition_string_not, Hs. cbn [go_bind].
  assert (∀ x l, Join (x :: getOpName op :: l) " " = x ++ String " " (Join (getOpName op :: l) " "))%string as HJ.
  { done. }
  rewrite HJ, word_HasPrefix, Split_app by (done || by apply word_no_space).
  destruct (Split (Join (getOpName op :: args) " ") " ") as [|x l] eqn:Hsp.
  - by apply Split_nonempty in Hsp.
  - f_equal. change (Join (key :: "not"%string :: x :: l) " ") with
      (key ++ String " " ("not" ++ String " " (Join (x :: l) " ")))%string.
    rewrite <- Hsp, Join_Split. done.
Qed.

(** What printing and reading a condition, and a list of them, amounts to. *)
Definition prints (c : Condition R) : Prop :=
  ∃ s, Condition_string c = Ret s ∧ all_bytes plain_char s = true ∧ reads c (words s).

Definition prints_list (cs : list (Condition R)) : Prop :=
  cs ≠ [] ∧ ∃ ss, Condition_strings cs = Ret ss ∧
    ∀ b, all_bytes plain_char (Join ss (" " ++ connector b ++ " ")) = true ∧
      reads_list b cs (words (Join ss (" " ++ connector b ++ " "))).

Lemma prints_leaf (c : Condition R) (neg : bool) :
  printable_leaf c → prints (if neg then Not c else c).
Proof.
  intros Hl. destruct (printable_leaf_tokens c Hl) as (key & op & args & Hleaf).
  pose proof (leaf_words c key op args neg Hleaf) as Hw.
  destruct (Join_words _ _ Hw) as [Hwords Hplain].
  exists (Join (key :: (if neg then ["not"%string] else []) ++ getOpName op :: args) " ").
  split_and!; [|done|].
  - destruct neg; [by apply Condition_string_not_leaf|]. by destruct Hleaf as (_ & _ & _ & _ & _ & ?).
  - rewrite Hwords. apply reads_leaf; [done|]. intros neg'. by apply printable_leaf_open.
Qed.

Lemma prints_group (b neg : bool) (cs : list (Condition R)) :
  (2 ≤ length cs)%nat → prints_list cs →
  prints (if neg then Not (combine b cs) else combine b cs).
Proof.
  intros Hlen (_ & ss & Hss & Hb). destruct (Hb b) as [Hplain Hreads].
  pose proof (Condition_string_combine b cs ss Hss) as Hstr.
  set (body := Join ss (" " ++ connector b ++ " ")) in *.
  pose proof (reads_group b cs (words body) neg Hlen Hreads) as Hr.
  assert (words ("(" ++ body ++ ")") = "("%string :: words body ++ [")"%string]) as Hw.
  { simpl. by rewrite words_open, words_close. }
  assert (all_bytes plain_char ("(" ++ body ++ ")") = true) as Hp.
  { by rewrite !all_bytes_app, Hplain. }
  destruct neg.
  - exists ("not (" ++ body ++ ")")%string. split_and!.
    + rewrite Condition_string_not, Hstr. cbn [go_bind]. by rewrite (HasPrefix_app "(").
    + by rewrite !all_bytes_app, Hplain.
    + change ("not (" ++ body ++ ")")%string with ("not" ++ String " " ("(" ++ body ++ ")"))%string.
      by rewrite words_space, Hw.
  - exists ("(" ++ body ++ ")")%string. rewrite Hw. by split_and!.
Qed.

Lemma prints_cons (c : Condition R) (cs : list (Condition R)) :
  prints c → prints_list cs → prints_list (c :: cs).
Proof.
  intros (s & Hs & Hp & Hr) (Hne & ss & Hss & Hb). split; [done|].
  exists (s :: ss). cbn [Condition_strings]. rewrite Hs. cbn [go_bind]. rewrite Hss. split; [done|].
  intros b. destruct (Hb b) as [Hp' Hr'].
  assert (ss ≠ []) as Hss'.
  { destruct cs as [|c' cs]; [done|]. intros ->. cbn [Condition_strings] in Hss.
    destruct (Condition_string c') as [|e|], (Condition_strings cs) as [|e'|]; done. }
  destruct ss as [|s' ss]; [done|].
  set (sep := (" " ++ connector b ++ " ")%string) in *.
  change (Join (s :: s' :: ss) sep) with (s ++ sep ++ Join (s' :: ss) sep)%string.
  split; [rewrite !all_bytes_app, Hp, Hp'; by destruct b|].
  assert ((s ++ sep ++ Join (s' :: ss) sep)%string =
    (s ++ String " " (connector b ++ String " " (Join (s' :: ss) sep)))%string) as ->.
  { subst sep. by rewrite !string_app_assoc. }
  rewrite !words_space. rewrite (words_word (connector b)) by (by destruct b).
  apply (reads_list_cons b c cs); done.
Qed.

Lemma prints_one (c : Condition R) : prints c → prints_list [c].
Proof.
  intros (s & Hs & Hp & Hr). split; [done|]. exists [s]. cbn [Condition_strings]. rewrite Hs.
  split; [done|]. intros b. split; [done|]. intros root v pos Hat Hw He Ht.
  rewrite Hr by done. done.
Qed.

Lemma printable_prints :
  (∀ c : Condition R, printable c → prints c) ∧ (∀ cs : list (Condition R), printables cs → prints_list cs).
Proof.
  apply printable_printables_ind.
  - intros c H. by apply (prints_leaf c false).
  - intros c H. by apply (prints_leaf c true).
  - intros b cs Hlen _ H. by apply (prints_group b false cs).
  - intros b cs Hlen _ H. by apply (prints_group b true cs).
  - intros c _ H. by apply prints_one.
  - intros c cs _ Hc _ Hcs. by apply prints_cons.
Qed.

(** ** The clauses of a query *)

(** The end of a [where] clause: no snippet left, or the next clause. *)
Definition clause_end (pos : nat) : Prop :=
  pos = length snippets ∨
  ∃ sn, snippets !! pos = Some sn ∧ is_clause (sn_text sn) = true.

Lemma parse_finish (v : and_or (R := R)) (pos : nat) :
  expectingMore v = false → clause_end pos →
  parse_from snippets text_len true v pos = (S pos, Ret (finish_conditions (isOr v) (conditions v))).
Proof.
  intros He [->|(sn & Hs & Hc)]; unfold parse_from; cbn [parseAndOr]; rewrite He; cbn [negb andb].
  - unfold remainingSnippets, len. by rewrite (proj2 (Z.eqb_eq _ _)) by lia.
  - assert (pos < length snippets)%nat by (by eapply lookup_lt_Some).
    unfold remainingSnippets, len. rewrite (proj2 (Z.eqb_neq _ _)) by lia.
    rewrite (st_bind_Ret _ _ pos (S pos) sn) by (unfold getSnippet; by rewrite Hs).
    cbv zeta. by rewrite Hc.
Qed.

(** The text of a [where] clause as [Print] writes it. *)
Definition where_text (s : string) : string := if HasPrefix s "(" then strip_parens s else s.

Lemma strip_parens_body (body : string) : strip_parens ("(" ++ body ++ ")") = body.
Proof.
  unfold strip_parens. simpl String.length. rewrite length_string_app. simpl.
  replace (String.length body + 1 - 1)%nat with (String.length body) by lia. apply substring_prefix.
Qed.

Lemma HasPrefix_words (s : string) (c : Condition R) :
  printable c → ends_open c = true → Condition_string c = Ret s → HasPrefix s "(" = false.
Proof.
  intros Hp Ho Hs.
  assert (∃ c0 neg, printable_leaf c0 ∧ c = if neg : bool then Not c0 else c0) as (c0 & neg & Hl & ->).
  { destruct Hp as [c0|c0|[] cs|[] cs]; simpl in Ho; try done; [by exists c0, false|by exists c0, true]. }
  destruct (printable_leaf_tokens c0 Hl) as (key & op & args & Hleaf).
  pose proof Hleaf as (Hk & _ & _ & _ & _ & Hc).
  destruct neg.
  - rewrite (Condition_string_not_leaf _ _ _ _ Hleaf) in Hs. injection Hs as <-.
    change (Join (key :: "not"%string :: getOpName op :: args) " ") with
      (key ++ " " ++ Join ("not"%string :: getOpName op :: args) " ")%string. by apply word_HasPrefix.
  - rewrite Hc in Hs. injection Hs as <-.
    change (Join (key :: getOpName op :: args) " ") with
      (key ++ " " ++ Join (getOpName op :: args) " ")%string. by apply word_HasPrefix.
Qed.

Lemma reads_root (c : Condition R) :
  printable_root c →
  ∃ s, Condition_string c = Ret s ∧ s ≠ ""%string ∧ all_bytes plain_char (where_text s) = true ∧
    ∀ pos, tokens_at pos (words (where_text s)) → clause_end (pos + length (words (where_text s))) →
      parse_from snippets text_len true and_or_init pos =
        (S (pos + length (words (where_text s))), Ret c).
Proof.
  destruct printable_prints as [Hone Hmany].
  intros [c' Hc Ho|b cs c' Hlen Hcs Ho].
  - destruct (Hone c' Hc) as (s & Hs & Hp & Hr). exists s. unfold where_text.
    rewrite (HasPrefix_words s c' Hc Ho Hs). split_and!; [done| |done|].
    + intros ->. destruct Hc as [c0 Hl|c0 Hl|[] cs|[] cs]; try done;
        destruct (printable_leaf_tokens c0 Hl) as (key & op & args & Hleaf).
      * destruct Hleaf as ([Hk _] & _ & _ & _ & _ & Hs'). rewrite Hs' in Hs. by destruct key.
      * rewrite (Condition_string_not_leaf _ _ _ _ Hleaf) in Hs.
        destruct Hleaf as ([Hk _] & _). by destruct key.
    + intros pos Hat Hend. rewrite Hr by done. rewrite parse_finish; [done|by rewrite Ho|done].
  - destruct (Hmany _ Hcs) as (_ & ss & Hss & Hb). destruct (Hb b) as [Hp Hr].
    exists ("(" ++ Join ss (" " ++ connector b ++ " ") ++ ")")%string.
    split_and!; [by apply Condition_string_combine|done| |]; unfold where_text;
      rewrite (HasPrefix_app "("), strip_parens_body; [done|].
    intros pos Hat Hend. rewrite Hr by done. unfold adds.
    rewrite last_snoc, Ho. cbn [negb].
    rewrite (proj2 (Nat.leb_le 2 (length (cs ++ [c'])))) by (rewrite length_app; simpl; lia).
    rewrite parse_finish by done. cbn [isOr conditions and_or_init app].
    destruct cs as [|c1 [|c2 cs]]; [simpl in Hlen; lia|done|done].
Qed.

Lemma clause_step (fuel : nat) (q : Query R) (pos : nat) (t : string) (ts : list string) :
  tokens_at pos (t :: ts) → (0 <? remainingSnippets snippets pos) = true.
Proof. intros H. apply tokens_at_lt in H. unfold remainingSnippets, len. apply Z.ltb_lt. lia. Qed.

Lemma clause_orderby (fuel : nat) (q : Query R) (pos : nat) (w : string) (ts : list string) :
  tokens_at pos ("orderby"%string :: w :: ts) → q_orderBy q = ""%string →
  parse_clauses snippets text_len (S fuel) q pos =
    parse_clauses snippets text_len fuel (Query_OrderBy w q) (S (S pos)).
Proof.
  intros Hat Hq. cbn [parse_clauses]. rewrite (clause_step fuel q pos _ _ Hat). cbn [negb].
  destruct (getSnippet_at _ _ _ Hat) as (s1 & Hg1 & Ht1 & Hr1).
  destruct (getSnippet_at _ _ _ Hr1) as (s2 & Hg2 & Ht2 & _).
  rewrite (st_bind_Ret _ _ _ _ _ Hg1). cbv zeta. rewrite Ht1. simpl. rewrite Hq. simpl.
  by rewrite (st_bind_Ret _ _ _ _ _ Hg2), Ht2.
Qed.

Lemma clause_limit (fuel : nat) (q : Query R) (pos : nat) (n : Z) (ts : list string) :
  tokens_at pos ("limit"%string :: FormatInt n :: ts) → q_limit q = 0 → 0 ≤ n < 2 ^ 31 →
  parse_clauses snippets text_len (S fuel) q pos =
    parse_clauses snippets text_len fuel (Query_Limit n q) (S (S pos)).
Proof.
  intros Hat Hq Hn. cbn [parse_clauses]. rewrite (clause_step fuel q pos _ _ Hat). cbn [negb].
  destruct (getSnippet_at _ _ _ Hat) as (s1 & Hg1 & Ht1 & Hr1).
  destruct (getSnippet_at _ _ _ Hr1) as (s2 & Hg2 & Ht2 & _).
  rewrite (st_bind_Ret _ _ _ _ _ Hg1). cbv zeta. rewrite Ht1. simpl. rewrite Hq. simpl.
  rewrite (st_bind_Ret _ _ _ _ _ Hg2), Ht2. unfold FormatInt. zcmp. by rewrite ParseUint_FormatUint.
Qed.

Lemma clause_offset (fuel : nat) (q : Query R) (pos : nat) (n : Z) (ts : list string) :
  tokens_at pos ("offset"%string :: FormatInt n :: ts) → q_offset q = 0 → 0 ≤ n < 2 ^ 31 →
  parse_clauses snippets text_len (S fuel) q pos =
    parse_clauses snippets text_len fuel (Query_Offset n q) (S (S pos)).
Proof.
  intros Hat Hq Hn. cbn [parse_clauses]. rewrite (clause_step fuel q pos _ _ Hat). cbn [negb].
  destruct (getSnippet_at _ _ _ Hat) as (s1 & Hg1 & Ht1 & Hr1).
  destruct (getSnippet_at _ _ _ Hr1) as (s2 & Hg2 & Ht2 & _).
  rewrite (st_bind_Ret _ _ _ _ _ Hg1). cbv zeta. rewrite Ht1. simpl. rewrite Hq. simpl.
  rewrite (st_bind_Ret _ _ _ _ _ Hg2), Ht2. unfold FormatInt. zcmp. by rewrite ParseUint_FormatUint.
Qed.

Lemma clause_done (fuel : nat) (q : Query R) (pos : nat) :
  pos = length snippets → parse_clauses snippets text_len (S fuel) q pos = (pos, Ret q).
Proof.
  intros ->. cbn [parse_clauses]. unfold remainingSnippets, len. by rewrite (proj2 (Z.ltb_ge _ _)) by lia.
Qed.

(** The clauses after [where], as tokens. *)
Definition tail_tokens (q : Query R) : list string :=
  (if String.eqb (q_orderBy q) "" then [] else ["orderby"%string; q_orderBy q]) ++
  (if 0 <? q_limit q then ["limit"%string; FormatInt (q_limit q)] else []) ++
  (if 0 <? q_offset q then ["offset"%string; FormatInt (q_offset q)] else []).

Lemma read_tail (fuel pos : nat) (q : Query R) (dbName prefix : string) (w : option (Condition R)) :
  0 ≤ q_limit q < 2 ^ 31 → 0 ≤ q_offset q < 2 ^ 31 → (length (tail_tokens q) < fuel)%nat →
  tokens_at pos (tail_tokens q) → (pos + length (tail_tokens q))%nat = length snippets →
  (parse_clauses snippets text_len fuel (mkQuery false dbName prefix w "" 0 0) pos).2 =
    Ret (mkQuery false dbName prefix w (q_orderBy q) (q_limit q) (q_offset q)).
Proof.
  intros Hl Ho Hf Hat Hlen. unfold tail_tokens in *.
  destruct (String.eqb_spec (q_orderBy q) "") as [Hob|Hob],
    (Z.ltb_spec 0 (q_limit q)) as [Hlim|Hlim], (Z.ltb_spec 0 (q_offset q)) as [Hoff|Hoff];
    simpl in Hat, Hlen, Hf;
    (destruct fuel as [|fuel]; [lia|]);
    repeat first
      [ rewrite (clause_orderby _ _ _ _ _ Hat) by done; (destruct fuel as [|fuel]; [lia|]); apply tokens_at_cons in Hat as (_ & _ & _ & Hat);
        apply tokens_at_cons in Hat as (_ & _ & _ & Hat)
      | rewrite (clause_limit _ _ _ _ _ Hat) by done; (destruct fuel as [|fuel]; [lia|]); apply tokens_at_cons in Hat as (_ & _ & _ & Hat);
        apply tokens_at_cons in Hat as (_ & _ & _ & Hat)
      | rewrite (clause_offset _ _ _ _ _ Hat) by done; (destruct fuel as [|fuel]; [lia|]); apply tokens_at_cons in Hat as (_ & _ & _ & Hat);
        apply tokens_at_cons in Hat as (_ & _ & _ & Hat) ];
    rewrite clause_done by lia; simpl; unfold Query_OrderBy, Query_Limit, Query_Offset; simpl;
    do 2 f_equal; done || lia.
Qed.

Lemma tail_clause (q : Query R) (pos : nat) :
  tokens_at pos (tail_tokens q) → (pos + length (tail_tokens q))%nat = length snippets → clause_end pos.
Proof.
  unfold tail_tokens, clause_end. intros Hat Hlen.
  destruct (String.eqb (q_orderBy q) ""), (0 <? q_limit q), (0 <? q_offset q); simpl in *;
    first [left; lia | right; apply tokens_at_cons in Hat as (sn & Hs & Ht & _); exists sn; by rewrite Ht].
Qed.

End Roundtrip.

(** A printable query and the query it is read back as. *)
Record printable_query {R : Type} `{!QueryLib R} (q : Query R) : Prop := {
  pq_prefix : word (q_dbName q ++ ":" ++ q_dbKeyPrefix q);
  pq_name : lacks ":" (q_dbName q);
  pq_where : ∀ c, q_where q = Some c → printable_root c;
  pq_orderBy : q_orderBy q = ""%string ∨ word (q_orderBy q);
  pq_limit : 0 ≤ q_limit q < 2 ^ 31;
  pq_offset : 0 ≤ q_offset q < 2 ^ 31;
}.

Section QueryRoundtrip.
Context {R : Type} `{!QueryLib R}.

Fixpoint Conditions_check (l : list (Condition R)) : option string :=
  match l with
  | [] => None
  | cond :: l' =>
      match Condition_check cond with
      | Some err => Some err
      | None => Conditions_check l'
      end
  end.

Lemma printable_leaf_check (c : Condition R) : printable_leaf c → Condition_check c = None.
Proof.
  intros H. destruct H as [key op n _ _ Hop _|key op f _ _ Hop _ _|key op v _ _ Hop _| | | |]; try done;
    cbn [Condition_check]; unfold check_operator, errorPresent;
    (rewrite (proj2 (Z.eqb_neq op 255)); [done|]);
    unfold int_operators, float_operators, string_operators in Hop; intros ->;
    by repeat (apply elem_of_cons in Hop as [?|Hop]; [done|]); apply elem_of_nil in Hop.
Qed.

Lemma printable_check :
  (∀ c : Condition R, printable c → Condition_check c = None) ∧
  (∀ cs : list (Condition R), printables cs → Conditions_check cs = None).
Proof.
  assert (∀ b cs, Condition_check (combine b cs) = Conditions_check cs) as Hcomb by (by intros []).
  apply printable_printables_ind.
  - apply printable_leaf_check.
  - intros c Hc. exact (printable_leaf_check c Hc).
  - intros b cs _ _ H. by rewrite Hcomb.
  - intros b cs _ _ H. change (Condition_check (Not (combine b cs))) with (Condition_check (combine b cs)).
    by rewrite Hcomb.
  - intros c _ H. simpl. by rewrite H.
  - intros c cs _ Hc _ Hcs. simpl. by rewrite Hc.
Qed.

Lemma printable_root_check (c : Condition R) : printable_root c → Condition_check c = None.
Proof.
  destruct printable_check as [Hone Hmany]. intros [c' Hc _|b cs c' _ Hcs _]; [by apply Hone|].
  apply Hmany in Hcs. by destruct b.
Qed.

(** A text that is empty or starts with a space adds its own words. *)
Lemma words_app_opt (a b : string) :
  (b = ""%string ∨ ∃ b', b = String " " b') → words (a ++ b) = words a ++ words b.
Proof.
  intros [->|[b' ->]].
  - rewrite string_app_nil_r. by rewrite app_nil_r.
  - by rewrite words_space.
Qed.

Definition opt_clause (name value : string) (present : bool) : string :=
  if present then (" " ++ name ++ " " ++ value)%string else ""%string.

Lemma words_opt_clause (name value : string) (present : bool) :
  word name → word value ∨ present = false →
  words (opt_clause name value present) = (if present then [name; value] else []) ∧
  all_bytes plain_char (opt_clause name value present) = true.
Proof.
  intros Hn Hv. destruct present; [|done]. destruct Hv as [Hv|]; [|done]. unfold opt_clause. split.
  - change (words ("" ++ String " " (name ++ String " " value)) = [name; value])%string.
    rewrite !words_space, (words_word name), (words_word value) by done. done.
  - rewrite !all_bytes_app. by rewrite (word_plain name), (word_plain value).
Qed.

Definition tail_text (q : Query R) : string :=
  (opt_clause "orderby" (q_orderBy q) (negb (String.eqb (q_orderBy q) "")) ++
   opt_clause "limit" (FormatInt (q_limit q)) (0 <? q_limit q)%Z ++
   opt_clause "offset" (FormatInt (q_offset q)) (0 <? q_offset q)%Z)%string.

Lemma tail_text_words (q : Query R) :
  (q_orderBy q = ""%string ∨ word (q_orderBy q)) →
  words (tail_text q) = tail_tokens q ∧ all_bytes plain_char (tail_text q) = true ∧
  (tail_text q = ""%string ∨ ∃ b, tail_text q = String " " b).
Proof.
  intros Hob. unfold tail_text, tail_tokens.
  destruct (words_opt_clause "orderby" (q_orderBy q) (negb (String.eqb (q_orderBy q) ""))) as [H1 H1'];
    [done|destruct Hob as [->|]; [by right|by left]|].
  destruct (words_opt_clause "limit" (FormatInt (q_limit q)) (0 <? q_limit q)) as [H2 H2'];
    [done|left; apply FormatInt_word|].
  destruct (words_opt_clause "offset" (FormatInt (q_offset q)) (0 <? q_offset q)) as [H3 H3'];
    [done|left; apply FormatInt_word|].
  assert (∀ n v b, opt_clause n v b = ""%string ∨ ∃ b', opt_clause n v b = String " " b') as Hopt.
  { intros n v []; [right; by eexists|by left]. }
  assert (∀ a b, (a = ""%string ∨ ∃ a', a = String " " a') → (b = ""%string ∨ ∃ b', b = String " " b') →
    ((a ++ b)%string = ""%string ∨ ∃ b', (a ++ b)%string = String " " b')) as Happ.
  { intros a b [->|[a' ->]] Hb; [done|]. right. by eexists. }
  split_and!.
  - rewrite !words_app_opt by auto. rewrite H1, H2, H3. by destruct (String.eqb (q_orderBy q) "").
  - by rewrite !all_bytes_app, H1', H2', H3'.
  - auto.
Qed.


Definition head_text (q : Query R) : string :=
  ("query " ++ q_dbName q ++ ":" ++ q_dbKeyPrefix q)%string.

(** The printed query: head, [where] clause, tail. *)
Lemma Query_Print_text (q : Query R) (s : string) :
  (∀ c, q_where q = Some c → Condition_string c = Ret s ∧ s ≠ ""%string) →
  Query_Print q = Ret (head_text q ++
    opt_clause "where" (where_text s) (match q_where q with Some _ => true | None => false end) ++
    tail_text q)%string.
Proof.
  intros Hw. unfold Query_Print, head_text, tail_text, opt_clause.
  destruct (q_where q) as [c|].
  - destruct (Hw c eq_refl) as [-> Hne]. cbn [go_bind].
    rewrite (proj2 (String.eqb_neq s "") Hne). cbn [negb go_bind]. unfold where_text.
    rewrite !string_app_assoc. by destruct (String.eqb (q_orderBy q) ""), (0 <? q_limit q), (0 <? q_offset q).
  - cbn [go_bind]. rewrite !string_app_assoc.
    by destruct (String.eqb (q_orderBy q) ""), (0 <? q_limit q), (0 <? q_offset q).
Qed.

Lemma head_words (q : Query R) :
  word (q_dbName q ++ ":" ++ q_dbKeyPrefix q) →
  words (head_text q) = ["query"%string; (q_dbName q ++ ":" ++ q_dbKeyPrefix q)%string] ∧
  all_bytes plain_char (head_text q) = true.
Proof.
  intros Hp. unfold head_text. split.
  - change ("query " ++ ?x)%string with ("query" ++ String " " x)%string.
    rewrite words_space, (words_word (q_dbName q ++ _)) by done. done.
  - rewrite all_bytes_app. by rewrite (word_plain _ Hp).
Qed.

(** From the snippets of the head on. *)
Lemma parse_snippets_head (snippets : list snippet) (n : Z) (q : Query R) (ts : list string) :
  lacks ":" (q_dbName q) →
  map sn_text snippets = "query"%string :: (q_dbName q ++ ":" ++ q_dbKeyPrefix q)%string :: ts →
  parse_snippets (R := R) snippets n 0%nat =
    parse_clauses snippets n (S (length snippets))
      (mkQuery false (q_dbName q) (q_dbKeyPrefix q) None "" 0 0) 2%nat ∧
  tokens_at snippets 2 ts ∧ length snippets = (2 + length ts)%nat.
Proof.
  intros Hname Hmap.
  assert (tokens_at snippets 0 ("query"%string :: (q_dbName q ++ ":" ++ q_dbKeyPrefix q)%string :: ts)) as Hat.
  { exists []. by rewrite drop_0, app_nil_r. }
  destruct (getSnippet_at snippets n _ _ _ Hat) as (s1 & Hg1 & Ht1 & Hr1).
  destruct (getSnippet_at snippets n _ _ _ Hr1) as (s2 & Hg2 & Ht2 & Hr2).
  split_and!; [|done|].
  - unfold parse_snippets. rewrite (st_bind_Ret _ _ _ _ _ Hg1), Ht1.
    change (negb (String.eqb "query" "query")) with false. cbv iota.
    rewrite (st_bind_Ret _ _ _ _ _ Hg2), Ht2. unfold Query_New, ParseKey.
    change (":" ++ q_dbKeyPrefix q)%string with (String ":" (q_dbKeyPrefix q)).
    by rewrite (Cut_app (q_dbName q)).
  - by rewrite <- (length_map sn_text), Hmap.
Qed.

Lemma ParseQuery_words (text : string) (snippets : list snippet) (q : Query R) :
  extractSnippets text = Ret snippets →
  (parse_snippets snippets (Z.of_nat (String.length text)) 0%nat).2 = Ret q →
  q_checked q = false → q_where q ≫= Condition_check = None →
  ParseQuery text =
    Ret (mkQuery true (q_dbName q) (q_dbKeyPrefix q) (q_where q) (q_orderBy q) (q_limit q) (q_offset q)).
Proof.
  intros He Hp Hc Hw. unfold ParseQuery. rewrite He. cbn [go_bind]. rewrite Hp. cbn [go_bind].
  unfold Query_Check. by rewrite Hc, Hw.
Qed.

End QueryRoundtrip.

(** The [where] clause of the snippets, then the tail. *)
Lemma parse_clauses_where {R : Type} `{!QueryLib R} (snippets : list snippet) (n : Z)
    (q : Query R) (c : Condition R) :
  printable_root c →
  ∃ s, Condition_string c = Ret s ∧ s ≠ ""%string ∧ all_bytes plain_char (where_text s) = true ∧
    ∀ pos q0, q_where q0 = None →
    tokens_at snippets pos ("where"%string :: words (where_text s) ++ tail_tokens q) →
    (pos + length ("where"%string :: words (where_text s) ++ tail_tokens q))%nat = length snippets →
    parse_clauses snippets n (S (length snippets)) q0 pos =
      parse_clauses snippets n (length snippets) (Query_Where c q0) (S pos + length (words (where_text s)))%nat ∧
    tokens_at snippets (S pos + length (words (where_text s))) (tail_tokens q).
Proof.
  intros Hc. destruct (reads_root snippets n c Hc) as (s & Hs & Hne & Hp & Hr).
  exists s. split_and!; [done|done|done|]. intros pos q0 Hq0 Hat Hlen.
  pose proof (clause_step snippets 0 q0 pos _ _ Hat) as Hrem.
  destruct (getSnippet_at snippets n _ _ _ Hat) as (s1 & Hg1 & Ht1 & Hr1).
  apply tokens_at_app in Hr1 as [Hat1 Hat2]. split; [|done].
  simpl in Hlen. rewrite length_app in Hlen.
  cbn [parse_clauses]. rewrite Hrem. cbn [negb].
  rewrite (st_bind_Ret _ _ _ _ _ Hg1). cbv zeta. rewrite Ht1. change (String.eqb "where" "where") with true.
  cbv iota. rewrite Hq0.
  specialize (Hr (S pos) Hat1). rewrite (st_bind_Ret _ _ _ _ _ (Hr ltac:(eapply tail_clause; [done|lia]))).
  by rewrite (st_bind_Ret _ _ _ (S pos + length (words (where_text s)))%nat tt).
Qed.

(** The words of a whole printed query. *)
Lemma query_words {R : Type} `{!QueryLib R} (q : Query R) (w : string) (present : bool) :
  word (q_dbName q ++ ":" ++ q_dbKeyPrefix q) → (q_orderBy q = ""%string ∨ word (q_orderBy q)) →
  all_bytes plain_char w = true →
  let text := (head_text q ++ opt_clause "where" w present ++ tail_text q)%string in
  all_bytes plain_char text = true ∧
  words text = ["query"%string; (q_dbName q ++ ":" ++ q_dbKeyPrefix q)%string] ++
    (if present then "where"%string :: words w else []) ++ tail_tokens q.
Proof.
  intros Hp Ho Hplain. destruct (head_words q Hp) as [Hh Hh'].
  destruct (tail_text_words q Ho) as (Ht & Ht' & Hopt). cbv zeta. split.
  - rewrite !all_bytes_app, Hh', Ht'. unfold opt_clause. destruct present; [|done].
    by rewrite !all_bytes_app, Hplain.
  - rewrite words_app_opt; [rewrite words_app_opt by done; rewrite Hh, Ht|].
    + do 2 f_equal. unfold opt_clause. destruct present; [|done].
      change (words ("" ++ String " " ("where" ++ String " " w)) = "where"%string :: words w)%string.
      by rewrite !words_space.
    + unfold opt_clause. destruct present; [right; by eexists|done].
Qed.

(** The [where] clause ends with the text while another condition is still
    expected. *)
Lemma parse_end {R : Type} `{!QueryLib R} (snippets : list snippet) (n : Z) (v : and_or (R := R)) :
  expectingMore v = true →
  parse_from snippets n true v (length snippets) =
    (S (length snippets), Fail (ErrUnexpectedEnd n)).
Proof.
  intros He. unfold parse_from. cbn [parseAndOr]. rewrite He. cbn [negb andb].
  apply st_bind_Fail. unfold getSnippet. by rewrite lookup_ge_None_2.
Qed.

(** [(a > 100 and b not exists) or not (c <= 12 and d is true) or name sameas Julian] *)
Definition example_condition : Condition string :=
  combine true ([
    combine false [intCondition "a" op_GreaterThan 100; Not (existsCondition "b" op_Exists)];
    Not (combine false [intCondition "c" op_LessThanOrEqual 12; boolCondition "d" op_Is true])] ++
    [stringCondition "name" op_SameAs "Julian"]).

Ltac solve_word := repeat first
  [ split; done | apply not_elem_of_cons; split; [done|] | apply not_elem_of_nil | done ].

Lemma example_printable : printable_root example_condition.
Proof.
  assert (∀ k n op, word k → k ∉ connectors → op ∈ int_operators → is_s64 n →
    printable (R := string) (intCondition k op n)) as Hint.
  { intros. by apply pr_leaf, pl_int. }
  apply root_group; [simpl; lia| |done]. cbn [app].
  apply prs_cons.
  { apply pr_group; [simpl; lia|]. apply prs_cons; [apply Hint; solve_word; set_solver|].
    apply prs_one, pr_not_leaf, pl_exists; unfold connectors; solve_word. }
  apply prs_cons.
  { apply pr_not_group; [simpl; lia|]. apply prs_cons; [apply Hint; solve_word; set_solver|].
    apply prs_one, pr_leaf, pl_bool; unfold connectors; solve_word. }
  apply prs_one, pr_leaf, pl_string; unfold connectors; solve_word. set_solver.
Qed.

(** Entries whose order in the init loop does not matter. *)
Definition distinct_entries (a b : string * Z) : Prop :=
  a.2 ≠ b.2 ∨ String.length a.1 ≠ String.length b.1.

Lemma operatorNames_distinct (j1 j2 : nat) (a b : string * Z) :
  j1 ≠ j2 → operatorNames !! j1 = Some a → operatorNames !! j2 = Some b → distinct_entries a b.
Proof.
  assert (∀ j a, operatorNames !! j = Some a → j ∈ seq 0 24) as Hdom.
  { intros j x Hj. apply lookup_lt_Some in Hj. apply elem_of_seq. simpl in Hj. lia. }
  assert (Forall (λ j1, Forall (λ j2, j1 = j2 ∨
    match operatorNames !! j1, operatorNames !! j2 with
    | Some a, Some b => a.2 ≠ b.2 ∨ String.length a.1 ≠ String.length b.1
    | _, _ => True
    end) (seq 0 24)) (seq 0 24)) as Hall.
  { repeat (constructor; [repeat (constructor; [vm_compute; first [by left | right; by left | right; by right]|]);
      constructor|]). constructor. }
  intros Hne H1 H2. rewrite Forall_forall in Hall. pose proof (Hall j1 (Hdom _ _ H1)) as Hrow.
  rewrite Forall_forall in Hrow. specialize (Hrow j2 (Hdom _ _ H2)). rewrite H1, H2 in Hrow.
  destruct Hrow; done.
Qed.

Lemma primaryNames_step_comm (a b : string * Z) (m : gmap Z string) :
  distinct_entries a b →
  primaryNames_step a (primaryNames_step b m) = primaryNames_step b (primaryNames_step a m).
Proof.
  destruct a as [n1 o1], b as [n2 o2]. intros H. unfold primaryNames_step.
  destruct (decide (o1 = o2)) as [<-|Hne].
  - destruct H as [|H]; [done|]. simpl in H.
    destruct (m !! o1) as [n|] eqn:Hm.
    + destruct (Nat.ltb_spec (String.length n) (String.length n2)),
        (Nat.ltb_spec (String.length n) (String.length n1)); simplify_map_eq;
      repeat match goal with |- context [(?x <? ?y)%nat] => destruct (Nat.ltb_spec x y) end;
      rewrite ?insert_insert_eq; done || lia.
    + simplify_map_eq.
      repeat match goal with |- context [(?x <? ?y)%nat] => destruct (Nat.ltb_spec x y) end;
      rewrite ?insert_insert_eq; done || lia.
  - clear H. destruct (m !! o1) as [x1|] eqn:H1, (m !! o2) as [x2|] eqn:H2;
      repeat (case_match; simplify_map_eq); try done; try (by apply insert_insert_ne); congruence.
Qed.

(** ** Properties *)

(** C2: Print and parse: the text [Print] writes for a printable query (any
    nesting of and, or and not over leaf conditions of every operator, with
    any combination of orderby, limit and offset) is parsed by [ParseQuery]
    into the same query, checked. *)
Theorem query_roundtrip {R : Type} `{!QueryLib R} (q : Query R) :
  printable_query q →
  ∃ text, Query_Print q = Ret text ∧
    ParseQuery text = Ret (mkQuery true (q_dbName q) (q_dbKeyPrefix q) (q_where q) (q_orderBy q)
      (q_limit q) (q_offset q)).
Proof.
  intros Hq. pose proof Hq as [Hp Hn Hw Ho Hl Hof]. destruct (q_where q) as [c|] eqn:Hwhere.
  - specialize (Hw c eq_refl). destruct (reads_root [] 0 c Hw) as (s & Hs & Hne & Hplain & _).
    destruct (query_words q (where_text s) true Hp Ho Hplain) as [Htext Hwords].
    set (text := (head_text q ++ opt_clause "where" (where_text s) true ++ tail_text q)%string) in *.
    exists text. split.
    { rewrite (Query_Print_text q s); [by rewrite Hwhere|]. intros c' Hc'. rewrite Hwhere in Hc'.
      by injection Hc' as <-. }
    destruct (extractSnippets_words text Htext) as (snippets & He & Hmap). rewrite Hwords in Hmap.
    set (n := Z.of_nat (String.length text)).
    destruct (parse_snippets_head snippets n q _ Hn Hmap) as (Hparse & Hat & Hlen).
    destruct (parse_clauses_where snippets n q c Hw) as (s' & Hs' & _ & _ & Hclauses).
    rewrite Hs in Hs'. injection Hs' as <-.
    destruct (Hclauses 2%nat (mkQuery false (q_dbName q) (q_dbKeyPrefix q) None "" 0 0) eq_refl Hat
      (eq_sym Hlen)) as [Hstep Htail].
    apply (ParseQuery_words text snippets
      (mkQuery false (q_dbName q) (q_dbKeyPrefix q) (Some c) (q_orderBy q) (q_limit q) (q_offset q)));
      [done| |done|by apply printable_root_check].
    fold n. rewrite Hparse, Hstep. unfold Query_Where. simpl in Hlen. rewrite length_app in Hlen.
    apply read_tail; [done|done|lia|done|lia].
  - destruct (query_words q "" false Hp Ho eq_refl) as [Htext Hwords].
    set (text := (head_text q ++ opt_clause "where" "" false ++ tail_text q)%string) in *.
    exists text. split.
    { rewrite (Query_Print_text q ""); [by rewrite Hwhere|]. by rewrite Hwhere. }
    destruct (extractSnippets_words text Htext) as (snippets & He & Hmap). rewrite Hwords in Hmap.
    destruct (parse_snippets_head snippets (Z.of_nat (String.length text)) q _ Hn Hmap) as (Hparse & Hat & Hlen).
    apply (ParseQuery_words text snippets
      (mkQuery false (q_dbName q) (q_dbKeyPrefix q) None (q_orderBy q) (q_limit q) (q_offset q)));
      [done| |done|done].
    rewrite Hparse. simpl in Hat, Hlen. apply read_tail; [done|done|lia|done|lia].
Qed.

Lemma query_roundtrip_witness :
  ∃ text, Query_Print (mkQuery false "test" "" (Some example_condition) "name" 10 20) = Ret text ∧
    ParseQuery text = Ret (mkQuery true "test" "" (Some example_condition) "name" 10 20).
Proof.
  apply (query_roundtrip (mkQuery false "test" "" (Some example_condition) "name" 10 20)).
  split; try done.
  - vm_compute. set_solver.
  - intros c Hc. injection Hc as <-. apply example_printable.
  - right. done.
Defined.

(** A group at the end: a printed query whose last condition is a
    parenthesised group is rejected by the parser, which still expects a
    condition after the closing parenthesis. *)
Theorem trailing_group_rejected {R : Type} `{!QueryLib R} (db prefix : string) (b : bool)
    (cs : list (Condition R)) (g : Condition R) :
  word (db ++ ":" ++ prefix) → lacks ":" db →
  (1 ≤ length cs)%nat → printables (cs ++ [g]) → ends_open g = false →
  ∃ text, Query_Print (mkQuery false db prefix (Some (combine b (cs ++ [g]))) "" 0 0) = Ret text ∧
    ParseQuery text = (Fail (ErrUnexpectedEnd (Z.of_nat (String.length text))) : go _ (Query R)).
Proof.
  intros Hword Hdb Hlen Hcs Hg. set (q := mkQuery false db prefix (Some (combine b (cs ++ [g]))) "" 0 0).
  destruct (printable_prints [] 0) as [_ Hmany]. destruct (Hmany _ Hcs) as (_ & ss & Hss & Hb).
  destruct (Hb b) as [Hplain _]. set (body := Join ss (" " ++ connector b ++ " ")) in *.
  destruct (query_words q body true Hword (or_introl eq_refl) Hplain) as [Htext Hwords].
  set (text := (head_text q ++ opt_clause "where" body true ++ tail_text q)%string) in *.
  exists text. split.
  { rewrite (Query_Print_text q ("(" ++ body ++ ")")).
    - unfold where_text. by rewrite (HasPrefix_app "("), strip_parens_body.
    - intros c Hc. injection Hc as <-. split; [by apply Condition_string_combine|done]. }
  destruct (extractSnippets_words text Htext) as (snippets & He & Hmap). rewrite Hwords in Hmap.
  set (n := Z.of_nat (String.length text)).
  destruct (parse_snippets_head snippets n q _ Hdb Hmap) as (Hparse & Hat & Hl).
  unfold ParseQuery. rewrite He. cbn [go_bind]. fold n. rewrite Hparse.
  cbn [parse_clauses]. rewrite (clause_step snippets 0 q _ _ _ Hat). cbn [negb].
  destruct (getSnippet_at snippets n _ _ _ Hat) as (s1 & Hg1 & Ht1 & Hr1).
  rewrite (st_bind_Ret _ _ _ _ _ Hg1). cbv zeta. rewrite Ht1.
  change (String.eqb "where" "where") with true. cbv iota. cbn [q_where].
  apply tokens_at_app in Hr1 as [Hr1 _].
  destruct (printable_prints snippets n) as [_ Hmany']. destruct (Hmany' _ Hcs) as (_ & ss' & Hss' & Hb').
  rewrite Hss in Hss'. injection Hss' as <-. destruct (Hb' b) as [_ Hr].
  simpl in Hl. rewrite app_nil_r in Hl.
  rewrite (st_bind_Fail _ _ 3%nat (S (length snippets)) (ErrUnexpectedEnd n)); [done|].
  pose proof (Hr true and_or_init 3%nat Hr1 eq_refl eq_refl ltac:(done)) as Hstep.
  fold body in Hstep. replace (3 + length (words body))%nat with (length snippets) in Hstep by lia.
  rewrite parse_end in Hstep; [exact Hstep|]. unfold adds. by rewrite last_snoc, Hg.
Qed.

Lemma trailing_group_rejected_witness :
  ∃ text, Query_Print (mkQuery false "test" "" (Some (combine false ([intCondition "a" op_Equals 1] ++
      [combine true [intCondition "b" op_Equals 2; intCondition "c" op_Equals 3]]))) "" 0 0) = Ret text ∧
    ParseQuery text = (Fail (ErrUnexpectedEnd (Z.of_nat (String.length text))) : go _ (Query string)).
Proof.
  apply (trailing_group_rejected "test" "" false [intCondition "a" op_Equals 1]
    (combine true [intCondition "b" op_Equals 2; intCondition "c" op_Equals 3])); [done| |simpl; lia| |done].
  - vm_compute. set_solver.
  - assert (∀ k n, word k → k ∉ connectors → is_s64 n → printable (R := string) (intCondition k op_Equals n)) as Hint.
    { intros. apply pr_leaf, pl_int; try done. apply elem_of_cons. by left. }
    apply prs_cons; [apply Hint; unfold connectors; solve_word|].
    apply prs_one, pr_group; [simpl; lia|].
    apply prs_cons; [|apply prs_one]; apply Hint; unfold connectors; solve_word.
Defined.

(** The escaping does not invert: [escapeString] does not escape the
    backslash it says it escapes, so a value with a backslash is read back
    without it; and a text that ends in a multi-byte character is cut inside
    that character. *)
Theorem text_not_preserved {R : Type} `{!QueryLib R} :
  (∃ text, Query_Print (mkQuery false "test" "" (Some (stringCondition (R := R) "k" op_SameAs "a\b")) "" 0 0)
      = Ret text ∧
    ParseQuery text = Ret (mkQuery true "test" "" (Some (stringCondition (R := R) "k" op_SameAs "ab")) "" 0 0)) ∧
  (∃ text, Query_Print (mkQuery false "test" ""
      (Some (stringCondition (R := R) "k" op_SameAs (String "195" (String "169" "")))) "" 0 0) = Ret text ∧
    ParseQuery text =
      Ret (mkQuery true "test" "" (Some (stringCondition (R := R) "k" op_SameAs (String "195" ""))) "" 0 0)).
Proof. split; eexists; (split; [reflexivity|]); vm_compute; reflexivity. Qed.

(** The printed operator names do not depend on the order in which the
    init function ranges over the map of names. *)
Theorem primaryNames_deterministic (entries : list (string * Z)) :
  entries ≡ₚ operatorNames → primaryNames_init entries = primaryNames.
Proof.
  intros Hperm. symmetry. unfold primaryNames, primaryNames_init.
  apply (foldr_permutation eq _ _ operatorNames); [|done].
  intros j1 a1 j2 a2 m Hne H1 H2. apply primaryNames_step_comm. by apply (operatorNames_distinct j1 j2).
Qed.

Lemma primaryNames_deterministic_witness : primaryNames_init (reverse operatorNames) = primaryNames.
Proof. apply (primaryNames_deterministic (reverse operatorNames)). apply reverse_Permutation. Defined.
