(* ===== verification/Storage.v ===== *)
(** * database/storage: the storage interface and the in-memory storages

    storage/interface.go, storage/hashmap, storage/sinkhole and
    storage/injectbase.go. Records are shared objects: a [record.Record] is a
    location in a heap of objects, so that a storage that keeps the pointer
    (hashmap) sees later changes of the record. An object is its Base and a
    value of a type [V]; [accessor_of] is the method GetAccessor of the value
    (reflection or a JSON library). Locks and the goroutines that feed
    iterators and batches are not modelled: an operation is one step, an
    iterator is the list of records it delivers, a batch the list of records
    sent. *)

From Stdlib Require Import ZArith Lia Ascii String.
From S2P Require Import Prelude GoStrings Record Query.
Local Open Scope Z_scope.

(** ** Objects *)

Abbreviation loc := nat.

Record object (V : Type) : Type := mkObject {
  o_base : Base;
  o_value : V;
}.
Arguments mkObject {V} o_base o_value.
Arguments o_base {V} _.
Arguments o_value {V} _.

Abbreviation heap V := (gmap loc (object V)).

(** The value of an object whose location is not allocated is never used: the
    model only follows locations it has stored. *)
Definition nil_base : Base := mkBase "" "" None.

Section Objects.
Context {V : Type}.

Definition base_of (h : heap V) (r : loc) : Base :=
  match h !! r with Some o => o_base o | None => nil_base end.

Definition meta_of (h : heap V) (r : loc) : option Meta := meta (base_of h r).

Definition key_of (h : heap V) (r : loc) : string := DatabaseKey (base_of h r).

(** A call of a method of the embedded Base through the pointer. *)
Definition update_base (f : Base → Base) (r : loc) (h : heap V) : heap V :=
  alter (λ o, mkObject (f (o_base o)) (o_value o)) r h.

(** A call of a method of [r.Meta()] that changes it. *)
Definition update_meta (f : Meta → Meta) : loc → heap V → heap V :=
  update_base (λ b, SetMeta (option_map f (meta b)) b).

End Objects.

(** ** storage/interface.go *)

Inductive storage_error : Type :=
| StorageErrNotFound
| StorageErrNotImplemented
| StorageErrOther (msg : string).

(** The interfaces Interface, MetaHandler, Maintainer, Batcher and Purger; an
    optional interface is [None] when the storage does not implement it. The
    state of a call is the heap and the storage. *)
Class StorageInterface (V R S : Type) `{!QueryLib R} := {
  storage_Get : string → st (heap V * S) storage_error loc;
  storage_GetMeta : option (string → st (heap V * S) storage_error (option Meta));
  storage_Put : loc → st (heap V * S) storage_error (option loc);
  storage_PutMany : option (bool → list loc → st (heap V * S) storage_error unit);
  storage_Delete : string → st (heap V * S) storage_error unit;
  storage_Query : Z → Query R → bool → bool → st (heap V * S) storage_error (list loc);
  storage_ReadOnly : S → bool;
  storage_Injected : S → bool;
  storage_Maintain : option (st (heap V * S) storage_error unit);
  storage_MaintainRecordStates : Z → Z → bool → st (heap V * S) storage_error unit;
  storage_Purge : option (Z → Query R → bool → bool → bool → st (heap V * S) storage_error Z);
  storage_Shutdown : st (heap V * S) storage_error unit;
}.

(** ** storage/hashmap/map.go *)

Record HashMap : Type := mkHashMap {
  hm_name : string;
  hm_db : gmap string loc;
}.

Definition NewHashMap (name : string) : HashMap := mkHashMap name ∅.

Section HashMap.
Context {V R : Type} `{!QueryLib R} (accessor_of : V → option Accessor).

Definition HashMap_Get (key : string) : st (heap V * HashMap) storage_error loc :=
  λ s, (s, match hm_db s.2 !! key with
           | Some r => Ret r
           | None => Fail StorageErrNotFound
           end).

Definition HashMap_GetMeta (key : string) : st (heap V * HashMap) storage_error (option Meta) :=
  let$ r := HashMap_Get key in
  st_get (λ s, Ret (meta_of s.1 r)).

Definition HashMap_Put (r : loc) : st (heap V * HashMap) storage_error (option loc) :=
  λ '(h, hm), ((h, mkHashMap (hm_name hm) (<[key_of h r := r]> (hm_db hm))), Ret (Some r)).

(** [r.Meta().IsDeleted()]; a nil receiver is dereferenced. *)
Definition is_deleted {E : Type} (h : heap V) (r : loc) : go E bool :=
  match meta_of h r with Some m => Ret (IsDeleted m) | None => Panic end.

Definition batchPutOrDelete (shadowDelete : bool) (r : loc) : st (heap V * HashMap) storage_error unit :=
  let$ deleted := (if shadowDelete then st_ret false else st_get (λ s, is_deleted s.1 r)) in
  st_mod (λ '(h, hm),
    (h, mkHashMap (hm_name hm)
      (if deleted : bool then delete (key_of h r) (hm_db hm) else <[key_of h r := r]> (hm_db hm)))).

Definition HashMap_PutMany (shadowDelete : bool) (batch : list loc)
    : st (heap V * HashMap) storage_error unit :=
  st_iter (batchPutOrDelete shadowDelete) batch.

Definition HashMap_Delete (key : string) : st (heap V * HashMap) storage_error unit :=
  st_mod (λ '(h, hm), (h, mkHashMap (hm_name hm) (delete key (hm_db hm)))).

(** The filter of queryExecutor. *)
Definition query_selects (now : Z) (h : heap V) (q : Query R) (local internal : bool)
    (entry : string * loc) : bool :=
  let '(key, r) := entry in
  MatchesKey q key &&
  MatchesRecord q (h !! r ≫= λ o, accessor_of (o_value o)) &&
  CheckValidity now (meta_of h r) &&
  CheckPermission (meta_of h r) local internal.

(** The records the executor sends, for a consumer that reads them all, in the
    order of the map iteration [entries]. *)
Definition queryExecutor (now : Z) (h : heap V) (q : Query R) (local internal : bool)
    (entries : list (string * loc)) : list loc :=
  snd <$> filter (λ e, query_selects now h q local internal e = true) entries.

Definition HashMap_Query (now : Z) (q : Query R) (local internal : bool)
    : st (heap V * HashMap) storage_error (list loc) :=
  λ s, (s, match Query_Check q with
           | (q', Ret _) => Ret (queryExecutor now s.1 q' local internal (map_to_list (hm_db s.2)))
           | (_, Fail err) => Fail (StorageErrOther err)
           | (_, Panic) => Panic
           end).

(** The loop body of MaintainRecordStates for one entry. *)
Definition maintain_entry (now purgeThreshold : Z) (shadowDelete : bool) (entry : string * loc)
    : st (heap V * HashMap) storage_error unit :=
  λ '(h, hm),
    let '(key, r) := entry in
    match meta_of h r with
    | None => ((h, hm), Panic)
    | Some m =>
        let remove := (h, mkHashMap (hm_name hm) (delete key (hm_db hm))) in
        if (Deleted m =? 0) && (0 <? Expires m) && (Expires m <? now) then
          if shadowDelete
          then ((update_meta (λ m, mkMeta (Created m) (Modified m) (Expires m) (Expires m) (secret m)
                 (cronjewel m)) r h, hm), Ret tt)
          else (remove, Ret tt)
        else if (0 <? Deleted m) && (negb shadowDelete || (Deleted m <? purgeThreshold))
        then (remove, Ret tt)
        else ((h, hm), Ret tt)
    end.

(** The loop over the entries in the order of the map iteration. *)
Definition maintain_entries (now purgeThreshold : Z) (shadowDelete : bool)
    (entries : list (string * loc)) : st (heap V * HashMap) storage_error unit :=
  st_iter (maintain_entry now purgeThreshold shadowDelete) entries.

(** The context is not cancelled. *)
Definition HashMap_MaintainRecordStates (now purgeThreshold : Z) (shadowDelete : bool)
    : st (heap V * HashMap) storage_error unit :=
  λ s, maintain_entries now purgeThreshold shadowDelete (map_to_list (hm_db s.2)) s.

#[global] Instance HashMap_storage : StorageInterface V R HashMap := {|
  storage_Get := HashMap_Get;
  storage_GetMeta := Some HashMap_GetMeta;
  storage_Put := HashMap_Put;
  storage_PutMany := Some HashMap_PutMany;
  storage_Delete := HashMap_Delete;
  storage_Query := HashMap_Query;
  storage_ReadOnly _ := false;
  storage_Injected _ := false;
  storage_Maintain := None;
  storage_MaintainRecordStates := HashMap_MaintainRecordStates;
  storage_Purge := None;
  storage_Shutdown := st_ret tt;
|}.

(** ** storage/sinkhole/sinkhole.go *)

Record Sinkhole : Type := mkSinkhole { sinkhole_name : string }.

#[global] Instance Sinkhole_storage : StorageInterface V R Sinkhole := {|
  storage_Get _ := st_fail StorageErrNotFound;
  storage_GetMeta := Some (λ _, st_fail StorageErrNotFound);
  storage_Put r := st_ret (Some r);
  storage_PutMany := Some (λ _ _, st_ret tt);
  storage_Delete _ := st_ret tt;
  storage_Query _ _ _ _ := st_fail (StorageErrOther "query not implemented by sinkhole");
  storage_ReadOnly _ := false;
  storage_Injected _ := false;
  storage_Maintain := Some (st_ret tt);
  storage_MaintainRecordStates _ _ _ := st_ret tt;
  storage_Purge := None;
  storage_Shutdown := st_ret tt;
|}.

(** ** storage/injectbase.go *)

Record InjectBase : Type := mkInjectBase {}.

#[global] Instance InjectBase_storage : StorageInterface V R InjectBase := {|
  storage_Get _ := st_fail StorageErrNotImplemented;
  storage_GetMeta := None;
  storage_Put _ := st_fail StorageErrNotImplemented;
  storage_PutMany := None;
  storage_Delete _ := st_fail StorageErrNotImplemented;
  storage_Query _ _ _ _ := st_fail StorageErrNotImplemented;
  storage_ReadOnly _ := true;
  storage_Injected _ := true;
  storage_Maintain := None;
  storage_MaintainRecordStates _ _ _ := st_ret tt;
  storage_Purge := None;
  storage_Shutdown := st_ret tt;
|}.

End HashMap.

(** ** What the rest of the database relies on

    A storage is a map from keys to records: what Put stored under the
    record's key is what Get returns, other keys are not touched, and Delete
    removes. [stored] is the abstraction. *)
Class StorageLaws (V R S : Type) `{!QueryLib R, !StorageInterface V R S}
    (stored : S → gmap string loc) := {
  Get_law h s key :
    storage_Get (V := V) (R := R) key (h, s) = ((h, s),
      match stored s !! key with Some r => Ret r | None => Fail StorageErrNotFound end);
  GetMeta_law getMeta h s key :
    storage_GetMeta (V := V) (R := R) = Some getMeta →
    getMeta key (h, s) = ((h, s),
      match stored s !! key with Some r => Ret (meta_of h r) | None => Fail StorageErrNotFound end);
  Put_law h s r :
    ∃ s', storage_Put (V := V) (R := R) r (h, s) = ((h, s'), Ret (Some r)) ∧
      stored s' = <[key_of h r := r]> (stored s) ∧
      storage_ReadOnly (V := V) (R := R) s' = storage_ReadOnly (V := V) (R := R) s;
  Delete_law h s key :
    ∃ s', storage_Delete (V := V) (R := R) key (h, s) = ((h, s'), Ret tt) ∧
      stored s' = delete key (stored s) ∧
      storage_ReadOnly (V := V) (R := R) s' = storage_ReadOnly (V := V) (R := R) s;
}.

#[global] Instance HashMap_laws {V R : Type} `{!QueryLib R} (accessor_of : V → option Accessor) :
  StorageLaws V R HashMap (StorageInterface0 := HashMap_storage accessor_of) hm_db.
Proof.
  split.
  - done.
  - intros getMeta h s key [= <-]. unfold HashMap_GetMeta, HashMap_Get, st_bind, st_get. simpl.
    by destruct (hm_db s !! key).
  - intros h s r. by eexists.
  - intros h s key. by eexists.
Qed.

(** ** Maintenance: what happens to one record *)

Definition expired (now : Z) (m : Meta) : bool :=
  (Deleted m =? 0) && (0 <? Expires m) && (Expires m <? now).

(** The entry is removed from the storage. *)
Definition purged (now purgeThreshold : Z) (shadowDelete : bool) (m : Meta) : bool :=
  if expired now m then negb shadowDelete
  else (0 <? Deleted m) && (negb shadowDelete || (Deleted m <? purgeThreshold)).

(** The metadata after the run. *)
Definition maintained (now : Z) (shadowDelete : bool) (m : Meta) : Meta :=
  if expired now m && shadowDelete
  then mkMeta (Created m) (Modified m) (Expires m) (Expires m) (secret m) (cronjewel m)
  else m.

Section Maintenance.
Context {V : Type} (now purgeThreshold : Z) (shadowDelete : bool).

Lemma maintain_entry_spec (h : heap V) (hm : HashMap) (key : string) (r : loc) (m : Meta) :
  meta_of h r = Some m →
  ∃ h', maintain_entry now purgeThreshold shadowDelete (key, r) (h, hm) =
    ((h', mkHashMap (hm_name hm)
       (if purged now purgeThreshold shadowDelete m then delete key (hm_db hm) else hm_db hm)), Ret tt) ∧
    (∀ r', r' ≠ r → h' !! r' = h !! r') ∧ meta_of h' r = Some (maintained now shadowDelete m).
Proof.
  intros Hm. unfold maintain_entry, purged, maintained, expired. rewrite Hm.
  destruct ((Deleted m =? 0) && (0 <? Expires m) && (Expires m <? now)); simpl.
  - destruct shadowDelete; simpl; [|by exists h].
    eexists. split_and!; [by destruct hm|intros r' Hr; by apply lookup_alter_ne|].
    unfold update_meta, update_base. unfold meta_of, base_of in *. rewrite lookup_alter_eq.
    destruct (h !! r) as [o|]; [|done]. simpl. by rewrite Hm.
  - destruct ((0 <? Deleted m) && _); exists h; by destruct hm.
Qed.

Lemma maintain_entries_spec (entries : list (string * loc)) (h : heap V) (hm : HashMap) :
  NoDup entries.*1 → NoDup entries.*2 → (∀ e, e ∈ entries → is_Some (meta_of h e.2)) →
  ∃ h' hm', maintain_entries now purgeThreshold shadowDelete entries (h, hm) = ((h', hm'), Ret tt) ∧
    (∀ key, key ∉ entries.*1 → hm_db hm' !! key = hm_db hm !! key) ∧
    (∀ r, r ∉ entries.*2 → h' !! r = h !! r) ∧
    (∀ key r m, (key, r) ∈ entries → meta_of h r = Some m →
      hm_db hm' !! key =
        (if purged now purgeThreshold shadowDelete m then None else hm_db hm !! key) ∧
      meta_of h' r = Some (maintained now shadowDelete m)).
Proof.
  revert h hm. induction entries as [|[key r] entries IH]; intros h hm Hk Hr Hm.
  { exists h, hm. split_and!; try done. intros ? ? ? H. by apply elem_of_nil in H. }
  rewrite fmap_cons in Hk. rewrite fmap_cons in Hr. apply NoDup_cons in Hk as [Hk1 Hk2]. apply NoDup_cons in Hr as [Hr1 Hr2].
  simpl in Hk1, Hr1.
  destruct (Hm (key, r)) as [m Hmr]; [apply elem_of_cons; by left|]. simpl in Hmr.
  destruct (maintain_entry_spec h hm key r m Hmr) as (h1 & Hstep & Hother & Hmeta).
  assert (∀ r', r' ≠ r → meta_of h1 r' = meta_of h r') as Hsame.
  { intros r' Hne. unfold meta_of, base_of. by rewrite Hother. }
  assert (∀ k' r', (k', r') ∈ entries → k' ≠ key ∧ r' ≠ r) as Hne.
  { intros k' r' Hin. split; intros ->.
    - apply Hk1. apply (list_elem_of_fmap_2 fst entries (key, r')). done.
    - apply Hr1. apply (list_elem_of_fmap_2 snd entries (k', r)). done. }
  edestruct (IH h1) as (h' & hm' & Hrun & Hkeys & Hlocs & Hent); [done|done| |].
  { intros [k' r'] Hin. simpl. rewrite Hsame by (by eapply Hne). apply (Hm (k', r')). apply elem_of_cons. by right. }
  exists h', hm'. unfold maintain_entries. cbn [st_iter]. rewrite (st_bind_Ret _ _ _ _ _ Hstep).
  split_and!.
  - exact Hrun.
  - intros k' Hk'. apply not_elem_of_cons in Hk' as [Hk1' Hk2']. simpl in Hk1'. rewrite Hkeys by done. simpl.
    destruct (purged _ _ _ m); [|done]. by rewrite lookup_delete_ne by congruence.
  - intros r' Hr'. apply not_elem_of_cons in Hr' as [Hr1' Hr2']. rewrite Hlocs by done. by apply Hother.
  - intros k' r' m' Hin Hm'. apply elem_of_cons in Hin as [Heq|Hin].
    + injection Heq as -> ->. rewrite Hmr in Hm'. injection Hm' as <-. split.
      * rewrite Hkeys by done. simpl. destruct (purged _ _ _ m); [by rewrite lookup_delete_eq|done].
      * unfold meta_of, base_of. rewrite Hlocs by done. done.
    + destruct (Hne k' r' Hin) as [Hk' Hr']. rewrite <- Hsame in Hm' by done.
      destruct (Hent k' r' m' Hin Hm') as [H1 H2]. split; [|done]. rewrite H1. simpl.
      destruct (purged _ _ _ m'); [done|]. destruct (purged _ _ _ m); [|done].
      by rewrite lookup_delete_ne by congruence.
Qed.
End Maintenance.

(** Every record is stored under one key. *)
Definition unshared (db : gmap string loc) : Prop :=
  ∀ k1 k2 r, db !! k1 = Some r → db !! k2 = Some r → k1 = k2.

Lemma unshared_NoDup (db : gmap string loc) (entries : list (string * loc)) :
  unshared db → entries ≡ₚ map_to_list db → NoDup entries.*1 ∧ NoDup entries.*2.
Proof.
  intros Hdb Hp. rewrite Hp. split; [apply NoDup_fst_map_to_list|].
  apply NoDup_alt. intros i j r Hi Hj.
  apply list_lookup_fmap_Some_1 in Hi as ([k1 r1] & -> & Hi).
  apply list_lookup_fmap_Some_1 in Hj as ([k2 r2] & Heq & Hj). simpl in Heq. subst r2.
  assert (k1 = k2) as ->.
  { apply (Hdb k1 k2 r1); apply elem_of_map_to_list; by eapply list_elem_of_lookup_2. }
  exact (NoDup_lookup _ i j _ (NoDup_map_to_list db) Hi Hj).
Qed.

(** A record without conditions on its value, for the witnesses. *)
Definition example_object (m : Meta) : object unit := mkObject (mkBase "test" "a" (Some m)) tt.

Definition example_heap (m : Meta) : heap unit := {[ 0%nat := example_object m ]}.

Definition example_map : HashMap := mkHashMap "test" {[ "a"%string := 0%nat ]}.

(** ** Properties *)

(** A hashmap query delivers exactly the records whose key has the prefix,
    whose value complies, which are valid and permitted, each once per key and
    whatever the iteration order of the map. *)
Theorem HashMap_Query_exact {V R : Type} `{!QueryLib R} (accessor_of : V → option Accessor)
    (now : Z) (h : heap V) (hm : HashMap) (q : Query R) (local internal : bool)
    (entries : list (string * loc)) :
  entries ≡ₚ map_to_list (hm_db hm) →
  let result := queryExecutor accessor_of now h q local internal entries in
  (∀ r, r ∈ result ↔ ∃ key, hm_db hm !! key = Some r ∧
     MatchesKey q key = true ∧ MatchesRecord q (h !! r ≫= λ o, accessor_of (o_value o)) = true ∧
     CheckValidity now (meta_of h r) = true ∧ CheckPermission (meta_of h r) local internal = true) ∧
  result ≡ₚ queryExecutor accessor_of now h q local internal (map_to_list (hm_db hm)).
Proof.
  intros Hp. cbv zeta. split.
  - intros r. unfold queryExecutor. rewrite list_elem_of_fmap. split.
    + intros ([key r'] & -> & Hin). apply list_elem_of_filter in Hin as [Hsel Hin].
      unfold query_selects in Hsel. bool_to_prop. exists key. split; [|done].
      apply elem_of_map_to_list. by rewrite <- Hp.
    + intros (key & Hkey & H1 & H2 & H3 & H4). exists (key, r). split; [done|].
      apply list_elem_of_filter. split; [unfold query_selects; by rewrite H1, H2, H3, H4|].
      rewrite Hp. by apply elem_of_map_to_list.
  - unfold queryExecutor. by rewrite Hp.
Qed.

Lemma HashMap_Query_exact_witness :
  0%nat ∈ queryExecutor (λ _, None) 5 (example_heap zeroMeta)
    (mkQuery (R := string) true "test" "" None "" 0 0) true true [("a"%string, 0%nat)].
Proof.
  apply (HashMap_Query_exact (λ _, None) 5 (example_heap zeroMeta)
    example_map (mkQuery (R := string) true "test" "" None "" 0 0) true true
    [("a"%string, 0%nat)]).
  - unfold example_map. cbn [hm_db]. by rewrite map_to_list_singleton.
  - exists "a"%string. vm_compute. done.
Defined.

(** Record maintenance, exactly: an expired record is marked deleted (or
    removed when the database does not shadow-delete), a deleted one is
    removed when it is older than the threshold (at once without shadow
    deletion), every other record stays as it is; whatever the iteration
    order. *)
Theorem MaintainRecordStates_exact {V : Type} (now purgeThreshold : Z) (shadowDelete : bool)
    (h : heap V) (hm : HashMap) (entries : list (string * loc)) :
  entries ≡ₚ map_to_list (hm_db hm) → unshared (hm_db hm) →
  (∀ key r, hm_db hm !! key = Some r → is_Some (meta_of h r)) →
  ∃ h' hm', maintain_entries now purgeThreshold shadowDelete entries (h, hm) = ((h', hm'), Ret tt) ∧
    (∀ key, hm_db hm !! key = None → hm_db hm' !! key = None) ∧
    (∀ key r m, hm_db hm !! key = Some r → meta_of h r = Some m →
      hm_db hm' !! key = (if purged now purgeThreshold shadowDelete m then None else Some r) ∧
      meta_of h' r = Some (maintained now shadowDelete m)).
Proof.
  intros Hp Hdb Hmeta. destruct (unshared_NoDup _ _ Hdb Hp) as [Hk Hr].
  assert (∀ key r, (key, r) ∈ entries ↔ hm_db hm !! key = Some r) as Hin.
  { intros key r. rewrite Hp. apply elem_of_map_to_list. }
  destruct (maintain_entries_spec now purgeThreshold shadowDelete entries h hm Hk Hr)
    as (h' & hm' & Hrun & Hkeys & _ & Hent).
  { intros [key r] He. apply (Hmeta key r). by apply Hin. }
  exists h', hm'. split_and!; [done| |].
  - intros key Hkey. rewrite Hkeys; [done|]. intros Hel.
    apply list_elem_of_fmap in Hel as ([k r] & -> & He). apply Hin in He. simpl in Hkey. congruence.
  - intros key r m Hkey Hm. destruct (Hent key r m) as [H1 H2]; [by apply Hin|done|].
    split; [|done]. by rewrite H1, Hkey.
Qed.

Lemma MaintainRecordStates_exact_witness :
  ∃ h' hm', maintain_entries 100 100 false [("a"%string, 0%nat)]
      ((example_heap (mkMeta 1 1 50 0 false false)), example_map)
      = ((h', hm'), Ret tt) ∧
    (∀ key, hm_db example_map !! key = None → hm_db hm' !! key = None) ∧
    (∀ key r m, hm_db example_map !! key = Some r →
      meta_of (example_heap (mkMeta 1 1 50 0 false false)) r = Some m →
      hm_db hm' !! key = (if purged 100 100 false m then None else Some r) ∧
      meta_of h' r = Some (maintained 100 false m)).
Proof.
  apply (MaintainRecordStates_exact 100 100 false (example_heap (mkMeta 1 1 50 0 false false))
    example_map [("a"%string, 0%nat)]).
  - unfold example_map. cbn [hm_db]. by rewrite map_to_list_singleton.
  - intros k1 k2 r H1 H2. unfold example_map in *. simpl in *. apply lookup_singleton_Some in H1 as [<- _].
    by apply lookup_singleton_Some in H2 as [<- _].
  - intros key r H. unfold example_map in H. simpl in H. apply lookup_singleton_Some in H as [_ <-]. vm_compute. by eexists.
Defined.

(** Records with a relative expiry are never cleaned up: their negative
    Deleted field keeps them out of both cases of the maintenance switch, so
    an expired one is invalid for every reader and still stays in the storage,
    with and without shadow deletion. *)
Theorem relative_expiry_never_purged {V : Type} (m : Meta) (ttl saved now purgeThreshold : Z)
    (shadowDelete : bool) (h : heap V) (hm : HashMap) (key : string) (r : loc) :
  0 < ttl → 0 < saved → saved + ttl < now → now < 2 ^ 63 →
  meta_of h r = Some (Meta_Update saved (SetRelativateExpiry ttl m)) →
  hm_db hm = {[ key := r ]} →
  CheckValidity now (meta_of h r) = false ∧
  HashMap_MaintainRecordStates now purgeThreshold shadowDelete (h, hm) = ((h, hm), Ret tt).
Proof.
  intros Httl Hsaved Hexp Hnow Hm Hdb. rewrite Hm.
  unfold SetRelativateExpiry. zcmp. unfold Meta_Update. simpl. zcmp.
  rewrite s64_small by (unfold is_s64; lia). zcmp. split; [done|].
  unfold HashMap_MaintainRecordStates, maintain_entries. simpl. rewrite Hdb, map_to_list_singleton.
  cbn [st_iter]. rewrite (st_bind_Ret _ _ _ (h, hm) tt); [done|].
  unfold maintain_entry. rewrite Hm. unfold SetRelativateExpiry. zcmp. unfold Meta_Update. simpl. by zcmp.
Qed.

Lemma relative_expiry_never_purged_witness :
  CheckValidity 2000 (meta_of (example_heap (Meta_Update 1000 (SetRelativateExpiry 60 zeroMeta))) 0%nat) = false ∧
  HashMap_MaintainRecordStates 2000 2000 false
    ((example_heap (Meta_Update 1000 (SetRelativateExpiry 60 zeroMeta))), example_map)
  = (((example_heap (Meta_Update 1000 (SetRelativateExpiry 60 zeroMeta))), example_map), Ret tt).
Proof. by apply (relative_expiry_never_purged zeroMeta 60 1000 2000 2000 false _ _ "a" 0%nat). Defined.
