(* ===== verification/Controller.v ===== *)
(** * database: controllers, hooks and subscriptions

    controller.go, hook.go, hookbase.go and subscription.go. The state of a
    controller method is a [world]: the shutdown flag, the heap of records,
    the subscriptions (shared objects, by their location) and the controller
    with its storage. A query pointer is a location and the query, since Cancel
    compares pointers. A subscription's feed is the list of records sent and
    not yet received; locks are not modelled. *)

From Stdlib Require Import ZArith Lia Ascii String.
From S2P Require Import Prelude GoStrings Record Query Storage.
Local Open Scope Z_scope.

(** ** errors.go *)

Inductive db_error : Type :=
| DbErrNotFound
| DbErrPermissionDenied
| DbErrReadOnly
| DbErrShuttingDown
| DbErrNotImplemented
| DbErrStorage (e : storage_error)
| DbErrHook (msg : string)
| DbErrNilRecord
| DbErrNotInitialized
| DbErrNotRegistered (name : string)
| DbErrNotInjected
| DbErrAlreadyLoaded (name : string)
| DbErrWrongType
| DbErrStart (msg : string)
| DbErrName
| DbErrQuery (msg : string)
| DbErrAccessor (msg : string)
| DbErrScope
| DbErrNotApplicable.

#[global] Instance storage_error_eq_dec : EqDecision storage_error.
Proof. solve_decision. Defined.

#[global] Instance db_error_eq_dec : EqDecision db_error.
Proof. solve_decision. Defined.

(** ** hook.go, hookbase.go *)

(** A hook's methods; a record hook may change the heap and return another
    record, or an error. *)
Record Hook (V : Type) : Type := mkHook {
  UsesPreGet : bool;
  PreGet : string → option string;
  UsesPostGet : bool;
  PostGet : loc → heap V → heap V * (string + loc);
  UsesPrePut : bool;
  PrePut : loc → heap V → heap V * (string + loc);
}.
Arguments UsesPreGet {V} _.
Arguments PreGet {V} _ _.
Arguments UsesPostGet {V} _.
Arguments PostGet {V} _ _ _.
Arguments UsesPrePut {V} _.
Arguments PrePut {V} _ _ _.

Definition HookBase {V : Type} : Hook V :=
  mkHook V false (λ _, None) false (λ r h, (h, inr r)) false (λ r h, (h, inr r)).

(** [*query.Query] *)
Record query_ref (R : Type) : Type := mkQueryRef {
  qr_id : loc;
  qr_query : Query R;
}.
Arguments mkQueryRef {R} qr_id qr_query.
Arguments qr_id {R} _.
Arguments qr_query {R} _.

Record RegisteredHook (V R : Type) : Type := mkRegisteredHook {
  rh_q : query_ref R;
  rh_h : Hook V;
}.
Arguments mkRegisteredHook {V R} rh_q rh_h.
Arguments rh_q {V R} _.
Arguments rh_h {V R} _.

(** ** subscription.go *)

Record Subscription (R : Type) : Type := mkSubscription {
  sub_q : query_ref R;
  sub_local : bool;
  sub_internal : bool;
  sub_Feed : list loc;
  sub_closed : bool;
}.
Arguments mkSubscription {R} sub_q sub_local sub_internal sub_Feed sub_closed.
Arguments sub_q {R} _.
Arguments sub_local {R} _.
Arguments sub_internal {R} _.
Arguments sub_Feed {R} _.
Arguments sub_closed {R} _.

(** [make(chan record.Record, 1000)] *)
Definition feed_capacity : nat := 1000.

(** ** controller.go *)

Record Controller (V R S : Type) : Type := mkController {
  c_name : string;
  c_storage : S;
  c_shadowDelete : bool;
  c_hooks : list (RegisteredHook V R);
  c_subscriptions : list loc;
}.
Arguments mkController {V R S}.
Arguments c_name {V R S} _.
Arguments c_storage {V R S} _.
Arguments c_shadowDelete {V R S} _.
Arguments c_hooks {V R S} _.
Arguments c_subscriptions {V R S} _.

Record world (V R S : Type) : Type := mkWorld {
  w_shuttingDown : bool;
  w_heap : heap V;
  w_subs : gmap loc (Subscription R);
  w_ctl : Controller V R S;
}.
Arguments mkWorld {V R S}.
Arguments w_shuttingDown {V R S} _.
Arguments w_heap {V R S} _.
Arguments w_subs {V R S} _.
Arguments w_ctl {V R S} _.

Section Controller.
Context {V R S : Type} `{!QueryLib R, !StorageInterface V R S}.
Context (accessor_of : V → option Accessor).

Abbreviation W := (world V R S).

Definition newController (name : string) (storageInt : S) (shadowDelete : bool) : Controller V R S :=
  mkController name storageInt shadowDelete [] [].

Definition set_heap (h : heap V) (w : W) : W := mkWorld (w_shuttingDown w) h (w_subs w) (w_ctl w).

Definition set_subs (subs : gmap loc (Subscription R)) (w : W) : W :=
  mkWorld (w_shuttingDown w) (w_heap w) subs (w_ctl w).

Definition set_storage (s : S) (w : W) : W :=
  let c := w_ctl w in
  mkWorld (w_shuttingDown w) (w_heap w) (w_subs w)
    (mkController (c_name c) s (c_shadowDelete c) (c_hooks c) (c_subscriptions c)).

Definition set_hooks (hooks : list (RegisteredHook V R)) (w : W) : W :=
  let c := w_ctl w in
  mkWorld (w_shuttingDown w) (w_heap w) (w_subs w)
    (mkController (c_name c) (c_storage c) (c_shadowDelete c) hooks (c_subscriptions c)).

Definition set_subscriptions (l : list loc) (w : W) : W :=
  let c := w_ctl w in
  mkWorld (w_shuttingDown w) (w_heap w) (w_subs w)
    (mkController (c_name c) (c_storage c) (c_shadowDelete c) (c_hooks c) l).

(** A call of a storage method. *)
Definition on_storage {A : Type} (wrap : storage_error → db_error)
    (m : st (heap V * S) storage_error A) : st W db_error A :=
  λ w, let '((h, s), r) := m (w_heap w, c_storage (w_ctl w)) in
       (set_storage s (set_heap h w), go_mapError wrap r).

(** [if errors.Is(err, storage.ErrNotFound) { return ErrNotFound }; return err] *)
Definition replace_not_found (e : storage_error) : db_error :=
  match e with
  | StorageErrNotFound => DbErrNotFound
  | _ => DbErrStorage e
  end.

(** [if shuttingDown.IsSet() { return ErrShuttingDown }] *)
Definition check_shutdown : st W db_error unit :=
  λ w, (w, if w_shuttingDown w then Fail DbErrShuttingDown else Ret tt).

Definition ReadOnly (w : W) : bool := storage_ReadOnly (V := V) (R := R) (c_storage (w_ctl w)).

Definition Injected (w : W) : bool := storage_Injected (V := V) (R := R) (c_storage (w_ctl w)).

Definition accessor_at (h : heap V) (r : loc) : option Accessor :=
  h !! r ≫= λ o, accessor_of (o_value o).

(** [q.Matches(r)] *)
Definition query_matches (h : heap V) (q : Query R) (r : loc) : bool :=
  Query_Matches q (key_of h r) (accessor_at h r).

Definition runPreGetHooks (key : string) : st W db_error unit :=
  λ w, st_iter (λ hook : RegisteredHook V R,
    if negb (UsesPreGet (rh_h hook)) then st_ret tt
    else if negb (MatchesKey (qr_query (rh_q hook)) key) then st_ret tt
    else match PreGet (rh_h hook) key with
         | Some err => st_fail (DbErrHook err)
         | None => st_ret tt
         end) (c_hooks (w_ctl w)) w.

(** The loop of both record hook runners. *)
Fixpoint run_record_hooks (uses : Hook V → bool) (call : Hook V → loc → heap V → heap V * (string + loc))
    (hooks : list (RegisteredHook V R)) (r : loc) : st W db_error loc :=
  match hooks with
  | [] => st_ret r
  | hook :: hooks' => λ w,
      if negb (uses (rh_h hook)) then run_record_hooks uses call hooks' r w
      else if negb (query_matches (w_heap w) (qr_query (rh_q hook)) r)
      then run_record_hooks uses call hooks' r w
      else match call (rh_h hook) r (w_heap w) with
           | (h, inl err) => (set_heap h w, Fail (DbErrHook err))
           | (h, inr r') => run_record_hooks uses call hooks' r' (set_heap h w)
           end
  end.

Definition runPostGetHooks (r : loc) : st W db_error loc :=
  λ w, run_record_hooks UsesPostGet PostGet (c_hooks (w_ctl w)) r w.

Definition runPrePutHooks (r : loc) : st W db_error loc :=
  λ w, run_record_hooks UsesPrePut PrePut (c_hooks (w_ctl w)) r w.

Definition Controller_Get (now : Z) (key : string) : st W db_error loc :=
  let$ _ := check_shutdown in
  let$ _ := runPreGetHooks key in
  let$ r := on_storage replace_not_found (storage_Get key) in
  let$ r := runPostGetHooks r in
  λ w, (w, if negb (CheckValidity now (meta_of (w_heap w) r)) then Fail DbErrNotFound else Ret r).

Definition Controller_GetMeta (now : Z) (key : string) : st W db_error (option Meta) :=
  let$ _ := check_shutdown in
  let$ m :=
    match storage_GetMeta with
    | Some getMeta => on_storage replace_not_found (getMeta key)
    | None =>
        let$ r := on_storage replace_not_found (storage_Get key) in
        st_get (λ w, Ret (meta_of (w_heap w) r))
    end in
  if negb (CheckValidity now m) then st_fail DbErrNotFound else st_ret m.

(** Sending to one subscription: a full channel drops the record, a closed one
    panics. *)
Definition send_feed (r : loc) (id : loc) : st W db_error unit :=
  λ w,
    match w_subs w !! id with
    | None => (w, Ret tt)
    | Some sub =>
        if CheckPermission (meta_of (w_heap w) r) (sub_local sub) (sub_internal sub) &&
           query_matches (w_heap w) (qr_query (sub_q sub)) r
        then
          if sub_closed sub then (w, Panic)
          else if (length (sub_Feed sub) <? feed_capacity)%nat
          then (set_subs (<[id := mkSubscription (sub_q sub) (sub_local sub) (sub_internal sub)
                  (sub_Feed sub ++ [r]) (sub_closed sub)]> (w_subs w)) w, Ret tt)
          else (w, Ret tt)
        else (w, Ret tt)
    end.

Definition notifySubscribers (r : loc) : st W db_error unit :=
  λ w, st_iter (send_feed r) (c_subscriptions (w_ctl w)) w.

(** The middle of [Put]: immediate delete, or put (or shadow delete). *)
Definition put_or_delete (r : loc) : st W db_error (option loc) :=
  let$ shadowDelete := st_get (λ w, Ret (c_shadowDelete (w_ctl w))) in
  let$ deleted :=
    (if shadowDelete : bool then st_ret false else st_get (λ w, is_deleted (w_heap w) r)) in
  if deleted : bool then
    let$ key := st_get (λ w, Ret (key_of (w_heap w) r)) in
    let$ _ := on_storage DbErrStorage (storage_Delete key) in
    st_ret (Some r)
  else on_storage DbErrStorage (storage_Put r).

Definition Controller_Put (r : loc) : st W db_error unit :=
  let$ _ := check_shutdown in
  let$ _ := (λ w, (w, if ReadOnly w then Fail DbErrReadOnly else Ret tt)) in
  let$ r := runPrePutHooks r in
  let$ stored := put_or_delete r in
  match stored with
  | None => st_fail DbErrNilRecord
  | Some r => notifySubscribers r
  end.

(** The channels of PutMany as one call with the whole batch. *)
Definition Controller_PutMany (batch : list loc) : st W db_error unit :=
  let$ _ := check_shutdown in
  let$ _ := (λ w, (w, if ReadOnly w then Fail DbErrReadOnly else Ret tt)) in
  match storage_PutMany with
  | Some putMany => λ w, on_storage DbErrStorage (putMany (c_shadowDelete (w_ctl w)) batch) w
  | None => st_fail DbErrNotImplemented
  end.

Definition Controller_Query (now : Z) (q : Query R) (local internal : bool) : st W db_error (list loc) :=
  let$ _ := check_shutdown in
  on_storage DbErrStorage (storage_Query now q local internal).

(** A nil controller does nothing; the receiver here is not nil. *)
Definition PushUpdate (r : loc) : st W db_error unit :=
  λ w, if w_shuttingDown w then (w, Ret tt) else notifySubscribers r w.

Definition addSubscription (id : loc) (w : W) : W :=
  if w_shuttingDown w then w
  else set_subscriptions (c_subscriptions (w_ctl w) ++ [id]) w.

Definition Controller_Maintain : st W db_error unit :=
  let$ _ := check_shutdown in
  match storage_Maintain with
  | Some maintain => on_storage DbErrStorage maintain
  | None => st_ret tt
  end.

Definition Controller_MaintainRecordStates (now purgeDeletedBefore : Z) : st W db_error unit :=
  let$ _ := check_shutdown in
  λ w, on_storage DbErrStorage
    (storage_MaintainRecordStates now purgeDeletedBefore (c_shadowDelete (w_ctl w))) w.

Definition Controller_Purge (now : Z) (q : Query R) (local internal : bool) : st W db_error Z :=
  let$ _ := check_shutdown in
  match storage_Purge with
  | Some purge => λ w, on_storage DbErrStorage (purge now q local internal (c_shadowDelete (w_ctl w))) w
  | None => st_fail DbErrNotImplemented
  end.

Definition Controller_Shutdown : st W db_error unit := on_storage DbErrStorage storage_Shutdown.

(** [RegisterHook] and [Cancel] on the controller of the query's database. *)
Definition Controller_RegisterHook (rh : RegisteredHook V R) (w : W) : W :=
  set_hooks (c_hooks (w_ctl w) ++ [rh]) w.

(** [append(l[:i], l[i+1:]...)] for the first element with the property. *)
Fixpoint remove_first {A : Type} (p : A → bool) (l : list A) : list A :=
  match l with
  | [] => []
  | a :: l' => if p a then l' else a :: remove_first p l'
  end.

Definition Hook_Cancel (rh : RegisteredHook V R) (w : W) : W :=
  set_hooks (remove_first (λ hook, qr_id (rh_q hook) =? qr_id (rh_q rh))%nat (c_hooks (w_ctl w))) w.

(** [Subscription.Cancel] for the subscription at [id]: the first subscription
    of the controller with the same query pointer is removed and the channel
    of [id] is closed; closing a closed channel panics. *)
Definition Subscription_Cancel (id : loc) : st W db_error unit :=
  λ w,
    match w_subs w !! id with
    | None => (w, Ret tt)
    | Some s =>
        let same sub_id :=
          match w_subs w !! sub_id with
          | Some sub => (qr_id (sub_q sub) =? qr_id (sub_q s))%nat
          | None => false
          end in
        let l := c_subscriptions (w_ctl w) in
        if existsb same l then
          if sub_closed s then (set_subscriptions (remove_first same l) w, Panic)
          else (set_subs (<[id := mkSubscription (sub_q s) (sub_local s) (sub_internal s) (sub_Feed s) true]>
                  (w_subs w)) (set_subscriptions (remove_first same l) w), Ret tt)
        else (w, Ret tt)
    end.

End Controller.

(** ** Lemmas *)

Section ControllerLemmas.
Context {V R S : Type} `{!QueryLib R, !StorageInterface V R S}.
Context (accessor_of : V → option Accessor).
Context {stored : S → gmap string loc} `{!StorageLaws V R S stored}.

(** The records of a controller's storage. *)
Definition records (w : world V R S) : gmap string loc := stored (c_storage (w_ctl w)).

(** The usual state: the system runs, no hook takes part and no subscription
    in the list is closed. *)
Definition running (w : world V R S) : Prop :=
  w_shuttingDown w = false ∧
  Forall (λ rh, UsesPreGet (rh_h rh) = false ∧ UsesPostGet (rh_h rh) = false ∧
    UsesPrePut (rh_h rh) = false) (c_hooks (w_ctl w)) ∧
  NoDup (c_subscriptions (w_ctl w)) ∧
  (∀ id sub, id ∈ c_subscriptions (w_ctl w) → w_subs w !! id = Some sub → sub_closed sub = false).

Lemma set_same (w : world V R S) : set_storage (c_storage (w_ctl w)) (set_heap (w_heap w) w) = w.
Proof. by destruct w as [? ? ? []]. Qed.

Lemma on_storage_Get (w : world V R S) (key : string) :
  on_storage replace_not_found (storage_Get key) w =
    (w, match records w !! key with Some r => Ret r | None => Fail DbErrNotFound end).
Proof.
  unfold on_storage. rewrite Get_law. simpl. rewrite set_same. unfold records.
  by destruct (stored _ !! key).
Qed.

Lemma run_record_hooks_idle uses call (hooks : list (RegisteredHook V R)) (r : loc) (w : world V R S) :
  Forall (λ rh, uses (rh_h rh) = false) hooks →
  run_record_hooks accessor_of uses call hooks r w = (w, Ret r).
Proof. intros H. induction H as [|rh hooks Hrh _ IH]; simpl; [done|]. by rewrite Hrh. Qed.

Lemma runPreGetHooks_idle (key : string) (w : world V R S) :
  running w → runPreGetHooks key w = (w, Ret tt).
Proof.
  intros (_ & Hh & _). unfold runPreGetHooks.
  induction Hh as [|rh hooks Hrh _ IH]; simpl; [done|]. destruct Hrh as (-> & _). done.
Qed.

Lemma runPostGetHooks_idle (r : loc) (w : world V R S) :
  running w → runPostGetHooks accessor_of r w = (w, Ret r).
Proof.
  intros (_ & Hh & _). unfold runPostGetHooks. apply run_record_hooks_idle.
  eapply Forall_impl; [exact Hh|]. by intros ? (_ & ? & _).
Qed.

Lemma runPrePutHooks_idle (r : loc) (w : world V R S) :
  running w → runPrePutHooks accessor_of r w = (w, Ret r).
Proof.
  intros (_ & Hh & _). unfold runPrePutHooks. apply run_record_hooks_idle.
  eapply Forall_impl; [exact Hh|]. by intros ? (_ & _ & ?).
Qed.

Lemma check_shutdown_running (w : world V R S) : running w → check_shutdown w = (w, Ret tt).
Proof. intros (H & _). unfold check_shutdown. by rewrite H. Qed.

Lemma Controller_Get_running (now : Z) (key : string) (w : world V R S) :
  running w →
  Controller_Get accessor_of now key w = (w,
    match records w !! key with
    | Some r => if CheckValidity now (meta_of (w_heap w) r) then Ret r else Fail DbErrNotFound
    | None => Fail DbErrNotFound
    end).
Proof.
  intros Hw. unfold Controller_Get.
  rewrite (st_bind_Ret _ _ _ _ _ (check_shutdown_running w Hw)).
  rewrite (st_bind_Ret _ _ _ _ _ (runPreGetHooks_idle key w Hw)).
  unfold st_bind. rewrite on_storage_Get. destruct (records w !! key) as [r|]; [|done].
  rewrite (runPostGetHooks_idle r w Hw). by destruct (CheckValidity now (meta_of (w_heap w) r)).
Qed.

(** What a notification does to one subscription. *)
Definition deliver (h : heap V) (r : loc) (sub : Subscription R) : Subscription R :=
  if CheckPermission (meta_of h r) (sub_local sub) (sub_internal sub) &&
     query_matches accessor_of h (qr_query (sub_q sub)) r &&
     (length (sub_Feed sub) <? feed_capacity)%nat
  then mkSubscription (sub_q sub) (sub_local sub) (sub_internal sub) (sub_Feed sub ++ [r]) (sub_closed sub)
  else sub.

Lemma send_feed_open (r id : loc) (w : world V R S) :
  (∀ sub, w_subs w !! id = Some sub → sub_closed sub = false) →
  send_feed accessor_of r id w =
    (set_subs (alter (deliver (w_heap w) r) id (w_subs w)) w, Ret tt).
Proof.
  intros Hopen. unfold send_feed. destruct (w_subs w !! id) as [sub|] eqn:Hs.
  - assert (∀ x, deliver (w_heap w) r sub = x → alter (deliver (w_heap w) r) id (w_subs w) = <[id := x]> (w_subs w)) as Halt.
    { intros x <-. apply map_eq. intros i. destruct (decide (i = id)) as [->|].
      - by rewrite lookup_alter_eq, lookup_insert_eq, Hs.
      - by rewrite lookup_alter_ne, lookup_insert_ne. }
    rewrite (Halt _ eq_refl). unfold deliver. rewrite (Hopen sub eq_refl).
    assert (∀ w : world V R S, set_subs (w_subs w) w = w) as Hsame by (by intros []).
    destruct (CheckPermission _ _ _ && _); simpl; [|by rewrite insert_id, Hsame].
    destruct (_ <? _)%nat; [done|]. by rewrite insert_id, Hsame.
  - rewrite alter_id'; [by destruct w|done].
Qed.

Lemma notify_open (r : loc) (l : list loc) (w : world V R S) :
  NoDup l → (∀ id sub, id ∈ l → w_subs w !! id = Some sub → sub_closed sub = false) →
  ∃ subs', st_iter (send_feed accessor_of r) l w = (set_subs subs' w, Ret tt) ∧
    (∀ id, id ∉ l → subs' !! id = w_subs w !! id) ∧
    (∀ id, id ∈ l → subs' !! id = deliver (w_heap w) r <$> w_subs w !! id).
Proof.
  revert w. induction l as [|id l IH]; intros w Hnd Hopen.
  { exists (w_subs w). split_and!; [by destruct w|done|]. intros id H. by apply elem_of_nil in H. }
  apply NoDup_cons in Hnd as [Hid Hnd]. cbn [st_iter].
  rewrite (st_bind_Ret _ _ _ _ _ (send_feed_open r id w
    (λ sub, Hopen id sub (proj2 (elem_of_cons _ _ _) (or_introl eq_refl))))).
  destruct (IH (set_subs (alter (deliver (w_heap w) r) id (w_subs w)) w)) as (subs' & Hrun & Hout & Hin).
  { done. }
  { intros id' sub Hid' Hsub. simpl in Hsub. rewrite lookup_alter_ne in Hsub by (intros ->; done).
    apply (Hopen id' sub); [|done]. apply elem_of_cons. by right. }
  exists subs'. split_and!; [done| |].
  - intros id' Hid'. apply not_elem_of_cons in Hid' as [Hne Hid']. rewrite Hout by done. simpl.
    by rewrite lookup_alter_ne by congruence.
  - intros id' Hid'. destruct (decide (id' = id)) as [->|Hne].
    + rewrite Hout by done. simpl. by rewrite lookup_alter_eq.
    + apply elem_of_cons in Hid' as [|Hid']; [done|]. rewrite Hin by done. simpl.
      by rewrite lookup_alter_ne by congruence.
Qed.

Lemma Put_storage (r : loc) (m : Meta) (w : world V R S) :
  meta_of (w_heap w) r = Some m →
  let removed := negb (c_shadowDelete (w_ctl w)) && IsDeleted m in
  ∃ s, put_or_delete r w = (set_storage s w, Ret (Some r)) ∧
  stored s = (if removed then delete (key_of (w_heap w) r) (records w)
              else <[key_of (w_heap w) r := r]> (records w)) ∧
  storage_ReadOnly (V := V) (R := R) s = storage_ReadOnly (V := V) (R := R) (c_storage (w_ctl w)).
Proof.
  intros Hm. cbv zeta. unfold put_or_delete, st_bind, st_get, st_ret, on_storage, is_deleted.
  destruct (c_shadowDelete (w_ctl w)) eqn:Hs; cbn.
  - destruct (Put_law (w_heap w) (c_storage (w_ctl w)) r) as (s' & -> & H1 & H2). exists s'.
    split_and!; [by destruct w|done|done].
  - rewrite Hm. cbn. destruct (IsDeleted m); cbn.
    + destruct (Delete_law (w_heap w) (c_storage (w_ctl w)) (key_of (w_heap w) r)) as (s' & -> & H1 & H2).
      exists s'. split_and!; [by destruct w|done|done].
    + destruct (Put_law (w_heap w) (c_storage (w_ctl w)) r) as (s' & -> & H1 & H2). exists s'.
      split_and!; [by destruct w|done|done].
Qed.

(** The whole effect of [Put] on a running controller. *)
Lemma Controller_Put_running (r : loc) (m : Meta) (w : world V R S) :
  running w → ReadOnly w = false → meta_of (w_heap w) r = Some m →
  ∃ s subs', Controller_Put accessor_of r w = (set_subs subs' (set_storage s w), Ret tt) ∧
    stored s = (if negb (c_shadowDelete (w_ctl w)) && IsDeleted m
                then delete (key_of (w_heap w) r) (records w)
                else <[key_of (w_heap w) r := r]> (records w)) ∧
    (∀ id, id ∉ c_subscriptions (w_ctl w) → subs' !! id = w_subs w !! id) ∧
    (∀ id, id ∈ c_subscriptions (w_ctl w) → subs' !! id = deliver (w_heap w) r <$> w_subs w !! id) ∧
    running (set_subs subs' (set_storage s w)) ∧ ReadOnly (set_subs subs' (set_storage s w)) = false.
Proof.
  intros Hw Hro Hm. unfold Controller_Put.
  rewrite (st_bind_Ret _ _ _ _ _ (check_shutdown_running w Hw)).
  rewrite (st_bind_Ret _ _ w w tt) by (by rewrite Hro).
  rewrite (st_bind_Ret _ _ _ _ _ (runPrePutHooks_idle r w Hw)).
  destruct (Put_storage r m w Hm) as (s & Hput & Hs & Hro').
  pose proof Hw as (_ & _ & Hnd & Hopen).
  destruct (notify_open r (c_subscriptions (w_ctl w)) (set_storage s w)) as (subs' & Hn & Hout & Hin); [done|done|].
  exists s, subs'. split; [by rewrite (st_bind_Ret _ _ _ _ _ Hput)|].
  destruct Hw as (Hw1 & Hw2 & _). split; [done|]. split; [done|]. split; [done|]. split.
  - split_and!; [done|done|done|]. intros id sub Hid Hsub. simpl in Hid, Hsub.
    rewrite Hin in Hsub by done. apply fmap_Some in Hsub as (sub0 & Hsub0 & ->).
    specialize (Hopen id sub0 Hid Hsub0). unfold deliver. by destruct (_ && _ && _).
  - unfold ReadOnly in *. simpl. by rewrite Hro'.
Qed.
End ControllerLemmas.

(** ** A small world for the witnesses *)

Definition no_accessor : unit → option Accessor := λ _, None.

#[local] Instance example_storage : StorageInterface unit string HashMap := HashMap_storage no_accessor.

Definition example_query : query_ref string := mkQueryRef 7%nat (mkQuery true "test" "" None "" 0 0).

Definition example_subs : gmap loc (Subscription string) :=
  {[ 1%nat := mkSubscription example_query true true [] false;
     2%nat := mkSubscription example_query true false [] false ]}.

Definition example_world (m : Meta) : world unit string HashMap :=
  mkWorld false (example_heap m) example_subs
    (mkController "test" (NewHashMap "test") false [] [1%nat; 2%nat]).

Lemma example_running (m : Meta) : running (example_world m).
Proof.
  split_and!; [done|done| |].
  - apply NoDup_cons. split; [set_solver|]. apply NoDup_cons. split; [set_solver|constructor].
  - intros id sub Hid Hsub. unfold example_world, example_subs in *. simpl in *.
    rewrite lookup_insert_Some in Hsub. destruct Hsub as [[_ <-]|[_ Hsub]]; [done|].
    by apply lookup_singleton_Some in Hsub as [_ <-].
Qed.

(** ** Properties *)



(** Notifications: a successful [Put] appends the record to the feed of
    exactly those subscriptions of the controller whose permissions allow it,
    whose query matches it and whose channel has room; nothing else
    changes. *)
Theorem controller_put_notifies {V R S : Type} `{!QueryLib R, !StorageInterface V R S}
    (accessor_of : V → option Accessor) (stored : S → gmap string loc) `{!StorageLaws V R S stored}
    (r : loc) (m : Meta) (w : world V R S) (id : loc) (sub : Subscription R) :
  running w → ReadOnly w = false → meta_of (w_heap w) r = Some m → w_subs w !! id = Some sub →
  let sends := bool_decide (id ∈ c_subscriptions (w_ctl w)) &&
    CheckPermission (Some m) (sub_local sub) (sub_internal sub) &&
    query_matches accessor_of (w_heap w) (qr_query (sub_q sub)) r &&
    (length (sub_Feed sub) <? feed_capacity)%nat in
  ∃ w', Controller_Put accessor_of r w = (w', Ret tt) ∧
    w_subs w' !! id = Some (mkSubscription (sub_q sub) (sub_local sub) (sub_internal sub)
      (sub_Feed sub ++ (if sends then [r] else [])) (sub_closed sub)).
Proof.
  intros Hw Hro Hm Hsub. cbv zeta. destruct (Controller_Put_running accessor_of r m w Hw Hro Hm)
    as (s & subs' & Hput & _ & Hout & Hin & _).
  exists (set_subs subs' (set_storage s w)). split; [done|]. simpl. case_bool_decide as Hid.
  - rewrite Hin, Hsub by done. simpl. unfold deliver. rewrite Hm.
    destruct (_ && _ && _); [done|]. rewrite app_nil_r. by destruct sub.
  - rewrite Hout, Hsub by done. simpl. rewrite app_nil_r. by destruct sub.
Qed.

Lemma controller_put_notifies_witness :
  ∃ w', Controller_Put no_accessor 0%nat (example_world zeroMeta) = (w', Ret tt) ∧
    w_subs w' !! 1%nat = Some (mkSubscription example_query true true ([] ++ [0%nat]) false).
Proof.
  apply (controller_put_notifies no_accessor hm_db 0%nat zeroMeta (example_world zeroMeta) 1%nat
    (mkSubscription example_query true true [] false)); [apply example_running|done|done|done].
Defined.

(** Hooks can veto: when the pre-put hook that matches the record returns
    an error, [Put] returns it and neither the storage nor any feed
    changes. *)
Theorem prePut_hook_veto {V R S : Type} `{!QueryLib R, !StorageInterface V R S}
    (accessor_of : V → option Accessor) (r : loc) (w : world V R S)
    (hook : RegisteredHook V R) (rest : list (RegisteredHook V R)) (h' : heap V) (err : string) :
  w_shuttingDown w = false → ReadOnly w = false → c_hooks (w_ctl w) = hook :: rest →
  UsesPrePut (rh_h hook) = true →
  query_matches accessor_of (w_heap w) (qr_query (rh_q hook)) r = true →
  PrePut (rh_h hook) r (w_heap w) = (h', inl err) →
  Controller_Put accessor_of r w = (set_heap h' w, Fail (DbErrHook err)).
Proof.
  intros Hsd Hro Hhooks Huses Hmatch Hcall. unfold Controller_Put.
  rewrite (st_bind_Ret _ _ w w tt) by (unfold check_shutdown; by rewrite Hsd).
  rewrite (st_bind_Ret _ _ w w tt) by (by rewrite Hro).
  apply st_bind_Fail. unfold runPrePutHooks. rewrite Hhooks. simpl. by rewrite Huses, Hmatch, Hcall.
Qed.

Definition veto_hook : RegisteredHook unit string :=
  mkRegisteredHook example_query
    (mkHook unit false (λ _, None) false (λ r h, (h, inr r)) true (λ r h, (h, inl "denied"%string))).

Lemma prePut_hook_veto_witness :
  let w := set_hooks [veto_hook] (example_world zeroMeta) in
  Controller_Put no_accessor 0%nat w = (set_heap (w_heap w) w, Fail (DbErrHook "denied")).
Proof.
  apply (prePut_hook_veto no_accessor 0%nat (set_hooks [veto_hook] (example_world zeroMeta)) veto_hook []);
    done.
Defined.

(** Two subscriptions with the same query pointer: cancelling the second
    removes the first from the list and closes the second's channel, so the
    next matching [Put] sends on a closed channel and panics. *)
Theorem cancel_shared_query_panics {V R S : Type} `{!QueryLib R, !StorageInterface V R S}
    (accessor_of : V → option Accessor) (stored : S → gmap string loc) `{!StorageLaws V R S stored}
    (r : loc) (m : Meta) (w : world V R S) (id1 id2 : loc) (s1 s2 : Subscription R) :
  running w → ReadOnly w = false → meta_of (w_heap w) r = Some m →
  c_subscriptions (w_ctl w) = [id1; id2] →
  w_subs w !! id1 = Some s1 → w_subs w !! id2 = Some s2 → qr_id (sub_q s1) = qr_id (sub_q s2) →
  CheckPermission (Some m) (sub_local s2) (sub_internal s2) = true →
  query_matches accessor_of (w_heap w) (qr_query (sub_q s2)) r = true →
  ∃ w', Subscription_Cancel id2 w = (w', Ret tt) ∧ c_subscriptions (w_ctl w') = [id2] ∧
    (Controller_Put accessor_of r w').2 = Panic.
Proof.
  intros Hw Hro Hm Hl H1 H2 Hq Hperm Hmatch. pose proof Hw as (Hsd & Hh & Hnd & Hopen).
  assert (sub_closed s2 = false) as Hc.
  { apply (Hopen id2); [|done]. rewrite Hl. set_solver. }
  unfold Subscription_Cancel. rewrite H2, Hl. cbn [existsb remove_first]. rewrite H1, Hq, Nat.eqb_refl.
  cbn [orb]. rewrite Hc. eexists. split_and!; [done|done|].
  set (w' := set_subs _ _). unfold Controller_Put.
  rewrite (st_bind_Ret _ _ w' w' tt) by (unfold check_shutdown; simpl; by rewrite Hsd).
  rewrite (st_bind_Ret _ _ w' w' tt) by (by unfold ReadOnly in *; simpl; rewrite Hro).
  rewrite (st_bind_Ret _ _ w' w' r).
  - destruct (Put_storage (stored := stored) r m w') as (s & Hput & _); [done|].
    assert ((notifySubscribers accessor_of r (set_storage s w')).2 = Panic) as Hpanic.
    { unfold notifySubscribers. simpl. unfold st_bind, send_feed. simpl.
      rewrite lookup_insert_eq. simpl. rewrite Hm, Hperm. unfold query_matches in *. simpl.
      by rewrite Hmatch. }
    by rewrite (st_bind_Ret _ _ _ _ _ Hput).
  - unfold runPrePutHooks. apply run_record_hooks_idle. eapply Forall_impl; [exact Hh|]. by intros ? (_ & _ & ?).
Qed.

Lemma cancel_shared_query_panics_witness :
  ∃ w', Subscription_Cancel 2%nat (example_world zeroMeta) = (w', Ret tt) ∧
    c_subscriptions (w_ctl w') = [2%nat] ∧ (Controller_Put no_accessor 0%nat w').2 = Panic.
Proof.
  apply (cancel_shared_query_panics no_accessor hm_db 0%nat zeroMeta (example_world zeroMeta) 1%nat 2%nat
    (mkSubscription example_query true true [] false) (mkSubscription example_query true false [] false));
    try done. apply example_running.
Defined.
