(* ===== verification/Interface.v ===== *)
(** * database: controllers of the system, registry and interfaces

    controllers.go, registry.go, database.go, interface.go and
    interface_cache.go. The state of the package is a [System]: the flags, the
    started controllers, the registry, the heap of records and the
    subscriptions. An interface is its options, its cache and its write cache.
    The cache library (gcache) is the class [Cache]: every call returns also
    the keys for which it ran the evict callback. Starting a storage (file
    system and factory) is the parameter [start_storage]; setting an attribute
    through an accessor is [set_value]. Channels and timeouts of PutMany are
    one call with the whole batch. *)

From Stdlib Require Import ZArith Lia Ascii String.
From S2P Require Import Prelude GoStrings Record Query Storage Controller.
Local Open Scope Z_scope.

(** ** database.go, registry.go *)

Record Database : Type := mkDatabase {
  db_Name : string;
  db_Description : string;
  db_StorageType : string;
  db_ShadowDelete : bool;
  db_Registered : Z;
  db_LastUpdated : Z;
  db_LastLoaded : Z;
}.

Definition StorageTypeInjected : string := "injected".

(** The pattern [^[A-Za-z0-9_-]{3,}$] of database names. *)
Definition name_char (a : ascii) : bool :=
  let n := nat_of_ascii a in
  ((65 <=? n) && (n <=? 90) || (97 <=? n) && (n <=? 122) || (48 <=? n) && (n <=? 57)
   || (n =? 95) || (n =? 45))%nat.

Definition nameConstraint (name : string) : bool :=
  all_bytes name_char name && (3 <=? String.length name)%nat.

(** ** gcache *)

Class Cache (C : Type) := {
  cache_New : Z → C;
  cache_Get : Z → string → C → C * list string * option loc;
  cache_Set : string → loc → C → C * list string;
  cache_SetWithExpire : Z → string → loc → Z → C → C * list string;
  cache_Remove : string → C → C * list string;
  cache_Purge : C → C;
}.

Record System (V R S : Type) : Type := mkSystem {
  sys_initialized : bool;
  sys_shuttingDown : bool;
  sys_controllers : gmap string (Controller V R S);
  sys_registry : gmap string Database;
  sys_heap : heap V;
  sys_subs : gmap loc (Subscription R);
}.
Arguments mkSystem {V R S}.
Arguments sys_initialized {V R S} _.
Arguments sys_shuttingDown {V R S} _.
Arguments sys_controllers {V R S} _.
Arguments sys_registry {V R S} _.
Arguments sys_heap {V R S} _.
Arguments sys_subs {V R S} _.

(** ** interface.go: options *)

Record Options : Type := mkOptions {
  Local : bool;
  Internal : bool;
  AlwaysMakeSecret : bool;
  AlwaysMakeCrownjewel : bool;
  AlwaysSetRelativateExpiry : Z;
  AlwaysSetAbsoluteExpiry : Z;
  CacheSize : Z;
  DelayCachedWrites : string;
}.

Definition zeroOptions : Options := mkOptions false false false false 0 0 0 "".

Definition HasAllPermissions (o : Options) : bool := Local o && Internal o.

Record Interface (C : Type) : Type := mkInterface {
  i_options : Options;
  i_cache : option C;
  i_writeCache : gmap string loc;
}.
Arguments mkInterface {C}.
Arguments i_options {C} _.
Arguments i_cache {C} _.
Arguments i_writeCache {C} _.

(** A nil pointer to options is [None]. *)
Definition NewInterface {C : Type} `{!Cache C} (opts : option Options) : Interface C :=
  let opts := default zeroOptions opts in
  mkInterface opts (if 0 <? CacheSize opts then Some (cache_New (CacheSize opts)) else None) ∅.

Section Options.
Context {V : Type}.

Definition Options_Apply (now : Z) (o : Options) (r : loc) (h : heap V) : heap V :=
  let h := update_base (UpdateMeta now) r h in
  let h := if AlwaysMakeSecret o then update_meta MakeSecret r h else h in
  let h := if AlwaysMakeCrownjewel o then update_meta MakeCrownJewel r h else h in
  if 0 <? AlwaysSetAbsoluteExpiry o
  then update_meta (Record.SetAbsoluteExpiry (AlwaysSetAbsoluteExpiry o)) r h
  else if 0 <? AlwaysSetRelativateExpiry o
  then update_meta (Record.SetRelativateExpiry (AlwaysSetRelativateExpiry o)) r h
  else h.

Definition hasAccessPermission (o : Options) (h : heap V) (r : loc) : bool :=
  if HasAllPermissions o then true
  else CheckPermission (meta_of h r) (Local o) (Internal o).

End Options.

Section Interface.
Context {V R S C : Type} `{!QueryLib R, !StorageInterface V R S, !Cache C}.
Context (accessor_of : V → option Accessor).
Context (start_storage : string → string → go db_error S).
Context (set_value : V → string → value → string + V).

Abbreviation W := (world V R S).
Abbreviation SYS := (System V R S).

(** The state of an interface method. *)
Abbreviation I := (SYS * Interface C)%type.

Definition set_sys_heap (h : heap V) (sys : SYS) : SYS :=
  mkSystem (sys_initialized sys) (sys_shuttingDown sys) (sys_controllers sys) (sys_registry sys) h
    (sys_subs sys).

Definition set_controllers (cs : gmap string (Controller V R S)) (sys : SYS) : SYS :=
  mkSystem (sys_initialized sys) (sys_shuttingDown sys) cs (sys_registry sys) (sys_heap sys) (sys_subs sys).

Definition set_registry (reg : gmap string Database) (sys : SYS) : SYS :=
  mkSystem (sys_initialized sys) (sys_shuttingDown sys) (sys_controllers sys) reg (sys_heap sys) (sys_subs sys).

(** ** registry.go *)

(** A registered database is returned when there was one, else nil. Writing
    the registry file is not modelled. *)
Definition Registry_Register (now : Z) (registryPersistence : bool) (db : Database) : st SYS db_error (option Database) :=
  λ sys,
    if negb (sys_initialized sys) then (sys, Fail DbErrNotInitialized)
    else
      match sys_registry sys !! db_Name db with
      | Some reg =>
          let changed := negb (String.eqb (db_Description reg) (db_Description db)) ||
                         negb (Bool.eqb (db_ShadowDelete reg) (db_ShadowDelete db)) in
          let reg' := mkDatabase (db_Name reg) (db_Description db) (db_StorageType reg)
            (db_ShadowDelete db) (db_Registered reg)
            (if changed && registryPersistence then now else db_LastUpdated reg) (db_LastLoaded reg) in
          (set_registry (<[db_Name db := reg']> (sys_registry sys)) sys, Ret (Some reg'))
      | None =>
          if negb (nameConstraint (db_Name db)) then (sys, Fail DbErrName)
          else (set_registry (<[db_Name db := mkDatabase (db_Name db) (db_Description db)
                  (db_StorageType db) (db_ShadowDelete db) now now 0]> (sys_registry sys)) sys, Ret None)
      end.

Definition getDatabase (now : Z) (name : string) : st SYS db_error Database :=
  λ sys,
    match sys_registry sys !! name with
    | None => (sys, Fail (DbErrNotRegistered name))
    | Some reg =>
        let reg' := mkDatabase (db_Name reg) (db_Description reg) (db_StorageType reg)
          (db_ShadowDelete reg) (db_Registered reg) (db_LastUpdated reg) now in
        (set_registry (<[name := reg']> (sys_registry sys)) sys, Ret reg')
    end.

(** ** controllers.go *)

(** A started controller is in the map afterwards; its name stands for the
    pointer. *)
Definition getController (now : Z) (name : string) : st SYS db_error string :=
  λ sys,
    if negb (sys_initialized sys) then (sys, Fail DbErrNotInitialized)
    else
      match sys_controllers sys !! name with
      | Some _ => (sys, Ret name)
      | None =>
          if sys_shuttingDown sys then (sys, Fail DbErrShuttingDown)
          else (
            let$ reg := getDatabase now name in
            if String.eqb (db_StorageType reg) StorageTypeInjected then st_fail DbErrNotInjected
            else
              let$ storageInt := st_get (λ _, start_storage name (db_StorageType reg)) in
              let$ _ := st_mod (λ sys, set_controllers (<[name :=
                newController name storageInt (db_ShadowDelete reg)]> (sys_controllers sys)) sys) in
              st_ret name) sys
      end.

Definition InjectDatabase (name : string) (storageInt : S) : st SYS db_error string :=
  λ sys,
    if sys_shuttingDown sys then (sys, Fail DbErrShuttingDown)
    else
      match sys_controllers sys !! name with
      | Some _ => (sys, Fail (DbErrAlreadyLoaded name))
      | None =>
          match sys_registry sys !! name with
          | None => (sys, Fail (DbErrNotRegistered name))
          | Some reg =>
              if negb (String.eqb (db_StorageType reg) StorageTypeInjected) then (sys, Fail DbErrWrongType)
              else (set_controllers (<[name := newController name storageInt false]>
                     (sys_controllers sys)) sys, Ret name)
          end
      end.

(** [Withdraw] of the controller with this name. *)
Definition Withdraw (name : string) (sys : SYS) : SYS :=
  match sys_controllers sys !! name with
  | Some c =>
      if storage_Injected (V := V) (R := R) (c_storage c)
      then set_controllers (delete (c_name c) (sys_controllers sys)) sys
      else sys
  | None => sys
  end.

(** A method call on the controller with this name. *)
Definition on_controller {A : Type} (name : string) (m : st W db_error A) : st SYS db_error A :=
  λ sys,
    match sys_controllers sys !! name with
    | None => (sys, Panic)
    | Some c =>
        let '(w, r) := m (mkWorld (sys_shuttingDown sys) (sys_heap sys) (sys_subs sys) c) in
        (mkSystem (sys_initialized sys) (sys_shuttingDown sys)
           (<[name := w_ctl w]> (sys_controllers sys)) (sys_registry sys) (w_heap w) (w_subs w), r)
    end.

(** ** Access to the two parts of the state *)

Definition on_sys {A : Type} (m : st SYS db_error A) : st I db_error A :=
  λ '(sys, i), let '(sys', r) := m sys in ((sys', i), r).

Definition set_cache (c : option C) (i : Interface C) : Interface C :=
  mkInterface (i_options i) c (i_writeCache i).

Definition set_writeCache (wc : gmap string loc) (i : Interface C) : Interface C :=
  mkInterface (i_options i) (i_cache i) wc.

Definition mod_heap (f : heap V → heap V) : st I db_error unit :=
  st_mod (λ '(sys, i), (set_sys_heap (f (sys_heap sys)) sys, i)).

Definition get_heap {A : Type} (f : heap V → A) : st I db_error A :=
  st_get (λ s, Ret (f (sys_heap s.1))).

Definition get_options {A : Type} (f : Options → A) : st I db_error A :=
  st_get (λ s, Ret (f (i_options s.2))).

(** [db.ReadOnly()] *)
Definition db_ReadOnly (db : string) : st I db_error bool :=
  on_sys (on_controller db (λ w, (w, Ret (ReadOnly w)))).

Definition check_readonly (db : string) : st I db_error unit :=
  let$ ro := db_ReadOnly db in
  if ro : bool then st_fail DbErrReadOnly else st_ret tt.

(** ** interface_cache.go *)

(** The callback: the write-cached record is written to its database. Errors
    are only logged. *)
Definition cacheEvictHandler (now : Z) (key : string) : st I db_error unit :=
  λ '(sys, i),
    match i_writeCache i !! key with
    | None => ((sys, i), Ret tt)
    | Some r =>
        let i := set_writeCache (delete key (i_writeCache i)) i in
        match getController now (DatabaseName (base_of (sys_heap sys) r)) sys with
        | (sys, Fail _) => ((sys, i), Ret tt)
        | (sys, Panic) => ((sys, i), Panic)
        | (sys, Ret db) =>
            match on_controller db (Controller_Put accessor_of r) sys with
            | (sys, Panic) => ((sys, i), Panic)
            | (sys, _) => ((sys, i), Ret tt)
            end
        end
    end.

(** The callback is set only with delayed writes. *)
Definition run_evictions (now : Z) (evicted : list string) : st I db_error unit :=
  let$ delay := get_options DelayCachedWrites in
  if String.eqb delay "" then st_ret tt else st_iter (cacheEvictHandler now) evicted.

Definition checkCache (now : Z) (key : string) : st I db_error (option loc) :=
  λ '(sys, i),
    match i_cache i with
    | None => ((sys, i), Ret None)
    | Some c =>
        let '(c, evicted, r) := cache_Get now key c in
        (let$ _ := run_evictions now evicted in st_ret r) (sys, set_cache (Some c) i)
    end.

(** Without delayed writes the write cache is a nil map, and writing to it
    panics. *)
Definition updateCache (now : Z) (r : loc) (write remove : bool) (ttl : Z) : st I db_error bool :=
  λ '(sys, i),
    match i_cache i with
    | None => ((sys, i), Ret false)
    | Some c =>
        let key := Base_Key (base_of (sys_heap sys) r) in
        if remove then
          let '(c, evicted) := cache_Remove key c in
          (let$ _ := run_evictions now evicted in st_ret false) (sys, set_cache (Some c) i)
        else
          let '(c, evicted) :=
            if 0 <=? ttl then cache_SetWithExpire now key r ttl c else cache_Set key r c in
          (let$ _ := run_evictions now evicted in
           λ '(sys, i),
             if write && String.eqb (DatabaseName (base_of (sys_heap sys) r)) (DelayCachedWrites (i_options i))
             then if String.eqb (DelayCachedWrites (i_options i)) "" then ((sys, i), Panic)
                  else ((sys, set_writeCache (<[key := r]> (i_writeCache i)) i), Ret true)
             else ((sys, i), Ret false)) (sys, set_cache (Some c) i)
    end.

(** ** interface.go: the operations *)

(** The batch function of [PutMany] with a whole batch: records outside the
    database are refused one by one, the others get the options applied and
    go to the storage's batch. *)
Definition Interface_PutMany (now : Z) (dbName : string) (batch : list loc) : st I db_error unit :=
  let$ all := get_options HasAllPermissions in
  if negb all then st_fail DbErrPermissionDenied
  else
    let$ db := on_sys (getController now dbName) in
    let$ _ := check_readonly db in
    let$ o := get_options id in
    let$ h := get_heap id in
    let in_scope := filter (λ r, DatabaseName (base_of h r) = dbName) batch in
    let$ _ := mod_heap (λ h, foldl (λ h r, Options_Apply now o r h) h in_scope) in
    on_sys (on_controller db (Controller_PutMany in_scope)).

(** Errors of the batch are only logged. *)
Definition flushWriteCache (now percentThreshold : Z) : st I db_error unit :=
  λ '(sys, i),
    let n := Z.of_nat (size (i_writeCache i)) in
    if n =? 0 then ((sys, i), Ret tt)
    else if CacheSize (i_options i) =? 0 then ((sys, i), Panic)
    else if Z.quot (n * 100) (CacheSize (i_options i)) <? percentThreshold then ((sys, i), Ret tt)
    else
      match Interface_PutMany now (DelayCachedWrites (i_options i)) (snd <$> map_to_list (i_writeCache i)) (sys, i) with
      | (s, Panic) => (s, Panic)
      | ((sys, i), _) => ((sys, set_writeCache ∅ i), Ret tt)
      end.

Definition ClearCache : st I db_error unit :=
  st_mod (λ '(sys, i), (sys, set_cache (cache_Purge <$> i_cache i) i)).

Definition FlushCache (now : Z) : st I db_error unit :=
  let$ delay := get_options DelayCachedWrites in
  if negb (String.eqb delay "") then st_ret tt
  else flushWriteCache now 0.

(** The database is returned with the record. *)
Definition getRecord (now : Z) (dbName dbKey : string) (mustBeWriteable : bool)
    : st I db_error (loc * string) :=
  let '(dbName, dbKey) := if String.eqb dbName "" then ParseKey dbKey else (dbName, dbKey) in
  let$ db := on_sys (getController now dbName) in
  let$ _ := (if mustBeWriteable then check_readonly db else st_ret tt) in
  let$ cached := checkCache now (dbName ++ ":" ++ dbKey) in
  let$ o := get_options id in
  match cached with
  | Some r =>
      let$ permitted := get_heap (λ h, hasAccessPermission o h r) in
      if negb permitted then st_fail DbErrPermissionDenied else st_ret (r, db)
  | None =>
      let$ r := on_sys (on_controller db (Controller_Get accessor_of now dbKey)) in
      let$ permitted := get_heap (λ h, hasAccessPermission o h r) in
      if negb permitted then st_fail DbErrPermissionDenied
      else
        let$ m := get_heap (λ h, meta_of h r) in
        match m with
        | None => λ s, (s, Panic)
        | Some m =>
            let$ _ := updateCache now r false false (GetRelativeExpiry now m) in
            st_ret (r, db)
        end
  end.

Definition getMeta (now : Z) (dbName dbKey : string) (mustBeWriteable : bool)
    : st I db_error (option Meta * string) :=
  let '(dbName, dbKey) := if String.eqb dbName "" then ParseKey dbKey else (dbName, dbKey) in
  let$ db := on_sys (getController now dbName) in
  let$ _ := (if mustBeWriteable then check_readonly db else st_ret tt) in
  let$ cached := checkCache now (dbName ++ ":" ++ dbKey) in
  let$ o := get_options id in
  match cached with
  | Some r =>
      let$ permitted := get_heap (λ h, hasAccessPermission o h r) in
      if negb permitted then st_fail DbErrPermissionDenied
      else let$ m := get_heap (λ h, meta_of h r) in st_ret (m, db)
  | None =>
      let$ m := on_sys (on_controller db (Controller_GetMeta now dbKey)) in
      if negb (CheckPermission m (Local o) (Internal o)) then st_fail DbErrPermissionDenied
      else st_ret (m, db)
  end.

Definition Interface_Get (now : Z) (key : string) : st I db_error loc :=
  let$ (r, _) := getRecord now "" key false in st_ret r.

Definition Interface_Exists (now : Z) (key : string) : st I db_error bool :=
  st_catch (let$ _ := Interface_Get now key in st_ret true)
    (λ e, match e with
          | DbErrNotFound => st_ret false
          | DbErrPermissionDenied => st_ret true
          | e => st_fail e
          end).

(** The methods that load a record, change it and put it back. *)
Definition change_record (now : Z) (key : string) (change : loc → heap V → heap V) : st I db_error unit :=
  let$ (r, db) := getRecord now "" key true in
  let$ o := get_options id in
  let$ _ := mod_heap (Options_Apply now o r) in
  let$ _ := mod_heap (change r) in
  on_sys (on_controller db (Controller_Put accessor_of r)).

Definition Interface_SetAbsoluteExpiry (now : Z) (key : string) (time : Z) : st I db_error unit :=
  change_record now key (update_meta (Record.SetAbsoluteExpiry time)).

Definition Interface_SetRelativateExpiry (now : Z) (key : string) (duration : Z) : st I db_error unit :=
  change_record now key (update_meta (Record.SetRelativateExpiry duration)).

Definition Interface_MakeSecret (now : Z) (key : string) : st I db_error unit :=
  change_record now key (update_meta MakeSecret).

Definition Interface_MakeCrownJewel (now : Z) (key : string) : st I db_error unit :=
  change_record now key (update_meta MakeCrownJewel).

Definition Interface_Delete (now : Z) (key : string) : st I db_error unit :=
  let$ (r, db) := getRecord now "" key true in
  let$ _ := check_readonly db in
  let$ o := get_options id in
  let$ _ := mod_heap (Options_Apply now o r) in
  let$ _ := mod_heap (update_meta (Meta_Delete now) r) in
  on_sys (on_controller db (Controller_Put accessor_of r)).

Definition InsertValue (now : Z) (key attribute : string) (v : value) : st I db_error unit :=
  let$ (r, db) := getRecord now "" key true in
  let$ o := get_heap (λ h, h !! r) in
  match o with
  | None => λ s, (s, Panic)
  | Some obj =>
      match set_value (o_value obj) attribute v with
      | inl err => st_fail (DbErrAccessor err)
      | inr v' =>
          let$ _ := mod_heap (<[r := mkObject (o_base obj) v']>) in
          let$ opts := get_options id in
          let$ _ := mod_heap (Options_Apply now opts r) in
          on_sys (on_controller db (Controller_Put accessor_of r))
      end
  end.

(** The first part of [Put] and [PutNew]: permission and database. *)
Definition put_database (now : Z) (r : loc) : st I db_error string :=
  let$ b := get_heap (λ h, base_of h r) in
  let$ all := get_options HasAllPermissions in
  if negb all then
    st_catch
      (let$ (_, db) := getMeta now (DatabaseName b) (DatabaseKey b) true in st_ret db)
      (λ e, match e with
            | DbErrNotFound =>
                st_ret (if String.eqb (DatabaseName b) "" then fst (ParseKey (DatabaseKey b)) else DatabaseName b)
            | e => st_fail e
            end)
  else on_sys (getController now (DatabaseName b)).

(** The common rest: options, cache, storage. *)
Definition put_record (now : Z) (r : loc) (reset : bool) : st I db_error unit :=
  let$ db := put_database now r in
  let$ _ := check_readonly db in
  let$ o := get_options id in
  let$ _ := mod_heap (λ h, if reset then update_meta Meta_Reset r h else h) in
  let$ _ := mod_heap (Options_Apply now o r) in
  let$ m := get_heap (λ h, meta_of h r) in
  match m with
  | None => λ s, (s, Panic)
  | Some m =>
      let$ written := updateCache now r true (IsDeleted m) (GetRelativeExpiry now m) in
      if written : bool then st_ret tt
      else on_sys (on_controller db (Controller_Put accessor_of r))
  end.

Definition Interface_Put (now : Z) (r : loc) : st I db_error unit := put_record now r false.

Definition Interface_PutNew (now : Z) (r : loc) : st I db_error unit := put_record now r true.

Definition Interface_Query (now : Z) (q : Query R) : st I db_error (list loc) :=
  match Query_Check q with
  | (_, Fail err) => st_fail (DbErrQuery err)
  | (_, Panic) => λ s, (s, Panic)
  | (q, Ret _) =>
      let$ db := on_sys (getController now (q_dbName q)) in
      let$ o := get_options id in
      on_sys (on_controller db (Controller_Query now q (Local o) (Internal o)))
  end.

Definition Interface_Purge (now : Z) (q : Query R) : st I db_error Z :=
  match Query_Check q with
  | (_, Fail err) => st_fail (DbErrQuery err)
  | (_, Panic) => λ s, (s, Panic)
  | (q, Ret _) =>
      let$ db := on_sys (getController now (q_dbName q)) in
      let$ _ := check_readonly db in
      let$ o := get_options id in
      on_sys (on_controller db (Controller_Purge now q (Local o) (Internal o)))
  end.

(** [id] is the location of the new subscription object. *)
Definition Subscribe (now : Z) (q : query_ref R) (id : loc) : st I db_error loc :=
  match Query_Check (qr_query q) with
  | (_, Fail err) => st_fail (DbErrQuery err)
  | (_, Panic) => λ s, (s, Panic)
  | (q', Ret _) =>
      let$ db := on_sys (getController now (q_dbName q')) in
      let$ o := get_options (λ o, o) in
      on_sys (on_controller db (λ w, (addSubscription id (set_subs (<[id :=
        mkSubscription (mkQueryRef (qr_id q) q') (Local o) (Internal o) [] false]> (w_subs w)) w), Ret id)))
  end.

End Interface.

(** ** Lemmas *)

Section InterfaceLemmas.
Context {V R S C : Type} `{!QueryLib R, !StorageInterface V R S, !Cache C}.
Context (accessor_of : V → option Accessor).
Context (start_storage : string → string → go db_error S).
Context {stored : S → gmap string loc} `{!StorageLaws V R S stored}.

Abbreviation I := (System V R S * Interface C)%type.

(** The world of a controller of the system. *)
Definition world_of (sys : System V R S) (c : Controller V R S) : world V R S :=
  mkWorld (sys_shuttingDown sys) (sys_heap sys) (sys_subs sys) c.

(** The system after a controller method. *)
Definition with_world (db : string) (w : world V R S) (sys : System V R S) : System V R S :=
  mkSystem (sys_initialized sys) (sys_shuttingDown sys) (<[db := w_ctl w]> (sys_controllers sys))
    (sys_registry sys) (w_heap w) (w_subs w).

(** The database is started, runs and is not read only. *)
Definition serves (sys : System V R S) (db : string) (c : Controller V R S) : Prop :=
  sys_initialized sys = true ∧ sys_controllers sys !! db = Some c ∧
  running (world_of sys c) ∧ ReadOnly (world_of sys c) = false.

Lemma with_world_same (sys : System V R S) (db : string) (c : Controller V R S) :
  sys_controllers sys !! db = Some c → with_world db (world_of sys c) sys = sys.
Proof. intros H. unfold with_world. simpl. rewrite insert_id by done. by destruct sys. Qed.

Lemma getController_started (now : Z) (sys : System V R S) (db : string) (c : Controller V R S) (i : Interface C) :
  serves sys db c → on_sys (getController start_storage now db) (sys, i) = ((sys, i), Ret db).
Proof. intros (H1 & H2 & _). unfold on_sys, getController. by rewrite H1, H2. Qed.

Lemma on_controller_run {A : Type} (m : st (world V R S) db_error A) (sys : System V R S) (db : string)
    (c : Controller V R S) (i : Interface C) (w : world V R S) (r : go db_error A) :
  serves sys db c → m (world_of sys c) = (w, r) →
  on_sys (on_controller db m) (sys, i) = ((with_world db w sys, i), r).
Proof.
  intros (H1 & H2 & _) Hm. unfold on_sys, on_controller. rewrite H2.
  change (mkWorld _ _ _ c) with (world_of sys c). by rewrite Hm.
Qed.

Lemma check_readonly_serves (sys : System V R S) (db : string) (c : Controller V R S) (i : Interface C) :
  serves sys db c → check_readonly db (sys, i) = ((sys, i), Ret tt).
Proof.
  intros Hs. pose proof Hs as (H1 & H2 & _ & Hro). unfold check_readonly, db_ReadOnly.
  erewrite (st_bind_Ret _ _ _ (sys, i) false); [done|].
  erewrite on_controller_run; [|exact Hs|done]. by rewrite with_world_same, Hro.
Qed.

Lemma checkCache_none (now : Z) (key : string) (sys : System V R S) (i : Interface C) :
  i_cache i = None → checkCache accessor_of start_storage now key (sys, i) = ((sys, i), Ret None).
Proof. intros H. unfold checkCache. by rewrite H. Qed.

Lemma updateCache_none (now : Z) (r : loc) (write remove : bool) (ttl : Z) (sys : System V R S) (i : Interface C) :
  i_cache i = None →
  updateCache accessor_of start_storage now r write remove ttl (sys, i) = ((sys, i), Ret false).
Proof. intros H. unfold updateCache. by rewrite H. Qed.

(** Without delayed writes, the cache calls leave the database alone. *)
Lemma run_evictions_off (now : Z) (evicted : list string) (sys : System V R S) (i : Interface C) :
  DelayCachedWrites (i_options i) = ""%string →
  run_evictions accessor_of start_storage now evicted (sys, i) = ((sys, i), Ret tt).
Proof. intros H. unfold run_evictions, st_bind, get_options, st_get. simpl. by rewrite H. Qed.

Lemma checkCache_frame (now : Z) (key : string) (s s' : I) (r : option loc) :
  DelayCachedWrites (i_options s.2) = ""%string →
  checkCache accessor_of start_storage now key s = (s', Ret r) →
  s'.1 = s.1 ∧ i_options s'.2 = i_options s.2.
Proof.
  destruct s as [sys i]. simpl. intros Hd H. unfold checkCache in H.
  destruct (i_cache i) as [c|]; [|by simplify_eq].
  destruct (cache_Get now key c) as [[c' ev] r'].
  rewrite (st_bind_Ret _ _ _ (sys, set_cache (Some c') i) tt) in H by (by apply run_evictions_off).
  unfold st_ret in H. by simplify_eq.
Qed.

Lemma updateCache_frame (now : Z) (r : loc) (write remove : bool) (ttl : Z) (s s' : I) (b : bool) :
  DelayCachedWrites (i_options s.2) = ""%string →
  updateCache accessor_of start_storage now r write remove ttl s = (s', Ret b) →
  s'.1 = s.1 ∧ i_options s'.2 = i_options s.2.
Proof.
  destruct s as [sys i]. simpl. intros Hd H. unfold updateCache in H.
  destruct (i_cache i) as [c|]; [|by simplify_eq].
  destruct remove.
  - destruct (cache_Remove _ c) as [c' ev].
    rewrite (st_bind_Ret _ _ _ (sys, set_cache (Some c') i) tt) in H by (by apply run_evictions_off).
    unfold st_ret in H. by simplify_eq.
  - destruct (if 0 <=? ttl then _ else _) as [c' ev].
    rewrite (st_bind_Ret _ _ _ (sys, set_cache (Some c') i) tt) in H by (by apply run_evictions_off).
    simpl in H. rewrite Hd in H. by repeat case_match; simplify_eq.
Qed.

Lemma on_sys_frame {A : Type} (m : st (System V R S) db_error A) (s s' : I) (a : go db_error A) :
  on_sys m s = (s', a) → s'.2 = s.2.
Proof.
  destruct s as [sys i]. unfold on_sys. destruct (m sys). intros H. by simplify_eq.
Qed.

(** The interface's part of the state is only changed by the cache calls. *)
Lemma check_readonly_frame (db : string) (s s' : I) (u : unit) :
  check_readonly db s = (s', Ret u) → s'.2 = s.2.
Proof.
  unfold check_readonly, db_ReadOnly. intros H. apply st_bind_inv in H as (s1 & ro & H1 & H2).
  apply on_sys_frame in H1. destruct ro; [done|]. unfold st_ret in H2. by simplify_eq.
Qed.

Lemma getRecord_permitted (now : Z) (dbName dbKey : string) (mustBeWriteable : bool) (s s' : I) (r : loc) (db : string) :
  DelayCachedWrites (i_options s.2) = ""%string →
  getRecord accessor_of start_storage now dbName dbKey mustBeWriteable s = (s', Ret (r, db)) →
  hasAccessPermission (i_options s.2) (sys_heap s'.1) r = true.
Proof.
  intros Hd H. unfold getRecord in H. destruct (if String.eqb dbName "" then _ else _) as [n k].
  apply st_bind_inv in H as (s1 & db1 & H1 & H). apply on_sys_frame in H1.
  apply st_bind_inv in H as (s2 & u & H2 & H).
  assert (s2.2 = s1.2) as H2'.
  { destruct mustBeWriteable; [by apply check_readonly_frame in H2|]. unfold st_ret in H2. by simplify_eq. }
  apply st_bind_inv in H as (s3 & cached & H3 & H).
  assert (i_options s2.2 = i_options s.2) as Ho by (by rewrite H2', H1).
  apply checkCache_frame in H3 as [H3 H3']; [|by rewrite Ho].
  apply st_bind_inv in H as (s4 & o & H4 & H). unfold get_options, st_get in H4.
  injection H4 as <- <-. unfold id in H. rewrite H3', Ho in H.
  destruct cached as [r0|].
  - apply st_bind_inv in H as (s5 & p & H5 & H). unfold get_heap, st_get in H5. injection H5 as <- <-.
    destruct (hasAccessPermission (i_options s.2) (sys_heap s3.1) r0) eqn:Hp; simpl in H; [|done].
    unfold st_ret in H. by simplify_eq.
  - apply st_bind_inv in H as (s5 & r0 & H5 & H). apply on_sys_frame in H5.
    apply st_bind_inv in H as (s6 & p & H6 & H). unfold get_heap, st_get in H6. injection H6 as <- <-.
    destruct (hasAccessPermission (i_options s.2) (sys_heap s5.1) r0) eqn:Hp; simpl in H; [|done].
    apply st_bind_inv in H as (s7 & m & H7 & H). unfold get_heap, st_get in H7. injection H7 as <- <-.
    destruct (meta_of (sys_heap s5.1) r0) as [m|]; [|done].
    apply st_bind_inv in H as (s8 & b & H8 & H).
    apply updateCache_frame in H8 as [H8 _]; [|by rewrite H5, H3', Ho].
    unfold st_ret in H. simplify_eq. by rewrite H8.
Qed.

(** [getRecord] on a running database, without a cache. *)
Lemma getRecord_running (now : Z) (key dbName dbKey : string) (mustBeWriteable : bool)
    (sys : System V R S) (i : Interface C) (c : Controller V R S) :
  i_cache i = None → ParseKey key = (dbName, dbKey) → serves sys dbName c →
  getRecord accessor_of start_storage now "" key mustBeWriteable (sys, i) = ((sys, i),
    match stored (c_storage c) !! dbKey with
    | Some r =>
        if CheckValidity now (meta_of (sys_heap sys) r)
        then if hasAccessPermission (i_options i) (sys_heap sys) r then Ret (r, dbName)
             else Fail DbErrPermissionDenied
        else Fail DbErrNotFound
    | None => Fail DbErrNotFound
    end).
Proof.
  intros Hc Hk Hs. pose proof Hs as (_ & Hctl & Hrun & _). unfold getRecord. simpl. rewrite Hk.
  rewrite (st_bind_Ret _ _ _ _ _ (getController_started now sys dbName c i Hs)).
  rewrite (st_bind_Ret _ _ _ (sys, i) tt)
    by (destruct mustBeWriteable; [by eapply check_readonly_serves|done]).
  rewrite (st_bind_Ret _ _ _ _ _ (checkCache_none now _ sys i Hc)).
  rewrite (st_bind_Ret _ _ _ (sys, i) (i_options i)) by done.
  assert (on_sys (on_controller dbName (Controller_Get accessor_of now dbKey)) (sys, i) =
    ((sys, i), match stored (c_storage c) !! dbKey with
      | Some r => if CheckValidity now (meta_of (sys_heap sys) r) then Ret r else Fail DbErrNotFound
      | None => Fail DbErrNotFound end)) as Hget.
  { erewrite on_controller_run; [|exact Hs|by apply (Controller_Get_running accessor_of (stored := stored))].
    by rewrite with_world_same. }
  destruct (stored (c_storage c) !! dbKey) as [r|];
    [|by rewrite (st_bind_Fail _ _ _ _ _ Hget)].
  destruct (CheckValidity now (meta_of (sys_heap sys) r)) eqn:Hv;
    [rewrite (st_bind_Ret _ _ _ _ _ Hget)|by rewrite (st_bind_Fail _ _ _ _ _ Hget)].
  rewrite (st_bind_Ret _ _ _ (sys, i) (hasAccessPermission (i_options i) (sys_heap sys) r)) by done.
  destruct (hasAccessPermission (i_options i) (sys_heap sys) r); simpl; [|done].
  rewrite (st_bind_Ret _ _ _ (sys, i) (meta_of (sys_heap sys) r)) by done.
  destruct (meta_of (sys_heap sys) r) as [m|]; [|done].
  by rewrite (st_bind_Ret _ _ _ _ _ (updateCache_none now r false false _ sys i Hc)).
Qed.

Lemma Controller_GetMeta_running (now : Z) (key : string) (w : world V R S) :
  running w →
  Controller_GetMeta now key w = (w,
    match stored (c_storage (w_ctl w)) !! key with
    | Some r => if CheckValidity now (meta_of (w_heap w) r) then Ret (meta_of (w_heap w) r) else Fail DbErrNotFound
    | None => Fail DbErrNotFound
    end).
Proof.
  intros Hw. unfold Controller_GetMeta.
  rewrite (st_bind_Ret _ _ _ _ _ (check_shutdown_running w Hw)).
  assert ((match storage_GetMeta with
    | Some getMeta => on_storage replace_not_found (getMeta key)
    | None =>
        let$ r := on_storage replace_not_found (storage_Get key) in
        st_get (λ w, Ret (meta_of (w_heap w) r))
    end) w = (w, match stored (c_storage (w_ctl w)) !! key with
      | Some r => Ret (meta_of (w_heap w) r) | None => Fail DbErrNotFound end)) as Hm.
  { destruct storage_GetMeta as [gm|] eqn:Hgm.
    - unfold on_storage. rewrite (GetMeta_law gm _ _ _ Hgm). simpl. rewrite set_same.
      by destruct (stored _ !! key).
    - unfold st_bind. rewrite (on_storage_Get (stored := stored)). unfold records.
      by destruct (stored _ !! key). }
  destruct (stored _ !! key) as [r|];
    [rewrite (st_bind_Ret _ _ _ _ _ Hm)|by rewrite (st_bind_Fail _ _ _ _ _ Hm)].
  by destruct (CheckValidity now (meta_of (w_heap w) r)).
Qed.

Lemma serves_heap (h : heap V) (sys : System V R S) (db : string) (c : Controller V R S) :
  serves sys db c → serves (set_sys_heap h sys) db c.
Proof. intros (H1 & H2 & (H3 & H4 & H5 & H6) & H7). split_and!; done. Qed.

Lemma serves_after (w : world V R S) (sys : System V R S) (db : string) :
  sys_initialized sys = true → w_shuttingDown w = sys_shuttingDown sys → running w → ReadOnly w = false →
  serves (with_world db w sys) db (w_ctl w).
Proof.
  intros H1 H2 (H3 & H4 & H5 & H6) H7. split_and!; try done.
  - simpl. by rewrite lookup_insert_eq.
  - split; [simpl; congruence|by split_and!].
Qed.

(** The metadata [Apply] leaves. *)
Definition applied_meta (now : Z) (o : Options) (m : option Meta) : Meta :=
  let m := Meta_Update now (default zeroMeta m) in
  let m := if AlwaysMakeSecret o then MakeSecret m else m in
  let m := if AlwaysMakeCrownjewel o then MakeCrownJewel m else m in
  if 0 <? AlwaysSetAbsoluteExpiry o then Record.SetAbsoluteExpiry (AlwaysSetAbsoluteExpiry o) m
  else if 0 <? AlwaysSetRelativateExpiry o
  then Record.SetRelativateExpiry (AlwaysSetRelativateExpiry o) m
  else m.

Lemma base_of_update (f : Base → Base) (r : loc) (h : heap V) :
  is_Some (h !! r) → base_of (update_base f r h) r = f (base_of h r).
Proof. intros [o Ho]. unfold base_of, update_base. by rewrite lookup_alter_eq, Ho. Qed.

Lemma update_allocated (f : Base → Base) (r r' : loc) (h : heap V) :
  is_Some (h !! r') → is_Some (update_base f r h !! r').
Proof.
  intros [o Ho]. unfold update_base. destruct (decide (r = r')) as [->|].
  - rewrite lookup_alter_eq, Ho. by eexists.
  - rewrite lookup_alter_ne, Ho by done. by eexists.
Qed.

Lemma base_of_Apply (now : Z) (o : Options) (r : loc) (h : heap V) :
  is_Some (h !! r) →
  base_of (Options_Apply now o r h) r =
    mkBase (dbName (base_of h r)) (dbKey (base_of h r)) (Some (applied_meta now o (meta_of h r))).
Proof.
  intros Hr. unfold Options_Apply, applied_meta, update_meta.
  repeat match goal with |- context [if ?b then _ else _] => destruct b end;
    repeat first [rewrite base_of_update by (repeat apply update_allocated; exact Hr)];
    unfold meta_of; destruct (base_of h r) as [n k []]; done.
Qed.

(** A permitted put without a cache: apply the options, then the
    controller. *)
Lemma Interface_Put_running (now : Z) (r : loc) (sys : System V R S) (i : Interface C) (c : Controller V R S) :
  i_cache i = None → HasAllPermissions (i_options i) = true → is_Some (sys_heap sys !! r) →
  serves sys (dbName (base_of (sys_heap sys) r)) c →
  let h := Options_Apply now (i_options i) r (sys_heap sys) in
  Interface_Put accessor_of start_storage now r (sys, i) =
    let '(w, res) := Controller_Put accessor_of r (world_of (set_sys_heap h sys) c) in
    ((with_world (dbName (base_of (sys_heap sys) r)) w (set_sys_heap h sys), i), res).
Proof.
  intros Hc Hp Hr Hs h. set (db := dbName (base_of (sys_heap sys) r)) in *.
  unfold Interface_Put, put_record.
  rewrite (st_bind_Ret _ _ _ (sys, i) db).
  2: { unfold put_database. rewrite (st_bind_Ret _ _ _ (sys, i) (base_of (sys_heap sys) r)) by done.
       rewrite (st_bind_Ret _ _ _ (sys, i) true) by (unfold get_options, st_get; by rewrite <- Hp). simpl.
       by eapply getController_started. }
  rewrite (st_bind_Ret _ _ _ (sys, i) tt) by (by eapply check_readonly_serves).
  rewrite (st_bind_Ret _ _ _ (sys, i) (i_options i)) by done.
  rewrite (st_bind_Ret _ _ _ (sys, i) tt) by (by destruct sys).
  rewrite (st_bind_Ret _ _ _ (set_sys_heap h sys, i) tt) by done.
  rewrite (st_bind_Ret _ _ _ (set_sys_heap h sys, i) (Some (applied_meta now (i_options i) (meta_of (sys_heap sys) r)))).
  2: { unfold get_heap, st_get, meta_of at 1. simpl. subst h. by rewrite base_of_Apply. }
  rewrite (st_bind_Ret _ _ _ _ _ (updateCache_none now r true _ _ _ i Hc)). cbv iota.
  destruct (Controller_Put accessor_of r (world_of (set_sys_heap h sys) c)) as [w res] eqn:Hput.
  by erewrite on_controller_run; [|apply serves_heap, Hs|exact Hput].
Qed.

(** The cache, if there is one, does not hold the key. *)
Definition not_cached (now : Z) (key : string) (i : Interface C) : Prop :=
  match i_cache i with Some c => cache_Get now key c = (c, [], None) | None => True end.

Lemma checkCache_miss (now : Z) (key : string) (sys : System V R S) (i : Interface C) :
  not_cached now key i → checkCache accessor_of start_storage now key (sys, i) = ((sys, i), Ret None).
Proof.
  unfold not_cached, checkCache. destruct (i_cache i) as [c|] eqn:Hc; [|done]. intros ->.
  unfold run_evictions, st_bind, get_options, st_get, st_ret, set_cache. destruct i. simpl in *. rewrite Hc. by destruct (String.eqb _ _).
Qed.

(** The controller of the name is there, and says what it says without a change. *)
Definition answers_meta (now : Z) (key : string) (sys : System V R S) (db : string) (c : Controller V R S) (r : go db_error (option Meta)) : Prop :=
  sys_initialized sys = true ∧ sys_controllers sys !! db = Some c ∧ ReadOnly (world_of sys c) = false ∧
  Controller_GetMeta now key (world_of sys c) = (world_of sys c, r).

(** An unprivileged put is refused before anything changes. *)
Lemma Interface_Put_refused (now : Z) (r : loc) (m0 : option Meta) (sys : System V R S) (i : Interface C)
    (c : Controller V R S) :
  let b := base_of (sys_heap sys) r in
  HasAllPermissions (i_options i) = false → dbName b ≠ ""%string → not_cached now (dbName b ++ ":" ++ dbKey b) i →
  answers_meta now (dbKey b) sys (dbName b) c (Ret m0) → CheckPermission m0 (Local (i_options i)) (Internal (i_options i)) = false →
  ∀ reset, put_record accessor_of start_storage now r reset (sys, i) = ((sys, i), Fail DbErrPermissionDenied).
Proof.
  intros b Hp Hname Hc (Hinit & Hctl & Hro & Hmeta) Hperm reset. unfold put_record.
  apply st_bind_Fail. unfold put_database.
  rewrite (st_bind_Ret _ _ _ (sys, i) b) by done.
  rewrite (st_bind_Ret _ _ _ (sys, i) false) by (unfold get_options, st_get; by rewrite <- Hp). simpl.
  unfold st_catch. rewrite (st_bind_Fail _ _ _ (sys, i) DbErrPermissionDenied); [done|].
  unfold getMeta, DatabaseName, DatabaseKey. rewrite (proj2 (String.eqb_neq (dbName b) "") Hname).
  assert (∀ (A : Type) (m : st (world V R S) db_error A) x, m (world_of sys c) = (world_of sys c, x) →
    on_sys (on_controller (dbName b) m) (sys, i) = ((sys, i), x)) as Hon.
  { intros A m x Hm. unfold on_sys, on_controller. rewrite Hctl. change (mkWorld _ _ _ c) with (world_of sys c).
    rewrite Hm. pose proof (with_world_same sys (dbName b) c Hctl) as Hsame. unfold with_world in Hsame. by rewrite Hsame. }
  rewrite (st_bind_Ret _ _ _ (sys, i) (dbName b)) by (unfold on_sys, getController; by rewrite Hinit, Hctl).
  rewrite (st_bind_Ret _ _ _ (sys, i) tt).
  2: { unfold check_readonly, db_ReadOnly. erewrite (st_bind_Ret _ _ _ (sys, i) false); [done|]. apply Hon. by rewrite Hro. }
  rewrite (st_bind_Ret _ _ _ _ _ (checkCache_miss now _ sys i Hc)).
  rewrite (st_bind_Ret _ _ _ (sys, i) (i_options i)) by done.
  rewrite (st_bind_Ret _ _ _ _ _ (Hon _ _ _ Hmeta)). by rewrite Hperm.
Qed.
End InterfaceLemmas.

(** ** A small system for the witnesses *)

(** A cache that keeps everything. *)
#[global] Instance map_cache : Cache (gmap string loc) := {|
  cache_New _ := ∅;
  cache_Get _ key c := (c, [], c !! key);
  cache_Set key r c := (<[key := r]> c, []);
  cache_SetWithExpire _ key r _ c := (<[key := r]> c, []);
  cache_Remove key c := (delete key c, []);
  cache_Purge _ := ∅;
|}.

#[local] Instance example_storage' : StorageInterface unit string HashMap := HashMap_storage no_accessor.

Definition example_start (name storageType : string) : go db_error HashMap := Ret (NewHashMap name).

Definition example_controller : Controller unit string HashMap :=
  mkController "test" (mkHashMap "test" {[ "a"%string := 0%nat ]}) false [] [].

(** One database with the record [a] of the given metadata. *)
Definition example_system (m : Meta) : System unit string HashMap :=
  mkSystem true false {[ "test"%string := example_controller ]} ∅ (example_heap m) ∅.

Definition all_access : Options := mkOptions true true false false 0 0 0 "".

Definition example_interface (o : Options) : Interface (gmap string loc) := mkInterface o None ∅.

Lemma example_serves (m : Meta) : serves (example_system m) "test" example_controller.
Proof.
  split_and!; [done|done| |done]. split_and!; [done|done|constructor|].
  intros id sub Hid. by apply elem_of_nil in Hid.
Qed.

(** ** Properties *)

(** C31: Access control on reads: whatever the state of the databases, hooks
    and cache (without delayed writes), a record that [Get] returns may be
    accessed with the interface's scope. *)
Theorem Interface_Get_permitted {V R S C : Type} `{!QueryLib R, !StorageInterface V R S, !Cache C}
    (accessor_of : V → option Accessor) (start_storage : string → string → go db_error S)
    (now : Z) (key : string) (s s' : System V R S * Interface C) (r : loc) :
  DelayCachedWrites (i_options s.2) = ""%string →
  Interface_Get accessor_of start_storage now key s = (s', Ret r) →
  (Local (i_options s.2) = true ∧ Internal (i_options s.2) = true) ∨
  CheckPermission (meta_of (sys_heap s'.1) r) (Local (i_options s.2)) (Internal (i_options s.2)) = true.
Proof.
  intros Hd H. unfold Interface_Get in H. apply st_bind_inv in H as (s1 & [r0 db] & H1 & H).
  unfold st_ret in H. simplify_eq. apply getRecord_permitted in H1; [|done].
  unfold hasAccessPermission, HasAllPermissions in H1.
  destruct (Local (i_options s.2)), (Internal (i_options s.2)); auto.
Qed.

Lemma Interface_Get_permitted_witness :
  let s := (example_system zeroMeta, example_interface zeroOptions) in
  (Local zeroOptions = true ∧ Internal zeroOptions = true) ∨
  CheckPermission (meta_of (sys_heap s.1) 0%nat) (Local zeroOptions) (Internal zeroOptions) = true.
Proof.
  apply (Interface_Get_permitted no_accessor example_start 5 "test:a"
    (example_system zeroMeta, example_interface zeroOptions)
    (example_system zeroMeta, example_interface zeroOptions) 0%nat); [done|].
  vm_compute. reflexivity.
Defined.



(** The record [a] of the example, and another one with its key. *)
Definition two_records (m m' : Meta) : System unit string HashMap :=
  mkSystem true false {[ "test"%string := example_controller ]} ∅
    {[ 0%nat := mkObject (mkBase "test" "a" (Some m)) tt; 1%nat := mkObject (mkBase "test" "a" (Some m')) tt ]} ∅.

(** What the database has stored under [a]. *)
Definition stored_a {C : Type} (s : System unit string HashMap * Interface C) : option loc :=
  sys_controllers s.1 !! "test"%string ≫= λ c, hm_db (c_storage c) !! "a"%string.

(** A secret record that has expired is overwritten by anyone, as are deleted ones. *)
Lemma expired_secret_overwritten :
  let s := (two_records (mkMeta 1 1 3 0 true false) zeroMeta, example_interface (mkOptions true false false false 0 0 0 "")) in
  let x := Interface_Put no_accessor example_start 5 1%nat s in
  stored_a s = Some 0%nat ∧ x.2 = Ret tt ∧ stored_a x.1 = Some 1%nat.
Proof. split; [|split]; vm_compute; reflexivity. Qed.

(** The cache holds an older record of the key, which the interface may access, and
    the database a secret one: the put is checked against the cache only. *)
Lemma cached_entry_permits_overwrite :
  let s := (two_records (mkMeta 1 1 0 0 true false) zeroMeta,
    mkInterface (mkOptions true false false false 0 0 10 "") (Some ({[ "test:a"%string := 1%nat ]} : gmap string loc)) ∅) in
  let x := Interface_Put no_accessor example_start 5 1%nat s in
  stored_a s = Some 0%nat ∧ x.2 = Ret tt ∧ stored_a x.1 = Some 1%nat.
Proof. split; [|split]; vm_compute; reflexivity. Qed.

(** Records an interface saves as secret stay secret: after a [Put]
    through an interface that always makes secret, an interface without the
    internal scope gets a valid record refused, whoever asks and whenever. *)
Theorem AlwaysMakeSecret_protects {V R S C : Type} `{!QueryLib R, !StorageInterface V R S, !Cache C}
    (accessor_of : V → option Accessor) (start_storage : string → string → go db_error S)
    (stored : S → gmap string loc) `{!StorageLaws V R S stored}
    (now : Z) (r : loc) (sys : System V R S) (i : Interface C) (c : Controller V R S) :
  let b := base_of (sys_heap sys) r in
  i_cache i = None → HasAllPermissions (i_options i) = true → AlwaysMakeSecret (i_options i) = true →
  is_Some (sys_heap sys !! r) → lacks ":" (dbName b) → serves sys (dbName b) c →
  ∃ sys', Interface_Put accessor_of start_storage now r (sys, i) = ((sys', i), Ret tt) ∧
    ∀ now' (i' : Interface C), i_cache i' = None → Internal (i_options i') = false →
      (Interface_Get accessor_of start_storage now' (Base_Key b) (sys', i')).2 =
        if CheckValidity now' (Some (applied_meta now (i_options i) (meta b)))
        then Fail DbErrPermissionDenied else Fail DbErrNotFound.
Proof.
  intros b Hc Hp Hsec Hr Hname Hs. rewrite (Interface_Put_running _ _ now r sys i c Hc Hp Hr Hs).
  set (h := Options_Apply now (i_options i) r (sys_heap sys)). fold b.
  pose proof (base_of_Apply now (i_options i) r (sys_heap sys) Hr) as Hb. fold h b in Hb.
  set (m := applied_meta now (i_options i) (meta b)) in *. change (meta_of (sys_heap sys) r) with (meta b) in Hb.
  assert (meta_of h r = Some m) as Hm by (unfold meta_of; by rewrite Hb).
  pose proof (serves_heap h _ _ _ Hs) as Hs'. pose proof Hs' as (Hinit & Hctl & Hrun & Hro).
  destruct (Controller_Put_running accessor_of r m _ Hrun Hro Hm) as (s & subs' & Hput & Hst & _ & _ & Hrun' & Hro').
  rewrite Hput. eexists. split; [done|]. intros now' i' Hc' Hint.
  unfold Interface_Get, st_bind. fold b.
  assert (key_of h r = dbKey b) as Hkey by (unfold key_of, DatabaseKey; by rewrite Hb).
  erewrite (getRecord_running _ _ now' (Base_Key b) (dbName b) (dbKey b));
    [|done| |apply serves_after; [done|done|exact Hrun'|exact Hro']].
  2: { unfold ParseKey, Base_Key. change (":" ++ dbKey b)%string with (String ":" (dbKey b)).
       by rewrite Cut_app. }
  simpl. rewrite Hst. simpl. rewrite Hkey. change (stored (c_storage c)) with (stored (c_storage c)).
  assert (secret m = true) as Hsecret.
  { subst m. unfold applied_meta. rewrite Hsec. unfold SetRelativateExpiry.
    by repeat match goal with |- context [if ?x then _ else _] => destruct x end. }
  destruct (negb (c_shadowDelete c) && IsDeleted m) eqn:Hdel.
  - rewrite lookup_delete_eq. apply andb_true_iff in Hdel as [_ Hdel]. unfold IsDeleted in Hdel.
    by rewrite Hdel.
  - rewrite lookup_insert_eq. change (sys_heap (set_sys_heap h sys)) with h. rewrite Hm.
    unfold CheckValidity. destruct (if 0 <? Deleted m then _ else _); [|done].
    unfold hasAccessPermission, HasAllPermissions. rewrite Hint, andb_false_r.
    change (sys_heap (set_sys_heap h sys)) with h. rewrite Hm. simpl. rewrite Hsecret.
    by destruct (Local (i_options i')), (cronjewel m).
Qed.

Lemma AlwaysMakeSecret_protects_witness :
  let i := example_interface (mkOptions true true true false 0 0 0 "") in
  ∃ sys', Interface_Put no_accessor example_start 5 0%nat (example_system zeroMeta, i) = ((sys', i), Ret tt) ∧
    ∀ now' (i' : Interface (gmap string loc)), i_cache i' = None → Internal (i_options i') = false →
      (Interface_Get no_accessor example_start now' "test:a" (sys', i')).2 =
        if CheckValidity now' (Some (applied_meta 5 (i_options i) (Some zeroMeta)))
        then Fail DbErrPermissionDenied else Fail DbErrNotFound.
Proof.
  apply (AlwaysMakeSecret_protects no_accessor example_start hm_db 5 0%nat (example_system zeroMeta)
    (example_interface (mkOptions true true true false 0 0 0 "")) example_controller);
    [done|done|done|by eexists|apply Cut_None; done|apply example_serves].
Defined.

(** [Delete] forgets the cache: on an interface with a cache that holds
    the record, a successful [Delete] removes it from the database, and a
    following [Get] through the same interface still returns it. *)
Theorem cached_record_survives_Delete {V R S C : Type} `{!QueryLib R, !StorageInterface V R S, !Cache C}
    (accessor_of : V → option Accessor) (start_storage : string → string → go db_error S)
    (stored : S → gmap string loc) `{!StorageLaws V R S stored}
    (now : Z) (r : loc) (b : Base) (sys : System V R S) (i : Interface C) (c : Controller V R S) (cache : C) :
  i_cache i = Some cache → DelayCachedWrites (i_options i) = ""%string →
  HasAllPermissions (i_options i) = true → 0 < now →
  base_of (sys_heap sys) r = b → is_Some (sys_heap sys !! r) → lacks ":" (dbName b) →
  serves sys (dbName b) c → c_shadowDelete c = false →
  cache_Get now (Base_Key b) cache = (cache, [], Some r) →
  ∃ sys' c', Interface_Delete accessor_of start_storage now (Base_Key b) (sys, i) = ((sys', i), Ret tt) ∧
    sys_controllers sys' !! dbName b = Some c' ∧ stored (c_storage c') !! dbKey b = None ∧
    Interface_Get accessor_of start_storage now (Base_Key b) (sys', i) = ((sys', i), Ret r).
Proof.
  intros Hc Hd Hp Hnow Hb Hr Hname Hs Hsh Hget.
  assert (ParseKey (Base_Key b) = (dbName b, dbKey b)) as Hparse.
  { unfold ParseKey, Base_Key. change (":" ++ dbKey b)%string with (String ":" (dbKey b)). by rewrite Cut_app. }
  assert (∀ sys0 c0 wr, serves sys0 (dbName b) c0 →
    getRecord accessor_of start_storage now "" (Base_Key b) wr (sys0, i) = ((sys0, i), Ret (r, dbName b))) as Hrec.
  { intros sys0 c0 wr Hs0. unfold getRecord. change (String.eqb "" "") with true. cbv iota. rewrite Hparse.
    rewrite (st_bind_Ret _ _ _ _ _ (getController_started start_storage now sys0 (dbName b) c0 i Hs0)).
    rewrite (st_bind_Ret _ _ _ (sys0, i) tt) by (destruct wr; [by eapply check_readonly_serves|done]).
    rewrite (st_bind_Ret _ _ _ (sys0, i) (Some r)).
    - rewrite (st_bind_Ret _ _ _ (sys0, i) (i_options i)) by done.
      rewrite (st_bind_Ret _ _ _ (sys0, i) true); [done|]. unfold get_heap, st_get, hasAccessPermission. by rewrite Hp.
    - unfold checkCache. rewrite Hc. change (dbName b ++ ":" ++ dbKey b)%string with (Base_Key b). rewrite Hget.
      assert (set_cache (Some cache) i = i) as -> by (destruct i; simpl in *; by subst).
      by rewrite (st_bind_Ret _ _ _ _ _ (run_evictions_off accessor_of start_storage now [] sys0 i Hd)). }
  set (h := update_meta (Meta_Delete now) r (Options_Apply now (i_options i) r (sys_heap sys))).
  pose proof (base_of_Apply now (i_options i) r (sys_heap sys) Hr) as Hb1. rewrite Hb in Hb1.
  assert (base_of h r = mkBase (dbName b) (dbKey b)
    (Some (Meta_Delete now (applied_meta now (i_options i) (meta b))))) as Hbh.
  { subst h. unfold update_meta. rewrite base_of_update.
    - rewrite Hb1. unfold meta_of. by rewrite Hb.
    - unfold Options_Apply, update_meta.
      repeat match goal with |- context [if ?x then _ else _] => destruct x end; by repeat apply update_allocated. }
  pose proof (serves_heap h _ _ _ Hs) as Hs'. pose proof Hs' as (Hinit & Hctl & Hrun & Hro).
  destruct (Controller_Put_running accessor_of r (Meta_Delete now (applied_meta now (i_options i) (meta b)))
    (world_of (set_sys_heap h sys) c) Hrun Hro) as (s & subs' & Hput & Hst & _ & _ & Hrun' & Hro').
  { unfold meta_of. simpl. by rewrite Hbh. }
  set (w := set_subs subs' (set_storage s (world_of (set_sys_heap h sys) c))) in *.
  exists (with_world (dbName b) w (set_sys_heap h sys)), (w_ctl w).
  assert (serves (with_world (dbName b) w (set_sys_heap h sys)) (dbName b) (w_ctl w)) as Hs2
    by (by apply serves_after).
  split_and!.
  - unfold Interface_Delete. rewrite (st_bind_Ret _ _ _ _ _ (Hrec sys c true Hs)).
    rewrite (st_bind_Ret _ _ _ (sys, i) tt) by (by eapply check_readonly_serves).
    rewrite (st_bind_Ret _ _ _ (sys, i) (i_options i)) by done.
    rewrite (st_bind_Ret _ _ _ (set_sys_heap (Options_Apply now (i_options i) r (sys_heap sys)) sys, i) tt) by done.
    rewrite (st_bind_Ret _ _ _ (set_sys_heap h sys, i) tt) by done.
    by erewrite on_controller_run; [|exact Hs'|exact Hput].
  - simpl. by rewrite lookup_insert_eq.
  - simpl. rewrite Hst. simpl. rewrite Hsh. unfold IsDeleted, Meta_Delete. simpl. zcmp.
    unfold key_of, DatabaseKey. rewrite Hbh. simpl. by rewrite lookup_delete_eq.
  - unfold Interface_Get. by rewrite (st_bind_Ret _ _ _ _ _ (Hrec _ _ false Hs2)).
Qed.

Lemma cached_record_survives_Delete_witness :
  let i := mkInterface (mkOptions true true false false 0 0 10 "") (Some {[ "test:a"%string := 0%nat ]}) ∅ in
  ∃ sys' c', Interface_Delete no_accessor example_start 5 "test:a" (example_system zeroMeta, i) = ((sys', i), Ret tt) ∧
    sys_controllers sys' !! "test"%string = Some c' ∧ hm_db (c_storage c') !! "a"%string = None ∧
    Interface_Get no_accessor example_start 5 "test:a" (sys', i) = ((sys', i), Ret 0%nat).
Proof.
  apply (cached_record_survives_Delete no_accessor example_start hm_db 5 0%nat (mkBase "test" "a" (Some zeroMeta))
    (example_system zeroMeta)
    (mkInterface (mkOptions true true false false 0 0 10 "") (Some {[ "test:a"%string := 0%nat ]}) ∅)
    example_controller {[ "test:a"%string := 0%nat ]});
    [done|done|done|done|done|by eexists|by apply Cut_None|apply example_serves|done|done].
Defined.

(** [FlushCache] never writes anything: it returns early exactly when
    delayed writes are in use, and otherwise there is no write cache. *)
Theorem FlushCache_does_nothing {V R S C : Type} `{!QueryLib R, !StorageInterface V R S, !Cache C}
    (start_storage : string → string → go db_error S) (now : Z) (s : System V R S * Interface C) :
  (DelayCachedWrites (i_options s.2) = ""%string → i_writeCache s.2 = ∅) →
  FlushCache start_storage now s = (s, Ret tt).
Proof.
  intros H. destruct s as [sys i]. unfold FlushCache, st_bind, get_options, st_get. simpl in *.
  destruct (String.eqb_spec (DelayCachedWrites (i_options i)) ""); simpl; [|done].
  unfold flushWriteCache. by rewrite H, map_size_empty.
Qed.

Lemma FlushCache_does_nothing_witness :
  let i := mkInterface (mkOptions true true false false 0 0 10 "test") (Some (∅ : gmap string loc)) {[ "test:b"%string := 0%nat ]} in
  FlushCache example_start 5 (example_system zeroMeta, i) = ((example_system zeroMeta, i), Ret tt).
Proof.
  apply (FlushCache_does_nothing example_start 5 (example_system zeroMeta,
    mkInterface (mkOptions true true false false 0 0 10 "test") (Some (∅ : gmap string loc)) {[ "test:b"%string := 0%nat ]})).
  done.
Defined.
