(* ===== verification/Maintenance.v ===== *)
(** * database: maintenance and shutdown of the whole system

    maintenance.go and Shutdown of main.go: the calls that go through all started
    controllers. The order in which Go iterates over the map is a parameter. *)

From Stdlib Require Import ZArith Lia String.
From stdpp Require Import gmap strings list.
From S2P Require Import Prelude GoStrings Record Query Storage Controller Interface.
Local Open Scope Z_scope.

Section Maintenance.
Context {V R S : Type} `{!QueryLib R, !StorageInterface V R S}.
Context (order : gmap string (Controller V R S) → list string).

Abbreviation W := (world V R S).
Abbreviation SYS := (System V R S).

Definition duplicateControllers (sys : SYS) : list string := order (sys_controllers sys).

(** The loop over the controllers, which ends with the first error. *)
Definition for_controllers (m : st W db_error unit) : st SYS db_error unit :=
  λ sys, st_iter (λ name, on_controller name m) (duplicateControllers sys) sys.

(** A storage may be a Maintainer: then it has both methods. *)
Definition Controller_MaintainThorough (thorough : option (st (heap V * S) storage_error unit)) : st W db_error unit :=
  let$ _ := check_shutdown in
  match thorough with
  | Some maintain => on_storage DbErrStorage maintain
  | None => st_ret tt
  end.

Definition db_Maintain : st SYS db_error unit := for_controllers Controller_Maintain.
Definition db_MaintainThorough (thorough : option (st (heap V * S) storage_error unit)) : st SYS db_error unit :=
  for_controllers (Controller_MaintainThorough thorough).

(** Records that were deleted before now are purged. *)
Definition db_MaintainRecordStates (now : Z) : st SYS db_error unit := for_controllers (Controller_MaintainRecordStates now now).

Definition db_Shutdown : st SYS db_error unit := λ sys,
  if sys_shuttingDown sys then (sys, Ret tt)
  else
    for_controllers Controller_Shutdown
      (mkSystem (sys_initialized sys) true (sys_controllers sys) (sys_registry sys) (sys_heap sys) (sys_subs sys)).

(** ** Lemmas *)

(** The method was called on the controller with this result, at some state of the
    records. *)
Definition ran (m : st W db_error unit) (down : bool) (before after : gmap string (Controller V R S)) (r : go db_error unit) (n : string) : Prop :=
  ∃ c h subs, before !! n = Some c ∧ after !! n = Some (w_ctl (m (mkWorld down h subs c)).1) ∧ (m (mkWorld down h subs c)).2 = r.

(** The controllers before the first error ran, those after it were left alone. *)
Definition ran_until_error (m : st W db_error unit) (down : bool) (names : list string) (before after : gmap string (Controller V R S))
    (r : go db_error unit) : Prop :=
  ∃ done rest, names = done ++ rest ∧ Forall (ran m down before after (Ret tt)) done ∧
    match rest with
    | [] => r = Ret tt
    | n :: others => r ≠ Ret tt ∧ ran m down before after r n ∧ Forall (λ n, after !! n = before !! n) others
    end.

Lemma on_controller_Ret (n : string) (m : st W db_error unit) (c : Controller V R S) (sys : SYS) : sys_controllers sys !! n = Some c →
  let x := m (mkWorld (sys_shuttingDown sys) (sys_heap sys) (sys_subs sys) c) in
  on_controller n m sys = (mkSystem (sys_initialized sys) (sys_shuttingDown sys) (<[n := w_ctl x.1]> (sys_controllers sys)) (sys_registry sys) (w_heap x.1) (w_subs x.1), x.2).
Proof. intros Hc. unfold on_controller. rewrite Hc. by destruct (m _). Qed.

Lemma iter_controllers_spec (m : st W db_error unit) (names : list string) : NoDup names → ∀ sys sys' r,
  Forall (λ n, is_Some (sys_controllers sys !! n)) names → st_iter (λ n, on_controller n m) names sys = (sys', r) →
  sys_shuttingDown sys' = sys_shuttingDown sys ∧
  (∀ n, n ∉ names → sys_controllers sys' !! n = sys_controllers sys !! n) ∧
  ran_until_error m (sys_shuttingDown sys) names (sys_controllers sys) (sys_controllers sys') r.
Proof.
  induction 1 as [|n names Hn Hnd IH]; intros sys sys' r Hall Hrun.
  { simpl in Hrun. unfold st_ret in Hrun. simplify_eq. split_and!; [done..|]. exists [], []. by split_and!. }
  apply Forall_cons in Hall as [[c Hc] Hall]. cbn [st_iter] in Hrun. unfold st_bind in Hrun. rewrite (on_controller_Ret n m c sys Hc) in Hrun.
  set (x := m (mkWorld (sys_shuttingDown sys) (sys_heap sys) (sys_subs sys) c)) in Hrun.
  assert (∀ k, k ∈ names → <[n := w_ctl x.1]> (sys_controllers sys) !! k = sys_controllers sys !! k) as Hsame.
  { intros k Hk. apply lookup_insert_ne. by intros ->. }
  destruct x.2 as [[]|e|] eqn:Hx.
  - assert (Forall (λ k, is_Some (<[n := w_ctl x.1]> (sys_controllers sys) !! k)) names) as Hall'.
    { rewrite Forall_forall in Hall |- *. intros k Hk. rewrite Hsame by done. by apply Hall. }
    destruct (λ H, IH _ _ _ H Hrun) as (Hdown & Hother & done & rest & -> & Hdone & Hrest); [exact Hall'|].
    cbn [sys_shuttingDown sys_controllers] in *. split; [done|].
    assert (∀ r' k, k ∈ done ++ rest → ran m (sys_shuttingDown sys) (<[n := w_ctl x.1]> (sys_controllers sys)) (sys_controllers sys') r' k →
      ran m (sys_shuttingDown sys) (sys_controllers sys) (sys_controllers sys') r' k) as Hran.
    { intros r' k Hk (c' & h & subs & Hc' & Hr). rewrite Hsame in Hc' by done. by exists c', h, subs. }
    split. { intros k [Hkn Hk]%not_elem_of_cons. rewrite (Hother k Hk). by apply lookup_insert_ne. }
    exists (n :: done), rest. split; [done|]. split.
    + constructor; [|rewrite Forall_forall in Hdone |- *; intros k Hk; apply Hran; [set_solver|by apply Hdone]].
      exists c, (sys_heap sys), (sys_subs sys). split_and!; [done| |done]. by rewrite (Hother n Hn), lookup_insert_eq.
    + destruct rest as [|k others]; [done|]. destruct Hrest as (Hr & Hk & Hleft). split_and!; [done|apply Hran; [set_solver|done]|].
      rewrite Forall_forall in Hleft |- *. intros i Hi. rewrite (Hleft i Hi). apply Hsame. set_solver.
  - simplify_eq. cbn [sys_shuttingDown sys_controllers]. split; [done|]. split; [intros k [Hkn Hk]%not_elem_of_cons; by apply lookup_insert_ne|].
    exists [], (n :: names). split_and!; [done|constructor|done| |apply Forall_forall; by intros k Hk; apply Hsame].
    exists c, (sys_heap sys), (sys_subs sys). split_and!; [done|by rewrite lookup_insert_eq|done].
  - simplify_eq. cbn [sys_shuttingDown sys_controllers]. split; [done|]. split; [intros k [Hkn Hk]%not_elem_of_cons; by apply lookup_insert_ne|].
    exists [], (n :: names). split_and!; [done|constructor|done| |apply Forall_forall; by intros k Hk; apply Hsame].
    exists c, (sys_heap sys), (sys_subs sys). split_and!; [done|by rewrite lookup_insert_eq|done].
Qed.

(** Every map is iterated over once. *)
Context (order_all : ∀ l, order l ≡ₚ (map_to_list l).*1).

Lemma for_controllers_spec (m : st W db_error unit) (sys sys' : SYS) (r : go db_error unit) : for_controllers m sys = (sys', r) →
  sys_shuttingDown sys' = sys_shuttingDown sys ∧
  ran_until_error m (sys_shuttingDown sys) (duplicateControllers sys) (sys_controllers sys) (sys_controllers sys') r.
Proof.
  unfold for_controllers, duplicateControllers. intros Hrun.
  destruct (iter_controllers_spec m (order (sys_controllers sys))) with (sys := sys) (sys' := sys') (r := r) as (H1 & _ & H2); [| |done|done].
  - rewrite order_all. apply NoDup_fst_map_to_list.
  - apply Forall_forall. intros n Hn. rewrite order_all in Hn. apply list_elem_of_fmap in Hn as ([k c] & -> & Hc%elem_of_map_to_list). by exists c.
Qed.

(** ** Properties *)

(** A run of the record maintenance goes through the databases in turn, each once,
    and stops at the first that fails; the databases after it are left alone. *)
Theorem MaintainRecordStates_visits (now : Z) (sys sys' : SYS) (r : go db_error unit) : db_MaintainRecordStates now sys = (sys', r) →
  ran_until_error (Controller_MaintainRecordStates now now) (sys_shuttingDown sys) (duplicateControllers sys) (sys_controllers sys) (sys_controllers sys') r.
Proof. by intros [_ H]%for_controllers_spec. Qed.

(** After Shutdown, whatever the storages answered, every access to a controller that
    is not a shutdown fails and changes nothing, and another Shutdown does nothing.
    The storages were shut down in turn up to the first that failed. *)
Theorem Shutdown_stops (accessor_of : V → option Accessor) (sys sys' : SYS) (r : go db_error unit) : sys_shuttingDown sys = false → db_Shutdown sys = (sys', r) →
  ran_until_error Controller_Shutdown true (duplicateControllers sys) (sys_controllers sys) (sys_controllers sys') r ∧
  db_Shutdown sys' = (sys', Ret tt) ∧
  (∀ n now key rec q local internal, is_Some (sys_controllers sys' !! n) →
    on_controller n (Controller_Get accessor_of now key) sys' = (sys', Fail DbErrShuttingDown) ∧
    on_controller n (Controller_GetMeta now key) sys' = (sys', Fail DbErrShuttingDown) ∧
    on_controller n (Controller_Put accessor_of rec) sys' = (sys', Fail DbErrShuttingDown) ∧
    on_controller n (Controller_Query now q local internal) sys' = (sys', Fail DbErrShuttingDown) ∧
    on_controller n (Controller_Purge now q local internal) sys' = (sys', Fail DbErrShuttingDown) ∧
    on_controller n (Controller_MaintainRecordStates now now) sys' = (sys', Fail DbErrShuttingDown)).
Proof.
  unfold db_Shutdown. intros -> [Hdown Hran]%for_controllers_spec. cbn [sys_shuttingDown sys_controllers] in Hdown, Hran. split; [done|]. rewrite Hdown. split; [done|].
  intros n now key rec q local internal [c Hc].
  assert (∀ B (m : st W db_error B), on_controller n (st_bind check_shutdown (λ _, m)) sys' = (sys', Fail DbErrShuttingDown)) as Hfail.
  { intros B m. unfold on_controller, st_bind, check_shutdown. rewrite Hc, Hdown. cbn. f_equal. rewrite insert_id by done. rewrite <- Hdown. by destruct sys'. }
  split_and!; apply Hfail.
Qed.

End Maintenance.

(** *** Witnesses *)

Definition any_order {V R S : Type} (l : gmap string (Controller V R S)) : list string := (map_to_list l).*1.

#[local] Instance maintenance_storage : StorageInterface unit string HashMap := HashMap_storage no_accessor.

(** Two databases; the record of the first one has expired. *)
Definition two_databases : System unit string HashMap :=
  set_controllers {[ "core"%string := mkController "core" (NewHashMap "core") false [] []; "test"%string := example_controller ]}
    (example_system (mkMeta 1 1 5 0 false false)).

Definition maintained_databases : System unit string HashMap := (db_MaintainRecordStates any_order 100 two_databases).1.

Lemma MaintainRecordStates_visits_witness :
  hm_db ∘ c_storage <$> sys_controllers maintained_databases !! "test"%string = Some ∅ ∧
  ran_until_error (Controller_MaintainRecordStates 100 100) false (duplicateControllers any_order two_databases)
    (sys_controllers two_databases) (sys_controllers maintained_databases) (Ret tt).
Proof.
  split; [vm_compute; reflexivity|].
  refine (MaintainRecordStates_visits any_order (λ l, reflexivity _) 100 two_databases maintained_databases (Ret tt) _). vm_compute. reflexivity.
Defined.

Definition stopped_databases : System unit string HashMap := (db_Shutdown any_order two_databases).1.

Lemma Shutdown_stops_witness :
  is_Some (sys_controllers stopped_databases !! "test"%string) ∧
  ran_until_error Controller_Shutdown true (duplicateControllers any_order two_databases) (sys_controllers two_databases) (sys_controllers stopped_databases) (Ret tt) ∧
  db_Shutdown any_order stopped_databases = (stopped_databases, Ret tt) ∧
  (∀ n now key rec q local internal, is_Some (sys_controllers stopped_databases !! n) →
    on_controller n (Controller_Get no_accessor now key) stopped_databases = (stopped_databases, Fail DbErrShuttingDown) ∧
    on_controller n (Controller_GetMeta now key) stopped_databases = (stopped_databases, Fail DbErrShuttingDown) ∧
    on_controller n (Controller_Put no_accessor rec) stopped_databases = (stopped_databases, Fail DbErrShuttingDown) ∧
    on_controller n (Controller_Query now q local internal) stopped_databases = (stopped_databases, Fail DbErrShuttingDown) ∧
    on_controller n (Controller_Purge now q local internal) stopped_databases = (stopped_databases, Fail DbErrShuttingDown) ∧
    on_controller n (Controller_MaintainRecordStates now now) stopped_databases = (stopped_databases, Fail DbErrShuttingDown)).
Proof.
  split; [by eexists; vm_compute|].
  refine (Shutdown_stops any_order (λ l, reflexivity _) no_accessor two_databases stopped_databases (Ret tt) _ _); vm_compute; reflexivity.
Defined.

(** *** What modelling showed *)

Section Broken.

(** A storage that cannot be closed. *)
#[local] Instance broken_storage : StorageInterface unit string HashMap := {|
  storage_Get := HashMap_Get;
  storage_GetMeta := Some HashMap_GetMeta;
  storage_Put := HashMap_Put;
  storage_PutMany := None;
  storage_Delete := storage_Delete (StorageInterface := maintenance_storage);
  storage_Query := storage_Query (StorageInterface := maintenance_storage);
  storage_ReadOnly _ := false;
  storage_Injected _ := false;
  storage_Maintain := None;
  storage_MaintainRecordStates := storage_MaintainRecordStates (StorageInterface := maintenance_storage);
  storage_Purge := None;
  storage_Shutdown := λ '(h, hm), ((h, mkHashMap (hm_name hm ++ " closed") (hm_db hm)), if String.eqb (hm_name hm) "core" then Fail StorageErrNotFound else Ret tt);
|}.

(** When the storage of one database fails, those after it are not shut down, and
    the next call of Shutdown reports success without trying them. *)
Lemma Shutdown_leaves_running :
  let names s := hm_name ∘ c_storage <$> (map_to_list (sys_controllers s)).*2 in
  let '(s1, r1) := db_Shutdown any_order two_databases in
  let '(s2, r2) := db_Shutdown any_order s1 in
  (names s1, r1, names s2, r2) = (["core closed"; "test"]%string, Fail (DbErrStorage StorageErrNotFound), ["core closed"; "test"]%string, Ret tt).
Proof. vm_compute. reflexivity. Qed.

End Broken.
