(* ===== verification/Modules.v ===== *)
(** * modules: the life cycle of modules

    modules.go, status.go, start.go, stop.go, mgmt.go and worker.go. A module is
    a record, found by its name in the map [modules]; a pointer to a module is
    its name, since [Register] refuses a second module of a name. The goroutines
    are explicit: [procs] holds every goroutine that runs or waits, and the
    thread that holds mgmtLock (a call of Start, ManageModules or Shutdown) is
    [mgmt], with the counters of the report loop it is in. A [step] lets one of
    them do its next action, a worker or a caller act from outside, or an event
    happen; what the scheduler, the control functions and the clock decide
    (which goroutine runs, the order of a range over a map, the result of a
    function, whether a timeout fires) is in the event. So a run is a list of
    events and every interleaving of these steps is a run.

    One step is what the code does under a module's lock, or between two
    accesses to shared state; the statuses a readiness check reads are read in
    one step. Sleep mode, logging and error reporting are not modelled. *)

From Stdlib Require Import ZArith Lia Ascii String.
From S2P Require Import Prelude.
Local Open Scope Z_scope.

(** ** status.go: values *)

Definition StatusDead : Z := 0.
Definition StatusPreparing : Z := 1.
Definition StatusOffline : Z := 2.
Definition StatusStopping : Z := 3.
Definition StatusStarting : Z := 4.
Definition StatusOnline : Z := 5.

Definition FailureNone : Z := 0.
Definition FailureHint : Z := 1.
Definition FailureWarning : Z := 2.
Definition FailureError : Z := 3.

(** The ready stati. *)
Inductive ready_status : Type := statusWaiting | statusReady | statusNothingToDo.

#[global] Instance ready_status_eq_dec : EqDecision ready_status.
Proof. solve_decision. Defined.

(** A signal channel: nil, made, or closed. *)
Inductive chan_state : Type := ChanNil | ChanOpen | ChanClosed.

#[global] Instance chan_state_eq_dec : EqDecision chan_state.
Proof. solve_decision. Defined.

(** Closing a nil or a closed channel panics. *)
Definition close_chan {E : Type} (c : chan_state) : go E chan_state :=
  match c with ChanOpen => Ret ChanClosed | _ => Panic end.

(** The errors of the package; [ErrFn] is any other error of a control
    function. *)
Inductive mod_error : Type :=
| ErrCleanExit
| ErrFn (msg : string)
| ErrTimeout
| ErrAlreadyPrepped
| ErrNotOffline
| ErrNotOnline
| ErrDependencyLoop
| ErrPrepFailed (name : string) (err : mod_error)
| ErrStartFailed (name : string) (err : mod_error)
| ErrDependencyMissing (name dep : string)
| ErrAlreadyStarted
| ErrShutdownInitiated
| ErrStartup (msg : string).

#[global] Instance mod_error_eq_dec : EqDecision mod_error.
Proof. solve_decision. Defined.

(** [errors.Is(err, ErrCleanExit)]: through the wrapped errors. *)
Fixpoint is_clean_exit (e : mod_error) : bool :=
  match e with
  | ErrCleanExit => true
  | ErrPrepFailed _ e' | ErrStartFailed _ e' => is_clean_exit e'
  | _ => false
  end.

(** [err.Error()]. *)
Fixpoint error_text (e : mod_error) : string :=
  match e with
  | ErrCleanExit => "clean exit requested"
  | ErrFn msg | ErrStartup msg => msg
  | ErrTimeout => "timed out (2m0s)"
  | ErrAlreadyPrepped => "module already prepped"
  | ErrNotOffline => "module not offline"
  | ErrNotOnline => "module not online"
  | ErrDependencyLoop => "modules: dependency loop detected, cannot continue"
  | ErrPrepFailed name err => "failed to prep module " ++ name ++ ": " ++ error_text err
  | ErrStartFailed name err => "modules: could not start module " ++ name ++ ": " ++ error_text err
  | ErrDependencyMissing name dep =>
      "module " ++ name ++ " declares dependency " ++ String "034" dep ++
      String "034" ", but this module has not been registered"
  | ErrAlreadyStarted => "module system already started"
  | ErrShutdownInitiated => "shutdown already initiated"
  end%string.

(** ** modules.go: the module *)

(** The control functions are only known to be set or nil: what they return is
    in the events. [ctxDone] is whether the module's context is cancelled. *)
Record GoModule : Type := mkGoModule {
  Name : string;
  enabled : bool;
  enabledAsDependency : bool;
  status : Z;
  failureStatus : Z;
  failureID : string;
  failureTitle : string;
  failureMsg : string;
  prepFn : bool;
  startFn : bool;
  stopFn : bool;
  startComplete : chan_state;
  ctxDone : bool;
  stopFlag : bool;
  stopCompleted : bool;
  stopComplete : chan_state;
  ctrlFuncRunning : bool;
  workerCnt : Z;
  taskCnt : Z;
  microTaskCnt : Z;
  depNames : list string;
  depModules : list string;
  depReverse : list string;
}.

Definition set_enabled (x : bool) (m : GoModule) : GoModule :=
  mkGoModule (Name m) x (enabledAsDependency m) (status m) (failureStatus m) (failureID m)
    (failureTitle m) (failureMsg m) (prepFn m) (startFn m) (stopFn m) (startComplete m)
    (ctxDone m) (stopFlag m) (stopCompleted m) (stopComplete m) (ctrlFuncRunning m) (workerCnt m)
    (taskCnt m) (microTaskCnt m) (depNames m) (depModules m) (depReverse m).

Definition set_enabledAsDependency (x : bool) (m : GoModule) : GoModule :=
  mkGoModule (Name m) (enabled m) x (status m) (failureStatus m) (failureID m) (failureTitle m)
    (failureMsg m) (prepFn m) (startFn m) (stopFn m) (startComplete m) (ctxDone m) (stopFlag m)
    (stopCompleted m) (stopComplete m) (ctrlFuncRunning m) (workerCnt m) (taskCnt m)
    (microTaskCnt m) (depNames m) (depModules m) (depReverse m).

Definition set_status (x : Z) (m : GoModule) : GoModule :=
  mkGoModule (Name m) (enabled m) (enabledAsDependency m) x (failureStatus m) (failureID m)
    (failureTitle m) (failureMsg m) (prepFn m) (startFn m) (stopFn m) (startComplete m)
    (ctxDone m) (stopFlag m) (stopCompleted m) (stopComplete m) (ctrlFuncRunning m) (workerCnt m)
    (taskCnt m) (microTaskCnt m) (depNames m) (depModules m) (depReverse m).

Definition set_startComplete (x : chan_state) (m : GoModule) : GoModule :=
  mkGoModule (Name m) (enabled m) (enabledAsDependency m) (status m) (failureStatus m)
    (failureID m) (failureTitle m) (failureMsg m) (prepFn m) (startFn m) (stopFn m) x (ctxDone m)
    (stopFlag m) (stopCompleted m) (stopComplete m) (ctrlFuncRunning m) (workerCnt m) (taskCnt m)
    (microTaskCnt m) (depNames m) (depModules m) (depReverse m).

Definition set_ctxDone (x : bool) (m : GoModule) : GoModule :=
  mkGoModule (Name m) (enabled m) (enabledAsDependency m) (status m) (failureStatus m)
    (failureID m) (failureTitle m) (failureMsg m) (prepFn m) (startFn m) (stopFn m)
    (startComplete m) x (stopFlag m) (stopCompleted m) (stopComplete m) (ctrlFuncRunning m)
    (workerCnt m) (taskCnt m) (microTaskCnt m) (depNames m) (depModules m) (depReverse m).

Definition set_stopFlag (x : bool) (m : GoModule) : GoModule :=
  mkGoModule (Name m) (enabled m) (enabledAsDependency m) (status m) (failureStatus m)
    (failureID m) (failureTitle m) (failureMsg m) (prepFn m) (startFn m) (stopFn m)
    (startComplete m) (ctxDone m) x (stopCompleted m) (stopComplete m) (ctrlFuncRunning m)
    (workerCnt m) (taskCnt m) (microTaskCnt m) (depNames m) (depModules m) (depReverse m).

Definition set_stopCompleted (x : bool) (m : GoModule) : GoModule :=
  mkGoModule (Name m) (enabled m) (enabledAsDependency m) (status m) (failureStatus m)
    (failureID m) (failureTitle m) (failureMsg m) (prepFn m) (startFn m) (stopFn m)
    (startComplete m) (ctxDone m) (stopFlag m) x (stopComplete m) (ctrlFuncRunning m)
    (workerCnt m) (taskCnt m) (microTaskCnt m) (depNames m) (depModules m) (depReverse m).

Definition set_stopComplete (x : chan_state) (m : GoModule) : GoModule :=
  mkGoModule (Name m) (enabled m) (enabledAsDependency m) (status m) (failureStatus m)
    (failureID m) (failureTitle m) (failureMsg m) (prepFn m) (startFn m) (stopFn m)
    (startComplete m) (ctxDone m) (stopFlag m) (stopCompleted m) x (ctrlFuncRunning m)
    (workerCnt m) (taskCnt m) (microTaskCnt m) (depNames m) (depModules m) (depReverse m).

Definition set_ctrlFuncRunning (x : bool) (m : GoModule) : GoModule :=
  mkGoModule (Name m) (enabled m) (enabledAsDependency m) (status m) (failureStatus m)
    (failureID m) (failureTitle m) (failureMsg m) (prepFn m) (startFn m) (stopFn m)
    (startComplete m) (ctxDone m) (stopFlag m) (stopCompleted m) (stopComplete m) x (workerCnt m)
    (taskCnt m) (microTaskCnt m) (depNames m) (depModules m) (depReverse m).

Definition set_workerCnt (x : Z) (m : GoModule) : GoModule :=
  mkGoModule (Name m) (enabled m) (enabledAsDependency m) (status m) (failureStatus m)
    (failureID m) (failureTitle m) (failureMsg m) (prepFn m) (startFn m) (stopFn m)
    (startComplete m) (ctxDone m) (stopFlag m) (stopCompleted m) (stopComplete m)
    (ctrlFuncRunning m) x (taskCnt m) (microTaskCnt m) (depNames m) (depModules m) (depReverse m).

Definition set_taskCnt (x : Z) (m : GoModule) : GoModule :=
  mkGoModule (Name m) (enabled m) (enabledAsDependency m) (status m) (failureStatus m)
    (failureID m) (failureTitle m) (failureMsg m) (prepFn m) (startFn m) (stopFn m)
    (startComplete m) (ctxDone m) (stopFlag m) (stopCompleted m) (stopComplete m)
    (ctrlFuncRunning m) (workerCnt m) x (microTaskCnt m) (depNames m) (depModules m)
    (depReverse m).

Definition set_microTaskCnt (x : Z) (m : GoModule) : GoModule :=
  mkGoModule (Name m) (enabled m) (enabledAsDependency m) (status m) (failureStatus m)
    (failureID m) (failureTitle m) (failureMsg m) (prepFn m) (startFn m) (stopFn m)
    (startComplete m) (ctxDone m) (stopFlag m) (stopCompleted m) (stopComplete m)
    (ctrlFuncRunning m) (workerCnt m) (taskCnt m) x (depNames m) (depModules m) (depReverse m).

Definition set_depModules (x : list string) (m : GoModule) : GoModule :=
  mkGoModule (Name m) (enabled m) (enabledAsDependency m) (status m) (failureStatus m)
    (failureID m) (failureTitle m) (failureMsg m) (prepFn m) (startFn m) (stopFn m)
    (startComplete m) (ctxDone m) (stopFlag m) (stopCompleted m) (stopComplete m)
    (ctrlFuncRunning m) (workerCnt m) (taskCnt m) (microTaskCnt m) (depNames m) x (depReverse m).

Definition set_depReverse (x : list string) (m : GoModule) : GoModule :=
  mkGoModule (Name m) (enabled m) (enabledAsDependency m) (status m) (failureStatus m)
    (failureID m) (failureTitle m) (failureMsg m) (prepFn m) (startFn m) (stopFn m)
    (startComplete m) (ctxDone m) (stopFlag m) (stopCompleted m) (stopComplete m)
    (ctrlFuncRunning m) (workerCnt m) (taskCnt m) (microTaskCnt m) (depNames m) (depModules m) x.

Definition set_failure (st : Z) (id title msg : string) (m : GoModule) : GoModule :=
  mkGoModule (Name m) (enabled m) (enabledAsDependency m) (status m) st id title msg (prepFn m)
    (startFn m) (stopFn m) (startComplete m) (ctxDone m) (stopFlag m) (stopCompleted m)
    (stopComplete m) (ctrlFuncRunning m) (workerCnt m) (taskCnt m) (microTaskCnt m) (depNames m)
    (depModules m) (depReverse m).

Definition initNewModule (name : string) (prep start stop : bool) (dependencies : list string)
    : GoModule :=
  mkGoModule name false false StatusDead FailureNone "" "" "" prep start stop
    ChanOpen false false true ChanNil false 0 0 0 dependencies [] [].

(** ** Goroutines *)

Inductive phase : Type := PhPrep | PhStart | PhStop.

#[global] Instance phase_eq_dec : EqDecision phase.
Proof. solve_decision. Defined.

(** The counters of a module, and what a worker does that the modules package
    itself starts: user code, the change notification, or the update of the
    failure status. *)
Inductive counter : Type := CntWorker | CntTask | CntMicroTask.
Inductive work : Type := WorkUser | WorkNotify | WorkFailureUpdate (resolveFailureID : string).

(** [PBegin ph n ch] is the goroutine that prep, start or stop of module [n]
    starts, before its first action; [ch] is the reports channel. [PWait] is the
    same goroutine in its select, [k] being the error channel of the control
    function. [PSend] is a goroutine blocked on [reports <- ...]. [PCtrl] is a
    control function, [PCtrlEnd] the same after it sent its error. [PJobStart]
    is a worker, task or microtask before it is counted, [PJobRun] after. *)
Inductive proc : Type :=
| PBegin (ph : phase) (n : string) (ch : nat)
| PWait (ph : phase) (n : string) (ch k : nat)
| PSend (n : string) (err : option mod_error) (ch : nat)
| PCtrl (n : string) (k : nat)
| PCtrlEnd (n : string)
| PJobStart (c : counter) (n : string) (w : work)
| PJobRun (c : counter) (n : string) (w : work).

(** ** The report loops: local variables of prepareModules, startModules and
    stopModules *)

(** [l_todo] is what the range over the modules has still to visit in this
    pass, [l_chan] the loop's reports channel. *)
Record Loop : Type := mkLoop {
  l_phase : phase;
  l_chan : nat;
  l_todo : list string;
  l_waiting : nat;
  l_execCnt : nat;
  l_reportCnt : nat;
  l_lastErr : option mod_error;
}.

Inductive job : Type := JobStart | JobManage | JobShutdown.

(** The holder of mgmtLock: the call, its current loop and, in ManageModules,
    the error of stopModules. *)
Record Mgmt : Type := mkMgmt {
  m_job : job;
  m_loop : Loop;
  m_lastErr : option mod_error;
}.

(** What Start calls outside this model: the results of parseFlags and of the
    global prep function, whether a command line operation is set, and the
    result of starting the logger. *)
Record startup : Type := mkStartup {
  su_parseFlags : option mod_error;
  su_globalPrepFn : option mod_error;
  su_cmdLineOperation : bool;
  su_logStart : option mod_error;
}.

(** The package variables, the goroutines, the buffered error channels of the
    control functions ([cells], empty when absent), what the failure update
    function was called with, and the results of finished calls. *)
Record ModSys : Type := mkModSys {
  modules : gmap string GoModule;
  modulesLocked : bool;
  moduleMgmtEnabled : bool;
  modulesChangeNotifyFn : bool;
  failureUpdateNotifyFuncReady : bool;
  shutdownFlag : bool;
  initialStartCompleted : bool;
  setup : startup;
  procs : list proc;
  cells : gmap nat (option mod_error);
  next_chan : nat;
  failure_log : list (Z * string * string * string);
  mgmt : option Mgmt;
  results : list (job * option mod_error);
}.

Definition put_modules (x : gmap string GoModule) (s : ModSys) : ModSys :=
  mkModSys x (modulesLocked s) (moduleMgmtEnabled s) (modulesChangeNotifyFn s)
    (failureUpdateNotifyFuncReady s) (shutdownFlag s) (initialStartCompleted s) (setup s)
    (procs s) (cells s) (next_chan s) (failure_log s) (mgmt s) (results s).

Definition put_modulesLocked (x : bool) (s : ModSys) : ModSys :=
  mkModSys (modules s) x (moduleMgmtEnabled s) (modulesChangeNotifyFn s)
    (failureUpdateNotifyFuncReady s) (shutdownFlag s) (initialStartCompleted s) (setup s)
    (procs s) (cells s) (next_chan s) (failure_log s) (mgmt s) (results s).

Definition put_moduleMgmtEnabled (x : bool) (s : ModSys) : ModSys :=
  mkModSys (modules s) (modulesLocked s) x (modulesChangeNotifyFn s)
    (failureUpdateNotifyFuncReady s) (shutdownFlag s) (initialStartCompleted s) (setup s)
    (procs s) (cells s) (next_chan s) (failure_log s) (mgmt s) (results s).

Definition put_modulesChangeNotifyFn (x : bool) (s : ModSys) : ModSys :=
  mkModSys (modules s) (modulesLocked s) (moduleMgmtEnabled s) x (failureUpdateNotifyFuncReady s)
    (shutdownFlag s) (initialStartCompleted s) (setup s) (procs s) (cells s) (next_chan s)
    (failure_log s) (mgmt s) (results s).

Definition put_shutdownFlag (x : bool) (s : ModSys) : ModSys :=
  mkModSys (modules s) (modulesLocked s) (moduleMgmtEnabled s) (modulesChangeNotifyFn s)
    (failureUpdateNotifyFuncReady s) x (initialStartCompleted s) (setup s) (procs s) (cells s)
    (next_chan s) (failure_log s) (mgmt s) (results s).

Definition put_initialStartCompleted (x : bool) (s : ModSys) : ModSys :=
  mkModSys (modules s) (modulesLocked s) (moduleMgmtEnabled s) (modulesChangeNotifyFn s)
    (failureUpdateNotifyFuncReady s) (shutdownFlag s) x (setup s) (procs s) (cells s)
    (next_chan s) (failure_log s) (mgmt s) (results s).

Definition put_procs (x : list proc) (s : ModSys) : ModSys :=
  mkModSys (modules s) (modulesLocked s) (moduleMgmtEnabled s) (modulesChangeNotifyFn s)
    (failureUpdateNotifyFuncReady s) (shutdownFlag s) (initialStartCompleted s) (setup s) x
    (cells s) (next_chan s) (failure_log s) (mgmt s) (results s).

Definition put_cells (x : gmap nat (option mod_error)) (s : ModSys) : ModSys :=
  mkModSys (modules s) (modulesLocked s) (moduleMgmtEnabled s) (modulesChangeNotifyFn s)
    (failureUpdateNotifyFuncReady s) (shutdownFlag s) (initialStartCompleted s) (setup s)
    (procs s) x (next_chan s) (failure_log s) (mgmt s) (results s).

Definition put_next_chan (x : nat) (s : ModSys) : ModSys :=
  mkModSys (modules s) (modulesLocked s) (moduleMgmtEnabled s) (modulesChangeNotifyFn s)
    (failureUpdateNotifyFuncReady s) (shutdownFlag s) (initialStartCompleted s) (setup s)
    (procs s) (cells s) x (failure_log s) (mgmt s) (results s).

Definition put_failure_log (x : list (Z * string * string * string)) (s : ModSys) : ModSys :=
  mkModSys (modules s) (modulesLocked s) (moduleMgmtEnabled s) (modulesChangeNotifyFn s)
    (failureUpdateNotifyFuncReady s) (shutdownFlag s) (initialStartCompleted s) (setup s)
    (procs s) (cells s) (next_chan s) x (mgmt s) (results s).

Definition put_mgmt (x : option Mgmt) (s : ModSys) : ModSys :=
  mkModSys (modules s) (modulesLocked s) (moduleMgmtEnabled s) (modulesChangeNotifyFn s)
    (failureUpdateNotifyFuncReady s) (shutdownFlag s) (initialStartCompleted s) (setup s)
    (procs s) (cells s) (next_chan s) (failure_log s) x (results s).

Definition put_results (x : list (job * option mod_error)) (s : ModSys) : ModSys :=
  mkModSys (modules s) (modulesLocked s) (moduleMgmtEnabled s) (modulesChangeNotifyFn s)
    (failureUpdateNotifyFuncReady s) (shutdownFlag s) (initialStartCompleted s) (setup s)
    (procs s) (cells s) (next_chan s) (failure_log s) (mgmt s) x.


(** ** Steps *)

(** A step that is not possible in this state. *)
Inductive disabled : Type := Disabled.

Definition spawn (p : proc) (s : ModSys) : ModSys := put_procs (procs s ++ [p]) s.

(** A change of a module through its pointer. *)
Definition on_module (n : string) (f : GoModule → go disabled GoModule) (s : ModSys)
    : go disabled ModSys :=
  match modules s !! n with
  | Some m => let! m' := f m in Ret (put_modules (<[n := m']> (modules s)) s)
  | None => Panic
  end.

Definition mod_module (n : string) (f : GoModule → GoModule) : ModSys → go disabled ModSys :=
  on_module n (λ m, Ret (f m)).

(** *** worker.go, mgmt.go, status.go *)

Definition checkIfStopComplete (m : GoModule) : go disabled GoModule :=
  if stopFlag m && negb (ctrlFuncRunning m) && (workerCnt m =? 0) && (taskCnt m =? 0)
     && (microTaskCnt m =? 0)
  then
    if stopCompleted m then Ret m
    else let! c := close_chan (stopComplete m) in Ret (set_stopComplete c (set_stopCompleted true m))
  else Ret m.

Definition add_count (c : counter) (x : Z) (m : GoModule) : GoModule :=
  match c with
  | CntWorker => set_workerCnt (workerCnt m + x) m
  | CntTask => set_taskCnt (taskCnt m + x) m
  | CntMicroTask => set_microTaskCnt (microTaskCnt m + x) m
  end.

Definition StartWorker (n : string) (w : work) : ModSys → ModSys := spawn (PJobStart CntWorker n w).

Definition notifyOfChange (n : string) (s : ModSys) : ModSys :=
  if moduleMgmtEnabled s && modulesChangeNotifyFn s then StartWorker n WorkNotify s else s.

Definition log_failure (entries : list (Z * string * string * string)) (s : ModSys) : ModSys :=
  put_failure_log (failure_log s ++ entries) s.

(** The failure update runs in the calling goroutine (RunWorker): the worker
    counter is back at its value when it returns and calls
    checkIfStopComplete. *)
Definition setFailure (st : Z) (id title msg : string) (n : string) (s : ModSys)
    : go disabled ModSys :=
  match modules s !! n with
  | None => Panic
  | Some m =>
      let same := bool_decide (id = failureID m) in
      let resolveFailureID := if same then ""%string else failureID m in
      let m' := if same then m else set_failure st id title msg m in
      let s1 := notifyOfChange n (put_modules (<[n := m']> (modules s)) s) in
      if failureUpdateNotifyFuncReady s1 then
        let resolved := if bool_decide (resolveFailureID = ""%string) then []
                        else [(FailureNone, resolveFailureID, ""%string, ""%string)] in
        on_module n checkIfStopComplete (log_failure (resolved ++ [(st, id, title, msg)]) s1)
      else Ret s1
  end.

Definition Module_Error : string → string → string → string → ModSys → go disabled ModSys :=
  setFailure FailureError.

Definition Resolve (failureID' : string) (n : string) (s : ModSys) : go disabled ModSys :=
  match modules s !! n with
  | None => Panic
  | Some m =>
      if negb (bool_decide (failureID' = ""%string)) && negb (bool_decide (failureID' = failureID m))
      then Ret s
      else
        let s1 := notifyOfChange n
          (put_modules (<[n := set_failure FailureNone "" "" "" m]> (modules s)) s) in
        Ret (if failureUpdateNotifyFuncReady s1
             then StartWorker n (WorkFailureUpdate (failureID m)) s1 else s1)
  end.

Definition Enable (m : GoModule) : GoModule * bool := (set_enabled true m, negb (enabled m)).

Definition Disable (m : GoModule) : GoModule * bool := (set_enabled false m, enabled m).

Definition SetEnabled (enable : bool) (m : GoModule) : GoModule * bool :=
  if enable then Enable m else Disable m.

Definition EnableModuleManagement (changeNotifyFn : bool) (s : ModSys) : ModSys :=
  if moduleMgmtEnabled s then s
  else put_modulesChangeNotifyFn changeNotifyFn (put_moduleMgmtEnabled true s).

Definition DisableModuleManagement (s : ModSys) : ModSys := put_moduleMgmtEnabled false s.

(** [startCtrlFn] returns the error channel it made. *)
Definition startCtrlFn (fn : bool) (n : string) (s : ModSys) : go disabled (ModSys * nat) :=
  let k := next_chan s in
  let s1 := put_next_chan (S k) s in
  if fn then
    let! s2 := mod_module n (set_ctrlFuncRunning true) s1 in
    Ret (spawn (PCtrl n k) s2, k)
  else
    let! s2 := on_module n (λ m, checkIfStopComplete (set_ctrlFuncRunning false m)) s1 in
    Ret (put_cells (<[k := None]> (cells s2)) s2, k).

(** *** status.go: readiness *)

Definition Status (s : ModSys) (n : string) : Z :=
  match modules s !! n with Some m => status m | None => StatusDead end.

Definition readyToPrep (s : ModSys) (m : GoModule) : ready_status :=
  if negb (status m =? StatusDead) then statusNothingToDo
  else if existsb (λ dep, Status s dep <? StatusOffline) (depModules m) then statusWaiting
  else statusReady.

Definition readyToStart (s : ModSys) (m : GoModule) : ready_status :=
  if moduleMgmtEnabled s && (negb (enabled m) && negb (enabledAsDependency m)) then statusNothingToDo
  else if negb (status m =? StatusOffline) then statusNothingToDo
  else if existsb (λ dep, Status s dep <? StatusOnline) (depModules m) then statusWaiting
  else statusReady.

Definition readyToStop (s : ModSys) (m : GoModule) : ready_status :=
  if moduleMgmtEnabled s && negb (shutdownFlag s) && (enabled m || enabledAsDependency m)
  then statusNothingToDo
  else if negb (status m =? StatusOnline) then statusNothingToDo
  else if existsb (λ revDep, StatusOffline <? Status s revDep) (depReverse m) then statusWaiting
  else statusReady.

(** *** modules.go: prep, start, stop *)

Definition Module_prep (reports : nat) (n : string) (m : GoModule) (s : ModSys) : ModSys :=
  if negb (status m =? StatusDead) then spawn (PSend n (Some ErrAlreadyPrepped) reports) s
  else spawn (PBegin PhPrep n reports)
         (put_modules (<[n := set_status StatusPreparing m]> (modules s)) s).

Definition Module_start (reports : nat) (n : string) (m : GoModule) (s : ModSys) : ModSys :=
  if negb (status m =? StatusOffline) then spawn (PSend n (Some ErrNotOffline) reports) s
  else spawn (PBegin PhStart n reports)
         (put_modules (<[n := set_stopFlag false (set_ctxDone false (set_status StatusStarting m))]>
                        (modules s)) s).

Definition Module_stop (reports : nat) (n : string) (m : GoModule) (s : ModSys) : ModSys :=
  if negb (status m =? StatusOnline) then spawn (PSend n (Some ErrNotOnline) reports) s
  else spawn (PBegin PhStop n reports)
         (put_modules (<[n := set_status StatusStopping (set_stopCompleted false
            (set_stopComplete ChanOpen (set_startComplete ChanOpen m)))]> (modules s)) s).

(** The end of the goroutine of prep, with the error of the prep function. *)
Definition prep_end (n : string) (err : option mod_error) (reports : nat) (s : ModSys)
    : go disabled ModSys :=
  let! s1 :=
    match err with
    | Some e => Module_Error (n ++ ":prep-failed") ("Preparing module " ++ n ++ " failed")
                  ("Failed to prep module: " ++ error_text e) n s
    | None =>
        let! s' := mod_module n (set_status StatusOffline) s in Ret (notifyOfChange n s')
    end in
  Ret (spawn (PSend n err reports) s1).

(** The end of the goroutine of start. *)
Definition start_end (n : string) (err : option mod_error) (reports : nat) (s : ModSys)
    : go disabled ModSys :=
  let! s1 :=
    match err with
    | Some e => Module_Error (n ++ ":start-failed") ("Starting module " ++ n ++ " failed")
                  ("Failed to start module: " ++ error_text e) n s
    | None =>
        let! s' := on_module n (λ m, let! c := close_chan (startComplete m) in
                                     Ret (set_startComplete c (set_status StatusOnline m))) s in
        Ret (notifyOfChange n s')
    end in
  Ret (spawn (PSend n err reports) s1).

(** The first part of stopAllTasks, up to the select. *)
Definition stopAllTasks_begin (n : string) (reports : nat) (s : ModSys) : go disabled ModSys :=
  let! s1 := mod_module n (λ m, set_ctxDone true (set_stopFlag true (set_ctrlFuncRunning true m))) s in
  let! sk := startCtrlFn (match modules s1 !! n with Some m => stopFn m | None => false end) n s1 in
  Ret (spawn (PWait PhStop n reports sk.2) sk.1).

(** The rest of stopAllTasks, with the error of the stop function, if it has
    reported one by then. *)
Definition stopAllTasks_end (n : string) (err : option mod_error) (reports : nat) (s : ModSys)
    : go disabled ModSys :=
  let! s1 :=
    match err with
    | Some e => Module_Error (n ++ ":stop-failed") ("Stopping module " ++ n ++ " failed")
                  ("Failed to stop module: " ++ error_text e) n s
    | None => Ret s
    end in
  let! s2 := mod_module n (set_status StatusOffline) s1 in
  let! s3 := Resolve "" n (notifyOfChange n s2) in
  Ret (spawn (PSend n err reports) s3).

(** *** One action of a goroutine *)

(** What the outside decides: nothing, that the timeout fires first, or what
    the control function returns (a panic is returned as an error). *)
Inductive choice : Type := ChDefault | ChTimeout | ChResult (err : option mod_error).

(** The goroutine of prep and start waits in runCtrlFnWithTimeout for the error
    channel or the timeout. *)
Definition await_ctrl (k : nat) (c : choice) (s : ModSys) : go disabled (option mod_error) :=
  match c with
  | ChTimeout => Ret (Some ErrTimeout)
  | _ => match cells s !! k with Some err => Ret err | None => Fail Disabled end
  end.

(** stopAllTasks waits for stopComplete or the timeout, then takes the error of
    the stop function if it is there. *)
Definition await_stop (n : string) (k : nat) (c : choice) (s : ModSys)
    : go disabled (option mod_error) :=
  match modules s !! n with
  | None => Panic
  | Some m =>
      if bool_decide (stopComplete m = ChanClosed) || match c with ChTimeout => true | _ => false end
      then Ret (match cells s !! k with Some err => err | None => None end)
      else Fail Disabled
  end.

Definition run_work (w : work) (s : ModSys) : ModSys :=
  match w with
  | WorkFailureUpdate id => log_failure [(FailureNone, id, ""%string, ""%string)] s
  | WorkUser | WorkNotify => s
  end.

(** RunWorker, and likewise a task or microtask: counted, run, counted down. *)
Definition RunWorker_begin (cnt : counter) (n : string) (w : work) (s : ModSys) : go disabled ModSys :=
  let! s1 := mod_module n (add_count cnt 1) s in Ret (spawn (PJobRun cnt n w) s1).

Definition RunWorker_end (cnt : counter) (n : string) (w : work) (s : ModSys) : go disabled ModSys :=
  on_module n (λ m, checkIfStopComplete (add_count cnt (-1) m)) (run_work w s).

(** The deferred function of a control function's goroutine. *)
Definition ctrlFn_end (n : string) : ModSys → go disabled ModSys :=
  on_module n (λ m, checkIfStopComplete (set_ctrlFuncRunning false m)).

Definition run_proc (p : proc) (c : choice) (s : ModSys) : go disabled ModSys :=
  match p with
  | PBegin PhPrep n ch =>
      match modules s !! n with
      | None => Panic
      | Some m =>
          if prepFn m then
            let! sk := startCtrlFn true n s in Ret (spawn (PWait PhPrep n ch sk.2) sk.1)
          else prep_end n None ch s
      end
  | PBegin PhStart n ch =>
      match modules s !! n with
      | None => Panic
      | Some m =>
          if startFn m then
            let! sk := startCtrlFn true n s in Ret (spawn (PWait PhStart n ch sk.2) sk.1)
          else start_end n None ch s
      end
  | PBegin PhStop n ch => stopAllTasks_begin n ch s
  | PWait PhPrep n ch k => let! err := await_ctrl k c s in prep_end n err ch s
  | PWait PhStart n ch k => let! err := await_ctrl k c s in start_end n err ch s
  | PWait PhStop n ch k => let! err := await_stop n k c s in stopAllTasks_end n err ch s
  | PSend _ _ _ => Fail Disabled
  | PCtrl n k =>
      match c with
      | ChResult err => Ret (spawn (PCtrlEnd n) (put_cells (<[k := err]> (cells s)) s))
      | _ => Fail Disabled
      end
  | PCtrlEnd n => ctrlFn_end n s
  | PJobStart cnt n w => RunWorker_begin cnt n w s
  | PJobRun cnt n w => RunWorker_end cnt n w s
  end.

(** *** start.go, stop.go: the report loops *)

(** An order in which a range over the map may visit the modules. *)
Definition range_order (s : ModSys) (order : list string) : bool :=
  bool_decide (NoDup order ∧ (list_to_set order : gset string) = dom (modules s)).

Definition newLoop (ph : phase) (order : list string) (s : ModSys) : Loop :=
  mkLoop ph (next_chan s) order 0 0 0 None.

Definition ready (ph : phase) : ModSys → GoModule → ready_status :=
  match ph with PhPrep => readyToPrep | PhStart => readyToStart | PhStop => readyToStop end.

Definition begin_phase (ph : phase) : nat → string → GoModule → ModSys → ModSys :=
  match ph with PhPrep => Module_prep | PhStart => Module_start | PhStop => Module_stop end.

(** The body of the range over the modules, for the next module of the pass;
    the same in prepareModules, startModules and stopModules but for the
    readiness check and the call. *)
Definition loop_visit (n : string) (rest : list string) (l : Loop) (s : ModSys)
    : go disabled (Loop * ModSys) :=
  match modules s !! n with
  | None => Panic
  | Some m =>
      let next waiting execCnt :=
        mkLoop (l_phase l) (l_chan l) rest waiting execCnt (l_reportCnt l) (l_lastErr l) in
      match ready (l_phase l) s m with
      | statusNothingToDo => Ret (next (l_waiting l) (l_execCnt l), s)
      | statusWaiting => Ret (next (S (l_waiting l)) (l_execCnt l), s)
      | statusReady =>
          Ret (next (l_waiting l) (S (l_execCnt l)), begin_phase (l_phase l) (l_chan l) n m s)
      end
  end.

(** A received report: the loop returns an error ([inl]) or starts its next
    pass ([inr]). The three loops differ only here: prepareModules passes a
    clean exit on and wraps other errors, startModules wraps every error,
    stopModules remembers the error and goes on. *)
Definition loop_report (n : string) (err : option mod_error) (order : list string) (l : Loop)
    : mod_error + Loop :=
  let next lastErr :=
    inr (mkLoop (l_phase l) (l_chan l) order 0 (l_execCnt l) (S (l_reportCnt l)) lastErr) in
  match l_phase l, err with
  | _, None => next (l_lastErr l)
  | PhPrep, Some e => inl (if is_clean_exit e then e else ErrPrepFailed n e)
  | PhStart, Some e => inl (ErrStartFailed n e)
  | PhStop, Some e => next (Some e)
  end.

(** What the loop returns when all reports are in; only stopModules ever sets
    lastErr. *)
Definition loop_result (l : Loop) : option mod_error :=
  if (0 <? l_waiting l)%nat then Some ErrDependencyLoop else l_lastErr l.

(** *** mgmt.go: the dependency tree *)

(** Recursion happens only after a module got its mark, so the number of
    modules bounds its depth. *)
Fixpoint markDependencies (fuel : nat) (n : string) (ms : gmap string GoModule)
    : gmap string GoModule :=
  match fuel with
  | O => ms
  | S fuel' =>
      foldl (λ ms dep,
          match ms !! dep with
          | Some dm =>
              if enabledAsDependency dm then ms
              else markDependencies fuel' dep (<[dep := set_enabledAsDependency true dm]> ms)
          | None => ms
          end) ms (match ms !! n with Some m => depModules m | None => [] end)
  end.

Definition buildEnabledTree (order : list string) (ms : gmap string GoModule)
    : gmap string GoModule :=
  foldl (λ ms n,
      match ms !! n with
      | Some m => if enabled m then markDependencies (S (size ms)) n ms else ms
      | None => ms
      end) (set_enabledAsDependency false <$> ms) order.

(** *** modules.go: registration and linking *)

(** A second module of the same name panics. *)
Definition Modules_Register (name : string) (prep start stop : bool) (dependencies : list string)
    (s : ModSys) : go disabled ModSys :=
  if modulesLocked s then Ret s
  else match modules s !! name with
       | Some _ => Panic
       | None => Ret (put_modules (<[name := initNewModule name prep start stop dependencies]> (modules s)) s)
       end.

(** The inner loop of initDependencies for module [n]. *)
Fixpoint link_deps (n : string) (names : list string) (ms : gmap string GoModule)
    : gmap string GoModule * option mod_error :=
  match names with
  | [] => (ms, None)
  | depName :: names' =>
      if decide (is_Some (ms !! depName)) then
        link_deps n names'
          (alter (λ dm, set_depReverse (depReverse dm ++ [n]) dm) depName
            (alter (λ m, set_depModules (depModules m ++ [depName]) m) n ms))
      else (ms, Some (ErrDependencyMissing n depName))
  end.

Fixpoint initDependencies (order : list string) (ms : gmap string GoModule)
    : gmap string GoModule * option mod_error :=
  match order with
  | [] => (ms, None)
  | n :: order' =>
      match link_deps n (match ms !! n with Some m => depNames m | None => [] end) ms with
      | (ms', None) => initDependencies order' ms'
      | (ms', Some err) => (ms', Some err)
      end
  end.

(** *** Start, ManageModules, Shutdown *)

Definition record_result (j : job) (err : option mod_error) (s : ModSys) : ModSys :=
  put_results (results s ++ [(j, err)]) s.

(** Returning from a call that holds mgmtLock. *)
Definition finish (j : job) (err : option mod_error) (s : ModSys) : ModSys :=
  put_mgmt None (record_result j err s).

(** Entering a report loop: a new reports channel. *)
Definition enter_loop (j : job) (ph : phase) (lastErr : option mod_error) (order : list string)
    (s : ModSys) : ModSys :=
  put_mgmt (Some (mkMgmt j (newLoop ph order s) lastErr)) (put_next_chan (S (next_chan s)) s).

(** Start up to prepareModules, after its check of modulesLocked. Logging and
    the schedulers of tasks and microtasks it starts are not part of this
    state. *)
Definition Start_begin (order : list string) (s : ModSys) : ModSys :=
  let s1 := put_modulesLocked true s in
  match initDependencies order (modules s1) with
  | (ms, Some err) => finish JobStart (Some err) (put_modules ms s1)
  | (ms, None) =>
      let s2 := put_modules ms s1 in
      match su_parseFlags (setup s2), su_globalPrepFn (setup s2) with
      | Some err, _ => finish JobStart (Some err) s2
      | None, Some err => finish JobStart (Some err) s2
      | None, None => enter_loop JobStart PhPrep None order s2
      end
  end.

(** ManageModules up to stopModules, after its check that management is
    enabled. *)
Definition ManageModules_begin (order : list string) (s : ModSys) : ModSys :=
  enter_loop JobManage PhStop None order (put_modules (buildEnabledTree order (modules s)) s).

Definition Shutdown_begin (order : list string) (s : ModSys) : ModSys :=
  if shutdownFlag s then finish JobShutdown (Some ErrShutdownInitiated) s
  else enter_loop JobShutdown PhStop None order (put_shutdownFlag true s).

(** What the three calls do after a loop has returned. *)
Definition loop_return (j : job) (ph : phase) (lastErr res : option mod_error)
    (order : list string) (s : ModSys) : ModSys :=
  match j, ph, res with
  | JobStart, PhPrep, Some err => finish JobStart (Some err) s
  | JobStart, PhPrep, None =>
      if su_cmdLineOperation (setup s) then finish JobStart (Some ErrCleanExit) s
      else match su_logStart (setup s) with
           | Some err => finish JobStart (Some err) s
           | None => enter_loop JobStart PhStart None order
                       (put_modules (buildEnabledTree order (modules s)) s)
           end
  | JobStart, _, Some err => finish JobStart (Some err) s
  | JobStart, _, None => finish JobStart None (put_initialStartCompleted true s)
  | JobManage, PhStop, res => enter_loop JobManage PhStart res order s
  | JobManage, _, Some err => finish JobManage (Some err) s
  | JobManage, _, None => finish JobManage lastErr s
  | JobShutdown, _, res => finish JobShutdown res s
  end.

(** *** Events *)

Inductive event : Type :=
| EvRegister (name : string) (prep start stop : bool) (dependencies : list string)
| EvEnableModuleManagement (changeNotifyFn : bool)
| EvDisableModuleManagement
| EvSetEnabled (n : string) (enable : bool)
| EvFailure (n : string) (st : Z) (id title msg : string)
| EvResolve (n : string) (id : string)
| EvStartJob (c : counter) (n : string)
| EvRun (i : nat) (c : choice)
| EvStart (order : list string)
| EvManageModules (order : list string)
| EvShutdown (order : list string)
| EvVisit
| EvReceive (i : nat) (order : list string)
| EvReturn (order : list string).

(** A call of a method of a registered module. *)
Definition at_module (n : string) (f : ModSys → go disabled ModSys) (s : ModSys) : go disabled ModSys :=
  match modules s !! n with Some _ => f s | None => Fail Disabled end.

(** A call that needs mgmtLock. *)
Definition lock_and (f : list string → ModSys → ModSys) (order : list string) (s : ModSys)
    : go disabled ModSys :=
  match mgmt s with
  | None => if range_order s order then Ret (f order s) else Fail Disabled
  | Some _ => Fail Disabled
  end.

Definition step (ev : event) (s : ModSys) : go disabled ModSys :=
  match ev with
  | EvRegister name prep start stop deps => Modules_Register name prep start stop deps s
  | EvEnableModuleManagement fn => Ret (EnableModuleManagement fn s)
  | EvDisableModuleManagement => Ret (DisableModuleManagement s)
  | EvSetEnabled n enable => at_module n (mod_module n (λ m, (SetEnabled enable m).1)) s
  | EvFailure n st id title msg => at_module n (setFailure st id title msg n) s
  | EvResolve n id => at_module n (Resolve id n) s
  | EvStartJob c n => at_module n (λ s, Ret (spawn (PJobStart c n WorkUser) s)) s
  | EvRun i c =>
      match procs s !! i with
      | Some p => run_proc p c (put_procs (delete i (procs s)) s)
      | None => Fail Disabled
      end
  | EvStart order =>
      if modulesLocked s then Ret (record_result JobStart (Some ErrAlreadyStarted) s)
      else lock_and Start_begin order s
  | EvManageModules order =>
      if moduleMgmtEnabled s then lock_and ManageModules_begin order s
      else Ret (record_result JobManage None s)
  | EvShutdown order => lock_and Shutdown_begin order s
  | EvVisit =>
      match mgmt s with
      | Some g =>
          match l_todo (m_loop g) with
          | n :: rest =>
              let! ls := loop_visit n rest (m_loop g) s in
              Ret (put_mgmt (Some (mkMgmt (m_job g) ls.1 (m_lastErr g))) ls.2)
          | [] => Fail Disabled
          end
      | None => Fail Disabled
      end
  | EvReceive i order =>
      match mgmt s, procs s !! i with
      | Some g, Some (PSend n err ch) =>
          let l := m_loop g in
          if bool_decide (l_todo l = [] ∧ l_reportCnt l < l_execCnt l ∧ ch = l_chan l)%nat
             && range_order s order
          then
            let s1 := put_procs (delete i (procs s)) s in
            Ret (match loop_report n err order l with
                 | inl e => loop_return (m_job g) (l_phase l) (m_lastErr g) (Some e) order s1
                 | inr l' => put_mgmt (Some (mkMgmt (m_job g) l' (m_lastErr g))) s1
                 end)
          else Fail Disabled
      | _, _ => Fail Disabled
      end
  | EvReturn order =>
      match mgmt s with
      | Some g =>
          let l := m_loop g in
          if bool_decide (l_todo l = [] ∧ l_execCnt l ≤ l_reportCnt l)%nat && range_order s order
          then Ret (loop_return (m_job g) (l_phase l) (m_lastErr g) (loop_result l) order s)
          else Fail Disabled
      | None => Fail Disabled
      end
  end.

(** A run is a list of events. *)
Fixpoint run (evs : list event) (s : ModSys) : go disabled ModSys :=
  match evs with
  | [] => Ret s
  | ev :: evs' => let! s' := step ev s in run evs' s'
  end.

(** The program before any module is registered. *)
Definition initial (ready : bool) (su : startup) : ModSys :=
  mkModSys ∅ false false false ready false false su [] ∅ 0 [] None [].
