(* ===== verification/StopComplete.v ===== *)
(** * modules/modules.go, worker.go: how a module's stop is completed, step by step

    The other model of the modules ([Modules]) takes checkIfStopComplete and the end
    of a control function as one step each. Here one module is modelled with every
    read of a flag or counter, SetToIf, and the closing of a channel as a step of its
    own, and with the goroutines that run them: the prep, start and stop goroutines,
    the control functions, and whatever ends a worker, task or microtask. What is done
    under the lock of the module is one step. Counters are counted without the
    wrap-around of an int32. *)

From Stdlib Require Import ZArith Lia List.
From stdpp Require Import base list.
From S2P Require Import Prelude Modules.
Local Open Scope Z_scope.

(** ** Goroutines *)

Inductive ctrl_phase : Type := Prep | Startup.

(** The place in checkIfStopComplete. *)
Inductive check_pc : Type :=
| ReadStopFlag
| ReadCtrl
| ReadWorkers
| ReadTasks
| ReadMicroTasks
| SetCompleted
| CloseComplete.

(** What the caller of checkIfStopComplete does next. *)
Inductive after_check : Type :=
| ThenEnd
| ThenAwait (ph : ctrl_phase)
| ThenReadChannel.

(** [CtrlFn] runs a control function, [CtrlReturned] its deferred function;
    the prep and start goroutines call and await it, the stop goroutine is
    stopAllTasks. *)
Inductive goroutine : Type :=
| Ended
| Checking (pc : check_pc) (next : after_check)
| CtrlFn (stopping : bool)
| CtrlReturned (stopping : bool)
| CallCtrl (ph : ctrl_phase)
| AwaitCtrl (ph : ctrl_phase)
| StopSetCtrl
| StopSetFlag
| StopCallCtrl
| StopReadChannel
| StopWait (c : nat)
| StopOffline.

Definition resume (next : after_check) : goroutine :=
  match next with ThenEnd => Ended | ThenAwait ph => AwaitCtrl ph | ThenReadChannel => StopReadChannel end.

(** ** The module *)

(** Channels are numbered; the channel 0 is the nil channel a new module has.
    [startClosed]: the current startComplete is closed. [reported]: the prep or
    start function has sent its result. *)
Record StopSys : Type := mkStopSys {
  ss_status : Z;
  ss_stopFlag : bool;
  ss_stopCompleted : bool;
  ss_stopComplete : nat;
  ss_closed : list nat;
  ss_startClosed : bool;
  ss_ctrl : bool;
  ss_workers : nat;
  ss_tasks : nat;
  ss_microTasks : nat;
  ss_reported : bool;
  ss_threads : list goroutine;
}.

Definition ss_set_status (x : Z) (s : StopSys) : StopSys :=
  mkStopSys x (ss_stopFlag s) (ss_stopCompleted s) (ss_stopComplete s) (ss_closed s) (ss_startClosed s) (ss_ctrl s)
    (ss_workers s) (ss_tasks s) (ss_microTasks s) (ss_reported s) (ss_threads s).
Definition ss_set_stopFlag (x : bool) (s : StopSys) : StopSys :=
  mkStopSys (ss_status s) x (ss_stopCompleted s) (ss_stopComplete s) (ss_closed s) (ss_startClosed s) (ss_ctrl s)
    (ss_workers s) (ss_tasks s) (ss_microTasks s) (ss_reported s) (ss_threads s).
Definition ss_set_completed (x : bool) (s : StopSys) : StopSys :=
  mkStopSys (ss_status s) (ss_stopFlag s) x (ss_stopComplete s) (ss_closed s) (ss_startClosed s) (ss_ctrl s)
    (ss_workers s) (ss_tasks s) (ss_microTasks s) (ss_reported s) (ss_threads s).
Definition ss_set_channel (x : nat) (s : StopSys) : StopSys :=
  mkStopSys (ss_status s) (ss_stopFlag s) (ss_stopCompleted s) x (ss_closed s) (ss_startClosed s) (ss_ctrl s)
    (ss_workers s) (ss_tasks s) (ss_microTasks s) (ss_reported s) (ss_threads s).
Definition ss_set_closed (x : list nat) (s : StopSys) : StopSys :=
  mkStopSys (ss_status s) (ss_stopFlag s) (ss_stopCompleted s) (ss_stopComplete s) x (ss_startClosed s) (ss_ctrl s)
    (ss_workers s) (ss_tasks s) (ss_microTasks s) (ss_reported s) (ss_threads s).
Definition ss_set_startClosed (x : bool) (s : StopSys) : StopSys :=
  mkStopSys (ss_status s) (ss_stopFlag s) (ss_stopCompleted s) (ss_stopComplete s) (ss_closed s) x (ss_ctrl s)
    (ss_workers s) (ss_tasks s) (ss_microTasks s) (ss_reported s) (ss_threads s).
Definition ss_set_ctrl (x : bool) (s : StopSys) : StopSys :=
  mkStopSys (ss_status s) (ss_stopFlag s) (ss_stopCompleted s) (ss_stopComplete s) (ss_closed s) (ss_startClosed s) x
    (ss_workers s) (ss_tasks s) (ss_microTasks s) (ss_reported s) (ss_threads s).
Definition ss_set_counts (w t m : nat) (s : StopSys) : StopSys :=
  mkStopSys (ss_status s) (ss_stopFlag s) (ss_stopCompleted s) (ss_stopComplete s) (ss_closed s) (ss_startClosed s) (ss_ctrl s)
    w t m (ss_reported s) (ss_threads s).
Definition ss_set_reported (x : bool) (s : StopSys) : StopSys :=
  mkStopSys (ss_status s) (ss_stopFlag s) (ss_stopCompleted s) (ss_stopComplete s) (ss_closed s) (ss_startClosed s) (ss_ctrl s)
    (ss_workers s) (ss_tasks s) (ss_microTasks s) x (ss_threads s).
Definition ss_set_threads (x : list goroutine) (s : StopSys) : StopSys :=
  mkStopSys (ss_status s) (ss_stopFlag s) (ss_stopCompleted s) (ss_stopComplete s) (ss_closed s) (ss_startClosed s) (ss_ctrl s)
    (ss_workers s) (ss_tasks s) (ss_microTasks s) (ss_reported s) x.

Definition go_thread (g : goroutine) (s : StopSys) : StopSys := ss_set_threads (ss_threads s ++ [g]) s.

(** initNewModule *)
Definition newModule : StopSys := mkStopSys StatusDead false true 0 [] false false 0 0 0 false [].

(** ** Steps *)

(** One step of checkIfStopComplete: where it goes on, or [Ended]. Closing the nil
    channel or a closed one panics. *)
Definition check_step (pc : check_pc) (next : after_check) (s : StopSys) : go disabled (goroutine * StopSys) :=
  let test (b : bool) (pc' : check_pc) := Ret (if b then Checking pc' next else resume next, s) in
  match pc with
  | ReadStopFlag => test (ss_stopFlag s) ReadCtrl
  | ReadCtrl => test (negb (ss_ctrl s)) ReadWorkers
  | ReadWorkers => test (ss_workers s =? 0)%nat ReadTasks
  | ReadTasks => test (ss_tasks s =? 0)%nat ReadMicroTasks
  | ReadMicroTasks => test (ss_microTasks s =? 0)%nat SetCompleted
  | SetCompleted => Ret (if ss_stopCompleted s then (resume next, s) else (Checking CloseComplete next, ss_set_completed true s))
  | CloseComplete =>
      if (ss_stopComplete s =? 0)%nat || bool_decide (ss_stopComplete s ∈ ss_closed s) then Panic
      else Ret (resume next, ss_set_closed (ss_stopComplete s :: ss_closed s) s)
  end.

(** startCtrlFn: where its caller goes on, and the goroutine it starts. *)
Definition begin_ctrlFn (fn stopping : bool) (next : after_check) (s : StopSys) : goroutine * StopSys :=
  if fn then (resume next, go_thread (CtrlFn stopping) (ss_set_ctrl true s))
  else (Checking ReadStopFlag next, ss_set_ctrl false s).

(** What the module has: prep, start and stop functions. *)
Record ctrl_fns : Type := mkCtrlFns { prepFn : bool; startFn : bool; stopFn : bool }.

Definition phase_fn (fns : ctrl_fns) (ph : ctrl_phase) : bool := match ph with Prep => prepFn fns | Startup => startFn fns end.

(** The end of the prep and the start goroutine without an error. *)
Definition phase_done (ph : ctrl_phase) (s : StopSys) : go disabled StopSys :=
  match ph with
  | Prep => Ret (ss_set_status StatusOffline s)
  | Startup => if ss_startClosed s then Panic else Ret (ss_set_startClosed true (ss_set_status StatusOnline s))
  end.

(** A step of a goroutine; [None]: it waits or has ended. *)
Definition goroutine_step (fns : ctrl_fns) (g : goroutine) (s : StopSys) : option (go disabled (goroutine * StopSys)) :=
  match g with
  | Ended => None
  | Checking pc next => Some (check_step pc next s)
  | CtrlFn stopping => Some (Ret (CtrlReturned stopping, if stopping then s else ss_set_reported true s))
  | CtrlReturned stopping => Some (Ret (Checking ReadStopFlag ThenEnd, ss_set_ctrl false s))
  | CallCtrl ph =>
      Some (Ret (if phase_fn fns ph then begin_ctrlFn true false (ThenAwait ph) s else (AwaitCtrl ph, ss_set_reported true s)))
  | AwaitCtrl ph => if ss_reported s then Some (let! s' := phase_done ph s in Ret (Ended, s')) else None
  | StopSetCtrl => Some (Ret (StopSetFlag, ss_set_ctrl true s))
  | StopSetFlag => Some (Ret (StopCallCtrl, ss_set_stopFlag true s))
  | StopCallCtrl => Some (Ret (begin_ctrlFn (stopFn fns) true ThenReadChannel s))
  | StopReadChannel => Some (Ret (StopWait (ss_stopComplete s), s))
  | StopWait c => if bool_decide (c ∈ ss_closed s) then Some (Ret (StopOffline, s)) else None
  | StopOffline => Some (Ret (Ended, ss_set_status StatusOffline s))
  end.

Inductive stop_label : Type :=
| LCallPrep
| LCallStart
| LCallStop
| LBegin (k : counter)
| LEnd (k : counter)
| LGo (i : nat)
| LFailed (i : nat)
| LTimeout (i : nat).

Definition count_of (k : counter) (s : StopSys) : nat :=
  match k with CntWorker => ss_workers s | CntTask => ss_tasks s | CntMicroTask => ss_microTasks s end.

Definition ss_set_count (k : counter) (n : nat) (s : StopSys) : StopSys :=
  match k with
  | CntWorker => ss_set_counts n (ss_tasks s) (ss_microTasks s) s
  | CntTask => ss_set_counts (ss_workers s) n (ss_microTasks s) s
  | CntMicroTask => ss_set_counts (ss_workers s) (ss_tasks s) n s
  end.

(** prep, start and stop are called when the status is theirs, else they only
    report an error. [LFailed]: the prep or start function failed or timed out.
    [LTimeout]: stopAllTasks stops waiting. *)
Definition stop_step (fns : ctrl_fns) (l : stop_label) (s : StopSys) : option (go disabled StopSys) :=
  match l with
  | LCallPrep => if ss_status s =? StatusDead then Some (Ret (go_thread (CallCtrl Prep) (ss_set_reported false (ss_set_status StatusPreparing s)))) else None
  | LCallStart =>
      if ss_status s =? StatusOffline
      then Some (Ret (go_thread (CallCtrl Startup) (ss_set_reported false (ss_set_stopFlag false (ss_set_status StatusStarting s))))) else None
  | LCallStop =>
      if ss_status s =? StatusOnline
      then Some (Ret (go_thread StopSetCtrl (ss_set_status StatusStopping (ss_set_completed false
             (ss_set_channel (S (ss_stopComplete s)) (ss_set_startClosed false s)))))) else None
  | LBegin k => Some (Ret (ss_set_count k (S (count_of k s)) s))
  | LEnd k =>
      match count_of k s with
      | O => None
      | S n => Some (Ret (go_thread (Checking ReadStopFlag ThenEnd) (ss_set_count k n s)))
      end
  | LGo i =>
      g ← ss_threads s !! i; r ← goroutine_step fns g s;
      Some (let! x := r in Ret (ss_set_threads (<[i := x.1]> (ss_threads x.2)) x.2))
  | LFailed i =>
      match ss_threads s !! i with Some (AwaitCtrl _) => Some (Ret (ss_set_threads (<[i := Ended]> (ss_threads s)) s)) | _ => None end
  | LTimeout i =>
      match ss_threads s !! i with Some (StopWait _) => Some (Ret (ss_set_threads (<[i := StopOffline]> (ss_threads s)) s)) | _ => None end
  end.

(** [None]: some step was not possible. *)
Fixpoint stop_run (fns : ctrl_fns) (ls : list stop_label) (s : StopSys) : option (go disabled StopSys) :=
  match ls with
  | [] => Some (Ret s)
  | l :: ls => match stop_step fns l s with Some (Ret s') => stop_run fns ls s' | x => x end
  end.

Definition no_timeout (l : stop_label) : bool := match l with LTimeout _ => false | _ => true end.

(** Nothing of the module runs. *)
Definition idle (s : StopSys) : bool :=
  negb (ss_ctrl s) && (ss_workers s =? 0)%nat && (ss_tasks s =? 0)%nat && (ss_microTasks s =? 0)%nat.

(** *** Example runs *)

(** A module without functions is prepared and started, and a worker begins. *)
Definition online_run : list stop_label := [LCallPrep; LGo 0; LGo 0; LCallStart; LGo 1; LGo 1; LBegin CntWorker].

(** It is stopped, and the stop goroutine comes to wait for the worker. *)
Definition waiting_run : list stop_label := online_run ++ [LCallStop; LGo 2; LGo 2; LGo 2; LGo 2; LGo 2; LGo 2; LGo 2].

(** The worker ends, and its checkIfStopComplete closes the channel. *)
Definition stopped_run : list stop_label := waiting_run ++ [LEnd CntWorker] ++ repeat (LGo 3) 7.

(** That checkIfStopComplete stands still before it takes the lock; the stop times
    out, and the module is started and stopped again. *)
Definition timeout_run : list stop_label :=
  waiting_run ++ [LEnd CntWorker] ++ repeat (LGo 3) 6 ++ [LTimeout 2; LGo 2; LCallStart; LGo 4; LGo 4; LCallStop] ++
  repeat (LGo 5) 10.

(** Two workers end. One checkIfStopComplete stands still after it has read two
    flags; the other completes the stop. The module, which has a stop function, is
    started and stopped again, and the first one goes on while that function runs. *)
Definition stale_run : list stop_label :=
  online_run ++ [LBegin CntWorker; LCallStop] ++ repeat (LGo 2) 4 ++ repeat (LGo 3) 5 ++ [LEnd CntWorker; LGo 4; LGo 4] ++
  [LEnd CntWorker] ++ repeat (LGo 5) 7 ++ [LGo 2; LGo 2; LCallStart; LGo 6; LGo 6; LCallStop; LGo 7; LGo 7; LGo 7] ++ repeat (LGo 4) 5.

(** The start function has sent its result, but its deferred function is late: it
    resets the flag that the stop has set, while the stop function runs. *)
Definition late_start_run : list stop_label :=
  [LCallPrep; LGo 0; LGo 0; LCallStart; LGo 1; LGo 2; LGo 1; LCallStop; LGo 3; LGo 3; LGo 3; LGo 2] ++ repeat (LGo 2) 7.

(** The current stop is complete although the stop function has not returned. *)
Definition completed_early (s : StopSys) : bool :=
  bool_decide (ss_stopComplete s ∈ ss_closed s) && existsb (λ g, match g with CtrlFn true => true | _ => false end) (ss_threads s).

Definition no_fns : ctrl_fns := mkCtrlFns false false false.

(** ** What stays true *)

Definition is_stop (g : goroutine) : bool :=
  match g with
  | StopSetCtrl | StopSetFlag | StopCallCtrl | Checking _ ThenReadChannel | StopReadChannel | StopWait _ | StopOffline => true
  | _ => false
  end.

Definition is_phase (ph : ctrl_phase) (g : goroutine) : bool :=
  match g, ph with
  | (CallCtrl Prep | AwaitCtrl Prep | Checking _ (ThenAwait Prep)), Prep => true
  | (CallCtrl Startup | AwaitCtrl Startup | Checking _ (ThenAwait Startup)), Startup => true
  | _, _ => false
  end.

(** Has set the stop flag. *)
Definition is_flagged (g : goroutine) : bool :=
  match g with StopCallCtrl | Checking _ ThenReadChannel | StopReadChannel | StopWait _ | StopOffline => true | _ => false end.

Definition waits_else (ch : nat) (g : goroutine) : bool := match g with StopWait c => negb (c =? ch)%nat | _ => false end.

Definition is_offline (g : goroutine) : bool := match g with StopOffline => true | _ => false end.

Definition is_closer (g : goroutine) : bool := match g with Checking CloseComplete _ => true | _ => false end.

(** Will test for the completion of the stop, or is doing so. *)
Definition is_waker (g : goroutine) : bool :=
  match g with
  | StopSetCtrl | StopSetFlag | StopCallCtrl | CtrlFn true | CtrlReturned true
  | Checking (ReadStopFlag | ReadCtrl | ReadWorkers | ReadTasks | ReadMicroTasks | SetCompleted) _ => true
  | _ => false
  end.

(** Still has its part in the completion of a stop. *)
Definition completing (g : goroutine) : bool :=
  match g with CtrlFn true | CtrlReturned true | Checking _ _ => true | _ => false end.

Definition is_check (g : goroutine) : bool := match g with Checking _ _ => true | _ => false end.

Definition begins_stop (g : goroutine) : bool := match g with StopSetCtrl | StopSetFlag | StopCallCtrl => true | _ => false end.

Definition is_waiting (g : goroutine) : bool := match g with StopWait _ => true | _ => false end.

Definition isClosed (s : StopSys) : bool := bool_decide (ss_stopComplete s ∈ ss_closed s).

Record StopInv (s : StopSys) : Prop := {
  si_stop : (ss_status s = StatusStopping → count is_stop (ss_threads s) = 1) ∧
            (ss_status s ≠ StatusStopping → count is_stop (ss_threads s) = 0);
  si_prep : count (is_phase Prep) (ss_threads s) <= 1 ∧ (ss_status s ≠ StatusPreparing → count (is_phase Prep) (ss_threads s) = 0);
  si_start : count (is_phase Startup) (ss_threads s) <= 1 ∧
            (ss_status s ≠ StatusStarting → count (is_phase Startup) (ss_threads s) = 0);
  si_startClosed : ss_startClosed s = true → ss_status s = StatusOnline;
  si_flag : ss_stopFlag s = false → count is_flagged (ss_threads s) = 0;
  si_wait : count (waits_else (ss_stopComplete s)) (ss_threads s) = 0;
  si_closed : ∀ c, c ∈ ss_closed s → (c <= ss_stopComplete s)%nat;
  si_nodup : NoDup (ss_closed s);
  si_off : isClosed s = false → count is_offline (ss_threads s) = 0;
  si_closer : count is_closer (ss_threads s) <= 1 ∧ (ss_stopCompleted s = false → count is_closer (ss_threads s) = 0);
  si_open : ss_stopCompleted s = false ∨ count is_closer (ss_threads s) = 1 →
            ss_status s = StatusStopping ∧ ss_stopComplete s ≠ 0%nat ∧ isClosed s = false;
  si_done : ss_stopCompleted s = true → count is_closer (ss_threads s) = 0 → ss_status s = StatusStopping →
            isClosed s = true;
  si_wake : ss_stopFlag s = true → idle s = true → ss_stopCompleted s = false → 1 <= count is_waker (ss_threads s);
}.

Lemma StopInv_new : StopInv newModule.
Proof. split; simpl; try done; try (split; done). - intros c Hc. by apply not_elem_of_nil in Hc. - constructor. - intros [?|?]; done. Qed.

Lemma waits_else_stop ch g : waits_else ch g = true → is_stop g = true.
Proof. by destruct g. Qed.

Lemma is_offline_stop g : is_offline g = true → is_stop g = true.
Proof. by destruct g. Qed.

Lemma is_flagged_stop g : is_flagged g = true → is_stop g = true.
Proof. by destruct g as [|? []| | | | | | | | | |]. Qed.

(** The counts of the goroutines after a step. *)
Ltac stop_counts :=
  repeat match goal with
  | Hi : ss_threads _ !! _ = Some _ |- context [count ?f (<[_ := _]> (_ ++ _))] => rewrite (count_update f _ _ _ _ _ Hi)
  | Hi : ss_threads _ !! _ = Some _ |- context [count ?f (<[_ := _]> _)] => rewrite (count_insert f _ _ _ _ Hi)
  | |- context [count ?f (_ ++ _)] => rewrite (count_app f)
  | |- context [count ?f [?x]] => rewrite (count_one f)
  end.

Ltac stop_bounds s :=
  pose proof (count_nonneg is_stop (ss_threads s)); pose proof (count_nonneg (is_phase Prep) (ss_threads s));
  pose proof (count_nonneg (is_phase Startup) (ss_threads s)); pose proof (count_nonneg is_flagged (ss_threads s));
  pose proof (count_nonneg (waits_else (ss_stopComplete s)) (ss_threads s)); pose proof (count_nonneg is_offline (ss_threads s));
  pose proof (count_nonneg is_closer (ss_threads s)); pose proof (count_nonneg is_waker (ss_threads s));
  repeat match goal with
  | Hi : ss_threads s !! _ = Some _ |- _ =>
      pose proof (count_lookup is_stop _ _ _ Hi); pose proof (count_lookup (is_phase Prep) _ _ _ Hi);
      pose proof (count_lookup (is_phase Startup) _ _ _ Hi); pose proof (count_lookup is_flagged _ _ _ Hi);
      pose proof (count_lookup (waits_else (ss_stopComplete s)) _ _ _ Hi); pose proof (count_lookup is_offline _ _ _ Hi);
      pose proof (count_lookup is_closer _ _ _ Hi); pose proof (count_lookup is_waker _ _ _ Hi); revert Hi
  end; intros.
Ltac stop_statuses := unfold StatusDead, StatusPreparing, StatusOffline, StatusStopping, StatusStarting, StatusOnline in *.
Ltac stop_arith :=
  split; simpl; stop_counts; simpl; stop_statuses; rewrite ?Z.sub_0_r, ?Z.add_0_r, ?Z.sub_simpl_r; first [done | assumption | intros; congruence | intros; lia | intros; simpl in *; lia | idtac].

Lemma idle_eq s : idle s = true ↔ ss_ctrl s = false ∧ ss_workers s = 0%nat ∧ ss_tasks s = 0%nat ∧ ss_microTasks s = 0%nat.
Proof. unfold idle. destruct (ss_ctrl s); simpl; rewrite ?andb_true_iff, ?Nat.eqb_eq; naive_solver. Qed.

Lemma isClosed_close th s : isClosed (ss_set_threads th (ss_set_closed (ss_stopComplete s :: ss_closed s) s)) = true.
Proof. apply bool_decide_eq_true. by left. Qed.

(** A step of checkIfStopComplete. *)
Lemma check_step_inv i pc next s : StopInv s → ss_threads s !! i = Some (Checking pc next) →
  match check_step pc next s with
  | Ret (g', s') => StopInv (ss_set_threads (<[i := g']> (ss_threads s')) s')
  | _ => False
  end.
Proof.
  intros [] Hi. stop_bounds s. destruct pc; simpl.
  1-5: match goal with |- context [if ?b then Checking _ _ else _] => case_eq b; intros Hf end.
  11: case_eq (ss_stopCompleted s); intros Hf; [|pose proof (si_open0 (or_introl Hf)); pose proof (proj2 si_closer0 Hf)].
  13: { destruct (si_open0 ltac:(simpl in *; lia)) as (Hst & Hch & Hcl). unfold isClosed in Hcl.
    rewrite Hcl, (proj2 (Nat.eqb_neq _ _) Hch). apply bool_decide_eq_false in Hcl. simpl.
    assert (∀ c, c ∈ ss_stopComplete s :: ss_closed s → (c <= ss_stopComplete s)%nat) by (intros c [->|?]%elem_of_cons; auto).
    assert (NoDup (ss_stopComplete s :: ss_closed s)) by by constructor.
    assert (ss_stopCompleted s = true) as Hco by (destruct (ss_stopCompleted s) eqn:?; [done|simpl in *; lia]).
    destruct next as [|[]|]; stop_arith; intros; rewrite ?isClosed_close in *; simpl in *;
      first [lia|exfalso; match goal with Ho : _ ∨ _ |- _ => destruct Ho; [congruence|lia] end]. }
  all: try first [apply Nat.eqb_neq in Hf|rewrite negb_false_iff in Hf].
  all: destruct next as [|[]|]; stop_arith.
  all: first [intros ? (? & ? & ? & ?)%idle_eq; simpl in *; first [congruence|lia]].
Qed.

(** What follows at once from the invariant. *)
Lemma StopInv_facts s : StopInv s →
  (ss_status s ≠ StatusOnline → ss_startClosed s = false) ∧
  (ss_status s ≠ StatusStopping → ss_stopCompleted s = true ∧ count is_closer (ss_threads s) = 0) ∧
  (1 <= count is_offline (ss_threads s) → isClosed s = true) ∧
  (1 <= count is_flagged (ss_threads s) → ss_stopFlag s = true).
Proof.
  intros []. pose proof (count_nonneg is_closer (ss_threads s)). split_and!.
  - intros Hn. destruct (ss_startClosed s); [|done]. by destruct Hn; auto.
  - intros Hn. split; [destruct (ss_stopCompleted s); [done|]|destruct (Z.eq_dec (count is_closer (ss_threads s)) 1); [|lia]];
      destruct Hn; apply si_open0; auto.
  - intros Hn. destruct (isClosed s); [done|]. specialize (si_off0 eq_refl). lia.
  - intros Hn. destruct (ss_stopFlag s); [done|]. specialize (si_flag0 eq_refl). lia.
Qed.

Ltac stop_rest Hstart Hopen Hoff Hflag :=
  simpl in *;
  first [lia
        |rewrite (Hstart ltac:(lia)); done
        |destruct (Hopen ltac:(lia)); intros [?|?]; [congruence|lia]
        |intros Hx; by apply bool_decide_eq_false in Hx
        |rewrite (Hflag ltac:(lia)); done
        |unfold isClosed in *; simpl; rewrite (Hoff ltac:(lia)); done
        |match goal with Hs : _ ∨ _ → _ |- _ => let Ho := fresh in intros Ho; destruct (Hs Ho) as (_ & _ & Hc);
           rewrite (Hoff ltac:(lia)) in Hc; done end].

(** A step of a goroutine. *)
Lemma goroutine_step_inv fns i g s : StopInv s → ss_threads s !! i = Some g →
  match goroutine_step fns g s with
  | Some (Ret (g', s')) => StopInv (ss_set_threads (<[i := g']> (ss_threads s')) s')
  | Some _ => False
  | None => True
  end.
Proof.
  intros Hs Hi. destruct (decide (is_check g)) as [Hg|Hg].
  { destruct g as [|pc next| | | | | | | | | |]; try done. apply (check_step_inv i pc next s Hs Hi). }
  destruct (StopInv_facts s Hs) as (Hstart & Hopen & Hoff & Hflag). destruct Hs. stop_bounds s. stop_statuses.
  assert (∀ c, is_stop (StopWait c) = true) by done.
  destruct g as [|pc next|[]|[]|[]|[]| | | | |c|]; simpl; try done.
  all: try (unfold phase_fn, begin_ctrlFn; match goal with |- context [if ?b then _ else _] => case_eq b; intros Hf end; simpl; try done).
  all: try (rewrite Hstart by (simpl in *; lia)); simpl.
  all: try (apply bool_decide_eq_true in Hf; assert (c = ss_stopComplete s) as -> by (destruct (Nat.eqb_spec c (ss_stopComplete s)) as [|Hne]; [done|apply Nat.eqb_neq in Hne; simpl in *; rewrite Hne in *; simpl in *; lia])).
  all: stop_arith; rewrite ?Nat.eqb_refl; stop_rest Hstart Hopen Hoff Hflag.
Qed.

(** ** Runs *)

Lemma stop_step_inv fns l s : StopInv s → no_timeout l = true →
  match stop_step fns l s with Some (Ret s') => StopInv s' | Some _ => False | None => True end.
Proof.
  intros Hs Hl. destruct (StopInv_facts s Hs) as (Hstart & Hopen & Hoff & Hflag).
  destruct l as [| | |k|k|i|i|i]; simpl; try done.
  6: { destruct (ss_threads s !! i) as [g|] eqn:Hi; [|done]. simpl. pose proof (goroutine_step_inv fns i g s Hs Hi) as H.
    destruct (goroutine_step fns g s) as [[[g' s']| |]|]; simpl in *; done. }
  1-3: match goal with |- context [if ?x =? ?y then _ else _] => case_eq (x =? y); [intros Hst%Z.eqb_eq|done] end.
  all: pose proof (count_mono is_flagged is_stop (ss_threads s) is_flagged_stop);
    pose proof (count_mono is_offline is_stop (ss_threads s) is_offline_stop);
    pose proof (count_mono (waits_else (S (ss_stopComplete s))) is_stop (ss_threads s) (waits_else_stop _));
    pose proof (count_nonneg (waits_else (S (ss_stopComplete s))) (ss_threads s)); destruct Hs.
  3: assert (S (ss_stopComplete s) ∉ ss_closed s) as Hfresh by (intros Hc; specialize (si_closed0 _ Hc); lia).
  5: destruct (count_of k s) eqn:Hk; [done|].
  4-5: destruct k; simpl in *.
  10: destruct (ss_threads s !! i) as [[| | | | |[]| | | | | |]|] eqn:Hi; try done.
  all: stop_bounds s; stop_statuses.
  all: stop_arith; first
    [stop_rest Hstart Hopen Hoff Hflag|intros c Hc; specialize (si_closed0 c Hc); lia
    |by intros _; split_and!; [| |apply bool_decide_eq_false]|intros _ (_ & ? & ? & ?)%idle_eq; simpl in *; lia].
Qed.

Lemma stop_run_inv fns ls s : StopInv s → forallb no_timeout ls = true →
  match stop_run fns ls s with Some (Ret s') => StopInv s' | Some _ => False | None => True end.
Proof.
  revert s. induction ls as [|l ls IH]; simpl; intros s Hs Hl; [done|]. apply andb_true_iff in Hl as [Hl Hls].
  pose proof (stop_step_inv fns l s Hs Hl) as H. destruct (stop_step fns l s) as [[s'| |]|]; simpl in *; try done. by apply IH.
Qed.

(** ** The theorem *)

(** Without a timeout, nobody waits for a stop that no one will complete. *)
Lemma wait_or_complete fns s i c : StopInv s → ss_threads s !! i = Some (StopWait c) →
  c = ss_stopComplete s ∧
  (c ∈ ss_closed s ∨ idle s = false ∨
   ∃ j g r, ss_threads s !! j = Some g ∧ completing g = true ∧ goroutine_step fns g s = Some (Ret r)).
Proof.
  intros Hs Hi. destruct (StopInv_facts s Hs) as (_ & Hopen & _ & Hflag).
  assert (∀ j g, ss_threads s !! j = Some g → completing g = true → ∃ r, goroutine_step fns g s = Some (Ret r)) as Hstep.
  { intros j g Hj Hg. pose proof (goroutine_step_inv fns j g s Hs Hj) as H. destruct g as [|pc next|[]|[]| | | | | | | |]; try done; simpl in *; try (by eexists).
    destruct (check_step pc next s) as [r| |]; [by exists r|done|done]. }
  assert (∀ f, 1 <= count f (ss_threads s) → (∀ g, f g = true → completing g = true) →
    ∃ j g r, ss_threads s !! j = Some g ∧ completing g = true ∧ goroutine_step fns g s = Some (Ret r)) as Hsome.
  { intros f (j & g & Hj & Hg)%count_elem_inv Hf. destruct (Hstep j g Hj (Hf g Hg)) as [r Hr]. exists j, g, r. auto. }
  destruct Hs. pose proof (count_lookup is_stop _ _ _ Hi) as H1. pose proof (count_lookup is_flagged _ _ _ Hi) as H2.
  pose proof (count_lookup (waits_else (ss_stopComplete s)) _ _ _ Hi) as H3. simpl in *.
  assert (c = ss_stopComplete s) as ->.
  { destruct (Nat.eqb_spec c (ss_stopComplete s)) as [|Hne]; [done|simpl in *; lia]. }
  split; [done|]. destruct (decide (ss_stopComplete s ∈ ss_closed s)) as [|Hc]; [by left|right].
  assert (isClosed s = false) as Hcl by by apply bool_decide_eq_false. destruct (idle s) eqn:Hidle; [right|by left].
  assert (ss_status s = StatusStopping) as Hst by (destruct (Z.eq_dec (ss_status s) StatusStopping); [done|lia]).
  destruct (Z.eq_dec (count is_closer (ss_threads s)) 1) as [Hone|Hnone].
  { apply (Hsome is_closer); [lia|]. by intros [|[]| | | | | | | | | |]. }
  pose proof (count_nonneg is_closer (ss_threads s)).
  destruct (ss_stopCompleted s) eqn:Hco; [specialize (si_done0 eq_refl ltac:(lia) Hst); congruence|].
  destruct (count_elem_inv _ _ (si_wake0 (Hflag ltac:(lia)) eq_refl eq_refl)) as (j & g & Hj & Hg).
  destruct (completing g) eqn:Hcg; [destruct (Hstep j g Hj Hcg) as [r Hr]; by exists j, g, r|].
  exfalso. pose proof (count_disjoint begins_stop is_waiting is_stop (ss_threads s) ltac:(by intros []) ltac:(by intros [])).
  pose proof (count_lookup begins_stop _ _ _ Hj). pose proof (count_lookup is_waiting _ _ _ Hi).
  assert (begins_stop g = true) as Hb by (by destruct g as [|[]|[]|[]| | | | | | | |]). rewrite Hb in *. simpl in *. lia.
Qed.

(** C37: In every interleaving in which no stop runs into its timeout, with
    every flag and counter that checkIfStopComplete reads, SetToIf and the close
    as steps of their own: nothing panics, in particular no channel is closed
    twice; the stop goroutine waits for the channel of its own stop and takes the
    module offline only when that is closed; and no completion is lost: while it
    waits for an open channel, a control function, worker, task or microtask of
    the module still counts, or the stop function or a checkIfStopComplete is at
    work and can take its next step. *)
Theorem stop_completes_once (fns : ctrl_fns) (ls : list stop_label) (s : StopSys) :
  stop_run fns ls newModule = Some (Ret s) → forallb no_timeout ls = true →
  (∀ l, stop_step fns l s ≠ Some Panic) ∧
  NoDup (ss_closed s) ∧
  (∀ i, ss_threads s !! i = Some StopOffline → ss_stopComplete s ∈ ss_closed s) ∧
  (∀ i c, ss_threads s !! i = Some (StopWait c) →
     c = ss_stopComplete s ∧
     (c ∈ ss_closed s ∨ idle s = false ∨
      ∃ j g r, ss_threads s !! j = Some g ∧ completing g = true ∧ goroutine_step fns g s = Some (Ret r))).
Proof.
  intros Hr Hl. pose proof (stop_run_inv fns ls newModule StopInv_new Hl) as Hs. rewrite Hr in Hs. split_and!.
  - intros l Hp. destruct (no_timeout l) eqn:Hnt; [pose proof (stop_step_inv fns l s Hs Hnt) as H; by rewrite Hp in H|].
    destruct l; try done. simpl in Hp. by repeat case_match.
  - apply (si_nodup _ Hs).
  - intros i Hi. apply (bool_decide_eq_true_1 _). apply (StopInv_facts s Hs). apply (count_elem _ _ i StopOffline Hi eq_refl).
  - intros i c. by apply wait_or_complete.
Qed.

Lemma stop_completes_once_witness :
  ∃ s, stop_run no_fns waiting_run newModule = Some (Ret s) ∧ ss_threads s !! 2%nat = Some (StopWait 1) ∧
       (1%nat = ss_stopComplete s ∧
        (1%nat ∈ ss_closed s ∨ idle s = false ∨
         ∃ j g r, ss_threads s !! j = Some g ∧ completing g = true ∧ goroutine_step no_fns g s = Some (Ret r))).
Proof.
  eexists. split; [vm_compute; reflexivity|]. split; [reflexivity|].
  refine (proj2 (proj2 (proj2 (stop_completes_once no_fns waiting_run _ _ _))) 2%nat 1%nat _); vm_compute; reflexivity.
Defined.

(** The stop of the example completes. *)
Lemma stopped_run_completes :
  ∃ s, stop_run no_fns stopped_run newModule = Some (Ret s) ∧ ss_closed s = [1%nat] ∧ goroutine_step no_fns (StopWait 1) s = Some (Ret (StopOffline, s)).
Proof. eexists. split; [vm_compute; reflexivity|]. split; vm_compute; reflexivity. Qed.

(** After a stop that has timed out a late checkIfStopComplete closes the channel of
    the next stop, which is closed already. *)
Lemma double_close_panics :
  ∃ s, stop_run no_fns timeout_run newModule = Some (Ret s) ∧ stop_step no_fns (LGo 3) s = Some Panic.
Proof. eexists. split; [vm_compute; reflexivity|]. vm_compute. reflexivity. Qed.

(** Even without a timeout a late checkIfStopComplete completes the next stop while
    its stop function runs. *)
Lemma stale_check_completes_early :
  ∃ s, stop_run (mkCtrlFns false false true) stale_run newModule = Some (Ret s) ∧ completed_early s = true.
Proof. eexists. split; [vm_compute; reflexivity|]. vm_compute. reflexivity. Qed.

(** So does the late end of the start function. *)
Lemma late_start_completes_early :
  ∃ s, stop_run (mkCtrlFns false true true) late_start_run newModule = Some (Ret s) ∧ completed_early s = true.
Proof. eexists. split; [vm_compute; reflexivity|]. vm_compute. reflexivity. Qed.
