(* ===== verification/ModulesInv.v ===== *)
(** * modules: the life cycle protocol

    The protocol the module system promises, as an abstract machine on the
    statuses and links of the modules and on the pending goroutines of prep,
    start and stop, with its invariants by rule induction; the refinement of
    this machine by every step of [Modules]; and what follows for every run:
    dependencies are online while a module is in use, signal channels are closed
    at most once, a dependency loop never gets past preparation, and a module
    whose start failed keeps its dependencies from stopping. *)

From Stdlib Require Import ZArith Lia Ascii String.
From S2P Require Import Prelude Modules.
Local Open Scope Z_scope.

(** ** The abstract protocol *)

Record amod : Type := mkAmod {
  a_status : Z;
  a_startc : chan_state;
  a_deps : list string;
  a_rdeps : list string;
}.

(** A pending goroutine of prep, start or stop, or one with its report. *)
Inductive item : Type :=
| LRun (ph : phase) (n : string) (ch : nat)
| LSend (n : string) (err : option mod_error) (ch : nat).

Record abstract : Type := mkAbstract {
  a_mods : gmap string amod;
  a_items : list item;
}.

(** The statuses of a phase: where it starts, while it runs, where it ends. *)
Definition from_status (ph : phase) : Z :=
  match ph with PhPrep => StatusDead | PhStart => StatusOffline | PhStop => StatusOnline end.
Definition busy_status (ph : phase) : Z :=
  match ph with PhPrep => StatusPreparing | PhStart => StatusStarting | PhStop => StatusStopping end.
Definition done_status (ph : phase) : Z :=
  match ph with PhPrep => StatusOffline | PhStart => StatusOnline | PhStop => StatusOffline end.

Definition a_Status (ms : gmap string amod) (n : string) : Z :=
  match ms !! n with Some m => a_status m | None => StatusDead end.

(** When a phase may begin: preparation after the preparation of the
    dependencies, start when they are online, stop when nothing that depends on
    the module is up. *)
Definition a_guard (ph : phase) (ms : gmap string amod) (m : amod) : Prop :=
  match ph with
  | PhPrep => ∀ d, d ∈ a_deps m → StatusOffline ≤ a_Status ms d
  | PhStart => ∀ d, d ∈ a_deps m → StatusOnline ≤ a_Status ms d
  | PhStop => ∀ r, r ∈ a_rdeps m → a_Status ms r ≤ StatusOffline
  end.

Definition a_set (st : Z) (c : chan_state) (m : amod) : amod := mkAmod st c (a_deps m) (a_rdeps m).

Definition begin_chan (ph : phase) (m : amod) : chan_state :=
  match ph with PhStop => ChanOpen | _ => a_startc m end.
Definition done_chan (ph : phase) (m : amod) : chan_state :=
  match ph with PhStart => ChanClosed | _ => a_startc m end.

Definition fresh_amod : amod := mkAmod StatusDead ChanOpen [] [].

(** Every dependency is a module and knows its dependant. *)
Definition linked (ms : gmap string amod) : Prop :=
  ∀ n m d, ms !! n = Some m → d ∈ a_deps m → ∃ dm, ms !! d = Some dm ∧ n ∈ a_rdeps dm.

(** The same modules, all dead, before and after linking. *)
Definition all_dead (ms : gmap string amod) : Prop :=
  ∀ n m, ms !! n = Some m → a_status m = StatusDead ∧ a_startc m = ChanOpen.

Inductive astep : abstract → abstract → Prop :=
| a_silent ms its its' : its ≡ₚ its' → astep (mkAbstract ms its) (mkAbstract ms its')
| a_register ms its n :
    ms !! n = None → all_dead ms →
    astep (mkAbstract ms its) (mkAbstract (<[n := fresh_amod]> ms) its)
| a_link ms ms' its :
    all_dead ms → all_dead ms' → linked ms' → dom ms' = dom ms →
    astep (mkAbstract ms its) (mkAbstract ms' its)
| a_begin ms its its' ph n ch m :
    ms !! n = Some m → a_status m = from_status ph → a_guard ph ms m →
    its' ≡ₚ LRun ph n ch :: its →
    astep (mkAbstract ms its)
      (mkAbstract (<[n := a_set (busy_status ph) (begin_chan ph m) m]> ms) its')
| a_done ms its its0 its' ph n ch m err :
    ms !! n = Some m → its ≡ₚ LRun ph n ch :: its0 → its' ≡ₚ LSend n err ch :: its0 →
    (ph = PhStop ∨ err = None) →
    astep (mkAbstract ms its)
      (mkAbstract (<[n := a_set (done_status ph) (done_chan ph m) m]> ms) its')
| a_fail ms its its0 its' ph n ch e :
    its ≡ₚ LRun ph n ch :: its0 → its' ≡ₚ LSend n (Some e) ch :: its0 → ph ≠ PhStop →
    astep (mkAbstract ms its) (mkAbstract ms its')
| a_receive ms its its' n err ch :
    its ≡ₚ LSend n err ch :: its' → astep (mkAbstract ms its) (mkAbstract ms its').

(** ** Invariants of the protocol *)

Definition item_run (i : item) : option (phase * string) :=
  match i with LRun ph n _ => Some (ph, n) | LSend _ _ _ => None end.

Definition runs (its : list item) : list (phase * string) := omap item_run its.

(** One goroutine per module, with the module in the status of its phase. *)
Definition runs_ok (ms : gmap string amod) (its : list item) : Prop :=
  NoDup (runs its).*2 ∧
  ∀ ph n, (ph, n) ∈ runs its → ∃ m, ms !! n = Some m ∧ a_status m = busy_status ph.

Definition status_ok (m : amod) : Prop :=
  StatusDead ≤ a_status m ≤ StatusOnline ∧ (a_status m ≠ StatusOnline → a_startc m = ChanOpen).

(** A module that is starting, online or stopping has its dependencies
    online. *)
Definition deps_online (ms : gmap string amod) : Prop :=
  ∀ n m d, ms !! n = Some m → StatusOffline < a_status m → d ∈ a_deps m →
    a_Status ms d = StatusOnline.

Record a_inv (a : abstract) : Prop := mkInv {
  inv_runs : runs_ok (a_mods a) (a_items a);
  inv_status : map_Forall (λ _, status_ok) (a_mods a);
  inv_linked : linked (a_mods a);
  inv_deps : deps_online (a_mods a);
}.

#[global] Instance runs_perm : Proper ((≡ₚ) ==> (≡ₚ)) runs.
Proof. intros its its' H. unfold runs. by rewrite H. Qed.

Lemma runs_ok_perm (ms : gmap string amod) (its its' : list item) :
  runs its ≡ₚ runs its' → runs_ok ms its → runs_ok ms its'.
Proof.
  intros H [Hnd Hin]. split.
  - by rewrite <- H.
  - intros ph n Hn. apply Hin. by rewrite H.
Qed.

Lemma a_Status_insert (ms : gmap string amod) (n d : string) (m : amod) :
  a_Status (<[n := m]> ms) d = if decide (n = d) then a_status m else a_Status ms d.
Proof. unfold a_Status. case_decide; simplify_map_eq; done. Qed.

(** Changing status and start channel of a module keeps the links. *)
Lemma linked_set (ms : gmap string amod) (n : string) (m m' : amod) :
  ms !! n = Some m → a_deps m' = a_deps m → a_rdeps m' = a_rdeps m →
  linked ms → linked (<[n := m']> ms).
Proof.
  intros Hn Hd Hr Hl x mx d Hx Hdx.
  assert (∃ mx0, ms !! x = Some mx0 ∧ d ∈ a_deps mx0) as (mx0 & Hx0 & Hd0).
  { destruct (decide (n = x)) as [->|]; simplify_map_eq; [rewrite Hd in Hdx|]; eauto. }
  destruct (Hl x mx0 d Hx0 Hd0) as (dm & Hdm & Hin).
  destruct (decide (n = d)) as [->|]; simplify_map_eq; [|eauto].
  exists m'. split; [done|]. by rewrite Hr.
Qed.

Lemma deps_online_set (ms : gmap string amod) (n : string) (m : amod) (st : Z) (c : chan_state) :
  ms !! n = Some m → deps_online ms →
  (StatusOffline < st → ∀ d, d ∈ a_deps m → a_Status ms d = StatusOnline) →
  (st = StatusOnline ∨ st ≤ StatusOffline ∨ n ∉ a_deps m) →
  (st = StatusOnline ∨ ∀ x mx, ms !! x = Some mx → StatusOffline < a_status mx → n ∉ a_deps mx) →
  deps_online (<[n := a_set st c m]> ms).
Proof.
  intros Hn Hdo Hown Hself Hothers x mx d Hx Hup Hd. rewrite a_Status_insert.
  destruct (decide (n = x)) as [->|Hnx]; simplify_map_eq.
  - simpl in *. case_decide as Hxd; [subst; simpl; destruct Hself as [|[|]]; [done|lia|done]|].
    by apply Hown.
  - case_decide as Hnd; [subst; simpl; destruct Hothers as [|Hno]; [done|]|].
    + by destruct (Hno _ _ Hx Hup).
    + by eapply Hdo.
Qed.

Lemma Status_lookup (ms : gmap string amod) (n : string) (m : amod) :
  ms !! n = Some m → a_Status ms n = a_status m.
Proof. unfold a_Status. by intros ->. Qed.

(** Nothing that is up depends on a module that is not online. *)
Lemma not_needed (ms : gmap string amod) (n : string) (m : amod) :
  ms !! n = Some m → deps_online ms → a_status m ≠ StatusOnline →
  ∀ x mx, ms !! x = Some mx → StatusOffline < a_status mx → n ∉ a_deps mx.
Proof. intros Hn Hdo Hst x mx Hx Hup Hin. by rewrite <- (Hdo x mx n Hx Hup Hin), (Status_lookup ms n m) in Hst. Qed.

Lemma deps_online_begin (ms : gmap string amod) (n : string) (m : amod) (ph : phase) (c : chan_state) :
  ms !! n = Some m → map_Forall (λ _, status_ok) ms → linked ms → deps_online ms →
  a_status m = from_status ph → a_guard ph ms m →
  deps_online (<[n := a_set (busy_status ph) c m]> ms).
Proof.
  intros Hn Hok Hl Hdo Hst Hg.
  assert (Hrange : ∀ d, a_Status ms d ≤ StatusOnline).
  { intros d. unfold a_Status. destruct (ms !! d) eqn:E; [apply (Hok d a E)|done]. }
  apply deps_online_set; [done|done| | |].
  - intros Hup d Hd. destruct ph; simpl in *; [done| |].
    + specialize (Hg d Hd). specialize (Hrange d). lia.
    + eapply (Hdo n m); eauto. by rewrite Hst.
  - right. destruct ph; simpl in *; [by left| |]; right; intros Hin.
    + specialize (Hg n Hin). by rewrite (Status_lookup ms n m Hn), Hst in Hg.
    + destruct (Hl n m n Hn Hin) as (dm & Hdm & Hr). simplify_map_eq.
      specialize (Hg n Hr). by rewrite (Status_lookup ms n m Hn), Hst in Hg.
  - right. intros x mx Hx Hup Hin. destruct (decide (ph = PhStop)) as [->|Hph].
    + destruct (Hl x mx n Hx Hin) as (dm & Hdm & Hr). simplify_map_eq.
      specialize (Hg x Hr). rewrite (Status_lookup ms x mx Hx) in Hg. lia.
    + eapply (not_needed ms n m); eauto. rewrite Hst. by destruct ph.
Qed.

Lemma deps_online_done (ms : gmap string amod) (n : string) (m : amod) (ph : phase) (c : chan_state) :
  ms !! n = Some m → deps_online ms → a_status m = busy_status ph →
  deps_online (<[n := a_set (done_status ph) c m]> ms).
Proof.
  intros Hn Hdo Hst.
  assert (Hno := not_needed ms n m Hn Hdo).
  apply deps_online_set; [done|done| | |].
  - intros Hup d Hd. destruct ph; simpl in *; [done| |done]. eapply (Hdo n m); eauto. by rewrite Hst.
  - destruct ph; simpl; auto. all: right; left; done.
  - destruct ph; simpl; [|by left|]; right; apply Hno; rewrite Hst; done.
Qed.

Lemma runs_ok_begin (ms : gmap string amod) (its : list item) (n : string) (m : amod) (ph : phase)
    (ch : nat) (c : chan_state) :
  ms !! n = Some m → a_status m = from_status ph → runs_ok ms its →
  runs_ok (<[n := a_set (busy_status ph) c m]> ms) (LRun ph n ch :: its).
Proof.
  intros Hn Hst [Hnd Hin].
  assert (Hfresh : n ∉ (runs its).*2).
  { intros ((ph' & n') & Heq & Hr)%list_elem_of_fmap. simpl in Heq. subst n'.
    destruct (Hin _ _ Hr) as (m' & Hm' & Hst'). simplify_map_eq. rewrite Hst in Hst'.
    by destruct ph, ph'. }
  split; [by constructor|].
  intros ph' n' [[= -> ->]|Hr]%elem_of_cons; [simplify_map_eq; eauto|].
  destruct (Hin _ _ Hr) as (m' & Hm' & Hst').
  assert (n ≠ n') by (intros ->; apply Hfresh, list_elem_of_fmap; by exists (ph', n')).
  exists m'. by simplify_map_eq.
Qed.

Lemma runs_ok_end (ms : gmap string amod) (its : list item) (n : string) (ph : phase)
    (ch : nat) (err : option mod_error) (m' : option amod) :
  runs_ok ms (LRun ph n ch :: its) →
  runs_ok (match m' with Some m => <[n := m]> ms | None => ms end) (LSend n err ch :: its) ∧
  ∃ m, ms !! n = Some m ∧ a_status m = busy_status ph.
Proof.
  intros [Hnd Hin]. split; [|apply Hin; left]. simpl in Hnd. apply NoDup_cons in Hnd as [Hno Hnd].
  split; [done|]. intros ph' n' Hr.
  destruct (Hin ph' n') as (mx & Hmx & Hst); [by right|].
  assert (n ≠ n') by (intros ->; apply Hno, list_elem_of_fmap; by exists (ph', n')).
  exists mx. destruct m'; by simplify_map_eq.
Qed.

Lemma status_ok_set (ms : gmap string amod) (n : string) (m : amod) (st : Z) (c : chan_state) :
  map_Forall (λ _, status_ok) ms → StatusDead ≤ st ≤ StatusOnline →
  (st ≠ StatusOnline → c = ChanOpen) →
  map_Forall (λ _, status_ok) (<[n := a_set st c m]> ms).
Proof. intros H Hst Hc. apply map_Forall_insert_2; [by split|done]. Qed.

Lemma inv_register (ms : gmap string amod) (its : list item) (n : string) :
  ms !! n = None → all_dead ms → a_inv (mkAbstract ms its) →
  a_inv (mkAbstract (<[n := fresh_amod]> ms) its).
Proof.
  intros Hn Hdead [[Hnd Hin] Hok Hl Hd]. split; simpl in *.
  - split; [done|]. intros ph x (m & Hm & Hst)%Hin.
    exists m. split; [|done]. by rewrite lookup_insert_ne by congruence.
  - apply map_Forall_insert_2; [|done]. by split.
  - intros x mx d Hx Hdx. destruct (decide (n = x)) as [->|]; simplify_map_eq.
    { by apply elem_of_nil in Hdx. }
    destruct (Hl x mx d Hx Hdx) as (dm & Hdm & Hr). exists dm. split; [|done].
    by rewrite lookup_insert_ne by congruence.
  - intros x mx d Hx Hup Hdx. exfalso. destruct (decide (n = x)) as [->|]; simplify_map_eq; [done|].
    destruct (Hdead x mx Hx) as [Hst _]. by rewrite Hst in Hup.
Qed.

Lemma inv_link (ms ms' : gmap string amod) (its : list item) :
  all_dead ms → all_dead ms' → linked ms' → a_inv (mkAbstract ms its) → a_inv (mkAbstract ms' its).
Proof.
  intros Hdead Hdead' Hl [[Hnd Hin] _ _ _]. split; simpl in *; try done.
  - split; [done|]. intros ph x (m & Hm & Hst)%Hin. exfalso.
    destruct (Hdead x m Hm) as [Hx _]. rewrite Hst in Hx. by destruct ph.
  - intros x m Hx. destruct (Hdead' x m Hx) as [Hst Hc]. split; [rewrite Hst; done|done].
  - intros x mx d Hx Hup Hdx. destruct (Hdead' x mx Hx) as [Hst _]. by rewrite Hst in Hup.
Qed.

(** Every step of the protocol keeps the invariants. *)
Lemma astep_inv (a a' : abstract) : astep a a' → a_inv a → a_inv a'.
Proof.
  intros Hs Hi. pose proof Hi as [Hr Hok Hl Hd]. destruct Hs; simpl in *.
  - split; simpl; try done. eapply runs_ok_perm; [|done]. by f_equiv.
  - by apply inv_register.
  - by apply (inv_link ms).
  - split; simpl.
    + eapply runs_ok_perm; [by rewrite H2|]. by apply runs_ok_begin.
    + apply status_ok_set; [done|by destruct ph|]. intros Hst. destruct ph; simpl in *; [| |done].
      all: apply (Hok n m H); rewrite H0; done.
    + by eapply linked_set.
    + by apply deps_online_begin.
  - destruct (runs_ok_end ms its0 n ph ch err (Some (a_set (done_status ph) (done_chan ph m) m)))
      as (Hr' & m' & Hm' & Hst).
    { eapply runs_ok_perm; [|done]. by rewrite H0. }
    simplify_map_eq. split; simpl.
    + eapply runs_ok_perm; [|done]. by rewrite H1.
    + apply status_ok_set; [done|by destruct ph|]. intros Hne. destruct ph; simpl in *; [|done|].
      all: apply (Hok n m H); rewrite Hst; done.
    + by eapply linked_set.
    + by apply deps_online_done.
  - split; simpl; try done. destruct (runs_ok_end ms its0 n ph ch (Some e) None) as (Hr' & _).
    { eapply runs_ok_perm; [|done]. by rewrite H. }
    eapply runs_ok_perm; [|done]. by rewrite H0.
  - split; simpl; try done. eapply runs_ok_perm; [|done]. by rewrite H.
Qed.

(** ** The abstraction *)

Definition abs_mod (m : GoModule) : amod :=
  mkAmod (status m) (startComplete m) (depModules m) (depReverse m).

Definition item_of (p : proc) : option item :=
  match p with
  | PBegin ph n ch | PWait ph n ch _ => Some (LRun ph n ch)
  | PSend n err ch => Some (LSend n err ch)
  | _ => None
  end.

Definition items (ps : list proc) : list item := omap item_of ps.

Definition abs (s : ModSys) : abstract := mkAbstract (abs_mod <$> modules s) (items (procs s)).

Definition proc_name (p : proc) : string :=
  match p with
  | PBegin _ n _ | PWait _ n _ _ | PSend n _ _ | PCtrl n _ | PCtrlEnd n
  | PJobStart _ n _ | PJobRun _ n _ => n
  end.

(** The stop channel is open while nobody has completed the stop. *)
Definition stop_ok (m : GoModule) : Prop := stopCompleted m = false → stopComplete m = ChanOpen.

(** What every state needs so that no step panics: sound stop channels, and
    goroutines of registered modules only. *)
Definition good (s : ModSys) : Prop :=
  map_Forall (λ _, stop_ok) (modules s) ∧
  Forall (λ p, is_Some (modules s !! proc_name p)) (procs s).

(** No control function has reported an error. *)
Definition cells_clean (s : ModSys) : Prop := map_Forall (λ _ (err : option mod_error), err = None) (cells s).

(** What the report loops see of a module. *)
Definition view (m : GoModule) : amod * bool * bool := (abs_mod m, enabled m, enabledAsDependency m).

(** A change of the state that the report loops and the protocol do not
    see. *)
Record quiet (s s' : ModSys) : Prop := mkQuiet {
  q_view : view <$> modules s' = view <$> modules s;
  q_items : items (procs s') = items (procs s);
  q_mgmt : mgmt s' = mgmt s;
  q_flags : (modulesLocked s', moduleMgmtEnabled s', shutdownFlag s', setup s', results s') =
            (modulesLocked s, moduleMgmtEnabled s, shutdownFlag s, setup s, results s);
  q_cells : cells_clean s → cells_clean s';
  q_next : (next_chan s ≤ next_chan s')%nat;
}.

#[global] Instance quiet_preorder : PreOrder quiet.
Proof.
  split.
  - intros s. by split.
  - intros s1 s2 s3 [? ? ? ? ? ?] [? ? ? ? ? ?]. split; try congruence; [auto|lia].
Qed.

(** A result is fine when it does not panic and a new state satisfies [Q]. *)
Definition safe (r : go disabled ModSys) (Q : ModSys → Prop) : Prop :=
  match r with Ret s => Q s | Fail _ => True | Panic => False end.

Lemma safe_bind (r : go disabled ModSys) (k : ModSys → go disabled ModSys) (P Q : ModSys → Prop) :
  safe r P → (∀ s, P s → safe (k s) Q) → safe (go_bind r k) Q.
Proof. destruct r; simpl; auto. Qed.

Lemma safe_mono (r : go disabled ModSys) (P Q : ModSys → Prop) :
  safe r P → (∀ s, P s → Q s) → safe r Q.
Proof. destruct r; simpl; auto. Qed.

(** The usual postcondition of a helper. *)
Definition quiet_good (s s' : ModSys) : Prop := quiet s s' ∧ good s'.

Lemma quiet_good_trans (s1 s2 s3 : ModSys) : quiet_good s1 s2 → quiet_good s2 s3 → quiet_good s1 s3.
Proof. intros [H1 _] [H2 ?]. split; [by etrans|done]. Qed.

Lemma quiet_dom (s s' : ModSys) (n : string) :
  quiet s s' → is_Some (modules s' !! n) ↔ is_Some (modules s !! n).
Proof.
  intros H. apply (q_view s s') in H.
  rewrite <- !(fmap_is_Some view), <- !lookup_fmap. by rewrite H.
Qed.

Lemma quiet_abs (s s' : ModSys) : quiet s s' → abs s' = abs s.
Proof.
  intros [Hv Hi]. unfold abs. rewrite Hi. f_equal.
  assert (H : ∀ ms : gmap string GoModule, abs_mod <$> ms = fst ∘ fst <$> (view <$> ms)).
  { intros ms. by rewrite <- map_fmap_compose. }
  by rewrite !H, Hv.
Qed.

(** *** Quiet helpers *)

Lemma put_modules_quiet (s : ModSys) (n : string) (m m' : GoModule) :
  modules s !! n = Some m → view m' = view m → good s → stop_ok m' →
  quiet_good s (put_modules (<[n := m']> (modules s)) s).
Proof.
  intros Hn Hv [Hs Hp] Hok. split.
  - split; simpl; try done. rewrite fmap_insert, Hv. apply insert_id.
    by rewrite lookup_fmap, Hn.
  - split; simpl; [by apply map_Forall_insert_2|].
    eapply Forall_impl; [done|]. intros p Hin. rewrite lookup_insert_is_Some'. by right.
Qed.

Lemma on_module_quiet (n : string) (f : GoModule → go disabled GoModule) (s : ModSys) :
  good s → is_Some (modules s !! n) →
  (∀ m, stop_ok m → ∃ m', f m = Ret m' ∧ view m' = view m ∧ stop_ok m') →
  safe (on_module n f s) (quiet_good s).
Proof.
  intros Hg [m Hn] Hf. unfold on_module. rewrite Hn.
  destruct (Hf m) as (m' & -> & Hv & Hok); [by eapply (proj1 Hg)|].
  simpl. by eapply put_modules_quiet.
Qed.

Lemma spawn_quiet (p : proc) (s : ModSys) :
  good s → item_of p = None → is_Some (modules s !! proc_name p) → quiet_good s (spawn p s).
Proof.
  intros [Hs Hp] Hi Hn. split.
  - split; simpl; try done. unfold items. rewrite omap_app. simpl. by rewrite Hi, app_nil_r.
  - split; [done|]. apply Forall_app. by split; [|constructor].
Qed.

Lemma notifyOfChange_quiet (n : string) (s : ModSys) :
  good s → is_Some (modules s !! n) → quiet_good s (notifyOfChange n s).
Proof. intros Hg Hn. unfold notifyOfChange. case_match; [by apply spawn_quiet|by split]. Qed.

Lemma checkIfStopComplete_quiet (m : GoModule) :
  stop_ok m → ∃ m', checkIfStopComplete m = Ret m' ∧ view m' = view m ∧ stop_ok m'.
Proof.
  intros Hok. unfold checkIfStopComplete. case_match; [|eauto].
  destruct (stopCompleted m) eqn:E; [eauto|]. rewrite (Hok E). simpl. eexists. by split_and!.
Qed.

(** checkIfStopComplete after a change nobody sees. *)
Lemma check_after_quiet (f : GoModule → GoModule) (m : GoModule) :
  (∀ m, view (f m) = view m) → (∀ m, stop_ok m → stop_ok (f m)) → stop_ok m →
  ∃ m', checkIfStopComplete (f m) = Ret m' ∧ view m' = view m ∧ stop_ok m'.
Proof.
  intros Hv Hs Hok. destruct (checkIfStopComplete_quiet (f m)) as (m' & -> & Hv' & Hok'); [auto|].
  exists m'. split_and!; [done|congruence|done].
Qed.

Lemma log_failure_quiet (entries : list (Z * string * string * string)) (s : ModSys) :
  good s → quiet_good s (log_failure entries s).
Proof. done. Qed.

Lemma setFailure_quiet (st : Z) (id title msg n : string) (s : ModSys) :
  good s → is_Some (modules s !! n) → safe (setFailure st id title msg n s) (quiet_good s).
Proof.
  intros Hg [m Hn]. unfold setFailure. rewrite Hn.
  set (m' := if bool_decide _ then m else _).
  assert (H1 : quiet_good s (put_modules (<[n:=m']> (modules s)) s)).
  { eapply put_modules_quiet; [done| |done|]; unfold m'; case_bool_decide; try done;
      apply (proj1 Hg n m Hn). }
  assert (H2 : quiet_good s (notifyOfChange n (put_modules (<[n:=m']> (modules s)) s))).
  { eapply quiet_good_trans; [done|]. apply notifyOfChange_quiet; [apply H1|].
    simpl. by rewrite lookup_insert_eq. }
  case_match; [|done]. eapply safe_mono; [|intros s'; by apply quiet_good_trans].
  eapply safe_mono; [apply on_module_quiet|].
  - apply log_failure_quiet, H2.
  - simpl. rewrite (quiet_dom s); [by eexists|apply H2].
  - apply checkIfStopComplete_quiet.
  - intros s'. apply quiet_good_trans, log_failure_quiet, H2.
Qed.

Lemma Resolve_quiet (id n : string) (s : ModSys) :
  good s → is_Some (modules s !! n) → safe (Resolve id n s) (quiet_good s).
Proof.
  intros Hg [m Hn]. unfold Resolve. rewrite Hn. case_match; [by split|]. simpl.
  set (s1 := notifyOfChange n _).
  assert (H0 : quiet_good s (put_modules (<[n:=set_failure FailureNone "" "" "" m]> (modules s)) s)).
  { apply (put_modules_quiet s n m); [done|done|done|apply (proj1 Hg n m Hn)]. }
  assert (H1 : quiet_good s s1).
  { eapply quiet_good_trans; [done|]. apply notifyOfChange_quiet; [apply H0|].
    simpl. by rewrite lookup_insert_eq. }
  case_match; [|done]. eapply quiet_good_trans; [done|].
  apply spawn_quiet; [apply H1|done|]. simpl. rewrite (quiet_dom s); [by eexists|apply H1].
Qed.

Lemma put_next_chan_quiet (k : nat) (s : ModSys) :
  (next_chan s ≤ k)%nat → good s → quiet_good s (put_next_chan k s).
Proof. intros Hk Hg. by split. Qed.

Lemma put_cells_quiet (k : nat) (s : ModSys) :
  good s → quiet_good s (put_cells (<[k := None]> (cells s)) s).
Proof. intros Hg. split; [|done]. split; simpl; try done. intros H. by apply map_Forall_insert_2. Qed.

Lemma safe_Ret_inv (r : go disabled ModSys) (Q : ModSys → Prop) :
  safe r Q → (∃ s, r = Ret s ∧ Q s) ∨ r = Fail Disabled.
Proof. destruct r as [s|[]|]; simpl; [eauto|auto|done]. Qed.

Lemma startCtrlFn_quiet (fn : bool) (n : string) (s : ModSys) :
  good s → is_Some (modules s !! n) →
  match startCtrlFn fn n s with Ret (s', _) => quiet_good s s' | Fail _ => True | Panic => False end.
Proof.
  intros Hg Hn. unfold startCtrlFn.
  assert (H1 : quiet_good s (put_next_chan (S (next_chan s)) s)) by (apply put_next_chan_quiet; [lia|done]).
  set (s1 := put_next_chan _ s) in *. destruct fn.
  - destruct (safe_Ret_inv _ _ (on_module_quiet n (λ m, Ret (set_ctrlFuncRunning true m)) s1
      (proj2 H1) Hn ltac:(intros m Hm; by eexists))) as [(s2 & E & H2)|E];
      unfold mod_module; rewrite E; simpl; [|done].
    assert (H12 := quiet_good_trans _ _ _ H1 H2). eapply quiet_good_trans; [done|].
    apply spawn_quiet; [apply H2|done|]. simpl. by rewrite (quiet_dom s _ _ (proj1 H12)).
  - destruct (safe_Ret_inv _ _ (on_module_quiet n (λ m, checkIfStopComplete (set_ctrlFuncRunning false m))
      s1 (proj2 H1) Hn ltac:(intros m Hm; by apply check_after_quiet))) as [(s2 & E & H2)|E];
      rewrite E; simpl; [|done].
    eapply quiet_good_trans; [done|]. eapply quiet_good_trans; [done|]. apply put_cells_quiet, H2.
Qed.

(** *** One action of a goroutine *)

(** No error and no timeout. *)
Definition clean_choice (c : choice) : Prop :=
  match c with ChTimeout | ChResult (Some _) => False | _ => True end.

Definition clean (c : choice) (s : ModSys) : Prop := clean_choice c ∧ cells_clean s.

(** What stays when a goroutine acts, with the items it adds. *)
Record frame (c : choice) (add : list item) (s s' : ModSys) : Prop := mkFrame {
  f_items : items (procs s') ≡ₚ add ++ items (procs s);
  f_mgmt : mgmt s' = mgmt s;
  f_flags : (modulesLocked s', moduleMgmtEnabled s', shutdownFlag s', setup s', results s') =
            (modulesLocked s, moduleMgmtEnabled s, shutdownFlag s, setup s, results s);
  f_cells : clean c s → cells_clean s';
  f_next : (next_chan s ≤ next_chan s')%nat;
}.

Lemma frame_quiet_l (c : choice) (add : list item) (s s1 s' : ModSys) :
  quiet s s1 → frame c add s1 s' → frame c add s s'.
Proof.
  intros [_ Hi Hm Hf Hc Hn] [Hi' Hm' Hf' Hc' Hn']. split; try congruence.
  - intros [Hcc Hcl]. apply Hc'. split; auto.
  - lia.
Qed.

Lemma frame_quiet_r (c : choice) (add : list item) (s s1 s' : ModSys) :
  frame c add s s1 → quiet s1 s' → frame c add s s'.
Proof.
  intros [Hi Hm Hf Hc Hn] [_ Hi' Hm' Hf' Hc' Hn']. split; try congruence.
  - auto.
  - lia.
Qed.

Lemma quiet_frame (c : choice) (s s' : ModSys) : quiet s s' → frame c [] s s'.
Proof. intros H. apply (frame_quiet_r c [] s s s'); [|done]. split; try done. by intros []. Qed.

Lemma spawn_frame (c : choice) (p : proc) (i : item) (s : ModSys) :
  item_of p = Some i → frame c [i] s (spawn p s).
Proof.
  intros Hp. split; simpl; try done; [|by intros []]. unfold items. rewrite omap_app. simpl.
  rewrite Hp. by rewrite (comm (++)).
Qed.

(** The module after a phase has ended well, as the loops see it. *)
Definition done_view (ph : phase) (m : GoModule) : amod * bool * bool :=
  (a_set (done_status ph) (done_chan ph (abs_mod m)) (abs_mod m), enabled m, enabledAsDependency m).

(** What an action of a goroutine [p] does, seen from the protocol: nothing, a
    step inside its phase, the end of the phase, or its failure. *)
Inductive effect (c : choice) (p : proc) (s s' : ModSys) : Prop :=
| eff_quiet : item_of p = None → view <$> modules s' = view <$> modules s → frame c [] s s' →
    effect c p s s'
| eff_run ph n ch : item_of p = Some (LRun ph n ch) → view <$> modules s' = view <$> modules s →
    frame c [LRun ph n ch] s s' → effect c p s s'
| eff_done ph n ch err m : item_of p = Some (LRun ph n ch) → modules s !! n = Some m →
    view <$> modules s' = <[n := done_view ph m]> (view <$> modules s) →
    frame c [LSend n err ch] s s' → ph = PhStop ∨ err = None → (clean c s → err = None) →
    effect c p s s'
| eff_fail ph n ch e : item_of p = Some (LRun ph n ch) → ph ≠ PhStop →
    view <$> modules s' = view <$> modules s → frame c [LSend n (Some e) ch] s s' →
    (clean c s → False) → effect c p s s'.

Definition effect_good (c : choice) (p : proc) (s s' : ModSys) : Prop := effect c p s s' ∧ good s'.

Lemma good_put (s : ModSys) (n : string) (m m' : GoModule) :
  good s → modules s !! n = Some m → stop_ok m' → good (put_modules (<[n := m']> (modules s)) s).
Proof.
  intros [Hs Hp] Hn Hok. split; simpl; [by apply map_Forall_insert_2|].
  eapply Forall_impl; [done|]. intros p Hin. rewrite lookup_insert_is_Some'. by right.
Qed.

Lemma good_spawn (s : ModSys) (p : proc) :
  good s → is_Some (modules s !! proc_name p) → good (spawn p s).
Proof. intros [Hs Hp] Hn. split; [done|]. apply Forall_app. by split; [|constructor]. Qed.

Lemma good_delete (s : ModSys) (i : nat) : good s → good (put_procs (delete i (procs s)) s).
Proof. intros [Hs Hp]. split; [done|]. by apply Forall_delete. Qed.

(** A new status, then the notification, then whatever is quiet, then the
    report. *)
Lemma report_after (c : choice) (s s2 : ModSys) (n : string) (m m' : GoModule)
    (err : option mod_error) (ch : nat) :
  modules s !! n = Some m → good s → stop_ok m' →
  quiet_good (put_modules (<[n := m']> (modules s)) s) s2 →
  let s3 := spawn (PSend n err ch) s2 in
  good s3 ∧ view <$> modules s3 = <[n := view m']> (view <$> modules s) ∧
  frame c [LSend n err ch] s s3.
Proof.
  intros Hn Hg Hok [Hq Hg2] s3.
  split_and!.
  - apply good_spawn; [done|]. simpl. rewrite (quiet_dom _ _ _ Hq). simpl. by rewrite lookup_insert_eq.
  - simpl. rewrite (q_view _ _ Hq). simpl. by rewrite fmap_insert.
  - destruct Hq as [_ Hi Hm Hf Hc Hx]. simpl in *.
    destruct (spawn_frame c (PSend n err ch) (LSend n err ch) s2 eq_refl) as [Hi3 Hm3 Hf3 Hc3 Hx3].
    split; simpl in *; try congruence. intros [? ?]. by apply Hc.
Qed.

(** A failed phase: the failure status is set, the report carries the error. *)
Lemma report_failure (c : choice) (s : ModSys) (n id title msg : string) (e : mod_error) (ch : nat) :
  good s → is_Some (modules s !! n) →
  safe (let! s1 := Module_Error id title msg n s in Ret (spawn (PSend n (Some e) ch) s1))
    (λ s', good s' ∧ view <$> modules s' = view <$> modules s ∧ frame c [LSend n (Some e) ch] s s').
Proof.
  intros Hg Hn. eapply safe_bind; [by apply setFailure_quiet|]. intros s1 [Hq Hg1]. simpl.
  split_and!.
  - apply good_spawn; [done|]. by rewrite (quiet_dom _ _ _ Hq).
  - apply (q_view _ _ Hq).
  - eapply frame_quiet_l; [done|]. by apply spawn_frame.
Qed.

(** The end of prep and of start, by the error of the control function. *)
Definition end_effect (c : choice) (ph : phase) (n : string) (ch : nat) (m : GoModule)
    (err : option mod_error) (s s' : ModSys) : Prop :=
  good s' ∧ frame c [LSend n err ch] s s' ∧
  view <$> modules s' =
    (if decide (err = None ∨ ph = PhStop) then <[n := done_view ph m]> else id) (view <$> modules s).

Lemma prep_end_ok (c : choice) (s : ModSys) (n : string) (m : GoModule) (err : option mod_error) (ch : nat) :
  good s → modules s !! n = Some m → safe (prep_end n err ch s) (end_effect c PhPrep n ch m err s).
Proof.
  intros Hg Hn. unfold prep_end. destruct err as [e|].
  - eapply safe_mono; [by eapply (report_failure c)|]. intros s' (? & ? & ?). by split_and!.
  - unfold mod_module, on_module. rewrite Hn. simpl.
    set (m' := set_status StatusOffline m).
    destruct (report_after c s (notifyOfChange n (put_modules (<[n:=m']> (modules s)) s)) n m m' None ch)
      as (? & ? & ?); [done|done|apply (proj1 Hg n m Hn)| |by split_and!].
    apply notifyOfChange_quiet; [by apply (good_put s n m m'); [..|apply (proj1 Hg n m Hn)]|].
    simpl. by rewrite lookup_insert_eq.
Qed.

Lemma start_end_ok (c : choice) (s : ModSys) (n : string) (m : GoModule) (err : option mod_error) (ch : nat) :
  good s → modules s !! n = Some m → startComplete m = ChanOpen →
  safe (start_end n err ch s) (end_effect c PhStart n ch m err s).
Proof.
  intros Hg Hn Hc. unfold start_end. destruct err as [e|].
  - eapply safe_mono; [by eapply (report_failure c)|]. intros s' (? & ? & ?). by split_and!.
  - unfold on_module. rewrite Hn, Hc. simpl.
    set (m' := set_startComplete ChanClosed (set_status StatusOnline m)).
    destruct (report_after c s (notifyOfChange n (put_modules (<[n:=m']> (modules s)) s)) n m m' None ch)
      as (? & ? & ?); [done|done|apply (proj1 Hg n m Hn)| |by split_and!].
    apply notifyOfChange_quiet; [by apply (good_put s n m m'); [..|apply (proj1 Hg n m Hn)]|].
    simpl. by rewrite lookup_insert_eq.
Qed.

Lemma quiet_lookup (s s' : ModSys) (n : string) (m : GoModule) :
  quiet s s' → modules s !! n = Some m → ∃ m', modules s' !! n = Some m' ∧ view m' = view m.
Proof.
  intros H Hn. apply (q_view s s') in H. assert (E : (view <$> modules s') !! n = Some (view m)).
  { by rewrite H, lookup_fmap, Hn. }
  rewrite lookup_fmap in E. apply fmap_Some in E as (m' & ? & ?). eauto.
Qed.

Lemma done_view_cong (ph : phase) (m m' : GoModule) : view m' = view m → done_view ph m' = done_view ph m.
Proof. unfold view, done_view, abs_mod. by intros [= -> -> -> -> -> ->]. Qed.

Lemma stop_end_ok (c : choice) (s : ModSys) (n : string) (m : GoModule) (err : option mod_error) (ch : nat) :
  good s → modules s !! n = Some m → safe (stopAllTasks_end n err ch s) (end_effect c PhStop n ch m err s).
Proof.
  intros Hg Hn. unfold stopAllTasks_end.
  apply safe_bind with (quiet_good s).
  { destruct err; [apply setFailure_quiet; [done|by eexists]|by split]. }
  intros s1 [Hq1 Hg1]. destruct (quiet_lookup s s1 n m Hq1 Hn) as (m1 & Hn1 & Hv1).
  unfold mod_module, on_module. rewrite Hn1. simpl. set (m' := set_status StatusOffline m1).
  assert (Hok : stop_ok m') by apply (proj1 Hg1 n m1 Hn1).
  assert (Hg2 := good_put s1 n m1 m' Hg1 Hn1 Hok). set (s2 := put_modules (<[n:=m']> (modules s1)) s1) in *.
  assert (Hn2 : is_Some (modules s2 !! n)) by (simpl; by rewrite lookup_insert_eq).
  assert (H3 := notifyOfChange_quiet n s2 Hg2 Hn2).
  eapply safe_bind; [apply Resolve_quiet; [apply H3|by rewrite (quiet_dom s2 _ _ (proj1 H3))]|].
  intros s4 H4. assert (H24 := quiet_good_trans _ _ _ H3 H4).
  destruct (report_after c s1 s4 n m1 m' err ch) as (? & Hv & Hf); [done..|].
  simpl. split_and!; [done|by eapply frame_quiet_l|].
  rewrite decide_True by auto. rewrite Hv, (q_view s s1 Hq1). f_equal.
  by rewrite <- (done_view_cong _ _ _ Hv1).
Qed.

Lemma end_to_effect (c : choice) (p : proc) (ph : phase) (n : string) (ch : nat) (m : GoModule)
    (err : option mod_error) (s s' : ModSys) :
  item_of p = Some (LRun ph n ch) → modules s !! n = Some m → (clean c s → err = None) →
  end_effect c ph n ch m err s s' → effect_good c p s s'.
Proof.
  intros Hp Hn Hc (Hg & Hf & Hv). split; [|done]. case_decide as Hd.
  - eapply eff_done; [done|done|done|done| |done]. naive_solver.
  - destruct err as [e|]; [|naive_solver]. eapply eff_fail; [done|naive_solver|done|done|].
    by intros ?%Hc.
Qed.

(** A goroutine that starts its control function and waits for it. *)
Lemma wait_effect (c : choice) (ph : phase) (fn : bool) (n : string) (ch : nat) (s0 s : ModSys) :
  quiet_good s0 s → is_Some (modules s !! n) →
  safe (let! sk := startCtrlFn fn n s in Ret (spawn (PWait ph n ch sk.2) sk.1))
    (effect_good c (PBegin ph n ch) s0).
Proof.
  intros [Hq Hg] Hn. assert (H := startCtrlFn_quiet fn n s Hg Hn).
  destruct (startCtrlFn fn n s) as [[s1 k]| |]; simpl; [|done|done]. destruct H as [Hq1 Hg1].
  assert (Hq2 : quiet s0 s1) by (by etrans). split.
  - eapply eff_run; [done|apply (q_view _ _ Hq2)|]. eapply frame_quiet_l; [done|]. by apply spawn_frame.
  - apply good_spawn; [done|]. by rewrite (quiet_dom _ _ _ Hq1).
Qed.

Lemma await_ctrl_clean (k : nat) (c : choice) (s : ModSys) :
  match await_ctrl k c s with Ret err => clean c s → err = None | Fail _ => True | Panic => False end.
Proof.
  unfold await_ctrl. destruct c as [| |[e|]]; try by (intros []).
  all: destruct (cells s !! k) eqn:E; [|done]; intros [_ Hc]; apply (Hc k _ E).
Qed.

(** A step of a goroutine that is none of the life cycle. *)
Lemma quiet_effect (c : choice) (p : proc) (s s' : ModSys) :
  item_of p = None → quiet_good s s' → effect_good c p s s'.
Proof.
  intros Hp [Hq Hg]. split; [|done]. apply eff_quiet; [done|apply (q_view _ _ Hq)|by apply quiet_frame].
Qed.

Lemma run_proc_ok (c : choice) (p : proc) (s : ModSys) :
  good s → is_Some (modules s !! proc_name p) →
  (∀ n ch m, item_of p = Some (LRun PhStart n ch) → modules s !! n = Some m → startComplete m = ChanOpen) →
  safe (run_proc p c s) (effect_good c p s).
Proof.
  intros Hg Hp Hsc. pose proof Hp as [m Hm].
  destruct p as [[] n ch|[] n ch k|n err ch|n k|n|cnt n w|cnt n w];
    cbn [run_proc proc_name item_of] in *; unfold ctrlFn_end, RunWorker_begin, RunWorker_end;
    try rewrite Hm.
  - destruct (prepFn m); [by apply wait_effect|].
    eapply safe_mono; [by apply (prep_end_ok c s n m)|]. intros s'. by apply end_to_effect.
  - destruct (startFn m); [by apply wait_effect|].
    eapply safe_mono; [by apply (start_end_ok c s n m); [..|eapply Hsc]|]. intros s'. by apply end_to_effect.
  - unfold stopAllTasks_begin, mod_module, on_module. rewrite Hm. simpl.
    apply wait_effect; simpl; [|by rewrite lookup_insert_eq].
    apply (put_modules_quiet s n m); [done|done|done|apply (proj1 Hg n m Hm)].
  - assert (H := await_ctrl_clean k c s). destruct (await_ctrl k c s) as [err| |]; simpl; [|done..].
    eapply safe_mono; [by apply (prep_end_ok c s n m)|]. intros s'. by apply end_to_effect.
  - assert (H := await_ctrl_clean k c s). destruct (await_ctrl k c s) as [err| |]; simpl; [|done..].
    eapply safe_mono; [by apply (start_end_ok c s n m); [..|eapply Hsc]|]. intros s'. by apply end_to_effect.
  - unfold await_stop. rewrite Hm. case_match; simpl; [|done].
    eapply safe_mono; [by apply (stop_end_ok c s n m)|]. intros s'. apply end_to_effect; [done..|].
    intros [_ Hc]. destruct (cells s !! k) eqn:E; [apply (Hc k _ E)|done].
  - done.
  - destruct c as [| |err]; simpl; [done|done|]. split; [|by apply good_spawn]. apply eff_quiet; [done|done|].
    split; simpl; try done; [by unfold items; rewrite omap_app, app_nil_r|]. intros [Hc Hcl].
    apply map_Forall_insert_2; [by destruct err|done].
  - eapply safe_mono; [apply on_module_quiet; [done..|]|intros s'; by apply quiet_effect].
    intros m' Hm'. by apply check_after_quiet.
  - assert (Hc : ∀ m, view (add_count cnt 1 m) = view m ∧ (stop_ok m → stop_ok (add_count cnt 1 m)))
      by (by destruct cnt).
    eapply safe_bind; [apply on_module_quiet; [done..|]|].
    { intros m' Hm'. eexists. split_and!; [done|apply Hc|by apply Hc]. }
    intros s1 [Hq Hg1]. simpl. apply quiet_effect; [done|]. eapply quiet_good_trans; [by split|].
    apply spawn_quiet; [done|done|]. by rewrite (quiet_dom _ _ _ Hq).
  - assert (Hw : quiet_good s (run_work w s)) by (by destruct w).
    eapply safe_mono; [apply on_module_quiet; [apply Hw|by rewrite (quiet_dom _ _ _ (proj1 Hw))|]|].
    { intros m' Hm'. by destruct cnt; apply check_after_quiet. }
    intros s' Hs'. apply quiet_effect; [done|]. by eapply quiet_good_trans.
Qed.

(** *** The dependency tree and the links *)

(** Marking changes nothing but the marks. *)
Lemma markDependencies_other {B : Type} (f : GoModule → B) (fuel : nat) (n : string)
    (ms : gmap string GoModule) :
  (∀ b m, f (set_enabledAsDependency b m) = f m) → f <$> markDependencies fuel n ms = f <$> ms.
Proof.
  intros Hf. revert n ms. induction fuel as [|fuel IH]; intros n ms; simpl; [done|].
  generalize (match ms !! n with Some m => depModules m | None => [] end). intros deps. revert ms.
  induction deps as [|d deps IHd]; intros ms; simpl; [done|]. rewrite IHd.
  destruct (ms !! d) as [dm|] eqn:E; [|done]. destruct (enabledAsDependency dm); [done|].
  rewrite IH, fmap_insert, Hf. apply insert_id. by rewrite lookup_fmap, E.
Qed.

Lemma buildEnabledTree_other {B : Type} (f : GoModule → B) (order : list string)
    (ms : gmap string GoModule) :
  (∀ b m, f (set_enabledAsDependency b m) = f m) → f <$> buildEnabledTree order ms = f <$> ms.
Proof.
  intros Hf. unfold buildEnabledTree. transitivity (f <$> (set_enabledAsDependency false <$> ms)).
  - generalize (set_enabledAsDependency false <$> ms). clear ms. induction order as [|n order IH]; intros ms; [done|].
    cbn [foldl]. rewrite IH. destruct (ms !! n) as [m|]; [|done]. destruct (enabled m); [|done].
    by apply markDependencies_other.
  - rewrite <- map_fmap_compose. apply map_fmap_ext. intros i x _. apply Hf.
Qed.

(** [f] of the modules in the map is what matters for a property that only
    depends on [f]. *)
Lemma map_Forall_fmap_eq {A B : Type} (f : A → B) (P : A → Prop) (ms ms' : gmap string A) :
  (∀ x y, f x = f y → P x → P y) → f <$> ms' = f <$> ms → map_Forall (λ _, P) ms → map_Forall (λ _, P) ms'.
Proof.
  intros HP Heq Hms n m Hn. assert (E : (f <$> ms) !! n = Some (f m)) by (by rewrite <- Heq, lookup_fmap, Hn).
  rewrite lookup_fmap in E. apply fmap_Some in E as (m0 & Hm0 & Hf). apply (HP m0); [done|by apply (Hms n)].
Qed.

Lemma fmap_eq_is_Some {A B : Type} (f : A → B) (ms ms' : gmap string A) (n : string) :
  f <$> ms' = f <$> ms → is_Some (ms' !! n) ↔ is_Some (ms !! n).
Proof. intros H. rewrite <- !(fmap_is_Some f), <- !lookup_fmap. by rewrite H. Qed.

Definition stop_fields (m : GoModule) : bool * chan_state := (stopCompleted m, stopComplete m).

Lemma stop_ok_fields (m m' : GoModule) : stop_fields m = stop_fields m' → stop_ok m → stop_ok m'.
Proof. unfold stop_fields, stop_ok. by intros [= -> ->]. Qed.

(** The links of one dependency. *)
Definition link_one (n d : string) (ms : gmap string GoModule) : gmap string GoModule :=
  alter (λ dm, set_depReverse (depReverse dm ++ [n]) dm) d
    (alter (λ m, set_depModules (depModules m ++ [d]) m) n ms).

Lemma link_one_lookup (n d x : string) (ms : gmap string GoModule) :
  link_one n d ms !! x =
    (λ m, (if decide (d = x) then λ m, set_depReverse (depReverse m ++ [n]) m else id)
      ((if decide (n = x) then λ m, set_depModules (depModules m ++ [d]) m else id) m)) <$> ms !! x.
Proof.
  unfold link_one. destruct (decide (d = x)) as [->|], (decide (n = x)) as [->|];
    simplify_map_eq; destruct (ms !! x); done.
Qed.

Definition unlinked_fields (m : GoModule) : Z * chan_state * (bool * chan_state) * list string :=
  (status m, startComplete m, stop_fields m, depNames m).

Lemma link_one_other (n d : string) (ms : gmap string GoModule) :
  unlinked_fields <$> link_one n d ms = unlinked_fields <$> ms.
Proof.
  apply map_eq. intros x. rewrite !lookup_fmap, link_one_lookup.
  destruct (ms !! x); simpl; [|done]. by repeat case_decide.
Qed.

Lemma link_one_linked (n d : string) (ms : gmap string GoModule) :
  is_Some (ms !! d) → linked (abs_mod <$> ms) → linked (abs_mod <$> link_one n d ms).
Proof.
  intros [md Hd] Hl x mx y Hx Hy.
  assert (Hrev : ∀ z mz r, ms !! z = Some mz → r ∈ depReverse mz →
    ∃ dm, (abs_mod <$> link_one n d ms) !! z = Some dm ∧ r ∈ a_rdeps dm).
  { intros z mz r Hz Hr. rewrite lookup_fmap, link_one_lookup, Hz. simpl. eexists. split; [done|].
    repeat case_decide; simpl; set_solver. }
  rewrite lookup_fmap, link_one_lookup in Hx. destruct (ms !! x) as [m0|] eqn:E; [|done].
  simpl in Hx. injection Hx as <-.
  assert (Hcase : y ∈ depModules m0 ∨ n = x ∧ y = d).
  { repeat case_decide; simpl in Hy; set_solver. }
  destruct Hcase as [Hin|[-> ->]].
  - destruct (Hl x (abs_mod m0) y) as (dm & Hdm & Hr); [by rewrite lookup_fmap, E|done|].
    rewrite lookup_fmap in Hdm. apply fmap_Some in Hdm as (my & Hmy & ->). by eapply Hrev.
  - rewrite lookup_fmap, link_one_lookup, Hd. simpl. eexists. split; [done|].
    rewrite (decide_True _ _ (eq_refl d)). case_decide; simpl; set_solver.
Qed.

Lemma link_deps_spec (n : string) (names : list string) (ms : gmap string GoModule) :
  linked (abs_mod <$> ms) →
  let ms' := (link_deps n names ms).1 in
  linked (abs_mod <$> ms') ∧ unlinked_fields <$> ms' = unlinked_fields <$> ms.
Proof.
  revert ms. induction names as [|d names IH]; intros ms Hl; simpl; [done|].
  case_decide as Hd; [|done]. fold (link_one n d ms).
  destruct (IH (link_one n d ms)) as [Hl' Hu]; [by apply link_one_linked|].
  split; [done|]. by rewrite Hu, link_one_other.
Qed.

Lemma initDependencies_spec (order : list string) (ms : gmap string GoModule) :
  linked (abs_mod <$> ms) →
  let ms' := (initDependencies order ms).1 in
  linked (abs_mod <$> ms') ∧ unlinked_fields <$> ms' = unlinked_fields <$> ms.
Proof.
  revert ms. induction order as [|n order IH]; intros ms Hl; simpl; [done|].
  set (names := match ms !! n with Some m => depNames m | None => [] end).
  destruct (link_deps_spec n names ms Hl) as [Hl1 Hu1].
  destruct (link_deps n names ms) as [ms1 [e|]]; simpl in *; [done|].
  destruct (IH ms1 Hl1) as [Hl2 Hu2]. split; [done|]. by rewrite Hu2.
Qed.

(** ** The refinement *)

Record wf (s : ModSys) : Prop := mkWf {
  wf_good : good s;
  wf_inv : a_inv (abs s);
  wf_todo : ∀ g n, mgmt s = Some g → n ∈ l_todo (m_loop g) → is_Some (modules s !! n);
  wf_fresh : modulesLocked s = false →
    (∀ n m, modules s !! n = Some m → abs_mod m = fresh_amod) ∧
    (∀ g, mgmt s = Some g → l_phase (m_loop g) ≠ PhPrep);
}.

Lemma Status_abs (s : ModSys) (n : string) : Status s n = a_Status (abs_mod <$> modules s) n.
Proof. unfold Status, a_Status. rewrite lookup_fmap. by destruct (modules s !! n). Qed.

(** The readiness checks are the guards of the protocol. *)
Lemma ready_guard (ph : phase) (s : ModSys) (m : GoModule) :
  ready ph s m = statusReady →
  status m = from_status ph ∧ a_guard ph (abs_mod <$> modules s) (abs_mod m).
Proof.
  assert (Hex : ∀ (f : string → bool) l, existsb f l = false → ∀ x, x ∈ l → f x = false).
  { intros f l. rewrite <- not_true_iff_false, existsb_exists. intros Hno x Hx.
    apply not_true_iff_false. intros Hf. apply Hno. exists x. by rewrite <- list_elem_of_In. }
  destruct ph; simpl; unfold readyToPrep, readyToStart, readyToStop; intros H;
    repeat case_match; try done.
  all: match goal with H : negb _ = false |- _ => apply negb_false_iff, Z.eqb_eq in H end.
  all: split; [done|].
  all: intros d Hd; match goal with H : existsb _ _ = false |- _ => apply (Hex _ _ H) in Hd end.
  all: simpl in Hd; rewrite Status_abs in Hd; apply Z.ltb_ge in Hd; done.
Qed.

(** What the begin of a phase makes of a module. *)
Lemma begin_phase_spec (ph : phase) (ch : nat) (n : string) (m : GoModule) (s : ModSys) :
  status m = from_status ph → stop_ok m →
  ∃ m', begin_phase ph ch n m s =
          spawn (PBegin ph n ch) (put_modules (<[n := m']> (modules s)) s) ∧
    view m' = (a_set (busy_status ph) (begin_chan ph (abs_mod m)) (abs_mod m), enabled m,
               enabledAsDependency m) ∧
    stop_ok m'.
Proof.
  intros Hst Hok. destruct ph; simpl; unfold Module_prep, Module_start, Module_stop;
    rewrite Hst; simpl; eexists; split_and!; done.
Qed.

Lemma abs_delete (s : ModSys) (i : nat) (p : proc) :
  procs s !! i = Some p →
  items (procs s) ≡ₚ match item_of p with Some it => it :: items (delete i (procs s))
                     | None => items (delete i (procs s)) end.
Proof.
  intros Hi. unfold items. rewrite (delete_Permutation _ _ _ Hi) at 1. simpl.
  by destruct (item_of p).
Qed.

(** A quiet step keeps everything. *)
Lemma wf_quiet (s s' : ModSys) : wf s → quiet_good s s' → wf s' ∧ astep (abs s) (abs s').
Proof.
  intros [Hg Hi Ht Hf] [Hq Hg']. assert (Ha := quiet_abs _ _ Hq). split; [split|].
  - done.
  - by rewrite Ha.
  - intros g n. rewrite (q_mgmt _ _ Hq), (quiet_dom _ _ _ Hq). apply Ht.
  - assert (Hfl := q_flags _ _ Hq). injection Hfl as -> _ _ _ _. rewrite (q_mgmt _ _ Hq).
    intros Hl. destruct (Hf Hl) as [Hf1 Hf2]. split; [|done]. intros n m Hn.
    assert (E : (abs_mod <$> modules s) !! n = Some (abs_mod m)).
    { change (abs_mod <$> modules s) with (a_mods (abs s)). rewrite <- Ha. simpl. by rewrite lookup_fmap, Hn. }
    rewrite lookup_fmap in E. apply fmap_Some in E as (m0 & Hm0 & ->). by eapply Hf1.
  - rewrite Ha. destruct (abs s). by apply a_silent.
Qed.

(** States that differ in nothing the protocol or the invariant sees. *)
Lemma wf_same (s s' : ModSys) :
  wf s → modules s' = modules s → procs s' = procs s →
  (modulesLocked s' = false → modulesLocked s = false) →
  (∀ g, mgmt s' = Some g → (∀ n, n ∈ l_todo (m_loop g) → is_Some (modules s !! n)) ∧
     (modulesLocked s = false → l_phase (m_loop g) ≠ PhPrep)) →
  wf s' ∧ astep (abs s) (abs s').
Proof.
  intros [Hg Hi Ht Hf] Hm Hp Hl Hg'. assert (Ha : abs s' = abs s) by (unfold abs; by rewrite Hm, Hp).
  split; [split|].
  - unfold good. by rewrite Hm, Hp.
  - by rewrite Ha.
  - intros g n Hgs. rewrite Hm. by apply Hg'.
  - rewrite Hm. intros Hlk. split; [by apply Hf, Hl|]. intros g Hgs. by apply Hg'; [..|apply Hl].
  - rewrite Ha. destruct (abs s). by apply a_silent.
Qed.

Lemma abs_of_view (ms ms' : gmap string GoModule) :
  view <$> ms' = view <$> ms → abs_mod <$> ms' = abs_mod <$> ms.
Proof.
  intros H. assert (E : ∀ ms : gmap string GoModule, abs_mod <$> ms = fst ∘ fst <$> (view <$> ms)).
  { intros m. by rewrite <- map_fmap_compose. }
  by rewrite !E, H.
Qed.

(** The part of the invariant that is not the protocol's, when the modules the
    protocol sees are the same. *)
Lemma wf_intro (s s' : ModSys) :
  wf s → good s' → a_inv (abs s') → (abs_mod <$> modules s' = abs_mod <$> modules s ∨ modulesLocked s' = true) →
  dom (modules s') = dom (modules s) → modulesLocked s' = modulesLocked s →
  (∀ g, mgmt s' = Some g → (∀ n, n ∈ l_todo (m_loop g) → is_Some (modules s !! n)) ∧
     (modulesLocked s = false → l_phase (m_loop g) ≠ PhPrep)) → wf s'.
Proof.
  intros [Hg Hi Ht Hf] Hg' Hi' Hm Hdom Hl Hmg. split; [done|done| |].
  - intros g n Hgs Hn. rewrite <- elem_of_dom, Hdom, elem_of_dom. by apply (Hmg g Hgs).
  - intros Hlk. destruct Hm as [Hm|]; [|congruence]. rewrite Hl in Hlk. split.
    + intros n m Hn. assert (E : (abs_mod <$> modules s) !! n = Some (abs_mod m)) by (by rewrite <- Hm, lookup_fmap, Hn).
      rewrite lookup_fmap in E. apply fmap_Some in E as (m0 & Hm0 & ->). by eapply (proj1 (Hf Hlk)).
    + intros g Hgs. by apply (Hmg g Hgs).
Qed.

(** Before Start nothing is up and no goroutine of the life cycle exists. *)
Lemma unlocked_no_run (s : ModSys) (ph : phase) (n : string) (ch : nat) :
  wf s → LRun ph n ch ∈ items (procs s) → modulesLocked s = true.
Proof.
  intros [_ [[_ Hr] _ _ _] _ Hf] Hin. destruct (modulesLocked s); [done|].
  destruct (Hr ph n) as (m & Hm & Hst).
  { unfold runs. apply list_elem_of_omap. by eexists. }
  simpl in Hm. rewrite lookup_fmap in Hm. apply fmap_Some in Hm as (m0 & Hm0 & ->).
  rewrite (proj1 (Hf eq_refl) n m0 Hm0) in Hst. by destruct ph.
Qed.

Lemma mgmt_kept (s s' : ModSys) :
  wf s → mgmt s' = mgmt s →
  ∀ g, mgmt s' = Some g → (∀ n, n ∈ l_todo (m_loop g) → is_Some (modules s !! n)) ∧
     (modulesLocked s = false → l_phase (m_loop g) ≠ PhPrep).
Proof.
  intros [_ _ Ht Hf] -> g Hg. split; [intros n; by apply Ht|]. intros Hl. by apply (Hf Hl).
Qed.

Lemma effect_astep (c : choice) (p : proc) (i : nat) (s s' : ModSys) :
  procs s !! i = Some p → effect c p (put_procs (delete i (procs s)) s) s' →
  astep (abs s) (abs s') ∧ dom (modules s') = dom (modules s) ∧ mgmt s' = mgmt s ∧
  modulesLocked s' = modulesLocked s ∧
  (abs_mod <$> modules s' = abs_mod <$> modules s ∨ ∃ ph n ch, LRun ph n ch ∈ items (procs s)).
Proof.
  intros Hi He. assert (Hit := abs_delete s i p Hi).
  assert (Hdom : ∀ X : gmap string (amod * bool * bool), view <$> modules s' = X → dom X = dom (modules s) →
    dom (modules s') = dom (modules s)).
  { intros X HX <-. by rewrite <- HX, dom_fmap_L. }
  destruct He as [Hp Hv Hf|ph n ch Hp Hv Hf|ph n ch err m Hp Hm Hv Hf Hph _|ph n ch e Hp Hph Hv Hf _];
    rewrite Hp in Hit; simpl in *; destruct Hf as [Hi' Hmg Hfl _ _]; simpl in *;
    injection Hfl as Hlk _ _ _ _.
  - assert (Ha := abs_of_view _ _ Hv). split_and!; auto.
    + unfold abs. rewrite Ha. apply a_silent. by rewrite Hi'.
    + apply (Hdom _ Hv), dom_fmap_L.
  - assert (Ha := abs_of_view _ _ Hv). split_and!; auto.
    + unfold abs. rewrite Ha. apply a_silent. by rewrite Hi'.
    + apply (Hdom _ Hv), dom_fmap_L.
  - split_and!; auto.
    + unfold abs.
      assert (Ha : abs_mod <$> modules s' =
        <[n := a_set (done_status ph) (done_chan ph (abs_mod m)) (abs_mod m)]> (abs_mod <$> modules s)).
      { assert (E : ∀ ms : gmap string GoModule, abs_mod <$> ms = fst ∘ fst <$> (view <$> ms)).
        { intros x. by rewrite <- map_fmap_compose. }
        rewrite (E (modules s')), Hv, fmap_insert, <- E. done. }
      rewrite Ha. eapply a_done; [by rewrite lookup_fmap, Hm|done|done|done].
    + apply (Hdom _ Hv). rewrite dom_insert_L, dom_fmap_L. assert (n ∈ dom (modules s)) by by eapply elem_of_dom_2.
      set_solver.
    + right. exists ph, n, ch. rewrite Hit. left.
  - assert (Ha := abs_of_view _ _ Hv). split_and!; auto.
    + unfold abs. rewrite Ha. by eapply a_fail.
    + apply (Hdom _ Hv), dom_fmap_L.
Qed.

(** What a step must do: stay well-formed and refine the protocol. *)
Definition simulated (s : ModSys) (r : go disabled ModSys) : Prop :=
  safe r (λ s', wf s' ∧ astep (abs s) (abs s')).

Lemma run_proc_effect (i : nat) (c : choice) (p : proc) (s : ModSys) :
  wf s → procs s !! i = Some p →
  safe (run_proc p c (put_procs (delete i (procs s)) s)) (effect_good c p (put_procs (delete i (procs s)) s)).
Proof.
  intros Hwf Hi. assert (Hp : is_Some (modules s !! proc_name p)).
  { eapply Forall_lookup_1 in Hi; [exact Hi|apply (wf_good s Hwf)]. }
  apply run_proc_ok.
  - apply good_delete, (wf_good s Hwf).
  - done.
  - intros n ch m Hit Hm. simpl in Hm.
    assert (Hin : LRun PhStart n ch ∈ items (procs s)).
    { unfold items. apply list_elem_of_omap. exists p. split; [by eapply list_elem_of_lookup_2|done]. }
    destruct (wf_inv s Hwf) as [[_ Hr] Hst _ _].
    destruct (Hr PhStart n) as (am & Ham & Hbusy); [apply list_elem_of_omap; by eexists|].
    assert (Hok := Hst n am Ham). simpl in Ham. rewrite lookup_fmap, Hm in Ham. injection Ham as <-.
    apply (proj2 Hok). rewrite Hbusy. done.
Qed.

Lemma step_run_sim (i : nat) (c : choice) (s : ModSys) : wf s → simulated s (step (EvRun i c) s).
Proof.
  intros Hwf. unfold simulated. simpl. destruct (procs s !! i) as [p|] eqn:Hi; [|done].
  eapply safe_mono; [by apply run_proc_effect|].
  intros s' [He Hg']. destruct (effect_astep c p i s s' Hi He) as (Ha & Hdom & Hmg & Hl & Hor).
  split; [|done]. eapply wf_intro; [done|done|by eapply astep_inv, (wf_inv s Hwf)| |done|done|by apply mgmt_kept].
  destruct Hor as [|(ph & n & ch & Hin)]; [by left|right]. rewrite Hl. by eapply unlocked_no_run.
Qed.

Lemma range_order_in (s : ModSys) (order : list string) (n : string) :
  range_order s order = true → n ∈ order ↔ is_Some (modules s !! n).
Proof.
  unfold range_order. rewrite bool_decide_eq_true. intros [_ H]. rewrite <- elem_of_dom, <- H.
  by rewrite elem_of_list_to_set.
Qed.

Lemma step_visit_sim (s : ModSys) : wf s → simulated s (step EvVisit s).
Proof.
  intros Hwf. unfold simulated. simpl. destruct (mgmt s) as [[j l e]|] eqn:Hmg; [|done]. simpl.
  destruct (l_todo l) as [|n rest] eqn:Htodo; [done|].
  destruct (wf_todo s Hwf _ n Hmg) as [m Hm]; [simpl; rewrite Htodo; left|].
  assert (Hrest : ∀ x, x ∈ rest → is_Some (modules s !! x)).
  { intros x Hx. apply (wf_todo s Hwf _ x Hmg). simpl. rewrite Htodo. by right. }
  assert (Hph : modulesLocked s = false → l_phase l ≠ PhPrep).
  { intros Hl. by apply (proj2 (wf_fresh s Hwf Hl) _ Hmg). }
  unfold loop_visit. rewrite Hm. destruct (ready (l_phase l) s m) eqn:Hr; simpl.
  - apply wf_same; simpl; [done..|]. intros g [= <-]. done.
  - destruct (ready_guard _ _ _ Hr) as [Hst Hg].
    destruct (begin_phase_spec (l_phase l) (l_chan l) n m s Hst (proj1 (wf_good s Hwf) n m Hm))
      as (m' & -> & Hv & Hok).
    set (s1 := spawn (PBegin (l_phase l) n (l_chan l)) (put_modules (<[n := m']> (modules s)) s)).
    assert (Ha : astep (abs s) (abs s1)).
    { unfold abs. simpl. rewrite fmap_insert. apply (f_equal (fst ∘ fst)) in Hv. simpl in Hv. rewrite Hv.
      apply (a_begin _ _ _ _ _ (l_chan l)); [by rewrite lookup_fmap, Hm|done|done|].
      unfold items. rewrite omap_app. simpl. by rewrite (comm (++)). }
    split; [|done]. eapply wf_intro; simpl; [done| |by eapply astep_inv, (wf_inv s Hwf)| | |done|].
    + unfold good. apply good_spawn; [by apply (good_put s n m), Hok; [apply (wf_good s Hwf)|]|].
      simpl. by rewrite lookup_insert_eq.
    + right. destruct (modulesLocked s) eqn:Hl; [done|]. exfalso.
      assert (Hf := proj1 (wf_fresh s Hwf Hl) n m Hm). injection Hf as Hs _ _ _.
      rewrite Hst in Hs. specialize (Hph eq_refl). by destruct (l_phase l).
    + rewrite dom_insert_L. assert (n ∈ dom (modules s)) by by eapply elem_of_dom_2. set_solver.
    + intros g [= <-]. done.
  - apply wf_same; simpl; [done..|]. intros g [= <-]. done.
Qed.

(** A change of the modules that is none of the life cycle: marks, or the
    enabled flag. *)
Lemma wf_flags (s s' : ModSys) :
  wf s → abs_mod <$> modules s' = abs_mod <$> modules s →
  stop_fields <$> modules s' = stop_fields <$> modules s → procs s' = procs s →
  modulesLocked s' = modulesLocked s →
  (∀ g, mgmt s' = Some g → (∀ n, n ∈ l_todo (m_loop g) → is_Some (modules s !! n)) ∧
     (modulesLocked s = false → l_phase (m_loop g) ≠ PhPrep)) →
  wf s' ∧ astep (abs s) (abs s').
Proof.
  intros Hwf Ha Hst Hp Hl Hmg.
  assert (Has : abs s' = abs s) by (unfold abs; by rewrite Ha, Hp).
  split; [|rewrite Has; destruct (abs s); by apply a_silent].
  eapply wf_intro; [done| |rewrite Has; apply (wf_inv s Hwf)|by left| |done|done].
  - destruct (wf_good s Hwf) as [Hs Hpr]. split.
    + by eapply (map_Forall_fmap_eq stop_fields); [apply stop_ok_fields| |].
    + rewrite Hp. eapply Forall_impl; [done|]. intros p. simpl. by rewrite (fmap_eq_is_Some _ _ _ _ Ha).
  - assert (E := f_equal dom Ha). by rewrite !dom_fmap_L in E.
Qed.

(** The same, by rebuilding the tree. *)
Lemma wf_tree (order : list string) (s s' : ModSys) :
  wf s → modules s' = buildEnabledTree order (modules s) → procs s' = procs s →
  modulesLocked s' = modulesLocked s →
  (∀ g, mgmt s' = Some g → (∀ n, n ∈ l_todo (m_loop g) → is_Some (modules s !! n)) ∧
     (modulesLocked s = false → l_phase (m_loop g) ≠ PhPrep)) →
  wf s' ∧ astep (abs s) (abs s').
Proof. intros Hwf Hm. apply wf_flags; [done|rewrite Hm; by apply buildEnabledTree_other..]. Qed.

Lemma loop_return_sim (j : job) (ph : phase) (e res : option mod_error) (order : list string) (s : ModSys) :
  wf s → range_order s order = true →
  let s' := loop_return j ph e res order s in wf s' ∧ astep (abs s) (abs s').
Proof.
  intros Hwf Ho. assert (Hin : ∀ n, n ∈ order → is_Some (modules s !! n)) by (intros n; by apply range_order_in).
  unfold loop_return, finish, record_result, enter_loop. simpl.
  destruct j, ph, res; simpl; repeat case_match; simpl;
    first [by apply wf_same
          | apply wf_same; simpl; [done..|]; by intros g [= <-]
          | apply (wf_tree order s); simpl; [done..|]; by intros g [= <-]].
Qed.

Lemma step_return_sim (order : list string) (s : ModSys) : wf s → simulated s (step (EvReturn order) s).
Proof.
  intros Hwf. unfold simulated. simpl. destruct (mgmt s) as [g|]; [|done]. simpl.
  case_match eqn:Hc; [|done]. apply andb_true_iff in Hc as [_ Ho]. by apply loop_return_sim.
Qed.

Lemma step_receive_sim (i : nat) (order : list string) (s : ModSys) :
  wf s → simulated s (step (EvReceive i order) s).
Proof.
  intros Hwf. unfold simulated. simpl. destruct (mgmt s) as [g|] eqn:Hmg; [|done].
  destruct (procs s !! i) as [[| |n err ch| | | | ]|] eqn:Hi; try done.
  case_match eqn:Hc; [|done]. apply andb_true_iff in Hc as [_ Ho].
  set (s1 := put_procs (delete i (procs s)) s).
  assert (Hit := abs_delete s i _ Hi). simpl in Hit.
  assert (Ha1 : astep (abs s) (abs s1)) by (by eapply a_receive).
  assert (Hwf1 : wf s1).
  { eapply wf_intro; [done|apply good_delete, (wf_good s Hwf)|by eapply astep_inv, (wf_inv s Hwf)|by left|done|done|].
    by apply mgmt_kept. }
  assert (Hin : ∀ x, x ∈ order → is_Some (modules s !! x)) by (intros x; by apply range_order_in).
  assert (Hcomp : ∀ s', wf s' ∧ astep (abs s1) (abs s') → a_mods (abs s') = a_mods (abs s1) →
    a_items (abs s') = a_items (abs s1) → wf s' ∧ astep (abs s) (abs s')).
  { intros s' [? _] Hm' Hi'. split; [done|]. unfold abs in *. simpl in *. rewrite Hm', Hi'. done. }
  unfold safe. destruct (loop_report n err order (m_loop g)) as [e|l'] eqn:Hr.
  - apply Hcomp; [by apply loop_return_sim| |].
    + unfold loop_return, finish, record_result, enter_loop. simpl.
      destruct (m_job g), (l_phase (m_loop g)); simpl; repeat case_match; simpl; try done.
    + unfold loop_return, finish, record_result, enter_loop. simpl.
      destruct (m_job g), (l_phase (m_loop g)); simpl; repeat case_match; simpl; try done.
  - apply Hcomp; [|done|done]. apply wf_same; simpl; [done..|]. intros g' [= <-]. simpl.
    unfold loop_report in Hr. assert (l_todo l' = order ∧ l_phase l' = l_phase (m_loop g)) as [-> ->].
    { destruct (l_phase (m_loop g)), err; by simplify_eq. }
    split; [done|]. intros Hl. by apply (proj2 (wf_fresh s Hwf Hl)).
Qed.

Lemma step_Start_sim (order : list string) (s : ModSys) : wf s → simulated s (step (EvStart order) s).
Proof.
  intros Hwf. unfold simulated. simpl. destruct (modulesLocked s) eqn:Hl.
  { apply wf_same; simpl; [done..|]. by apply mgmt_kept. }
  unfold lock_and. destruct (mgmt s) eqn:Hmg; [done|]. case_match eqn:Ho; [|done]. simpl.
  destruct (wf_fresh s Hwf Hl) as [Hf _].
  assert (Hlk : linked (abs_mod <$> modules s)) by apply (wf_inv s Hwf).
  unfold Start_begin. destruct (initDependencies_spec order (modules s) Hlk) as [Hlk' Hu]. simpl.
  destruct (initDependencies order (modules s)) as [ms oerr] eqn:E. simpl in *.
  assert (Hdead : ∀ n m, (abs_mod <$> ms) !! n = Some m → a_status m = StatusDead ∧ a_startc m = ChanOpen).
  { intros n m Hn. rewrite lookup_fmap in Hn. apply fmap_Some in Hn as (m0 & Hm0 & ->).
    assert (Hx : (unlinked_fields <$> modules s) !! n = Some (unlinked_fields m0)) by (by rewrite <- Hu, lookup_fmap, Hm0).
    rewrite lookup_fmap in Hx. apply fmap_Some in Hx as (m1 & Hm1 & Hx). injection Hx as Hs Hc _ _ _.
    assert (Hfm := Hf n m1 Hm1). injection Hfm as Hs1 Hc1 _ _. simpl. by rewrite Hs, Hc, Hs1, Hc1. }
  assert (Hold : all_dead (abs_mod <$> modules s)).
  { intros n m Hn. rewrite lookup_fmap in Hn. apply fmap_Some in Hn as (m0 & Hm0 & ->). by rewrite (Hf n m0 Hm0). }
  assert (Hdom : dom ms = dom (modules s)).
  { assert (Hd := f_equal dom Hu). by rewrite !dom_fmap_L in Hd. }
  assert (Ha : astep (abs s) (mkAbstract (abs_mod <$> ms) (items (procs s)))).
  { unfold abs. apply a_link; [done..|]. by rewrite !dom_fmap_L. }
  assert (Hgood : map_Forall (λ _, stop_ok) ms ∧ Forall (λ p, is_Some (ms !! proc_name p)) (procs s)).
  { destruct (wf_good s Hwf) as [Hs Hp]. split.
    - eapply (map_Forall_fmap_eq unlinked_fields); [|done|done]. intros x y Hxy.
      apply stop_ok_fields. unfold unlinked_fields in Hxy. congruence.
    - eapply Forall_impl; [done|]. intros p. simpl. by rewrite (fmap_eq_is_Some _ _ _ _ Hu). }
  assert (Hfin : ∀ s', modules s' = ms → procs s' = procs s → modulesLocked s' = true →
    (∀ g, mgmt s' = Some g → l_todo (m_loop g) = order) → wf s' ∧ astep (abs s) (abs s')).
  { intros s' Hm' Hp' Hl' Hg'. assert (Habs : abs s' = mkAbstract (abs_mod <$> ms) (items (procs s)))
      by (unfold abs; by rewrite Hm', Hp'). rewrite Habs. split; [|done]. split.
    - unfold good. by rewrite Hm', Hp'.
    - rewrite Habs. by eapply astep_inv, (wf_inv s Hwf).
    - intros g n Hg Hn. rewrite Hm', <- elem_of_dom, Hdom, elem_of_dom. apply (range_order_in s order); [done|].
      by rewrite <- (Hg' g Hg).
    - congruence. }
  destruct oerr; simpl; [by apply Hfin|].
  repeat case_match; apply Hfin; simpl; try done; by intros g [= <-].
Qed.

Lemma step_Register_sim (name : string) (prep start stop : bool) (deps : list string) (s : ModSys) :
  wf s → (modulesLocked s = false → modules s !! name = None) →
  simulated s (step (EvRegister name prep start stop deps) s).
Proof.
  intros Hwf Hnew. unfold simulated. simpl. unfold Modules_Register.
  destruct (modulesLocked s) eqn:Hl.
  { apply wf_same; simpl; [done..|]. by apply mgmt_kept. }
  rewrite (Hnew eq_refl). simpl.
  destruct (wf_fresh s Hwf Hl) as [Hf Hph]. set (m := initNewModule name prep start stop deps).
  assert (Ha : astep (abs s) (abs (put_modules (<[name := m]> (modules s)) s))).
  { unfold abs. simpl. rewrite fmap_insert. apply a_register; [by rewrite lookup_fmap, Hnew|].
    intros n x Hn. rewrite lookup_fmap in Hn. apply fmap_Some in Hn as (m0 & Hm0 & ->). by rewrite (Hf n m0 Hm0). }
  split; [|done]. split.
  - destruct (wf_good s Hwf) as [Hs Hp]. split; simpl.
    + by apply map_Forall_insert_2.
    + eapply Forall_impl; [done|]. intros p Hin. rewrite lookup_insert_is_Some'. by right.
  - by eapply astep_inv, (wf_inv s Hwf).
  - intros g n Hg Hn. simpl. rewrite lookup_insert_is_Some'. right. by apply (wf_todo s Hwf g).
  - intros _. split; [|done]. intros n x Hn. simpl in Hn.
    destruct (decide (name = n)) as [->|]; simplify_map_eq; [done|by eapply Hf].
Qed.

(** Every step refines the protocol and cannot panic, except for the second
    registration of a name. *)
Lemma step_sim (ev : event) (s : ModSys) :
  wf s →
  (∀ name prep start stop deps, ev = EvRegister name prep start stop deps →
     modulesLocked s = false → modules s !! name = None) →
  simulated s (step ev s).
Proof.
  intros Hwf Hreg.
  destruct ev as [name prep start stop deps|fn| |n b|n st id title msg|n id|c n|i c|order|order|order| |i order|order].
  - apply step_Register_sim; [done|]. by eapply Hreg.
  - unfold simulated. simpl. unfold EnableModuleManagement. case_match; (apply wf_same; simpl; [done..|]; by apply mgmt_kept).
  - unfold simulated. simpl. apply wf_same; simpl; [done..|]. by apply mgmt_kept.
  - unfold simulated. simpl. unfold at_module, mod_module, on_module.
    destruct (modules s !! n) as [m|] eqn:Hn; [|done]. simpl.
    apply wf_flags; simpl; [done| | |done|done|by apply mgmt_kept].
    all: rewrite fmap_insert; apply insert_id; rewrite lookup_fmap, Hn; by destruct b.
  - unfold simulated. simpl. unfold at_module. destruct (modules s !! n) as [m|] eqn:Hn; [|done].
    eapply safe_mono; [apply setFailure_quiet; [apply (wf_good s Hwf)|by eexists]|]. intros s'. by apply wf_quiet.
  - unfold simulated. simpl. unfold at_module. destruct (modules s !! n) as [m|] eqn:Hn; [|done].
    eapply safe_mono; [apply Resolve_quiet; [apply (wf_good s Hwf)|by eexists]|]. intros s'. by apply wf_quiet.
  - unfold simulated. simpl. unfold at_module. destruct (modules s !! n) as [m|] eqn:Hn; [|done].
    apply wf_quiet; [done|]. apply spawn_quiet; [apply (wf_good s Hwf)|done|by eexists].
  - by apply step_run_sim.
  - by apply step_Start_sim.
  - unfold simulated. simpl. case_match; [|apply wf_same; simpl; [done..|]; by apply mgmt_kept].
    unfold lock_and. destruct (mgmt s); [done|]. case_match eqn:Ho; [|done]. simpl.
    apply (wf_tree order s); simpl; [done..|]. intros g [= <-]. simpl. split; [|done].
    intros n. by apply range_order_in.
  - unfold simulated. simpl. unfold lock_and. destruct (mgmt s) eqn:Hmg; [done|]. case_match eqn:Ho; [|done]. simpl.
    unfold Shutdown_begin, finish, record_result, enter_loop. case_match; simpl; [by apply wf_same|].
    apply wf_same; simpl; [done..|]. intros g [= <-]. simpl. split; [|done]. intros n. by apply range_order_in.
  - by apply step_visit_sim.
  - by apply step_receive_sim.
  - by apply step_return_sim.
Qed.

(** ** Runs *)

Lemma wf_initial (ready : bool) (su : startup) : wf (initial ready su).
Proof.
  split.
  - split; [apply map_Forall_empty|constructor].
  - split; simpl.
    + split; [constructor|]. intros ph n. by rewrite elem_of_nil.
    + intros n m Hn. by rewrite lookup_fmap in Hn.
    + intros n m d Hn. by rewrite lookup_fmap in Hn.
    + intros n m d Hn. by rewrite lookup_fmap in Hn.
  - done.
  - intros _. split; [|done]. intros n m Hn. done.
Qed.

Lemma step_wf (ev : event) (s s' : ModSys) :
  wf s → step ev s = Ret s' → wf s' ∧ astep (abs s) (abs s').
Proof.
  intros Hwf Hs. assert (H : simulated s (step ev s)).
  { apply step_sim; [done|]. intros name prep start stop deps -> Hl. simpl in Hs.
    unfold Modules_Register in Hs. rewrite Hl in Hs. by destruct (modules s !! name). }
  unfold simulated in H. by rewrite Hs in H.
Qed.

Lemma run_wf (evs : list event) (s s' : ModSys) :
  wf s → run evs s = Ret s' → wf s' ∧ rtc astep (abs s) (abs s').
Proof.
  revert s. induction evs as [|ev evs IH]; intros s Hwf Hr; simpl in Hr; [by injection Hr as <-|].
  destruct (step ev s) as [s1| |] eqn:Hs; simpl in Hr; [|done|done].
  destruct (step_wf _ _ _ Hwf Hs) as [Hwf1 Ha]. destruct (IH s1 Hwf1 Hr) as [? ?].
  split; [done|]. by eapply rtc_l.
Qed.

Lemma run_app (evs1 evs2 : list event) (s : ModSys) :
  run (evs1 ++ evs2) s = let! s' := run evs1 s in run evs2 s'.
Proof.
  revert s. induction evs1 as [|ev evs1 IH]; intros s; simpl; [done|].
  destruct (step ev s); simpl; auto.
Qed.

(** A property of the protocol's states that its steps keep, holds along
    runs. *)
Lemma run_invariant (P : abstract → Prop) (evs : list event) (s s' : ModSys) :
  (∀ a a', astep a a' → a_inv a → P a → P a') →
  wf s → run evs s = Ret s' → P (abs s) → P (abs s').
Proof.
  intros HP Hwf Hr. destruct (run_wf _ _ _ Hwf Hr) as [_ Hsteps].
  assert (Hi := wf_inv s Hwf). clear Hwf Hr. revert Hi. induction Hsteps as [|a b c Hab _ IH]; [done|].
  intros Hi HPa. apply IH; [by eapply astep_inv|by eapply HP].
Qed.

(** *** Dependency loops *)

Definition a_depends (ms : gmap string amod) (n d : string) : Prop :=
  ∃ m, ms !! n = Some m ∧ d ∈ a_deps m.

(** [n] depends on [d], directly. *)
Definition depends (s : ModSys) (n d : string) : Prop :=
  ∃ m, modules s !! n = Some m ∧ d ∈ depModules m.

Lemma depends_abs (s : ModSys) (n d : string) : a_depends (a_mods (abs s)) n d ↔ depends s n d.
Proof.
  unfold a_depends, depends. simpl. split.
  - intros (am & Ham & Hd). rewrite lookup_fmap in Ham. apply fmap_Some in Ham as (m & Hm & ->). eauto.
  - intros (m & Hm & Hd). exists (abs_mod m). by rewrite lookup_fmap, Hm.
Qed.

Definition loops_dead (a : abstract) : Prop :=
  ∀ n, tc (a_depends (a_mods a)) n n → a_Status (a_mods a) n = StatusDead.

Lemma a_depends_set (ms : gmap string amod) (n : string) (m : amod) (st : Z) (c : chan_state) :
  ms !! n = Some m → ∀ x y, a_depends (<[n := a_set st c m]> ms) x y ↔ a_depends ms x y.
Proof.
  intros Hn x y. unfold a_depends. destruct (decide (n = x)) as [->|]; simplify_map_eq; naive_solver.
Qed.

Lemma tc_equiv {A : Type} (R S : relation A) (x y : A) :
  (∀ x y, R x y → S x y) → tc R x y → tc S x y.
Proof. intros H. induction 1; [apply tc_once|eapply tc_l]; eauto. Qed.

Lemma loops_dead_set (ms : gmap string amod) (its its' : list item) (n : string) (m : amod) (st : Z)
    (c : chan_state) :
  ms !! n = Some m → loops_dead (mkAbstract ms its) →
  ¬ tc (a_depends ms) n n → loops_dead (mkAbstract (<[n := a_set st c m]> ms) its').
Proof.
  intros Hn Hd Hno x Hx. simpl in *. assert (Hx' : tc (a_depends ms) x x).
  { eapply tc_equiv; [|done]. intros ? ?. by apply a_depends_set. }
  rewrite a_Status_insert. case_decide; [by subst|by apply Hd].
Qed.

Lemma tc_first {A : Type} (R : relation A) (x : A) : tc R x x → ∃ y, R x y ∧ tc R y y.
Proof.
  intros H. inversion H as [? ? Hxx|? y ? Hxy Hyx]; subst; [eauto|].
  exists y. split; [done|]. eapply tc_r; eauto.
Qed.

Lemma astep_loops_dead (a a' : abstract) : astep a a' → a_inv a → loops_dead a → loops_dead a'.
Proof.
  intros Hs Hi Hd. destruct Hs as [|ms its n Hn Hdead|ms ms' its _ Hdead|ms its its' ph n ch m Hn Hst Hg Hit
    |ms its its0 its' ph n ch m err Hn Hit Hit' Herr| |]; try done.
  - intros x Hx. simpl in *. rewrite a_Status_insert. case_decide; [done|]. apply Hd. simpl.
    eapply tc_equiv; [|done]. intros p q (mp & Hp & Hq).
    destruct (decide (n = p)) as [->|]; simplify_map_eq; [by apply elem_of_nil in Hq|by eexists].
  - intros x _. unfold a_Status. simpl. destruct (ms' !! x) eqn:E; [by apply (Hdead x)|done].
  - eapply loops_dead_set; [done|done|]. intros Hc. assert (Hnd := Hd n Hc). simpl in Hnd.
    rewrite (Status_lookup ms n m Hn), Hst in Hnd. destruct ph; [|done|done].
    destruct (tc_first _ _ Hc) as (d & (m' & Hm' & Hin) & Hcd). simplify_map_eq.
    specialize (Hg d Hin). specialize (Hd d Hcd). simpl in Hd. by rewrite Hd in Hg.
  - eapply loops_dead_set; [done|done|]. intros Hc. assert (Hnd := Hd n Hc). simpl in Hnd.
    destruct (inv_runs _ Hi) as [_ Hr]. destruct (Hr ph n) as (m' & Hm' & Hb).
    { simpl. rewrite Hit. left. }
    simpl in Hm'. simplify_map_eq. rewrite (Status_lookup ms n m Hn), Hb in Hnd. by destruct ph.
Qed.

(** *** A module whose start failed *)

(** Module [n] is starting, nobody is working on it, and its dependencies are
    [deps]. *)
Definition stuck (n : string) (deps : list string) (a : abstract) : Prop :=
  (∃ m, a_mods a !! n = Some m ∧ a_status m = StatusStarting ∧ a_deps m = deps) ∧
  ∀ ph, (ph, n) ∉ runs (a_items a).

Lemma astep_stuck (n : string) (deps : list string) (a a' : abstract) :
  astep a a' → a_inv a → stuck n deps a → stuck n deps a'.
Proof.
  intros Hs Hi [(m & Hm & Hst & Hd) Hno]. destruct Hs as [ms its its' Hp|ms its x Hx Hdead
    |ms ms' its Hdead|ms its its' ph x ch mx Hx Hsx Hg Hit|ms its its0 its' ph x ch mx err Hx Hit Hit' Herr
    |ms its its0 its' ph x ch e Hit Hit'|ms its its' x err ch Hit]; simpl in *.
  - split; [by exists m|]. intros ph. simpl. rewrite <- Hp. apply Hno.
  - split; [|done]. exists m. simpl. by rewrite lookup_insert_ne by congruence.
  - destruct (Hdead n m Hm) as [Hdd _]. by rewrite Hst in Hdd.
  - assert (n ≠ x) by (intros ->; simplify_map_eq; rewrite Hst in Hsx; by destruct ph).
    split; [exists m; by simplify_map_eq|]. intros ph'. simpl. rewrite Hit. simpl.
    intros [[= -> ->]|Hin]%elem_of_cons; [done|by apply (Hno ph')].
  - assert (n ≠ x) by (intros ->; apply (Hno ph); rewrite Hit; left).
    split; [exists m; by simplify_map_eq|]. intros ph'. simpl. rewrite Hit'. simpl.
    intros Hin. apply (Hno ph'). rewrite Hit. by right.
  - split; [by exists m|]. intros ph'. simpl. rewrite Hit'. simpl. intros Hin. apply (Hno ph').
    rewrite Hit. by right.
  - split; [by exists m|]. intros ph'. simpl. intros Hin. apply (Hno ph'). by rewrite Hit.
Qed.

(** ** Theorems *)

(** C34: Every run of the module system, with any interleaving of goroutines,
    calls, failures and timeouts, is a run of the protocol: a phase of a module
    only begins when its guard on the other modules' statuses holds, and ends
    once, with one report. *)
Theorem runs_follow_protocol (ready : bool) (su : startup) (evs : list event) (s : ModSys) :
  run evs (initial ready su) = Ret s →
  rtc astep (abs (initial ready su)) (abs s) ∧ a_inv (abs s).
Proof.
  intros Hr. destruct (run_wf evs _ _ (wf_initial ready su) Hr) as [Hwf Hs]. split; [done|apply (wf_inv s Hwf)].
Qed.

(** C3: In every state of every run, a module that is starting, online or stopping
    has all its dependencies online. *)
Theorem dependencies_online (ready : bool) (su : startup) (evs : list event) (s : ModSys)
    (n d : string) (m : GoModule) :
  run evs (initial ready su) = Ret s → modules s !! n = Some m → StatusOffline < status m →
  d ∈ depModules m → Status s d = StatusOnline.
Proof.
  intros Hr Hn Hup Hd. destruct (run_wf evs _ _ (wf_initial ready su) Hr) as [Hwf _].
  rewrite Status_abs. apply (inv_deps _ (wf_inv s Hwf) n (abs_mod m)); [|done|done].
  simpl. by rewrite lookup_fmap, Hn.
Qed.


(** A module that depends on itself, directly or through others, is never even
    prepared. *)
Theorem dependency_loop_stays_dead (ready : bool) (su : startup) (evs : list event) (s : ModSys)
    (n : string) :
  run evs (initial ready su) = Ret s → tc (depends s) n n → Status s n = StatusDead.
Proof.
  intros Hr Hc. rewrite Status_abs. change (abs_mod <$> modules s) with (a_mods (abs s)).
  apply (run_invariant loops_dead evs _ s astep_loops_dead (wf_initial ready su) Hr).
  - intros x Hx. simpl. unfold a_Status. by rewrite lookup_fmap.
  - eapply tc_equiv; [|done]. intros x y. apply depends_abs.
Qed.

(** A module whose start failed or timed out stays in the starting status for
    ever, and none of its dependencies is ever stopped, by ManageModules or by
    Shutdown. *)
Theorem failed_start_pins_dependencies (ready : bool) (su : startup) (evs0 evs : list event)
    (s0 s : ModSys) (n : string) (m : GoModule) :
  run evs0 (initial ready su) = Ret s0 → modules s0 !! n = Some m → status m = StatusStarting →
  (∀ ph ch, PBegin ph n ch ∉ procs s0 ∧ ∀ k, PWait ph n ch k ∉ procs s0) →
  run evs s0 = Ret s →
  Status s n = StatusStarting ∧ ∀ d, d ∈ depModules m → Status s d = StatusOnline.
Proof.
  intros Hr0 Hn Hst Hno Hr. destruct (run_wf evs0 _ _ (wf_initial ready su) Hr0) as [Hwf0 _].
  assert (Hs : stuck n (depModules m) (abs s)).
  { eapply run_invariant; [by apply astep_stuck|done|done|]. split.
    - exists (abs_mod m). simpl. by rewrite lookup_fmap, Hn.
    - intros ph Hin. apply list_elem_of_omap in Hin as (it & Hit & Hrun). destruct it as [ph' x ch|]; [|done].
      injection Hrun as -> ->. apply list_elem_of_omap in Hit as (p & Hp & Hpi).
      destruct p; try done; injection Hpi as -> -> ->; naive_solver. }
  destruct (run_wf evs s0 s Hwf0 Hr) as [Hwf _]. destruct Hs as [(am & Ham & Has & Had) _].
  assert (Hi := inv_deps _ (wf_inv s Hwf) n am). split.
  - rewrite Status_abs. by rewrite <- Has, <- (Status_lookup _ n am Ham).
  - intros d Hd. rewrite Status_abs. apply Hi; [done|by rewrite Has|by rewrite Had].
Qed.

(** *** Example runs *)

Definition example_startup : startup := mkStartup None None false None.

Definition example_order : list string := ["a"; "b"]%string.

(** Two modules, the second depends on the first; both are prepared. *)
Definition example_prepared : list event :=
  [EvRegister "a" false true true []; EvRegister "b" false true false ["a"%string];
   EvStart example_order; EvVisit; EvVisit; EvRun 0 ChDefault; EvReceive 0 example_order;
   EvVisit; EvVisit; EvRun 0 ChDefault; EvReceive 0 example_order; EvVisit; EvVisit;
   EvReturn example_order].

(** The first is started, then the start function of the second returns
    [err]. *)
Definition example_start (err : option mod_error) : list event :=
  example_prepared ++
  [EvVisit; EvVisit; EvRun 0 ChDefault; EvRun 0 (ChResult None); EvRun 0 ChDefault;
   EvRun 0 ChDefault; EvReceive 0 example_order; EvVisit; EvVisit; EvRun 0 ChDefault;
   EvRun 0 (ChResult err); EvRun 0 ChDefault; EvRun 0 ChDefault; EvReceive 0 example_order].

Definition example_state (evs : list event) : ModSys :=
  match run evs (initial false example_startup) with Ret s => s | _ => initial false example_startup end.

Definition example_module (evs : list event) (n : string) : GoModule :=
  match modules (example_state evs) !! n with Some m => m | None => initNewModule n false false false [] end.

Lemma runs_follow_protocol_witness : a_inv (abs (example_state (example_start None))).
Proof.
  refine (proj2 (runs_follow_protocol false example_startup (example_start None) _ _)).
  vm_compute. reflexivity.
Defined.

Lemma dependencies_online_witness :
  status (example_module (example_start None) "b") = StatusOnline ∧
  Status (example_state (example_start None)) "a" = StatusOnline.
Proof.
  split; [vm_compute; reflexivity|].
  apply (dependencies_online false example_startup (example_start None) (example_state (example_start None))
    "b" "a" (example_module (example_start None) "b")).
  - vm_compute. reflexivity.
  - vm_compute. reflexivity.
  - vm_compute. reflexivity.
  - apply list_elem_of_In. vm_compute. left. reflexivity.
Defined.


(** A module that depends on itself. *)
Definition example_loop : list event :=
  [EvRegister "a" true true true ["a"%string]; EvStart ["a"%string]; EvVisit; EvReturn ["a"%string]].

Lemma dependency_loop_stays_dead_witness :
  results (example_state example_loop) = [(JobStart, Some ErrDependencyLoop)] ∧
  Status (example_state example_loop) "a" = StatusDead.
Proof.
  split; [vm_compute; reflexivity|].
  apply (dependency_loop_stays_dead false example_startup example_loop).
  - vm_compute. reflexivity.
  - apply tc_once. exists (example_module example_loop "a"). split; [vm_compute; reflexivity|].
    apply list_elem_of_In. vm_compute. left. reflexivity.
Defined.

(** The shutdown after a failed start: it reports a dependency loop and
    leaves the first module running. *)
Definition example_shutdown : list event :=
  [EvShutdown example_order; EvVisit; EvVisit; EvReturn example_order].

Lemma failed_start_pins_dependencies_witness :
  results (example_state (example_start (Some (ErrFn "no")) ++ example_shutdown)) =
    [(JobStart, Some (ErrStartFailed "b" (ErrFn "no"))); (JobShutdown, Some ErrDependencyLoop)] ∧
  Status (example_state (example_start (Some (ErrFn "no")) ++ example_shutdown)) "a" = StatusOnline.
Proof.
  split; [vm_compute; reflexivity|].
  apply (failed_start_pins_dependencies false example_startup (example_start (Some (ErrFn "no"))) example_shutdown
    (example_state (example_start (Some (ErrFn "no")))) _ "b"
    (example_module (example_start (Some (ErrFn "no"))) "b")).
  - vm_compute. reflexivity.
  - vm_compute. reflexivity.
  - vm_compute. reflexivity.
  - assert (E : procs (example_state (example_start (Some (ErrFn "no")))) = []) by (vm_compute; reflexivity).
    intros ph ch. rewrite E. split; [|intros k]; apply not_elem_of_nil.
  - vm_compute. reflexivity.
  - apply list_elem_of_In. vm_compute. left. reflexivity.
Defined.
