(* ===== verification/ModulesLive.v ===== *)
(** * modules: the dependency tree, progress and results of the report loops

    The marks of buildEnabledTree against reachability; the report loops of
    prepareModules, startModules and stopModules: that they make progress and
    end, and what their results say about the modules. *)

From Stdlib Require Import ZArith Lia Ascii String.
From S2P Require Import Prelude Modules ModulesInv.
Local Open Scope Z_scope.

(** ** The marks *)

Definition marked (ms : gmap string GoModule) (x : string) : Prop :=
  ∃ m, ms !! x = Some m ∧ enabledAsDependency m = true.

(** [n] depends on [d], directly. *)
Definition mdepends (ms : gmap string GoModule) (n d : string) : Prop :=
  ∃ m, ms !! n = Some m ∧ d ∈ depModules m.

(** The modules still without a mark. *)
Definition unmarked (ms : gmap string GoModule) : nat :=
  size (filter (λ p, enabledAsDependency p.2 = false) ms).

(** Every dependency is a registered module. *)
Definition closed (ms : gmap string GoModule) : Prop :=
  ∀ n d, mdepends ms n d → is_Some (ms !! d).

(** [ms] with more marks: what marking the dependencies of [roots] reaches, and
    everything a new mark depends on is marked. *)
Record marks_more (roots : string → Prop) (ms ms' : gmap string GoModule) : Prop := mkMarks {
  mk_other : (λ m, (depModules m, enabled m)) <$> ms' = (λ m, (depModules m, enabled m)) <$> ms;
  mk_mono : ∀ x, marked ms x → marked ms' x;
  mk_reach : ∀ x, marked ms' x → marked ms x ∨ ∃ r, roots r ∧ tc (mdepends ms) r x;
  mk_closed : ∀ x y, marked ms' x → ¬ marked ms x → mdepends ms x y → marked ms' y;
  mk_count : (unmarked ms' ≤ unmarked ms)%nat;
}.

Lemma other_depends (ms ms' : gmap string GoModule) (x y : string) :
  (λ m, (depModules m, enabled m)) <$> ms' = (λ m, (depModules m, enabled m)) <$> ms →
  mdepends ms' x y ↔ mdepends ms x y.
Proof.
  intros H. assert (E := f_equal (.!! x) H). simpl in E. rewrite !lookup_fmap in E.
  unfold mdepends. destruct (ms !! x), (ms' !! x); simplify_eq/=; naive_solver congruence.
Qed.

Lemma tc_depends (ms ms' : gmap string GoModule) (x y : string) :
  (λ m, (depModules m, enabled m)) <$> ms' = (λ m, (depModules m, enabled m)) <$> ms →
  tc (mdepends ms') x y → tc (mdepends ms) x y.
Proof. intros H. apply tc_equiv. intros a b. by apply other_depends. Qed.

Lemma marks_more_refl (roots : string → Prop) (ms : gmap string GoModule) : marks_more roots ms ms.
Proof. split; auto. by intros x y Hx Hn. Qed.

Lemma marks_more_trans (roots : string → Prop) (ms1 ms2 ms3 : gmap string GoModule) :
  (∀ x, marked ms2 x ∨ ¬ marked ms2 x) →
  marks_more roots ms1 ms2 → marks_more roots ms2 ms3 → marks_more roots ms1 ms3.
Proof.
  intros Hdec [Ho1 Hm1 Hr1 Hc1 Hn1] [Ho2 Hm2 Hr2 Hc2 Hn2]. split.
  - congruence.
  - auto.
  - intros x [Hx|(r & Hr & Hx)]%Hr2; [auto|]. right. exists r. split; [done|]. by eapply tc_depends.
  - intros x y Hx Hno Hxy. destruct (Hdec x) as [H2|H2].
    + by eapply Hm2, Hc1.
    + eapply Hc2; [done|done|]. by apply (other_depends ms1).
  - lia.
Qed.

Lemma marked_dec (ms : gmap string GoModule) (x : string) : marked ms x ∨ ¬ marked ms x.
Proof.
  unfold marked. destruct (ms !! x) as [m|] eqn:E; [|right; intros (? & ? & _); done].
  destruct (enabledAsDependency m) eqn:Em; [left; eauto|right]. intros (m' & Hm' & Ht). congruence.
Qed.

Lemma marks_more_roots (P Q : string → Prop) (ms ms' : gmap string GoModule) :
  (∀ r x, P r → tc (mdepends ms) r x → ∃ q, Q q ∧ tc (mdepends ms) q x) →
  marks_more P ms ms' → marks_more Q ms ms'.
Proof. intros HPQ [Ho Hm Hr Hc Hn]. split; try done. intros x [|(r & Hp & Hx)]%Hr; eauto. Qed.

(** Setting one mark. *)
Lemma mark_lookup (ms : gmap string GoModule) (d x : string) (dm : GoModule) :
  ms !! d = Some dm → marked (<[d := set_enabledAsDependency true dm]> ms) x ↔ x = d ∨ marked ms x.
Proof.
  intros Hd. unfold marked. destruct (decide (d = x)) as [->|]; simplify_map_eq.
  - split; [by left|intros _]. eexists. by split.
  - naive_solver.
Qed.

Lemma mark_count (ms : gmap string GoModule) (d : string) (dm : GoModule) :
  ms !! d = Some dm → enabledAsDependency dm = false →
  unmarked ms = S (unmarked (<[d := set_enabledAsDependency true dm]> ms)).
Proof.
  intros Hd Hf. unfold unmarked.
  rewrite map_filter_insert_False by done. rewrite <- (insert_id ms d dm) at 1 by done.
  rewrite <- insert_delete_eq, map_filter_insert_True by done.
  rewrite map_size_insert_None; [done|]. apply map_lookup_filter_None. left. apply lookup_delete_eq.
Qed.

Lemma mark_other (ms : gmap string GoModule) (d : string) (dm : GoModule) (b : bool) :
  ms !! d = Some dm →
  (λ m, (depModules m, enabled m)) <$> <[d := set_enabledAsDependency b dm]> ms =
  (λ m, (depModules m, enabled m)) <$> ms.
Proof. intros Hd. rewrite fmap_insert. apply insert_id. by rewrite lookup_fmap, Hd. Qed.

Lemma closed_other (ms ms' : gmap string GoModule) :
  (λ m, (depModules m, enabled m)) <$> ms' = (λ m, (depModules m, enabled m)) <$> ms →
  closed ms → closed ms'.
Proof.
  intros H Hc n d Hd. rewrite (fmap_eq_is_Some _ _ _ _ H). apply (Hc n).
  by apply (other_depends ms ms' n d H).
Qed.

(** Marking the unmarked dependency [d] of [n], and recursively what it depends
    on. *)
Lemma mark_one (ms ms2 : gmap string GoModule) (n d : string) (dm : GoModule) :
  ms !! d = Some dm → enabledAsDependency dm = false → mdepends ms n d →
  let ms1 := <[d := set_enabledAsDependency true dm]> ms in
  marks_more (λ r, r = d) ms1 ms2 → (∀ y, mdepends ms1 d y → marked ms2 y) →
  marks_more (λ r, r = n) ms ms2 ∧ marked ms2 d.
Proof.
  intros Hd Hf Hnd ms1 [Ho Hm Hr Hc Hn] Hdeps.
  assert (Ho1 := mark_other ms d dm true Hd). fold ms1 in Ho1.
  assert (Hmk : ∀ x, marked ms1 x ↔ x = d ∨ marked ms x) by (intros x; by apply mark_lookup).
  split; [|apply Hm, Hmk; by left]. split.
  - congruence.
  - intros x Hx. apply Hm, Hmk. by right.
  - intros x [[->|]%Hmk|(r & -> & Hx)]%Hr; [|by left|]; right; exists n; split; try done.
    + by apply tc_once.
    + eapply tc_l; [done|]. by eapply tc_depends.
  - intros x y Hx Hno Hxy. apply (other_depends ms ms1 x y Ho1) in Hxy.
    destruct (decide (x = d)) as [->|Hne]; [by apply Hdeps|].
    apply (Hc x y); [done| |done]. rewrite Hmk. naive_solver.
  - assert (Hcount := mark_count ms d dm Hd Hf). fold ms1 in Hcount. lia.
Qed.

Lemma markDependencies_spec (fuel : nat) (n : string) (ms : gmap string GoModule) :
  closed ms → (unmarked ms < fuel)%nat →
  let ms' := markDependencies fuel n ms in
  marks_more (λ r, r = n) ms ms' ∧ ∀ d, mdepends ms n d → marked ms' d.
Proof.
  revert n ms. induction fuel as [|fuel IH]; intros n ms0 Hcl Hfuel; [lia|]. cbn [markDependencies].
  set (deps := match ms0 !! n with Some m => depModules m | None => [] end).
  assert (Hdeps : ∀ d, mdepends ms0 n d ↔ d ∈ deps).
  { intros d. unfold mdepends, deps. destruct (ms0 !! n); split; try naive_solver.
    by intros ?%elem_of_nil. }
  assert (H : ∀ l ms, (∀ d, d ∈ l → mdepends ms0 n d) → marks_more (λ r, r = n) ms0 ms →
    let ms' := foldl (λ ms dep, match ms !! dep with
      | Some dm => if enabledAsDependency dm then ms
                   else markDependencies fuel dep (<[dep := set_enabledAsDependency true dm]> ms)
      | None => ms end) ms l in
    marks_more (λ r, r = n) ms0 ms' ∧ (∀ d, d ∈ l → marked ms' d) ∧ (∀ x, marked ms x → marked ms' x)).
  { clear deps Hdeps. induction l as [|d l IHl]; intros ms Hl Hmm; cbn [foldl].
    { split_and!; [done| |done]. intros d. by rewrite elem_of_nil. }
    assert (Hcl1 : closed ms) by (eapply closed_other; [apply (mk_other _ _ _ Hmm)|done]).
    assert (Hnd : mdepends ms n d).
    { apply (other_depends ms0); [apply (mk_other _ _ _ Hmm)|]. apply Hl. left. }
    destruct (Hcl1 n d Hnd) as [dm Hd]. rewrite Hd.
    assert (Hstep : marks_more (λ r, r = n) ms
       (if enabledAsDependency dm then ms
        else markDependencies fuel d (<[d := set_enabledAsDependency true dm]> ms)) ∧
      marked (if enabledAsDependency dm then ms
        else markDependencies fuel d (<[d := set_enabledAsDependency true dm]> ms)) d).
    { destruct (enabledAsDependency dm) eqn:Em; [split; [apply marks_more_refl|by exists dm]|].
      assert (Hcount := mark_count ms d dm Hd Em). assert (Hle := mk_count _ _ _ Hmm).
      apply mark_one with dm; [done|done|done|apply IH; [|lia]|apply IH; [|lia]].
      all: eapply closed_other; [by apply mark_other|done]. }
    set (ms1 := if enabledAsDependency dm then ms else _) in *. destruct Hstep as [Hmm1 Hmd].
    destruct (IHl ms1) as (Hmm2 & Hl2 & Hmono2).
    { intros x Hx. apply Hl. by right. }
    { by eapply marks_more_trans; [apply marked_dec| |]. }
    split_and!; [done| |].
    - intros x [->|Hx]%elem_of_cons; auto.
    - intros x Hx. by apply Hmono2, (mk_mono _ _ _ Hmm1). }
  destruct (H deps ms0) as (Hmm & Hd & _); [intros d; by apply Hdeps|apply marks_more_refl|].
  split; [done|]. intros d Hin. by apply Hd, Hdeps.
Qed.

(** The modules that ManageModules needs as dependencies: what an enabled
    module depends on, directly or not. *)
Definition needed (ms : gmap string GoModule) (x : string) : Prop :=
  ∃ r m, ms !! r = Some m ∧ enabled m = true ∧ tc (mdepends ms) r x.

Definition tree_step (ms : gmap string GoModule) (n : string) : gmap string GoModule :=
  match ms !! n with
  | Some m => if enabled m then markDependencies (S (size ms)) n ms else ms
  | None => ms
  end.

Lemma unmarked_size (ms : gmap string GoModule) : (unmarked ms ≤ size ms)%nat.
Proof. apply map_subseteq_size, map_filter_subseteq. Qed.

Definition is_enabled (ms : gmap string GoModule) (r : string) : Prop :=
  ∃ m, ms !! r = Some m ∧ enabled m = true.

Lemma other_enabled (ms ms' : gmap string GoModule) (x : string) :
  (λ m, (depModules m, enabled m)) <$> ms' = (λ m, (depModules m, enabled m)) <$> ms →
  is_enabled ms' x ↔ is_enabled ms x.
Proof.
  intros H. assert (E := f_equal (.!! x) H). simpl in E. rewrite !lookup_fmap in E.
  unfold is_enabled. destruct (ms !! x), (ms' !! x); simplify_eq/=; naive_solver congruence.
Qed.

Lemma tree_fold_spec (order : list string) (ms : gmap string GoModule) :
  closed ms →
  let ms' := foldl tree_step ms order in
  marks_more (is_enabled ms) ms ms' ∧
  ∀ r d, r ∈ order → is_enabled ms r → mdepends ms r d → marked ms' d.
Proof.
  revert ms. induction order as [|n order IH]; intros ms Hcl; cbn [foldl].
  { split; [apply marks_more_refl|]. intros r d. by rewrite elem_of_nil. }
  assert (Hstep : marks_more (is_enabled ms) ms (tree_step ms n) ∧
    ∀ d, is_enabled ms n → mdepends ms n d → marked (tree_step ms n) d).
  { unfold tree_step. destruct (ms !! n) as [m|] eqn:En.
    - destruct (enabled m) eqn:Ee.
      + destruct (markDependencies_spec (S (size ms)) n ms Hcl) as [Hmm Hd].
        { assert (H := unmarked_size ms). lia. }
        split; [|by intros d _ Hx; apply Hd]. eapply marks_more_roots; [|done].
        intros r x -> Hx. exists n. split; [by exists m|done].
      + split; [apply marks_more_refl|]. intros d (m' & Hm' & He). congruence.
    - split; [apply marks_more_refl|]. intros d (m' & Hm' & He). congruence. }
  destruct Hstep as [Hmm Hd]. set (ms1 := tree_step ms n) in *.
  assert (Ho := mk_other _ _ _ Hmm).
  destruct (IH ms1) as [Hmm2 Hd2]; [by eapply closed_other|].
  assert (Hmm2' : marks_more (is_enabled ms) ms1 (foldl tree_step ms1 order)).
  { eapply marks_more_roots; [|done]. intros r x Hr Hx. exists r. split; [|done]. by apply (other_enabled ms ms1). }
  split; [by eapply marks_more_trans; [apply marked_dec| |]|].
  intros r d [->|Hr]%elem_of_cons He Hrd.
  - apply (mk_mono _ _ _ Hmm2). by apply Hd.
  - apply (Hd2 r d Hr); [by apply (other_enabled ms ms1)|by apply (other_depends ms ms1)].
Qed.

Lemma buildEnabledTree_marks (order : list string) (ms : gmap string GoModule) (x : string) :
  closed ms → (∀ n, is_Some (ms !! n) → n ∈ order) →
  marked (buildEnabledTree order ms) x ↔ needed ms x.
Proof.
  intros Hcl Hall. unfold buildEnabledTree. fold tree_step.
  set (ms0 := set_enabledAsDependency false <$> ms).
  assert (Ho : (λ m, (depModules m, enabled m)) <$> ms0 = (λ m, (depModules m, enabled m)) <$> ms).
  { unfold ms0. rewrite <- map_fmap_compose. by apply map_fmap_ext. }
  assert (Hnone : ∀ y, ¬ marked ms0 y).
  { intros y (m & Hm & He). unfold ms0 in Hm. rewrite lookup_fmap in Hm.
    apply fmap_Some in Hm as (m0 & _ & ->). done. }
  destruct (tree_fold_spec order ms0) as [[_ _ Hr Hc _] Hd]; [by eapply closed_other|].
  split.
  - intros [Hx|(r & Hen & Hx)]%Hr; [by destruct (Hnone x)|].
    apply (other_enabled ms ms0) in Hen as (m & Hm & He); [|done]. exists r, m. split_and!; try done.
    by eapply tc_depends.
  - intros (r & m & Hm & He & Hx).
    assert (Hen : is_enabled ms0 r) by (apply (other_enabled ms ms0); [done|by exists m]).
    assert (Hfirst : ∀ y, mdepends ms r y → marked (foldl tree_step ms0 order) y).
    { intros y Hy. apply (Hd r y); [apply Hall; by eexists|done|by apply (other_depends ms ms0)]. }
    assert (Hclosed : ∀ y z, marked (foldl tree_step ms0 order) y → mdepends ms y z →
      marked (foldl tree_step ms0 order) z).
    { intros y z Hy Hz. apply (Hc y z Hy (Hnone y)). by apply (other_depends ms ms0). }
    clear Hm He Hen. induction Hx as [r y Hry|r y z Hry _ IH]; [auto|].
    apply IH. intros w Hw. eauto.
Qed.

(** ** The report loops of Start

    What prepareModules and startModules know while they run, as a predicate on
    what they see: the views of the modules, whether module management is on,
    the pending goroutines and the loop. *)

Abbreviation mview := (amod * bool * bool)%type.

Definition v_status (v : mview) : Z := a_status v.1.1.
Definition v_deps (v : mview) : list string := a_deps v.1.1.

Definition v_Status (vm : gmap string mview) (n : string) : Z :=
  match vm !! n with Some v => v_status v | None => StatusDead end.

(** Modules the phase is for: every module is prepared; with module management
    only the enabled ones and their dependencies are started. *)
Definition v_wanted (ph : phase) (mgmtEnabled : bool) (v : mview) : bool :=
  match ph with PhStart => negb mgmtEnabled || v.1.2 || v.2 | _ => true end.

(** The status a dependency needs. *)
Definition dep_status (ph : phase) : Z := match ph with PhPrep => StatusOffline | _ => StatusOnline end.

Definition v_ready (ph : phase) (mgmtEnabled : bool) (vm : gmap string mview) (v : mview) : ready_status :=
  if negb (v_wanted ph mgmtEnabled v) then statusNothingToDo
  else if negb (v_status v =? from_status ph) then statusNothingToDo
  else if existsb (λ d, v_Status vm d <? dep_status ph) (v_deps v) then statusWaiting
  else statusReady.

Lemma v_Status_view (s : ModSys) (n : string) : v_Status (view <$> modules s) n = Status s n.
Proof. unfold v_Status, Status. rewrite lookup_fmap. by destruct (modules s !! n). Qed.

Lemma existsb_ext' {A : Type} (f g : A → bool) (l : list A) : (∀ x, f x = g x) → existsb f l = existsb g l.
Proof. intros H. induction l as [|x l IH]; simpl; [done|]. by rewrite H, IH. Qed.

Lemma ready_view (ph : phase) (s : ModSys) (m : GoModule) :
  ph ≠ PhStop → ready ph s m = v_ready ph (moduleMgmtEnabled s) (view <$> modules s) (view m).
Proof.
  intros Hph. destruct ph; [| |done]; simpl; unfold readyToPrep, readyToStart, v_ready; simpl.
  - by rewrite (existsb_ext' _ (λ d, v_Status (view <$> modules s) d <? StatusOffline))
      by (intros x; by rewrite v_Status_view).
  - rewrite (existsb_ext' _ (λ d, v_Status (view <$> modules s) d <? StatusOnline))
      by (intros x; by rewrite v_Status_view).
    unfold v_status, v_deps. simpl.
    destruct (moduleMgmtEnabled s), (enabled m), (enabledAsDependency m); done.
Qed.

Definition item_chan (it : item) : nat := match it with LRun _ _ ch | LSend _ _ ch => ch end.

(** A report without an error, or a phase still running. *)
Definition item_clean (it : item) : Prop := match it with LSend _ (Some _) _ => False | _ => True end.

Record jloop (C : Prop) (me : bool) (vm : gmap string mview) (its : list item) (l : Loop) : Prop := mkJloop {
  jl_phase : l_phase l ≠ PhStop;
  jl_items : Forall (λ it, item_chan it = l_chan l ∧ ∀ ph n ch, it = LRun ph n ch → ph = l_phase l) its;
  jl_balance : (l_reportCnt l + length its = l_execCnt l)%nat;
  jl_status : ∀ n v, vm !! n = Some v →
    v_status v = from_status (l_phase l) ∨ v_status v = busy_status (l_phase l) ∨
    v_status v = done_status (l_phase l);
  jl_busy : ∀ n v, vm !! n = Some v → v_status v = busy_status (l_phase l) →
    (l_phase l, n) ∈ runs its ∨ ∃ e ch, LSend n (Some e) ch ∈ its;
  jl_visited : l_waiting l = 0%nat → ∀ n v, vm !! n = Some v → n ∉ l_todo l →
    v_wanted (l_phase l) me v = true → v_status v ≠ from_status (l_phase l);
  jl_unwanted : ∀ n v, vm !! n = Some v → v_wanted (l_phase l) me v = false →
    v_status v = from_status (l_phase l);
  jl_idle : its = [] →
    (∀ n v, vm !! n = Some v → n ∉ l_todo l → v_ready (l_phase l) me vm v ≠ statusReady) ∧
    ((0 < l_waiting l)%nat → ∃ n v, vm !! n = Some v ∧ v_ready (l_phase l) me vm v = statusWaiting);
  jl_noerr : l_lastErr l = None;
  jl_clean : C → Forall item_clean its;
}.

Lemma jloop_perm (C : Prop) (me : bool) (vm : gmap string mview) (its its' : list item) (l : Loop) :
  its ≡ₚ its' → jloop C me vm its l → jloop C me vm its' l.
Proof.
  intros Hp [H1 H2 H3 H4 H5 H6 H7 H8 H9 H10]. split; try done.
  - by rewrite <- Hp.
  - by rewrite <- Hp.
  - intros n v Hn Hb. destruct (H5 n v Hn Hb) as [|(e & ch & Hin)]; [left; by rewrite <- Hp|].
    right. exists e, ch. by rewrite <- Hp.
  - intros ->. apply H8. by apply Permutation_nil_r.
  - intros HC. rewrite <- Hp. auto.
Qed.

(** A loop that begins, with every module still to be taken up. *)
Lemma jloop_fresh (C : Prop) (me : bool) (vm : gmap string mview) (ph : phase) (ch : nat)
    (order : list string) :
  ph ≠ PhStop → (∀ n v, vm !! n = Some v → v_status v = from_status ph) →
  (∀ n v, vm !! n = Some v → n ∈ order) → jloop C me vm [] (mkLoop ph ch order 0 0 0 None).
Proof.
  intros Hph Hst Hin. split; simpl; try done.
  - intros n v Hn. left. by apply (Hst n v).
  - intros n v Hn Hb. rewrite (Hst n v Hn) in Hb. by destruct ph.
  - intros _ n v Hn Hno. destruct Hno. by eapply Hin.
  - intros n v Hn _. by apply (Hst n v).
  - intros _. split; [|lia]. intros n v Hn Hno. destruct Hno. by eapply Hin.
Qed.

(** *** The loop visits a module *)

Lemma v_ready_begin (ph : phase) (me : bool) (vm : gmap string mview) (v : mview) :
  v_ready ph me vm v = statusReady → v_wanted ph me v = true ∧ v_status v = from_status ph.
Proof.
  unfold v_ready. intros H. destruct (v_wanted ph me v) eqn:Hw; [|done]. simpl in H.
  destruct (v_status v =? from_status ph) eqn:E; [|done]. by apply Z.eqb_eq in E.
Qed.

Definition loop_next (rest : list string) (waiting execCnt : nat) (l : Loop) : Loop :=
  mkLoop (l_phase l) (l_chan l) rest waiting execCnt (l_reportCnt l) (l_lastErr l).

Lemma jloop_skip (C : Prop) (me : bool) (vm : gmap string mview) (its : list item) (l : Loop)
    (n : string) (rest : list string) (v : mview) :
  jloop C me vm its l → l_todo l = n :: rest → vm !! n = Some v →
  v_ready (l_phase l) me vm v ≠ statusReady →
  jloop C me vm its (loop_next rest
    (if decide (v_ready (l_phase l) me vm v = statusWaiting) then S (l_waiting l) else l_waiting l)
    (l_execCnt l) l).
Proof.
  intros [H1 H2 H3 H4 H5 H6 H7 H8 H9 H10] Htodo Hn Hr. split; simpl; try done.
  - intros Hw x vx Hx Hin Hwant. case_decide as Hwait; [done|].
    destruct (decide (x = n)) as [->|Hne]; [|apply (H6 Hw x vx); [done| |done]; rewrite Htodo; set_solver].
    rewrite Hn in Hx. injection Hx as <-. intros Hst. unfold v_ready in Hr, Hwait.
    rewrite Hwant, Hst, Z.eqb_refl in Hr, Hwait. simpl in Hr, Hwait. by destruct (existsb _ _).
  - intros Hits. destruct (H8 Hits) as [Hi Hex]. split.
    + intros x vx Hx Hin. destruct (decide (x = n)) as [->|Hne].
      * rewrite Hn in Hx. by injection Hx as <-.
      * apply (Hi x vx Hx). rewrite Htodo. set_solver.
    + case_decide as Hwait; [|done]. intros _. by exists n, v.
Qed.

(** The view of a module whose phase begins. *)
Definition begin_view (ph : phase) (v : mview) : mview :=
  (a_set (busy_status ph) (begin_chan ph v.1.1) v.1.1, v.1.2, v.2).

Lemma jloop_begin (C : Prop) (me : bool) (vm : gmap string mview) (its its' : list item) (l : Loop)
    (n : string) (rest : list string) (v : mview) :
  jloop C me vm its l → l_todo l = n :: rest → vm !! n = Some v →
  v_ready (l_phase l) me vm v = statusReady → its' ≡ₚ LRun (l_phase l) n (l_chan l) :: its →
  jloop C me (<[n := begin_view (l_phase l) v]> vm) its' (loop_next rest (l_waiting l) (S (l_execCnt l)) l).
Proof.
  intros [H1 H2 H3 H4 H5 H6 H7 H8 H9 H10] Htodo Hn Hr Hp.
  destruct (v_ready_begin _ _ _ _ Hr) as [Hwant Hst].
  assert (Hbf : busy_status (l_phase l) ≠ from_status (l_phase l)) by (by destruct (l_phase l)).
  assert (Hww : v_wanted (l_phase l) me (begin_view (l_phase l) v) = true) by (rewrite <- Hwant; by destruct (l_phase l)).
  apply (jloop_perm _ _ _ (LRun (l_phase l) n (l_chan l) :: its)); [done|]. split; simpl; try done.
  - constructor; [|done]. split; [done|]. by intros ph x ch [= -> _ _].
  - lia.
  - intros x vx Hx. destruct (decide (n = x)) as [->|]; simplify_map_eq; [by right; left|eauto].
  - intros x vx Hx Hb. destruct (decide (n = x)) as [->|]; simplify_map_eq; [left; left|].
    destruct (H5 x vx Hx Hb) as [|(e & ch & ?)]; [left; by right|right; exists e, ch; by right].
  - intros Hw x vx Hx Hin Hxw. destruct (decide (n = x)) as [->|]; simplify_map_eq; [done|].
    apply (H6 Hw x vx); [done| |done]. rewrite Htodo. set_solver.
  - intros x vx Hx Hxw. destruct (decide (n = x)) as [->|]; simplify_map_eq; [congruence|eauto].
  - intros HC. constructor; [done|auto].
Qed.

(** *** A goroutine ends its phase *)

Definition done_mview (ph : phase) (v : mview) : mview :=
  (a_set (done_status ph) (done_chan ph v.1.1) v.1.1, v.1.2, v.2).

Lemma jloop_done (C : Prop) (me : bool) (vm : gmap string mview) (its its0 its' : list item) (l : Loop)
    (ph : phase) (n : string) (ch : nat) (v : mview) :
  jloop C me vm its l → NoDup (runs its).*2 → its ≡ₚ LRun ph n ch :: its0 → vm !! n = Some v →
  v_status v = busy_status ph → its' ≡ₚ LSend n None ch :: its0 →
  jloop C me (<[n := done_mview ph v]> vm) its' l.
Proof.
  intros Hj Hnd Hp Hn Hb Hp'. apply (jloop_perm _ _ _ _ _ _ Hp) in Hj. rewrite Hp in Hnd.
  destruct Hj as [H1 H2 H3 H4 H5 H6 H7 H8 H9 H10].
  apply Forall_cons in H2 as [[Hch Hph] H2]. simpl in Hch. specialize (Hph _ _ _ eq_refl). subst ph.
  assert (Hdf : done_status (l_phase l) ≠ from_status (l_phase l)) by (by destruct (l_phase l)).
  assert (Hdb : done_status (l_phase l) ≠ busy_status (l_phase l)) by (by destruct (l_phase l)).
  apply (jloop_perm _ _ _ (LSend n None ch :: its0)); [done|]. split; simpl; try done.
  - by constructor.
  - intros x vx Hx. destruct (decide (n = x)) as [->|]; simplify_map_eq; [by right; right|eauto].
  - intros x vx Hx Hbx. destruct (decide (n = x)) as [->|]; simplify_map_eq.
    destruct (H5 x vx Hx Hbx) as [Hin|(e & ch' & Hin)].
    + simpl in Hin. apply elem_of_cons in Hin as [[= ->]|]; [done|by left].
    + apply elem_of_cons in Hin as [|]; [done|]. right. exists e, ch'. by right.
  - intros Hw x vx Hx Hin Hxw. destruct (decide (n = x)) as [->|]; simplify_map_eq; [done|by eapply H6].
  - intros x vx Hx Hxw. destruct (decide (n = x)) as [->|]; simplify_map_eq; [|eauto].
    assert (Hv := H7 x v Hn). unfold done_mview in Hxw. destruct (l_phase l); simpl in *; try done.
    rewrite (Hv Hxw) in Hb. done.
  - intros HC. specialize (H10 HC). inversion H10; subst. by constructor.
Qed.

Lemma jloop_fail (C : Prop) (me : bool) (vm : gmap string mview) (its its0 its' : list item) (l : Loop)
    (ph : phase) (n : string) (ch : nat) (e : mod_error) :
  jloop C me vm its l → its ≡ₚ LRun ph n ch :: its0 → its' ≡ₚ LSend n (Some e) ch :: its0 →
  (C → False) → jloop C me vm its' l.
Proof.
  intros Hj Hp Hp' HC. apply (jloop_perm _ _ _ _ _ _ Hp) in Hj.
  destruct Hj as [H1 H2 H3 H4 H5 H6 H7 H8 H9 H10]. apply Forall_cons in H2 as [[Hch _] H2].
  apply (jloop_perm _ _ _ (LSend n (Some e) ch :: its0)); [done|]. split; simpl; try done.
  - by constructor.
  - intros x vx Hx Hb. destruct (H5 x vx Hx Hb) as [Hin|(e' & ch' & Hin)].
    + simpl in Hin. apply elem_of_cons in Hin as [[= _ ->]|]; [|by left].
      right. exists e, ch. left.
    + apply elem_of_cons in Hin as [|]; [done|]. right. exists e', ch'. by right.
Qed.

(** *** A good report arrives: the next pass *)

Lemma jloop_next (C : Prop) (me : bool) (vm : gmap string mview) (its its0 : list item) (l : Loop)
    (n : string) (ch : nat) (order : list string) :
  jloop C me vm its l → its ≡ₚ LSend n None ch :: its0 → (∀ x, is_Some (vm !! x) → x ∈ order) →
  jloop C me vm its0 (mkLoop (l_phase l) (l_chan l) order 0 (l_execCnt l) (S (l_reportCnt l)) (l_lastErr l)).
Proof.
  intros Hj Hp Ho. apply (jloop_perm _ _ _ _ _ _ Hp) in Hj.
  destruct Hj as [H1 H2 H3 H4 H5 H6 H7 H8 H9 H10]. split; simpl in *; try done.
  - by inversion H2.
  - lia.
  - intros x vx Hx Hb. destruct (H5 x vx Hx Hb) as [|(e & ch' & Hin)]; [by left|].
    apply elem_of_cons in Hin as [|]; [done|]. right. by exists e, ch'.
  - intros _ x vx Hx Hno. destruct Hno. apply Ho. by eexists.
  - intros _. split; [|lia]. intros x vx Hx Hno. destruct Hno. apply Ho. by eexists.
  - intros HC. specialize (H10 HC). by inversion H10.
Qed.

(** *** The calls *)

(** What no step of a run after linking changes, unless someone enables or
    disables a module: dependencies and the two flags. *)
Definition static (v : mview) : list string * bool * bool := (v_deps v, v.1.2, v.2).

Definition ranked (rank : string → nat) (sm : gmap string (list string * bool * bool)) : Prop :=
  ∀ n x d, sm !! n = Some x → d ∈ x.1.1 → (rank d < rank n)%nat.

Definition wanted_closed (me : bool) (sm : gmap string (list string * bool * bool)) : Prop :=
  ∀ n x d y, sm !! n = Some x → sm !! d = Some y → d ∈ x.1.1 →
    negb me || x.1.2 || x.2 = true → negb me || y.1.2 || y.2 = true.

(** When all reports are in and every module was visited, nothing waits, if the
    dependencies have no loop. *)
Lemma nothing_waits (C : Prop) (rank : string → nat) (me : bool) (vm : gmap string mview) (l : Loop) :
  jloop C me vm [] l → l_todo l = [] →
  (∀ n v d, vm !! n = Some v → d ∈ v_deps v → is_Some (vm !! d)) →
  ranked rank (static <$> vm) → (l_phase l = PhStart → wanted_closed me (static <$> vm)) →
  l_waiting l = 0%nat.
Proof.
  intros Hj Htodo Hcl Hrank Hwc. destruct Hj as [H1 H2 H3 H4 H5 H6 H7 H8 H9 H10].
  destruct (H8 eq_refl) as [Hidle Hex].
  assert (Hno : ∀ k n v, (rank n < k)%nat → vm !! n = Some v → v_ready (l_phase l) me vm v ≠ statusWaiting).
  { induction k as [|k IH]; intros n v Hk Hn Hw; [lia|].
    unfold v_ready in Hw. destruct (v_wanted (l_phase l) me v) eqn:Hwant; [|done]. simpl in Hw.
    destruct (v_status v =? from_status (l_phase l)) eqn:Hst; [|done]. simpl in Hw.
    destruct (existsb _ _) eqn:He; [|done]. apply existsb_exists in He as (d & Hd & Hlt).
    apply list_elem_of_In in Hd. apply Z.ltb_lt in Hlt.
    destruct (Hcl n v d Hn Hd) as [dv Hdv]. unfold v_Status in Hlt. rewrite Hdv in Hlt.
    assert (Hfrom : v_status dv = from_status (l_phase l)).
    { destruct (H4 d dv Hdv) as [|[Hb|Hdone]]; [done| |].
      - destruct (H5 d dv Hdv Hb) as [Hin|(e & ch & Hin)]; by apply elem_of_nil in Hin.
      - rewrite Hdone in Hlt. by destruct (l_phase l). }
    assert (Hdw : v_wanted (l_phase l) me dv = true).
    { destruct (l_phase l) eqn:Hph; [done| |done]. simpl in *.
      apply (Hwc eq_refl n (static v) d (static dv)); [by rewrite lookup_fmap, Hn|by rewrite lookup_fmap, Hdv|done|done]. }
    assert (Hr : v_ready (l_phase l) me vm dv ≠ statusReady).
    { apply (Hidle d dv Hdv). rewrite Htodo. apply not_elem_of_nil. }
    apply (IH d dv); [|done|].
    - assert (Hlt' := Hrank n (static v) d). rewrite lookup_fmap, Hn in Hlt'. specialize (Hlt' eq_refl Hd). lia.
    - unfold v_ready in *. rewrite Hdw, Hfrom, Z.eqb_refl in *. simpl in *. by destruct (existsb _ _). }
  destruct (l_waiting l) as [|w] eqn:E; [done|]. destruct Hex as (n & v & Hn & Hw); [lia|].
  by destruct (Hno (S (rank n)) n v ltac:(lia) Hn).
Qed.

(** Every module is where Start should bring it. *)
Definition all_up (s : ModSys) : Prop :=
  items (procs s) = [] ∧
  ∀ n v, (view <$> modules s) !! n = Some v →
    v_status v = if v_wanted PhStart (moduleMgmtEnabled s) v then StatusOnline else StatusOffline.

Section start_call.

(** [C]: no control function fails and the dependencies, set-up and flags are
    in order; [R0]: the results before the call. *)
Context (C : Prop) (rank : string → nat) (R0 : list (job * option mod_error)).

Definition startup_fine (s : ModSys) : Prop :=
  su_cmdLineOperation (setup s) = false ∧ su_logStart (setup s) = None.

Record jstate (s : ModSys) : Prop := mkJstate {
  js_locked : modulesLocked s = true;
  js_cells : C → cells_clean s;
  js_setup : C → startup_fine s;
  js_rank : C → ranked rank (static <$> (view <$> modules s));
  js_mgmt :
    match mgmt s with
    | Some g =>
        m_job g = JobStart ∧ results s = R0 ∧
        jloop C (moduleMgmtEnabled s) (view <$> modules s) (items (procs s)) (m_loop g) ∧
        (l_phase (m_loop g) = PhStart →
           wanted_closed (moduleMgmtEnabled s) (static <$> (view <$> modules s)))
    | None =>
        ∃ err, results s = R0 ++ [(JobStart, err)] ∧ (C → err = None) ∧ (err = None → all_up s)
    end;
}.

Lemma jstate_quiet (s s' : ModSys) : quiet s s' → jstate s → jstate s'.
Proof.
  intros [Hv Hi Hm Hf Hc _] [H1 H2 H3 H4 H5]. injection Hf as Hl Hme Hsf Hsu Hr. split.
  - congruence.
  - auto.
  - unfold startup_fine. by rewrite Hsu.
  - by rewrite Hv.
  - rewrite Hm, Hr. destruct (mgmt s) as [g|].
    + by rewrite Hme, Hv, Hi.
    + unfold all_up. by rewrite Hme, Hv, Hi.
Qed.

(** A goroutine acts. *)
Lemma static_insert (vm : gmap string mview) (n : string) (v v' : mview) :
  vm !! n = Some v → static v' = static v → static <$> <[n := v']> vm = static <$> vm.
Proof. intros Hn Hs. rewrite fmap_insert, Hs. apply insert_id. by rewrite lookup_fmap, Hn. Qed.

(** After a successful call no goroutine of the life cycle is left. *)
Lemma up_no_run (s : ModSys) (ph : phase) (n : string) (ch : nat) (its : list item) :
  items (procs s) ≡ₚ LRun ph n ch :: its → all_up s → False.
Proof. intros Hit [Hno _]. rewrite Hno in Hit. by apply Permutation_nil_cons in Hit. Qed.

Lemma jstate_effect (c : choice) (p : proc) (i : nat) (s s' : ModSys) :
  wf s → jstate s → (C → clean_choice c) → procs s !! i = Some p →
  effect c p (put_procs (delete i (procs s)) s) s' → jstate s'.
Proof.
  intros Hwf [H1 H2 H3 H4 H5] HC Hi He. assert (Hit := abs_delete s i p Hi).
  assert (Hclean : C → clean c (put_procs (delete i (procs s)) s)) by (intros HC'; split; auto).
  assert (Hcells : cells_clean s → cells_clean (put_procs (delete i (procs s)) s)) by done.
  destruct He as [Hp Hv Hf|ph n ch Hp Hv Hf|ph n ch err m Hp Hm Hv Hf Hph Herr|ph n ch e Hp Hph Hv Hf Hno];
    rewrite Hp in Hit; simpl in *; destruct Hf as [Hi' Hmg Hfl Hcl _]; simpl in *;
    injection Hfl as Hlk Hme _ Hsu Hr.
  1, 2: split; [congruence|auto|unfold startup_fine; rewrite Hsu; auto|by rewrite Hv|].
  1, 2: rewrite Hmg, Hr; destruct (mgmt s) as [g|].
  - destruct H5 as (? & ? & Hj & ?). rewrite Hme, Hv. split_and!; try done.
    eapply jloop_perm; [|done]. by rewrite Hit, Hi'.
  - destruct H5 as (err & ? & ? & Hup). exists err. split_and!; [done|done|]. unfold all_up.
    intros [Hno Hst]%Hup. rewrite Hme, Hv. split; [|done].
    rewrite Hno in Hit. apply Permutation_nil_l in Hit. rewrite <- Hit in Hi'. by apply Permutation_nil_r.
  - destruct H5 as (? & ? & Hj & ?). rewrite Hme, Hv. split_and!; try done.
    eapply jloop_perm; [|done]. by rewrite Hit, Hi'.
  - destruct H5 as (err & ? & ? & Hup). exists err. split_and!; [done|done|].
    intros Hx%Hup. by destruct (up_no_run s ph n ch _ Hit).
  - assert (Hvn : (view <$> modules s) !! n = Some (view m)) by (by rewrite lookup_fmap, Hm).
    assert (Hst : static <$> (view <$> modules s') = static <$> (view <$> modules s)).
    { rewrite Hv. by eapply static_insert. }
    split; [congruence|auto|unfold startup_fine; rewrite Hsu; auto|by rewrite Hst|].
    rewrite Hmg, Hr. destruct (mgmt s) as [g|].
    + destruct H5 as (? & ? & Hj & Hwc). rewrite Hme. split_and!; [done|done| |by rewrite Hst].
      rewrite Hv. assert (Hrun := inv_runs _ (wf_inv s Hwf)). destruct Hrun as [Hnd Hb].
      destruct (Hb ph n) as (am & Ham & Hbusy).
      { simpl. rewrite Hit. left. }
      simpl in Ham. rewrite lookup_fmap, Hm in Ham. injection Ham as <-.
      assert (ph ≠ PhStop).
      { apply (jl_items _ _ _ _ _) in Hj as Hits. rewrite Hit in Hits. apply Forall_cons in Hits as [[_ Hx] _].
        rewrite (Hx ph n ch eq_refl). apply (jl_phase _ _ _ _ _ Hj). }
      assert (err = None) as -> by naive_solver.
      change (done_view ph m) with (done_mview ph (view m)).
      eapply jloop_done; [done|done|done|done|done|done].
    + destruct H5 as (err' & ? & ? & Hup). exists err'. split_and!; [done|done|].
      intros Hx%Hup. by destruct (up_no_run s ph n ch _ Hit).
  - split; [congruence|intros HC'; by destruct Hno; auto|unfold startup_fine; rewrite Hsu; auto|by rewrite Hv|].
    rewrite Hmg, Hr. destruct (mgmt s) as [g|].
    + destruct H5 as (? & ? & Hj & Hwc). rewrite Hme, Hv. split_and!; try done.
      eapply jloop_fail; [done|done|done|auto].
    + destruct H5 as (err' & ? & ? & Hup). exists err'. split_and!; [done|done|].
      intros Hx%Hup. by destruct (up_no_run s ph n ch _ Hit).
Qed.

(** The loop visits a module. *)
Lemma jstate_visit (s s' : ModSys) : wf s → jstate s → step EvVisit s = Ret s' → jstate s'.
Proof.
  intros Hwf [H1 H2 H3 H4 H5] Hs. simpl in Hs. destruct (mgmt s) as [[j l e]|] eqn:Hmg; [|done].
  simpl in *. destruct (l_todo l) as [|n rest] eqn:Htodo; [done|]. destruct H5 as (Hjob & Hr & Hj & Hwc).
  unfold loop_visit in Hs. destruct (modules s !! n) as [m|] eqn:Hn; [|done].
  assert (Hvn : (view <$> modules s) !! n = Some (view m)) by (by rewrite lookup_fmap, Hn).
  assert (Hrv := ready_view (l_phase l) s m (jl_phase _ _ _ _ _ Hj)).
  assert (Hskip : v_ready (l_phase l) (moduleMgmtEnabled s) (view <$> modules s) (view m) ≠ statusReady →
    jstate (put_mgmt (Some (mkMgmt j (loop_next rest
      (if decide (v_ready (l_phase l) (moduleMgmtEnabled s) (view <$> modules s) (view m) = statusWaiting)
       then S (l_waiting l) else l_waiting l) (l_execCnt l) l) e)) s)).
  { intros Hne. split; simpl; try done. split_and!; try done. by eapply jloop_skip. }
  destruct (ready (l_phase l) s m) eqn:Hrd; simpl in Hs; injection Hs as <-; rewrite <- Hrv in Hskip;
    [by apply Hskip| |by apply Hskip].
  destruct (ready_guard _ _ _ Hrd) as [Hst _].
  destruct (begin_phase_spec (l_phase l) (l_chan l) n m s Hst (proj1 (wf_good s Hwf) n m Hn))
    as (m' & -> & Hv & _).
  assert (Hvm : view <$> <[n := m']> (modules s) =
    <[n := begin_view (l_phase l) (view m)]> (view <$> modules s)) by (by rewrite fmap_insert, Hv).
  assert (Hstat : static <$> (view <$> <[n := m']> (modules s)) = static <$> (view <$> modules s)).
  { rewrite Hvm. by eapply static_insert. }
  split; simpl; try done; [by rewrite Hstat|]. split_and!; [done|done| |by rewrite Hstat].
  rewrite Hvm. eapply jloop_begin; [done|done|done|by rewrite <- Hrv|].
  unfold items. rewrite omap_app. simpl. by rewrite (comm (++)).
Qed.

(** The last pass is over: what prepareModules and startModules return. *)
Lemma jloop_over (s : ModSys) (g : Mgmt) :
  wf s → jstate s → mgmt s = Some g → l_todo (m_loop g) = [] →
  (l_execCnt (m_loop g) ≤ l_reportCnt (m_loop g))%nat →
  items (procs s) = [] ∧ (C → l_waiting (m_loop g) = 0%nat) ∧
  (l_waiting (m_loop g) = 0%nat → ∀ n v, (view <$> modules s) !! n = Some v →
     v_status v = if v_wanted (l_phase (m_loop g)) (moduleMgmtEnabled s) v
                  then done_status (l_phase (m_loop g)) else from_status (l_phase (m_loop g))).
Proof.
  intros Hwf [H1 H2 H3 H4 H5] Hmg Htodo Hcnt. rewrite Hmg in H5. destruct H5 as (_ & _ & Hj & Hwc).
  assert (Hits : items (procs s) = []).
  { apply length_zero_iff_nil. assert (Hb := jl_balance _ _ _ _ _ Hj). lia. }
  split; [done|]. rewrite Hits in Hj. split.
  - intros HC. eapply nothing_waits; [done|done| |by apply H4|done].
    intros n v d Hn Hd. rewrite lookup_fmap in Hn. apply fmap_Some in Hn as (m & Hm & ->).
    destruct (inv_linked _ (wf_inv s Hwf) n (abs_mod m) d) as (dm & Hdm & _); [simpl; by rewrite lookup_fmap, Hm|done|].
    simpl in Hdm. rewrite lookup_fmap in Hdm. apply fmap_Some in Hdm as (m' & Hm' & _).
    rewrite lookup_fmap, Hm'. by eexists.
  - intros Hw n v Hn. destruct (v_wanted _ _ v) eqn:Hwant; [|by eapply jl_unwanted].
    destruct (jl_status _ _ _ _ _ Hj n v Hn) as [Hf|[Hb|]]; [| |done].
    + destruct (jl_visited _ _ _ _ _ Hj Hw n v Hn); [rewrite Htodo; apply not_elem_of_nil|done|done].
    + destruct (jl_busy _ _ _ _ _ Hj n v Hn Hb) as [Hin|(e & ch & Hin)]; by apply elem_of_nil in Hin.
Qed.

(** After the tree is built, what a wanted module depends on is wanted. *)
Lemma tree_wanted (s : ModSys) (order : list string) :
  wf s → range_order s order = true →
  wanted_closed (moduleMgmtEnabled s) (static <$> (view <$> buildEnabledTree order (modules s))).
Proof.
  intros Hwf Ho. set (ms := modules s). set (ms' := buildEnabledTree order ms).
  assert (Hot : (λ m, (depModules m, enabled m)) <$> ms' = (λ m, (depModules m, enabled m)) <$> ms)
    by (by apply buildEnabledTree_other).
  assert (Hcl : closed ms).
  { intros n d (m & Hm & Hd). destruct (inv_linked _ (wf_inv s Hwf) n (abs_mod m) d) as (dm & Hdm & _);
      [simpl; fold ms; by rewrite lookup_fmap, Hm|done|].
    simpl in Hdm. rewrite lookup_fmap in Hdm. apply fmap_Some in Hdm as (m' & Hm' & _). by exists m'. }
  assert (Hmk := λ x, buildEnabledTree_marks order ms x Hcl (λ n Hn, proj2 (range_order_in s order n Ho) Hn)).
  intros n x d y Hn Hd Hin. rewrite lookup_fmap, lookup_fmap in Hn, Hd.
  destruct (ms' !! n) as [mn|] eqn:En; [|done]. destruct (ms' !! d) as [md|] eqn:Ed; [|done].
  simpl in Hn, Hd. injection Hn as <-. injection Hd as <-. simpl in *.
  destruct (moduleMgmtEnabled s); simpl; [|done].
  assert (Hnd : mdepends ms n d) by (apply (other_depends ms ms' n d Hot); by exists mn).
  assert (Hneed : is_enabled ms n ∨ marked ms' n → enabledAsDependency md = true).
  { intros Hor. assert (Hm : marked ms' d).
    { apply Hmk. destruct Hor as [(m & Hm & He)|(r & m & Hr & He & Ht)%Hmk].
      - exists n, m. split_and!; [done|done|by apply tc_once].
      - exists r, m. split_and!; [done|done|]. by eapply tc_r. }
    destruct Hm as (m & Hm & He). congruence. }
  intros [He|Hm]%orb_true_iff; apply orb_true_iff; right; apply Hneed.
  - left. apply (other_enabled ms ms' n Hot). by exists mn.
  - right. by exists mn.
Qed.

(** The call returns. *)
Lemma jstate_finish (s s' : ModSys) (g : Mgmt) (err : option mod_error) :
  jstate s → mgmt s = Some g → modules s' = modules s → procs s' = procs s → cells s' = cells s →
  setup s' = setup s → modulesLocked s' = modulesLocked s → moduleMgmtEnabled s' = moduleMgmtEnabled s →
  mgmt s' = None → results s' = results s ++ [(JobStart, err)] →
  (C → err = None) → (err = None → all_up s) → jstate s'.
Proof.
  intros [H1 H2 H3 H4 H5] Hmg Hm Hp Hc Hsu Hl Hme Hmg' Hr HC Hup. rewrite Hmg in H5.
  destruct H5 as (_ & HR & _ & _). split.
  - congruence.
  - unfold cells_clean. by rewrite Hc.
  - unfold startup_fine. by rewrite Hsu.
  - by rewrite Hm.
  - rewrite Hmg'. exists err. split_and!; [congruence|done|]. unfold all_up. by rewrite Hm, Hp, Hme.
Qed.

(** Between the loops: all modules are prepared, the tree is built and
    startModules begins. *)
Lemma jstate_enter_start (s : ModSys) (g : Mgmt) (order : list string) :
  wf s → jstate s → mgmt s = Some g → range_order s order = true → items (procs s) = [] →
  (∀ n v, (view <$> modules s) !! n = Some v → v_status v = StatusOffline) →
  jstate (enter_loop JobStart PhStart None order (put_modules (buildEnabledTree order (modules s)) s)).
Proof.
  intros Hwf [H1 H2 H3 H4 H5] Hmg Ho Hits Hoff. rewrite Hmg in H5. destruct H5 as (_ & HR & _ & _).
  set (ms' := buildEnabledTree order (modules s)).
  assert (Hoff' : ∀ n v, (view <$> ms') !! n = Some v → v_status v = StatusOffline).
  { intros n v Hn. rewrite lookup_fmap in Hn. apply fmap_Some in Hn as (m' & Hm' & ->).
    assert (E : (status <$> modules s) !! n = Some (status m')).
    { rewrite <- (buildEnabledTree_other status order (modules s)) by done. fold ms'. by rewrite lookup_fmap, Hm'. }
    rewrite lookup_fmap in E. apply fmap_Some in E as (m & Hm & Hx). unfold v_status. simpl. rewrite Hx.
    apply (Hoff n (view m)). by rewrite lookup_fmap, Hm. }
  assert (Hin : ∀ n v, (view <$> ms') !! n = Some v → n ∈ order).
  { intros n v Hn. apply (range_order_in s order n Ho). apply (fmap_eq_is_Some depNames (modules s) ms').
    - by apply buildEnabledTree_other.
    - rewrite lookup_fmap in Hn. apply fmap_Some in Hn as (m & -> & _). by eexists. }
  split; simpl; try done.
  - intros HC n x d Hn Hd. assert (E : (depModules <$> modules s) !! n = Some x.1.1).
    { rewrite <- (buildEnabledTree_other depModules order (modules s)) by done. fold ms'.
      rewrite !lookup_fmap in *. destruct (ms' !! n); simplify_eq/=. done. }
    rewrite lookup_fmap in E. apply fmap_Some in E as (m & Hm & Hx).
    apply (H4 HC n (static (view m)) d); [by rewrite !lookup_fmap, Hm|]. by rewrite Hx in Hd.
  - split_and!; [done|done| |intros _; by apply tree_wanted]. rewrite Hits. by apply jloop_fresh.
Qed.

Lemma jstate_return (order : list string) (s s' : ModSys) :
  wf s → jstate s → step (EvReturn order) s = Ret s' → jstate s'.
Proof.
  intros Hwf Hjs Hs. simpl in Hs. destruct (mgmt s) as [g|] eqn:Hmg; [|done].
  destruct (bool_decide _ && _) eqn:Hc; [|done]. apply andb_true_iff in Hc as [Hc Ho].
  apply bool_decide_eq_true in Hc as [Htodo Hcnt]. injection Hs as <-.
  destruct (jloop_over s g Hwf Hjs Hmg Htodo Hcnt) as (Hits & HC & Hst).
  assert (H5 := js_mgmt s Hjs). rewrite Hmg in H5. destruct H5 as (Hjob & HR & Hj & Hwc). rewrite Hjob.
  assert (Hph := jl_phase _ _ _ _ _ Hj). assert (Hne := jl_noerr _ _ _ _ _ Hj).
  unfold loop_result. rewrite Hne. destruct (l_waiting (m_loop g)) as [|w] eqn:Hw; simpl.
  - specialize (Hst eq_refl). destruct (l_phase (m_loop g)) eqn:Ep; [| |done]; simpl.
    + assert (Hfine : C → startup_fine s) by apply Hjs.
      destruct (su_cmdLineOperation (setup s)) eqn:Ecl.
      { eapply jstate_finish; simpl; [done|done|done..| |done]. intros [Hx _]%Hfine. congruence. }
      destruct (su_logStart (setup s)) eqn:Elog.
      { eapply jstate_finish; simpl; [done|done|done..| |done]. intros [_ Hx]%Hfine. congruence. }
      by eapply jstate_enter_start.
    + by eapply jstate_finish.
  - assert (Hno : C → False) by (intros ?%HC; lia).
    destruct (l_phase (m_loop g)); [| |done]; simpl;
      (eapply jstate_finish; simpl; [done|done|done..| |done]; intros ?; by destruct Hno).
Qed.

Lemma jstate_receive (i : nat) (order : list string) (s s' : ModSys) :
  wf s → jstate s → step (EvReceive i order) s = Ret s' → jstate s'.
Proof.
  intros Hwf Hjs Hs. simpl in Hs. destruct (mgmt s) as [g|] eqn:Hmg; [|done].
  destruct (procs s !! i) as [[| |n err ch| | | | ]|] eqn:Hi; try done.
  destruct (bool_decide _ && _) eqn:Hc; [|done]. apply andb_true_iff in Hc as [_ Ho]. injection Hs as <-.
  assert (Hit := abs_delete s i _ Hi). simpl in Hit.
  assert (H5 := js_mgmt s Hjs). rewrite Hmg in H5. destruct H5 as (Hjob & HR & Hj & Hwc).
  assert (Hph := jl_phase _ _ _ _ _ Hj). assert (Hlk := js_locked s Hjs).
  unfold loop_report. rewrite Hjob.
  destruct err as [e|].
  - assert (Hno : C → False).
    { intros HC. assert (Hcl := jl_clean _ _ _ _ _ Hj HC). rewrite Hit in Hcl. by inversion Hcl. }
    destruct (l_phase (m_loop g)); [| |done]; simpl; split; simpl; try done; try by (intros ?%Hno).
    all: eexists; split_and!; [by rewrite HR|by intros ?%Hno|done].
  - destruct Hjs as [H1 H2 H3 H4 _].
    assert (Hj' := jloop_next _ _ _ _ _ _ _ _ order Hj Hit).
    assert (Hall : ∀ x, is_Some ((view <$> modules s) !! x) → x ∈ order).
    { intros x. rewrite lookup_fmap, fmap_is_Some. by apply range_order_in. }
    destruct (l_phase (m_loop g)) eqn:Ep; [| |done]; simpl; split; simpl; try done.
    all: split_and!; [done|done|by apply Hj'|]; simpl; try rewrite Ep; done.
Qed.

(** Events while the call runs: no other call, and nobody enables or disables
    modules or module management. *)
Definition undisturbed (ev : event) : Prop :=
  match ev with
  | EvFailure _ _ _ _ _ | EvResolve _ _ | EvStartJob _ _ | EvRun _ _ | EvVisit | EvReceive _ _
  | EvReturn _ => True
  | _ => False
  end.

(** A control function that ends without an error and in time. *)
Definition event_clean (ev : event) : Prop :=
  match ev with EvRun _ c => clean_choice c | _ => True end.

Lemma jstate_step (ev : event) (s s' : ModSys) :
  wf s → jstate s → undisturbed ev → (C → event_clean ev) → step ev s = Ret s' → jstate s'.
Proof.
  intros Hwf Hjs Hu HC Hs. assert (Hg := wf_good s Hwf).
  destruct ev as [| | | |n st id title msg|n id|c n|i c| | | | |i order|order]; try done.
  - simpl in Hs. unfold at_module in Hs. destruct (modules s !! n) eqn:Hn; [|done].
    assert (H := setFailure_quiet st id title msg n s Hg ltac:(by eexists)). rewrite Hs in H.
    by eapply jstate_quiet; [apply H|].
  - simpl in Hs. unfold at_module in Hs. destruct (modules s !! n) eqn:Hn; [|done].
    assert (H := Resolve_quiet id n s Hg ltac:(by eexists)). rewrite Hs in H.
    by eapply jstate_quiet; [apply H|].
  - simpl in Hs. unfold at_module in Hs. destruct (modules s !! n) eqn:Hn; [|done]. injection Hs as <-.
    eapply jstate_quiet; [|done]. apply spawn_quiet; [done|done|by eexists].
  - simpl in Hs. destruct (procs s !! i) as [p|] eqn:Hi; [|done].
    assert (H := run_proc_effect i c p s Hwf Hi). rewrite Hs in H. by eapply jstate_effect; [..|apply H].
  - by eapply jstate_visit.
  - by eapply jstate_receive.
  - by eapply jstate_return.
Qed.

Lemma jstate_run (evs : list event) (s s' : ModSys) :
  wf s → jstate s → Forall undisturbed evs → (C → Forall event_clean evs) → run evs s = Ret s' →
  wf s' ∧ jstate s'.
Proof.
  revert s. induction evs as [|ev evs IH]; intros s Hwf Hjs Hu HC Hr; simpl in Hr.
  { by injection Hr as <-. }
  destruct (step ev s) as [s1| |] eqn:Hs; simpl in Hr; [|done|done].
  inversion Hu; subst. apply (IH s1); [by eapply step_wf| |done| |done].
  - eapply jstate_step; [done|done|done| |done]. intros HC'. specialize (HC HC'). by inversion HC.
  - intros HC'. specialize (HC HC'). by inversion HC.
Qed.
End start_call.

(** *** Linking *)

(** Links only come from the declared names. *)
Definition links_declared (ms : gmap string GoModule) : Prop :=
  ∀ n m d, ms !! n = Some m → d ∈ depModules m → d ∈ depNames m.

Lemma link_one_declared (n d : string) (ms : gmap string GoModule) :
  (∀ m, ms !! n = Some m → d ∈ depNames m) → links_declared ms → links_declared (link_one n d ms).
Proof.
  intros Hd Hl x mx y Hx Hy. rewrite link_one_lookup in Hx. destruct (ms !! x) as [m|] eqn:E; [|done].
  simpl in Hx. injection Hx as <-. specialize (Hl x m y E). specialize (Hd m).
  repeat case_decide; subst; simpl in *; set_solver.
Qed.

Lemma depNames_link (n d x : string) (ms : gmap string GoModule) (m : GoModule) :
  link_one n d ms !! x = Some m → ∃ m0, ms !! x = Some m0 ∧ depNames m = depNames m0.
Proof.
  rewrite link_one_lookup. destruct (ms !! x) as [m0|]; [|done]. simpl. intros [= <-].
  exists m0. split; [done|]. by repeat case_decide.
Qed.

Lemma link_deps_declared (n : string) (names : list string) (ms : gmap string GoModule) :
  (∀ m d, ms !! n = Some m → d ∈ names → d ∈ depNames m) → links_declared ms →
  links_declared (link_deps n names ms).1.
Proof.
  revert ms. induction names as [|d names IH]; intros ms Hn Hl; simpl; [done|].
  case_decide; [|done]. fold (link_one n d ms). apply IH.
  - intros m x Hm Hx. destruct (depNames_link n d n ms m Hm) as (m0 & Hm0 & ->). apply Hn; [done|by right].
  - apply link_one_declared; [|done]. intros m Hm. apply Hn; [done|left].
Qed.

Lemma initDependencies_declared (order : list string) (ms : gmap string GoModule) :
  links_declared ms → links_declared (initDependencies order ms).1.
Proof.
  revert ms. induction order as [|n order IH]; intros ms Hl; simpl; [done|].
  set (names := match ms !! n with Some m => depNames m | None => [] end).
  assert (H1 : links_declared (link_deps n names ms).1).
  { apply link_deps_declared; [|done]. intros m d Hm Hd. unfold names in Hd. by rewrite Hm in Hd. }
  destruct (link_deps n names ms) as [ms1 [e|]]; simpl in *; [done|]. by apply IH.
Qed.

(** Every declared dependency is registered. *)
Definition declared_registered (ms : gmap string GoModule) : Prop :=
  ∀ n m d, ms !! n = Some m → d ∈ depNames m → is_Some (ms !! d).

Lemma link_deps_ok (n : string) (names : list string) (ms : gmap string GoModule) :
  (∀ d, d ∈ names → is_Some (ms !! d)) → (link_deps n names ms).2 = None.
Proof.
  revert ms. induction names as [|d names IH]; intros ms Hn; simpl; [done|].
  rewrite decide_True by (apply Hn; left). fold (link_one n d ms). apply IH.
  intros x Hx. rewrite link_one_lookup, fmap_is_Some. apply Hn. by right.
Qed.

Lemma initDependencies_ok (order : list string) (ms : gmap string GoModule) :
  linked (abs_mod <$> ms) → declared_registered ms → (initDependencies order ms).2 = None.
Proof.
  revert ms. induction order as [|n order IH]; intros ms Hl Hr; simpl; [done|].
  set (names := match ms !! n with Some m => depNames m | None => [] end).
  assert (H1 : (link_deps n names ms).2 = None).
  { apply link_deps_ok. intros d Hd. unfold names in Hd. destruct (ms !! n) eqn:E; [by eapply Hr|].
    by apply elem_of_nil in Hd. }
  destruct (link_deps_spec n names ms Hl) as [Hl1 Hu].
  destruct (link_deps n names ms) as [ms1 oe]; simpl in *. subst oe. apply IH; [done|].
  intros x m d Hx Hd. rewrite (fmap_eq_is_Some _ _ _ _ Hu).
  assert (E : (unlinked_fields <$> ms) !! x = Some (unlinked_fields m)) by (by rewrite <- Hu, lookup_fmap, Hx).
  rewrite lookup_fmap in E. apply fmap_Some in E as (m0 & Hm0 & Hx0). injection Hx0 as _ _ _ _ Hnames.
  eapply (Hr x m0); [done|]. by rewrite <- Hnames.
Qed.

(** *** The set-up before Start *)

Definition setup_event (ev : event) : Prop :=
  match ev with
  | EvRegister _ _ _ _ _ | EvEnableModuleManagement _ | EvDisableModuleManagement | EvSetEnabled _ _ => True
  | _ => False
  end.

Record before_start (su : startup) (s : ModSys) : Prop := mkBefore {
  bs_procs : procs s = [];
  bs_cells : cells s = ∅;
  bs_mgmt : mgmt s = None;
  bs_results : results s = [];
  bs_locked : modulesLocked s = false;
  bs_setup : setup s = su;
}.

Lemma before_start_run (su : startup) (evs : list event) (s s' : ModSys) :
  before_start su s → Forall setup_event evs → run evs s = Ret s' → before_start su s'.
Proof.
  revert s. induction evs as [|ev evs IH]; intros s Hb Hs Hr; simpl in Hr; [by injection Hr as <-|].
  destruct (step ev s) as [s1| |] eqn:Hst; simpl in Hr; [|done|done]. inversion Hs as [|? ? Hev Hevs]; subst.
  apply (IH s1); [|done|done]. destruct Hb as [Hb1 Hb2 Hb3 Hb4 Hb5 Hb6].
  destruct ev as [name p q r deps|fn| |n b|n st id title msg|n id|c n|i c|o|o|o| |i o|o]; try done; simpl in Hst.
  - unfold Modules_Register in Hst. rewrite Hb5 in Hst. destruct (modules s !! name); [done|].
    injection Hst as <-. by split.
  - injection Hst as <-. unfold EnableModuleManagement. by case_match.
  - injection Hst as <-. by split.
  - unfold at_module, mod_module, on_module in Hst. destruct (modules s !! n); [|done]. simpl in Hst.
    injection Hst as <-. by split.
Qed.

Lemma before_start_initial (ready : bool) (su : startup) : before_start su (initial ready su).
Proof. by split. Qed.

(** The system is set up so that Start can succeed. *)
Definition setup_fine (su : startup) : Prop :=
  su_parseFlags su = None ∧ su_globalPrepFn su = None ∧ su_cmdLineOperation su = false ∧ su_logStart su = None.

Definition declared_ranked (rank : string → nat) (ms : gmap string GoModule) : Prop :=
  ∀ n m d, ms !! n = Some m → d ∈ depNames m → (rank d < rank n)%nat.

(** What initDependencies leaves of freshly registered modules: their statuses,
    and links to declared dependencies only. *)
Lemma initDependencies_fresh (rank : string → nat) (order : list string) (s : ModSys) :
  wf s → modulesLocked s = false →
  let ms := (initDependencies order (modules s)).1 in
  (∀ n v, (view <$> ms) !! n = Some v → v_status v = StatusDead ∧ is_Some (modules s !! n)) ∧
  (declared_ranked rank (modules s) → ranked rank (static <$> (view <$> ms))).
Proof.
  intros Hwf Hl ms. destruct (wf_fresh s Hwf Hl) as [Hf _].
  destruct (initDependencies_spec order (modules s) (inv_linked _ (wf_inv s Hwf))) as [_ Hu]. fold ms in Hu.
  assert (Hnames : ∀ n m, ms !! n = Some m → ∃ m0, modules s !! n = Some m0 ∧
    unlinked_fields m = unlinked_fields m0).
  { intros n m Hn. assert (E : (unlinked_fields <$> modules s) !! n = Some (unlinked_fields m)) by (by rewrite <- Hu, lookup_fmap, Hn).
    rewrite lookup_fmap in E. apply fmap_Some in E as (m0 & Hm0 & Hx0). eauto. }
  split.
  - intros n v Hn. rewrite lookup_fmap in Hn. apply fmap_Some in Hn as (m & Hm & ->).
    destruct (Hnames n m Hm) as (m0 & Hm0 & Hx). injection Hx as Hs _ _ _ _. split; [|by eexists].
    unfold v_status. simpl. rewrite Hs. assert (Hfx := Hf n m0 Hm0). by injection Hfx.
  - intros Hrk n x d Hn Hd. rewrite !lookup_fmap in Hn. destruct (ms !! n) as [m|] eqn:En; [|done].
    simpl in Hn. injection Hn as <-. simpl in Hd. destruct (Hnames n m En) as (m0 & Hm0 & Hx).
    injection Hx as _ _ _ _ Hnm. apply (Hrk n m0 d Hm0). rewrite <- Hnm.
    apply (initDependencies_declared order (modules s)) with n; [|done|done].
    intros y my z Hy Hz. assert (Hfx := Hf y my Hy). injection Hfx as _ _ Hdx _. rewrite Hdx in Hz.
    by apply elem_of_nil in Hz.
Qed.

Lemma jstate_begin (C : Prop) (rank : string → nat) (su : startup) (order : list string) (s s' : ModSys) :
  wf s → before_start su s →
  (C → setup_fine su ∧ declared_registered (modules s) ∧ declared_ranked rank (modules s)) →
  step (EvStart order) s = Ret s' → jstate C rank [] s'.
Proof.
  intros Hwf [Hb1 Hb2 Hb3 Hb4 Hb5 Hb6] HC Hst. simpl in Hst. rewrite Hb5 in Hst.
  unfold lock_and in Hst. rewrite Hb3 in Hst. destruct (range_order s order) eqn:Ho; [|done].
  injection Hst as <-. unfold Start_begin. simpl.
  destruct (initDependencies_fresh rank order s Hwf Hb5) as [Hdead Hrank].
  assert (Hok := initDependencies_ok order (modules s) (inv_linked _ (wf_inv s Hwf))).
  destruct (initDependencies order (modules s)) as [ms oe]. simpl in *.
  assert (Hrk : C → ranked rank (static <$> (view <$> ms))) by (intros (_ & _ & ?)%HC; auto).
  assert (Hcl : C → cells_clean s) by (intros _; unfold cells_clean; rewrite Hb2; apply map_Forall_empty).
  assert (Hsf : C → startup_fine s) by (intros ((_ & _ & ? & ?) & _)%HC; unfold startup_fine; by rewrite Hb6).
  destruct oe as [e|].
  { split; simpl; try done. exists (Some e). rewrite Hb4. split_and!; [done| |done].
    intros (_ & Hreg & _)%HC. by specialize (Hok Hreg). }
  rewrite Hb6. destruct (su_parseFlags su) eqn:E1.
  { split; simpl; try done. eexists. rewrite Hb4. split_and!; [done| |done]. intros ((? & _) & _)%HC. congruence. }
  destruct (su_globalPrepFn su) eqn:E2.
  { split; simpl; try done. eexists. rewrite Hb4. split_and!; [done| |done]. intros ((_ & ? & _) & _)%HC. congruence. }
  split; simpl; try done. split_and!; [done|done| |done]. rewrite Hb1. apply jloop_fresh; [done| |].
  - intros n v Hn. by apply (Hdead n v Hn).
  - intros n v Hn. apply (range_order_in s order n Ho), (Hdead n v Hn).
Qed.

(** ** Progress and termination of the report loops, in any call *)

(** The goroutines and reports of a reports channel. *)
Definition pending (ch : nat) (its : list item) : nat := length (filter (λ it, item_chan it = ch) its).

#[global] Instance pending_perm (ch : nat) : Proper ((≡ₚ) ==> eq) (pending ch).
Proof. intros l l' H. unfold pending. by rewrite H. Qed.

Lemma pending_cons (ch : nat) (it : item) (its : list item) :
  pending ch (it :: its) = ((if decide (item_chan it = ch) then 1 else 0) + pending ch its)%nat.
Proof. unfold pending. rewrite filter_cons. by case_decide. Qed.

Lemma pending_none (ch : nat) (its : list item) :
  Forall (λ it, item_chan it < ch)%nat its → pending ch its = 0%nat.
Proof.
  induction 1 as [|it its Hit _ IH]; [done|]. rewrite pending_cons, IH, decide_False; lia.
Qed.

(** Modules that a loop of this phase may still take up. *)
Definition may_begin (ph : phase) (st : Z) : bool :=
  match ph with
  | PhPrep => st =? StatusDead
  | PhStart => (st =? StatusPreparing) || (st =? StatusOffline) || (st =? StatusStopping)
  | PhStop => (st =? StatusStarting) || (st =? StatusOnline)
  end.

Definition left_to_do (ph : phase) (vm : gmap string mview) : nat :=
  size (filter (λ p, may_begin ph (v_status p.2) = true) vm).

(** The steps of the loop that are still possible: a pass over the modules for
    every pending report, now or later. *)
Definition loop_measure (s : ModSys) (l : Loop) : nat :=
  (left_to_do (l_phase l) (view <$> modules s) + pending (l_chan l) (items (procs s))) *
    (size (modules s) + 2) + length (l_todo l).

(** Reports are balanced, and channels are fresh. *)
Record counted (s : ModSys) : Prop := mkCounted {
  ct_fresh : Forall (λ it, item_chan it < next_chan s)%nat (items (procs s));
  ct_loop : ∀ g, mgmt s = Some g →
    (l_chan (m_loop g) < next_chan s)%nat ∧
    (l_reportCnt (m_loop g) + pending (l_chan (m_loop g)) (items (procs s)) = l_execCnt (m_loop g))%nat;
}.

(** A change of one module's status. *)
Lemma left_to_do_insert (ph : phase) (vm : gmap string mview) (n : string) (v v' : mview) :
  vm !! n = Some v →
  (left_to_do ph (<[n := v']> vm) + (if may_begin ph (v_status v) then 1 else 0) =
   left_to_do ph vm + (if may_begin ph (v_status v') then 1 else 0))%nat.
Proof.
  intros Hn. unfold left_to_do.
  assert (H : ∀ w, size (filter (λ p, may_begin ph (v_status p.2) = true) (<[n := w]> vm)) =
    ((if may_begin ph (v_status w) then 1 else 0) +
     size (filter (λ p, may_begin ph (v_status p.2) = true) (delete n vm)))%nat).
  { intros w. rewrite <- insert_delete_eq. destruct (may_begin ph (v_status w)) eqn:E.
    - rewrite map_filter_insert_True by done. rewrite map_size_insert_None; [lia|].
      apply map_lookup_filter_None. left. apply lookup_delete_eq.
    - rewrite map_filter_insert_False by (simpl; congruence). by rewrite delete_delete_eq. }
  rewrite H. rewrite <- (insert_id vm n v Hn) at 2. rewrite H. lia.
Qed.

(** What a step may do to the loop that is running: nothing, but possibly
    finish phases; leave it, perhaps for a new one; visit a module; or take a
    report. *)
Inductive loop_effect (s s' : ModSys) : bool → Prop :=
| le_other :
    mgmt s' = mgmt s → (next_chan s ≤ next_chan s')%nat →
    (∀ ch, pending ch (items (procs s')) = pending ch (items (procs s))) →
    Forall (λ it, item_chan it < next_chan s)%nat (items (procs s')) →
    (modulesLocked s = true → dom (modules s') = dom (modules s) ∧
      ∀ ph, (left_to_do ph (view <$> modules s') ≤ left_to_do ph (view <$> modules s))%nat) →
    loop_effect s s' false
| le_leave :
    (∀ g, mgmt s' = Some g → l_chan (m_loop g) = next_chan s ∧ l_execCnt (m_loop g) = 0%nat ∧
       l_reportCnt (m_loop g) = 0%nat ∧ (next_chan s < next_chan s')%nat) →
    (next_chan s ≤ next_chan s')%nat →
    Forall (λ it, item_chan it < next_chan s)%nat (items (procs s')) →
    loop_effect s s' false
| le_visit g g' n rest :
    mgmt s = Some g → l_todo (m_loop g) = n :: rest → mgmt s' = Some g' →
    l_phase (m_loop g') = l_phase (m_loop g) → l_chan (m_loop g') = l_chan (m_loop g) →
    l_todo (m_loop g') = rest → next_chan s' = next_chan s → dom (modules s') = dom (modules s) →
    l_reportCnt (m_loop g') = l_reportCnt (m_loop g) →
    (l_execCnt (m_loop g') = l_execCnt (m_loop g) ∧ items (procs s') = items (procs s) ∧
       modules s' = modules s ∨
     l_execCnt (m_loop g') = S (l_execCnt (m_loop g)) ∧
       items (procs s') ≡ₚ LRun (l_phase (m_loop g)) n (l_chan (m_loop g)) :: items (procs s) ∧
       S (left_to_do (l_phase (m_loop g)) (view <$> modules s')) =
         left_to_do (l_phase (m_loop g)) (view <$> modules s)) →
    loop_effect s s' true
| le_report g g' n err its :
    mgmt s = Some g → l_todo (m_loop g) = [] → mgmt s' = Some g' →
    l_phase (m_loop g') = l_phase (m_loop g) → l_chan (m_loop g') = l_chan (m_loop g) →
    length (l_todo (m_loop g')) = size (modules s) → next_chan s' = next_chan s →
    modules s' = modules s → l_reportCnt (m_loop g') = S (l_reportCnt (m_loop g)) →
    l_execCnt (m_loop g') = l_execCnt (m_loop g) →
    items (procs s) ≡ₚ LSend n err (l_chan (m_loop g)) :: its → items (procs s') = its →
    loop_effect s s' true.

(** A loop action: a visit, or a report that does not end the loop. *)
Definition loop_event (ev : event) : bool :=
  match ev with EvVisit | EvReceive _ _ => true | _ => false end.

Lemma loop_effect_counted (s s' : ModSys) (b : bool) : loop_effect s s' b → counted s → counted s'.
Proof.
  intros He [Hf Hl]. destruct He as [Hm Hn Hp Hi _|Hm Hn Hi|g g' n rest Hg Ht Hg' Hph Hch Ht' Hn _ Hr Hor
    |g g' n err its Hg Ht Hg' Hph Hch Ht' Hn _ Hr Hx Hi Hi'].
  - split.
    + eapply Forall_impl; [done|]. simpl. lia.
    + intros g. rewrite Hm. intros [Hc Hb]%Hl. rewrite Hp. lia.
  - split.
    + eapply Forall_impl; [done|]. simpl. lia.
    + intros g (Hc & Hx & Hr & Hlt)%Hm. rewrite Hc, Hx, Hr. split; [done|]. simpl.
      by apply pending_none.
  - destruct (Hl g Hg) as [Hc Hb]. destruct Hor as [(Hx & Hi & _)|(Hx & Hi & _)].
    + split; rewrite Hi, ?Hn; [done|]. intros g''. rewrite Hg'. intros [= <-]. by rewrite Hch, Hr, Hx.
    + split; [rewrite Hi, Hn; by constructor|]. intros g''. rewrite Hg'. intros [= <-].
      rewrite Hch, Hr, Hx, Hn, Hi, pending_cons. simpl. rewrite decide_True by done. lia.
  - destruct (Hl g Hg) as [Hc Hb]. rewrite Hi in Hf, Hb. rewrite pending_cons in Hb. simpl in Hb.
    rewrite decide_True in Hb by done. split; [rewrite Hi', Hn; by inversion Hf|].
    intros g''. rewrite Hg'. intros [= <-]. rewrite Hch, Hr, Hx, Hn, Hi'. lia.
Qed.

(** The measure does not grow, and falls with every loop action. *)
Lemma loop_effect_measure (s s' : ModSys) (b : bool) (g g' : Mgmt) :
  loop_effect s s' b → modulesLocked s = true → mgmt s = Some g → mgmt s' = Some g' →
  l_chan (m_loop g') = l_chan (m_loop g) → (l_chan (m_loop g) < next_chan s)%nat →
  ((if b then 1 else 0) + loop_measure s' (m_loop g') ≤ loop_measure s (m_loop g))%nat ∧
  dom (modules s') = dom (modules s).
Proof.
  intros He Hlk Hg Hg' Hch Hfresh.
  assert (Hsize : dom (modules s') = dom (modules s) → size (modules s') = size (modules s)).
  { intros Hd. by rewrite <- !size_dom, Hd. }
  destruct He as [Hm Hn Hp _ Hd|Hm _ _|g0 g1 n rest Hg0 Ht Hg1 Hph _ Ht' _ Hdom _ Hor
    |g0 g1 n err its Hg0 Ht Hg1 Hph _ Ht' _ Hms _ _ Hi Hi']; unfold loop_measure.
  - rewrite Hm, Hg in Hg'. injection Hg' as <-. destruct (Hd Hlk) as [Hdom Hle]. split; [|done].
    rewrite Hp, (Hsize Hdom). specialize (Hle (l_phase (m_loop g))). simpl. nia.
  - destruct (Hm g' Hg') as [Hx _]. lia.
  - simplify_eq. split; [|done]. rewrite (Hsize Hdom), Hph, Hch, Ht. simpl.
    destruct Hor as [(_ & -> & ->)|(_ & -> & Hl)]; [lia|].
    rewrite pending_cons. simpl. rewrite decide_True by done. rewrite <- Hl. lia.
  - simplify_eq. split; [|by rewrite Hms]. rewrite Hms, Hph, Hch, Ht, Ht', Hi, pending_cons. simpl.
    rewrite decide_True by done. lia.
Qed.

Lemma quiet_loop_effect (s s' : ModSys) : counted s → quiet s s' → loop_effect s s' false.
Proof.
  intros [Hf _] [Hv Hi Hm _ _ Hn]. apply le_other; try done; rewrite ?Hi; try done.
  intros _. rewrite Hv. split; [|done]. assert (E := f_equal dom Hv). by rewrite !dom_fmap_L in E.
Qed.

(** Steps that touch neither the loop nor the goroutines nor a status. *)
Lemma plain_loop_effect (s s' : ModSys) :
  counted s → mgmt s' = mgmt s → next_chan s' = next_chan s → procs s' = procs s →
  (modulesLocked s = true → modules s' = modules s) → loop_effect s s' false.
Proof.
  intros [Hf _] Hm Hn Hp Hms. apply le_other; rewrite ?Hp, ?Hn; try done. intros Hl. by rewrite (Hms Hl).
Qed.

(** Statuses at the end of a phase do not make new work. *)
Lemma done_may_begin (ph ph' : phase) :
  may_begin ph (done_status ph') = true → may_begin ph (busy_status ph') = true.
Proof. by destruct ph, ph'. Qed.

Lemma run_loop_effect (i : nat) (c : choice) (s s' : ModSys) :
  wf s → counted s → step (EvRun i c) s = Ret s' → loop_effect s s' false.
Proof.
  intros Hwf [Hf _] Hs. simpl in Hs. destruct (procs s !! i) as [p|] eqn:Hi; [|done].
  assert (He := run_proc_effect i c p s Hwf Hi). rewrite Hs in He. destruct He as [He _].
  assert (Hit := abs_delete s i p Hi).
  destruct He as [Hp Hv Hfr|ph n ch Hp Hv Hfr|ph n ch err m Hp Hm Hv Hfr _ _|ph n ch e Hp _ Hv Hfr _];
    rewrite Hp in Hit; destruct Hfr as [Hi' Hmg _ _ Hnx]; simpl in *; apply le_other; try done.
  1, 4, 7, 10: intros ch'; rewrite Hi', Hit, ?pending_cons; done.
  1, 3, 5, 7: rewrite Hi'; rewrite Hit in Hf; try done; apply Forall_cons in Hf as [? ?]; by constructor.
  1, 2, 4: intros _; rewrite Hv; split; [|done]; assert (E := f_equal dom Hv); by rewrite !dom_fmap_L in E.
  intros _. assert (Hvn : (view <$> modules s) !! n = Some (view m)) by (by rewrite lookup_fmap, Hm). split.
  - assert (E := f_equal dom Hv). rewrite dom_insert_L, !dom_fmap_L in E. rewrite E.
    assert (n ∈ dom (modules s)) by by eapply elem_of_dom_2. set_solver.
  - intros ph'. rewrite Hv. assert (H := left_to_do_insert ph' (view <$> modules s) n (view m) (done_view ph m) Hvn).
    destruct (inv_runs _ (wf_inv s Hwf)) as [_ Hr]. destruct (Hr ph n) as (am & Ham & Hb); [simpl; rewrite Hit; left|].
    simpl in Ham. rewrite lookup_fmap, Hm in Ham. injection Ham as <-.
    change (v_status (view m)) with (a_status (abs_mod m)) in H. rewrite Hb in H.
    change (v_status (done_view ph m)) with (done_status ph) in H.
    assert (Hd := done_may_begin ph' ph).
    destruct (may_begin ph' (done_status ph)), (may_begin ph' (busy_status ph)); lia.
Qed.

(** Leaving the loop: a new loop has a new channel. *)
Definition leaves (s s' : ModSys) : Prop :=
  ∀ g, mgmt s' = Some g → l_chan (m_loop g) = next_chan s.

Lemma enter_loop_effect (j : job) (ph : phase) (e : option mod_error) (order : list string) (s s0 : ModSys) :
  counted s → next_chan s0 = next_chan s →
  Forall (λ it, item_chan it < next_chan s)%nat (items (procs s0)) →
  loop_effect s (enter_loop j ph e order s0) false ∧ leaves s (enter_loop j ph e order s0).
Proof.
  intros Hc Hn Hp. split.
  - apply le_leave; simpl; rewrite ?Hn; [|lia|done]. intros g [= <-]. simpl. rewrite Hn. split_and!; [done..|lia].
  - intros g [= <-]. simpl. by rewrite Hn.
Qed.

Lemma finish_effect (j : job) (e : option mod_error) (s s0 : ModSys) :
  next_chan s0 = next_chan s → Forall (λ it, item_chan it < next_chan s)%nat (items (procs s0)) →
  loop_effect s (finish j e s0) false ∧ leaves s (finish j e s0).
Proof. intros Hn Hp. split; [|done]. apply le_leave; simpl; rewrite ?Hn; done. Qed.

Lemma loop_return_effect (j : job) (ph : phase) (e r : option mod_error) (order : list string) (s s0 : ModSys) :
  counted s → next_chan s0 = next_chan s →
  Forall (λ it, item_chan it < next_chan s)%nat (items (procs s0)) →
  loop_effect s (loop_return j ph e r order s0) false ∧ leaves s (loop_return j ph e r order s0).
Proof.
  intros Hc Hn Hp. unfold loop_return. destruct j, ph, r; repeat case_match;
    first [by apply finish_effect | by apply enter_loop_effect].
Qed.

Lemma range_order_length (s : ModSys) (order : list string) :
  range_order s order = true → length order = size (modules s).
Proof.
  unfold range_order. rewrite bool_decide_eq_true. intros [Hnd Hd].
  by rewrite <- size_dom, <- Hd, size_list_to_set.
Qed.

Lemma visit_loop_effect (s s' : ModSys) : wf s → step EvVisit s = Ret s' → loop_effect s s' true.
Proof.
  intros Hwf Hs. simpl in Hs. destruct (mgmt s) as [[j l e]|] eqn:Hmg; [|done]. simpl in Hs.
  destruct (l_todo l) as [|n rest] eqn:Ht; [done|]. unfold loop_visit in Hs.
  destruct (modules s !! n) as [m|] eqn:Hn; [|done].
  destruct (ready (l_phase l) s m) eqn:Hr; simpl in Hs; injection Hs as <-.
  - eapply le_visit; simpl; try done. by left.
  - destruct (ready_guard _ _ _ Hr) as [Hst _].
    destruct (begin_phase_spec (l_phase l) (l_chan l) n m s Hst (proj1 (wf_good s Hwf) n m Hn))
      as (m' & -> & Hv & _).
    assert (n ∈ dom (modules s)) by by eapply elem_of_dom_2.
    eapply le_visit; simpl; try done; [rewrite dom_insert_L; set_solver|]. right. split_and!; [done| |].
    + unfold items. rewrite omap_app. simpl. by rewrite (comm (++)).
    + rewrite fmap_insert, Hv. assert (Hvn : (view <$> modules s) !! n = Some (view m)) by (by rewrite lookup_fmap, Hn).
      assert (H' := left_to_do_insert (l_phase l) (view <$> modules s) n (view m)
        (begin_view (l_phase l) (view m)) Hvn).
      change (v_status (view m)) with (status m) in H'. rewrite Hst in H'.
      change (v_status (begin_view (l_phase l) (view m))) with (busy_status (l_phase l)) in H'.
      unfold begin_view in H'. simpl in H'. simpl. destruct (l_phase l); simpl in *; lia.
  - eapply le_visit; simpl; try done. by left.
Qed.

Lemma receive_loop_effect (i : nat) (order : list string) (s s' : ModSys) :
  counted s → step (EvReceive i order) s = Ret s' →
  loop_effect s s' true ∨ loop_effect s s' false ∧ leaves s s'.
Proof.
  intros Hct Hs. simpl in Hs. destruct (mgmt s) as [g|] eqn:Hmg; [|done].
  destruct (procs s !! i) as [[| |n err ch| | | | ]|] eqn:Hi; try done.
  destruct (bool_decide _ && _) eqn:Hc; [|done]. apply andb_true_iff in Hc as [Hc Ho]. injection Hs as <-.
  apply bool_decide_eq_true in Hc as (Ht & Hlt & ->). assert (Hit := abs_delete s i _ Hi). simpl in Hit.
  destruct (loop_report n err order (m_loop g)) as [e|l'] eqn:Hr.
  - right. apply loop_return_effect; [done|done|]. simpl. assert (Hf := ct_fresh s Hct).
    rewrite Hit in Hf. by inversion Hf.
  - left. assert (l' = mkLoop (l_phase (m_loop g)) (l_chan (m_loop g)) order 0 (l_execCnt (m_loop g))
      (S (l_reportCnt (m_loop g))) (l_lastErr l')) as ->.
    { unfold loop_report in Hr. destruct (l_phase (m_loop g)), err; by simplify_eq. }
    eapply le_report; simpl; try done. by apply range_order_length.
Qed.

(** Every step does one of these things to the loop that runs. *)
Lemma step_loop_effect (ev : event) (s s' : ModSys) :
  wf s → counted s → step ev s = Ret s' →
  loop_effect s s' (loop_event ev) ∨ loop_effect s s' false ∧ leaves s s'.
Proof.
  intros Hwf Hct Hs. assert (Hf := ct_fresh s Hct). assert (Hg := wf_good s Hwf).
  destruct ev as [name p q r deps|fn| |n b|n st id title msg|n id|c n|i c|o|o|o| |i o|o]; cbn [loop_event].
  - left. simpl in Hs. unfold Modules_Register in Hs. destruct (modulesLocked s) eqn:Hl.
    { injection Hs as <-. by apply plain_loop_effect. }
    destruct (modules s !! name); [done|]. injection Hs as <-. apply plain_loop_effect; try done. congruence.
  - left. simpl in Hs. injection Hs as <-. unfold EnableModuleManagement. case_match; by apply plain_loop_effect.
  - left. simpl in Hs. injection Hs as <-. by apply plain_loop_effect.
  - left. simpl in Hs. unfold at_module, mod_module, on_module in Hs.
    destruct (modules s !! n) as [m|] eqn:Hn; [|done]. simpl in Hs. injection Hs as <-.
    apply le_other; simpl; try done. intros _. split.
    + assert (n ∈ dom (modules s)) by by eapply elem_of_dom_2. rewrite dom_insert_L. set_solver.
    + intros ph. rewrite fmap_insert.
      assert (H := left_to_do_insert ph (view <$> modules s) n (view m) (view (SetEnabled b m).1)).
      rewrite lookup_fmap, Hn in H. specialize (H eq_refl).
      assert (E : v_status (view (SetEnabled b m).1) = v_status (view m)) by (by destruct b).
      rewrite E in H. lia.
  - left. simpl in Hs. unfold at_module in Hs. destruct (modules s !! n) eqn:Hn; [|done].
    assert (H := setFailure_quiet st id title msg n s Hg ltac:(by eexists)). rewrite Hs in H.
    by apply quiet_loop_effect, H.
  - left. simpl in Hs. unfold at_module in Hs. destruct (modules s !! n) eqn:Hn; [|done].
    assert (H := Resolve_quiet id n s Hg ltac:(by eexists)). rewrite Hs in H. by apply quiet_loop_effect, H.
  - left. simpl in Hs. unfold at_module in Hs. destruct (modules s !! n) eqn:Hn; [|done]. injection Hs as <-.
    apply quiet_loop_effect; [done|]. apply spawn_quiet; [done|done|by eexists].
  - left. by eapply run_loop_effect.
  - simpl in Hs. destruct (modulesLocked s); [injection Hs as <-; left; by apply plain_loop_effect|].
    unfold lock_and in Hs. destruct (mgmt s); [done|]. destruct (range_order s o); [|done]. injection Hs as <-.
    right. unfold Start_begin. destruct (initDependencies o _) as [ms [e|]]; [by apply finish_effect|].
    repeat case_match; first [by apply finish_effect | by apply enter_loop_effect].
  - simpl in Hs. destruct (moduleMgmtEnabled s); [|injection Hs as <-; left; by apply plain_loop_effect].
    unfold lock_and in Hs. destruct (mgmt s); [done|]. destruct (range_order s o); [|done]. injection Hs as <-.
    right. by apply enter_loop_effect.
  - simpl in Hs. unfold lock_and in Hs. destruct (mgmt s); [done|]. destruct (range_order s o); [|done].
    injection Hs as <-. right. unfold Shutdown_begin. case_match; [by apply finish_effect|by apply enter_loop_effect].
  - left. by apply visit_loop_effect.
  - by eapply receive_loop_effect.
  - simpl in Hs. destruct (mgmt s) as [g|]; [|done]. destruct (bool_decide _ && _); [|done]. injection Hs as <-.
    right. by apply loop_return_effect.
Qed.

(** *** Runs *)

Lemma counted_initial (ready : bool) (su : startup) : counted (initial ready su).
Proof. split; [by constructor|done]. Qed.

Lemma step_counted (ev : event) (s s' : ModSys) : wf s → counted s → step ev s = Ret s' → counted s'.
Proof.
  intros Hwf Hct Hs. destruct (step_loop_effect ev s s' Hwf Hct Hs) as [He|[He _]]; by eapply loop_effect_counted.
Qed.

Lemma run_counted (evs : list event) (s s' : ModSys) :
  wf s → counted s → run evs s = Ret s' → wf s' ∧ counted s'.
Proof.
  revert s. induction evs as [|ev evs IH]; intros s Hwf Hct Hr; simpl in Hr; [by injection Hr as <-|].
  destruct (step ev s) as [s1| |] eqn:Hs; simpl in Hr; [|done|done].
  apply (IH s1); [by eapply step_wf|by eapply step_counted|done].
Qed.

Lemma step_next_chan (ev : event) (s s' : ModSys) :
  wf s → counted s → step ev s = Ret s' → (next_chan s ≤ next_chan s')%nat.
Proof.
  intros Hwf Hct Hs. destruct (step_loop_effect ev s s' Hwf Hct Hs) as [He|[He _]];
    destruct He; lia.
Qed.

(** The loop with channel [ch] is over. *)
Definition loop_gone (ch : nat) (s : ModSys) : Prop :=
  (ch < next_chan s)%nat ∧ ∀ g, mgmt s = Some g → l_chan (m_loop g) ≠ ch.

Lemma loop_gone_run (ch : nat) (evs : list event) (s s' : ModSys) :
  wf s → counted s → loop_gone ch s → run evs s = Ret s' → loop_gone ch s'.
Proof.
  revert s. induction evs as [|ev evs IH]; intros s Hwf Hct Hg Hr; simpl in Hr; [by injection Hr as <-|].
  destruct (step ev s) as [s1| |] eqn:Hs; simpl in Hr; [|done|done].
  apply (IH s1); [by eapply step_wf|by eapply step_counted| |done]. destruct Hg as [Hlt Hg].
  assert (Hle := step_next_chan ev s s1 Hwf Hct Hs). split; [lia|]. intros g Hg1.
  destruct (step_loop_effect ev s s1 Hwf Hct Hs) as [He|[_ Hl]]; [|rewrite (Hl g Hg1); lia].
  destruct He as [Hm|Hm|g0 g1 n rest Hg0 _ Hg0' _ Hch|g0 g1 n err its Hg0 _ Hg0' _ Hch].
  - apply Hg. by rewrite <- Hm.
  - destruct (Hm g Hg1) as [-> _]. lia.
  - simplify_eq. rewrite Hch. by apply Hg.
  - simplify_eq. rewrite Hch. by apply Hg.
Qed.

Lemma step_locked (ev : event) (s s' : ModSys) :
  wf s → modulesLocked s = true → step ev s = Ret s' → modulesLocked s' = true.
Proof.
  intros Hwf Hl Hs. assert (Hg := wf_good s Hwf).
  destruct ev as [name p q r deps|fn| |n b|n st id title msg|n id|c n|i c|o|o|o| |i o|o]; simpl in Hs.
  - unfold Modules_Register in Hs. rewrite Hl in Hs. by injection Hs as <-.
  - injection Hs as <-. unfold EnableModuleManagement. by case_match.
  - by injection Hs as <-.
  - unfold at_module, mod_module, on_module in Hs. destruct (modules s !! n); [|done]. by injection Hs as <-.
  - unfold at_module in Hs. destruct (modules s !! n) eqn:Hn; [|done].
    assert (H := setFailure_quiet st id title msg n s Hg ltac:(by eexists)). rewrite Hs in H.
    assert (Hf := q_flags _ _ (proj1 H)). congruence.
  - unfold at_module in Hs. destruct (modules s !! n) eqn:Hn; [|done].
    assert (H := Resolve_quiet id n s Hg ltac:(by eexists)). rewrite Hs in H.
    assert (Hf := q_flags _ _ (proj1 H)). congruence.
  - unfold at_module in Hs. destruct (modules s !! n) eqn:Hn; [|done]. by injection Hs as <-.
  - destruct (procs s !! i) as [p|] eqn:Hi; [|done].
    assert (He := run_proc_effect i c p s Hwf Hi). rewrite Hs in He. destruct He as [He _].
    by destruct (effect_astep c p i s s' Hi He) as (_ & _ & _ & -> & _).
  - rewrite Hl in Hs. by injection Hs as <-.
  - case_match; [|by injection Hs as <-]. unfold lock_and in Hs. repeat case_match; simplify_eq. done.
  - unfold lock_and, Shutdown_begin in Hs. repeat case_match; simplify_eq; done.
  - unfold loop_visit in Hs. repeat case_match; simplify_eq; simpl in *; simplify_eq; simpl; try done.
    all: destruct (l_phase (m_loop _)); simpl; unfold Module_prep, Module_start, Module_stop; by case_match.
  - repeat case_match; simplify_eq; simpl; try done. all: unfold loop_return; repeat case_match; done.
  - repeat case_match; simplify_eq. unfold loop_return; repeat case_match; done.
Qed.

(** Loop actions of a run that stays in the loop are bounded by the measure at
    its beginning. *)
Lemma loop_bound (evs : list event) (s s' : ModSys) (g g' : Mgmt) :
  wf s → counted s → modulesLocked s = true → mgmt s = Some g → run evs s = Ret s' →
  mgmt s' = Some g' → l_chan (m_loop g') = l_chan (m_loop g) →
  (length (filter (λ ev, loop_event ev = true) evs) + loop_measure s' (m_loop g') ≤
   loop_measure s (m_loop g))%nat.
Proof.
  revert s g. induction evs as [|ev evs IH]; intros s g Hwf Hct Hl Hg Hr Hg' Hch; simpl in Hr.
  { injection Hr as <-. simplify_eq. simpl. lia. }
  destruct (step ev s) as [s1| |] eqn:Hs; simpl in Hr; [|done|done].
  destruct (step_wf _ _ _ Hwf Hs) as [Hwf1 _]. assert (Hct1 := step_counted _ _ _ Hwf Hct Hs).
  assert (Hl1 := step_locked _ _ _ Hwf Hl Hs). destruct (ct_loop s Hct g Hg) as [Hlt _].
  assert (Hle := step_next_chan _ _ _ Hwf Hct Hs).
  assert (Hsame : ∃ g1, mgmt s1 = Some g1 ∧ l_chan (m_loop g1) = l_chan (m_loop g)).
  { destruct (mgmt s1) as [g1|] eqn:Hg1.
    - destruct (decide (l_chan (m_loop g1) = l_chan (m_loop g))) as [|Hne]; [eauto|]. exfalso.
      destruct (loop_gone_run (l_chan (m_loop g)) evs s1 s') as [_ Hx]; [done|done| |done|by apply (Hx g' Hg')].
      split; [lia|]. intros g2 ?. by simplify_eq.
    - exfalso. destruct (loop_gone_run (l_chan (m_loop g)) evs s1 s') as [_ Hx]; [done|done| |done|by apply (Hx g' Hg')].
      split; [lia|]. intros g2 ?. by simplify_eq. }
  destruct Hsame as (g1 & Hg1 & Hch1).
  destruct (step_loop_effect ev s s1 Hwf Hct Hs) as [He|[_ Hlv]]; [|rewrite (Hlv g1 Hg1) in Hch1; lia].
  destruct (loop_effect_measure s s1 _ g g1 He Hl Hg Hg1 Hch1 Hlt) as [Hm _].
  specialize (IH s1 g1 Hwf1 Hct1 Hl1 Hg1 Hr Hg' ltac:(congruence)).
  rewrite filter_cons. case_decide; destruct (loop_event ev); simpl in *; try done; lia.
Qed.

Lemma loop_measure_entry (s : ModSys) (g : Mgmt) :
  wf s → mgmt s = Some g → l_execCnt (m_loop g) = 0%nat → counted s →
  (length (l_todo (m_loop g)) ≤ size (modules s))%nat →
  (loop_measure s (m_loop g) ≤ size (modules s) * (size (modules s) + 3))%nat.
Proof.
  intros Hwf Hg Hx Hct Ht. destruct (ct_loop s Hct g Hg) as [_ Hb]. unfold loop_measure.
  assert (Hp : pending (l_chan (m_loop g)) (items (procs s)) = 0%nat) by lia. rewrite Hp.
  assert (Hle : (left_to_do (l_phase (m_loop g)) (view <$> modules s) ≤ size (modules s))%nat).
  { unfold left_to_do. rewrite <- (map_size_fmap view (modules s)). apply map_subseteq_size, map_filter_subseteq. }
  nia.
Qed.

(** A call of Start after the set-up, from its beginning to any later state. *)
Lemma Start_run (C : Prop) (rank : string → nat) (ready : bool) (su : startup) (evs0 evs : list event)
    (order : list string) (s0 s : ModSys) :
  Forall setup_event evs0 → run evs0 (initial ready su) = Ret s0 →
  (C → setup_fine su ∧ declared_registered (modules s0) ∧ declared_ranked rank (modules s0)) →
  Forall undisturbed evs → (C → Forall event_clean evs) → run (EvStart order :: evs) s0 = Ret s →
  jstate C rank [] s.
Proof.
  intros Hev0 Hr0 HC Hev Hcl Hr. destruct (run_wf _ _ _ (wf_initial ready su) Hr0) as [Hwf0 _].
  assert (Hb := before_start_run su evs0 _ s0 (before_start_initial ready su) Hev0 Hr0).
  cbn [run] in Hr. destruct (step (EvStart order) s0) as [s1| |] eqn:Hs; simpl in Hr; [|done|done].
  destruct (step_wf _ _ _ Hwf0 Hs) as [Hwf1 _].
  by destruct (jstate_run C rank [] evs s1 s Hwf1 (jstate_begin C rank su order s0 s1 Hwf0 Hb HC Hs) Hev Hcl Hr).
Qed.

(** *** Progress *)

Definition enabled_step {A : Type} (r : go disabled A) : Prop := ∀ e, r ≠ Fail e.

Lemma enabled_bind {A B : Type} (r : go disabled A) (k : A → go disabled B) :
  enabled_step r → (∀ a, enabled_step (k a)) → enabled_step (go_bind r k).
Proof. intros Hr Hk e. destruct r; simpl; [apply Hk|by destruct (Hr e0)|done]. Qed.

Lemma enabled_Ret {A : Type} (a : A) : enabled_step (Ret a : go disabled A).
Proof. done. Qed.

Lemma checkIfStopComplete_enabled (m : GoModule) : enabled_step (checkIfStopComplete m).
Proof.
  unfold checkIfStopComplete. repeat case_match; try apply enabled_Ret.
  apply enabled_bind; [|done]. by destruct (stopComplete m).
Qed.

Lemma on_module_enabled (n : string) (f : GoModule → go disabled GoModule) (s : ModSys) :
  (∀ m, enabled_step (f m)) → enabled_step (on_module n f s).
Proof. intros Hf. unfold on_module. case_match; [|done]. apply enabled_bind; [apply Hf|done]. Qed.

Lemma setFailure_enabled (st : Z) (id title msg n : string) (s : ModSys) :
  enabled_step (setFailure st id title msg n s).
Proof.
  unfold setFailure. case_match; [|done]. case_match; [|done]. apply on_module_enabled, checkIfStopComplete_enabled.
Qed.

Lemma startCtrlFn_enabled (fn : bool) (n : string) (s : ModSys) : enabled_step (startCtrlFn fn n s).
Proof.
  unfold startCtrlFn. destruct fn; (apply enabled_bind; [apply on_module_enabled|done]); intros m; [done|].
  apply checkIfStopComplete_enabled.
Qed.

Lemma Resolve_enabled (id n : string) (s : ModSys) : enabled_step (Resolve id n s).
Proof. unfold Resolve. by repeat case_match. Qed.

Lemma prep_end_enabled (n : string) (err : option mod_error) (ch : nat) (s : ModSys) :
  enabled_step (prep_end n err ch s).
Proof.
  unfold prep_end. apply enabled_bind; [|done]. case_match; [apply setFailure_enabled|].
  apply enabled_bind; [by apply on_module_enabled|done].
Qed.

Lemma start_end_enabled (n : string) (err : option mod_error) (ch : nat) (s : ModSys) :
  enabled_step (start_end n err ch s).
Proof.
  unfold start_end. apply enabled_bind; [|done]. case_match; [apply setFailure_enabled|].
  apply enabled_bind; [apply on_module_enabled|done]. intros m. apply enabled_bind; [|done].
  by destruct (startComplete m).
Qed.

Lemma stop_end_enabled (n : string) (err : option mod_error) (ch : nat) (s : ModSys) :
  enabled_step (stopAllTasks_end n err ch s).
Proof.
  unfold stopAllTasks_end. apply enabled_bind; [case_match; [apply setFailure_enabled|done]|]. intros s1.
  apply enabled_bind; [by apply on_module_enabled|]. intros s2. apply enabled_bind; [apply Resolve_enabled|done].
Qed.

(** A goroutine of the life cycle can always go on, if need be by its
    timeout. *)
Lemma run_proc_enabled (p : proc) (ph : phase) (n : string) (ch : nat) (s : ModSys) :
  item_of p = Some (LRun ph n ch) → enabled_step (run_proc p ChTimeout s).
Proof.
  intros Hp. destruct p as [[] ? ?|[] ? ? k| | | | | ]; try done; cbn [run_proc].
  - case_match; [|done]. case_match; [|apply prep_end_enabled].
    apply enabled_bind; [apply startCtrlFn_enabled|done].
  - case_match; [|done]. case_match; [|apply start_end_enabled].
    apply enabled_bind; [apply startCtrlFn_enabled|done].
  - unfold stopAllTasks_begin. apply enabled_bind; [by apply on_module_enabled|]. intros s1.
    apply enabled_bind; [apply startCtrlFn_enabled|done].
  - apply prep_end_enabled.
  - apply start_end_enabled.
  - unfold await_stop. case_match; [|done]. rewrite orb_true_r. apply stop_end_enabled.
Qed.

Lemma range_order_elements (s : ModSys) : range_order s (elements (dom (modules s))) = true.
Proof.
  unfold range_order. apply bool_decide_eq_true. split; [apply NoDup_elements|apply list_to_set_elements_L].
Qed.

Lemma pending_some (ch : nat) (its : list item) :
  (0 < pending ch its)%nat → ∃ it, it ∈ its ∧ item_chan it = ch.
Proof.
  unfold pending. destruct (filter _ its) as [|it r] eqn:E; [simpl; lia|]. intros _.
  exists it. assert (H : it ∈ filter (λ it, item_chan it = ch) its) by (rewrite E; left).
  by apply list_elem_of_filter in H as [? ?].
Qed.

(** The events of the thread that holds mgmtLock and of the goroutines. *)
Definition own_event (ev : event) : Prop :=
  match ev with EvVisit | EvReceive _ _ | EvReturn _ | EvRun _ _ => True | _ => False end.

Lemma loop_can_go_on (s : ModSys) (g : Mgmt) :
  wf s → counted s → mgmt s = Some g → ∃ ev s', own_event ev ∧ step ev s = Ret s'.
Proof.
  intros Hwf Hct Hg. set (l := m_loop g).
  assert (Hgo : ∀ ev, own_event ev → enabled_step (step ev s) → ∃ ev s', own_event ev ∧ step ev s = Ret s').
  { intros ev Hev Hen. assert (H := step_sim ev s Hwf ltac:(intros; by subst)). unfold simulated in H.
    destruct (step ev s) as [s'|e|] eqn:E; [by exists ev, s'|by destruct (Hen e)|done]. }
  destruct (l_todo l) as [|n rest] eqn:Ht.
  2:{ apply (Hgo EvVisit); [done|]. simpl. rewrite Hg. fold l. rewrite Ht. apply enabled_bind; [|done].
      unfold loop_visit. destruct (modules s !! n); [|done]. by case_match. }
  assert (Ho := range_order_elements s). set (order := elements (dom (modules s))) in *.
  destruct (decide (l_execCnt l ≤ l_reportCnt l)%nat) as [Hle|Hgt].
  { apply (Hgo (EvReturn order)); [done|]. simpl. rewrite Hg. fold l. rewrite bool_decide_eq_true_2, Ho by done. done. }
  destruct (ct_loop s Hct g Hg) as [_ Hb]. fold l in Hb.
  destruct (pending_some (l_chan l) (items (procs s))) as (it & Hin & Hch); [lia|].
  unfold items in Hin. apply list_elem_of_omap in Hin as (p & Hp & Hit).
  apply list_elem_of_lookup in Hp as (i & Hi). destruct it as [ph n ch|n err ch]; simpl in Hch; subst ch.
  - apply (Hgo (EvRun i ChTimeout)); [done|]. simpl. rewrite Hi. by eapply run_proc_enabled.
  - destruct p; simplify_eq/=. apply (Hgo (EvReceive i order)); [done|]. simpl. rewrite Hg, Hi. fold l.
    rewrite bool_decide_eq_true_2, Ho by (split_and!; [done|lia|done]). done.
Qed.

(** *** Termination of the program's own steps *)

(** What a goroutine may still do, the goroutines it starts included. *)
Definition proc_weight (p : proc) : nat :=
  match p with
  | PBegin _ _ _ => 20
  | PWait _ _ _ _ => 12
  | PSend _ _ _ => 0
  | PCtrl _ _ | PJobStart _ _ _ => 2
  | PCtrlEnd _ | PJobRun _ _ _ => 1
  end.

Definition weight : list proc → nat := sum_list_with proc_weight.

(** Loops the call has still to run, the current one included. *)
Definition loops_left (j : job) (ph : phase) : nat :=
  match j, ph with JobStart, PhPrep => 2 | JobManage, PhStop => 2 | _, _ => 1 end.

Definition own_measure (s : ModSys) : nat :=
  weight (procs s) +
  match mgmt s with
  | Some g =>
      21 * loop_measure s (m_loop g) +
      loops_left (m_job g) (l_phase (m_loop g)) * (21 * (size (modules s) * (size (modules s) + 3)) + 1)
  | None => 0
  end.

Lemma weight_app (ps qs : list proc) : weight (ps ++ qs) = (weight ps + weight qs)%nat.
Proof. apply sum_list_with_app. Qed.

Lemma weight_delete (ps : list proc) (i : nat) (p : proc) :
  ps !! i = Some p → weight ps = (proc_weight p + weight (delete i ps))%nat.
Proof. intros Hi. unfold weight. by rewrite (delete_Permutation _ _ _ Hi) at 1. Qed.

Lemma weight_spawn (p : proc) (s : ModSys) : weight (procs (spawn p s)) = (weight (procs s) + proc_weight p)%nat.
Proof. unfold spawn. simpl. rewrite weight_app. unfold weight at 2. simpl. lia. Qed.

(** *** What the helpers may start *)

(** [r] starts goroutines of weight at most [w]. *)
Definition grows {A : Type} (st : A → ModSys) (r : go disabled A) (s : ModSys) (w : nat) : Prop :=
  ∀ a, r = Ret a → (weight (procs (st a)) ≤ weight (procs s) + w)%nat.

Lemma grows_bind {A B : Type} (stA : A → ModSys) (stB : B → ModSys) (r : go disabled A)
    (k : A → go disabled B) (s : ModSys) (w1 w2 : nat) :
  grows stA r s w1 → (∀ a, grows stB (k a) (stA a) w2) → grows stB (go_bind r k) s (w1 + w2).
Proof.
  intros Hr Hk b Hb. destruct r as [a| |]; simpl in Hb; [|done|done].
  specialize (Hr a eq_refl). specialize (Hk a b Hb). lia.
Qed.

Lemma on_module_grows (n : string) (f : GoModule → go disabled GoModule) (s : ModSys) :
  grows id (on_module n f s) s 0.
Proof.
  intros s' Hs. unfold on_module in Hs. destruct (modules s !! n); [|done].
  destruct (f g); simpl in Hs; [|done|done]. injection Hs as <-. simpl. lia.
Qed.

Lemma notifyOfChange_weight (n : string) (s : ModSys) :
  (weight (procs (notifyOfChange n s)) ≤ weight (procs s) + 2)%nat.
Proof. unfold notifyOfChange, StartWorker. case_match; [rewrite weight_spawn; simpl|]; lia. Qed.

Lemma setFailure_grows (st : Z) (id' title msg n : string) (s : ModSys) :
  grows id (setFailure st id' title msg n s) s 2.
Proof.
  unfold setFailure. destruct (modules s !! n) as [m|]; [|done].
  set (s1 := put_modules _ s). assert (H := notifyOfChange_weight n s1).
  case_match; [|intros s' [= <-]; exact H]. intros s' Hs.
  apply on_module_grows in Hs. simpl in *. lia.
Qed.

Lemma Resolve_grows (id' n : string) (s : ModSys) : grows id (Resolve id' n s) s 4.
Proof.
  unfold Resolve. destruct (modules s !! n) as [m|]; [|done]. case_match; [intros s' [= <-]; simpl; lia|].
  set (s1 := put_modules _ s). assert (H0 := notifyOfChange_weight n s1). intros s' [= <-]. simpl in *.
  unfold StartWorker. case_match; [rewrite weight_spawn; simpl|]; lia.
Qed.

Lemma startCtrlFn_grows (fn : bool) (n : string) (s : ModSys) :
  grows fst (startCtrlFn fn n s) s 2.
Proof.
  unfold startCtrlFn. set (s1 := put_next_chan _ s). change (procs s) with (procs s1).
  destruct fn.
  - apply (grows_bind id fst _ _ s1 0 2); [apply on_module_grows|]. intros s2 sk [= <-]. simpl.
    rewrite weight_app. unfold weight at 2. simpl. lia.
  - apply (grows_bind id fst _ _ s1 0 2); [apply on_module_grows|]. intros s2 sk [= <-]. simpl. lia.
Qed.

Lemma prep_end_grows (n : string) (err : option mod_error) (ch : nat) (s : ModSys) :
  grows id (prep_end n err ch s) s 2.
Proof.
  unfold prep_end. apply (grows_bind id id _ _ s 2 0).
  - case_match; [apply setFailure_grows|]. apply (grows_bind id id _ _ s 0 2); [apply on_module_grows|].
    intros s1 s2 [= <-]. apply notifyOfChange_weight.
  - intros s1 s2 [= <-]. simpl. rewrite weight_app. unfold weight at 2. simpl. lia.
Qed.

Lemma start_end_grows (n : string) (err : option mod_error) (ch : nat) (s : ModSys) :
  grows id (start_end n err ch s) s 2.
Proof.
  unfold start_end. apply (grows_bind id id _ _ s 2 0).
  - case_match; [apply setFailure_grows|]. apply (grows_bind id id _ _ s 0 2); [apply on_module_grows|].
    intros s1 s2 [= <-]. apply notifyOfChange_weight.
  - intros s1 s2 [= <-]. simpl. rewrite weight_app. unfold weight at 2. simpl. lia.
Qed.

Lemma stop_end_grows (n : string) (err : option mod_error) (ch : nat) (s : ModSys) :
  grows id (stopAllTasks_end n err ch s) s 8.
Proof.
  unfold stopAllTasks_end. apply (grows_bind id id _ _ s 2 6).
  { case_match; [apply setFailure_grows|]. intros s' [= <-]. simpl. lia. }
  intros s1. apply (grows_bind id id _ _ s1 0 6); [apply on_module_grows|].
  intros s2. simpl. assert (H := notifyOfChange_weight n s2).
  intros s' Hs. destruct (Resolve "" n (notifyOfChange n s2)) as [s3| |] eqn:E; simpl in Hs; [|done|done].
  apply Resolve_grows in E. injection Hs as <-. simpl in *. rewrite weight_app. unfold weight at 2. simpl. lia.
Qed.

Lemma wait_grows (ph : phase) (fn : bool) (n : string) (ch : nat) (s : ModSys) :
  grows id (let! sk := startCtrlFn fn n s in Ret (spawn (PWait ph n ch sk.2) sk.1)) s 14.
Proof.
  apply (grows_bind fst id _ _ s 2 12); [apply startCtrlFn_grows|]. intros sk s' [= <-]. simpl.
  rewrite weight_app. unfold weight at 2. simpl. lia.
Qed.

Lemma grows_mono {A : Type} (st : A → ModSys) (r : go disabled A) (s : ModSys) (w w' : nat) :
  grows st r s w → (w ≤ w')%nat → grows st r s w'.
Proof. intros H Hw a Ha. specialize (H a Ha). lia. Qed.

(** Every action of a goroutine uses up some of its weight. *)
Lemma run_proc_grows (p : proc) (c : choice) (s : ModSys) :
  grows id (run_proc p c s) s (Nat.pred (proc_weight p)).
Proof.
  destruct p as [[] n ch|[] n ch k|n err ch|n k|n|cnt n w|cnt n w]; cbn [run_proc proc_weight Nat.pred].
  - destruct (modules s !! n) as [m|]; [|done]. destruct (prepFn m).
    + eapply grows_mono; [apply wait_grows|lia].
    + eapply grows_mono; [apply prep_end_grows|lia].
  - destruct (modules s !! n) as [m|]; [|done]. destruct (startFn m).
    + eapply grows_mono; [apply wait_grows|lia].
    + eapply grows_mono; [apply start_end_grows|lia].
  - unfold stopAllTasks_begin. eapply grows_mono.
    + apply (grows_bind id id _ _ s 0 14); [apply on_module_grows|]. intros s1. apply wait_grows.
    + lia.
  - destruct (await_ctrl k c s); [|done|done]. eapply grows_mono; [apply prep_end_grows|lia].
  - destruct (await_ctrl k c s); [|done|done]. eapply grows_mono; [apply start_end_grows|lia].
  - destruct (await_stop n k c s); [|done|done]. eapply grows_mono; [apply stop_end_grows|lia].
  - done.
  - destruct c; [done|done|]. intros s' [= <-]. simpl. rewrite weight_app. unfold weight at 2. simpl. lia.
  - apply on_module_grows.
  - unfold RunWorker_begin. apply (grows_bind id id _ _ s 0 1); [apply on_module_grows|].
    intros s1 s2 [= <-]. simpl. rewrite weight_app. unfold weight at 2. simpl. lia.
  - unfold RunWorker_end. intros s' Hs. apply on_module_grows in Hs. simpl in *. by destruct w.
Qed.

Lemma left_to_do_size (ph : phase) (ms : gmap string GoModule) :
  (left_to_do ph (view <$> ms) ≤ size ms)%nat.
Proof.
  unfold left_to_do. rewrite <- (map_size_fmap view ms). apply map_subseteq_size, map_filter_subseteq.
Qed.

(** A new loop costs at most one of the loops that were left. *)
Lemma enter_loop_measure (j : job) (ph : phase) (e : option mod_error) (order : list string) (s : ModSys) :
  Forall (λ it, item_chan it < next_chan s)%nat (items (procs s)) → length order = size (modules s) →
  (own_measure (enter_loop j ph e order s) ≤ weight (procs s) +
   21 * (size (modules s) * (size (modules s) + 3)) +
   loops_left j ph * (21 * (size (modules s) * (size (modules s) + 3)) + 1))%nat.
Proof.
  intros Hf Ho. unfold own_measure, enter_loop, loop_measure. simpl.
  rewrite (pending_none _ _ Hf), Ho. assert (H := left_to_do_size ph (modules s)). nia.
Qed.

Lemma tree_size (order : list string) (ms : gmap string GoModule) :
  size (buildEnabledTree order ms) = size ms.
Proof.
  rewrite <- (map_size_fmap depNames (buildEnabledTree order ms)), buildEnabledTree_other by done.
  by rewrite map_size_fmap.
Qed.

Lemma loop_return_measure (j : job) (ph : phase) (e r : option mod_error) (order : list string) (s : ModSys) :
  Forall (λ it, item_chan it < next_chan s)%nat (items (procs s)) → length order = size (modules s) →
  (own_measure (loop_return j ph e r order s) < weight (procs s) +
   loops_left j ph * (21 * (size (modules s) * (size (modules s) + 3)) + 1))%nat.
Proof.
  intros Hf Ho.
  assert (Hfin : ∀ j' e' s', procs s' = procs s →
    (own_measure (finish j' e' s') < weight (procs s) +
     loops_left j ph * (21 * (size (modules s) * (size (modules s) + 3)) + 1))%nat).
  { intros j' e' s' Hp. unfold own_measure, finish. simpl. rewrite Hp. destruct j, ph; simpl; lia. }
  unfold loop_return. destruct j, ph, r; try (by apply Hfin); repeat case_match; try (by apply Hfin).
  all: eapply Nat.le_lt_trans; [apply enter_loop_measure; simpl; rewrite ?tree_size; done|].
  all: simpl; rewrite ?tree_size; lia.
Qed.

Lemma begin_phase_weight (ph : phase) (ch : nat) (n : string) (m : GoModule) (s : ModSys) :
  (weight (procs (begin_phase ph ch n m s)) ≤ weight (procs s) + 20)%nat.
Proof.
  destruct ph; simpl; unfold Module_prep, Module_start, Module_stop; case_match; rewrite weight_spawn; simpl; lia.
Qed.

Lemma visit_weight (s s' : ModSys) : step EvVisit s = Ret s' →
  (weight (procs s') ≤ weight (procs s) + 20)%nat ∧
  ∃ g g', mgmt s = Some g ∧ mgmt s' = Some g' ∧ m_job g' = m_job g.
Proof.
  simpl. destruct (mgmt s) as [[j l e]|]; [|done]. simpl. destruct (l_todo l) as [|n rest]; [done|].
  unfold loop_visit. destruct (modules s !! n) as [m|]; [|done].
  destruct (ready (l_phase l) s m); simpl; intros [= <-]; simpl; (split; [|by eexists _, _]); try lia.
  apply begin_phase_weight.
Qed.

(** A step that stays in the loop. *)
Lemma same_loop_measure (s s' : ModSys) (b : bool) (g g' : Mgmt) (w : nat) :
  counted s → modulesLocked s = true → loop_effect s s' b → mgmt s = Some g → mgmt s' = Some g' →
  l_chan (m_loop g') = l_chan (m_loop g) → l_phase (m_loop g') = l_phase (m_loop g) →
  m_job g' = m_job g → (weight (procs s') ≤ weight (procs s) + w)%nat →
  (own_measure s' + (if b then 21 else 0) + weight (procs s) ≤ own_measure s + weight (procs s'))%nat.
Proof.
  intros Hct Hl He Hg Hg' Hch Hph Hj Hw.
  destruct (loop_effect_measure s s' b g g' He Hl Hg Hg' Hch (proj1 (ct_loop s Hct g Hg))) as [Hm Hd].
  assert (Hs : size (modules s') = size (modules s)) by (by rewrite <- !size_dom, Hd).
  unfold own_measure. rewrite Hg, Hg', Hj, Hph, Hs. destruct b; lia.
Qed.

Lemma own_run_measure (i : nat) (c : choice) (s s' : ModSys) :
  wf s → counted s → modulesLocked s = true → step (EvRun i c) s = Ret s' →
  (own_measure s' < own_measure s)%nat.
Proof.
  intros Hwf Hct Hl Hs. assert (He := run_loop_effect i c s s' Hwf Hct Hs). simpl in Hs.
  destruct (procs s !! i) as [p|] eqn:Hi; [|done]. assert (Hd := weight_delete _ _ _ Hi).
  assert (Hp := run_proc_effect i c p s Hwf Hi). rewrite Hs in Hp. destruct Hp as [Hp _].
  destruct (effect_astep c p i s s' Hi Hp) as (_ & _ & Hmg & _ & _).
  apply run_proc_grows in Hs as Hw. simpl in Hw.
  assert (Hpos : (0 < proc_weight p)%nat) by (destruct p; simpl in *; try lia; done).
  destruct (mgmt s) as [g|] eqn:Hg.
  - assert (H := same_loop_measure s s' false g g 0 Hct Hl He Hg Hmg eq_refl eq_refl eq_refl ltac:(lia)).
    simpl in H. lia.
  - unfold own_measure. rewrite Hg, Hmg. lia.
Qed.

Lemma own_receive_measure (i : nat) (order : list string) (s s' : ModSys) :
  counted s → step (EvReceive i order) s = Ret s' → (own_measure s' < own_measure s)%nat.
Proof.
  intros Hct Hs. simpl in Hs. destruct (mgmt s) as [g|] eqn:Hg; [|done].
  destruct (procs s !! i) as [[| |n err ch| | | | ]|] eqn:Hi; try done.
  destruct (bool_decide _ && _) eqn:Hc; [|done]. apply andb_true_iff in Hc as [Hc Ho]. injection Hs as <-.
  apply bool_decide_eq_true in Hc as (Ht & Hlt & ->). assert (Hit := abs_delete s i _ Hi). simpl in Hit.
  assert (Hd := weight_delete _ _ _ Hi). simpl in Hd.
  assert (Hlen := range_order_length s order Ho). assert (Hf := ct_fresh s Hct). rewrite Hit in Hf.
  apply Forall_cons in Hf as [_ Hf]. destruct (loop_report n err order (m_loop g)) as [e|l'] eqn:Hr.
  - eapply Nat.lt_le_trans; [apply loop_return_measure; done|]. simpl. unfold own_measure. rewrite Hg. lia.
  - assert (l' = mkLoop (l_phase (m_loop g)) (l_chan (m_loop g)) order 0 (l_execCnt (m_loop g))
      (S (l_reportCnt (m_loop g))) (l_lastErr l')) as ->.
    { unfold loop_report in Hr. destruct (l_phase (m_loop g)), err; by simplify_eq. }
    unfold own_measure, loop_measure. rewrite Hg. simpl. rewrite Hlen, Ht, Hit, pending_cons. simpl.
    rewrite decide_True by done. lia.
Qed.

Lemma own_step_measure (ev : event) (s s' : ModSys) :
  wf s → counted s → modulesLocked s = true → own_event ev → step ev s = Ret s' →
  (own_measure s' < own_measure s)%nat.
Proof.
  intros Hwf Hct Hl Hown Hs. destruct ev as [| | | | | | |i c| | | | |i order|order]; try done.
  - by eapply own_run_measure.
  - assert (He := visit_loop_effect s s' Hwf Hs). destruct (visit_weight s s' Hs) as (Hw & g & g' & Hg & Hg' & Hj).
    assert (Hx : l_chan (m_loop g') = l_chan (m_loop g) ∧ l_phase (m_loop g') = l_phase (m_loop g)).
    { inversion He; simplify_eq; done. }
    assert (H := same_loop_measure s s' true g g' 20 Hct Hl He Hg Hg' (proj1 Hx) (proj2 Hx) Hj Hw). simpl in H. lia.
  - by eapply own_receive_measure.
  - simpl in Hs. destruct (mgmt s) as [g|] eqn:Hg; [|done].
    destruct (bool_decide _ && _) eqn:Hc; [|done]. apply andb_true_iff in Hc as [_ Ho]. injection Hs as <-.
    eapply Nat.lt_le_trans; [apply loop_return_measure; [apply (ct_fresh s Hct)|by apply range_order_length]|].
    unfold own_measure. rewrite Hg. lia.
Qed.

Lemma own_run_bound (evs : list event) (s s' : ModSys) :
  wf s → counted s → modulesLocked s = true → Forall own_event evs → run evs s = Ret s' →
  (length evs + own_measure s' ≤ own_measure s)%nat.
Proof.
  revert s. induction evs as [|ev evs IH]; intros s Hwf Hct Hl Ho Hr; cbn [run] in Hr.
  { injection Hr as <-. simpl. lia. }
  destruct (step ev s) as [s1| |] eqn:Hs; simpl in Hr; [|done|done]. apply Forall_cons in Ho as [Hev Ho].
  assert (H1 := own_step_measure ev s s1 Hwf Hct Hl Hev Hs).
  specialize (IH s1 ltac:(by eapply step_wf) ltac:(by eapply step_counted) ltac:(by eapply step_locked) Ho Hr).
  simpl. lia.
Qed.

Lemma own_run_ends (k : nat) (s : ModSys) :
  wf s → counted s → modulesLocked s = true → (own_measure s < k)%nat →
  ∃ evs s', Forall own_event evs ∧ run evs s = Ret s' ∧ mgmt s' = None.
Proof.
  revert s. induction k as [|k IH]; intros s Hwf Hct Hl Hk; [lia|].
  destruct (mgmt s) as [g|] eqn:Hg; [|exists [], s; by split_and!].
  destruct (loop_can_go_on s g Hwf Hct Hg) as (ev & s1 & Hev & Hs).
  assert (H1 := own_step_measure ev s s1 Hwf Hct Hl Hev Hs).
  destruct (IH s1) as (evs & s' & Ho & Hr & Hn);
    [by eapply step_wf|by eapply step_counted|by eapply step_locked|lia|].
  exists (ev :: evs), s'. split_and!; [by constructor| |done]. cbn [run]. by rewrite Hs.
Qed.

(** ** Theorems *)

(** BuildEnabledTree marks exactly what an enabled module depends on, directly
    or through other modules, whatever the order of the map, and changes
    nothing else; the recursion depth the model allows is always enough. *)
Theorem buildEnabledTree_exact (order : list string) (ms : gmap string GoModule) (n : string)
    (m : GoModule) :
  closed ms → (∀ x, is_Some (ms !! x) → x ∈ order) → ms !! n = Some m →
  ∃ m', buildEnabledTree order ms !! n = Some m' ∧
    (enabledAsDependency m' = true ↔ needed ms n) ∧
    set_enabledAsDependency false m' = set_enabledAsDependency false m.
Proof.
  intros Hcl Hall Hn.
  assert (E : (set_enabledAsDependency false <$> buildEnabledTree order ms) !! n =
    Some (set_enabledAsDependency false m)).
  { rewrite buildEnabledTree_other by done. by rewrite lookup_fmap, Hn. }
  rewrite lookup_fmap in E. apply fmap_Some in E as (m' & Hm' & Heq). exists m'.
  split_and!; [done| |done]. rewrite <- (buildEnabledTree_marks order ms n Hcl Hall). unfold marked.
  split; [eauto|]. intros (m1 & Hm1 & He). congruence.
Qed.



(** A dependency loop is detected: if the linked modules have one, Start does
    not return without an error. *)
Theorem dependency_loop_detected (ready : bool) (su : startup) (evs0 evs : list event)
    (order : list string) (s0 s : ModSys) (n : string) :
  Forall setup_event evs0 → run evs0 (initial ready su) = Ret s0 →
  Forall undisturbed evs → run (EvStart order :: evs) s0 = Ret s →
  tc (depends s) n n → results s ≠ [(JobStart, None)].
Proof.
  intros Hev0 Hr0 Hev Hr Hc Hres.
  assert (Hrun : run (evs0 ++ EvStart order :: evs) (initial ready su) = Ret s).
  { rewrite run_app, Hr0. done. }
  assert (Hdead : loops_dead (abs s)).
  { apply (run_invariant loops_dead _ _ s astep_loops_dead (wf_initial ready su) Hrun).
    intros x Hx. simpl. unfold a_Status. by rewrite lookup_fmap. }
  destruct (Start_run False (λ _, 0%nat) ready su evs0 evs order s0 s Hev0 Hr0 ltac:(by intros []) Hev
    ltac:(by intros []) Hr) as [_ _ _ _ H].
  destruct (mgmt s) as [g|]; [destruct H as (_ & Hx & _); by rewrite Hres in Hx|].
  destruct H as (err & Hx & _ & Hup). rewrite Hres in Hx. injection Hx as <-. destruct (Hup eq_refl) as [_ Hst].
  assert (Hn : a_Status (a_mods (abs s)) n = StatusDead).
  { apply Hdead. eapply tc_equiv; [|done]. intros x y. apply depends_abs. }
  destruct (tc_first _ _ Hc) as (d & (m & Hm & _) & _). specialize (Hst n (view m)).
  rewrite lookup_fmap, Hm in Hst. specialize (Hst eq_refl). simpl in Hn. unfold a_Status in Hn.
  rewrite lookup_fmap, Hm in Hn. simpl in Hn. unfold v_status in Hst. simpl in Hst. rewrite Hn in Hst.
  by destruct (_ || _).
Qed.

(** The report loops end: from the moment prepareModules, startModules or
    stopModules begins, with [N] modules, at most [N * (N + 3)] visits and
    reports happen before it returns, whatever else happens in between. *)
Theorem report_loop_bounded (ready : bool) (su : startup) (evs0 evs : list event) (s s' : ModSys)
    (g g' : Mgmt) :
  run evs0 (initial ready su) = Ret s → modulesLocked s = true →
  mgmt s = Some g → l_execCnt (m_loop g) = 0%nat → range_order s (l_todo (m_loop g)) = true →
  run evs s = Ret s' → mgmt s' = Some g' → l_chan (m_loop g') = l_chan (m_loop g) →
  (length (filter (λ ev, loop_event ev = true) evs) ≤ size (modules s) * (size (modules s) + 3))%nat.
Proof.
  intros Hr0 Hl Hg Hx Ho Hr Hg' Hch.
  destruct (run_counted _ _ _ (wf_initial ready su) (counted_initial ready su) Hr0) as [Hwf Hct].
  assert (Hb := loop_bound evs s s' g g' Hwf Hct Hl Hg Hr Hg' Hch).
  assert (He := loop_measure_entry s g Hwf Hg Hx Hct ltac:(by rewrite (range_order_length s))). lia.
Qed.

(** C35: Start, ManageModules and Shutdown terminate: once Start was called, the
    thread that holds mgmtLock and the goroutines have only a bounded number of
    steps of their own, in any order, and as long as the call has not returned
    one of them is possible, so every such run ends with the call returned. *)
Theorem calls_terminate (ready : bool) (su : startup) (evs0 : list event) (s : ModSys) :
  run evs0 (initial ready su) = Ret s → modulesLocked s = true →
  (∀ evs s', Forall own_event evs → run evs s = Ret s' → (length evs ≤ own_measure s)%nat) ∧
  (∀ evs s', Forall own_event evs → run evs s = Ret s' →
     (∀ ev s'', own_event ev → step ev s' ≠ Ret s'') → mgmt s' = None) ∧
  ∃ evs s', Forall own_event evs ∧ run evs s = Ret s' ∧ mgmt s' = None.
Proof.
  intros Hr Hl. destruct (run_counted _ _ _ (wf_initial ready su) (counted_initial ready su) Hr) as [Hwf Hct].
  split_and!.
  - intros evs s' Ho Hrun. assert (H := own_run_bound evs s s' Hwf Hct Hl Ho Hrun). lia.
  - intros evs s' Ho Hrun Hstop. destruct (run_counted evs s s' Hwf Hct Hrun) as [Hwf' Hct'].
    destruct (mgmt s') as [g|] eqn:Hg; [|done].
    destruct (loop_can_go_on s' g Hwf' Hct' Hg) as (ev & s'' & Hev & Hs). by destruct (Hstop ev s'' Hev).
  - by apply (own_run_ends (S (own_measure s))); [..|lia].
Qed.

(** *** Example runs *)

Definition example_setup : list event :=
  [EvRegister "a" false true true []; EvRegister "b" false true false ["a"%string]].

(** The rest of a call of Start in which everything works. *)
Definition example_rest : list event :=
  drop 3 (example_start None) ++ [EvVisit; EvVisit; EvReturn example_order].

Definition example_all : list event := example_setup ++ EvStart example_order :: example_rest.

Definition example_rank (n : string) : nat := if bool_decide (n = "a"%string) then 0 else 1.

Ltac run_events := repeat (apply Forall_cons; split; [exact I|]); apply Forall_nil; exact I.

Lemma buildEnabledTree_exact_witness :
  let ms := modules (example_state (example_all ++ [EvSetEnabled "b" true])) in
  ∃ m', buildEnabledTree example_order ms !! "a"%string = Some m' ∧
    (enabledAsDependency m' = true ↔ needed ms "a"%string).
Proof.
  set (evs := example_all ++ [EvSetEnabled "b" true]). intros ms.
  destruct (buildEnabledTree_exact example_order ms "a" (example_module evs "a")) as (m' & Hm' & He & _).
  - assert (H : map_Forall (λ _ m, Forall (λ d, is_Some (ms !! d)) (depModules m)) ms).
    { apply (bool_decide_eq_true_1 _). vm_compute. reflexivity. }
    intros n d (m & Hm & Hd). exact (proj1 (Forall_forall _ _) (H n m Hm) d Hd).
  - assert (H : map_Forall (λ n _, n ∈ example_order) ms).
    { apply (bool_decide_eq_true_1 _). vm_compute. reflexivity. }
    intros x [m Hm]. exact (H x m Hm).
  - vm_compute. reflexivity.
  - exists m'. split; [exact Hm'|exact He].
Defined.



Lemma dependency_loop_detected_witness :
  results (example_state example_loop) = [(JobStart, Some ErrDependencyLoop)] ∧
  results (example_state example_loop) ≠ [(JobStart, None)].
Proof.
  split; [vm_compute; reflexivity|].
  apply (dependency_loop_detected false example_startup (take 1 example_loop) (drop 2 example_loop) ["a"%string]
    (example_state (take 1 example_loop)) _ "a").
  - run_events.
  - vm_compute. reflexivity.
  - run_events.
  - vm_compute. reflexivity.
  - apply tc_once. exists (example_module example_loop "a"). split; [vm_compute; reflexivity|].
    apply list_elem_of_In. vm_compute. left. reflexivity.
Defined.

(** The first loop of the call. *)
Definition example_entered : list event := take 3 example_all.

Definition example_mgmt (evs : list event) : Mgmt :=
  match mgmt (example_state evs) with
  | Some g => g
  | None => mkMgmt JobStart (newLoop PhPrep [] (example_state evs)) None
  end.

Lemma report_loop_bounded_witness :
  (length (filter (λ ev, loop_event ev = true) (take 4 example_rest)) ≤
   size (modules (example_state example_entered)) * (size (modules (example_state example_entered)) + 3))%nat.
Proof.
  apply (report_loop_bounded false example_startup example_entered (take 4 example_rest)
    (example_state example_entered) (example_state (example_entered ++ take 4 example_rest))
    (example_mgmt example_entered) (example_mgmt (example_entered ++ take 4 example_rest))).
  all: vm_compute; reflexivity.
Defined.

Lemma calls_terminate_witness :
  ∃ evs s', Forall own_event evs ∧ run evs (example_state example_entered) = Ret s' ∧ mgmt s' = None.
Proof.
  apply (calls_terminate false example_startup example_entered).
  all: vm_compute; reflexivity.
Defined.
