(* ===== verification/Tasks.v ===== *)
(** * modules/tasks.go: queued and scheduled tasks

    The two queues, the schedule and the goroutines that work on them as one
    transition system: what a function does under the task's lock or under the
    lock of a list is one step, and all goroutines interleave. A task is a
    location in [ts_tasks]; a list holds locations. An element that a handler has
    taken from a list stays in the task's field until removeFromQueues: the field
    is a flag, the list says whether the element is still linked. Times are
    nanoseconds, [None] is the zero time; durations are Z. *)

From Stdlib Require Import ZArith Lia String.
From stdpp Require Import gmap list sorting.
From S2P Require Import Prelude.
Local Open Scope Z_scope.

(** ** Data *)

Definition second : Z := 1000000000.
Definition minute : Z := 60 * second.
Definition minRepeatDuration : Z := minute.
Definition maxExecutionWait : Z := minute.
Definition defaultMaxDelay : Z := minute.

(** [a.Before(b)]; the zero time is before all others. *)
Definition time_Before (a b : option Z) : bool :=
  match a, b with
  | _, None => false
  | None, Some _ => true
  | Some x, Some y => x <? y
  end.

(** The context of a task is the [task_ctx]-th one it got, made from the
    [ctx_parent]-th context of its module. *)
Record Task : Type := mkTask {
  task_module : nat;
  canceled : bool;
  executing : bool;
  overtime : bool;
  task_ctx : nat;
  ctx_canceled : bool;
  ctx_parent : nat;
  executeAt : option Z;
  task_repeat : Z;
  maxDelay : Z;
  queueElement : bool;
  prioritizedQueueElement : bool;
  scheduleListElement : bool;
}.

(** What the tasks use of a module: OnlineSoon, Online, whether startComplete
    is closed, the number of its context (none before it is set) and whether it
    is canceled, and the task counter. *)
Record TaskModule : Type := mkTaskModule {
  tm_OnlineSoon : bool;
  tm_Online : bool;
  tm_StartCompleted : bool;
  tm_Ctx : option nat;
  tm_ctx_done : bool;
  tm_taskCnt : Z;
}.

(** The steps of runWithLocking after it was called for a task. *)
Inductive runner : Type :=
| RunLock (t : nat)
| RunTimeslot (t : nat)
| RunOnline (t : nat)
| RunOnlineSoon (t : nat)
| RunAwaitStart (t : nat)
| RunAbort (t : nat)
| RunSpawn (t : nat).

(** taskQueueHandler *)
Inductive queue_pc : Type :=
| QWait
| QLoop
| QPop
| QRun (r : runner)
| QStopped.

(** taskScheduleHandler; the deadline is that of the timer it waits for. *)
Inductive schedule_pc : Type :=
| SLoop
| SSleep
| SWait (deadline : option Z)
| SFire
| SStartASAP (t : nat)
| SRun (r : runner)
| SStopped.

(** executeWithLocking *)
Inductive exec_pc : Type :=
| ExecBegin
| ExecReset
| ExecFn
| ExecCount
| ExecFinish.

Record TaskSystem : Type := mkTaskSystem {
  ts_tasks : list Task;
  ts_modules : list TaskModule;
  taskQueue : list nat;
  prioritizedTaskQueue : list nat;
  taskSchedule : list nat;
  queueIsFilled : bool;
  notifyTaskScheduler : bool;
  queueWg : nat;
  sleepMode : bool;
  shutdownFlag : bool;
  ts_now : Z;
  ts_queue : queue_pc;
  ts_schedule : schedule_pc;
  ts_execs : list (nat * exec_pc);
  ts_waits : list (nat * nat * Z);
}.

Definition set_tasks l s := mkTaskSystem l (ts_modules s) (taskQueue s) (prioritizedTaskQueue s) (taskSchedule s)
  (queueIsFilled s) (notifyTaskScheduler s) (queueWg s) (sleepMode s) (shutdownFlag s) (ts_now s) (ts_queue s)
  (ts_schedule s) (ts_execs s) (ts_waits s).
Definition set_modules l s := mkTaskSystem (ts_tasks s) l (taskQueue s) (prioritizedTaskQueue s) (taskSchedule s)
  (queueIsFilled s) (notifyTaskScheduler s) (queueWg s) (sleepMode s) (shutdownFlag s) (ts_now s) (ts_queue s)
  (ts_schedule s) (ts_execs s) (ts_waits s).
Definition set_taskQueue l s := mkTaskSystem (ts_tasks s) (ts_modules s) l (prioritizedTaskQueue s) (taskSchedule s)
  (queueIsFilled s) (notifyTaskScheduler s) (queueWg s) (sleepMode s) (shutdownFlag s) (ts_now s) (ts_queue s)
  (ts_schedule s) (ts_execs s) (ts_waits s).
Definition set_prioritizedTaskQueue l s := mkTaskSystem (ts_tasks s) (ts_modules s) (taskQueue s) l (taskSchedule s)
  (queueIsFilled s) (notifyTaskScheduler s) (queueWg s) (sleepMode s) (shutdownFlag s) (ts_now s) (ts_queue s)
  (ts_schedule s) (ts_execs s) (ts_waits s).
Definition set_taskSchedule l s := mkTaskSystem (ts_tasks s) (ts_modules s) (taskQueue s) (prioritizedTaskQueue s) l
  (queueIsFilled s) (notifyTaskScheduler s) (queueWg s) (sleepMode s) (shutdownFlag s) (ts_now s) (ts_queue s)
  (ts_schedule s) (ts_execs s) (ts_waits s).
Definition set_signals filled notify s := mkTaskSystem (ts_tasks s) (ts_modules s) (taskQueue s) (prioritizedTaskQueue s)
  (taskSchedule s) filled notify (queueWg s) (sleepMode s) (shutdownFlag s) (ts_now s) (ts_queue s)
  (ts_schedule s) (ts_execs s) (ts_waits s).
Definition set_queueWg n s := mkTaskSystem (ts_tasks s) (ts_modules s) (taskQueue s) (prioritizedTaskQueue s)
  (taskSchedule s) (queueIsFilled s) (notifyTaskScheduler s) n (sleepMode s) (shutdownFlag s) (ts_now s) (ts_queue s)
  (ts_schedule s) (ts_execs s) (ts_waits s).
Definition set_outside sleep shut now s := mkTaskSystem (ts_tasks s) (ts_modules s) (taskQueue s) (prioritizedTaskQueue s)
  (taskSchedule s) (queueIsFilled s) (notifyTaskScheduler s) (queueWg s) sleep shut now (ts_queue s)
  (ts_schedule s) (ts_execs s) (ts_waits s).
Definition set_queue_pc q s := mkTaskSystem (ts_tasks s) (ts_modules s) (taskQueue s) (prioritizedTaskQueue s)
  (taskSchedule s) (queueIsFilled s) (notifyTaskScheduler s) (queueWg s) (sleepMode s) (shutdownFlag s) (ts_now s) q
  (ts_schedule s) (ts_execs s) (ts_waits s).
Definition set_schedule_pc q s := mkTaskSystem (ts_tasks s) (ts_modules s) (taskQueue s) (prioritizedTaskQueue s)
  (taskSchedule s) (queueIsFilled s) (notifyTaskScheduler s) (queueWg s) (sleepMode s) (shutdownFlag s) (ts_now s)
  (ts_queue s) q (ts_execs s) (ts_waits s).
Definition set_execs l s := mkTaskSystem (ts_tasks s) (ts_modules s) (taskQueue s) (prioritizedTaskQueue s)
  (taskSchedule s) (queueIsFilled s) (notifyTaskScheduler s) (queueWg s) (sleepMode s) (shutdownFlag s) (ts_now s)
  (ts_queue s) (ts_schedule s) l (ts_waits s).
Definition set_waits l s := mkTaskSystem (ts_tasks s) (ts_modules s) (taskQueue s) (prioritizedTaskQueue s)
  (taskSchedule s) (queueIsFilled s) (notifyTaskScheduler s) (queueWg s) (sleepMode s) (shutdownFlag s) (ts_now s)
  (ts_queue s) (ts_schedule s) (ts_execs s) l.

(** Updates of the fields of a task. *)
Definition set_canceled (t : Task) : Task :=
  mkTask (task_module t) true (executing t) (overtime t) (task_ctx t) true (ctx_parent t) (executeAt t) (task_repeat t)
    (maxDelay t) (queueElement t) (prioritizedQueueElement t) (scheduleListElement t).
Definition set_executing (b : bool) (t : Task) : Task :=
  mkTask (task_module t) (canceled t) b (overtime t) (task_ctx t) (ctx_canceled t) (ctx_parent t) (executeAt t) (task_repeat t)
    (maxDelay t) (queueElement t) (prioritizedQueueElement t) (scheduleListElement t).
Definition set_overtime (b : bool) (t : Task) : Task :=
  mkTask (task_module t) (canceled t) (executing t) b (task_ctx t) (ctx_canceled t) (ctx_parent t) (executeAt t) (task_repeat t)
    (maxDelay t) (queueElement t) (prioritizedQueueElement t) (scheduleListElement t).
Definition set_ctx (parent : nat) (t : Task) : Task :=
  mkTask (task_module t) (canceled t) (executing t) (overtime t) (S (task_ctx t)) false parent (executeAt t) (task_repeat t)
    (maxDelay t) (queueElement t) (prioritizedQueueElement t) (scheduleListElement t).
Definition set_executeAt (at_ : option Z) (t : Task) : Task :=
  mkTask (task_module t) (canceled t) (executing t) (overtime t) (task_ctx t) (ctx_canceled t) (ctx_parent t) at_ (task_repeat t)
    (maxDelay t) (queueElement t) (prioritizedQueueElement t) (scheduleListElement t).
Definition set_repeat (d : Z) (t : Task) : Task :=
  mkTask (task_module t) (canceled t) (executing t) (overtime t) (task_ctx t) (ctx_canceled t) (ctx_parent t) (executeAt t) d
    (maxDelay t) (queueElement t) (prioritizedQueueElement t) (scheduleListElement t).
Definition set_maxDelay (d : Z) (t : Task) : Task :=
  mkTask (task_module t) (canceled t) (executing t) (overtime t) (task_ctx t) (ctx_canceled t) (ctx_parent t) (executeAt t)
    (task_repeat t) d (queueElement t) (prioritizedQueueElement t) (scheduleListElement t).
Definition set_elements (q p sc : bool) (t : Task) : Task :=
  mkTask (task_module t) (canceled t) (executing t) (overtime t) (task_ctx t) (ctx_canceled t) (ctx_parent t) (executeAt t)
    (task_repeat t) (maxDelay t) q p sc.

Definition update_task (id : nat) (f : Task → Task) (s : TaskSystem) : TaskSystem := set_tasks (alter f id (ts_tasks s)) s.

Definition zero_task : Task := mkTask 0 true false false 0 true 0 None 0 0 false false false.

Definition the_task (s : TaskSystem) (id : nat) : Task := default zero_task (ts_tasks s !! id).

Definition no_module : TaskModule := mkTaskModule false false false None true 0.

Definition module_of (s : TaskSystem) (t : Task) : TaskModule := default no_module (ts_modules s !! task_module t).

Definition remove_task (id : nat) (l : list nat) : list nat := List.filter (λ x, negb (Nat.eqb x id)) l.

(** ** The functions *)

(** [<-t.ctx.Done()] does not block. *)
Definition ctx_done (s : TaskSystem) (t : Task) : bool :=
  ctx_canceled t ||
  match tm_Ctx (module_of s t) with
  | Some n => negb (Nat.eqb n (ctx_parent t)) || tm_ctx_done (module_of s t)
  | None => true
  end.

(** The new task is the last location; the error for a module that is not going
    to be online is a task that is canceled. *)
Definition newTask (m : nat) (s : TaskSystem) : TaskSystem :=
  let md := default no_module (ts_modules s !! m) in
  match tm_Ctx md with
  | Some ctx =>
      if tm_OnlineSoon md
      then set_tasks (ts_tasks s ++ [mkTask m false false false 0 false ctx None 0 defaultMaxDelay false false false]) s
      else set_tasks (ts_tasks s ++ [mkTask m true false false 0 false 0 None 0 0 false false false]) s
  | None => set_tasks (ts_tasks s ++ [mkTask m true false false 0 false 0 None 0 0 false false false]) s
  end.

(** A nil module: the task gets a module of its own. *)
Definition NewTask (m : option nat) (s : TaskSystem) : TaskSystem :=
  match m with
  | None =>
      set_modules (ts_modules s ++ [no_module])
        (set_tasks (ts_tasks s ++ [mkTask (length (ts_modules s)) true false false 0 false 0 None 0 0 false false false]) s)
  | Some m => newTask m s
  end.

Definition isActive (s : TaskSystem) (id : nat) : bool :=
  negb (canceled (the_task s id)) && tm_OnlineSoon (module_of s (the_task s id)).

Fixpoint insert_before (tasks : list Task) (id : nat) (at_ : option Z) (l : list nat) : list nat :=
  match l with
  | [] => [id]
  | e :: l' =>
      if time_Before at_ (executeAt (default zero_task (tasks !! e))) then id :: e :: l'
      else e :: insert_before tasks id at_ l'
  end.

(** Moving an element is removing and inserting it. *)
Definition addToSchedule (id : nat) (over : bool) (s : TaskSystem) : TaskSystem :=
  if isActive s id then
    let s := if over then update_task id (set_overtime true) s else s in
    let l := insert_before (ts_tasks s) id (executeAt (the_task s id)) (remove_task id (taskSchedule s)) in
    let s := set_taskSchedule l (update_task id (λ t, set_elements (queueElement t) (prioritizedQueueElement t) true t) s) in
    set_signals (queueIsFilled s) true s
  else s.

Definition prepForQueueing (id : nat) (s : TaskSystem) : TaskSystem * bool :=
  if isActive s id then
    if maxDelay (the_task s id) =? 0 then (s, true)
    else
      let s := update_task id (set_executeAt (Some (ts_now s + maxDelay (the_task s id)))) s in
      (addToSchedule id true s, true)
  else (s, false).

Definition notifyQueue (s : TaskSystem) : TaskSystem := set_signals true (notifyTaskScheduler s) s.

Definition Task_Queue (id : nat) (s : TaskSystem) : TaskSystem :=
  let '(s, ok) := prepForQueueing id s in
  if ok then
    let s := if queueElement (the_task s id) then s
             else set_taskQueue (taskQueue s ++ [id])
                    (update_task id (λ t, set_elements true (prioritizedQueueElement t) (scheduleListElement t) t) s) in
    notifyQueue s
  else s.

Definition QueuePrioritized (id : nat) (s : TaskSystem) : TaskSystem :=
  let '(s, ok) := prepForQueueing id s in
  if ok then
    let s := if prioritizedQueueElement (the_task s id) then s
             else set_prioritizedTaskQueue (prioritizedTaskQueue s ++ [id])
                    (update_task id (λ t, set_elements (queueElement t) true (scheduleListElement t) t) s) in
    notifyQueue s
  else s.

(** An element that was taken from the list already is not moved. *)
Definition move_to_front (id : nat) (l : list nat) : list nat :=
  if existsb (Nat.eqb id) l then id :: remove_task id l else l.

Definition StartASAP (id : nat) (s : TaskSystem) : TaskSystem :=
  let '(s, ok) := prepForQueueing id s in
  if ok then
    let s := if prioritizedQueueElement (the_task s id)
             then set_prioritizedTaskQueue (move_to_front id (prioritizedTaskQueue s)) s
             else set_prioritizedTaskQueue (id :: prioritizedTaskQueue s)
                    (update_task id (λ t, set_elements (queueElement t) true (scheduleListElement t) t) s) in
    notifyQueue s
  else s.

Definition Task_MaxDelay (id : nat) (d : Z) (s : TaskSystem) : TaskSystem := update_task id (set_maxDelay d) s.

Definition removeFromQueues (id : nat) (s : TaskSystem) : TaskSystem :=
  let s := if queueElement (the_task s id)
           then update_task id (λ t, set_elements false (prioritizedQueueElement t) (scheduleListElement t) t)
                  (set_taskQueue (remove_task id (taskQueue s)) s) else s in
  let s := if prioritizedQueueElement (the_task s id)
           then update_task id (λ t, set_elements (queueElement t) false (scheduleListElement t) t)
                  (set_prioritizedTaskQueue (remove_task id (prioritizedTaskQueue s)) s) else s in
  if scheduleListElement (the_task s id)
  then update_task id (λ t, set_overtime false (set_elements (queueElement t) (prioritizedQueueElement t) false t))
         (set_taskSchedule (remove_task id (taskSchedule s)) s)
  else s.

Definition Task_Schedule (id : nat) (at_ : option Z) (s : TaskSystem) : TaskSystem :=
  let s := update_task id (set_executeAt at_) s in
  match at_ with
  | None => removeFromQueues id s
  | Some _ => addToSchedule id false s
  end.

Definition Task_Repeat (id : nat) (interval : Z) (s : TaskSystem) : TaskSystem :=
  let interval := if negb (interval =? 0) && (interval <? minRepeatDuration) then minRepeatDuration else interval in
  if interval =? 0 then update_task id (set_repeat 0) s
  else addToSchedule id false (update_task id (λ t, set_executeAt (Some (ts_now s + interval)) (set_repeat interval t)) s).

Definition Task_Cancel (id : nat) (s : TaskSystem) : TaskSystem := update_task id set_canceled s.

(** *** runWithLocking *)

(** The section under the task's lock; [None] returns. *)
Definition run_lock (id : nat) (s : TaskSystem) : TaskSystem * option runner :=
  let s := removeFromQueues id s in
  if executing (the_task s id) then (s, None)
  else if negb (isActive s id) then (s, None)
  else if ctx_done s (the_task s id) then (s, None)
  else (update_task id (set_executing true) s, Some (RunTimeslot id)).

Inductive runner_step : runner → TaskSystem → TaskSystem → option runner → Prop :=
| RSLock id s s' r : run_lock id s = (s', r) → runner_step (RunLock id) s s' r
| RSTimeslot id s : runner_step (RunTimeslot id) s s (Some (RunOnline id))
| RSOnline id s :
    runner_step (RunOnline id) s s
      (Some (if tm_Online (module_of s (the_task s id)) then RunSpawn id else RunOnlineSoon id))
| RSOnlineSoon id s :
    runner_step (RunOnlineSoon id) s s
      (Some (if tm_OnlineSoon (module_of s (the_task s id)) then RunAwaitStart id else RunAbort id))
| RSAwaitStart id s :
    tm_StartCompleted (module_of s (the_task s id)) = true →
    runner_step (RunAwaitStart id) s s (Some (RunSpawn id))
| RSAbort id s : runner_step (RunAbort id) s (update_task id (set_executing false) s) None
| RSSpawn id s :
    runner_step (RunSpawn id) s
      (set_execs (ts_execs s ++ [(id, ExecBegin)])
        (set_waits (ts_waits s ++ [(id, task_ctx (the_task s id), ts_now s + maxExecutionWait)])
          (set_queueWg (S (queueWg s)) s))) None.

(** *** executeWithLocking *)

Definition count_task (d : Z) (id : nat) (s : TaskSystem) : TaskSystem :=
  set_modules
    (alter (λ m, mkTaskModule (tm_OnlineSoon m) (tm_Online m) (tm_StartCompleted m) (tm_Ctx m) (tm_ctx_done m) (tm_taskCnt m + d))
      (task_module (the_task s id)) (ts_modules s)) s.

(** The deferred function after the counter; a module that is executing tasks
    has a context. *)
Definition finish_exec (id : nat) (s : TaskSystem) : TaskSystem :=
  let s := update_task id (set_executing false) s in
  let t := the_task s id in
  let s := if isActive s id && negb (task_repeat t =? 0) && bool_decide (executeAt t = None)
           then addToSchedule id false (update_task id (set_executeAt (Some (ts_now s + task_repeat t))) s)
           else s in
  update_task id (set_ctx (default 0%nat (tm_Ctx (module_of s (the_task s id))))) s.

(** The function of the task may run for any time and end in any way; what it
    does to its task are steps of the program. *)
Definition exec_step (id : nat) (pc : exec_pc) (s : TaskSystem) : TaskSystem * option exec_pc :=
  match pc with
  | ExecBegin => (count_task 1 id s, Some ExecReset)
  | ExecReset => (update_task id (set_executeAt None) s, Some ExecFn)
  | ExecFn => (s, Some ExecCount)
  | ExecCount => (count_task (-1) id s, Some ExecFinish)
  | ExecFinish => (finish_exec id s, None)
  end.

(** *** The handlers *)

Definition pop_task (s : TaskSystem) : TaskSystem * option nat :=
  match prioritizedTaskQueue s with
  | id :: l => (set_prioritizedTaskQueue l s, Some id)
  | [] =>
      match taskQueue s with
      | id :: l => (set_taskQueue l s, Some id)
      | [] => (s, None)
      end
  end.

Inductive queue_step : TaskSystem → TaskSystem → Prop :=
| QSShutdown s : ts_queue s = QWait → shutdownFlag s = true → queue_step s (set_queue_pc QStopped s)
| QSFilled s : ts_queue s = QWait → queueIsFilled s = true →
    queue_step s (set_queue_pc QLoop (set_signals false (notifyTaskScheduler s) s))
| QSLoop s : ts_queue s = QLoop → queueWg s = 0%nat →
    queue_step s (set_queue_pc (if shutdownFlag s then QStopped else QPop) s)
| QSPop s s' id : ts_queue s = QPop → pop_task s = (s', Some id) → queue_step s (set_queue_pc (QRun (RunLock id)) s')
| QSEmpty s s' : ts_queue s = QPop → pop_task s = (s', None) → queue_step s (set_queue_pc QWait s')
| QSRun s s' r r' : ts_queue s = QRun r → runner_step r s s' r' →
    queue_step s (set_queue_pc (match r' with Some r => QRun r | None => QLoop end) s').

(** waitUntilNextScheduledTask; a zero time has passed long ago. *)
Definition next_deadline (s : TaskSystem) : option Z :=
  match taskSchedule s with
  | id :: _ => Some (default (ts_now s) (executeAt (the_task s id)))
  | [] => None
  end.

(** The timer has fired: the first task of the schedule is processed. *)
Definition fire (s : TaskSystem) : TaskSystem :=
  match taskSchedule s with
  | [] => set_schedule_pc SLoop s
  | id :: _ =>
      if overtime (the_task s id)
      then set_schedule_pc (SRun (RunLock id)) (update_task id (set_overtime false) s)
      else set_schedule_pc (SStartASAP id) (update_task id (set_overtime true) s)
  end.

Inductive schedule_step : TaskSystem → TaskSystem → Prop :=
| SSSleep s : ts_schedule s = SLoop → sleepMode s = true → schedule_step s (set_schedule_pc SSleep s)
| SSWait s : ts_schedule s = SLoop → sleepMode s = false → schedule_step s (set_schedule_pc (SWait (next_deadline s)) s)
| SSShutdown s : (ts_schedule s = SSleep ∨ ∃ d, ts_schedule s = SWait d) → shutdownFlag s = true →
    schedule_step s (set_schedule_pc SStopped s)
| SSNotify s : (ts_schedule s = SSleep ∨ ∃ d, ts_schedule s = SWait d) → notifyTaskScheduler s = true →
    schedule_step s (set_schedule_pc SLoop (set_signals (queueIsFilled s) false s))
| SSTimer s d : ts_schedule s = SWait (Some d) → d <= ts_now s → schedule_step s (set_schedule_pc SFire s)
| SSFire s : ts_schedule s = SFire → schedule_step s (fire s)
| SSStartASAP s id : ts_schedule s = SStartASAP id → schedule_step s (set_schedule_pc SLoop (StartASAP id s))
| SSRun s s' r r' : ts_schedule s = SRun r → runner_step r s s' r' →
    schedule_step s (set_schedule_pc (match r' with Some r => SRun r | None => SLoop end) s').

(** *** The system *)

(** Calls of the program. *)
Inductive task_call : Type :=
| CallNew (m : option nat)
| CallQueue (id : nat)
| CallQueuePrioritized (id : nat)
| CallStartASAP (id : nat)
| CallMaxDelay (id : nat) (d : Z)
| CallSchedule (id : nat) (at_ : option Z)
| CallRepeat (id : nat) (interval : Z)
| CallCancel (id : nat).

Definition run_call (c : task_call) (s : TaskSystem) : TaskSystem :=
  match c with
  | CallNew m => NewTask m s
  | CallQueue id => Task_Queue id s
  | CallQueuePrioritized id => QueuePrioritized id s
  | CallStartASAP id => StartASAP id s
  | CallMaxDelay id d => Task_MaxDelay id d s
  | CallSchedule id at_ => Task_Schedule id at_ s
  | CallRepeat id d => Task_Repeat id d s
  | CallCancel id => Task_Cancel id s
  end.

(** A call on a task or module that exists. *)
Definition call_on (c : task_call) (s : TaskSystem) : Prop :=
  match c with
  | CallNew (Some m) => (m < length (ts_modules s))%nat
  | CallNew None => True
  | CallQueue id | CallQueuePrioritized id | CallStartASAP id | CallMaxDelay id _ | CallSchedule id _ | CallRepeat id _
  | CallCancel id => (id < length (ts_tasks s))%nat
  end.

Inductive task_step : TaskSystem → TaskSystem → Prop :=
| StepCall s c : call_on c s → task_step s (run_call c s)
| StepQueue s s' : queue_step s s' → task_step s s'
| StepSchedule s s' : schedule_step s s' → task_step s s'
| StepExec s i id pc s' pc' :
    ts_execs s !! i = Some (id, pc) → exec_step id pc s = (s', pc') →
    task_step s (set_execs (match pc' with Some pc' => <[i := (id, pc')]> (ts_execs s') | None => delete i (ts_execs s') end) s')
| StepWgDone s i id ctx deadline :
    ts_waits s !! i = Some (id, ctx, deadline) →
    (deadline <= ts_now s ∨ ctx ≠ task_ctx (the_task s id) ∨ ctx_done s (the_task s id) = true) →
    task_step s (set_waits (delete i (ts_waits s)) (set_queueWg (pred (queueWg s)) s))
| StepTime s d : 0 <= d → task_step s (set_outside (sleepMode s) (shutdownFlag s) (ts_now s + d) s)
| StepSleep s b : task_step s (set_outside b (shutdownFlag s) (ts_now s) s)
| StepShutdown s : task_step s (set_outside (sleepMode s) true (ts_now s) s)
| StepModule s i m m' :
    ts_modules s !! i = Some m → tm_taskCnt m' = tm_taskCnt m →
    task_step s (set_modules (<[i := m']> (ts_modules s)) s).

Inductive task_reach : TaskSystem → TaskSystem → Prop :=
| TaskStart s : task_reach s s
| TaskNext s s1 s2 : task_reach s s1 → task_step s1 s2 → task_reach s s2.

(** No task yet; both handlers are about to wait. *)
Definition task_init (modules : list TaskModule) (now : Z) : TaskSystem :=
  mkTaskSystem [] modules [] [] [] false false 0 false false now QWait SLoop [] [].
