(* ===== verification/TasksInv.v ===== *)
(** * modules/tasks.go: invariants of the queues and the schedule

    By induction over the steps: no task is executed twice at the same time, a
    canceled task is not executed again, the elements of the lists agree with
    the fields of the tasks, the queue handler never sleeps on work; the order
    in which tasks are taken and scheduled; and two runs that show what the
    interleaving can lose. *)

From Stdlib Require Import ZArith Lia String.
From stdpp Require Import gmap list sorting.
From S2P Require Import Prelude Tasks.
Local Open Scope Z_scope.

(** ** Specification *)

(** The task a runner has entered; [RunLock] has not yet. *)
Definition entered (r : runner) : option nat :=
  match r with
  | RunLock _ => None
  | RunTimeslot id | RunOnline id | RunOnlineSoon id | RunAwaitStart id | RunAbort id | RunSpawn id => Some id
  end.

Definition queue_runner (s : TaskSystem) : option nat := match ts_queue s with QRun r => entered r | _ => None end.

Definition schedule_runner (s : TaskSystem) : option nat := match ts_schedule s with SRun r => entered r | _ => None end.

Definition occurs (id : nat) (o : option nat) : nat := if decide (o = Some id) then 1 else 0.

Definition in_execs (id : nat) (l : list (nat * exec_pc)) : nat := length (List.filter (λ e, Nat.eqb e.1 id) l).

(** The goroutines that execute the task or are about to. *)
Definition executors (id : nat) (s : TaskSystem) : nat :=
  occurs id (queue_runner s) + occurs id (schedule_runner s) + in_execs id (ts_execs s).

Definition execution_ok (s : TaskSystem) : Prop :=
  ∀ id, executors id s = Nat.b2n (executing (the_task s id)).

(** A list of elements and the fields that point to them; [popped] was taken
    from a list and is about to be run. *)
Record linked (l : list nat) (flag : nat → bool) (popped : nat → Prop) : Prop := {
  linked_NoDup : NoDup l;
  linked_flag : ∀ id, id ∈ l → flag id = true;
  linked_in : ∀ id, flag id = true → id ∈ l ∨ popped id;
}.

Definition popped (s : TaskSystem) (id : nat) : Prop := ts_queue s = QRun (RunLock id).

Record lists_ok (s : TaskSystem) : Prop := {
  queue_linked : linked (taskQueue s) (λ id, queueElement (the_task s id)) (popped s);
  prioritized_linked : linked (prioritizedTaskQueue s) (λ id, prioritizedQueueElement (the_task s id)) (popped s);
  schedule_linked : linked (taskSchedule s) (λ id, scheduleListElement (the_task s id)) (λ _, False);
}.

(** The handler does not sleep while a task is queued. *)
Definition wakeup_ok (s : TaskSystem) : Prop :=
  ts_queue s = QWait → taskQueue s ≠ [] ∨ prioritizedTaskQueue s ≠ [] → queueIsFilled s = true.

(** ** Tasks and updates *)

Lemma the_task_update (id j : nat) f (s : TaskSystem) :
  the_task (update_task id f s) j =
    if decide (j = id ∧ (id < length (ts_tasks s))%nat) then f (the_task s id) else the_task s j.
Proof.
  unfold the_task, update_task. simpl. case_decide as Hd.
  - destruct Hd as [-> Hlt]. rewrite list_lookup_alter_eq. apply lookup_lt_is_Some in Hlt as [t Ht]. by rewrite Ht.
  - destruct (decide (j = id)) as [->|Hne]; [|by rewrite list_lookup_alter_ne].
    rewrite list_lookup_alter_eq. rewrite (lookup_ge_None_2 (ts_tasks s)); [done|].
    destruct (decide (id < length (ts_tasks s))%nat); [naive_solver|lia].
Qed.

Lemma the_task_out (s : TaskSystem) id : (length (ts_tasks s) <= id)%nat → the_task s id = zero_task.
Proof. intros H. unfold the_task. by rewrite lookup_ge_None_2. Qed.

(** An update that keeps a field. *)
Lemma update_field {A : Type} (field : Task → A) id f (s : TaskSystem) j :
  (∀ t, field (f t) = field t) → field (the_task (update_task id f s) j) = field (the_task s j).
Proof. intros Hf. rewrite the_task_update. case_decide as Hd; [|done]. destruct Hd as [-> _]. apply Hf. Qed.

Lemma the_task_add (s : TaskSystem) t j : (length (ts_tasks s) <= j)%nat ∨ (j < length (ts_tasks s))%nat →
  the_task (set_tasks (ts_tasks s ++ [t]) s) j = if decide (j = length (ts_tasks s)) then t else the_task s j.
Proof.
  intros _. unfold the_task. simpl. case_decide as Hd.
  - subst. by rewrite list_lookup_middle.
  - destruct (decide (j < length (ts_tasks s))%nat) as [Hlt|Hge].
    + by rewrite lookup_app_l.
    + rewrite (lookup_ge_None_2 (ts_tasks s)) by lia. rewrite lookup_ge_None_2; [done|]. rewrite length_app. simpl. lia.
Qed.

(** ** Steps that do not touch the execution *)

(** Fields of all tasks, and the goroutines, stay. *)
Record quiet (s s' : TaskSystem) : Prop := {
  quiet_executing : ∀ id, executing (the_task s' id) = executing (the_task s id);
  quiet_queue : ts_queue s' = ts_queue s;
  quiet_schedule : ts_schedule s' = ts_schedule s;
  quiet_execs : ts_execs s' = ts_execs s;
}.

#[global] Instance quiet_preorder : PreOrder quiet.
Proof. split; [by split|]. intros s1 s2 s3 [] []. split; [intros; etransitivity; eauto|congruence..]. Qed.

Lemma quiet_update id f (s : TaskSystem) : (∀ t, executing (f t) = executing t) → quiet s (update_task id f s).
Proof. intros Hf. split; [|done..]. intros j. by apply update_field. Qed.

Lemma quiet_same (s s' : TaskSystem) :
  ts_tasks s' = ts_tasks s → ts_queue s' = ts_queue s → ts_schedule s' = ts_schedule s → ts_execs s' = ts_execs s → quiet s s'.
Proof. intros H1 H2 H3 H4. split; [|done..]. intros id. unfold the_task. by rewrite H1. Qed.

(** Follow the updates of a function, last one first: [upd] is the lemma for
    an update of a task, [same] the one for the other fields of the state. *)
Ltac follow upd same :=
  repeat first
    [ reflexivity
    | match goal with |- _ _ (match ?x with _ => _ end) => destruct x end
    | match goal with |- _ ?s (update_task ?id ?f ?s') => transitivity s'; [|by apply upd] end
    | match goal with |- _ _ (set_taskQueue ?l ?s') => transitivity s'; [|by apply same] end
    | match goal with |- _ _ (set_prioritizedTaskQueue ?l ?s') => transitivity s'; [|by apply same] end
    | match goal with |- _ _ (set_taskSchedule ?l ?s') => transitivity s'; [|by apply same] end
    | match goal with |- _ _ (set_signals ?a ?b ?s') => transitivity s'; [|by apply same] end
    | match goal with |- _ _ (set_modules ?a ?s') => transitivity s'; [|by apply same] end ].

Ltac quiet_step := follow quiet_update quiet_same.

Lemma quiet_addToSchedule id over s : quiet s (addToSchedule id over s).
Proof. unfold addToSchedule. quiet_step. Qed.

Lemma quiet_prep id s : quiet s (prepForQueueing id s).1.
Proof.
  unfold prepForQueueing. destruct (isActive s id); [|done]. destruct (_ =? 0); [done|]. simpl.
  etransitivity; [|apply quiet_addToSchedule]. quiet_step.
Qed.

Lemma quiet_Queue id s : quiet s (Task_Queue id s).
Proof.
  unfold Task_Queue. pose proof (quiet_prep id s) as H. destruct (prepForQueueing id s) as [s1 ok]. simpl in H.
  etransitivity; [exact H|]. destruct ok; [|done]. unfold notifyQueue. quiet_step.
Qed.

Lemma quiet_QueuePrioritized id s : quiet s (QueuePrioritized id s).
Proof.
  unfold QueuePrioritized. pose proof (quiet_prep id s) as H. destruct (prepForQueueing id s) as [s1 ok]. simpl in H.
  etransitivity; [exact H|]. destruct ok; [|done]. unfold notifyQueue. quiet_step.
Qed.

Lemma quiet_StartASAP id s : quiet s (StartASAP id s).
Proof.
  unfold StartASAP. pose proof (quiet_prep id s) as H. destruct (prepForQueueing id s) as [s1 ok]. simpl in H.
  etransitivity; [exact H|]. destruct ok; [|done]. unfold notifyQueue. quiet_step.
Qed.

Lemma quiet_remove id s : quiet s (removeFromQueues id s).
Proof. unfold removeFromQueues. quiet_step. Qed.

Lemma quiet_new t s : executing t = false → quiet s (set_tasks (ts_tasks s ++ [t]) s).
Proof.
  intros Ht. split; [|done..]. intros id. rewrite the_task_add by lia. case_decide as Hd; [|done]. subst.
  rewrite Ht, the_task_out by lia. done.
Qed.

Lemma quiet_call c s : quiet s (run_call c s).
Proof.
  destruct c as [[m|]|id|id|id|id d|id at_|id d|id]; cbn [run_call].
  - unfold NewTask, newTask. repeat case_match; by apply quiet_new.
  - unfold NewTask. etransitivity; [by apply (quiet_new (mkTask (length (ts_modules s)) true false false 0 false 0 None 0 0 false false false))|].
    by apply quiet_same.
  - apply quiet_Queue.
  - apply quiet_QueuePrioritized.
  - apply quiet_StartASAP.
  - unfold Task_MaxDelay. quiet_step.
  - unfold Task_Schedule. destruct at_; (etransitivity; [|by first [apply quiet_addToSchedule|apply quiet_remove]]); quiet_step.
  - unfold Task_Repeat. cbv zeta. destruct (_ =? 0); [quiet_step|]. etransitivity; [|apply quiet_addToSchedule]. quiet_step.
  - unfold Task_Cancel. quiet_step.
Qed.

(** ** One execution at a time *)

Lemma execution_quiet s s' : quiet s s' → execution_ok s → execution_ok s'.
Proof.
  intros [He Hq Hs Hx] H id. unfold executors, queue_runner, schedule_runner. rewrite He, Hq, Hs, Hx. apply H.
Qed.

Lemma in_execs_app id l k : in_execs id (l ++ k) = (in_execs id l + in_execs id k)%nat.
Proof. unfold in_execs. by rewrite List.filter_app, length_app. Qed.

Lemma in_execs_insert id l i j pc pc' : l !! i = Some (j, pc) → in_execs id (<[i := (j, pc')]> l) = in_execs id l.
Proof.
  intros Hi. rewrite insert_take_drop by (by eapply lookup_lt_Some).
  rewrite <- (take_drop_middle l i (j, pc) Hi) at 3. rewrite !in_execs_app. unfold in_execs. simpl.
  by destruct (Nat.eqb j id).
Qed.

Lemma in_execs_delete id l i j pc :
  l !! i = Some (j, pc) → in_execs id l = ((if decide (j = id) then 1 else 0) + in_execs id (delete i l))%nat.
Proof.
  intros Hi. rewrite delete_take_drop. rewrite <- (take_drop_middle l i (j, pc) Hi) at 1. rewrite !in_execs_app.
  unfold in_execs at 2. simpl. destruct (Nat.eqb_spec j id), (decide (j = id)); try done; simpl; unfold in_execs; lia.
Qed.

Lemma isActive_exists s id : isActive s id = true → (id < length (ts_tasks s))%nat.
Proof.
  unfold isActive. intros H. destruct (decide (id < length (ts_tasks s))%nat); [done|].
  rewrite the_task_out in H by lia. done.
Qed.

Lemma executing_exists s id : executing (the_task s id) = true → (id < length (ts_tasks s))%nat.
Proof.
  intros H. destruct (decide (id < length (ts_tasks s))%nat); [done|]. by rewrite the_task_out in H by lia.
Qed.

(** What a step of a runner does to the flag and to the running goroutines. *)
Lemma runner_step_ok r s s' r' :
  runner_step r s s' r' → execution_ok s →
  ts_queue s' = ts_queue s ∧ ts_schedule s' = ts_schedule s ∧
  ((entered r ≠ None → ∃ id, entered r = Some id ∧ executing (the_task s id) = true) →
   ∀ id, (occurs id (default None (entered <$> r')) + in_execs id (ts_execs s') + Nat.b2n (executing (the_task s id)) =
          occurs id (entered r) + in_execs id (ts_execs s) + Nat.b2n (executing (the_task s' id)))%nat).
Proof.
  intros H Hok. destruct H as [id s s' r H|id s|id s|id s|id s Hst|id s|id s].
  - unfold run_lock in H. pose proof (quiet_remove id s) as [He Hq Hs Hx]. revert H He Hq Hs Hx. cbv zeta.
    generalize (removeFromQueues id s). intros s1 H He Hq Hs Hx.
    destruct (executing (the_task s1 id)) eqn:Hex; [simplify_eq; split_and!; [done..|]; intros _ j; rewrite He, Hx; cbn; lia|].
    destruct (isActive s1 id) eqn:Hact; simpl in H; [|simplify_eq; split_and!; [done..|]; intros _ j; rewrite He, Hx; cbn; lia].
    destruct (ctx_done s1 (the_task s1 id)); [simplify_eq; split_and!; [done..|]; intros _ j; rewrite He, Hx; cbn; lia|].
    simplify_eq. split_and!; [done..|]. intros _ j. simpl. rewrite Hx. rewrite the_task_update.
    pose proof (isActive_exists _ _ Hact). rewrite <- (He j). unfold occurs. simpl. destruct (decide (j = id)) as [->|Hne].
    + rewrite !decide_True by done. simpl. rewrite Hex. simpl. lia.
    + rewrite !decide_False by naive_solver. simpl. lia.
  - split_and!; [done..|]. intros _ j. cbn. lia.
  - split_and!; [done..|]. intros _ j. cbn. destruct (tm_Online _); cbn; lia.
  - split_and!; [done..|]. intros _ j. cbn. destruct (tm_OnlineSoon _); cbn; lia.
  - split_and!; [done..|]. intros _ j. cbn. lia.
  - split_and!; [done..|]. intros Hex j. destruct Hex as (id' & [= <-] & Hex); [done|]. pose proof (executing_exists _ _ Hex).
    simpl. rewrite the_task_update. unfold occurs. destruct (decide (j = id)) as [->|Hne].
    + rewrite !decide_True by done. rewrite Hex. simpl. lia.
    + rewrite !decide_False by naive_solver. simpl. lia.
  - split_and!; [done..|]. intros _ j. cbn [default fmap option_fmap option_map from_option entered]. simpl. rewrite in_execs_app.
    change (the_task _ j) with (the_task s j). unfold occurs, in_execs at 2. simpl.
    destruct (Nat.eqb_spec id j) as [->|Hne].
    + rewrite (decide_True (P := Some j = Some j)) by done. simpl. lia.
    + rewrite (decide_False (P := Some id = Some j)) by naive_solver. simpl. lia.
Qed.

(** The task of an executor is marked. *)
Lemma executor_marked s id : execution_ok s → (1 <= executors id s)%nat → executing (the_task s id) = true.
Proof. intros H Hn. specialize (H id). destruct (executing (the_task s id)); [done|]. simpl in H. lia. Qed.

Lemma occurs_refl id : occurs id (Some id) = 1%nat.
Proof. unfold occurs. by rewrite decide_True. Qed.

(** The same runners and executions, seen through other fields. *)
Lemma execution_same s s' :
  execution_ok s → (∀ id, executing (the_task s' id) = executing (the_task s id)) →
  queue_runner s' = queue_runner s → schedule_runner s' = schedule_runner s → ts_execs s' = ts_execs s → execution_ok s'.
Proof. intros H He Hq Hs Hx id. unfold executors. rewrite Hq, Hs, Hx, He. apply H. Qed.

Lemma execution_queue_step s s' : execution_ok s → queue_step s s' → execution_ok s'.
Proof.
  intros Hok H. destruct H as [s Hq _|s Hq _|s Hq _|s s' id Hq Hp|s s' Hq Hp|s s' r r' Hq Hr].
  - by apply (execution_same s); [|done|unfold queue_runner; rewrite Hq| |].
  - by apply (execution_same s); [|done|unfold queue_runner; rewrite Hq| |].
  - apply (execution_same s); [done|done| |done|done]. unfold queue_runner. rewrite Hq. simpl. by destruct (shutdownFlag s).
  - unfold pop_task in Hp. apply (execution_same s); [done|..]; destruct (prioritizedTaskQueue s); [destruct (taskQueue s)| |destruct (taskQueue s)| |destruct (taskQueue s)| |destruct (taskQueue s)|];
      simplify_eq; unfold queue_runner; by rewrite ?Hq.
  - unfold pop_task in Hp. destruct (prioritizedTaskQueue s); [destruct (taskQueue s)|]; simplify_eq.
    by apply (execution_same s'); [|done|unfold queue_runner; rewrite Hq| |].
  - destruct (runner_step_ok r s s' r' Hr Hok) as (_ & Hs & Hcount). intros id. specialize (Hok id) as Hid. specialize (Hcount) with (id := id).
    unfold executors, queue_runner, schedule_runner in *. rewrite Hq in Hid. simpl. rewrite Hs.
    assert (match (match r' with Some r0 => QRun r0 | None => QLoop end) with QRun r0 => entered r0 | _ => None end
            = default None (entered <$> r')) as -> by (by destruct r').
    change (the_task (set_queue_pc _ s') id) with (the_task s' id).
    assert (entered r ≠ None → ∃ id, entered r = Some id ∧ executing (the_task s id) = true) as Hm.
    { intros Hr'. destruct (entered r) as [j|] eqn:Hj; [|done]. exists j. split; [done|]. apply executor_marked; [done|].
      unfold executors, queue_runner. rewrite Hq, Hj, occurs_refl. lia. }
    specialize (Hcount Hm). lia.
Qed.

Lemma execution_schedule_step s s' : execution_ok s → schedule_step s s' → execution_ok s'.
Proof.
  intros Hok H. destruct H as [s Hq _|s Hq _|s Hq _|s Hq _|s d Hq _|s Hq|s id Hq|s s' r r' Hq Hr].
  - by apply (execution_same s); [|done| |unfold schedule_runner; rewrite Hq|].
  - by apply (execution_same s); [|done| |unfold schedule_runner; rewrite Hq|].
  - by apply (execution_same s); [|done| |unfold schedule_runner; destruct Hq as [->|[? ->]]|].
  - by apply (execution_same s); [|done| |unfold schedule_runner; destruct Hq as [->|[? ->]]|].
  - by apply (execution_same s); [|done| |unfold schedule_runner; rewrite Hq|].
  - unfold fire. destruct (taskSchedule s) as [|id l].
    + by apply (execution_same s); [|done| |unfold schedule_runner; rewrite Hq|].
    + destruct (overtime (the_task s id)).
      * apply (execution_same s); [done|intros j; by apply (update_field executing)|done|unfold schedule_runner; by rewrite Hq|done].
      * apply (execution_same s); [done|intros j; by apply (update_field executing)|done|unfold schedule_runner; by rewrite Hq|done].
  - destruct (quiet_StartASAP id s) as [He Hqq Hs Hx].
    apply (execution_same s); [done|exact He|unfold queue_runner; simpl; by rewrite Hqq|unfold schedule_runner; by rewrite Hq|done].
  - destruct (runner_step_ok r s s' r' Hr Hok) as (Hs & _ & Hcount). intros id. specialize (Hok id) as Hid. specialize (Hcount) with (id := id).
    unfold executors, queue_runner, schedule_runner in *. rewrite Hq in Hid. simpl. rewrite Hs.
    assert (match (match r' with Some r0 => SRun r0 | None => SLoop end) with SRun r0 => entered r0 | _ => None end
            = default None (entered <$> r')) as -> by (by destruct r').
    change (the_task (set_schedule_pc _ s') id) with (the_task s' id).
    assert (entered r ≠ None → ∃ id, entered r = Some id ∧ executing (the_task s id) = true) as Hm.
    { intros Hr'. destruct (entered r) as [j|] eqn:Hj; [|done]. exists j. split; [done|]. apply executor_marked; [done|].
      unfold executors, schedule_runner. rewrite Hq, Hj, occurs_refl. lia. }
    specialize (Hcount Hm). lia.
Qed.

(** Apart from the flag of the task, the end of an execution is quiet. *)
Lemma finish_exec_ok id s :
  (id < length (ts_tasks s))%nat →
  (∀ j, executing (the_task (finish_exec id s) j) = if decide (j = id) then false else executing (the_task s j)) ∧
  ts_queue (finish_exec id s) = ts_queue s ∧ ts_schedule (finish_exec id s) = ts_schedule s ∧ ts_execs (finish_exec id s) = ts_execs s.
Proof.
  intros Hlt. unfold finish_exec. cbv zeta.
  set (s1 := update_task id (set_executing false) s).
  assert (∀ j, executing (the_task s1 j) = if decide (j = id) then false else executing (the_task s j)) as H1.
  { intros j. unfold s1. rewrite the_task_update. destruct (decide (j = id)) as [->|Hne]; [by rewrite decide_True|].
    by rewrite decide_False by naive_solver. }
  match goal with |- context [update_task id (set_ctx ?c) ?x] => set (s2 := x); assert (quiet s1 s2) as Hq end.
  { unfold s2. destruct (_ && _ && _); [|done]. etransitivity; [|apply quiet_addToSchedule]. quiet_step. }
  match goal with |- context [update_task id (set_ctx ?c) s2] => assert (quiet s1 (update_task id (set_ctx c) s2)) as [He Hqq Hs Hx] end.
  { etransitivity; [exact Hq|]. by apply quiet_update. }
  split_and!; [|done..]. intros j. by rewrite He, H1.
Qed.

#[local] Instance exec_pc_eq_dec : EqDecision exec_pc.
Proof. solve_decision. Defined.

Lemma executors_set_execs j l s :
  executors j (set_execs l s) = (occurs j (queue_runner s) + occurs j (schedule_runner s) + in_execs j l)%nat.
Proof. done. Qed.

Lemma execution_exec_step s i id pc s' pc' :
  execution_ok s → ts_execs s !! i = Some (id, pc) → exec_step id pc s = (s', pc') →
  execution_ok (set_execs (match pc' with Some pc' => <[i := (id, pc')]> (ts_execs s') | None => delete i (ts_execs s') end) s').
Proof.
  intros Hok Hi H.
  assert (executing (the_task s id) = true) as Hex.
  { apply executor_marked; [done|]. unfold executors. rewrite (in_execs_delete id _ _ _ _ Hi), decide_True by done. lia. }
  destruct (decide (pc = ExecFinish)) as [->|Hpc].
  - simpl in H. simplify_eq. destruct (finish_exec_ok id s (executing_exists _ _ Hex)) as (He & Hq & Hs & Hx). intros j.
    specialize (Hok j). rewrite executors_set_execs. unfold executors, queue_runner, schedule_runner in *. rewrite Hq, Hs, Hx.
    rewrite (in_execs_delete j _ _ _ _ Hi) in Hok. change (the_task (set_execs _ ?x) j) with (the_task x j). rewrite He.
    destruct (decide (id = j)) as [->|Hne]; [rewrite decide_True by done; rewrite Hex in Hok; simpl in *; lia|].
    rewrite decide_False by done. lia.
  - assert (quiet s s' ∧ ∃ p, pc' = Some p) as [[He Hq Hs Hx] [p ->]].
    { destruct pc; simpl in H; simplify_eq; (split; [|by eexists]).
      - unfold count_task. by apply quiet_same.
      - by apply quiet_update.
      - done.
      - unfold count_task. by apply quiet_same. }
    intros j. specialize (Hok j). rewrite executors_set_execs. unfold executors, queue_runner, schedule_runner in *. rewrite Hq, Hs, Hx.
    rewrite (in_execs_insert j _ _ _ _ _ Hi). change (the_task (set_execs _ s') j) with (the_task s' j). by rewrite He.
Qed.

Lemma execution_step s s' : execution_ok s → task_step s s' → execution_ok s'.
Proof.
  intros Hok H. destruct H as [s c _|s s' H|s s' H|s i id pc s' pc' Hi H|s i id ctx d _ _|s d _|s b|s|s i m m' _ _].
  - by eapply execution_quiet; [apply quiet_call|].
  - by eapply execution_queue_step.
  - by eapply execution_schedule_step.
  - by eapply execution_exec_step.
  - by apply (execution_same s).
  - by apply (execution_same s).
  - by apply (execution_same s).
  - by apply (execution_same s).
  - by apply (execution_same s).
Qed.

Lemma execution_init ms now : execution_ok (task_init ms now).
Proof. intros id. rewrite the_task_out by (simpl; lia). done. Qed.

Lemma execution_reach ms now s : task_reach (task_init ms now) s → execution_ok s.
Proof.
  remember (task_init ms now) as s0 eqn:H0. intros H. revert H0. induction H as [s|s s1 s2 H IH Hs]; intros ->.
  - apply execution_init.
  - eapply execution_step; [|exact Hs]. by apply IH.
Qed.

(** ** What happens to a task over time *)

Definition repeat_ok (t : Task) : Prop := task_repeat t = 0 ∨ minRepeatDuration <= task_repeat t.

Definition task_ages (t t' : Task) : Prop :=
  (canceled t = true → canceled t' = true) ∧ (repeat_ok t → repeat_ok t').

(** Tasks only get more, older, and are never revived. *)
Record ages (s s' : TaskSystem) : Prop := {
  ages_length : (length (ts_tasks s) <= length (ts_tasks s'))%nat;
  ages_task : ∀ id, (id < length (ts_tasks s))%nat → task_ages (the_task s id) (the_task s' id);
  ages_new : ∀ id, (length (ts_tasks s) <= id)%nat → repeat_ok (the_task s' id);
}.

Lemma repeat_ok_zero : repeat_ok zero_task.
Proof. by left. Qed.

#[global] Instance ages_preorder : PreOrder ages.
Proof.
  split.
  - intros s. split; [done|done|]. intros id H. rewrite the_task_out by done. apply repeat_ok_zero.
  - intros s1 s2 s3 [Hl Ht Hn] [Hl' Ht' Hn']. split; [lia| |].
    + intros id H. destruct (Ht id H) as [H1 H2]. destruct (Ht' id) as [H3 H4]; [lia|]. split; auto.
    + intros id H. destruct (decide (id < length (ts_tasks s2))%nat) as [Hlt|Hge]; [|apply Hn'; lia].
      destruct (Ht' id Hlt) as [_ H2]. apply H2, Hn, H.
Qed.

Lemma length_update id f s : length (ts_tasks (update_task id f s)) = length (ts_tasks s).
Proof. apply length_alter. Qed.

Lemma ages_update id f s : (∀ t, task_ages t (f t)) → ages s (update_task id f s).
Proof.
  intros Hf. split; [by rewrite length_update| |].
  - intros j Hj. rewrite the_task_update. case_decide as Hd; [|done]. destruct Hd as [-> _]. apply Hf.
  - intros j Hj. rewrite the_task_out by (by rewrite length_update). apply repeat_ok_zero.
Qed.

Lemma ages_same s s' : ts_tasks s' = ts_tasks s → ages s s'.
Proof.
  intros H. assert (∀ id, the_task s' id = the_task s id) as Ht by (intros; unfold the_task; by rewrite H).
  split; [by rewrite H|intros; by rewrite Ht|]. intros id Hid. rewrite Ht, the_task_out by done. apply repeat_ok_zero.
Qed.

Ltac ages_step := follow ages_update ages_same.

Lemma ages_addToSchedule id over s : ages s (addToSchedule id over s).
Proof. unfold addToSchedule. ages_step. Qed.

Lemma ages_prep id s : ages s (prepForQueueing id s).1.
Proof.
  unfold prepForQueueing. destruct (isActive s id); [|done]. destruct (_ =? 0); [done|]. simpl.
  etransitivity; [|apply ages_addToSchedule]. ages_step.
Qed.

Lemma ages_Queue id s : ages s (Task_Queue id s).
Proof.
  unfold Task_Queue. pose proof (ages_prep id s) as H. destruct (prepForQueueing id s) as [s1 ok]. simpl in H.
  etransitivity; [exact H|]. destruct ok; [|done]. unfold notifyQueue. ages_step.
Qed.

Lemma ages_QueuePrioritized id s : ages s (QueuePrioritized id s).
Proof.
  unfold QueuePrioritized. pose proof (ages_prep id s) as H. destruct (prepForQueueing id s) as [s1 ok]. simpl in H.
  etransitivity; [exact H|]. destruct ok; [|done]. unfold notifyQueue. ages_step.
Qed.

Lemma ages_StartASAP id s : ages s (StartASAP id s).
Proof.
  unfold StartASAP. pose proof (ages_prep id s) as H. destruct (prepForQueueing id s) as [s1 ok]. simpl in H.
  etransitivity; [exact H|]. destruct ok; [|done]. unfold notifyQueue. ages_step.
Qed.

Lemma ages_remove id s : ages s (removeFromQueues id s).
Proof. unfold removeFromQueues. ages_step. Qed.

Lemma ages_add t s : repeat_ok t → ages s (set_tasks (ts_tasks s ++ [t]) s).
Proof.
  intros Ht. split; [simpl; rewrite length_app; lia| |].
  - intros id Hid. rewrite the_task_add by lia. by rewrite decide_False by lia.
  - intros id Hid. rewrite the_task_add by lia. case_decide; [done|]. rewrite the_task_out by done. apply repeat_ok_zero.
Qed.

Lemma ages_call c s : ages s (run_call c s).
Proof.
  destruct c as [[m|]|id|id|id|id d|id at_|id d|id]; cbn [run_call].
  - unfold NewTask, newTask. repeat case_match; apply ages_add; by left.
  - unfold NewTask. etransitivity; [apply (ages_add (mkTask (length (ts_modules s)) true false false 0 false 0 None 0 0 false false false)); by left|].
    by apply ages_same.
  - apply ages_Queue.
  - apply ages_QueuePrioritized.
  - apply ages_StartASAP.
  - unfold Task_MaxDelay. ages_step.
  - unfold Task_Schedule. destruct at_; (etransitivity; [|by first [apply ages_addToSchedule|apply ages_remove]]); ages_step.
  - unfold Task_Repeat. cbv zeta. destruct (Z.eqb_spec (if negb (d =? 0) && (d <? minRepeatDuration) then minRepeatDuration else d) 0) as [|Hne].
    + apply ages_update. intros t. split; [done|]. by left.
    + etransitivity; [|apply ages_addToSchedule]. apply ages_update. intros t. split; [done|]. intros _. right. simpl.
      destruct (Z.eqb_spec d 0); [by subst|]. simpl in *. destruct (Z.ltb_spec d minRepeatDuration); simpl in *; lia.
  - unfold Task_Cancel. ages_step.
Qed.

Lemma ages_runner r s s' r' : runner_step r s s' r' → ages s s'.
Proof.
  destruct 1 as [id s s' r H|id s|id s|id s|id s Hst|id s|id s]; try done.
  - unfold run_lock in H. cbv zeta in H. etransitivity; [apply (ages_remove id)|]. repeat case_match; simplify_eq; try done.
    by apply ages_update.
  - by apply ages_update.
  - by apply ages_same.
Qed.

Lemma ages_exec id pc s s' pc' : exec_step id pc s = (s', pc') → ages s s'.
Proof.
  intros H. destruct pc; simpl in H; simplify_eq; [by apply ages_same|by apply ages_update|done|by apply ages_same|].
  unfold finish_exec. cbv zeta. match goal with |- ages _ (update_task id (set_ctx ?c) ?x) => transitivity x; [|by apply ages_update] end.
  transitivity (update_task id (set_executing false) s); [by apply ages_update|].
  destruct (_ && _ && _); [|done]. etransitivity; [|apply ages_addToSchedule]. ages_step.
Qed.

Lemma ages_step_task s s' : task_step s s' → ages s s'.
Proof.
  destruct 1 as [s c _|s s' H|s s' H|s i id pc s' pc' Hi H|s i id ctx d _ _|s d _|s b|s|s i m m' _ _]; try by apply ages_same.
  - apply ages_call.
  - destruct H as [s _ _|s _ _|s _ _|s s' id _ Hp|s s' _ Hp|s s' r r' _ Hr]; try by apply ages_same.
    + unfold pop_task in Hp. repeat case_match; simplify_eq; by apply ages_same.
    + unfold pop_task in Hp. repeat case_match; simplify_eq; by apply ages_same.
    + etransitivity; [by eapply ages_runner|by apply ages_same].
  - destruct H as [s _ _|s _ _|s _ _|s _ _|s d _ _|s _|s id _|s s' r r' _ Hr]; try by apply ages_same.
    + unfold fire. destruct (taskSchedule s) as [|id l]; [by apply ages_same|]. destruct (overtime _);
        (etransitivity; [by apply (ages_update id (set_overtime true))|]; by apply ages_same) ||
        (etransitivity; [by apply (ages_update id (set_overtime false))|]; by apply ages_same).
    + etransitivity; [apply (ages_StartASAP id)|by apply ages_same].
    + etransitivity; [by eapply ages_runner|by apply ages_same].
  - etransitivity; [by eapply ages_exec|by apply ages_same].
Qed.

(** ** The lists and the fields *)

Lemma remove_task_elem id j l : j ∈ remove_task id l ↔ j ∈ l ∧ j ≠ id.
Proof.
  unfold remove_task. rewrite !list_elem_of_In, List.filter_In. split.
  - intros [H1 H2]. split; [done|]. by destruct (Nat.eqb_spec j id).
  - intros [H1 H2]. split; [done|]. by destruct (Nat.eqb_spec j id).
Qed.

Lemma remove_task_NoDup id l : NoDup l → NoDup (remove_task id l).
Proof. rewrite !NoDup_ListNoDup. apply List.NoDup_filter. Qed.

Lemma insert_before_perm tasks id at_ l : insert_before tasks id at_ l ≡ₚ id :: l.
Proof.
  induction l as [|e l IH]; [done|]. simpl. destruct (time_Before _ _); [done|]. rewrite IH. constructor.
Qed.

Lemma linked_ext l (F F' : nat → bool) (P P' : nat → Prop) :
  linked l F P → (∀ j, F' j = F j) → (∀ j, P j → P' j) → linked l F' P'.
Proof.
  intros [Hn Hf Hi] HF HP. split; [done| |]; intros j; rewrite HF; [auto|]. intros [|]%Hi; auto.
Qed.

Lemma linked_perm l l' F P : linked l F P → l ≡ₚ l' → linked l' F P.
Proof.
  intros [Hn Hf Hi] Hp. split; [by rewrite <- Hp| |]; intros j; rewrite <- Hp; auto.
Qed.

Lemma linked_push id l (F F' : nat → bool) P :
  linked l F P → F id = false → (∀ j, F' j = if decide (j = id) then true else F j) → linked (id :: l) F' P.
Proof.
  intros [Hn Hf Hi] HF HF'. split.
  - constructor; [|done]. intros Hin%Hf. congruence.
  - intros j [->|Hj]%elem_of_cons; rewrite HF'; [by rewrite decide_True|]. case_decide; [done|]. by apply Hf.
  - intros j. rewrite HF'. case_decide as Hd; [subst; left; by left|]. intros [|]%Hi; [left; by right|by right].
Qed.

Lemma linked_remove id l (F F' : nat → bool) (P P' : nat → Prop) :
  linked l F P → (∀ j, F' j = if decide (j = id) then false else F j) → (∀ j, P j → j ≠ id → P' j) → linked (remove_task id l) F' P'.
Proof.
  intros [Hn Hf Hi] HF' HP. split.
  - by apply remove_task_NoDup.
  - intros j [Hj Hne]%remove_task_elem. rewrite HF', decide_False by done. by apply Hf.
  - intros j. rewrite HF'. case_decide as Hd; [done|]. intros [|]%Hi; [left; by apply remove_task_elem|right; by apply HP].
Qed.

(** The list was not concerned. *)
Lemma linked_absent id l (F F' : nat → bool) (P P' : nat → Prop) :
  linked l F P → F id = false → (∀ j, F' j = F j) → (∀ j, P j → j ≠ id → P' j) → linked l F' P'.
Proof.
  intros [Hn Hf Hi] Hid HF' HP. split; [done|intros j; rewrite HF'; apply Hf|]. intros j. rewrite HF'. intros Hj.
  destruct (Hi j Hj) as [|Hp]; [by left|right]. apply HP; [done|]. congruence.
Qed.

Lemma move_to_front_perm id l : NoDup l → move_to_front id l ≡ₚ l.
Proof.
  intros Hn. unfold move_to_front. destruct (existsb (Nat.eqb id) l) eqn:He; [|done].
  apply existsb_exists in He as (j & Hj & ->%Nat.eqb_eq). apply list_elem_of_In in Hj.
  apply NoDup_Permutation; [|done|].
  - constructor; [|by apply remove_task_NoDup]. rewrite remove_task_elem. naive_solver.
  - intros x. rewrite elem_of_cons, remove_task_elem. destruct (decide (x = j)); naive_solver.
Qed.

(** Nothing in the lists changes. *)
Record unlinked (s s' : TaskSystem) : Prop := {
  un_q : ∀ j, queueElement (the_task s' j) = queueElement (the_task s j);
  un_p : ∀ j, prioritizedQueueElement (the_task s' j) = prioritizedQueueElement (the_task s j);
  un_s : ∀ j, scheduleListElement (the_task s' j) = scheduleListElement (the_task s j);
  un_queue : taskQueue s' = taskQueue s;
  un_prio : prioritizedTaskQueue s' = prioritizedTaskQueue s;
  un_schedule : taskSchedule s' = taskSchedule s;
}.

#[global] Instance unlinked_preorder : PreOrder unlinked.
Proof. split; [by split|]. intros s1 s2 s3 [] []. split; intros; etransitivity; eauto. Qed.

Lemma unlinked_update id f s :
  (∀ t, queueElement (f t) = queueElement t ∧ prioritizedQueueElement (f t) = prioritizedQueueElement t ∧
        scheduleListElement (f t) = scheduleListElement t) → unlinked s (update_task id f s).
Proof. intros Hf. split; [..|done|done|done]; intros j; apply update_field; apply Hf. Qed.

Lemma unlinked_same s s' :
  ts_tasks s' = ts_tasks s → taskQueue s' = taskQueue s → prioritizedTaskQueue s' = prioritizedTaskQueue s →
  taskSchedule s' = taskSchedule s → unlinked s s'.
Proof. intros H1 H2 H3 H4. split; [..|done|done|done]; intros j; unfold the_task; by rewrite H1. Qed.

Lemma lists_unlinked s s' : lists_ok s → unlinked s s' → (∀ j, popped s j → popped s' j) → lists_ok s'.
Proof.
  intros [Hq Hp Hs] [] Hpop. split.
  - rewrite un_queue0. by eapply linked_ext.
  - rewrite un_prio0. by eapply linked_ext.
  - rewrite un_schedule0. by eapply linked_ext.
Qed.

(** The field of one task after an update. *)
Lemma update_flag (field : Task → bool) id b f s j :
  (id < length (ts_tasks s))%nat → (∀ t, field (f t) = b) →
  field (the_task (update_task id f s) j) = if decide (j = id) then b else field (the_task s j).
Proof.
  intros Hlt Hf. rewrite the_task_update. destruct (decide (j = id)) as [->|Hne]; [rewrite decide_True by done; apply Hf|].
  by rewrite decide_False by naive_solver.
Qed.

Lemma lists_addToSchedule id over s :
  lists_ok s → lists_ok (addToSchedule id over s) ∧
  taskQueue (addToSchedule id over s) = taskQueue s ∧ prioritizedTaskQueue (addToSchedule id over s) = prioritizedTaskQueue s ∧
  ∀ j, queueElement (the_task (addToSchedule id over s) j) = queueElement (the_task s j) ∧
    prioritizedQueueElement (the_task (addToSchedule id over s) j) = prioritizedQueueElement (the_task s j).
Proof.
  intros Hs. unfold addToSchedule. destruct (isActive s id) eqn:Hact; [|done]. cbv zeta. pose proof (isActive_exists _ _ Hact) as Hlt.
  set (s1 := if over then update_task id (set_overtime true) s else s).
  assert (unlinked s s1) as Hu by (unfold s1; destruct over; [by apply unlinked_update|done]).
  assert (popped s1 = popped s) as Hpop by (unfold s1; by destruct over).
  assert (lists_ok s1) as [Hq Hp Hsch] by (by eapply lists_unlinked; [exact Hs|exact Hu|rewrite Hpop]).
  assert (length (ts_tasks s1) = length (ts_tasks s)) as Hlen by (unfold s1; destruct over; [apply length_update|done]).
  split_and!.
  - split.
    + eapply linked_ext; [exact Hq| |done]. intros j. by apply (update_field queueElement).
    + eapply linked_ext; [exact Hp| |done]. intros j. by apply (update_field prioritizedQueueElement).
    + cbn [taskSchedule set_signals set_taskSchedule]. eapply linked_perm; [|symmetry; apply insert_before_perm].
      eapply (linked_push id _ (λ j, if decide (j = id) then false else scheduleListElement (the_task s1 j))).
      * eapply linked_remove; [exact Hsch|done|done].
      * by rewrite decide_True.
      * intros j. etransitivity; [by apply (update_flag scheduleListElement id true); [lia|]|]. by destruct (decide (j = id)).
  - apply Hu.
  - apply Hu.
  - intros j. split.
    + transitivity (queueElement (the_task s1 j)); [by apply (update_field queueElement)|apply Hu].
    + transitivity (prioritizedQueueElement (the_task s1 j)); [by apply (update_field prioritizedQueueElement)|apply Hu].
Qed.

Lemma popped_quiet s s' : quiet s s' → popped s' = popped s.
Proof. intros [_ Hq _ _]. unfold popped. by rewrite Hq. Qed.

(** After prepForQueueing the lists agree and the queues are as before. *)
Lemma lists_prep id s s1 ok :
  lists_ok s → prepForQueueing id s = (s1, ok) →
  lists_ok s1 ∧ taskQueue s1 = taskQueue s ∧ prioritizedTaskQueue s1 = prioritizedTaskQueue s ∧
  (ok = true → (id < length (ts_tasks s1))%nat).
Proof.
  intros Hs H. pose proof (quiet_prep id s) as Hquiet. pose proof (ages_prep id s) as Hages. rewrite H in Hquiet, Hages. simpl in *.
  unfold prepForQueueing in H. destruct (isActive s id) eqn:Hact; [|by simplify_eq].
  pose proof (isActive_exists _ _ Hact) as Hlt. destruct (_ =? 0); [by simplify_eq|]. simplify_eq.
  apply ages_length in Hages. pose proof (Nat.lt_le_trans _ _ _ Hlt Hages) as Hlt'.
  set (s1 := update_task id _ s).
  assert (lists_ok s1) as Hs1 by (eapply lists_unlinked; [exact Hs|by apply unlinked_update|done]).
  destruct (lists_addToSchedule id true s1 Hs1) as (Hok & Hq & Hp & _). split_and!; [done|done|done|].
  intros _. exact Hlt'.
Qed.

Lemma flag_exists (field : Task → bool) s id : field zero_task = false → field (the_task s id) = true → (id < length (ts_tasks s))%nat.
Proof.
  intros Hz H. destruct (decide (id < length (ts_tasks s))%nat); [done|]. rewrite the_task_out in H by lia. congruence.
Qed.

Lemma lists_Queue id s : lists_ok s → lists_ok (Task_Queue id s).
Proof.
  intros Hs. unfold Task_Queue. destruct (prepForQueueing id s) as [s1 ok] eqn:Hprep.
  destruct (lists_prep id s s1 ok Hs Hprep) as (Hs1 & _ & _ & Hlt). destruct ok; [|done]. specialize (Hlt eq_refl).
  destruct (queueElement (the_task s1 id)) eqn:Hf; [by eapply lists_unlinked; [exact Hs1|apply unlinked_same|]|].
  destruct Hs1 as [Hq Hp Hsch]. split.
  - cbn. eapply linked_perm; [|apply Permutation_cons_append]. eapply linked_push; [exact Hq|done|].
    intros j. by apply (update_flag queueElement id true).
  - eapply linked_ext; [exact Hp| |done]. intros j. by apply (update_field prioritizedQueueElement).
  - eapply linked_ext; [exact Hsch| |done]. intros j. by apply (update_field scheduleListElement).
Qed.

Lemma lists_push_prio id s l :
  lists_ok s → (id < length (ts_tasks s))%nat → prioritizedQueueElement (the_task s id) = false → l ≡ₚ id :: prioritizedTaskQueue s →
  lists_ok (notifyQueue (set_prioritizedTaskQueue l
    (update_task id (λ t, set_elements (queueElement t) true (scheduleListElement t) t) s))).
Proof.
  intros [Hq Hp Hsch] Hlt Hf Hl. split.
  - eapply linked_ext; [exact Hq| |done]. intros j. by apply (update_field queueElement).
  - cbn. eapply linked_perm; [|symmetry; exact Hl]. eapply linked_push; [exact Hp|done|].
    intros j. by apply (update_flag prioritizedQueueElement id true).
  - eapply linked_ext; [exact Hsch| |done]. intros j. by apply (update_field scheduleListElement).
Qed.

Lemma lists_QueuePrioritized id s : lists_ok s → lists_ok (QueuePrioritized id s).
Proof.
  intros Hs. unfold QueuePrioritized. destruct (prepForQueueing id s) as [s1 ok] eqn:Hprep.
  destruct (lists_prep id s s1 ok Hs Hprep) as (Hs1 & _ & _ & Hlt). destruct ok; [|done]. specialize (Hlt eq_refl).
  destruct (prioritizedQueueElement (the_task s1 id)) eqn:Hf; [by eapply lists_unlinked; [exact Hs1|apply unlinked_same|]|].
  apply lists_push_prio; [done..|]. symmetry. apply Permutation_cons_append.
Qed.

Lemma lists_StartASAP id s : lists_ok s → lists_ok (StartASAP id s).
Proof.
  intros Hs. unfold StartASAP. destruct (prepForQueueing id s) as [s1 ok] eqn:Hprep.
  destruct (lists_prep id s s1 ok Hs Hprep) as (Hs1 & _ & _ & Hlt). destruct ok; [|done]. specialize (Hlt eq_refl).
  destruct (prioritizedQueueElement (the_task s1 id)) eqn:Hf.
  - destruct Hs1 as [Hq Hp Hsch]. split; [exact Hq| |exact Hsch]. cbn. eapply linked_perm; [exact Hp|].
    symmetry. apply move_to_front_perm. by destruct Hp.
  - by apply lists_push_prio.
Qed.

(** After removeFromQueues the task is in no list and no field says so. *)
Lemma lists_remove id s :
  lists_ok s →
  linked (taskQueue (removeFromQueues id s)) (λ j, queueElement (the_task (removeFromQueues id s) j)) (λ j, popped s j ∧ j ≠ id) ∧
  linked (prioritizedTaskQueue (removeFromQueues id s)) (λ j, prioritizedQueueElement (the_task (removeFromQueues id s) j)) (λ j, popped s j ∧ j ≠ id) ∧
  linked (taskSchedule (removeFromQueues id s)) (λ j, scheduleListElement (the_task (removeFromQueues id s) j)) (λ _, False).
Proof.
  intros [Hq Hp Hsch]. unfold removeFromQueues.
  set (s1 := if queueElement (the_task s id) then _ else _).
  set (s2 := if prioritizedQueueElement (the_task s1 id) then _ else _).
  set (s3 := if scheduleListElement (the_task s2 id) then _ else _). cbv zeta. fold s1. fold s2. fold s3.
  assert (linked (taskQueue s1) (λ j, queueElement (the_task s1 j)) (λ j, popped s j ∧ j ≠ id) ∧
    prioritizedTaskQueue s1 = prioritizedTaskQueue s ∧ taskSchedule s1 = taskSchedule s ∧
    (∀ j, prioritizedQueueElement (the_task s1 j) = prioritizedQueueElement (the_task s j)) ∧
    (∀ j, scheduleListElement (the_task s1 j) = scheduleListElement (the_task s j))) as (Hq1 & Hpl1 & Hsl1 & Hpf1 & Hsf1).
  { unfold s1. destruct (queueElement (the_task s id)) eqn:Hf.
    - pose proof (flag_exists queueElement s id eq_refl Hf) as Hlt. split_and!; [|done|done| |].
      + cbn. eapply linked_remove; [exact Hq| |by split]. intros j. etransitivity; [by apply (update_flag queueElement id false)|done].
      + intros j. etransitivity; [by apply (update_field prioritizedQueueElement)|done].
      + intros j. etransitivity; [by apply (update_field scheduleListElement)|done].
    - split_and!; [|done..]. eapply linked_absent; [exact Hq|exact Hf|done|by split]. }
  assert (linked (prioritizedTaskQueue s2) (λ j, prioritizedQueueElement (the_task s2 j)) (λ j, popped s j ∧ j ≠ id) ∧
    taskQueue s2 = taskQueue s1 ∧ taskSchedule s2 = taskSchedule s ∧
    (∀ j, queueElement (the_task s2 j) = queueElement (the_task s1 j)) ∧
    (∀ j, scheduleListElement (the_task s2 j) = scheduleListElement (the_task s j))) as (Hp2 & Hql2 & Hsl2 & Hqf2 & Hsf2).
  { unfold s2. destruct (prioritizedQueueElement (the_task s1 id)) eqn:Hf.
    - pose proof (flag_exists prioritizedQueueElement s1 id eq_refl Hf) as Hlt. split_and!; [|done|done| |].
      + cbn. rewrite Hpl1. eapply linked_remove; [exact Hp| |by split]. intros j.
        etransitivity; [by apply (update_flag prioritizedQueueElement id false)|]. destruct (decide (j = id)); [done|apply Hpf1].
      + intros j. etransitivity; [by apply (update_field queueElement)|done].
      + intros j. etransitivity; [by apply (update_field scheduleListElement)|]. apply Hsf1.
    - split_and!; [|done..]. rewrite Hpl1. eapply linked_absent; [exact Hp|exact (eq_trans (eq_sym (Hpf1 id)) Hf)|exact Hpf1|by split]. }
  unfold s3. destruct (scheduleListElement (the_task s2 id)) eqn:Hf.
  - pose proof (flag_exists scheduleListElement s2 id eq_refl Hf) as Hlt. split_and!.
    + cbn. rewrite Hql2. eapply linked_ext; [exact Hq1| |done]. intros j.
      etransitivity; [by apply (update_field queueElement)|]. apply Hqf2.
    + cbn. eapply linked_ext; [exact Hp2| |done]. intros j. etransitivity; [by apply (update_field prioritizedQueueElement)|done].
    + cbn. rewrite Hsl2. eapply linked_remove; [exact Hsch| |done]. intros j.
      etransitivity; [by apply (update_flag scheduleListElement id false)|]. destruct (decide (j = id)); [done|apply Hsf2].
  - split_and!.
    + rewrite Hql2. by eapply linked_ext; [exact Hq1|exact Hqf2|].
    + done.
    + rewrite Hsl2. by eapply linked_absent; [exact Hsch|exact (eq_trans (eq_sym (Hsf2 id)) Hf)|exact Hsf2|].
Qed.

Lemma lists_remove_ok id s : lists_ok s → lists_ok (removeFromQueues id s).
Proof.
  intros Hs. destruct (lists_remove id s Hs) as (Hq & Hp & Hsch). pose proof (popped_quiet _ _ (quiet_remove id s)) as Hpop.
  split; [| |done].
  - eapply linked_ext; [exact Hq|done|]. rewrite Hpop. by intros j [].
  - eapply linked_ext; [exact Hp|done|]. rewrite Hpop. by intros j [].
Qed.

Lemma lists_new t s :
  lists_ok s → queueElement t = false → prioritizedQueueElement t = false → scheduleListElement t = false →
  lists_ok (set_tasks (ts_tasks s ++ [t]) s).
Proof.
  intros Hs Hq Hp Hsch.
  assert (∀ (field : Task → bool) j, field zero_task = false → field t = false →
    field (the_task (set_tasks (ts_tasks s ++ [t]) s) j) = field (the_task s j)) as Hfield.
  { intros field j Hz Ht. rewrite the_task_add by lia. case_decide as Hd; [|done]. subst. rewrite the_task_out by lia. congruence. }
  eapply lists_unlinked; [exact Hs| |done]. split; [..|done|done|done]; intros j; by apply Hfield.
Qed.

Lemma lists_call c s : lists_ok s → lists_ok (run_call c s).
Proof.
  intros Hs. destruct c as [[m|]|id|id|id|id d|id at_|id d|id]; cbn [run_call].
  - unfold NewTask, newTask. repeat case_match; by apply lists_new.
  - unfold NewTask. eapply lists_unlinked; [apply (lists_new (mkTask (length (ts_modules s)) true false false 0 false 0 None 0 0 false false false)); [exact Hs|done..]|by apply unlinked_same|done].
  - by apply lists_Queue.
  - by apply lists_QueuePrioritized.
  - by apply lists_StartASAP.
  - eapply lists_unlinked; [exact Hs|by apply unlinked_update|done].
  - unfold Task_Schedule. assert (lists_ok (update_task id (set_executeAt at_) s)) as H1
      by (eapply lists_unlinked; [exact Hs|by apply unlinked_update|done]).
    destruct at_; [by apply lists_addToSchedule|by apply lists_remove_ok].
  - unfold Task_Repeat. cbv zeta. destruct (_ =? 0); [eapply lists_unlinked; [exact Hs|by apply unlinked_update|done]|].
    apply lists_addToSchedule. eapply lists_unlinked; [exact Hs|by apply unlinked_update|done].
  - eapply lists_unlinked; [exact Hs|by apply unlinked_update|done].
Qed.

(** A runner that has passed the lock leaves its task unlinked. *)
Lemma lists_runner r s s' r' :
  runner_step r s s' r' → lists_ok s →
  linked (taskQueue s') (λ j, queueElement (the_task s' j)) (λ j, popped s j ∧ r ≠ RunLock j) ∧
  linked (prioritizedTaskQueue s') (λ j, prioritizedQueueElement (the_task s' j)) (λ j, popped s j ∧ r ≠ RunLock j) ∧
  linked (taskSchedule s') (λ j, scheduleListElement (the_task s' j)) (λ _, False).
Proof.
  intros H Hs. assert ((∃ id, r = RunLock id) ∨ ¬ ∃ id, r = RunLock id) as [[id ->]|Hr] by (destruct r; [left; by eexists|right; by intros [? ?]..]).
  - inversion H as [? ? s1 r1 Hrun| | | | | |]; subst. unfold run_lock in Hrun. cbv zeta in Hrun.
    destruct (lists_remove id s Hs) as (Hq & Hp & Hsch). revert Hrun Hq Hp Hsch. generalize (removeFromQueues id s). intros s1 Hrun Hq Hp Hsch.
    assert (unlinked s1 s') as [] by (repeat case_match; simplify_eq; try done; by apply unlinked_update).
    split_and!; rewrite ?un_queue0, ?un_prio0, ?un_schedule0; (eapply linked_ext; [eassumption|done|]); try done;
      intros j [Hj Hne]; (split; [done|congruence]).
  - destruct Hs as [Hq Hp Hsch]. assert (unlinked s s') as [].
    { destruct H; first [done|exfalso; apply Hr; by eexists|by apply unlinked_update|by apply unlinked_same]. }
    split_and!; rewrite ?un_queue0, ?un_prio0, ?un_schedule0; (eapply linked_ext; [eassumption|done|]); try done;
      intros j Hj; (split; [done|]); intros ->; apply Hr; by eexists.
Qed.

Lemma runner_queues r s s' r' : runner_step r s s' r' →
  ts_queue s' = ts_queue s ∧ queueIsFilled s' = queueIsFilled s.
Proof.
  assert (∀ id s, ts_queue (removeFromQueues id s) = ts_queue s ∧ queueIsFilled (removeFromQueues id s) = queueIsFilled s) as Hrem.
  { intros id s0. split; [apply (quiet_remove id s0)|]. unfold removeFromQueues. cbv zeta.
    destruct (queueElement (the_task s0 id)); (match goal with |- context [prioritizedQueueElement ?t] => destruct (prioritizedQueueElement t) end);
      (match goal with |- context [scheduleListElement ?t] => destruct (scheduleListElement t) end); done. }
  destruct 1 as [id s s' r H|id s|id s|id s|id s Hst|id s|id s]; try done.
  destruct (Hrem id s) as [H1 H2]. unfold run_lock in H. cbv zeta in H. repeat case_match; simplify_eq; done.
Qed.

Lemma lists_step_queue s s' : lists_ok s → queue_step s s' → lists_ok s'.
Proof.
  intros Hs H. destruct H as [s Hq _|s Hq _|s Hq _|s s' id Hq Hp|s s' Hq Hp|s s' r r' Hq Hr].
  - eapply lists_unlinked; [exact Hs|by apply unlinked_same|]. unfold popped. rewrite Hq. done.
  - eapply lists_unlinked; [exact Hs|by apply unlinked_same|]. unfold popped. rewrite Hq. done.
  - eapply lists_unlinked; [exact Hs|by apply unlinked_same|]. unfold popped. rewrite Hq. done.
  - destruct Hs as [Hlq Hlp Hsch]. unfold pop_task in Hp.
    assert (∀ (l : list nat) F, linked (id :: l) F (popped s) → linked l F (λ j, j = id)) as Hpop.
    { intros l F [Hn Hf Hi]. apply NoDup_cons in Hn as [Hni Hn]. split; [done|intros j Hj; apply Hf; by right|].
      intros j [[->|Hj]%elem_of_cons|Hj]%Hi; [by right|by left|]. unfold popped in Hj. rewrite Hq in Hj. done. }
    assert (∀ (l : list nat) F, linked l F (popped s) → linked l F (popped (set_queue_pc (QRun (RunLock id)) s))) as Hkeep.
    { intros l F Hl. eapply linked_ext; [exact Hl|done|]. unfold popped. rewrite Hq. done. }
    destruct (prioritizedTaskQueue s) as [|p lp] eqn:Hlist.
    + destruct (taskQueue s) as [|q lq] eqn:Hlist2; [done|]. simplify_eq. split; [|by rewrite <- Hlist in Hlp; apply Hkeep in Hlp|exact Hsch].
      eapply linked_ext; [by apply Hpop|done|]. by intros j ->.
    + simplify_eq. split; [by apply Hkeep in Hlq| |exact Hsch]. eapply linked_ext; [by apply Hpop|done|]. by intros j ->.
  - unfold pop_task in Hp. repeat case_match; simplify_eq.
    eapply lists_unlinked; [exact Hs|by apply unlinked_same|]. unfold popped. rewrite Hq. done.
  - destruct (lists_runner _ _ _ _ Hr Hs) as (Hlq & Hlp & Hsch).
    assert (∀ j, popped s j → r ≠ RunLock j → False) as Hno by (intros j Hj Hne; unfold popped in Hj; rewrite Hq in Hj; congruence).
    split; [| |exact Hsch].
    + eapply linked_ext; [exact Hlq|done|]. intros j [Hj Hne]. by destruct (Hno j).
    + eapply linked_ext; [exact Hlp|done|]. intros j [Hj Hne]. by destruct (Hno j).
Qed.

Lemma lists_step_schedule s s' : lists_ok s → schedule_step s s' → lists_ok s'.
Proof.
  intros Hs H. destruct H as [s Hq _|s Hq _|s Hq _|s Hq _|s d Hq _|s Hq|s id Hq|s s' r r' Hq Hr].
  1-5: by eapply lists_unlinked; [exact Hs|apply unlinked_same|].
  - unfold fire. destruct (taskSchedule s) as [|id l]; [by eapply lists_unlinked; [exact Hs|apply unlinked_same|]|].
    destruct (overtime (the_task s id)); (eapply lists_unlinked; [exact Hs| |done]).
    + transitivity (update_task id (set_overtime false) s); [by apply unlinked_update|by apply unlinked_same].
    + transitivity (update_task id (set_overtime true) s); [by apply unlinked_update|by apply unlinked_same].
  - eapply lists_unlinked; [by apply (lists_StartASAP id)|by apply unlinked_same|done].
  - destruct (lists_runner _ _ _ _ Hr Hs) as (Hlq & Hlp & Hsch). destruct (runner_queues _ _ _ _ Hr) as [Hqq _].
    split; [| |exact Hsch].
    + eapply linked_ext; [exact Hlq|done|]. intros j [Hj _]. unfold popped in *. simpl. by rewrite Hqq.
    + eapply linked_ext; [exact Hlp|done|]. intros j [Hj _]. unfold popped in *. simpl. by rewrite Hqq.
Qed.

Lemma lists_exec id pc s s' pc' : lists_ok s → exec_step id pc s = (s', pc') → lists_ok s'.
Proof.
  intros Hs H. destruct pc; simpl in H; simplify_eq.
  - by eapply lists_unlinked; [exact Hs|apply unlinked_same|].
  - by eapply lists_unlinked; [exact Hs|apply unlinked_update|].
  - done.
  - by eapply lists_unlinked; [exact Hs|apply unlinked_same|].
  - unfold finish_exec. cbv zeta. match goal with |- lists_ok (update_task id (set_ctx ?c) ?x) => assert (lists_ok x) as Hx end.
    2: { eapply lists_unlinked; [exact Hx|by apply unlinked_update|done]. }
    assert (lists_ok (update_task id (set_executing false) s)) as H1 by (eapply lists_unlinked; [exact Hs|by apply unlinked_update|done]).
    destruct (_ && _ && _); [|done]. apply lists_addToSchedule. eapply lists_unlinked; [exact H1|by apply unlinked_update|done].
Qed.

Lemma lists_step s s' : lists_ok s → task_step s s' → lists_ok s'.
Proof.
  intros Hs H. destruct H as [s c _|s s' H|s s' H|s i id pc s' pc' Hi H|s i id ctx d _ _|s d _|s b|s|s i m m' _ _].
  - by apply lists_call.
  - by eapply lists_step_queue.
  - by eapply lists_step_schedule.
  - eapply lists_unlinked; [by eapply lists_exec|by apply unlinked_same|done].
  - by eapply lists_unlinked; [exact Hs|apply unlinked_same|].
  - by eapply lists_unlinked; [exact Hs|apply unlinked_same|].
  - by eapply lists_unlinked; [exact Hs|apply unlinked_same|].
  - by eapply lists_unlinked; [exact Hs|apply unlinked_same|].
  - by eapply lists_unlinked; [exact Hs|apply unlinked_same|].
Qed.

(** ** Sleeping *)

Definition queued (s : TaskSystem) : Prop := taskQueue s ≠ [] ∨ prioritizedTaskQueue s ≠ [].

(** A task that is added to a queue comes with the signal. *)
Record wakes (s s' : TaskSystem) : Prop := {
  wakes_queue : ts_queue s' = ts_queue s;
  wakes_signal : queueIsFilled s = true → queueIsFilled s' = true;
  wakes_queued : queued s' → queued s ∨ queueIsFilled s' = true;
}.

#[global] Instance wakes_preorder : PreOrder wakes.
Proof. split; [split; by auto|]. intros s1 s2 s3 [] []. split; [congruence|auto|]. intros [H|H]%wakes_queued1; [|by right]. destruct (wakes_queued0 H); auto. Qed.

Lemma wakes_same s s' :
  ts_queue s' = ts_queue s → queueIsFilled s' = queueIsFilled s → taskQueue s' = taskQueue s →
  prioritizedTaskQueue s' = prioritizedTaskQueue s → wakes s s'.
Proof. intros H1 H2 H3 H4. split; [done|by rewrite H2|]. unfold queued. rewrite H3, H4. by left. Qed.

Lemma wakes_update id f s : wakes s (update_task id f s).
Proof. by apply wakes_same. Qed.

Lemma wakes_notify s s' : ts_queue s' = ts_queue s → queueIsFilled s' = true → wakes s s'.
Proof. intros H1 H2. split; [done|done|by right]. Qed.

Lemma wakes_addToSchedule id over s : wakes s (addToSchedule id over s).
Proof. unfold addToSchedule. destruct (isActive s id); [|done]. by destruct over; apply wakes_same. Qed.

Lemma wakes_remove id s : wakes s (removeFromQueues id s).
Proof.
  assert (∀ l : list nat, remove_task id l ≠ [] → l ≠ []) as Hrem by (intros [|]; done).
  unfold removeFromQueues.
  set (s1 := if queueElement (the_task s id) then _ else _).
  assert (wakes s s1) as H1.
  { unfold s1. destruct (queueElement (the_task s id)); [|done]. split; [done|done|]. unfold queued. simpl. intros [H|H]; left; auto. }
  etransitivity; [exact H1|]. cbv zeta. set (s2 := if prioritizedQueueElement (the_task s1 id) then _ else _).
  assert (wakes s1 s2) as H2.
  { unfold s2. destruct (prioritizedQueueElement (the_task s1 id)); [|done]. split; [done|done|]. unfold queued. simpl. intros [H|H]; left; auto. }
  etransitivity; [exact H2|]. destruct (scheduleListElement (the_task s2 id)); [|done]. by apply wakes_same.
Qed.

Lemma wakes_prep id s : wakes s (prepForQueueing id s).1.
Proof.
  unfold prepForQueueing. destruct (isActive s id); [|done]. destruct (_ =? 0); [done|]. simpl.
  etransitivity; [apply wakes_update|apply wakes_addToSchedule].
Qed.

Lemma wakes_call c s : wakes s (run_call c s).
Proof.
  destruct c as [[m|]|id|id|id|id d|id at_|id d|id]; cbn [run_call].
  - unfold NewTask, newTask. by repeat case_match; apply wakes_same.
  - by apply wakes_same.
  - unfold Task_Queue. pose proof (wakes_prep id s) as H. destruct (prepForQueueing id s) as [s1 ok]. simpl in H.
    etransitivity; [exact H|]. destruct ok; [|done]. by apply wakes_notify; [destruct (queueElement (the_task s1 id))|].
  - unfold QueuePrioritized. pose proof (wakes_prep id s) as H. destruct (prepForQueueing id s) as [s1 ok]. simpl in H.
    etransitivity; [exact H|]. destruct ok; [|done]. by apply wakes_notify; [destruct (prioritizedQueueElement (the_task s1 id))|].
  - unfold StartASAP. pose proof (wakes_prep id s) as H. destruct (prepForQueueing id s) as [s1 ok]. simpl in H.
    etransitivity; [exact H|]. destruct ok; [|done]. by apply wakes_notify; [destruct (prioritizedQueueElement (the_task s1 id))|].
  - apply wakes_update.
  - unfold Task_Schedule. destruct at_; (etransitivity; [apply wakes_update|]); [apply wakes_addToSchedule|apply wakes_remove].
  - unfold Task_Repeat. cbv zeta. destruct (_ =? 0); [apply wakes_update|]. etransitivity; [apply wakes_update|apply wakes_addToSchedule].
  - apply wakes_update.
Qed.

Lemma wakeup_wakes s s' : wakeup_ok s → wakes s s' → wakeup_ok s'.
Proof. intros H [Hq Hf Hw] Hpc Hne. rewrite Hq in Hpc. destruct (Hw Hne) as [|]; [|done]. apply Hf, H; done. Qed.

Lemma wakes_runner r s s' r' : runner_step r s s' r' → wakes s s'.
Proof.
  destruct 1 as [id s s' r H|id s|id s|id s|id s Hst|id s|id s]; try by apply wakes_same.
  unfold run_lock in H. cbv zeta in H. etransitivity; [apply (wakes_remove id)|]. repeat case_match; simplify_eq; try done. apply wakes_update.
Qed.

Lemma wakes_exec id pc s s' pc' : exec_step id pc s = (s', pc') → wakes s s'.
Proof.
  intros H. destruct pc; simpl in H; simplify_eq; try by apply wakes_same.
  unfold finish_exec. cbv zeta. match goal with |- wakes _ (update_task id (set_ctx ?c) ?x) => transitivity x; [|by apply wakes_update] end.
  transitivity (update_task id (set_executing false) s); [by apply wakes_update|].
  destruct (_ && _ && _); [|done]. etransitivity; [apply wakes_update|apply wakes_addToSchedule].
Qed.

Lemma wakeup_step s s' : wakeup_ok s → task_step s s' → wakeup_ok s'.
Proof.
  intros Hs H. destruct H as [s c _|s s' H|s s' H|s i id pc s' pc' Hi H|s i id ctx d _ _|s d _|s b|s|s i m m' _ _].
  - by eapply wakeup_wakes; [|apply wakes_call].
  - destruct H as [s Hq _|s Hq _|s Hq _|s s' id Hq Hp|s s' Hq Hp|s s' r r' Hq Hr].
    + done.
    + done.
    + intros Hpc. simpl in Hpc. by destruct (shutdownFlag s).
    + done.
    + unfold pop_task in Hp. destruct (prioritizedTaskQueue s) eqn:Hpl; [destruct (taskQueue s) eqn:Hql|]; simplify_eq.
      intros _. simpl. rewrite Hpl, Hql. by intros [].
    + intros Hpc. simpl in Hpc. by destruct r'.
  - destruct H as [s Hq _|s Hq _|s Hq _|s Hq _|s d Hq _|s Hq|s id Hq|s s' r r' Hq Hr].
    1-5: by eapply wakeup_wakes; [exact Hs|apply wakes_same].
    + unfold fire. destruct (taskSchedule s); [by eapply wakeup_wakes; [exact Hs|apply wakes_same]|].
      destruct (overtime _); by eapply wakeup_wakes; [exact Hs|apply wakes_same].
    + eapply wakeup_wakes; [exact Hs|]. etransitivity; [apply (wakes_call (CallStartASAP id))|by apply wakes_same].
    + eapply wakeup_wakes; [exact Hs|]. etransitivity; [by eapply wakes_runner|by apply wakes_same].
  - eapply wakeup_wakes; [exact Hs|]. etransitivity; [by eapply wakes_exec|by apply wakes_same].
  - by eapply wakeup_wakes; [exact Hs|apply wakes_same].
  - by eapply wakeup_wakes; [exact Hs|apply wakes_same].
  - by eapply wakeup_wakes; [exact Hs|apply wakes_same].
  - by eapply wakeup_wakes; [exact Hs|apply wakes_same].
  - by eapply wakeup_wakes; [exact Hs|apply wakes_same].
Qed.

(** ** Cancellation *)

Lemma canceled_remove id j s : canceled (the_task (removeFromQueues id s) j) = canceled (the_task s j).
Proof.
  assert (∀ s1 f s2, canceled (the_task s2 j) = canceled (the_task s1 j) → (∀ t, canceled (f t) = canceled t) →
    canceled (the_task (update_task id f s2) j) = canceled (the_task s1 j)) as Hup by (intros ? ? ? <- Hf; by apply update_field).
  unfold removeFromQueues. set (s1 := if queueElement (the_task s id) then _ else _).
  assert (canceled (the_task s1 j) = canceled (the_task s j)) as <- by (unfold s1; destruct (queueElement _); [by apply Hup|done]).
  cbv zeta. set (s2 := if prioritizedQueueElement (the_task s1 id) then _ else _).
  assert (canceled (the_task s2 j) = canceled (the_task s1 j)) as <- by (unfold s2; destruct (prioritizedQueueElement _); [by apply Hup|done]).
  destruct (scheduleListElement _); [by apply Hup|done].
Qed.

Lemma runner_cancel r s s' r' id :
  runner_step r s s' r' → canceled (the_task s id) = true → executing (the_task s id) = false → executing (the_task s' id) = false.
Proof.
  destruct 1 as [j s s' r H|j s|j s|j s|j s Hst|j s|j s]; intros Hc He; try done.
  - unfold run_lock in H. cbv zeta in H. pose proof (quiet_executing _ _ (quiet_remove j s) id) as Hq.
    pose proof (canceled_remove j id s) as Hcc. rewrite Hc in Hcc. rewrite He in Hq.
    revert H Hq Hcc. generalize (removeFromQueues j s). intros s1 H Hq Hcc.
    destruct (executing (the_task s1 j)) eqn:Hex; [by simplify_eq|]. destruct (isActive s1 j) eqn:Hact; simpl in H; [|by simplify_eq].
    destruct (ctx_done s1 (the_task s1 j)); [by simplify_eq|]. simplify_eq. rewrite the_task_update. case_decide as Hd; [|done].
    destruct Hd as [-> Hlt]. unfold isActive in Hact. by rewrite Hcc in Hact.
  - rewrite the_task_update. case_decide; done.
Qed.

(** A task that is canceled and not being executed stays so. *)
Definition retired (id : nat) (s : TaskSystem) : Prop :=
  (id < length (ts_tasks s))%nat ∧ canceled (the_task s id) = true ∧ executing (the_task s id) = false.

Lemma retired_step id s s' : execution_ok s → retired id s → task_step s s' → retired id s'.
Proof.
  intros Hok (Hlt & Hc & He) H. pose proof (ages_step_task s s' H) as Ha.
  split; [pose proof (ages_length _ _ Ha); lia|]. split; [by apply (ages_task _ _ Ha id Hlt)|].
  destruct H as [s c _|s s' H|s s' H|s i j pc s' pc' Hi H|s i j ctx d _ _|s d _|s b|s|s i m m' _ _]; try done.
  - by rewrite (quiet_executing _ _ (quiet_call c s)).
  - destruct H as [s Hq _|s Hq _|s Hq _|s s' j Hq Hp|s s' Hq Hp|s s' r r' Hq Hr]; try done.
    + unfold pop_task in Hp. by repeat case_match; simplify_eq.
    + unfold pop_task in Hp. by repeat case_match; simplify_eq.
    + by eapply runner_cancel in Hr.
  - destruct H as [s Hq _|s Hq _|s Hq _|s Hq _|s d Hq _|s Hq|s j Hq|s s' r r' Hq Hr]; try done.
    + unfold fire. destruct (taskSchedule s); [done|]. by destruct (overtime _); rewrite <- He; apply (update_field executing).
    + by apply (quiet_executing _ _ (quiet_StartASAP j s)) || (rewrite <- He; apply (quiet_executing _ _ (quiet_StartASAP j s))).
    + by eapply runner_cancel in Hr.
  - assert (executing (the_task s j) = true) as Hj.
    { apply executor_marked; [done|]. unfold executors. rewrite (in_execs_delete j _ _ _ _ Hi), decide_True by done. lia. }
    change (the_task (set_execs _ s') id) with (the_task s' id).
    destruct pc; simpl in H; simplify_eq; try done.
    + rewrite <- He. by apply (update_field executing).
    + destruct (finish_exec_ok j s (executing_exists _ _ Hj)) as [Hf _]. rewrite Hf. by case_decide.
Qed.

(** ** Executable runs *)

Inductive task_label : Type :=
| LCall (c : task_call)
| LQueue
| LSchedule
| LNotify
| LTimer
| LExec (i : nat)
| LWgDone (i : nat)
| LTime (d : Z).

Definition exec_runner (r : runner) (s : TaskSystem) : option (TaskSystem * option runner) :=
  match r with
  | RunLock id => Some (run_lock id s)
  | RunTimeslot id => Some (s, Some (RunOnline id))
  | RunOnline id => Some (s, Some (if tm_Online (module_of s (the_task s id)) then RunSpawn id else RunOnlineSoon id))
  | RunOnlineSoon id => Some (s, Some (if tm_OnlineSoon (module_of s (the_task s id)) then RunAwaitStart id else RunAbort id))
  | RunAwaitStart id => if tm_StartCompleted (module_of s (the_task s id)) then Some (s, Some (RunSpawn id)) else None
  | RunAbort id => Some (update_task id (set_executing false) s, None)
  | RunSpawn id =>
      Some (set_execs (ts_execs s ++ [(id, ExecBegin)])
        (set_waits (ts_waits s ++ [(id, task_ctx (the_task s id), ts_now s + maxExecutionWait)]) (set_queueWg (S (queueWg s)) s)), None)
  end.

#[global] Instance call_on_dec c s : Decision (call_on c s).
Proof. destruct c as [[m|]| | | | | | |]; simpl; apply _. Defined.

(** The step with the label, where it is possible. *)
Definition exec_label (l : task_label) (s : TaskSystem) : option TaskSystem :=
  match l with
  | LCall c => if decide (call_on c s) then Some (run_call c s) else None
  | LQueue =>
      match ts_queue s with
      | QWait => if queueIsFilled s then Some (set_queue_pc QLoop (set_signals false (notifyTaskScheduler s) s)) else None
      | QLoop => if decide (queueWg s = 0%nat) then Some (set_queue_pc (if shutdownFlag s then QStopped else QPop) s) else None
      | QPop =>
          let '(s', o) := pop_task s in
          Some (set_queue_pc (match o with Some id => QRun (RunLock id) | None => QWait end) s')
      | QRun r => '(s', r') ← exec_runner r s; Some (set_queue_pc (match r' with Some r => QRun r | None => QLoop end) s')
      | QStopped => None
      end
  | LSchedule =>
      match ts_schedule s with
      | SLoop => Some (set_schedule_pc (if sleepMode s then SSleep else SWait (next_deadline s)) s)
      | SFire => Some (fire s)
      | SStartASAP id => Some (set_schedule_pc SLoop (StartASAP id s))
      | SRun r => '(s', r') ← exec_runner r s; Some (set_schedule_pc (match r' with Some r => SRun r | None => SLoop end) s')
      | SSleep | SWait _ | SStopped => None
      end
  | LNotify =>
      match ts_schedule s with
      | SSleep | SWait _ => if notifyTaskScheduler s then Some (set_schedule_pc SLoop (set_signals (queueIsFilled s) false s)) else None
      | _ => None
      end
  | LTimer =>
      match ts_schedule s with
      | SWait (Some d) => if d <=? ts_now s then Some (set_schedule_pc SFire s) else None
      | _ => None
      end
  | LExec i =>
      '(id, pc) ← ts_execs s !! i;
      let '(s', pc') := exec_step id pc s in
      Some (set_execs (match pc' with Some pc' => <[i := (id, pc')]> (ts_execs s') | None => delete i (ts_execs s') end) s')
  | LWgDone i =>
      '(id, ctx, deadline) ← ts_waits s !! i;
      if (deadline <=? ts_now s) || negb (Nat.eqb ctx (task_ctx (the_task s id))) || ctx_done s (the_task s id)
      then Some (set_waits (delete i (ts_waits s)) (set_queueWg (pred (queueWg s)) s)) else None
  | LTime d => if 0 <=? d then Some (set_outside (sleepMode s) (shutdownFlag s) (ts_now s + d) s) else None
  end.

Fixpoint exec_labels (ls : list task_label) (s : TaskSystem) : option TaskSystem :=
  match ls with
  | [] => Some s
  | l :: ls => s' ← exec_label l s; exec_labels ls s'
  end.

Lemma exec_runner_sound r s s' r' : exec_runner r s = Some (s', r') → runner_step r s s' r'.
Proof.
  destruct r; simpl; intros H; simplify_eq; try by constructor.
  case_match; simplify_eq. by constructor.
Qed.

Lemma exec_label_sound l s s' : exec_label l s = Some s' → task_step s s'.
Proof.
  destruct l as [c| | | | |i|i|d]; simpl; intros H.
  - case_decide; simplify_eq. by constructor.
  - apply StepQueue. destruct (ts_queue s) as [| | |r|] eqn:Hq; [..|done].
    + destruct (queueIsFilled s) eqn:Hf; simplify_eq. by constructor.
    + case_decide; simplify_eq. by constructor.
    + destruct (pop_task s) as [s1 [id|]] eqn:Hp; simplify_eq; by econstructor.
    + apply bind_Some in H as ([s1 r'] & Hr & [= <-]). eapply QSRun; [exact Hq|]. by apply exec_runner_sound.
  - apply StepSchedule. destruct (ts_schedule s) as [| |d| |id|r|] eqn:Hq; [|done|done| | | |done].
    + destruct (sleepMode s) eqn:Hm; simplify_eq; by constructor.
    + simplify_eq. by constructor.
    + simplify_eq. by constructor.
    + apply bind_Some in H as ([s1 r'] & Hr & [= <-]). eapply SSRun; [exact Hq|]. by apply exec_runner_sound.
  - apply StepSchedule. destruct (ts_schedule s) as [| |d| |id|r|] eqn:Hq; try done; (case_match; simplify_eq; constructor; [|done]); rewrite Hq; eauto.
  - apply StepSchedule. destruct (ts_schedule s) as [| |[d|]| |id|r|] eqn:Hq; try done.
    destruct (Z.leb_spec d (ts_now s)); simplify_eq. by econstructor.
  - apply bind_Some in H as ([id pc] & Hi & H). destruct (exec_step id pc s) as [s1 pc'] eqn:He. simplify_eq.
    by eapply StepExec.
  - apply bind_Some in H as ([[id ctx] deadline] & Hi & H).
    destruct ((deadline <=? ts_now s) || negb (Nat.eqb ctx (task_ctx (the_task s id))) || ctx_done s (the_task s id)) eqn:Hc; simplify_eq.
    eapply StepWgDone; [exact Hi|]. apply orb_prop in Hc as [[Hc|Hc]%orb_prop|Hc]; [left; by apply Z.leb_le|right; left|by right; right].
    by apply negb_true_iff, Nat.eqb_neq in Hc.
  - destruct (Z.leb_spec 0 d); simplify_eq. by constructor.
Qed.

Lemma task_reach_trans s1 s2 s3 : task_reach s1 s2 → task_reach s2 s3 → task_reach s1 s3.
Proof. intros H1 H2. induction H2 as [|? ? ? _ IH Hs]; [done|]. eapply TaskNext; [|exact Hs]. by apply IH. Qed.

Lemma exec_labels_sound ls s s' : exec_labels ls s = Some s' → task_reach s s'.
Proof.
  revert s. induction ls as [|l ls IH]; simpl; intros s H; [simplify_eq; constructor|].
  apply bind_Some in H as (s1 & Hl%exec_label_sound & H). eapply task_reach_trans; [|by apply IH].
  eapply TaskNext; [constructor|exact Hl].
Qed.

(** ** Scheduling *)

(** The task is not to be executed after the other one. *)
Definition not_after (tasks : list Task) (a b : nat) : Prop :=
  time_Before (executeAt (default zero_task (tasks !! b))) (executeAt (default zero_task (tasks !! a))) = false.

Lemma time_not_Before_trans a b c : time_Before b a = false → time_Before c b = false → time_Before c a = false.
Proof. destruct a, b, c; simpl; try done; rewrite ?Z.ltb_ge; lia. Qed.

Lemma time_Before_not a b : time_Before a b = true → time_Before b a = false.
Proof. destruct a, b; simpl; try done. rewrite Z.ltb_lt, Z.ltb_ge. lia. Qed.

#[global] Instance not_after_trans tasks : Transitive (not_after tasks).
Proof. intros a b c H1 H2. by eapply time_not_Before_trans. Qed.

(** The new task goes before the first one that is later. *)
Lemma insert_before_split tasks id at_ l :
  ∃ l1 l2, l = l1 ++ l2 ∧ insert_before tasks id at_ l = l1 ++ id :: l2 ∧
    Forall (λ e, time_Before at_ (executeAt (default zero_task (tasks !! e))) = false) l1 ∧
    match l2 with e :: _ => time_Before at_ (executeAt (default zero_task (tasks !! e))) = true | [] => True end.
Proof.
  induction l as [|e l (l1 & l2 & Hl & Hi & Hf & Hh)]; simpl; [by exists [], []|].
  destruct (time_Before at_ _) eqn:Hb; [by exists [], (e :: l)|]. exists (e :: l1), l2. subst. rewrite Hi.
  split_and!; [done|done|by constructor|done].
Qed.

Lemma sorted_app_inv (R : relation nat) l1 l2 :
  StronglySorted R (l1 ++ l2) → StronglySorted R l1 ∧ StronglySorted R l2 ∧ ∀ x y, x ∈ l1 → y ∈ l2 → R x y.
Proof.
  induction l1 as [|x l1 IH]; simpl; intros H; [split_and!; [constructor|done|by intros ? ? ?%elem_of_nil]|].
  apply StronglySorted_inv in H as [H Hx]. apply IH in H as (H1 & H2 & H3). rewrite Forall_forall in Hx. split_and!; [|done|].
  - constructor; [done|]. apply Forall_forall. intros y Hy. apply Hx. apply elem_of_app. by left.
  - intros y z [->|Hy]%elem_of_cons Hz; [|by apply H3]. apply Hx. apply elem_of_app. by right.
Qed.

Lemma sorted_app (R : relation nat) l1 l2 :
  StronglySorted R l1 → StronglySorted R l2 → (∀ x y, x ∈ l1 → y ∈ l2 → R x y) → StronglySorted R (l1 ++ l2).
Proof.
  induction l1 as [|x l1 IH]; simpl; intros H1 H2 H3; [done|]. apply StronglySorted_inv in H1 as [H1 Hx]. constructor.
  - apply IH; [done|done|]. intros a b Ha Hb. apply H3; [by right|done].
  - apply Forall_app. split; [done|]. apply Forall_forall. intros y Hy. apply H3; [by left|done].
Qed.

Lemma insert_before_sorted tasks id l :
  StronglySorted (not_after tasks) l →
  StronglySorted (not_after tasks) (insert_before tasks id (executeAt (default zero_task (tasks !! id))) l).
Proof.
  intros Hl. destruct (insert_before_split tasks id (executeAt (default zero_task (tasks !! id))) l) as (l1 & l2 & -> & -> & Hf & Hh).
  apply sorted_app_inv in Hl as (H1 & H2 & H3). rewrite Forall_forall in Hf.
  assert (∀ y, y ∈ l2 → not_after tasks id y) as Hid.
  { destruct l2 as [|e l2]; [by intros y ?%elem_of_nil|]. apply time_Before_not in Hh. apply StronglySorted_inv in H2 as [_ He].
    rewrite Forall_forall in He. intros y [->|Hy]%elem_of_cons; [done|]. etransitivity; [exact Hh|by apply He]. }
  apply sorted_app; [done| |].
  - constructor; [done|]. by apply Forall_forall.
  - intros x y Hx [->|Hy]%elem_of_cons; [by apply Hf|by apply H3].
Qed.

(** The next three runs belong to one module that is online. *)
Definition online_module : TaskModule := mkTaskModule true true true (Some 0%nat) false 0.

Definition one_module : TaskSystem := task_init [online_module] 0.

(** Steps of the queue handler from its wait to the execution of a task. *)
Definition dequeue : list task_label := replicate 7 LQueue.

Definition execution : list task_label := replicate 5 (LExec 0).

(** Task 0 is queued and executed, task 1 is scheduled in an hour. *)
Definition early_run : list task_label :=
  [LCall (CallNew (Some 0%nat)); LCall (CallNew (Some 0%nat)); LCall (CallSchedule 1 (Some (60 * minute)));
   LCall (CallQueue 0); LSchedule; LNotify; LSchedule] ++ dequeue ++ execution ++
  [LWgDone 0; LQueue; LQueue; LTime minute; LTimer; LSchedule; LSchedule] ++ dequeue ++ [LExec 0; LExec 0].

(** The repeating task 0 queues itself while it is executed. *)
Definition requeue_run : list task_label :=
  [LCall (CallNew (Some 0%nat)); LCall (CallRepeat 0 (10 * minute)); LCall (CallQueue 0)] ++ dequeue ++
  [LExec 0; LExec 0; LCall (CallQueue 0); LTime minute; LWgDone 0] ++ replicate 5 LQueue ++ replicate 3 (LExec 0) ++
  replicate 3 LQueue ++ [LSchedule; LNotify; LSchedule].

(** Task 0 is scheduled in an hour after the handler took it from the queue. *)
Definition reset_run : list task_label :=
  [LCall (CallNew (Some 0%nat)); LCall (CallQueue 0)] ++ replicate 4 LQueue ++ [LCall (CallSchedule 0 (Some (60 * minute)))] ++
  replicate 3 LQueue ++ execution ++ [LSchedule; LNotify; LSchedule; LTimer; LSchedule; LSchedule; LWgDone 0] ++
  replicate 6 LQueue ++ [LExec 0; LExec 0].


(** Both handlers sleep and nothing is signalled, listed or executed. *)
Definition asleep (s : TaskSystem) : Prop :=
  ts_queue s = QWait ∧ ts_schedule s = SWait None ∧ queueIsFilled s = false ∧ notifyTaskScheduler s = false ∧
  taskQueue s = [] ∧ prioritizedTaskQueue s = [] ∧ taskSchedule s = [] ∧ ts_execs s = [].

(** ** Theorems *)

(** C14: At any time a task is executed, or waited for by a handler that is going to
    execute it, at most once: exactly when its executing flag is set. *)
Theorem task_executes_once ms now s id :
  task_reach (task_init ms now) s →
  (executors id s <= 1)%nat ∧ (executing (the_task s id) = true ↔ executors id s = 1%nat).
Proof. intros H. rewrite (execution_reach _ _ _ H id). destruct (executing (the_task s id)); simpl; split; [lia|done|lia|done]. Qed.

Lemma task_executes_once_witness :
  ∃ s, task_reach one_module s ∧ executors 1 s = 1%nat ∧ (executors 0 s <= 1)%nat.
Proof.
  destruct (exec_labels early_run one_module) as [s|] eqn:Hs; [|by vm_compute in Hs].
  assert (executing (the_task s 1) = true) as He by (revert Hs; vm_compute; by intros [= <-]).
  apply exec_labels_sound in Hs. exists s. split; [done|]. split.
  - by apply (task_executes_once [online_module] 0 s 1).
  - by apply (task_executes_once [online_module] 0 s 0).
Defined.

(** Once a task is canceled and not being executed, it is never executed again,
    whatever is called. *)
Theorem canceled_never_executes ms now s s' id :
  task_reach (task_init ms now) s → task_reach s s' →
  (id < length (ts_tasks s))%nat → canceled (the_task s id) = true → executing (the_task s id) = false →
  canceled (the_task s' id) = true ∧ executors id s' = 0%nat.
Proof.
  intros H0%execution_reach H Hlt Hc He. assert (execution_ok s' ∧ retired id s') as [Hok (_ & Hc' & He')].
  { induction H as [s|s s1 s2 H IH Hs]; [by split|]. destruct IH as [Hok Hr]; [done..|].
    split; [by eapply execution_step|by eapply retired_step]. }
  split; [done|]. by rewrite (Hok id), He'.
Qed.

Lemma canceled_never_executes_witness :
  ∃ s s', exec_labels [LCall (CallNew (Some 0%nat)); LCall (CallQueue 0); LCall (CallCancel 0)] one_module = Some s ∧
    exec_labels (LCall (CallQueue 0) :: replicate 4 LQueue) s = Some s' ∧ executors 0 s' = 0%nat.
Proof.
  eexists _, _. split; [vm_compute; reflexivity|]. split; [vm_compute; reflexivity|].
  eapply (canceled_never_executes [online_module] 0).
  - apply (exec_labels_sound [LCall (CallNew (Some 0%nat)); LCall (CallQueue 0); LCall (CallCancel 0)]). vm_compute. reflexivity.
  - apply (exec_labels_sound (LCall (CallQueue 0) :: replicate 4 LQueue)). vm_compute. reflexivity.
  - vm_compute. lia.
  - vm_compute. reflexivity.
  - vm_compute. reflexivity.
Defined.

Lemma lists_init ms now : lists_ok (task_init ms now).
Proof.
  split; (split; [constructor|by intros ? ?%elem_of_nil|]); intros id; by rewrite the_task_out by (simpl; lia).
Qed.

(** C15: A task is in a list at most once and then its field says so; a field that is
    set belongs to a linked task, or to the one the queue handler took last. The
    queue handler does not sleep while a task waits in a queue. *)
Theorem task_lists_agree ms now s : task_reach (task_init ms now) s → lists_ok s ∧ wakeup_ok s.
Proof.
  intros H. remember (task_init ms now) as s0 eqn:H0. revert H0. induction H as [s|s s1 s2 H IH Hs]; intros ->.
  - split; [apply lists_init|]. intros _. by intros [].
  - destruct IH as [IH1 IH2]; [done|]. split; [by eapply lists_step|by eapply wakeup_step].
Qed.

Lemma task_lists_agree_witness :
  ∃ s, exec_labels (take 5 reset_run) one_module = Some s ∧ popped s 0 ∧ lists_ok s ∧ wakeup_ok s.
Proof.
  eexists. split; [vm_compute; reflexivity|]. split; [done|].
  apply (task_lists_agree [online_module] 0). apply (exec_labels_sound (take 5 reset_run)). vm_compute. reflexivity.
Defined.

(** Every task of the system repeats never or at least a minute apart. *)
Theorem repeat_minimum ms now s id :
  task_reach (task_init ms now) s → task_repeat (the_task s id) = 0 ∨ minRepeatDuration <= task_repeat (the_task s id).
Proof.
  intros H. assert (ages (task_init ms now) s) as Ha.
  { clear id. induction H as [s|s s1 s2 H IH Hs]; [done|]. etransitivity; [exact IH|by apply ages_step_task]. }
  apply (ages_new _ _ Ha). simpl. lia.
Qed.

Lemma repeat_minimum_witness :
  ∃ s, exec_labels [LCall (CallNew (Some 0%nat)); LCall (CallRepeat 0 1)] one_module = Some s ∧
    (task_repeat (the_task s 0) = 0 ∨ minRepeatDuration <= task_repeat (the_task s 0)).
Proof.
  eexists. split; [vm_compute; reflexivity|]. apply (repeat_minimum [online_module] 0).
  apply (exec_labels_sound [LCall (CallNew (Some 0%nat)); LCall (CallRepeat 0 1)]). vm_compute. reflexivity.
Defined.

Lemma schedule_order_update id f s l :
  (∀ t, executeAt (f t) = executeAt t) →
  StronglySorted (not_after (ts_tasks s)) l → StronglySorted (not_after (ts_tasks (update_task id f s))) l.
Proof.
  intros Hf. assert (∀ a b, not_after (ts_tasks s) a b → not_after (ts_tasks (update_task id f s)) a b) as Hn.
  { unfold not_after. intros a b. change (default zero_task (ts_tasks ?x !! ?y)) with (the_task x y).
    by rewrite !(update_field executeAt) by done. }
  induction 1 as [|x l Hl IH Hx]; constructor; [done|]. eapply Forall_impl; [exact Hx|]. auto.
Qed.

Lemma time_Before_irrefl a : time_Before a a = false.
Proof. destruct a; simpl; [apply Z.ltb_irrefl|done]. Qed.

Lemma remove_task_twice id l : remove_task id (remove_task id l) = remove_task id l.
Proof. unfold remove_task. induction l as [|x l IH]; simpl; [done|]. destruct (negb (Nat.eqb x id)) eqn:Hx; simpl; rewrite ?Hx, IH; done. Qed.

(** Scheduling an active task keeps the others in their order, puts the task
    behind those that are due no later, before all others, and wakes the
    scheduler; a schedule in order stays in order. *)
Theorem addToSchedule_sorted id over s :
  isActive s id = true → StronglySorted (not_after (ts_tasks s)) (remove_task id (taskSchedule s)) →
  let s' := addToSchedule id over s in
  StronglySorted (not_after (ts_tasks s')) (taskSchedule s') ∧
  remove_task id (taskSchedule s') = remove_task id (taskSchedule s) ∧ id ∈ taskSchedule s' ∧
  scheduleListElement (the_task s' id) = true ∧ notifyTaskScheduler s' = true ∧
  (∀ a, a ≠ id → a ∈ taskSchedule s → not_after (ts_tasks s) a id →
     ∃ l1 l2, taskSchedule s' = l1 ++ id :: l2 ∧ a ∈ l1).
Proof.
  intros Ha Hs. pose proof (isActive_exists _ _ Ha) as Hlt. cbv zeta. unfold addToSchedule. rewrite Ha.
  set (s1 := if over then _ else _). assert (ts_tasks s1 = ts_tasks (update_task id (λ t, set_overtime (over || overtime t) t) s)) as Ht.
  { unfold s1. destruct over; simpl; [done|]. apply list_eq. intros j. simpl. destruct (decide (j = id)) as [->|].
    - rewrite list_lookup_alter_eq. destruct (ts_tasks s !! id) as [[]|]; done.
    - by rewrite list_lookup_alter_ne. }
  assert (taskSchedule s1 = taskSchedule s) as Hl by (unfold s1; by destruct over).
  assert (executeAt (the_task s1 id) = executeAt (the_task s id)) as He.
  { unfold s1. destruct over; [by rewrite (update_field executeAt)|done]. }
  assert (StronglySorted (not_after (ts_tasks s1)) (remove_task id (taskSchedule s1))) as Hs1.
  { rewrite Hl. unfold s1. destruct over; [by apply schedule_order_update|done]. }
  pose proof (insert_before_sorted _ id _ Hs1) as Hs2. change (default zero_task (ts_tasks s1 !! id)) with (the_task s1 id) in Hs2.
  destruct (insert_before_split (ts_tasks s1) id (executeAt (the_task s1 id)) (remove_task id (taskSchedule s1))) as (l1 & l2 & Hr & Hi & Hf & Hh).
  cbn [taskSchedule notifyTaskScheduler set_signals set_taskSchedule ts_tasks]. split_and!.
  - by apply schedule_order_update.
  - rewrite Hi. rewrite Hl in Hr. unfold remove_task at 1. rewrite List.filter_app. simpl. rewrite Nat.eqb_refl. simpl.
    rewrite <- List.filter_app, <- Hr. apply remove_task_twice.
  - rewrite Hi. apply elem_of_app. right. by left.
  - change (the_task _ id) with (the_task (update_task id (λ t, set_elements (queueElement t) (prioritizedQueueElement t) true t) s1) id).
    rewrite the_task_update, decide_True; [done|]. split; [done|]. rewrite Ht. simpl. by rewrite length_alter.
  - done.
  - intros a Hne Hin Hna. exists l1, l2. split; [done|]. assert (a ∈ l1 ++ l2) as [H|H]%elem_of_app.
    { rewrite <- Hr, Hl. by apply remove_task_elem. }
    + done.
    + exfalso. destruct l2 as [|e l2]; [by apply elem_of_nil in H|].
      rewrite Hr in Hs1. apply sorted_app_inv in Hs1 as (_ & H2 & _). apply StronglySorted_inv in H2 as [_ H2].
      assert (not_after (ts_tasks s1) e a) as Hea.
      { apply elem_of_cons in H as [->|H]; [|rewrite Forall_forall in H2; by apply H2]. apply time_Before_irrefl. }
      unfold not_after in Hea, Hna. change (default zero_task (ts_tasks ?x !! ?y)) with (the_task x y) in *.
      assert (executeAt (the_task s1 a) = executeAt (the_task s a)) as Hea'.
      { unfold s1. destruct over; [by rewrite (update_field executeAt)|done]. }
      rewrite <- He, <- Hea' in Hna. pose proof (time_not_Before_trans _ _ _ Hea Hna) as Hfalse. congruence.
Qed.

Lemma addToSchedule_sorted_witness :
  ∃ s, exec_labels (take 4 early_run) one_module = Some s ∧ isActive s 0 = true ∧
    taskSchedule s = [0%nat; 1%nat] ∧ taskSchedule (addToSchedule 1 false s) = [0%nat; 1%nat] ∧
    StronglySorted (not_after (ts_tasks (addToSchedule 1 false s))) (taskSchedule (addToSchedule 1 false s)).
Proof.
  eexists. split; [vm_compute; reflexivity|]. split; [vm_compute; reflexivity|]. split; [vm_compute; reflexivity|].
  split; [vm_compute; reflexivity|].
  apply (addToSchedule_sorted 1 false); [vm_compute; reflexivity|].
  vm_compute (remove_task _ _). repeat constructor.
Defined.

(** The next task is the oldest of the prioritized ones, else the oldest one. *)
Theorem pop_task_order s :
  pop_task s =
    match head (prioritizedTaskQueue s ++ taskQueue s) with
    | Some id =>
        (set_taskQueue (drop (1 - length (prioritizedTaskQueue s)) (taskQueue s))
           (set_prioritizedTaskQueue (drop 1 (prioritizedTaskQueue s)) s), Some id)
    | None => (s, None)
    end.
Proof. unfold pop_task. destruct s as [? ? q p]. simpl. destruct p as [|x [|y p]]; simpl; [destruct q; simpl|..]; rewrite ?drop_0; reflexivity. Qed.

Section Findings.

(** A task that is scheduled in an hour is executed after a minute: the timer of
    a task that was queued and executed meanwhile fires for the next one. *)
Lemma scheduled_task_early :
  ∃ s, exec_labels early_run one_module = Some s ∧ LCall (CallSchedule 1 (Some (60 * minute))) ∈ early_run ∧
    LCall (CallQueue 1) ∉ early_run ∧ ts_execs s = [(1%nat, ExecFn)] ∧ ts_now s = minute.
Proof. eexists. split; [vm_compute; reflexivity|]. split; [by repeat constructor|]. split; [by rewrite list_elem_of_In; vm_compute; intuition|]. done. Qed.

(** A repeating task that queues itself is not executed again: the request is
    dropped because the task is being executed, and the time it has set keeps
    the end of the execution from scheduling the next repetition. *)
Lemma repeat_lost :
  ∃ s, exec_labels requeue_run one_module = Some s ∧ asleep s ∧ isActive s 0 = true ∧ task_repeat (the_task s 0) = 10 * minute.
Proof. eexists. split; [vm_compute; reflexivity|]. vm_compute. by split_and!. Qed.

(** The start of an execution clears the time of a task that was just scheduled
    anew: it is executed again at once. *)
Lemma schedule_reset :
  ∃ s, exec_labels reset_run one_module = Some s ∧ ts_execs s = [(0%nat, ExecFn)] ∧ ts_now s = 0 ∧
    length (List.filter (λ l, match l with LCall (CallQueue _) => true | _ => false end) reset_run) = 1%nat ∧
    length (List.filter (λ l, match l with LExec _ => true | _ => false end) reset_run) = 7%nat.
Proof. eexists. split; [vm_compute; reflexivity|]. vm_compute. by split_and!. Qed.

End Findings.

(** ** The task counter of a module *)

(** The goroutine has counted its task. *)
Definition counted (pc : exec_pc) : bool := match pc with ExecBegin | ExecFinish => false | ExecReset | ExecFn | ExecCount => true end.

Definition in_module (s : TaskSystem) (m : nat) (e : nat * exec_pc) : bool := counted e.2 && Nat.eqb (task_module (the_task s e.1)) m.

Definition running (m : nat) (s : TaskSystem) : nat := length (List.filter (in_module s m) (ts_execs s)).

Definition modules_exist (s : TaskSystem) : Prop :=
  ∀ id, (id < length (ts_tasks s))%nat → (task_module (the_task s id) < length (ts_modules s))%nat.

(** The counters started at [base]. *)
Definition counter_ok (base : list Z) (s : TaskSystem) : Prop :=
  (length base <= length (ts_modules s))%nat ∧
  ∀ m md, ts_modules s !! m = Some md → tm_taskCnt md = nth m base 0 + Z.of_nat (running m s).

(** Tasks keep their module, modules their counter; a new one counts nothing. *)
Record steady (s s' : TaskSystem) : Prop := {
  steady_execs : ts_execs s' = ts_execs s;
  steady_tasks : (length (ts_tasks s) <= length (ts_tasks s'))%nat;
  steady_module : ∀ id, (id < length (ts_tasks s))%nat → task_module (the_task s' id) = task_module (the_task s id);
  steady_new : ∀ id, (length (ts_tasks s) <= id < length (ts_tasks s'))%nat → (task_module (the_task s' id) < length (ts_modules s'))%nat;
  steady_modules : ∃ k, tm_taskCnt <$> ts_modules s' = (tm_taskCnt <$> ts_modules s) ++ replicate k 0;
}.

Lemma steady_length s s' : steady s s' → (length (ts_modules s) <= length (ts_modules s'))%nat.
Proof. intros [_ _ _ _ [k H]]. apply (f_equal length) in H. rewrite length_app, !length_fmap in H. lia. Qed.

#[global] Instance steady_preorder : PreOrder steady.
Proof.
  split.
  - intros s. split; [done|done|done|lia|]. exists 0%nat. by rewrite app_nil_r.
  - intros s1 s2 s3 H1 H2. pose proof (steady_length _ _ H2) as Hlen. destruct H1 as [Hx Hl Hm Hn [k Hk]], H2 as [Hx' Hl' Hm' Hn' [k' Hk']].
    split; [congruence|lia|intros id Hid; rewrite Hm' by lia; by apply Hm| |].
    + intros id Hid. destruct (decide (id < length (ts_tasks s2))%nat) as [Hlt|Hge]; [|apply Hn'; lia].
      rewrite Hm' by done. specialize (Hn id). lia.
    + exists (k + k')%nat. by rewrite Hk', Hk, <- app_assoc, <- replicate_add.
Qed.

Lemma steady_update id f s : (∀ t, task_module (f t) = task_module t) → steady s (update_task id f s).
Proof.
  intros Hf. split; [done|by rewrite length_update| |rewrite length_update; lia|by exists 0%nat; rewrite app_nil_r].
  intros j _. by apply (update_field task_module).
Qed.

Lemma steady_same s s' :
  ts_execs s' = ts_execs s → ts_tasks s' = ts_tasks s → tm_taskCnt <$> ts_modules s' = tm_taskCnt <$> ts_modules s → steady s s'.
Proof.
  intros H1 H2 H3. split; [done|by rewrite H2|by unfold the_task; rewrite H2|rewrite H2; lia|]. exists 0%nat. by rewrite app_nil_r.
Qed.

Ltac steady_step := follow steady_update steady_same.

Lemma steady_addToSchedule id over s : steady s (addToSchedule id over s).
Proof. unfold addToSchedule. steady_step. Qed.

Lemma steady_prep id s : steady s (prepForQueueing id s).1.
Proof.
  unfold prepForQueueing. destruct (isActive s id); [|done]. destruct (_ =? 0); [done|]. simpl.
  etransitivity; [|apply steady_addToSchedule]. steady_step.
Qed.

Lemma steady_remove id s : steady s (removeFromQueues id s).
Proof. unfold removeFromQueues. steady_step. Qed.

Lemma steady_add t s :
  (task_module t < length (ts_modules s))%nat → steady s (set_tasks (ts_tasks s ++ [t]) s).
Proof.
  intros Ht. split; [done|simpl; rewrite length_app; lia| | |by exists 0%nat; rewrite app_nil_r].
  - intros id Hid. rewrite the_task_add by lia. by rewrite decide_False by lia.
  - intros id Hid. rewrite the_task_add by lia. simpl in *. rewrite length_app in Hid. simpl in Hid. rewrite decide_True by lia. done.
Qed.

Lemma steady_call c s : call_on c s → steady s (run_call c s).
Proof.
  intros Hc. destruct c as [[m|]|id|id|id|id d|id at_|id d|id]; cbn [run_call].
  - unfold NewTask, newTask. repeat case_match; by apply steady_add.
  - unfold NewTask. transitivity (set_modules (ts_modules s ++ [no_module]) s).
    + split; [done|done|done|simpl; lia|]. exists 1%nat. simpl. by rewrite fmap_app.
    + apply (steady_add (mkTask (length (ts_modules s)) true false false 0 false 0 None 0 0 false false false) (set_modules (ts_modules s ++ [no_module]) s)).
      simpl. rewrite length_app. simpl. lia.
  - unfold Task_Queue. pose proof (steady_prep id s) as H. destruct (prepForQueueing id s) as [s1 ok]. simpl in H.
    etransitivity; [exact H|]. unfold notifyQueue. steady_step.
  - unfold QueuePrioritized. pose proof (steady_prep id s) as H. destruct (prepForQueueing id s) as [s1 ok]. simpl in H.
    etransitivity; [exact H|]. unfold notifyQueue. steady_step.
  - unfold StartASAP. pose proof (steady_prep id s) as H. destruct (prepForQueueing id s) as [s1 ok]. simpl in H.
    etransitivity; [exact H|]. unfold notifyQueue. steady_step.
  - unfold Task_MaxDelay. steady_step.
  - unfold Task_Schedule. destruct at_; (etransitivity; [|by first [apply steady_addToSchedule|apply steady_remove]]); steady_step.
  - unfold Task_Repeat. cbv zeta. destruct (_ =? 0); [steady_step|]. etransitivity; [|apply steady_addToSchedule]. steady_step.
  - unfold Task_Cancel. steady_step.
Qed.

Lemma running_ext m s s' :
  ts_execs s' = ts_execs s → (∀ id, id ∈ (ts_execs s).*1 → task_module (the_task s' id) = task_module (the_task s id)) →
  running m s' = running m s.
Proof.
  intros Hx Hm. unfold running. rewrite Hx. f_equal. apply List.filter_ext_in. intros [id pc] Hin. unfold in_module. simpl.
  rewrite Hm; [done|]. apply list_elem_of_fmap. exists (id, pc). split; [done|]. by apply list_elem_of_In.
Qed.

Lemma execs_exist s id : execution_ok s → id ∈ (ts_execs s).*1 → (id < length (ts_tasks s))%nat.
Proof.
  intros Hok ([j pc] & -> & [i Hi]%list_elem_of_lookup)%list_elem_of_fmap. apply executing_exists. apply executor_marked; [done|].
  unfold executors. simpl. rewrite (in_execs_delete j _ _ _ _ Hi), decide_True by done. lia.
Qed.

Definition tasks_counted (base : list Z) (s : TaskSystem) : Prop := counter_ok base s ∧ modules_exist s.

Lemma counted_steady base s s' : execution_ok s → tasks_counted base s → steady s s' → tasks_counted base s'.
Proof.
  intros Hok [[Hb Hc] He] H. pose proof (steady_length _ _ H) as Hlen. destruct H as [Hx Hl Hm Hn [k Hk]]. split; [split; [lia|]|].
  - intros m md Hmd. rewrite (running_ext m s s'); [|done|intros id Hid; apply Hm; by apply execs_exist].
    assert ((tm_taskCnt <$> ts_modules s') !! m = Some (tm_taskCnt md)) as Hcnt by (by rewrite list_lookup_fmap, Hmd).
    rewrite Hk in Hcnt. apply lookup_app_Some in Hcnt as [Hcnt|[Hge Hcnt]].
    + rewrite list_lookup_fmap in Hcnt. destruct (ts_modules s !! m) as [md0|] eqn:Hm0; [|done]. simpl in Hcnt. injection Hcnt as <-. by apply Hc.
    + apply lookup_replicate in Hcnt as [-> _]. rewrite length_fmap in Hge. rewrite nth_overflow by lia.
      unfold running. rewrite (proj2 (List.length_zero_iff_nil _)); [done|]. destruct (List.filter _ _) as [|[id pc] l] eqn:Hf; [done|].
      assert (In (id, pc) (List.filter (in_module s m) (ts_execs s))) as Hin by (rewrite Hf; by left).
      apply List.filter_In in Hin as [Hin Hmod]. unfold in_module in Hmod. simpl in Hmod. apply andb_prop in Hmod as [_ Hmod%Nat.eqb_eq].
      assert (id < length (ts_tasks s))%nat as Hid.
      { apply execs_exist; [done|]. apply list_elem_of_fmap. exists (id, pc). split; [done|]. by apply list_elem_of_In. }
      specialize (He id Hid). lia.
  - intros id Hid. destruct (decide (id < length (ts_tasks s))%nat) as [Hlt|Hge]; [|apply Hn; lia].
    rewrite Hm by done. specialize (He id Hlt). lia.
Qed.

Lemma filter_length_insert {A} (P : A → bool) l i x y :
  l !! i = Some x →
  (length (List.filter P (<[i := y]> l)) + Nat.b2n (P x) = length (List.filter P l) + Nat.b2n (P y))%nat.
Proof.
  intros Hi. rewrite insert_take_drop by (by eapply lookup_lt_Some). rewrite <- (take_drop_middle l i x Hi) at 3.
  rewrite !List.filter_app, !length_app. simpl. destruct (P x), (P y); simpl; lia.
Qed.

Lemma filter_length_delete {A} (P : A → bool) l i x :
  l !! i = Some x → (length (List.filter P (delete i l)) + Nat.b2n (P x) = length (List.filter P l))%nat.
Proof.
  intros Hi. rewrite delete_take_drop. rewrite <- (take_drop_middle l i x Hi) at 3.
  rewrite !List.filter_app, !length_app. simpl. destruct (P x); simpl; lia.
Qed.

Lemma running_set_execs m l s : running m (set_execs l s) = length (List.filter (in_module s m) l).
Proof. done. Qed.

Lemma steady_finish id s : steady s (finish_exec id s).
Proof.
  unfold finish_exec. cbv zeta. match goal with |- steady _ (update_task id (set_ctx ?c) ?x) => transitivity x; [|by apply steady_update] end.
  transitivity (update_task id (set_executing false) s); [by apply steady_update|].
  destruct (_ && _ && _); [|done]. etransitivity; [|apply steady_addToSchedule]. steady_step.
Qed.

Lemma in_module_same s s' m e : task_module (the_task s' e.1) = task_module (the_task s e.1) → in_module s' m e = in_module s m e.
Proof. intros H. unfold in_module. by rewrite H. Qed.

Lemma counted_set_execs base s l :
  counter_ok base s → (∀ m, length (List.filter (in_module s m) l) = running m s) → counter_ok base (set_execs l s).
Proof. intros [Hb Hc] Hl. split; [done|]. intros m md Hmd. rewrite running_set_execs, Hl. by apply Hc. Qed.

(** A goroutine that counts its task, or stops counting it. *)
Lemma counted_count base s i id pc pc' (d : Z) :
  tasks_counted base s → ts_execs s !! i = Some (id, pc) →
  Z.of_nat (Nat.b2n (counted pc')) = Z.of_nat (Nat.b2n (counted pc)) + d →
  tasks_counted base (set_execs (<[i := (id, pc')]> (ts_execs s)) (count_task d id s)).
Proof.
  intros [[Hb Hc] He] Hi Hd. split; [split|].
  - simpl. by rewrite length_alter.
  - intros m md Hmd. rewrite running_set_execs. unfold count_task in Hmd. simpl in Hmd.
    assert (∀ e, in_module (count_task d id s) m e = in_module s m e) as Hsame by done.
    rewrite (List.filter_ext _ _ Hsame). pose proof (filter_length_insert (in_module s m) _ _ _ (id, pc') Hi) as Hf.
    fold (running m s) in Hf. unfold in_module at 2 3 in Hf. simpl in Hf.
    destruct (decide (task_module (the_task s id) = m)) as [<-|Hne].
    + rewrite list_lookup_alter_eq in Hmd. apply fmap_Some in Hmd as (md0 & Hm0 & ->). simpl.
      rewrite (Hc _ _ Hm0). rewrite Nat.eqb_refl, !andb_true_r in Hf. lia.
    + rewrite list_lookup_alter_ne in Hmd by done. rewrite (Hc _ _ Hmd). rewrite (proj2 (Nat.eqb_neq _ _) Hne), !andb_false_r in Hf. simpl in Hf. lia.
  - intros j Hj. simpl. rewrite length_alter. by apply He.
Qed.

Lemma counted_exec base s i id pc s' pc' :
  execution_ok s → tasks_counted base s → ts_execs s !! i = Some (id, pc) → exec_step id pc s = (s', pc') →
  tasks_counted base (set_execs (match pc' with Some pc' => <[i := (id, pc')]> (ts_execs s') | None => delete i (ts_execs s') end) s').
Proof.
  intros Hok Hs Hi H. destruct pc; simpl in H; injection H as <- <-.
  - by apply (counted_count base s i id ExecBegin ExecReset 1).
  - assert (tasks_counted base (update_task id (set_executeAt None) s)) as [Hc He] by (eapply counted_steady; [exact Hok|exact Hs|by apply steady_update]).
    split; [|exact He]. apply counted_set_execs; [done|]. intros m.
    pose proof (filter_length_insert (in_module (update_task id (set_executeAt None) s) m) _ _ _ (id, ExecFn) Hi) as Hf.
    unfold in_module at 2 4 in Hf. simpl in Hf. unfold running. simpl. lia.
  - destruct Hs as [Hc He]. split; [|exact He]. apply counted_set_execs; [done|]. intros m.
    pose proof (filter_length_insert (in_module s m) _ _ _ (id, ExecCount) Hi) as Hf.
    unfold in_module at 2 4 in Hf. simpl in Hf. unfold running. lia.
  - by apply (counted_count base s i id ExecCount ExecFinish (-1)).
  - assert (tasks_counted base (finish_exec id s)) as [Hc He] by (eapply counted_steady; [exact Hok|exact Hs|by apply steady_finish]).
    split; [|exact He]. apply counted_set_execs; [done|]. intros m. pose proof (steady_execs _ _ (steady_finish id s)) as Hx. rewrite Hx.
    pose proof (filter_length_delete (in_module (finish_exec id s) m) _ _ _ Hi) as Hf.
    unfold in_module at 2 in Hf. simpl in Hf. unfold running. rewrite Hx. lia.
Qed.

Lemma counted_runner base r s s' r' :
  runner_step r s s' r' → execution_ok s → tasks_counted base s → tasks_counted base s'.
Proof.
  intros H Hok Hs. destruct H as [id s s' r H|id s|id s|id s|id s Hst|id s|id s]; try done.
  - eapply counted_steady; [exact Hok|exact Hs|]. unfold run_lock in H. cbv zeta in H. etransitivity; [apply (steady_remove id)|].
    repeat case_match; simplify_eq; try done. by apply steady_update.
  - eapply counted_steady; [exact Hok|exact Hs|]. by apply steady_update.
  - destruct Hs as [[Hb Hc] He]. split; [|exact He]. split; [done|]. intros m md Hmd. rewrite running_set_execs, List.filter_app, length_app.
    simpl. rewrite Nat.add_0_r. by apply Hc.
Qed.

Lemma counted_step base s s' : execution_ok s → tasks_counted base s → task_step s s' → tasks_counted base s'.
Proof.
  intros Hok Hs H. destruct H as [s c Hc|s s' H|s s' H|s i id pc s' pc' Hi H|s i id ctx d _ _|s d _|s b|s|s i m m' Hm Hcnt].
  - by eapply counted_steady; [| |apply steady_call].
  - destruct H as [s Hq _|s Hq _|s Hq _|s s' j Hq Hp|s s' Hq Hp|s s' r r' Hq Hr]; try done.
    + eapply counted_steady; [exact Hok|exact Hs|]. unfold pop_task in Hp. by repeat case_match; simplify_eq; apply steady_same.
    + eapply counted_steady; [exact Hok|exact Hs|]. unfold pop_task in Hp. by repeat case_match; simplify_eq; apply steady_same.
    + apply (counted_runner base) in Hr; [|done|done]. by eapply Hr.
  - destruct H as [s Hq _|s Hq _|s Hq _|s Hq _|s d Hq _|s Hq|s j Hq|s s' r r' Hq Hr]; try done.
    + eapply counted_steady; [exact Hok|exact Hs|]. unfold fire. destruct (taskSchedule s) as [|j l]; [by apply steady_same|].
      destruct (overtime _).
      * transitivity (update_task j (set_overtime false) s); [by apply steady_update|by apply steady_same].
      * transitivity (update_task j (set_overtime true) s); [by apply steady_update|by apply steady_same].
    + eapply counted_steady; [exact Hok|exact Hs|]. transitivity (StartASAP j s); [|by apply steady_same].
      unfold StartASAP. pose proof (steady_prep j s) as H. destruct (prepForQueueing j s) as [s1 ok]. simpl in H.
      etransitivity; [exact H|]. unfold notifyQueue. steady_step.
    + apply (counted_runner base) in Hr; [|done|done]. by eapply Hr.
  - by eapply counted_exec.
  - done.
  - done.
  - done.
  - done.
  - eapply counted_steady; [exact Hok|exact Hs|]. apply steady_same; [done|done|]. simpl. rewrite list_fmap_insert, Hcnt.
    apply list_insert_id. by rewrite list_lookup_fmap, Hm.
Qed.

(** The counter of a module is what it was at the start plus the number of its
    tasks that are being executed. *)
Theorem task_counter_exact ms now s m md :
  task_reach (task_init ms now) s → ts_modules s !! m = Some md →
  tm_taskCnt md = nth m (tm_taskCnt <$> ms) 0 + Z.of_nat (running m s).
Proof.
  intros H Hmd. assert (tasks_counted (tm_taskCnt <$> ms) s) as [[_ Hc] _]; [|by apply Hc].
  clear m md Hmd. remember (task_init ms now) as s0 eqn:H0. pose proof (execution_init ms now) as Hok. revert H0 Hok.
  induction H as [s|s s1 s2 H IH Hs]; intros -> Hok.
  - split; [|by intros id Hid; apply Nat.nlt_0_r in Hid]. split; [by rewrite length_fmap|]. intros m md Hmd.
    assert ((tm_taskCnt <$> ms) !! m = Some (tm_taskCnt md)) as Hm by (rewrite list_lookup_fmap; simpl in Hmd; by rewrite Hmd).
    rewrite (nth_lookup_Some _ _ _ _ Hm). simpl. unfold running. simpl. lia.
  - eapply counted_step; [|by apply IH|exact Hs]. by eapply execution_reach.
Qed.

Lemma task_counter_exact_witness :
  ∃ s md, exec_labels early_run one_module = Some s ∧ ts_modules s !! 0%nat = Some md ∧ tm_taskCnt md = 1 ∧ running 0 s = 1%nat.
Proof.
  eexists _, _. split; [vm_compute; reflexivity|]. split; [vm_compute; reflexivity|]. split; [|vm_compute; reflexivity].
  match goal with |- tm_taskCnt ?md = _ => assert (tm_taskCnt md = 0 + Z.of_nat 1) as Hc; [|exact Hc] end.
  match goal with |- _ = _ + Z.of_nat 1 => etransitivity end.
  - apply (task_counter_exact [online_module] 0) with (m := 0%nat).
    + apply (exec_labels_sound early_run one_module). vm_compute. reflexivity.
    + vm_compute. reflexivity.
  - vm_compute. reflexivity.
Defined.
