(* ===== verification/Microtasks.v ===== *)
(** * modules/microtasks.go: microtasks and their clearance

    The counter, the two clearance queues, the scheduler and the goroutines that
    run microtasks as a transition system: an atomic operation, a channel
    operation or a case of a select is one step, and all goroutines interleave.
    A clearance signal is a channel made by one goroutine, so the location of
    its goroutine names it. The int32 counters wrap. Times are nanoseconds. *)

From Stdlib Require Import ZArith Lia String.
From stdpp Require Import gmap list.
From S2P Require Import Prelude.
Local Open Scope Z_scope.

(** ** Data *)

Definition s32 (x : Z) : Z := (x + 2 ^ 31) `mod` 2 ^ 32 - 2 ^ 31.

Definition defaultMediumPriorityMaxDelay : Z := 1000000000.
Definition defaultLowPriorityMaxDelay : Z := 3000000000.

Inductive priority : Type := High | Medium | Low.

(** Where a goroutine is: in getMediumPriorityClearance or
    getLowPriorityClearance (deadlines are those of their timers), about to add
    itself to the counter, in runMicroTask or between signalMicroTask and the
    first call of done, in concludeMicroTask. *)
Inductive micro_pc : Type :=
| TSubmit
| TSubmitLate (deadline : Z)
| TAlone
| TAwait
| TAwaitLate (deadline : Z)
| TModule
| TRun
| TModuleDone
| TCounterDone
| TNotify
| TEnd.

(** [micro_closed]: its signal is closed. [micro_alone]: it counted itself. *)
Record MicroTask : Type := mkMicroTask {
  micro_module : nat;
  micro_priority : priority;
  micro_maxDelay : Z;
  micro_pos : micro_pc;
  micro_closed : bool;
  micro_alone : bool;
}.

(** microTaskScheduler: at the loop head, at the three selects, with a signal to
    close and with the counter to increase, waiting for a finished microtask;
    [down] is microTaskShutdownScheduler. Closing a closed channel panics. *)
Inductive scheduler_pc : Type :=
| MCheck
| MMedium
| MMediumLow
| MAll
| MDown
| MClose (i : nat) (down : bool)
| MAdd (down : bool)
| MFinished
| MPanic.

Record MicroSystem : Type := mkMicroSystem {
  microTasks : Z;
  microTasksThreshhold : Z;
  microTaskCnts : list Z;
  microTaskFinished : bool;
  mediumPriorityClearance : list nat;
  lowPriorityClearance : list nat;
  clearanceQueueSize : nat;
  micro_shutdown : bool;
  micro_now : Z;
  micro_scheduler : scheduler_pc;
  micro_threads : list MicroTask;
}.

Definition set_microTasks n s := mkMicroSystem n (microTasksThreshhold s) (microTaskCnts s) (microTaskFinished s)
  (mediumPriorityClearance s) (lowPriorityClearance s) (clearanceQueueSize s) (micro_shutdown s) (micro_now s)
  (micro_scheduler s) (micro_threads s).
Definition set_threshhold n s := mkMicroSystem (microTasks s) n (microTaskCnts s) (microTaskFinished s)
  (mediumPriorityClearance s) (lowPriorityClearance s) (clearanceQueueSize s) (micro_shutdown s) (micro_now s)
  (micro_scheduler s) (micro_threads s).
Definition set_cnts l s := mkMicroSystem (microTasks s) (microTasksThreshhold s) l (microTaskFinished s)
  (mediumPriorityClearance s) (lowPriorityClearance s) (clearanceQueueSize s) (micro_shutdown s) (micro_now s)
  (micro_scheduler s) (micro_threads s).
Definition set_finished b s := mkMicroSystem (microTasks s) (microTasksThreshhold s) (microTaskCnts s) b
  (mediumPriorityClearance s) (lowPriorityClearance s) (clearanceQueueSize s) (micro_shutdown s) (micro_now s)
  (micro_scheduler s) (micro_threads s).
Definition set_clearances m l s := mkMicroSystem (microTasks s) (microTasksThreshhold s) (microTaskCnts s) (microTaskFinished s)
  m l (clearanceQueueSize s) (micro_shutdown s) (micro_now s) (micro_scheduler s) (micro_threads s).
Definition set_micro_outside b n s := mkMicroSystem (microTasks s) (microTasksThreshhold s) (microTaskCnts s) (microTaskFinished s)
  (mediumPriorityClearance s) (lowPriorityClearance s) (clearanceQueueSize s) b n (micro_scheduler s) (micro_threads s).
Definition set_scheduler p s := mkMicroSystem (microTasks s) (microTasksThreshhold s) (microTaskCnts s) (microTaskFinished s)
  (mediumPriorityClearance s) (lowPriorityClearance s) (clearanceQueueSize s) (micro_shutdown s) (micro_now s) p (micro_threads s).
Definition set_threads l s := mkMicroSystem (microTasks s) (microTasksThreshhold s) (microTaskCnts s) (microTaskFinished s)
  (mediumPriorityClearance s) (lowPriorityClearance s) (clearanceQueueSize s) (micro_shutdown s) (micro_now s)
  (micro_scheduler s) l.

Definition goto (p : micro_pc) (t : MicroTask) : MicroTask :=
  mkMicroTask (micro_module t) (micro_priority t) (micro_maxDelay t) p (micro_closed t) (micro_alone t).
Definition close_signal (t : MicroTask) : MicroTask :=
  mkMicroTask (micro_module t) (micro_priority t) (micro_maxDelay t) (micro_pos t) true (micro_alone t).
Definition count_alone (t : MicroTask) : MicroTask :=
  mkMicroTask (micro_module t) (micro_priority t) (micro_maxDelay t) TModule (micro_closed t) true.

Definition move (i : nat) (p : micro_pc) (s : MicroSystem) : MicroSystem := set_threads (alter (goto p) i (micro_threads s)) s.

(** [atomic.AddInt32] on the global counter and on that of a module. *)
Definition add_microTasks (d : Z) (s : MicroSystem) : MicroSystem := set_microTasks (s32 (microTasks s + d)) s.

Definition add_microTaskCnt (m : nat) (d : Z) (s : MicroSystem) : MicroSystem :=
  set_cnts (alter (λ n, s32 (n + d)) m (microTaskCnts s)) s.

(** ** The functions *)

Definition SetMaxConcurrentMicroTasks (n : Z) (s : MicroSystem) : MicroSystem :=
  if n <? 2 then set_threshhold 2 s else set_threshhold (s32 n) s.

(** A nil module starts nothing: the error of Run, the nil function of Signal. *)
Definition start_micro (m : option nat) (t : nat → MicroTask) (s : MicroSystem) : MicroSystem :=
  match m with
  | None => s
  | Some m => set_threads (micro_threads s ++ [t m]) s
  end.

Definition new_micro (p : priority) (d : Z) (pc : micro_pc) (m : nat) : MicroTask := mkMicroTask m p d pc false false.

Definition RunHighPriorityMicroTask (m : option nat) : MicroSystem → MicroSystem := start_micro m (new_micro High 0 TAlone).

Definition RunMicroTask (m : option nat) (maxDelay : Z) : MicroSystem → MicroSystem :=
  start_micro m (new_micro Medium (if maxDelay <=? 0 then defaultMediumPriorityMaxDelay else maxDelay) TSubmit).

Definition RunLowPriorityMicroTask (m : option nat) (maxDelay : Z) : MicroSystem → MicroSystem :=
  start_micro m (new_micro Low (if maxDelay <=? 0 then defaultLowPriorityMaxDelay else maxDelay) TSubmit).

(** Start makes the call of Run in a goroutine of its own. The error of Run, which a
    nil module gives at once, is logged there with the name of the module: the nil
    pointer panics, and nothing recovers it. *)
Definition start_go (m : option nat) (run : MicroSystem → MicroSystem) (s : MicroSystem) : go Empty_set MicroSystem :=
  match m with None => Panic | Some _ => Ret (run s) end.

Definition StartHighPriorityMicroTask (m : option nat) : MicroSystem → go Empty_set MicroSystem :=
  start_go m (RunHighPriorityMicroTask m).

Definition StartMicroTask (m : option nat) (maxDelay : Z) : MicroSystem → go Empty_set MicroSystem :=
  start_go m (RunMicroTask m maxDelay).

Definition StartLowPriorityMicroTask (m : option nat) (maxDelay : Z) : MicroSystem → go Empty_set MicroSystem :=
  start_go m (RunLowPriorityMicroTask m maxDelay).

Definition SignalHighPriorityMicroTask (m : option nat) : MicroSystem → MicroSystem := start_micro m (new_micro High 0 TAlone).

Definition SignalMicroTask (m : option nat) (maxDelay : Z) : MicroSystem → MicroSystem :=
  start_micro m (new_micro Medium maxDelay TSubmit).

Definition SignalLowPriorityMicroTask (m : option nat) (maxDelay : Z) : MicroSystem → MicroSystem :=
  start_micro m (new_micro Low maxDelay TSubmit).

(** The clearance queue of a priority, and sending to it: [None] blocks. *)
Definition clearance_queue (p : priority) (s : MicroSystem) : list nat :=
  match p with Low => lowPriorityClearance s | _ => mediumPriorityClearance s end.

Definition submit (i : nat) (p : priority) (s : MicroSystem) : option MicroSystem :=
  if (length (clearance_queue p s) <? clearanceQueueSize s)%nat then
    Some match p with
         | Low => set_clearances (mediumPriorityClearance s) (lowPriorityClearance s ++ [i]) s
         | _ => set_clearances (mediumPriorityClearance s ++ [i]) (lowPriorityClearance s) s
         end
  else None.

(** The steps of a clearance function; [timeout] chooses the timer where a
    select has one. *)
Definition get_clearance (p : priority) (i : nat) (timeout : bool) (t : MicroTask) (s : MicroSystem) : option MicroSystem :=
  match micro_pos t with
  | TSubmit =>
      match submit i p s with
      | Some s' => Some (move i TAwait s')
      | None => Some (move i (TSubmitLate (micro_now s + micro_maxDelay t)) s)
      end
  | TSubmitLate deadline =>
      if timeout then (if deadline <=? micro_now s then Some (move i TAlone s) else None)
      else s' ← submit i p s; Some (move i TAwait s')
  | TAwait => Some (move i (if micro_closed t then TModule else TAwaitLate (micro_now s + micro_maxDelay t)) s)
  | TAwaitLate deadline =>
      if (if timeout then deadline <=? micro_now s else micro_closed t) then Some (move i TModule s) else None
  | _ => None
  end.

Definition getMediumPriorityClearance : nat → bool → MicroTask → MicroSystem → option MicroSystem := get_clearance Medium.

Definition getLowPriorityClearance : nat → bool → MicroTask → MicroSystem → option MicroSystem := get_clearance Low.

(** [TRun] ends when the function returns or panics. *)
Definition runMicroTask (i : nat) (t : MicroTask) (s : MicroSystem) : option MicroSystem :=
  match micro_pos t with
  | TModule => Some (move i TRun (add_microTaskCnt (micro_module t) 1 s))
  | TRun => Some (move i TModuleDone s)
  | _ => None
  end.

(** [TRun] ends with the first call of done: doneCalled is the position after
    it, a later call is no step. *)
Definition signalMicroTask : nat → MicroTask → MicroSystem → option MicroSystem := runMicroTask.

Definition concludeMicroTask (i : nat) (t : MicroTask) (s : MicroSystem) : option MicroSystem :=
  match micro_pos t with
  | TModuleDone => Some (move i TCounterDone (add_microTaskCnt (micro_module t) (-1) s))
  | TCounterDone => Some (move i TNotify (add_microTasks (-1) s))
  | TNotify => Some (move i TEnd (set_finished true s))
  | _ => None
  end.

(** One step of a goroutine. *)
Definition micro_task_step (i : nat) (timeout : bool) (s : MicroSystem) : option MicroSystem :=
  t ← micro_threads s !! i;
  match micro_pos t with
  | TSubmit | TSubmitLate _ | TAwait | TAwaitLate _ =>
      match micro_priority t with
      | Low => getLowPriorityClearance i timeout t s
      | _ => getMediumPriorityClearance i timeout t s
      end
  | TAlone => Some (add_microTasks 1 (set_threads (alter count_alone i (micro_threads s)) s))
  | TModule | TRun => signalMicroTask i t s
  | TModuleDone | TCounterDone | TNotify => concludeMicroTask i t s
  | TEnd => None
  end.

(** What a select of the scheduler receives from, or does instead. *)
Inductive choice : Type := ChooseMedium | ChooseLow | ChooseOther.

Definition receive (c : choice) (s : MicroSystem) : option (nat * MicroSystem) :=
  match c with
  | ChooseMedium =>
      match mediumPriorityClearance s with
      | i :: l => Some (i, set_clearances l (lowPriorityClearance s) s)
      | [] => None
      end
  | ChooseLow =>
      match lowPriorityClearance s with
      | i :: l => Some (i, set_clearances (mediumPriorityClearance s) l s)
      | [] => None
      end
  | ChooseOther => None
  end.

Definition receives (c : choice) (down : bool) (s : MicroSystem) : option MicroSystem :=
  '(i, s') ← receive c s; Some (set_scheduler (MClose i down) s').

(** The other cases of the selects send to the task handlers or the log writer, which may be
    ready at any time. *)
Definition microTaskShutdownScheduler (c : choice) (s : MicroSystem) : option MicroSystem :=
  match c with
  | ChooseOther => Some s
  | _ => receives c true s
  end.

Definition scheduler_step (c : choice) (s : MicroSystem) : option MicroSystem :=
  match micro_scheduler s with
  | MCheck =>
      Some (set_scheduler
        (if micro_shutdown s then MDown
         else if microTasks s <? microTasksThreshhold s then MMedium else MFinished) s)
  | MMedium =>
      match mediumPriorityClearance s with
      | [] => Some (set_scheduler MMediumLow s)
      | _ => receives ChooseMedium false s
      end
  | MMediumLow =>
      match mediumPriorityClearance s, lowPriorityClearance s with
      | [], [] => Some (set_scheduler MAll s)
      | _, _ => receives c false s
      end
  | MAll =>
      match c with
      | ChooseOther => Some (set_scheduler MCheck s)
      | _ => receives c false s
      end
  | MDown => microTaskShutdownScheduler c s
  | MClose i down =>
      match micro_closed <$> micro_threads s !! i with
      | Some false => Some (set_scheduler (MAdd down) (set_threads (alter close_signal i (micro_threads s)) s))
      | _ => Some (set_scheduler MPanic s)
      end
  | MAdd down => Some (set_scheduler (if down then MDown else MCheck) (add_microTasks 1 s))
  | MFinished =>
      match c with
      | ChooseOther => Some (set_scheduler MCheck s)
      | _ => if microTaskFinished s then Some (set_scheduler MCheck (set_finished false s)) else None
      end
  | MPanic => None
  end.

(** The first three are the calls of Run, those that Start makes included. *)
Inductive micro_label : Type :=
| MicroHigh (m : option nat)
| MicroMedium (m : option nat) (maxDelay : Z)
| MicroLow (m : option nat) (maxDelay : Z)
| SignalHigh (m : option nat)
| SignalMedium (m : option nat) (maxDelay : Z)
| SignalLow (m : option nat) (maxDelay : Z)
| MicroStep (i : nat) (timeout : bool)
| MicroSchedule (c : choice)
| MicroMax (n : Z)
| MicroTime (d : Z)
| MicroShutdown.

Definition micro_step (l : micro_label) (s : MicroSystem) : option MicroSystem :=
  match l with
  | MicroHigh m => Some (RunHighPriorityMicroTask m s)
  | MicroMedium m d => Some (RunMicroTask m d s)
  | MicroLow m d => Some (RunLowPriorityMicroTask m d s)
  | SignalHigh m => Some (SignalHighPriorityMicroTask m s)
  | SignalMedium m d => Some (SignalMicroTask m d s)
  | SignalLow m d => Some (SignalLowPriorityMicroTask m d s)
  | MicroStep i timeout => micro_task_step i timeout s
  | MicroSchedule c => scheduler_step c s
  | MicroMax n => Some (SetMaxConcurrentMicroTasks n s)
  | MicroTime d => if 0 <=? d then Some (set_micro_outside (micro_shutdown s) (micro_now s + d) s) else None
  | MicroShutdown => Some (set_micro_outside true (micro_now s) s)
  end.

Fixpoint micro_run (ls : list micro_label) (s : MicroSystem) : option MicroSystem :=
  match ls with
  | [] => Some s
  | l :: ls => s' ← micro_step l s; micro_run ls s'
  end.

(** The variables after init on a machine with [procs] processors, for
    [modules] modules. *)
Definition micro_init (procs modules : nat) (now : Z) : MicroSystem :=
  mkMicroSystem 0 (s32 (Z.of_nat procs * 2)) (replicate modules 0) false [] [] (procs * 100) false now MCheck [].
