(* ===== verification/MicrotasksInv.v ===== *)
(** * modules/microtasks.go: the counters and the clearance signals

    By induction over the runs: the global counter and those of the modules are
    exact, the scheduler keeps to the threshold, and no clearance is given twice
    or lost; and two findings about zero delays and large maxima. *)

From Stdlib Require Import ZArith Lia String.
From stdpp Require Import gmap list.
From S2P Require Import Prelude Microtasks.
Local Open Scope Z_scope.

(** ** Specification *)

(** The goroutine is on the counter, or its signal is submitted and the
    scheduler counts it. *)
Definition owes (t : MicroTask) : bool :=
  match micro_pos t with
  | TAwait | TAwaitLate _ | TModule | TRun | TModuleDone | TCounterDone => true
  | TSubmit | TSubmitLate _ | TAlone | TNotify | TEnd => false
  end.

Definition in_progress (t : MicroTask) : bool := match micro_pos t with TRun | TModuleDone => true | _ => false end.

Definition count_micro (P : MicroTask → bool) (s : MicroSystem) : Z := len (List.filter P (micro_threads s)).

(** Taken from a queue, not counted yet. *)
Definition pending (s : MicroSystem) : Z := match micro_scheduler s with MClose _ _ | MAdd _ => 1 | _ => 0 end.

(** Submitted and not closed yet, by queue order. *)
Definition submitted (s : MicroSystem) : list nat :=
  match micro_scheduler s with MClose i _ => [i] | _ => [] end ++ mediumPriorityClearance s ++ lowPriorityClearance s.

Definition waits_for_clearance (t : MicroTask) : bool := match micro_pos t with TAwait | TAwaitLate _ => true | _ => false end.

Definition before_submission (t : MicroTask) : bool := match micro_pos t with TSubmit | TSubmitLate _ | TAlone => true | _ => false end.

(** ** Lemmas *)

Lemma s32_add a b : s32 (s32 a + b) = s32 (a + b).
Proof.
  unfold s32. f_equal. replace ((a + 2 ^ 31) `mod` 2 ^ 32 - 2 ^ 31 + b + 2 ^ 31) with ((a + 2 ^ 31) `mod` 2 ^ 32 + b) by lia.
  rewrite Zplus_mod_idemp_l. f_equal. lia.
Qed.

Lemma s32_small a : - 2 ^ 31 <= a < 2 ^ 31 → s32 a = a.
Proof. intros H. unfold s32. rewrite Z.mod_small; lia. Qed.

Lemma s32_le a : - 2 ^ 31 <= a → s32 a <= a.
Proof. intros H. unfold s32. pose proof (Z.mod_le (a + 2 ^ 31) (2 ^ 32)). lia. Qed.

Lemma micro_run_app ls ls' s : micro_run (ls ++ ls') s = s' ← micro_run ls s; micro_run ls' s'.
Proof. revert s. induction ls as [|l ls IH]; intros s; simpl; [done|]. destruct (micro_step l s); simpl; [apply IH|done]. Qed.

(** What holds at the start and is kept by every step. *)
Lemma micro_run_invariant (P : MicroSystem → Prop) (ok : micro_label → Prop) ls s s' :
  (∀ l s s', ok l → P s → micro_step l s = Some s' → P s') → Forall ok ls → P s → micro_run ls s = Some s' → P s'.
Proof.
  intros Hstep Hok. revert s. induction Hok as [|l ls Hl _ IH]; simpl; intros s Hs H; [by simplify_eq|].
  apply bind_Some in H as (s1 & H1 & H). eapply IH; [|exact H]. by eapply Hstep.
Qed.

Lemma count_alter P f i s s' t :
  micro_threads s !! i = Some t → micro_threads s' = alter f i (micro_threads s) →
  count_micro P s' = count_micro P s - b2z (P t) + b2z (P (f t)).
Proof. intros Hi Hs. unfold count_micro. rewrite Hs. by apply len_filter_alter. Qed.

(** All steps of a goroutine in one place. *)
Lemma micro_task_step_eq i timeout s :
  micro_task_step i timeout s =
    t ← micro_threads s !! i;
    match micro_pos t with
    | TSubmit =>
        match submit i (micro_priority t) s with
        | Some s' => Some (move i TAwait s')
        | None => Some (move i (TSubmitLate (micro_now s + micro_maxDelay t)) s)
        end
    | TSubmitLate deadline =>
        if timeout then (if deadline <=? micro_now s then Some (move i TAlone s) else None)
        else s' ← submit i (micro_priority t) s; Some (move i TAwait s')
    | TAlone => Some (add_microTasks 1 (set_threads (alter count_alone i (micro_threads s)) s))
    | TAwait => Some (move i (if micro_closed t then TModule else TAwaitLate (micro_now s + micro_maxDelay t)) s)
    | TAwaitLate deadline =>
        if (if timeout then deadline <=? micro_now s else micro_closed t) then Some (move i TModule s) else None
    | TModule => Some (move i TRun (add_microTaskCnt (micro_module t) 1 s))
    | TRun => Some (move i TModuleDone s)
    | TModuleDone => Some (move i TCounterDone (add_microTaskCnt (micro_module t) (-1) s))
    | TCounterDone => Some (move i TNotify (add_microTasks (-1) s))
    | TNotify => Some (move i TEnd (set_finished true s))
    | TEnd => None
    end.
Proof.
  unfold micro_task_step. destruct (micro_threads s !! i) as [t|]; [|done]. simpl.
  unfold getMediumPriorityClearance, getLowPriorityClearance, get_clearance, signalMicroTask, runMicroTask, concludeMicroTask.
  by destruct (micro_pos t), (micro_priority t).
Qed.

(** ** Clearance signals *)

Record links_ok (s : MicroSystem) : Prop := {
  links_NoDup : NoDup (submitted s);
  links_open : ∀ i, i ∈ submitted s → ∃ t, micro_threads s !! i = Some t ∧ micro_closed t = false ∧
    before_submission t = false ∧ micro_alone t = false;
  links_wait : ∀ i t, micro_threads s !! i = Some t → waits_for_clearance t = true → micro_closed t = false → i ∈ submitted s;
  links_before : ∀ i t, micro_threads s !! i = Some t → before_submission t = true → micro_closed t = false ∧ micro_alone t = false;
  links_alone : ∀ i t, micro_threads s !! i = Some t → waits_for_clearance t = true → micro_alone t = false;
  links_alive : micro_scheduler s ≠ MPanic;
}.

(** Other fields changed. *)
Lemma links_same s s' :
  links_ok s → submitted s' = submitted s → micro_threads s' = micro_threads s → micro_scheduler s' ≠ MPanic → links_ok s'.
Proof. intros [H1 H2 H3 H4 H5 H6] Hs Ht Hp. split; rewrite ?Hs, ?Ht; done. Qed.

Lemma lookup_alter_cases (f : MicroTask → MicroTask) i j (l : list MicroTask) t :
  alter f i l !! j = Some t → (j = i ∧ ∃ t0, l !! i = Some t0 ∧ t = f t0) ∨ (j ≠ i ∧ l !! j = Some t).
Proof.
  destruct (decide (j = i)) as [->|Hne].
  - rewrite list_lookup_alter_eq. intros (t0 & H0 & ->)%fmap_Some. left. eauto.
  - rewrite list_lookup_alter_ne by done. by right.
Qed.

(** One goroutine moves, its signal stays where it is. *)
Lemma links_move s s' f i t :
  links_ok s → micro_threads s !! i = Some t →
  submitted s' = submitted s → micro_scheduler s' = micro_scheduler s → micro_threads s' = alter f i (micro_threads s) →
  micro_closed (f t) = micro_closed t →
  (before_submission t = false → before_submission (f t) = false ∧ micro_alone (f t) = micro_alone t) →
  (waits_for_clearance (f t) = true → waits_for_clearance t = true ∧ micro_alone (f t) = micro_alone t) →
  (before_submission (f t) = true → micro_alone (f t) = false) →
  links_ok s'.
Proof.
  intros [H1 H2 H3 H4 H5 H6] Hi Hs Hp Ht Hc Hb Hw Ha. split; rewrite ?Hs, ?Ht, ?Hp; try done.
  - intros j Hj. destruct (H2 j Hj) as (tj & Htj & Hcj & Hbj & Haj). destruct (decide (j = i)) as [->|Hne].
    + simplify_eq. exists (f t). rewrite list_lookup_alter_eq, Hi. destruct (Hb Hbj) as [Hb1 Hb2]. split_and!; [done|congruence|done|congruence].
    + exists tj. by rewrite list_lookup_alter_ne.
  - intros j tj Hj Hwj Hcj. apply lookup_alter_cases in Hj as [(-> & t0 & Ht0 & ->)|[Hne Hj]]; [|by eapply H3].
    simplify_eq. destruct (Hw Hwj) as [Hwt _]. eapply H3; [exact Hi|done|congruence].
  - intros j tj Hj Hbj. apply lookup_alter_cases in Hj as [(-> & t0 & Ht0 & ->)|[Hne Hj]]; [|by eapply H4].
    simplify_eq. destruct (before_submission t) eqn:Hbt; [|by destruct (Hb eq_refl); congruence].
    destruct (H4 _ _ Hi Hbt) as [Hct _]. split; [congruence|by apply Ha].
  - intros j tj Hj Hwj. apply lookup_alter_cases in Hj as [(-> & t0 & Ht0 & ->)|[Hne Hj]]; [|by eapply H5].
    simplify_eq. destruct (Hw Hwj) as [Hwt ->]. by eapply H5.
Qed.

(** A goroutine submits its signal. *)
Lemma links_submit s s1 i t :
  links_ok s → micro_threads s !! i = Some t → (micro_pos t = TSubmit ∨ ∃ d, micro_pos t = TSubmitLate d) →
  submit i (micro_priority t) s = Some s1 → links_ok (move i TAwait s1).
Proof.
  intros [H1 H2 H3 H4 H5 H6] Hi Hpos Hsub.
  assert (before_submission t = true) as Hbt by (unfold before_submission; destruct Hpos as [->|[? ->]]; done).
  destruct (H4 _ _ Hi Hbt) as [Hct Hat].
  assert (i ∉ submitted s) as Hni.
  { intros Hin. destruct (H2 i Hin) as (t' & Ht' & _ & Hb & _). simplify_eq. congruence. }
  assert (Permutation (submitted (move i TAwait s1)) (i :: submitted s) ∧ micro_scheduler s1 = micro_scheduler s ∧
    micro_threads (move i TAwait s1) = alter (goto TAwait) i (micro_threads s)) as (Hp & Hsc & Hth).
  { unfold submit in Hsub. destruct (_ <? _)%nat; [|done]. injection Hsub as <-.
    destruct (micro_priority t); (split; [|done]); unfold submitted; simpl; destruct (micro_scheduler s); simpl;
      rewrite <- ?app_assoc; simpl; solve_Permutation. }
  split.
  - rewrite Hp. by constructor.
  - intros j Hj. rewrite Hp in Hj. rewrite Hth. apply elem_of_cons in Hj as [->|Hj].
    + exists (goto TAwait t). by rewrite list_lookup_alter_eq, Hi.
    + destruct (H2 j Hj) as (tj & Htj & Hrest). exists tj. rewrite list_lookup_alter_ne; [done|]. by intros ->.
  - intros j tj Hj Hwj Hcj. rewrite Hp. rewrite Hth in Hj. apply lookup_alter_cases in Hj as [(-> & t0 & Ht0 & ->)|[Hne Hj]]; [by left|].
    right. by eapply H3.
  - intros j tj Hj Hbj. rewrite Hth in Hj. apply lookup_alter_cases in Hj as [(-> & t0 & Ht0 & ->)|[Hne Hj]]; [done|by eapply H4].
  - intros j tj Hj Hwj. rewrite Hth in Hj. apply lookup_alter_cases in Hj as [(-> & t0 & Ht0 & ->)|[Hne Hj]]; [|by eapply H5].
    by simplify_eq.
  - unfold move. simpl. by rewrite Hsc.
Qed.

(** A step that only moves its goroutine. *)
Ltac moved :=
  match goal with
  | Hs : links_ok ?s, Hi : micro_threads ?s !! _ = Some ?t, Hpos : micro_pos ?t = _ |- _ =>
      eapply (links_move s); [exact Hs|exact Hi|done..| | |];
      unfold before_submission, waits_for_clearance; simpl; rewrite ?Hpos; try done
  end.

Lemma links_task_step i timeout s s' : links_ok s → micro_task_step i timeout s = Some s' → links_ok s'.
Proof.
  intros Hs H. rewrite micro_task_step_eq in H. apply bind_Some in H as (t & Hi & H).
  destruct (micro_pos t) as [|d| | |d| | | | | |] eqn:Hpos.
  - destruct (submit i (micro_priority t) s) as [s1|] eqn:Hsub; simplify_eq.
    + eapply links_submit; eauto.
    + moved.
      intros _. eapply (links_before s Hs); [exact Hi|]. unfold before_submission. by rewrite Hpos.
  - destruct timeout.
    + destruct (d <=? micro_now s); simplify_eq.
      moved.
      intros _. eapply (links_before s Hs); [exact Hi|]. unfold before_submission. by rewrite Hpos.
    + apply bind_Some in H as (s1 & Hsub & [= <-]). eapply links_submit; eauto.
  - simplify_eq. by moved.
  - simplify_eq. moved; by destruct (micro_closed t).
  - destruct (if timeout then _ else _); simplify_eq.
    by moved.
  - simplify_eq. by moved.
  - simplify_eq. by moved.
  - simplify_eq. by moved.
  - simplify_eq. by moved.
  - simplify_eq. by moved.
  - done.
Qed.

Lemma links_receive s c i s1 down :
  links_ok s → (∀ j d, micro_scheduler s ≠ MClose j d) → receive c s = Some (i, s1) → links_ok (set_scheduler (MClose i down) s1).
Proof.
  intros [H1 H2 H3 H4 H5 H6] Hsc Hr.
  assert (Permutation (submitted (set_scheduler (MClose i down) s1)) (submitted s) ∧ micro_threads s1 = micro_threads s) as [Hp Ht].
  { unfold receive in Hr. unfold submitted. destruct (micro_scheduler s); try (by destruct (Hsc i0 down0));
      destruct c; destruct (mediumPriorityClearance s) eqn:Hm; destruct (lowPriorityClearance s) eqn:Hl; simplify_eq; simpl;
      rewrite ?Hm, ?Hl; (split; [simpl; solve_Permutation|done]). }
  split; simpl; rewrite ?Ht; [by rewrite Hp| | |done|done|done].
  - intros j Hj. rewrite Hp in Hj. by apply H2.
  - intros j tj Hj Hw Hc. rewrite Hp. by eapply H3.
Qed.

Lemma links_scheduler c s s' : links_ok s → scheduler_step c s = Some s' → links_ok s'.
Proof.
  intros Hs H. unfold scheduler_step, microTaskShutdownScheduler, receives in H. destruct (micro_scheduler s) as [| | | | |i down|down| |] eqn:Hsc.
  - simplify_eq. apply (links_same s); [done| |done|by repeat case_match]. unfold submitted. rewrite Hsc. simpl. by repeat case_match.
  - destruct (mediumPriorityClearance s) as [|i l] eqn:Hm.
    + simplify_eq. apply (links_same s); [done| |done|done]. unfold submitted. by rewrite Hsc.
    + apply bind_Some in H as ([j s1] & Hr & [= <-]). eapply links_receive; [done|congruence|exact Hr].
  - assert (receive c s ≫= (λ '(i, s'), Some (set_scheduler (MClose i false) s')) = Some s' ∨ s' = set_scheduler MAll s) as [Hr| ->].
    { destruct (mediumPriorityClearance s); [destruct (lowPriorityClearance s); [right; by simplify_eq|by left]|by left]. }
    + apply bind_Some in Hr as ([i s1] & Hr & [= <-]). eapply links_receive; [done|congruence|exact Hr].
    + apply (links_same s); [done| |done|done]. unfold submitted. by rewrite Hsc.
  - assert (receive c s ≫= (λ '(i, s'), Some (set_scheduler (MClose i false) s')) = Some s' ∨ s' = set_scheduler MCheck s) as [Hr| ->].
    { destruct c; [by left|by left|right; by simplify_eq]. }
    + apply bind_Some in Hr as ([i s1] & Hr & [= <-]). eapply links_receive; [done|congruence|exact Hr].
    + apply (links_same s); [done| |done|done]. unfold submitted. by rewrite Hsc.
  - assert (receive c s ≫= (λ '(i, s'), Some (set_scheduler (MClose i true) s')) = Some s' ∨ s' = s) as [Hr| ->].
    { destruct c; [by left|by left|right; by simplify_eq]. }
    + apply bind_Some in Hr as ([i s1] & Hr & [= <-]). eapply links_receive; [done|congruence|exact Hr].
    + done.
  - pose proof (links_open s Hs i) as Ho. unfold submitted in Ho. rewrite Hsc in Ho.
    destruct Ho as (t & Ht & Hc & Hb & Ha); [by left|]. rewrite Ht in H. simpl in H. rewrite Hc in H. simplify_eq.
    pose proof (links_NoDup s Hs) as Hn. destruct Hs as [H1 H2 H3 H4 H5 H6]. unfold submitted in Hn, H2, H3. rewrite Hsc in Hn, H2, H3. simpl in Hn, H2, H3.
    apply NoDup_cons in Hn as [Hni Hn]. split; unfold submitted; simpl; [done|..|done].
    + intros j Hj. destruct (H2 j) as (tj & Htj & Hrest); [by right|]. exists tj. rewrite list_lookup_alter_ne; [done|]. by intros ->.
    + intros j tj Hj Hwj Hcj. apply lookup_alter_cases in Hj as [(-> & t0 & Ht0 & ->)|[Hne Hj]]; [done|].
      specialize (H3 j tj Hj Hwj Hcj). by apply elem_of_cons in H3 as [->|H3].
    + intros j tj Hj Hbj. apply lookup_alter_cases in Hj as [(-> & t0 & Ht0 & ->)|[Hne Hj]]; [|by eapply H4]. simplify_eq.
      unfold before_submission in Hbj, Hb. simpl in Hbj. congruence.
    + intros j tj Hj Hwj. apply lookup_alter_cases in Hj as [(-> & t0 & Ht0 & ->)|[Hne Hj]]; [|by eapply H5]. by simplify_eq.
  - simplify_eq. apply (links_same s); [done| |done|by destruct down]. unfold submitted. rewrite Hsc. by destruct down.
  - assert (s' = set_scheduler MCheck s ∨ s' = set_scheduler MCheck (set_finished false s)) as [->| ->].
    { destruct c, (microTaskFinished s); simplify_eq; auto. }
    all: apply (links_same s); [done| |done|done]; unfold submitted; by rewrite Hsc.
  - done.
Qed.

Lemma links_start s t :
  links_ok s → micro_closed t = false → micro_alone t = false → before_submission t = true →
  links_ok (set_threads (micro_threads s ++ [t]) s).
Proof.
  intros [H1 H2 H3 H4 H5 H6] Hc Ha Hb. split; [done| | | | |done]; simpl.
  - intros j Hj. destruct (H2 j Hj) as (tj & Htj & Hrest). exists tj. split; [|done]. by apply lookup_app_l_Some.
  - intros j tj [Hj|[_ Hj]]%lookup_app_Some Hw Hcj; [by eapply H3|]. apply list_lookup_singleton_Some in Hj as [_ <-].
    unfold before_submission, waits_for_clearance in *. by destruct (micro_pos t).
  - intros j tj [Hj|[_ Hj]]%lookup_app_Some Hbj; [by eapply H4|]. by apply list_lookup_singleton_Some in Hj as [_ <-].
  - intros j tj [Hj|[_ Hj]]%lookup_app_Some Hbj; [by eapply H5|]. by apply list_lookup_singleton_Some in Hj as [_ <-].
Qed.

(** A call that starts a microtask starts a goroutine or nothing. *)
Definition starts (l : micro_label) (s s' : MicroSystem) : Prop :=
  s' = s ∨ ∃ m p d pc, s' = set_threads (micro_threads s ++ [new_micro p d pc m]) s ∧ (pc = TSubmit ∨ pc = TAlone).

Lemma micro_step_cases l s s' :
  micro_step l s = Some s' →
  starts l s s' ∨ (∃ i timeout, micro_task_step i timeout s = Some s') ∨ (∃ c, scheduler_step c s = Some s') ∨
  (∃ n, l = MicroMax n ∧ s' = SetMaxConcurrentMicroTasks n s) ∨
  (∃ b d, s' = set_micro_outside b d s ∧ (l = MicroShutdown ∨ b = micro_shutdown s)).
Proof.
  destruct l as [m|m d|m d|m|m d|m d|i timeout|c|n|d|]; simpl; intros H.
  1-6: left; injection H as <-; destruct m as [m|]; [right|by left]; eauto 10.
  - right; left; eauto.
  - right; right; left; eauto.
  - right; right; right; left. simplify_eq. eauto.
  - right; right; right; right. destruct (0 <=? d); simplify_eq. eauto.
  - right; right; right; right. simplify_eq. eauto.
Qed.

Lemma links_step l s s' : links_ok s → micro_step l s = Some s' → links_ok s'.
Proof.
  intros Hs [[->|(m & p & d & pc & -> & Hpc)]|[(i & timeout & H)|[(c & H)|[(n & -> & ->)|(b & d & -> & _)]]]]%micro_step_cases.
  - done.
  - by apply links_start; [done|done|done|destruct Hpc as [->| ->]].
  - by eapply links_task_step.
  - by eapply links_scheduler.
  - apply (links_same s); [done| | |]; unfold SetMaxConcurrentMicroTasks; destruct (n <? 2); try done; apply (links_alive s Hs).
  - apply (links_same s); [done|done|done|apply (links_alive s Hs)].
Qed.

Lemma links_init procs modules now : links_ok (micro_init procs modules now).
Proof. split; simpl; [constructor|by intros ? ?%elem_of_nil|done..]. Qed.

Lemma links_run procs modules now ls s : micro_run ls (micro_init procs modules now) = Some s → links_ok s.
Proof.
  intros H. eapply (micro_run_invariant links_ok (λ _, True)); [| | |exact H].
  - intros l s1 s2 _. apply links_step.
  - by apply Forall_true.
  - apply links_init.
Qed.

(** ** The counters *)

(** What the scheduler has counted and not been given back, and the running
    goroutines that counted themselves. *)
Definition cleared (s : MicroSystem) : Z :=
  count_micro (λ t, owes t && negb (micro_alone t)) s - len (mediumPriorityClearance s) - len (lowPriorityClearance s) - pending s.

Definition unscheduled (s : MicroSystem) : Z := count_micro (λ t, owes t && micro_alone t) s.

Definition counter_exact (s : MicroSystem) : Prop := microTasks s = s32 (cleared s + unscheduled s).

Lemma submit_eq i p s s1 :
  submit i p s = Some s1 →
  micro_threads s1 = micro_threads s ∧ micro_scheduler s1 = micro_scheduler s ∧ microTasks s1 = microTasks s ∧
  microTaskCnts s1 = microTaskCnts s ∧
  len (mediumPriorityClearance s1) + len (lowPriorityClearance s1) = len (mediumPriorityClearance s) + len (lowPriorityClearance s) + 1.
Proof.
  unfold submit. destruct (_ <? _)%nat; [|done]. intros [= <-]. destruct p; simpl; split_and!; try done; rewrite len_app, len_singleton; lia.
Qed.

Ltac summed Hsum Hpos :=
  let Hx := fresh in let Hu := fresh in
  match goal with |- context [cleared (move ?i ?p ?x)] => destruct (Hsum (move i p x) (goto p)) as [Hx Hu] end; [done|done|];
  rewrite Hx, Hu; unfold owes; simpl; rewrite Hpos; repeat case_match; simpl; split_and!; try done; lia.

(** The effect of a goroutine's step on the sums. *)
Lemma sums_task_step i timeout s s' t :
  links_ok s → micro_threads s !! i = Some t → micro_task_step i timeout s = Some s' →
  micro_scheduler s' = micro_scheduler s ∧
  (microTasks s' = microTasks s ∧ cleared s' = cleared s ∧ unscheduled s' = unscheduled s ∨
   microTasks s' = s32 (microTasks s + 1) ∧ cleared s' = cleared s ∧ unscheduled s' = unscheduled s + 1 ∨
   microTasks s' = s32 (microTasks s - 1) ∧
     (cleared s' = cleared s - 1 ∧ unscheduled s' = unscheduled s ∨ cleared s' = cleared s ∧ unscheduled s' = unscheduled s - 1)).
Proof.
  intros Hs Hi H. rewrite micro_task_step_eq in H. rewrite Hi in H. simpl in H.
  assert (∀ s1 f, micro_threads s1 = alter f i (micro_threads s) → micro_scheduler s1 = micro_scheduler s →
    cleared s1 = cleared s - b2z (owes t && negb (micro_alone t)) + b2z (owes (f t) && negb (micro_alone (f t)))
      + (len (mediumPriorityClearance s) + len (lowPriorityClearance s)) - (len (mediumPriorityClearance s1) + len (lowPriorityClearance s1)) ∧
    unscheduled s1 = unscheduled s - b2z (owes t && micro_alone t) + b2z (owes (f t) && micro_alone (f t))) as Hsum.
  { intros s1 f Ht Hsc. unfold cleared, unscheduled, pending. rewrite Hsc, !(count_alter _ f i s s1 t Hi Ht). lia. }
  pose proof (links_before s Hs i t Hi) as Hb. unfold before_submission in Hb.
  assert (∀ s1 p, submit i (micro_priority t) s = Some s1 → owes t = false → micro_alone t = false → p = TAwait →
    micro_scheduler (move i p s1) = micro_scheduler s ∧
    (microTasks (move i p s1) = microTasks s ∧ cleared (move i p s1) = cleared s ∧ unscheduled (move i p s1) = unscheduled s)) as Hsub.
  { intros s1 p (H1 & H2 & H3 & H4 & H5)%submit_eq Ho Ha ->. destruct (Hsum (move i TAwait s1) (goto TAwait)) as [Hx Hu]; [by simpl; rewrite H1|done|].
    rewrite Hx, Hu, Ho. unfold owes. simpl. rewrite Ha. simpl. split_and!; [done|done|lia|lia]. }
  destruct (micro_pos t) as [|d| | |d| | | | | |] eqn:Hpos.
  - assert (owes t = false) as Ho by (unfold owes; by rewrite Hpos).
    destruct (submit i (micro_priority t) s) as [s1|] eqn:Hsb; simplify_eq.
    + destruct (Hsub s1 TAwait) as (? & ? & ? & ?); [done|done|by apply Hb|done|]. split; [done|]. by left.
    + destruct (Hsum (move i (TSubmitLate (micro_now s + micro_maxDelay t)) s) (goto (TSubmitLate (micro_now s + micro_maxDelay t)))) as [Hx Hu]; [done|done|].
      split; [done|]. left. rewrite Hx, Hu, Ho. unfold owes. simpl. split_and!; [done|lia|lia].
  - assert (owes t = false) as Ho by (unfold owes; by rewrite Hpos). destruct timeout.
    + destruct (d <=? micro_now s); simplify_eq. destruct (Hsum (move i TAlone s) (goto TAlone)) as [Hx Hu]; [done|done|].
      split; [done|]. left. rewrite Hx, Hu, Ho. unfold owes. simpl. split_and!; [done|lia|lia].
    + apply bind_Some in H as (s1 & Hsb & [= <-]). destruct (Hsub s1 TAwait) as (? & ? & ? & ?); [done|done|by apply Hb|done|]. split; [done|]. by left.
  - simplify_eq. split; [done|]. right; left. match goal with |- context [cleared ?x] => destruct (Hsum x count_alone) as [Hx Hu] end; [done|done|].
    rewrite Hx, Hu. unfold owes. simpl. rewrite Hpos. simpl. split_and!; [done|lia|lia].
  - simplify_eq. split; [done|]. left. match goal with |- context [move i ?p s] => destruct (Hsum (move i p s) (goto p)) as [Hx Hu] end; [done|done|].
    rewrite Hx, Hu. unfold owes. simpl. rewrite Hpos. destruct (micro_closed t), (micro_alone t); simpl; split_and!; try done; lia.
  - destruct (if timeout then _ else _); simplify_eq. split; [done|]. left. by summed Hsum Hpos.
  - simplify_eq. split; [done|]. left. by summed Hsum Hpos.
  - simplify_eq. split; [done|]. left. by summed Hsum Hpos.
  - simplify_eq. split; [done|]. left. by summed Hsum Hpos.
  - simplify_eq. split; [done|]. right; right. match goal with |- context [move i ?p ?x] => destruct (Hsum (move i p x) (goto p)) as [Hx Hu] end; [done|done|].
    split; [done|]. rewrite Hx, Hu. unfold owes. simpl. rewrite Hpos. destruct (micro_alone t); simpl; lia.
  - simplify_eq. split; [done|]. left. by summed Hsum Hpos.
  - done.
Qed.

Lemma receive_eq c s i s1 :
  receive c s = Some (i, s1) →
  micro_threads s1 = micro_threads s ∧ microTasks s1 = microTasks s ∧ microTaskCnts s1 = microTaskCnts s ∧
  microTasksThreshhold s1 = microTasksThreshhold s ∧ micro_shutdown s1 = micro_shutdown s ∧
  len (mediumPriorityClearance s1) + len (lowPriorityClearance s1) + 1 = len (mediumPriorityClearance s) + len (lowPriorityClearance s).
Proof.
  unfold receive. destruct c; destruct (mediumPriorityClearance s); destruct (lowPriorityClearance s); intros H; simplify_eq; simpl;
    rewrite ?len_cons; split_and!; try done; lia.
Qed.

(** A slot is promised from the check to the increase of the counter. *)
Definition slot (p : scheduler_pc) : Z :=
  match p with MMedium | MMediumLow | MAll | MClose _ _ | MAdd _ => 1 | MCheck | MDown | MFinished | MPanic => 0 end.

Definition going_down (p : scheduler_pc) : bool := match p with MDown | MClose _ true | MAdd true => true | _ => false end.

Lemma count_close i s : count_micro (λ t, owes t && micro_alone t) (set_threads (alter close_signal i (micro_threads s)) s) = unscheduled s ∧
  count_micro (λ t, owes t && negb (micro_alone t)) (set_threads (alter close_signal i (micro_threads s)) s) =
  count_micro (λ t, owes t && negb (micro_alone t)) s.
Proof.
  destruct (micro_threads s !! i) as [t|] eqn:Hi.
  - unfold unscheduled. split; rewrite (count_alter _ close_signal i s _ t Hi) by done; cbv beta;
      change (owes (close_signal t)) with (owes t); change (micro_alone (close_signal t)) with (micro_alone t); lia.
  - unfold unscheduled, count_micro. simpl. assert (alter close_signal i (micro_threads s) = micro_threads s) as ->; [|done].
    apply list_eq. intros j. destruct (decide (j = i)) as [->|]; [by rewrite list_lookup_alter_eq, Hi|by rewrite list_lookup_alter_ne].
Qed.

(** The effect of a step of the scheduler. *)
Lemma sums_scheduler c s s' :
  links_ok s → scheduler_step c s = Some s' →
  micro_shutdown s' = micro_shutdown s ∧ microTasksThreshhold s' = microTasksThreshhold s ∧ unscheduled s' = unscheduled s ∧
  microTaskCnts s' = microTaskCnts s ∧ length (micro_threads s') = length (micro_threads s) ∧
  (microTasks s' = microTasks s ∧ cleared s' = cleared s ∧
     (going_down (micro_scheduler s') = true → going_down (micro_scheduler s) = true ∨ micro_shutdown s = true) ∧
     (going_down (micro_scheduler s') = false → slot (micro_scheduler s') <= slot (micro_scheduler s) ∨ microTasks s < microTasksThreshhold s) ∨
   ∃ down, micro_scheduler s = MAdd down ∧ microTasks s' = s32 (microTasks s + 1) ∧ cleared s' = cleared s + 1 ∧
     micro_scheduler s' = if down then MDown else MCheck).
Proof.
  intros Hs H. assert (∀ c down, micro_scheduler s = MMedium ∨ micro_scheduler s = MMediumLow ∨ micro_scheduler s = MAll ∨ micro_scheduler s = MDown →
    receives c down s = Some s' → (down = true → going_down (micro_scheduler s) = true) → (down = false → slot (micro_scheduler s) = 1) →
    micro_shutdown s' = micro_shutdown s ∧ microTasksThreshhold s' = microTasksThreshhold s ∧ unscheduled s' = unscheduled s ∧
    microTaskCnts s' = microTaskCnts s ∧ length (micro_threads s') = length (micro_threads s) ∧
    microTasks s' = microTasks s ∧ cleared s' = cleared s ∧
     (going_down (micro_scheduler s') = true → going_down (micro_scheduler s) = true ∨ micro_shutdown s = true) ∧
     (going_down (micro_scheduler s') = false → slot (micro_scheduler s') <= slot (micro_scheduler s) ∨ microTasks s < microTasksThreshhold s)) as Hrec.
  { intros c0 down Hsc Hr Hd1 Hd2. unfold receives in Hr. apply bind_Some in Hr as ([i s1] & (H1 & H2 & H3 & H4 & H5 & H6)%receive_eq & [= <-]).
    assert (pending s = 0) as Hp by (unfold pending; by destruct Hsc as [->|[->|[->| ->]]]).
    unfold unscheduled, cleared, count_micro, pending at 1. simpl. rewrite H1. fold (pending s). rewrite Hp. split_and!; try done.
    - lia.
    - intros Hg. left. apply Hd1. by destruct down.
    - intros Hg. left. destruct down; [done|]. by rewrite Hd2. }
  unfold scheduler_step, microTaskShutdownScheduler in H. destruct (micro_scheduler s) as [| | | | |i down|down| |] eqn:Hsc.
  - simplify_eq. split_and!; try done. left. unfold cleared, pending. simpl. rewrite Hsc. split_and!; [done| | |].
    + by repeat case_match.
    + destruct (micro_shutdown s); [by right|]. destruct (_ <? _); simpl; done.
    + destruct (micro_shutdown s); [done|]. destruct (Z.ltb_spec (microTasks s) (microTasksThreshhold s)); [by right|]. by left.
  - destruct (mediumPriorityClearance s) as [|i l] eqn:Hm.
    + simplify_eq. split_and!; try done. left. unfold cleared, pending. simpl. rewrite Hsc. split_and!; try done. by left.
    + destruct (Hrec ChooseMedium false) as (?&?&?&?&?&?); [by left|done|done|done|]. split_and!; try done. by left.
  - assert (receives c false s = Some s' ∨ s' = set_scheduler MAll s) as [Hr| ->].
    { destruct (mediumPriorityClearance s); [destruct (lowPriorityClearance s); [right; by simplify_eq|by left]|by left]. }
    + destruct (Hrec c false) as (?&?&?&?&?&?); [auto|done|done|done|]. split_and!; try done. by left.
    + split_and!; try done. left. unfold cleared, pending. simpl. rewrite Hsc. split_and!; try done. by left.
  - assert (receives c false s = Some s' ∨ s' = set_scheduler MCheck s) as [Hr| ->].
    { destruct c; [by left|by left|right; by simplify_eq]. }
    + destruct (Hrec c false) as (?&?&?&?&?&?); [auto|done|done|done|]. split_and!; try done. by left.
    + split_and!; try done. left. unfold cleared, pending. simpl. rewrite Hsc. split_and!; try done. by left.
  - assert (receives c true s = Some s' ∨ s' = s) as [Hr| ->].
    { destruct c; [by left|by left|right; by simplify_eq]. }
    + destruct (Hrec c true) as (?&?&?&?&?&?); [auto|done|done|done|]. split_and!; try done. by left.
    + split_and!; try done. left. rewrite Hsc. split_and!; try done; intros _; by left.
  - destruct (count_close i s) as [Hu Hc].
    pose proof (links_open s Hs i) as Ho. unfold submitted in Ho. rewrite Hsc in Ho.
    destruct Ho as (t & Ht & Hct & _); [by left|]. rewrite Ht in H. simpl in H. rewrite Hct in H. simplify_eq.
    split_and!; [done|done|exact Hu|done|simpl; by rewrite length_alter|]. left. split_and!.
    + done.
    + transitivity (count_micro (λ t, owes t && negb (micro_alone t)) (set_threads (alter close_signal i (micro_threads s)) s)
        - len (mediumPriorityClearance s) - len (lowPriorityClearance s) - 1); [done|]. rewrite Hc. unfold cleared, pending. by rewrite Hsc.
    + intros ?. by left.
    + intros ?. left. simpl. done.
  - simplify_eq. split_and!; try done. right. exists down. split_and!; try done. unfold cleared, pending, count_micro. simpl. rewrite Hsc. destruct down; simpl; lia.
  - assert (s' = set_scheduler MCheck s ∨ s' = set_scheduler MCheck (set_finished false s)) as [->| ->].
    { destruct c, (microTaskFinished s); simplify_eq; auto. }
    all: split_and!; try done; left; unfold cleared, pending; simpl; rewrite ?Hsc; split_and!; try done; intros; by left.
  - done.
Qed.

Lemma sums_step l s s' :
  links_ok s → micro_step l s = Some s' →
  (length (micro_threads s) <= length (micro_threads s'))%nat ∧ (counter_exact s → counter_exact s').
Proof.
  intros Hs [[->|(m & p & d & pc & -> & Hpc)]|[(i & timeout & H)|[(c & H)|[(n & -> & ->)|(b & d & -> & _)]]]]%micro_step_cases.
  - done.
  - split; [simpl; rewrite length_app; lia|]. unfold counter_exact, cleared, unscheduled, count_micro, pending. simpl.
    rewrite !len_filter_app, !len_filter_one. unfold owes. simpl. intros ->. f_equal. destruct Hpc as [->| ->]; simpl; lia.
  - pose proof H as H'. rewrite micro_task_step_eq in H'. apply bind_Some in H' as (t & Hi & H').
    split; [repeat case_match; simplify_eq; simpl; rewrite ?length_alter; try done|].
    + match goal with Hsub : submit _ _ _ = Some _ |- _ => apply submit_eq in Hsub as (-> & _); done end.
    + apply bind_Some in H' as (s1 & (Ht & _)%submit_eq & [= <-]). simpl. by rewrite length_alter, Ht.
    + unfold counter_exact. destruct (sums_task_step i timeout s s' t Hs Hi H) as (_ & [(-> & -> & ->)|[(-> & -> & ->)|(-> & [[-> ->]|[-> ->]])]]);
        intros Hc; rewrite Hc; try done; unfold Z.sub; rewrite s32_add; f_equal; lia.
  - destruct (sums_scheduler c s s' Hs H) as (_ & _ & Hu & _ & Hl & [(Hm & Hc & _)|(down & _ & Hm & Hc & _)]);
      unfold counter_exact; rewrite Hm, Hc, Hu, Hl; (split; [done|]); intros Hex; [done|]. rewrite Hex, s32_add. f_equal. lia.
  - split; [unfold SetMaxConcurrentMicroTasks; by destruct (n <? 2)|]. intros Hc. unfold SetMaxConcurrentMicroTasks. by destruct (n <? 2).
  - done.
Qed.

(** ** No wrap *)

Lemma count_split P Q s : count_micro (λ t, P t && negb (Q t)) s + count_micro (λ t, P t && Q t) s = count_micro P s.
Proof.
  unfold count_micro. induction (micro_threads s) as [|t l IH]; [done|]. simpl. destruct (P t), (Q t); simpl; rewrite ?len_cons; lia.
Qed.

Lemma count_range P s : 0 <= count_micro P s <= len (micro_threads s).
Proof. unfold count_micro. induction (micro_threads s) as [|t l IH]; [done|]. simpl. destruct (P t); rewrite ?len_cons; lia. Qed.

Lemma submitted_length s : links_ok s → (length (submitted s) <= length (micro_threads s))%nat.
Proof.
  intros Hs. rewrite <- (length_seq (length (micro_threads s)) 0). apply submseteq_length. apply NoDup_submseteq; [apply (links_NoDup s Hs)|].
  intros i Hi. destruct (links_open s Hs i Hi) as (t & Ht & _). apply elem_of_seq. apply lookup_lt_Some in Ht. lia.
Qed.

Lemma counter_range s :
  links_ok s → counter_exact s → len (micro_threads s) < 2 ^ 31 → microTasks s = cleared s + unscheduled s.
Proof.
  intros Hs -> Hn. apply s32_small. unfold cleared, unscheduled. pose proof (count_split owes micro_alone s). pose proof (count_range owes s).
  pose proof (submitted_length s Hs) as Hl. unfold submitted, pending in *. unfold len in *. rewrite !length_app in Hl.
  destruct (micro_scheduler s); simpl in *; lia.
Qed.

Lemma unscheduled_nonneg s : 0 <= unscheduled s.
Proof. apply count_range. Qed.

(** The threshold stays at most [max], and the program is not shut down. *)
Definition regular (max : Z) (l : micro_label) : Prop :=
  match l with
  | MicroShutdown => False
  | MicroMax n => (if n <? 2 then 2 else s32 n) <= max
  | _ => True
  end.

Record within (max : Z) (s : MicroSystem) : Prop := {
  within_links : links_ok s;
  within_counter : counter_exact s;
  within_threshhold : microTasksThreshhold s <= max;
  within_up : micro_shutdown s = false;
  within_going : going_down (micro_scheduler s) = false;
  within_max : cleared s + slot (micro_scheduler s) <= max;
}.

Lemma within_step max l s s' :
  regular max l → within max s → len (micro_threads s) < 2 ^ 31 → micro_step l s = Some s' → within max s'.
Proof.
  intros Hreg Hw Hn H. pose proof (links_step l s s' (within_links _ _ Hw) H) as Hs'.
  pose proof (proj2 (sums_step l s s' (within_links _ _ Hw) H) (within_counter _ _ Hw)) as Hc'.
  pose proof (counter_range s (within_links _ _ Hw) (within_counter _ _ Hw) Hn) as Hm. pose proof (unscheduled_nonneg s) as Hu0.
  destruct Hw as [Hs Hc Ht Hup Hg Hmax].
  apply micro_step_cases in H as [[->|(m & p & d & pc & -> & Hpc)]|[(i & timeout & H)|[(c & H)|[(n & -> & ->)|(b & d & -> & Hb)]]]].
  - done.
  - split; try done. etransitivity; [|exact Hmax]. unfold cleared, count_micro, pending. simpl.
    rewrite len_filter_app, len_filter_one. unfold owes at 2. simpl. destruct Hpc as [->| ->]; simpl; lia.
  - pose proof H as H'. rewrite micro_task_step_eq in H'. apply bind_Some in H' as (t & Hi & _).
    assert (microTasksThreshhold s' = microTasksThreshhold s ∧ micro_shutdown s' = micro_shutdown s) as [Ht' Hup'].
    { rewrite micro_task_step_eq in H. rewrite Hi in H. simpl in H. unfold submit in H. repeat case_match; simplify_eq; try done.
      all: apply bind_Some in H as (s1 & H & [= <-]); by repeat case_match; simplify_eq. }
    destruct (sums_task_step i timeout s s' t Hs Hi H) as (Hsc & Hsum).
    split; rewrite ?Hsc, ?Ht', ?Hup'; try done. destruct Hsum as [(_ & -> & _)|[(_ & -> & _)|(_ & [[-> _]|[-> _]])]]; lia.
  - destruct (sums_scheduler c s s' Hs H) as (Hup' & Ht' & Hu & _ & _ & [(_ & Hcl & Hg1 & Hg2)|(down & Hsc & _ & Hcl & Hsc')]).
    + assert (going_down (micro_scheduler s') = false) as Hg'.
      { destruct (going_down (micro_scheduler s')); [|done]. destruct (Hg1 eq_refl); congruence. }
      split; rewrite ?Hup', ?Ht'; try done. rewrite Hcl. destruct (Hg2 Hg') as [Hle|Hlt]; [lia|].
      assert (slot (micro_scheduler s') <= 1) by (by destruct (micro_scheduler s')). lia.
    + rewrite Hsc in *. destruct down; [done|]. split; rewrite ?Hup', ?Ht', ?Hsc'; try done. rewrite Hcl. simpl in *. lia.
  - unfold SetMaxConcurrentMicroTasks in *. simpl in Hreg. destruct (n <? 2); split; done.
  - destruct Hb as [->| ->]; [done|]. split; done.
Qed.

Lemma run_threads ls s s' : links_ok s → micro_run ls s = Some s' → len (micro_threads s) <= len (micro_threads s').
Proof.
  revert s. induction ls as [|l ls IH]; simpl; intros s Hs H; [by simplify_eq|]. apply bind_Some in H as (s1 & H1 & H).
  destruct (sums_step l s s1 Hs H1) as [Hle _]. specialize (IH s1 (links_step l s s1 Hs H1) H). unfold len in *. lia.
Qed.

Lemma within_run max ls s s' :
  Forall (regular max) ls → within max s → micro_run ls s = Some s' → len (micro_threads s') < 2 ^ 31 → within max s'.
Proof.
  intros Hreg. revert s. induction Hreg as [|l ls Hl _ IH]; simpl; intros s Hw H Hn; [by simplify_eq|].
  apply bind_Some in H as (s1 & H1 & H). pose proof (links_step l s s1 (within_links _ _ Hw) H1) as Hs1.
  pose proof (run_threads ls s1 s' Hs1 H). destruct (sums_step l s s1 (within_links _ _ Hw) H1) as [Hle _].
  apply (IH s1); [|done|done]. eapply within_step; [done|exact Hw| |exact H1]. unfold len in *. lia.
Qed.

(** ** The counters of the modules *)

Definition in_progress_of (m : nat) (t : MicroTask) : bool := in_progress t && Nat.eqb (micro_module t) m.

Definition cnts_ok (s : MicroSystem) : Prop :=
  ∀ m c, microTaskCnts s !! m = Some c → c = s32 (count_micro (in_progress_of m) s).

Lemma cnts_move s s' f i t (d : Z) :
  cnts_ok s → micro_threads s !! i = Some t → micro_threads s' = alter f i (micro_threads s) →
  microTaskCnts s' = alter (λ n, s32 (n + d)) (micro_module t) (microTaskCnts s) →
  micro_module (f t) = micro_module t → b2z (in_progress (f t)) = b2z (in_progress t) + d → cnts_ok s'.
Proof.
  intros Hs Hi Ht Hc Hm Hd m c Hmc. rewrite (count_alter _ f i s s' t Hi Ht). unfold in_progress_of. rewrite Hm. rewrite Hc in Hmc.
  destruct (decide (micro_module t = m)) as [<-|Hne].
  - rewrite list_lookup_alter_eq in Hmc. apply fmap_Some in Hmc as (c0 & Hc0 & ->). rewrite (Hs _ _ Hc0), s32_add. f_equal.
    rewrite Nat.eqb_refl, !andb_true_r, Hd. unfold in_progress_of. lia.
  - rewrite list_lookup_alter_ne in Hmc by done. rewrite (Hs _ _ Hmc). f_equal. rewrite (proj2 (Nat.eqb_neq _ _) Hne), !andb_false_r.
    unfold in_progress_of. simpl. lia.
Qed.

(** A step that counts nothing. *)
Lemma cnts_stay s s' f i t :
  cnts_ok s → micro_threads s !! i = Some t → micro_threads s' = alter f i (micro_threads s) →
  microTaskCnts s' = microTaskCnts s → micro_module (f t) = micro_module t → in_progress (f t) = in_progress t → cnts_ok s'.
Proof.
  intros Hs Hi Ht Hc Hm Hp m c Hmc. rewrite (count_alter _ f i s s' t Hi Ht). unfold in_progress_of at 2 3. rewrite Hm, Hp.
  rewrite Hc in Hmc. rewrite (Hs _ _ Hmc). f_equal. lia.
Qed.

Lemma cnts_step l s s' : links_ok s → cnts_ok s → micro_step l s = Some s' → cnts_ok s'.
Proof.
  intros Hl Hs [[->|(m & p & d & pc & -> & Hpc)]|[(i & timeout & H)|[(c & H)|[(n & -> & ->)|(b & d & -> & _)]]]]%micro_step_cases.
  - done.
  - intros m' c Hc. rewrite (Hs m' c Hc). unfold count_micro. simpl. rewrite len_filter_app, len_filter_one. f_equal.
    unfold in_progress_of at 3, in_progress. simpl. destruct Hpc as [->| ->]; simpl; lia.
  - rewrite micro_task_step_eq in H. apply bind_Some in H as (t & Hi & H).
    assert (∀ s1 p, submit i (micro_priority t) s = Some s1 → in_progress t = false → p = TAwait → cnts_ok (move i p s1)) as Hsub.
    { intros s1 p (H1 & _ & _ & H4 & _)%submit_eq Hp ->. eapply (cnts_stay s _ (goto TAwait) i t); [done|done|by simpl; rewrite H1|done|done|done]. }
    unfold in_progress in Hsub. destruct (micro_pos t) as [|d| | |d| | | | | |] eqn:Hpos.
    + destruct (submit i (micro_priority t) s) as [s1|] eqn:Hsb; simplify_eq; [by apply Hsub|].
      eapply cnts_stay; [done|done|done|done|done|]. unfold in_progress. by rewrite Hpos.
    + destruct timeout.
      * destruct (d <=? micro_now s); simplify_eq. eapply cnts_stay; [done|done|done|done|done|]. unfold in_progress. by rewrite Hpos.
      * apply bind_Some in H as (s1 & Hsb & [= <-]). by apply Hsub.
    + simplify_eq. eapply cnts_stay; [done|done|done|done|done|]. unfold in_progress. by rewrite Hpos.
    + simplify_eq. eapply cnts_stay; [done|done|done|done|done|]. unfold in_progress. rewrite Hpos. by destruct (micro_closed t).
    + destruct (if timeout then _ else _); simplify_eq. eapply cnts_stay; [done|done|done|done|done|]. unfold in_progress. by rewrite Hpos.
    + simplify_eq. eapply (cnts_move s _ (goto TRun) i t 1); [done|done|done|done|done|]. unfold in_progress. by rewrite Hpos.
    + simplify_eq. eapply cnts_stay; [done|done|done|done|done|]. unfold in_progress. by rewrite Hpos.
    + simplify_eq. eapply (cnts_move s _ (goto TCounterDone) i t (-1)); [done|done|done|done|done|]. unfold in_progress. by rewrite Hpos.
    + simplify_eq. eapply cnts_stay; [done|done|done|done|done|]. unfold in_progress. by rewrite Hpos.
    + simplify_eq. eapply cnts_stay; [done|done|done|done|done|]. unfold in_progress. by rewrite Hpos.
    + done.
  - destruct (sums_scheduler c s s' Hl H) as (_ & _ & _ & Hc & _).
    assert (∀ m, count_micro (in_progress_of m) s' = count_micro (in_progress_of m) s) as Heq; [|by intros m c'; rewrite Hc, Heq; apply Hs].
    clear Hc. intros m. unfold scheduler_step, microTaskShutdownScheduler, receives in H.
    repeat case_match; simplify_eq; try done;
      try (apply bind_Some in H as ([j s1] & (Hth & _)%receive_eq & [= <-]); unfold count_micro; simpl; by rewrite Hth).
    destruct (micro_threads s !! i) as [t|] eqn:Hi; [|done].
    rewrite (count_alter _ close_signal i s _ t Hi) by done. unfold in_progress_of at 2 3, in_progress. simpl. lia.
  - unfold SetMaxConcurrentMicroTasks. by destruct (n <? 2).
  - done.
Qed.

(** ** Theorems *)

Lemma micro_run_links_counts procs modules now ls s :
  micro_run ls (micro_init procs modules now) = Some s → links_ok s ∧ counter_exact s ∧ cnts_ok s.
Proof.
  intros H. eapply (micro_run_invariant (λ s, links_ok s ∧ counter_exact s ∧ cnts_ok s) (λ _, True)); [| | |exact H].
  - intros l s1 s2 _ (H1 & H2 & H3) Hstep. split_and!; [by eapply links_step|by eapply sums_step|by eapply cnts_step].
  - by apply Forall_true.
  - split_and!; [apply links_init|done|]. intros m c Hc. by apply lookup_replicate in Hc as [-> _].
Qed.

(** C17: The counter is exact: in every run it is the number of microtasks that
    started or submitted their signal and have not finished, less the signals
    that the scheduler has not counted yet. So it is zero when all have
    finished and none is waiting. Each module's counter is the number of its
    microtasks in progress. *)
Theorem microtask_counters_exact procs modules now ls s :
  micro_run ls (micro_init procs modules now) = Some s →
  microTasks s = s32 (count_micro owes s - len (mediumPriorityClearance s) - len (lowPriorityClearance s) - pending s) ∧
  ∀ m c, microTaskCnts s !! m = Some c → c = s32 (count_micro (in_progress_of m) s).
Proof.
  intros (_ & Hc & Hm)%micro_run_links_counts. split; [|exact Hm]. rewrite Hc. f_equal. unfold cleared, unscheduled.
  pose proof (count_split owes micro_alone s). lia.
Qed.

(** C16: A microtask that is to be cleared by the scheduler gets clearance when a
    slot is free: while the threshold is at most [max] and the program is not
    shut down, the scheduler accounts for at most [max] microtasks, and the
    counter exceeds that only by those that count themselves. *)
Theorem microtasks_bounded procs modules now max ls s :
  s32 (Z.of_nat procs * 2) <= max → 0 <= max → Forall (regular max) ls →
  micro_run ls (micro_init procs modules now) = Some s → len (micro_threads s) < 2 ^ 31 →
  cleared s <= max ∧ microTasks s <= max + unscheduled s.
Proof.
  intros Hp Hmax Hreg H Hn. assert (within max s) as [Hs Hc _ _ _ Hm].
  { eapply within_run; [exact Hreg| |exact H|exact Hn]. split; try done. apply links_init. }
  assert (0 <= slot (micro_scheduler s)) by (by destruct (micro_scheduler s)).
  rewrite (counter_range s Hs Hc Hn). lia.
Qed.

(** The scheduler closes no signal twice, which would panic, and loses none: a
    microtask that waits has its signal closed, in the scheduler's hands or in
    a queue, once. *)
Theorem clearance_not_lost procs modules now ls s :
  micro_run ls (micro_init procs modules now) = Some s →
  micro_scheduler s ≠ MPanic ∧ NoDup (submitted s) ∧
  ∀ i t, micro_threads s !! i = Some t → waits_for_clearance t = true → micro_closed t = true ∨ i ∈ submitted s.
Proof.
  intros ([] & _)%micro_run_links_counts. split_and!; [done|done|]. intros i t Hi Hw.
  destruct (micro_closed t) eqn:Hc; [by left|right]. by eapply links_wait0.
Qed.

(** Three microtasks of low priority on one processor, with the scheduler. *)
Definition low_run : list micro_label :=
  [MicroLow (Some 0%nat) 0; MicroLow (Some 0%nat) 0; MicroLow (Some 0%nat) 0; MicroHigh (Some 0%nat);
   MicroStep 0 false; MicroStep 1 false; MicroStep 2 false; MicroStep 3 false] ++
  replicate 6 (MicroSchedule ChooseLow) ++
  [MicroStep 0 false; MicroStep 0 false; MicroStep 1 false].

Definition zero_delay_signal (i : nat) : list micro_label :=
  [SignalLow (Some 0%nat) 0; MicroStep i false; MicroStep i false; MicroStep i true; MicroStep i false].

Lemma microtask_counters_exact_witness :
  ∃ s, micro_run low_run (micro_init 1 1 0) = Some s ∧ microTasks s = 2 ∧ count_micro owes s = 4 ∧
    microTasks s = s32 (count_micro owes s - len (mediumPriorityClearance s) - len (lowPriorityClearance s) - pending s).
Proof.
  eexists. split; [vm_compute; reflexivity|]. split; [vm_compute; reflexivity|]. split; [vm_compute; reflexivity|].
  apply (microtask_counters_exact 1 1 0 low_run). vm_compute. reflexivity.
Defined.

Lemma microtasks_bounded_witness :
  ∃ s, micro_run low_run (micro_init 1 1 0) = Some s ∧ unscheduled s = 1 ∧ cleared s <= 2 ∧ microTasks s <= 2 + unscheduled s.
Proof.
  eexists. split; [vm_compute; reflexivity|]. split; [vm_compute; reflexivity|].
  apply (microtasks_bounded 1 1 0 2 low_run).
  - vm_compute. by intros.
  - lia.
  - by repeat constructor.
  - vm_compute. reflexivity.
  - vm_compute. reflexivity.
Defined.

Lemma clearance_not_lost_witness :
  ∃ s, micro_run low_run (micro_init 1 1 0) = Some s ∧ submitted s = [1%nat; 2%nat] ∧ NoDup (submitted s).
Proof.
  eexists. split; [vm_compute; reflexivity|]. split; [vm_compute; reflexivity|].
  apply (clearance_not_lost 1 1 0 low_run). vm_compute. reflexivity.
Defined.

(** ** Findings *)

(** Signalled with a maximum delay of zero, microtasks of low priority do not
    wait at all: without any step of the scheduler three of them are in progress
    where two are allowed. With Run the zero means three seconds. *)
Lemma zero_delay_not_limited :
  ∃ s, micro_run (concat (zero_delay_signal <$> [0;1;2]%nat)) (micro_init 1 1 0) = Some s ∧
    count_micro in_progress s = 3 ∧ microTasksThreshhold s = 2 ∧ microTasks s = 0.
Proof. eexists. split; [vm_compute; reflexivity|]. split; [vm_compute; reflexivity|]. done. Qed.

(** A maximum of 2^31 becomes a negative threshold: no slot is ever free. *)
Lemma maximum_wraps s : microTasksThreshhold (SetMaxConcurrentMicroTasks (2 ^ 31) s) = - 2 ^ 31.
Proof. unfold SetMaxConcurrentMicroTasks. rewrite (proj2 (Z.ltb_ge _ _)) by lia. reflexivity. Qed.

(** Run refuses a nil module with an error; the goroutine that Start makes then
    panics where it logs that error. *)
Lemma nil_module_start_panics (d : Z) (s : MicroSystem) :
  StartHighPriorityMicroTask None s = Panic ∧ RunHighPriorityMicroTask None s = s ∧
  StartMicroTask None d s = Panic ∧ RunMicroTask None d s = s ∧
  StartLowPriorityMicroTask None d s = Panic ∧ RunLowPriorityMicroTask None d s = s.
Proof. done. Qed.
