(* ===== verification/GoAny.v ===== *)
(** * Dynamic values of Go: interface{}, reflection and float64 integers

    What the sources do with values of type [any]: comparison with ==,
    reflect.DeepEqual, reflect's ConvertibleTo and Convert, and the conversion
    between integers and floats. A value is one of the types that occur in
    configurations: nil, string, bool, the integer types, the float types,
    []string, []interface{} and map[string]interface{}. A slice or map in a value
    is not nil. The entries of a map are listed in the order in which a range
    over it visits them. *)

From Stdlib Require Import ZArith Lia Ascii String SpecFloat.
From stdpp Require Import list strings.
From S2P Require Import Prelude GoStrings.
Local Open Scope Z_scope.

(** ** Types and values *)

Inductive int_kind : Type :=
| KInt | KInt8 | KInt16 | KInt32 | KInt64 | KUint | KUint8 | KUint16 | KUint32 | KUint64.

#[global] Instance int_kind_eq_dec : EqDecision int_kind.
Proof. solve_decision. Defined.

Definition kind_bits (k : int_kind) : Z :=
  match k with
  | KInt8 | KUint8 => 8
  | KInt16 | KUint16 => 16
  | KInt32 | KUint32 => 32
  | _ => 64
  end.

Definition kind_signed (k : int_kind) : bool :=
  match k with
  | KInt | KInt8 | KInt16 | KInt32 | KInt64 => true
  | _ => false
  end.

(** The value of [z] in a variable of the type. *)
Definition wrap_kind (k : int_kind) (z : Z) : Z :=
  let w := kind_bits k in
  if kind_signed k then (z + 2 ^ (w - 1)) `mod` 2 ^ w - 2 ^ (w - 1) else z `mod` 2 ^ w.

Definition in_kind (k : int_kind) (z : Z) : Prop := wrap_kind k z = z.

Inductive any : Type :=
| ANil
| AString (s : string)
| ABool (b : bool)
| AInt (k : int_kind) (z : Z)
| AFloat32 (f : spec_float)
| AFloat64 (f : spec_float)
| AStrings (l : list string)
| AList (l : list any)
| AMap (m : list (string * any)).

Inductive go_type : Type :=
| TNil | TString | TBool | TInt (k : int_kind) | TFloat32 | TFloat64 | TStrings | TList | TMap.

#[global] Instance go_type_eq_dec : EqDecision go_type.
Proof. solve_decision. Defined.

Definition TypeOf (v : any) : go_type :=
  match v with
  | ANil => TNil
  | AString _ => TString
  | ABool _ => TBool
  | AInt k _ => TInt k
  | AFloat32 _ => TFloat32
  | AFloat64 _ => TFloat64
  | AStrings _ => TStrings
  | AList _ => TList
  | AMap _ => TMap
  end.

(** Induction with the hypotheses for the elements of lists and maps. *)
Section AnyInduction.
Variable P : any → Prop.
Hypothesis PNil : P ANil.
Hypothesis PString : ∀ s, P (AString s).
Hypothesis PBool : ∀ b, P (ABool b).
Hypothesis PInt : ∀ k z, P (AInt k z).
Hypothesis PFloat32 : ∀ f, P (AFloat32 f).
Hypothesis PFloat64 : ∀ f, P (AFloat64 f).
Hypothesis PStrings : ∀ l, P (AStrings l).
Hypothesis PList : ∀ l, Forall P l → P (AList l).
Hypothesis PMap : ∀ m, Forall (λ e, P e.2) m → P (AMap m).

Definition any_nested_ind : ∀ v, P v :=
  fix IH v :=
    match v with
    | ANil => PNil
    | AString s => PString s
    | ABool b => PBool b
    | AInt k z => PInt k z
    | AFloat32 f => PFloat32 f
    | AFloat64 f => PFloat64 f
    | AStrings l => PStrings l
    | AList l =>
        PList l ((fix go l : Forall P l := match l with
                              | [] => Forall_nil_2 P
                              | x :: l' => Forall_cons_2 P x l' (IH x) (go l')
                              end) l)
    | AMap m =>
        PMap m ((fix go m : Forall (λ e, P e.2) m := match m with
                             | [] => Forall_nil_2 (λ e, P e.2)
                             | x :: m' => Forall_cons_2 (λ e, P e.2) x m' (IH x.2) (go m')
                             end) m)
    end.

End AnyInduction.

(** ** Comparison *)

(** [a == b]: values of the same type that cannot be compared panic. *)
Definition interface_eq {E : Type} (a b : any) : go E bool :=
  match a, b with
  | ANil, ANil => Ret true
  | AString s, AString t => Ret (String.eqb s t)
  | ABool x, ABool y => Ret (Bool.eqb x y)
  | AInt k x, AInt k' y => Ret (bool_decide (k = k') && (x =? y))
  | AFloat32 x, AFloat32 y => Ret (SFeqb x y)
  | AFloat64 x, AFloat64 y => Ret (SFeqb x y)
  | AStrings _, AStrings _ | AList _, AList _ | AMap _, AMap _ => Panic
  | _, _ => Ret false
  end.

Fixpoint map_get {A : Type} (m : list (string * A)) (key : string) : option A :=
  match m with
  | [] => None
  | (k, v) :: m' => if String.eqb k key then Some v else map_get m' key
  end.

Fixpoint list_eqb {A : Type} (eqb : A → A → bool) (l l' : list A) : bool :=
  match l, l' with
  | [], [] => true
  | x :: l1, y :: l2 => eqb x y && list_eqb eqb l1 l2
  | _, _ => false
  end.

Fixpoint DeepEqual (a b : any) : bool :=
  match a, b with
  | ANil, ANil => true
  | AString s, AString t => String.eqb s t
  | ABool x, ABool y => Bool.eqb x y
  | AInt k x, AInt k' y => bool_decide (k = k') && (x =? y)
  | AFloat32 x, AFloat32 y => SFeqb x y
  | AFloat64 x, AFloat64 y => SFeqb x y
  | AStrings l, AStrings l' => list_eqb String.eqb l l'
  | AList l, AList l' =>
      (fix go l l' := match l, l' with
                      | [], [] => true
                      | x :: l1, y :: l2 => DeepEqual x y && go l1 l2
                      | _, _ => false
                      end) l l'
  | AMap m, AMap m' =>
      (Z.of_nat (length m) =? Z.of_nat (length m')) &&
      (fix go m := match m with
                   | [] => true
                   | (k, v) :: m1 =>
                       match map_get m' k with
                       | Some v' => DeepEqual v v' && go m1
                       | None => false
                       end
                   end) m
  | _, _ => false
  end.

(** ** Integers and floats *)

(** The float of [prec] bits that is nearest to an integer. *)
Definition float64_of_Z (z : Z) : spec_float := binary_normalize 53 1024 z 0 false.
Definition float32_of_Z (z : Z) : spec_float := binary_normalize 24 128 z 0 false.

Definition float_round (prec emax : Z) (f : spec_float) : spec_float :=
  match f with
  | S754_finite s m e => binary_round prec emax s m e
  | _ => f
  end.

(** The integral part, [None] for an infinity or a NaN. *)
Definition float_trunc (f : spec_float) : option Z :=
  match f with
  | S754_zero _ => Some 0
  | S754_finite s m e =>
      let a := Z.shiftl (Zpos m) e in
      Some (if s then - a else a)
  | _ => None
  end.

(** [math.Remainder(f, 1) == 0]. *)
Definition float_integral (f : spec_float) : bool :=
  match f with
  | S754_zero _ => true
  | S754_finite _ m e => if 0 <=? e then true else (Zpos m `mod` 2 ^ (- e) =? 0)
  | _ => false
  end.

(** The result of a conversion of a float that does not fit is up to the
    processor. *)
Class Processor := {
  float_overflow : int_kind → spec_float → Z;
}.

Class ProcessorLaws `{Processor} := {
  float_overflow_fits : ∀ k f, in_kind k (float_overflow k f);
}.

Definition int_of_float `{Processor} (k : int_kind) (f : spec_float) : Z :=
  match float_trunc f with
  | Some z => if wrap_kind k z =? z then z else float_overflow k f
  | None => float_overflow k f
  end.

(** ** reflect: ConvertibleTo and Convert *)

Definition numeric (t : go_type) : bool :=
  match t with TInt _ | TFloat32 | TFloat64 => true | _ => false end.

Definition ConvertibleTo {E : Type} (from to : go_type) : go E bool :=
  match from, to with
  | TNil, _ | _, TNil => Panic
  | _, _ =>
      Ret (bool_decide (from = to) || (numeric from && numeric to) ||
           (match from, to with TInt _, TString => true | _, _ => false end))
  end.

Definition char (n : Z) : ascii := ascii_of_N (Z.to_N n).

(** [string(rune)] in UTF-8. *)
Definition utf8_string (z : Z) : string :=
  let z := if (z <? 0) || (1114111 <? z) || ((55296 <=? z) && (z <=? 57343)) then 65533 else z in
  if z <? 128 then String (char z) ""
  else if z <? 2048 then
    String (char (192 + z / 64)) (String (char (128 + z `mod` 64)) "")
  else if z <? 65536 then
    String (char (224 + z / 4096)) (String (char (128 + (z / 64) `mod` 64)) (String (char (128 + z `mod` 64)) ""))
  else
    String (char (240 + z / 262144)) (String (char (128 + (z / 4096) `mod` 64))
      (String (char (128 + (z / 64) `mod` 64)) (String (char (128 + z `mod` 64)) ""))).

(** The conversion of a value whose type is convertible. *)
Definition Convert `{Processor} (v : any) (to : go_type) : any :=
  match v, to with
  | AInt _ z, TInt k => AInt k (wrap_kind k z)
  | AInt _ z, TFloat32 => AFloat32 (float32_of_Z z)
  | AInt _ z, TFloat64 => AFloat64 (float64_of_Z z)
  | AInt _ z, TString => AString (utf8_string z)
  | AFloat32 f, TInt k | AFloat64 f, TInt k => AInt k (int_of_float k f)
  | AFloat32 f, TFloat64 => AFloat64 (float_round 53 1024 f)
  | AFloat64 f, TFloat32 => AFloat32 (float_round 24 128 f)
  | _, _ => v
  end.

(** ** Lemmas *)

Lemma wrap_int64 (k : int_kind) (z : Z) : kind_bits k = 64 → kind_signed k = true → is_s64 z → wrap_kind k z = z.
Proof.
  intros Hb Hs Hz. unfold wrap_kind, is_s64 in *. rewrite Hb, Hs. rewrite Z.mod_small by lia. lia.
Qed.

Lemma wrap_int64_fits (z : Z) : is_s64 (wrap_kind KInt64 z).
Proof.
  unfold wrap_kind, is_s64. cbn [kind_bits kind_signed].
  assert (0 ≤ (z + 2 ^ (64 - 1)) `mod` 2 ^ 64 < 2 ^ 64) by (apply Z.mod_pos_bound; lia). lia.
Qed.

Lemma int_of_float_fits `{ProcessorLaws} (f : spec_float) : is_s64 (int_of_float KInt64 f).
Proof.
  unfold int_of_float. destruct (float_trunc f) as [z|]; [destruct (Z.eqb_spec (wrap_kind KInt64 z) z) as [<-|]|];
    [apply wrap_int64_fits|rewrite <- float_overflow_fits; apply wrap_int64_fits..].
Qed.

Lemma digits2_pos_bounds (p : positive) :
  2 ^ (Zpos (digits2_pos p) - 1) ≤ Zpos p < 2 ^ Zpos (digits2_pos p).
Proof.
  induction p as [p IH|p IH|]; cbn [digits2_pos]; [| |done].
  all: rewrite Pos2Z.inj_succ.
  all: replace (Z.succ (Zpos (digits2_pos p)) - 1) with (Zpos (digits2_pos p)) by lia.
  all: replace (Z.succ (Zpos (digits2_pos p))) with (1 + Zpos (digits2_pos p)) by lia.
  all: rewrite Z.pow_add_r by lia; change (2 ^ 1) with 2.
  all: assert (2 ^ Zpos (digits2_pos p) = 2 * 2 ^ (Zpos (digits2_pos p) - 1))
    by (rewrite <- Z.pow_succ_r by lia; f_equal; lia).
  all: lia.
Qed.

Lemma iter_xO (p d : positive) : Zpos (Pos.iter xO p d) = Zpos p * 2 ^ Zpos d.
Proof.
  revert p. induction d as [|d IH] using Pos.peano_ind; intros p.
  - simpl. lia.
  - rewrite Pos.iter_succ, Pos2Z.inj_succ, Z.pow_succ_r, Pos2Z.inj_xO, IH by lia. ring.
Qed.

Lemma digits2_iter_xO (p d : positive) : digits2_pos (Pos.iter xO p d) = (digits2_pos p + d)%positive.
Proof.
  induction d as [|d IH] using Pos.peano_ind.
  - simpl. lia.
  - rewrite Pos.iter_succ. cbn [digits2_pos]. rewrite IH. lia.
Qed.

(** An integer of at most 53 bits is a float64. *)
Lemma binary_round_exact (s : bool) (m : positive) :
  Zpos m < 2 ^ 53 → ∃ m' e, binary_round 53 1024 s m 0 = S754_finite s m' e ∧ -53 < e ≤ 0 ∧
    Zpos m' = Zpos m * 2 ^ (- e).
Proof.
  intros Hm. pose proof (digits2_pos_bounds m) as Hd. set (d := Zpos (digits2_pos m)) in *.
  assert (d ≤ 53) as Hd53.
  { destruct (Z.le_gt_cases d 53) as [|Hgt]; [done|]. exfalso.
    assert (2 ^ 53 ≤ 2 ^ (d - 1)) by (apply Z.pow_le_mono_r; lia). lia. }
  assert (1 ≤ d) by (unfold d; lia).
  assert (∀ mx e, Zpos (digits2_pos mx) + e = d → e = d - 53 →
    binary_round_aux 53 1024 s (Zpos mx) e loc_Exact = S754_finite s mx e) as Haux.
  { intros mx e Hde He. unfold binary_round_aux, shr_fexp, fexp, emin. cbn [Zdigits2].
    replace (Z.max (Zpos (digits2_pos mx) + e - 53) (3 - 1024 - 53) - e) with 0 by lia.
    cbn [shr shr_m shr_record_of_loc loc_of_shr_record round_nearest_even].
    cbn [Zdigits2]. replace (Z.max (Zpos (digits2_pos mx) + e - 53) (3 - 1024 - 53) - e) with 0 by lia.
    cbn [shr shr_m shr_record_of_loc]. replace (e <=? 1024 - 53) with true by lia. done. }
  unfold binary_round, fexp, emin. fold d. replace (Z.max (d + 0 - 53) (3 - 1024 - 53)) with (d - 53) by lia.
  unfold shl_align. destruct (d - 53 - 0) as [|p|p] eqn:Hsub.
  - exists m, 0. rewrite Haux by (unfold d in *; lia). split_and!; [done|lia|lia|]. change (2 ^ - 0) with 1. lia.
  - lia.
  - exists (Pos.iter xO m p), (d - 53). rewrite Haux; [|rewrite digits2_iter_xO; unfold d in *; lia|done].
    split_and!; [done|lia|lia|]. rewrite iter_xO. do 2 f_equal. lia.
Qed.

Lemma float64_of_Z_exact (z : Z) :
  - 2 ^ 53 < z < 2 ^ 53 → float_trunc (float64_of_Z z) = Some z ∧ float_integral (float64_of_Z z) = true.
Proof.
  intros Hz.
  assert (∀ s m, Zpos m < 2 ^ 53 →
    float_trunc (binary_round 53 1024 s m 0) = Some (if s then Zneg m else Zpos m) ∧
    float_integral (binary_round 53 1024 s m 0) = true) as Hpos.
  { intros s m Hm. destruct (binary_round_exact s m Hm) as (m' & e & -> & He & Hm'). unfold float_trunc, float_integral.
    assert (0 < 2 ^ (- e)) by (apply Z.pow_pos_nonneg; lia). split.
    - rewrite Z.shiftl_div_pow2 by lia. rewrite Hm', Z.div_mul by lia. by destruct s.
    - destruct (Z.leb_spec 0 e); [done|]. apply Z.eqb_eq. by rewrite Hm', Z.mod_mul by lia. }
  unfold float64_of_Z, binary_normalize. destruct z as [|m|m]; [done| |].
  - apply (Hpos false). lia.
  - apply (Hpos true). lia.
Qed.

(** Comparing with == is symmetric, and panics exactly for two lists or two
    maps of the same type. *)
Lemma interface_eq_panics {E : Type} (a b : any) :
  interface_eq (E := E) a b = Panic ↔ TypeOf a = TypeOf b ∧ (TypeOf a = TStrings ∨ TypeOf a = TList ∨ TypeOf a = TMap).
Proof. destruct a, b; simpl; naive_solver. Qed.
