(* ===== verification/GoSort.v ===== *)
(** * Go's sort and slices packages

    Sorting is a class with its laws: the result is a permutation, sorted when
    the comparison is an ordering. Insertion sort is an instance. *)

From Stdlib Require Import ZArith Lia.
From stdpp Require Import list sorting.
From S2P Require Import Prelude.

(** The algorithm is not stable, so which of
    two equal elements comes first is not known. *)
Class SortLib := sort_Sort : ∀ A : Type, (A → A → bool) → list A → list A.
#[global] Arguments sort_Sort {_ A} less l.

(** [Less] describes an ordering of the elements, as the documentation of the
    package requires. *)
Definition ordering_on {A : Type} (less : A → A → bool) (l : list A) : Prop :=
  (∀ x, x ∈ l → less x x = false) ∧
  (∀ x y z, x ∈ l → y ∈ l → z ∈ l → less x y = true → less y z = true → less x z = true) ∧
  (∀ x y z, x ∈ l → y ∈ l → z ∈ l → less x y = false → less y z = false → less x z = false).

Class SortLaws `{!SortLib} := {
  Sort_perm : ∀ (A : Type) (less : A → A → bool) (l : list A), sort_Sort less l ≡ₚ l;
  Sort_sorted : ∀ (A : Type) (less : A → A → bool) (l : list A),
    ordering_on less l → StronglySorted (λ x y, less y x = false) (sort_Sort less l);
}.

(** Insertion sort. *)
Fixpoint insert_sorted {A : Type} (less : A → A → bool) (x : A) (l : list A) : list A :=
  match l with
  | [] => [x]
  | y :: l' => if less y x then y :: insert_sorted less x l' else x :: l
  end.

#[global] Instance insertion_sort : SortLib := λ A less l, foldr (insert_sorted less) [] l.

Lemma insert_sorted_perm {A : Type} (less : A → A → bool) (x : A) (l : list A) :
  insert_sorted less x l ≡ₚ x :: l.
Proof.
  induction l as [|y l IH]; simpl; [done|]. destruct (less y x); [|done]. rewrite IH. apply Permutation_swap.
Qed.

Lemma insertion_sort_perm {A : Type} (less : A → A → bool) (l : list A) : sort_Sort less l ≡ₚ l.
Proof. induction l as [|x l IH]; [done|]. cbn. rewrite insert_sorted_perm. by f_equiv. Qed.

Lemma ordering_on_subset {A : Type} (less : A → A → bool) (l k : list A) :
  (∀ x, x ∈ k → x ∈ l) → ordering_on less l → ordering_on less k.
Proof. intros Hsub (H1 & H2 & H3). split_and!; intros; eauto. Qed.

Lemma ordering_on_asym {A : Type} (less : A → A → bool) (l : list A) (x y : A) :
  ordering_on less l → x ∈ l → y ∈ l → less x y = true → less y x = false.
Proof.
  intros (Hirr & Htr & _) Hx Hy H. destruct (less y x) eqn:H'; [|done].
  by rewrite <- (Hirr x Hx), (Htr x y x).
Qed.

Lemma insert_sorted_sorted {A : Type} (less : A → A → bool) (x : A) (l : list A) :
  ordering_on less (x :: l) → StronglySorted (λ a b, less b a = false) l →
  StronglySorted (λ a b, less b a = false) (insert_sorted less x l).
Proof.
  intros Hord Hs. induction Hs as [|y l Hs IH Hy]; simpl; [by repeat constructor|].
  rewrite Forall_forall in Hy. destruct (less y x) eqn:Hyx.
  - constructor.
    + apply IH. eapply ordering_on_subset; [|done]. set_solver.
    + apply Forall_forall. intros z. rewrite insert_sorted_perm. intros [->|Hz]%elem_of_cons; [|by apply Hy].
      apply (ordering_on_asym less (x :: y :: l)); [done|set_solver..|done].
  - constructor; [by constructor; [|apply Forall_forall]|]. apply Forall_forall.
    intros z [->|Hz]%elem_of_cons; [done|]. destruct Hord as (_ & _ & Htr).
    apply (Htr z y x); [set_solver..|by apply Hy|done].
Qed.

#[global] Instance insertion_sort_laws : SortLaws.
Proof.
  split; [intros A less l; apply insertion_sort_perm|]. intros A less l.
  induction l as [|x l IH]; intros Hord; [constructor|]. cbn. apply insert_sorted_sorted.
  - eapply ordering_on_subset; [|done]. intros y. rewrite !elem_of_cons.
    fold (insertion_sort A less l). change (insertion_sort A less l) with (sort_Sort less l).
    by rewrite insertion_sort_perm.
  - apply IH. eapply ordering_on_subset; [|done]. set_solver.
Qed.
