(* ===== verification/GoVersion.v ===== *)
(** * github.com/hashicorp/go-version

    Parsing, comparison and the parts of a version, as a class with the laws of its
    documentation. The updater uses the lax parser, the migrations the strict one.
    Texts of digits are an instance. *)

From Stdlib Require Import ZArith Lia Ascii String.
From S2P Require Import Prelude GoStrings.
Local Open Scope string_scope.

Class SemVer (V : Type) := {
  NewVersion : string → option V;
  sv_String : V → string;
  sv_Compare : V → V → comparison;
  Prerelease : V → string;
}.

(** [Compare] is a total preorder. *)
Class SemVerLaws (V : Type) `{!SemVer V} := {
  Compare_antisym : ∀ a b, sv_Compare b a = CompOpp (sv_Compare a b);
  Compare_trans : ∀ a b c, sv_Compare a b ≠ Lt → sv_Compare b c ≠ Lt → sv_Compare a c ≠ Lt;
  (** the text 0 is a version *)
  NewVersion_zero : is_Some (NewVersion "0");
}.

(** The strict parser; an error is its text. *)
Class StrictSemVer (V : Type) := NewSemver : string → string + V.

(** The text of a version is parsed to a version with the same text, and the text
    says how it compares. *)
Class StrictSemVerLaws (V : Type) `{!SemVer V, !StrictSemVer V} := {
  NewSemver_String : ∀ v, ∃ v', NewSemver (sv_String v) = inr v' ∧ sv_String v' = sv_String v;
  Compare_String : ∀ a b, sv_String a = sv_String b → sv_Compare a b = Eq;
}.

(** A version is a number, its text so many ones. *)
#[global] Instance nat_semver : SemVer nat := {|
  NewVersion s := Some (String.length s);
  sv_String n := Nat.iter n (String "1") "";
  sv_Compare := Nat.compare;
  Prerelease _ := "";
|}.

#[global] Instance nat_strict_semver : StrictSemVer nat :=
  λ s, if all_bytes (Ascii.eqb "1") s then inr (String.length s) else inl "Malformed version".

#[global] Instance nat_semver_laws : SemVerLaws nat.
Proof.
  split; simpl.
  - intros a b. apply Nat.compare_antisym.
  - intros a b c. rewrite !Nat.compare_nlt_iff. lia.
  - by eexists.
Qed.

#[global] Instance nat_strict_semver_laws : StrictSemVerLaws nat.
Proof.
  assert (∀ n, NewSemver (Nat.iter n (String "1") "") = inr n) as Hn.
  { intros n. unfold NewSemver, nat_strict_semver.
    assert (all_bytes (Ascii.eqb "1") (Nat.iter n (String "1") "") = true ∧ String.length (Nat.iter n (String "1") "") = n) as [-> ->]; [|done].
    unfold all_bytes. induction n as [|n [IH1 IH2]]; simpl; [done|]. by rewrite IH1, IH2. }
  split; simpl.
  - intros n. exists n. by rewrite Hn.
  - intros a b H. assert (NewSemver (V := nat) (Nat.iter a (String "1") "") = NewSemver (Nat.iter b (String "1") "")) as H' by by rewrite H.
    rewrite !Hn in H'. injection H' as ->. apply Nat.compare_refl.
Qed.
