(* ===== verification/GoPath.v ===== *)
(** * The parts of Go's path, filepath and strings packages the updater uses

    Paths are those of a Unix system: filepath and path agree, and FromSlash
    and ToSlash are the identity. *)

From Stdlib Require Import ZArith Lia Ascii String.
From S2P Require Import Prelude GoStrings.
Local Open Scope string_scope.

(** ** strings *)

(** [strings.Index]: the first occurrence of [sub] in [s]. *)
Fixpoint strings_Index (s sub : string) : option nat :=
  if HasPrefix s sub then Some 0
  else match s with
       | EmptyString => None
       | String _ s' => S <$> strings_Index s' sub
       end.

(** [strings.Replace(s, old, new, n)] for one-byte strings. *)
Fixpoint ReplaceN (s : string) (old new : ascii) (n : nat) : string :=
  match n, s with
  | O, _ => s
  | _, EmptyString => EmptyString
  | S n', String a s' =>
      if Ascii.eqb a old then String new (ReplaceN s' old new n')
      else String a (ReplaceN s' old new n)
  end.

(** [strings.TrimSuffix]. *)
Definition TrimSuffix (s suffix : string) : string :=
  if HasSuffix s suffix then String.substring 0 (String.length s - String.length suffix) s else s.

(** The longest prefix of bytes that satisfy [f], and the rest. *)
Fixpoint span (f : ascii → bool) (s : string) : string * string :=
  match s with
  | EmptyString => ("", "")
  | String a s' =>
      if f a then let '(p, r) := span f s' in (String a p, r)
      else ("", s)
  end.

Definition is_digit (a : ascii) : bool :=
  let n := nat_of_ascii a in (48 <=? n)%nat && (n <=? 57)%nat.

Definition is_lower (a : ascii) : bool :=
  let n := nat_of_ascii a in (97 <=? n)%nat && (n <=? 122)%nat.

(** ** path *)

(** [path.Split]: the text up to and including the last slash, and the rest. *)
Fixpoint path_Split (s : string) : string * string :=
  match s with
  | EmptyString => ("", "")
  | String a s' =>
      let '(dir, file) := path_Split s' in
      if String.eqb dir "" then
        if Ascii.eqb a "/" then ("/", file) else ("", String a file)
      else (String a dir, file)
  end.

(** [path.Clean]: the elements of the path from the left, on a stack. *)
Definition clean_step (rooted : bool) (stack : list string) (elem : string) : list string :=
  if String.eqb elem "" || String.eqb elem "." then stack
  else if String.eqb elem ".." then
    match stack with
    | [] => if rooted then [] else [".."]
    | top :: stack' => if String.eqb top ".." then ".." :: stack else stack'
    end
  else elem :: stack.

Definition clean_elements (s : string) : list string :=
  rev (fold_left (clean_step (HasPrefix s "/")) (Split s "/") []).

Definition path_Clean (s : string) : string :=
  let rooted := HasPrefix s "/" in
  let cleaned := Join (clean_elements s) "/" in
  if rooted then "/" ++ cleaned
  else if String.eqb cleaned "" then "." else cleaned.

(** [path.Join] of two elements. *)
Definition path_Join (a b : string) : string :=
  if String.eqb a "" then if String.eqb b "" then "" else path_Clean b
  else path_Clean (a ++ "/" ++ b).

(** [path.Dir]. *)
Definition path_Dir (s : string) : string := path_Clean (path_Split s).1.

(** [path.Base]: trailing slashes are dropped, then everything up to the last
    slash. *)
Definition path_Base (s : string) : string :=
  if String.eqb s "" then "."
  else
    let s := TrimRightBy (λ a, Ascii.eqb a "/") s in
    let base := (path_Split s).2 in
    if String.eqb base "" then "/" else base.

(** [path.Ext]: from the last dot of the last element. *)
Fixpoint ext_rev (s acc : string) : string :=
  match s with
  | EmptyString => ""
  | String a s' =>
      if Ascii.eqb a "/" then ""
      else if Ascii.eqb a "." then String "." acc
      else ext_rev s' (String a acc)
  end.

Definition path_Ext (s : string) : string := ext_rev (string_rev s) "".

(** [filepath.Rel]: the way from [base] to [target]; [None] is an error. *)
Fixpoint rel_elements (base target : list string) : option (list string) :=
  match base, target with
  | b :: base', t :: target' =>
      if String.eqb b t then rel_elements base' target'
      else if existsb (String.eqb "..") base then None
      else Some (((λ _, "..") <$> base) ++ target)%list
  | _, _ =>
      if existsb (String.eqb "..") base then None
      else Some (((λ _, "..") <$> base) ++ target)%list
  end.

Definition path_Rel (base target : string) : option string :=
  if bool_decide (HasPrefix base "/" = HasPrefix target "/") then
    elements ← rel_elements (clean_elements base) (clean_elements target);
    Some (if bool_decide (elements = []) then "." else Join elements "/")
  else None.

(** ** Lemmas *)

Lemma span_app (f : ascii → bool) (s r : string) :
  all_bytes f s = true → match r with String a _ => f a = false | EmptyString => True end →
  span f (s ++ r) = (s, r).
Proof.
  unfold all_bytes. intros Hs Hr. induction s as [|a s IH]; simpl in *.
  - destruct r as [|a r]; simpl; [done|]. by rewrite Hr.
  - apply andb_true_iff in Hs as [-> Hs]. by rewrite IH.
Qed.

Lemma span_spec (f : ascii → bool) (s p r : string) :
  span f s = (p, r) →
  s = p ++ r ∧ all_bytes f p = true ∧ match r with String a _ => f a = false | EmptyString => True end.
Proof.
  revert p r. induction s as [|a s IH]; intros p r H; simpl in H; [by simplify_eq|].
  destruct (f a) eqn:Ha; [|by simplify_eq].
  destruct (span f s) as [p' r'] eqn:Hs. simplify_eq. destruct (IH _ _ eq_refl) as (-> & Hp & Hr).
  unfold all_bytes in *. simpl. by rewrite Ha.
Qed.

(** A byte outside the class ends the run. *)
Lemma span_stop (f : ascii → bool) (s : string) (a : ascii) (t : string) :
  f a = false →
  span f (s ++ String a t) = let '(p, r) := span f s in (p, r ++ String a t).
Proof.
  intros Ha. induction s as [|b s IH]; simpl; [by rewrite Ha|].
  destruct (f b); [|done]. rewrite IH. by destruct (span f s).
Qed.

Lemma path_Split_spec (s dir file : string) :
  path_Split s = (dir, file) → s = dir ++ file ∧ lacks "/" file ∧ (dir = "" ∨ ∃ d, dir = d ++ "/").
Proof.
  revert dir file. induction s as [|a s IH]; intros dir file H; simpl in H.
  - simplify_eq. split_and!; [done|unfold lacks; set_solver|by left].
  - destruct (path_Split s) as [d f] eqn:Hs. destruct (IH d f eq_refl) as (-> & Hf & Hd).
    destruct (String.eqb_spec d "") as [->|Hne].
    + destruct (Ascii.eqb_spec a "/") as [->|Ha]; simplify_eq; simpl.
      * split_and!; [done..|]. right. by exists "".
      * split_and!; [done| |by left]. apply lacks_cons. by split.
    + simplify_eq. split_and!; [done..|]. destruct Hd as [->|[d' ->]]; [done|].
      right. by exists (String a d').
Qed.

Lemma path_Split_nodir (s : string) : lacks "/" s → path_Split s = ("", s).
Proof.
  induction s as [|a s IH]; [done|]. intros [Ha Hs]%lacks_cons. simpl. rewrite (IH Hs). simpl.
  destruct (Ascii.eqb_spec a "/"); [by subst|done].
Qed.

Lemma path_Split_app (d file : string) :
  lacks "/" file → path_Split (d ++ "/" ++ file) = (d ++ "/", file).
Proof.
  intros Hf. induction d as [|a d IH]; simpl.
  - by rewrite path_Split_nodir.
  - simpl in IH. rewrite IH. destruct d; simpl; done.
Qed.

(** A directory part can be followed by any other file name. *)
Lemma path_Split_same_dir (s dir file file' : string) :
  path_Split s = (dir, file) → lacks "/" file' → path_Split (dir ++ file') = (dir, file').
Proof.
  intros (-> & _ & Hd)%path_Split_spec Hf. destruct Hd as [->|[d ->]]; [by apply path_Split_nodir|].
  rewrite string_app_assoc. by apply path_Split_app.
Qed.

Lemma lacks_app (sep : ascii) (s t : string) : lacks sep (s ++ t) ↔ lacks sep s ∧ lacks sep t.
Proof.
  induction s as [|a s IH]; simpl.
  - split; [by split; [unfold lacks; set_solver|]|by intros [_ ?]].
  - rewrite !lacks_cons, IH. tauto.
Qed.

Lemma lacks_all_bytes (f : ascii → bool) (sep : ascii) (s : string) :
  f sep = false → all_bytes f s = true → lacks sep s.
Proof.
  intros Hf. unfold all_bytes. induction s as [|a s IH]; simpl; [unfold lacks; set_solver|].
  rewrite andb_true_iff, lacks_cons. intros [Ha Hs]. split; [|by apply IH]. intros ->. by rewrite Hf in Ha.
Qed.

Lemma ReplaceN_lacks (s t : string) (old new : ascii) (n : nat) :
  lacks old s → ReplaceN (s ++ t) old new n = s ++ ReplaceN t old new n.
Proof.
  induction s as [|a s IH]; simpl; [done|]. intros [Ha Hs]%lacks_cons. destruct n as [|n]; simpl.
  { f_equal. by destruct t. }
  destruct (Ascii.eqb_spec a old); [by subst|]. by rewrite IH.
Qed.

Lemma ReplaceN_hit (t : string) (old new : ascii) (n : nat) :
  ReplaceN (String old t) old new (S n) = String new (ReplaceN t old new n).
Proof. simpl. by rewrite Ascii.eqb_refl. Qed.

Lemma ReplaceN_0 (s : string) (old new : ascii) : ReplaceN s old new 0 = s.
Proof. by destruct s. Qed.

Lemma string_app_inj_l (s t t' : string) : s ++ t = s ++ t' → t = t'.
Proof. induction s as [|a s IH]; simpl; [done|]. intros [= H]. by apply IH. Qed.

Lemma string_drop_app (a b : string) : string_drop (String.length a) (a ++ b) = b.
Proof. by induction a. Qed.

(** *** Clean absolute paths *)

(** A path element that Clean keeps as it is. *)
Definition plain (e : string) : Prop := e ≠ "" ∧ e ≠ "." ∧ e ≠ ".." ∧ lacks "/" e.

Definition abs_path (elements : list string) : string := "/" ++ Join elements "/".

Definition clean_abs (p : string) : Prop := ∃ elements, Forall plain elements ∧ p = abs_path elements.

Lemma Split_Join_plain (elements : list string) :
  Forall plain elements → elements ≠ [] → Split (Join elements "/") "/" = elements.
Proof.
  intros He Hne. apply Split_Join; [done|]. eapply Forall_impl; [done|]. by intros e (_ & _ & _ & ?).
Qed.

Lemma clean_step_plain (rooted : bool) (stack : list string) (e : string) :
  plain e → clean_step rooted stack e = e :: stack.
Proof.
  intros (H1 & H2 & H3 & _). unfold clean_step.
  by rewrite (proj2 (String.eqb_neq _ _) H1), (proj2 (String.eqb_neq _ _) H2), (proj2 (String.eqb_neq _ _) H3).
Qed.

Lemma fold_clean_plain (rooted : bool) (elements stack : list string) :
  Forall plain elements →
  fold_left (clean_step rooted) elements stack = (rev elements ++ stack)%list.
Proof.
  revert stack. induction elements as [|e l IH]; intros stack; [done|].
  intros [He Hl]%Forall_cons. simpl. rewrite clean_step_plain, IH by done.
  by rewrite <- app_assoc.
Qed.

Lemma HasPrefix_slash (s : string) : HasPrefix (String "/" s) "/" = true.
Proof. unfold HasPrefix. simpl. by destruct s. Qed.

Lemma HasPrefix_abs (elements : list string) : HasPrefix (abs_path elements) "/" = true.
Proof. apply HasPrefix_slash. Qed.

Lemma clean_elements_abs (elements : list string) :
  Forall plain elements → clean_elements (abs_path elements) = elements.
Proof.
  intros Hp. unfold clean_elements, abs_path. cbn [String.append]. rewrite HasPrefix_slash.
  destruct elements as [|e l]; [done|]. change ("/" ++ ?x) with (String "/" x).
  cbn [Split]. rewrite Ascii.eqb_refl, Split_Join_plain by done.
  change (fold_left (clean_step true) ("" :: e :: l) []) with (fold_left (clean_step true) (e :: l) []).
  by rewrite fold_clean_plain, app_nil_r, rev_involutive.
Qed.

Lemma path_Clean_abs (p : string) : clean_abs p → path_Clean p = p.
Proof.
  intros (l & Hl & ->). unfold path_Clean. rewrite clean_elements_abs by done.
  unfold abs_path. cbn [String.append]. by rewrite HasPrefix_slash.
Qed.

(** The elements that remain of a rooted path. *)
Lemma clean_step_rooted (stack : list string) (e : string) :
  Forall plain stack → lacks "/" e → Forall plain (clean_step true stack e).
Proof.
  intros Hs He. unfold clean_step.
  destruct (String.eqb_spec e ""); [done|]. destruct (String.eqb_spec e "."); [done|]. simpl.
  destruct (String.eqb_spec e ".."); [|by apply Forall_cons].
  destruct stack as [|top stack]; [done|]. apply Forall_cons in Hs as [Ht Hs].
  destruct (String.eqb_spec top ".."); [by destruct Ht as (_ & _ & ? & _)|done].
Qed.

Lemma Split_elements_lack (s : string) (sep : ascii) : Forall (lacks sep) (Split s sep).
Proof.
  induction s as [|a s IH]; simpl.
  { apply Forall_singleton. unfold lacks. set_solver. }
  destruct (Ascii.eqb_spec a sep) as [->|Hne].
  - apply Forall_cons. split; [unfold lacks; set_solver|done].
  - destruct (Split s sep) as [|h t]; apply Forall_cons.
    + split; [|done]. apply lacks_cons. split; [done|unfold lacks; set_solver].
    + apply Forall_cons in IH as [Hh Ht]. split; [|done]. by apply lacks_cons.
Qed.

Lemma clean_elements_rooted (s : string) :
  HasPrefix s "/" = true → Forall plain (clean_elements s).
Proof.
  intros Hr. unfold clean_elements. rewrite Hr. apply Forall_rev.
  assert (∀ l stack, Forall (lacks "/") l → Forall plain stack →
    Forall plain (fold_left (clean_step true) l stack)) as H.
  { induction l as [|e l IH]; intros stack Hl Hs; [done|]. apply Forall_cons in Hl as [He Hl].
    simpl. apply IH; [done|]. by apply clean_step_rooted. }
  apply H; [apply Split_elements_lack|done].
Qed.

Lemma path_Clean_rooted (s : string) : HasPrefix s "/" = true → clean_abs (path_Clean s).
Proof.
  intros Hr. exists (clean_elements s). split; [by apply clean_elements_rooted|].
  unfold path_Clean. by rewrite Hr.
Qed.

Lemma path_Join_rooted (a b : string) : HasPrefix a "/" = true → clean_abs (path_Join a b).
Proof.
  intros Ha. unfold path_Join. destruct (String.eqb_spec a "") as [->|]; [done|].
  apply path_Clean_rooted. apply HasPrefix_spec in Ha as [t ->]. apply (HasPrefix_app "/").
Qed.

Lemma Join_snoc (l : list string) (e : string) :
  Join (l ++ [e])%list "/" = (if decide (l = []) then e else Join l "/" ++ "/" ++ e).
Proof.
  induction l as [|x l IH]; [done|]. simpl. destruct l as [|y l]; [done|].
  change (((y :: l) ++ [e]))%list with (y :: (l ++ [e]))%list in *.
  rewrite IH. destruct (decide (y :: l = [])); [done|]. destruct (decide (x :: y :: l = [])); [done|].
  by rewrite !string_app_assoc.
Qed.

(** Joining a plain element to a clean path. *)
Lemma path_Join_plain (elements : list string) (e : string) :
  Forall plain elements → plain e → path_Join (abs_path elements) e = abs_path (elements ++ [e])%list.
Proof.
  intros Hl He. unfold path_Join. destruct (String.eqb_spec (abs_path elements) "") as [H|_]; [done|].
  destruct (decide (elements = [])) as [->|Hne].
  - change (abs_path [] ++ "/" ++ e) with (String "/" (String "/" e)). unfold path_Clean, clean_elements. rewrite HasPrefix_slash. cbn [Split].
    rewrite !Ascii.eqb_refl, Split_lacks by apply He. cbn [fold_left].
    change (clean_step true (clean_step true [] "") "") with (@nil string).
    by rewrite clean_step_plain.
  - rewrite <- path_Clean_abs.
    + f_equal. unfold abs_path. rewrite Join_snoc. destruct (decide (elements = [])); [done|].
      by rewrite string_app_assoc.
    + exists (elements ++ [e])%list. split; [|done]. by apply Forall_app; split; [|apply Forall_singleton].
Qed.

(** ** Ends of strings *)

Lemma HasSuffix_snoc (s : string) (a b : ascii) : HasSuffix (s ++ String a "") (String b "") = bool_decide (b = a).
Proof.
  unfold HasSuffix. rewrite string_rev_app. change (string_rev (String ?x "")) with (String x "").
  unfold HasPrefix. simpl. destruct (ascii_dec b a) as [->|Hne].
  - rewrite bool_decide_true by done. by destruct (string_rev s).
  - by rewrite bool_decide_false.
Qed.

Lemma string_snoc (s : string) : s ≠ "" → ∃ t a, s = t ++ String a "".
Proof.
  induction s as [|a s IH]; [done|]. intros _. destruct s as [|b s]; [by exists "", a|].
  destruct IH as (t & c & Hs); [done|]. exists (String a t), c. by rewrite Hs.
Qed.

Lemma HasSuffix_slash (s : string) : HasSuffix (s ++ "/") "/" = true.
Proof. rewrite (HasSuffix_snoc s "/"%char "/"%char). by apply bool_decide_eq_true. Qed.

(** A trailing slash adds an empty element, which Clean drops. *)
Lemma Split_snoc (s : string) (sep : ascii) : Split (s ++ String sep "") sep = (Split s sep ++ [""])%list.
Proof.
  induction s as [|a s IH]; simpl; [by rewrite Ascii.eqb_refl|]. rewrite IH.
  destruct (Ascii.eqb a sep); [done|]. pose proof (Split_nonempty s sep). by destruct (Split s sep).
Qed.

Lemma path_Clean_slash (s : string) : HasPrefix s "/" = true → path_Clean (s ++ "/") = path_Clean s.
Proof.
  intros Hs. assert (HasPrefix (s ++ "/") "/" = true) as Hs'.
  { apply HasPrefix_spec in Hs as [t ->]. apply HasPrefix_slash. }
  unfold path_Clean, clean_elements. rewrite Hs, Hs', Split_snoc, fold_left_app. done.
Qed.

(** A clean path ends in a slash only if it is the root. *)
Lemma HasSuffix_abs (l : list string) : Forall plain l → l ≠ [] → HasSuffix (abs_path l) "/" = false.
Proof.
  intros Hl Hne. destruct l as [|e l _] using rev_ind; [done|]. apply Forall_app in Hl as [_ He]. apply Forall_singleton in He as (He & _ & _ & Hs).
  destruct (string_snoc e He) as (t & a & ->). apply lacks_app in Hs as [_ [Ha _]%lacks_cons].
  assert (∃ u, abs_path (l ++ [t ++ String a ""]) = u ++ String a "") as [u ->].
  { unfold abs_path. rewrite Join_snoc. destruct (decide (l = [])); [by exists ("/" ++ t)|].
    exists ("/" ++ Join l "/" ++ "/" ++ t). by rewrite !string_app_assoc. }
  rewrite HasSuffix_snoc. apply bool_decide_eq_false. by intros <-.
Qed.
