(* ===== verification/GoFs.v ===== *)
(** * The file system operations the program uses

    The part of Go's os package the program calls, on a file system that is a
    map from clean absolute paths to files and directories. Every call may
    also fail for a reason outside the model (permissions, a full disk, a
    broken device): whether the n-th call fails, and with which error, is the
    value of an arbitrary function [fault], and so are the random parts of the
    names of temporary files. A failing write may have truncated the file and
    written any first part of the data ([written]), a failing RemoveAll may have
    removed any part of what it should ([survives]). Theorems that do not constrain these functions
    hold whatever the system does. Symbolic links, owners and the permission
    bits of files are not part of the model. *)

From Stdlib Require Import ZArith Lia Ascii String.
From stdpp Require Import gmap strings.
From S2P Require Import Prelude GoStrings GoPath.
Local Open Scope string_scope.

Inductive os_error : Type :=
| OsNotExist
| OsExist
| OsPermission
| OsOther.

#[global] Instance os_error_eq_dec : EqDecision os_error.
Proof. solve_decision. Defined.

Inductive node : Type :=
| FileNode (content : bytes)
| DirNode (perm : Z).

#[global] Instance node_eq_dec : EqDecision node.
Proof. solve_decision. Defined.

Abbreviation fs := (gmap string node).

(** The file system and the number of calls made so far. *)
Record Sys : Type := mkSys {
  sys_fs : fs;
  sys_tick : nat;
}.

(** What the model leaves to the system: the failure of the n-th call, the
    random name it draws, and the directory for temporary files; how many bytes
    the n-th call has written before it failed, if it came to write, and what
    it has not removed. *)
Record OsEnv : Type := mkOsEnv {
  fault : nat → option os_error;
  random : nat → string;
  os_TempDir : string;
  written : nat → option nat;
  survives : nat → string → bool;
}.

Section Os.
Context (env : OsEnv).

(** [torn n]: what the n-th call has done when it fails. *)
Definition syscall_torn {A : Type} (torn : nat → fs → fs) (f : fs → fs * go os_error A) : st Sys os_error A :=
  λ s, match fault env (sys_tick s) with
       | Some e => (mkSys (torn (sys_tick s) (sys_fs s)) (S (sys_tick s)), Fail e)
       | None =>
           let '(fs', r) := f (sys_fs s) in
           (mkSys fs' (S (sys_tick s)), r)
       end.

(** A call that does all or nothing. *)
Definition syscall {A : Type} (f : fs → fs * go os_error A) : st Sys os_error A := syscall_torn (λ _ m, m) f.

(** A child of the directory [dir]. *)
Definition below (dir path : string) : bool := HasPrefix path (dir ++ "/").

Definition is_dir (m : fs) (path : string) : bool :=
  match m !! path with Some (DirNode _) => true | _ => false end.

(** The directory that has to exist for [path] to be created. *)
Definition parent_is_dir (m : fs) (path : string) : bool :=
  let dir := path_Dir path in String.eqb dir "/" || is_dir m dir.

Definition os_Stat (path : string) : st Sys os_error node :=
  syscall (λ m, (m, match m !! path with Some n => Ret n | None => Fail OsNotExist end)).

(** A directory is removed only when it is empty. *)
Definition os_Remove (path : string) : st Sys os_error unit :=
  syscall (λ m,
    match m !! path with
    | None => (m, Fail OsNotExist)
    | Some (FileNode _) => (delete path m, Ret tt)
    | Some (DirNode _) =>
        if existsb (below path) (map_to_list m).*1 then (m, Fail OsOther)
        else (delete path m, Ret tt)
    end).

(** No error when the path does not exist. *)
Definition os_RemoveAll (path : string) : st Sys os_error unit :=
  syscall_torn (λ n, filter (λ '(p, _), p ≠ path ∧ below path p = false ∨ survives env n p = true))
    (λ m, (filter (λ '(p, _), p ≠ path ∧ below path p = false) m, Ret tt)).

Definition os_Mkdir (path : string) (perm : Z) : st Sys os_error unit :=
  syscall (λ m,
    if bool_decide (is_Some (m !! path)) then (m, Fail OsExist)
    else if parent_is_dir m path then (<[path := DirNode perm]> m, Ret tt)
    else (m, Fail OsNotExist)).

Definition os_Chmod (path : string) (perm : Z) : st Sys os_error unit :=
  syscall (λ m,
    match m !! path with
    | None => (m, Fail OsNotExist)
    | Some (FileNode _) => (m, Ret tt)
    | Some (DirNode _) => (<[path := DirNode perm]> m, Ret tt)
    end).

Definition os_ReadFile (path : string) : st Sys os_error bytes :=
  syscall (λ m, (m, match m !! path with
                    | Some (FileNode content) => Ret content
                    | Some (DirNode _) => Fail OsOther
                    | None => Fail OsNotExist
                    end)).

(** Created when it does not exist. *)
Definition os_WriteFile (path : string) (data : bytes) : st Sys os_error unit :=
  syscall_torn (λ n m,
    match written env n with
    | Some k => if negb (is_dir m path) && parent_is_dir m path then <[path := FileNode (take k data)]> m else m
    | None => m
    end)
  (λ m,
    if is_dir m path then (m, Fail OsOther)
    else if parent_is_dir m path then (<[path := FileNode data]> m, Ret tt)
    else (m, Fail OsNotExist)).

(** [os.CreateTemp(dir, pattern)]: an empty file under a name that does not
    exist yet. *)
Definition os_CreateTemp (dir pattern : string) : st Sys os_error string :=
  λ s,
    let name := dir ++ "/" ++ pattern ++ random env (sys_tick s) in
    syscall (λ m,
      if bool_decide (is_Some (m !! name)) then (m, Fail OsExist)
      else if is_dir m dir then (<[name := FileNode []]> m, Ret name)
      else (m, Fail OsNotExist)) s.

(** [f.Write] on an open file: the data is added at its end. *)
Definition file_Write (name : string) (data : bytes) : st Sys os_error unit :=
  syscall_torn (λ n m,
    match written env n, m !! name with
    | Some k, Some (FileNode content) => <[name := FileNode (content ++ take k data)%list]> m
    | _, _ => m
    end)
  (λ m,
    match m !! name with
    | Some (FileNode content) => (<[name := FileNode (content ++ data)%list]> m, Ret tt)
    | _ => (m, Fail OsOther)
    end).

(** [f.Chmod], [f.Sync] and [f.Close]; the permissions of files are not
    modelled. *)
Definition file_Chmod (name : string) (mode : Z) : st Sys os_error unit := syscall (λ m, (m, Ret tt)).

Definition file_Sync (name : string) : st Sys os_error unit := syscall (λ m, (m, Ret tt)).

Definition file_Close (name : string) : st Sys os_error unit := syscall (λ m, (m, Ret tt)).

(** [os.Rename] of a file: it replaces a file, not a directory. *)
Definition os_Rename_file (old new : string) : st Sys os_error unit :=
  syscall (λ m,
    match m !! old with
    | Some (FileNode content) =>
        if is_dir m new then (m, Fail OsExist)
        else if parent_is_dir m new then (<[new := FileNode content]> (delete old m), Ret tt)
        else (m, Fail OsNotExist)
    | Some (DirNode _) => (m, Fail OsOther)
    | None => (m, Fail OsNotExist)
    end).

End Os.

(** ** Which paths a call changes *)

(** The state of a call holds a file system. *)
Class HasFs (S : Type) := the_fs : S → fs.
#[global] Instance Sys_HasFs : HasFs Sys := sys_fs.

(** Whatever its result, the call changes only paths in [Q]. *)
Definition touches {S E A : Type} `{!HasFs S} (Q : string → Prop) (m : st S E A) : Prop :=
  ∀ s p, ¬ Q p → the_fs (m s).1 !! p = the_fs s !! p.

Section Touches.
Context {S : Type} `{!HasFs S} (Q : string → Prop).

Lemma touches_ret {E A} (a : A) : touches Q (st_ret (S:=S) (E:=E) a).
Proof. by intros s p _. Qed.

Lemma touches_get {E A} (f : S → go E A) : touches Q (st_get f).
Proof. by intros s p _. Qed.

Lemma touches_result {E A} (r : go E A) : touches Q (λ s : S, (s, r)).
Proof. by intros s p _. Qed.

Lemma touches_fail {E A} (e : E) : touches Q (st_fail (S:=S) (A:=A) e).
Proof. by intros s p _. Qed.

Lemma touches_bind {E A B} (m : st S E A) (k : A → st S E B) :
  touches Q m → (∀ a, touches Q (k a)) → touches Q (st_bind m k).
Proof.
  intros Hm Hk s p Hp. unfold st_bind. specialize (Hm s p Hp).
  destruct (m s) as [s' [a|e|]]; simpl in *; [|done..]. by rewrite (Hk a s' p Hp).
Qed.

Lemma touches_try {E E' A} (m : st S E A) : touches Q m → touches Q (st_try (E':=E') m).
Proof.
  intros Hm s p Hp. unfold st_try. specialize (Hm s p Hp). by destruct (m s) as [s' [a|e|]].
Qed.

Lemma touches_wrap {E E' A} (f : E → E') (m : st S E A) : touches Q m → touches Q (st_wrap f m).
Proof. intros Hm s p Hp. unfold st_wrap. specialize (Hm s p Hp). by destruct (m s) as [s' r]. Qed.

Lemma touches_ignore {E E' A} (m : st S E A) : touches Q m → touches Q (st_ignore (E':=E') m).
Proof. intros Hm. apply touches_bind; [by apply touches_try|]. intros _. apply touches_ret. Qed.

End Touches.

Lemma touches_weaken {S E A : Type} `{!HasFs S} (Q Q' : string → Prop) (m : st S E A) :
  (∀ p, Q p → Q' p) → touches Q m → touches Q' m.
Proof. intros HQ Hm s p Hp. apply Hm. naive_solver. Qed.

Lemma touches_syscall_torn (env : OsEnv) {A : Type} (Q : string → Prop) (torn : nat → fs → fs) (f : fs → fs * go os_error A) :
  (∀ n m p, ¬ Q p → torn n m !! p = m !! p) → (∀ m p, ¬ Q p → (f m).1 !! p = m !! p) → touches Q (syscall_torn env torn f).
Proof.
  intros Ht Hf s p Hp. unfold syscall_torn. destruct (fault env (sys_tick s)); [by apply Ht|].
  specialize (Hf (sys_fs s) p Hp). by destruct (f (sys_fs s)).
Qed.

Lemma touches_syscall (env : OsEnv) {A : Type} (Q : string → Prop) (f : fs → fs * go os_error A) :
  (∀ m p, ¬ Q p → (f m).1 !! p = m !! p) → touches Q (syscall env f).
Proof. by apply touches_syscall_torn. Qed.

Section TouchesOs.
Context (env : OsEnv) (Q : string → Prop).

Lemma touches_Stat path : touches Q (os_Stat env path).
Proof. by apply touches_syscall. Qed.

Lemma touches_ReadFile path : touches Q (os_ReadFile env path).
Proof. by apply touches_syscall. Qed.

Lemma touches_Chmod_file name mode : touches Q (file_Chmod env name mode).
Proof. by apply touches_syscall. Qed.

Lemma touches_Sync name : touches Q (file_Sync env name).
Proof. by apply touches_syscall. Qed.

Lemma touches_Close name : touches Q (file_Close env name).
Proof. by apply touches_syscall. Qed.

Local Ltac one_path :=
  intros Hq; first [apply touches_syscall|apply touches_syscall_torn]; intros; 
  repeat case_match; simpl; try done;
  repeat first [rewrite lookup_insert_ne by congruence | rewrite lookup_delete_ne by congruence]; done.

Lemma touches_Remove path : Q path → touches Q (os_Remove env path).
Proof. one_path. Qed.

Lemma touches_Mkdir path perm : Q path → touches Q (os_Mkdir env path perm).
Proof. one_path. Qed.

Lemma touches_Chmod path perm : Q path → touches Q (os_Chmod env path perm).
Proof. one_path. Qed.

Lemma touches_WriteFile path data : Q path → touches Q (os_WriteFile env path data).
Proof. one_path. Qed.

Lemma touches_file_Write path data : Q path → touches Q (file_Write env path data).
Proof. one_path. Qed.

Lemma touches_Rename old new : Q old → Q new → touches Q (os_Rename_file env old new).
Proof. intros Hold. one_path. Qed.

End TouchesOs.

#[export] Hint Resolve touches_ret touches_get touches_result touches_fail touches_try touches_wrap
  touches_ignore touches_Stat touches_ReadFile touches_Chmod_file touches_Sync touches_Close
  touches_Remove touches_Mkdir touches_Chmod touches_WriteFile touches_file_Write touches_Rename
  : portbase.

(** Follow the structure of a call. *)
Ltac touch :=
  repeat first
    [ progress intros
    | apply touches_bind
    | match goal with |- touches _ (match ?x with _ => _ end) => destruct x end
    | solve [eauto with portbase] ].
