(* ===== verification/UtilsFs.v ===== *)
(** * utils: directories, atomic files

    utils/fs.go, utils/structure.go, utils/atomic.go and utils/renameio. *)

From Stdlib Require Import ZArith Lia Ascii String.
From stdpp Require Import gmap strings.
From S2P Require Import Prelude GoStrings GoPath GoFs.
Local Open Scope string_scope.

Inductive utils_error : Type :=
| UtilsOs (e : os_error)   (* wrapped with %w *)
| UtilsOutsideScope
| UtilsRel.

#[global] Instance utils_error_eq_dec : EqDecision utils_error.
Proof. solve_decision. Defined.

(** A DirStructure of structure.go is an object; [Parent] and [Children] are references to
    others. *)
Record DirStructure : Type := mkDirStructure {
  ds_Path : string;
  ds_Dir : string;
  ds_Perm : Z;
  ds_Parent : option nat;
  ds_Children : gmap string nat;
}.

Abbreviation dirs := (list DirStructure).

Section UtilsFs.
Context (env : OsEnv).

(** ** fs.go *)

Definition EnsureDirectory (path : string) (perm : Z) : st Sys os_error unit :=
  let create : st Sys os_error unit :=
    let$ _ := os_Mkdir env path perm in
    os_Chmod env path perm in
  let$ stat := st_try (os_Stat env path) in
  match stat with
  | Ret (DirNode mode) => if (mode =? perm)%Z then st_ret tt else os_Chmod env path perm
  | Ret (FileNode _) =>
      let$ _ := os_Remove env path in
      create
  | Fail e => if bool_decide (e = OsNotExist) then create else st_fail e
  | Panic => st_ret tt  (* st_try never returns it *)
  end.

(** [err == nil || errors.Is(err, fs.ErrExist)]. *)
Definition PathExists (path : string) : st Sys os_error bool :=
  let$ stat := st_try (os_Stat env path) in
  st_ret (match stat with
          | Ret _ => true
          | Fail e => bool_decide (e = OsExist)
          | Panic => false
          end).

(** ** structure.go *)

Definition NewDirStructure (path : string) (perm : Z) (h : dirs) : dirs * nat :=
  ((h ++ [mkDirStructure path "" perm None ∅])%list, length h).

(** [None]: a nil receiver. *)
Definition ChildDir (ds : nat) (dirName : string) (perm : Z) (h : dirs) : option (dirs * nat) :=
  d ← h !! ds;
  match ds_Children d !! dirName with
  | Some child =>
      c ← h !! child;
      Some (<[child := mkDirStructure (ds_Path c) (ds_Dir c) perm (ds_Parent c) (ds_Children c)]> h, child)
  | None =>
      let newDir := mkDirStructure (path_Join (ds_Path d) dirName) dirName perm (Some ds) ∅ in
      let child := length h in
      Some (<[ds := mkDirStructure (ds_Path d) (ds_Dir d) (ds_Perm d) (ds_Parent d)
                      (<[dirName := child]> (ds_Children d))]> h ++ [newDir], child)%list
  end.

(** The remaining directories below a DirStructure. *)
Fixpoint ensure_rest (dirPath : string) (perm : Z) (pathDirs : list string) : st Sys os_error unit :=
  match pathDirs with
  | [] => st_ret tt
  | dir :: pathDirs' =>
      let dirPath := path_Join dirPath dir in
      let$ _ := EnsureDirectory dirPath perm in
      ensure_rest dirPath perm pathDirs'
  end.

Fixpoint ensure (h : dirs) (ds : nat) (pathDirs : list string) : st Sys os_error unit :=
  match h !! ds with
  | None => λ s, (s, Panic)
  | Some d =>
      let$ _ := EnsureDirectory (ds_Path d) (ds_Perm d) in
      match pathDirs with
      | [] => st_ret tt
      | dir :: pathDirs' =>
          match ds_Children d !! dir with
          | None => ensure_rest (ds_Path d) (ds_Perm d) pathDirs
          | Some child => ensure h child pathDirs'
          end
      end
  end.

(** The DirStructure at the top: [ds.Parent] until it is nil. A parent exists
    before its children, so the number of objects bounds the way up. *)
Fixpoint top_dir (fuel : nat) (h : dirs) (ds : nat) : option nat :=
  match fuel with
  | O => None
  | S fuel' =>
      d ← h !! ds;
      match ds_Parent d with
      | None => Some ds
      | Some parent => top_dir fuel' h parent
      end
  end.

Definition slashed (path : string) : string :=
  if HasSuffix path "/" then path else path ++ "/".

Definition EnsureAbsPath (h : dirs) (ds : nat) (dirPath : string) : st Sys utils_error unit :=
  match top_dir (length h) h ds ≫= λ top, (pair top) <$> h !! top with
  | None => λ s, (s, Panic)
  | Some (top, d) =>
      if String.eqb dirPath (ds_Path d) then st_wrap UtilsOs (ensure h top [])
      else if negb (HasPrefix dirPath (slashed (ds_Path d))) then st_fail UtilsOutsideScope
      else
        match path_Rel (ds_Path d) dirPath with
        | None => st_fail UtilsRel
        | Some relPath => st_wrap UtilsOs (ensure h top (Split relPath "/"))
        end
  end.

Definition Ensure (h : dirs) (ds : nat) : st Sys utils_error unit :=
  match h !! ds with
  | None => λ s, (s, Panic)
  | Some d => EnsureAbsPath h ds (ds_Path d)
  end.

Definition EnsureRelPath (h : dirs) (ds : nat) (dirPath : string) : st Sys utils_error unit :=
  match h !! ds with
  | None => λ s, (s, Panic)
  | Some d => EnsureAbsPath h ds (path_Join (ds_Path d) dirPath)
  end.

(** [filepath.Join(append([]string{ds.Path}, dirNames...)...)]: the elements
    that are not empty, joined with slashes and cleaned. *)
Definition path_JoinAll (elements : list string) : string :=
  let elements := filter (λ e, e ≠ "") elements in
  if bool_decide (elements = []) then "" else path_Clean (Join elements "/").

Definition EnsureRelDir (h : dirs) (ds : nat) (dirNames : list string) : st Sys utils_error unit :=
  match h !! ds with
  | None => λ s, (s, Panic)
  | Some d => EnsureAbsPath h ds (path_JoinAll (ds_Path d :: dirNames))
  end.

(** ** renameio/tempfile.go *)

Record PendingFile : Type := mkPendingFile {
  pf_Name : string;
  pf_path : string;
  pf_done : bool;
  pf_closed : bool;
}.

Definition tempDir (dir dest : string) : st Sys os_error string :=
  if negb (String.eqb dir "") then st_ret dir
  else
    let fallback := path_Dir dest in
    let tmpdir := os_TempDir env in
    let$ testsrc := st_try (os_CreateTemp env tmpdir ("." ++ path_Base dest)) in
    match testsrc with
    | Ret testsrc =>
        let$ _ := st_ignore (file_Close env testsrc) in
        let$ testdest := st_try (os_CreateTemp env (path_Dir dest) ("." ++ path_Base dest)) in
        match testdest with
        | Ret testdest =>
            let$ _ := st_ignore (file_Close env testdest) in
            let$ renamed := st_try (os_Rename_file env testsrc testdest) in
            let$ _ := st_ignore (os_Remove env testdest) in
            match renamed with
            | Ret _ => st_ret tmpdir
            | _ =>
                let$ _ := st_ignore (os_Remove env testsrc) in
                st_ret fallback
            end
        | _ =>
            let$ _ := st_ignore (os_Remove env testsrc) in
            st_ret fallback
        end
    | _ => st_ret fallback
    end.

Definition TempFile (dir path : string) : st Sys os_error PendingFile :=
  let$ tmp := tempDir dir path in
  let$ f := os_CreateTemp env tmp ("." ++ path_Base path) in
  st_ret (mkPendingFile f path false false).

Definition Cleanup (t : PendingFile) : st Sys os_error unit :=
  if pf_done t then st_ret tt
  else
    let$ closeErr := (if pf_closed t then st_ret (Ret tt) else st_try (file_Close env (pf_Name t))) in
    let$ _ := os_Remove env (pf_Name t) in
    λ s, (s, closeErr).

(** The pending file after the call comes with the result: [Cleanup] reads
    it. *)
Definition CloseAtomicallyReplace (t : PendingFile) : st Sys os_error (PendingFile * go os_error unit) :=
  let$ sync := st_try (file_Sync env (pf_Name t)) in
  match sync with
  | Ret _ =>
      let t := mkPendingFile (pf_Name t) (pf_path t) (pf_done t) true in
      let$ close := st_try (file_Close env (pf_Name t)) in
      match close with
      | Ret _ =>
          let$ renamed := st_try (os_Rename_file env (pf_Name t) (pf_path t)) in
          match renamed with
          | Ret _ => st_ret (mkPendingFile (pf_Name t) (pf_path t) true true, Ret tt)
          | e => st_ret (t, e)
          end
      | e => st_ret (t, e)
      end
  | e => st_ret (t, e)
  end.

(** [defer tmpFile.Cleanup()] around the rest of a function. *)
Definition with_cleanup (t : PendingFile) (body : st Sys os_error (PendingFile * go os_error unit))
    : st Sys os_error unit :=
  let$ r := st_try body in
  match r with
  | Ret (t', result) =>
      let$ _ := st_ignore (Cleanup t') in
      λ s, (s, result)
  | Fail e =>
      let$ _ := st_ignore (Cleanup t) in
      st_fail e
  | Panic => λ s, (s, Panic)
  end.

(** ** atomic.go: the data is what the reader delivers before it ends
    ([None]) or fails. The error of the last step is not wrapped. *)
Definition CreateAtomic (dest : string) (data : bytes) (read_error : option os_error)
    (mode : Z) (tempDir : string) : st Sys os_error unit :=
  let$ tmpFile := TempFile tempDir dest in
  with_cleanup tmpFile
    (let$ _ := (if (mode =? 0)%Z then st_ret tt else file_Chmod env (pf_Name tmpFile) mode) in
     let$ _ := file_Write env (pf_Name tmpFile) data in
     match read_error with
     | Some e => st_fail e
     | None =>
         let$ closed := CloseAtomicallyReplace tmpFile in
         st_ret (closed.1, go_mapError (λ _, OsOther) closed.2)
     end).

(** renameio/writefile.go. *)
Definition renameio_WriteFile (filename : string) (data : bytes) (perm : Z) : st Sys os_error unit :=
  let$ t := TempFile "" filename in
  with_cleanup t
    (let$ _ := file_Chmod env (pf_Name t) perm in
     let$ _ := file_Write env (pf_Name t) data in
     CloseAtomicallyReplace t).

End UtilsFs.

(** ** Lemmas *)

Lemma touches_EnsureDirectory (env : OsEnv) (Q : string → Prop) path perm :
  Q path → touches Q (EnsureDirectory env path perm).
Proof. intros Hq. unfold EnsureDirectory. touch. Qed.

#[export] Hint Resolve touches_EnsureDirectory : portbase.

(** The paths of a directory tree: the directory itself and what is below. *)
Definition within (root path : string) : Prop := path = root ∨ below root path = true.

(** A DirStructure tree: parents come first and the path of a child is that
    of its parent and its name. *)
Definition dirs_ok (h : dirs) : Prop :=
  ∀ i d, h !! i = Some d →
    clean_abs (ds_Path d) ∧
    (∀ parent, ds_Parent d = Some parent → parent < i) ∧
    (∀ name child, ds_Children d !! name = Some child →
       plain name ∧ ∃ c, h !! child = Some c ∧ ds_Path c = path_Join (ds_Path d) name).

Lemma below_spec (dir path : string) : below dir path = true ↔ ∃ t, path = dir ++ "/" ++ t.
Proof.
  unfold below. rewrite HasPrefix_spec. by setoid_rewrite string_app_assoc.
Qed.

Lemma within_trans (a b c : string) : within a b → within b c → within a c.
Proof.
  intros [->|Hab] [->|Hbc]; [by left|by right|by right|]. right.
  apply below_spec in Hab as [t ->]. apply below_spec in Hbc as [u ->]. apply below_spec.
  exists (t ++ "/" ++ u). by rewrite !string_app_assoc.
Qed.

Lemma abs_path_snoc (elements : list string) (e : string) :
  elements ≠ [] → abs_path (elements ++ [e])%list = abs_path elements ++ "/" ++ e.
Proof.
  intros Hne. unfold abs_path. rewrite Join_snoc. destruct (decide (elements = [])); [done|].
  by rewrite string_app_assoc.
Qed.

(** Prefixes of the elements of a clean path. *)
Lemma within_app (l k : list string) : l ≠ [] → within (abs_path l) (abs_path (l ++ k)%list).
Proof.
  intros Hne. induction k as [|e k IH] using rev_ind; [rewrite app_nil_r; by left|].
  eapply within_trans; [done|]. right. apply below_spec. exists e. rewrite app_assoc. apply abs_path_snoc.
  by destruct l.
Qed.

(** Only the directories on the way are touched. *)
Lemma touches_ensure_rest (env : OsEnv) (Q : string → Prop) (el : list string) (perm : Z) (pathDirs : list string) :
  Forall plain el → Forall plain pathDirs →
  (∀ k, k `prefix_of` pathDirs → Q (abs_path (el ++ k)%list)) →
  touches Q (ensure_rest env (abs_path el) perm pathDirs).
Proof.
  revert el. induction pathDirs as [|dir l IH]; intros el Hel Hp HQ; simpl; [touch|].
  apply Forall_cons in Hp as [Hd Hl]. rewrite path_Join_plain by done. apply touches_bind.
  - apply touches_EnsureDirectory, HQ. by exists l.
  - intros _. apply IH; [by apply Forall_app; split; [|apply Forall_singleton]|done|].
    intros k Hk. rewrite <- app_assoc. apply HQ. by apply prefix_cons.
Qed.

Lemma touches_ensure (env : OsEnv) (h : dirs) (Q : string → Prop) (ds : nat) (d : DirStructure)
    (el pathDirs : list string) :
  dirs_ok h → h !! ds = Some d → ds_Path d = abs_path el → Forall plain el → Forall plain pathDirs →
  (∀ k, k `prefix_of` pathDirs → Q (abs_path (el ++ k)%list)) →
  touches Q (ensure env h ds pathDirs).
Proof.
  intros Hok. revert ds d el. induction pathDirs as [|dir l IH]; intros ds d el Hd Hpath Hel Hp HQ; simpl; rewrite Hd.
  - assert (Q (ds_Path d)) as H. { rewrite Hpath, <- (app_nil_r el). by apply HQ. } touch.
  - apply touches_bind.
    { apply touches_EnsureDirectory. rewrite Hpath, <- (app_nil_r el). apply HQ, prefix_nil. }
    intros _. destruct (ds_Children d !! dir) as [child|] eqn:Hchild.
    + apply Forall_cons in Hp as [Hdir Hl]. destruct (Hok _ _ Hd) as (_ & _ & Hch).
      destruct (Hch _ _ Hchild) as (_ & c & Hcc & Hcp). rewrite Hpath, path_Join_plain in Hcp by done.
      apply (IH child c (el ++ [dir])%list); [done..|by apply Forall_app; split; [|apply Forall_singleton]|done|].
      intros k Hk. rewrite <- app_assoc. apply HQ. by apply prefix_cons.
    + rewrite Hpath. by apply (touches_ensure_rest env Q el (ds_Perm d) (dir :: l)).
Qed.

(** Following the parents ends at a DirStructure without one. *)
Lemma top_dir_spec (h : dirs) (fuel ds : nat) (d : DirStructure) :
  dirs_ok h → h !! ds = Some d → ds < fuel →
  (∀ i d', h !! i = Some d' → ∀ parent, ds_Parent d' = Some parent → is_Some (h !! parent)) →
  ∃ top d', top_dir fuel h ds = Some top ∧ h !! top = Some d' ∧ ds_Parent d' = None.
Proof.
  intros Hok Hd Hlt Hpar. revert ds d Hd Hlt. induction fuel as [|fuel IH]; intros ds d Hd Hlt; [lia|].
  simpl. rewrite Hd. simpl. destruct (ds_Parent d) as [parent|] eqn:Hp; [|by eauto].
  destruct (Hpar _ _ Hd _ Hp) as [d' Hd']. destruct (Hok _ _ Hd) as (_ & Hlt' & _).
  specialize (Hlt' _ Hp). apply (IH parent d' Hd'). lia.
Qed.

(** The way from a directory to a clean path below it. *)
Lemma rel_elements_app (l k : list string) :
  Forall plain l → rel_elements l (l ++ k)%list = Some k.
Proof.
  induction l as [|e l IH]; intros Hl; simpl; [by destruct k|].
  apply Forall_cons in Hl as [_ Hl]. by rewrite String.eqb_refl, IH.
Qed.

Lemma Join_app (l k : list string) :
  l ≠ [] → k ≠ [] → Join (l ++ k)%list "/" = Join l "/" ++ "/" ++ Join k "/".
Proof.
  intros Hl Hk. induction l as [|e l IH]; [done|]. destruct l as [|e' l].
  - destruct k; [done|]. done.
  - change ((e :: e' :: l) ++ k)%list with (e :: (e' :: l) ++ k)%list.
    change (Join (e :: (e' :: l) ++ k)%list "/") with (e ++ "/" ++ Join ((e' :: l) ++ k)%list "/").
    rewrite IH by done. change (Join (e :: e' :: l) "/") with (e ++ "/" ++ Join (e' :: l) "/").
    by rewrite !string_app_assoc.
Qed.

Lemma Split_Join_app (l : list string) (t : string) :
  Forall plain l → l ≠ [] → Split (Join l "/" ++ "/" ++ t) "/" = (l ++ Split t "/")%list.
Proof.
  induction l as [|e l IH]; [done|]. intros [(_ & _ & _ & He) Hl]%Forall_cons _.
  destruct l as [|e' l].
  - simpl. by rewrite Split_app by (by apply lacks_not_eqb).
  - change (Join (e :: e' :: l) "/") with (e ++ String "/" (Join (e' :: l) "/")).
    rewrite string_app_assoc. change (String "/" ?x ++ ?y) with (String "/" (x ++ y)).
    rewrite Split_app by (by apply lacks_not_eqb). by rewrite IH.
Qed.

(** A clean path below a clean directory continues its elements. *)
Lemma below_elements (l k : list string) (t : string) :
  Forall plain l → Forall plain k → l ≠ [] → abs_path k = abs_path l ++ "/" ++ t → ∃ r, k = (l ++ r)%list.
Proof.
  intros Hl Hk Hne H. unfold abs_path in H. simpl in H. injection H as H.
  assert (k ≠ []) as Hkne. { intros ->. simpl in H. by destruct (Join l "/"). }
  exists (Split t "/"). rewrite <- (Split_Join_plain k) by done. rewrite H. by apply Split_Join_app.
Qed.


Lemma slashed_clean (l : list string) : Forall plain l → l ≠ [] → slashed (abs_path l) = abs_path l ++ "/".
Proof.
  intros Hl Hne. unfold slashed. destruct (exists_last Hne) as (l' & e & ->).
  apply Forall_app in Hl as [Hl' [(He0 & _ & _ & He) _]%Forall_cons].
  assert (∃ p, abs_path (l' ++ [e]) = p ++ e) as [p ->].
  { unfold abs_path. rewrite Join_snoc. destruct (decide (l' = [])); [by exists "/"|].
    exists ("/" ++ Join l' "/" ++ "/"). by rewrite !string_app_assoc. }
  assert (∃ q a, e = q ++ String a "" ∧ a ≠ "/"%char) as (q & a & -> & Ha).
  { clear p l' Hl' Hne. induction e as [|b e IH]; [done|]. apply lacks_cons in He as [Hb He].
    destruct (decide (e = "")) as [->|Hn]; [by exists "", b|].
    destruct (IH Hn He) as (q & a & -> & Ha). by exists (String b q), a. }
  rewrite <- string_app_assoc, HasSuffix_snoc. rewrite bool_decide_false by congruence. done.
Qed.

(** The directory exists after a successful call. *)
Lemma EnsureDirectory_exists (env : OsEnv) (path : string) (perm : Z) (s s' : Sys) :
  EnsureDirectory env path perm s = (s', Ret tt) → sys_fs s' !! path = Some (DirNode perm).
Proof.
  unfold EnsureDirectory, os_Mkdir, os_Chmod, os_Stat, os_Remove, syscall, syscall_torn, st_bind, st_try, st_ret, st_fail.
  intros H. repeat (case_match; simplify_eq/=; try done); bool_to_prop; simplify_eq/=;
    by rewrite ?lookup_insert_eq; subst.
Qed.

Lemma ensure_rest_exists (env : OsEnv) (perm : Z) (pathDirs el : list string) (s s' : Sys) :
  Forall plain el → Forall plain pathDirs → pathDirs ≠ [] →
  ensure_rest env (abs_path el) perm pathDirs s = (s', Ret tt) →
  sys_fs s' !! abs_path (el ++ pathDirs)%list = Some (DirNode perm).
Proof.
  revert el s. induction pathDirs as [|dir l IH]; intros el s Hel Hp Hne H; [done|].
  apply Forall_cons in Hp as [Hd Hl]. simpl in H. rewrite path_Join_plain in H by done.
  unfold st_bind in H. destruct (EnsureDirectory _ _ _ s) as [s1 [[]|e|]] eqn:He; simplify_eq.
  rewrite cons_middle, app_assoc. destruct l as [|dir' l].
  - simpl in H. injection H as <-. rewrite app_nil_r. by eapply EnsureDirectory_exists.
  - apply (IH (el ++ [dir])%list s1); [|done..]. by apply Forall_app; split; [|apply Forall_singleton].
Qed.

Lemma ensure_exists (env : OsEnv) (h : dirs) (ds : nat) (d : DirStructure) (el pathDirs : list string) (s s' : Sys) :
  dirs_ok h → h !! ds = Some d → ds_Path d = abs_path el → Forall plain el → Forall plain pathDirs →
  ensure env h ds pathDirs s = (s', Ret tt) →
  ∃ perm, sys_fs s' !! abs_path (el ++ pathDirs)%list = Some (DirNode perm).
Proof.
  intros Hok. revert ds d el s. induction pathDirs as [|dir l IH]; intros ds d el s Hd Hpath Hel Hp H;
    simpl in H; rewrite Hd in H; unfold st_bind at 1 in H;
    destruct (EnsureDirectory _ _ _ s) as [s1 [[]|e|]] eqn:He; simplify_eq.
  - injection H as <-. rewrite app_nil_r, <- Hpath. exists (ds_Perm d). by eapply EnsureDirectory_exists.
  - destruct (ds_Children d !! dir) as [child|] eqn:Hchild.
    + destruct (Hok _ _ Hd) as (_ & _ & Hch). destruct (Hch _ _ Hchild) as (Hpl & c & Hc & Hcp).
      apply Forall_cons in Hp as [_ Hl]. rewrite Hpath, path_Join_plain in Hcp by done.
      rewrite cons_middle, app_assoc. apply (IH child c (el ++ [dir])%list s1); [done..| |done|done].
      by apply Forall_app; split; [|apply Forall_singleton].
    + exists (ds_Perm d). rewrite Hpath in H. by apply (ensure_rest_exists env (ds_Perm d) (dir :: l) el s1).
Qed.

(** EnsureAbsPath refuses the path or follows its elements from the top. *)
Lemma EnsureAbsPath_cases (env : OsEnv) (h : dirs) (ds top : nat) (d : DirStructure) (el : list string) (dirPath : string) :
  dirs_ok h → top_dir (length h) h ds = Some top → h !! top = Some d → ds_Path d ≠ "/" →
  ds_Path d = abs_path el → Forall plain el → clean_abs dirPath →
  (∃ k, Forall plain k ∧ dirPath = abs_path (el ++ k)%list ∧ within (ds_Path d) dirPath ∧
     EnsureAbsPath env h ds dirPath = st_wrap UtilsOs (ensure env h top k)) ∨
  (¬ within (ds_Path d) dirPath ∧ EnsureAbsPath env h ds dirPath = st_fail UtilsOutsideScope).
Proof.
  intros Hok Htop Hd Hne Hpath Hel Hclean.
  assert (el ≠ []) as Hel0 by (intros ->; by rewrite Hpath in Hne).
  unfold EnsureAbsPath. rewrite Htop. simpl. rewrite Hd. simpl. rewrite Hpath in *.
  destruct (String.eqb_spec dirPath (abs_path el)) as [->|Hneq].
  { left. exists []. rewrite app_nil_r. split_and!; [done|done|by left|done]. }
  rewrite slashed_clean by done. destruct (HasPrefix dirPath (abs_path el ++ "/")) eqn:Hb; simpl.
  - left. destruct Hclean as (k & Hk & ->). pose proof Hb as [t Ht]%HasPrefix_spec. rewrite string_app_assoc in Ht.
    destruct (below_elements el k t Hel Hk Hel0 Ht) as [r ->]. pose proof Hk as [_ Hr]%Forall_app.
    assert (r ≠ []) as Hr0. { intros ->. by rewrite app_nil_r in Hneq. }
    exists r. split_and!; [done|done|by right|].
    assert (path_Rel (abs_path el) (abs_path (el ++ r)%list) = Some (Join r "/")) as ->.
    { unfold path_Rel. rewrite !HasPrefix_abs, bool_decide_true by done.
      rewrite !clean_elements_abs by done. rewrite rel_elements_app by done. simpl.
      by rewrite bool_decide_false. }
    by rewrite Split_Join_plain.
  - right. split; [|done]. intros [?|Hw]; [done|]. unfold below in Hw. by rewrite Hw in Hb.
Qed.

(** Only the directories from the top to the path are touched. *)
Lemma touches_EnsureAbsPath (env : OsEnv) (h : dirs) (ds top : nat) (d : DirStructure) (dirPath : string) :
  dirs_ok h → top_dir (length h) h ds = Some top → h !! top = Some d → ds_Path d ≠ "/" → clean_abs dirPath →
  touches (λ p, within (ds_Path d) p ∧ within p dirPath) (EnsureAbsPath env h ds dirPath).
Proof.
  intros Hok Htop Hd Hne Hclean. destruct (Hok _ _ Hd) as ((el & Hel & Hpath) & _).
  assert (el ≠ []) as Hel0 by (intros ->; by rewrite Hpath in Hne).
  destruct (EnsureAbsPath_cases env h ds top d el dirPath) as [(k & Hk & -> & _ & ->)|[_ ->]]; [done..| |touch].
  apply touches_wrap, (touches_ensure env h _ top d el k); [done..|]. intros k' [k'' ->]. rewrite Hpath.
  split; [by apply within_app|]. rewrite app_assoc. apply within_app. by destruct el.
Qed.

(** *** The directory of a path *)

Lemma clean_elements_slash (l : list string) :
  Forall plain l → l ≠ [] → clean_elements (abs_path l ++ "/") = l.
Proof.
  intros Hl Hne. unfold clean_elements.
  assert (HasPrefix (abs_path l ++ "/") "/" = true) as -> by apply HasPrefix_slash.
  assert (Split (abs_path l ++ "/") "/" = "" :: (l ++ [""]))%list as ->.
  { change (abs_path l ++ "/") with (String "/" (Join l "/" ++ "/" ++ "")). cbn [Split].
    rewrite Ascii.eqb_refl. by rewrite Split_Join_app. }
  change (fold_left (clean_step true) ("" :: (l ++ [""]))%list []) with (fold_left (clean_step true) (l ++ [""])%list []).
  rewrite fold_left_app, (fold_clean_plain true l []), app_nil_r by done.
  change (fold_left (clean_step true) [""] (rev l)) with (rev l). apply rev_involutive.
Qed.

Lemma path_Dir_abs (l : list string) (e : string) :
  Forall plain l → plain e → path_Dir (abs_path (l ++ [e])%list) = abs_path l.
Proof.
  intros Hl He. unfold path_Dir. destruct (decide (l = [])) as [->|Hne].
  - change (abs_path ([] ++ [e])%list) with ("" ++ "/" ++ e). rewrite path_Split_app by apply He. reflexivity.
  - rewrite abs_path_snoc, path_Split_app by (done || apply He). cbn [fst]. unfold path_Clean.
    rewrite clean_elements_slash by done.
    assert (HasPrefix (abs_path l ++ "/") "/" = true) as -> by apply HasPrefix_slash. done.
Qed.

Lemma clean_abs_last (p : string) : clean_abs p → p ≠ "/" →
  ∃ l e, Forall plain l ∧ plain e ∧ p = abs_path (l ++ [e])%list.
Proof.
  intros (el & Hel & ->) Hne. destruct (decide (el = [])) as [->|Hel0]; [done|].
  destruct (exists_last Hel0) as (l & e & ->). apply Forall_app in Hel as [Hl [He _]%Forall_cons]. eauto.
Qed.

Lemma not_within_Dir (p : string) : clean_abs p → p ≠ "/" → ¬ within p (path_Dir p).
Proof.
  intros Hc Hne. destruct (clean_abs_last p Hc Hne) as (l & e & Hl & He & ->). rewrite path_Dir_abs by done.
  intros Hw. assert (String.length (abs_path (l ++ [e])%list) ≤ String.length (abs_path l))%nat as Hlen.
  { destruct Hw as [->|Hb]; [done|]. apply below_spec in Hb as [t ->]. rewrite !length_string_app. lia. }
  unfold abs_path in Hlen. rewrite Join_snoc in Hlen. destruct He as (Hne' & _). destruct (decide (l = [])) as [->|].
  - destruct e; [done|]. simpl in Hlen. lia.
  - simpl in Hlen. rewrite !length_string_app in Hlen. simpl in Hlen. lia.
Qed.

Lemma clean_abs_Dir (p : string) : clean_abs p → clean_abs (path_Dir p).
Proof.
  intros Hc. destruct (decide (p = "/")) as [->|Hne]; [by exists []|].
  destruct (clean_abs_last p Hc Hne) as (l & e & Hl & He & ->). rewrite path_Dir_abs by done. by exists l.
Qed.

(** *** Atomic replacement *)

(** The name a temporary file gets at a call. *)
Definition temp_name (env : OsEnv) (dir path : string) (tick : nat) : string :=
  dir ++ "/" ++ "." ++ path_Base path ++ random env tick.

Lemma plain_last (e : string) : plain e → ∃ q a, e = q ++ String a "" ∧ a ≠ "/"%char.
Proof.
  intros (Hne & _ & _ & He). induction e as [|b e IH]; [done|]. apply lacks_cons in He as [Hb He].
  destruct (decide (e = "")) as [->|Hn]; [by exists "", b|].
  destruct (IH Hn He) as (q & a & -> & Ha). by exists (String b q), a.
Qed.

Lemma abs_path_last (el : list string) (e : string) :
  ∃ d, abs_path (el ++ [e])%list = d ++ "/" ++ e.
Proof.
  unfold abs_path. rewrite Join_snoc. destruct (decide (el = [])); [by exists ""|].
  exists ("/" ++ Join el "/"). by rewrite !string_app_assoc.
Qed.

Lemma path_Base_abs (el : list string) (e : string) : plain e → path_Base (abs_path (el ++ [e])%list) = e.
Proof.
  intros Hp. destruct (abs_path_last el e) as [d ->]. unfold path_Base.
  destruct (String.eqb_spec (d ++ "/" ++ e) "") as [He|_]; [by destruct d|].
  assert (TrimRightBy (λ a, Ascii.eqb a "/") (d ++ "/" ++ e) = d ++ "/" ++ e) as ->.
  { destruct (plain_last e Hp) as (q & a & -> & Ha). unfold TrimRightBy. rewrite <- !string_app_assoc.
    rewrite string_rev_app. change (string_rev (String a "")) with (String a ""). cbn [String.append TrimLeftBy].
    destruct (Ascii.eqb_spec a "/"); [done|]. rewrite <- (string_rev_involutive ((d ++ "/") ++ q)) at 2.
    by rewrite string_rev_cons, string_rev_involutive. }
  rewrite path_Split_app by apply Hp. simpl. destruct (String.eqb_spec e "") as [->|]; [by destruct Hp|done].
Qed.

(** A temporary file never has the name of its destination. *)
Lemma temp_name_fresh (env : OsEnv) (dir dest : string) (tick : nat) :
  clean_abs dest → dest ≠ "/" → lacks "/" (random env tick) → temp_name env dir dest tick ≠ dest.
Proof.
  intros (el & Hel & ->) Hne Hr H. destruct (decide (el = [])) as [->|Hel0]; [done|].
  destruct (exists_last Hel0) as (l & e & ->). apply Forall_app in Hel as [_ [He _]%Forall_cons].
  unfold temp_name in H. rewrite path_Base_abs in H by done. destruct (abs_path_last l e) as [d Hd].
  rewrite Hd in H. apply (f_equal (λ s, (path_Split s).2)) in H. simpl in H.
  change (String "/" ?x) with ("/" ++ x) in H. rewrite !path_Split_app in H.
  - simpl in H. apply (f_equal String.length) in H. simpl in H. rewrite length_string_app in H. lia.
  - apply He.
  - apply lacks_cons. split; [done|]. apply lacks_app. split; [apply He|done].
Qed.

Lemma TempFile_spec (env : OsEnv) (dest tmp : string) (s s' : Sys) (r : go os_error PendingFile) :
  tmp ≠ "" → TempFile env tmp dest s = (s', r) →
  let name := temp_name env tmp dest (sys_tick s) in
  (r = Ret (mkPendingFile name dest false false) ∧ sys_fs s !! name = None ∧
     sys_fs s' = <[name := FileNode []]> (sys_fs s)) ∨
  (∃ e, r = Fail e ∧ sys_fs s' = sys_fs s).
Proof.
  intros Htmp H. unfold TempFile, tempDir in H. destruct (String.eqb_spec tmp ""); [done|]. simpl in H.
  unfold st_bind, st_ret, os_CreateTemp, syscall, syscall_torn in H.
  repeat (case_match; simplify_eq/=); eauto; bool_to_prop.
  left. split_and!; [done| |done]. by apply eq_None_not_Some.
Qed.

Lemma CloseAtomicallyReplace_spec (env : OsEnv) (t : PendingFile) (s s' : Sys)
    (r : go os_error (PendingFile * go os_error unit)) :
  CloseAtomicallyReplace env t s = (s', r) →
  ∃ t' res, r = Ret (t', res) ∧ pf_Name t' = pf_Name t ∧
    ((res = Ret tt ∧ pf_done t' = true ∧ ∃ c, sys_fs s !! pf_Name t = Some (FileNode c) ∧
        sys_fs s' = <[pf_path t := FileNode c]> (delete (pf_Name t) (sys_fs s))) ∨
     (res ≠ Ret tt ∧ sys_fs s' = sys_fs s)).
Proof.
  unfold CloseAtomicallyReplace, st_bind, st_try, st_ret, file_Sync, file_Close, os_Rename_file, syscall, syscall_torn.
  intros H. repeat (case_match; simplify_eq/=); do 2 eexists; (split; [done|]); (split; [done|]);
    solve [by right | left; eauto].
Qed.

Lemma touches_Cleanup (env : OsEnv) (t : PendingFile) : touches (λ p, p = pf_Name t) (Cleanup env t).
Proof. unfold Cleanup. touch. Qed.

(** A pending file that is written and replaces its destination. *)
Lemma write_and_replace (env : OsEnv) (t : PendingFile) (data : bytes) (rerr : option os_error) (mode : Z)
    (s s' : Sys) (r : go os_error (PendingFile * go os_error unit)) :
  sys_fs s !! pf_Name t = Some (FileNode []) →
  (let$ _ := (if (mode =? 0)%Z then st_ret tt else file_Chmod env (pf_Name t) mode) in
   let$ _ := file_Write env (pf_Name t) data in
   match rerr with
   | Some e => st_fail e
   | None =>
       let$ closed := CloseAtomicallyReplace env t in
       st_ret (closed.1, go_mapError (λ _, OsOther) closed.2)
   end) s = (s', r) →
  (∃ t', r = Ret (t', Ret tt) ∧ pf_done t' = true ∧ rerr = None ∧
     sys_fs s' = <[pf_path t := FileNode data]> (delete (pf_Name t) (sys_fs s))) ∨
  ((∀ p, p ≠ pf_Name t → sys_fs s' !! p = sys_fs s !! p) ∧
   ((∃ e, r = Fail e) ∨ ∃ t' res, r = Ret (t', res) ∧ res ≠ Ret tt ∧ pf_Name t' = pf_Name t)).
Proof.
  intros Hname H. unfold st_bind at 1 in H.
  assert (∃ s1 r1, (if (mode =? 0)%Z then st_ret tt else file_Chmod env (pf_Name t) mode) s = (s1, r1) ∧
    sys_fs s1 = sys_fs s ∧ (r1 = Ret tt ∨ ∃ e, r1 = Fail e)) as (s1 & r1 & Hc & Hs1 & Hr1).
  { destruct (mode =? 0)%Z; unfold st_ret, file_Chmod, syscall, syscall_torn; [|destruct (fault env (sys_tick s))];
      do 2 eexists; (split; [done|]); (split; [done|]); eauto. }
  rewrite Hc in H. destruct Hr1 as [->|[e ->]].
  2:{ simplify_eq. right. rewrite Hs1. eauto. }
  unfold st_bind at 1, file_Write, syscall, syscall_torn in H. rewrite Hs1, Hname in H.
  destruct (fault env (sys_tick s1)) as [e|]; simpl in H.
  { simplify_eq/=. right. split; [|eauto]. intros p Hp. repeat case_match; by rewrite ?lookup_insert_ne. }
  set (s2 := mkSys _ _) in H.
  assert (∀ p, p ≠ pf_Name t → sys_fs s2 !! p = sys_fs s !! p) as Hs2.
  { intros p Hp. simpl. by rewrite lookup_insert_ne. }
  destruct rerr as [e|]. { unfold st_fail in H. simplify_eq. right. eauto. }
  unfold st_bind, st_ret in H. destruct (CloseAtomicallyReplace env t s2) as [s3 r3] eqn:H3.
  destruct (CloseAtomicallyReplace_spec _ _ _ _ _ H3) as (t' & res & -> & Hn & [(-> & Hd & c & Hc' & Hs3)|[Hres Hs3]]);
    simpl in H; simplify_eq.
  - left. exists t'. split_and!; [done..|]. rewrite Hs3. unfold s2 in Hc' |- *. simpl in *.
    rewrite lookup_insert_eq in Hc'. simplify_eq. by rewrite delete_insert_eq.
  - right. split; [intros p Hp; rewrite Hs3; by apply Hs2|]. right. exists t', (go_mapError (λ _, OsOther) res).
    split_and!; [done| |done]. by destruct res as [[]| |].
Qed.

(** Everything but the temporary file and the destination stays; the
    destination changes only when the call succeeds. *)
Lemma CreateAtomic_cases (env : OsEnv) (dest tmp : string) (data : bytes) (rerr : option os_error) (mode : Z)
    (s s' : Sys) (r : go os_error unit) :
  tmp ≠ "" → temp_name env tmp dest (sys_tick s) ≠ dest →
  CreateAtomic env dest data rerr mode tmp s = (s', r) →
  (r = Ret tt ∧ rerr = None ∧ sys_fs s' = <[dest := FileNode data]> (sys_fs s)) ∨
  (r ≠ Ret tt ∧ ∀ p, p ≠ temp_name env tmp dest (sys_tick s) → sys_fs s' !! p = sys_fs s !! p).
Proof.
  intros Htmp Hfresh H. unfold CreateAtomic in H. unfold st_bind at 1 in H.
  destruct (TempFile env tmp dest s) as [s1 rt] eqn:Ht.
  destruct (TempFile_spec _ _ _ _ _ _ Htmp Ht) as [(-> & Hnone & Hs1)|(e & -> & Hs1)].
  2:{ simplify_eq. right. split; [done|]. by rewrite Hs1. }
  set (name := temp_name env tmp dest (sys_tick s)) in *.
  set (t := mkPendingFile name dest false false) in *.
  assert (sys_fs s1 !! pf_Name t = Some (FileNode [])) as Hname by (rewrite Hs1; apply lookup_insert_eq).
  unfold with_cleanup, st_bind at 1, st_try at 1 in H.
  destruct ((let$ _ := (if (mode =? 0)%Z then _ else _) in _) s1) as [s2 rb] eqn:Hb.
  destruct (write_and_replace _ _ _ _ _ _ _ _ Hname Hb) as [(t' & -> & Hdone & -> & Hs2)|[Hs2 Hrb]].
  - left. unfold st_ignore, st_bind, st_try, Cleanup in H. rewrite Hdone in H. simpl in H. simplify_eq.
    split_and!; [done..|]. rewrite Hs2, Hs1. simpl. by rewrite delete_insert_id.
  - right. assert (∀ p, p ≠ name → sys_fs s2 !! p = sys_fs s !! p) as Hs2'.
    { intros p Hp. rewrite Hs2 by done. rewrite Hs1. by rewrite lookup_insert_ne. }
    destruct Hrb as [[e ->]|(t' & res & -> & Hres & Hn)]; unfold st_bind at 1 in H.
    + destruct (st_ignore (E':=os_error) (Cleanup env t) s2) as [s3 [[]|e'|]] eqn:Hcl; unfold st_fail in H; simplify_eq/=;
        (split; [done|]); intros p Hp; rewrite <- Hs2' by done;
        pose proof (touches_ignore (E':=os_error) _ _ (touches_Cleanup env t) s2 p Hp) as Hcl'; by rewrite Hcl in Hcl'.
    + destruct (st_ignore (E':=os_error) (Cleanup env t') s2) as [s3 [[]|e'|]] eqn:Hcl; simplify_eq/=;
        (split; [done|]); intros p Hp; rewrite <- Hs2' by done;
        (assert (p ≠ pf_Name t') as Hp' by (by rewrite Hn));
        pose proof (touches_ignore (E':=os_error) _ _ (touches_Cleanup env t') s2 p Hp') as Hcl'; by rewrite Hcl in Hcl'.
Qed.

(** ** Properties *)

(** C38: For a path in clean form, EnsureAbsPath changes nothing outside the tree of
    the topmost DirStructure, whatever the system does; a path outside it is
    refused at once; and when the call succeeds the directory exists. *)
Theorem EnsureAbsPath_contained (env : OsEnv) (h : dirs) (ds top : nat) (d : DirStructure) (dirPath : string) :
  dirs_ok h → top_dir (length h) h ds = Some top → h !! top = Some d → ds_Path d ≠ "/" →
  clean_abs dirPath →
  touches (within (ds_Path d)) (EnsureAbsPath env h ds dirPath) ∧
  (∀ s, ¬ within (ds_Path d) dirPath → EnsureAbsPath env h ds dirPath s = (s, Fail UtilsOutsideScope)) ∧
  (∀ s s', EnsureAbsPath env h ds dirPath s = (s', Ret tt) →
     ∃ perm, sys_fs s' !! dirPath = Some (DirNode perm)).
Proof.
  intros Hok Htop Hd Hne Hclean. split.
  { eapply touches_weaken; [|by eapply touches_EnsureAbsPath]. by intros p [? _]. }
  destruct (Hok _ _ Hd) as ((el & Hel & Hpath) & _).
  destruct (EnsureAbsPath_cases env h ds top d el dirPath) as [(k & Hk & -> & Hw & ->)|[Hw ->]]; [done..| |done].
  split; [by intros s []|]. intros s s' H%st_wrap_Ret. by apply (ensure_exists env h top d el k s s').
Qed.

(** A quiet system: no call fails. *)
Definition quiet_env : OsEnv := mkOsEnv (λ _, None) (λ n, FormatUint (Z.of_nat n)) "/tmp" (λ _, None) (λ _ _, false).

Definition example_dirs : dirs :=
  [mkDirStructure "/data" "" 493 None {["updates" := 1]};
   mkDirStructure "/data/updates" "updates" 448 (Some 0) ∅].

Lemma example_dirs_ok : dirs_ok example_dirs.
Proof.
  assert (plain "updates" ∧ plain "data") as [Hu Hd].
  { split; (split_and!; [done..|apply Cut_None; done]). }
  intros [|[|i]] d H; simpl in H; simplify_eq/=.
  - split_and!; [|done|].
    + exists ["data"]. split; [by apply Forall_singleton|done].
    + intros name child Hc. apply lookup_singleton_Some in Hc as [<- <-]. split; [done|]. eexists. split; [done|]. done.
  - split_and!; [|intros ? [= <-]; lia|intros ? ? H; done].
    exists ["data"; "updates"]. split; [by apply Forall_cons; split; [|apply Forall_singleton]|done].
Qed.

Lemma EnsureAbsPath_contained_witness :
  touches (within "/data") (EnsureAbsPath quiet_env example_dirs 1 "/data/updates/all") ∧
  ∃ perm, sys_fs (EnsureAbsPath quiet_env example_dirs 1 "/data/updates/all" (mkSys ∅ 0)).1
            !! "/data/updates/all" = Some (DirNode perm).
Proof.
  destruct (EnsureAbsPath_contained quiet_env example_dirs 1 0
    (mkDirStructure "/data" "" 493 None {["updates" := 1]}) "/data/updates/all") as (H1 & _ & H3).
  - apply example_dirs_ok.
  - reflexivity.
  - reflexivity.
  - discriminate.
  - exists ["data"; "updates"; "all"]. split; [|reflexivity].
    repeat (apply Forall_cons; split); try apply Forall_nil_2; (split_and!; [discriminate..|apply Cut_None; reflexivity]).
  - split; [exact H1|]. apply (H3 (mkSys ∅ 0)). rewrite surjective_pairing at 1. by f_equal.
Defined.

(** The scope check compares texts: a path that is not clean leaves the
    DirStructure, and directories outside of it are created and changed. *)
Theorem EnsureAbsPath_unclean_escapes :
  let s := mkSys {["/data" := DirNode 493]} 0 in
  EnsureAbsPath quiet_env example_dirs 0 "/data/../etc" s =
    (mkSys {["/data" := DirNode 493; "/etc" := DirNode 493; "/" := DirNode 493]} 7, Ret tt).
Proof. vm_compute. reflexivity. Qed.

(** The check is made against the topmost DirStructure: a path outside the one
    asked for is accepted. *)
Theorem EnsureAbsPath_checks_topmost :
  let s := mkSys {["/data" := DirNode 493]} 0 in
  (EnsureAbsPath quiet_env example_dirs 1 "/data/databases" s).2 = Ret tt.
Proof. vm_compute. reflexivity. Qed.

(** CreateAtomic replaces the destination as a whole or not at all: when it
    returns nil the file system is the old one with the data at the
    destination, and on every error of the reader or of any system call all
    paths but the temporary file are as before. A process that is stopped
    after its n-th system call leaves what one leaves whose later calls all
    fail, so the statement covers crashes as well. *)
Theorem CreateAtomic_atomic (env : OsEnv) (dest tmp : string) (data : bytes) (rerr : option os_error)
    (mode : Z) (s s' : Sys) (r : go os_error unit) :
  tmp ≠ "" → clean_abs dest → dest ≠ "/" → (∀ n, lacks "/" (random env n)) →
  CreateAtomic env dest data rerr mode tmp s = (s', r) →
  (r = Ret tt ∧ rerr = None ∧ sys_fs s' = <[dest := FileNode data]> (sys_fs s)) ∨
  (r ≠ Ret tt ∧ sys_fs s' !! dest = sys_fs s !! dest ∧
   ∀ p, p ≠ temp_name env tmp dest (sys_tick s) → sys_fs s' !! p = sys_fs s !! p).
Proof.
  intros Htmp Hc Hne Hr H. assert (Hf := temp_name_fresh env tmp dest (sys_tick s) Hc Hne (Hr _)).
  destruct (CreateAtomic_cases _ _ _ _ _ _ _ _ _ Htmp Hf H) as [?|[Hres Hp]]; [by left|right].
  split_and!; [done| |done]. by apply Hp.
Qed.

Definition example_fs : fs := {["/data" := DirNode 493; "/data/f" := FileNode [1%Z]; "/tmp" := DirNode 511]}.

Lemma lacks_digits (n : nat) : lacks "/" (random (mkOsEnv (λ _, None) (λ _, "42") "/tmp" (λ _, None) (λ _ _, false)) n).
Proof. apply Cut_None. reflexivity. Qed.

Lemma CreateAtomic_atomic_witness :
  let env := mkOsEnv (λ n, if (n =? 2)%nat then Some OsOther else None) (λ _, "42") "/tmp" (λ _, None) (λ _ _, false) in
  let s' := (CreateAtomic env "/data/f" [2%Z] None 0 "/tmp" (mkSys example_fs 0)).1 in
  sys_fs s' !! "/data/f" = Some (FileNode [1%Z]).
Proof.
  intros env s'.
  destruct (CreateAtomic_atomic env "/data/f" "/tmp" [2%Z] None 0 (mkSys example_fs 0) s'
    (CreateAtomic env "/data/f" [2%Z] None 0 "/tmp" (mkSys example_fs 0)).2) as [(H & _)|(_ & H & _)].
  - discriminate.
  - exists ["data"; "f"]. split; [|reflexivity].
    repeat (apply Forall_cons; split); try apply Forall_nil_2; (split_and!; [discriminate..|apply Cut_None; reflexivity]).
  - discriminate.
  - apply lacks_digits.
  - apply surjective_pairing.
  - vm_compute in H. discriminate H.
  - rewrite H. reflexivity.
Defined.
