(* ===== verification/UtilsSync.v ===== *)
(** * utils: call_limiter.go, onceagain.go, broadcastflag.go and stablepool.go

    Helpers for concurrent callers. In the first two the goroutines that call Do are a
    list of threads; a step lets one of them do its next action on the shared
    fields, so every interleaving is a run. A mutex is whether it is held: Go lets
    another goroutine unlock it, which the limiter does. What the function does is
    left out, except that it may panic. Fields that the code does not have are marked
    as ghosts. Counters of goroutines stay below 2^31 and are kept as numbers. *)

From Stdlib Require Import ZArith Lia.
From stdpp Require Import list.
From S2P Require Import Prelude.
Local Open Scope Z_scope.

(** ** Counting threads by their place *)

Section Count.
Context {A P : Type} (place : A → P).

Definition count_at (f : P → bool) (l : list A) : Z := Z.of_nat (length (filter (λ t, f (place t) = true) l)).

Lemma count_at_cons (f : P → bool) (t : A) (l : list A) : count_at f (t :: l) = Z.b2z (f (place t)) + count_at f l.
Proof. unfold count_at. rewrite filter_cons. destruct (f (place t)); simpl; lia. Qed.

Lemma count_at_insert (f : P → bool) (l : list A) (i : nat) (t t' : A) :
  l !! i = Some t → count_at f (<[i := t']> l) = count_at f l - Z.b2z (f (place t)) + Z.b2z (f (place t')).
Proof.
  revert i. induction l as [|x l IH]; intros [|i] Hi; simpl in *; try done.
  - injection Hi as ->. rewrite !count_at_cons. lia.
  - rewrite !count_at_cons, (IH i Hi). lia.
Qed.

Lemma count_at_app (f : P → bool) (l k : list A) : count_at f (l ++ k) = count_at f l + count_at f k.
Proof. unfold count_at. rewrite filter_app, length_app. lia. Qed.

Lemma count_at_nonneg (f : P → bool) (l : list A) : 0 ≤ count_at f l.
Proof. unfold count_at. lia. Qed.

Lemma count_at_pos (f : P → bool) (l : list A) (i : nat) (t : A) : l !! i = Some t → f (place t) = true → 1 ≤ count_at f l.
Proof.
  revert i. induction l as [|x l IH]; intros [|i] Hi Hf; simpl in *; try done; rewrite count_at_cons.
  - injection Hi as ->. rewrite Hf. pose proof (count_at_nonneg f l). simpl. lia.
  - specialize (IH i Hi Hf). destruct (f (place x)); simpl; lia.
Qed.

Lemma count_at_exists (f : P → bool) (l : list A) : 0 < count_at f l → ∃ i t, l !! i = Some t ∧ f (place t) = true.
Proof.
  unfold count_at. intros H. destruct (filter (λ t, f (place t) = true) l) as [|t k] eqn:Hk; [simpl in H; lia|].
  assert (t ∈ filter (λ t, f (place t) = true) l) as Hin by (rewrite Hk; by left).
  apply list_elem_of_filter in Hin as [Hf [i Hi]%list_elem_of_lookup]. by exists i, t.
Qed.

Lemma count_at_two (f : P → bool) (l : list A) (i j : nat) (t u : A) :
  i ≠ j → l !! i = Some t → l !! j = Some u → f (place t) = true → f (place u) = true → 2 ≤ count_at f l.
Proof.
  revert i j. induction l as [|x l IH]; intros [|i] [|j] Hij Hi Hj Ht Hu; simpl in *; try done; rewrite count_at_cons.
  - injection Hi as ->. rewrite Ht. pose proof (count_at_pos f l j u Hj Hu). simpl. lia.
  - injection Hj as ->. rewrite Hu. pose proof (count_at_pos f l i t Hi Ht). simpl. lia.
  - assert (i ≠ j) as Hne by lia. specialize (IH i j Hne Hi Hj Ht Hu). destruct (f (place x)); simpl; lia.
Qed.

End Count.

(** ** The call limiter *)

Module CallLimiter.

(** Where a thread is: before the action that the name says. [LExec] is the call of
    the function, [LStamp] and what follows the deferred function of lead; in these
    the flag says that the function has panicked. *)
Inductive limiter_pc : Type :=
| LockIn | AddWaiter | UnlockIn
| LeadLockOut | LeadUnlockIn | LeadPause | LExec | LStamp (panicked : bool) | LRelockIn (panicked : bool) | LUnlockOut (panicked : bool)
| LockOut | UnlockOut | SubWaiter | LastUnlockIn | Returned.

(** [t_epoch] and [t_finished]: ghosts, the counters of the limiter at the call. *)
Record thread : Type := mkThread { t_pc : limiter_pc; t_epoch : Z; t_finished : Z }.

(** [epoch] counts the leads that are complete, [finished] the executions of the
    function, [last_end] is when the last one ended, [closing] whether the threads
    of a complete lead are leaving: ghosts. *)
Record CallLimiter : Type := mkCallLimiter {
  pause : Z;
  inLock : bool;
  lastExec : option Z;
  waiters : Z;
  outLock : bool;
  now : Z;
  threads : list thread;
  epoch : Z;
  finished : Z;
  last_end : option Z;
  closing : bool;
}.

Definition NewCallLimiter (minPause start : Z) : CallLimiter := mkCallLimiter minPause false None 0 false start [] 0 0 None false.

Definition set_thread (i : nat) (t : thread) (p : limiter_pc) (l : CallLimiter) : CallLimiter :=
  mkCallLimiter (pause l) (inLock l) (lastExec l) (waiters l) (outLock l) (now l) (<[i := mkThread p (t_epoch t) (t_finished t)]> (threads l))
    (epoch l) (finished l) (last_end l) (closing l).

Definition set_inLock (b : bool) (l : CallLimiter) : CallLimiter :=
  mkCallLimiter (pause l) b (lastExec l) (waiters l) (outLock l) (now l) (threads l) (epoch l) (finished l) (last_end l) (closing l).

Definition set_outLock (b : bool) (l : CallLimiter) : CallLimiter :=
  mkCallLimiter (pause l) (inLock l) (lastExec l) (waiters l) b (now l) (threads l) (epoch l) (finished l) (last_end l) (closing l).

Definition set_waiters (n : Z) (l : CallLimiter) : CallLimiter :=
  mkCallLimiter (pause l) (inLock l) (lastExec l) n (outLock l) (now l) (threads l) (epoch l) (finished l) (last_end l) (closing l).

Definition set_lastExec (t : Z) (l : CallLimiter) : CallLimiter :=
  mkCallLimiter (pause l) (inLock l) (Some t) (waiters l) (outLock l) (now l) (threads l) (epoch l) (finished l) (last_end l) (closing l).

(** The function has ended. *)
Definition end_exec (l : CallLimiter) : CallLimiter :=
  mkCallLimiter (pause l) (inLock l) (lastExec l) (waiters l) (outLock l) (now l) (threads l) (epoch l) (finished l + 1) (Some (now l)) (closing l).

Definition start_closing (l : CallLimiter) : CallLimiter :=
  mkCallLimiter (pause l) (inLock l) (lastExec l) (waiters l) (outLock l) (now l) (threads l) (epoch l + 1) (finished l) (last_end l) true.

Definition end_closing (l : CallLimiter) : CallLimiter :=
  mkCallLimiter (pause l) (inLock l) (lastExec l) (waiters l) (outLock l) (now l) (threads l) (epoch l) (finished l) (last_end l) false.

(** [None]: the thread waits. A panic runs the deferred functions; the thread then
    has returned as well. *)
Definition thread_step (i : nat) (t : thread) (fpanic : bool) (l : CallLimiter) : option CallLimiter :=
  let to p l := set_thread i t p l in
  match t_pc t with
  | LockIn => if inLock l then None else Some (to AddWaiter (set_inLock true l))
  | AddWaiter => Some (to (if waiters l + 1 =? 1 then LeadLockOut else UnlockIn) (set_waiters (waiters l + 1) l))
  | UnlockIn => Some (to LockOut (set_inLock false l))
  | LeadLockOut => if outLock l then None else Some (to LeadUnlockIn (set_outLock true l))
  | LeadUnlockIn => Some (to LeadPause (set_inLock false l))
  | LeadPause =>
      if (0 <? pause l) && match lastExec l with Some last => now l - last <? pause l | None => false end then None
      else Some (to LExec l)
  | LExec => Some (to (LStamp fpanic) (end_exec l))
  | LStamp panicked => Some (to (LRelockIn panicked) (set_lastExec (now l) l))
  | LRelockIn panicked => if inLock l then None else Some (to (LUnlockOut panicked) (start_closing (set_inLock true l)))
  | LUnlockOut panicked => Some (to (if panicked then SubWaiter else LockOut) (set_outLock false l))
  | LockOut => if outLock l then None else Some (to UnlockOut (set_outLock true l))
  | UnlockOut => Some (to SubWaiter (set_outLock false l))
  | SubWaiter =>
      if waiters l - 1 =? 0 then Some (to LastUnlockIn (end_closing (set_waiters (waiters l - 1) l)))
      else Some (to Returned (set_waiters (waiters l - 1) l))
  | LastUnlockIn => Some (to Returned (set_inLock false l))
  | Returned => None
  end.

Inductive limiter_event : Type :=
| EvDo
| EvThread (i : nat) (fpanic : bool)
| EvTick (d : Z).

Definition limiter_step (ev : limiter_event) (l : CallLimiter) : option CallLimiter :=
  match ev with
  | EvDo => Some (mkCallLimiter (pause l) (inLock l) (lastExec l) (waiters l) (outLock l) (now l)
      (threads l ++ [mkThread LockIn (epoch l) (finished l)]) (epoch l) (finished l) (last_end l) (closing l))
  | EvThread i fpanic => match threads l !! i with Some t => thread_step i t fpanic l | None => None end
  | EvTick d =>
      if 0 <? d
      then Some (mkCallLimiter (pause l) (inLock l) (lastExec l) (waiters l) (outLock l) (now l + d) (threads l) (epoch l) (finished l) (last_end l) (closing l))
      else None
  end.

Fixpoint limiter_run (evs : list limiter_event) (l : CallLimiter) : option CallLimiter :=
  match evs with
  | [] => Some l
  | ev :: evs => match limiter_step ev l with Some l => limiter_run evs l | None => None end
  end.

(** ** Lemmas *)

Local Notation count := (count_at t_pc).

(** *** The invariant *)

(** The threads that hold inLock themselves, those that hold outLock, those that
    are counted as waiters, the leaders until their lead is complete, and the leader
    that is about to let the others leave. *)
Definition holds_in (p : limiter_pc) : bool := match p with AddWaiter | UnlockIn | LeadLockOut | LeadUnlockIn | LastUnlockIn => true | _ => false end.
Definition holds_out (p : limiter_pc) : bool :=
  match p with LeadUnlockIn | LeadPause | LExec | LStamp _ | LRelockIn _ | LUnlockOut _ | UnlockOut => true | _ => false end.
Definition counted (p : limiter_pc) : bool := match p with LockIn | AddWaiter | LastUnlockIn | Returned => false | _ => true end.
Definition leads (p : limiter_pc) : bool := match p with LeadLockOut | LeadUnlockIn | LeadPause | LExec | LStamp _ | LRelockIn _ => true | _ => false end.
Definition starts_lead (p : limiter_pc) : bool := match p with LeadLockOut => true | _ => false end.
Definition releases (p : limiter_pc) : bool := match p with LUnlockOut _ => true | _ => false end.
Definition joins (p : limiter_pc) : bool := match p with UnlockIn => true | _ => false end.
Definition leaving (p : limiter_pc) : bool := match p with UnlockOut | SubWaiter => true | _ => false end.

Definition adds (p : limiter_pc) : bool := match p with AddWaiter => true | _ => false end.
Definition leads_in (p : limiter_pc) : bool := match p with LeadUnlockIn => true | _ => false end.
Definition leads_on (p : limiter_pc) : bool := match p with LeadPause | LExec | LStamp _ | LRelockIn _ => true | _ => false end.
Definition waits (p : limiter_pc) : bool := match p with LockOut => true | _ => false end.
Definition passes (p : limiter_pc) : bool := match p with UnlockOut => true | _ => false end.
Definition leaves (p : limiter_pc) : bool := match p with SubWaiter => true | _ => false end.
Definition lasts (p : limiter_pc) : bool := match p with LastUnlockIn => true | _ => false end.

(** The groups by the places they are made of. *)
Lemma count_groups (l : list thread) :
  count holds_in l = count adds l + count joins l + count starts_lead l + count leads_in l + count lasts l ∧
  count holds_out l = count leads_in l + count leads_on l + count releases l + count passes l ∧
  count leads l = count starts_lead l + count leads_in l + count leads_on l ∧
  count leaving l = count passes l + count leaves l ∧
  count counted l = count leads l + count joins l + count releases l + count leaving l + count waits l.
Proof.
  induction l as [|[p e f] l IH]; [done|].
  rewrite !count_at_cons. simpl t_pc. destruct p; simpl; lia.
Qed.

Record limiter_ok (l : CallLimiter) : Prop := mkLimiterOk {
  ok_in : count holds_in (threads l) + Z.b2z (closing l) = Z.b2z (inLock l);
  ok_out : count holds_out (threads l) = Z.b2z (outLock l);
  ok_waiters : waiters l = count counted (threads l);
  ok_closing : closing l = true → 0 < waiters l ∧ count joins (threads l) = 0 ∧ count leads (threads l) = 0;
  ok_open : closing l = false → count releases (threads l) = 0 ∧ count leaving (threads l) = 0 ∧
    (waiters l = 0 ∧ count leads (threads l) = 0 ∨ 0 < waiters l ∧ count leads (threads l) = 1);
  ok_starts : 0 < count starts_lead (threads l) → waiters l = 1;
}.

Lemma limiter_ok_new (minPause start : Z) : limiter_ok (NewCallLimiter minPause start).
Proof. split; simpl; try done. intros _. split; [done|]. split; [done|]. by left. Qed.

(** All counts are those of before, with the thread moved. *)
Ltac move_thread i t Hi :=
  repeat match goal with |- context [count ?f (<[i := ?t']> ?l)] => rewrite (count_at_insert t_pc f l i t t' Hi) end;
  cbn [t_pc]; repeat match goal with H : t_pc t = _ |- _ => rewrite H end; cbn [holds_in holds_out counted leads starts_lead releases joins leaving Z.b2z].

(** What holds of a thread at its place counts one. *)
Ltac place_facts Hpos :=
  pose proof (Hpos adds) as P1; pose proof (Hpos joins) as P2; pose proof (Hpos starts_lead) as P3; pose proof (Hpos leads_in) as P4;
  pose proof (Hpos leads_on) as P5; pose proof (Hpos releases) as P6; pose proof (Hpos waits) as P7; pose proof (Hpos passes) as P8;
  pose proof (Hpos leaves) as P9; pose proof (Hpos lasts) as P10; clear Hpos.

Ltac groups_nonneg l :=
  pose proof (count_at_nonneg t_pc adds l); pose proof (count_at_nonneg t_pc joins l); pose proof (count_at_nonneg t_pc starts_lead l); pose proof (count_at_nonneg t_pc leads_in l);
  pose proof (count_at_nonneg t_pc lasts l); pose proof (count_at_nonneg t_pc leads_on l); pose proof (count_at_nonneg t_pc releases l); pose proof (count_at_nonneg t_pc passes l);
  pose proof (count_at_nonneg t_pc leaves l); pose proof (count_at_nonneg t_pc waits l).

Lemma limiter_thread_ok (i : nat) (t : thread) (fpanic : bool) (l l' : CallLimiter) :
  threads l !! i = Some t → thread_step i t fpanic l = Some l' → limiter_ok l → limiter_ok l'.
Proof.
  intros Hi Hstep [Hin Hout Hw Hc Ho Hs]. destruct (count_groups (threads l)) as (G1 & G2 & G3 & G4 & G5). groups_nonneg (threads l).
  pose proof (λ f, count_at_pos t_pc f (threads l) i t Hi) as Hpos. place_facts Hpos.
  assert (∀ b, 0 ≤ Z.b2z b ≤ 1) as Hbool by (by intros []). pose proof (Hbool (inLock l)). pose proof (Hbool (outLock l)). clear Hbool.
  assert (Z.b2z (closing l) = 0 ∧ closing l = false ∨ Z.b2z (closing l) = 1 ∧ closing l = true) as Hb by (destruct (closing l); auto).
  unfold thread_step in Hstep. destruct (t_pc t) eqn:Hp; cbn in P1, P2, P3, P4, P5, P6, P7, P8, P9, P10;
    repeat match type of Hstep with context [if ?b then _ else _] => destruct b eqn:? end; simplify_eq;
    repeat match goal with H : (_ =? _) = true |- _ => apply Z.eqb_eq in H | H : (_ =? _) = false |- _ => apply Z.eqb_neq in H end;
    repeat match goal with H : true = true → _ |- _ => specialize (H eq_refl) | H : false = true → _ |- _ => clear H end;
    destruct Hb as [[Hb Hb']|[Hb Hb']]; rewrite ?Hb' in *;
    repeat match goal with H : true = true → _ |- _ => specialize (H eq_refl) | H : false = false → _ |- _ => specialize (H eq_refl)
      | H : false = true → _ |- _ => clear H | H : true = false → _ |- _ => clear H end;
    split; cbn [threads closing inLock outLock waiters set_thread set_inLock set_outLock set_waiters set_lastExec end_exec start_closing end_closing];
    move_thread i t Hi; rewrite ?Hb'; try (intros; discriminate); intros; cbn [Z.b2z] in *; lia.
Qed.

(** A new call. *)
Lemma count_call (f : limiter_pc → bool) (l : list thread) (e n : Z) : f LockIn = false → count f (l ++ [mkThread LockIn e n]) = count f l.
Proof. intros Hf. rewrite count_at_app, count_at_cons. simpl. rewrite Hf. simpl. unfold count_at at 2. simpl. lia. Qed.

Lemma limiter_step_ok (ev : limiter_event) (l l' : CallLimiter) : limiter_step ev l = Some l' → limiter_ok l → limiter_ok l'.
Proof.
  destruct ev as [|i fpanic|d]; simpl.
  - intros [= <-] []. split; simpl; rewrite !count_call by done; done.
  - destruct (threads l !! i) as [t|] eqn:Hi; [|done]. by apply limiter_thread_ok.
  - destruct (0 <? d); [|done]. intros [= <-] []. by split.
Qed.

Lemma limiter_run_invariant (P : CallLimiter → Prop) :
  (∀ ev l l', limiter_step ev l = Some l' → P l → P l') → ∀ evs l l', limiter_run evs l = Some l' → P l → P l'.
Proof.
  intros Hstep evs. induction evs as [|ev evs IH]; intros l l'; simpl; [by intros [= ->]|].
  destruct (limiter_step ev l) as [l1|] eqn:H1; [|done]. intros H2 HP. eapply IH; [done|]. by eapply Hstep.
Qed.

(** *** Which lead a call waits for *)

(** Whoever has returned has seen the end of a lead, and so will those that are
    leaving. *)
Definition epoch_ok (l : CallLimiter) (t : thread) : Prop :=
  match t_pc t with
  | LockIn | AddWaiter => t_epoch t ≤ epoch l
  | LastUnlockIn | Returned => t_epoch t < epoch l
  | _ => if closing l then t_epoch t < epoch l else t_epoch t ≤ epoch l
  end.

Definition ended (p : limiter_pc) : bool := match p with LStamp _ | LRelockIn _ => true | _ => false end.

(** The executions that ended are those of the complete leads and of the one that is
    about to be complete; a call has seen no more of them than of the leads and that
    one. *)
Record history_ok (l : CallLimiter) : Prop := mkHistoryOk {
  ok_epochs : ∀ i t, threads l !! i = Some t → epoch_ok l t ∧ t_epoch t ≤ t_finished t;
  ok_finished : finished l = epoch l + count ended (threads l);
}.

Lemma limiter_history_step (ev : limiter_event) (l l' : CallLimiter) : limiter_step ev l = Some l' → limiter_ok l ∧ history_ok l → limiter_ok l' ∧ history_ok l'.
Proof.
  intros Hstep [Hok [He Hf]]. split; [by eapply limiter_step_ok|]. destruct ev as [|i fpanic|d]; simpl in Hstep.
  - injection Hstep as <-. split; simpl; [|by rewrite count_call].
    intros j u [Hj|[_ Hj]]%lookup_app_Some; [by apply He in Hj|]. apply list_lookup_singleton_Some in Hj as [_ <-].
    pose proof (count_at_nonneg t_pc ended (threads l)). simpl. unfold epoch_ok. simpl. lia.
  - destruct (threads l !! i) as [t|] eqn:Hi; [|done]. destruct Hok as [Hin Hout Hw Hc Ho Hs].
    destruct (count_groups (threads l)) as (G1 & G2 & G3 & G4 & G5). groups_nonneg (threads l).
    destruct (He i t Hi) as [Het Hft].
    assert (∀ l' p, threads l' = <[i := mkThread p (t_epoch t) (t_finished t)]> (threads l) → epoch_ok l' (mkThread p (t_epoch t) (t_finished t)) →
      (∀ j u, j ≠ i → threads l !! j = Some u → epoch_ok l u → epoch_ok l' u) → finished l' = epoch l' + count ended (threads l') → history_ok l') as Hgo.
    { intros l1 p Hth Hp Hother Hfin. split; [|done]. intros j u Hj. rewrite Hth in Hj. destruct (decide (j = i)) as [->|Hji].
      - rewrite list_lookup_insert_eq in Hj by (by eapply lookup_lt_Some). injection Hj as <-. done.
      - rewrite list_lookup_insert_ne in Hj by done. destruct (He j u Hj) as [Hu Hfu]. split; [by eapply Hother|done]. }
    pose proof (λ f, count_at_pos t_pc f (threads l) i t Hi) as Hpos. pose proof (Hpos ended) as P11. place_facts Hpos.
    pose proof (count_at_nonneg t_pc ended (threads l)). assert (Z.b2z (inLock l) ≤ 1) by (by destruct (inLock l)).
    unfold thread_step in Hstep. unfold epoch_ok in Het. destruct (t_pc t) eqn:Hp; cbn in P1, P2, P3, P4, P5, P6, P7, P8, P9, P10, P11;
      repeat match type of Hstep with context [if ?b then _ else _] => destruct b eqn:? end; simplify_eq;
      (eapply Hgo; [reflexivity| | |]); cbn [threads closing epoch finished set_thread set_inLock set_outLock set_waiters set_lastExec end_exec start_closing end_closing];
      unfold epoch_ok; cbn [t_pc t_epoch closing epoch set_thread set_inLock set_outLock set_waiters set_lastExec end_exec start_closing end_closing].
    all: try (intros j u _ _ Hu; unfold epoch_ok in *; cbn [t_pc t_epoch closing epoch set_thread set_inLock set_outLock set_waiters set_lastExec end_exec start_closing end_closing];
      destruct (t_pc u), (closing l); lia).
    all: try (move_thread i t Hi; cbn [ended Z.b2z]; lia).
    all: clear Hgo He Hs; destruct (closing l) eqn:Hcl; cbn [Z.b2z] in *;
      repeat match goal with H : true = true → _ |- _ => specialize (H eq_refl) | H : false = false → _ |- _ => specialize (H eq_refl)
        | H : false = true → _ |- _ => clear H | H : true = false → _ |- _ => clear H end; try lia.
  - destruct (0 <? d); [|done]. injection Hstep as <-. by split.
Qed.

(** *** The pause *)

Definition stamps (p : limiter_pc) : bool := match p with LStamp _ => true | _ => false end.

(** The time of the last execution is kept, once the leader that ran it has noted it;
    a leader that is about to execute has waited since. *)
Record pause_ok (l : CallLimiter) : Prop := mkPauseOk {
  ok_last : count stamps (threads l) = 0 → ∀ e, last_end l = Some e → ∃ x, lastExec l = Some x ∧ e ≤ x;
  ok_end : ∀ e, last_end l = Some e → e ≤ now l;
  ok_paused : ∀ i t e, threads l !! i = Some t → t_pc t = LExec → last_end l = Some e → 0 < pause l → pause l ≤ now l - e;
}.

Lemma lead_unique (l : CallLimiter) (i j : nat) (t u : thread) :
  limiter_ok l → threads l !! i = Some t → threads l !! j = Some u → leads (t_pc t) = true → leads (t_pc u) = true → i = j.
Proof.
  intros [Hin Hout Hw Hc Ho Hs] Hi Hj Ht Hu. destruct (decide (i = j)) as [|Hij]; [done|].
  pose proof (count_at_two t_pc leads _ i j t u Hij Hi Hj Ht Hu). destruct (closing l).
  - destruct (Hc eq_refl) as (_ & _ & H0). lia.
  - destruct (Ho eq_refl) as (_ & _ & H0). lia.
Qed.

Lemma limiter_pause_step (ev : limiter_event) (l l' : CallLimiter) : limiter_step ev l = Some l' → limiter_ok l ∧ pause_ok l → limiter_ok l' ∧ pause_ok l'.
Proof.
  intros Hstep [Hok [Hl He Hp]]. split; [by eapply limiter_step_ok|]. destruct ev as [|i fpanic|d]; simpl in Hstep.
  - injection Hstep as <-. split; cbn [threads last_end lastExec now pause]; [by rewrite count_call|done|].
    intros j u e [Hj|[_ Hj]]%lookup_app_Some; [by eauto|]. apply list_lookup_singleton_Some in Hj as [_ <-]. done.
  - destruct (threads l !! i) as [t|] eqn:Hi; [|done].
    pose proof (count_at_nonneg t_pc stamps (threads l)) as Hn. pose proof (count_at_pos t_pc stamps (threads l) i t Hi) as Hpos.
    assert (∀ j u, threads l !! j = Some u → leads (t_pc t) = true → leads (t_pc u) = true → j = i) as Hu by (intros; by eapply lead_unique).
    assert (∀ p j u, <[i := mkThread p (t_epoch t) (t_finished t)]> (threads l) !! j = Some u → t_pc u = LExec →
              i = j ∧ p = LExec ∨ i ≠ j ∧ threads l !! j = Some u) as Hget.
    { intros p j u [(<- & <- & _)|[Hij Hj]]%list_lookup_insert_Some Hux; [by left|by right]. }
    unfold thread_step in Hstep. destruct (t_pc t) eqn:Hpc; cbn in Hpos;
      repeat match type of Hstep with context [if ?b then _ else _] => destruct b eqn:? end; simplify_eq; split;
      cbn [threads lastExec last_end now pause set_thread set_inLock set_outLock set_waiters set_lastExec end_exec start_closing end_closing] in *;
      move_thread i t Hi; cbn [stamps Z.b2z] in *; try (intros; apply Hl; [lia|done]); try done;
      try (intros j u e Hj Hux; destruct (Hget _ _ _ Hj Hux) as [[_ [=]]|[_ Hj']]; by eapply Hp).
    + intros j u e Hj Hux Hend Hpause. destruct (Hget _ _ _ Hj Hux) as [_|[_ Hj']]; [|by eapply Hp]. destruct (decide (count stamps (threads l) = 0)) as [H0|Hs].
      * destruct (Hl H0 e Hend) as (x & Hx & Hex). rewrite Hx in *. lia.
      * destruct (count_at_exists t_pc stamps (threads l)) as (k & v & Hk & Hv); [lia|].
        assert (k = i) as -> by (apply (Hu k v Hk); [done|]; by destruct (t_pc v)). rewrite Hi in Hk. injection Hk as <-. by rewrite Hpc in Hv.
    + lia.
    + intros e [= ->]. lia.
    + intros j u e Hj Hux. destruct (Hget _ _ _ Hj Hux) as [[_ [=]]|[Hij Hj']]. destruct Hij. symmetry. apply (Hu j u Hj'); [done|]. by rewrite Hux.
    + intros _ e Hend. exists (now l). split; [done|]. by apply He.
  - destruct (0 <? d) eqn:Hd; [|done]. injection Hstep as <-. split; cbn [threads lastExec last_end now pause]; [done| |].
    + intros e Hend. specialize (He e Hend). lia.
    + intros j u e Hj Hux Hend Hpause. specialize (Hp j u e Hj Hux Hend Hpause). lia.
Qed.

(** *** Going on *)

(** The places where nothing is waited for, and those where something is. *)
Definition goes_on (p : limiter_pc) : bool := match p with LockIn | LeadLockOut | LeadPause | LRelockIn _ | LockOut | Returned => false | _ => true end.
Definition pauses (p : limiter_pc) : bool := match p with LeadPause => true | _ => false end.
Definition relocks (p : limiter_pc) : bool := match p with LRelockIn _ => true | _ => false end.
Definition enters (p : limiter_pc) : bool := match p with LockIn => true | _ => false end.
Definition returned (p : limiter_pc) : bool := match p with Returned => true | _ => false end.

Lemma goes_on_groups (l : list thread) : count goes_on l = 0 →
  count adds l = 0 ∧ count joins l = 0 ∧ count leads_in l = 0 ∧ count lasts l = 0 ∧ count releases l = 0 ∧ count passes l = 0 ∧ count leaves l = 0 ∧
  count leads_on l = count pauses l + count relocks l ∧
  Z.of_nat (length l) = count enters l + count starts_lead l + count pauses l + count relocks l + count waits l + count returned l.
Proof.
  induction l as [|[p e f] l IH]; [done|]. rewrite !count_at_cons. pose proof (count_at_nonneg t_pc goes_on l).
  change (length (mkThread p e f :: l)) with (S (length l)). cbn [t_pc]. destruct p; cbn [goes_on adds joins leads_in lasts releases passes leaves leads_on pauses relocks enters starts_lead waits returned Z.b2z] in *; intros; lia.
Qed.

(** How many actions a call has left at most. *)
Definition actions_left (p : limiter_pc) : nat :=
  match p with
  | LockIn => 13 | AddWaiter => 12 | LeadLockOut => 11 | LeadUnlockIn => 10 | LeadPause => 9 | LExec => 8 | LStamp _ => 7 | LRelockIn _ => 6
  | LUnlockOut _ | UnlockIn => 5 | LockOut => 4 | UnlockOut => 3 | SubWaiter => 2 | LastUnlockIn => 1 | Returned => 0
  end.

Definition work_left (l : list thread) : nat := sum_list_with (λ t, actions_left (t_pc t)) l.

Lemma work_left_insert (l : list thread) (i : nat) (t t' : thread) :
  l !! i = Some t → (work_left (<[i := t']> l) + actions_left (t_pc t) = work_left l + actions_left (t_pc t'))%nat.
Proof.
  unfold work_left. revert i. induction l as [|x l IH]; intros [|i] Hi; simpl in *; try done.
  - injection Hi as ->. lia.
  - specialize (IH i Hi). lia.
Qed.

Lemma thread_step_work (i : nat) (t : thread) (fpanic : bool) (l l' : CallLimiter) :
  threads l !! i = Some t → thread_step i t fpanic l = Some l' → (work_left (threads l') < work_left (threads l))%nat.
Proof.
  intros Hi Hstep. assert (∃ p, threads l' = <[i := mkThread p (t_epoch t) (t_finished t)]> (threads l) ∧ (actions_left p < actions_left (t_pc t))%nat) as (p & -> & Hp).
  { unfold thread_step in Hstep. destruct (t_pc t) eqn:Hpc;
      repeat match type of Hstep with context [if ?b then _ else _] => destruct b eqn:? end; simplify_eq;
      (eexists; split; [reflexivity|]); cbn; lia. }
  pose proof (work_left_insert (threads l) i t (mkThread p (t_epoch t) (t_finished t)) Hi) as H. cbn [t_pc] in H. lia.
Qed.

Definition unreturned (l : CallLimiter) : Prop := ∃ i t, threads l !! i = Some t ∧ t_pc t ≠ Returned.

Lemma waits_somewhere (l : list thread) (i : nat) (t : thread) : count goes_on l = 0 → l !! i = Some t → t_pc t ≠ Returned →
  0 < count enters l + count starts_lead l + count pauses l + count relocks l + count waits l.
Proof.
  intros H0 Hi Ht. pose proof (λ f, count_at_pos t_pc f l i t Hi) as Hpos. pose proof (Hpos goes_on). pose proof (Hpos enters). pose proof (Hpos starts_lead).
  pose proof (Hpos pauses). pose proof (Hpos relocks). pose proof (Hpos waits). pose proof (count_at_nonneg t_pc enters l).
  pose proof (count_at_nonneg t_pc starts_lead l). pose proof (count_at_nonneg t_pc pauses l). pose proof (count_at_nonneg t_pc relocks l).
  pose proof (count_at_nonneg t_pc waits l). clear Hpos. destruct (t_pc t); try done; cbn in *; lia.
Qed.

(** A thread that can go on, at once or after the pause. *)
Lemma limiter_progress (l : CallLimiter) : limiter_ok l → unreturned l →
  ∃ i t, threads l !! i = Some t ∧ (is_Some (thread_step i t false l) ∨ t_pc t = LeadPause).
Proof.
  intros [Hin Hout Hw Hc Ho Hs] (j & u & Hj & Hu). destruct (count_groups (threads l)) as (G1 & G2 & G3 & G4 & G5). groups_nonneg (threads l).
  destruct (decide (0 < count goes_on (threads l))) as [Hgo|Hgo].
  { apply count_at_exists in Hgo as (i & t & Hi & Ht). exists i, t. split; [done|]. left.
    unfold thread_step. destruct (t_pc t); simpl in Ht; try done; eauto. by destruct (_ =? _); eauto. }
  pose proof (count_at_nonneg t_pc goes_on (threads l)). assert (count goes_on (threads l) = 0) as Hz by lia.
  pose proof (waits_somewhere (threads l) j u Hz Hj Hu). destruct (goes_on_groups (threads l) Hz) as (? & ? & ? & ? & ? & ? & ? & ?).
  pose proof (count_at_nonneg t_pc pauses (threads l)). pose proof (count_at_nonneg t_pc relocks (threads l)).
  assert (∀ b : bool, Z.b2z b = 0 → b = false) as Hfree by (by intros []). assert (∀ b : bool, 0 ≤ Z.b2z b) as Hb by (by intros []).
  assert (0 < count leads (threads l) → closing l = false ∧ count leads (threads l) = 1) as Hlead.
  { intros Hpos. destruct (closing l); [specialize (Hc eq_refl); lia|]. specialize (Ho eq_refl). lia. }
  destruct (decide (0 < count pauses (threads l))) as [(i & t & Hi & Ht)%count_at_exists|].
  { exists i, t. split; [done|]. right. by destruct (t_pc t). }
  destruct (decide (0 < count starts_lead (threads l))) as [Hpos|].
  { assert (outLock l = false) as Hl by (apply Hfree; lia). apply count_at_exists in Hpos as (i & t & Hi & Ht). exists i, t. split; [done|]. left.
    unfold thread_step. destruct (t_pc t); try done. rewrite Hl. eauto. }
  destruct (decide (0 < count relocks (threads l))) as [Hpos|].
  { destruct Hlead as [Hcl _]; [lia|]. rewrite Hcl in Hin. assert (inLock l = false) as Hl by (apply Hfree; simpl in Hin; lia).
    apply count_at_exists in Hpos as (i & t & Hi & Ht). exists i, t. split; [done|]. left. unfold thread_step. destruct (t_pc t); try done. rewrite Hl. eauto. }
  destruct (decide (0 < count waits (threads l))) as [Hpos|].
  { assert (outLock l = false) as Hl by (apply Hfree; lia). apply count_at_exists in Hpos as (i & t & Hi & Ht). exists i, t. split; [done|]. left.
    unfold thread_step. destruct (t_pc t); try done. rewrite Hl. eauto. }
  assert (closing l = false) as Hcl by (destruct (closing l); [specialize (Hc eq_refl); lia|done]). rewrite Hcl in Hin.
  assert (inLock l = false) as Hl by (apply Hfree; simpl in Hin; lia).
  destruct (count_at_exists t_pc enters (threads l)) as (i & t & Hi & Ht); [lia|]. exists i, t. split; [done|]. left.
  unfold thread_step. destruct (t_pc t); try done. rewrite Hl. eauto.
Qed.

(** *** Runs *)

Record reachable_ok (minPause : Z) (l : CallLimiter) : Prop := mkReachableOk {
  reach_limiter : limiter_ok l;
  reach_history : history_ok l;
  reach_pause : pause_ok l;
  reach_minPause : pause l = minPause;
}.

Lemma limiter_step_pause (ev : limiter_event) (l l' : CallLimiter) : limiter_step ev l = Some l' → pause l' = pause l.
Proof.
  destruct ev as [|i fpanic|d]; simpl; [by intros [= <-]| |by destruct (0 <? d); intros [= <-]].
  destruct (threads l !! i) as [t|]; [|done]. unfold thread_step. intros Hstep.
  destruct (t_pc t); repeat match type of Hstep with context [if ?b then _ else _] => destruct b end; by simplify_eq.
Qed.

Lemma reachable_run (minPause start : Z) (evs : list limiter_event) (l : CallLimiter) :
  limiter_run evs (NewCallLimiter minPause start) = Some l → reachable_ok minPause l.
Proof.
  intros Hrun. eapply (limiter_run_invariant (reachable_ok minPause)); [|exact Hrun|].
  - intros ev l1 l2 Hstep [H1 H2 H3 H4]. destruct (limiter_history_step _ _ _ Hstep (conj H1 H2)) as [H1' H2'].
    destruct (limiter_pause_step _ _ _ Hstep (conj H1 H3)) as [_ H3']. split; [done..|]. by rewrite (limiter_step_pause _ _ _ Hstep).
  - split; [apply limiter_ok_new| | |done]; split; done.
Qed.

(** A call keeps what it has seen when it came. *)
Lemma limiter_step_keeps (ev : limiter_event) (l l' : CallLimiter) (i : nat) (t : thread) :
  limiter_step ev l = Some l' → threads l !! i = Some t → ∃ p, threads l' !! i = Some (mkThread p (t_epoch t) (t_finished t)).
Proof.
  intros Hstep Hi. assert (threads l !! i = Some (mkThread (t_pc t) (t_epoch t) (t_finished t))) as Hi' by (by destruct t).
  destruct ev as [|j fpanic|d]; simpl in Hstep.
  - injection Hstep as <-. eexists. cbn [threads]. by apply lookup_app_l_Some.
  - destruct (threads l !! j) as [u|] eqn:Hj; [|done].
    assert (∃ p, threads l' = <[j := mkThread p (t_epoch u) (t_finished u)]> (threads l)) as [p Hl'].
    { unfold thread_step in Hstep. destruct (t_pc u); repeat match type of Hstep with context [if ?b then _ else _] => destruct b end; simplify_eq; by eexists. }
    rewrite Hl'. destruct (decide (i = j)) as [<-|Hij]; [|rewrite list_lookup_insert_ne by done; eauto].
    rewrite list_lookup_insert_eq by (by eapply lookup_lt_Some). simplify_eq. eauto.
  - destruct (0 <? d); [|done]. injection Hstep as <-. eauto.
Qed.

Lemma limiter_run_keeps (evs : list limiter_event) : ∀ (l l' : CallLimiter) (i : nat) (t : thread),
  limiter_run evs l = Some l' → threads l !! i = Some t → ∃ p, threads l' !! i = Some (mkThread p (t_epoch t) (t_finished t)).
Proof.
  induction evs as [|ev evs IH]; intros l l' i t Hrun Hi; simpl in Hrun; [injection Hrun as <-; destruct t; eauto|].
  destruct (limiter_step ev l) as [l1|] eqn:H1; [|done]. destruct (limiter_step_keeps _ _ _ _ _ H1 Hi) as [p Hp]. exact (IH _ _ _ _ Hrun Hp).
Qed.

Lemma limiter_run_app (evs1 evs2 : list limiter_event) : ∀ l, limiter_run (evs1 ++ evs2) l = match limiter_run evs1 l with Some l => limiter_run evs2 l | None => None end.
Proof. induction evs1 as [|ev evs1 IH]; intros l; simpl; [done|]. destruct (limiter_step ev l); [apply IH|done]. Qed.

Definition no_calls (evs : list limiter_event) : Prop := EvDo ∉ evs.
Definition is_thread_event (ev : limiter_event) : bool := match ev with EvThread _ _ => true | _ => false end.
Definition thread_events (evs : list limiter_event) : nat := length (filter (λ ev, is_thread_event ev = true) evs).

Lemma limiter_run_work (evs : list limiter_event) : ∀ (l l' : CallLimiter), limiter_run evs l = Some l' → no_calls evs →
  (thread_events evs + work_left (threads l') ≤ work_left (threads l))%nat.
Proof.
  unfold no_calls, thread_events. induction evs as [|ev evs IH]; intros l l' Hrun Hno; simpl in Hrun; [injection Hrun as <-; simpl; lia|].
  destruct (limiter_step ev l) as [l1|] eqn:H1; [|done]. apply not_elem_of_cons in Hno as [Hev Hno]. specialize (IH _ _ Hrun Hno). rewrite filter_cons.
  destruct ev as [|i fpanic|d]; [done| |]; simpl in H1.
  - destruct (threads l !! i) as [t|] eqn:Hi; [|done]. pose proof (thread_step_work _ _ _ _ _ Hi H1). rewrite decide_True by done. cbn [length]. lia.
  - destruct (0 <? d); [|done]. injection H1 as <-. rewrite decide_False by done. exact IH.
Qed.

Lemma work_left_bound (l : list thread) : (work_left l ≤ 13 * length l)%nat.
Proof. unfold work_left. induction l as [|t l IH]; simpl; [lia|]. assert (actions_left (t_pc t) ≤ 13)%nat by (destruct (t_pc t); simpl; lia). lia. Qed.

(** ** Properties *)

(** However calls overlap, panics of the function included: at most one of them is
    executing the function, and none does so before the minimum pause has passed
    since the last execution ended. *)
Theorem Do_limits (minPause start : Z) (evs : list limiter_event) (l : CallLimiter) :
  limiter_run evs (NewCallLimiter minPause start) = Some l →
  (∀ i j t u, threads l !! i = Some t → threads l !! j = Some u → t_pc t = LExec → t_pc u = LExec → i = j) ∧
  (∀ i t e, threads l !! i = Some t → t_pc t = LExec → last_end l = Some e → 0 < minPause → minPause ≤ now l - e).
Proof.
  intros [H1 _ [_ _ H3] <-]%reachable_run. split; [|done]. intros i j t u Hi Hj Ht Hu.
  apply (lead_unique l i j t u); [done..| |]; by rewrite ?Ht, ?Hu.
Qed.

(** C39: A call that has returned has waited for an execution to end since it came,
    unless it came after one had ended and before its leader took inLock again. *)
Theorem Do_bundles (minPause start : Z) (evs1 evs2 : list limiter_event) (l1 l2 : CallLimiter) (t : thread) :
  limiter_run evs1 (NewCallLimiter minPause start) = Some l1 → limiter_run (EvDo :: evs2) l1 = Some l2 →
  threads l2 !! length (threads l1) = Some t → t_pc t = Returned →
  Forall (λ u, ended (t_pc u) = false) (threads l1) → finished l1 < finished l2.
Proof.
  intros Hrun1 Hrun2 Hi Ht Hnone. pose proof (reachable_run _ _ _ _ Hrun1) as [_ [_ Hf1] _ _].
  assert (reachable_ok minPause l2) as [_ [He2 Hf2] _ _] by (apply (reachable_run _ start (evs1 ++ EvDo :: evs2)); by rewrite limiter_run_app, Hrun1).
  simpl in Hrun2. edestruct limiter_run_keeps as [p Hp]; [exact Hrun2|cbn [threads]; by apply list_lookup_middle|].
  rewrite Hp in Hi. injection Hi as <-. simpl in Ht. subst p. destruct (He2 _ _ Hp) as [He _]. unfold epoch_ok in He. simpl in He.
  pose proof (count_at_nonneg t_pc ended (threads l2)). assert (count ended (threads l1) = 0); [|lia].
  clear -Hnone. induction Hnone as [|u l Hu _ IH]; [done|]. rewrite count_at_cons, Hu, IH. done.
Qed.

(** No call is stuck, also when functions panic: while a call has not returned, some
    call can go on, after the pause at the latest; and without new calls there are
    at most thirteen actions for each call until all have returned. *)
Theorem Do_returns (minPause start : Z) (evs : list limiter_event) (l : CallLimiter) :
  limiter_run evs (NewCallLimiter minPause start) = Some l →
  (unreturned l → ∃ i d, is_Some (limiter_run [EvThread i false] l) ∨ is_Some (limiter_run [EvTick d; EvThread i false] l)) ∧
  (∀ evs' l', limiter_run evs' l = Some l' → no_calls evs' → (thread_events evs' ≤ 13 * length (threads l))%nat).
Proof.
  intros [H1 _ _ _]%reachable_run. split.
  - intros (i & t & Hi & Ht)%limiter_progress; [|done].
    exists i, (Z.max 1 (pause l + default 0 (lastExec l) - now l)). destruct Ht as [[l' Hl']|Ht]; [left|right]; simpl; [by rewrite Hi, Hl'|].
    rewrite (proj2 (Z.ltb_lt _ _)) by lia. simpl. rewrite Hi. unfold thread_step. rewrite Ht. cbn [pause lastExec now].
    assert (match lastExec l with Some last => now l + Z.max 1 (pause l + default 0 (lastExec l) - now l) - last <? pause l | None => false end = false) as ->.
    { destruct (lastExec l) as [x|]; [|done]. simpl. apply Z.ltb_ge. lia. }
    rewrite andb_false_r. eauto.
  - intros evs' l' Hrun Hno. pose proof (limiter_run_work _ _ _ Hrun Hno). pose proof (work_left_bound (threads l)). lia.
Qed.

(** *** Witnesses *)

Definition by_thread (i n : nat) : list limiter_event := replicate n (EvThread i false).
Definition limiter_at (minPause : Z) (evs : list limiter_event) : CallLimiter := default (NewCallLimiter 0 0) (limiter_run evs (NewCallLimiter minPause 0)).

(** A call, and another one that has waited for the pause. *)
Definition two_leads : list limiter_event := [EvDo] ++ by_thread 0 13 ++ [EvDo] ++ by_thread 1 4 ++ [EvTick 10] ++ by_thread 1 1.

Lemma Do_limits_witness :
  t_pc <$> threads (limiter_at 10 two_leads) = [Returned; LExec] ∧
  (∀ i j t u, threads (limiter_at 10 two_leads) !! i = Some t → threads (limiter_at 10 two_leads) !! j = Some u → t_pc t = LExec → t_pc u = LExec → i = j) ∧
  (∀ i t e, threads (limiter_at 10 two_leads) !! i = Some t → t_pc t = LExec → last_end (limiter_at 10 two_leads) = Some e → 0 < 10 →
    10 ≤ now (limiter_at 10 two_leads) - e).
Proof. split; [reflexivity|]. refine (Do_limits 10 0 two_leads _ _). vm_compute. reflexivity. Defined.

(** A call that comes while the function runs, and returns with its leader. *)
Definition leader_runs (n : nat) : list limiter_event := EvDo :: by_thread 0 n.
Definition joins_leader (n : nat) : list limiter_event := by_thread 1 3 ++ by_thread 0 n ++ by_thread 1 3.

Lemma Do_bundles_witness : finished (limiter_at 0 (leader_runs 5)) < finished (limiter_at 0 (leader_runs 5 ++ EvDo :: joins_leader 4)).
Proof. refine (Do_bundles 0 0 (leader_runs 5) (joins_leader 4) _ _ (mkThread Returned 0 0) _ _ _ _ _); vm_compute; try reflexivity. repeat constructor. Defined.

Lemma Do_returns_witness :
  (unreturned (limiter_at 10 two_leads) →
    ∃ i d, is_Some (limiter_run [EvThread i false] (limiter_at 10 two_leads)) ∨ is_Some (limiter_run [EvTick d; EvThread i false] (limiter_at 10 two_leads))) ∧
  (∀ evs' l', limiter_run evs' (limiter_at 10 two_leads) = Some l' → no_calls evs' → (thread_events evs' ≤ 13 * length (threads (limiter_at 10 two_leads)))%nat).
Proof. refine (Do_returns 10 0 two_leads _ _). vm_compute. reflexivity. Defined.

(** *** What modelling showed *)

(** A call that comes between the end of the function and its leader's next lock of
    inLock joins that lead and returns without another execution. *)
Lemma joins_finished :
  let l1 := limiter_at 0 (leader_runs 6) in
  let l2 := limiter_at 0 (leader_runs 6 ++ EvDo :: joins_leader 3) in
  t_pc <$> threads l1 = [LStamp false] ∧ t_pc <$> threads l2 = [LockOut; Returned] ∧ finished l1 = finished l2.
Proof. vm_compute. split_and!; reflexivity. Qed.

End CallLimiter.

(** ** OnceAgain *)

Module OnceAgain.

(** A panic of the function runs the deferred functions: the same actions. *)
Inductive once_pc : Type := OLoad | OAdd | OLock | OCheck | OExec | OStore | OUnlock | OSub | OReset | OReturned.

(** [executed] counts the executions that have ended: a ghost. *)
Record OnceAgain : Type := mkOnceAgain { done : bool; once_waiters : Z; m_held : bool; callers : list once_pc; executed : Z }.

Definition NewOnceAgain : OnceAgain := mkOnceAgain false 0 false [] 0.

(** One action of a caller: its next place, and what becomes of the fields. *)
Definition caller_step (i : nat) (p : once_pc) (o : OnceAgain) : option OnceAgain :=
  let to p d w m n := Some (mkOnceAgain d w m (<[i := p]> (callers o)) n) in
  let keep p := to p (done o) (once_waiters o) (m_held o) (executed o) in
  match p with
  | OLoad => keep (if done o then OReturned else OAdd)
  | OAdd => to OLock (done o) (once_waiters o + 1) (m_held o) (executed o)
  | OLock => if m_held o then None else to OCheck (done o) (once_waiters o) true (executed o)
  | OCheck => keep (if done o then OUnlock else OExec)
  | OExec => to OStore (done o) (once_waiters o) (m_held o) (executed o + 1)
  | OStore => to OUnlock true (once_waiters o) (m_held o) (executed o)
  | OUnlock => to OSub (done o) (once_waiters o) false (executed o)
  | OSub => to (if once_waiters o - 1 =? 0 then OReset else OReturned) (done o) (once_waiters o - 1) (m_held o) (executed o)
  | OReset => to OReturned false (once_waiters o) (m_held o) (executed o)
  | OReturned => None
  end.

(** [None] is a new call of Do, [Some i] an action of caller i. *)
Definition once_step (ev : option nat) (o : OnceAgain) : option OnceAgain :=
  match ev with
  | None => Some (mkOnceAgain (done o) (once_waiters o) (m_held o) (callers o ++ [OLoad]) (executed o))
  | Some i => match callers o !! i with Some p => caller_step i p o | None => None end
  end.

Fixpoint once_run (evs : list (option nat)) (o : OnceAgain) : option OnceAgain :=
  match evs with
  | [] => Some o
  | ev :: evs => match once_step ev o with Some o => once_run evs o | None => None end
  end.

(** *** Lemmas *)

Local Notation count := (count_at (λ p : once_pc, p)).

Definition in_m (p : once_pc) : bool := match p with OCheck | OExec | OStore | OUnlock => true | _ => false end.
Definition in_slow (p : once_pc) : bool := match p with OLock | OCheck | OExec | OStore | OUnlock | OSub => true | _ => false end.
Definition resets (p : once_pc) : bool := match p with OReset => true | _ => false end.
Definition past_f (p : once_pc) : bool := match p with OStore | OUnlock | OSub | OReset | OReturned => true | _ => false end.

Record once_ok (o : OnceAgain) : Prop := mkOnceOk {
  once_m : count in_m (callers o) = Z.b2z (m_held o);
  once_slow : once_waiters o = count in_slow (callers o);
  once_reset : done o = true → 0 < once_waiters o + count resets (callers o);
  once_executed : done o = true ∨ 0 < count past_f (callers o) → 0 < executed o;
  once_executed_nonneg : 0 ≤ executed o;
}.

Lemma once_step_ok (ev : option nat) (o o' : OnceAgain) : once_step ev o = Some o' → once_ok o → once_ok o'.
Proof.
  intros Hstep [Hm Hw Hr He Hn]. destruct ev as [i|]; simpl in Hstep.
  - destruct (callers o !! i) as [p|] eqn:Hi; [|done].
    pose proof (λ f, count_at_pos (λ p, p) f (callers o) i p Hi) as Hpos. pose proof (Hpos in_m). pose proof (Hpos in_slow). pose proof (Hpos past_f). clear Hpos.
    pose proof (count_at_nonneg (λ p, p) in_m (callers o)). pose proof (count_at_nonneg (λ p, p) in_slow (callers o)).
    pose proof (count_at_nonneg (λ p, p) resets (callers o)). pose proof (count_at_nonneg (λ p, p) past_f (callers o)).
    assert (0 ≤ Z.b2z (m_held o) ≤ 1) by (by destruct (m_held o)).
    assert (0 < count past_f (callers o) → 0 < executed o) as He' by (intros Hpast; apply He; by right).
    unfold caller_step in Hstep. destruct p; cbn in H, H0, H1; destruct (done o) eqn:Hd; try specialize (Hr eq_refl); try specialize (He (or_introl eq_refl));
      repeat match type of Hstep with context [if ?b then _ else _] => destruct b eqn:? end; simplify_eq;
      split; cbn [callers done once_waiters m_held executed];
      repeat match goal with |- context [count ?f (<[i := ?t']> ?l)] => rewrite (count_at_insert (λ p, p) f l i _ t' Hi) end;
      cbn [in_m in_slow resets past_f Z.b2z] in *; try done; try (intros [[=]|Hpast]); try lia.
  - assert (∀ f, f OLoad = false → count f (callers o ++ [OLoad]) = count f (callers o)) as Hc.
    { intros f Hf. rewrite count_at_app, count_at_cons, Hf. unfold count_at at 2. simpl. lia. }
    injection Hstep as <-. split; cbn [callers done once_waiters m_held executed]; rewrite ?Hc; done.
Qed.

Lemma once_run_ok (evs : list (option nat)) : ∀ o o', once_run evs o = Some o' → once_ok o → once_ok o'.
Proof.
  induction evs as [|ev evs IH]; intros o o'; simpl; [by intros [= ->]|]. destruct (once_step ev o) as [o1|] eqn:H1; [|done].
  intros H2 Hok. eapply IH; [done|]. by eapply once_step_ok.
Qed.

Lemma once_ok_new : once_ok NewOnceAgain.
Proof. split; simpl; try done. by intros [[=]|H%Z.lt_irrefl]. Qed.

(** ** Properties *)

(** However calls overlap: at most one of them executes the function; one that has
    returned has seen an execution end, its own or another one; when all have
    returned the object is ready to execute again; and until then some call can go
    on. *)
Theorem OnceAgain_Do (evs : list (option nat)) (o : OnceAgain) : once_run evs NewOnceAgain = Some o →
  (∀ i j, callers o !! i = Some OExec → callers o !! j = Some OExec → i = j) ∧
  (∀ i, callers o !! i = Some OReturned → 0 < executed o) ∧
  (Forall (λ p, p = OReturned) (callers o) → done o = false ∧ once_waiters o = 0) ∧
  (∀ i p, callers o !! i = Some p → p ≠ OReturned → ∃ j, is_Some (once_step (Some j) o)).
Proof.
  intros Hrun. apply once_run_ok in Hrun as [Hm Hw Hr He Hn]; [|exact once_ok_new]. split_and!.
  - intros i j Hi Hj. destruct (decide (i = j)) as [|Hij]; [done|].
    pose proof (count_at_two (λ p, p) in_m _ i j _ _ Hij Hi Hj eq_refl eq_refl). destruct (m_held o); simpl in Hm; lia.
  - intros i Hi. apply He. right. pose proof (count_at_pos (λ p, p) past_f _ i _ Hi eq_refl). lia.
  - intros Hall. assert (∀ f, f OReturned = false → count f (callers o) = 0) as Hc.
    { intros f Hf. clear -Hall Hf. induction Hall as [|p l -> _ IH]; [done|]. by rewrite count_at_cons, Hf, IH. }
    rewrite !Hc in * by done. split; [|done]. destruct (done o); [|done]. specialize (Hr eq_refl). lia.
  - intros i p Hi Hp. destruct (m_held o) eqn:Hmo.
    + destruct (count_at_exists (λ p, p) in_m (callers o)) as (j & q & Hj & Hq); [simpl in Hm; lia|]. exists j. simpl. rewrite Hj. destruct q; try done; simpl; eauto.
    + exists i. simpl. rewrite Hi. destruct p; try done; simpl; rewrite ?Hmo; eauto.
Qed.

Definition once_at (evs : list (option nat)) : OnceAgain := default NewOnceAgain (once_run evs NewOnceAgain).
Definition by_caller (i n : nat) : list (option nat) := replicate n (Some i).

(** The first caller executes, the second one has waited. *)
Definition two_callers : list (option nat) := [None; None] ++ by_caller 0 5 ++ by_caller 1 2 ++ by_caller 0 3 ++ by_caller 1 5.

Lemma OnceAgain_Do_witness :
  callers (once_at two_callers) = [OReturned; OReturned] ∧ executed (once_at two_callers) = 1 ∧
  (∀ i j, callers (once_at two_callers) !! i = Some OExec → callers (once_at two_callers) !! j = Some OExec → i = j) ∧
  (∀ i, callers (once_at two_callers) !! i = Some OReturned → 0 < executed (once_at two_callers)) ∧
  (Forall (λ p, p = OReturned) (callers (once_at two_callers)) → done (once_at two_callers) = false ∧ once_waiters (once_at two_callers) = 0) ∧
  (∀ i p, callers (once_at two_callers) !! i = Some p → p ≠ OReturned → ∃ j, is_Some (once_step (Some j) (once_at two_callers))).
Proof. split; [reflexivity|]. split; [reflexivity|]. refine (OnceAgain_Do two_callers _ _). vm_compute. reflexivity. Defined.

(** *** What modelling showed *)

(** The first caller is late with its reset, and another one leaves last in between
    and resets as well. The reset then comes while the fourth caller waits for the
    third one's execution: the fourth one executes the function again. *)
Definition late_reset : list (option nat) :=
  [None; None] ++ by_caller 1 1 ++ by_caller 0 8 ++ by_caller 1 6 ++
  [None] ++ by_caller 2 4 ++ [None] ++ by_caller 3 2 ++ by_caller 2 3.

Lemma late_reset_executes_again :
  (callers (once_at late_reset), executed (once_at late_reset)) = ([OReset; OReturned; OSub; OLock], 2) ∧
  (callers (once_at (late_reset ++ by_caller 3 3)), executed (once_at (late_reset ++ by_caller 3 3))) = ([OReset; OReturned; OSub; OSub], 2) ∧
  (callers (once_at (late_reset ++ by_caller 0 1 ++ by_caller 3 5)), executed (once_at (late_reset ++ by_caller 0 1 ++ by_caller 3 5))) =
    ([OReturned; OReturned; OSub; OSub], 3).
Proof. vm_compute. split_and!; reflexivity. Qed.

End OnceAgain.

(** ** BroadcastFlag *)

Module BroadcastFlag.

(** Flags and channels are objects that the broadcaster and its flags share: places
    in a list of values, whether the flag is set and whether the channel is closed.
    The calls run one after another, as under the broadcaster's lock. *)
Record BroadcastFlag : Type := mkBroadcastFlag { bf_flag : nat; bf_signal : nat }.
Record Flag : Type := mkFlag { fl_flag : nat; fl_signal : nat }.
Record Flags : Type := mkFlags { set_flags : list bool; closed : list bool; broadcaster : BroadcastFlag; flags : list Flag }.

Definition NewBroadcastFlag : Flags := mkFlags [false] [false] (mkBroadcastFlag 0 0) [].

Definition NewFlag (s : Flags) : Flags :=
  mkFlags (set_flags s ++ [true]) (closed s ++ [true]) (broadcaster s) (flags s ++ [mkFlag (length (set_flags s)) (length (closed s))]).

(** Closing a closed channel panics. *)
Definition NotifyAndReset (s : Flags) : go Empty_set Flags :=
  if default true (closed s !! bf_signal (broadcaster s)) then Panic
  else
    Ret (mkFlags (<[bf_flag (broadcaster s) := true]> (set_flags s) ++ [false]) (<[bf_signal (broadcaster s) := true]> (closed s) ++ [false])
           (mkBroadcastFlag (length (set_flags s)) (length (closed s))) (flags s)).

Definition IsSet (i : nat) (s : Flags) : option bool := flags s !! i ≫= λ f, set_flags s !! fl_flag f.
Definition Signal (i : nat) (s : Flags) : option bool := flags s !! i ≫= λ f, closed s !! fl_signal f.

Definition Refresh (i : nat) (s : Flags) : Flags :=
  mkFlags (set_flags s) (closed s) (broadcaster s) (<[i := mkFlag (bf_flag (broadcaster s)) (bf_signal (broadcaster s))]> (flags s)).

Inductive flag_op : Type := OpNewFlag | OpNotifyAndReset | OpRefresh (i : nat).

Definition flag_step (op : flag_op) (s : Flags) : go Empty_set Flags :=
  match op with OpNewFlag => Ret (NewFlag s) | OpNotifyAndReset => NotifyAndReset s | OpRefresh i => Ret (Refresh i s) end.

Fixpoint flag_run (ops : list flag_op) (s : Flags) : go Empty_set Flags :=
  match ops with [] => Ret s | op :: ops => let! s := flag_step op s in flag_run ops s end.

(** What is promised: a flag is set when it is new, and from a notification on until
    it is refreshed. *)
Definition spec_step (op : flag_op) (l : list bool) : list bool :=
  match op with OpNewFlag => l ++ [true] | OpNotifyAndReset => (λ _, true) <$> l | OpRefresh i => <[i := false]> l end.

(** *** Lemmas *)

(** The flag and the channel of the broadcaster, and of whoever shares them, are the
    only ones that are not set. *)
Record flags_ok (s : Flags) (l : list bool) : Prop := mkFlagsOk {
  ok_bf_flag : set_flags s !! bf_flag (broadcaster s) = Some false;
  ok_bf_signal : closed s !! bf_signal (broadcaster s) = Some false;
  ok_length : length l = length (flags s);
  ok_flags : ∀ i f, flags s !! i = Some f →
    (l !! i = Some false ∧ fl_flag f = bf_flag (broadcaster s) ∧ fl_signal f = bf_signal (broadcaster s)) ∨
    (l !! i = Some true ∧ set_flags s !! fl_flag f = Some true ∧ closed s !! fl_signal f = Some true);
}.

Lemma insert_true_app (l : list bool) (i j : nat) (b : bool) : l !! i = Some b → (<[j := true]> l ++ [false]) !! i = Some (if decide (i = j) then true else b).
Proof.
  intros Hi. pose proof (lookup_lt_Some _ _ _ Hi). rewrite lookup_app_l by (by rewrite length_insert).
  destruct (decide (i = j)) as [<-|Hij]; [by apply list_lookup_insert_eq|by rewrite list_lookup_insert_ne].
Qed.

Lemma flag_step_ok (op : flag_op) (s : Flags) (l : list bool) : flags_ok s l → ∃ s', flag_step op s = Ret s' ∧ flags_ok s' (spec_step op l).
Proof.
  intros [Hbf Hbs Hlen Hf]. destruct op as [| |i]; simpl.
  - eexists. split; [done|]. split; cbn [set_flags closed broadcaster flags NewFlag]; [by apply lookup_app_l_Some..|by rewrite !length_app, Hlen|].
    intros j f [Hj|[Hj Hjf]]%lookup_app_Some.
    + destruct (Hf j f Hj) as [(H1 & H2 & H3)|(H1 & H2 & H3)]; [left|right]; split_and!; by try apply lookup_app_l_Some.
    + apply list_lookup_singleton_Some in Hjf as [Hj0 <-]. right. assert (j = length l) as -> by lia.
      split_and!; [by apply list_lookup_middle|simpl; by apply list_lookup_middle..].
  - unfold NotifyAndReset. rewrite Hbs. simpl. eexists. split; [done|].
    split; cbn [set_flags closed broadcaster flags bf_flag bf_signal]; [apply list_lookup_middle; by rewrite length_insert..|by rewrite length_fmap|].
    intros j f Hj. right. rewrite list_lookup_fmap. destruct (Hf j f Hj) as [(H1 & -> & ->)|(H1 & H2 & H3)]; rewrite H1;
      (split; [done|]); split; erewrite insert_true_app by eassumption; by destruct (decide _).
  - eexists. split; [done|]. split; cbn [set_flags closed broadcaster flags Refresh spec_step]; [done|done|by rewrite !length_insert|].
    intros j f [(<- & <- & Hlt)|[Hij Hj]]%list_lookup_insert_Some.
    + left. split; [|done]. apply list_lookup_insert_eq. by rewrite Hlen.
    + rewrite list_lookup_insert_ne by done. by apply Hf.
Qed.

(** ** Properties *)

(** Every flag is set exactly when it is new or was notified since its last refresh,
    and its channel triggers exactly then; no channel is closed twice. *)
Theorem BroadcastFlag_refines (ops : list flag_op) :
  ∃ s, flag_run ops NewBroadcastFlag = Ret s ∧ let l := foldl (λ l op, spec_step op l) [] ops in
    ∀ i, IsSet i s = l !! i ∧ Signal i s = l !! i.
Proof.
  assert (∀ s l, flags_ok s l → ∃ s', flag_run ops s = Ret s' ∧ flags_ok s' (foldl (λ l op, spec_step op l) l ops)) as Hrun.
  { induction ops as [|op ops IH]; intros s l Hok; simpl; [by exists s|].
    destruct (flag_step_ok op s l Hok) as (s1 & -> & Hok1). exact (IH _ _ Hok1). }
  destruct (Hrun NewBroadcastFlag []) as (s & Hs & [Hbf Hbs Hlen Hf]); [by split|]. exists s. split; [done|]. intros l i. fold l in Hlen, Hf.
  unfold IsSet, Signal. destruct (flags s !! i) as [f|] eqn:Hi; simpl.
  - destruct (Hf i f Hi) as [(-> & -> & ->)|(-> & -> & ->)]; by rewrite ?Hbf, ?Hbs.
  - apply lookup_ge_None in Hi. by rewrite (proj2 (lookup_ge_None _ _)) by lia.
Qed.

End BroadcastFlag.

(** ** StablePool *)

Module StablePool.
Section StablePool.
Context {A : Type}.

(** [None] in the pool is nil. The calls run one after another, under the lock. *)
Record StablePool : Type := mkStablePool { pool : list (option A); cnt : nat; getIndex : nat; putIndex : nat }.

Definition NewStablePool : StablePool := mkStablePool [] 0 0 0.

(** The loops: the first place from i on that is wanted, up to [stopAt], which may be
    -1. [None] is running out of fuel. *)
Fixpoint find_place (fuel : nat) (want : option A → bool) (l : list (option A)) (i : nat) (stopAt : Z) : option (option nat) :=
  match fuel with
  | O => None
  | S fuel =>
      if Z.of_nat i =? stopAt then Some None
      else if default false (want <$> l !! i) then Some (Some i)
      else find_place fuel want l ((i + 1) mod length l)%nat stopAt
  end.

Definition is_free (x : option A) : bool := match x with None => true | Some _ => false end.
Definition is_item (x : option A) : bool := negb (is_free x).

(** An item that is not nil. *)
Definition StablePool_Put (x : A) (p : StablePool) : option StablePool :=
  if (cnt p =? length (pool p))%nat then Some (mkStablePool (pool p ++ [Some x]) (cnt p + 1) (getIndex p) (cnt p + 1))
  else
    let putIndex := (putIndex p mod length (pool p))%nat in
    match find_place (S (length (pool p))) is_free (pool p) putIndex (Z.of_nat putIndex - 1) with
    | None => None
    | Some None => Some (mkStablePool (pool p) (cnt p) (getIndex p) putIndex)
    | Some (Some i) => Some (mkStablePool (<[i := Some x]> (pool p)) (cnt p + 1) (getIndex p) (i + 1))
    end.

(** [None] as an item is what New returns, or nil. *)
Definition StablePool_Get (p : StablePool) : option (StablePool * option A) :=
  if (cnt p =? 0)%nat then Some (p, None)
  else
    let getIndex := (getIndex p mod length (pool p))%nat in
    match find_place (S (length (pool p))) is_item (pool p) getIndex (Z.of_nat getIndex - 1) with
    | None => None
    | Some None => Some (mkStablePool (pool p) (cnt p) getIndex (putIndex p), None)
    | Some (Some i) => Some (mkStablePool (<[i := None]> (pool p)) (cnt p - 1) (i + 1) (putIndex p), mjoin (pool p !! i))
    end.

Definition StablePool_Size (p : StablePool) : nat := cnt p.
Definition StablePool_Max (p : StablePool) : nat := length (pool p).

(** *** Lemmas *)

Definition held (l : list (option A)) : nat := length (filter (λ x, is_item x = true) l).
Definition pool_ok (p : StablePool) : Prop := cnt p = held (pool p).

Lemma held_cons (x : option A) (l : list (option A)) : held (x :: l) = (Nat.b2n (is_item x) + held l)%nat.
Proof. unfold held. rewrite filter_cons. by destruct x. Qed.

Lemma held_insert (l : list (option A)) (i : nat) (x y : option A) : l !! i = Some x →
  (held (<[i := y]> l) + Nat.b2n (is_item x) = held l + Nat.b2n (is_item y))%nat.
Proof.
  revert i. induction l as [|z l IH]; intros [|i] Hi; [done..| |].
  - injection Hi as ->. change (<[O := y]> (x :: l)) with (y :: l). rewrite !held_cons. lia.
  - change (<[S i := y]> (z :: l)) with (z :: <[i := y]> l). rewrite !held_cons. specialize (IH i Hi). lia.
Qed.

Lemma held_app (l k : list (option A)) : held (l ++ k) = (held l + held k)%nat.
Proof. unfold held. by rewrite filter_app, length_app. Qed.

Lemma held_item (l : list (option A)) : (0 < held l)%nat → ∃ i x, l !! i = Some (Some x).
Proof.
  unfold held. intros H. destruct (filter (λ x, is_item x = true) l) as [|x k] eqn:Hk; [simpl in H; lia|].
  assert (x ∈ filter (λ x, is_item x = true) l) as [Hx [i Hi]%list_elem_of_lookup]%list_elem_of_filter by (rewrite Hk; by left).
  destruct x; [by eauto|done].
Qed.

Lemma held_free (l : list (option A)) : (held l < length l)%nat → ∃ i, l !! i = Some None.
Proof.
  induction l as [|[x|] l IH]; [by intros ?%Nat.nlt_0_r| |by exists O]. rewrite held_cons. cbn. intros H.
  destruct IH as [i Hi]; [lia|]. by exists (S i).
Qed.

Lemma held_le (l : list (option A)) : (held l ≤ length l)%nat.
Proof. induction l as [|x l IH]; [done|]. rewrite held_cons. cbn. destruct x; cbn; lia. Qed.

(** How many places further j is than i, going around. *)
Definition ahead (n i j : nat) : nat := if (i <=? j)%nat then (j - i)%nat else (j + n - i)%nat.

Lemma next_place (n i : nat) : (i < n → (i + 1) mod n = if (i + 1 =? n) then 0 else i + 1)%nat.
Proof.
  intros Hi. destruct (i + 1 =? n)%nat eqn:H; [apply Nat.eqb_eq in H as <-; apply Nat.Div0.mod_same|apply Nat.eqb_neq in H; apply Nat.mod_small; lia].
Qed.

Section Find.
Context (want : option A → bool) (l : list (option A)) (stopAt : Z).

Lemma find_place_ends (j : nat) (x : option A) : l !! j = Some x → want x = true → ∀ (fuel i : nat), (i < length l)%nat → (ahead (length l) i j < fuel)%nat →
  is_Some (find_place fuel want l i stopAt).
Proof.
  intros Hj Hx. pose proof (lookup_lt_Some _ _ _ Hj) as Hlt. induction fuel as [|fuel IH]; intros i Hi Hfuel; [lia|]. cbn [find_place].
  destruct (Z.of_nat i =? stopAt); [done|]. destruct (decide (i = j)) as [->|Hij]; [rewrite Hj; simpl; rewrite Hx; done|].
  destruct (default _ _); [done|]. rewrite next_place by done. apply IH.
  - destruct (_ =? _)%nat eqn:H; [lia|apply Nat.eqb_neq in H; lia].
  - unfold ahead in *. destruct (i + 1 =? length l)%nat eqn:H; [apply Nat.eqb_eq in H|apply Nat.eqb_neq in H];
      repeat match goal with |- context [(?a <=? ?b)%nat] => destruct (Nat.leb_spec a b) | _ : context [(?a <=? ?b)%nat] |- _ => destruct (Nat.leb_spec a b) end; lia.
Qed.

Lemma find_place_sound (fuel : nat) : ∀ (i k : nat), find_place fuel want l i stopAt = Some (Some k) → ∃ x, l !! k = Some x ∧ want x = true.
Proof.
  induction fuel as [|fuel IH]; intros i k; [done|]. cbn [find_place]. destruct (_ =? _); [done|].
  destruct (l !! i) as [x|] eqn:Hi; simpl; [|apply IH]. destruct (want x) eqn:Hx; [|apply IH]. intros [= <-]. by exists x.
Qed.

Lemma find_place_misses (fuel : nat) : ∀ (i : nat), find_place fuel want l i stopAt = Some None → (i < length l)%nat →
  0 ≤ stopAt ∧ ∀ j x, l !! j = Some x → want x = true → (ahead (length l) i (Z.to_nat stopAt) ≤ ahead (length l) i j)%nat.
Proof.
  induction fuel as [|fuel IH]; intros i; [done|]. cbn [find_place]. destruct (Z.of_nat i =? stopAt) eqn:Hstop.
  - intros _ Hi. apply Z.eqb_eq in Hstop as <-. split; [lia|]. intros j x _ _. rewrite Nat2Z.id. unfold ahead at 1. rewrite Nat.leb_refl. lia.
  - destruct (default _ _) eqn:Hw; [done|]. intros Hf Hi. apply Z.eqb_neq in Hstop. destruct (IH _ Hf) as [H0 IHj].
    { rewrite next_place by done. destruct (_ =? _)%nat eqn:H; [lia|apply Nat.eqb_neq in H; lia]. }
    split; [done|]. intros j x Hj Hx. pose proof (lookup_lt_Some _ _ _ Hj) as Hlt. specialize (IHj j x Hj Hx). rewrite next_place in IHj by done.
    assert (i ≠ j) as Hij by (intros ->; rewrite Hj in Hw; simpl in Hw; congruence).
    unfold ahead in *. destruct (i + 1 =? length l)%nat eqn:H; [apply Nat.eqb_eq in H|apply Nat.eqb_neq in H];
      repeat match goal with |- context [(?a <=? ?b)%nat] => destruct (Nat.leb_spec a b) | _ : context [(?a <=? ?b)%nat] |- _ => destruct (Nat.leb_spec a b) end; lia.
Qed.

End Find.

(** Starting one place behind the stop: only what is at the stop is missed. *)
Lemma find_place_spec (want : option A → bool) (l : list (option A)) (i j : nat) (x : option A) :
  (i < length l)%nat → l !! j = Some x → want x = true →
  (∃ k y, find_place (S (length l)) want l i (Z.of_nat i - 1) = Some (Some k) ∧ l !! k = Some y ∧ want y = true) ∨
  find_place (S (length l)) want l i (Z.of_nat i - 1) = Some None ∧ (0 < i)%nat ∧ ∀ k y, l !! k = Some y → want y = true → k = (i - 1)%nat.
Proof.
  intros Hi Hj Hx. destruct (find_place_ends want l (Z.of_nat i - 1) j x Hj Hx (S (length l)) i Hi) as [[k|] Hr].
  - unfold ahead. pose proof (lookup_lt_Some _ _ _ Hj). destruct (i <=? j)%nat eqn:?; [lia|apply Nat.leb_gt in Heqb; lia].
  - left. destruct (find_place_sound _ _ _ _ _ _ Hr) as (y & Hy & Hw). eauto.
  - right. split; [done|]. destruct (find_place_misses _ _ _ _ _ Hr Hi) as [H0 Hall]. split; [lia|]. intros k y Hk Hy.
    specialize (Hall k y Hk Hy). pose proof (lookup_lt_Some _ _ _ Hk) as Hlt. replace (Z.to_nat (Z.of_nat i - 1)) with (i - 1)%nat in Hall by lia.
    unfold ahead in Hall. destruct (Nat.leb_spec i (i - 1)), (Nat.leb_spec i k); lia.
Qed.

(** ** Properties *)

(** Both loops end. Get takes one of the items that are in the pool; only when the
    pool is empty, or when its one item is just before the place where Get starts, it
    leaves the pool as it is and returns a new one. Put adds the item, unless the one
    free place is just before the place where it starts: then the item is dropped. *)
Theorem StablePool_exact (p : StablePool) : pool_ok p →
  (∃ p' r, StablePool_Get p = Some (p', r) ∧ pool_ok p' ∧
    ((∃ i x, pool p !! i = Some (Some x) ∧ pool p' = <[i := None]> (pool p) ∧ r = Some x) ∨
     pool p' = pool p ∧ r = None ∧ (cnt p = 0%nat ∨ (0 < getIndex p')%nat ∧ ∀ k y, pool p !! k = Some (Some y) → k = (getIndex p' - 1)%nat))) ∧
  (∀ x, ∃ p', StablePool_Put x p = Some p' ∧ pool_ok p' ∧
    (pool p' = pool p ++ [Some x] ∨ (∃ i, pool p !! i = Some None ∧ pool p' = <[i := Some x]> (pool p)) ∨
     pool p' = pool p ∧ (0 < putIndex p')%nat ∧ ∀ k, pool p !! k = Some None → k = (putIndex p' - 1)%nat)).
Proof.
  unfold pool_ok. intros Hok. split.
  - unfold StablePool_Get. destruct (cnt p =? 0)%nat eqn:H0; [apply Nat.eqb_eq in H0; eexists _, _; split; [done|]; split; [done|]; right; split; [done|]; split; [done|]; by left|].
    apply Nat.eqb_neq in H0. destruct (held_item (pool p)) as (j & x & Hj); [lia|]. pose proof (lookup_lt_Some _ _ _ Hj).
    destruct (find_place_spec is_item (pool p) (getIndex p mod length (pool p)) j _ ltac:(apply Nat.mod_upper_bound; lia) Hj eq_refl)
      as [(k & [y|] & Hf & Hk & Hy)|(Hf & Hpos & Hall)]; [|done|]; rewrite Hf; eexists _, _; (split; [done|]); cbn [cnt pool StablePool.getIndex].
    + pose proof (held_insert (pool p) k _ None Hk) as Hins. simpl in Hins. split; [lia|]. left. exists k, y. by rewrite Hk.
    + split; [done|]. right. split; [done|]. split; [done|]. right. split; [done|]. intros i y Hi. by apply (Hall i _ Hi).
  - intros x. unfold StablePool_Put. destruct (cnt p =? length (pool p))%nat eqn:H0.
    { eexists. split; [done|]. cbn [cnt pool]. split; [rewrite held_app, Hok; unfold held at 3; simpl; lia|by left]. }
    apply Nat.eqb_neq in H0. pose proof (held_le (pool p)). destruct (held_free (pool p)) as [j Hj]; [lia|]. pose proof (lookup_lt_Some _ _ _ Hj).
    destruct (find_place_spec is_free (pool p) (putIndex p mod length (pool p)) j _ ltac:(apply Nat.mod_upper_bound; lia) Hj eq_refl)
      as [(k & [y|] & Hf & Hk & Hy)|(Hf & Hpos & Hall)]; [done| |]; rewrite Hf; eexists; (split; [done|]); cbn [cnt pool StablePool.putIndex].
    + pose proof (held_insert (pool p) k _ (Some x) Hk) as Hins. simpl in Hins. split; [lia|]. right. left. eauto.
    + split; [done|]. right. right. split; [done|]. split; [done|]. intros i Hi. by apply (Hall i _ Hi).
Qed.

End StablePool.

(** *** Witnesses and what modelling showed *)

Inductive pool_op : Type := OpPut (x : nat) | OpGet.

(** What the Gets have returned. *)
Fixpoint pool_run (ops : list pool_op) (p : StablePool (A := nat)) : option (StablePool * list (option nat)) :=
  match ops with
  | [] => Some (p, [])
  | OpPut x :: ops => StablePool_Put x p ≫= pool_run ops
  | OpGet :: ops => x ← StablePool_Get p; y ← pool_run ops x.1; Some (y.1, x.2 :: y.2)
  end.

Definition example_pool : StablePool := mkStablePool [Some 4%nat; None; Some 5%nat] 2 2 2.

Lemma StablePool_exact_witness :
  (∃ p' r, StablePool_Get example_pool = Some (p', r) ∧ pool_ok p' ∧
    ((∃ i x, pool example_pool !! i = Some (Some x) ∧ pool p' = <[i := None]> (pool example_pool) ∧ r = Some x) ∨
     pool p' = pool example_pool ∧ r = None ∧ (cnt example_pool = 0%nat ∨ (0 < getIndex p')%nat ∧ ∀ k y, pool example_pool !! k = Some (Some y) → k = (getIndex p' - 1)%nat))) ∧
  (∀ x, ∃ p', StablePool_Put x example_pool = Some p' ∧ pool_ok p' ∧
    (pool p' = pool example_pool ++ [Some x] ∨ (∃ i, pool example_pool !! i = Some None ∧ pool p' = <[i := Some x]> (pool example_pool)) ∨
     pool p' = pool example_pool ∧ (0 < putIndex p')%nat ∧ ∀ k, pool example_pool !! k = Some None → k = (putIndex p' - 1)%nat)).
Proof. refine (StablePool_exact example_pool _). reflexivity. Defined.

(** Get returns a new item although one is in the pool. *)
Lemma Get_misses_item :
  (λ x, (pool x.1, x.2)) <$> pool_run [OpPut 1; OpGet; OpPut 2; OpPut 3; OpGet; OpGet; OpPut 4; OpGet]%nat NewStablePool =
    Some ([Some 4; None], [Some 1; Some 3; Some 2; None])%nat.
Proof. vm_compute. reflexivity. Qed.

(** Items are not returned in the order in which they were put. *)
Lemma pool_not_fifo :
  (λ x, x.2) <$> pool_run [OpPut 1; OpGet; OpPut 2; OpPut 3; OpGet; OpGet]%nat NewStablePool = Some [Some 1; Some 3; Some 2]%nat.
Proof. vm_compute. reflexivity. Qed.

(** Put drops an item, the tenth one here, although a place is free. *)
Lemma Put_drops_item :
  (λ x, pool x.1) <$> pool_run [OpPut 1; OpPut 2; OpGet; OpPut 3; OpPut 4; OpGet; OpGet; OpGet; OpPut 5; OpPut 6; OpGet; OpGet; OpPut 7; OpPut 8; OpPut 9; OpGet; OpPut 10]%nat NewStablePool =
    Some [Some 8; None; Some 7]%nat.
Proof. vm_compute. reflexivity. Qed.

End StablePool.
