(* ===== verification/ConfigTree.v ===== *)
(** * config/persistence.go: hierarchical and flattened configurations

    A configuration file is a hierarchy of maps, the registry works with a flat
    map from paths to values. [Flatten], [Expand], the insertion of a value and
    the removal of unknown options are translated on the trees of [GoAny]; the
    entries of a map are in the order in which a range visits them, so what is
    proved for all trees holds for all iteration orders. *)

From Stdlib Require Import ZArith Lia Ascii String.
From stdpp Require Import gmap strings list.
From S2P Require Import Prelude GoStrings GoPath GoAny.
Local Open Scope string_scope.

Abbreviation go_map := (list (string * any)).

(** ** Maps as lists of entries *)

Fixpoint map_set {A : Type} (m : list (string * A)) (key : string) (value : A) : list (string * A) :=
  match m with
  | [] => [(key, value)]
  | (k, v) :: m' => if String.eqb k key then (k, value) :: m' else (k, v) :: map_set m' key value
  end.

(** ** Flatten *)

Fixpoint flattenMap (subMap : any) (subKey : string) (rootMap : gmap string any) : gmap string any :=
  match subMap with
  | AMap entries =>
      (fix go (entries : go_map) (rootMap : gmap string any) :=
         match entries with
         | [] => rootMap
         | (key, entry) :: entries' =>
             let subbedKey := path_Join subKey key in
             go entries'
               (match entry with
                | AMap _ => flattenMap entry subbedKey rootMap
                | _ => <[subbedKey := entry]> rootMap
                end)
         end) entries rootMap
  | _ => rootMap
  end.

Definition Flatten (config : go_map) : gmap string any := flattenMap (AMap config) "" ∅.

(** ** Expand *)

(** The map with the value; maps on the way that are missing, or values in
    their place, are replaced by new maps. *)
Fixpoint put_parts (subMap : go_map) (parts : list string) (value : any) : go_map :=
  match parts with
  | [] => subMap
  | [last] => map_set subMap last value
  | part :: parts' =>
      let nextSubMap := match map_get subMap part with Some (AMap m) => m | _ => [] end in
      map_set subMap part (AMap (put_parts nextSubMap parts' value))
  end.

Definition PutValueIntoHierarchicalConfig (config : go_map) (key : string) (value : any) : go_map :=
  put_parts config (Split key "/") value.

Definition Expand (flattenedConfig : list (string * any)) : go_map :=
  fold_left (λ config '(key, entry), PutValueIntoHierarchicalConfig config key entry) flattenedConfig [].

(** ** Removal of unknown options *)

Section Clean.
Context (registered : string → bool).

Definition CleanFlattenedConfig (flattenedConfig : gmap string any) : gmap string any :=
  filter (λ '(key, _), registered key = true) flattenedConfig.

(** The map without unknown options, and whether no valid one was found. *)
Fixpoint cleanSubMap (subMap : any) (subKey : string) : go_map * bool :=
  match subMap with
  | AMap entries =>
      let '(kept, foundValid) :=
        (fix go (entries : go_map) : go_map * Z :=
           match entries with
           | [] => ([], 0%Z)
           | (key, value) :: entries' =>
               let '(kept, foundValid) := go entries' in
               match value with
               | AMap _ =>
                   let '(sub, isEmpty) := cleanSubMap value (path_Join subKey key) in
                   if isEmpty then (kept, foundValid) else ((key, AMap sub) :: kept, (foundValid + 1)%Z)
               | _ =>
                   if Contains key "/" then (kept, foundValid)
                   else if registered (path_Join subKey key) then ((key, value) :: kept, (foundValid + 1)%Z)
                   else (kept, foundValid)
               end
           end) entries in
      (kept, (foundValid =? 0)%Z)
  | _ => ([], true)
  end.

Definition CleanHierarchicalConfig (config : go_map) : go_map := (cleanSubMap (AMap config) "").1.

End Clean.

(** ** What a tree holds *)

Fixpoint lookup_path (v : any) (path : list string) : option any :=
  match path with
  | [] => Some v
  | p :: path' => match v with AMap m => v' ← map_get m p; lookup_path v' path' | _ => None end
  end.

Definition is_map (v : any) : bool := match v with AMap _ => true | _ => false end.

(** The values of a tree: what is reached by a path and is not a map. *)
Definition has_leaf (config : go_map) (path : list string) (v : any) : Prop :=
  path ≠ [] ∧ lookup_path (AMap config) path = Some v ∧ is_map v = false.

(** Every map has each key once, and the keys are single path elements. *)
Fixpoint tree_ok (v : any) : Prop :=
  match v with
  | AMap m =>
      NoDup m.*1 ∧ Forall plain m.*1 ∧
      (fix go (m : go_map) : Prop := match m with [] => True | (_, v) :: m' => tree_ok v ∧ go m' end) m
  | _ => True
  end.

Definition plain_path (key : string) : Prop := Forall plain (Split key "/").

(** No key is the directory of another one. *)
Definition path_prefix_free (keys : list string) : Prop :=
  ∀ k k' : string, k ∈ keys → k' ∈ keys → Split k "/" `prefix_of` Split k' "/" → k = k'.

Definition flat_ok (m : gmap string any) : Prop :=
  (∀ k v, m !! k = Some v → plain_path k ∧ is_map v = false) ∧ path_prefix_free (map_to_list m).*1.

(** ** Lemmas *)

Lemma map_get_set {A : Type} (m : list (string * A)) (k k' : string) (v : A) :
  map_get (map_set m k v) k' = if String.eqb k k' then Some v else map_get m k'.
Proof.
  induction m as [|[x w] m IH]; simpl; [by destruct (String.eqb_spec k k')|].
  destruct (String.eqb_spec x k) as [->|Hx]; simpl.
  - by destruct (String.eqb k k').
  - destruct (String.eqb_spec x k') as [->|]; [|done]. by destruct (String.eqb_spec k k').
Qed.

Lemma map_set_keys {A : Type} (m : list (string * A)) (k : string) (v : A) :
  (map_set m k v).*1 = if decide (k ∈ m.*1) then m.*1 else (m.*1 ++ [k])%list.
Proof.
  induction m as [|[x w] m IH]; [done|]. cbn [map_set]. rewrite fmap_cons. cbn [fst].
  destruct (String.eqb_spec x k) as [->|Hx]; rewrite fmap_cons; cbn [fst].
  - rewrite decide_True by by left. done.
  - rewrite IH. destruct (decide (k ∈ m.*1)) as [Hin|Hin].
    + rewrite decide_True by by right. done.
    + rewrite decide_False; [done|]. rewrite elem_of_cons. naive_solver.
Qed.

Lemma map_get_elem {A : Type} (m : list (string * A)) (k : string) (v : A) :
  map_get m k = Some v → (k, v) ∈ m.
Proof.
  induction m as [|[x w] m IH]; simpl; [done|]. destruct (String.eqb_spec x k) as [->|].
  - intros [= ->]. by left.
  - intros H. right. by apply IH.
Qed.

Lemma map_get_None {A : Type} (m : list (string * A)) (k : string) : k ∉ m.*1 → map_get m k = None.
Proof.
  induction m as [|[x w] m IH]; simpl; [done|]. rewrite not_elem_of_cons. intros [Hx Hm].
  destruct (String.eqb_spec x k) as [->|]; [done|]. by apply IH.
Qed.

Lemma map_get_NoDup {A : Type} (m : list (string * A)) (k : string) (v : A) :
  NoDup m.*1 → (k, v) ∈ m → map_get m k = Some v.
Proof.
  induction m as [|[x w] m IH]; [by intros _ ?%not_elem_of_nil|].
  intros [Hx Hnd]%NoDup_cons [[= -> ->]|Hin]%elem_of_cons; simpl.
  - by rewrite String.eqb_refl.
  - destruct (String.eqb_spec x k) as [->|]; [|by apply IH]. destruct Hx. simpl. apply list_elem_of_fmap. by exists (k, v).
Qed.

Lemma Forall_tree_ok (m : go_map) :
  (fix go (m : go_map) : Prop := match m with [] => True | (_, v) :: m' => tree_ok v ∧ go m' end) m ↔
  Forall (λ e, tree_ok e.2) m.
Proof. induction m as [|[k v] m IH]; [done|]. by rewrite Forall_cons, IH. Qed.

Lemma tree_ok_map (m : go_map) :
  tree_ok (AMap m) ↔ NoDup m.*1 ∧ Forall plain m.*1 ∧ Forall (λ e, tree_ok e.2) m.
Proof. cbn [tree_ok]. by rewrite Forall_tree_ok. Qed.

Lemma Join_plain_nonempty (l : list string) : Forall plain l → l ≠ [] → Join l "/" ≠ "".
Proof.
  intros Hl Hne H. destruct l as [|e l]; [done|]. apply Forall_cons in Hl as [[He _] _].
  destruct e; [done|]. by destruct l.
Qed.

Lemma Join_plain_relative (l : list string) : Forall plain l → HasPrefix (Join l "/") "/" = false.
Proof.
  intros Hl. destruct l as [|e l]; [done|]. apply Forall_cons in Hl as [(He & _ & _ & Hs) _].
  destruct e as [|a e]; [done|]. apply lacks_cons in Hs as [Ha _].
  assert (∃ t, Join (String a e :: l) "/" = String a t) as [t ->] by (destruct l; simpl; eauto).
  apply not_true_iff_false. intros [u [= Hu _]]%HasPrefix_spec. by apply Ha.
Qed.

Lemma path_Clean_relative (l : list string) : Forall plain l → l ≠ [] → path_Clean (Join l "/") = Join l "/".
Proof.
  intros Hl Hne. unfold path_Clean, clean_elements. rewrite Join_plain_relative, Split_Join_plain, fold_clean_plain by done.
  rewrite app_nil_r, rev_involutive. destruct (String.eqb_spec (Join l "/") ""); [|done]. by apply Join_plain_nonempty in Hne.
Qed.

Lemma path_Join_relative (pre : list string) (e : string) :
  Forall plain pre → plain e → path_Join (Join pre "/") e = Join (pre ++ [e])%list "/".
Proof.
  intros Hp He. unfold path_Join.
  destruct (decide (pre = [])) as [->|Hne].
  - simpl. destruct (String.eqb_spec e ""); [by destruct He|]. apply (path_Clean_relative [e]); [|done]. by apply Forall_singleton.
  - destruct (String.eqb_spec (Join pre "/") "") as [H|_]; [by apply Join_plain_nonempty in H|].
    rewrite <- (path_Clean_relative (pre ++ [e])%list); [|by apply Forall_app; split; [|apply Forall_singleton]|by destruct pre].
    f_equal. rewrite Join_snoc. by destruct (decide (pre = [])).
Qed.

Lemma Join_plain_inj (l l' : list string) :
  Forall plain l → Forall plain l' → l ≠ [] → l' ≠ [] → Join l "/" = Join l' "/" → l = l'.
Proof. intros Hl Hl' Hne Hne' H. by rewrite <- (Split_Join_plain l), H, Split_Join_plain. Qed.

(** *** Flatten *)

(** The entries of a map below the path [pre]. *)
Definition flattens (pre : list string) (v : any) : Prop :=
  ∀ root,
  (∀ path w, path ≠ [] → lookup_path v path = Some w → is_map w = false →
     flattenMap v (Join pre "/") root !! Join (pre ++ path)%list "/" = Some w) ∧
  (∀ k, (∀ path w, path ≠ [] → lookup_path v path = Some w → is_map w = false → k ≠ Join (pre ++ path)%list "/") →
     flattenMap v (Join pre "/") root !! k = root !! k).

Lemma lookup_path_plain (v w : any) (path : list string) :
  tree_ok v → lookup_path v path = Some w → Forall plain path.
Proof.
  revert v. induction path as [|p path IH]; intros v Hv H; [done|]. simpl in H.
  destruct v as [| | | | | | | |m]; try done. apply tree_ok_map in Hv as (_ & Hp & Hm).
  destruct (map_get m p) as [v'|] eqn:Hg; [|done]. apply map_get_elem in Hg.
  apply Forall_cons. split.
  - eapply Forall_forall in Hp; [exact Hp|]. apply list_elem_of_fmap. by exists (p, v').
  - eapply IH, H. by apply (proj1 (Forall_forall _ _) Hm (p, v')) in Hg.
Qed.

Lemma flattenMap_spec (v : any) : ∀ pre, tree_ok v → Forall plain pre → flattens pre v.
Proof.
  induction v as [| | | | | | | |m IH] using any_nested_ind; intros pre Hok Hpre root;
    [split; [intros [|p path] w Hne Hl Hw; [done|done]|done]..|].
  pose proof Hok as Hok'. apply tree_ok_map in Hok' as (Hnd & Hkeys & Hsub). cbn [flattenMap].
  clear Hok. revert root. induction m as [|[key entry] m IHm]; intros root.
  { split; [intros [|p path] w Hne Hl Hw; done|done]. }
  apply Forall_cons in IH as [IHe IH]. apply Forall_cons in Hkeys as [Hkey Hkeys].
  apply Forall_cons in Hsub as [Hent Hsub]. simpl in Hnd. apply NoDup_cons in Hnd as [Hni Hnd].
  simpl in IHe, Hent, Hkey. specialize (IHm IH Hnd Hkeys Hsub).
  assert (Forall plain (pre ++ [key])%list) as Hpk by (apply Forall_app; split; [done|by apply Forall_singleton]).
  set (root' := match entry with
                | AMap _ => flattenMap entry (path_Join (Join pre "/") key) root
                | _ => <[path_Join (Join pre "/") key := entry]> root
                end).
  assert ((∀ path w, lookup_path entry path = Some w → is_map w = false →
             root' !! Join (pre ++ key :: path)%list "/" = Some w) ∧
          (∀ k, (∀ path w, lookup_path entry path = Some w → is_map w = false → k ≠ Join (pre ++ key :: path)%list "/") →
             root' !! k = root !! k)) as [Hin Hout].
  { unfold root'. rewrite path_Join_relative by done. destruct (is_map entry) eqn:Hm.
    - destruct entry as [| | | | | | | |m']; try done. destruct (IHe (pre ++ [key])%list Hent Hpk root) as [H1 H2]. split.
      + intros path w H Hw. specialize (H1 path w). rewrite <- app_assoc in H1. apply H1; [|done|done].
        intros ->. simpl in H. by simplify_eq.
      + intros k Hk. apply H2. intros path w Hne H Hw. rewrite <- app_assoc. by eapply Hk.
    - assert (match entry with
              | AMap _ => flattenMap entry (Join (pre ++ [key]) "/") root
              | _ => <[Join (pre ++ [key]) "/":=entry]> root
              end = <[Join (pre ++ [key]) "/":=entry]> root) as -> by (destruct entry; done). split.
      + intros [|p path] w H Hw; [simpl in H; simplify_eq; apply lookup_insert_eq|]. by destruct entry.
      + intros k Hk. apply lookup_insert_ne. intros <-. by apply (Hk [] entry). }
  destruct (IHm root') as [H1 H2]. split.
  - intros [|p path] w Hne H Hw; [done|]. simpl in H. destruct (String.eqb_spec key p) as [->|Hp].
    + rewrite H2; [by apply Hin|]. intros [|q path'] w' Hne' H' Hw' Heq; [done|].
      assert (plain q ∧ Forall plain path') as [Hq Hpath'].
      { apply Forall_cons. eapply lookup_path_plain, H'. apply tree_ok_map. done. }
      apply Join_plain_inj in Heq.
      * apply app_inv_head in Heq. simplify_eq. simpl in H'. destruct (map_get m q) as [e|] eqn:Hg; [|done].
        apply Hni, list_elem_of_fmap. exists (q, e). split; [done|by apply map_get_elem].
      * apply Forall_app. split; [done|]. apply Forall_cons. split; [done|]. by eapply lookup_path_plain.
      * apply Forall_app. split; [done|]. by apply Forall_cons.
      * by destruct pre.
      * by destruct pre.
    + by apply (H1 (p :: path)).
  - intros k Hk. rewrite H2.
    + apply Hout. intros path w H Hw. apply (Hk (key :: path) w); [done| |done]. simpl. by rewrite String.eqb_refl.
    + intros [|q path] w Hne H Hw; [done|]. apply (Hk (q :: path) w); [done| |done]. simpl in H |- *.
      destruct (String.eqb_spec key q) as [->|]; [|done]. destruct (map_get m q) as [e|] eqn:Hg; [|done].
      destruct Hni. apply list_elem_of_fmap. exists (q, e). split; [done|by apply map_get_elem].
Qed.

Lemma Flatten_spec (c : go_map) (k : string) (v : any) :
  tree_ok (AMap c) → Flatten c !! k = Some v ↔ ∃ path, has_leaf c path v ∧ k = Join path "/".
Proof.
  intros Hc. destruct (flattenMap_spec (AMap c) [] Hc (Forall_nil_2 _) ∅) as [H1 H2]. unfold Flatten. split.
  - intros H. destruct (decide (Exists (λ path, k = Join path "/" ∧ lookup_path (AMap c) path ≠ None ∧
      default true (is_map <$> lookup_path (AMap c) path) = false) [Split k "/"])) as [Hex|Hno].
    + apply Exists_cons in Hex as [(Hk & Hl & Hm)|Hex]; [|by apply Exists_nil in Hex].
      destruct (lookup_path (AMap c) (Split k "/")) as [w|] eqn:Hw; [|done]. simpl in Hm.
      exists (Split k "/"). assert (Split k "/" ≠ []) as Hne by (intros E; rewrite E in Hw; simpl in Hw; by simplify_eq).
      specialize (H1 _ w Hne Hw Hm). cbn [app Join] in H1. rewrite <- Hk, H in H1. simplify_eq. done.
    + exfalso. change "" with (Join [] "/") in H. rewrite H2 in H; [done|].
      intros path w Hne Hl Hw ->. apply Hno, Exists_cons. left. cbn [app]. rewrite Split_Join_plain; [|by eapply lookup_path_plain|done].
      split_and!; [done|by rewrite Hl|by rewrite Hl].
  - intros (path & (Hne & Hl & Hm) & ->). by apply (H1 path v).
Qed.

(** *** Expand *)

Lemma lookup_path_map (c : go_map) (p : string) (path : list string) :
  lookup_path (AMap c) (p :: path) = v ← map_get c p; lookup_path v path.
Proof. done. Qed.

(** The map a path continues in: the one that is there, or a new one. *)
Definition next_map (c : go_map) (p : string) : go_map :=
  match map_get c p with Some (AMap m) => m | _ => [] end.

Lemma put_parts_cons (c : go_map) (p q : string) (parts : list string) (v : any) :
  put_parts c (p :: q :: parts) v = map_set c p (AMap (put_parts (next_map c p) (q :: parts) v)).
Proof. done. Qed.

Lemma put_parts_here (parts : list string) (c : go_map) (v : any) :
  parts ≠ [] → lookup_path (AMap (put_parts c parts v)) parts = Some v.
Proof.
  revert c. induction parts as [|p parts IH]; intros c Hne; [done|]. destruct parts as [|q parts].
  - cbn [put_parts]. rewrite lookup_path_map, map_get_set, String.eqb_refl. done.
  - rewrite put_parts_cons, lookup_path_map, map_get_set, String.eqb_refl. by apply IH.
Qed.

(** Two paths that part somewhere. *)
Definition diverge (p q : list string) : Prop := ¬ p `prefix_of` q ∧ ¬ q `prefix_of` p.

Lemma put_parts_other (parts q : list string) (c : go_map) (v w : any) :
  diverge parts q → lookup_path (AMap c) q = Some w → lookup_path (AMap (put_parts c parts v)) q = Some w.
Proof.
  revert q c. induction parts as [|p parts IH]; intros q c [H1 H2] Hl; [by destruct H1; apply prefix_nil|].
  destruct q as [|x q]; [by destruct H2; apply prefix_nil|].
  destruct (decide (p = x)) as [->|Hpx].
  - destruct parts as [|y parts]; [by destruct H1; apply prefix_cons, prefix_nil|].
    rewrite put_parts_cons, lookup_path_map, map_get_set, String.eqb_refl. simpl.
    rewrite lookup_path_map in Hl. destruct (map_get c x) as [e|] eqn:He; [|done]. simpl in Hl.
    destruct q as [|z q]; [by destruct H2; apply prefix_cons, prefix_nil|].
    unfold next_map. rewrite He. destruct e as [| | | | | | | |m]; try done.
    apply IH; [|done]. split; intros Hp; [apply H1|apply H2]; by apply prefix_cons.
  - assert (map_get (put_parts c (p :: parts) v) x = map_get c x) as Hg.
    { apply String.eqb_neq in Hpx. destruct parts; [cbn [put_parts]|rewrite put_parts_cons]; by rewrite map_get_set, Hpx. }
    by rewrite lookup_path_map, Hg.
Qed.

Lemma lookup_path_leaf (q : list string) (v w : any) :
  is_map v = false → lookup_path v q = Some w → q = [] ∧ w = v.
Proof. destruct q as [|x q]; simpl; [naive_solver|]. by destruct v. Qed.

Lemma put_parts_inv (parts q : list string) (c : go_map) (v w : any) :
  parts ≠ [] → q ≠ [] → is_map v = false → is_map w = false →
  lookup_path (AMap (put_parts c parts v)) q = Some w → (q = parts ∧ w = v) ∨ lookup_path (AMap c) q = Some w.
Proof.
  intros Hne Hq Hv Hw. revert q c Hq. induction parts as [|p parts IH]; intros q c Hq H; [done|]. clear Hne.
  destruct q as [|x q]; [done|]. destruct parts as [|y parts].
  - cbn [put_parts] in H. rewrite lookup_path_map, map_get_set in H. destruct (String.eqb_spec p x) as [->|Hx].
    + left. simpl in H. by apply lookup_path_leaf in H as [-> ->].
    + by right.
  - rewrite put_parts_cons, lookup_path_map, map_get_set in H. destruct (String.eqb_spec p x) as [->|Hx]; [|by right].
    simpl in H. destruct q as [|z q]; [simpl in H; by simplify_eq|].
    apply IH in H as [[-> ->]|H]; [by left| |done..]. right. unfold next_map in H. rewrite lookup_path_map.
    destruct (map_get c x) as [e|]; [|done]. by destruct e.
Qed.

Lemma tree_ok_nil : tree_ok (AMap []).
Proof. apply tree_ok_map. split_and!; [apply NoDup_nil_2|apply Forall_nil_2..]. Qed.

Lemma put_parts_ok (parts : list string) (c : go_map) (v : any) :
  Forall plain parts → tree_ok (AMap c) → is_map v = false → tree_ok (AMap (put_parts c parts v)).
Proof.
  intros Hp Hc Hv. revert c Hc. induction Hp as [|p parts Hp Hparts IH]; intros c Hc; [done|].
  assert (∀ e, tree_ok e → tree_ok (AMap (map_set c p e))) as Hset.
  { intros e He. apply tree_ok_map in Hc as (Hnd & Hk & Hs). apply tree_ok_map. rewrite map_set_keys. split_and!.
    - destruct (decide (p ∈ c.*1)) as [|Hni]; [done|]. apply NoDup_app. split_and!; [done| |apply NoDup_singleton].
      intros x Hx. rewrite list_elem_of_singleton. by intros ->.
    - destruct (decide (p ∈ c.*1)); [done|]. apply Forall_app. split; [done|]. by apply Forall_singleton.
    - clear Hnd Hk. induction Hs as [|[k w] c Hw Hs IHs]; simpl; [by apply Forall_singleton|].
      destruct (String.eqb k p); by apply Forall_cons. }
  destruct parts as [|q parts].
  - apply Hset. by destruct v.
  - rewrite put_parts_cons. apply Hset, IH. unfold next_map. destruct (map_get c p) as [e|] eqn:He; [|apply tree_ok_nil].
    destruct e as [| | | | | | | |m]; try apply tree_ok_nil. apply map_get_elem in He. apply tree_ok_map in Hc as (_ & _ & Hs).
    by apply (proj1 (Forall_forall _ _) Hs (p, AMap m)) in He.
Qed.

Lemma prefix_free_diverge (keys : list string) (k k' : string) :
  path_prefix_free keys → k ∈ keys → k' ∈ keys → k ≠ k' → diverge (Split k "/") (Split k' "/").
Proof. intros Hf Hk Hk' Hne. split; intros Hp; apply Hne; [|symmetry]; by apply Hf. Qed.

Lemma Split_inj (k k' : string) (sep : ascii) : Split k sep = Split k' sep → k = k'.
Proof. intros H. by rewrite <- (Join_Split k sep), <- (Join_Split k' sep), H. Qed.

Lemma Expand_spec (entries : list (string * any)) :
  NoDup entries.*1 → path_prefix_free entries.*1 → Forall (λ e, plain_path e.1 ∧ is_map e.2 = false) entries →
  tree_ok (AMap (Expand entries)) ∧
  ∀ path v, has_leaf (Expand entries) path v ↔ ∃ k, (k, v) ∈ entries ∧ path = Split k "/".
Proof.
  intros Hnd Hfree Hok.
  enough (∀ (l : list (string * any)) c (dn : list (string * any)),
    NoDup (dn ++ l)%list.*1 → path_prefix_free (dn ++ l)%list.*1 → Forall (λ e, plain_path e.1 ∧ is_map e.2 = false) (dn ++ l)%list →
    tree_ok (AMap c) → (∀ path v, has_leaf c path v ↔ ∃ k, (k, v) ∈ dn ∧ path = Split k "/") →
    let c' := fold_left (λ config '(key, entry), PutValueIntoHierarchicalConfig config key entry) l c in
    tree_ok (AMap c') ∧ ∀ path v, has_leaf c' path v ↔ ∃ k, (k, v) ∈ (dn ++ l)%list ∧ path = Split k "/") as H.
  { apply (H entries [] []); [done..| |].
    - apply tree_ok_nil.
    - intros path v. split; [intros (Hne & Hl & _)|intros (k & Hk & _)].
      + destruct path; [done|]. by simpl in Hl.
      + by apply not_elem_of_nil in Hk. }
  clear. intros l. induction l as [|[k v] l IH]; intros c dn Hnd Hfree Hok Hc Hleaf; simpl.
  { rewrite app_nil_r. by split. }
  replace (dn ++ (k, v) :: l)%list with ((dn ++ [(k, v)]) ++ l)%list in * by by rewrite <- app_assoc.
  assert ((k, v) ∈ ((dn ++ [(k, v)]) ++ l)%list) as Hin by set_solver.
  pose proof (proj1 (Forall_forall _ _) Hok _ Hin) as [Hk Hv]. simpl in Hk, Hv.
  pose proof (Split_nonempty k "/") as Hne.
  apply IH; [done..|by apply put_parts_ok|].
  intros path w. split.
  - intros (Hp & Hl & Hw). apply put_parts_inv in Hl as [[-> ->]|Hl]; [exists k; set_solver| |done..].
    destruct (proj1 (Hleaf path w)) as (k' & Hk' & ->); [done|]. exists k'. set_solver.
  - intros (k' & Hk' & ->). apply elem_of_app in Hk' as [Hk'|Hk'].
    + destruct (proj2 (Hleaf (Split k' "/") w)) as (Hp & Hl & Hw); [eauto|]. split_and!; [done| |done].
      apply put_parts_other; [|done]. apply (prefix_free_diverge ((dn ++ [(k, v)]) ++ l)%list.*1).
      * done.
      * apply list_elem_of_fmap. eexists. split; [|exact Hin]. done.
      * apply list_elem_of_fmap. exists (k', w). split; [done|]. set_solver.
      * intros <-. rewrite <- app_assoc, fmap_app in Hnd. apply NoDup_app in Hnd as (_ & Hd & _).
        apply (Hd k); [|by left]. apply list_elem_of_fmap. by exists (k, w).
    + apply list_elem_of_singleton in Hk'. simplify_eq. split_and!; [done|by apply put_parts_here|done].
Qed.

(** *** Cleaning *)

(** What is left of the entries of a map. *)
Definition clean_go (registered : string → bool) (subKey : string) : go_map → go_map * Z :=
  fix go (entries : go_map) : go_map * Z :=
    match entries with
    | [] => ([], 0%Z)
    | (key, value) :: entries' =>
        let '(kept, foundValid) := go entries' in
        match value with
        | AMap _ =>
            let '(sub, isEmpty) := cleanSubMap registered value (path_Join subKey key) in
            if isEmpty then (kept, foundValid) else ((key, AMap sub) :: kept, (foundValid + 1)%Z)
        | _ =>
            if Contains key "/" then (kept, foundValid)
            else if registered (path_Join subKey key) then ((key, value) :: kept, (foundValid + 1)%Z)
            else (kept, foundValid)
        end
    end.

Lemma cleanSubMap_map registered (m : go_map) (subKey : string) :
  cleanSubMap registered (AMap m) subKey =
  let '(kept, foundValid) := clean_go registered subKey m in (kept, (foundValid =? 0)%Z).
Proof. done. Qed.

Lemma clean_go_count registered subKey (m : go_map) :
  (clean_go registered subKey m).2 = Z.of_nat (length (clean_go registered subKey m).1).
Proof.
  induction m as [|[k v] m IH]; [done|]. cbn [clean_go]. fold (clean_go registered subKey).
  destruct (clean_go registered subKey m) as [kept n]. simpl in IH. subst n.
  destruct v as [| | | | | | | |m'];
    [destruct (Contains k "/"); [done|]; destruct (registered _); [|done]; simpl; lia..|].
  destruct (cleanSubMap registered (AMap m') _) as [sub e]. destruct e; [done|]. simpl. lia.
Qed.

Lemma lacks_not_Contains (e : string) : lacks "/" e → Contains e "/" = false.
Proof.
  induction e as [|a e IH]; [done|]. intros [Ha He]%lacks_cons. cbn [Contains]. rewrite IH by done.
  apply orb_false_iff. split; [|done]. apply not_true_iff_false. intros [t [= Ht _]]%HasPrefix_spec. by apply Ha.
Qed.

(** Cleaning keeps the well-formed tree of the registered options. *)
Definition cleans (registered : string → bool) (pre : list string) (m : go_map) : Prop :=
  let kept := (clean_go registered (Join pre "/") m).1 in
  (∀ k, k ∈ kept.*1 → k ∈ m.*1) ∧ tree_ok (AMap kept) ∧
  ∀ path w, path ≠ [] → is_map w = false →
    lookup_path (AMap kept) path = Some w ↔
    lookup_path (AMap m) path = Some w ∧ registered (Join (pre ++ path)%list "/") = true.

Lemma clean_go_skip registered pre k v m kept :
  (clean_go registered (Join pre "/") m).1 = kept →
  k ∉ m.*1 → cleans registered pre m →
  (∀ path w, lookup_path v path = Some w → is_map w = false → registered (Join (pre ++ k :: path)%list "/") = false) →
  (∀ x, x ∈ kept.*1 → x ∈ ((k, v) :: m).*1) ∧ tree_ok (AMap kept) ∧
  ∀ path w, path ≠ [] → is_map w = false →
    lookup_path (AMap kept) path = Some w ↔
    lookup_path (AMap ((k, v) :: m)) path = Some w ∧ registered (Join (pre ++ path)%list "/") = true.
Proof.
  intros <- Hni (Hsub & Hok & Hl) Hno. split_and!; [|done|].
  - intros x Hx. right. by apply Hsub.
  - intros [|p path] w Hne Hw; [done|]. rewrite Hl by done. simpl. destruct (String.eqb_spec k p) as [->|]; [|done].
    simpl. rewrite map_get_None by done. split; [by intros [??]|]. intros [H Hr]. by rewrite (Hno path w) in Hr.
Qed.

Lemma clean_go_keep registered pre k v v' m kept :
  (clean_go registered (Join pre "/") m).1 = kept →
  k ∉ m.*1 → plain k → cleans registered pre m → tree_ok v' →
  (∀ path w, is_map w = false →
     lookup_path v' path = Some w ↔ lookup_path v path = Some w ∧ registered (Join (pre ++ k :: path)%list "/") = true) →
  (∀ x, x ∈ ((k, v') :: kept).*1 → x ∈ ((k, v) :: m).*1) ∧ tree_ok (AMap ((k, v') :: kept)) ∧
  ∀ path w, path ≠ [] → is_map w = false →
    lookup_path (AMap ((k, v') :: kept)) path = Some w ↔
    lookup_path (AMap ((k, v) :: m)) path = Some w ∧ registered (Join (pre ++ path)%list "/") = true.
Proof.
  intros <- Hni Hk (Hsub & Hok & Hl) Hv' Hent. split_and!.
  - intros x. rewrite !fmap_cons, !elem_of_cons. intros [->|Hx]; [by left|]. right. by apply Hsub.
  - apply tree_ok_map in Hok as (Hnd & Hkeys & Hs). apply tree_ok_map. rewrite fmap_cons. split_and!.
    + apply NoDup_cons. split; [|done]. intros Hin. by apply Hni, Hsub.
    + by apply Forall_cons.
    + by apply Forall_cons.
  - intros [|p path] w Hne Hw; [done|]. simpl. destruct (String.eqb_spec k p) as [->|]; [by apply Hent|].
    by apply (Hl (p :: path)).
Qed.

Lemma clean_go_spec registered (v : any) : ∀ pre, tree_ok v → Forall plain pre →
  match v with AMap m => cleans registered pre m | _ => True end.
Proof.
  induction v as [| | | | | | | |m IH] using any_nested_ind; intros pre Hok Hpre; [done..|].
  apply tree_ok_map in Hok as (Hnd & Hkeys & Hsub).
  induction m as [|[key value] m IHm].
  { split_and!; [done|apply tree_ok_nil|]. intros [|p path] w Hne Hw; [done|]. split; [done|by intros [??]]. }
  apply Forall_cons in IH as [IHe IH]. apply Forall_cons in Hkeys as [Hkey Hkeys].
  apply Forall_cons in Hsub as [Hent Hsub]. simpl in Hnd. apply NoDup_cons in Hnd as [Hni Hnd].
  simpl in IHe, Hent, Hkey. specialize (IHm IH Hnd Hkeys Hsub).
  assert (Forall plain (pre ++ [key])%list) as Hpk by (apply Forall_app; split; [done|by apply Forall_singleton]).
  unfold cleans. cbn [clean_go]. fold (clean_go registered (Join pre "/")).
  destruct (clean_go registered (Join pre "/") m) as [kept n] eqn:Hkept.
  assert ((clean_go registered (Join pre "/") m).1 = kept) as Hk1 by by rewrite Hkept.
  rewrite (path_Join_relative pre key) by done. rewrite (lacks_not_Contains key) by apply Hkey.
  destruct (is_map value) eqn:Hm.
  - destruct value as [| | | | | | | |m']; try done. specialize (IHe (pre ++ [key])%list Hent Hpk).
    rewrite cleanSubMap_map. pose proof (clean_go_count registered (Join (pre ++ [key]) "/") m') as Hcount.
    destruct IHe as (Hs1 & Hs2 & Hs3). destruct (clean_go registered (Join (pre ++ [key]) "/") m') as [sub n'].
    simpl in Hcount, Hs1, Hs2, Hs3. subst n'.
    assert (∀ path w, is_map w = false → lookup_path (AMap sub) path = Some w ↔
      lookup_path (AMap m') path = Some w ∧ registered (Join (pre ++ key :: path)%list "/") = true) as Hs.
    { intros [|p path] w Hw; [simpl; naive_solver|]. rewrite Hs3 by done. by rewrite <- app_assoc. }
    destruct (Z.eqb_spec (Z.of_nat (length sub)) 0) as [H0|H0]; simpl.
    + apply (clean_go_skip registered pre key (AMap m') m kept); [done..|]. intros path w Hl Hw.
      apply not_true_iff_false. intros Hr. assert (lookup_path (AMap sub) path = Some w) as Hc by by apply Hs.
      destruct sub; [|done]. destruct path; simpl in Hc; by simplify_eq.
    + by apply (clean_go_keep registered pre key (AMap m') (AMap sub) m kept).
  - assert (∀ path w, lookup_path value path = Some w → is_map w = false → path = [] ∧ w = value) as Hleaf
      by (intros; by apply lookup_path_leaf).
    destruct (registered (Join (pre ++ [key]) "/")) eqn:Hr.
    + replace (match value with AMap _ => _ | _ => _ end) with ((key, value) :: kept, (n + 1)%Z) by (by destruct value).
      apply (clean_go_keep registered pre key value value m kept); [done..|]. intros path w Hw. split; [|by intros [??]].
      intros H. split; [done|]. by apply Hleaf in H as [-> _].
    + replace (match value with AMap _ => _ | _ => _ end) with (kept, n) by (by destruct value).
      apply (clean_go_skip registered pre key value m kept); [done..|]. intros path w H Hw. by apply Hleaf in H as [-> _].
Qed.

Lemma CleanHierarchicalConfig_spec registered (config : go_map) :
  tree_ok (AMap config) →
  tree_ok (AMap (CleanHierarchicalConfig registered config)) ∧
  ∀ path w, has_leaf (CleanHierarchicalConfig registered config) path w ↔
            has_leaf config path w ∧ registered (Join path "/") = true.
Proof.
  intros Hok. destruct (clean_go_spec registered (AMap config) [] Hok (Forall_nil_2 _)) as (_ & Ht & Hl).
  unfold CleanHierarchicalConfig. rewrite cleanSubMap_map. simpl in Ht, Hl.
  destruct (clean_go registered "" config) as [kept n]. simpl in *. split; [done|]. intros path w. unfold has_leaf.
  specialize (Hl path w). naive_solver.
Qed.

(** ** Theorems *)

(** Expanding a flat configuration and flattening it again gives it back, for
    every order in which the ranges visit the maps: [entries] is any order of
    the flat map, [tree] any hierarchy with the values of the expanded one,
    such as the same maps in another order. The keys have to be clean paths, and
    none may be the directory of another. *)
Theorem Flatten_Expand_roundtrip (m : gmap string any) (entries : list (string * any)) (tree : go_map) :
  flat_ok m → entries ≡ₚ map_to_list m → tree_ok (AMap tree) →
  (∀ path v, has_leaf tree path v ↔ has_leaf (Expand entries) path v) →
  Flatten tree = m.
Proof.
  intros [Hm Hfree] Hperm Htree Hleaf.
  assert (∀ k v, (k, v) ∈ entries ↔ m !! k = Some v) as Hin by (intros k v; by rewrite Hperm, elem_of_map_to_list).
  destruct (Expand_spec entries) as [_ Hexp].
  { rewrite Hperm. apply NoDup_fst_map_to_list. }
  { intros k k'. rewrite Hperm. apply Hfree. }
  { apply Forall_forall. intros [k v] Hk. apply Hm with (k := k). by apply Hin. }
  apply map_eq. intros k. apply option_eq. intros v. rewrite Flatten_spec by done. split.
  - intros (path & Hp & ->). apply Hleaf, Hexp in Hp as (k & Hk & ->). apply Hin in Hk. by rewrite Join_Split.
  - intros Hk. exists (Split k "/"). rewrite Join_Split. split; [|done]. apply Hleaf, Hexp. exists k. split; [|done]. by apply Hin.
Qed.

(** Removing the unknown options from a hierarchy and from the flattened
    configuration is the same. *)
Theorem CleanHierarchicalConfig_flat (registered : string → bool) (config : go_map) :
  tree_ok (AMap config) →
  Flatten (CleanHierarchicalConfig registered config) = CleanFlattenedConfig registered (Flatten config).
Proof.
  intros Hok. destruct (CleanHierarchicalConfig_spec registered config Hok) as [Ht Hl].
  apply map_eq. intros k. apply option_eq. intros v. unfold CleanFlattenedConfig.
  rewrite map_lookup_filter_Some, !Flatten_spec by done. setoid_rewrite Hl. split.
  - intros (path & [Hp Hr] & ->). split; [by exists path|done].
  - intros [(path & Hp & ->) Hr]. by exists path.
Qed.

(** The conditions can be computed. *)
#[global] Instance plain_dec (e : string) : Decision (plain e).
Proof. unfold plain, lacks. apply _. Defined.

Lemma flat_ok_check (m : gmap string any) :
  Forall (λ e, Forall plain (Split e.1 "/") ∧ is_map e.2 = false) (map_to_list m) →
  Forall (λ k, Forall (λ k', Split k "/" `prefix_of` Split k' "/" → k = k') (map_to_list m).*1) (map_to_list m).*1 →
  flat_ok m.
Proof.
  intros H1 H2. split.
  - intros k v Hk%elem_of_map_to_list. exact (proj1 (Forall_forall _ _) H1 _ Hk).
  - intros k k' Hk Hk'. apply (proj1 (Forall_forall _ _) H2 _) in Hk. exact (proj1 (Forall_forall _ _) Hk _ Hk').
Qed.

Lemma Expand_perm_leaves (m : gmap string any) (entries entries' : list (string * any)) :
  flat_ok m → entries ≡ₚ map_to_list m → entries' ≡ₚ map_to_list m →
  tree_ok (AMap (Expand entries)) ∧
  ∀ path v, has_leaf (Expand entries) path v ↔ has_leaf (Expand entries') path v.
Proof.
  intros [Hm Hfree].
  assert (∀ l, l ≡ₚ map_to_list m → tree_ok (AMap (Expand l)) ∧
    ∀ path v, has_leaf (Expand l) path v ↔ ∃ k, m !! k = Some v ∧ path = Split k "/") as Hl.
  { intros l Hl. destruct (Expand_spec l) as [Ht Hs].
    - rewrite Hl. apply NoDup_fst_map_to_list.
    - intros k k'. rewrite Hl. apply Hfree.
    - rewrite Hl. apply Forall_forall. intros [k v] Hk. apply (Hm k), elem_of_map_to_list, Hk.
    - split; [done|]. intros path v. rewrite Hs. setoid_rewrite Hl. by setoid_rewrite elem_of_map_to_list. }
  intros [Ht1 H1]%Hl [Ht2 H2]%Hl. split; [done|]. intros path v. by rewrite H1, H2.
Qed.

(** A flat map, its hierarchy, and the same with the entries in another order. *)
Definition example_flat : gmap string any :=
  {["core/devMode" := ABool true; "core/log/level" := AString "info"; "name" := AString "x"]}.

Lemma example_flat_ok : flat_ok example_flat.
Proof. by apply flat_ok_check; apply (bool_decide_unpack _); vm_compute. Qed.

Lemma Flatten_Expand_roundtrip_witness :
  let tree := Expand (reverse (map_to_list example_flat)) in
  tree ≠ Expand (map_to_list example_flat) ∧ Flatten tree = example_flat.
Proof.
  intros tree. split; [vm_compute; congruence|].
  destruct (Expand_perm_leaves example_flat (reverse (map_to_list example_flat)) (map_to_list example_flat)
    example_flat_ok (reverse_Permutation _) (reflexivity _)) as [Ht Hl].
  exact (Flatten_Expand_roundtrip example_flat (map_to_list example_flat) tree example_flat_ok (reflexivity _) Ht Hl).
Defined.

Lemma CleanHierarchicalConfig_flat_witness :
  let tree := Expand (map_to_list example_flat) in
  Flatten (CleanHierarchicalConfig (String.eqb "name") tree) = {["name" := AString "x"]}.
Proof.
  intros tree. rewrite (CleanHierarchicalConfig_flat (String.eqb "name") tree).
  - vm_compute. reflexivity.
  - apply (Expand_perm_leaves example_flat _ (map_to_list example_flat) example_flat_ok); done.
Defined.
