(* ===== verification/Config.v ===== *)
(** * config: options, validation, layered values and their storage

    option.go, validate.go, registry.go, set.go, get.go, get-safe.go, release.go,
    expertise.go, validity.go, perspective.go, persistence.go and database.go.
    An option is an object that is found through its key and its location; the
    registry, the flags that mark values as outdated and the current levels are
    the state [Config]. Locks are not modelled: an operation is one step. JSON
    is the class [ConfigCodec]; regular expressions come from [QueryLib]; the
    order of a range over the options is the argument [order]. *)

From Stdlib Require Import ZArith Lia Ascii String SpecFloat.
From stdpp Require Import gmap strings list.
From S2P Require Import Prelude GoStrings UtilsSlices Dsd Record Query GoAny GoSort GoPath GoFs ConfigTree.
Local Open Scope string_scope.

(** ** Data *)

Definition optTypeAny : Z := 0.
Definition OptTypeString : Z := 1.
Definition OptTypeStringArray : Z := 2.
Definition OptTypeInt : Z := 3.
Definition OptTypeBool : Z := 4.

Record valueCache : Type := mkValueCache {
  stringVal : string;
  stringArrayVal : list string;
  intVal : Z;
  boolVal : bool;
}.

Record PossibleValue : Type := mkPossibleValue {
  pv_Name : string;
  pv_Description : string;
  pv_Value : any;
}.

(** A migration gets its option and the value; as a function of the option's
    registration it is a function of the value. *)
Definition MigrationFunc : Type := any → any.

Record ConfigOption (R : Type) : Type := mkOption {
  opt_Name : string;
  opt_Key : string;
  opt_Description : string;
  OptType : Z;
  ExpertiseLevel : Z;
  ReleaseLevel : Z;
  RequiresRestart : bool;
  DefaultValue : any;
  ValidationRegex : string;
  ValidationFunc : option (any → option string);
  PossibleValues : option (list PossibleValue);
  Annotations : option (gmap string any);
  Migrations : list MigrationFunc;
  activeValue : option valueCache;
  activeDefaultValue : option valueCache;
  activeFallbackValue : option valueCache;
  compiledRegex : option R;
}.
Arguments mkOption {R}.
Arguments opt_Name {R}. Arguments opt_Key {R}. Arguments opt_Description {R}. Arguments OptType {R}.
Arguments ExpertiseLevel {R}. Arguments ReleaseLevel {R}. Arguments RequiresRestart {R}. Arguments DefaultValue {R}.
Arguments ValidationRegex {R}. Arguments ValidationFunc {R}. Arguments PossibleValues {R}. Arguments Annotations {R}.
Arguments Migrations {R}. Arguments activeValue {R}. Arguments activeDefaultValue {R}.
Arguments activeFallbackValue {R}. Arguments compiledRegex {R}.

Inductive invalid_reason : Type :=
| NotAllowed
| BadType (expected : Z) (got : go_type)
| NoRegexMatch
| EntryNotString (pos : Z)
| EntryNoRegexMatch (pos : Z)
| EntryNotAllowed (pos : Z)
| NotIntegral (t : go_type)
| InvalidValueType (t : go_type)
| ValidationFuncFailed (msg : string)
| InternalError.

Inductive cfg_error : Type :=
| CfgInvalid (key : string) (why : invalid_reason)
| CfgNotExist (name : string)
| CfgNameMissing
| CfgKeyMissing
| CfgDescriptionMissing
| CfgOptTypeMissing
| CfgBadRegex
| CfgInvalidDefault (e : cfg_error)
| CfgExport
| CfgJSON
| CfgOs (e : os_error)
| CfgLoadInvalid (count : Z)
| CfgNotFound
| CfgInvalidData
| CfgInvalidValue.

(** [fmt.Sprintf] with %v for a value of any type. *)
Class FmtLib := { Sprint_v : any → string }.

(** Results of the JSON libraries; [None] is an error. *)
Class ConfigCodec (R : Type) := {
  json_MarshalOption : ConfigOption R → option bytes;
  sjson_SetBytes : bytes → string → any → option bytes;
  json_MarshalConfig : go_map → option bytes;
  json_UnmarshalConfig : bytes → option go_map;
}.

Section Config.
Context {R : Type} `{!QueryLib R} {proc : Processor} {fmtlib : FmtLib} `{!ConfigCodec R} {sortlib : SortLib} (os : OsEnv).
Abbreviation cfg_option := (ConfigOption R).

Definition set_activeValue (v : option valueCache) (o : cfg_option) : cfg_option :=
  mkOption (opt_Name o) (opt_Key o) (opt_Description o) (OptType o) (ExpertiseLevel o) (ReleaseLevel o)
    (RequiresRestart o) (DefaultValue o) (ValidationRegex o) (ValidationFunc o) (PossibleValues o) (Annotations o)
    (Migrations o) v (activeDefaultValue o) (activeFallbackValue o) (compiledRegex o).

Definition set_activeDefaultValue (v : option valueCache) (o : cfg_option) : cfg_option :=
  mkOption (opt_Name o) (opt_Key o) (opt_Description o) (OptType o) (ExpertiseLevel o) (ReleaseLevel o)
    (RequiresRestart o) (DefaultValue o) (ValidationRegex o) (ValidationFunc o) (PossibleValues o) (Annotations o)
    (Migrations o) (activeValue o) v (activeFallbackValue o) (compiledRegex o).

Definition set_Annotations (a : option (gmap string any)) (o : cfg_option) : cfg_option :=
  mkOption (opt_Name o) (opt_Key o) (opt_Description o) (OptType o) (ExpertiseLevel o) (ReleaseLevel o)
    (RequiresRestart o) (DefaultValue o) (ValidationRegex o) (ValidationFunc o) (PossibleValues o) a
    (Migrations o) (activeValue o) (activeDefaultValue o) (activeFallbackValue o) (compiledRegex o).

(** What Register computes. *)
Definition set_registration (regex : string) (compiled : option R) (fallback : option valueCache) (o : cfg_option)
    : cfg_option :=
  mkOption (opt_Name o) (opt_Key o) (opt_Description o) (OptType o) (ExpertiseLevel o) (ReleaseLevel o)
    (RequiresRestart o) (DefaultValue o) regex (ValidationFunc o) (PossibleValues o) (Annotations o)
    (Migrations o) (activeValue o) (activeDefaultValue o) fallback compiled.

(** *** option.go: annotations *)

Definition setAnnotation (key : string) (value : any) (o : cfg_option) : cfg_option :=
  set_Annotations (Some (<[key := value]> (default ∅ (Annotations o)))) o.

Definition AddAnnotation (key : string) (value : any) (o : cfg_option) : cfg_option :=
  let annotations := default ∅ (Annotations o) in
  match annotations !! key with
  | Some _ => set_Annotations (Some annotations) o
  | None => set_Annotations (Some (<[key := value]> annotations)) o
  end.

Definition GetAnnotation (key : string) (o : cfg_option) : option any :=
  match Annotations o with Some a => a !! key | None => None end.

Definition AnnotationEquals (key : string) (value : any) (o : cfg_option) : bool :=
  match GetAnnotation key o with Some setValue => DeepEqual value setValue | None => false end.

Definition IsSetByUser (o : cfg_option) : bool := bool_decide (is_Some (activeValue o)).

(** *** validate.go *)

Definition getData (vc : valueCache) (o : cfg_option) : any :=
  if (OptType o =? OptTypeBool)%Z then ABool (boolVal vc)
  else if (OptType o =? OptTypeInt)%Z then AInt KInt64 (intVal vc)
  else if (OptType o =? OptTypeString)%Z then AString (stringVal vc)
  else if (OptType o =? OptTypeStringArray)%Z then AStrings (stringArrayVal vc)
  else ANil.

Definition UserValue (o : cfg_option) : any :=
  match activeValue o with Some vc => getData vc o | None => ANil end.

Fixpoint possible_loop {E : Type} (vals : list PossibleValue) (value : any) : go E bool :=
  match vals with
  | [] => Ret false
  | val :: vals' =>
      let valueType := TypeOf value in
      let! convertible := ConvertibleTo (TypeOf (pv_Value val)) valueType in
      let compareAgainst := if convertible : bool then Convert (pv_Value val) valueType else pv_Value val in
      let! equal := interface_eq compareAgainst value in
      if equal : bool then Ret true
      else if DeepEqual (pv_Value val) value then Ret true
      else possible_loop vals' value
  end.

Definition isAllowedPossibleValue {E : Type} (o : cfg_option) (value : any) : go E bool :=
  match PossibleValues o with
  | None => Ret true
  | Some vals => possible_loop vals value
  end.

Fixpoint run_migrations {E : Type} (migrations : list MigrationFunc) (value : any) : go E any :=
  match migrations with
  | [] => Ret value
  | migration :: migrations' =>
      let newValue := migration value in
      let! same := interface_eq newValue value in
      run_migrations migrations' newValue
  end.

Definition migrateValue {E : Type} (o : cfg_option) (value : any) : go E any := run_migrations (Migrations o) value.

Definition invalid {A : Type} (o : cfg_option) (why : invalid_reason) : go cfg_error A := Fail (CfgInvalid (opt_Key o) why).

Definition matches_regex (o : cfg_option) (s : string) : bool :=
  match compiledRegex o with Some r => regexp_MatchString r s | None => true end.

(** The loops over the entries of a string array. *)
Fixpoint convert_entries (o : cfg_option) (pos : Z) (l : list any) : go cfg_error (list string) :=
  match l with
  | [] => Ret []
  | AString s :: l' => let! rest := convert_entries o (pos + 1) l' in Ret (s :: rest)
  | _ :: _ => invalid o (EntryNotString (pos + 1))
  end.

Fixpoint check_entries (o : cfg_option) (pos : Z) (l : list string) : go cfg_error unit :=
  match l with
  | [] => Ret tt
  | entry :: l' =>
      if negb (matches_regex o entry) then invalid o (EntryNoRegexMatch (pos + 1))
      else
        let! allowed := isAllowedPossibleValue o (AString entry) in
        if negb allowed then invalid o (EntryNotAllowed (pos + 1)) else check_entries o (pos + 1) l'
  end.

Definition empty_cache : valueCache := mkValueCache "" [] 0 false.
Definition string_cache (s : string) : valueCache := mkValueCache s [] 0 false.
Definition strings_cache (l : list string) : valueCache := mkValueCache "" l 0 false.
Definition int_cache (z : Z) : valueCache := mkValueCache "" [] z false.
Definition bool_cache (b : bool) : valueCache := mkValueCache "" [] 0 b.

(** The number as an int64, [None] for the types and values that are refused. *)
Definition number_cache (o : cfg_option) (value : any) : go cfg_error valueCache :=
  match value with
  | AInt KUint64 _ => invalid o InternalError
  | AInt _ z => Ret (int_cache (wrap_kind KInt64 z))
  | AFloat32 f | AFloat64 f =>
      if float_integral f then Ret (int_cache (int_of_float KInt64 f)) else invalid o (NotIntegral (TypeOf value))
  | _ => invalid o InternalError
  end.

Definition check_type (o : cfg_option) (t : Z) (value : any) : go cfg_error unit :=
  if (OptType o =? t)%Z then Ret tt else invalid o (BadType (OptType o) (TypeOf value)).

(** The part of validateValue before ValidationFunc is called; [rec] is the
    call for a converted []interface{}. *)
Definition validate_type (rec : any → go cfg_error valueCache) (o : cfg_option) (value : any) : go cfg_error valueCache :=
  match value with
  | AString v =>
      let! _ := check_type o OptTypeString value in
      if matches_regex o v then Ret (string_cache v) else invalid o NoRegexMatch
  | AList v =>
      let! vConverted := convert_entries o 0 v in
      rec (AStrings vConverted)
  | AStrings v =>
      let! _ := check_type o OptTypeStringArray value in
      let! _ := match compiledRegex o with Some _ => check_entries o 0 v | None => Ret tt end in
      Ret (strings_cache v)
  | AInt KUint64 _ => invalid o (InvalidValueType (TypeOf value))
  | AInt _ _ | AFloat32 _ | AFloat64 _ =>
      let! _ := check_type o OptTypeInt value in
      if matches_regex o (Sprint_v value) then number_cache o value else invalid o NoRegexMatch
  | ABool v =>
      let! _ := check_type o OptTypeBool value in
      Ret (bool_cache v)
  | ANil | AMap _ => invalid o (InvalidValueType (TypeOf value))
  end.

Definition run_ValidationFunc (o : cfg_option) (vc : valueCache) : go cfg_error unit :=
  match ValidationFunc o with
  | None => Ret tt
  | Some f =>
      match (if (OptType o =? optTypeAny)%Z then Some "internal error"
             else if (OptType o =? OptTypeString)%Z then f (AString (stringVal vc))
             else if (OptType o =? OptTypeStringArray)%Z then f (AStrings (stringArrayVal vc))
             else if (OptType o =? OptTypeInt)%Z then f (AInt KInt64 (intVal vc))
             else if (OptType o =? OptTypeBool)%Z then f (ABool (boolVal vc))
             else None) with
      | None => Ret tt
      | Some msg => invalid o (ValidationFuncFailed msg)
      end
  end.

Definition validate_with (rec : any → go cfg_error valueCache) (o : cfg_option) (value : any) : go cfg_error valueCache :=
  let! _ :=
    (if (OptType o =? OptTypeStringArray)%Z then Ret tt
     else let! allowed := isAllowedPossibleValue o value in
          if allowed : bool then Ret tt else invalid o NotAllowed) in
  let! validated := validate_type rec o value in
  let! _ := run_ValidationFunc o validated in
  Ret validated.

(** The recursive call gets a []string and does not recurse again. *)
Definition validateValue (o : cfg_option) (value : any) : go cfg_error valueCache :=
  validate_with (validate_with (λ _, Panic) o) o value.

Definition ValidateValue (o : cfg_option) (value : any) : go cfg_error unit :=
  let! value := migrateValue o value in
  let! _ := validateValue o value in
  Ret tt.

(** *** export *)

(** The record of an option: the JSON of its registration with the values. *)
Definition Option_export (o : cfg_option) : go cfg_error Wrapper :=
  let! data := match json_MarshalOption o with Some d => Ret d | None => Fail CfgExport end in
  let! data := match activeValue o with
               | None => Ret data
               | Some vc => match sjson_SetBytes data "Value" (getData vc o) with Some d => Ret d | None => Fail CfgExport end
               end in
  let! data := match activeDefaultValue o with
               | None => Ret data
               | Some vc => match sjson_SetBytes data "DefaultValue" (getData vc o) with Some d => Ret d | None => Fail CfgExport end
               end in
  let r := NewWrapper ("config:" ++ opt_Key o) None JSON data in
  Ret (mkWrapper (SetMeta (Some (mkMeta 0 0 0 0 false false)) (wbase r)) (Format r) (Data r)).

(** ** State *)

Record Config : Type := mkConfig {
  options : gmap string nat;
  option_objs : list cfg_option;
  validityFlag : nat;
  flags : list bool;
  releaseLevel : Z;
  releaseLevelOption : option nat;
  expertiseLevel : Z;
  expertiseLevelOption : option nat;
  configFilePath : string;
  loadedConfigValidationErrors : list cfg_error;
  dbController : bool;
  pushed : list Wrapper;
  change_events : nat;
  cfg_sys : Sys;
}.

Definition set_option_objs (objs : list cfg_option) (c : Config) : Config :=
  mkConfig (options c) objs (validityFlag c) (flags c) (releaseLevel c) (releaseLevelOption c) (expertiseLevel c)
    (expertiseLevelOption c) (configFilePath c) (loadedConfigValidationErrors c) (dbController c) (pushed c)
    (change_events c) (cfg_sys c).

Definition set_registered (m : gmap string nat) (objs : list cfg_option) (c : Config) : Config :=
  mkConfig m objs (validityFlag c) (flags c) (releaseLevel c) (releaseLevelOption c) (expertiseLevel c)
    (expertiseLevelOption c) (configFilePath c) (loadedConfigValidationErrors c) (dbController c) (pushed c)
    (change_events c) (cfg_sys c).

Definition set_levels (release expertise : Z) (c : Config) : Config :=
  mkConfig (options c) (option_objs c) (validityFlag c) (flags c) release (releaseLevelOption c) expertise
    (expertiseLevelOption c) (configFilePath c) (loadedConfigValidationErrors c) (dbController c) (pushed c)
    (change_events c) (cfg_sys c).

(** The options the levels are taken from; [None] leaves one as it is. *)
Definition set_level_options (release expertise : option nat) (c : Config) : Config :=
  mkConfig (options c) (option_objs c) (validityFlag c) (flags c) (releaseLevel c)
    (match release with Some id => Some id | None => releaseLevelOption c end) (expertiseLevel c)
    (match expertise with Some id => Some id | None => expertiseLevelOption c end) (configFilePath c)
    (loadedConfigValidationErrors c) (dbController c) (pushed c) (change_events c) (cfg_sys c).

Definition set_pushed (l : list Wrapper) (c : Config) : Config :=
  mkConfig (options c) (option_objs c) (validityFlag c) (flags c) (releaseLevel c) (releaseLevelOption c)
    (expertiseLevel c) (expertiseLevelOption c) (configFilePath c) (loadedConfigValidationErrors c) (dbController c) l
    (change_events c) (cfg_sys c).

(** The file below the data root, set by start in main.go. *)
Definition set_configFilePath (root : string) (c : Config) : Config :=
  mkConfig (options c) (option_objs c) (validityFlag c) (flags c) (releaseLevel c) (releaseLevelOption c)
    (expertiseLevel c) (expertiseLevelOption c) (path_Join root "config.json") (loadedConfigValidationErrors c)
    (dbController c) (pushed c) (change_events c) (cfg_sys c).

Definition set_loaded_errors (l : list cfg_error) (c : Config) : Config :=
  mkConfig (options c) (option_objs c) (validityFlag c) (flags c) (releaseLevel c) (releaseLevelOption c)
    (expertiseLevel c) (expertiseLevelOption c) (configFilePath c) l (dbController c) (pushed c)
    (change_events c) (cfg_sys c).

Definition set_cfg_sys (s : Sys) (c : Config) : Config :=
  mkConfig (options c) (option_objs c) (validityFlag c) (flags c) (releaseLevel c) (releaseLevelOption c)
    (expertiseLevel c) (expertiseLevelOption c) (configFilePath c) (loadedConfigValidationErrors c) (dbController c)
    (pushed c) (change_events c) s.

Abbreviation cfg := (st Config cfg_error).

Definition lift_go {A : Type} (r : go cfg_error A) : cfg A := λ c, (c, r).

Definition cfg_panic {A : Type} : cfg A := λ c, (c, Panic).

Definition get_cfg {A : Type} (f : Config → A) : cfg A := λ c, (c, Ret (f c)).

Definition mod_cfg (f : Config → Config) : cfg unit := λ c, (f c, Ret tt).

Definition update_option (id : nat) (f : cfg_option → cfg_option) : cfg unit :=
  mod_cfg (λ c, set_option_objs (alter f id (option_objs c)) c).

Definition get_option (id : nat) : cfg cfg_option :=
  λ c, match option_objs c !! id with Some o => (c, Ret o) | None => (c, Panic) end.

(** *** registry.go *)

Definition GetOption (name : string) : cfg nat :=
  λ c, match options c !! name with
       | Some id => (c, Ret id)
       | None => (c, Fail (CfgNotExist name))
       end.

Definition ExportOptions (order : gmap string nat → list (string * nat)) (c : Config) : list cfg_option :=
  sort_Sort (λ a b, String.ltb (opt_Key a) (opt_Key b)) (omap (λ '(_, id), option_objs c !! id) (order (options c))).

(** The regular expression of an option with possible values but without one. *)
Definition registration_regex (o : cfg_option) : string :=
  match PossibleValues o with
  | Some vals =>
      if String.eqb (ValidationRegex o) ""
      then "^(" ++ Join ((λ val, Sprint_v (pv_Value val)) <$> vals) "|" ++ ")$"
      else ValidationRegex o
  | None => ValidationRegex o
  end.

Definition check_registration (o : cfg_option) : go cfg_error cfg_option :=
  if String.eqb (opt_Name o) "" then Fail CfgNameMissing
  else if String.eqb (opt_Key o) "" then Fail CfgKeyMissing
  else if String.eqb (opt_Description o) "" then Fail CfgDescriptionMissing
  else if (OptType o =? 0)%Z then Fail CfgOptTypeMissing
  else
    let regex := registration_regex o in
    let! compiled :=
      (if String.eqb regex "" then Ret (compiledRegex o)
       else match regexp_Compile regex with Some r => Ret (Some r) | None => Fail CfgBadRegex end) in
    let o := set_registration regex compiled (activeFallbackValue o) o in
    match validateValue o (DefaultValue o) with
    | Ret vc => Ret (set_registration regex compiled (Some vc) o)
    | Fail e => Fail (CfgInvalidDefault e)
    | Panic => Panic
    end.

Definition Config_Register (o : cfg_option) : cfg unit :=
  let$ o := lift_go (check_registration o) in
  mod_cfg (λ c, set_registered (<[opt_Key o := length (option_objs c)]> (options c)) (option_objs c ++ [o])%list c).

(** *** release.go and expertise.go *)

Definition ReleaseLevelStable : Z := 0.
Definition ReleaseLevelBeta : Z := 1.
Definition ReleaseLevelExperimental : Z := 2.

(** The value the levels are taken from: the default value comes last and wins. *)
Definition level_value (o : cfg_option) : option valueCache :=
  let value := activeFallbackValue o in
  let value := match activeValue o with Some v => Some v | None => value end in
  match activeDefaultValue o with Some v => Some v | None => value end.

Definition release_of_name (name : string) : Z :=
  if String.eqb name "stable" then ReleaseLevelStable
  else if String.eqb name "beta" then ReleaseLevelBeta
  else if String.eqb name "experimental" then ReleaseLevelExperimental
  else ReleaseLevelStable.

Definition expertise_of_name (name : string) : Z :=
  if String.eqb name "user" then 0%Z
  else if String.eqb name "expert" then 1%Z
  else if String.eqb name "developer" then 2%Z
  else 0%Z.

Definition updateReleaseLevel (id : nat) : cfg unit :=
  let$ o := get_option id in
  match level_value o with
  | None => cfg_panic
  | Some value => mod_cfg (λ c, set_levels (release_of_name (stringVal value)) (expertiseLevel c) c)
  end.

Definition updateExpertiseLevel (id : nat) : cfg unit :=
  let$ o := get_option id in
  match level_value o with
  | None => cfg_panic
  | Some value => mod_cfg (λ c, set_levels (releaseLevel c) (expertise_of_name (stringVal value)) c)
  end.

(** *** The options of the package itself *)

Definition DisplayHintAnnotation : string := "safing/portbase:ui:display-hint".
Definition DisplayOrderAnnotation : string := "safing/portbase:ui:order".
Definition CategoryAnnotation : string := "safing/portbase:ui:category".
Definition DisplayHintOneOf : string := "one-of".

(** An option with the fields the package sets, the others at their zero value. *)
Definition string_option (name key description : string) (expertise : Z) (def : string)
    (annotations : list (string * any)) (values : list PossibleValue) : cfg_option :=
  mkOption name key description OptTypeString expertise ReleaseLevelStable false (AString def) "" None
    (Some values) (Some (list_to_map annotations)) [] None None None None.

Definition in_quotes (s : string) : string := String "034"%char s ++ String "034"%char "".

Definition releaseLevelKey : string := "core/releaseLevel".
Definition expertiseLevelKey : string := "core/expertiseLevel".

Definition release_level_option : cfg_option :=
  string_option "Feature Stability" releaseLevelKey
    ("May break things. Decide if you want to experiment with unstable features. " ++ in_quotes "Beta" ++
     " has been tested roughly by the Safing team while " ++ in_quotes "Experimental" ++ " is really raw. When " ++
     in_quotes "Beta" ++ " or " ++ in_quotes "Experimental" ++ " are disabled, their settings use the default again.")
    2 "stable"
    [(DisplayOrderAnnotation, AInt KInt (-8)); (DisplayHintAnnotation, AString DisplayHintOneOf);
     (CategoryAnnotation, AString "Updates")]
    [mkPossibleValue "Stable" "Only show stable features." (AString "stable");
     mkPossibleValue "Beta" "Show stable and beta features." (AString "beta");
     mkPossibleValue "Experimental" "Show all features" (AString "experimental")].

Definition expertise_level_option : cfg_option :=
  string_option "UI Mode" expertiseLevelKey
    "Control the default amount of settings and information shown. Hidden settings are still in effect. Can be changed temporarily in the top right corner."
    0 "user"
    [(DisplayOrderAnnotation, AInt KInt (-16)); (DisplayHintAnnotation, AString DisplayHintOneOf);
     (CategoryAnnotation, AString "User Interface")]
    [mkPossibleValue "Simple Interface" "Hide complex settings and information." (AString "user");
     mkPossibleValue "Advanced Interface" "Show technical details." (AString "expert");
     mkPossibleValue "Developer Interface" "Developer mode. Please be careful!" (AString "developer")].

(** Both panic when the registration fails; the pointer is the location. *)
Definition must_Register (o : cfg_option) : cfg nat :=
  let$ id := get_cfg (λ c, length (option_objs c)) in
  let$ r := st_try (Config_Register o) in
  match r with Ret _ => st_ret id | _ => cfg_panic end.

Definition registerReleaseLevelOption : cfg unit :=
  let$ id := must_Register release_level_option in
  mod_cfg (set_level_options (Some id) None).

Definition registerExpertiseLevelOption : cfg unit :=
  let$ id := must_Register expertise_level_option in
  mod_cfg (set_level_options None (Some id)).

(** The state of the package when the program starts, and after init. *)
Definition zero_config (s : Sys) : Config := mkConfig ∅ [] 0 [true] 0 None 0 None "" [] false [] 0 s.

Definition config_init : cfg unit :=
  let$ _ := registerExpertiseLevelOption in
  registerReleaseLevelOption.

(** basic_config.go; the level names come from the log package. *)
Definition CfgDevModeKey : string := "core/devMode".
Definition CfgLogLevel : string := "core/log/level".

Definition log_level_option (defaultLogLevel : string) : cfg_option :=
  string_option "Log Level" CfgLogLevel "Configure the logging level." 2 defaultLogLevel
    [(DisplayOrderAnnotation, AInt KInt 513); (DisplayHintAnnotation, AString DisplayHintOneOf);
     (CategoryAnnotation, AString "Development")]
    [mkPossibleValue "Critical" "The critical level only logs errors that lead to a partial, but imminent failure." (AString "critical");
     mkPossibleValue "Error" "The error level logs errors that potentially break functionality. Everything logged by the critical level is included here too." (AString "error");
     mkPossibleValue "Warning" "The warning level logs minor errors and worse. Everything logged by the error level is included here too." (AString "warning");
     mkPossibleValue "Info" "The info level logs the main events that are going on and are interesting to the user. Everything logged by the warning level is included here too." (AString "info");
     mkPossibleValue "Debug" "The debug level logs some additional debugging details. Everything logged by the info level is included here too." (AString "debug");
     mkPossibleValue "Trace" "The trace level logs loads of detailed information as well as operation and request traces. Everything logged by the debug level is included here too." (AString "trace")].

Definition dev_mode_option (defaultDevMode : bool) : cfg_option :=
  mkOption "Development Mode" CfgDevModeKey
    "In Development Mode, security restrictions are lifted/softened to enable unrestricted access for debugging and testing purposes."
    OptTypeBool 2 ReleaseLevelStable false (ABool defaultDevMode) "" None None
    (Some (list_to_map [(DisplayOrderAnnotation, AInt KInt 512); (CategoryAnnotation, AString "Development")]))
    [] None None None None.

Definition registerBasicOptions (defaultLogLevel : string) (defaultDevMode : bool) : cfg unit :=
  let$ _ := Config_Register (log_level_option defaultLogLevel) in
  Config_Register (dev_mode_option defaultDevMode).

(** *** set.go *)

Definition getValidityFlag (c : Config) : nat := validityFlag c.

(** The old flag is cleared and replaced by a new one; the event is counted. *)
Definition signalChanges : cfg unit :=
  mod_cfg (λ c,
    mkConfig (options c) (option_objs c) (length (flags c)) (<[validityFlag c := false]> (flags c) ++ [true])%list
      (releaseLevel c) (releaseLevelOption c) (expertiseLevel c) (expertiseLevelOption c) (configFilePath c)
      (loadedConfigValidationErrors c) (dbController c) (pushed c) (S (change_events c)) (cfg_sys c)).

(** The caller holds the option's lock; without a controller nothing is pushed,
    an export error is logged. *)
Definition pushUpdate (id : nat) : cfg unit :=
  let$ o := get_option id in
  match Option_export o with
  | Ret r => mod_cfg (λ c, if dbController c then set_pushed (pushed c ++ [r])%list c else c)
  | Fail _ => st_ret tt
  | Panic => cfg_panic
  end.

Definition handleOptionUpdate (id : nat) (push : bool) : cfg unit :=
  let$ expertise := get_cfg expertiseLevelOption in
  let$ _ := (if bool_decide (expertise = Some id) then updateExpertiseLevel id else st_ret tt) in
  let$ release := get_cfg releaseLevelOption in
  let$ _ := (if bool_decide (release = Some id) then updateReleaseLevel id else st_ret tt) in
  if push then pushUpdate id else st_ret tt.

Context (order : gmap string nat → list (string * nat)).

(** migrateValue and validateValue on the option: the value or the error. *)
Definition validated (id : nat) (value : any) : cfg (valueCache + cfg_error) :=
  let$ o := get_option id in
  let$ value := lift_go (migrateValue o value) in
  match validateValue o value with
  | Ret vc => st_ret (inl vc)
  | Fail e => st_ret (inr e)
  | Panic => cfg_panic
  end.

(** One iteration of the range in ValidateConfig. *)
Definition validate_option (newValues : gmap string any) (acc : list cfg_error * bool * Z) (entry : string * nat)
    : cfg (list cfg_error * bool * Z) :=
  let '(errors, requiresRestart, checked) := acc in
  match newValues !! entry.1 with
  | None => st_ret acc
  | Some newValue =>
      let$ r := validated entry.2 newValue in
      let errors := match r with inr e => (errors ++ [e])%list | _ => errors end in
      let$ o := get_option entry.2 in
      st_ret (errors, requiresRestart || RequiresRestart o, (checked + 1)%Z)
  end.

(** The errors, whether a restart is needed, whether there are unknown keys. *)
Definition ValidateConfig (newValues : gmap string any) : cfg (list cfg_error * bool * bool) :=
  let$ entries := get_cfg (λ c, order (options c)) in
  let$ r := st_fold (validate_option newValues) ([], false, 0%Z) entries in
  st_ret (r.1.1, r.1.2, (r.2 <? Z.of_nat (size newValues))%Z).

(** One iteration of the range in ReplaceConfig and ReplaceDefaultConfig; [set]
    sets the user's or the default value. *)
Definition replace_option (set : option valueCache → cfg_option → cfg_option) (newValues : gmap string any)
    (acc : list cfg_error * bool) (entry : string * nat) : cfg (list cfg_error * bool) :=
  let '(errors, requiresRestart) := acc in
  let id := entry.2 in
  let$ _ := update_option id (set None) in
  let$ errors :=
    match newValues !! entry.1 with
    | None => st_ret errors
    | Some newValue =>
        let$ r := validated id newValue in
        match r with
        | inl vc => let$ _ := update_option id (set (Some vc)) in st_ret errors
        | inr e => st_ret (errors ++ [e])%list
        end
    end in
  let$ _ := handleOptionUpdate id true in
  let$ o := get_option id in
  st_ret (errors, requiresRestart || RequiresRestart o).

Definition replace_config (set : option valueCache → cfg_option → cfg_option) (newValues : gmap string any)
    : cfg (list cfg_error * bool) :=
  let$ entries := get_cfg (λ c, order (options c)) in
  let$ r := st_fold (replace_option set newValues) ([], false) entries in
  let$ _ := signalChanges in
  st_ret r.

Definition ReplaceConfig (newValues : gmap string any) : cfg (list cfg_error * bool) :=
  replace_config set_activeValue newValues.

Definition ReplaceDefaultConfig (newValues : gmap string any) : cfg (list cfg_error * bool) :=
  replace_config set_activeDefaultValue newValues.

(** *** persistence.go *)

(** The values set by the user, in the order of the range. *)
Definition active_values (entries : list (string * nat)) (c : Config) : list (string * any) :=
  omap (λ '(key, id), o ← option_objs c !! id; vc ← activeValue o; Some (key, getData vc o)) entries.

Definition on_cfg_sys {A : Type} (m : st Sys cfg_error A) : cfg A :=
  λ c, let '(s, r) := m (cfg_sys c) in (set_cfg_sys s c, r).

Definition SaveConfig : cfg unit :=
  let$ path := get_cfg configFilePath in
  if String.eqb path "" then st_ret tt
  else
    let$ activeValues := get_cfg (λ c, active_values (order (options c)) c) in
    match json_MarshalConfig (Expand activeValues) with
    | None => st_fail CfgJSON
    | Some data => on_cfg_sys (st_wrap CfgOs (os_WriteFile os path data))
    end.

Definition JSONToMap (jsonData : bytes) : go cfg_error (gmap string any) :=
  match json_UnmarshalConfig jsonData with
  | None => Fail CfgJSON
  | Some loaded => Ret (Flatten loaded)
  end.

Definition loadConfig (requireValidConfig : bool) : cfg unit :=
  let$ path := get_cfg configFilePath in
  if String.eqb path "" then st_ret tt
  else
    let$ data := on_cfg_sys (st_wrap CfgOs (os_ReadFile os path)) in
    let$ newValues := lift_go (JSONToMap data) in
    let$ r := ReplaceConfig newValues in
    if requireValidConfig && (0 <? len r.1)%Z then st_fail (CfgLoadInvalid (len r.1))
    else mod_cfg (set_loaded_errors r.1).

(** *** set.go: single options *)

(** The part of setConfigOption and setDefaultConfigOption under the option's
    lock: the error of the validation. *)
Definition set_option_value (set : option valueCache → cfg_option → cfg_option) (id : nat) (value : any) (push : bool)
    : cfg (option cfg_error) :=
  let$ err :=
    match value with
    | ANil => let$ _ := update_option id (set None) in st_ret None
    | _ =>
        let$ r := validated id value in
        match r with
        | inl vc => let$ _ := update_option id (set (Some vc)) in st_ret None
        | inr e => st_ret (Some e)
        end
    end in
  let$ o := get_option id in
  let$ _ := (if RequiresRestart o
             then update_option id (setAnnotation "safing/portbase:options:restart-pending" (ABool true))
             else st_ret tt) in
  let$ _ := handleOptionUpdate id push in
  st_ret err.

Definition setConfigOption (key : string) (value : any) (push : bool) : cfg unit :=
  let$ id := GetOption key in
  let$ err := set_option_value set_activeValue id value push in
  match err with
  | Some e => st_fail e
  | None =>
      let$ _ := signalChanges in
      SaveConfig
  end.

Definition SetConfigOption (key : string) (value : any) : cfg unit := setConfigOption key value true.

Definition setDefaultConfigOption (key : string) (value : any) (push : bool) : cfg unit :=
  let$ id := GetOption key in
  let$ err := set_option_value set_activeDefaultValue id value push in
  match err with
  | Some e => st_fail e
  | None => signalChanges
  end.

Definition SetDefaultConfigOption (key : string) (value : any) : cfg unit := setDefaultConfigOption key value true.

(** basic_config.go; the argument is the name of the current level. *)
Definition loadLogLevel (level : string) : cfg unit := setDefaultConfigOption CfgLogLevel (AString level) false.

(** *** get.go *)

Definition getReleaseLevel (c : Config) : Z := releaseLevel c.

(** The option, looked up unless it is known already, and its current value. *)
Definition getValueCache (name : string) (option : option nat) (requestedType : Z) (c : Config)
    : (_ * Datatypes.option valueCache) :=
  match (match option with Some id => Some id | None => options c !! name end) with
  | None => (None, None)
  | Some id =>
      match option_objs c !! id with
      | None => (Some id, None)
      | Some o =>
          (Some id,
           if negb (requestedType =? OptType o)%Z then None
           else if (ReleaseLevel o <=? getReleaseLevel c)%Z && bool_decide (is_Some (activeValue o)) then activeValue o
           else if bool_decide (is_Some (activeDefaultValue o)) then activeDefaultValue o
           else activeFallbackValue o)
      end
  end.

(** What the functions returned by GetAsString and the others share: the
    variables they capture and their parameters. *)
Record getter (A : Type) : Type := mkGetter {
  g_name : string;
  g_type : Z;
  g_field : valueCache → A;
  g_fallback : A;
  g_valid : nat;
  g_option : option nat;
  g_value : A;
}.
Arguments mkGetter {A}.
Arguments g_name {A}. Arguments g_type {A}. Arguments g_field {A}. Arguments g_fallback {A}.
Arguments g_valid {A}. Arguments g_option {A}. Arguments g_value {A}.

Definition value_or {A : Type} (field : valueCache → A) (fallback : A) (vc : option valueCache) : A :=
  match vc with Some vc => field vc | None => fallback end.

Definition GetAs {A : Type} (t : Z) (field : valueCache → A) (name : string) (fallback : A) (c : Config) : getter A :=
  let valid := getValidityFlag c in
  let '(option, vc) := getValueCache name None t c in
  mkGetter name t field fallback valid option (value_or field fallback vc).

(** A call of the returned function. *)
Definition getter_call {A : Type} (g : getter A) (c : Config) : A * getter A :=
  if default false (flags c !! g_valid g) then (g_value g, g)
  else
    let valid := getValidityFlag c in
    let '(option, vc) := getValueCache (g_name g) (g_option g) (g_type g) c in
    let value := value_or (g_field g) (g_fallback g) vc in
    (value, mkGetter (g_name g) (g_type g) (g_field g) (g_fallback g) valid option value).

Definition GetAsString := GetAs OptTypeString stringVal.
Definition GetAsStringArray := GetAs OptTypeStringArray stringArrayVal.
Definition GetAsInt := GetAs OptTypeInt intVal.
Definition GetAsBool := GetAs OptTypeBool boolVal.

(** get-safe.go: the returned functions hold a mutex of their own, so the calls
    of one of them come one after another. *)
Definition Concurrent_GetAsString := GetAs OptTypeString stringVal.
Definition Concurrent_GetAsStringArray := GetAs OptTypeStringArray stringArrayVal.
Definition Concurrent_GetAsInt := GetAs OptTypeInt intVal.
Definition Concurrent_GetAsBool := GetAs OptTypeBool boolVal.

(** validity.go *)
Definition NewValidityFlag : option nat := None.
Definition ValidityFlag_IsValid (vf : option nat) (c : Config) : bool :=
  match vf with Some flag => default false (flags c !! flag) | None => false end.
Definition ValidityFlag_Refresh (c : Config) : option nat := Some (validityFlag c).

(** *** perspective.go *)

Definition Perspective : Type := gmap string (nat * valueCache).

(** One iteration: the map, the number of errors and the first one. *)
Definition perspective_option (config : gmap string any) (acc : Perspective * Z * option cfg_error) (entry : string * nat)
    : cfg (Perspective * Z * option cfg_error) :=
  let '(p, errCnt, firstErr) := acc in
  match config !! entry.1 with
  | None => st_ret acc
  | Some configValue =>
      let$ r := validated entry.2 configValue in
      match r with
      | inl vc => st_ret (<[entry.1 := (entry.2, vc)]> p, errCnt, firstErr)
      | inr e => st_ret (p, (errCnt + 1)%Z, match firstErr with None => Some e | _ => firstErr end)
      end
  end.

(** The perspective is returned with the error as well. *)
Definition NewPerspective (config : go_map) : cfg (Perspective * option (Z * cfg_error)) :=
  let config := Flatten config in
  let$ entries := get_cfg (λ c, order (options c)) in
  let$ r := st_fold (perspective_option config) (∅, 0%Z, None) entries in
  st_ret (r.1.1, (λ e, (r.1.2, e)) <$> r.2).

Definition getPerspectiveValueCache (p : Perspective) (name : string) (requestedType : Z) (c : Config) : option valueCache :=
  match p !! name with
  | None => None
  | Some (id, vc) =>
      match option_objs c !! id with
      | None => None
      | Some o =>
          if negb (requestedType =? OptType o)%Z && negb (requestedType =? optTypeAny)%Z then None
          else if (getReleaseLevel c <? ReleaseLevel o)%Z then None
          else Some vc
      end
  end.

Definition Perspective_Has (p : Perspective) (name : string) (c : Config) : bool :=
  bool_decide (is_Some (getPerspectiveValueCache p name optTypeAny c)).

(** The value, [None] when it is not set. *)
Definition Perspective_GetAsString (p : Perspective) (name : string) (c : Config) : option string :=
  stringVal <$> getPerspectiveValueCache p name OptTypeString c.
Definition Perspective_GetAsStringArray (p : Perspective) (name : string) (c : Config) : option (list string) :=
  stringArrayVal <$> getPerspectiveValueCache p name OptTypeStringArray c.
Definition Perspective_GetAsInt (p : Perspective) (name : string) (c : Config) : option Z :=
  intVal <$> getPerspectiveValueCache p name OptTypeInt c.
Definition Perspective_GetAsBool (p : Perspective) (name : string) (c : Config) : option bool :=
  boolVal <$> getPerspectiveValueCache p name OptTypeBool c.

(** *** main.go *)

Definition GetActiveConfigValues : cfg (gmap string any) :=
  let$ entries := get_cfg (λ c, order (options c)) in
  get_cfg (λ c,
    fold_left (λ values '(_, id),
      match option_objs c !! id with
      | None => values
      | Some o =>
          match activeValue o with
          | Some vc =>
              if (ReleaseLevel o <=? getReleaseLevel c)%Z then <[opt_Key o := getData vc o]> values else values
          | None => values
          end
      end) entries ∅).

(** *** database.go: the registry as a database *)

(** What Put uses of a record: its metadata, its key and its accessor. *)
Record put_accessor : Type := mkPutAccessor {
  pa_Get : string → option any;
  pa_GetString : string → option string;
  pa_GetStringArray : string → option (list string);
  pa_GetInt : string → option Z;
  pa_GetBool : string → option bool;
}.

Record put_record : Type := mkPutRecord {
  pr_Deleted : Z;
  pr_key : string;
  pr_accessor : option put_accessor;
}.

Definition ConfigStorage_Get (key : string) : cfg Wrapper :=
  let$ r := st_try (GetOption key) in
  match r with
  | Ret id =>
      let$ o := get_option id in
      lift_go (Option_export o)
  | _ => st_fail CfgNotFound
  end.

(** The value of the type of the option. *)
Definition put_value (acc : put_accessor) (o : cfg_option) : option any :=
  if (OptType o =? OptTypeString)%Z then AString <$> pa_GetString acc "Value"
  else if (OptType o =? OptTypeStringArray)%Z then AStrings <$> pa_GetStringArray acc "Value"
  else if (OptType o =? OptTypeInt)%Z then AInt KInt64 <$> pa_GetInt acc "Value"
  else if (OptType o =? OptTypeBool)%Z then ABool <$> pa_GetBool acc "Value"
  else None.

(** [None]: the record that was given is returned. *)
Definition ConfigStorage_Put (r : put_record) : cfg (option Wrapper) :=
  if (0 <? pr_Deleted r)%Z then
    let$ _ := setConfigOption (pr_key r) ANil false in
    st_ret None
  else
    match pr_accessor r with
    | None => st_fail CfgInvalidData
    | Some acc =>
        match pa_Get acc "Value" with
        | None | Some ANil =>
            let$ _ := setConfigOption (pr_key r) ANil false in
            let$ w := ConfigStorage_Get (pr_key r) in
            st_ret (Some w)
        | Some _ =>
            let$ id := GetOption (pr_key r) in
            let$ o := get_option id in
            match put_value acc o with
            | None => st_fail CfgInvalidValue
            | Some value =>
                let$ _ := setConfigOption (pr_key r) value false in
                let$ o := get_option id in
                let$ w := lift_go (Option_export o) in
                st_ret (Some w)
            end
        end
    end.

Definition ConfigStorage_Delete (key : string) : cfg unit := setConfigOption key ANil false.

(** processQuery: the records sent, and the error the iterator finishes with. *)
Fixpoint export_all (opts : list cfg_option) : go cfg_error (list Wrapper * option cfg_error) :=
  match opts with
  | [] => Ret ([], None)
  | o :: opts' =>
      match Option_export o with
      | Ret r => let! rest := export_all opts' in Ret (r :: rest.1, rest.2)
      | Fail e => Ret ([], Some e)
      | Panic => Panic
      end
  end.

Definition ConfigStorage_Query (prefix : string) : cfg (list Wrapper * option cfg_error) :=
  let$ opts := get_cfg (λ c,
    List.filter (λ o, HasPrefix (opt_Key o) prefix)
      (omap (λ '(_, id), option_objs c !! id) (order (options c)))) in
  lift_go (export_all (sort_Sort (λ a b, String.ltb (opt_Key a) (opt_Key b)) opts)).

End Config.

Arguments mkGetter {A}. Arguments g_name {A}. Arguments g_type {A}. Arguments g_field {A}. Arguments g_fallback {A}.
Arguments g_valid {A}. Arguments g_option {A}. Arguments g_value {A}.
