(* ===== verification/ConfigInv.v ===== *)
(** * config: what the operations keep

    The invariant of the registry, the effect of the operations on the options,
    and the theorems: stored values are always valid for their option, getters
    are never outdated, what is saved is loaded again. *)

From Stdlib Require Import ZArith Lia Ascii String SpecFloat.
From stdpp Require Import gmap strings list.
From S2P Require Import Prelude GoStrings Dsd Record Query GoAny GoSort GoPath GoFs ConfigTree Config.
Local Open Scope string_scope.

(** ** Specification *)

Section Spec.
Context {R : Type} `{!QueryLib R} {proc : Processor} {fmtlib : FmtLib}.
Abbreviation cfg_option := (ConfigOption R).

(** The parts of an option that are fixed by its registration. *)
Record same_registration (o o' : cfg_option) : Prop := {
  same_Key : opt_Key o' = opt_Key o;
  same_OptType : OptType o' = OptType o;
  same_ReleaseLevel : ReleaseLevel o' = ReleaseLevel o;
  same_RequiresRestart : RequiresRestart o' = RequiresRestart o;
  same_ValidationFunc : ValidationFunc o' = ValidationFunc o;
  same_PossibleValues : PossibleValues o' = PossibleValues o;
  same_Migrations : Migrations o' = Migrations o;
  same_compiledRegex : compiledRegex o' = compiledRegex o;
  same_fallback : activeFallbackValue o' = activeFallbackValue o;
}.

#[global] Instance same_registration_preorder : PreOrder same_registration.
Proof. split; [by split|]. intros o1 o2 o3 [] []. split; congruence. Qed.

Definition same_values (o o' : cfg_option) : Prop :=
  activeValue o' = activeValue o ∧ activeDefaultValue o' = activeDefaultValue o.

(** A value that passed the validation of the option. *)
Definition accepted (o : cfg_option) (vc : valueCache) : Prop := ∃ v, validateValue o v = Ret vc.

Record option_ok (o : cfg_option) : Prop := {
  fallback_ok : ∃ vc, activeFallbackValue o = Some vc ∧ accepted o vc;
  active_ok : ∀ vc, activeValue o = Some vc → accepted o vc;
  default_ok : ∀ vc, activeDefaultValue o = Some vc → accepted o vc;
}.

(** The layers: the user's value if the option's release level is enabled, the
    default set at run time, the registered default. *)
Definition effective (level : Z) (o : cfg_option) : option valueCache :=
  match (if (ReleaseLevel o <=? level)%Z then activeValue o else None) with
  | Some v => Some v
  | None => match activeDefaultValue o with Some v => Some v | None => activeFallbackValue o end
  end.

Record config_ok (c : Config) : Prop := {
  registered_ok : ∀ key id, options (R := R) c !! key = Some id → ∃ o, option_objs c !! id = Some o ∧ opt_Key o = key;
  objs_ok : Forall option_ok (option_objs c);
  flag_last : length (flags c) = S (validityFlag c);
  flag_set : flags c !! validityFlag c = Some true;
  levels_ok : ∀ id o v, releaseLevelOption c = Some id → option_objs c !! id = Some o → level_value o = Some v →
    releaseLevel c = release_of_name (stringVal v);
  level_option_ok : ∀ id, releaseLevelOption c = Some id → is_Some (option_objs c !! id);
}.

(** Stored values have the type of the option and match its regular expression. *)
Inductive well_typed (o : cfg_option) : valueCache → Prop :=
| WtString s : OptType o = OptTypeString → matches_regex o s = true → well_typed o (string_cache s)
| WtStrings l : OptType o = OptTypeStringArray →
    (compiledRegex o ≠ None →
       Forall (λ s, matches_regex o s = true ∧ isAllowedPossibleValue (E := cfg_error) o (AString s) = Ret true) l) →
    well_typed o (strings_cache l)
| WtInt z : OptType o = OptTypeInt → is_s64 z → well_typed o (int_cache z)
| WtBool b : OptType o = OptTypeBool → well_typed o (bool_cache b).

(** Which values are accepted for an option and what is stored: the type has
    to be that of the option, unsigned 64 bit integers are refused and numbers
    have to be integral, strings and the text of numbers match the regular
    expression; a list of strings is taken as a string array. *)
Inductive converts (o : cfg_option) : any → valueCache → Prop :=
| ConvString s : OptType o = OptTypeString → matches_regex o s = true → converts o (AString s) (string_cache s)
| ConvStrings l : OptType o = OptTypeStringArray →
    (compiledRegex o ≠ None →
       Forall (λ s, matches_regex o s = true ∧ isAllowedPossibleValue (E := cfg_error) o (AString s) = Ret true) l) →
    converts o (AStrings l) (strings_cache l)
| ConvList l vc : converts o (AStrings l) vc → converts o (AList (AString <$> l)) vc
| ConvInt k z : k ≠ KUint64 → OptType o = OptTypeInt → matches_regex o (Sprint_v (AInt k z)) = true →
    converts o (AInt k z) (int_cache (wrap_kind KInt64 z))
| ConvFloat32 f : OptType o = OptTypeInt → matches_regex o (Sprint_v (AFloat32 f)) = true → float_integral f = true →
    converts o (AFloat32 f) (int_cache (int_of_float KInt64 f))
| ConvFloat64 f : OptType o = OptTypeInt → matches_regex o (Sprint_v (AFloat64 f)) = true → float_integral f = true →
    converts o (AFloat64 f) (int_cache (int_of_float KInt64 f))
| ConvBool b : OptType o = OptTypeBool → converts o (ABool b) (bool_cache b).

(** The possible values count for all options but string arrays, and the
    option's own function has the last word. *)
Definition valid_value (o : cfg_option) (v : any) (vc : valueCache) : Prop :=
  converts o v vc ∧ run_ValidationFunc o vc = Ret tt ∧
  (OptType o ≠ OptTypeStringArray → isAllowedPossibleValue (E := cfg_error) o v = Ret true).

(** ** Validation *)

Lemma check_type_inv (o : cfg_option) t v : check_type o t v = Ret tt → OptType o = t.
Proof. unfold check_type. by destruct (Z.eqb_spec (OptType o) t). Qed.

Lemma check_type_same (o : cfg_option) v : check_type o (OptType o) v = Ret tt.
Proof. unfold check_type. by rewrite Z.eqb_refl. Qed.

Lemma validate_same_checks (o o' : cfg_option) :
  opt_Key o' = opt_Key o → OptType o' = OptType o → ValidationFunc o' = ValidationFunc o →
  PossibleValues o' = PossibleValues o → compiledRegex o' = compiledRegex o →
  ∀ v, validateValue o' v = validateValue o v.
Proof.
  intros Hk Ht Hf Hp Hr.
  assert (∀ s, matches_regex o' s = matches_regex o s) as Hmatch by (intros; unfold matches_regex; by rewrite Hr).
  assert (∀ (E : Type) v, isAllowedPossibleValue (E := E) o' v = isAllowedPossibleValue o v) as Hall
    by (intros; unfold isAllowedPossibleValue; by rewrite Hp).
  assert (∀ (A : Type) w, invalid (A := A) o' w = invalid o w) as Hinv by (intros; unfold invalid; by rewrite Hk).
  assert (∀ t v, check_type o' t v = check_type o t v) as Hct by (intros; unfold check_type; by rewrite Ht, Hinv).
  assert (∀ l pos, convert_entries o' pos l = convert_entries o pos l) as Hconv.
  { induction l as [|x l IH]; intros pos; [done|]. simpl. rewrite Hinv. destruct x; by rewrite ?IH. }
  assert (∀ l pos, check_entries o' pos l = check_entries o pos l) as Hcheck.
  { induction l as [|x l IH]; intros pos; [done|]. simpl. by rewrite Hmatch, !Hinv, Hall, IH. }
  assert (∀ vc, run_ValidationFunc o' vc = run_ValidationFunc o vc) as Hfun.
  { intros vc. unfold run_ValidationFunc. rewrite Hf, !Ht. destruct (ValidationFunc o); [|done].
    repeat case_match; by rewrite ?Hinv. }
  assert (∀ v, number_cache o' v = number_cache o v) as Hnum.
  { intros v. unfold number_cache. repeat case_match; by rewrite ?Hinv. }
  assert (∀ rec rec' v, (∀ v, rec' v = rec v) → validate_with rec' o' v = validate_with rec o v) as Hwith.
  { intros rec rec' v Hrec. unfold validate_with. rewrite Ht, Hall, Hinv.
    replace (validate_type rec' o' v) with (validate_type rec o v).
    - destruct (OptType o =? OptTypeStringArray)%Z; simpl.
      + destruct (validate_type rec o v); simpl; by rewrite ?Hfun.
      + destruct (isAllowedPossibleValue o v) as [[]| |]; simpl; [|done..].
        destruct (validate_type rec o v); simpl; by rewrite ?Hfun.
    - unfold validate_type. destruct v as [|s|b|k z|f|f|l|l|m]; rewrite ?Hct, ?Hmatch, ?Hinv, ?Hr, ?Hnum, ?Hcheck, ?Hconv; try done.
      destruct (convert_entries o 0 l); [|done..]. simpl. symmetry. apply Hrec. }
  intros v. unfold validateValue. apply Hwith. intros v'. by apply Hwith.
Qed.

Lemma validate_ext (o o' : cfg_option) : same_registration o o' → ∀ v, validateValue o' v = validateValue o v.
Proof. intros []. by apply validate_same_checks. Qed.

Lemma accepted_ext (o o' : cfg_option) vc : same_registration o o' → accepted o vc → accepted o' vc.
Proof. intros Hs [v Hv]. exists v. by rewrite (validate_ext o o'). Qed.

(** The value a successful validation of a []string or a simple value stores. *)
Lemma check_entries_inv (o : cfg_option) pos l :
  check_entries o pos l = Ret tt →
  Forall (λ s, matches_regex o s = true ∧ isAllowedPossibleValue (E := cfg_error) o (AString s) = Ret true) l.
Proof.
  revert pos. induction l as [|s l IH]; intros pos H; [done|]. simpl in H.
  destruct (matches_regex o s) eqn:Hm; [|done]. simpl in H.
  destruct (isAllowedPossibleValue o (AString s)) as [[]|e|] eqn:Ha; try done. simpl in H.
  apply Forall_cons. split; [done|]. by eapply IH.
Qed.

Lemma convert_entries_inv (o : cfg_option) pos l l' : convert_entries o pos l = Ret l' → l = AString <$> l'.
Proof.
  revert pos l'. induction l as [|x l IH]; intros pos l' H; simpl in H; [by simplify_eq|].
  destruct x; try done. destruct (convert_entries o (pos + 1) l) as [r| |] eqn:Hr; try done. simpl in H. simplify_eq.
  by rewrite (IH _ _ Hr).
Qed.

Lemma convert_entries_strings (o : cfg_option) pos l : convert_entries o pos (AString <$> l) = Ret l.
Proof. revert pos. induction l as [|s l IH]; intros pos; [done|]. simpl. by rewrite IH. Qed.

Lemma validate_with_inv rec (o : cfg_option) v vc :
  validate_with rec o v = Ret vc →
  ((OptType o =? OptTypeStringArray)%Z = false → isAllowedPossibleValue (E := cfg_error) o v = Ret true) ∧
  validate_type rec o v = Ret vc ∧ run_ValidationFunc o vc = Ret tt.
Proof.
  unfold validate_with. intros H. destruct (OptType o =? OptTypeStringArray)%Z; simpl in H.
  - destruct (validate_type rec o v) as [w| |]; try done. simpl in H.
    destruct (run_ValidationFunc o w) as [[]| |] eqn:Hf; try done. simpl in H. by simplify_eq.
  - destruct (isAllowedPossibleValue o v) as [[]| |] eqn:Ha; try done. simpl in H.
    destruct (validate_type rec o v) as [w| |]; try done. simpl in H.
    destruct (run_ValidationFunc o w) as [[]| |] eqn:Hf; try done. simpl in H. by simplify_eq.
Qed.

Lemma validate_with_intro rec (o : cfg_option) v vc :
  (OptType o ≠ OptTypeStringArray → isAllowedPossibleValue (E := cfg_error) o v = Ret true) →
  validate_type rec o v = Ret vc → run_ValidationFunc o vc = Ret tt → validate_with rec o v = Ret vc.
Proof.
  intros Ha Ht Hf. unfold validate_with. rewrite Ht. destruct (Z.eqb_spec (OptType o) OptTypeStringArray); simpl.
  - by rewrite Hf.
  - rewrite Ha by done. simpl. by rewrite Hf.
Qed.

Lemma check_entries_intro (o : cfg_option) pos l :
  Forall (λ s, matches_regex o s = true ∧ isAllowedPossibleValue (E := cfg_error) o (AString s) = Ret true) l →
  check_entries o pos l = Ret tt.
Proof. intros H. revert pos. induction H as [|s l [Hm Ha] _ IH]; intros pos; [done|]. simpl. by rewrite Hm, Ha, IH. Qed.

Lemma validate_type_strings rec (o : cfg_option) l vc :
  validate_type rec o (AStrings l) = Ret vc ↔ converts o (AStrings l) vc.
Proof.
  cbn [validate_type]. split.
  - intros H. destruct (check_type o OptTypeStringArray (AStrings l)) as [[]| |] eqn:Ht; try done.
    apply check_type_inv in Ht. simpl in H. destruct (compiledRegex o) eqn:Hr.
    + destruct (check_entries o 0 l) as [[]| |] eqn:Hc; try done. simpl in H. simplify_eq.
      apply check_entries_inv in Hc. by apply ConvStrings.
    + simpl in H. simplify_eq. apply ConvStrings; [done|by rewrite Hr].
  - inversion 1 as [|? Ht Hl| | | | |]; subst. rewrite <- Ht, check_type_same. simpl. destruct (compiledRegex o) eqn:Hr; [|done].
    rewrite check_entries_intro; [done|]. apply Hl. by rewrite ?Hr.
Qed.

Lemma converts_OptType (o : cfg_option) v vc :
  converts o v vc →
  OptType o = match v with AString _ => OptTypeString | AStrings _ | AList _ => OptTypeStringArray | ABool _ => OptTypeBool | _ => OptTypeInt end.
Proof. induction 1; done. Qed.

Lemma validateValue_spec (o : cfg_option) v vc : validateValue o v = Ret vc ↔ valid_value o v vc.
Proof.
  unfold validateValue, valid_value. split.
  - intros (Ha & Ht & Hf)%validate_with_inv.
    split_and!; [|done|intros Hne; by apply Ha, Z.eqb_neq].
    destruct v as [|s|b|k z|f|f|l|l|m]; cbn [validate_type] in Ht; try done.
    + destruct (check_type _ _ _) as [[]| |] eqn:Hc; try done. apply check_type_inv in Hc. simpl in Ht.
      destruct (matches_regex o s) eqn:Hm; [|done]. simplify_eq. by apply ConvString.
    + destruct (check_type _ _ _) as [[]| |] eqn:Hc; try done. apply check_type_inv in Hc. simpl in Ht.
      simplify_eq. by apply ConvBool.
    + destruct (decide (k = KUint64)) as [->|Hk]; [done|].
      assert ((let! _ := check_type o OptTypeInt (AInt k z) in
               if matches_regex o (Sprint_v (AInt k z)) then Ret (int_cache (wrap_kind KInt64 z)) else invalid o NoRegexMatch) = Ret vc) as Ht'
        by (by destruct k).
      destruct (check_type _ _ _) as [[]| |] eqn:Hc; try done. apply check_type_inv in Hc. simpl in Ht'.
      destruct (matches_regex o _) eqn:Hm; [|done]. simplify_eq. by apply ConvInt.
    + destruct (check_type _ _ _) as [[]| |] eqn:Hc; try done. apply check_type_inv in Hc. simpl in Ht.
      destruct (matches_regex o _) eqn:Hm; [|done]. destruct (float_integral f) eqn:Hi; [|done]. simplify_eq. by apply ConvFloat32.
    + destruct (check_type _ _ _) as [[]| |] eqn:Hc; try done. apply check_type_inv in Hc. simpl in Ht.
      destruct (matches_regex o _) eqn:Hm; [|done]. destruct (float_integral f) eqn:Hi; [|done]. simplify_eq. by apply ConvFloat64.
    + by apply (validate_type_strings (validate_with (λ _, Panic) o)).
    + destruct (convert_entries o 0 l) as [l'| |] eqn:Hl; try done. apply convert_entries_inv in Hl as ->. simpl in Ht.
      apply ConvList. by apply validate_with_inv in Ht as (_ & Ht & _); apply validate_type_strings in Ht.
  - intros (Hc & Hf & Ha). apply validate_with_intro; [done| |done]. pose proof (converts_OptType _ _ _ Hc) as Ht.
    destruct Hc as [s _ Hm|l _ Hl|l vc Hc|k z Hk _ Hm|f _ Hm Hi|f _ Hm Hi|b _].
    + cbn [validate_type]. rewrite <- Ht, check_type_same. simpl. by rewrite Hm.
    + by apply validate_type_strings, ConvStrings.
    + cbn [validate_type]. rewrite convert_entries_strings. simpl. apply validate_with_intro; [done| |done].
      by apply validate_type_strings.
    + transitivity (let! _ := check_type o OptTypeInt (AInt k z) in
        if matches_regex o (Sprint_v (AInt k z)) then Ret (int_cache (wrap_kind KInt64 z)) else invalid o NoRegexMatch).
      { by destruct k. }
      rewrite <- Ht, check_type_same. simpl. by rewrite Hm.
    + cbn [validate_type]. rewrite <- Ht, check_type_same. simpl. rewrite Hm. unfold number_cache. by rewrite Hi.
    + cbn [validate_type]. rewrite <- Ht, check_type_same. simpl. rewrite Hm. unfold number_cache. by rewrite Hi.
    + cbn [validate_type]. by rewrite <- Ht, check_type_same.
Qed.

End Spec.

Section Reload.
Context {R : Type} `{!QueryLib R} {proc : Processor} {proc_laws : ProcessorLaws} {fmtlib : FmtLib}.
Abbreviation cfg_option := (ConfigOption R).

Lemma accepted_well_typed (o : cfg_option) vc : accepted o vc → well_typed o vc.
Proof.
  intros [v (Hc & _ & _)%validateValue_spec]. induction Hc as [s Ht Hm|l Ht Hl|l vc Hc IH|k z Hk Ht Hm|f Ht Hm Hi|f Ht Hm Hi|b Ht].
  - by apply WtString.
  - by apply WtStrings.
  - done.
  - apply WtInt; [done|apply wrap_int64_fits].
  - apply WtInt; [done|apply int_of_float_fits].
  - apply WtInt; [done|apply int_of_float_fits].
  - by apply WtBool.
Qed.

(** What JSON makes of a value: numbers become floats, arrays []interface{}. *)
Definition json_value (v : any) : any :=
  match v with
  | AInt _ z => AFloat64 (float64_of_Z z)
  | AStrings l => AList (AString <$> l)
  | _ => v
  end.

(** The values of an option come back from JSON as they were. For numbers this
    needs an option without a regular expression, since the text of a float
    differs from that of an int, and at most 53 bits. *)
Definition json_safe (o : cfg_option) (vc : valueCache) : Prop :=
  OptType o = OptTypeInt → compiledRegex o = None ∧ PossibleValues o = None ∧ (- 2 ^ 53 < intVal vc < 2 ^ 53)%Z.

Lemma revalidate_json (o : cfg_option) vc :
  accepted o vc → json_safe o vc → validateValue o (json_value (getData vc o)) = Ret vc.
Proof.
  intros Hacc Hsafe. pose proof (accepted_well_typed o vc Hacc) as Hwt.
  destruct Hacc as [v (Hc & Hf & Ha)%validateValue_spec]. apply validateValue_spec.
  pose proof (converts_OptType _ _ _ Hc) as Htv. unfold valid_value.
  destruct Hwt as [s Ht Hm|l Ht Hl|z Ht Hz|b Ht]; unfold getData; rewrite Ht; cbn.
  - split_and!; [by apply ConvString|done|]. intros _. rewrite <- Ha by (by rewrite Ht).
    rewrite Ht in Htv. destruct v; try done. inversion Hc; by subst.
  - split_and!; [by apply ConvList, ConvStrings|done|by intros []].
  - destruct (Hsafe Ht) as (Hr & Hp & Hz'). cbn [intVal int_cache] in Hz'.
    destruct (float64_of_Z_exact z Hz') as [Htr Hi]. split_and!; [|done|unfold isAllowedPossibleValue; by rewrite Hp].
    replace (int_cache z) with (int_cache (int_of_float KInt64 (float64_of_Z z))).
    + apply ConvFloat64; [done|unfold matches_regex; by rewrite Hr|done].
    + f_equal. unfold int_of_float. rewrite Htr. rewrite (wrap_int64 KInt64) by done. by rewrite Z.eqb_refl.
  - split_and!; [by apply ConvBool|done|]. intros _. rewrite <- Ha by (by rewrite Ht).
    rewrite Ht in Htv. destruct v; try done. inversion Hc; by subst.
Qed.

End Reload.

(** ** The effect of the operations *)

Section Ops.
Context {R : Type} `{!QueryLib R} {proc : Processor} {fmtlib : FmtLib} `{!ConfigCodec R} {sortlib : SortLib} (os : OsEnv).
Context (order : gmap string nat → list (string * nat)).
Abbreviation cfg_option := (ConfigOption R).
Abbreviation config := (Config (R := R)).

(** What no operation on values changes. *)
Record kept (c c' : config) : Prop := {
  kept_options : options c' = options c;
  kept_flag : validityFlag c' = validityFlag c;
  kept_flags : flags c' = flags c;
  kept_release : releaseLevelOption c' = releaseLevelOption c;
  kept_expertise : expertiseLevelOption c' = expertiseLevelOption c;
  kept_path : configFilePath c' = configFilePath c;
  kept_sys : cfg_sys c' = cfg_sys c;
}.

#[global] Instance kept_preorder : PreOrder kept.
Proof. split; [by split|]. intros c1 c2 c3 [] []. split; congruence. Qed.

Definition recomputed (id : nat) (c c' : config) : Prop :=
  if decide (releaseLevelOption c = Some id)
  then ∃ o v, option_objs c !! id = Some o ∧ level_value o = Some v ∧ releaseLevel c' = release_of_name (stringVal v)
  else releaseLevel c' = releaseLevel c.

Lemma get_option_inv id (c c' : config) r :
  get_option id c = (c', r) → c' = c ∧ ((∃ o, option_objs c !! id = Some o ∧ r = Ret o) ∨ r = Panic).
Proof. unfold get_option. destruct (option_objs c !! id) as [o|]; intros; simplify_eq; eauto. Qed.

Lemma pushUpdate_inv id (c c' : config) r :
  pushUpdate id c = (c', r) → kept c c' ∧ option_objs c' = option_objs c ∧ releaseLevel c' = releaseLevel c ∧
  (r = Ret tt ∨ r = Panic).
Proof.
  unfold pushUpdate. intros H. apply st_bind_cases in H as [(c1 & o & H1 & H)|[(e & H1 & _)|[H1 ->]]];
    apply get_option_inv in H1 as [-> H1]; [|naive_solver|by split_and!; [..|right]].
  destruct (Option_export o) as [w|e|]; unfold mod_cfg, st_ret, cfg_panic in H; simplify_eq.
  - destruct (dbController c); (split_and!; [by split|done|done|by left]).
  - split_and!; [by split|done|done|by left].
  - split_and!; [by split|done|done|by right].
Qed.

Lemma updateExpertiseLevel_inv id (c c' : config) r :
  updateExpertiseLevel id c = (c', r) →
  kept c c' ∧ option_objs c' = option_objs c ∧ releaseLevel c' = releaseLevel c ∧ (r = Ret tt ∨ r = Panic).
Proof.
  unfold updateExpertiseLevel. intros H.
  apply st_bind_cases in H as [(c1 & o & H1 & H)|[(e & H1 & _)|[H1 ->]]];
    apply get_option_inv in H1 as [-> H1]; [|naive_solver|by split_and!; [..|right]].
  destruct (level_value o); unfold mod_cfg, cfg_panic in H; simplify_eq;
    (split_and!; [by split|done|done|by (left + right)]).
Qed.

Lemma updateReleaseLevel_inv id (c c' : config) r :
  updateReleaseLevel id c = (c', r) →
  kept c c' ∧ option_objs c' = option_objs c ∧
  (r = Panic ∨ r = Ret tt ∧ ∃ o v, option_objs c !! id = Some o ∧ level_value o = Some v ∧
     releaseLevel c' = release_of_name (stringVal v)).
Proof.
  unfold updateReleaseLevel. intros H.
  apply st_bind_cases in H as [(c1 & o & H1 & H)|[(e & H1 & _)|[H1 ->]]];
    apply get_option_inv in H1 as [-> H1]; [|naive_solver|by split_and!; [..|left]].
  destruct (level_value o) as [v|] eqn:Hv; unfold mod_cfg, cfg_panic in H; simplify_eq.
  - split_and!; [by split|done|right]. destruct H1 as [(o' & Ho & [= ->])|[=]]. by split; [|exists o', v].
  - by split_and!; [..|left].
Qed.

Lemma handleOptionUpdate_inv id push (c c' : config) r :
  handleOptionUpdate id push c = (c', r) →
  kept c c' ∧ option_objs c' = option_objs c ∧ (r = Panic ∨ r = Ret tt ∧ recomputed id c c').
Proof.
  unfold handleOptionUpdate. intros H. unfold st_bind at 1, get_cfg at 1 in H.
  apply st_bind_cases in H.
  assert (∀ (c1 : config) r1, (if bool_decide (expertiseLevelOption c = Some id) then updateExpertiseLevel id else st_ret tt) c = (c1, r1) →
    kept c c1 ∧ option_objs c1 = option_objs c ∧ releaseLevel c1 = releaseLevel c ∧ (r1 = Ret tt ∨ r1 = Panic)) as Hexp.
  { intros c1 r1 H1. case_bool_decide; [by eapply updateExpertiseLevel_inv|]. unfold st_ret in H1. simplify_eq.
    by split_and!; [..|left]. }
  destruct H as [(c1 & [] & H1 & H)|[(e & H1 & _)|[H1 ->]]]; apply Hexp in H1 as (Hk & Ho & Hl & Hr1);
    [|naive_solver|by split_and!; [| |left]].
  unfold st_bind at 1, get_cfg at 1 in H. apply st_bind_cases in H.
  assert (∀ (c2 : config) r2, (if bool_decide (releaseLevelOption c1 = Some id) then updateReleaseLevel id else st_ret tt) c1 = (c2, r2) →
    kept c1 c2 ∧ option_objs c2 = option_objs c1 ∧ (r2 = Panic ∨ r2 = Ret tt ∧ recomputed id c c2)) as Hrel.
  { intros c2 r2 H2. unfold recomputed. rewrite (kept_release _ _ Hk) in H2. destruct (decide (releaseLevelOption c = Some id)) as [Heq|Hne].
    - rewrite bool_decide_true in H2 by done. apply updateReleaseLevel_inv in H2. rewrite Ho in H2. rewrite Ho. exact H2.
    - rewrite bool_decide_false in H2 by done. unfold st_ret in H2. simplify_eq.
      split_and!; [done|done|]. right. by split. }
  destruct H as [(c2 & [] & H2 & H)|[(e & H2 & _)|[H2 ->]]]; apply Hrel in H2 as (Hk2 & Ho2 & Hr2).
  - assert (kept c2 c' ∧ option_objs c' = option_objs c2 ∧ releaseLevel c' = releaseLevel c2 ∧ (r = Ret tt ∨ r = Panic)) as (Hk3 & Ho3 & Hl3 & Hr3).
    { destruct push; [by apply pushUpdate_inv in H|]. unfold st_ret in H. simplify_eq. by split_and!; [..|left]. }
    split_and!; [by do 2 (etransitivity; [done|])|congruence|]. destruct Hr3 as [->| ->]; [right|by left]. split; [done|].
    destruct Hr2 as [|[_ Hr2]]; [done|]. unfold recomputed in *. by rewrite Hl3.
  - naive_solver.
  - split_and!; [by etransitivity|congruence|by left].
Qed.

(** *** The invariant *)

Definition value_setter (set : option valueCache → cfg_option → cfg_option) : Prop :=
  set = set_activeValue ∨ set = set_activeDefaultValue.

Lemma setter_same set v o : value_setter set → same_registration o (set v o).
Proof. by intros [->| ->]. Qed.

Lemma setter_ok set v (o : cfg_option) :
  value_setter set → option_ok o → (∀ vc, v = Some vc → accepted o vc) → option_ok (set v o).
Proof.
  intros Hset [[fb [Hfb Hafb]] Hact Hdef] Hv.
  assert (∀ vc, accepted o vc → accepted (set v o) vc) as Hacc by (intros; by eapply accepted_ext, H; apply setter_same).
  destruct Hset as [->| ->]; (split; [exists fb; by auto|simpl; by auto|simpl; by auto]).
Qed.

(** One option was changed. *)
Record changed (id : nat) (o' : cfg_option) (c c' : config) : Prop := {
  changed_kept : kept c c';
  changed_objs : option_objs c' = <[id := o']> (option_objs c);
  changed_old : ∃ o, option_objs c !! id = Some o ∧ same_registration o o';
  changed_level : releaseLevelOption c ≠ Some id → releaseLevel c' = releaseLevel c;
}.

Lemma changed_ok id o' push (c c1 c2 : config) :
  config_ok c → option_ok o' → changed id o' c c1 → releaseLevel c1 = releaseLevel c →
  handleOptionUpdate id push c1 = (c2, Ret tt) → config_ok c2 ∧ changed id o' c c2.
Proof.
  intros [Hreg Hobjs Hlast Hflag Hlev Hlo] Ho' [Hk Hobj1 (o & Ho & Hsame) _] Hl1 H.
  apply handleOptionUpdate_inv in H as (Hk2 & Hobj2 & [?|[_ Hrec]]); [done|].
  assert (kept c c2) as Hk' by by etransitivity.
  rewrite Hobj1 in Hobj2. pose proof Hk' as [Hko Hkv Hkf Hkr Hke Hkp Hks]. split; [split|split; [done|done|by exists o|]].
  - intros key id'. rewrite Hko, Hobj2. intros (o0 & Ho0 & Hkey)%Hreg. destruct (decide (id' = id)) as [->|Hne].
    + exists o'. rewrite list_lookup_insert_eq by (by eapply lookup_lt_Some). split; [done|]. rewrite (same_Key _ _ Hsame). congruence.
    + exists o0. by rewrite list_lookup_insert_ne.
  - rewrite Hobj2. by apply Forall_insert.
  - by rewrite Hkf, Hkv.
  - by rewrite Hkf, Hkv.
  - intros id' o0 v. rewrite Hkr, Hobj2. intros Hr Ho0 Hv. unfold recomputed in Hrec. rewrite (kept_release _ _ Hk), Hobj1 in Hrec.
    destruct (decide (id' = id)) as [->|Hne].
    + rewrite decide_True in Hrec by done. rewrite list_lookup_insert_eq in Ho0, Hrec by (by eapply lookup_lt_Some).
      destruct Hrec as (o1 & v1 & [= ->] & Hv1 & ->). congruence.
    + rewrite decide_False in Hrec by congruence. rewrite list_lookup_insert_ne in Ho0 by done. rewrite Hrec, Hl1. by eapply Hlev.
  - intros j. rewrite Hkr, Hobj2. intros Hj%Hlo. by apply list_lookup_insert_is_Some.
  - intros Hne. unfold recomputed in Hrec. rewrite (kept_release _ _ Hk), decide_False in Hrec by done. congruence.
Qed.

(** What any operation may do, seen from a getter: either nothing it could
    return has changed, or the flag it holds is cleared. *)
Record evolves (c c' : config) : Prop := {
  ev_objs : ∀ id o, option_objs c !! id = Some o → ∃ o', option_objs c' !! id = Some o' ∧ same_registration o o';
  ev_flags : ∀ i, flags c !! i = Some false → flags c' !! i = Some false;
  ev_view : flags c' !! validityFlag c = Some false ∨
    (validityFlag c' = validityFlag c ∧ releaseLevel c' = releaseLevel c ∧
     ∀ id o, option_objs c !! id = Some o → ∃ o', option_objs c' !! id = Some o' ∧ same_values o o');
}.

#[global] Instance evolves_preorder : PreOrder evolves.
Proof.
  split.
  - intros c. split; [intros id o Ho; by exists o|done|right]. split_and!; [done..|]. intros id o Ho. by exists o.
  - intros c1 c2 c3 [Ho1 Hf1 Hv1] [Ho2 Hf2 Hv2]. split.
    + intros id o (o' & Ho' & Hs)%Ho1. apply Ho2 in Ho' as (o'' & Ho'' & Hs'). exists o''. split; [done|by etransitivity].
    + auto.
    + destruct Hv1 as [Hv1|(Hv1 & Hl1 & Hs1)]; [left; by auto|].
      destruct Hv2 as [Hv2|(Hv2 & Hl2 & Hs2)]; [left; by rewrite <- Hv1|right]. split_and!; [congruence..|].
      intros id o (o' & Ho' & [Ha Hd])%Hs1. apply Hs2 in Ho' as (o'' & Ho'' & [Ha' Hd']). exists o''. split; [done|].
      split; congruence.
Qed.

(** The options may have other values. *)
Record moved (c c' : config) : Prop := {
  mv_options : options c' = options c;
  mv_flag : validityFlag c' = validityFlag c;
  mv_flags : flags c' = flags c;
  mv_objs : ∀ id o, option_objs c !! id = Some o → ∃ o', option_objs c' !! id = Some o' ∧ same_registration o o';
}.

#[global] Instance moved_preorder : PreOrder moved.
Proof.
  split; [intros c; split; [done..|intros id o Ho; by exists o]|]. intros c1 c2 c3 [H1 H2 H3 Ho1] [H4 H5 H6 Ho2]. split; [congruence..|].
  intros id o (o' & Ho' & Hs)%Ho1. apply Ho2 in Ho' as (o'' & Ho'' & Hs'). exists o''. split; [done|by etransitivity].
Qed.

Lemma changed_moved id o' (c c' : config) : changed id o' c c' → moved c c'.
Proof.
  intros [[] Hobjs (o & Ho & Hs) _]. split; [done..|]. intros j oj Hj. rewrite Hobjs.
  destruct (decide (j = id)) as [->|Hne].
  - exists o'. rewrite list_lookup_insert_eq by (by eapply lookup_lt_Some). split; [done|]. congruence.
  - exists oj. by rewrite list_lookup_insert_ne.
Qed.

Lemma signalChanges_evolves (c c1 c2 : config) r :
  moved c c1 → config_ok c → config_ok c1 → signalChanges c1 = (c2, r) →
  config_ok c2 ∧ evolves c c2 ∧ r = Ret tt ∧ flags c2 !! validityFlag c = Some false.
Proof.
  intros [Hop Hv Hf Ho] Hc [Hreg Hobjs Hlast Hflag Hlev Hlo] H. unfold signalChanges, mod_cfg in H. simplify_eq.
  assert (validityFlag c1 < length (flags c1)) by lia.
  assert ((<[validityFlag c1:=false]> (flags c1) ++ [true])%list !! validityFlag c = Some false) as Hcl.
  { rewrite <- Hv. rewrite lookup_app_l by (by rewrite length_insert). by apply list_lookup_insert_eq. }
  split_and!; [| |done|done].
  - split; simpl; [done|done| | |done|done].
    + rewrite length_app, length_insert. simpl. lia.
    + rewrite lookup_app_r, length_insert, Nat.sub_diag; [done|]. by rewrite length_insert.
  - split; simpl; [done| |].
    + intros i Hi. rewrite Hf. assert (i < length (flags c)) by (by eapply lookup_lt_Some).
      rewrite lookup_app_l by (by rewrite length_insert). destruct (decide (i = validityFlag c1)) as [->|Hne].
      * by apply list_lookup_insert_eq; rewrite Hf in *.
      * by rewrite list_lookup_insert_ne.
    + by left.
Qed.

(** *** Setting values *)

Lemma update_option_lookup id f (c : config) (o : cfg_option) :
  option_objs c !! id = Some o →
  update_option id f c = (set_option_objs (<[id := f o]> (option_objs c)) c, Ret tt).
Proof.
  intros Ho. unfold update_option, mod_cfg. do 2 f_equal. apply list_eq. intros j.
  destruct (decide (j = id)) as [->|Hne].
  - rewrite list_lookup_alter_eq, list_lookup_insert_eq by (by eapply lookup_lt_Some). by rewrite Ho.
  - by rewrite list_lookup_alter_ne, list_lookup_insert_ne.
Qed.

Lemma update_option_none id f (c : config) :
  option_objs c !! id = None → update_option id f c = (c, Ret tt).
Proof.
  intros Ho. unfold update_option, mod_cfg. do 2 f_equal. destruct c as [? objs ? ? ? ? ? ? ? ? ? ? ? ?].
  unfold set_option_objs. simpl in *. f_equal. apply list_eq. intros j. destruct (decide (j = id)) as [->|Hne].
  - by rewrite list_lookup_alter_eq, Ho.
  - by rewrite list_lookup_alter_ne.
Qed.

Lemma changed_set id (o' o : cfg_option) (c : config) :
  option_objs c !! id = Some o → same_registration o o' →
  changed id o' c (set_option_objs (<[id := o']> (option_objs c)) c).
Proof. intros Ho Hs. split; [by split|done|by exists o|done]. Qed.

(** The outcome of giving a value to an option. *)
Definition outcome (o : cfg_option) (v : any) (r : valueCache + cfg_error) : Prop :=
  ∃ v', migrateValue o v = Ret (E := cfg_error) v' ∧
    match r with inl vc => validateValue o v' = Ret vc | inr e => validateValue o v' = Fail e end.

Lemma run_migrations_no_fail (l : list MigrationFunc) v e : run_migrations (E := cfg_error) l v ≠ Fail e.
Proof.
  revert v. induction l as [|f l IH]; intros v; [done|]. simpl.
  destruct (interface_eq (E := cfg_error) (f v) v) eqn:Heq; simpl; [apply IH| |done].
  exfalso. destruct (f v), v; done.
Qed.

Lemma validated_inv id v (c c' : config) r :
  validated id v c = (c', r) →
  c' = c ∧ (r = Panic ∨ ∃ o x, option_objs c !! id = Some o ∧ outcome o v x ∧ r = Ret x).
Proof.
  unfold validated. intros H.
  apply st_bind_cases in H as [(c1 & o & H1 & H)|[(e & H1 & _)|[H1 ->]]];
    apply get_option_inv in H1 as [-> H1]; [|naive_solver|by split; [|left]].
  destruct H1 as [(o' & Ho & [= ->])|[=]].
  unfold st_bind, lift_go in H. destruct (migrateValue o' v) as [v'|e|] eqn:Hm.
  - destruct (validateValue o' v') as [vc|e|] eqn:Hv; unfold st_ret, cfg_panic in H; simplify_eq; (split; [done|]).
    + right. exists o', (inl vc). split_and!; [done|by exists v'|done].
    + right. exists o', (inr e). split_and!; [done|by exists v'|done].
    + by left.
  - by apply run_migrations_no_fail in Hm.
  - simplify_eq. split; [done|by left].
Qed.

(** The value after one iteration of ReplaceConfig: what was given, if it is
    valid, and none otherwise. *)
Definition replaced (set : option valueCache → cfg_option → cfg_option) (o : cfg_option) (given : option any)
    (o' : cfg_option) (errs : list cfg_error) : Prop :=
  match given with
  | None => o' = set None o ∧ errs = []
  | Some v => ∃ x, outcome o v x ∧
      match x with inl vc => o' = set (Some vc) (set None o) ∧ errs = [] | inr e => o' = set None o ∧ errs = [e] end
  end.

Lemma outcome_ext (o o' : cfg_option) v x : same_registration o o' → outcome o' v x → outcome o v x.
Proof.
  intros Hs (v' & Hm & Hx). exists v'. unfold migrateValue in *. rewrite (same_Migrations _ _ Hs) in Hm.
  rewrite (validate_ext o o') in Hx by done. done.
Qed.

Lemma outcome_accepted (o : cfg_option) v vc : outcome o v (inl vc) → accepted o vc.
Proof. intros (v' & _ & H). by exists v'. Qed.

Lemma registration_setter set v (o o1 : cfg_option) : value_setter set → same_registration o o1 → same_registration o (set v o1).
Proof. intros Hset Hs. etransitivity; [done|]. by apply setter_same. Qed.

Lemma replace_option_ok set newValues acc key id (o : cfg_option) (c c' : config) r :
  value_setter set → config_ok c → option_objs c !! id = Some o →
  replace_option set newValues acc (key, id) c = (c', r) → r ≠ Panic →
  ∃ o' errs, config_ok c' ∧ changed id o' c c' ∧
    replaced set o (newValues !! key) o' errs ∧ r = Ret (acc.1 ++ errs, acc.2 || RequiresRestart o)%list.
Proof.
  intros Hset Hc Ho H Hr. destruct acc as [errors restart]. unfold replace_option in H. cbn [fst snd] in H |- *.
  pose proof (proj1 (Forall_lookup _ _) (objs_ok c Hc) id o Ho) as Hok.
  unfold st_bind at 1 in H. erewrite update_option_lookup in H by done. set (o1 := set None o) in H.
  assert (same_registration o o1) as Hs1 by by apply setter_same.
  set (c1 := set_option_objs (<[id := o1]> (option_objs c)) c) in H.
  assert (changed id o1 c c1) as Hch1 by by eapply changed_set.
  assert (option_objs c1 !! id = Some o1) as Ho1 by (apply list_lookup_insert_eq; by eapply lookup_lt_Some).
  apply st_bind_cases in H.
  (* the assignment *)
  assert (∀ (c2 : config) r2,
    (match newValues !! key with
     | Some newValue => let$ r := validated id newValue in
         match r with
         | inl vc => let$ _ := update_option id (set (Some vc)) in st_ret errors
         | inr e => st_ret (errors ++ [e])%list
         end
     | None => st_ret errors
     end) c1 = (c2, r2) →
    r2 = Panic ∨ ∃ o2 errs, changed id o2 c c2 ∧ option_ok o2 ∧ releaseLevel c2 = releaseLevel c ∧
      replaced set o (newValues !! key) o2 errs ∧ r2 = Ret (errors ++ errs)%list) as Hassign.
  { intros c2 r2 H2. unfold replaced. destruct (newValues !! key) as [v|].
    - apply st_bind_cases in H2 as [(c3 & x & H2 & H3)|[(e & H2 & ->)|[_ ->]]]; [|by apply validated_inv in H2 as [_ [?|(? & ? & _ & _ & ?)]]|by left].
      apply validated_inv in H2 as [-> [?|(o0 & x' & Ho0 & Hx & [= ->])]]; [done|].
      rewrite Ho1 in Ho0. injection Ho0 as <-. apply (outcome_ext o) in Hx; [|done]. right. destruct x' as [vc|e].
      + unfold st_bind in H3. erewrite update_option_lookup in H3 by done. unfold st_ret in H3. simplify_eq.
        exists (set (Some vc) o1), []. split_and!; [| |done|by exists (inl vc)|by rewrite app_nil_r].
        * split; [by split|simpl; by rewrite list_insert_insert_eq| |done]. exists o. split; [done|by apply registration_setter].
        * apply setter_ok; [done|by apply setter_ok|]. intros ? [= <-]. eapply (accepted_ext o); [done|]. by apply outcome_accepted in Hx.
      + unfold st_ret in H3. simplify_eq. exists o1, [e]. split_and!; [done|by apply setter_ok|done|by exists (inr e)|done].
    - unfold st_ret in H2. simplify_eq. right. exists o1, []. split_and!; [done|by apply setter_ok|done..|by rewrite app_nil_r]. }
  destruct H as [(c2 & errors' & H1 & H)|[(e & H1 & _)|[_ ?]]]; [| |done]; apply Hassign in H1;
    [|destruct H1 as [?|(? & ? & _ & _ & _ & _ & ?)]; done].
  destruct H1 as [?|(o2 & errs & Hch2 & Hok2 & Hl2 & Hrep & [= ->])]; [done|].
  apply st_bind_cases in H as [(c3 & [] & H2 & H)|[(e & H2 & _)|[_ ?]]]; [| |done].
  2: { by apply handleOptionUpdate_inv in H2 as (_ & _ & [?|[? _]]). }
  destruct (changed_ok id o2 true c c2 c3 Hc Hok2 Hch2 Hl2 H2) as [Hc3 Hch3].
  assert (option_objs c3 !! id = Some o2) as Ho3.
  { rewrite (changed_objs _ _ _ _ Hch3). apply list_lookup_insert_eq. by eapply lookup_lt_Some. }
  unfold st_bind, get_option in H. rewrite Ho3 in H. unfold st_ret in H. simplify_eq.
  exists o2, errs. split_and!; [done..|]. do 3 f_equal.
  destruct (changed_old _ _ _ _ Hch3) as (o' & Ho' & Hs). simplify_eq. by rewrite (same_RequiresRestart _ _ Hs).
Qed.

Definition restarts (c : config) (l : list (string * nat)) : bool :=
  existsb (λ e, default false (RequiresRestart <$> option_objs c !! e.2)) l.

Lemma replace_fold_ok set newValues l : ∀ acc (c c' : config) r,
  value_setter set → config_ok c → NoDup l.*2 → Forall (λ e, is_Some (option_objs c !! e.2)) l →
  st_fold (replace_option set newValues) acc l c = (c', r) → r ≠ Panic →
  config_ok c' ∧ moved c c' ∧ (∀ id, id ∉ l.*2 → option_objs c' !! id = option_objs c !! id) ∧
  ∃ errss, r = Ret (acc.1 ++ concat errss, acc.2 || restarts c l)%list ∧
    Forall2 (λ e errs, ∃ o o', option_objs c !! e.2 = Some o ∧ option_objs c' !! e.2 = Some o' ∧
      replaced set o (newValues !! e.1) o' errs) l errss.
Proof.
  induction l as [|[key id] l IH]; intros acc c c' r Hset Hc Hnd Hall H Hr.
  { unfold st_fold, st_ret in H. simplify_eq. split_and!; [done..|]. exists []. split; [|done].
    destruct acc as [errs b]. simpl. by rewrite app_nil_r, orb_false_r. }
  apply NoDup_cons in Hnd as [Hni Hnd]. apply Forall_cons in Hall as [[o Ho] Hall]. simpl in Hni, Ho.
  cbn [st_fold] in H. apply st_bind_cases in H.
  assert (∀ (c1 : config) r1, replace_option set newValues acc (key, id) c = (c1, r1) → r1 ≠ Panic →
    ∃ o' errs, config_ok c1 ∧ changed id o' c c1 ∧ replaced set o (newValues !! key) o' errs ∧
      r1 = Ret (acc.1 ++ errs, acc.2 || RequiresRestart o)%list) as Hstep.
  { intros c1 r1 H1 Hr1. by eapply replace_option_ok. }
  destruct H as [(c1 & acc1 & H1 & H)|[(e & H1 & ->)|[_ ?]]]; [| |done]; apply Hstep in H1 as (o' & errs & Hc1 & Hch & Hrep & Hacc); try done.
  injection Hacc as ->. pose proof (changed_objs _ _ _ _ Hch) as Hobjs.
  assert (Forall (λ e, is_Some (option_objs c1 !! e.2)) l) as Hall1.
  { eapply Forall_impl; [exact Hall|]. intros e [oe Hoe]. destruct (mv_objs _ _ (changed_moved _ _ _ _ Hch) _ _ Hoe) as (? & ? & _). by eexists. }
  destruct (IH _ c1 c' r Hset Hc1 Hnd Hall1 H Hr) as (Hc' & Hmv & Hsame & errss & -> & Hall2).
  assert (option_objs c1 !! id = Some o') as Ho1 by (rewrite Hobjs; apply list_lookup_insert_eq; by eapply lookup_lt_Some).
  assert (∀ j, j ≠ id → option_objs c1 !! j = option_objs c !! j) as Hother by (intros; by rewrite Hobjs, list_lookup_insert_ne).
  split_and!; [done|etransitivity; [by eapply changed_moved|done]| |].
  - intros j. rewrite fmap_cons, not_elem_of_cons. intros [Hj Hjl]. simpl in Hj. by rewrite Hsame, Hother.
  - exists (errs :: errss). split.
    + simpl. rewrite <- app_assoc, <- orb_assoc. f_equal. f_equal. unfold restarts. simpl. rewrite Ho. simpl. do 2 f_equal.
      clear -Hni Hother. induction l as [|[k j] l IHl]; [done|]. simpl in Hni. apply not_elem_of_cons in Hni as [Hj Hni].
      simpl in Hj |- *. rewrite Hother by done. f_equal. by apply IHl.
    + constructor.
      * exists o, o'. split_and!; [done| |done]. by rewrite Hsame.
      * clear -Hall2 Hni Hother. induction Hall2 as [|[k j] errs1 l errss (oj & oj' & Hj & Hj' & Hrep) _ IH2]; [done|].
        simpl in Hni. apply not_elem_of_cons in Hni as [Hne Hni]. simpl in *. constructor; [|by apply IH2].
        exists oj, oj'. by rewrite <- Hother.
Qed.

Context (order_perm : ∀ m, order m ≡ₚ map_to_list m).

(** Keys and locations of the registered options. *)
Lemma registered_ids (c : config) : config_ok c →
  NoDup (order (options c)).*2 ∧ Forall (λ e, is_Some (option_objs c !! e.2)) (order (options c)).
Proof.
  intros Hc. split.
  - rewrite order_perm. pose proof (NoDup_map_to_list (options c)) as Hnd.
    assert (∀ k id, (k, id) ∈ map_to_list (options c) → ∃ o, option_objs c !! id = Some o ∧ opt_Key o = k) as Hin
      by (intros k id ?%elem_of_map_to_list; by apply (registered_ok c Hc)).
    revert Hnd Hin. generalize (map_to_list (options c)). intros l Hnd Hin. induction Hnd as [|[k id] l Hni Hnd IH]; [constructor|].
    rewrite fmap_cons. constructor; [|apply IH; intros; apply Hin; by right]. simpl. intros ([k' id'] & Hid & Hk')%list_elem_of_fmap.
    simpl in Hid. subst id'. destruct (Hin k id) as (o & Ho & Hk); [by left|]. destruct (Hin k' id) as (o' & Ho' & Hk''); [by right|].
    simplify_eq. done.
  - apply Forall_forall. intros [k id]. rewrite order_perm, elem_of_map_to_list. intros (o & Ho & _)%(registered_ok c Hc). by exists o.
Qed.

Lemma replace_config_ok set newValues (c c' : config) r :
  value_setter set → config_ok c → replace_config order set newValues c = (c', r) → r ≠ Panic →
  config_ok c' ∧ evolves c c' ∧ options c' = options c ∧ flags c' !! validityFlag c = Some false ∧
  ∃ errss, r = Ret (concat errss, restarts c (order (options c))) ∧
    Forall2 (λ e errs, ∃ o o', option_objs c !! e.2 = Some o ∧ option_objs c' !! e.2 = Some o' ∧
      replaced set o (newValues !! e.1) o' errs) (order (options c)) errss.
Proof.
  intros Hset Hc H Hr. destruct (registered_ids c Hc) as [Hnd Hall]. unfold replace_config in H.
  unfold st_bind at 1, get_cfg at 1 in H. apply st_bind_cases in H.
  destruct H as [(c1 & acc & H1 & H)|[(e & H1 & ->)|[_ ?]]]; [| |done];
    destruct (replace_fold_ok set newValues _ _ _ _ _ Hset Hc Hnd Hall H1) as (Hc1 & Hmv & _ & errss & Hacc & Hall2); try done.
  injection Hacc as ->. apply st_bind_cases in H.
  destruct H as [(c2 & [] & H2 & H)|[(e & H2 & ->)|[_ ?]]]; [| |done];
    destruct (signalChanges_evolves c c1 _ _ Hmv Hc Hc1 H2) as (Hc2 & Hev & Hret & Hcl); [|done].
  unfold st_ret in H. simplify_eq. unfold signalChanges, mod_cfg in H2. simplify_eq.
  split_and!; [done|done|by rewrite <- (mv_options _ _ Hmv)|done|]. exists errss. split; [done|]. exact Hall2.
Qed.

(** *** Operations *)

(** The operation keeps the invariant and is what a getter can cope with. *)
Definition sound {A : Type} (m : st config cfg_error A) : Prop :=
  ∀ c c' r, config_ok c → m c = (c', r) → r ≠ Panic → config_ok c' ∧ evolves c c'.

Lemma sound_bind {A B : Type} (m : st config cfg_error A) (k : A → st config cfg_error B) :
  sound m → (∀ a, sound (k a)) → sound (st_bind m k).
Proof.
  intros Hm Hk c c' r Hc H Hr. apply st_bind_cases in H as [(c1 & a & H1 & H)|[(e & H1 & ->)|[_ ?]]]; [| |done].
  - destruct (Hm _ _ _ Hc H1) as [Hc1 He1]; [done|]. destruct (Hk a _ _ _ Hc1 H) as [Hc' He]; [done|].
    split; [done|by etransitivity].
  - by apply (Hm _ _ _ Hc H1).
Qed.

Lemma sound_result {A : Type} (m : st config cfg_error A) : (∀ c, (m c).1 = c) → sound m.
Proof. intros Hm c c' r Hc H Hr. assert (c' = c) as -> by (by rewrite <- (Hm c), H). done. Qed.

Lemma sound_ret {A : Type} (a : A) : sound (st_ret a).
Proof. by apply sound_result. Qed.

Lemma sound_fail {A : Type} e : sound (A := A) (st_fail e).
Proof. by apply sound_result. Qed.

Lemma sound_get {A : Type} (f : config → A) : sound (get_cfg f).
Proof. by apply sound_result. Qed.

Lemma sound_lift {A : Type} (x : go cfg_error A) : sound (lift_go x).
Proof. by apply sound_result. Qed.

Lemma sound_GetOption name : sound (GetOption name).
Proof. apply sound_result. intros c. unfold GetOption. by destruct (options c !! name). Qed.

Lemma sound_get_option id : sound (get_option id).
Proof. apply sound_result. intros c. unfold get_option. by destruct (option_objs c !! id). Qed.

Lemma sound_try {A : Type} (m : st config cfg_error A) : sound m → sound (st_try m).
Proof.
  intros Hm c c' r Hc H Hr. unfold st_try in H. destruct (m c) as [c1 [a|e|]] eqn:Hmc; simplify_eq; by apply (Hm _ _ _ Hc Hmc).
Qed.

(** A change of parts that play no role for the values. *)
Lemma sound_mod (f : config → config) :
  (∀ c, options (f c) = options c ∧ option_objs (f c) = option_objs c ∧ validityFlag (f c) = validityFlag c ∧
        flags (f c) = flags c ∧ releaseLevelOption (f c) = releaseLevelOption c ∧ releaseLevel (f c) = releaseLevel c) →
  sound (mod_cfg f).
Proof.
  intros Hf c c' r Hc H _. unfold mod_cfg in H. simplify_eq. destruct (Hf c) as (H1 & H2 & H3 & H4 & H5 & H6). split.
  - destruct Hc. split; rewrite ?H1, ?H2, ?H3, ?H4, ?H5, ?H6; done.
  - split; rewrite ?H2, ?H3, ?H4, ?H6.
    + intros id o Ho. by exists o.
    + done.
    + right. split_and!; [done..|]. intros id o Ho. by exists o.
Qed.

Lemma sound_on_cfg_sys {A : Type} (m : st Sys cfg_error A) : sound (on_cfg_sys m).
Proof.
  intros c c' r Hc H Hr. unfold on_cfg_sys in H. destruct (m (cfg_sys c)) as [s x]. simplify_eq.
  by apply (sound_mod (set_cfg_sys s)) with (c := c) (r := Ret tt).
Qed.

Lemma sound_SaveConfig : sound (SaveConfig os order).
Proof.
  apply sound_bind; [apply sound_get|]. intros path. destruct (String.eqb path ""); [apply sound_ret|].
  apply sound_bind; [apply sound_get|]. intros l. destruct (json_MarshalConfig (Expand l)); [apply sound_on_cfg_sys|apply sound_fail].
Qed.

Lemma sound_replace set newValues : value_setter set → sound (replace_config order set newValues).
Proof. intros Hset c c' r Hc H Hr. destruct (replace_config_ok _ _ _ _ _ Hset Hc H Hr) as (? & ? & _). done. Qed.

Lemma sound_loadConfig require : sound (loadConfig os order require).
Proof.
  apply sound_bind; [apply sound_get|]. intros path. destruct (String.eqb path ""); [apply sound_ret|].
  apply sound_bind; [apply sound_on_cfg_sys|]. intros data. apply sound_bind; [apply sound_lift|]. intros newValues.
  apply sound_bind; [apply sound_replace; by left|]. intros r. destruct (require && _); [apply sound_fail|].
  by apply sound_mod.
Qed.

(** The value after setConfigOption: nil resets it, an invalid one is refused. *)
Definition assigned (set : option valueCache → cfg_option → cfg_option) (o : cfg_option) (v : any)
    (o' : cfg_option) (err : option cfg_error) : Prop :=
  match v with
  | ANil => o' = set None o ∧ err = None
  | _ => ∃ x, outcome o v x ∧
      match x with inl vc => o' = set (Some vc) o ∧ err = None | inr e => o' = o ∧ err = Some e end
  end.

Definition restart_pending (o : cfg_option) : cfg_option :=
  if RequiresRestart o then setAnnotation "safing/portbase:options:restart-pending" (ABool true) o else o.

Lemma restart_pending_same (o : cfg_option) : same_registration o (restart_pending o) ∧ same_values o (restart_pending o).
Proof. unfold restart_pending. by destruct (RequiresRestart o). Qed.

Lemma restart_pending_ok (o : cfg_option) : option_ok o → option_ok (restart_pending o).
Proof.
  destruct (restart_pending_same o) as [Hs [Ha Hd]]. intros [[fb [Hfb Hafb]] Hact Hdef]. split.
  - exists fb. rewrite (same_fallback _ _ Hs). split; [done|by eapply accepted_ext].
  - intros vc. rewrite Ha. intros H. by eapply accepted_ext, Hact.
  - intros vc. rewrite Hd. intros H. by eapply accepted_ext, Hdef.
Qed.

Lemma assigned_ok set v (o o' : cfg_option) err :
  value_setter set → option_ok o → assigned set o v o' err → option_ok o' ∧ same_registration o o'.
Proof.
  intros Hset Hok H.
  assert (∀ x, outcome o v x → match x with inl vc => o' = set (Some vc) o ∧ err = None | inr e => o' = o ∧ err = Some e end →
    option_ok o' ∧ same_registration o o') as Hx.
  { intros [vc|e] Hout [-> _]; [|done]. split; [|by apply setter_same]. apply setter_ok; [done..|]. intros ? [= <-]. by eapply outcome_accepted. }
  unfold assigned in H. destruct v as [|s|b|k z|f|f|l|l|m]; [destruct H as [-> _]; split; [by apply setter_ok|by apply setter_same]|..];
    destruct H as (x & Hout & H); by apply (Hx x).
Qed.

Lemma set_option_value_ok set id v push (o : cfg_option) (c c' : config) r :
  value_setter set → config_ok c → option_objs c !! id = Some o →
  set_option_value set id v push c = (c', r) → r ≠ Panic →
  ∃ o' err, r = Ret err ∧ config_ok c' ∧ assigned set o v o' err ∧ changed id (restart_pending o') c c'.
Proof.
  intros Hset Hc Ho H Hr. unfold set_option_value in H.
  pose proof (proj1 (Forall_lookup _ _) (objs_ok c Hc) id o Ho) as Hok.
  apply st_bind_cases in H.
  assert (∀ (c1 : config) r1,
    (match v with
     | ANil => let$ _ := update_option id (set None) in st_ret None
     | _ => let$ r := validated id v in
         match r with
         | inl vc => let$ _ := update_option id (set (Some vc)) in st_ret None
         | inr e => st_ret (Some e)
         end
     end) c = (c1, r1) →
    r1 = Panic ∨ ∃ o' err, r1 = Ret err ∧ assigned set o v o' err ∧ changed id o' c c1 ∧ releaseLevel c1 = releaseLevel c) as Hassign.
  { intros c1 r1 H1.
    assert (∀ o' : cfg_option, same_registration o o' → changed id o' c (set_option_objs (<[id:=o']> (option_objs c)) c)) as Hch
      by (intros; by eapply changed_set).
    assert ((let$ r := validated id v in
             match r with
             | inl vc => let$ _ := update_option id (set (Some vc)) in st_ret None
             | inr e => st_ret (Some e)
             end) c = (c1, r1) → r1 = Panic ∨ ∃ o' err x, r1 = Ret err ∧ outcome o v x ∧
               match x with inl vc => o' = set (Some vc) o ∧ err = None | inr e => o' = o ∧ err = Some e end ∧
               changed id o' c c1 ∧ releaseLevel c1 = releaseLevel c) as Hval.
    { intros H2. apply st_bind_cases in H2 as [(c2 & x & H2 & H3)|[(e & H2 & ->)|[_ ->]]];
        [|by apply validated_inv in H2 as [_ [?|(? & ? & _ & _ & ?)]]|by left].
      apply validated_inv in H2 as [-> [?|(o0 & x' & Ho0 & Hx & [= ->])]]; [done|].
      rewrite Ho in Ho0. injection Ho0 as <-. right. destruct x' as [vc|e].
      - unfold st_bind in H3. erewrite update_option_lookup in H3 by done. unfold st_ret in H3. simplify_eq.
        exists (set (Some vc) o), None, (inl vc). split_and!; [done..| |done]. by apply Hch, setter_same.
      - unfold st_ret in H3. simplify_eq. exists o, (Some e), (inr e). split_and!; [done..| |done].
        split; [done|by rewrite list_insert_id|by exists o|done]. }
    destruct v as [|s|b|k z|f|f|l|l|m].
    { right. unfold st_bind in H1. erewrite update_option_lookup in H1 by done. unfold st_ret in H1. simplify_eq.
      exists (set None o), None. split_and!; [done..| |done]. by apply Hch, setter_same. }
    all: apply Hval in H1 as [->|(o' & err & x & -> & Hx & Ho' & Hch' & Hl)]; [by left|right];
      exists o', err; split_and!; [done|by exists x|done|done]. }
  destruct H as [(c1 & err & H1 & H)|[(e & H1 & _)|[_ ?]]]; [| |done]; apply Hassign in H1;
    [|destruct H1 as [?|(? & ? & ? & _)]; done].
  destruct H1 as [?|(o' & err' & [= ->] & Hass & Hch & Hl)]; [done|].
  destruct (assigned_ok _ _ _ _ _ Hset Hok Hass) as [Hok' Hs'].
  assert (option_objs c1 !! id = Some o') as Ho1.
  { rewrite (changed_objs _ _ _ _ Hch). apply list_lookup_insert_eq. by eapply lookup_lt_Some. }
  unfold st_bind at 1, get_option at 1 in H. rewrite Ho1 in H.
  assert ((if RequiresRestart o' then update_option id (setAnnotation "safing/portbase:options:restart-pending" (ABool true))
           else st_ret tt) c1 = (set_option_objs (<[id := restart_pending o']> (option_objs c1)) c1, Ret tt)) as Hann.
  { unfold restart_pending. destruct (RequiresRestart o'); [by apply update_option_lookup|]. unfold st_ret.
    rewrite list_insert_id by done. by destruct c1. }
  unfold st_bind at 1 in H. rewrite Hann in H.
  apply st_bind_cases in H as [(c3 & [] & H2 & H)|[(e & H2 & _)|[_ ?]]]; [| |done].
  2: { by apply handleOptionUpdate_inv in H2 as (_ & _ & [?|[? _]]). }
  unfold st_ret in H. simplify_eq. exists o', err'. split; [done|].
  assert (changed id (restart_pending o') c (set_option_objs (<[id:=restart_pending o']> (option_objs c1)) c1)) as Hch1.
  { split.
    - etransitivity; [by apply (changed_kept _ _ _ _ Hch)|by split].
    - simpl. rewrite (changed_objs _ _ _ _ Hch). by rewrite list_insert_insert_eq.
    - exists o. split; [done|]. etransitivity; [done|]. apply restart_pending_same.
    - intros _. simpl. exact Hl. }
  by destruct (changed_ok id (restart_pending o') push c _ c' Hc (restart_pending_ok _ Hok') Hch1 Hl H2).
Qed.

Lemma option_ok_level (o : cfg_option) : option_ok o → ∃ v, level_value o = Some v.
Proof.
  intros [(fb & Hfb & _) _ _]. unfold level_value. rewrite Hfb.
  destruct (activeDefaultValue o); [by eexists|]. destruct (activeValue o); by eexists.
Qed.

Lemma changed_same_values id (o o' : cfg_option) (c c' : config) :
  config_ok c → config_ok c' → option_objs c !! id = Some o → changed id o' c c' → same_values o o' → evolves c c'.
Proof.
  intros Hc Hc' Ho Hch [Hsa Hsd]. pose proof (changed_moved _ _ _ _ Hch) as [Hop Hv Hf Hobj].
  assert (option_objs c' !! id = Some o') as Ho' by (rewrite (changed_objs _ _ _ _ Hch); apply list_lookup_insert_eq; by eapply lookup_lt_Some).
  split; [done|by rewrite Hf|]. right. split_and!; [done| |].
  - destruct (decide (releaseLevelOption c = Some id)) as [Hid|Hne]; [|by apply (changed_level _ _ _ _ Hch)].
    pose proof (proj1 (Forall_lookup _ _) (objs_ok c' Hc') id o' Ho') as Hok'.
    destruct (option_ok_level o' Hok') as [v Hv']. pose proof (kept_release _ _ (changed_kept _ _ _ _ Hch)) as Hr.
    rewrite (levels_ok c' Hc' id o' v); [|congruence|done|done]. symmetry. apply (levels_ok c Hc id o v); [done..|].
    destruct (mv_objs _ _ (changed_moved _ _ _ _ Hch) _ _ Ho) as (o1 & Ho1 & Hs). rewrite Ho' in Ho1. injection Ho1 as <-.
    unfold level_value in *. by rewrite <- Hsa, <- Hsd, <- (same_fallback _ _ Hs).
  - intros j oj Hoj. destruct (decide (j = id)) as [->|Hne].
    + exists o'. rewrite Ho in Hoj. injection Hoj as <-. done.
    + exists oj. by rewrite (changed_objs _ _ _ _ Hch), list_lookup_insert_ne.
Qed.

(** What follows the change of a value: nothing after an error, otherwise the
    signal and, for the user's values, saving. *)
Lemma sound_set set v push key (after : st config cfg_error unit) :
  value_setter set → sound after →
  sound (let$ id := GetOption key in
         let$ err := set_option_value set id v push in
         match err with
         | Some e => st_fail e
         | None => let$ _ := signalChanges in after
         end).
Proof.
  intros Hset Hafter c c' r Hc H Hr. unfold st_bind at 1, GetOption at 1 in H.
  destruct (options c !! key) as [id|] eqn:Hkey; [|by simplify_eq].
  destruct (registered_ok c Hc _ _ Hkey) as (o & Ho & _).
  apply st_bind_cases in H as [(c1 & err & H1 & H)|[(e & H1 & ->)|[_ ?]]]; [| |done];
    apply (set_option_value_ok _ _ _ _ _ _ _ _ Hset Hc Ho) in H1 as (o' & err' & Hret & Hc1 & Hass & Hch); try done.
  injection Hret as ->. destruct err' as [e|].
  - unfold st_fail in H. simplify_eq. split; [done|]. eapply changed_same_values; [done..|].
    assert (o' = o) as ->; [|apply restart_pending_same].
    unfold assigned in Hass. destruct v; try (destruct Hass as ([vc|e'] & _ & [? ?]); done). by destruct Hass.
  - apply st_bind_cases in H as [(c2 & [] & H2 & H)|[(e & H2 & _)|[_ ?]]]; [| |done];
      apply (signalChanges_evolves c c1 _ _ (changed_moved _ _ _ _ Hch) Hc Hc1) in H2 as (Hc2 & Hev & Hret2 & _); [|done].
    destruct (Hafter _ _ _ Hc2 H Hr) as [Hc' Hev']. split; [done|by etransitivity].
Qed.

Lemma sound_setConfigOption key v push : sound (setConfigOption os order key v push).
Proof. apply (sound_set set_activeValue); [by left|apply sound_SaveConfig]. Qed.

Lemma sound_setDefaultConfigOption key v push : sound (setDefaultConfigOption key v push).
Proof.
  intros c c' r Hc H Hr.
  apply (sound_set set_activeDefaultValue v push key (st_ret tt) (or_intror eq_refl) (sound_ret tt) c c' r Hc); [|done].
  rewrite <- H. unfold setDefaultConfigOption. unfold st_bind. destruct (GetOption key c) as [c1 [id|e|]]; done.
Qed.

Lemma sound_ConfigStorage_Get key : sound (ConfigStorage_Get key).
Proof.
  apply sound_bind; [apply sound_try, sound_GetOption|]. intros [id|e|]; [|apply sound_fail..].
  apply sound_bind; [apply sound_get_option|]. intros o. apply sound_lift.
Qed.

Lemma sound_ConfigStorage_Put r : sound (ConfigStorage_Put os order r).
Proof.
  unfold ConfigStorage_Put. destruct (0 <? pr_Deleted r)%Z.
  { apply sound_bind; [apply sound_setConfigOption|]. intros _. apply sound_ret. }
  destruct (pr_accessor r) as [acc|]; [|apply sound_fail].
  assert (sound (let$ _ := setConfigOption os order (pr_key r) ANil false in
            let$ w := ConfigStorage_Get (pr_key r) in st_ret (Some w))) as Hreset.
  { apply sound_bind; [apply sound_setConfigOption|]. intros _.
    apply sound_bind; [apply sound_ConfigStorage_Get|]. intros w. apply sound_ret. }
  assert (sound (let$ id := GetOption (pr_key r) in
            let$ o := get_option id in
            match put_value acc o with
            | None => st_fail CfgInvalidValue
            | Some value =>
                let$ _ := setConfigOption os order (pr_key r) value false in
                let$ o := get_option id in
                let$ w := lift_go (Option_export o) in
                st_ret (Some w)
            end)) as Hset.
  { apply sound_bind; [apply sound_GetOption|]. intros id. apply sound_bind; [apply sound_get_option|]. intros o.
    destruct (put_value acc o); [|apply sound_fail]. apply sound_bind; [apply sound_setConfigOption|]. intros _.
    apply sound_bind; [apply sound_get_option|]. intros o'. apply sound_bind; [apply sound_lift|]. intros w. apply sound_ret. }
  destruct (pa_Get acc "Value") as [[]|]; done.
Qed.

Lemma sound_validated id v : sound (validated id v).
Proof. intros c c' r Hc H Hr. by apply validated_inv in H as [-> _]. Qed.

Lemma sound_fold {A B : Type} (f : B → A → st config cfg_error B) l : ∀ b, (∀ b a, sound (f b a)) → sound (st_fold f b l).
Proof.
  induction l as [|a l IH]; intros b Hf; [apply sound_ret|]. cbn [st_fold]. apply sound_bind; [apply Hf|]. intros b'. by apply IH.
Qed.

Lemma sound_ValidateConfig newValues : sound (ValidateConfig order newValues).
Proof.
  apply sound_bind; [apply sound_get|]. intros l. apply sound_bind; [|intros; apply sound_ret].
  apply sound_fold. intros [[errors restart] checked] [key id]. unfold validate_option. cbn [fst snd].
  destruct (newValues !! key); [|apply sound_ret].
  apply sound_bind; [apply sound_validated|]. intros x. apply sound_bind; [apply sound_get_option|]. intros o. apply sound_ret.
Qed.

Lemma sound_NewPerspective tree : sound (NewPerspective order tree).
Proof.
  apply sound_bind; [apply sound_get|]. intros l. apply sound_bind; [|intros; apply sound_ret].
  apply sound_fold. intros [[p n] e] [key id]. unfold perspective_option. cbn [fst snd].
  destruct (Flatten tree !! key); [|apply sound_ret].
  apply sound_bind; [apply sound_validated|]. intros [vc|e']; apply sound_ret.
Qed.

(** Annotations are no values. *)
Lemma sound_annotate id f :
  (∀ o : cfg_option, ∃ a, f o = set_Annotations a o) → sound (update_option id f).
Proof.
  intros Hf c c' r Hc H _. destruct (option_objs c !! id) as [o|] eqn:Ho; [|rewrite update_option_none in H by done; by simplify_eq].
  erewrite update_option_lookup in H by done. simplify_eq. destruct (Hf o) as [a Ha].
  assert (same_registration o (f o) ∧ same_values o (f o)) as [Hs Hsv] by (rewrite Ha; done).
  assert (option_ok (f o)) as Hok.
  { pose proof (proj1 (Forall_lookup _ _) (objs_ok c Hc) id o Ho) as [[fb [Hfb Hafb]] Hact Hdef]. rewrite Ha. split; simpl.
    - exists fb. split; [done|]. by eapply (accepted_ext o).
    - intros vc Hvc. eapply (accepted_ext o); [done|by apply Hact].
    - intros vc Hvc. eapply (accepted_ext o); [done|by apply Hdef]. }
  assert (config_ok (set_option_objs (<[id:=f o]> (option_objs c)) c)) as Hc'.
  { destruct Hc as [Hreg Hobjs Hlast Hflag Hlev Hlo]. split; simpl; [|by apply Forall_insert|done|done| |].
    - intros key j (o0 & Ho0 & Hk)%Hreg. destruct (decide (j = id)) as [->|Hne].
      + exists (f o). rewrite list_lookup_insert_eq by (by eapply lookup_lt_Some). split; [done|]. rewrite (same_Key _ _ Hs). congruence.
      + exists o0. by rewrite list_lookup_insert_ne.
    - intros j o0 v Hj Hoj Hv. destruct (decide (j = id)) as [->|Hne].
      + rewrite list_lookup_insert_eq in Hoj by (by eapply lookup_lt_Some). simplify_eq. apply (Hlev id o); [done..|]. by rewrite Ha in Hv.
      + rewrite list_lookup_insert_ne in Hoj by done. by eapply Hlev.
    - intros j Hj. by apply list_lookup_insert_is_Some, Hlo. }
  split; [done|]. eapply (changed_same_values id o (f o)); try done. by eapply changed_set.
Qed.

(** Registering another option. *)
Lemma check_registration_ok (o o' : cfg_option) :
  activeValue o = None → activeDefaultValue o = None → check_registration o = Ret o' → option_ok o' ∧ opt_Key o' = opt_Key o.
Proof.
  intros Ha Hd. unfold check_registration.
  destruct (String.eqb (opt_Name o) ""); [done|]. destruct (String.eqb (opt_Key o) ""); [done|].
  destruct (String.eqb (opt_Description o) ""); [done|]. destruct (OptType o =? 0)%Z; [done|].
  intros H. destruct (if String.eqb (registration_regex o) "" then _ else _) as [compiled|e|]; [|done..]. cbn [go_bind] in H.
  set (o1 := set_registration (registration_regex o) compiled (activeFallbackValue o) o) in H.
  destruct (validateValue o1 (DefaultValue o1)) as [vc|e|] eqn:Hv; [|done..]. simplify_eq. split; [|done]. split; simpl.
  - exists vc. split; [done|]. exists (DefaultValue o1). rewrite <- Hv. by apply validate_same_checks.
  - by rewrite Ha.
  - by rewrite Hd.
Qed.

Lemma sound_Register (o : cfg_option) :
  activeValue o = None → activeDefaultValue o = None → sound (Config_Register o).
Proof.
  intros Ha Hd. unfold Config_Register. destruct (check_registration o) as [o'|e|] eqn:Ho.
  2,3: by apply sound_result.
  destruct (check_registration_ok o o' Ha Hd Ho) as [Hok Hkey].
  intros c c' r [Hreg Hobjs Hlast Hflag Hlev Hlo] H _. unfold st_bind, lift_go, mod_cfg in H. simplify_eq.
  assert (∀ id oid, option_objs c !! id = Some oid → (option_objs c ++ [o'])%list !! id = Some oid) as Hold
    by (intros; by apply lookup_app_l_Some).
  split; split; simpl.
  - intros key id [[<- <-]|[_ (oid & Hoid & Hk)%Hreg]]%lookup_insert_Some; [|by exists oid; auto].
    exists o'. split; [by apply list_lookup_middle|done].
  - apply Forall_app. split; [done|]. by apply Forall_singleton.
  - done.
  - done.
  - intros id oid v Hr Hoid Hv. destruct (Hlo id Hr) as [o0 Ho0]. rewrite (Hold _ _ Ho0) in Hoid. injection Hoid as <-. by apply (Hlev id o0).
  - intros id Hr. destruct (Hlo id Hr) as [o0 Ho0]. exists o0. by auto.
  - intros id oid Hoid. exists oid. by split; [apply Hold|].
  - done.
  - right. split_and!; [done..|]. intros id oid Hoid. exists oid. by split; [apply Hold|].
Qed.

(** *** Programs *)

Inductive cfg_op : Type :=
| OpRegister (o : cfg_option)
| OpSet (key : string) (value : any) (push : bool)
| OpSetDefault (key : string) (value : any) (push : bool)
| OpReplace (newValues : gmap string any)
| OpReplaceDefault (newValues : gmap string any)
| OpLoad (requireValidConfig : bool)
| OpSave
| OpValidate (newValues : gmap string any)
| OpPerspective (tree : go_map)
| OpGet (key : string)
| OpPut (r : put_record)
| OpDelete (key : string)
| OpAnnotate (id : nat) (overwrite : bool) (key : string) (value : any).

(** The error of an operation is the caller's business. *)
Definition run_op (op : cfg_op) : st config cfg_error unit :=
  match op with
  | OpRegister o => st_ignore (Config_Register o)
  | OpSet key v push => st_ignore (setConfigOption os order key v push)
  | OpSetDefault key v push => st_ignore (setDefaultConfigOption key v push)
  | OpReplace m => st_ignore (ReplaceConfig order m)
  | OpReplaceDefault m => st_ignore (ReplaceDefaultConfig order m)
  | OpLoad require => st_ignore (loadConfig os order require)
  | OpSave => st_ignore (SaveConfig os order)
  | OpValidate m => st_ignore (ValidateConfig order m)
  | OpPerspective tree => st_ignore (NewPerspective order tree)
  | OpGet key => st_ignore (ConfigStorage_Get key)
  | OpPut r => st_ignore (ConfigStorage_Put os order r)
  | OpDelete key => st_ignore (ConfigStorage_Delete os order key)
  | OpAnnotate id true key v => update_option id (setAnnotation key v)
  | OpAnnotate id false key v => update_option id (AddAnnotation key v)
  end.

(** An option that is registered is a new one: it has no values yet. *)
Definition op_fresh (op : cfg_op) : Prop :=
  match op with OpRegister o => activeValue o = None ∧ activeDefaultValue o = None | _ => True end.

Lemma sound_ignore {A : Type} (m : st config cfg_error A) : sound m → sound (st_ignore m).
Proof. intros Hm. apply sound_bind; [by apply sound_try|]. intros _. apply sound_ret. Qed.

Lemma sound_run_op op : op_fresh op → sound (run_op op).
Proof.
  destruct op as [o|k v p|k v p|m|m|b| |m|t|k|r|k|id [] k v]; intros Hf; cbn [run_op]; try apply sound_ignore.
  - by apply sound_Register; apply Hf.
  - apply sound_setConfigOption.
  - apply sound_setDefaultConfigOption.
  - by apply sound_replace; left.
  - by apply sound_replace; right.
  - apply sound_loadConfig.
  - apply sound_SaveConfig.
  - apply sound_ValidateConfig.
  - apply sound_NewPerspective.
  - apply sound_ConfigStorage_Get.
  - apply sound_ConfigStorage_Put.
  - apply sound_setConfigOption.
  - apply sound_annotate. intros o. by eexists.
  - apply sound_annotate. intros o. unfold AddAnnotation. destruct (default ∅ (Annotations o) !! k); by eexists.
Qed.

Lemma sound_run_ops ops : Forall op_fresh ops → sound (st_iter run_op ops).
Proof.
  induction 1 as [|op ops Hop _ IH]; [apply sound_ret|]. apply sound_bind; [by apply sound_run_op|]. intros _. exact IH.
Qed.

(** The registered default is validated as any value. *)
Lemma check_registration_value (o o' : cfg_option) : check_registration o = Ret o' →
  activeValue o' = activeValue o ∧ activeDefaultValue o' = activeDefaultValue o ∧
  ∃ vc, activeFallbackValue o' = Some vc ∧ validateValue o' (DefaultValue o) = Ret vc.
Proof.
  unfold check_registration.
  destruct (String.eqb (opt_Name o) ""); [done|]. destruct (String.eqb (opt_Key o) ""); [done|].
  destruct (String.eqb (opt_Description o) ""); [done|]. destruct (OptType o =? 0)%Z; [done|].
  intros H. destruct (if String.eqb (registration_regex o) "" then _ else _) as [compiled|e|]; [|done..]. cbn [go_bind] in H.
  set (o1 := set_registration (registration_regex o) compiled (activeFallbackValue o) o) in H.
  destruct (validateValue o1 (DefaultValue o1)) as [vc|e|] eqn:Hv; [|done..]. simplify_eq. split_and!; [done..|].
  exists vc. split; [done|]. rewrite <- Hv. by apply validate_same_checks.
Qed.

(** The state after init keeps the invariant. *)
Lemma zero_config_ok s : config_ok (zero_config s).
Proof. by split. Qed.

Lemma must_Register_inv (o : cfg_option) (c c' : config) id :
  activeValue o = None → activeDefaultValue o = None → config_ok c → must_Register o c = (c', Ret id) →
  config_ok c' ∧ releaseLevelOption c' = releaseLevelOption c ∧ releaseLevel c' = releaseLevel c ∧
  ∃ o', check_registration o = Ret o' ∧ option_objs c' !! id = Some o'.
Proof.
  intros Ha Hd Hc H. unfold must_Register in H. unfold st_bind at 1, get_cfg in H.
  apply st_bind_inv in H as (c1 & x & H1 & H). unfold st_try in H1.
  destruct (Config_Register o c) as [c2 [[]|e|]] eqn:Hreg; simplify_eq; try done.
  unfold st_ret in H. simplify_eq. destruct (sound_Register o Ha Hd _ _ _ Hc Hreg) as [Hc' _]; [done|].
  unfold Config_Register, st_bind, lift_go, mod_cfg in Hreg. destruct (check_registration o) as [o'|e|]; simplify_eq.
  split_and!; [done..|]. exists o'. split; [done|]. by apply list_lookup_middle.
Qed.

Lemma config_init_ok s (c : config) : config_init (zero_config s) = (c, Ret tt) → config_ok c.
Proof.
  intros H. unfold config_init in H. apply st_bind_inv in H as (c1 & [] & H1 & H).
  unfold registerExpertiseLevelOption in H1. apply st_bind_inv in H1 as (c2 & id & H1 & H2).
  apply must_Register_inv in H1 as ([] & Hr2 & Hl2 & _); [|done|done|apply zero_config_ok].
  unfold mod_cfg in H2. simplify_eq.
  unfold registerReleaseLevelOption in H. apply st_bind_inv in H as (c3 & id3 & H1 & H2).
  apply must_Register_inv in H1 as ([] & Hr3 & Hl3 & o' & Ho' & Hid); [|done|done|by split].
  unfold mod_cfg in H2. simplify_eq. split; simpl in *; [done..| |].
  - intros j o v [= <-] Ho Hv. rewrite Hid in Ho. injection Ho as <-.
    destruct (check_registration_value _ _ Ho') as (Ha & Hd & vc & Hfb & (Hconv & _)%validateValue_spec).
    unfold level_value in Hv. rewrite Ha, Hd, Hfb in Hv. simpl in Hv. simplify_eq. inversion Hconv. subst.
    by rewrite Hl3, Hl2.
  - intros j [= <-]. by exists o'.
Qed.

(** *** Getters *)

Lemma effective_same level (o o' : cfg_option) :
  same_registration o o' → same_values o o' → effective level o' = effective level o.
Proof. intros Hs [Ha Hd]. unfold effective. by rewrite (same_ReleaseLevel _ _ Hs), Ha, Hd, (same_fallback _ _ Hs). Qed.

(** What a getter of type [t] has to return for an option. *)
Definition current {A : Type} (t : Z) (field : valueCache → A) (fallback : A) (o : cfg_option) (c : config) : A :=
  value_or field fallback (if (t =? OptType o)%Z then effective (releaseLevel c) o else None).

Lemma getValueCache_spec name t id (o : cfg_option) (c : config) :
  option_objs c !! id = Some o →
  getValueCache name (Some id) t c = (Some id, if (t =? OptType o)%Z then effective (releaseLevel c) o else None).
Proof.
  intros Ho. unfold getValueCache. rewrite Ho. unfold effective, getReleaseLevel.
  destruct (t =? OptType o)%Z; [|done]. simpl. f_equal.
  destruct (ReleaseLevel o <=? releaseLevel c)%Z; simpl; [destruct (activeValue o); simpl; [done|]|]; by destruct (activeDefaultValue o).
Qed.

(** A getter that has found its option: its value is current or its flag is cleared. *)
Record getter_ok {A : Type} (id : nat) (t : Z) (field : valueCache → A) (fallback : A) (g : getter A) (c : config) : Prop := {
  gk_type : g_type g = t;
  gk_field : g_field g = field;
  gk_fallback : g_fallback g = fallback;
  gk_option : g_option g = Some id;
  gk_fresh : flags c !! g_valid g = Some false ∨
    (g_valid g = validityFlag c ∧ ∃ o, option_objs c !! id = Some o ∧ g_value g = current t field fallback o c);
}.

Lemma getter_ok_evolves {A : Type} id t (field : valueCache → A) fallback g (c c' : config) :
  getter_ok id t field fallback g c → evolves c c' → getter_ok id t field fallback g c'.
Proof.
  intros [Ht Hfi Hfa Hop Hfr] [Hobjs Hflags Hview]. split; [done..|]. destruct Hfr as [Hf|(Hv & o & Ho & Hval)]; [left; by auto|].
  destruct Hview as [Hcl|(Hv' & Hl & Hs)]; [left; by rewrite Hv|right]. split; [congruence|].
  destruct (Hobjs _ _ Ho) as (o' & Ho' & Hreg). destruct (Hs _ _ Ho) as (o2 & Ho2 & Hsv). simplify_eq.
  exists o'. split; [done|]. rewrite Hval. unfold current. by rewrite (same_OptType _ _ Hreg), Hl, (effective_same _ o o').
Qed.

Lemma GetAs_ok {A : Type} t (field : valueCache → A) name fallback (c : config) id :
  config_ok c → options c !! name = Some id → getter_ok id t field fallback (GetAs t field name fallback c) c.
Proof.
  intros Hc Hn. destruct (registered_ok c Hc _ _ Hn) as (o & Ho & _). unfold GetAs.
  replace (getValueCache name None t c) with (getValueCache name (Some id) t c) by (unfold getValueCache; by rewrite Hn).
  rewrite (getValueCache_spec _ _ _ o) by done. split; [done..|]. right. split; [done|]. by exists o.
Qed.

Lemma getter_call_ok {A : Type} id t (field : valueCache → A) fallback g (c : config) :
  config_ok c → getter_ok id t field fallback g c → is_Some (option_objs c !! id) →
  getter_ok id t field fallback (getter_call g c).2 c ∧
  ∃ o, option_objs c !! id = Some o ∧ (getter_call g c).1 = current t field fallback o c.
Proof.
  intros Hc [Ht Hfi Hfa Hop Hfr] [o Ho]. unfold getter_call. destruct Hfr as [Hf|(Hv & o' & Ho' & Hval)].
  - rewrite Hf. simpl. rewrite Hop, (getValueCache_spec _ _ _ o), Ht, Hfi, Hfa by done. simpl. split; [|by exists o].
    split; [done..|]. right. split; [done|]. by exists o.
  - rewrite Hv, (flag_set c Hc). simpl. split; [|by exists o']. split; [done..|]. right. split; [done|]. by exists o'.
Qed.

(** Operations of the program and calls of a getter, in any order. *)
Inductive client {A : Type} : config → getter A → config → getter A → Prop :=
| ClientStart c g : client c g c g
| ClientOp c g c1 g1 op c2 : client c g c1 g1 → op_fresh op → run_op op c1 = (c2, Ret tt) → client c g c2 g1
| ClientCall c g c1 g1 : client c g c1 g1 → client c g c1 (getter_call g1 c1).2.

Lemma client_ok {A : Type} id t (field : valueCache → A) fallback (c c' : config) g g' :
  client c g c' g' → config_ok c → getter_ok id t field fallback g c → is_Some (option_objs c !! id) →
  config_ok c' ∧ getter_ok id t field fallback g' c' ∧
  ∀ o, option_objs c !! id = Some o → ∃ o', option_objs c' !! id = Some o' ∧ same_registration o o'.
Proof.
  intros H Hc Hg Hid. induction H as [c g|c g c1 g1 op c2 H IH Hop Hrun|c g c1 g1 H IH].
  - split_and!; [done..|]. intros o Ho. by exists o.
  - destruct IH as (Hc1 & Hg1 & Hs); [done..|]. destruct (sound_run_op op Hop _ _ _ Hc1 Hrun) as [Hc2 Hev]; [done|].
    split_and!; [done|by eapply getter_ok_evolves|]. intros o (o1 & Ho1 & Hs1)%Hs.
    destruct (ev_objs _ _ Hev _ _ Ho1) as (o2 & Ho2 & Hs2). exists o2. split; [done|by etransitivity].
  - destruct IH as (Hc1 & Hg1 & Hs); [done..|]. split_and!; [done| |done].
    destruct Hid as [o Ho]. destruct (Hs o Ho) as (o1 & Ho1 & _). apply getter_call_ok; [done..|by exists o1].
Qed.

End Ops.
