(* ===== verification/ConfigProps.v ===== *)
(** * config: the theorems

    For every program made of the package's operations: stored values are always
    valid, a getter returns the current value, a replaced configuration is the
    one that was given, what is saved is loaded again; and the interleaving of
    writers with a getter. Small concrete options instantiate the theorems. *)

From Stdlib Require Import ZArith Lia Ascii String SpecFloat.
From stdpp Require Import gmap strings list.
From S2P Require Import Prelude GoStrings Dsd Record Query GoAny GoSort GoPath GoFs ConfigTree Config ConfigInv.
Local Open Scope string_scope.

(** ** What JSON keeps *)

(** The values a configuration consists of, with strings JSON can represent. *)
Definition config_leaf (text : string → Prop) (v : any) : Prop :=
  match v with
  | ABool _ | AInt _ _ => True
  | AString s => text s
  | AStrings l => Forall text l
  | _ => False
  end.

(** Encoding and decoding keeps the tree, with the values as JSON has them;
    strings have to be valid UTF-8. *)
Class ConfigCodecLaws (R : Type) `{!ConfigCodec R} := {
  json_text : string → Prop;
  json_config_roundtrip (tree : go_map) (data : bytes) :
    tree_ok (AMap tree) →
    (∀ path w, has_leaf tree path w → Forall json_text path ∧ config_leaf json_text w) →
    json_MarshalConfig (R := R) tree = Some data →
    ∃ tree', json_UnmarshalConfig (R := R) data = Some tree' ∧ tree_ok (AMap tree') ∧
      ∀ path v, has_leaf tree' path v ↔ ∃ w, has_leaf tree path w ∧ v = json_value w;
}.

Section Props.
Context {R : Type} `{!QueryLib R} {proc : Processor} {fmtlib : FmtLib} `{!ConfigCodec R} {sortlib : SortLib} (os : OsEnv).
Context (order : gmap string nat → list (string * nat)).
Context (order_perm : ∀ m, order m ≡ₚ map_to_list m).
Abbreviation cfg_option := (ConfigOption R).
Abbreviation config := (Config (R := R)).

(** *** Nothing panics *)

Lemma level_update_total (f : string → config → config) id (o : cfg_option) (c : config) :
  option_objs c !! id = Some o → option_ok o →
  ∃ v, level_value o = Some v ∧
    (let$ o := get_option id in
     match level_value o with None => cfg_panic | Some value => mod_cfg (f (stringVal value)) end) c
    = (f (stringVal v) c, Ret tt).
Proof.
  intros Ho Hok. destruct (option_ok_level o Hok) as [v Hv]. exists v. split; [done|].
  unfold st_bind, get_option. by rewrite Ho, Hv.
Qed.

Lemma handleOptionUpdate_total id push (o : cfg_option) (c : config) :
  option_objs c !! id = Some o → option_ok o → ∃ c', handleOptionUpdate id push c = (c', Ret tt).
Proof.
  intros Ho Hok. unfold handleOptionUpdate. unfold st_bind at 1, get_cfg at 1.
  assert (∃ c1 : config, (if bool_decide (expertiseLevelOption c = Some id) then updateExpertiseLevel id else st_ret tt) c = (c1, Ret tt) ∧
    option_objs c1 !! id = Some o) as (c1 & H1 & Ho1).
  { case_bool_decide; [|by exists c].
    destruct (level_update_total (λ s c, set_levels (releaseLevel c) (expertise_of_name s) c) id o c Ho Hok) as (v & _ & H1).
    eexists. split; [exact H1|done]. }
  unfold st_bind at 1. rewrite H1. unfold st_bind at 1, get_cfg at 1.
  assert (∃ c2 : config, (if bool_decide (releaseLevelOption c1 = Some id) then updateReleaseLevel id else st_ret tt) c1 = (c2, Ret tt) ∧
    option_objs c2 !! id = Some o) as (c2 & H2 & Ho2).
  { clear H1. case_bool_decide; [|by exists c1].
    destruct (level_update_total (λ s c, set_levels (release_of_name s) (expertiseLevel c) c) id o c1 Ho1 Hok) as (v & _ & H2).
    eexists. split; [exact H2|done]. }
  unfold st_bind at 1. rewrite H2. destruct push; [|by eexists]. unfold pushUpdate, st_bind, get_option. rewrite Ho2.
  assert (Option_export o ≠ Panic) as Hex.
  { unfold Option_export, go_bind. repeat case_match; done. }
  destruct (Option_export o); [by eexists..|done].
Qed.

Lemma validated_total id v x (o : cfg_option) (c : config) :
  option_objs c !! id = Some o → outcome o v x → validated id v c = (c, Ret x).
Proof.
  intros Ho (v' & Hm & Hx). unfold validated, st_bind, get_option, lift_go. rewrite Ho, Hm.
  destruct x as [vc|e]; by rewrite Hx.
Qed.

Lemma replace_option_total set newValues acc key id (o : cfg_option) (c : config) :
  value_setter set → config_ok c → option_objs c !! id = Some o →
  (∀ v, newValues !! key = Some v → ∃ x, outcome o v x) →
  ∃ c' r, replace_option set newValues acc (key, id) c = (c', Ret r).
Proof.
  intros Hset Hc Ho Hval. destruct acc as [errors restart]. unfold replace_option. cbn [fst snd].
  pose proof (proj1 (Forall_lookup _ _) (objs_ok c Hc) id o Ho) as Hok. pose proof (lookup_lt_Some _ _ _ Ho) as Hlt.
  unfold st_bind at 1. erewrite update_option_lookup by done.
  set (c1 := set_option_objs _ c).
  assert (option_objs c1 !! id = Some (set None o)) as Ho1 by by apply list_lookup_insert_eq.
  assert (∃ (c2 : config) errs o2,
    match newValues !! key with
    | None => st_ret errors
    | Some newValue =>
        let$ r := validated id newValue in
        match r with
        | inl vc => let$ _ := update_option id (set (Some vc)) in st_ret errors
        | inr e => st_ret (errors ++ [e])%list
        end
    end c1 = (c2, Ret errs) ∧ option_objs c2 !! id = Some o2 ∧ option_ok o2) as (c2 & errs & o2 & H2 & Ho2 & Hok2).
  { destruct (newValues !! key) as [v|].
    - destruct (Hval v eq_refl) as [x Hx]. assert (outcome (set None o) v x) as Hx1.
      { destruct Hx as (v' & Hm & Hx). exists v'. pose proof (setter_same set None o Hset) as Hs.
        unfold migrateValue in *. rewrite (same_Migrations _ _ Hs). split; [done|]. by rewrite (validate_ext o). }
      unfold st_bind at 1. rewrite (validated_total _ _ _ _ _ Ho1 Hx1). destruct x as [vc|e].
      + unfold st_bind. erewrite update_option_lookup by done. do 3 eexists. split; [done|]. simpl.
        split; [apply list_lookup_insert_eq; by rewrite length_insert|]. apply setter_ok; [done|by apply setter_ok|].
        intros ? [= <-]. eapply (accepted_ext o); [by apply setter_same|]. by eapply outcome_accepted.
      + do 3 eexists. split; [done|]. split; [done|by apply setter_ok].
    - do 3 eexists. split; [done|]. split; [done|by apply setter_ok]. }
  unfold st_bind at 1. rewrite H2.
  destruct (handleOptionUpdate_total id true o2 c2 Ho2 Hok2) as [c3 H3]. unfold st_bind at 1. rewrite H3.
  apply handleOptionUpdate_inv in H3 as (_ & Hobjs & _). unfold st_bind, get_option. rewrite Hobjs, Ho2. by do 2 eexists.
Qed.

Lemma replace_fold_total set newValues l : ∀ acc (c : config),
  value_setter set → config_ok c → NoDup l.*2 →
  (∀ key id, (key, id) ∈ l → ∃ o, option_objs c !! id = Some o ∧ ∀ v, newValues !! key = Some v → ∃ x, outcome o v x) →
  ∃ c' r, st_fold (replace_option set newValues) acc l c = (c', Ret r).
Proof.
  induction l as [|[key id] l IH]; intros acc c Hset Hc Hnd Hall; [by do 2 eexists|].
  apply NoDup_cons in Hnd as [Hni Hnd]. destruct (Hall key id) as (o & Ho & Hval); [by left|].
  destruct (replace_option_total set newValues acc key id o c Hset Hc Ho Hval) as (c1 & r1 & H1).
  destruct (replace_option_ok set newValues acc key id o c c1 _ Hset Hc Ho H1) as (o' & errs & Hc1 & Hch & _); [done|].
  cbn [st_fold]. unfold st_bind at 1. rewrite H1. apply IH; [done..|]. intros k j Hj.
  destruct (Hall k j) as (oj & Hoj & Hvj); [by right|]. exists oj. split; [|done].
  rewrite (changed_objs _ _ _ _ Hch), list_lookup_insert_ne; [done|]. intros <-. apply Hni.
  apply list_elem_of_fmap. by exists (k, id).
Qed.

Lemma replace_config_total set newValues (c : config) :
  value_setter set → config_ok c →
  (∀ key id o v, options c !! key = Some id → option_objs c !! id = Some o → newValues !! key = Some v → ∃ x, outcome o v x) →
  ∃ c' r, replace_config order set newValues c = (c', Ret r).
Proof.
  intros Hset Hc Hval. destruct (registered_ids order order_perm c Hc) as [Hnd _].
  destruct (replace_fold_total set newValues (order (options c)) ([], false) c Hset Hc Hnd) as (c1 & r1 & H1).
  { intros key id. rewrite order_perm, elem_of_map_to_list. intros Hk. destruct (registered_ok c Hc _ _ Hk) as (o & Ho & _).
    exists o. split; [done|]. intros v Hv. by eapply Hval. }
  unfold replace_config. unfold st_bind at 1, get_cfg at 1. unfold st_bind at 1. rewrite H1. by do 2 eexists.
Qed.

(** *** Saving and loading *)

Lemma active_values_spec (c : config) :
  config_ok c →
  NoDup (active_values (order (options c)) c).*1 ∧
  ∀ key v, (key, v) ∈ active_values (order (options c)) c ↔
    ∃ id o vc, options c !! key = Some id ∧ option_objs c !! id = Some o ∧ activeValue o = Some vc ∧ v = getData vc o.
Proof.
  intros Hc. assert (∀ l : list (string * nat), (active_values l c).*1 `sublist_of` l.*1) as Hsub.
  { induction l as [|[k id] l IH]; [done|]. unfold active_values. cbn [omap list_omap].
    destruct (option_objs c !! id) as [o|]; cbn; [destruct (activeValue o) as [vc|]; cbn|];
      [by apply sublist_skip|by apply sublist_cons..]. }
  split.
  - eapply sublist_NoDup; [|apply Hsub]. rewrite order_perm. apply NoDup_fst_map_to_list.
  - intros key v. unfold active_values. rewrite list_elem_of_omap. split.
    + intros ([k id] & Hin & H). rewrite order_perm, elem_of_map_to_list in Hin.
      destruct (option_objs c !! id) as [o|] eqn:Ho; simpl in H; [|done].
      destruct (activeValue o) as [vc|] eqn:Ha; simpl in H; [|done]. simplify_eq. by exists id, o, vc.
    + intros (id & o & vc & Hk & Ho & Ha & ->). exists (key, id). rewrite order_perm, elem_of_map_to_list. split; [done|].
      by rewrite Ho; simpl; rewrite Ha.
Qed.

(** The values set by the user, by key. *)
Definition user_values (c : config) : gmap string any := list_to_map (active_values (order (options c)) c).

Lemma user_values_spec (c : config) key v :
  config_ok c →
  user_values c !! key = Some v ↔
    ∃ id o vc, options c !! key = Some id ∧ option_objs c !! id = Some o ∧ activeValue o = Some vc ∧ v = getData vc o.
Proof.
  intros Hc. destruct (active_values_spec c Hc) as [Hnd Hin]. unfold user_values.
  rewrite <- elem_of_list_to_map by done. apply Hin.
Qed.

Lemma user_values_perm (c : config) : config_ok c → active_values (order (options c)) c ≡ₚ map_to_list (user_values c).
Proof. intros Hc. destruct (active_values_spec c Hc) as [Hnd _]. unfold user_values. by rewrite map_to_list_to_map. Qed.

Lemma WriteFile_inv path data (s s' : Sys) :
  os_WriteFile os path data s = (s', Ret tt) → sys_fs s' !! path = Some (FileNode data).
Proof.
  unfold os_WriteFile, syscall, syscall_torn. destruct (fault os (sys_tick s)); [done|]. repeat case_match; intros; simplify_eq.
  simpl. by rewrite lookup_insert_eq.
Qed.

Lemma SaveConfig_inv (c c' : config) :
  configFilePath c ≠ "" → SaveConfig os order c = (c', Ret tt) →
  ∃ data, json_MarshalConfig (R := R) (Expand (active_values (order (options c)) c)) = Some data ∧
    sys_fs (cfg_sys c') !! configFilePath c = Some (FileNode data).
Proof.
  intros Hp H. unfold SaveConfig in H. unfold st_bind at 1, get_cfg at 1 in H.
  destruct (String.eqb_spec (configFilePath c) ""); [done|]. unfold st_bind, get_cfg in H.
  destruct (json_MarshalConfig _) as [data|]; [|done]. exists data. split; [done|].
  unfold on_cfg_sys, st_wrap in H. destruct (os_WriteFile os (configFilePath c) data (cfg_sys c)) as [s r] eqn:Hw.
  destruct r as [[]|e|]; simplify_eq. by eapply WriteFile_inv.
Qed.

(** The registry again, after a restart: the same options with other values. *)
Definition same_options (c c' : config) : Prop :=
  options c' = options c ∧
  ∀ id o, option_objs c !! id = Some o → ∃ o', option_objs c' !! id = Some o' ∧ same_registration o o'.

(** The keys are clean paths, and none is the directory of another. *)
Definition keys_ok (c : config) : Prop :=
  (∀ key, is_Some (options c !! key) → plain_path key) ∧ path_prefix_free (map_to_list (options c)).*1.

Lemma user_values_flat (c : config) : config_ok c → keys_ok c → flat_ok (user_values c).
Proof.
  intros Hc [Hp Hf]. assert (∀ k, k ∈ (map_to_list (user_values c)).*1 → k ∈ (map_to_list (options c)).*1) as Hsub.
  { intros k ([k' v] & -> & Hk)%list_elem_of_fmap. apply elem_of_map_to_list, user_values_spec in Hk as (id & o & vc & Hk & _); [|done].
    apply list_elem_of_fmap. exists (k', id). by rewrite elem_of_map_to_list. }
  split.
  - intros k v (id & o & vc & Hk & _ & _ & ->)%user_values_spec; [|done]. split; [apply Hp; by exists id|].
    unfold getData. by repeat case_match.
  - intros k k' Hk%Hsub Hk'%Hsub. by apply Hf.
Qed.

Lemma user_values_tree (c : config) :
  config_ok c → keys_ok c →
  let tree := Expand (active_values (order (options c)) c) in
  tree_ok (AMap tree) ∧ ∀ path v, has_leaf tree path v ↔ ∃ key, user_values c !! key = Some v ∧ path = Split key "/".
Proof.
  intros Hc Hk tree. destruct (user_values_flat c Hc Hk) as [Hm Hf]. pose proof (user_values_perm c Hc) as Hperm.
  destruct (Expand_spec (active_values (order (options c)) c)) as [Ht Hl].
  - rewrite Hperm. apply NoDup_fst_map_to_list.
  - intros k k'. rewrite Hperm. apply Hf.
  - rewrite Hperm. apply Forall_forall. intros [k v] Hin. apply (Hm k), elem_of_map_to_list, Hin.
  - split; [done|]. intros path v. unfold tree. rewrite Hl. setoid_rewrite Hperm. by setoid_rewrite elem_of_map_to_list.
Qed.

Lemma JSONToMap_saved `{!ConfigCodecLaws R} (c : config) data :
  config_ok c → keys_ok c →
  (∀ key v, user_values c !! key = Some v → Forall json_text (Split key "/") ∧ config_leaf json_text v) →
  json_MarshalConfig (R := R) (Expand (active_values (order (options c)) c)) = Some data →
  JSONToMap (R := R) data = Ret (json_value <$> user_values c).
Proof.
  intros Hc Hk Htext Hdata. destruct (user_values_tree c Hc Hk) as [Ht Hl].
  destruct (json_config_roundtrip _ data Ht) as (tree & Hdec & Htree & Hleaf); [|done|].
  { intros path w (key & Hw & ->)%Hl. by apply Htext. }
  unfold JSONToMap. rewrite Hdec. f_equal. apply map_eq. intros key. apply option_eq. intros v.
  rewrite Flatten_spec, lookup_fmap_Some by done. setoid_rewrite Hleaf. setoid_rewrite Hl. split.
  - intros (path & (w & (k & Hw & ->) & ->) & ->). exists w. by rewrite Join_Split.
  - intros (w & <- & Hw). exists (Split key "/"). rewrite Join_Split. split; [|done]. exists w. split; [|done]. by exists key.
Qed.

Lemma loadConfig_replaces (c c' : config) data newValues errs restart :
  configFilePath c ≠ "" → fault os (sys_tick (cfg_sys c)) = None →
  sys_fs (cfg_sys c) !! configFilePath c = Some (FileNode data) → JSONToMap (R := R) data = Ret newValues →
  replace_config order set_activeValue newValues (set_cfg_sys (mkSys (sys_fs (cfg_sys c)) (S (sys_tick (cfg_sys c)))) c) = (c', Ret (errs, restart)) →
  errs = [] → loadConfig os order true c = (set_loaded_errors [] c', Ret tt).
Proof.
  intros Hp Hfault Hfile Hmap Hrep ->. unfold loadConfig. unfold st_bind at 1, get_cfg at 1.
  destruct (String.eqb_spec (configFilePath c) ""); [done|].
  unfold st_bind at 1, on_cfg_sys, st_wrap, os_ReadFile, syscall, syscall_torn. rewrite Hfault, Hfile. cbn [go_mapError].
  unfold st_bind at 1, lift_go. rewrite Hmap. unfold st_bind at 1, ReplaceConfig. rewrite Hrep. done.
Qed.

Lemma same_options_refl (c c' : config) : option_objs c' = option_objs c → options c' = options c → same_options c c'.
Proof. intros Ho Hop. split; [done|]. intros id o Hid. exists o. by rewrite Ho. Qed.

Lemma outcome_unique (o : cfg_option) v x y : outcome o v x → outcome o v y → x = y.
Proof.
  intros (v1 & Hm1 & Hx) (v2 & Hm2 & Hy). rewrite Hm1 in Hm2. injection Hm2 as <-.
  destruct x, y; rewrite Hx in Hy; by simplify_eq.
Qed.

(** A value the option holds is accepted again after JSON. *)
Lemma reload_outcome {proc_laws : ProcessorLaws} (o o' : cfg_option) vc :
  accepted o vc → json_safe o vc → Migrations o = [] → same_registration o o' →
  outcome o' (json_value (getData vc o)) (inl vc).
Proof.
  intros Hacc Hsafe Hmig Hs. exists (json_value (getData vc o)).
  split; [unfold migrateValue; by rewrite (same_Migrations _ _ Hs), Hmig|].
  rewrite (validate_ext o o' Hs). by apply revalidate_json.
Qed.

(** Options whose values are not changed by JSON. *)
Definition reloadable `{!ConfigCodecLaws R} (c : config) : Prop :=
  (∀ key, is_Some (options c !! key) → Forall json_text (Split key "/")) ∧
  ∀ id o vc, option_objs c !! id = Some o → activeValue o = Some vc →
    Migrations o = [] ∧ json_safe o vc ∧ config_leaf json_text (getData vc o).


(** C10: Whatever the program does with the package after its initialisation, every
    registered option has a value, and that value has passed the option's
    validation, whichever layer it comes from and whatever release level is
    active: it has the option's type, integers fit into 64 bits, strings match
    the option's regular expression. Registered options are new ones, in
    registrations that happen in between too; the program may use all operations
    of the package with any arguments, including invalid ones. *)
Theorem config_well_typed {proc_laws : ProcessorLaws} (s : Sys) (ops : list (cfg_op (R := R))) (c c' : config) key id :
  config_init (zero_config s) = (c, Ret tt) → Forall op_fresh ops → st_iter (run_op os order) ops c = (c', Ret tt) →
  options c' !! key = Some id →
  ∃ o, option_objs c' !! id = Some o ∧ opt_Key o = key ∧
    ∀ level, ∃ vc, effective level o = Some vc ∧ accepted o vc ∧ well_typed o vc.
Proof.
  intros Hinit Hfresh Hrun Hkey. pose proof (config_init_ok _ _ Hinit) as Hc.
  destruct (sound_run_ops os order order_perm ops Hfresh _ _ _ Hc Hrun) as [Hc' _]; [done|].
  destruct (registered_ok c' Hc' _ _ Hkey) as (o & Ho & Hk). exists o. split_and!; [done..|]. intros level.
  destruct (proj1 (Forall_lookup _ _) (objs_ok c' Hc') id o Ho) as [(fb & Hfb & Hafb) Hact Hdef].
  assert (∃ vc, effective level o = Some vc ∧ accepted o vc) as (vc & Hvc & Hacc).
  { unfold effective. rewrite Hfb. destruct (activeValue o) as [a|], (activeDefaultValue o) as [d|], (ReleaseLevel o <=? level)%Z;
      eexists; (split; [done|]); by auto. }
  exists vc. split_and!; [done..|]. by apply accepted_well_typed.
Qed.


(** ReplaceConfig gives every registered option exactly the value it has in the
    new configuration: the validated (and migrated) one; none, with an error
    reported, if it is not valid; and none if the configuration has no value
    for it. It changes nothing else of any option, reports whether an option
    needs a restart, and outdates all getters. *)
Theorem ReplaceConfig_exact (newValues : gmap string any) (c c' : config) r :
  config_ok c → ReplaceConfig order newValues c = (c', r) → r ≠ Panic →
  flags c' !! validityFlag c = Some false ∧
  ∃ errss, r = Ret (concat errss, restarts c (order (options c))) ∧
    Forall2 (λ '(key, id) errs, ∃ o x, option_objs c !! id = Some o ∧
      option_objs c' !! id = Some (set_activeValue (match x with Some (inl vc) => Some vc | _ => None end) o) ∧
      errs = (match x with Some (inr e) => [e] | _ => [] end) ∧
      match newValues !! key with
      | Some v => ∃ y, x = Some y ∧ outcome o v y
      | None => x = None
      end) (order (options c)) errss.
Proof.
  intros Hc H Hr. destruct (replace_config_ok order order_perm set_activeValue newValues c c' r (or_introl eq_refl) Hc H Hr)
    as (Hc' & _ & Hop & Hcl & errss & -> & Hall). split; [done|].
  exists errss. split; [done|]. eapply Forall2_impl; [exact Hall|]. intros [key id] errs (o & o' & Ho & Ho' & Hrep).
    simpl in *. exists o. unfold replaced in Hrep. destruct (newValues !! key) as [v|].
  - destruct Hrep as (x & Hx & Hrep). exists (Some x). rewrite Ho'. destruct x as [vc|e]; destruct Hrep as [-> ->];
        (split_and!; [done..|by eexists]).
  - destruct Hrep as [-> ->]. exists None. by rewrite Ho'.
Qed.

Lemma SaveConfig_only_file (c c' : config) r :
  SaveConfig os order c = (c', r) → c' = set_cfg_sys (cfg_sys c') c.
Proof.
  unfold SaveConfig, st_bind, get_cfg, on_cfg_sys, st_ret, st_fail. destruct (String.eqb (configFilePath c) ""); [|destruct (json_MarshalConfig _)].
  - intros. simplify_eq. by destruct c'.
  - destruct (st_wrap _ _ _). intros. by simplify_eq.
  - intros. simplify_eq. by destruct c'.
Qed.

(** The user's value after setConfigOption, and the error of the validation. *)
Inductive set_result (o : cfg_option) : any → option valueCache → option cfg_error → Prop :=
| SetNil : set_result o ANil None None
| SetValid v vc : v ≠ ANil → outcome o v (inl vc) → set_result o v (Some vc) None
| SetInvalid v e : v ≠ ANil → outcome o v (inr e) → set_result o v (activeValue o) (Some e).

(** SetConfigOption and setConfigOption: nil removes the user's value, a valid
    value replaces it, an invalid one leaves it as it is and its error is
    returned. Without an error all getters are outdated and the result is that
    of saving the new state; with an error nothing is signalled and nothing is
    written. Neither the option's default nor any other option changes. *)
Theorem setConfigOption_outcome (key : string) (v : any) (push : bool) (c c' : config) r id (o : cfg_option) :
  config_ok c → options c !! key = Some id → option_objs c !! id = Some o →
  setConfigOption os order key v push c = (c', r) → r ≠ Panic →
  ∃ o' err, option_objs c' = <[id := o']> (option_objs c) ∧ same_registration o o' ∧
    activeDefaultValue o' = activeDefaultValue o ∧ set_result o v (activeValue o') err ∧
    match err with
    | Some e => r = Fail e ∧ flags c' = flags c ∧ cfg_sys c' = cfg_sys c
    | None => flags c' !! validityFlag c = Some false ∧
        ∃ c1, SaveConfig os order c1 = (c', r) ∧ option_objs c1 = option_objs c'
    end.
Proof.
  intros Hc Hkey Ho H Hr. unfold setConfigOption in H. unfold st_bind at 1, GetOption in H. rewrite Hkey in H.
  assert (∀ (o1 : cfg_option) err, assigned set_activeValue o v o1 err →
    same_registration o (restart_pending o1) ∧ activeDefaultValue (restart_pending o1) = activeDefaultValue o ∧
    set_result o v (activeValue (restart_pending o1)) err) as Hass.
  { intros o1 err H1. destruct (restart_pending_same o1) as [Hs [-> ->]].
    assert (v = ANil ∨ v ≠ ANil) as [->|Hv] by (destruct v; auto); [destruct H1 as [-> ->]; split_and!; [by etransitivity; [|exact Hs]|done|constructor]|].
    assert (∃ x, outcome o v x ∧ match x with inl vc => o1 = set_activeValue (Some vc) o ∧ err = None | inr e => o1 = o ∧ err = Some e end)
      as ([vc|e] & Hx & -> & ->) by (by destruct v).
    - split_and!; [by etransitivity; [|exact Hs]|done|by constructor].
    - split_and!; [done..|by constructor]. }
  apply st_bind_cases in H as [(c1 & err & H1 & H)|[(e & H1 & _)|[_ ?]]]; [| |done];
    apply (set_option_value_ok _ _ _ _ _ _ _ _ (or_introl eq_refl) Hc Ho) in H1 as (o1 & err1 & Herr & Hc1 & H1 & Hch); try done.
  injection Herr as ->. destruct (Hass _ _ H1) as (Hs & Hd & Hset). exists (restart_pending o1), err1. destruct err1 as [e|].
  - unfold st_fail in H. simplify_eq. pose proof (changed_kept _ _ _ _ Hch) as []. by split_and!; try apply Hch.
  - unfold st_bind, signalChanges, mod_cfg in H. pose proof (SaveConfig_only_file _ _ _ H) as Heq.
    assert (option_objs c' = option_objs c1) as Hobj by (by rewrite Heq).
    split_and!; [by rewrite Hobj; apply Hch|done..| |].
    + pose proof (changed_kept _ _ _ _ Hch) as [_ Hv Hf _ _ _ _]. rewrite Heq. simpl. rewrite Hv, Hf.
      pose proof (lookup_lt_Some _ _ _ (flag_set c Hc)). rewrite lookup_app_l by (by rewrite length_insert).
      by apply list_lookup_insert_eq.
    + eexists. split; [exact H|]. by rewrite Hobj.
Qed.

(** The conditions by enumeration. *)
Lemma keys_ok_check (c : config) :
  Forall plain_path (map_to_list (options c)).*1 →
  Forall (λ k, Forall (λ k', Split k "/" `prefix_of` Split k' "/" → k = k') (map_to_list (options c)).*1)
    (map_to_list (options c)).*1 → keys_ok c.
Proof.
  intros H1 H2. split.
  - intros key [id Hk%elem_of_map_to_list]. apply (proj1 (Forall_forall _ _) H1), list_elem_of_fmap. by exists (key, id).
  - intros k k' Hk Hk'. apply (proj1 (Forall_forall _ _) H2) in Hk. exact (proj1 (Forall_forall _ _) Hk _ Hk').
Qed.

Lemma same_options_check (c c' : config) :
  options c' = options c → Forall2 same_registration (option_objs c) (option_objs c') → same_options c c'.
Proof.
  intros Hop Hall. split; [done|]. intros id o Ho. destruct (Forall2_lookup_l _ _ _ _ _ Hall Ho) as (o' & Ho' & Hs). by exists o'.
Qed.

Lemma reloadable_check `{!ConfigCodecLaws R} (c : config) :
  (∀ s, json_text s) →
  Forall (λ o, match activeValue o with
               | Some vc => Migrations o = [] ∧ json_safe o vc ∧ config_leaf json_text (getData vc o)
               | None => True
               end) (option_objs c) → reloadable c.
Proof.
  intros Ht Hall. split; [intros; by apply Forall_true|]. intros id o vc Ho Ha.
  pose proof (proj1 (Forall_lookup _ _) Hall id o Ho) as H. simpl in H. by rewrite Ha in H.
Qed.

End Props.

(** ** Small instances *)

(** Every regular expression matches, texts of values are empty, and JSON is
    that of a configuration with the single option "dev". *)
#[local] Instance lax_lib : QueryLib string := {|
  regexp_Compile s := Some s; regexp_MatchString _ _ := true; regexp_String s := s;
  ParseFloat64 _ := None; FormatFloat _ := "";
  msg_int64 _ := ""; msg_float64 _ := ""; msg_string _ := ""; msg_strings _ := "";
  msg_regex _ := ""; msg_bool _ := ""; msg_operator _ := "";
|}.

#[local] Instance blank_fmt : FmtLib := {| Sprint_v _ := "" |}.

#[local] Instance zero_processor : Processor := {| float_overflow _ _ := 0%Z |}.

#[local] Instance zero_processor_laws : ProcessorLaws.
Proof. split. intros k f. by destruct k. Qed.

#[local] Instance dev_codec : ConfigCodec string := {|
  json_MarshalOption o := Some [];
  sjson_SetBytes data _ _ := Some data;
  json_MarshalConfig tree :=
    match tree with
    | [(k, ABool b)] => if String.eqb k "dev" then Some [if b then 1%Z else 0%Z] else None
    | _ => None
    end;
  json_UnmarshalConfig data :=
    match data with
    | [b] => Some [("dev", ABool (Z.eqb b 1))]
    | _ => None
    end;
|}.

Lemma dev_codec_roundtrip (tree : go_map) (data : bytes) :
  json_MarshalConfig (R := string) tree = Some data →
  ∃ tree', json_UnmarshalConfig (R := string) data = Some tree' ∧ tree_ok (AMap tree') ∧
    ∀ path v, has_leaf tree' path v ↔ ∃ w, has_leaf tree path w ∧ v = json_value w.
Proof.
  intros H. simpl in H.
  destruct tree as [|[k v] [|]]; [done| |by destruct v]. destruct v as [| |b| | | | | |]; try done.
  destruct (String.eqb_spec k "dev") as [->|]; [|done]. injection H as <-.
  exists [("dev", ABool b)]. split; [by destruct b|]. split.
  { simpl. split_and!; [apply NoDup_singleton|by apply Forall_singleton, (bool_decide_unpack _); vm_compute|done..]. }
  assert (∀ path v, has_leaf [("dev", ABool b)] path v → v = ABool b) as Hone.
  { intros path v (Hne & Hl & _). destruct path as [|p path]; [done|]. cbn [lookup_path map_get] in Hl.
    destruct (String.eqb "dev" p); [|done]. destruct path; cbn in Hl; congruence. }
  intros path v. split.
  - intros Hv. pose proof (Hone _ _ Hv) as ->. by exists (ABool b).
  - intros (w & Hw & ->). by pose proof (Hone _ _ Hw) as ->.
Qed.

#[local] Instance dev_codec_laws : ConfigCodecLaws string :=
  {| json_text _ := True; json_config_roundtrip tree data _ _ := dev_codec_roundtrip tree data |}.

Definition dev_option : ConfigOption string :=
  mkOption "Development" "dev" "Enables more output." OptTypeBool 0 ReleaseLevelBeta false (ABool false) "" None None
    None [] None None None None.

Definition no_faults : OsEnv := mkOsEnv (λ _, None) (λ _, "") "/tmp" (λ _, None) (λ _ _, false).

Definition by_map (m : gmap string nat) : list (string * nat) := map_to_list m.

Definition dev_start : Config := (config_init (R := string) (zero_config (mkSys ∅ 0))).1.

(** An option of the beta level; its value counts once beta is enabled. *)
Definition dev_ops : list (cfg_op (R := string)) :=
  [OpRegister dev_option; OpSet "dev" (AString "yes") true; OpSetDefault "dev" (ABool false) false].

Definition dev_later : list (cfg_op (R := string)) :=
  [OpSet "dev" (ABool true) true; OpReplaceDefault {[releaseLevelKey := AString "beta"]}].

Definition dev_end : Config := (st_iter (run_op (R := string) no_faults by_map) (dev_ops ++ dev_later)%list dev_start).1.

Lemma by_map_perm m : by_map m ≡ₚ map_to_list m.
Proof. done. Qed.

Lemma dev_start_eq : config_init (zero_config (mkSys ∅ 0)) = (dev_start, Ret tt).
Proof. by vm_compute. Qed.

Lemma dev_fresh : Forall op_fresh (dev_ops ++ dev_later)%list.
Proof. by repeat constructor. Qed.

Lemma config_well_typed_witness :
  ∃ o, option_objs dev_end !! 2%nat = Some o ∧ opt_Key o = "dev" ∧
    ∀ level, ∃ vc, effective level o = Some vc ∧ accepted o vc ∧ well_typed o vc.
Proof.
  refine (config_well_typed no_faults by_map by_map_perm (mkSys ∅ 0) (dev_ops ++ dev_later)%list dev_start dev_end "dev" 2 dev_start_eq dev_fresh _ _).
  - by vm_compute.
  - by vm_compute.
Defined.

Definition dev_registered : Config := (st_iter (run_op (R := string) no_faults by_map) dev_ops dev_start).1.

Definition dev_getter : getter bool := GetAs OptTypeBool boolVal "dev" false dev_registered.

Definition dev_set : Config := (run_op (R := string) no_faults by_map (OpSet "dev" (ABool true) true) dev_registered).1.

Definition dev_beta : Config :=
  (run_op (R := string) no_faults by_map (OpReplaceDefault {[releaseLevelKey := AString "beta"]}) dev_set).1.


Lemma dev_beta_ok : config_ok dev_beta.
Proof.
  destruct (sound_run_ops no_faults by_map by_map_perm (dev_ops ++ dev_later)%list dev_fresh dev_start dev_beta (Ret tt)) as [H _];
    [by eapply config_init_ok, dev_start_eq|by vm_compute|done|exact H].
Qed.

Definition dev_option_at (c : Config) : ConfigOption string := default dev_option (option_objs c !! 2%nat).

Lemma ReplaceConfig_exact_witness :
  let new : gmap string any := {["dev" := AString "yes"; expertiseLevelKey := AString "expert"]} in
  let c' := (ReplaceConfig by_map new dev_beta).1 in
  flags c' !! validityFlag dev_beta = Some false ∧ activeValue (dev_option_at c') = None ∧
  (ReplaceConfig by_map new dev_beta).2 = Ret ([CfgInvalid "dev" (BadType OptTypeBool TString)], false).
Proof.
  intros new c'. destruct (ReplaceConfig_exact by_map by_map_perm new dev_beta c' (ReplaceConfig by_map new dev_beta).2 dev_beta_ok)
    as (Hflag & _); [by vm_compute|by vm_compute|]. by split_and!; [|vm_compute..].
Defined.

Lemma setConfigOption_outcome_witness :
  let c' := (setConfigOption no_faults by_map "dev" (AInt KInt 7) true dev_beta).1 in
  ∃ o', option_objs c' = <[2%nat := o']> (option_objs dev_beta) ∧
    set_result (dev_option_at dev_beta) (AInt KInt 7) (activeValue o') (Some (CfgInvalid "dev" (BadType OptTypeBool (TInt KInt)))) ∧
    flags c' = flags dev_beta.
Proof.
  intros c'. destruct (setConfigOption_outcome no_faults by_map "dev" (AInt KInt 7) true dev_beta c'
    (Fail (CfgInvalid "dev" (BadType OptTypeBool (TInt KInt)))) 2 (dev_option_at dev_beta) dev_beta_ok)
    as (o' & err & Hobj & _ & _ & Hset & Herr); [by vm_compute..|].
  destruct err as [e|]; [destruct Herr as (He & Hf & _)|destruct Herr as [Hf _]; by vm_compute in Hf]. injection He as <-.
  exists o'. exact (conj Hobj (conj Hset Hf)).
Defined.

(** Saved, and loaded again after a restart. *)
Definition dev_saving : Config := set_configFilePath "/" dev_beta.

Definition dev_saved : Config := (SaveConfig no_faults by_map dev_saving).1.

Definition dev_restarted : Config :=
  set_configFilePath "/" (st_iter (run_op (R := string) no_faults by_map) dev_ops (config_init (R := string) (zero_config (cfg_sys dev_saved))).1).1.

Lemma set_configFilePath_ok root (c : Config (R := string)) : config_ok c → config_ok (set_configFilePath root c).
Proof. intros []. by split. Qed.

Lemma dev_restarted_ok : config_ok dev_restarted.
Proof.
  apply set_configFilePath_ok.
  destruct (sound_run_ops no_faults by_map by_map_perm dev_ops) with (c := (config_init (R := string) (zero_config (cfg_sys dev_saved))).1)
    (c' := (st_iter (run_op (R := string) no_faults by_map) dev_ops (config_init (R := string) (zero_config (cfg_sys dev_saved))).1).1)
    (r := Ret (E := cfg_error) tt) as [H _]; [by repeat constructor| |by vm_compute|done|exact H].
  apply (config_init_ok (cfg_sys dev_saved)). by vm_compute.
Qed.


(** ** Findings *)

Section Findings.
Context {R : Type} `{!QueryLib R} {proc : Processor} {fmtlib : FmtLib} `{!ConfigCodec R} {sortlib : SortLib} (os : OsEnv).
Context (order : gmap string nat → list (string * nat)).
Abbreviation cfg_option := (ConfigOption R).
Abbreviation config := (Config (R := R)).

(** JSON null for an option with possible values panics: reflect's
    ConvertibleTo gets a nil type. *)
Lemma null_with_possible_values_panics (o : cfg_option) vals :
  PossibleValues o = Some vals → vals ≠ [] → OptType o ≠ OptTypeStringArray → validateValue o ANil = Panic.
Proof.
  intros Hp Hv Ht. unfold validateValue, validate_with. destruct (Z.eqb_spec (OptType o) OptTypeStringArray); [done|].
  unfold isAllowedPossibleValue. rewrite Hp. destruct vals as [|pv vals]; [done|].
  simpl. by destruct (TypeOf (pv_Value pv)).
Qed.

(** A migration that returns a slice panics when it is compared with the slice
    it was given. *)
Lemma migrated_slice_panics (o : cfg_option) f l l' :
  Migrations o = [f] → f (AList l) = AList l' → migrateValue (E := cfg_error) o (AList l) = Panic.
Proof. intros Hm Hf. unfold migrateValue. rewrite Hm. simpl. by rewrite Hf. Qed.

(** The level follows the default set at run time although the user has set
    another value, which every getter prefers. *)
Lemma level_default_wins (o : cfg_option) user def :
  activeValue o = Some user → activeDefaultValue o = Some def → (ReleaseLevel o <= 0)%Z →
  level_value o = Some def ∧ ∀ level, (0 <= level)%Z → effective level o = Some user.
Proof.
  intros Hu Hd Hl. unfold level_value, effective. rewrite Hu, Hd. split; [done|]. intros level Hlevel.
  destruct (Z.leb_spec (ReleaseLevel o) level); [done|lia].
Qed.

(** A uint above the int64 range is accepted as a negative number. *)
Lemma uint_wraps (o : cfg_option) z :
  OptType o = OptTypeInt → compiledRegex o = None → PossibleValues o = None → ValidationFunc o = None →
  (2 ^ 63 <= z < 2 ^ 64)%Z → validateValue o (AInt KUint z) = Ret (int_cache (z - 2 ^ 64)).
Proof.
  intros Ht Hr Hp Hf Hz. apply validateValue_spec. split_and!.
  - replace (z - 2 ^ 64)%Z with (wrap_kind KInt64 z).
    + apply ConvInt; [done..|]. unfold matches_regex. by rewrite Hr.
    + unfold wrap_kind. cbn [kind_bits kind_signed]. replace (z + 2 ^ (64 - 1))%Z with (z - 2 ^ 63 + 1 * 2 ^ 64)%Z by lia.
      rewrite Z.mod_add, Z.mod_small by lia. lia.
  - unfold run_ValidationFunc. by rewrite Hf.
  - intros _. unfold isAllowedPossibleValue. by rewrite Hp.
Qed.

(** The restart of an option is announced for a value that was refused. *)
Lemma restart_pending_after_error set id (v : any) (push : bool) (c c' : config) (o : cfg_option) e :
  value_setter set → config_ok c → option_objs c !! id = Some o → RequiresRestart o = true →
  set_option_value set id v push c = (c', Ret (Some e)) →
  ∃ o', option_objs c' !! id = Some o' ∧ same_values o o' ∧
    GetAnnotation "safing/portbase:options:restart-pending" o' = Some (ABool true).
Proof.
  intros Hset Hc Ho Hr H. destruct (set_option_value_ok _ _ _ _ _ _ _ _ Hset Hc Ho H) as (o' & err & Herr & Hc' & Hass & Hch); [done|].
  injection Herr as <-. assert (o' = o) as ->.
  { unfold assigned in Hass. destruct v; try (destruct Hass as ([vc|e'] & _ & [? ?]); done). by destruct Hass. }
  exists (restart_pending o). split_and!.
  - rewrite (changed_objs _ _ _ _ Hch). apply list_lookup_insert_eq. by eapply lookup_lt_Some.
  - apply restart_pending_same.
  - unfold restart_pending. rewrite Hr. unfold GetAnnotation. simpl. by rewrite lookup_insert_eq.
Qed.

(** A getter that was created before its option is registered returns its
    fallback until some value is changed. *)
Lemma getter_before_registration {A : Type} t (field : valueCache → A) name fallback (o : cfg_option) (c c' : config) :
  config_ok c → options c !! name = None → Config_Register o c = (c', Ret tt) →
  (getter_call (GetAs t field name fallback c) c').1 = fallback.
Proof.
  intros Hc Hn H. unfold GetAs, getValueCache. rewrite Hn. unfold getter_call. simpl.
  unfold Config_Register, st_bind, lift_go, mod_cfg in H. destruct (check_registration o); simplify_eq. simpl.
  unfold getValidityFlag. by rewrite (flag_set c Hc).
Qed.

(** A getter keeps the option object it found: when the key is registered again, which
    makes a new object, it goes on with the values of the old one, after any number
    of changes. *)
Lemma getter_after_registration {A : Type} t (field : valueCache → A) name fallback id (o o' : cfg_option) (c c' c2 : config) :
  options c !! name = Some id → option_objs c !! id = Some o → Config_Register o' c = (c', Ret tt) → opt_Key o' = name →
  options c' !! name = Some (length (option_objs c)) ∧
  (flags c2 !! validityFlag c = Some false → option_objs c2 !! id = Some o →
   (getter_call (GetAs t field name fallback c) c2).1 = value_or field fallback (if (t =? OptType o)%Z then effective (releaseLevel c2) o else None)).
Proof.
  intros Hn Ho H Hk. unfold Config_Register, st_bind, lift_go, mod_cfg in H. destruct (check_registration o') as [o1|e|] eqn:Hreg; simplify_eq.
  assert (opt_Key o1 = opt_Key o') as Hk1.
  { unfold check_registration in Hreg. repeat case_match; simplify_eq; try done; unfold go_bind in Hreg; repeat case_match; by simplify_eq. }
  split; [simpl; by rewrite Hk1, lookup_insert_eq|]. intros Hf Ho2. unfold GetAs, getValueCache. rewrite Hn, Ho. unfold getter_call, getValidityFlag, getValueCache. simpl.
  rewrite Hf. simpl. rewrite Ho2. simpl. f_equal. destruct (t =? OptType o)%Z; [|done]. simpl.
  unfold effective, getReleaseLevel. destruct (ReleaseLevel o <=? releaseLevel c2)%Z; simpl; destruct (activeValue o), (activeDefaultValue o); done.
Qed.

(** An integer of more than 53 bits is stored, and read back from the file as another
    one: JSON makes a float of it. *)
Lemma large_int_changed (o : cfg_option) :
  OptType o = OptTypeInt → compiledRegex o = None → PossibleValues o = None → ValidationFunc o = None →
  validateValue o (AInt KInt64 (2 ^ 53 + 1)) = Ret (int_cache (2 ^ 53 + 1)) ∧
  validateValue o (json_value (AInt KInt64 (2 ^ 53 + 1))) = Ret (int_cache (2 ^ 53)).
Proof.
  intros Ht Hr Hp Hf. unfold validateValue, validate_with, run_ValidationFunc, validate_type, check_type, matches_regex, isAllowedPossibleValue.
  rewrite Ht, Hr, Hp, Hf. split; vm_compute; reflexivity.
Qed.

End Findings.

(** ValidateValue against the specification of valid values: it stores a value
    exactly when the value converts to the type of the option, matches its
    regular expression, is one of the possible values and is accepted by the
    option's own function, and stores the converted value. *)
Theorem validateValue_valid {R : Type} `{!QueryLib R} {proc : Processor} {fmtlib : FmtLib} (o : ConfigOption R) v vc :
  validateValue o v = Ret vc ↔ valid_value o v vc.
Proof. apply validateValue_spec. Qed.
