(* ===== verification/ConfigRace.v ===== *)
(** * config: a getter next to concurrent writers

    The functions returned by GetAsString and the others run while other
    goroutines change values. A change is made under the lock of its option and
    signalled later; the getter takes the flag first and the value after it.
    Here the steps interleave freely: writers that set single options or
    replace the configuration option by option, and one getter. *)

From Stdlib Require Import ZArith Lia String.
From stdpp Require Import gmap strings list.
From S2P Require Import Prelude GoStrings Record Query GoAny GoSort GoPath GoFs ConfigTree Config ConfigInv ConfigProps.
Local Open Scope string_scope.

Section Race.
Context {R : Type} `{!QueryLib R} {proc : Processor} {fmtlib : FmtLib} `{!ConfigCodec R} {A : Type}.
Abbreviation cfg_option := (ConfigOption R).
Abbreviation config := (Config (R := R)).

(** ** Steps of a getter *)

(** Where a call of the getter, or its creation, is. *)
Inductive reader : Type :=
| RIdle (g : getter A)
| RFlag (g : getter A)
| RValue (g : getter A).

(** One access to the shared state: checking the flag, taking the new flag,
    and reading the value under the option's lock. The second component is the
    value the call returns. *)
Definition reader_step (r : reader) (c : config) : reader * option A :=
  match r with
  | RIdle g =>
      if default false (flags c !! g_valid g) then (RIdle g, Some (g_value g)) else (RFlag g, None)
  | RFlag g =>
      (RValue (mkGetter (g_name g) (g_type g) (g_field g) (g_fallback g) (getValidityFlag c) (g_option g) (g_value g)), None)
  | RValue g =>
      let '(option, vc) := getValueCache (g_name g) (g_option g) (g_type g) c in
      let value := value_or (g_field g) (g_fallback g) vc in
      (RIdle (mkGetter (g_name g) (g_type g) (g_field g) (g_fallback g) (g_valid g) option value), Some value)
  end.

(** The steps of a call until it returns; three are enough. *)
Fixpoint reader_run (fuel : nat) (r : reader) (c : config) : option (A * reader) :=
  match fuel with
  | O => None
  | S fuel =>
      match reader_step r c with
      | (r', Some v) => Some (v, r')
      | (r', None) => reader_run fuel r' c
      end
  end.

(** A getter is created by the steps of a refresh, without an option. *)
Definition reader_create (t : Z) (field : valueCache → A) (name : string) (fallback : A) : reader :=
  RFlag (mkGetter name t field fallback 0 None fallback).

(** ** Steps of the writers *)

(** What is done under the lock of an option. *)
Inductive write_section : Type :=
| SetSection (user : bool) (id : nat) (v : any) (push : bool)
| ReplaceSection (user : bool) (newValues : gmap string any) (key : string) (id : nat).

Definition setter (user : bool) : option valueCache → cfg_option → cfg_option :=
  if user then set_activeValue else set_activeDefaultValue.

(** The second component: signalChanges has to follow. *)
Definition run_section (w : write_section) : st config cfg_error bool :=
  match w with
  | SetSection user id v push =>
      let$ err := set_option_value (setter user) id v push in
      st_ret (match err with None => true | Some _ => false end)
  | ReplaceSection user newValues key id =>
      let$ _ := replace_option (setter user) newValues ([], false) (key, id) in
      st_ret true
  end.

(** A goroutine in setConfigOption (one section), ReplaceConfig (one for each
    option) or their variants for defaults: the sections left, and whether a
    change has been made that is not signalled yet. *)
Record writer : Type := mkWriter {
  w_sections : list write_section;
  w_signal : bool;
}.

Inductive writer_step : config → writer → config → writer → Prop :=
| WriteStep c c' sec secs signal b :
    run_section sec c = (c', Ret b) →
    writer_step c (mkWriter (sec :: secs) signal) c' (mkWriter secs (signal || b))
| SignalStep c c' :
    signalChanges c = (c', Ret tt) →
    writer_step c (mkWriter [] true) c' (mkWriter [] false).

(** ** The system *)

Record race_state : Type := mkRace {
  race_config : config;
  race_writers : list writer;
  race_reader : reader;
}.

(** A step of any goroutine, with the value a call of the getter returns. *)
Inductive race_step : race_state → option A → race_state → Prop :=
| RaceWrite c ws r i w c' w' :
    ws !! i = Some w → writer_step c w c' w' →
    race_step (mkRace c ws r) None (mkRace c' (<[i := w']> ws) r)
| RaceRead c ws r r' v :
    reader_step r c = (r', v) →
    race_step (mkRace c ws r) v (mkRace c ws r').

Inductive race_reach (s0 : race_state) : race_state → Prop :=
| RaceStart : race_reach s0 s0
| RaceNext s v s' : race_reach s0 s → race_step s v s' → race_reach s0 s'.

(** A change has been made that is not signalled yet. *)
Definition in_flight (s : race_state) : Prop := Exists (λ w, w_signal w = true) (race_writers s).

(** ** Lemmas *)

Section Getter.
Context (id : nat) (name : string) (t : Z) (field : valueCache → A) (fallback : A).

(** A getter of the option; [None] before it has found it. *)
Record getter_of (g : getter A) (c : config) : Prop := {
  gf_name : g_name g = name;
  gf_type : g_type g = t;
  gf_field : g_field g = field;
  gf_fallback : g_fallback g = fallback;
  gf_option : g_option g = Some id ∨ g_option g = None ∧ options c !! name = Some id;
}.

(** The flag is the current one or cleared. *)
Definition flag_ok (g : getter A) (c : config) : Prop :=
  flags c !! g_valid g = Some false ∨ g_valid g = validityFlag c.

Definition reader_ok (r : reader) (c : config) (dirty : Prop) : Prop :=
  match r with
  | RIdle g => getter_of g c ∧
      (flags c !! g_valid g = Some false ∨
       g_valid g = validityFlag c ∧
         (dirty ∨ ∃ o, option_objs c !! id = Some o ∧ g_value g = current t field fallback o c))
  | RFlag g => getter_of g c
  | RValue g => getter_of g c ∧ flag_ok g c
  end.

Lemma getter_of_value g (c : config) (o : cfg_option) :
  getter_of g c → option_objs c !! id = Some o →
  ∃ vc, getValueCache (g_name g) (g_option g) (g_type g) c = (Some id, vc) ∧
    value_or (g_field g) (g_fallback g) vc = current t field fallback o c.
Proof.
  intros [Hn Ht Hf Hfb Ho] Hobj. rewrite Hn, Ht, Hf, Hfb.
  assert (getValueCache name (g_option g) t c = getValueCache name (Some id) t c) as ->.
  { destruct Ho as [->|[-> Hreg]]; [done|]. unfold getValueCache. by rewrite Hreg. }
  rewrite (getValueCache_spec _ _ _ o) by done. by eexists.
Qed.

(** A step that only the values are affected by. *)
Lemma reader_ok_kept r (c c' : config) (dirty dirty' : Prop) :
  reader_ok r c dirty → options c' = options c → validityFlag c' = validityFlag c → flags c' = flags c →
  (dirty' ∨ (dirty → dirty') ∧ ∀ o, option_objs c !! id = Some o →
     ∃ o', option_objs c' !! id = Some o' ∧ current t field fallback o' c' = current t field fallback o c) →
  reader_ok r c' dirty'.
Proof.
  intros Hr Hop Hv Hf Hd. assert (∀ g, getter_of g c → getter_of g c') as Hg by (intros g []; split; rewrite ?Hop; done).
  destruct r as [g|g|g]; simpl in *.
  - destruct Hr as [Hr Hval]. split; [by apply Hg|]. rewrite Hf, Hv. destruct Hval as [|[Hv' Hval]]; [by left|right]. split; [done|].
    destruct Hd as [|[Hd Hsame]]; [by left|]. destruct Hval as [|(o & Ho & Hval)]; [left; by apply Hd|right].
    destruct (Hsame o Ho) as (o' & Ho' & Hc). exists o'. split; [done|]. by rewrite Hc.
  - by apply Hg.
  - destruct Hr as [Hr Hfl]. split; [by apply Hg|]. unfold flag_ok. by rewrite Hf, Hv.
Qed.

End Getter.
(** The option a section belongs to. *)
Definition section_id (sec : write_section) : nat :=
  match sec with SetSection _ id _ _ => id | ReplaceSection _ _ _ id => id end.

Definition writers_ok (ws : list writer) (c : config) : Prop :=
  Forall (λ w, Forall (λ sec, is_Some (option_objs c !! section_id sec)) (w_sections w)) ws.

Lemma setter_value_setter user : value_setter (setter user).
Proof. by destruct user; [left|right]. Qed.

Lemma writers_ok_moved ws (c c' : config) : writers_ok ws c → moved c c' → writers_ok ws c'.
Proof.
  intros H Hm. eapply Forall_impl; [exact H|]. intros w Hw. eapply Forall_impl; [exact Hw|]. intros sec [o Ho].
  destruct (mv_objs _ _ Hm _ _ Ho) as (o' & Ho' & _). by exists o'.
Qed.

(** A section that is not to be signalled leaves what getters return. *)
Lemma run_section_ok sec (c c' : config) b :
  config_ok c → is_Some (option_objs c !! section_id sec) → run_section sec c = (c', Ret b) →
  config_ok c' ∧ moved c c' ∧
  (b = false → ∀ id t (field : valueCache → A) fallback o, option_objs c !! id = Some o →
     ∃ o', option_objs c' !! id = Some o' ∧ current t field fallback o' c' = current t field fallback o c).
Proof.
  intros Hc [o Ho] H. pose proof (λ user, setter_value_setter user) as Hset. destruct sec as [user id v push|user newValues key id]; simpl in Ho; cbn [run_section] in H.
  - apply st_bind_inv in H as (c1 & err & H1 & H). unfold st_ret in H. simplify_eq.
    destruct (set_option_value_ok _ _ _ _ _ _ _ _ (Hset user) Hc Ho H1) as (o' & err' & Herr & Hc' & Hass & Hch); [done|].
    injection Herr as <-. split_and!; [done|by eapply changed_moved|]. destruct err as [e|]; [intros _|done].
    assert (o' = o) as ->.
    { unfold assigned in Hass. destruct v; try (destruct Hass as ([vc|e'] & _ & [? ?]); done). by destruct Hass. }
    assert (evolves c c') as [Hobjs Hfl Hview] by (eapply changed_same_values; [done..|apply restart_pending_same]).
    intros j t field fallback oj Hoj. destruct (Hobjs _ _ Hoj) as (o' & Ho' & Hreg). exists o'. split; [done|].
    destruct Hview as [Hcl|(_ & Hl & Hs)].
    + exfalso. rewrite (kept_flags _ _ (changed_kept _ _ _ _ Hch)), (flag_set c Hc) in Hcl. done.
    + destruct (Hs _ _ Hoj) as (o2 & Ho2 & Hsv). simplify_eq.
      unfold current. by rewrite (same_OptType _ _ Hreg), Hl, (effective_same _ oj o').
  - apply st_bind_inv in H as (c1 & r & H1 & H). unfold st_ret in H. simplify_eq.
    destruct (replace_option_ok _ _ _ _ _ _ _ _ _ (Hset user) Hc Ho H1) as (o' & errs & Hc' & Hch & _); [done|].
    split_and!; [done|by eapply changed_moved|done].
Qed.

(** The invariant of the system. *)
Definition race_ok id name t field fallback (s : race_state) : Prop :=
  config_ok (race_config s) ∧ writers_ok (race_writers s) (race_config s) ∧
  options (race_config s) !! name = Some id ∧
  reader_ok id name t field fallback (race_reader s) (race_config s) (in_flight s).

Lemma race_step_ok id name t field fallback s v s' :
  race_ok id name t field fallback s → race_step s v s' → race_ok id name t field fallback s'.
Proof.
  intros (Hc & Hw & Hname & Hr) H. destruct (registered_ok _ Hc _ _ Hname) as (o & Ho & _). destruct H as [c ws r i w c' w' Hi Hstep|c ws r r' v Hstep]; unfold race_ok in *; simpl in *.
  - pose proof (proj1 (Forall_lookup _ _) Hw i w Hi) as Hwi. destruct Hstep as [c c' sec secs signal b Hrun|c c' Hsig].
    + simpl in Hwi. apply Forall_cons in Hwi as [Hsec Hsecs].
      destruct (run_section_ok sec c c' b Hc Hsec Hrun) as (Hc' & Hm & Hsame). split_and!; [done| | |].
      * apply (writers_ok_moved _ c); [|done]. apply Forall_insert; [done|]. exact Hsecs.
      * by rewrite (mv_options _ _ Hm).
      * eapply reader_ok_kept; [exact Hr|apply Hm..|]. destruct b.
        { left. apply Exists_exists. exists (mkWriter secs (signal || true)).
          split; [apply list_elem_of_lookup; exists i; apply list_lookup_insert_eq; by eapply lookup_lt_Some|]. simpl. by rewrite orb_true_r. }
        right. split; [|intros oj Hoj; by apply Hsame]. unfold in_flight. simpl. rewrite orb_false_r. intros Hex.
        apply Exists_exists in Hex as (x & [j Hj]%list_elem_of_lookup & Hx). apply Exists_exists.
        destruct (decide (j = i)) as [->|Hne].
        { exists (mkWriter secs signal). split; [apply list_elem_of_lookup; exists i; apply list_lookup_insert_eq; by eapply lookup_lt_Some|]. by simplify_eq. }
        { exists x. split; [apply list_elem_of_lookup; exists j; by rewrite list_lookup_insert_ne|done]. }
    + destruct (signalChanges_evolves c c c' _ (reflexivity _) Hc Hc Hsig) as (Hc' & Hev & _ & Hcl).
      assert (option_objs c' = option_objs c ∧ options c' = options c) as [Hobj Hop] by (unfold signalChanges, mod_cfg in Hsig; by simplify_eq).
      split_and!; [done| |by rewrite Hop|].
      * unfold writers_ok in *. rewrite Hobj. apply Forall_insert; [done|]. by constructor.
      * assert (∀ g, getter_of id name t field fallback g c → getter_of id name t field fallback g c') as Hg by (intros g []; split; rewrite ?Hop; done).
        assert (∀ n, flags c !! n = Some false ∨ n = validityFlag c → flags c' !! n = Some false) as Hfl.
        { intros n [Hn|Hn]; [by apply (ev_flags _ _ Hev)|by rewrite Hn]. }
        destruct r as [g|g|g]; simpl in *; [|by apply Hg|].
        { destruct Hr as [Hr Hv]. split; [by apply Hg|]. left. apply Hfl. naive_solver. }
        { destruct Hr as [Hr Hv]. split; [by apply Hg|]. left. by apply Hfl. }
  - split_and!; [done..|]. destruct r as [g|g|g]; simpl in *.
    + destruct (default false (flags c !! g_valid g)); simplify_eq; [done|]. apply Hr.
    + simplify_eq. destruct Hr. split; [by split|]. by right.
    + destruct Hr as [Hr Hfl]. destruct (getter_of_value id name t field fallback g c o Hr Ho) as (vc & Hvc & Hcur).
      rewrite Hvc in Hstep. simplify_eq. destruct Hr. split; [split; simpl; by auto|]. simpl. destruct Hfl as [Hfl|Hfl]; [by left|right].
      split; [done|]. right. by exists o.
Qed.

Lemma race_reach_ok id name t field fallback s0 s :
  race_ok id name t field fallback s0 → race_reach s0 s → race_ok id name t field fallback s.
Proof. intros H0. induction 1; [done|]. by eapply race_step_ok. Qed.

(** ** Theorems *)

(** A call that nothing interrupts is [getter_call], and its creation is
    [GetAs]: it returns after at most three steps. *)
Theorem reader_run_getter_call (g : getter A) (c : config) t (field : valueCache → A) name fallback :
  reader_run 3 (RIdle g) c = Some ((getter_call g c).1, RIdle (getter_call g c).2) ∧
  reader_run 2 (reader_create t field name fallback) c
    = Some (g_value (GetAs t field name fallback c), RIdle (GetAs t field name fallback c)).
Proof.
  split.
  - unfold getter_call. cbn [reader_run reader_step]. destruct (default false (flags c !! g_valid g)); [done|].
    cbn [reader_run reader_step g_name g_type g_field g_fallback g_valid g_option].
    by destruct (getValueCache (g_name g) (g_option g) (g_type g) c).
  - unfold GetAs, reader_create. cbn [reader_run reader_step g_name g_type g_field g_fallback g_valid g_option].
    by destruct (getValueCache name None t c).
Qed.

(** C12: However the goroutines interleave: when a call of the getter, or its
    creation, returns while no change is in flight (made but not yet
    signalled), it returns the current value of its option. In particular a
    call that starts after all changes are finished returns the newest value,
    also when the getter was refreshed in the middle of a change. *)
Theorem getter_race (id : nat) (name : string) (t : Z) (field : valueCache → A) (fallback : A) (c0 : config)
    (ws : list writer) (s s' : race_state) (v : A) :
  config_ok c0 → options c0 !! name = Some id → writers_ok ws c0 →
  race_reach (mkRace c0 ws (reader_create t field name fallback)) s → race_step s (Some v) s' → ¬ in_flight s →
  ∃ o, option_objs (race_config s) !! id = Some o ∧ opt_Key o = name ∧
    v = value_or field fallback (if (t =? OptType o)%Z then effective (releaseLevel (race_config s)) o else None).
Proof.
  intros Hc Hname Hws Hreach Hstep Hno. destruct (registered_ok c0 Hc _ _ Hname) as (o0 & Ho0 & Hk).
  assert (race_ok id name t field fallback (mkRace c0 ws (reader_create t field name fallback))) as H0.
  { split_and!; [done..|]. split; simpl; by auto. }
  destruct (race_reach_ok _ _ _ _ _ _ _ H0 Hreach) as (Hcs & _ & Hns & Hr).
  destruct (registered_ok _ Hcs _ _ Hns) as (o & Ho & Hko). exists o. split_and!; [done..|]. clear Hko Hk.
  inversion Hstep as [|c ws1 r r' w Hread Hs]; subst. simpl in *. destruct r as [g|g|g]; simpl in Hread.
  - destruct Hr as [_ Hr]. destruct (default false (flags c !! g_valid g)) eqn:Hf; [|done]. simplify_eq.
    destruct Hr as [Hr|(_ & [Hr|(o1 & Ho1 & Hval)])]; [by rewrite Hr in Hf|done|]. rewrite Ho in Ho1. injection Ho1 as <-. exact Hval.
  - done.
  - destruct Hr as [Hr _]. destruct (getter_of_value id name t field fallback g c o Hr Ho) as (vc & Hvc & Hcur).
    rewrite Hvc in Hread. simplify_eq. exact Hcur.
Qed.

End Race.

(** ** A small run *)

#[local] Existing Instances lax_lib blank_fmt dev_codec zero_processor.

(** The getter is refreshed in the middle of a change: it takes the old flag
    before the change and the new value after it, and refreshes once more when
    the change is signalled. *)
Definition dev_writer : writer := mkWriter [SetSection true 2 (ABool false) true] false.

Definition dev_reader : reader (A := bool) := reader_create OptTypeBool boolVal "dev" true.

Definition race0 : race_state (R := string) (A := bool) := mkRace dev_beta [dev_writer] dev_reader.

Definition race_read (s : race_state (R := string) (A := bool)) : race_state :=
  mkRace (race_config s) (race_writers s) (reader_step (race_reader s) (race_config s)).1.

Definition race1 : race_state := race_read race0.

Definition race2 : race_state (R := string) (A := bool) :=
  mkRace (run_section (SetSection true 2 (ABool false) true) dev_beta).1 [mkWriter [] true] (race_reader race1).

Definition race3 : race_state := race_read race2.

Definition race4 : race_state (R := string) (A := bool) :=
  mkRace (signalChanges (race_config race3)).1 [mkWriter [] false] (race_reader race3).

Definition race5 : race_state := race_read (race_read race4).

Lemma race_read_reach s0 s : race_reach s0 s → race_reach s0 (race_read s).
Proof.
  intros H. apply (RaceNext _ s (reader_step (race_reader s) (race_config s)).2); [exact H|]. destruct s as [c ws r].
  unfold race_read. simpl. apply RaceRead. by destruct (reader_step r c).
Qed.

Lemma race5_reach : race_reach race0 race5.
Proof.
  do 2 apply race_read_reach.
  apply (RaceNext _ race3 None); [apply race_read_reach, (RaceNext _ race1 None); [apply race_read_reach, RaceStart|]|].
  - apply (RaceWrite _ [dev_writer] _ 0 dev_writer _ (mkWriter [] true)); [reflexivity|].
    apply (WriteStep _ _ _ [] false true). vm_compute. reflexivity.
  - apply (RaceWrite _ [mkWriter [] true] _ 0 (mkWriter [] true) _ (mkWriter [] false)); [reflexivity|].
    apply SignalStep. reflexivity.
Qed.

Lemma getter_race_witness :
  (reader_step (race_reader race3) (race_config race3)).2 = Some false ∧ ∃ o, option_objs (race_config race5) !! 2%nat = Some o ∧
    false = value_or boolVal true (if (OptTypeBool =? OptType o)%Z then effective (releaseLevel (race_config race5)) o else None).
Proof.
  split; [vm_compute; reflexivity|].
  destruct (getter_race 2 "dev" OptTypeBool boolVal true dev_beta [dev_writer] race5 (race_read race5) false dev_beta_ok) as (o & Ho & _ & Hv).
  - vm_compute. reflexivity.
  - constructor; [|constructor]. constructor; [|constructor]. exists (dev_option_at dev_beta). vm_compute. reflexivity.
  - exact race5_reach.
  - apply (RaceRead (race_config race5) (race_writers race5) (race_reader race5) _ (Some false)). vm_compute. reflexivity.
  - intros Hex. apply Exists_exists in Hex as (w & ->%list_elem_of_singleton & Hw). discriminate Hw.
  - exists o. exact (conj Ho Hv).
Defined.
