(* ===== verification/Subsystems.v ===== *)
(** * modules/subsystems: groups of modules with a toggle

    subsystem.go, registry.go and module.go over the modules of [Modules] and the
    configuration of [Config]. The manager's map is ranged over in the order
    [order]; what it pushes to the runtime database is a list. A module is its name,
    as in [Modules]. Each operation runs under the manager's lock, except
    handleConfigChanges, which waits in between and so is two. *)

From Stdlib Require Import ZArith Lia Ascii String.
From stdpp Require Import gmap list strings sorting.
From S2P Require Import Prelude GoStrings GoAny GoSort GoFs Record Query Modules Config.
Local Open Scope string_scope.
Local Open Scope Z_scope.

(** ** subsystem.go *)

Record ModuleStatus : Type := mkModuleStatus {
  st_Name : string;
  st_Enabled : bool;
  st_Status : Z;
  st_FailureStatus : Z;
  st_FailureID : string;
  st_FailureMsg : string;
}.

(** [toggleValue]: the function that returns true, or a getter of the option. *)
Inductive toggle : Type :=
| ToggleTrue
| ToggleGetter (g : getter bool).

Record Subsystem : Type := mkSubsystem {
  sub_Base : Base;
  sub_ID : string;
  sub_Name : string;
  sub_Description : string;
  sub_Modules : list ModuleStatus;
  sub_FailureStatus : Z;
  sub_ToggleOptionKey : string;
  sub_ExpertiseLevel : Z;
  sub_ReleaseLevel : Z;
  sub_ConfigKeySpace : string;
  sub_module : string;
  sub_toggleValue : toggle;
}.

Definition set_sub_Base (b : Base) (s : Subsystem) : Subsystem :=
  mkSubsystem b (sub_ID s) (sub_Name s) (sub_Description s) (sub_Modules s) (sub_FailureStatus s) (sub_ToggleOptionKey s)
    (sub_ExpertiseLevel s) (sub_ReleaseLevel s) (sub_ConfigKeySpace s) (sub_module s) (sub_toggleValue s).

Definition set_sub_Modules (l : list ModuleStatus) (s : Subsystem) : Subsystem :=
  mkSubsystem (sub_Base s) (sub_ID s) (sub_Name s) (sub_Description s) l (sub_FailureStatus s) (sub_ToggleOptionKey s)
    (sub_ExpertiseLevel s) (sub_ReleaseLevel s) (sub_ConfigKeySpace s) (sub_module s) (sub_toggleValue s).

Definition set_sub_FailureStatus (f : Z) (s : Subsystem) : Subsystem :=
  mkSubsystem (sub_Base s) (sub_ID s) (sub_Name s) (sub_Description s) (sub_Modules s) f (sub_ToggleOptionKey s)
    (sub_ExpertiseLevel s) (sub_ReleaseLevel s) (sub_ConfigKeySpace s) (sub_module s) (sub_toggleValue s).

Definition set_sub_toggleValue (t : toggle) (s : Subsystem) : Subsystem :=
  mkSubsystem (sub_Base s) (sub_ID s) (sub_Name s) (sub_Description s) (sub_Modules s) (sub_FailureStatus s) (sub_ToggleOptionKey s)
    (sub_ExpertiseLevel s) (sub_ReleaseLevel s) (sub_ConfigKeySpace s) (sub_module s) t.

Definition module_enabled (m : GoModule) : bool := enabled m || enabledAsDependency m.

Definition statusFromModule (m : GoModule) : ModuleStatus :=
  mkModuleStatus (Name m) (module_enabled m) (status m) (failureStatus m) (failureID m) (failureMsg m).

(** A loop that may panic. *)
Fixpoint go_fold {E A B : Type} (f : B → A → go E B) (b : B) (l : list A) : go E B :=
  match l with
  | [] => Ret b
  | x :: l => let! b := f b x in go_fold f b l
  end.

(** The recursion ends because each call adds a module to those seen: more fuel
    than modules is enough. *)
Fixpoint addDependencies (fuel : nat) (ms : gmap string GoModule) (m : GoModule) (acc : list ModuleStatus * gset string)
    : go disabled (list ModuleStatus * gset string) :=
  match fuel with
  | O => Panic
  | S fuel =>
      go_fold (λ acc dep,
        match ms !! dep with
        | None => Panic
        | Some d =>
            if bool_decide (Name d ∈ acc.2) then Ret acc
            else addDependencies fuel ms d ((acc.1 ++ [statusFromModule d])%list, {[Name d]} ∪ acc.2)
        end) acc (depModules m)
  end.

Definition compareAndUpdateStatus (m : GoModule) (s : ModuleStatus) : ModuleStatus * bool :=
  let en := module_enabled m in
  let changed := negb (Bool.eqb (st_Enabled s) en) || negb (st_Status s =? status m) in
  let s := mkModuleStatus (st_Name s) en (status m) (st_FailureStatus s) (st_FailureID s) (st_FailureMsg s) in
  if negb (st_FailureStatus s =? failureStatus m) || negb (String.eqb (st_FailureID s) (failureID m))
  then (mkModuleStatus (st_Name s) en (status m) (failureStatus m) (failureID m) (failureMsg m), true)
  else (s, changed).

Definition worst_failure (l : list ModuleStatus) : Z := foldl (λ worst s, if worst <? st_FailureStatus s then st_FailureStatus s else worst) 0 l.

Definition makeSummary (s : Subsystem) : Subsystem := set_sub_FailureStatus (worst_failure (sub_Modules s)) s.

(** ** registry.go *)

Inductive sub_error : Type :=
| ErrManagerStarted
| ErrDuplicateSubsystem
| ErrSubsystemOption (e : cfg_error).

Record Manager : Type := mkManager {
  subsys : gmap string Subsystem;
  immutable : bool;
  debounceUpdate : bool;
  mng_pushed : list Subsystem;
}.

Definition set_subsys (l : gmap string Subsystem) (mng : Manager) : Manager := mkManager l (immutable mng) (debounceUpdate mng) (mng_pushed mng).

(** After its registration as a provider. *)
Definition NewManager : Manager := mkManager ∅ false false [].

Section Manager.
Context {R : Type} `{!QueryLib R} {proc : Processor} {fmtlib : FmtLib} {sort_lib : SortLib}.
Context (order : gmap string Subsystem → list string).

Record SubSys : Type := mkSubSys { ss_modules : ModSys; ss_config : Config (R := R); ss_manager : Manager }.

Definition set_manager (mng : Manager) (s : SubSys) : SubSys := mkSubSys (ss_modules s) (ss_config s) mng.

Definition Manager_Register (id name description module configKeySpace : string) (option : option (ConfigOption R)) : st SubSys sub_error unit := λ s,
  let mng := ss_manager s in
  if immutable mng then (s, Fail ErrManagerStarted)
  else if bool_decide (is_Some (subsys mng !! id)) then (s, Fail ErrDuplicateSubsystem)
  else
    let sub key expertise release t := mkSubsystem (CreateMeta (mkBase "" "" None)) id name description [] 0 key expertise release configKeySpace module t in
    let add c sub := mkSubSys (ss_modules s) c (set_subsys (<[id := sub]> (subsys mng)) mng) in
    match option with
    | None => (add (ss_config s) (sub "" 0 0 ToggleTrue), Ret tt)
    | Some o =>
        match Config_Register o (ss_config s) with
        | (c, Fail e) => (mkSubSys (ss_modules s) c mng, Fail (ErrSubsystemOption e))
        | (c, Panic) => (mkSubSys (ss_modules s) c mng, Panic)
        | (c, Ret _) => (add c (sub (opt_Key o) (ExpertiseLevel o) (ReleaseLevel o) (ToggleGetter (GetAsBool (opt_Key o) false c))), Ret tt)
        end
    end.

(** *** Start *)

Definition SubsystemAnnotation : string := "safing/portbase:module:subsystem".

(** The first loop: the subsystems' modules, and the last subsystem of each key
    space. *)
Definition start_seen (ids : list string) (l : gmap string Subsystem) : gset string * gmap string string :=
  foldl (λ acc id, match l !! id with
                   | Some sub => ({[sub_module sub]} ∪ acc.1, <[sub_ConfigKeySpace sub := sub_ID sub]> acc.2)
                   | None => acc
                   end) (∅, ∅) ids.

Definition collect_modules (ms : gmap string GoModule) (sub : Subsystem) (seen : gset string) : go disabled (Subsystem * gset string) :=
  match ms !! sub_module sub with
  | None => Panic
  | Some m =>
      let! acc := addDependencies (S (size ms)) ms m ((sub_Modules sub ++ [statusFromModule m])%list, seen) in
      Ret (set_sub_Modules acc.1 sub, acc.2)
  end.

Fixpoint collect_all (ms : gmap string GoModule) (ids : list string) (l : gmap string Subsystem) (seen : gset string) : go disabled (gmap string Subsystem) :=
  match ids with
  | [] => Ret l
  | id :: ids =>
      match l !! id with
      | None => collect_all ms ids l seen
      | Some sub => let! x := collect_modules ms sub seen in collect_all ms ids (<[id := x.1]> l) x.2
      end
  end.

(** The options are looked up by their whole key. *)
Definition annotate_options (configKeyPrefixes : gmap string string) (c : Config (R := R)) : Config (R := R) :=
  set_option_objs
    (imap (λ id o, if bool_decide (options c !! opt_Key o = Some id)
                   then match configKeyPrefixes !! opt_Key o with
                        | Some subID => AddAnnotation SubsystemAnnotation (AString subID) o
                        | None => o
                        end
                   else o) (option_objs c)) c.

Definition Manager_Start : st SubSys disabled unit := λ s,
  let mng := mkManager (subsys (ss_manager s)) true (debounceUpdate (ss_manager s)) (mng_pushed (ss_manager s)) in
  let ids := order (subsys mng) in
  let '(seen, prefixes) := start_seen ids (subsys mng) in
  match collect_all (modules (ss_modules s)) ids (subsys mng) seen with
  | Ret l => (mkSubSys (ss_modules s) (annotate_options prefixes (ss_config s)) (set_subsys l mng), Ret tt)
  | Fail e => (set_manager mng s, Fail e)
  | Panic => (set_manager mng s, Panic)
  end.

(** *** Get *)

Definition with_key (dbName : string) (sub : Subsystem) : Subsystem :=
  set_sub_Base (SetKey (dbName ++ ":subsystems/" ++ sub_ID sub) (sub_Base sub)) sub.

Definition Manager_Get (dbName keyOrPrefix : string) : st SubSys disabled (list Subsystem) := λ s,
  let l := with_key dbName <$> subsys (ss_manager s) in
  let records := filter (λ sub, HasPrefix (DatabaseKey (sub_Base sub)) keyOrPrefix = true) (omap (λ id, l !! id) (order l)) in
  (set_manager (set_subsys l (ss_manager s)) s, Ret (sort_Sort (λ a b, bytes_lt (sub_ID a) (sub_ID b)) records)).

(** *** Updates *)

Definition shouldServeUpdates (s : SubSys) : bool := immutable (ss_manager s) && negb (shutdownFlag (ss_modules s)).

Fixpoint find_status (name : string) (l : list ModuleStatus) : option nat :=
  match l with
  | [] => None
  | ms :: l => if String.eqb (st_Name ms) name then Some O else S <$> find_status name l
  end.

Fixpoint findParentSubsystem (name : string) (ids : list string) (l : gmap string Subsystem) : option (Subsystem * nat) :=
  match ids with
  | [] => None
  | id :: ids =>
      match l !! id ≫= λ sub, (λ i, (sub, i)) <$> find_status name (sub_Modules sub) with
      | Some x => Some x
      | None => findParentSubsystem name ids l
      end
  end.

Definition handleModuleUpdate (name : string) (s : SubSys) : SubSys :=
  if negb (shouldServeUpdates s) then s
  else
    let mng := ss_manager s in
    match modules (ss_modules s) !! name, findParentSubsystem name (order (subsys mng)) (subsys mng) with
    | Some m, Some (sub, i) =>
        match sub_Modules sub !! i with
        | Some ms =>
            let '(ms, updated) := compareAndUpdateStatus m ms in
            let sub := set_sub_Modules (<[i := ms]> (sub_Modules sub)) sub in
            let sub := if updated then makeSummary sub else sub in
            set_manager (mkManager (<[sub_ID sub := sub]> (subsys mng)) (immutable mng) (debounceUpdate mng)
                           (mng_pushed mng ++ if updated then [sub] else [])%list) s
        | None => s
        end
    | _, _ => s
    end.

(** Up to the pause: whether the call goes on. *)
Definition handleConfigChanges_begin (s : SubSys) : SubSys * bool :=
  let mng := ss_manager s in
  if negb (shouldServeUpdates s) then (s, false)
  else if debounceUpdate mng then (s, false)
  else (set_manager (mkManager (subsys mng) (immutable mng) true (mng_pushed mng)) s, true).

Definition toggle_call (t : toggle) (c : Config (R := R)) : bool * toggle :=
  match t with
  | ToggleTrue => (true, t)
  | ToggleGetter g => let '(v, g) := getter_call g c in (v, ToggleGetter g)
  end.

(** One subsystem: whether its module changes. *)
Definition apply_toggle (acc : ModSys * gmap string Subsystem * bool) (id : string) (c : Config (R := R)) : ModSys * gmap string Subsystem * bool :=
  let '(sys, l, changed) := acc in
  match l !! id with
  | None => acc
  | Some sub =>
      let '(v, t) := toggle_call (sub_toggleValue sub) c in
      let l := <[id := set_sub_toggleValue t sub]> l in
      match modules sys !! sub_module sub with
      | None => (sys, l, changed)
      | Some m =>
          let '(m, ch) := SetEnabled v m in
          (put_modules (<[sub_module sub := m]> (modules sys)) sys, l, changed || ch)
      end
  end.

(** After the pause: whether ManageModules is called next. *)
Definition handleConfigChanges_end (s : SubSys) : SubSys * bool :=
  let mng := ss_manager s in
  let '(sys, l, changed) := foldl (λ acc id, apply_toggle acc id (ss_config s)) (ss_modules s, subsys mng, false) (order (subsys mng)) in
  (mkSubSys sys (ss_config s) (mkManager l (immutable mng) false (mng_pushed mng)), changed).

(** ** module.go: the hook for configuration changes, with the result of CheckConfig *)

Definition control_subsystems (result : option mod_error) : ModSys → go disabled ModSys :=
  match result with
  | Some err => Module_Error "modulemgmt-failed" "A Module failed to start"
      ("The subsystem framework failed to start or stop one or more modules." ++ String "010"%char "Error: " ++ error_text err ++
       String "010"%char "Check logs for more information or try to restart.") "subsystems"
  | None => Resolve "modulemgmt-failed" "subsystems"
  end.

End Manager.

(** ** Lemmas *)

(** *** The modules of a subsystem *)

Section Graph.
Context (ms : gmap string GoModule).

(** As the life cycle links modules: by their names, to modules that exist. *)
Definition wf_graph : Prop := ∀ n m, ms !! n = Some m → Name m = n ∧ ∀ d, d ∈ depModules m → is_Some (ms !! d).

Definition dep (a b : string) : Prop := ∃ m, ms !! a = Some m ∧ b ∈ depModules m.

(** What a visit of modules that [n] depends on has added. *)
Definition explored (n : string) (targets : list string) (seen : gset string) (new : list ModuleStatus) (seen' : gset string) : Prop :=
  seen' = seen ∪ list_to_set (st_Name <$> new) ∧ NoDup (st_Name <$> new) ∧
  (∀ s, s ∈ new → st_Name s ∉ seen ∧ rtc dep n (st_Name s) ∧ ∃ m, ms !! st_Name s = Some m ∧ s = statusFromModule m) ∧
  (∀ d, d ∈ targets → d ∈ seen') ∧
  (∀ s d, s ∈ new → dep (st_Name s) d → d ∈ seen').

Lemma explored_nil (n : string) (seen : gset string) : explored n [] seen [] seen.
Proof. split_and!; [set_solver|constructor|set_solver..]. Qed.

Lemma explored_seen (n d : string) targets seen new seen' :
  d ∈ seen → explored n targets seen new seen' → explored n (d :: targets) seen new seen'.
Proof. intros Hd (-> & Hnd & Hnew & Ht & Hc). split_and!; try done. intros d' [->|Hd']%elem_of_cons; [set_solver|by apply Ht]. Qed.

Lemma explored_new (n d : string) (dm : GoModule) targets seen new1 seen1 new2 seen2 :
  d ∉ seen → dep n d → ms !! d = Some dm → Name dm = d →
  explored d (depModules dm) ({[d]} ∪ seen) new1 seen1 → explored n targets seen1 new2 seen2 →
  explored n (d :: targets) seen (statusFromModule dm :: new1 ++ new2) seen2.
Proof.
  intros Hd Hdep Hdm Hname (H1 & Hnd1 & Hnew1 & Ht1 & Hc1) (H2 & Hnd2 & Hnew2 & Ht2 & Hc2).
  assert (st_Name (statusFromModule dm) = d) as Hst by done.
  split_and!.
  - rewrite H2, H1, fmap_cons, fmap_app, Hst. set_solver.
  - rewrite fmap_cons, fmap_app, Hst. apply NoDup_cons. split.
    + rewrite elem_of_app, !list_elem_of_fmap. intros [(s & -> & Hs)|(s & -> & Hs)].
      * apply Hnew1 in Hs as [Hs _]. set_solver.
      * apply Hnew2 in Hs as [Hs _]. subst seen1. set_solver.
    + apply NoDup_app. split_and!; [done| |done]. intros x Hx1 (s & -> & Hs)%list_elem_of_fmap.
      apply Hnew2 in Hs as [Hs _]. subst seen1. apply Hs. set_solver.
  - intros s [->|[Hs|Hs]%elem_of_app]%elem_of_cons.
    + rewrite Hst. split; [done|]. split; [by apply rtc_once|]. by exists dm.
    + apply Hnew1 in Hs as (Hs & Hr & Hm). split; [set_solver|]. split; [|done]. by eapply rtc_l.
    + apply Hnew2 in Hs as (Hs & Hr & Hm). subst seen1. split; [set_solver|]. done.
  - intros d' [->|Hd']%elem_of_cons; [|by apply Ht2]. subst. set_solver.
  - intros s d' [->|[Hs|Hs]%elem_of_app]%elem_of_cons Hsd.
    + rewrite Hst in Hsd. destruct Hsd as (m' & Hm' & Hin). rewrite Hdm in Hm'. injection Hm' as <-.
      pose proof (Ht1 d' Hin). subst seen2. set_solver.
    + pose proof (Hc1 s d' Hs Hsd). subst seen2. set_solver.
    + by eapply Hc2.
Qed.

Lemma explored_dom (n : string) targets seen new seen' :
  seen ⊆ dom ms → explored n targets seen new seen' → seen' ⊆ dom ms.
Proof.
  intros Hseen (-> & _ & Hnew & _). apply union_subseteq. split; [done|]. intros x Hx. apply elem_of_list_to_set in Hx.
  apply list_elem_of_fmap in Hx as (s & -> & Hs). apply Hnew in Hs as (_ & _ & m & Hm & _). by apply elem_of_dom_2 in Hm.
Qed.

Lemma unseen_less (d : string) (seen : gset string) :
  d ∈ dom ms → d ∉ seen → (size (dom ms ∖ ({[d]} ∪ seen)) < size (dom ms ∖ seen))%nat.
Proof. intros Hd Hs. apply subset_size. set_solver. Qed.

Lemma addDependencies_spec (fuel : nat) : wf_graph → ∀ (n : string) (m : GoModule) (l : list ModuleStatus) (seen : gset string),
  ms !! n = Some m → seen ⊆ dom ms → (size (dom ms ∖ seen) < fuel)%nat →
  ∃ new seen', addDependencies fuel ms m (l, seen) = Ret ((l ++ new)%list, seen') ∧ explored n (depModules m) seen new seen'.
Proof.
  intros Hwf. induction fuel as [|fuel IH]; intros n m l seen Hn Hseen Hfuel; [lia|]. cbn [addDependencies].
  destruct (Hwf n m Hn) as [_ Hdeps]. assert (∀ d, d ∈ depModules m → dep n d) as Hdn by (intros d Hd; by exists m).
  revert l seen Hseen Hfuel Hdeps Hdn. generalize (depModules m) as targets.
  induction targets as [|d targets IHt]; intros l seen Hseen Hfuel Hdeps Hdn; simpl.
  { exists [], seen. rewrite app_nil_r. split; [done|apply explored_nil]. }
  destruct (Hdeps d ltac:(set_solver)) as [dm Hdm]. rewrite Hdm. destruct (Hwf d dm Hdm) as [Hname _]. rewrite Hname.
  assert (∀ x, x ∈ targets → x ∈ d :: targets) as Hsub by set_solver.
  destruct (decide (d ∈ seen)) as [Hd|Hd].
  - rewrite bool_decide_true by done. simpl. destruct (IHt l seen) as (new & seen' & Hrun & Hex); [done|done|naive_solver..|].
    exists new, seen'. split; [done|]. by apply explored_seen.
  - rewrite bool_decide_false by done.
    pose proof (elem_of_dom_2 _ _ _ Hdm) as Hdd. pose proof (unseen_less d seen Hdd Hd) as Hless.
    destruct (IH d dm (l ++ [statusFromModule dm])%list ({[d]} ∪ seen) Hdm) as (new1 & seen1 & -> & Hex1); [set_solver|lia|].
    simpl. pose proof (explored_dom d _ ({[d]} ∪ seen) _ _ ltac:(set_solver) Hex1) as Hdom1.
    assert (seen ⊆ seen1) as Hmono by (destruct Hex1 as (-> & _); set_solver).
    destruct (IHt ((l ++ [statusFromModule dm]) ++ new1)%list seen1) as (new2 & seen2 & -> & Hex2); [done| |naive_solver..|].
    { pose proof (subseteq_size (dom ms ∖ seen1) (dom ms ∖ seen) ltac:(set_solver)). lia. }
    exists (statusFromModule dm :: new1 ++ new2), seen2. split; [by rewrite <- !app_assoc|].
    eapply (explored_new n d dm); [done|apply Hdn; set_solver|done|done|done|done].
Qed.

End Graph.

(** *** The modules of all subsystems *)

Section Collect.
Context (ms : gmap string GoModule) (Hwf : wf_graph ms).

Abbreviation names l := (st_Name <$> l).

(** What the loop over the subsystems adds: [f id] to the one with that ID. *)
Definition collected (ids : list string) (l : gmap string Subsystem) (seen : gset string) (l' : gmap string Subsystem) (f : string → list ModuleStatus) : Prop :=
  (∀ id, id ∉ ids → l' !! id = l !! id) ∧
  (∀ id, id ∈ ids → ∃ sub m, l !! id = Some sub ∧ ms !! sub_module sub = Some m ∧
     l' !! id = Some (set_sub_Modules (sub_Modules sub ++ statusFromModule m :: f id) sub) ∧
     ∀ s, s ∈ f id → st_Name s ∉ seen ∧ rtc (dep ms) (sub_module sub) (st_Name s) ∧ ∃ d, ms !! st_Name s = Some d ∧ s = statusFromModule d) ∧
  NoDup (ids ≫= λ id, names (f id)) ∧
  ∀ id sub a d, id ∈ ids → l !! id = Some sub → a = sub_module sub ∨ a ∈ names (f id) → dep ms a d →
    d ∈ seen ∨ ∃ id', id' ∈ ids ∧ d ∈ names (f id').

Lemma collect_all_spec (ids : list string) : ∀ l seen,
  NoDup ids → seen ⊆ dom ms → (∀ id, id ∈ ids → ∃ sub m, l !! id = Some sub ∧ ms !! sub_module sub = Some m) →
  ∃ l' f, collect_all ms ids l seen = Ret l' ∧ collected ids l seen l' f.
Proof.
  induction ids as [|id ids IH]; intros l seen Hnd Hseen Hsubs; simpl.
  { exists l, (λ _, []). split; [done|]. split_and!; [done|by intros ? ?%elem_of_nil|constructor|by intros ? ? ? ? ?%elem_of_nil]. }
  apply NoDup_cons in Hnd as [Hid Hnd]. destruct (Hsubs id ltac:(set_solver)) as (sub & m & Hl & Hm). rewrite Hl.
  unfold collect_modules. rewrite Hm.
  assert (size (dom ms ∖ seen) < S (size ms))%nat as Hfuel.
  { rewrite <- size_dom. pose proof (subseteq_size (dom ms ∖ seen) (dom ms) ltac:(set_solver)). lia. }
  destruct (addDependencies_spec ms (S (size ms)) Hwf (sub_module sub) m (sub_Modules sub ++ [statusFromModule m])%list seen Hm Hseen Hfuel)
    as (new & seen1 & -> & Hex). cbn [go_bind fst snd].
  pose proof (explored_dom ms _ _ _ _ _ Hseen Hex) as Hseen1. destruct Hex as (Hs1 & Hnd1 & Hnew & Ht & Hc).
  set (sub' := set_sub_Modules ((sub_Modules sub ++ [statusFromModule m]) ++ new) sub).
  assert (∀ id', id' ∈ ids → <[id := sub']> l !! id' = l !! id') as Hother.
  { intros id' H'. apply lookup_insert_ne. intros ->. done. }
  destruct (IH (<[id := sub']> l) seen1 Hnd Hseen1) as (l' & f & -> & Hout & Hin & Hndf & Hcl).
  { intros id' H'. rewrite Hother by done. apply Hsubs. set_solver. }
  set (f' := λ i, if decide (i = id) then new else f i).
  assert (f' id = new) as Hf by (unfold f'; by rewrite decide_True).
  assert (∀ i, i ∈ ids → f' i = f i) as Hf' by (intros i Hi; unfold f'; rewrite decide_False; [done|by intros ->]).
  assert ((ids ≫= λ i, names (f' i)) = ids ≫= λ i, names (f i)) as Hbind.
  { clear -Hf'. induction ids as [|i ids IH]; [done|]. cbn. rewrite Hf' by set_solver. f_equal. apply IH. intros j Hj. apply Hf'. set_solver. }
  exists l', f'. split; [done|]. split_and!.
  - intros i Hi. rewrite Hout by set_solver. apply lookup_insert_ne. set_solver.
  - intros i [->|Hi]%elem_of_cons.
    + exists sub, m. split; [done|]. split; [done|]. split.
      * rewrite Hout by done. rewrite lookup_insert_eq, Hf. unfold sub'. by rewrite <- app_assoc.
      * rewrite Hf. exact Hnew.
    + destruct (Hin i Hi) as (si & mi & Hli & Hmi & Hl' & Hfi). rewrite Hother in Hli by done. exists si, mi. rewrite Hf' by done.
      split; [done|]. split; [done|]. split; [done|]. intros s Hs. destruct (Hfi s Hs) as (Hn & Hr & Hst). split; [set_solver|done].
  - cbn. rewrite Hf, Hbind. apply NoDup_app. split_and!; [done| |done]. intros x Hx (i & Hxi & Hi)%list_elem_of_bind.
    apply list_elem_of_fmap in Hxi as (s & -> & Hs). destruct (Hin i Hi) as (si & mi & _ & _ & _ & Hfi). destruct (Hfi s Hs) as (Hn & _).
    apply Hn. rewrite Hs1. set_solver.
  - intros i si a d Hi Hli Ha Had. destruct (decide (i = id)) as [->|Hne].
    + rewrite Hl in Hli. injection Hli as <-. rewrite Hf in Ha. assert (d ∈ seen1) as Hd.
      { destruct Ha as [->|(s & -> & Hs)%list_elem_of_fmap]; [|by eapply Hc]. destruct Had as (m' & Hm' & Hd). rewrite Hm in Hm'. injection Hm' as <-. by apply Ht. }
      rewrite Hs1 in Hd. apply elem_of_union in Hd as [Hd|Hd]; [by left|right]. exists id. rewrite Hf. set_solver.
    + assert (i ∈ ids) as Hi' by set_solver. rewrite Hf' in Ha by done. rewrite <- Hother in Hli by done.
      destruct (Hcl i si a d Hi' Hli Ha Had) as [Hd|(j & Hj & Hd)].
      * rewrite Hs1 in Hd. apply elem_of_union in Hd as [Hd|Hd]; [by left|right]. exists id. rewrite Hf. set_solver.
      * right. exists j. rewrite Hf' by done. set_solver.
Qed.

End Collect.

Lemma start_seen_roots (l : gmap string Subsystem) (ids : list string) (acc : gset string * gmap string string) :
  (foldl (λ acc id, match l !! id with
                    | Some sub => ({[sub_module sub]} ∪ acc.1, <[sub_ConfigKeySpace sub := sub_ID sub]> acc.2)
                    | None => acc
                    end) acc ids).1 = acc.1 ∪ list_to_set (sub_module <$> omap (λ id, l !! id) ids).
Proof.
  revert acc. induction ids as [|id ids IH]; intros acc; simpl; [set_solver|]. rewrite IH.
  destruct (l !! id) as [sub|]; simpl; set_solver.
Qed.

Lemma NoDup_bind_inv {A B : Type} (g : A → list B) (ids : list A) :
  NoDup (ids ≫= g) → (∀ i, i ∈ ids → NoDup (g i)) ∧ ∀ i j x, i ∈ ids → j ∈ ids → x ∈ g i → x ∈ g j → i = j.
Proof.
  induction ids as [|a ids IH]; cbn; [by split; [intros i ?%elem_of_nil|intros i j x ?%elem_of_nil]|].
  intros (Ha & Hdis & Hnd)%NoDup_app. destruct (IH Hnd) as [IH1 IH2].
  assert (∀ i x, i ∈ ids → x ∈ g i → x ∈ ids ≫= g) as Hin by (intros i x Hi Hx; apply list_elem_of_bind; by exists i).
  split.
  - intros i [->|Hi]%elem_of_cons; [done|by apply IH1].
  - intros i j x [->|Hi]%elem_of_cons [->|Hj]%elem_of_cons Hx Hx'; [done| | |by eapply IH2].
    + exfalso. by eapply Hdis, Hin.
    + exfalso. by eapply Hdis, Hin.
Qed.

(** The modules of the subsystems. *)
Definition lists (l : gmap string Subsystem) (id x : string) : Prop := ∃ sub, l !! id = Some sub ∧ x ∈ st_Name <$> sub_Modules sub.

Definition own_modules (l : gmap string Subsystem) : Prop :=
  ∀ id1 id2 sub1 sub2, l !! id1 = Some sub1 → l !! id2 = Some sub2 → sub_module sub1 = sub_module sub2 → id1 = id2.

(** Each subsystem lists its module and then others, which it depends on. *)
Definition listed_own (ms : gmap string GoModule) (l l' : gmap string Subsystem) : Prop :=
  ∀ id sub, l !! id = Some sub → ∃ m deps, ms !! sub_module sub = Some m ∧ l' !! id = Some (set_sub_Modules (statusFromModule m :: deps) sub) ∧
    NoDup (st_Name <$> statusFromModule m :: deps) ∧
    ∀ t, t ∈ deps → rtc (dep ms) (sub_module sub) (st_Name t) ∧ ∃ d, ms !! st_Name t = Some d ∧ t = statusFromModule d.

Section Partition.
Context (ms : gmap string GoModule) (Hwf : wf_graph ms) (ids : list string) (l l' : gmap string Subsystem) (seen : gset string) (f : string → list ModuleStatus).
Hypothesis (Hids : ∀ id, id ∈ ids ↔ is_Some (l !! id)).
Hypothesis (Hcol : collected ms ids l seen l' f).
Hypothesis (Hseen : ∀ x, x ∈ seen ↔ ∃ id sub, l !! id = Some sub ∧ sub_module sub = x).
Hypothesis (Hown : own_modules l).
Hypothesis (Hsubs : ∀ id sub, l !! id = Some sub → sub_Modules sub = [] ∧ is_Some (ms !! sub_module sub)).

Lemma collected_get (id : string) (sub : Subsystem) : l !! id = Some sub →
  ∃ m, ms !! sub_module sub = Some m ∧ st_Name (statusFromModule m) = sub_module sub ∧
    l' !! id = Some (set_sub_Modules (statusFromModule m :: f id) sub) ∧
    ∀ t, t ∈ f id → st_Name t ∉ seen ∧ rtc (dep ms) (sub_module sub) (st_Name t) ∧ ∃ d, ms !! st_Name t = Some d ∧ t = statusFromModule d.
Proof.
  intros Hl. destruct Hcol as (_ & Hin & _). destruct (Hin id) as (sub' & m & Hl' & Hm & Hs' & Hf); [apply Hids; by exists sub|].
  rewrite Hl in Hl'. injection Hl' as <-. destruct (Hsubs id sub Hl) as [Hnil _]. rewrite Hnil in Hs'. exists m.
  split_and!; try done. by destruct (Hwf _ _ Hm).
Qed.

Lemma collected_lists (id x : string) : lists l' id x ↔ ∃ sub, l !! id = Some sub ∧ (x = sub_module sub ∨ x ∈ st_Name <$> f id).
Proof.
  split.
  - intros (sub' & Hl' & Hx). destruct (l !! id) as [sub|] eqn:Hl.
    + exists sub. split; [done|]. destruct (collected_get id sub Hl) as (m & _ & Hn & Hl'' & _). rewrite Hl' in Hl''. injection Hl'' as ->. simpl in Hx.
      apply elem_of_cons in Hx as [->|Hx]; [by left|by right].
    + destruct Hcol as (Hout & _). rewrite Hout in Hl'; [by rewrite Hl in Hl'|]. by intros [? ?]%Hids; simplify_eq.
  - intros (sub & Hl & Hx). destruct (collected_get id sub Hl) as (m & _ & Hn & Hl' & _). eexists. split; [exact Hl'|]. simpl.
    apply elem_of_cons. destruct Hx as [->|Hx]; [left; by rewrite <- Hn|by right].
Qed.

Lemma collected_new (id : string) (sub : Subsystem) (x : string) : l !! id = Some sub → x ∈ st_Name <$> f id → x ∉ seen.
Proof. intros Hl (t & -> & Ht)%list_elem_of_fmap. destruct (collected_get id sub Hl) as (m & _ & _ & _ & Hf). by destruct (Hf t Ht). Qed.

Lemma collected_own : listed_own ms l l'.
Proof.
  intros id sub Hl. destruct (collected_get id sub Hl) as (m & Hm & Hn & Hl' & Hf). exists m, (f id). split; [done|]. split; [done|]. split.
  - change (NoDup (st_Name (statusFromModule m) :: (st_Name <$> f id))). rewrite Hn. apply NoDup_cons. split.
    + intros Hx. apply (collected_new id sub _ Hl Hx), Hseen. by exists id, sub.
    + destruct Hcol as (_ & _ & Hnd & _). apply NoDup_bind_inv in Hnd as [Hnd _]. apply Hnd, Hids. by exists sub.
  - intros t Ht. by destruct (Hf t Ht) as (_ & ? & ?).
Qed.

Lemma collected_once (id1 id2 x : string) : lists l' id1 x → lists l' id2 x → id1 = id2.
Proof.
  intros (sub1 & Hl1 & Hx1)%collected_lists (sub2 & Hl2 & Hx2)%collected_lists. destruct Hx1 as [->|Hx1].
  - destruct Hx2 as [Heq|Hx2]; [by eapply Hown|]. exfalso. apply (collected_new id2 sub2 _ Hl2 Hx2), Hseen. by exists id1, sub1.
  - destruct Hx2 as [->|Hx2]; [exfalso; apply (collected_new id1 sub1 _ Hl1 Hx1), Hseen; by exists id2, sub2|].
    destruct Hcol as (_ & _ & Hnd & _). apply NoDup_bind_inv in Hnd as [_ Hnd].
    eapply Hnd; [apply Hids; by exists sub1|apply Hids; by exists sub2|exact Hx1|exact Hx2].
Qed.

Lemma collected_reachable (x : string) : (∃ id, lists l' id x) ↔ ∃ id sub, l !! id = Some sub ∧ rtc (dep ms) (sub_module sub) x.
Proof.
  split.
  - intros (id & (sub & Hl & Hx)%collected_lists). exists id, sub. split; [done|]. destruct Hx as [->|(t & -> & Ht)%list_elem_of_fmap]; [done|].
    destruct (collected_get id sub Hl) as (m & _ & _ & _ & Hf). by destruct (Hf t Ht) as (_ & ? & _).
  - intros (id & sub & Hl & Hr). revert Hr. apply (rtc_ind_r (λ x, ∃ id, lists l' id x) (sub_module sub)).
    + exists id. apply collected_lists. exists sub. split; [done|by left].
    + intros a d _ Had (id1 & (sub1 & Hl1 & Ha)%collected_lists). destruct Hcol as (_ & _ & _ & Hcl).
      destruct (Hcl id1 sub1 a d) as [Hd|(id2 & Hid2 & Hd)]; [apply Hids; by exists sub1|done|done|done| |].
      * apply Hseen in Hd as (id2 & sub2 & Hl2 & <-). exists id2. apply collected_lists. exists sub2. split; [done|by left].
      * apply Hids in Hid2 as [sub2 Hl2]. exists id2. apply collected_lists. exists sub2. split; [done|by right].
Qed.

End Partition.

(** *** Updates *)

Lemma worst_failure_spec (l : list ModuleStatus) : (∀ s, s ∈ l → st_FailureStatus s ≤ worst_failure l) ∧
  0 ≤ worst_failure l ∧ (worst_failure l = 0 ∨ ∃ s, s ∈ l ∧ worst_failure l = st_FailureStatus s).
Proof.
  unfold worst_failure. assert (∀ w, let v := foldl (λ worst s, if worst <? st_FailureStatus s then st_FailureStatus s else worst) w l in
    (∀ s, s ∈ l → st_FailureStatus s ≤ v) ∧ w ≤ v ∧ (v = w ∨ ∃ s, s ∈ l ∧ v = st_FailureStatus s)) as H; [|by apply (H 0)].
  induction l as [|s l IH]; intros w; simpl; [split_and!; [by intros s ?%elem_of_nil|lia|by left]|].
  destruct (IH (if w <? st_FailureStatus s then st_FailureStatus s else w)) as (H1 & H2 & H3).
  pose proof (Z.ltb_spec w (st_FailureStatus s)) as Hw. destruct (w <? st_FailureStatus s); inversion Hw; split_and!.
  - intros s' [->|Hs]%elem_of_cons; [lia|by apply H1].
  - lia.
  - right. destruct H3 as [->|(s' & Hs' & ->)]; [exists s|exists s']; set_solver.
  - intros s' [->|Hs]%elem_of_cons; [lia|by apply H1].
  - lia.
  - destruct H3 as [->|(s' & Hs' & ->)]; [by left|right; exists s'; set_solver].
Qed.

(** What an update looks at. *)
Definition shows (s : ModuleStatus) (m : GoModule) : Prop :=
  st_Enabled s = module_enabled m ∧ st_Status s = status m ∧ st_FailureStatus s = failureStatus m ∧ st_FailureID s = failureID m.

Lemma compareAndUpdateStatus_spec (m : GoModule) (s s' : ModuleStatus) (updated : bool) :
  compareAndUpdateStatus m s = (s', updated) →
  shows s' m ∧ st_Name s' = st_Name s ∧ (updated = false ↔ shows s m) ∧ (updated = false → s' = s).
Proof.
  unfold compareAndUpdateStatus, shows. cbn [st_FailureStatus st_FailureID st_Name st_FailureMsg].
  pose proof (Z.eqb_spec (st_FailureStatus s) (failureStatus m)) as H1. pose proof (String.eqb_spec (st_FailureID s) (failureID m)) as H2.
  pose proof (Z.eqb_spec (st_Status s) (status m)) as H3. pose proof (Bool.eqb_spec (st_Enabled s) (module_enabled m)) as H4.
  destruct (_ =? _), (String.eqb _ _), (_ =? _), (Bool.eqb _ _); inversion H1; inversion H2; inversion H3; inversion H4; simpl; intros [= <- <-]; simpl;
    split_and!; try naive_solver; intros _; destruct s; simpl in *; congruence.
Qed.

Lemma find_status_spec (name : string) (l : list ModuleStatus) :
  match find_status name l with
  | Some i => ∃ s, l !! i = Some s ∧ st_Name s = name
  | None => name ∉ st_Name <$> l
  end.
Proof.
  induction l as [|s l IH]; simpl; [by apply not_elem_of_nil|]. destruct (String.eqb_spec (st_Name s) name) as [Hn|Hn]; [by exists s|].
  destruct (find_status name l) as [i|]; simpl; [done|]. apply not_elem_of_cons. split; [by intros ->|done].
Qed.

Lemma findParentSubsystem_spec (name : string) (ids : list string) (l : gmap string Subsystem) :
  match findParentSubsystem name ids l with
  | Some (sub, i) => ∃ id s, id ∈ ids ∧ l !! id = Some sub ∧ sub_Modules sub !! i = Some s ∧ st_Name s = name
  | None => ∀ id sub, id ∈ ids → l !! id = Some sub → name ∉ st_Name <$> sub_Modules sub
  end.
Proof.
  induction ids as [|id ids IH]; simpl; [by intros id sub ?%elem_of_nil|].
  destruct (l !! id) as [sub|] eqn:Hl; simpl.
  - pose proof (find_status_spec name (sub_Modules sub)) as Hf. destruct (find_status name (sub_Modules sub)) as [i|]; simpl.
    + destruct Hf as (s & Hs & Hn). exists id, s. split; [by left|done].
    + destruct (findParentSubsystem name ids l) as [[sub' i']|].
      * destruct IH as (id' & s & Hid & H). exists id', s. split; [by right|done].
      * intros id' sub' [->|Hid]%elem_of_cons H'; [by simplify_eq|by eapply IH].
  - destruct (findParentSubsystem name ids l) as [[sub' i']|].
    + destruct IH as (id' & s & Hid & H). exists id', s. split; [by right|done].
    + intros id' sub' [->|Hid]%elem_of_cons H'; [by simplify_eq|by eapply IH].
Qed.

(** The value of the toggle, whatever the getter has cached. *)
Definition toggle_value {R : Type} (c : Config (R := R)) (sub : Subsystem) : bool := (toggle_call (sub_toggleValue sub) c).1.

Section Toggled.
Context {R : Type} (c : Config (R := R)).

(** The modules of the subsystems [ids] are enabled as their toggles say; the last
    flags say whether one of them changed. *)
Definition toggled (ids : list string) (ms : gmap string GoModule) (l : gmap string Subsystem) (ch : bool)
    (ms' : gmap string GoModule) (l' : gmap string Subsystem) (ch' : bool) : Prop :=
  (∀ id sub, id ∈ ids → l !! id = Some sub → ms' !! sub_module sub = set_enabled (toggle_value c sub) <$> ms !! sub_module sub) ∧
  (∀ n, (∀ id sub, id ∈ ids → l !! id = Some sub → sub_module sub ≠ n) → ms' !! n = ms !! n) ∧
  (∀ id, ∃ t, l' !! id = set_sub_toggleValue t <$> l !! id) ∧
  (ch' = true ↔ ch = true ∨ ∃ id sub m, id ∈ ids ∧ l !! id = Some sub ∧ ms !! sub_module sub = Some m ∧ enabled m ≠ toggle_value c sub).

Lemma toggled_nil ms l ch : toggled [] ms l ch ms l ch.
Proof.
  split_and!; [by intros id sub ?%elem_of_nil|done| |].
  - intros id. destruct (l !! id) as [sub|]; [|by exists ToggleTrue]. exists (sub_toggleValue sub). by destruct sub.
  - split; [by left|]. intros [?|(id & sub & m & ?%elem_of_nil & _)]; done.
Qed.

Lemma toggled_skip id ids ms l ch ms' l' ch' : l !! id = None → toggled ids ms l ch ms' l' ch' → toggled (id :: ids) ms l ch ms' l' ch'.
Proof.
  intros Hl (H1 & H2 & H3 & H4). split_and!; [set_solver| |done|].
  - intros n Hn. apply H2. intros id' sub' Hin. apply Hn. set_solver.
  - rewrite H4. split; intros [?|(id' & sub' & m & Hin & ? & ?)]; [by left| |by left|]; right; exists id', sub', m; set_solver.
Qed.

(** One subsystem, and then the others. *)
Lemma toggled_cons id ids sub t ms l ch ms1 ch1 ms' l' ch' :
  id ∉ ids → own_modules l → l !! id = Some sub →
  ms1 !! sub_module sub = set_enabled (toggle_value c sub) <$> ms !! sub_module sub → (∀ n, n ≠ sub_module sub → ms1 !! n = ms !! n) →
  (ch1 = true ↔ ch = true ∨ ∃ m, ms !! sub_module sub = Some m ∧ enabled m ≠ toggle_value c sub) →
  toggled ids ms1 (<[id := set_sub_toggleValue t sub]> l) ch1 ms' l' ch' → toggled (id :: ids) ms l ch ms' l' ch'.
Proof.
  intros Hid Hown Hl Hms1 Hother Hch1 (H1 & H2 & H3 & H4).
  assert (∀ id', id' ∈ ids → <[id := set_sub_toggleValue t sub]> l !! id' = l !! id') as Hl1 by (intros id' H'; apply lookup_insert_ne; by intros ->).
  assert (∀ i s, i ∈ ids → l !! i = Some s → sub_module s ≠ sub_module sub) as Hne.
  { intros i s0 Hi Hli Heq. by rewrite (Hown i id s0 sub Hli Hl Heq) in Hi. }
  split_and!.
  - intros id' sub' [->|Hin]%elem_of_cons Hl'.
    + rewrite Hl in Hl'. injection Hl' as <-. rewrite H2; [done|]. intros i s0 Hi. rewrite Hl1 by done. by apply Hne.
    + rewrite (H1 id' sub' Hin) by (by rewrite Hl1). by rewrite Hother by (by eapply Hne).
  - intros n Hn. rewrite H2; [apply Hother; intros ->; apply (Hn id sub); [by left|done|done]|].
    intros i s0 Hi. rewrite Hl1 by done. apply Hn. by right.
  - intros i. destruct (H3 i) as [t' ->]. destruct (decide (i = id)) as [->|Hi]; [|exists t'; by rewrite lookup_insert_ne].
    rewrite lookup_insert_eq, Hl. by exists t'.
  - rewrite H4, Hch1. split.
    + intros [[?|(m & Hm & Hen)]|(i & s0 & m & Hi & Hli & Hm & Hen)]; [by left|right; exists id, sub, m; split; [by left|done]|].
      rewrite Hl1 in Hli by done. right. exists i, s0, m. rewrite Hother in Hm by (by eapply Hne). split; [by right|done].
    + intros [?|(i & s0 & m & [->|Hi]%elem_of_cons & Hli & Hm & Hen)]; [by left; left| |].
      * rewrite Hl in Hli. injection Hli as <-. left. right. by exists m.
      * right. exists i, s0, m. rewrite Hl1 by done. by rewrite Hother by (by eapply Hne).
Qed.

Lemma own_modules_toggle (l : gmap string Subsystem) (id : string) (sub : Subsystem) (t : toggle) :
  l !! id = Some sub → own_modules l → own_modules (<[id := set_sub_toggleValue t sub]> l).
Proof.
  intros Hl Hown. assert (∀ i s, <[id := set_sub_toggleValue t sub]> l !! i = Some s → ∃ s0, l !! i = Some s0 ∧ sub_module s0 = sub_module s) as Hm.
  { intros i s0 Hi. apply lookup_insert_Some in Hi as [[<- <-]|[_ Hi]]; [by exists sub|by exists s0]. }
  intros i j si sj (si0 & Hi & <-)%Hm (sj0 & Hj & <-)%Hm. by apply Hown.
Qed.

Lemma SetEnabled_spec (v : bool) (m : GoModule) : SetEnabled v m = (set_enabled v m, xorb v (enabled m)).
Proof. unfold SetEnabled, Enable, Disable. by destruct v, (enabled m). Qed.

Lemma apply_toggles_spec (ids : list string) : ∀ (sys : ModSys) (l : gmap string Subsystem) (ch : bool),
  NoDup ids → own_modules l →
  ∃ ms' l' ch', foldl (λ acc id, apply_toggle acc id c) (sys, l, ch) ids = (put_modules ms' sys, l', ch') ∧
    toggled ids (modules sys) l ch ms' l' ch'.
Proof.
  induction ids as [|id ids IH]; intros sys l ch Hnd Hown; cbn [foldl].
  { exists (modules sys), l, ch. split; [by destruct sys|apply toggled_nil]. }
  apply NoDup_cons in Hnd as [Hid Hnd]. unfold apply_toggle at 2. destruct (l !! id) as [sub|] eqn:Hl.
  2:{ destruct (IH sys l ch Hnd Hown) as (ms' & l' & ch' & Hrun & H). exists ms', l', ch'. split; [done|]. by apply toggled_skip. }
  destruct (toggle_call (sub_toggleValue sub) c) as [v t] eqn:Ht.
  assert (toggle_value c sub = v) as Hv by (unfold toggle_value; by rewrite Ht).
  pose proof (own_modules_toggle l id sub t Hl Hown) as Hown1.
  destruct (modules sys !! sub_module sub) as [m|] eqn:Hm.
  - rewrite SetEnabled_spec.
    destruct (IH (put_modules (<[sub_module sub := set_enabled v m]> (modules sys)) sys) _ (ch || xorb v (enabled m)) Hnd Hown1) as (ms' & l' & ch' & Hrun & H).
    exists ms', l', ch'. rewrite Hrun. split; [done|]. eapply toggled_cons; [exact Hid|exact Hown|exact Hl| | | |exact H]; simpl.
    + by rewrite lookup_insert_eq, Hm, Hv.
    + intros n Hn. by apply lookup_insert_ne.
    + rewrite orb_true_iff, Hm, Hv. split; intros [H0|H0]; [by left| |by left|]; right.
      * exists m. split; [done|]. intros Heq. rewrite Heq in H0. by destruct v.
      * destruct H0 as (m0 & [= <-] & Hen). by destruct v, (enabled m).
  - destruct (IH sys _ ch Hnd Hown1) as (ms' & l' & ch' & Hrun & H). exists ms', l', ch'. split; [done|].
    eapply toggled_cons; [exact Hid|exact Hown|exact Hl|by rewrite Hm|done| |exact H]. rewrite Hm. naive_solver.
Qed.

End Toggled.

(** ** Properties *)

Section Properties.
Context {R : Type} `{!QueryLib R} {proc : Processor} {fmtlib : FmtLib} {sort_lib : SortLib} {sort_laws : SortLaws}.
Context (order : gmap string Subsystem → list string).
Hypothesis (Horder : ∀ l, order l ≡ₚ (map_to_list l).*1).

Lemma order_NoDup (l : gmap string Subsystem) : NoDup (order l).
Proof. rewrite Horder. apply NoDup_fst_map_to_list. Qed.

Lemma order_elem (l : gmap string Subsystem) (id : string) : id ∈ order l ↔ is_Some (l !! id).
Proof.
  rewrite Horder, list_elem_of_fmap. split.
  - intros ([k s] & -> & H%elem_of_map_to_list). by exists s.
  - intros [s H]. exists (id, s). by rewrite elem_of_map_to_list.
Qed.

(** C36: Start does not fail, in a graph with loops as well. Each subsystem gets its
    module, first, and modules that this one depends on, with the states they have;
    no module is listed twice; and what is listed is what some subsystem's module
    depends on. *)
Theorem Start_partitions (s : SubSys (R := R)) :
  let ms := modules (ss_modules s) in
  let l := subsys (ss_manager s) in
  wf_graph ms → own_modules l → (∀ id sub, l !! id = Some sub → sub_Modules sub = [] ∧ is_Some (ms !! sub_module sub)) →
  ∃ s', Manager_Start order s = (s', Ret tt) ∧ immutable (ss_manager s') = true ∧ ss_modules s' = ss_modules s ∧
    let l' := subsys (ss_manager s') in
    listed_own ms l l' ∧
    (∀ id1 id2 x, lists l' id1 x → lists l' id2 x → id1 = id2) ∧
    (∀ x, (∃ id, lists l' id x) ↔ ∃ id sub, l !! id = Some sub ∧ rtc (dep ms) (sub_module sub) x).
Proof.
  intros ms l Hwf Hown Hsubs. unfold Manager_Start. simpl. fold l ms.
  pose proof (start_seen_roots l (order l) (∅, ∅)) as Hroots. unfold start_seen. destruct (foldl _ _ _) as [seen prefixes]. simpl in Hroots.
  assert (∀ x, x ∈ seen ↔ ∃ id sub, l !! id = Some sub ∧ sub_module sub = x) as Hseen.
  { intros x. rewrite Hroots, union_empty_l_L, elem_of_list_to_set, list_elem_of_fmap. split.
    - intros (sub & -> & (id & _ & Hl)%list_elem_of_omap). by exists id, sub.
    - intros (id & sub & Hl & <-). exists sub. split; [done|]. apply list_elem_of_omap. exists id. split; [|done]. apply order_elem. by exists sub. }
  assert (∀ id, id ∈ order l → ∃ sub m, l !! id = Some sub ∧ ms !! sub_module sub = Some m) as Hall.
  { intros id [sub Hl]%order_elem. destruct (Hsubs id sub Hl) as [_ [m Hm]]. by exists sub, m. }
  destruct (collect_all_spec ms Hwf (order l) l seen) as (l' & f & -> & Hcol); [apply order_NoDup| |done|].
  { intros x (id & sub & Hl & <-)%Hseen. destruct (Hsubs id sub Hl) as [_ [m Hm]]. by eapply elem_of_dom_2. }
  eexists. split; [reflexivity|]. split; [done|]. split; [done|]. cbn [ss_manager subsys set_subsys].
  split; [by apply (collected_own ms Hwf (order l) l l' seen f (order_elem l))|].
  split; [by apply (collected_once ms Hwf (order l) l l' seen f (order_elem l))|by apply (collected_reachable ms Hwf (order l) l l' seen f (order_elem l))].
Qed.

(** A module update reaches the subsystem that lists the module: the entry shows
    the module, and if it did not before, the failure status is the worst of the
    entries and the subsystem is pushed; otherwise nothing changes. *)
Theorem handleModuleUpdate_exact (name : string) (m : GoModule) (s : SubSys (R := R)) :
  let mng := ss_manager s in
  shouldServeUpdates s = true → modules (ss_modules s) !! name = Some m → (∀ id sub, subsys mng !! id = Some sub → sub_ID sub = id) →
  (∀ id1 id2, lists (subsys mng) id1 name → lists (subsys mng) id2 name → id1 = id2) →
  let s' := handleModuleUpdate order name s in
  ((∀ id, ¬ lists (subsys mng) id name) ∧ s' = s) ∨
  ∃ id sub i t t', subsys mng !! id = Some sub ∧ sub_Modules sub !! i = Some t ∧ st_Name t = name ∧ shows t' m ∧ st_Name t' = name ∧
    if bool_decide (st_Enabled t = module_enabled m ∧ st_Status t = status m ∧ st_FailureStatus t = failureStatus m ∧ st_FailureID t = failureID m)
    then s' = s
    else ∃ sub', s' = set_manager (mkManager (<[id := sub']> (subsys mng)) (immutable mng) (debounceUpdate mng) (mng_pushed mng ++ [sub'])) s ∧
      sub_Modules sub' = <[i := t']> (sub_Modules sub) ∧ sub_FailureStatus sub' = worst_failure (sub_Modules sub').
Proof.
  intros mng Hserve Hm Hids Hone s'. subst s'. unfold handleModuleUpdate. rewrite Hserve. simpl. fold mng. rewrite Hm.
  pose proof (findParentSubsystem_spec name (order (subsys mng)) (subsys mng)) as Hf.
  destruct (findParentSubsystem name (order (subsys mng)) (subsys mng)) as [[sub i]|].
  2:{ left. split; [|done]. intros id (sub & Hl & Hx). eapply Hf; [apply order_elem; by exists sub|exact Hl|exact Hx]. }
  destruct Hf as (id & t & _ & Hl & Ht & Hn). right. rewrite Ht.
  destruct (compareAndUpdateStatus m t) as [t' updated] eqn:Hc. apply compareAndUpdateStatus_spec in Hc as (Hs' & Hn' & Hu & Hid).
  exists id, sub, i, t, t'. split; [done|]. split; [done|]. split; [done|]. split; [done|]. split; [by rewrite Hn'|].
  fold (shows t m). destruct updated.
  - rewrite bool_decide_false by (intros H%Hu; done). set (sub' := makeSummary _).
    assert (sub_ID sub' = id) as -> by exact (Hids id sub Hl). by exists sub'.
  - rewrite bool_decide_true by (by apply Hu). rewrite Hid by done. rewrite list_insert_id by done.
    assert (set_sub_Modules (sub_Modules sub) sub = sub) as -> by (by destruct sub).
    rewrite (Hids id sub Hl), insert_id by done. rewrite app_nil_r. destruct s as [sys c [? ? ? ?]]. done.
Qed.

(** After the pause each subsystem's module is enabled as its toggle says now, and
    the other modules stay; ManageModules follows if and only if one of them
    changed. *)
Theorem handleConfigChanges_exact (s : SubSys (R := R)) :
  let mng := ss_manager s in
  own_modules (subsys mng) →
  ∃ ms' l' ch, handleConfigChanges_end order s =
      (mkSubSys (put_modules ms' (ss_modules s)) (ss_config s) (mkManager l' (immutable mng) false (mng_pushed mng)), ch) ∧
    (∀ id sub, subsys mng !! id = Some sub →
       ms' !! sub_module sub = set_enabled (toggle_value (ss_config s) sub) <$> modules (ss_modules s) !! sub_module sub) ∧
    (∀ n, (∀ id sub, subsys mng !! id = Some sub → sub_module sub ≠ n) → ms' !! n = modules (ss_modules s) !! n) ∧
    (∀ id, ∃ t, l' !! id = set_sub_toggleValue t <$> subsys mng !! id) ∧
    (ch = true ↔ ∃ id sub m, subsys mng !! id = Some sub ∧ modules (ss_modules s) !! sub_module sub = Some m ∧ enabled m ≠ toggle_value (ss_config s) sub).
Proof.
  intros mng Hown. unfold handleConfigChanges_end. fold mng.
  destruct (apply_toggles_spec (ss_config s) (order (subsys mng)) (ss_modules s) (subsys mng) false (order_NoDup _) Hown)
    as (ms' & l' & ch & -> & H1 & H2 & H3 & H4).
  assert (∀ id sub, subsys mng !! id = Some sub → id ∈ order (subsys mng)) as Hin by (intros id sub Hl; apply order_elem; by exists sub).
  exists ms', l', ch. split; [done|]. split_and!; [eauto|eauto|done|]. rewrite H4. split.
  - intros [?|(id & sub & m & _ & H)]; [done|]. by exists id, sub, m.
  - intros (id & sub & m & Hl & H). right. exists id, sub, m. split; [eauto|done].
Qed.

(** Get returns the subsystems below the searched prefix, in the order of their
    IDs. *)
Theorem Manager_Get_exact (dbName prefix : string) (s : SubSys (R := R)) :
  let l := with_key dbName <$> subsys (ss_manager s) in
  ∃ records, Manager_Get order dbName prefix s = (set_manager (set_subsys l (ss_manager s)) s, Ret records) ∧
    StronglySorted (λ a b, bytes_lt (sub_ID b) (sub_ID a) = false) records ∧
    (∀ sub, sub ∈ records ↔ ∃ id, l !! id = Some sub ∧ HasPrefix (DatabaseKey (sub_Base sub)) prefix = true).
Proof.
  intros l. eexists. split; [reflexivity|]. fold l. split.
  - apply Sort_sorted. split_and!.
    + intros x _. apply bytes_lt_irrefl.
    + intros x y z _ _ _. apply bytes_lt_trans.
    + intros x y z _ _ _ Hxy Hyz. destruct (bytes_lt_total (sub_ID x) (sub_ID z)) as [->|[H|H]]; [apply bytes_lt_irrefl| |by apply bytes_lt_asym].
      exfalso. destruct (bytes_lt_total (sub_ID x) (sub_ID y)) as [Heq|[H'|H']]; [by rewrite Heq, Hyz in H|by rewrite H' in Hxy|].
      by rewrite (bytes_lt_trans _ _ _ H' H) in Hyz.
  - intros sub. rewrite (Sort_perm _ _ _), list_elem_of_filter, list_elem_of_omap. split.
    + intros [Hp (id & _ & Hl)]. by exists id.
    + intros (id & Hl & Hp). split; [done|]. exists id. split; [apply order_elem; by exists sub|done].
Qed.

End Properties.

(** *** Witnesses *)

Definition ids_of (l : gmap string Subsystem) : list string := (map_to_list l).*1.

Definition example_module (name : string) (deps : list string) (m : GoModule → GoModule) : GoModule :=
  m (set_depModules deps (initNewModule name false false false deps)).

(** Two modules that depend on each other and on a third one, which has failed. *)
Definition ss_graph : gmap string GoModule :=
  {[ "ui" := example_module "ui" ["api"; "base"] id; "api" := example_module "api" ["ui"; "base"] id;
     "base" := example_module "base" [] (set_failure FailureError "disk" "Disk" "full") ]}.

Definition ss_sub (id module keySpace : string) (t : toggle) : Subsystem :=
  mkSubsystem (CreateMeta (mkBase "" "" None)) id id "" [] 0 "" 0 0 keySpace module t.

Definition ss_example : SubSys (R := string) :=
  mkSubSys (put_modules ss_graph (initial false (mkStartup None None false None))) (zero_config (mkSys ∅ 0))
    (mkManager {[ "core" := ss_sub "core" "base" "core/" ToggleTrue; "front" := ss_sub "front" "ui" "ui/" ToggleTrue ]} false false []).

Definition ss_started : SubSys (R := string) := (Manager_Start ids_of ss_example).1.

Lemma ss_graph_wf : wf_graph ss_graph.
Proof.
  intros n m Hm. unfold ss_graph in Hm.
  repeat (apply lookup_insert_Some in Hm as [[<- <-]|[_ Hm]];
    [split; [reflexivity|]; intros d Hd; repeat (apply elem_of_cons in Hd as [->|Hd]; [vm_compute; by eexists|]); by apply elem_of_nil in Hd|]).
  apply lookup_singleton_Some in Hm as [<- <-]. split; [reflexivity|]. intros d Hd. by apply elem_of_nil in Hd.
Qed.

Lemma ss_example_subs (id : string) (sub : Subsystem) : subsys (ss_manager ss_example) !! id = Some sub →
  (id = "core" ∧ sub = ss_sub "core" "base" "core/" ToggleTrue) ∨ (id = "front" ∧ sub = ss_sub "front" "ui" "ui/" ToggleTrue).
Proof.
  intros H. simpl in H. apply lookup_insert_Some in H as [[<- <-]|[_ H]]; [by left|]. apply lookup_singleton_Some in H as [<- <-]. by right.
Qed.

Lemma ss_example_own : own_modules (subsys (ss_manager ss_example)).
Proof.
  intros id1 id2 sub1 sub2 H1 H2 H. apply ss_example_subs in H1 as [[-> ->]|[-> ->]]; apply ss_example_subs in H2 as [[-> ->]|[-> ->]]; simpl in H; congruence.
Qed.

Lemma Start_partitions_witness :
  let ms := modules (ss_modules ss_example) in
  let l := subsys (ss_manager ss_example) in
  ∃ s', Manager_Start ids_of ss_example = (s', Ret tt) ∧ immutable (ss_manager s') = true ∧ ss_modules s' = ss_modules ss_example ∧
    let l' := subsys (ss_manager s') in
    listed_own ms l l' ∧ (∀ id1 id2 x, lists l' id1 x → lists l' id2 x → id1 = id2) ∧
    (∀ x, (∃ id, lists l' id x) ↔ ∃ id sub, l !! id = Some sub ∧ rtc (dep ms) (sub_module sub) x).
Proof.
  refine (Start_partitions ids_of _ ss_example _ _ _).
  - reflexivity.
  - exact ss_graph_wf.
  - exact ss_example_own.
  - intros id sub H. apply ss_example_subs in H as [[_ ->]|[_ ->]]; (split; [reflexivity|vm_compute; by eexists]).
Defined.

(** The module of the first subsystem recovers. *)
Definition ss_recovered : SubSys (R := string) :=
  mkSubSys (put_modules (<["base" := example_module "base" [] id]> ss_graph) (ss_modules ss_started)) (ss_config ss_started) (ss_manager ss_started).

Lemma ss_started_subs (id : string) (sub : Subsystem) : subsys (ss_manager ss_started) !! id = Some sub →
  (id = "core" ∧ sub_ID sub = "core" ∧ st_Name <$> sub_Modules sub = ["base"]) ∨ (id = "front" ∧ sub_ID sub = "front" ∧ st_Name <$> sub_Modules sub = ["ui"; "api"]).
Proof.
  intros H%elem_of_map_to_list.
  assert (∀ x, x ∈ map_to_list (subsys (ss_manager ss_started)) →
    (x.1 = "core" ∧ sub_ID x.2 = "core" ∧ st_Name <$> sub_Modules x.2 = ["base"]) ∨ (x.1 = "front" ∧ sub_ID x.2 = "front" ∧ st_Name <$> sub_Modules x.2 = ["ui"; "api"])) as Hall.
  { apply Forall_forall. vm_compute. repeat constructor; by first [left|right]. }
  apply (Hall _ H).
Qed.

Lemma handleModuleUpdate_exact_witness :
  let s := ss_recovered in
  let name := "base" in
  let m := example_module "base" [] id in
  let mng := ss_manager s in
  let s' := handleModuleUpdate ids_of name s in
  ((∀ id, ¬ lists (subsys mng) id name) ∧ s' = s) ∨
  ∃ id sub i t t', subsys mng !! id = Some sub ∧ sub_Modules sub !! i = Some t ∧ st_Name t = name ∧ shows t' m ∧ st_Name t' = name ∧
    if bool_decide (st_Enabled t = module_enabled m ∧ st_Status t = status m ∧ st_FailureStatus t = failureStatus m ∧ st_FailureID t = failureID m)
    then s' = s
    else ∃ sub', s' = set_manager (mkManager (<[id := sub']> (subsys mng)) (immutable mng) (debounceUpdate mng) (mng_pushed mng ++ [sub'])) s ∧
      sub_Modules sub' = <[i := t']> (sub_Modules sub) ∧ sub_FailureStatus sub' = worst_failure (sub_Modules sub').
Proof.
  refine (handleModuleUpdate_exact ids_of _ "base" (example_module "base" [] id) ss_recovered _ _ _ _).
  - reflexivity.
  - vm_compute. reflexivity.
  - vm_compute. reflexivity.
  - intros id sub H. apply ss_started_subs in H as [(-> & H & _)|(-> & H & _)]; exact H.
  - intros id1 id2 (sub1 & H1 & Hx1) (sub2 & H2 & Hx2).
    apply ss_started_subs in H1 as [(-> & _ & H1)|(-> & _ & H1)]; apply ss_started_subs in H2 as [(-> & _ & H2)|(-> & _ & H2)]; try reflexivity;
      rewrite H1 in Hx1; rewrite H2 in Hx2; exfalso; set_solver.
Defined.

Lemma handleConfigChanges_exact_witness :
  let s := ss_example in
  let mng := ss_manager s in
  ∃ ms' l' ch, handleConfigChanges_end ids_of s =
      (mkSubSys (put_modules ms' (ss_modules s)) (ss_config s) (mkManager l' (immutable mng) false (mng_pushed mng)), ch) ∧
    (∀ id sub, subsys mng !! id = Some sub →
       ms' !! sub_module sub = set_enabled (toggle_value (ss_config s) sub) <$> modules (ss_modules s) !! sub_module sub) ∧
    (∀ n, (∀ id sub, subsys mng !! id = Some sub → sub_module sub ≠ n) → ms' !! n = modules (ss_modules s) !! n) ∧
    (∀ id, ∃ t, l' !! id = set_sub_toggleValue t <$> subsys mng !! id) ∧
    (ch = true ↔ ∃ id sub m, subsys mng !! id = Some sub ∧ modules (ss_modules s) !! sub_module sub = Some m ∧ enabled m ≠ toggle_value (ss_config s) sub).
Proof. refine (handleConfigChanges_exact ids_of _ ss_example _); [reflexivity|exact ss_example_own]. Defined.

(** *** What modelling showed *)

(** Start lists the failure of a module, but leaves the subsystem's failure status
    at none; an update of the module, which has not changed since, does not mend
    that. *)
Lemma start_ignores_failures :
  let core s := default (ss_sub "" "" "" ToggleTrue) (subsys (ss_manager s) !! "core") in
  st_FailureStatus <$> sub_Modules (core ss_started) = [FailureError] ∧ sub_FailureStatus (core ss_started) = FailureNone ∧
  handleModuleUpdate ids_of "base" ss_started = ss_started.
Proof. vm_compute. split_and!; reflexivity. Qed.

(** An update that comes before somebody asks for the subsystem is pushed without a
    key, so no subscription of the subsystems' prefix gets it. *)
Lemma pushed_without_key :
  (λ sub, (sub_FailureStatus sub, sub_ID sub, Base_Key (sub_Base sub))) <$> mng_pushed (ss_manager (handleModuleUpdate ids_of "base" ss_recovered)) =
    [(FailureNone, "core", ":")].
Proof. vm_compute. reflexivity. Qed.

(** An option below a subsystem's key space is not annotated, since only a key that
    is the whole key space is found. *)
Lemma key_space_not_prefix :
  let o := string_option "Theme" "ui/theme" "colours" 0 "dark" [] [] in
  let s := mkSubSys (ss_modules ss_example) (set_registered {[ "ui/theme" := 0%nat ]} [o] (ss_config ss_example)) (ss_manager ss_example) in
  HasPrefix (opt_Key o) "ui/" = true ∧
  GetAnnotation SubsystemAnnotation <$> option_objs (ss_config (Manager_Start ids_of s).1) = [None].
Proof. split; vm_compute; reflexivity. Qed.
