(* ===== verification/GoBase64.v ===== *)
(** * encoding/base64: what the API uses of it

    RawURLEncoding.EncodeToString and StdEncoding.DecodeString; strings are byte
    strings, digits are numbers below 64. *)

From Stdlib Require Import NArith ZArith Lia Ascii String.
From stdpp Require Import gmap list.
From S2P Require Import Prelude GoStrings.
Local Open Scope string_scope.

Definition std_alphabet : string := "ABCDEFGHIJKLMNOPQRSTUVWXYZabcdefghijklmnopqrstuvwxyz0123456789+/".

Definition url_alphabet : string := "ABCDEFGHIJKLMNOPQRSTUVWXYZabcdefghijklmnopqrstuvwxyz0123456789-_".

Definition base64_digit (alphabet : string) (n : nat) : ascii := default "A"%char (String.get n alphabet).

Fixpoint index_of (a : ascii) (s : string) : option nat :=
  match s with
  | EmptyString => None
  | String b s' => if Ascii.eqb a b then Some 0%nat else S <$> index_of a s'
  end.

(** Three bytes as four digits; a shorter end has as many digits as it needs. *)
Fixpoint base64_encode (alphabet : string) (s : string) : string :=
  match s with
  | String a (String b (String c s')) =>
      let '(x, y, z) := (nat_of_ascii a, nat_of_ascii b, nat_of_ascii c) in
      String (base64_digit alphabet (x / 4))
        (String (base64_digit alphabet (x mod 4 * 16 + y / 16))
          (String (base64_digit alphabet (y mod 16 * 4 + z / 64))
            (String (base64_digit alphabet (z mod 64)) (base64_encode alphabet s'))))
  | String a (String b EmptyString) =>
      let '(x, y) := (nat_of_ascii a, nat_of_ascii b) in
      String (base64_digit alphabet (x / 4))
        (String (base64_digit alphabet (x mod 4 * 16 + y / 16)) (String (base64_digit alphabet (y mod 16 * 4)) ""))
  | String a EmptyString =>
      let x := nat_of_ascii a in
      String (base64_digit alphabet (x / 4)) (String (base64_digit alphabet (x mod 4 * 16)) "")
  | EmptyString => ""
  end.

Definition RawURLEncoding_EncodeToString : string → string := base64_encode url_alphabet.

(** Quantums of four characters; only the last one may be padded, and the bits
    that a padded one does not use are ignored. *)
Fixpoint base64_quantums (s : string) : option string :=
  match s with
  | EmptyString => Some ""
  | String a (String b (String c (String d s'))) =>
      x ← index_of a std_alphabet; y ← index_of b std_alphabet;
      let first := ascii_of_nat (x * 4 + y / 16) in
      if Ascii.eqb c "=" then
        if Ascii.eqb d "=" && String.eqb s' "" then Some (String first "") else None
      else
        z ← index_of c std_alphabet;
        let second := ascii_of_nat (y mod 16 * 16 + z / 4) in
        if Ascii.eqb d "=" then
          if String.eqb s' "" then Some (String first (String second "")) else None
        else
          w ← index_of d std_alphabet;
          rest ← base64_quantums s';
          Some (String first (String second (String (ascii_of_nat (z mod 4 * 64 + w)) rest)))
  | _ => None
  end.

Fixpoint drop_newlines (s : string) : string :=
  match s with
  | EmptyString => ""
  | String a s' =>
      if Nat.eqb (nat_of_ascii a) 10 || Nat.eqb (nat_of_ascii a) 13 then drop_newlines s' else String a (drop_newlines s')
  end.

Definition StdEncoding_DecodeString (s : string) : option string := base64_quantums (drop_newlines s).

Example base64_decode_user : StdEncoding_DecodeString "dXNlcjpwYXNz" = Some "user:pass".
Proof. reflexivity. Qed.

Example base64_decode_padded : StdEncoding_DecodeString "dXNlcjpw" = Some "user:p" ∧ StdEncoding_DecodeString "dTpw" = Some "u:p" ∧
  StdEncoding_DecodeString "dXM6cA==" = Some "us:p" ∧ StdEncoding_DecodeString "dXM6cA=" = None.
Proof. done. Qed.

Example base64_encode_raw : RawURLEncoding_EncodeToString "us:p" = "dXM6cA".
Proof. reflexivity. Qed.
