(* ===== verification/Api.v ===== *)
(** * api: authentication, endpoints and the request handler

    authentication.go, auth_wrapper.go, endpoints.go, modules.go, the handlers of
    endpoints_meta.go, the handler of router.go and the bridge of api_bridge.go.
    Tokens are shared objects: keys and sessions hold locations of a store. A
    handler runs in [st] over an [Exchange], the server's state with the response
    written so far; [Fail tt] is a return after a reply. Permissions are int8
    values, times nanoseconds. The routers (gorilla/mux) are the class [Mux],
    net/url's parser is the class [NetURL], and a cookie or header is what the
    request was parsed to. *)

From Stdlib Require Import ZArith Lia Ascii String.
From stdpp Require Import gmap list strings.
From S2P Require Import Prelude GoStrings GoPath UtilsSlices GoBase64 Record Dsd.
Local Open Scope string_scope.
Local Open Scope Z_scope.

(** ** Permissions *)

Definition NotFound : Z := -2.
Definition Dynamic : Z := -1.
Definition NotSupported : Z := 0.
Definition PermitAnyone : Z := 1.
Definition PermitUser : Z := 2.
Definition PermitAdmin : Z := 3.
Definition PermitSelf : Z := 4.

(** [None] is the error for an unknown name. *)
Definition parseAPIPermission (s : string) : option Z :=
  let s := ToLower s in
  if String.eqb s "" || String.eqb s "anyone" then Some PermitAnyone
  else if String.eqb s "user" then Some PermitUser
  else if String.eqb s "admin" then Some PermitAdmin
  else None.

Definition Permission_String (p : Z) : string :=
  if p =? NotSupported then "NotSupported" else if p =? Dynamic then "Dynamic" else if p =? PermitAnyone then "PermitAnyone"
  else if p =? PermitUser then "PermitUser" else if p =? PermitAdmin then "PermitAdmin" else if p =? PermitSelf then "PermitSelf"
  else if p =? NotFound then "NotFound" else "Unknown".

Definition Role (p : Z) : string :=
  if p =? PermitAnyone then "Anyone" else if p =? PermitUser then "User" else if p =? PermitAdmin then "Admin"
  else if p =? PermitSelf then "Self" else "Invalid".

(** ** Requests *)

Definition quoted (s : string) : string := String (ascii_of_nat 34) s ++ String (ascii_of_nat 34) "".

Record HttpRequest : Type := mkHttpRequest {
  Method : string;
  req_Header : gmap string string;
  RemoteAddr : string;
  Host : string;
  URL_Path : string;
  cookies : list (string * string);
  ContentLength : Z;
  Body : go string bytes;                            (* what io.ReadAll gives *)
}.

Definition Header_Get (k : string) (r : HttpRequest) : string := default "" (req_Header r !! k).

(** [r.Cookie(name)]: the first with the name. *)
Definition Cookie (name : string) (r : HttpRequest) : option string := snd <$> List.find (λ c, String.eqb c.1 name) (cookies r).

Definition equal_fold (a b : string) : bool := String.eqb (ToLower a) (ToLower b).

(** [r.BasicAuth()]: empty strings where it is not ok. *)
Definition BasicAuth (r : HttpRequest) : string * string :=
  let auth := Header_Get "Authorization" r in
  if (6 <=? String.length auth)%nat && equal_fold (String.substring 0 6 auth) "Basic " then
    match StdEncoding_DecodeString (string_drop 6 auth) with
    | Some c => default ("", "") (Cut c ":")
    | None => ("", "")
    end
  else ("", "").

Record URL : Type := mkURL { Scheme : string; url_Host : string; Hostname : string; url_Path : string; query_Get : string → string }.

(** net/url and time; [ParseRequestURI] gives the path, [NewRequest] is the one
    of httptest, which panics ([None]) for a request line that does not parse. *)
Class NetURL := {
  url_Parse : string → option URL;
  time_RFC3339 : string → option Z;
  ParseRequestURI : string → option string;
  httptest_NewRequest : string → string → gmap string string → bytes → option HttpRequest;
}.

(** ** Tokens, sessions and modules *)

Record AuthToken : Type := mkAuthToken { tok_Read : Z; tok_Write : Z; ValidUntil : option Z }.

Record session : Type := mkSession { sess_token : nat; sess_validUntil : Z }.

Definition sessionCookieName : string := "Portmaster-API-Token".
Definition sessionCookieTTL : Z := 5 * 60 * 1000000000.

(** What is seen of a module: Online at each look, and OnlineSoon. *)
Record ModuleView : Type := mkModuleView { mv_Online : nat → bool; mv_OnlineSoon : bool }.

Definition moduleCheckMaxWait : Z := 10 * 1000000000.
Definition moduleCheckTickDuration : Z := 500 * 1000000.

(** The waiting loop, from the [i]-th look on. *)
Definition moduleIsReady (m : option ModuleView) : bool :=
  match m with
  | None => true
  | Some m =>
      if mv_Online m 0%nat then true
      else if mv_OnlineSoon m then existsb (mv_Online m) (seq 1 (Z.to_nat (moduleCheckMaxWait / moduleCheckTickDuration)))
      else false
  end.

Inductive AuthError : Type := AccessDenied (message : string) | AuthFailed (message : string).

Definition AuthenticatorFunc : Type := HttpRequest → AuthError + option AuthToken.

Section Api.
Context {T X REC : Type} `{!Codecs T X} `{!NetURL}.

(** ** State *)

(** The functions of an endpoint; an error may bring an HTTP status. *)
Record Request : Type := mkApiRequest { ar_http : HttpRequest; InputData : bytes; URLVars : gmap string string; ar_token : AuthToken }.

Record fn_error : Type := mkFnError { err_text : string; HTTPStatus : option Z }.

Record Endpoint : Type := mkEndpoint {
  Path : string;
  MimeType : string;
  ep_Read : Z;
  ReadMethod : string;
  ep_Write : Z;
  WriteMethod : string;
  BelongsTo : option ModuleView;
  ActionFunc : option (Request → string * option fn_error);
  DataFunc : option (Request → bytes * option fn_error);
  StructFunc : option (Request → option T * option fn_error);
  RecordFunc : option (Request → option REC * option fn_error);
  HandlerFunc : option nat;                          (* a raw handler, see [raw_handlers] *)
}.

Record Api : Type := mkApi {
  tokens : list AuthToken;
  apiKeys : gmap string nat;
  sessions : gmap string session;
  authFn : option AuthenticatorFunc;
  devMode : bool;
  api_online : bool;
  api_now : Z;
  secrets : list (option string);                    (* results of rng.Bytes(32) *)
  configuredAPIKeys : list string;
  endpoints : gmap string Endpoint;
}.

Record Exchange : Type := mkExchange {
  ex_api : Api;
  header : gmap string string;
  reply : option (Z * string);
}.

Definition set_store ts keys ss s := mkApi ts keys ss (authFn s) (devMode s) (api_online s) (api_now s) (secrets s)
  (configuredAPIKeys s) (endpoints s).
Definition set_secrets l s := mkApi (tokens s) (apiKeys s) (sessions s) (authFn s) (devMode s) (api_online s) (api_now s) l
  (configuredAPIKeys s) (endpoints s).
Definition set_authFn f s := mkApi (tokens s) (apiKeys s) (sessions s) f (devMode s) (api_online s) (api_now s) (secrets s)
  (configuredAPIKeys s) (endpoints s).
Definition set_endpoints m s := mkApi (tokens s) (apiKeys s) (sessions s) (authFn s) (devMode s) (api_online s) (api_now s) (secrets s)
  (configuredAPIKeys s) m.

Abbreviation handling A := (st Exchange unit A).

Definition ask {A : Type} (f : Api → A) : handling A := λ e, (e, Ret (f (ex_api e))).

Definition change (f : Api → Api) : handling unit := λ e, (mkExchange (f (ex_api e)) (header e) (reply e), Ret tt).

Definition Header_Set (k v : string) : handling unit := λ e, (mkExchange (ex_api e) (<[k := v]> (header e)) (reply e), Ret tt).

(** A reply followed by a return; the first reply is the one that is sent. *)
Definition respond {A : Type} (code : Z) (text : string) : handling A := λ e,
  (mkExchange (ex_api e) (header e) (match reply e with Some r => Some r | None => Some (code, text) end), Fail tt).

Definition http_Error {A : Type} (text : string) (code : Z) : handling A :=
  let$ _ := Header_Set "Content-Type" "text/plain; charset=utf-8" in
  let$ _ := Header_Set "X-Content-Type-Options" "nosniff" in
  respond code text.

Definition new_token (t : AuthToken) : handling nat := λ e,
  let s := ex_api e in
  (mkExchange (set_store (tokens s ++ [t])%list (apiKeys s) (sessions s) s) (header e) (reply e), Ret (length (tokens s))).

Definition no_token : AuthToken := mkAuthToken NotSupported NotSupported None.

Definition token_at (s : Api) (l : nat) : AuthToken := default no_token (tokens s !! l).

(** ** Authentication *)

Inductive auth_error : Type := ErrAuthenticationImmutable | ErrAuthenticationAlreadySet.

Definition SetAuthenticator (fn : AuthenticatorFunc) : st Api auth_error unit := λ s,
  if api_online s then (s, Fail ErrAuthenticationImmutable)
  else match authFn s with
       | Some _ => (s, Fail ErrAuthenticationAlreadySet)
       | None => (set_authFn (Some fn) s, Ret tt)
       end.

(** The key of the Authorization header; [None] is none or an unsupported type. *)
Definition presented_key (r : HttpRequest) : option string :=
  let key := Header_Get "Authorization" r in
  if String.eqb key "" then None
  else if HasPrefix key "Bearer " then Some (string_drop 7 key)
  else if HasPrefix key "Basic " then let '(user, pass) := BasicAuth r in Some (user ++ pass)
  else None.

(** A key that is not registered is logged with its first four bytes. *)
Definition checkAPIKey (r : HttpRequest) : handling (option nat) := λ e,
  match presented_key r with
  | None => (e, Ret None)
  | Some key =>
      match apiKeys (ex_api e) !! key with
      | None => (e, if (String.length key <? 4)%nat then Panic else Ret None)
      | Some l =>
          match ValidUntil (token_at (ex_api e) l) with
          | Some v => (e, Ret (if v <? api_now (ex_api e) then None else Some l))
          | None => (e, Ret (Some l))
          end
      end
  end.

Definition Expired (s : Api) (sess : session) : bool := sess_validUntil sess <? api_now s.

Definition checkSessionCookie (r : HttpRequest) : handling (option nat) := λ e,
  let s := ex_api e in
  match Cookie sessionCookieName r with
  | None => (e, Ret None)
  | Some c =>
      match sessions s !! c with
      | None => (e, Ret None)
      | Some sess =>
          if Expired s sess then (e, Ret None)
          else
            let sess := mkSession (sess_token sess) (api_now s + sessionCookieTTL) in
            (mkExchange (set_store (tokens s) (apiKeys s) (<[c := sess]> (sessions s)) s) (header e) (reply e), Ret (Some (sess_token sess)))
      end
  end.

(** The error of rng.Bytes is only logged by the caller. *)
Definition createSession (token : nat) : handling unit := λ e,
  let s := ex_api e in
  match secrets s with
  | Some secret :: rest =>
      let sessionKey := RawURLEncoding_EncodeToString secret in
      let s := set_secrets rest (set_store (tokens s) (apiKeys s) (<[sessionKey := mkSession token (api_now s + sessionCookieTTL)]> (sessions s)) s) in
      (mkExchange s (<["Set-Cookie" := sessionCookieName ++ "=" ++ sessionKey ++ "; Path=/; HttpOnly; SameSite=Strict"]> (header e)) (reply e), Ret tt)
  | None :: rest => (mkExchange (set_secrets rest s) (header e) (reply e), Ret tt)
  | [] => (e, Ret tt)
  end.

Definition cleanSessions (s : Api) : Api := set_store (tokens s) (apiKeys s) (filter (λ p, Expired s p.2 = false) (sessions s)) s.

Definition deleteSession (key : string) (s : Api) : Api := set_store (tokens s) (apiKeys s) (delete key (sessions s)) s.

Definition endpointBridgeRemoteAddress : string := "websocket-bridge".
Definition dbCompatibilityPermission : Z := PermitAdmin.

(** [Ret] is a result that was not handled, [Fail] one that was. *)
Definition checkAuth (r : HttpRequest) (authRequired : bool) : handling (option nat) :=
  let$ dev := ask devMode in
  if dev then let$ l := new_token (mkAuthToken PermitSelf PermitSelf None) in st_ret (Some l)
  else if String.eqb (RemoteAddr r) endpointBridgeRemoteAddress then
    let$ l := new_token (mkAuthToken dbCompatibilityPermission dbCompatibilityPermission None) in st_ret (Some l)
  else
    let$ key := checkAPIKey r in
    match key with
    | Some l => st_ret (Some l)
    | None =>
        let$ sess := checkSessionCookie r in
        match sess with
        | Some l => st_ret (Some l)
        | None =>
            let$ fn := ask authFn in
            match fn with
            | None => st_ret None
            | Some fn =>
                match fn r with
                | inl (AuthFailed _) => http_Error "Internal server error during authentication." 500
                | inl (AccessDenied text) => if authRequired then http_Error text 403 else st_ret None
                | inr None => st_ret None
                | inr (Some t) =>
                    let$ l := new_token t in
                    let$ _ := createSession l in
                    st_ret (Some l)
                end
            end
        end
    end.

(** A handler: its permissions where it is an AuthenticatedHandler, its module
    where it is a ModuleHandler, and ServeHTTP with the variables of the
    route and the location of the token. *)
Record Handler : Type := mkHandler {
  permissions_of : option ((Api → HttpRequest → Z) * (Api → HttpRequest → Z));
  handler_module : option ModuleView;
  ServeHTTP : HttpRequest → gmap string string → nat → handling unit;
}.

Definition WrapInAuthHandler (fn : HttpRequest → gmap string string → nat → handling unit) (read write : Z) : Handler :=
  mkHandler (Some (λ _ _, read, λ _ _, write)) None fn.

Definition required_permission (s : Api) (targetHandler : option Handler) (r : HttpRequest) (readMethod : bool) : Z :=
  match targetHandler ≫= permissions_of with
  | Some (ReadPermission, WritePermission) => if readMethod then ReadPermission s r else WritePermission s r
  | None => PermitSelf
  end.

(** The part after the special permissions. *)
Definition authenticate_as (r : HttpRequest) (requiredPermission : Z) (readMethod : bool) : handling nat :=
  if (requiredPermission <? PermitAnyone) || (PermitSelf <? requiredPermission) then
    http_Error "Internal server error during authentication." 500
  else
    let$ token := checkAuth r (PermitAnyone <? requiredPermission) in
    let$ l := match token with Some l => st_ret l | None => new_token (mkAuthToken PermitAnyone PermitAnyone None) end in
    let$ token := ask (λ s, token_at s l) in
    let requestPermission := if readMethod then tok_Read token else tok_Write token in
    if (requestPermission <? PermitAnyone) || (PermitSelf <? requestPermission) then
      http_Error "Internal server error during authentication." 500
    else if requestPermission <? requiredPermission then
      if (tok_Read token =? PermitAnyone) && (tok_Write token =? PermitAnyone) then
        let$ _ := Header_Set "WWW-Authenticate" ("Bearer realm=" ++ quoted "Portmaster API" ++ " domain=" ++ quoted "/") in
        http_Error "Authorization required." 401
      else http_Error "Insufficient permissions." 403
    else new_token (mkAuthToken (tok_Read token) (tok_Write token) None).

Definition authenticateRequest (r : HttpRequest) (targetHandler : option Handler) (readMethod : bool) : handling nat :=
  let$ requiredPermission := ask (λ s, required_permission s targetHandler r readMethod) in
  if requiredPermission =? NotFound then http_Error "Not found." 404
  else if requiredPermission =? NotSupported then http_Error "Method not allowed." 405
  else if requiredPermission =? PermitAnyone then new_token (mkAuthToken PermitAnyone PermitAnyone None)
  else if requiredPermission =? Dynamic then authenticate_as r PermitAnyone readMethod
  else authenticate_as r requiredPermission readMethod.

(** What a configured key is parsed to. *)
Inductive parsed_key : Type :=
| MalformedKey
| ExpiredKey
| ValidKey (path : string) (t : AuthToken).

Definition parse_api_key (now : Z) (key : string) : parsed_key :=
  match url_Parse key with
  | None => MalformedKey
  | Some u =>
      if String.eqb (url_Path u) "" then MalformedKey
      else match parseAPIPermission (query_Get u "read"), parseAPIPermission (query_Get u "write") with
           | Some read, Some write =>
               let expireStr := query_Get u "expires" in
               if String.eqb expireStr "" then ValidKey (url_Path u) (mkAuthToken read write None)
               else match time_RFC3339 expireStr with
                    | None => MalformedKey
                    | Some validUntil =>
                        if validUntil <? now then ExpiredKey else ValidKey (url_Path u) (mkAuthToken read write (Some validUntil))
                    end
           | _, _ => MalformedKey
           end
  end.

(** The loop over the configured keys; the accumulator holds the valid keys and
    whether there are expired ones. *)
Definition update_key (acc : Api * list string * bool) (key : string) : Api * list string * bool :=
  let '(s, valid, expired) := acc in
  match parse_api_key (api_now s) key with
  | MalformedKey => acc
  | ExpiredKey => (s, valid, true)
  | ValidKey path t =>
      (set_store (tokens s ++ [t])%list (<[path := length (tokens s)]> (apiKeys s)) (sessions s) s, (valid ++ [key])%list, expired)
  end.

(** With the new value of the option, when it is to be cleaned up. *)
Definition updateAPIKeys (s : Api) : Api * option (list string) :=
  let s0 := set_store (tokens s) ∅ (sessions s) s in
  let '(s', valid, expired) := fold_left update_key (configuredAPIKeys s) (s0, [], false) in
  (s', if expired then Some valid else None).

(** Method, whether it reads; [None] is not ok. *)
Definition getEffectiveMethod (r : HttpRequest) : option (string * bool) :=
  let method := if String.eqb (Method r) "OPTIONS" then Header_Get "Access-Control-Request-Method" r else Method r in
  if String.eqb method "GET" || String.eqb method "HEAD" then Some ("GET", true)
  else if String.eqb method "POST" || String.eqb method "PUT" || String.eqb method "DELETE" then Some (method, false)
  else None.

(** ** Endpoints *)

Definition MimeTypeJSON : string := "application/json".
Definition MimeTypeText : string := "text/plain".
Definition apiV1Path : string := "/api/v1/".

Inductive endpoint_error : Type :=
| PathMissing
| InvalidReadPermission
| InvalidWritePermission
| InvalidReadMethod
| InvalidWriteMethod
| NotOneFunction.

Definition permission_in_range (p : Z) : bool := negb ((p <? Dynamic) || (PermitSelf <? p)).

Definition check_ReadMethod (e : Endpoint) : go endpoint_error string :=
  if ep_Read e =? NotSupported then Ret ""
  else if String.eqb (ReadMethod e) "GET" then Ret "GET"
  else if String.eqb (ReadMethod e) "" then Ret "GET"
  else Fail InvalidReadMethod.

Definition check_WriteMethod (e : Endpoint) : go endpoint_error string :=
  if ep_Write e =? NotSupported then Ret ""
  else if String.eqb (WriteMethod e) "POST" || String.eqb (WriteMethod e) "PUT" || String.eqb (WriteMethod e) "DELETE" then Ret (WriteMethod e)
  else if String.eqb (WriteMethod e) "" then Ret "POST"
  else Fail InvalidWriteMethod.

(** The default mime types of the functions that are set, in the order of the
    checks. *)
Definition function_mimes (e : Endpoint) : list string :=
  (match ActionFunc e with Some _ => [MimeTypeText] | None => [] end ++ match DataFunc e with Some _ => [MimeTypeText] | None => [] end ++
   match StructFunc e with Some _ => [MimeTypeJSON] | None => [] end ++ match RecordFunc e with Some _ => [MimeTypeJSON] | None => [] end ++
   match HandlerFunc e with Some _ => [MimeTypeText] | None => [] end)%list.

(** The endpoint with the defaults set. *)
Definition Endpoint_check (e : Endpoint) : go endpoint_error Endpoint :=
  if String.eqb (TrimSpace (Path e)) "" then Fail PathMissing
  else if negb (permission_in_range (ep_Read e)) then Fail InvalidReadPermission
  else if negb (permission_in_range (ep_Write e)) then Fail InvalidWritePermission
  else
    let! readMethod := check_ReadMethod e in
    let! writeMethod := check_WriteMethod e in
    match function_mimes e with
    | [defaultMimeType] =>
        Ret (mkEndpoint (Path e) (if String.eqb (MimeType e) "" then defaultMimeType else MimeType e) (ep_Read e) readMethod
          (ep_Write e) writeMethod (BelongsTo e) (ActionFunc e) (DataFunc e) (StructFunc e) (RecordFunc e) (HandlerFunc e))
    | _ => Fail NotOneFunction
    end.

Inductive register_error : Type := ErrInvalidEndpoint (e : endpoint_error) | ErrAlreadyRegistered.

Definition RegisterEndpoint (e : Endpoint) : st Api register_error unit := λ s,
  match Endpoint_check e with
  | Fail err => (s, Fail (ErrInvalidEndpoint err))
  | Panic => (s, Panic)
  | Ret e =>
      match endpoints s !! Path e with
      | Some _ => (s, Fail ErrAlreadyRegistered)
      | None => (set_endpoints (<[Path e := e]> (endpoints s)) s, Ret tt)
      end
  end.

Definition GetEndpointByPath (path : string) (s : Api) : option Endpoint := endpoints s !! path.

(** The raw handlers of endpoints_meta.go. *)
Definition auth_or (challenge : string) (ar : Request) : handling unit :=
  if negb (tok_Read (ar_token ar) =? PermitAnyone) then
    let$ _ := Header_Set "Content-Type" "text/plain; charset=utf-8" in
    let$ _ := Header_Set "X-Content-Type-Options" "nosniff" in
    respond 200 "Authenticated."
  else
    let$ _ := Header_Set "WWW-Authenticate" (challenge ++ " realm=" ++ quoted "Portmaster API" ++ " domain=" ++ quoted "/") in
    http_Error "Authorization required." 401.

Definition authBearer : Request → handling unit := auth_or "Bearer".

Definition authBasic : Request → handling unit := auth_or "Basic".

Definition authReset (ar : Request) : handling unit :=
  let$ _ := match Cookie sessionCookieName (ar_http ar) with Some c => change (deleteSession c) | None => st_ret tt end in
  let$ _ := Header_Set "Set-Cookie" (sessionCookieName ++ "=; Max-Age=0") in
  let$ _ := Header_Set "Clear-Site-Data" "*" in
  let$ _ := Header_Set "WWW-Authenticate" ("None realm=" ++ quoted "Portmaster API") in
  http_Error "Session deleted." 401.

(** The routers: what the main one finds, and which of the registered endpoint
    paths the other one does. *)
Inductive route_match : Type :=
| Matched (h : option Handler) (vars : gmap string string)
| MethodMismatch
| NoRoute.

Context (main_match : HttpRequest → route_match).
Context (endpoint_match : list string → HttpRequest → option (string * gmap string string)).
Context (raw_handlers : nat → Request → handling unit).
Context (MarshalRecord : REC → bool → string + bytes) (dump_text : dsd_error X → string) (bytes_text : bytes → string).

Definition getAPIContext (s : Api) (r : HttpRequest) : option (Endpoint * gmap string string) :=
  '(path, vars) ← endpoint_match (map_to_list (endpoints s)).*1 r; e ← endpoints s !! path; Some (e, vars).

Definition readBody (r : HttpRequest) : handling bytes :=
  if 20000000 <? ContentLength r then http_Error "too much input data" 413
  else match Body r with
       | Ret data => st_ret data
       | Fail err => http_Error ("failed to read body" ++ err) 500
       | Panic => λ e, (e, Panic)
       end.

(** The error of an endpoint function or of dumping its result. *)
Definition call_outcome : Type := go fn_error bytes.

Definition run_ActionFunc (f : Request → string * option fn_error) (ar : Request) : call_outcome :=
  let '(msg, err) := f ar in
  let msg := if HasSuffix msg (String "010" "") then msg else msg ++ String "010" "" in
  match err with
  | None => Ret ((λ a, Z.of_nat (nat_of_ascii a)) <$> list_ascii_of_string msg)
  | Some err => Fail err
  end.

(** With the content type to set; MimeDump is called with the Accept header. *)
Definition run_StructFunc (f : Request → option T * option fn_error) (ar : Request) : go fn_error (bytes * option string) :=
  match f ar with
  | (_, Some err) => Fail err
  | (None, None) => Ret ([], None)
  | (Some v, None) =>
      match MimeDump v (Header_Get "Accept" (ar_http ar)) with
      | Ret (data, mimeType, _) => Ret (data, Some mimeType)
      | Fail err => Fail (mkFnError (dump_text err) None)
      | Panic => Panic
      end
  end.

(** The source tests the request for nil, not the record: a nil record panics. *)
Definition run_RecordFunc (f : Request → option REC * option fn_error) (ar : Request) : call_outcome :=
  match f ar with
  | (_, Some err) => Fail err
  | (None, None) => Panic
  | (Some rec, None) =>
      match MarshalRecord rec false with
      | inr data => Ret data
      | inl text => Fail (mkFnError text None)
      end
  end.

Definition run_DataFunc (f : Request → bytes * option fn_error) (ar : Request) : call_outcome :=
  match f ar with
  | (_, Some err) => Fail err
  | (data, None) => Ret data
  end.

(** What follows the function: the error or the data. *)
Definition write_response (e : Endpoint) (r : HttpRequest) (outcome : call_outcome) : handling unit :=
  match outcome with
  | Panic => λ x, (x, Panic)
  | Fail err => http_Error (err_text err) (default 500 (HTTPStatus err))
  | Ret responseData =>
      if bool_decide (responseData = []) || String.eqb (Method r) "HEAD" then respond 204 ""
      else
        let$ contentType := λ x, (x, Ret (default "" (header x !! "Content-Type"))) in
        let$ _ := if String.eqb contentType "" then Header_Set "Content-Type" (MimeType e ++ "; charset=utf-8") else st_ret tt in
        let$ _ := Header_Set "Content-Length" (FormatInt (len responseData)) in
        respond 200 (bytes_text responseData)
  end.

Definition Endpoint_ServeHTTP (e : Endpoint) (r : HttpRequest) (vars : gmap string string) (token : nat) : handling unit :=
  if negb (moduleIsReady (BelongsTo e)) then
    http_Error "The API endpoint is not ready yet or the its module is not enabled. Reload (F5) to try again." 503
  else if String.eqb (Method r) "OPTIONS" then respond 204 ""
  else match getEffectiveMethod r with
       | None => http_Error "unsupported method for the actions API" 405
       | Some (eMethod, _) =>
           let$ inputData := if String.eqb eMethod "POST" || String.eqb eMethod "PUT" then readBody r else st_ret [] in
           let$ t := ask (λ s, token_at s token) in
           let ar := mkApiRequest r inputData vars t in
           match ActionFunc e, DataFunc e, StructFunc e, RecordFunc e, HandlerFunc e with
           | Some f, _, _, _, _ => write_response e r (run_ActionFunc f ar)
           | _, Some f, _, _, _ => write_response e r (run_DataFunc f ar)
           | _, _, Some f, _, _ =>
               match run_StructFunc f ar with
               | Ret (data, Some mimeType) => let$ _ := Header_Set "Content-Type" mimeType in write_response e r (Ret data)
               | Ret (data, None) => write_response e r (Ret data)
               | Fail err => write_response e r (Fail err)
               | Panic => write_response e r Panic
               end
           | _, _, _, Some f, _ => write_response e r (run_RecordFunc f ar)
           | _, _, _, _, Some f => raw_handlers f ar
           | _, _, _, _, _ => http_Error "missing handler" 500
           end
       end.

Definition endpointHandler : Handler := mkHandler
  (Some (λ s r, match getAPIContext s r with Some (e, _) => ep_Read e | None => NotFound end,
         λ s r, match getAPIContext s r with Some (e, _) => ep_Write e | None => NotFound end))
  None
  (λ r vars token,
    let$ ctx := ask (λ s, getAPIContext s r) in
    match ctx with
    | None => http_Error "404 page not found" 404
    | Some (e, evars) => Endpoint_ServeHTTP e r (evars ∪ vars) token
    end).

(** ** The request handler *)

Definition cleanRequestPath (requestPath : string) : string :=
  if String.eqb requestPath "" || String.eqb requestPath "/" then "/"
  else
    let requestPath := if HasPrefix requestPath "/" then requestPath else "/" ++ requestPath in
    let cleaned := path_Clean requestPath in
    if HasSuffix requestPath "/" then cleaned ++ "/" else cleaned.

Definition allowedDevCORSOrigins : list string := ["127.0.0.1"; "localhost"].

Definition origin_allowed (dev : bool) (u : URL) (r : HttpRequest) : bool :=
  String.eqb (url_Host u) (Host r) || String.eqb (Hostname u) (Host r) || String.eqb (Scheme u) "chrome-extension" ||
  (dev && StringInSlice allowedDevCORSOrigins (Hostname u)).

Definition set_headers (l : list (string * string)) : handling unit := st_iter (λ '(k, v), Header_Set k v) l.

Definition security_headers : list (string * string) :=
  [("Referrer-Policy", "same-origin"); ("X-Content-Type-Options", "nosniff"); ("X-Frame-Options", "deny");
   ("X-XSS-Protection", "1; mode=block"); ("X-DNS-Prefetch-Control", "off")].

Definition csp_header : string :=
  "default-src 'self'; connect-src https://*.safing.io 'self'; style-src 'self' 'unsafe-inline'; img-src 'self' data: blob:".

(** The check of the Origin header; whether it is a preflight check. *)
Definition check_origin (r : HttpRequest) : handling bool :=
  let origin := Header_Get "Origin" r in
  if String.eqb origin "" then st_ret false
  else match url_Parse origin with
       | None => http_Error "Invalid Origin." 403
       | Some u =>
           let$ dev := ask devMode in
           if origin_allowed dev u r then
             let$ _ := set_headers
               [("Access-Control-Allow-Origin", origin); ("Access-Control-Allow-Methods", "*"); ("Access-Control-Allow-Headers", "*");
                ("Access-Control-Allow-Credentials", "true"); ("Access-Control-Expose-Headers", "*"); ("Access-Control-Max-Age", "60");
                ("Vary", "Origin")] in
             st_ret (String.eqb (Method r) "OPTIONS" && negb (String.eqb (Header_Get "Access-Control-Request-Method" r) ""))
           else http_Error "Cross-Origin Request Denied." 403
       end.

(** The deferred function: a panic of the handler becomes a server error. *)
Definition recover_handler (m : handling unit) : handling unit := λ e,
  match m e with
  | (e', Panic) => http_Error "Internal Server Error." 500 e'
  | res => res
  end.

(** Everything before the handler is called: it, its variables and the token. The
    text of a redirect is the new path. *)
Definition handle_checks (r : HttpRequest) : handling (Handler * gmap string string * nat) :=
  let$ _ := set_headers security_headers in
  let$ dev := ask devMode in
  let$ _ := if dev then st_ret tt else Header_Set "Content-Security-Policy" csp_header in
  let$ isPreflighCheck := check_origin r in
  if negb (String.eqb (URL_Path r) (cleanRequestPath (URL_Path r))) then respond 301 (cleanRequestPath (URL_Path r))
  else match main_match r with
       | MethodMismatch => http_Error "Method not allowed." 405
       | NoRoute => http_Error "Not found." 404
       | Matched h vars =>
           match getEffectiveMethod r with
           | None => http_Error "Method not allowed." 405
           | Some (_, readMethod) =>
               if isPreflighCheck && bool_decide (is_Some h) then respond 200 ""
               else
                 let$ token := authenticateRequest r h readMethod in
                 match h with
                 | Some h =>
                     if moduleIsReady (handler_module h) then st_ret (h, vars, token)
                     else http_Error "The API endpoint is not ready yet. Reload (F5) to try again." 503
                 | None => http_Error "Not found." 404
                 end
           end
       end.

Definition handle (r : HttpRequest) : handling unit :=
  let$ call := handle_checks r in
  let '(h, vars, token) := call in
  recover_handler (ServeHTTP h r vars token).

(** [mainHandler.ServeHTTP]: RunWorker recovers what handle does not, and a
    response without a status is sent as 200. *)
Definition serve_request (r : HttpRequest) (s : Api) : Api * gmap string string * (Z * string) :=
  let '(e, _) := handle r (mkExchange s ∅ None) in
  (ex_api e, header e, default (200, "") (reply e)).

(** ** The bridge *)

Record EndpointBridgeRequest : Type := mkBridgeRequest {
  br_Method : string;
  br_Path : string;
  br_Query : gmap string string;
  br_Data : bytes;
  br_MimeType : string;
}.

Record EndpointBridgeResponse : Type := mkBridgeResponse { resp_MimeType : string; resp_Body : string; resp_key : string }.

Inductive bridge_error : Type :=
| BridgeNotFound
| ViolatesScope
| BadRequestURL
| BridgeFailed (text : string)
| UnexpectedCode (code : Z).

Definition bridge_method (ebr : EndpointBridgeRequest) : string :=
  if String.eqb (br_Method ebr) "" then (if bool_decide (br_Data ebr = []) then "GET" else "POST") else br_Method ebr.

Definition set_remote (addr mimeType : string) (r : HttpRequest) : HttpRequest :=
  mkHttpRequest (Method r) (if String.eqb mimeType "" then req_Header r else <["Content-Type" := mimeType]> (req_Header r))
    addr (Host r) (URL_Path r) (cookies r) (ContentLength r) (Body r).

Definition bridge_request (ebr : EndpointBridgeRequest) : go bridge_error HttpRequest :=
  let requestURL := path_Join apiV1Path (br_Path ebr) in
  if negb (HasPrefix requestURL apiV1Path) then Fail ViolatesScope
  else match ParseRequestURI requestURL with
       | None => Fail BadRequestURL
       | Some path =>
           match httptest_NewRequest (bridge_method ebr) path (br_Query ebr) (br_Data ebr) with
           | None => Panic
           | Some r => Ret (set_remote endpointBridgeRemoteAddress (br_MimeType ebr) r)
           end
       end.

Definition callAPI (ebr : EndpointBridgeRequest) : st Api bridge_error EndpointBridgeResponse := λ s,
  match bridge_request ebr with
  | Fail err => (s, Fail err)
  | Panic => (s, Panic)
  | Ret r =>
      let '(s', h, (code, text)) := serve_request r s in
      (s', if code =? 200 then Ret (mkBridgeResponse (default "" (h !! "Content-Type")) text ("api:" ++ br_Path ebr))
           else if code =? 500 then Fail (BridgeFailed text) else Fail (UnexpectedCode code))
  end.

(** Get and Put of endpointBridgeStorage; the record of Put as its database key
    and the request it holds. *)
Definition bridge_Get (key : string) : st Api bridge_error EndpointBridgeResponse :=
  if String.eqb key "" then st_fail BridgeNotFound else callAPI (mkBridgeRequest "GET" key ∅ [] "").

Definition bridge_Put (key : string) (ebr : EndpointBridgeRequest) : st Api bridge_error EndpointBridgeResponse :=
  if String.eqb key "" then st_fail BridgeNotFound
  else callAPI (mkBridgeRequest (br_Method ebr) key (br_Query ebr) (br_Data ebr) (br_MimeType ebr)).

End Api.
