(* ===== verification/ApiInv.v ===== *)
(** * api: who is let in, and to what

    Every request that reaches a handler has the permission the handler requires,
    from one of the sources the code knows; tokens handed to handlers are private
    copies; the keys are those configured; cleaning up sessions changes no
    decision; registered endpoints are well formed; the bridge stays in the API
    and below the permission of the program itself. *)

From Stdlib Require Import ZArith Lia Ascii String.
From stdpp Require Import gmap list strings.
From S2P Require Import Prelude GoStrings GoPath UtilsSlices GoBase64 Record Dsd Api.
Local Open Scope string_scope.
Local Open Scope Z_scope.

Section ApiLemmas.
Context {T X REC : Type} {codecs : Codecs T X} {net : NetURL}.
Context (main_match : HttpRequest → @route_match T REC).
Context (endpoint_match : list string → HttpRequest → option (string * gmap string string)).
Context (raw_handlers : nat → Request → st (@Exchange T REC) unit unit).
Context (MarshalRecord : REC → bool → string + bytes) (dump_text : dsd_error X → string) (bytes_text : bytes → string).

Abbreviation Api := (@Api T REC).
Abbreviation Exchange := (@Exchange T REC).
Abbreviation Endpoint := (@Endpoint T REC).
Abbreviation Handler := (@Handler T REC).

(** ** Specification *)

(** The sources of a permission. *)
Inductive granted_by (s : Api) (r : HttpRequest) : AuthToken → Prop :=
| by_dev : devMode s = true → granted_by s r (mkAuthToken PermitSelf PermitSelf None)
| by_bridge : RemoteAddr r = endpointBridgeRemoteAddress →
    granted_by s r (mkAuthToken dbCompatibilityPermission dbCompatibilityPermission None)
| by_key key l :
    presented_key r = Some key → apiKeys s !! key = Some l →
    (∀ v, ValidUntil (token_at s l) = Some v → api_now s <= v) → granted_by s r (token_at s l)
| by_session c sess :
    Cookie sessionCookieName r = Some c → sessions s !! c = Some sess → api_now s <= sess_validUntil sess →
    granted_by s r (token_at s (sess_token sess))
| by_authenticator fn t : authFn s = Some fn → fn r = inr (Some t) → granted_by s r t
| by_default : granted_by s r (mkAuthToken PermitAnyone PermitAnyone None).

(** Keys and sessions refer to tokens that exist. *)
Record stored (s : Api) : Prop := {
  stored_keys : ∀ k l, apiKeys s !! k = Some l → (l < length (tokens s))%nat;
  stored_sessions : ∀ c sess, sessions s !! c = Some sess → (sess_token sess < length (tokens s))%nat;
}.

(** No key and no session refers to the token. *)
Definition private (s : Api) (l : nat) : Prop :=
  (∀ k l', apiKeys s !! k = Some l' → l' ≠ l) ∧ (∀ c sess, sessions s !! c = Some sess → sess_token sess ≠ l).

(** What handling a request keeps. *)
Record keeps (s s' : Api) : Prop := {
  keeps_tokens : ∃ l, tokens s' = (tokens s ++ l)%list;
  keeps_keys : apiKeys s' = apiKeys s;
  keeps_authFn : authFn s' = authFn s;
  keeps_devMode : devMode s' = devMode s;
  keeps_now : api_now s' = api_now s;
  keeps_endpoints : endpoints s' = endpoints s;
  keeps_stored : stored s → stored s';
}.

#[global] Instance keeps_preorder : PreOrder keeps.
Proof.
  split.
  - intros s. split; try done. exists []. by rewrite app_nil_r.
  - intros s1 s2 s3 [[l1 H1]] [[l2 H2]]. split; [|etransitivity; eassumption..|auto]. exists (l1 ++ l2)%list. by rewrite H2, H1, app_assoc.
Qed.

Lemma keeps_token_at s s' l : keeps s s' → (l < length (tokens s))%nat → token_at s' l = token_at s l.
Proof. intros [[k Hk] _ _ _ _ _ _] Hl. unfold token_at. rewrite Hk. by rewrite lookup_app_l. Qed.

(** ** The steps *)

Lemma new_token_eq t (e e' : Exchange) l :
  new_token t e = (e', Ret l) →
  l = length (tokens (ex_api e)) ∧ tokens (ex_api e') = (tokens (ex_api e) ++ [t])%list ∧ keeps (ex_api e) (ex_api e') ∧
  sessions (ex_api e') = sessions (ex_api e) ∧ token_at (ex_api e') l = t.
Proof.
  unfold new_token. intros [= <- <-]. simpl. split_and!; [done|done| |done|].
  - split; [by eexists|done..|]. intros [H1 H2]. split; simpl.
    + intros k l Hk. rewrite length_app. specialize (H1 k l Hk). lia.
    + intros c sess Hc. rewrite length_app. specialize (H2 c sess Hc). lia.
  - unfold token_at. simpl. by rewrite list_lookup_middle.
Qed.

(** A token that is referred to from before is not the new one. *)
Lemma new_token_private t (e e' : Exchange) l : stored (ex_api e) → new_token t e = (e', Ret l) → private (ex_api e') l.
Proof.
  intros [H1 H2] H. destruct (new_token_eq _ _ _ _ H) as (-> & _ & Hk & Hs & _). split.
  - intros k l' Hl. rewrite (keeps_keys _ _ Hk) in Hl. specialize (H1 k l' Hl). lia.
  - intros c sess Hc. rewrite Hs in Hc. specialize (H2 c sess Hc). lia.
Qed.

Lemma checkAPIKey_spec r (e e' : Exchange) o :
  checkAPIKey r e = (e', Ret o) →
  e' = e ∧ match o with
           | Some l => ∃ key, presented_key r = Some key ∧ apiKeys (ex_api e) !! key = Some l ∧
               (∀ v, ValidUntil (token_at (ex_api e) l) = Some v → api_now (ex_api e) <= v)
           | None => True
           end.
Proof.
  unfold checkAPIKey. destruct (presented_key r) as [key|]; [|by intros [= <- <-]].
  destruct (apiKeys (ex_api e) !! key) as [l|] eqn:Hk.
  - destruct (ValidUntil (token_at (ex_api e) l)) as [v|] eqn:Hv; intros [= <- <-].
    + destruct (Z.ltb_spec v (api_now (ex_api e))); [done|]. split; [done|]. exists key. split_and!; [done|done|]. intros v' Hv'. by simplify_eq.
    + split; [done|]. exists key. split_and!; [done|done|]. intros v' Hv'. by simplify_eq.
  - destruct (_ <? 4)%nat; [done|]. by intros [= <- <-].
Qed.

Lemma checkSessionCookie_spec r (e e' : Exchange) o :
  checkSessionCookie r e = (e', Ret o) →
  keeps (ex_api e) (ex_api e') ∧ tokens (ex_api e') = tokens (ex_api e) ∧
  match o with
  | Some l => ∃ c sess, Cookie sessionCookieName r = Some c ∧ sessions (ex_api e) !! c = Some sess ∧ l = sess_token sess ∧
      api_now (ex_api e) <= sess_validUntil sess
  | None => True
  end.
Proof.
  unfold checkSessionCookie. destruct (Cookie sessionCookieName r) as [c|]; [|by intros [= <- <-]].
  destruct (sessions (ex_api e) !! c) as [sess|] eqn:Hs; [|by intros [= <- <-]]. unfold Expired.
  destruct (Z.ltb_spec (sess_validUntil sess) (api_now (ex_api e))); [by intros [= <- <-]|]. intros [= <- <-]. simpl. split_and!; [|done|by exists c, sess].
  split; [exists []; by rewrite app_nil_r|done..|]. intros [H1 H2]. split; [done|]. intros c' sess' Hc. simpl in *.
  destruct (decide (c' = c)) as [->|Hne]; [|rewrite lookup_insert_ne in Hc by done; by eapply H2].
  rewrite lookup_insert_eq in Hc. simplify_eq. simpl. by eapply H2.
Qed.

Lemma createSession_spec l (e e' : Exchange) o :
  createSession l e = (e', o) → (l < length (tokens (ex_api e)))%nat →
  keeps (ex_api e) (ex_api e') ∧ tokens (ex_api e') = tokens (ex_api e) ∧ o = Ret tt.
Proof.
  unfold createSession. destruct (secrets (ex_api e)) as [|[secret|] rest]; intros [= <- <-] Hl; simpl; (split_and!; [|done..]).
  - done.
  - split; [exists []; by rewrite app_nil_r|done..|]. intros [H1 H2]. split; [done|]. intros c' sess' Hc. simpl in *.
    destruct (decide (c' = RawURLEncoding_EncodeToString secret)) as [->|Hne]; [|rewrite lookup_insert_ne in Hc by done; by eapply H2].
    rewrite lookup_insert_eq in Hc. simplify_eq. done.
  - split; [exists []; by rewrite app_nil_r|done..|]. intros [H1 H2]. by split.
Qed.

(** http.Error only writes the reply. *)
Lemma http_Error_api {A} text code (e e' : Exchange) (o : go unit A) : http_Error text code e = (e', o) → ex_api e' = ex_api e ∧ o = Fail tt.
Proof. unfold http_Error, Header_Set, respond, st_bind. by intros [= <- <-]. Qed.

Lemma checkAuth_spec r authRequired (e e' : Exchange) o :
  checkAuth r authRequired e = (e', Ret o) →
  keeps (ex_api e) (ex_api e') ∧
  match o with
  | Some l => granted_by (ex_api e) r (token_at (ex_api e') l) ∧ (stored (ex_api e) → (l < length (tokens (ex_api e')))%nat)
  | None => True
  end.
Proof.
  unfold checkAuth. intros H. apply st_bind_inv in H as (e1 & dev & H1 & H). unfold ask in H1. injection H1 as <- <-.
  destruct (devMode (ex_api e)) eqn:Hdev.
  { apply st_bind_inv in H as (e1 & l & (-> & Ht & Hk & _ & Hl)%new_token_eq & H). unfold st_ret in H. injection H as <- <-.
    split; [done|]. rewrite Hl. split; [by apply by_dev|]. intros _. rewrite Ht, length_app. simpl. lia. }
  destruct (String.eqb_spec (RemoteAddr r) endpointBridgeRemoteAddress) as [Hr|_].
  { apply st_bind_inv in H as (e1 & l & (-> & Ht & Hk & _ & Hl)%new_token_eq & H). unfold st_ret in H. injection H as <- <-.
    split; [done|]. rewrite Hl. split; [by apply by_bridge|]. intros _. rewrite Ht, length_app. simpl. lia. }
  apply st_bind_inv in H as (e1 & key & (-> & Hkey)%checkAPIKey_spec & H). destruct key as [l|].
  { unfold st_ret in H. injection H as <- <-. destruct Hkey as (key & Hp & Hl & Hv). split; [done|]. split; [by eapply by_key|].
    intros [H1 _]. by eapply H1. }
  apply st_bind_inv in H as (e1 & sess & (Hk & Ht & Hsess)%checkSessionCookie_spec & H). destruct sess as [l|].
  { unfold st_ret in H. injection H as <- <-. destruct Hsess as (c & sess & Hc & Hs & -> & Hv). split; [done|].
    assert (token_at (ex_api e1) (sess_token sess) = token_at (ex_api e) (sess_token sess)) as -> by (unfold token_at; by rewrite Ht).
    split; [by eapply by_session|]. intros [_ H2]. rewrite Ht. by eapply H2. }
  apply st_bind_inv in H as (e2 & fn & H1 & H). unfold ask in H1. injection H1 as <- <-. rewrite (keeps_authFn _ _ Hk) in H.
  destruct (authFn (ex_api e)) as [fn|] eqn:Hfn; [|by unfold st_ret in H; injection H as <- <-].
  destruct (fn r) as [[text|text]|[t|]] eqn:Hfr.
  - destruct authRequired; [by apply http_Error_api in H as [_ ?]|]. unfold st_ret in H. by injection H as <- <-.
  - by apply http_Error_api in H as [_ ?].
  - apply st_bind_inv in H as (e2 & l & (-> & Ht2 & Hk2 & _ & Hl)%new_token_eq & H).
    apply st_bind_inv in H as (e3 & [] & (Hk3 & Ht3 & _)%createSession_spec & H); [|rewrite Ht2, length_app; simpl; lia].
    unfold st_ret in H. injection H as <- <-. split; [etransitivity; [exact Hk|etransitivity; eassumption]|].
    assert (token_at (ex_api e3) (length (tokens (ex_api e1))) = t) as -> by (rewrite <- Hl; unfold token_at; by rewrite Ht3).
    split; [by eapply by_authenticator|]. intros _. rewrite Ht3, Ht2, length_app. simpl. lia.
  - unfold st_ret in H. injection H as <- <-. by split.
Qed.

(** The permission a token has for a method. *)
Definition permission_for (t : AuthToken) (readMethod : bool) : Z := if readMethod then tok_Read t else tok_Write t.

(** The token of a granted request. *)
Definition granted (s : Api) (r : HttpRequest) (required : Z) (readMethod : bool) (t : AuthToken) : Prop :=
  required <= permission_for t readMethod ∧ PermitAnyone <= permission_for t readMethod <= PermitSelf ∧
  ∃ t0, granted_by s r t0 ∧ tok_Read t = tok_Read t0 ∧ tok_Write t = tok_Write t0.

Lemma authenticate_as_spec r required readMethod (e e' : Exchange) l :
  authenticate_as r required readMethod e = (e', Ret l) →
  keeps (ex_api e) (ex_api e') ∧ PermitAnyone <= required <= PermitSelf ∧ granted (ex_api e) r required readMethod (token_at (ex_api e') l) ∧
  (stored (ex_api e) → private (ex_api e') l).
Proof.
  unfold authenticate_as. intros H. destruct (Z.ltb_spec required PermitAnyone); [by apply http_Error_api in H as [_ ?]|].
  destruct (Z.ltb_spec PermitSelf required); [by apply http_Error_api in H as [_ ?]|]. simpl in H.
  apply st_bind_inv in H as (e1 & o & (Hk1 & Ho)%checkAuth_spec & H).
  apply st_bind_inv in H as (e2 & l0 & H2 & H).
  assert (keeps (ex_api e1) (ex_api e2) ∧ granted_by (ex_api e) r (token_at (ex_api e2) l0)) as [Hk2 Hg].
  { destruct o as [l1|].
    - unfold st_ret in H2. injection H2 as <- <-. by destruct Ho.
    - apply new_token_eq in H2 as (-> & _ & Hk & _ & ->). split; [done|apply by_default]. }
  apply st_bind_inv in H as (e3 & t & H3 & H). unfold ask in H3. injection H3 as <- <-.
  set (t := token_at (ex_api e2) l0) in *.
  destruct (Z.ltb_spec (if readMethod then tok_Read t else tok_Write t) PermitAnyone); [by apply http_Error_api in H as [_ ?]|].
  destruct (Z.ltb_spec PermitSelf (if readMethod then tok_Read t else tok_Write t)); [by apply http_Error_api in H as [_ ?]|]. simpl in H.
  destruct (Z.ltb_spec (if readMethod then tok_Read t else tok_Write t) required).
  { destruct (_ && _); [|by apply http_Error_api in H as [_ ?]]. apply st_bind_inv in H as (e3 & [] & _ & H). by apply http_Error_api in H as [_ ?]. }
  pose proof H as Hnew. apply new_token_eq in H as (-> & _ & Hk3 & _ & Hl).
  assert (keeps (ex_api e) (ex_api e2)) as Hk by (by etransitivity). split_and!; [by etransitivity|done|done| |].
  - rewrite Hl. unfold granted, permission_for. simpl. split_and!; [destruct readMethod; lia..|]. by exists t.
  - intros Hs. eapply new_token_private; [|exact Hnew]. by apply (keeps_stored _ _ Hk).
Qed.

(** A permission that can be required: the dynamic one is that of anyone. *)
Definition effective (required : Z) : Z := if required =? Dynamic then PermitAnyone else required.

Lemma authenticateRequest_spec r h readMethod (e e' : Exchange) l :
  authenticateRequest r h readMethod e = (e', Ret l) →
  let required := effective (required_permission (ex_api e) h r readMethod) in
  keeps (ex_api e) (ex_api e') ∧ PermitAnyone <= required <= PermitSelf ∧ granted (ex_api e) r required readMethod (token_at (ex_api e') l) ∧
  (stored (ex_api e) → private (ex_api e') l).
Proof.
  cbv zeta. unfold authenticateRequest. intros H. apply st_bind_inv in H as (e1 & req & H1 & H). unfold ask in H1. injection H1 as <- <-.
  set (req := required_permission (ex_api e) h r readMethod) in *. unfold effective.
  destruct (Z.eqb_spec req NotFound); [by apply http_Error_api in H as [_ ?]|].
  destruct (Z.eqb_spec req NotSupported); [by apply http_Error_api in H as [_ ?]|].
  destruct (Z.eqb_spec req PermitAnyone) as [Heq|].
  { rewrite Heq. change (PermitAnyone =? Dynamic) with false. cbv iota. pose proof H as Hnew. apply new_token_eq in H as (-> & _ & Hk & _ & Hl). split_and!; [done|done|done| |].
    - rewrite Hl. unfold granted, permission_for. simpl. split_and!; [by destruct readMethod..|]. eexists. split; [apply by_default|done].
    - intros Hs. by eapply new_token_private. }
  destruct (Z.eqb_spec req Dynamic); by apply authenticate_as_spec in H.
Qed.

(** ** Requests *)

Definition origin_ok (s : Api) (r : HttpRequest) : Prop :=
  Header_Get "Origin" r = "" ∨ ∃ u, url_Parse (Header_Get "Origin" r) = Some u ∧ origin_allowed (devMode s) u r = true.

Lemma set_headers_api l (e e' : Exchange) o : set_headers l e = (e', o) → ex_api e' = ex_api e ∧ o = Ret tt.
Proof.
  revert e. induction l as [|[k v] l IH]; simpl; intros e H; [unfold set_headers, st_iter, st_ret in H; by injection H as <- <-|].
  unfold set_headers in H. cbn [st_iter] in H. unfold st_bind at 1, Header_Set at 1 in H. by apply IH in H.
Qed.

Lemma check_origin_spec r (e e' : Exchange) b :
  check_origin r e = (e', Ret b) → ex_api e' = ex_api e ∧ origin_ok (ex_api e) r.
Proof.
  unfold check_origin. destruct (String.eqb_spec (Header_Get "Origin" r) "") as [Ho|_].
  { unfold st_ret. intros [= <- _]. split; [done|by left]. }
  destruct (url_Parse (Header_Get "Origin" r)) as [u|] eqn:Hu; [|by intros [_ ?]%http_Error_api].
  intros H. apply st_bind_inv in H as (e1 & dev & H1 & H). unfold ask in H1. injection H1 as <- <-.
  destruct (origin_allowed (devMode (ex_api e)) u r) eqn:Ha; [|by apply http_Error_api in H as [_ ?]].
  apply st_bind_inv in H as (e1 & [] & [Hs _]%set_headers_api & H). unfold st_ret in H. injection H as <- _.
  split; [done|]. right. by exists u.
Qed.

Lemma handle_checks_spec r (e e' : Exchange) h vars l :
  handle_checks main_match r e = (e', Ret (h, vars, l)) →
  origin_ok (ex_api e) r ∧ cleanRequestPath (URL_Path r) = URL_Path r ∧ main_match r = Matched (Some h) vars ∧
  moduleIsReady (handler_module h) = true ∧
  ∃ method readMethod, getEffectiveMethod r = Some (method, readMethod) ∧
    let required := effective (required_permission (ex_api e) (Some h) r readMethod) in
    keeps (ex_api e) (ex_api e') ∧ PermitAnyone <= required <= PermitSelf ∧ granted (ex_api e) r required readMethod (token_at (ex_api e') l) ∧
    (stored (ex_api e) → private (ex_api e') l).
Proof.
  intros H. unfold handle_checks in H.
  apply st_bind_inv in H as (e1 & [] & [Hs1 _]%set_headers_api & H).
  apply st_bind_inv in H as (e2 & dev & H1 & H). unfold ask in H1. injection H1 as <- <-.
  apply st_bind_inv in H as (e2 & [] & H1 & H).
  assert (ex_api e2 = ex_api e) as Hs2.
  { destruct (devMode (ex_api e1)); [unfold st_ret in H1; by injection H1 as <-|]. unfold Header_Set in H1. by injection H1 as <-. }
  apply st_bind_inv in H as (e3 & pre & [Hs3 Ho]%check_origin_spec & H). rewrite Hs2 in Ho, Hs3. clear H1 Hs1 Hs2 e1 e2.
  destruct (String.eqb_spec (URL_Path r) (cleanRequestPath (URL_Path r))) as [Hp|]; [|done].
  cbn [negb] in H. destruct (main_match r) as [o mvars| |]; [|by apply http_Error_api in H as [_ ?]..].
  destruct (getEffectiveMethod r) as [[method readMethod]|] eqn:Hm; [|by apply http_Error_api in H as [_ ?]].
  destruct (pre && bool_decide (is_Some o)); [done|].
  apply st_bind_inv in H as (e4 & tok & Ha & H). destruct o as [h'|]; [|by apply http_Error_api in H as [_ ?]].
  destruct (moduleIsReady (handler_module h')) eqn:Hr; [|by apply http_Error_api in H as [_ ?]].
  unfold st_ret in H. injection H as <- <- <- <-. split_and!; [done|done|done|done|]. exists method, readMethod. split; [done|].
  rewrite <- Hs3. by apply authenticateRequest_spec.
Qed.

(** ** Keys *)

(** What the text of a key says, apart from how it is imported: the path names the
    key, its query the permissions, in any case of letters, and the expiry. *)
Inductive says_permission : string → Z → Prop :=
| says_nothing : says_permission "" PermitAnyone
| says_anyone : says_permission "anyone" PermitAnyone
| says_user : says_permission "user" PermitUser
| says_admin : says_permission "admin" PermitAdmin.

Definition says_expiry (word : string) (v : option Z) : Prop :=
  match v with Some x => word ≠ "" ∧ time_RFC3339 word = Some x | None => word = "" end.

Definition key_says (key path : string) (t : AuthToken) : Prop :=
  path ≠ "" ∧ ∃ u, url_Parse key = Some u ∧ url_Path u = path ∧
    says_permission (ToLower (query_Get u "read")) (tok_Read t) ∧ says_permission (ToLower (query_Get u "write")) (tok_Write t) ∧
    says_expiry (query_Get u "expires") (ValidUntil t).

(** Not after its expiry. *)
Definition in_force (now : Z) (t : AuthToken) : Prop := ∀ x, ValidUntil t = Some x → now <= x.

(** The last key in force with a path counts. *)
Definition keys_grant (now : Z) (keys : list string) (path : string) (t : AuthToken) : Prop :=
  ∃ before key after, keys = (before ++ key :: after)%list ∧ key_says key path t ∧ in_force now t ∧
    ∀ key' t', key' ∈ after → key_says key' path t' → ¬ in_force now t'.

Lemma parseAPIPermission_says w p : parseAPIPermission w = Some p ↔ says_permission (ToLower w) p.
Proof.
  unfold parseAPIPermission. split.
  - destruct (String.eqb_spec (ToLower w) "") as [->|]; [intros [= <-]; constructor|].
    destruct (String.eqb_spec (ToLower w) "anyone") as [->|]; [intros [= <-]; constructor|].
    destruct (String.eqb_spec (ToLower w) "user") as [->|]; [intros [= <-]; constructor|].
    destruct (String.eqb_spec (ToLower w) "admin") as [->|]; [intros [= <-]; constructor|done].
  - by destruct 1.
Qed.

Lemma in_force_spec now t : in_force now t ↔ match ValidUntil t with Some x => (x <? now) = false | None => True end.
Proof.
  unfold in_force. destruct (ValidUntil t) as [x|]; [|naive_solver]. rewrite Z.ltb_ge. split; [by intros H; apply H|]. by intros H y [= <-].
Qed.

#[export] Instance in_force_dec now t : Decision (in_force now t).
Proof.
  destruct (match ValidUntil t with Some x => x <? now | None => false end) eqn:H; [right|left]; rewrite in_force_spec; by destruct (ValidUntil t); rewrite ?H.
Defined.

(** The key as it is parsed against what it says. *)
Lemma parse_api_key_says now key :
  match parse_api_key now key with
  | ValidKey path t => key_says key path t ∧ in_force now t
  | ExpiredKey => ∃ path t, key_says key path t ∧ ¬ in_force now t
  | MalformedKey => ∀ path t, ¬ key_says key path t
  end.
Proof.
  unfold parse_api_key, key_says. destruct (url_Parse key) as [u|]; [|by intros path t (_ & u & ? & _)].
  destruct (String.eqb_spec (url_Path u) "") as [He|He]; [by intros path t (Hp & u' & [= <-] & <- & _)|].
  destruct (parseAPIPermission (query_Get u "read")) as [read|] eqn:Hr.
  2: { intros path t (_ & u' & [= <-] & _ & H%parseAPIPermission_says & _). by rewrite Hr in H. }
  destruct (parseAPIPermission (query_Get u "write")) as [write|] eqn:Hw.
  2: { intros path t (_ & u' & [= <-] & _ & _ & H%parseAPIPermission_says & _). by rewrite Hw in H. }
  apply parseAPIPermission_says in Hr, Hw. cbv zeta.
  destruct (String.eqb_spec (query_Get u "expires") "") as [Hx|Hx]; [split; [|done]; split; [done|]; by exists u|].
  destruct (time_RFC3339 (query_Get u "expires")) as [x|] eqn:Ht.
  2: { intros path [? ? [y|]] (_ & u' & [= <-] & _ & _ & _ & H); simpl in H; [|done]. destruct H as [_ H]. by rewrite Ht in H. }
  assert (url_Path u ≠ "" ∧ ∃ u', Some u = Some u' ∧ url_Path u' = url_Path u ∧
    says_permission (ToLower (query_Get u' "read")) read ∧ says_permission (ToLower (query_Get u' "write")) write ∧ says_expiry (query_Get u' "expires") (Some x)) as Hs.
  { split; [done|]. by exists u. }
  destruct (x <? now) eqn:Hnow.
  - exists (url_Path u), (mkAuthToken read write (Some x)). split; [exact Hs|]. rewrite in_force_spec. simpl. by rewrite Hnow.
  - split; [exact Hs|]. by apply in_force_spec.
Qed.

(** A text says one thing. *)
Lemma key_says_once key p1 p2 t1 t2 : key_says key p1 t1 → key_says key p2 t2 → p1 = p2 ∧ t1 = t2.
Proof.
  destruct t1 as [r1 w1 v1], t2 as [r2 w2 v2]. intros (_ & u1 & Hu1 & <- & Hr1 & Hw1 & Hv1) (_ & u2 & Hu2 & <- & Hr2 & Hw2 & Hv2).
  rewrite Hu1 in Hu2. injection Hu2 as <-. split; [done|]. simpl in *.
  apply parseAPIPermission_says in Hr1, Hr2, Hw1, Hw2. rewrite Hr1 in Hr2. rewrite Hw1 in Hw2. simplify_eq. f_equal.
  destruct v1, v2; simpl in *; try done; naive_solver congruence.
Qed.

Definition valid_key (now : Z) (key : string) : option (string * AuthToken) :=
  match parse_api_key now key with ValidKey path t => Some (path, t) | _ => None end.

Definition is_expired_key (now : Z) (key : string) : bool := match parse_api_key now key with ExpiredKey => true | _ => false end.

(** Later keys with the same path replace earlier ones. *)
Definition insert_all (l : list (string * AuthToken)) (m : gmap string AuthToken) : gmap string AuthToken :=
  fold_left (λ m kt, <[kt.1 := kt.2]> m) l m.

Definition key_tokens (s : Api) : gmap string AuthToken := token_at s <$> apiKeys s.

Lemma update_keys_spec keys (s s' : Api) valid valid' x x' :
  (∀ k l, apiKeys s !! k = Some l → (l < length (tokens s))%nat) →
  fold_left update_key keys (s, valid, x) = (s', valid', x') →
  key_tokens s' = insert_all (omap (valid_key (api_now s)) keys) (key_tokens s) ∧
  valid' = (valid ++ filter (λ k, is_Some (valid_key (api_now s) k)) keys)%list ∧ x' = x || existsb (is_expired_key (api_now s)) keys ∧
  sessions s' = sessions s ∧ ∃ l, tokens s' = (tokens s ++ l)%list.
Proof.
  revert s valid x. induction keys as [|key keys IH]; intros s valid x Hs H; cbn [fold_left] in H.
  { simplify_eq. rewrite app_nil_r, orb_false_r. split_and!; try done. exists []. by rewrite app_nil_r. }
  unfold update_key at 2 in H. cbn [omap list_omap existsb]. rewrite filter_cons.
  destruct (parse_api_key (api_now s) key) as [| |path t] eqn:Hp.
  1-2: assert (valid_key (api_now s) key = None) as Hv by (unfold valid_key; by rewrite Hp).
  3: assert (valid_key (api_now s) key = Some (path, t)) as Hv by (unfold valid_key; by rewrite Hp).
  all: unfold is_expired_key at 1; rewrite Hp, Hv.
  - apply IH in H as (H1 & H2 & H3 & H4); [|done]. rewrite decide_False by (by intros [? ?]). done.
  - apply IH in H as (H1 & H2 & H3 & H4 & H5); [|done]. rewrite decide_False by (by intros [? ?]).
    split_and!; [done|done|by rewrite H3, orb_true_r|done|done].
  - rewrite decide_True by done.
    set (s1 := set_store (tokens s ++ [t])%list (<[path := length (tokens s)]> (apiKeys s)) (sessions s) s) in *.
    assert (∀ k l, apiKeys s1 !! k = Some l → (l < length (tokens s1))%nat) as Hs1.
    { unfold s1. simpl. intros k l Hk. rewrite length_app. simpl. destruct (decide (k = path)) as [->|].
      - rewrite lookup_insert_eq in Hk. simplify_eq. lia.
      - rewrite lookup_insert_ne in Hk by done. specialize (Hs k l Hk). lia. }
    assert (key_tokens s1 = <[path := t]> (key_tokens s)) as Hkt.
    { unfold key_tokens, s1. simpl. rewrite fmap_insert. f_equal.
      - unfold token_at. simpl. by rewrite list_lookup_middle.
      - apply map_fmap_ext. intros k l Hk. unfold token_at. simpl. rewrite lookup_app_l; [done|by eapply Hs]. }
    apply IH in H as (H1 & H2 & H3 & H4 & l & H5); [|done]. change (api_now s1) with (api_now s) in *. rewrite Hkt in H1.
    split_and!; [done|by rewrite H2, <- app_assoc|done|done|]. exists (t :: l). rewrite H5. unfold s1. simpl. by rewrite <- app_assoc.
Qed.

Lemma valid_key_says now key path t : valid_key now key = Some (path, t) ↔ key_says key path t ∧ in_force now t.
Proof.
  unfold valid_key. pose proof (parse_api_key_says now key) as H. destruct (parse_api_key now key) as [| |path' t'].
  - split; [done|]. intros [Hk _]. by destruct (H path t).
  - split; [done|]. intros [Hk Hf]. destruct H as (p & t1 & H & Hn). by destruct (key_says_once _ _ _ _ _ H Hk) as [_ ->].
  - destruct H as [Hs Hf]. split; [by intros [= <- <-]|]. intros [Hk _]. by destruct (key_says_once _ _ _ _ _ Hs Hk) as [-> ->].
Qed.

Lemma is_expired_key_says now key : is_expired_key now key = true ↔ ∃ path t, key_says key path t ∧ ¬ in_force now t.
Proof.
  unfold is_expired_key. pose proof (parse_api_key_says now key) as H. destruct (parse_api_key now key) as [| |path' t'].
  - split; [done|]. intros (p & t & Hk & _). by destruct (H p t).
  - done.
  - destruct H as [Hs Hf]. split; [done|]. intros (p & t & Hk & Hn). by destruct (key_says_once _ _ _ _ _ Hs Hk) as [_ ->].
Qed.

Lemma insert_all_snoc l k t m : insert_all (l ++ [(k, t)])%list m = <[k := t]> (insert_all l m).
Proof. unfold insert_all. by rewrite fold_left_app. Qed.

Lemma keys_grant_snoc now keys key path t :
  keys_grant now (keys ++ [key]) path t ↔
  (key_says key path t ∧ in_force now t) ∨ ((∀ t', key_says key path t' → ¬ in_force now t') ∧ keys_grant now keys path t).
Proof.
  split.
  - intros (l1 & k & l2 & He & Hs & Hf & Hl). destruct l2 as [|k' l2' _] using rev_ind.
    + apply app_inj_tail in He as [_ <-]. by left.
    + rewrite app_comm_cons, app_assoc in He. apply app_inj_tail in He as [-> <-]. right. split.
      * intros t' Ht. apply (Hl key t'); [rewrite elem_of_app, list_elem_of_singleton; by right|done].
      * exists l1, k, l2'. split_and!; [done..|]. intros key' t' Hk. apply Hl. rewrite elem_of_app. by left.
  - intros [[Hs Hf]|[Hn (l1 & k & l2 & -> & Hs & Hf & Hl)]].
    + exists keys, key, []. split_and!; [done..|]. by intros key' t' ?%elem_of_nil.
    + exists l1, k, (l2 ++ [key])%list. rewrite <- app_assoc. split_and!; [done..|]. intros key' t' Hk Hs'. apply elem_of_app in Hk as [Hk|Hk]; [by apply (Hl key')|]. apply list_elem_of_singleton in Hk as ->. by apply Hn.
Qed.

Lemma keys_granted now keys path t : insert_all (omap (valid_key now) keys) ∅ !! path = Some t ↔ keys_grant now keys path t.
Proof.
  induction keys as [|key keys IH] using rev_ind.
  { split; [done|]. intros (l1 & k & l2 & H & _). by destruct l1. }
  rewrite keys_grant_snoc, omap_app. simpl. destruct (valid_key now key) as [[p t0]|] eqn:Hv.
  - rewrite insert_all_snoc. apply valid_key_says in Hv as [Hs Hf]. rewrite lookup_insert_Some. split.
    + intros [[-> ->]|[Hne H]]; [by left|]. right. split; [|by apply IH]. intros t' Hs' _. by destruct (key_says_once _ _ _ _ _ Hs Hs') as [-> _].
    + intros [[Hs' _]|[Hn H]]; [by destruct (key_says_once _ _ _ _ _ Hs Hs') as [-> ->]; left|]. right. split; [|by apply IH].
      intros ->. by destruct (Hn t0).
  - rewrite app_nil_r, IH. split.
    + intros H. right. split; [|done]. intros t' Hs Hf. by rewrite (proj2 (valid_key_says now key path t')) in Hv.
    + intros [[Hs Hf]|[_ H]]; [|done]. by rewrite (proj2 (valid_key_says now key path t)) in Hv.
Qed.

Lemma valid_keys_kept now (keep : string → bool) keys :
  (∀ key, keep key = true ↔ ∃ path t, key_says key path t ∧ in_force now t) → filter (λ k, is_Some (valid_key now k)) keys = List.filter keep keys.
Proof.
  intros Hkeep. induction keys as [|key keys IH]; [done|]. rewrite filter_cons. simpl.
  destruct (decide (is_Some (valid_key now key))) as [[[path t] Hv]|Hn]; destruct (keep key) eqn:Hk; [by f_equal| | |done].
  - exfalso. apply not_true_iff_false in Hk. apply Hk, Hkeep. exists path, t. by apply valid_key_says.
  - apply Hkeep in Hk as (path & t & Hs). destruct Hn. exists (path, t). by apply valid_key_says.
Qed.

(** ** Sessions *)

Definition clean_exchange (e : Exchange) : Exchange := mkExchange (cleanSessions (ex_api e)) (header e) (reply e).

(** ** Endpoints *)

(** What the sanity checks promise. *)
Record endpoint_ok (e : Endpoint) : Prop := {
  ep_path : TrimSpace (Path e) ≠ "";
  ep_read : Dynamic <= ep_Read e <= PermitSelf;
  ep_write : Dynamic <= ep_Write e <= PermitSelf;
  ep_read_method : ReadMethod e = if ep_Read e =? NotSupported then "" else "GET";
  ep_write_method : if ep_Write e =? NotSupported then WriteMethod e = "" else WriteMethod e ∈ ["POST"; "PUT"; "DELETE"];
  ep_function : length (function_mimes e) = 1%nat;
  ep_mime : MimeType e ≠ "";
}.

Definition endpoints_ok (s : Api) : Prop := ∀ path e, endpoints s !! path = Some e → Path e = path ∧ endpoint_ok e.

Lemma Endpoint_check_ok (e e' : Endpoint) : Endpoint_check e = Ret e' → Path e' = Path e ∧ endpoint_ok e'.
Proof.
  unfold Endpoint_check. destruct (String.eqb_spec (TrimSpace (Path e)) "") as [|Hp]; [done|].
  destruct (permission_in_range (ep_Read e)) eqn:Hr; [|done]. destruct (permission_in_range (ep_Write e)) eqn:Hw; [|done]. cbn [negb].
  destruct (check_ReadMethod e) as [rm| |] eqn:Hrm; [|done..]. destruct (check_WriteMethod e) as [wm| |] eqn:Hwm; [|done..]. simpl.
  destruct (function_mimes e) as [|mime [|]] eqn:Hf; [done| |done]. intros [= <-]. split; [done|].
  unfold permission_in_range in Hr, Hw. bool_to_prop. split; simpl; try done.
  - unfold check_ReadMethod in Hrm. destruct (ep_Read e =? NotSupported); [by simplify_eq|]. by repeat case_match; simplify_eq.
  - unfold check_WriteMethod in Hwm. destruct (ep_Write e =? NotSupported); [by simplify_eq|].
    destruct (String.eqb_spec (WriteMethod e) "POST") as [->|]; [simplify_eq; set_solver|].
    destruct (String.eqb_spec (WriteMethod e) "PUT") as [->|]; [simplify_eq; set_solver|].
    destruct (String.eqb_spec (WriteMethod e) "DELETE") as [->|]; [simplify_eq; set_solver|].
    simpl in Hwm. destruct (String.eqb (WriteMethod e) ""); simplify_eq. set_solver.
  - unfold function_mimes in *. simpl. by rewrite Hf.
  - destruct (String.eqb_spec (MimeType e) "") as [_|]; [|done]. unfold function_mimes in Hf.
    destruct (ActionFunc e), (DataFunc e), (StructFunc e), (RecordFunc e), (HandlerFunc e); simpl in Hf; simplify_eq; done.
Qed.

(** ** Paths and the bridge *)

(** net/url keeps the plain prefix, and httptest parses a request line whose
    method is a word back to its parts. *)
Class NetURLLaws : Prop := {
  parse_scope : ∀ u p, ParseRequestURI u = Some p → HasPrefix u apiV1Path = true → HasPrefix p apiV1Path = true;
  request_line : ∀ m p q d r,
    m ≠ "" → all_bytes (λ a, is_lower (lower a)) m = true → httptest_NewRequest m p q d = Some r → URL_Path r = p;
}.

Lemma bridge_auth r required (e e' : Exchange) o :
  devMode (ex_api e) = false → RemoteAddr r = endpointBridgeRemoteAddress → checkAuth r required e = (e', Ret o) →
  ∃ l, o = Some l ∧ token_at (ex_api e') l = mkAuthToken PermitAdmin PermitAdmin None.
Proof.
  unfold checkAuth. intros Hdev Hr H. apply st_bind_inv in H as (e1 & dev & H1 & H). unfold ask in H1. injection H1 as <- <-.
  rewrite Hdev, Hr, String.eqb_refl in H. apply st_bind_inv in H as (e1 & l & (_ & _ & _ & _ & Hl)%new_token_eq & H).
  unfold st_ret in H. injection H as <- <-. by exists l.
Qed.

Lemma bridge_token r h readMethod (e e' : Exchange) l :
  devMode (ex_api e) = false → RemoteAddr r = endpointBridgeRemoteAddress → authenticateRequest r h readMethod e = (e', Ret l) →
  token_at (ex_api e') l ∈ [mkAuthToken PermitAnyone PermitAnyone None; mkAuthToken PermitAdmin PermitAdmin None].
Proof.
  intros Hdev Hr. unfold authenticateRequest. intros H. apply st_bind_inv in H as (e1 & req & H1 & H). unfold ask in H1. injection H1 as <- <-.
  set (req := required_permission (ex_api e) h r readMethod) in *.
  assert (∀ p, authenticate_as r p readMethod e = (e', Ret l) → token_at (ex_api e') l = mkAuthToken PermitAdmin PermitAdmin None) as Has.
  { clear H. intros p H. unfold authenticate_as in H. destruct (_ || _); [by apply http_Error_api in H as [_ ?]|].
    apply st_bind_inv in H as (e1 & o & (l0 & -> & Hl0)%bridge_auth & H); [|done|done].
    apply st_bind_inv in H as (e2 & l1 & H1 & H). unfold st_ret in H1. injection H1 as <- <-.
    apply st_bind_inv in H as (e3 & t & H1 & H). unfold ask in H1. injection H1 as <- <-. rewrite Hl0 in H. cbn [tok_Read tok_Write] in H.
    destruct (_ || _); [by apply http_Error_api in H as [_ ?]|].
    destruct (_ <? p).
    { destruct (_ && _); [|by apply http_Error_api in H as [_ ?]]. apply st_bind_inv in H as (e3 & [] & _ & H). by apply http_Error_api in H as [_ ?]. }
    by apply new_token_eq in H as (_ & _ & _ & _ & ->). }
  destruct (req =? NotFound); [by apply http_Error_api in H as [_ ?]|].
  destruct (req =? NotSupported); [by apply http_Error_api in H as [_ ?]|].
  destruct (req =? PermitAnyone).
  { apply new_token_eq in H as (_ & _ & _ & _ & ->). by left. }
  destruct (req =? Dynamic); rewrite (Has _ H); right; left.
Qed.

Lemma handle_checks_token r (e e' : Exchange) h vars l :
  handle_checks main_match r e = (e', Ret (h, vars, l)) →
  ∃ e1 readMethod, ex_api e1 = ex_api e ∧ authenticateRequest r (Some h) readMethod e1 = (e', Ret l).
Proof.
  intros H. unfold handle_checks in H.
  apply st_bind_inv in H as (e1 & [] & [Hs1 _]%set_headers_api & H).
  apply st_bind_inv in H as (e2 & dev & H1 & H). unfold ask in H1. injection H1 as <- <-.
  apply st_bind_inv in H as (e2 & [] & H1 & H).
  assert (ex_api e2 = ex_api e) as Hs2.
  { destruct (devMode (ex_api e1)); [unfold st_ret in H1; by injection H1 as <-|]. unfold Header_Set in H1. by injection H1 as <-. }
  apply st_bind_inv in H as (e3 & pre & [Hs3 _]%check_origin_spec & H).
  destruct (negb _); [done|]. destruct (main_match r) as [o mvars| |]; [|by apply http_Error_api in H as [_ ?]..].
  destruct (getEffectiveMethod r) as [[method readMethod]|]; [|by apply http_Error_api in H as [_ ?]].
  destruct (pre && _); [done|]. apply st_bind_inv in H as (e4 & tok & Ha & H). destruct o as [h'|]; [|by apply http_Error_api in H as [_ ?]].
  destruct (moduleIsReady (handler_module h')); [|by apply http_Error_api in H as [_ ?]].
  unfold st_ret in H. injection H as <- <- <- <-. exists e3, readMethod. split; [congruence|done].
Qed.

(** ** Theorems *)

(** C18: A handler is called only for a request whose origin is allowed and whose path
    is clean, with a token that has the permission the handler requires for the
    method, never more than that of the program itself, from one of the sources of
    permissions. The token is a copy that no key and no session refers to. *)
Theorem request_authorised r (e e' : Exchange) h vars l :
  stored (ex_api e) → handle_checks main_match r e = (e', Ret (h, vars, l)) →
  main_match r = Matched (Some h) vars ∧ moduleIsReady (handler_module h) = true ∧ origin_ok (ex_api e) r ∧
  cleanRequestPath (URL_Path r) = URL_Path r ∧
  ∃ method readMethod, getEffectiveMethod r = Some (method, readMethod) ∧
    granted (ex_api e) r (effective (required_permission (ex_api e) (Some h) r readMethod)) readMethod (token_at (ex_api e') l) ∧
    private (ex_api e') l ∧ stored (ex_api e').
Proof.
  intros Hs (Ho & Hp & Hm & Hr & method & readMethod & Hmeth & Hk & _ & Hg & Hpriv)%handle_checks_spec.
  split_and!; [done..|]. exists method, readMethod. split_and!; [done|done|by apply Hpriv|by apply (keeps_stored _ _ Hk)].
Qed.

(** C19: After an update the registered keys are exactly those the configured texts
    say: a key is registered under a path with a token when some text says this
    path and token - a path that is not empty, the permissions named by read and
    write or anyone, and the expiry - the token is in force, and no later text says
    another one in force for the path. The option is cleaned up exactly when some
    text says a token that is no longer in force, and then keeps, in order, exactly
    the texts that say one in force. Sessions stay as they are. *)
Theorem updateAPIKeys_exact (s s' : Api) cleanup :
  updateAPIKeys s = (s', cleanup) →
  (∀ path t, key_tokens s' !! path = Some t ↔ keys_grant (api_now s) (configuredAPIKeys s) path t) ∧ sessions s' = sessions s ∧
  (cleanup = None ↔ ∀ key path t, key ∈ configuredAPIKeys s → key_says key path t → in_force (api_now s) t) ∧
  ∀ keep : string → bool, (∀ key, keep key = true ↔ ∃ path t, key_says key path t ∧ in_force (api_now s) t) →
    ∀ l, cleanup = Some l → l = List.filter keep (configuredAPIKeys s).
Proof.
  unfold updateAPIKeys. set (s0 := set_store (tokens s) ∅ (sessions s) s).
  destruct (fold_left update_key (configuredAPIKeys s) (s0, [], false)) as [[s1 valid] x] eqn:Hf. intros [= <- <-].
  apply update_keys_spec in Hf as (H1 & H2 & H3 & H4 & _); [|by intros k l Hk].
  change (api_now s0) with (api_now s) in *. split_and!; [|done|..].
  - intros path t. rewrite H1. apply keys_granted.
  - rewrite H3. simpl. destruct (existsb _ _) eqn:Hx.
    + split; [done|]. intros H. apply existsb_exists in Hx as (key & Hin & (path & t & Hs & Hn)%is_expired_key_says).
      destruct Hn. apply (H key path t); [by apply list_elem_of_In|done].
    + split; [|done]. intros _ key path t Hin Hs. destruct (decide (in_force (api_now s) t)) as [Hf|Hn]; [exact Hf|]. exfalso.
      apply not_true_iff_false in Hx. apply Hx, existsb_exists. exists key. split; [by apply list_elem_of_In|]. apply is_expired_key_says. by exists path, t.
  - intros keep Hkeep l Hl. rewrite H3, H2 in Hl. destruct (false || _); [|done]. injection Hl as <-. simpl.
    by apply valid_keys_kept.
Qed.

(** Cleaning up sessions changes no decision: a request's cookie has the same
    result with and without it, and leads to the same sessions. *)
Theorem cleanSessions_transparent r (e e' : Exchange) o :
  checkSessionCookie r e = (e', o) → checkSessionCookie r (clean_exchange e) = (clean_exchange e', o).
Proof.
  unfold checkSessionCookie, clean_exchange. simpl. destruct (Cookie sessionCookieName r) as [c|]; [|by intros [= <- <-]].
  destruct (sessions (ex_api e) !! c) as [sess|] eqn:Hs.
  - unfold Expired at 1. destruct (Z.ltb_spec (sess_validUntil sess) (api_now (ex_api e))) as [Hx|Hx]; intros [= <- <-].
    + rewrite (proj2 (map_lookup_filter_None _ _ _)); [done|]. right. intros sess' Hs'. simplify_eq. simpl. unfold Expired.
      rewrite (proj2 (Z.ltb_lt _ _)) by done. done.
    + assert (filter (λ p : string * session, Expired (ex_api e) p.2 = false) (sessions (ex_api e)) !! c = Some sess) as ->.
      { apply map_lookup_filter_Some. split; [done|]. simpl. unfold Expired. by apply Z.ltb_ge. }
      unfold Expired at 1. change (api_now (cleanSessions (ex_api e))) with (api_now (ex_api e)). rewrite (proj2 (Z.ltb_ge _ _)) by done.
      f_equal. simpl. f_equal. unfold cleanSessions, set_store. simpl. f_equal.
      assert (∀ p, Expired (mkApi (tokens (ex_api e)) (apiKeys (ex_api e)) (<[c:=mkSession (sess_token sess) (api_now (ex_api e) + sessionCookieTTL)]> (sessions (ex_api e)))
        (authFn (ex_api e)) (devMode (ex_api e)) (api_online (ex_api e)) (api_now (ex_api e)) (secrets (ex_api e)) (configuredAPIKeys (ex_api e)) (endpoints (ex_api e))) p
        = Expired (ex_api e) p) as Hexp by done.
      rewrite (map_filter_insert_True (λ p : string * session, Expired _ p.2 = false)); [done|]. simpl. unfold Expired. simpl. apply Z.ltb_ge.
      unfold sessionCookieTTL. lia.
  - intros [= <- <-]. rewrite (proj2 (map_lookup_filter_None _ _ _)); [done|]. by left.
Qed.

(** Registration keeps every registered endpoint well formed: under its own
    path, permissions in range, methods that fit them, one function and a mime
    type; an endpoint is refused exactly when a check fails or the path is taken. *)
Theorem RegisterEndpoint_ok (ep : Endpoint) (s s' : Api) o :
  endpoints_ok s → RegisterEndpoint ep s = (s', o) →
  endpoints_ok s' ∧
  match o with
  | Ret _ => ∃ ep', Endpoint_check ep = Ret ep' ∧ endpoints s !! Path ep = None ∧ endpoints s' = <[Path ep := ep']> (endpoints s)
  | Fail ErrAlreadyRegistered => is_Some (endpoints s !! Path ep) ∧ s' = s
  | Fail (ErrInvalidEndpoint err) => Endpoint_check ep = Fail err ∧ s' = s
  | Panic => False
  end.
Proof.
  intros Hs. unfold RegisterEndpoint. destruct (Endpoint_check ep) as [ep'|err|] eqn:Hc.
  - apply Endpoint_check_ok in Hc as Hok. destruct Hok as [Hp Hok]. rewrite Hp. destruct (endpoints s !! Path ep) as [old|] eqn:He; intros [= <- <-]; [done|].
    split; [|by exists ep']. intros path x Hx. simpl in Hx. destruct (decide (path = Path ep)) as [->|Hne].
    + rewrite lookup_insert_eq in Hx. simplify_eq. done.
    + rewrite lookup_insert_ne in Hx by done. by apply Hs.
  - by intros [= <- <-].
  - exfalso. unfold Endpoint_check in Hc. destruct (String.eqb _ ""); [done|].
    destruct (negb (permission_in_range (ep_Read ep))); [done|]. destruct (negb (permission_in_range (ep_Write ep))); [done|].
    destruct (check_ReadMethod ep) as [rm| |] eqn:Hrm; [|done|unfold check_ReadMethod in Hrm; by repeat case_match].
    destruct (check_WriteMethod ep) as [wm| |] eqn:Hwm; [|done|unfold check_WriteMethod in Hwm; by repeat case_match].
    simpl in Hc. by repeat case_match.
Qed.

(** Cleaning a request path twice is cleaning it once: a redirected request is
    not redirected again. *)
Theorem cleanRequestPath_idempotent p : cleanRequestPath (cleanRequestPath p) = cleanRequestPath p.
Proof.
  unfold cleanRequestPath at 2 3. destruct (String.eqb_spec p "") as [->|Hp]; [done|]. destruct (String.eqb_spec p "/") as [->|Hp']; [done|]. cbn [orb]. cbv zeta.
  set (q := if HasPrefix p "/" then p else "/" ++ p). assert (HasPrefix q "/" = true) as Hq.
  { unfold q. destruct (HasPrefix p "/") eqn:H; [done|apply HasPrefix_slash]. }
  destruct (path_Clean_rooted q Hq) as (l & Hl & Hc). rewrite Hc.
  assert (path_Clean (abs_path l) = abs_path l) as Hcl by (apply path_Clean_abs; by exists l).
  unfold cleanRequestPath. destruct (HasSuffix q "/") eqn:Hsuf.
  - destruct (String.eqb_spec (abs_path l ++ "/") "") as [H|_]; [done|].
    destruct (String.eqb_spec (abs_path l ++ "/") "/") as [H|_]; [by destruct (Join l "/")|]. cbn [orb].
    assert (HasPrefix (abs_path l ++ "/") "/" = true) as -> by apply HasPrefix_slash. rewrite HasSuffix_slash, path_Clean_slash, Hcl by apply HasPrefix_abs. done.
  - destruct (String.eqb_spec (abs_path l) "") as [H|_]; [done|]. destruct (String.eqb_spec (abs_path l) "/") as [H|H]; [by rewrite H|].
    cbn [orb]. rewrite HasPrefix_abs, Hcl, HasSuffix_abs; [done|done|]. by intros ->.
Qed.

(** C20: A record put into or read from the bridge's database stays within the API:
    a request with an ordinary method reaches only a handler whose path is clean
    and below the API's prefix, and outside development mode with no more than
    the permission of an administrator. *)
Theorem bridge_in_scope {laws : NetURLLaws} ebr r (e e' : Exchange) h vars l :
  bridge_request ebr = Ret r → all_bytes (λ a, is_lower (lower a)) (br_Method ebr) = true →
  devMode (ex_api e) = false → handle_checks main_match r e = (e', Ret (h, vars, l)) →
  HasPrefix (URL_Path r) apiV1Path = true ∧ cleanRequestPath (URL_Path r) = URL_Path r ∧
  tok_Read (token_at (ex_api e') l) <= PermitAdmin ∧ tok_Write (token_at (ex_api e') l) <= PermitAdmin.
Proof.
  intros Hb Hm Hdev H. pose proof H as (_ & Hclean & _)%handle_checks_spec.
  unfold bridge_request in Hb. destruct (HasPrefix (path_Join apiV1Path (br_Path ebr)) apiV1Path) eqn:Hpre; [|done]. cbn [negb] in Hb.
  destruct (ParseRequestURI (path_Join apiV1Path (br_Path ebr))) as [p|] eqn:Hu; [|done].
  destruct (httptest_NewRequest (bridge_method ebr) p (br_Query ebr) (br_Data ebr)) as [r0|] eqn:Hr; [|done]. injection Hb as <-.
  split; [|split; [done|]].
  - simpl. assert (URL_Path r0 = p) as ->; [|by eapply parse_scope].
    eapply request_line; [| |exact Hr]; unfold bridge_method; destruct (String.eqb_spec (br_Method ebr) ""); try done; destruct (bool_decide (br_Data ebr = [])); done.
  - apply handle_checks_token in H as (e1 & readMethod & He1 & Ha).
    assert (token_at (ex_api e') l ∈ [mkAuthToken PermitAnyone PermitAnyone None; mkAuthToken PermitAdmin PermitAdmin None]) as Ht.
    { eapply bridge_token; [| |exact Ha]; [by rewrite He1|done]. }
    apply elem_of_cons in Ht as [->|Ht]; [done|]. apply list_elem_of_singleton in Ht as ->. done.
Qed.

End ApiLemmas.

(** ** A small server *)

(** An address is its path, with the query behind a question mark. *)
Definition query_value (query k : string) : string :=
  match List.find (λ p, HasPrefix p (k ++ "=")) (Split query "&") with
  | Some p => string_drop (S (String.length k)) p
  | None => ""
  end.

Definition demo_parse (s : string) : option URL :=
  match Cut s "?" with
  | Some (path, query) => Some (mkURL "" "" "" path (query_value query))
  | None => Some (mkURL "" s s s (query_value ""))
  end.

#[local] Instance demo_net : NetURL := {
  url_Parse := demo_parse;
  time_RFC3339 s := ParseInt64 s;
  ParseRequestURI s := if HasPrefix s "/" then Some s else None;
  httptest_NewRequest m p q d := Some (mkHttpRequest m ∅ "192.0.2.1:1234" "example.com" p [] (len d) (Ret d));
}.

#[local] Instance demo_net_laws : NetURLLaws.
Proof.
  split.
  - intros u p H Hp. simpl in H. by destruct (HasPrefix u "/"); simplify_eq.
  - intros m p q d r _ _ H. simpl in H. by simplify_eq.
Qed.

Abbreviation demo_api := (@Api bytes unit).
Abbreviation demo_exchange := (@Exchange bytes unit).

Definition admin_endpoint : @Endpoint bytes unit :=
  mkEndpoint "admin/status" "" PermitAdmin "" NotSupported "" None None None (Some (λ _, (Some [1; 2], None))) None None.

Definition demo_endpoints : list string → HttpRequest → option (string * gmap string string) :=
  λ paths r, (λ p, (p, ∅)) <$> List.find (λ p, String.eqb (apiV1Path ++ p) (URL_Path r)) paths.

Definition no_raw : nat → Request → st demo_exchange unit unit := λ _ _, st_ret tt.

Definition demo_endpointHandler : @Handler bytes unit :=
  endpointHandler (X := unit) demo_endpoints no_raw (λ _ _, inl "") (λ _, "dump") (λ _, "data").

Definition demo_match : HttpRequest → @route_match bytes unit :=
  λ r, if HasPrefix (URL_Path r) apiV1Path then Matched (Some demo_endpointHandler) ∅ else NoRoute.

Definition empty_api (keys : list string) : demo_api := mkApi [] ∅ ∅ None false true 100 [] keys ∅.

(** The keys are imported and the endpoint is registered. *)
Definition demo_state : demo_api :=
  (RegisterEndpoint admin_endpoint (updateAPIKeys (empty_api ["secret?read=admin"; "old?read=admin&expires=99"; "broken?read=root"])).1).1.

Definition demo_get (path authorization : string) : HttpRequest :=
  mkHttpRequest "GET" {["Authorization" := authorization]} "127.0.0.1:999" "localhost" path [] 0 (Ret []).

Definition start_exchange (s : demo_api) : demo_exchange := mkExchange s ∅ None.

(** The reply to a request. *)
Definition reply_to (r : HttpRequest) (s : demo_api) : Z * string := (serve_request demo_match r s).2.

Example served_with_key : reply_to (demo_get "/api/v1/admin/status" "Bearer secret") demo_state = (200, "data").
Proof. vm_compute. reflexivity. Qed.

Example refused_without_key : reply_to (demo_get "/api/v1/admin/status" "Bearer wrong") demo_state = (401, "Authorization required.").
Proof. vm_compute. reflexivity. Qed.

Example refused_expired_key : reply_to (demo_get "/api/v1/admin/status" "Bearer old.") demo_state = (401, "Authorization required.").
Proof. vm_compute. reflexivity. Qed.

Lemma demo_stored : stored demo_state.
Proof.
  split; intros k l Hk.
  - assert (apiKeys demo_state = {["secret" := 0%nat]}) as Hkeys by (vm_compute; reflexivity). rewrite Hkeys in Hk.
    apply lookup_singleton_Some in Hk as [_ <-]. vm_compute. lia.
  - assert (sessions demo_state = ∅) as Hs by (vm_compute; reflexivity). rewrite Hs in Hk. done.
Qed.

(** The read permission of the token of a request that passes the checks. *)
Definition outcome_permission (o : demo_exchange * go unit (@Handler bytes unit * gmap string string * nat)) : option Z :=
  match o with
  | (e', Ret (_, _, l)) => Some (tok_Read (token_at (ex_api e') l))
  | _ => None
  end.

Lemma request_authorised_witness :
  let r := demo_get "/api/v1/admin/status" "Bearer secret" in
  ∃ e' h vars l,
    handle_checks demo_match r (start_exchange demo_state) = (e', Ret (h, vars, l)) ∧
    tok_Read (token_at (ex_api e') l) = PermitAdmin ∧
    ∃ method readMethod, getEffectiveMethod r = Some (method, readMethod) ∧
      granted demo_state r (effective (required_permission demo_state (Some h) r readMethod)) readMethod (token_at (ex_api e') l) ∧
      private (ex_api e') l ∧ stored (ex_api e').
Proof.
  intros r. assert (outcome_permission (handle_checks demo_match r (start_exchange demo_state)) = Some PermitAdmin) as Hp by (vm_compute; reflexivity).
  destruct (handle_checks demo_match r (start_exchange demo_state)) as [e' [[[h vars] l]|[]|]] eqn:H; [|done|done].
  exists e', h, vars, l. split; [done|]. split; [by injection Hp|].
  apply (request_authorised demo_match r (start_exchange demo_state) e' h vars l); [exact demo_stored|exact H].
Defined.

(** One key in force, one expired, one malformed, and a path given twice. *)
Definition configured_keys : list string :=
  ["secret?read=user"; "secret?read=Admin&expires=100"; "old?read=admin&expires=99"; "broken?read=root"].

Lemma updateAPIKeys_exact_witness :
  ∃ s' cleanup, updateAPIKeys (empty_api configured_keys) = (s', cleanup) ∧
    cleanup = Some ["secret?read=user"; "secret?read=Admin&expires=100"] ∧ key_tokens s' = {["secret" := mkAuthToken PermitAdmin PermitAnyone (Some 100)]} ∧
    (∀ path t, key_tokens s' !! path = Some t ↔ keys_grant 100 configured_keys path t).
Proof.
  eexists _, _. split; [vm_compute; reflexivity|]. split; [vm_compute; reflexivity|]. split; [vm_compute; reflexivity|].
  refine (proj1 (updateAPIKeys_exact (empty_api configured_keys) _ _ _)). vm_compute. reflexivity.
Defined.

(** Two sessions, one of them over. *)
Definition with_sessions : demo_api :=
  mkApi [mkAuthToken PermitUser PermitUser None] ∅ {["a" := mkSession 0 99; "b" := mkSession 0 150]} None false true 100 [] [] ∅.

Definition with_cookie (c : string) : HttpRequest :=
  mkHttpRequest "GET" ∅ "127.0.0.1:999" "localhost" "/" [(sessionCookieName, c)] 0 (Ret []).

Lemma cleanSessions_transparent_witness :
  ∃ e', checkSessionCookie (with_cookie "b") (start_exchange with_sessions) = (e', Ret (Some 0%nat)) ∧
    checkSessionCookie (with_cookie "b") (clean_exchange (start_exchange with_sessions)) = (clean_exchange e', Ret (Some 0%nat)).
Proof.
  eexists. split; [vm_compute; reflexivity|]. eapply cleanSessions_transparent. vm_compute. reflexivity.
Defined.

Lemma RegisterEndpoint_ok_witness :
  ∃ s', RegisterEndpoint admin_endpoint (empty_api []) = (s', Ret tt) ∧ endpoints_ok s' ∧
    ReadMethod <$> (endpoints s' !! "admin/status") = Some "GET".
Proof.
  eexists. split; [vm_compute; reflexivity|]. split; [|vm_compute; reflexivity].
  eapply (RegisterEndpoint_ok admin_endpoint (empty_api [])); [intros path e He; done|vm_compute; reflexivity].
Defined.

Lemma bridge_in_scope_witness :
  ∃ r e' h vars l, bridge_request (mkBridgeRequest "" "x/../admin/status" ∅ [] "") = Ret r ∧
    handle_checks demo_match r (start_exchange demo_state) = (e', Ret (h, vars, l)) ∧
    HasPrefix (URL_Path r) apiV1Path = true ∧ tok_Read (token_at (ex_api e') l) <= PermitAdmin.
Proof.
  destruct (bridge_request (mkBridgeRequest "" "x/../admin/status" ∅ [] "")) as [r| |] eqn:Hr; [|by vm_compute in Hr..].
  assert (outcome_permission (handle_checks demo_match r (start_exchange demo_state)) = Some PermitAdmin) as Hp.
  { vm_compute in Hr. injection Hr as <-. vm_compute. reflexivity. }
  destruct (handle_checks demo_match r (start_exchange demo_state)) as [e' [[[h vars] l]|[]|]] eqn:H; [|done|done].
  exists r, e', h, vars, l. split; [done|]. split; [done|].
  destruct (bridge_in_scope demo_match (mkBridgeRequest "" "x/../admin/status" ∅ [] "") r (start_exchange demo_state) e' h vars l Hr) as (H1 & _ & H2 & _);
    [vm_compute; reflexivity|vm_compute; reflexivity|exact H|by split].
Defined.

(** ** Findings *)

(** Logging the first four bytes of an unknown key panics for a shorter one; the
    request is then answered with an empty 200. *)
Lemma short_key_panics :
  (handle demo_match (demo_get "/api/v1/admin/status" "Bearer abc") (start_exchange demo_state)).2 = Panic ∧
  reply_to (demo_get "/api/v1/admin/status" "Bearer abc") demo_state = (200, "").
Proof. split; vm_compute; reflexivity. Qed.

(** Without an authenticator, nothing is granted to a request that has no other source
    of permissions: the comments say that it would be. *)
Lemma no_authenticator_denied :
  authFn demo_state = None ∧ reply_to (demo_get "/api/v1/admin/status" "") demo_state = (401, "Authorization required.").
Proof. split; vm_compute; reflexivity. Qed.

(** The permission to write does not include the one to read. *)
Lemma write_does_not_include_read :
  reply_to (demo_get "/api/v1/admin/status" "Bearer writer")
    (RegisterEndpoint admin_endpoint (updateAPIKeys (empty_api ["writer?write=admin"])).1).1 = (403, "Insufficient permissions.").
Proof. vm_compute. reflexivity. Qed.

(** A session is good after the token it was made from has expired. *)
Definition expiring_token : demo_api :=
  mkApi [] ∅ ∅ (Some (λ _, inr (Some (mkAuthToken PermitAdmin PermitAdmin (Some 110))))) false true 100 [Some "key"] [] ∅.

Lemma session_outlives_token :
  ∃ e, checkAuth (with_cookie "") true (start_exchange expiring_token) = (e, Ret (Some 0%nat)) ∧
    let later := mkApi (tokens (ex_api e)) (apiKeys (ex_api e)) (sessions (ex_api e)) (authFn (ex_api e)) false true 200 [] [] ∅ in
    (checkSessionCookie (with_cookie (RawURLEncoding_EncodeToString "key")) (start_exchange later)).2 = Ret (Some 0%nat) ∧
    ValidUntil (token_at later 0) = Some 110.
Proof. eexists. split; [vm_compute; reflexivity|]. split; vm_compute; reflexivity. Qed.

(** A struct that was asked for and dumped as YAML is labelled as JSON: MimeDump
    returns no mime type, so the endpoint's own is set. *)
Lemma yaml_labelled_json :
  let r := mkHttpRequest "GET" {["Accept" := "text/yaml"; "Authorization" := "Bearer secret"]} "127.0.0.1:999" "localhost"
    "/api/v1/admin/status" [] 0 (Ret []) in
  FormatFromAccept "text/yaml" = YAML ∧
  (serve_request demo_match r demo_state).1.2 !! "Content-Type" = Some "application/json; charset=utf-8".
Proof. split; vm_compute; reflexivity. Qed.

(** An endpoint function that returns neither a record nor an error panics. *)
Lemma nil_record_panics (f : Request → option unit * option fn_error) ar : f ar = (None, None) → run_RecordFunc (λ _ _, inl "") f ar = Panic.
Proof. unfold run_RecordFunc. by intros ->. Qed.

(** A path that is cleaned to the root and ends in a slash gets two of them. *)
Lemma cleanRequestPath_double_slash : cleanRequestPath "/a/../" = "//".
Proof. reflexivity. Qed.
