(* ===== verification/ApiDatabase.v ===== *)
(** * api/database.go and database/iterator: the database over messages

    The text protocol (messages as bytes, replies built with a container), the
    handlers of single operations over the database interface of [Interface], and
    the streams: a query's iterator between the storage that produces records and
    the handler that sends them, with cancellation and shutdown, as steps. The
    libraries gjson and sjson are the class [JsonLib]. *)

From Stdlib Require Import ZArith Lia Ascii String.
From stdpp Require Import gmap list strings.
From S2P Require Import Prelude GoStrings Varint Dsd Container Record Query QueryParser Storage Controller Interface.
Local Open Scope string_scope.
Local Open Scope Z_scope.

(** ** Messages *)

(** The separator, a bar. *)
Definition dbAPISeperator : Z := 124.

(** [bytes.SplitN(msg, sep, n)] with [S n] parts at most. *)
Fixpoint bytes_Cut (l : bytes) : option (bytes * bytes) :=
  match l with
  | [] => None
  | b :: l' => if b =? dbAPISeperator then Some ([], l') else '(x, y) ← bytes_Cut l'; Some (b :: x, y)
  end.

Fixpoint bytes_SplitN (n : nat) (l : bytes) : list bytes :=
  match n with
  | O => [l]
  | S n => match bytes_Cut l with Some (x, y) => x :: bytes_SplitN n y | None => [l] end
  end.

Definition is_text (l : bytes) (s : string) : bool := bool_decide (l = string_bytes s).

(** What Handle starts; the last two are replies. *)
Inductive db_command : Type :=
| CmdCancel (opID : bytes)
| CmdGet (opID key : bytes)
| CmdQuery (opID text : bytes)
| CmdSub (opID text : bytes)
| CmdQsub (opID text : bytes)
| CmdPut (opID key data : bytes) (create : bool)
| CmdInsert (opID key data : bytes)
| CmdDelete (opID key : bytes)
| BadMessage
| UnknownMethod (opID : bytes).

(** The methods with key and payload. *)
Definition Handle_payload (opID : bytes) (rest : bytes) (cmd : bytes → bytes → db_command) : db_command :=
  match bytes_SplitN 1 rest with
  | [key; data] => cmd key data
  | _ => BadMessage
  end.

Definition Handle (msg : bytes) : db_command :=
  match bytes_SplitN 2 msg with
  | [opID; cancel] => if is_text cancel "cancel" then CmdCancel opID else BadMessage
  | [opID; method; rest] =>
      if is_text method "get" then CmdGet opID rest
      else if is_text method "query" then CmdQuery opID rest
      else if is_text method "sub" then CmdSub opID rest
      else if is_text method "qsub" then CmdQsub opID rest
      else if is_text method "create" then Handle_payload opID rest (λ key data, CmdPut opID key data true)
      else if is_text method "update" then Handle_payload opID rest (λ key data, CmdPut opID key data false)
      else if is_text method "insert" then Handle_payload opID rest (λ key data, CmdInsert opID key data)
      else if is_text method "delete" then CmdDelete opID rest
      else UnknownMethod opID
  | _ => BadMessage
  end.

Definition dbMsgTypeOk : string := "ok".
Definition dbMsgTypeError : string := "error".
Definition dbMsgTypeDone : string := "done".
Definition dbMsgTypeSuccess : string := "success".
Definition dbMsgTypeUpd : string := "upd".
Definition dbMsgTypeNew : string := "new".
Definition dbMsgTypeDel : string := "del".
Definition dbMsgTypeWarning : string := "warning".

(** [api.send]; [CompileData] of a container in use does not panic. *)
Definition api_send (opID : bytes) (msgType : string) (msgOrKey data : bytes) : bytes :=
  let c := Container_New [opID] in
  let c := Container_Append (string_bytes msgType) (Container_Append [dbAPISeperator] c) in
  let c := if bool_decide (msgOrKey = []) then c else Container_Append msgOrKey (Container_Append [dbAPISeperator] c) in
  let c := if bool_decide (data = []) then c else Container_Append data (Container_Append [dbAPISeperator] c) in
  match (CompileData c).2 with Ret l => l | _ => [] end.

(** The reply to what Handle does not start. *)
Definition Handle_reply (c : db_command) : option bytes :=
  match c with
  | BadMessage => Some (api_send [] dbMsgTypeError (string_bytes "bad request: malformed message") [])
  | UnknownMethod opID => Some (api_send opID dbMsgTypeError (string_bytes "bad request: unknown method") [])
  | _ => None
  end.

(** ** Single operations *)

(** gjson's ForEach visits the pairs of a value: whether the key exists and is a
    string, and the value where it exists. sjson sets metadata and key. *)
Record json_pair : Type := mkJsonPair { jp_exists : bool; jp_string : option string; jp_value : option value }.

Class JsonLib := {
  gjson_pairs : bytes → list json_pair;
  sjson_SetMeta : bytes → option Meta → string + bytes;
  sjson_SetKey : bytes → string → string + bytes;
}.

Section Operations.
Context {V R S C : Type} `{!QueryLib R, !StorageInterface V R S, !Cache C, !JsonLib}.
Context (accessor_of : V → option Accessor).
Context (start_storage : string → string → go db_error S).
Context (set_value : V → string → value → string + V).
Context (marshal_json : V → string + bytes) (wrapped : Z → bytes → V).
Context (db_text : db_error → string) (parse_error_text : parse_error → string).

Abbreviation I := (System V R S * Interface C)%type.

(** [bytes.TrimPrefix] with the identifier of JSON. *)
Definition trim_identifier (data : bytes) : bytes :=
  match data with
  | b :: data' => if b =? JSON then data' else data
  | [] => []
  end.

Definition api_MarshalRecord (h : heap V) (r : loc) (withDSDIdentifier : bool) : string + bytes :=
  match h !! r with
  | None => inl "nil record"
  | Some o =>
      match marshal_json (o_value o) with
      | inl err => inl err
      | inr jsonData =>
          match sjson_SetMeta (trim_identifier jsonData) (meta (o_base o)) with
          | inl err => inl err
          | inr jsonData =>
              match sjson_SetKey jsonData (Base_Key (o_base o)) with
              | inl err => inl err
              | inr jsonData => inr (if withDSDIdentifier then (Pack8 JSON ++ jsonData)%list else jsonData)
              end
          end
      end
  end.

(** A handler gives the messages it sends. *)
Abbreviation replies := (st I Empty_set (list bytes)).

(** The error branch of a call. *)
Definition or_error {A : Type} (opID : bytes) (m : st I db_error A) (k : A → replies) : replies := λ s,
  match m s with
  | (s', Ret a) => k a s'
  | (s', Fail err) => (s', Ret [api_send opID dbMsgTypeError (string_bytes (db_text err)) []])
  | (s', Panic) => (s', Panic)
  end.

Definition handleGet (now : Z) (opID key : bytes) : replies :=
  or_error opID (Interface_Get accessor_of start_storage now (bytes_string key)) (λ r s,
    let h := sys_heap s.1 in
    (s, Ret [match api_MarshalRecord h r true with
             | inr data => api_send opID dbMsgTypeOk (string_bytes (Base_Key (base_of h r))) data
             | inl err => api_send opID dbMsgTypeError (string_bytes err) []
             end])).

Definition success (opID : bytes) : replies := st_ret [api_send opID dbMsgTypeSuccess [] []].

(** A new object on the heap. *)
Definition new_record (b : Base) (v : V) : st I db_error loc := λ s,
  let r := fresh (dom (sys_heap s.1)) in
  ((set_sys_heap (<[r := mkObject b v]> (sys_heap s.1)) s.1, s.2), Ret r).

Definition handlePut (now : Z) (opID key data : bytes) (create : bool) : replies :=
  match data with
  | format :: (_ :: _) as rest =>
      or_error opID
        (let$ r := new_record (SetKey (bytes_string key) (mkBase "" "" None)) (wrapped format rest) in
         if create then Interface_PutNew accessor_of start_storage now r else Interface_Put accessor_of start_storage now r)
        (λ _, success opID)
  | _ => st_ret [api_send opID dbMsgTypeError (string_bytes "bad request: malformed message") []]
  end.

(** One pair: the changed value, or the error that ends the loop. Without an
    accessor, setting a value is a call on a nil interface. *)
Definition insert_pair (acc : option Accessor) (v : V) (p : json_pair) : go string V :=
  if negb (jp_exists p) then Fail "values must be in a map"
  else match jp_string p with
       | None => Fail "keys must be strings"
       | Some key =>
           match jp_value p with
           | None => Fail "non-existent value"
           | Some x =>
               match acc with
               | None => Panic
               | Some _ => match set_value v key x with inl err => Fail err | inr v' => Ret v' end
               end
           end
       end.

(** The loop, on the object itself: what was set before an error stays. *)
Fixpoint insert_pairs (acc : option Accessor) (v : V) (l : list json_pair) : V * go string unit :=
  match l with
  | [] => (v, Ret tt)
  | p :: l' =>
      match insert_pair acc v p with
      | Ret v' => insert_pairs acc v' l'
      | Fail err => (v, Fail err)
      | Panic => (v, Panic)
      end
  end.

Definition handleInsert (now : Z) (opID key data : bytes) : replies :=
  or_error opID (Interface_Get accessor_of start_storage now (bytes_string key)) (λ r s,
    match sys_heap s.1 !! r with
    | None => (s, Panic)
    | Some o =>
        let '(v, result) := insert_pairs (accessor_of (o_value o)) (o_value o) (gjson_pairs data) in
        let s := (set_sys_heap (<[r := mkObject (o_base o) v]> (sys_heap s.1)) s.1, s.2) in
        match result with
        | Panic => (s, Panic)
        | Fail err => (s, Ret [api_send opID dbMsgTypeError (string_bytes err) []])
        | Ret _ =>
            if bool_decide (gjson_pairs data = []) then (s, Ret [api_send opID dbMsgTypeError (string_bytes "could not find any valid values") []])
            else or_error opID (Interface_Put accessor_of start_storage now r) (λ _, success opID) s
        end
    end).

Definition handleDelete (now : Z) (opID key : bytes) : replies :=
  or_error opID (Interface_Delete accessor_of start_storage now (bytes_string key)) (λ _, success opID).

(** *** Queries and subscriptions *)

(** An answer that ends the operation, or what it continues with. *)
Abbreviation start A := (st I Empty_set (list bytes + A)).

Definition or_end {A B : Type} (opID : bytes) (m : st I db_error A) (k : A → start B) : start B := λ s,
  match m s with
  | (s', Ret a) => k a s'
  | (s', Fail err) => (s', Ret (inl [api_send opID dbMsgTypeError (string_bytes (db_text err)) []]))
  | (s', Panic) => (s', Panic)
  end.

Definition parse_text (opID text : bytes) {A : Type} (k : Query R → start A) : start A :=
  match ParseQuery (bytes_string text) with
  | Ret q => k q
  | Fail err => st_ret (inl [api_send opID dbMsgTypeError (string_bytes (parse_error_text err)) []])
  | Panic => λ s, (s, Panic)
  end.

(** The records that the query of [processQuery] will send. *)
Definition handleQuery (now : Z) (opID text : bytes) : start (list loc) :=
  parse_text opID text (λ q, or_end opID (Interface_Query start_storage now q) (λ records, st_ret (inr records))).

(** The query object is new, so that its pointer is no other subscription's. *)
Definition registerSub {A : Type} (now : Z) (opID : bytes) (q : Query R) (k : loc → start A) : start A := λ s,
  let id := fresh (dom (sys_subs s.1)) in
  or_end opID (Subscribe start_storage now (mkQueryRef id q) id) k s.

Definition handleSub (now : Z) (opID text : bytes) : start loc :=
  parse_text opID text (λ q, registerSub now opID q (λ id, st_ret (inr id))).

(** The subscription first; it stays where the query fails. *)
Definition handleQsub (now : Z) (opID text : bytes) : start (loc * list loc) :=
  parse_text opID text (λ q, registerSub now opID q (λ id,
    or_end opID (Interface_Query start_storage now q) (λ records, st_ret (inr (id, records))))).

(** The message for a record of a query. *)
Definition query_record (opID : bytes) (h : heap V) (r : loc) : bytes :=
  match api_MarshalRecord h r true with
  | inl err => api_send opID dbMsgTypeWarning (string_bytes err) []
  | inr data => api_send opID dbMsgTypeOk (string_bytes (Base_Key (base_of h r))) data
  end.

(** The message for a record of a subscription. *)
Definition sub_record (opID : bytes) (h : heap V) (r : loc) : go Empty_set bytes :=
  match api_MarshalRecord h r true with
  | inl err => Ret (api_send opID dbMsgTypeWarning (string_bytes err) [])
  | inr data =>
      let key := string_bytes (Base_Key (base_of h r)) in
      match meta_of h r with
      | Some m =>
          Ret (if IsDeleted m then api_send opID dbMsgTypeDel key []
               else if Created m =? Modified m then api_send opID dbMsgTypeNew key data
               else api_send opID dbMsgTypeUpd key data)
      | None => Panic
      end
  end.

End Operations.

(** ** Streams *)

(** *** database/iterator *)

Record Iterator (A : Type) : Type := mkIterator {
  it_Next : list A;
  it_NextClosed : bool;
  it_DoneClosed : bool;
  it_err : option string;
}.
Arguments mkIterator {A}.
Arguments it_Next {A} _.
Arguments it_NextClosed {A} _.
Arguments it_DoneClosed {A} _.
Arguments it_err {A} _.

Definition iterator_capacity : nat := 10.

Definition Iterator_New {A : Type} : Iterator A := mkIterator [] false false None.

Definition Iterator_Cancel {A : Type} (it : Iterator A) : Iterator A := mkIterator (it_Next it) (it_NextClosed it) true (it_err it).

(** *** A query, a subscription or both for a client

    The storage sends records until it is done, is canceled or fails, and then
    finishes the iterator in three steps. The handler saves the iterator, loops,
    and removes it at the end; of a query with subscription, it then does the
    same with the feed of the subscription, which is filled from the start. A message
    of the handler waits for room in the queue of the connection. *)

(** What a storage does when its client has canceled: most of them (hashmap, bbolt,
    badger, runtime) stop and finish the iterator, fstree skips the record, that of
    the notifications returns without finishing, and that of the configuration does
    not look. *)
Inductive storage_kind : Type :=
| StopsOnDone
| SkipsOnDone
| LeavesOnDone
| IgnoresDone.

Inductive producer_pc (A : Type) : Type :=
| Producing (rest : list A)
| CloseNext (err : option string)
| CloseDone (err : option string)
| SetErr (err : option string)
| Produced
| Left.
Arguments Producing {A} rest.
Arguments CloseNext {A} err.
Arguments CloseDone {A} err.
Arguments SetErr {A} err.
Arguments Produced {A}.
Arguments Left {A}.

Inductive consumer_pc : Type :=
| SaveIterator
| NextRecord
| FeedEnded
| RemoveIterator (ok : bool)
| SaveSub
| NextUpdate
| RemoveSub
| RunEnded.

(** What is sent: the message of a record, and how the feed ended. *)
Inductive query_message (A : Type) : Type :=
| MsgRecord (r : A)
| MsgUpdate (r : A)
| MsgDone
| MsgError (text : string).
Arguments MsgRecord {A} r.
Arguments MsgUpdate {A} r.
Arguments MsgDone {A}.
Arguments MsgError {A} text.

(** The feed of a subscription; its channel is closed when the database no
    longer has the subscription. *)
Record ClientSub (A : Type) : Type := mkClientSub { cs_feed : list A; cs_closed : bool }.
Arguments mkClientSub {A}.
Arguments cs_feed {A} _.
Arguments cs_closed {A} _.

Definition feed_capacity : nat := 1000.

(** [run_out] is the message the handler is about to send. *)
Record QueryRun (A : Type) : Type := mkQueryRun {
  run_opID : bytes;
  run_kind : storage_kind;
  run_it : Iterator A;
  run_producer : producer_pc A;
  run_consumer : consumer_pc;
  run_sub : option (ClientSub A);
  run_out : option (query_message A);
  run_sent : list (query_message A);
}.
Arguments mkQueryRun {A}.
Arguments run_opID {A} _.
Arguments run_kind {A} _.
Arguments run_it {A} _.
Arguments run_producer {A} _.
Arguments run_consumer {A} _.
Arguments run_sub {A} _.
Arguments run_out {A} _.
Arguments run_sent {A} _.

Section Streams.
Context {A : Type}.

Definition set_it (it : Iterator A) (q : QueryRun A) : QueryRun A :=
  mkQueryRun (run_opID q) (run_kind q) it (run_producer q) (run_consumer q) (run_sub q) (run_out q) (run_sent q).

Definition set_producer (p : producer_pc A) (q : QueryRun A) : QueryRun A :=
  mkQueryRun (run_opID q) (run_kind q) (run_it q) p (run_consumer q) (run_sub q) (run_out q) (run_sent q).

Definition set_consumer (c : consumer_pc) (q : QueryRun A) : QueryRun A :=
  mkQueryRun (run_opID q) (run_kind q) (run_it q) (run_producer q) c (run_sub q) (run_out q) (run_sent q).

Definition set_sub (sub : option (ClientSub A)) (q : QueryRun A) : QueryRun A :=
  mkQueryRun (run_opID q) (run_kind q) (run_it q) (run_producer q) (run_consumer q) sub (run_out q) (run_sent q).

(** The call of send; it returns when [sendBytes] has. *)
Definition send_msg (m : query_message A) (q : QueryRun A) : QueryRun A :=
  mkQueryRun (run_opID q) (run_kind q) (run_it q) (run_producer q) (run_consumer q) (run_sub q) (Some m) (run_sent q).

Definition sendBytes (q : QueryRun A) : option (QueryRun A) :=
  m ← run_out q;
  Some (mkQueryRun (run_opID q) (run_kind q) (run_it q) (run_producer q) (run_consumer q) (run_sub q) None (run_sent q ++ [m])%list).

(** The three parts of [Finish]: the feed, the signal, the error. *)
Definition Finish_Next (it : Iterator A) : Iterator A := mkIterator (it_Next it) true (it_DoneClosed it) (it_err it).

Definition Finish_err (err : option string) (it : Iterator A) : Iterator A :=
  mkIterator (it_Next it) (it_NextClosed it) (it_DoneClosed it) err.

Definition Next_push (r : A) (it : Iterator A) : Iterator A :=
  mkIterator (it_Next it ++ [r])%list (it_NextClosed it) (it_DoneClosed it) (it_err it).

Definition Next_pop (l : list A) (it : Iterator A) : Iterator A :=
  mkIterator l (it_NextClosed it) (it_DoneClosed it) (it_err it).

(** The storage: the sending select, and Finish; [fail] is its timeout or an
    error of reading, which that of the notifications does not have. *)
Definition producer_step (fail : option string) (q : QueryRun A) : option (QueryRun A) :=
  let it := run_it q in
  match run_producer q with
  | Producing rest =>
      match fail, rest with
      | Some err, _ => match run_kind q with LeavesOnDone => None | _ => Some (set_producer (CloseNext (Some err)) q) end
      | None, [] => Some (set_producer (CloseNext None) q)
      | None, r :: rest' =>
          if (length (it_Next it) <? iterator_capacity)%nat then Some (set_producer (Producing rest') (set_it (Next_push r it) q)) else None
      end
  | CloseNext err => Some (set_producer (CloseDone err) (set_it (Finish_Next it) q))
  | CloseDone err => Some (set_producer (SetErr err) (set_it (Iterator_Cancel it) q))
  | SetErr err => Some (set_producer Produced (set_it (Finish_err err it) q))
  | Produced | Left => None
  end.

(** The storage sees that the iterator is done, where it sends a record. *)
Definition producer_cancelled (q : QueryRun A) : option (QueryRun A) :=
  match run_producer q with
  | Producing (r :: rest) =>
      if it_DoneClosed (run_it q) then
        match run_kind q with
        | StopsOnDone => Some (set_producer (CloseNext None) q)
        | SkipsOnDone => Some (set_producer (Producing rest) q)
        | LeavesOnDone => Some (set_producer Left q)
        | IgnoresDone => None
        end
      else None
  | _ => None
  end.

(** [notifySubscribers] for this subscription: a full feed is skipped. *)
Definition feed_update (r : A) (q : QueryRun A) : option (QueryRun A) :=
  sub ← run_sub q;
  if cs_closed sub then None
  else if (length (cs_feed sub) <? feed_capacity)%nat then Some (set_sub (Some (mkClientSub (cs_feed sub ++ [r])%list false)) q)
  else Some q.

(** The loops of processQuery and processSub, when no message is being sent. *)
Definition consumer_step (q : QueryRun A) : option (QueryRun A) :=
  let it := run_it q in
  match run_out q, run_consumer q with
  | Some _, _ => None
  | None, NextRecord =>
      match it_Next it with
      | r :: l => Some (send_msg (MsgRecord r) (set_it (Next_pop l it) q))
      | [] => if it_NextClosed it then Some (set_consumer FeedEnded q) else None
      end
  | None, FeedEnded =>
      match it_err it with
      | Some err => Some (set_consumer (RemoveIterator false) (send_msg (MsgError err) q))
      | None => Some (set_consumer (RemoveIterator true) (send_msg MsgDone q))
      end
  | None, NextUpdate =>
      sub ← run_sub q;
      match cs_feed sub with
      | r :: l => Some (send_msg (MsgUpdate r) (set_sub (Some (mkClientSub l (cs_closed sub))) q))
      | [] => if cs_closed sub then Some (set_consumer RemoveSub (send_msg MsgDone q)) else None
      end
  | None, _ => None
  end.

(** [Subscription.Cancel], where the database has the controller. *)
Definition cancel_sub (q : QueryRun A) : QueryRun A :=
  set_sub ((λ sub, mkClientSub (cs_feed sub) true) <$> run_sub q) q.

Definition cancel_run (q : QueryRun A) : QueryRun A := set_it (Iterator_Cancel (run_it q)) q.

(** The connection is shut down; a handler that sends does not see it. *)
Definition consumer_shutdown (q : QueryRun A) : option (QueryRun A) :=
  match run_out q, run_consumer q with
  | None, NextRecord => Some (set_consumer (RemoveIterator false) (cancel_run q))
  | None, NextUpdate => Some (set_consumer RemoveSub (cancel_sub q))
  | _, _ => None
  end.

(** *** A connection *)

(** The messages in the queue of the connection are counted; the writer takes them
    out as long as it runs. *)
Record DatabaseAPI : Type := mkDatabaseAPI {
  api_runs : list (QueryRun A);
  api_queries : gmap bytes nat;
  api_subs : gmap bytes nat;
  shuttingDown : bool;
  api_replies : list bytes;
  api_queued : nat;
  api_writing : bool;
}.

Definition sendQueue_capacity : nat := 100.

Definition set_runs (runs : list (QueryRun A)) (a : DatabaseAPI) : DatabaseAPI :=
  mkDatabaseAPI runs (api_queries a) (api_subs a) (shuttingDown a) (api_replies a) (api_queued a) (api_writing a).

Definition set_queries (queries : gmap bytes nat) (a : DatabaseAPI) : DatabaseAPI :=
  mkDatabaseAPI (api_runs a) queries (api_subs a) (shuttingDown a) (api_replies a) (api_queued a) (api_writing a).

Definition set_api_subs (subs : gmap bytes nat) (a : DatabaseAPI) : DatabaseAPI :=
  mkDatabaseAPI (api_runs a) (api_queries a) subs (shuttingDown a) (api_replies a) (api_queued a) (api_writing a).

Definition set_queued (n : nat) (a : DatabaseAPI) : DatabaseAPI :=
  mkDatabaseAPI (api_runs a) (api_queries a) (api_subs a) (shuttingDown a) (api_replies a) n (api_writing a).

(** Sending to the queue waits for room. *)
Definition enqueue (n : nat) (a : DatabaseAPI) : option DatabaseAPI :=
  if (api_queued a + n <=? sendQueue_capacity)%nat then Some (set_queued (api_queued a + n) a) else None.

Definition set_run (i : nat) (q : QueryRun A) (a : DatabaseAPI) : DatabaseAPI := set_runs (<[i := q]> (api_runs a)) a.

(** What handleQuery, handleSub and handleQsub start: the records of a query, a
    subscription. Without a query, there is no iterator. *)
Definition new_run (opID : bytes) (kind : storage_kind) (query : option (list A)) (sub : bool) : QueryRun A :=
  let feed := if sub then Some (mkClientSub [] false) else None in
  match query with
  | Some records => mkQueryRun opID kind Iterator_New (Producing records) SaveIterator feed None []
  | None => mkQueryRun opID kind (mkIterator [] true true None) Produced SaveSub feed None []
  end.

Definition start_run (opID : bytes) (kind : storage_kind) (query : option (list A)) (sub : bool) (a : DatabaseAPI) : DatabaseAPI :=
  set_runs (api_runs a ++ [new_run opID kind query sub])%list a.

(** A query with a subscription goes on with it. *)
Definition after_query (ok : bool) (q : QueryRun A) : consumer_pc :=
  match ok, run_sub q with true, Some _ => SaveSub | _, _ => RunEnded end.

(** The steps at the maps. *)
Definition map_step (i : nat) (a : DatabaseAPI) : option DatabaseAPI :=
  q ← api_runs a !! i;
  match run_out q, run_consumer q with
  | None, SaveIterator => Some (set_run i (set_consumer NextRecord q) (set_queries (<[run_opID q := i]> (api_queries a)) a))
  | None, RemoveIterator ok =>
      Some (set_run i (set_consumer (after_query ok q) q) (set_queries (delete (run_opID q) (api_queries a)) a))
  | None, SaveSub => Some (set_run i (set_consumer NextUpdate q) (set_api_subs (<[run_opID q := i]> (api_subs a)) a))
  | None, RemoveSub => Some (set_run i (set_consumer RunEnded q) (set_api_subs (delete (run_opID q) (api_subs a)) a))
  | _, _ => None
  end.

Definition cancelQuery (opID : bytes) (a : DatabaseAPI) : DatabaseAPI :=
  match api_queries a !! opID with
  | Some i => set_runs (alter cancel_run i (api_runs a)) a
  | None => a
  end.

Definition add_reply (msg : bytes) (a : DatabaseAPI) : DatabaseAPI :=
  mkDatabaseAPI (api_runs a) (api_queries a) (api_subs a) (shuttingDown a) (api_replies a ++ [msg])%list (api_queued a) (api_writing a).

(** [err] is what the database says about the controller. *)
Definition cancelSub (err : option string) (opID : bytes) (a : DatabaseAPI) : DatabaseAPI :=
  match api_subs a !! opID with
  | Some i =>
      match err with
      | None => set_runs (alter cancel_sub i (api_runs a)) a
      | Some err => add_reply (api_send opID dbMsgTypeError (string_bytes ("failed to cancel subscription: " ++ err)) []) a
      end
  | None => add_reply (api_send opID dbMsgTypeError (string_bytes "could not find subscription") []) a
  end.

Definition handleCancel (err : option string) (opID : bytes) (a : DatabaseAPI) : DatabaseAPI :=
  cancelSub err opID (cancelQuery opID a).

(** The handlers, the storages and the writer run at the same time; the canceling of
    a client is two steps. The writer ends with the connection. *)
Inductive stream_label : Type :=
| LProduce (i : nat) (fail : option string)
| LProduceCancelled (i : nat)
| LUpdate (i : nat) (r : A)
| LConsume (i : nat)
| LConsumeShutdown (i : nat)
| LMap (i : nat)
| LStart (opID : bytes) (kind : storage_kind) (query : option (list A)) (sub : bool)
| LCancelQuery (opID : bytes)
| LCancelSub (opID : bytes) (err : option string)
| LShutdown
| LSend (i : nat)
| LWrite
| LWriterEnd.

(** A step of one run. *)
Definition on_run (i : nat) (f : QueryRun A → option (QueryRun A)) (a : DatabaseAPI) : option DatabaseAPI :=
  q ← api_runs a !! i; q' ← f q; Some (set_run i q' a).

Definition stream_step (l : stream_label) (a : DatabaseAPI) : option DatabaseAPI :=
  match l with
  | LProduce i fail => on_run i (producer_step fail) a
  | LProduceCancelled i => on_run i producer_cancelled a
  | LUpdate i r => on_run i (feed_update r) a
  | LConsume i => on_run i consumer_step a
  | LConsumeShutdown i => if shuttingDown a then on_run i consumer_shutdown a else None
  | LMap i => map_step i a
  | LStart opID kind query sub => match query, sub with None, false => None | _, _ => Some (start_run opID kind query sub a) end
  | LCancelQuery opID => Some (cancelQuery opID a)
  | LCancelSub opID err => let a' := cancelSub err opID a in enqueue (length (api_replies a') - length (api_replies a)) a'
  | LShutdown => Some (mkDatabaseAPI (api_runs a) (api_queries a) (api_subs a) true (api_replies a) (api_queued a) (api_writing a))
  | LSend i => a' ← on_run i sendBytes a; enqueue 1 a'
  | LWrite => if api_writing a && (0 <? api_queued a)%nat then Some (set_queued (api_queued a - 1) a) else None
  | LWriterEnd => Some (mkDatabaseAPI (api_runs a) (api_queries a) (api_subs a) true (api_replies a) (api_queued a) false)
  end.

Fixpoint stream_run (ls : list stream_label) (a : DatabaseAPI) : option DatabaseAPI :=
  match ls with
  | [] => Some a
  | l :: ls => a' ← stream_step l a; stream_run ls a'
  end.

Definition CreateDatabaseAPI : DatabaseAPI := mkDatabaseAPI [] ∅ ∅ false [] 0 true.

End Streams.

Arguments DatabaseAPI A : clear implicits.
Arguments stream_label A : clear implicits.
