(* ===== verification/ApiDatabaseProps.v ===== *)
(** * Properties of the database over messages

    The commands and replies survive encoding and splitting; a client without
    permission never gets a record; the streams of queries and subscriptions keep
    to the protocol, send every record once and in order, and come to an end. *)

From Stdlib Require Import ZArith Lia Ascii String.
From stdpp Require Import gmap list strings.
From S2P Require Import Prelude GoStrings Varint Dsd Container Record Query QueryParser Storage Controller Interface ApiDatabase.
Local Open Scope string_scope.
Local Open Scope Z_scope.

(** ** Messages: the other direction *)

(** The documented form of the commands. *)
Definition bar (l : list bytes) : bytes :=
  match l with
  | [] => []
  | x :: l => (x ++ concat ((λ y, dbAPISeperator :: y) <$> l))%list
  end.

Definition encode_command (c : db_command) : bytes :=
  match c with
  | CmdCancel opID => bar [opID; string_bytes "cancel"]
  | CmdGet opID key => bar [opID; string_bytes "get"; key]
  | CmdQuery opID text => bar [opID; string_bytes "query"; text]
  | CmdSub opID text => bar [opID; string_bytes "sub"; text]
  | CmdQsub opID text => bar [opID; string_bytes "qsub"; text]
  | CmdPut opID key data true => bar [opID; string_bytes "create"; key; data]
  | CmdPut opID key data false => bar [opID; string_bytes "update"; key; data]
  | CmdInsert opID key data => bar [opID; string_bytes "insert"; key; data]
  | CmdDelete opID key => bar [opID; string_bytes "delete"; key]
  | BadMessage => []
  | UnknownMethod opID => bar [opID; []; []]
  end.

Definition no_bar (l : bytes) : bool := forallb (λ b, negb (b =? dbAPISeperator)) l.

(** The operation's name, and the key before data, have no bar. *)
Definition command_ok (c : db_command) : bool :=
  match c with
  | CmdCancel opID | CmdGet opID _ | CmdQuery opID _ | CmdSub opID _ | CmdQsub opID _ | CmdDelete opID _ | UnknownMethod opID => no_bar opID
  | CmdPut opID key _ _ | CmdInsert opID key _ => no_bar opID && no_bar key
  | BadMessage => true
  end.

(** ** Streams: what a client is told *)

Section Answers.
Context {A : Type}.

(** The answer to a query, or to a subscription: the records, then the end. *)
Fixpoint answers_sub (l : list (query_message A)) : bool :=
  match l with
  | [] => true
  | MsgUpdate _ :: l => answers_sub l
  | MsgDone :: l => match l with [] => true | _ => false end
  | _ => false
  end.

Fixpoint answers_query (sub : bool) (l : list (query_message A)) : bool :=
  match l with
  | [] => true
  | MsgRecord _ :: l => answers_query sub l
  | MsgDone :: l => if sub then answers_sub l else match l with [] => true | _ => false end
  | MsgError _ :: l => match l with [] => true | _ => false end
  | MsgUpdate _ :: _ => false
  end.

Definition answers (query : option (list A)) (sub : bool) (l : list (query_message A)) : bool :=
  match query with Some _ => answers_query sub l | None => answers_sub l end.

Definition records_of : list (query_message A) → list A := omap (λ m, match m with MsgRecord r => Some r | _ => None end).

Definition updates_of : list (query_message A) → list A := omap (λ m, match m with MsgUpdate r => Some r | _ => None end).

Definition run_records (q : QueryRun A) : list A := records_of (run_sent q).

Definition run_updates (q : QueryRun A) : list A := updates_of (run_sent q).

(** With the message that waits for room. *)
Definition said (q : QueryRun A) : list (query_message A) := run_sent q ++ option_list (run_out q).

(** What the labels started, in order. *)
Definition started (ls : list (stream_label A)) : list (bytes * option (list A) * bool) :=
  omap (λ l, match l with LStart opID _ query sub => Some (opID, query, sub) | _ => None end) ls.

(** A failure or a canceling of the storage of run [i]. *)
Definition disturbs (i : nat) (l : stream_label A) : bool :=
  match l with
  | LProduce j fail => if decide (j = i) then bool_decide (is_Some fail) else false
  | LProduceCancelled j => if decide (j = i) then true else false
  | _ => false
  end.

Definition undisturbed (ls : list (stream_label A)) (i : nat) : bool := forallb (λ l, negb (disturbs i l)) ls.

(** The updates of the database for the subscription of run [i]. *)
Definition update_of (i : nat) (l : stream_label A) : option A :=
  match l with LUpdate j r => if decide (j = i) then Some r else None | _ => None end.

(** The steps of run [i] itself, none of them a failure, and of the writer. *)
Definition own_step (i : nat) (l : stream_label A) : bool :=
  match l with
  | LProduce j None | LProduceCancelled j | LConsume j | LMap j | LSend j => bool_decide (i = j)
  | LWrite => true
  | _ => false
  end.

(** The storage ends when its client has canceled. *)
Definition ends_on_done (k : storage_kind) : bool := match k with StopsOnDone | SkipsOnDone => true | _ => false end.

(** The query of the run is over. *)
Definition query_over (q : QueryRun A) : bool :=
  match run_out q, run_producer q, run_consumer q with
  | None, Produced, (SaveSub | NextUpdate | RemoveSub | RunEnded) => true
  | _, _, _ => false
  end.

(** The iterator of the run is in the map. *)
Definition iterator_saved (q : QueryRun A) : bool :=
  match run_consumer q with NextRecord | FeedEnded | RemoveIterator _ => true | _ => false end.

End Answers.

(** ** Lemmas: messages *)

Lemma no_bar_app (l1 l2 : bytes) : no_bar (l1 ++ l2) = no_bar l1 && no_bar l2.
Proof. unfold no_bar. by rewrite forallb_app. Qed.

Lemma bytes_Cut_none (l : bytes) : no_bar l = true → bytes_Cut l = None.
Proof.
  induction l as [|b l IH]; [done|]. unfold no_bar in *. simpl. intros [H1 H2]%andb_prop.
  apply negb_true_iff in H1. by rewrite H1, IH.
Qed.

Lemma bytes_Cut_bar (l r : bytes) : no_bar l = true → bytes_Cut (l ++ dbAPISeperator :: r) = Some (l, r).
Proof.
  induction l as [|b l IH]; [done|]. unfold no_bar in *. simpl. intros [H1 H2]%andb_prop.
  apply negb_true_iff in H1. by rewrite H1, IH.
Qed.

Lemma bytes_SplitN_bar (n : nat) (l r : bytes) :
  no_bar l = true → bytes_SplitN (S n) (l ++ dbAPISeperator :: r) = l :: bytes_SplitN n r.
Proof. intros H. simpl. by rewrite bytes_Cut_bar. Qed.

Lemma bytes_SplitN_none (n : nat) (l : bytes) : no_bar l = true → bytes_SplitN n l = [l].
Proof. destruct n; [done|]. intros H. simpl. by rewrite bytes_Cut_none. Qed.

Lemma bytes_SplitN_fields (l : list bytes) (x : bytes) :
  Forall (λ y, no_bar y = true) l → bytes_SplitN (length l) (bar (l ++ [x])) = (l ++ [x])%list.
Proof.
  induction 1 as [|y l Hy Hl IH]; [simpl; by rewrite app_nil_r|].
  assert (bar ((y :: l) ++ [x]) = (y ++ dbAPISeperator :: bar (l ++ [x]))%list) as ->.
  { destruct l; simpl; by rewrite ?app_nil_r. }
  change (length (y :: l)) with (S (length l)). by rewrite bytes_SplitN_bar, IH.
Qed.

Lemma CompileData_many (c : Container) :
  length (compartments c) ≠ 1%nat → (CompileData c).2 = Ret (concat (drop (offset c) (compartments c))).
Proof. intros H. unfold CompileData. by rewrite bool_decide_true. Qed.

(** A message is its fields, separated by bars. *)
Lemma api_send_bar (opID : bytes) (msgType : string) (msgOrKey data : bytes) :
  api_send opID msgType msgOrKey data =
  bar ([opID; string_bytes msgType] ++ (if bool_decide (msgOrKey = []) then [] else [msgOrKey]) ++
    (if bool_decide (data = []) then [] else [data]))%list.
Proof.
  unfold api_send. destruct (bool_decide (msgOrKey = [])), (bool_decide (data = [])); rewrite CompileData_many by done; simpl; by rewrite ?app_nil_r.
Qed.

Lemma reply_fields (opID : bytes) (msgType : string) (msgOrKey data : bytes) :
  no_bar opID = true → no_bar (string_bytes msgType) = true → no_bar msgOrKey = true → msgOrKey ≠ [] → data ≠ [] →
  bytes_SplitN 3 (api_send opID msgType msgOrKey data) = [opID; string_bytes msgType; msgOrKey; data].
Proof.
  intros H1 H2 H3 H4 H5. rewrite api_send_bar, !bool_decide_false by done.
  apply (bytes_SplitN_fields [opID; string_bytes msgType; msgOrKey] data). by repeat constructor.
Qed.

(** ** Properties of the protocol *)

(** C23: Parsing a message of the protocol: every command that is written in its
    documented form is recognised with its operation, key and data as they were,
    whatever bytes the data, the query text or the key at the end have. *)
Theorem Handle_roundtrip (c : db_command) : command_ok c = true → Handle (encode_command c) = c.
Proof.
  assert (∀ opID method rest, no_bar opID = true → no_bar method = true →
    bytes_SplitN 2 (bar [opID; method; rest]) = [opID; method; rest]) as H2.
  { intros opID method rest H1 H2. apply (bytes_SplitN_fields [opID; method] rest). by repeat constructor. }
  assert (∀ opID method key data, bar [opID; method; key; data] = bar [opID; method; bar [key; data]]) as H3.
  { intros. cbn. by rewrite !app_nil_r. }
  assert (∀ opID key data f, no_bar key = true → Handle_payload opID (bar [key; data]) f = f key data) as H4.
  { intros opID key data f H. unfold Handle_payload. assert (H5 := bytes_SplitN_fields [key] data ltac:(by repeat constructor)). cbn [length app] in H5. by rewrite H5. }
  unfold Handle, command_ok, encode_command. destruct c as [o|o k|o t|o t|o t|o k d [|]|o k d|o k| |o]; intros Hc; try done;
    try (apply andb_prop in Hc as [Hc Hk]; rewrite H3);
    rewrite ?H2 by done;
    repeat match goal with |- context [is_text (string_bytes ?a) ?b] =>
      let v := eval vm_compute in (is_text (string_bytes a) b) in change (is_text (string_bytes a) b) with v; cbv iota end;
    try reflexivity; try (by rewrite H4).
  assert (bytes_SplitN 2 (bar [o; string_bytes "cancel"]) = [o; string_bytes "cancel"]) as ->; [|reflexivity].
  by apply (bytes_SplitN_bar 1 o (string_bytes "cancel" ++ [])).
Qed.

Lemma Handle_roundtrip_witness :
  let c := CmdPut (string_bytes "7") (string_bytes "test:a") (string_bytes "Jx|y") true in
  command_ok c = true ∧ Handle (encode_command c) = c.
Proof. split; [reflexivity|apply Handle_roundtrip; reflexivity]. Defined.

(** ** Permissions *)

Section Gets.
Context {V R S C : Type} `{!QueryLib R, !StorageInterface V R S, !Cache C} {JL : JsonLib}.
Context (accessor_of : V → option Accessor) (start_storage : string → string → go db_error S).
Context (marshal_json : V → string + bytes) (db_text : db_error → string).

(** The messages of a get, by the outcome in the database. *)
Lemma handleGet_cases (now : Z) (opID key : bytes) (s s' : System V R S * Interface C) (msgs : list bytes) :
  handleGet accessor_of start_storage marshal_json db_text now opID key s = (s', Ret msgs) →
  (∃ r, Interface_Get accessor_of start_storage now (bytes_string key) s = (s', Ret r) ∧
     msgs = [match api_MarshalRecord marshal_json (sys_heap s'.1) r true with
             | inr data => api_send opID dbMsgTypeOk (string_bytes (Base_Key (base_of (sys_heap s'.1) r))) data
             | inl err => api_send opID dbMsgTypeError (string_bytes err) []
             end]) ∨
  (∃ err, Interface_Get accessor_of start_storage now (bytes_string key) s = (s', Fail err) ∧
     msgs = [api_send opID dbMsgTypeError (string_bytes (db_text err)) []]).
Proof.
  unfold handleGet, or_error. destruct (Interface_Get _ _ _ _ s) as [s1 [r|err|]] eqn:E; intros Heq; simplify_eq; eauto.
Qed.

End Gets.

Lemma api_send_type (opID : bytes) (t1 t2 : string) (k1 d1 k2 d2 : bytes) (b1 b2 : Z) (l1 l2 : bytes) :
  string_bytes t1 = b1 :: l1 → string_bytes t2 = b2 :: l2 → b1 ≠ b2 → api_send opID t1 k1 d1 ≠ api_send opID t2 k2 d2.
Proof.
  intros H1 H2 Hne H. rewrite !api_send_bar in H. simpl in H. apply app_inv_head in H.
  injection H as H. rewrite H1, H2 in H. by injection H.
Qed.

Lemma error_is_not_ok (opID key data text : bytes) : api_send opID dbMsgTypeOk key data ≠ api_send opID dbMsgTypeError text [].
Proof. by eapply api_send_type. Qed.

(** Access control of the message interface: an [ok] answer to a [get] is the
    marshalled form of a record of the database that is neither secret nor a
    crown jewel, since clients have an interface without permissions. *)
Theorem handleGet_permitted {V R S C : Type} `{!QueryLib R, !StorageInterface V R S, !Cache C} {JL : JsonLib}
    (accessor_of : V → option Accessor) (start_storage : string → string → go db_error S)
    (marshal_json : V → string + bytes) (db_text : db_error → string)
    (now : Z) (opID key : bytes) (sys : System V R S) (s' : System V R S * Interface C) (msgs : list bytes) (key' data : bytes) :
  handleGet accessor_of start_storage marshal_json db_text now opID key (sys, NewInterface None) = (s', Ret msgs) →
  api_send opID dbMsgTypeOk key' data ∈ msgs →
  ∃ r m json, meta_of (sys_heap s'.1) r = Some m ∧ secret m = false ∧ cronjewel m = false ∧
    api_MarshalRecord marshal_json (sys_heap s'.1) r true = inr json ∧
    api_send opID dbMsgTypeOk key' data = api_send opID dbMsgTypeOk (string_bytes (Base_Key (base_of (sys_heap s'.1) r))) json.
Proof.
  intros Hget Hin. apply handleGet_cases in Hget as [(r & Hr & ->)|(err & _ & ->)]; apply list_elem_of_singleton in Hin;
    [|by apply error_is_not_ok in Hin].
  unfold Interface_Get in Hr. apply st_bind_inv in Hr as (s1 & [r1 db] & H1 & Hr). unfold st_ret in Hr. simplify_eq.
  apply getRecord_permitted in H1; [|done]. unfold hasAccessPermission, CheckPermission in H1. simpl in H1.
  destruct (meta_of (sys_heap s'.1) r) as [m|] eqn:Hm; [|done].
  destruct (api_MarshalRecord marshal_json (sys_heap s'.1) r true) as [err|json] eqn:Hj; [by apply error_is_not_ok in Hin|].
  exists r, m, json. destruct (cronjewel m), (secret m); by repeat split.
Qed.

#[local] Instance props_storage : StorageInterface unit string HashMap := HashMap_storage no_accessor.

(** A JSON library that prints nothing, for the witness. *)
Definition plain_json : JsonLib := {|
  gjson_pairs _ := [];
  sjson_SetMeta data _ := inr data;
  sjson_SetKey data key := inr (data ++ string_bytes key)%list;
|}.

Lemma handleGet_permitted_witness :
  let s := (example_system zeroMeta, NewInterface (C := gmap string loc) None) in
  let opID := string_bytes "1" in
  let h := sys_heap (example_system zeroMeta) in
  ∃ r m json, meta_of h r = Some m ∧ secret m = false ∧ cronjewel m = false ∧
    @api_MarshalRecord unit plain_json (λ _, inr (string_bytes "J{}")) h r true = inr json ∧
    api_send opID dbMsgTypeOk (string_bytes "test:a") (string_bytes "J{}test:a") =
      api_send opID dbMsgTypeOk (string_bytes (Base_Key (base_of h r))) json.
Proof.
  apply (handleGet_permitted (JL := plain_json) no_accessor example_start (λ _, inr (string_bytes "J{}")) (λ _, ""%string) 5 (string_bytes "1")
    (string_bytes "test:a") (example_system zeroMeta) (example_system zeroMeta, NewInterface (C := gmap string loc) None)
    [api_send (string_bytes "1") dbMsgTypeOk (string_bytes "test:a") (string_bytes "J{}test:a")]).
  - vm_compute. reflexivity.
  - apply list_elem_of_singleton. reflexivity.
Defined.

(** ** Lemmas: streams *)

Section StreamLemmas.
Context {A : Type}.
Implicit Types (q : QueryRun A) (a : DatabaseAPI A) (ls : list (stream_label A)).

(** How one run changes, with whether its storage is disturbed and with the
    update that its subscription is offered. *)
Inductive run_move : bool → option A → QueryRun A → QueryRun A → Prop :=
| MoveNone q : run_move false None q q
| MoveProduce fail q q' : producer_step fail q = Some q' → run_move (bool_decide (is_Some fail)) None q q'
| MoveCancelled q q' : producer_cancelled q = Some q' → run_move true None q q'
| MoveUpdate r q q' : feed_update r q = Some q' → run_move false (Some r) q q'
| MoveConsume q q' : consumer_step q = Some q' → run_move false None q q'
| MoveShutdown q q' : consumer_shutdown q = Some q' → run_move false None q q'
| MoveSend q q' : sendBytes q = Some q' → run_move false None q q'
| MoveSave q : run_out q = None → run_consumer q = SaveIterator → run_move false None q (set_consumer NextRecord q)
| MoveRemove ok q : run_out q = None → run_consumer q = RemoveIterator ok → run_move false None q (set_consumer (after_query ok q) q)
| MoveSaveSub q : run_out q = None → run_consumer q = SaveSub → run_move false None q (set_consumer NextUpdate q)
| MoveRemoveSub q : run_out q = None → run_consumer q = RemoveSub → run_move false None q (set_consumer RunEnded q)
| MoveCancelQuery q : run_move false None q (cancel_run q)
| MoveCancelSub q : run_move false None q (cancel_sub q).

Lemma on_run_inv i f a a' :
  on_run i f a = Some a' → ∃ q q', api_runs a !! i = Some q ∧ f q = Some q' ∧ a' = set_run i q' a.
Proof.
  unfold on_run. intros H. apply bind_Some in H as (q & H1 & H). apply bind_Some in H as (q' & H2 & H).
  injection H as <-. eauto.
Qed.

Lemma enqueue_inv n a a' : enqueue n a = Some a' → a' = set_queued (api_queued a + n) a.
Proof. unfold enqueue. destruct (_ <=? _)%nat; [by intros [= <-]|done]. Qed.

Lemma insert_lookup_runs i j q q' (l : list (QueryRun A)) :
  l !! i = Some q → <[i := q']> l !! j = if decide (i = j) then Some q' else l !! j.
Proof.
  intros H. destruct (decide (i = j)) as [<-|Hne].
  - apply list_lookup_insert_eq. by eapply lookup_lt_Some.
  - by apply list_lookup_insert_ne.
Qed.

(** What a step does to the runs: one of them changes, or one is added. *)
Lemma step_run l a a' j q' :
  stream_step l a = Some a' → api_runs a' !! j = Some q' →
  (∃ q, api_runs a !! j = Some q ∧ run_move (disturbs j l) (update_of j l) q q') ∨
  (∃ opID kind query sub, l = LStart opID kind query sub ∧ j = length (api_runs a) ∧ q' = new_run opID kind query sub).
Proof.
  assert (∀ i f d u, (∀ q q1, f q = Some q1 → run_move d u q q1) →
    on_run i f a = Some a' → api_runs a' !! j = Some q' →
    ∃ q, api_runs a !! j = Some q ∧ run_move (if decide (i = j) then d else false) (if decide (i = j) then u else None) q q') as Hon.
  { intros i f d u Hf H Hj. apply on_run_inv in H as (q & q1 & Hq & Hq1 & ->). simpl in Hj.
    rewrite (insert_lookup_runs _ _ _ _ _ Hq) in Hj. apply Hf in Hq1.
    destruct (decide (i = j)) as [<-|Hne]; simplify_eq; eexists; (split; [done|]); [done|constructor]. }
  assert (∀ f i, api_runs a' = alter f i (api_runs a) → (∀ q, run_move false None q (f q)) → api_runs a' !! j = Some q' →
    ∃ q, api_runs a !! j = Some q ∧ run_move false None q q') as Halter.
  { intros f i -> Hf Hj. destruct (decide (i = j)) as [<-|Hne].
    - rewrite list_lookup_alter_eq in Hj. apply fmap_Some in Hj as (q & Hq & ->). eauto.
    - rewrite list_lookup_alter_ne in Hj by done. eexists; split; [done|constructor]. }
  assert (api_runs a' = api_runs a → api_runs a' !! j = Some q' → ∃ q, api_runs a !! j = Some q ∧ run_move false None q q') as Hsame.
  { intros -> Hj. eexists; split; [done|constructor]. }
  intros Hstep Hj. destruct l as [i fail|i|i r|i|i|i|opID kind query sub|opID|opID err| |i| |]; simpl in Hstep; simpl disturbs; simpl update_of.
  - left. eapply (Hon i _ _ None) in Hstep; [|intros q q1 Hq1; by eapply MoveProduce|done]. by destruct (decide (i = j)).
  - left. eapply (Hon i _ _ None) in Hstep; [|intros q q1 Hq1; by eapply MoveCancelled|done]. by destruct (decide (i = j)).
  - left. eapply (Hon i _ false) in Hstep; [|intros q q1 Hq1; by eapply MoveUpdate|done]. by destruct (decide (i = j)).
  - left. eapply (Hon i _ false None) in Hstep; [|intros q q1 Hq1; by eapply MoveConsume|done]. by destruct (decide (i = j)).
  - left. destruct (shuttingDown a); [|done].
    eapply (Hon i _ false None) in Hstep; [|intros q q1 Hq1; by eapply MoveShutdown|done]. by destruct (decide (i = j)).
  - left. unfold map_step in Hstep. apply bind_Some in Hstep as (q & Hq & Hstep).
    assert (∃ q1, api_runs a' = <[i := q1]> (api_runs a) ∧ run_move false None q q1) as (q1 & Ha & Hm).
    { destruct (run_out q) eqn:Ho; [done|]. destruct (run_consumer q) eqn:Hc; simplify_eq; eexists; (split; [done|]); by constructor. }
    rewrite Ha, (insert_lookup_runs _ _ _ _ _ Hq) in Hj. destruct (decide (i = j)) as [<-|Hne]; simplify_eq; eexists; split; [done|done|done|constructor].
  - assert (a' = start_run opID kind query sub a) as -> by (destruct query, sub; by simplify_eq). simpl in Hj. apply lookup_app_Some in Hj as [Hj|[Hlen Hj]].
    + left. eexists; split; [done|constructor].
    + right. apply list_lookup_singleton_Some in Hj as [Hj <-]. exists opID, kind, query, sub. split; [done|]. split; [lia|done].
  - left. injection Hstep as <-. unfold cancelQuery in *. destruct (api_queries a !! opID) as [i|]; [|by apply (Hsame eq_refl)].
    by apply (Halter cancel_run i); [|apply MoveCancelQuery|].
  - left. apply enqueue_inv in Hstep as ->. unfold cancelSub in *. destruct (api_subs a !! opID) as [i|]; [|by apply (Hsame eq_refl)].
    destruct err; [by apply (Hsame eq_refl)|]. by apply (Halter cancel_sub i); [|apply MoveCancelSub|].
  - left. injection Hstep as <-. by apply (Hsame eq_refl).
  - left. apply bind_Some in Hstep as (a1 & Hstep & ->%enqueue_inv).
    apply on_run_inv in Hstep as (q & q1 & Hq & Hq1 & ->). simpl in Hj. rewrite (insert_lookup_runs _ _ _ _ _ Hq) in Hj.
    destruct (decide (i = j)) as [<-|Hne]; simplify_eq; eexists; (split; [done|]); [by apply MoveSend|constructor].
  - left. destruct (_ && _); [|done]. injection Hstep as <-. by apply (Hsame eq_refl).
  - left. injection Hstep as <-. by apply (Hsame eq_refl).
Qed.

(** The storage's steps do not touch the handler. *)
Definition same_handler (q q' : QueryRun A) : Prop :=
  run_consumer q' = run_consumer q ∧ said q' = said q ∧ run_sub q' = run_sub q ∧ run_out q' = run_out q.

(** Sending what is said changes nothing else. *)
Lemma sendBytes_said q q' : sendBytes q = Some q' →
  said q' = said q ∧ run_consumer q' = run_consumer q ∧ run_sub q' = run_sub q ∧ run_it q' = run_it q ∧ run_producer q' = run_producer q ∧ run_opID q' = run_opID q.
Proof. unfold sendBytes, said. destruct (run_out q) as [m|]; [|done]. intros [= <-]. simpl. by rewrite app_nil_r. Qed.

(** A handler that takes a step has nothing to send. *)
Lemma said_idle q : run_out q = None → said q = run_sent q.
Proof. unfold said. intros ->. apply app_nil_r. Qed.

Lemma consumer_step_idle q q' : consumer_step q = Some q' → run_out q = None.
Proof. unfold consumer_step. by destruct (run_out q). Qed.

Lemma producer_step_handler fail q q' : producer_step fail q = Some q' → same_handler q q'.
Proof. unfold producer_step. intros H. by repeat case_match; simplify_eq. Qed.

Lemma producer_cancelled_handler q q' : producer_cancelled q = Some q' → same_handler q q'.
Proof. unfold producer_cancelled. intros H. by repeat case_match; simplify_eq. Qed.

(** *** The messages of a run *)

Lemma answers_query_records sub (rs : list A) l : answers_query sub ((MsgRecord <$> rs) ++ l) = answers_query sub l.
Proof. by induction rs. Qed.

Lemma answers_sub_updates (us : list A) l : answers_sub ((MsgUpdate <$> us) ++ l) = answers_sub l.
Proof. by induction us. Qed.

(** The query's part of what was sent, with [rest] after it. *)
Definition after_head (query : option (list A)) (rest : list (query_message A)) (l : list (query_message A)) : Prop :=
  match query with
  | Some _ => ∃ rs, l = ((MsgRecord <$> rs) ++ MsgDone :: rest)%list
  | None => l = rest
  end.

Definition answer_inv (query : option (list A)) (sub : bool) (q : QueryRun A) : Prop :=
  bool_decide (is_Some (run_sub q)) = sub ∧
  match run_consumer q with
  | SaveIterator => is_Some query ∧ said q = []
  | NextRecord | FeedEnded => is_Some query ∧ ∃ rs, said q = MsgRecord <$> rs
  | RemoveIterator true => is_Some query ∧ after_head query [] (said q)
  | RemoveIterator false | RemoveSub | RunEnded => answers query sub (said q) = true
  | SaveSub => sub = true ∧ after_head query [] (said q)
  | NextUpdate => sub = true ∧ ∃ us, after_head query (MsgUpdate <$> us) (said q)
  end.

Lemma after_head_answers query sub rest l :
  (is_Some query ∧ sub = false → rest = []) → answers_sub rest = true → after_head query rest l → answers query sub l = true.
Proof.
  destruct query as [rs|]; simpl; [|by intros _ H ->]. intros Hr H [rs' ->]. rewrite answers_query_records. simpl.
  destruct sub; [done|]. by rewrite Hr.
Qed.

Lemma answer_inv_answers query sub q : answer_inv query sub q → answers query sub (said q) = true.
Proof.
  intros [_ H]. destruct (run_consumer q) as [| | |[|]| | | |]; try done.
  - by destruct H as [[rs ->] ->].
  - destruct H as [[rs ->] [rs' ->]]. simpl. rewrite <- (app_nil_r (MsgRecord <$> rs')). by rewrite answers_query_records.
  - destruct H as [[rs ->] [rs' ->]]. simpl. rewrite <- (app_nil_r (MsgRecord <$> rs')). by rewrite answers_query_records.
  - destruct H as [_ H]. by eapply after_head_answers in H.
  - destruct H as [_ H]. by eapply after_head_answers in H.
  - destruct H as [-> [us H]]. eapply after_head_answers in H; [done|by intros [_ ?]|].
    rewrite <- (app_nil_r (MsgUpdate <$> us)). by rewrite answers_sub_updates.
Qed.

Lemma answer_inv_consume query sub q q' : consumer_step q = Some q' → answer_inv query sub q → answer_inv query sub q'.
Proof.
  intros Hf [Hs H]. pose proof (consumer_step_idle _ _ Hf) as Ho. unfold consumer_step in Hf. rewrite Ho in Hf.
  rewrite (said_idle q Ho) in H. destruct (run_consumer q) eqn:Hc; try discriminate Hf; unfold answer_inv, said.
  - destruct H as [Hsome [rs H]]. destruct (it_Next (run_it q)) as [|r l].
    + destruct (it_NextClosed (run_it q)); [injection Hf as <-|discriminate Hf]. simpl. rewrite Ho, app_nil_r. split; [done|]. split; [done|by exists rs].
    + injection Hf as <-. simpl. rewrite Hc. split; [done|]. split; [done|]. exists (rs ++ [r])%list. by rewrite H, fmap_app.
  - destruct H as [[rs0 ->] [rs H]]. destruct (it_err (run_it q)); injection Hf as <-; simpl; rewrite H.
    + split; [done|]. by rewrite answers_query_records.
    + split; [done|]. split; [done|by exists rs].
  - destruct H as [Hsub [us H]]. apply bind_Some in Hf as (cs & Hcs & Hf). destruct (cs_feed cs) as [|r l].
    + destruct (cs_closed cs); [injection Hf as <-|discriminate Hf]. simpl. split; [done|].
      destruct query as [rs|]; simpl in *; [destruct H as [rs' ->]; rewrite <- app_assoc, answers_query_records; simpl; rewrite Hsub|rewrite H];
        by rewrite answers_sub_updates.
    + injection Hf as <-. simpl. rewrite Hc. rewrite Hcs in Hs. split; [done|]. split; [done|]. exists (us ++ [r])%list. rewrite fmap_app.
      destruct query as [rs|]; simpl in *; [destruct H as [rs' ->]; exists rs'; by rewrite <- app_assoc|by rewrite H].
Qed.

Lemma answer_inv_move query sub d u q q' : run_move d u q q' → answer_inv query sub q → answer_inv query sub q'.
Proof.
  intros Hm Hq. pose proof (answer_inv_answers _ _ _ Hq) as Hans. destruct Hq as [Hs H].
  destruct Hm as [q|fail q q' Hf|q q' Hf|r q q' Hf|q q' Hf|q q' Hf|q q' Hf|q Ho Hc|ok q Ho Hc|q Ho Hc|q Ho Hc|q|q]; unfold answer_inv; simpl.
  - done.
  - apply producer_step_handler in Hf as (-> & -> & -> & _). by split.
  - apply producer_cancelled_handler in Hf as (-> & -> & -> & _). by split.
  - unfold feed_update in Hf. apply bind_Some in Hf as (cs & Hcs & Hf). destruct (cs_closed cs); [done|].
    destruct (_ <? _)%nat; injection Hf as <-; simpl; [|by split]. rewrite Hcs in Hs. by split.
  - by eapply answer_inv_consume.
  - unfold consumer_shutdown in Hf. destruct (run_out q); [done|]. destruct (run_consumer q); try discriminate Hf; injection Hf as <-; simpl; [by split|]. by destruct (run_sub q).
  - apply sendBytes_said in Hf as (-> & -> & -> & _). by split.
  - rewrite Hc in H. destruct H as [? H]. split; [done|]. split; [done|]. exists []. exact H.
  - rewrite Hc in H. split; [done|]. unfold after_query. destruct ok; [|done]. destruct (run_sub q); [|done]. by destruct H.
  - rewrite Hc in H. destruct H as [? H]. split; [done|]. split; [done|]. exists []. exact H.
  - by split.
  - by split.
  - by destruct (run_sub q).
Qed.

(** *** The records of a run *)

(** The handler has seen the end of the records. *)
Definition past_feed (q : QueryRun A) : bool :=
  match run_consumer q with FeedEnded | RemoveIterator true | SaveSub | NextUpdate | RemoveSub => true | _ => false end.

Definition producer_err (q : QueryRun A) : option string :=
  match run_producer q with CloseNext err | CloseDone err | SetErr err => err | _ => None end.

(** What the storage still has to send. *)
Definition pending_records (q : QueryRun A) : list A := match run_producer q with Producing rest => rest | _ => [] end.

(** Records are sent once, in order, and without a gap unless the storage skips. *)
Definition record_inv (clean : bool) (records : list A) (q : QueryRun A) : Prop :=
  it_NextClosed (run_it q) = match run_producer q with Producing _ | CloseNext _ | Left => false | _ => true end ∧
  (records_of (said q) ++ it_Next (run_it q) ++ pending_records q)%list `sublist_of` records ∧
  (clean = true ∨ run_kind q ≠ SkipsOnDone → ∃ tail, records = (records_of (said q) ++ it_Next (run_it q) ++ tail)%list ∧
     match run_producer q with Producing rest => tail = rest | _ => clean = true → tail = [] end) ∧
  (past_feed q = true ∨ MsgDone ∈ said q → it_Next (run_it q) = [] ∧ it_NextClosed (run_it q) = true) ∧
  (clean = true → producer_err q = None ∧ it_err (run_it q) = None) ∧
  (length (it_Next (run_it q)) ≤ iterator_capacity)%nat.

(** What is dropped leaves a part of the records. *)
Lemma sublist_drop_pending (l1 l2 l3 records : list A) : (l1 ++ l2 ++ l3)%list `sublist_of` records → (l1 ++ l2 ++ [])%list `sublist_of` records.
Proof. intros H. etrans; [|exact H]. apply sublist_app; [done|]. apply sublist_app; [done|]. apply sublist_nil_l. Qed.

Lemma record_inv_dirty clean (b : bool) records q : record_inv clean records q → record_inv (clean && b) records q.
Proof.
  intros (H1 & Hsub & H2 & H4 & H5 & H6). split; [done|]. split; [done|]. split; [|split; [done|split; [intros [? _]%andb_prop; auto|done]]].
  intros H. destruct H2 as (tail & Ht & Htail); [destruct H as [[? _]%andb_prop|]; auto|]. exists tail. split; [done|].
  destruct (run_producer q); try done; intros [? _]%andb_prop; auto.
Qed.

(** The storage goes on to its end, after a failure with a mark. *)
Lemma record_inv_end clean (dirty : bool) records q p : 
  record_inv clean records q → match run_producer q with Producing rest => dirty = true ∨ rest = [] | _ => False end →
  p = Left ∧ dirty = true ∨ (∃ err, p = CloseNext err ∧ (err ≠ None → dirty = true)) →
  record_inv (clean && negb dirty) records (set_producer p q).
Proof.
  intros (H1 & Hsub & H2 & H4 & H5 & H6) Hend Hp. destruct (run_producer q) as [rest| | | | |] eqn:Hq; try done.
  assert (it_NextClosed (run_it (set_producer p q)) = match p with Producing _ | CloseNext _ | Left => false | _ => true end) as Hnc.
  { cbn. rewrite H1. by destruct Hp as [[-> _]|(err & -> & _)]. }
  assert (pending_records (set_producer p q) = []) as Hpend by (unfold pending_records; cbn; by destruct Hp as [[-> _]|(err & -> & _)]).
  split; [exact Hnc|]. split; [|split; [|split; [|split; [|done]]]].
  - rewrite Hpend. change (said (set_producer p q)) with (said q). eapply sublist_drop_pending. exact Hsub.
  - intros Hc. destruct H2 as (tail & H2 & ->); [destruct Hc as [[Hc _]%andb_prop|Hc]; auto|]. exists rest. split; [exact H2|]. cbn.
    assert (clean && negb dirty = true → rest = []) as Hr by (intros [_ Hd]%andb_prop; destruct Hend as [->|]; done).
    by destruct Hp as [[-> _]|(err & -> & _)].
  - intros H. apply H4 in H as [? H]. congruence.
  - intros [Hc Hd]%andb_prop. destruct (H5 Hc) as [_ He]. split; [|done]. unfold producer_err. cbn.
    destruct Hp as [[-> _]|(err & -> & Herr)]; [done|]. destruct err; [|done]. by rewrite Herr in Hd.
Qed.

(** The three steps of Finish. *)
Lemma record_inv_finish clean records q p it :
  record_inv clean records q → match run_producer q with CloseNext _ | CloseDone _ | SetErr _ => True | _ => False end →
  match p with Producing _ | CloseNext _ | Left => False | _ => True end → it_Next it = it_Next (run_it q) → it_NextClosed it = true →
  (clean = true → producer_err (set_producer p q) = None ∧ it_err it = None) → record_inv clean records (set_producer p (set_it it q)).
Proof.
  intros (H1 & Hsub & H2 & H4 & H5 & H6) Hq Hp Hn Hc He. assert (pending_records q = []) as Hpend by (unfold pending_records; by destruct (run_producer q)).
  assert (pending_records (set_producer p (set_it it q)) = []) as Hpend' by (unfold pending_records; cbn; by destruct p).
  unfold record_inv. rewrite Hpend'. rewrite Hpend in Hsub. cbn [run_it run_producer set_producer set_it run_kind]. rewrite Hn, Hc.
  change (said (set_producer p (set_it it q))) with (said q). change (past_feed (set_producer p (set_it it q))) with (past_feed q).
  split; [by destruct p|]. split; [done|]. split; [|split; [|done]].
  - intros H. destruct (H2 H) as (tail & Ht & Htail). exists tail. split; [done|]. by destruct (run_producer q), p.
  - intros H. split; [by apply H4|done].
Qed.

Lemma record_inv_produce clean records fail q q' :
  producer_step fail q = Some q' → record_inv clean records q → record_inv (clean && negb (bool_decide (is_Some fail))) records q'.
Proof.
  intros Hf Hq. unfold producer_step in Hf. destruct (run_producer q) as [rest|err|err|err| |] eqn:Hp; try done.
  - destruct fail as [err|].
    { assert (q' = set_producer (CloseNext (Some err)) q) as -> by (destruct (run_kind q); by simplify_eq).
      apply (record_inv_end clean true); [done|rewrite Hp; by left|right; by exists (Some err)]. }
    destruct rest as [|r rest].
    { injection Hf as <-. apply (record_inv_end clean false); [done|rewrite Hp; by right|right; by exists None]. }
    destruct (Nat.ltb_spec (length (it_Next (run_it q))) iterator_capacity) as [Hlt|]; [|done]. injection Hf as <-.
    destruct Hq as (H1 & Hsub & H2 & H4 & H5 & H6). unfold pending_records in Hsub. rewrite Hp in *. rewrite andb_true_r.
    split; [done|]. split; [unfold pending_records; cbn; rewrite <- app_assoc; exact Hsub|].
    split; [intros H; destruct (H2 H) as (tail & Ht & ->); exists rest; split; [rewrite Ht; cbn; by rewrite <- app_assoc|done]|].
    split; [intros H; apply H4 in H as [_ H]; congruence|]. split; [unfold producer_err in *; cbn; by rewrite Hp in H5|]. cbn. rewrite length_app. simpl. lia.
  - injection Hf as <-. apply (record_inv_dirty clean (negb (bool_decide (is_Some fail)))) in Hq.
    apply record_inv_finish; [done|by rewrite Hp|done|done|done|]. intros Hc. destruct Hq as (_ & _ & _ & _ & H5 & _). unfold producer_err in *. rewrite Hp in H5. cbn. by apply H5.
  - injection Hf as <-. apply (record_inv_dirty clean (negb (bool_decide (is_Some fail)))) in Hq. pose proof Hq as (Hn & _ & _ & _ & H5 & _). rewrite Hp in Hn.
    apply record_inv_finish; [done|by rewrite Hp|done|done|done|]. intros Hc. unfold producer_err in *. rewrite Hp in H5. cbn. by apply H5.
  - injection Hf as <-. apply (record_inv_dirty clean (negb (bool_decide (is_Some fail)))) in Hq. pose proof Hq as (Hn & _ & _ & _ & H5 & _). rewrite Hp in Hn.
    apply record_inv_finish; [done|by rewrite Hp|done|done|done|]. intros Hc. unfold producer_err in *. rewrite Hp in H5. cbn. split; [done|]. by apply H5.
Qed.

Lemma record_inv_cancelled clean records q q' : producer_cancelled q = Some q' → record_inv clean records q → record_inv false records q'.
Proof.
  intros Hf Hq. unfold producer_cancelled in Hf. destruct (run_producer q) as [[|r rest]| | | | |] eqn:Hp; try discriminate Hf.
  destruct (it_DoneClosed (run_it q)); [|discriminate Hf]. replace false with (clean && negb true) by (by rewrite andb_false_r).
  destruct (run_kind q) eqn:Hk; try discriminate Hf; injection Hf as <-.
  - apply record_inv_end; [done|rewrite Hp; by left|right; by exists None].
  - rewrite andb_false_r. destruct Hq as (H1 & Hsub & H2 & H4 & H5 & H6). rewrite Hp in H1. split; [done|].
    split; [unfold pending_records in *; rewrite Hp in Hsub; cbn; etrans; [|exact Hsub]; apply sublist_app; [done|]; apply sublist_app; [done|]; by apply sublist_cons|].
    split; [intros [?|H]; [done|by destruct H]|]. split; [intros H; apply H4 in H as [_ H]; congruence|by split].
  - apply record_inv_end; [done|rewrite Hp; by left|by left].
Qed.

(** A change of the handler that sends no record. *)
Lemma record_inv_handler clean records q q' :
  run_producer q' = run_producer q → run_kind q' = run_kind q → it_Next (run_it q') = it_Next (run_it q) → it_NextClosed (run_it q') = it_NextClosed (run_it q) →
  it_err (run_it q') = it_err (run_it q) → records_of (said q') = records_of (said q) →
  (past_feed q' = true ∨ MsgDone ∈ said q' → past_feed q = true ∨ MsgDone ∈ said q ∨ (it_Next (run_it q) = [] ∧ it_NextClosed (run_it q) = true)) →
  record_inv clean records q → record_inv clean records q'.
Proof.
  intros Hp Hk Hn Hnc He Hr Hpf (H1 & Hsub & H2 & H3 & H4 & H5). unfold record_inv, pending_records, producer_err in *. rewrite Hp, Hk, Hn, Hnc, He, Hr.
  split; [done|]. split; [done|]. split; [done|]. split; [|done]. intros H. apply Hpf in H. naive_solver.
Qed.

Lemma record_inv_consume clean records q q' : consumer_step q = Some q' → record_inv clean records q → record_inv clean records q'.
Proof.
  intros Hf Hq. pose proof (consumer_step_idle _ _ Hf) as Ho. pose proof (said_idle q Ho) as Hsaid.
  assert (∀ m c it sub, (∀ r, m ≠ MsgRecord r) →
    records_of (said (set_consumer c (send_msg m (set_it it (set_sub sub q))))) = records_of (said q)) as Hrec.
  { intros m c it sub Hm. rewrite Hsaid. unfold said, records_of. simpl. rewrite omap_app. destruct m; simpl; rewrite ?app_nil_r; try done. by destruct (Hm r). }
  unfold consumer_step in Hf. rewrite Ho in Hf. destruct (run_consumer q) eqn:Hc; try discriminate Hf.
  - destruct (it_Next (run_it q)) as [|r l] eqn:Hn.
    + destruct (it_NextClosed (run_it q)) eqn:Hnc; [injection Hf as <-|discriminate Hf].
      eapply record_inv_handler, Hq; try done. intros _. auto.
    + injection Hf as <-. destruct Hq as (H1 & Hsub & H2 & H4 & H5 & H6). rewrite Hn, Hsaid in *.
      assert (records_of (said (send_msg (MsgRecord r) (set_it (Next_pop l (run_it q)) q))) = (records_of (run_sent q) ++ [r])%list) as Hr.
      { unfold said, records_of. simpl. by rewrite omap_app. }
      split; [done|]. rewrite Hr. split; [rewrite <- app_assoc; exact Hsub|].
      split; [intros H; destruct (H2 H) as (tail & Ht & ?); exists tail; split; [rewrite Ht; by rewrite <- app_assoc|done]|].
      split; [|split; [done|simpl in *; lia]]. intros H. exfalso. unfold past_feed, said in *. simpl in H. rewrite Hc in *.
      rewrite elem_of_app, list_elem_of_singleton in H. destruct H as [H|[H|H]]; try done. by destruct H4 as [? _]; [right|].
  - assert (it_Next (run_it q) = [] ∧ it_NextClosed (run_it q) = true) as H.
    { apply Hq. left. unfold past_feed. by rewrite Hc. }
    destruct (it_err (run_it q)); injection Hf as <-; (eapply record_inv_handler, Hq; try done; [|intros _; auto]);
      [by apply (Hrec (MsgError s) _ (run_it q) (run_sub q))|by apply (Hrec MsgDone _ (run_it q) (run_sub q))].
  - assert (it_Next (run_it q) = [] ∧ it_NextClosed (run_it q) = true) as H.
    { apply Hq. left. unfold past_feed. by rewrite Hc. }
    apply bind_Some in Hf as (cs & Hcs & Hf). destruct (cs_feed cs) as [|u l]; [destruct (cs_closed cs); [|discriminate Hf]|];
      injection Hf as <-; (eapply record_inv_handler, Hq; try done; [|intros _; auto]).
    + by apply (Hrec MsgDone RemoveSub (run_it q) (run_sub q)).
    + by apply (Hrec (MsgUpdate u) (run_consumer q) (run_it q) (Some (mkClientSub l (cs_closed cs)))).
Qed.

Lemma record_inv_move clean records d u q q' : run_move d u q q' → record_inv clean records q → record_inv (clean && negb d) records q'.
Proof.
  intros Hm Hq. destruct Hm as [q|fail q q' Hf|q q' Hf|r q q' Hf|q q' Hf|q q' Hf|q q' Hf|q Ho Hc|ok q Ho Hc|q Ho Hc|q Ho Hc|q|q];
    [|by eapply record_inv_produce|rewrite andb_false_r; by eapply record_inv_cancelled|rewrite andb_true_r..]; [by rewrite andb_true_r|..].
  - unfold feed_update in Hf. apply bind_Some in Hf as (cs & Hcs & Hf). destruct (cs_closed cs); [done|].
    destruct (_ <? _)%nat; injection Hf as <-; [|done]. eapply record_inv_handler, Hq; try done. naive_solver.
  - by eapply record_inv_consume.
  - unfold consumer_shutdown in Hf. destruct (run_out q); [done|]. destruct (run_consumer q) eqn:Hc; try discriminate Hf; injection Hf as <-;
      (eapply record_inv_handler, Hq; try done); unfold past_feed; rewrite Hc; naive_solver.
  - pose proof (sendBytes_said _ _ Hf) as (Hs & H1 & H2 & H3 & H4 & _). eapply record_inv_handler, Hq; rewrite ?H3, ?Hs; try done.
    + unfold sendBytes in Hf. destruct (run_out q); [by injection Hf as <-|done].
    + unfold past_feed. rewrite H1. naive_solver.
  - eapply record_inv_handler, Hq; try done. unfold past_feed; rewrite Hc; naive_solver.
  - eapply record_inv_handler, Hq; try done. unfold past_feed, after_query. rewrite Hc. destruct ok; [naive_solver|]. simpl. naive_solver.
  - eapply record_inv_handler, Hq; try done. unfold past_feed; rewrite Hc; naive_solver.
  - eapply record_inv_handler, Hq; try done. unfold past_feed; rewrite Hc; naive_solver.
  - eapply record_inv_handler, Hq; try done. naive_solver.
  - eapply record_inv_handler, Hq; try done. naive_solver.
Qed.

(** *** The updates of a run *)

Definition update_inv (ups : list A) (q : QueryRun A) : Prop :=
  match run_sub q with
  | Some cs => (updates_of (said q) ++ cs_feed cs)%list `sublist_of` ups ∧ (length (cs_feed cs) ≤ feed_capacity)%nat
  | None => updates_of (said q) = []
  end.

Lemma update_inv_move ups d u q q' : run_move d u q q' → update_inv ups q → update_inv (ups ++ option_list u) q'.
Proof.
  assert (∀ q q' : QueryRun A, updates_of (said q') = updates_of (said q) → run_sub q' = run_sub q → update_inv ups q → update_inv (ups ++ []) q') as Hframe.
  { intros q1 q2 H1 H2. unfold update_inv. by rewrite H1, H2, app_nil_r. }
  assert (∀ q : QueryRun A, update_inv ups q → update_inv (ups ++ []) (cancel_sub q)) as Hcancel.
  { intros q1. rewrite app_nil_r. unfold update_inv, cancel_sub. simpl. by destruct (run_sub q1). }
  intros Hm Hq. destruct Hm as [q|fail q q' Hf|q q' Hf|r q q' Hf|q q' Hf|q q' Hf|q q' Hf|q Ho Hc|ok q Ho Hc|q Ho Hc|q Ho Hc|q|q]; simpl option_list;
    try (by eapply Hframe, Hq); try (by apply Hcancel).
  - apply producer_step_handler in Hf as (_ & H1 & H2 & _). eapply Hframe, Hq; [|done]. by rewrite H1.
  - apply producer_cancelled_handler in Hf as (_ & H1 & H2 & _). eapply Hframe, Hq; [|done]. by rewrite H1.
  - unfold feed_update in Hf. apply bind_Some in Hf as (cs & Hcs & Hf). unfold update_inv in *. rewrite Hcs in Hq. destruct Hq as [H1 H2].
    destruct (cs_closed cs); [done|]. destruct (Nat.ltb_spec (length (cs_feed cs)) feed_capacity); injection Hf as <-; simpl.
    + split; [|rewrite length_app; simpl; lia]. rewrite app_assoc. by apply sublist_app.
    + rewrite Hcs. split; [|done]. by apply sublist_inserts_r.
  - pose proof (consumer_step_idle _ _ Hf) as Ho. pose proof (said_idle q Ho) as Hsaid. rewrite app_nil_r. unfold update_inv, consumer_step in *. rewrite Ho in Hf.
    rewrite Hsaid in Hq. destruct (run_consumer q); try discriminate Hf.
    + destruct (it_Next (run_it q)); [destruct (it_NextClosed (run_it q)); [|discriminate Hf]|]; injection Hf as <-; unfold said, updates_of in *; simpl;
        [by rewrite Ho, app_nil_r|by rewrite omap_app, app_nil_r].
    + destruct (it_err (run_it q)); injection Hf as <-; unfold said, updates_of in *; simpl; by rewrite omap_app, app_nil_r.
    + apply bind_Some in Hf as (cs & Hcs & Hf). rewrite Hcs in Hq. destruct (cs_feed cs) as [|r l] eqn:Hl.
      * destruct (cs_closed cs); [|discriminate Hf]. injection Hf as <-. unfold said, updates_of in *. simpl.
        rewrite Hcs, omap_app, app_nil_r, Hl. done.
      * injection Hf as <-. unfold said, updates_of in *. simpl. rewrite omap_app, <- app_assoc. simpl in *. destruct Hq. split; [done|lia].
  - unfold consumer_shutdown in Hf. destruct (run_out q); [done|]. destruct (run_consumer q); try discriminate Hf; injection Hf as <-; [by eapply Hframe, Hq|].
    apply (Hframe (cancel_sub q)); [done..|]. apply Hcancel in Hq. by rewrite app_nil_r in Hq.
  - pose proof (sendBytes_said _ _ Hf) as (Hs & _ & H2 & _). eapply Hframe, Hq; [by rewrite Hs|done].
Qed.

(** *** All runs of a connection *)

Lemma stream_run_snoc ls l a : stream_run (ls ++ [l]) a = (a' ← stream_run ls a; stream_step l a').
Proof.
  revert a. induction ls as [|l0 ls IH]; intros a; simpl.
  - by destruct (stream_step l a).
  - destruct (stream_step l0 a); simpl; [apply IH|done].
Qed.

Lemma stream_run_app ls1 ls2 a : stream_run (ls1 ++ ls2) a = (a' ← stream_run ls1 a; stream_run ls2 a').
Proof.
  revert a. induction ls1 as [|l0 ls IH]; intros a; simpl; [done|].
  destruct (stream_step l0 a); simpl; [apply IH|done].
Qed.

Lemma step_runs_length l a a' :
  stream_step l a = Some a' → length (api_runs a') = (length (api_runs a) + length (started [l]))%nat.
Proof.
  assert (∀ i f, on_run i f a = Some a' → length (api_runs a') = (length (api_runs a) + 0)%nat) as Hon.
  { intros i f H. apply on_run_inv in H as (q & q' & _ & _ & ->). simpl. rewrite length_insert. lia. }
  destruct l as [i fail|i|i r|i|i|i|opID kind query sub|opID|opID err| |i| |]; simpl; intros H; try by eapply Hon.
  - destruct (shuttingDown a); [by eapply Hon|done].
  - unfold map_step in H. apply bind_Some in H as (q & Hq & H). destruct (run_out q), (run_consumer q); simplify_eq; simpl; rewrite length_insert; lia.
  - assert (a' = start_run opID kind query sub a) as -> by (destruct query, sub; by simplify_eq). simpl. by rewrite length_app.
  - injection H as <-. unfold cancelQuery. destruct (_ !! opID); simpl; rewrite ?length_alter; lia.
  - apply enqueue_inv in H as ->. unfold cancelSub. destruct (_ !! opID); [destruct err|]; simpl; rewrite ?length_alter; lia.
  - injection H as <-. simpl. lia.
  - apply bind_Some in H as (a1 & H & ->%enqueue_inv). apply on_run_inv in H as (q & q' & _ & _ & ->). simpl. rewrite length_insert. lia.
  - destruct (_ && _); [|done]. injection H as <-. simpl. lia.
  - injection H as <-. simpl. lia.
Qed.

(** Every run has its start, and the invariants since then. *)
Definition run_inv (ls : list (stream_label A)) (i : nat) (q : QueryRun A) : Prop :=
  ∃ opID query sub, started ls !! i = Some (opID, query, sub) ∧ run_opID q = opID ∧
    answer_inv query sub q ∧ record_inv (undisturbed ls i) (default [] query) q ∧ update_inv (omap (update_of i) ls) q.

Lemma run_move_opID d u q q' : run_move d u q q' → run_opID q' = run_opID q.
Proof.
  destruct 1 as [q|fail q q' Hf|q q' Hf|r q q' Hf|q q' Hf|q q' Hf|q q' Hf|q Ho Hc|ok q Ho Hc|q Ho Hc|q Ho Hc|q|q]; try done.
  - unfold producer_step in Hf. by repeat case_match; simplify_eq.
  - unfold producer_cancelled in Hf. by repeat case_match; simplify_eq.
  - unfold feed_update in Hf. apply bind_Some in Hf as (cs & _ & Hf). by repeat case_match; simplify_eq.
  - unfold consumer_step in Hf. destruct (run_out q); [done|]. destruct (run_consumer q); try discriminate Hf;
      try apply bind_Some in Hf as (cs & _ & Hf); by repeat case_match; simplify_eq.
  - unfold consumer_shutdown in Hf. by destruct (run_out q), (run_consumer q); simplify_eq.
  - by apply sendBytes_said in Hf as (_ & _ & _ & _ & _ & ->).
Qed.

Lemma undisturbed_snoc ls l i : undisturbed (ls ++ [l]) i = undisturbed ls i && negb (disturbs i l).
Proof. unfold undisturbed. rewrite forallb_app. simpl. by rewrite andb_true_r. Qed.

Lemma started_length ls a : stream_run ls CreateDatabaseAPI = Some a → length (api_runs a) = length (started ls).
Proof.
  revert a. induction ls as [|l ls IH] using rev_ind; intros a; [by intros [= <-]|].
  rewrite stream_run_snoc. intros H. apply bind_Some in H as (a1 & H1 & H2). apply step_runs_length in H2.
  unfold started in *. rewrite omap_app, length_app, <- (IH a1 H1). exact H2.
Qed.

(** A label before the start does not concern a run. *)
Lemma before_start ls a i :
  stream_run ls CreateDatabaseAPI = Some a → (length (api_runs a) ≤ i)%nat → undisturbed ls i = true ∧ omap (update_of i) ls = [].
Proof.
  revert a. induction ls as [|l ls IH] using rev_ind; intros a; [done|].
  rewrite stream_run_snoc. intros H Hi. apply bind_Some in H as (a1 & H1 & H2). pose proof (step_runs_length _ _ _ H2) as Hlen.
  destruct (IH a1 H1) as [IH1 IH2]; [lia|]. rewrite undisturbed_snoc, omap_app, IH1, IH2.
  assert (∀ j f, on_run j f a1 = Some a → j ≠ i) as Hon.
  { intros j f Hf ->. apply on_run_inv in Hf as (q & _ & Hq & _). apply lookup_lt_Some in Hq. lia. }
  destruct l as [j fail|j|j r|j|j|j|opID kind query sub|opID|opID err| |j| |]; simpl in *; try done;
    try (apply Hon in H2; by destruct (decide (j = i))).
Qed.

Lemma stream_run_inv ls a i q : stream_run ls CreateDatabaseAPI = Some a → api_runs a !! i = Some q → run_inv ls i q.
Proof.
  revert a i q. induction ls as [|l ls IH] using rev_ind; intros a i q; [by intros [= <-]|].
  rewrite stream_run_snoc. intros H Hq. apply bind_Some in H as (a1 & H1 & H2).
  destruct (step_run _ _ _ _ _ H2 Hq) as [(q1 & Hq1 & Hm)|(opID & kind & query & sub & -> & -> & ->)].
  - destruct (IH _ _ _ H1 Hq1) as (opID & query & sub & Hst & Hop & Ha & Hr & Hu). exists opID, query, sub.
    unfold started. rewrite omap_app, undisturbed_snoc. split; [by apply lookup_app_l_Some|].
    split; [rewrite <- Hop; by eapply run_move_opID|]. split; [by eapply answer_inv_move|]. split; [by eapply record_inv_move|].
    rewrite omap_app. eapply update_inv_move in Hu; [|done]. simpl. by destruct (update_of i l).
  - destruct (before_start _ _ _ H1 (le_n _)) as [Hud Hup]. exists opID, query, sub. unfold started.
    rewrite omap_app, undisturbed_snoc, omap_app, Hup, Hud. simpl.
    split; [rewrite (started_length _ _ H1); by apply list_lookup_middle|]. split; [by destruct query|].
    assert (query ≠ None ∨ sub = true) as Hqs by (destruct query, sub; naive_solver).
    destruct query as [rs|], sub; simpl; try naive_solver.
    all: split; [split; [done|]; simpl; naive_solver|].
    all: split; [|first [done|split; [constructor|unfold feed_capacity; simpl; lia]]]; split; [done|].
    all: (split; [first [done|apply sublist_nil_l]|]); (split; [by eexists|]); (split; [|split; [done|simpl; unfold iterator_capacity; lia]]).
    all: unfold past_feed, said; simpl; set_solver.
Qed.

(** What was sent is the first part of what is said. *)
Lemma answers_sub_prefix (l k : list (query_message A)) : answers_sub (l ++ k) = true → answers_sub l = true.
Proof. induction l as [|[] l IH]; simpl; [done|done|done| |done]. by destruct l. Qed.

Lemma answers_prefix query sub (l k : list (query_message A)) : answers query sub (l ++ k) = true → answers query sub l = true.
Proof.
  destruct query as [rs|]; simpl; [|apply answers_sub_prefix]. induction l as [|[] l IH]; simpl; [done|done|done| |by destruct l].
  destruct sub; [apply answers_sub_prefix|by destruct l].
Qed.

(** No record comes after a done. *)
Lemma answers_sub_record (l : list (query_message A)) (r : A) : answers_sub (l ++ [MsgRecord r]) = false.
Proof. induction l as [|[] l IH]; simpl; [done|done|done| |done]. by destruct l. Qed.

Lemma answers_record query sub (l : list (query_message A)) (r : A) : answers query sub (l ++ [MsgRecord r]) = true → MsgDone ∉ l.
Proof.
  destruct query as [rs|]; simpl; [|by rewrite answers_sub_record]. induction l as [|[] l IH]; simpl; [by intros _ ?%elem_of_nil| |done| |by destruct l].
  - intros H. rewrite not_elem_of_cons. by split; [|apply IH].
  - destruct sub; [by rewrite answers_sub_record|by destruct l].
Qed.

Lemma said_done query sub q : answer_inv query sub q → MsgDone ∈ run_sent q → records_of (said q) = run_records q.
Proof.
  intros Ha%answer_inv_answers Hd. unfold said, run_records, records_of in *. rewrite omap_app. destruct (run_out q) as [[r| | |]|]; simpl; rewrite ?app_nil_r; try done.
  by apply answers_record in Ha.
Qed.

End StreamLemmas.

(** ** Properties of the streams *)

(** C21: What a client is told about a query or subscription, after any number of
    steps of storages, handlers, updates, cancelings and the writer in any order: the
    messages follow the protocol; the records are the first ones of the storage, each
    once and in its order, with gaps only where the storage skips records after a
    cancel; a [done] means that all records were sent, unless the
    storage failed or was canceled; the updates are among those of the database, in
    their order. *)
Theorem stream_answers {A : Type} (ls : list (stream_label A)) (a : DatabaseAPI A) (i : nat) (q : QueryRun A) :
  stream_run ls CreateDatabaseAPI = Some a → api_runs a !! i = Some q →
  ∃ opID query sub, started ls !! i = Some (opID, query, sub) ∧ run_opID q = opID ∧
    answers query sub (run_sent q) = true ∧
    run_records q `sublist_of` default [] query ∧
    (run_kind q ≠ SkipsOnDone → run_records q `prefix_of` default [] query) ∧
    (MsgDone ∈ run_sent q → undisturbed ls i = true → run_records q = default [] query) ∧
    run_updates q `sublist_of` omap (update_of i) ls ∧
    (length (it_Next (run_it q)) ≤ iterator_capacity)%nat.
Proof.
  intros H Hq. destruct (stream_run_inv _ _ _ _ H Hq) as (opID & query & sub & Hst & Hop & Ha & (H1 & Hsub & H2 & H4 & _ & H6) & Hu).
  assert (records_of (said q) = run_records q ++ records_of (option_list (run_out q)))%list as Hsaid by (unfold said, run_records, records_of; by rewrite omap_app).
  exists opID, query, sub. split; [done|]. split; [done|]. split; [by eapply answers_prefix, answer_inv_answers|].
  split; [rewrite Hsaid, <- app_assoc in Hsub; etrans; [|exact Hsub]; by apply sublist_inserts_r|].
  split; [intros Hk; destruct (H2 (or_intror Hk)) as (tail & -> & _); rewrite Hsaid, <- !app_assoc; by eexists|]. split; [|split; [|done]].
  - intros Hd Hud. destruct H4 as [H4 H4']; [right; unfold said; rewrite elem_of_app; by left|]. destruct (H2 (or_introl Hud)) as (tail & -> & H3).
    rewrite H4. rewrite (said_done _ _ _ Ha Hd). rewrite H4' in H1. destruct (run_producer q); try discriminate H1; by rewrite H3, app_nil_r.
  - unfold update_inv in Hu. assert (updates_of (said q) = run_updates q ++ updates_of (option_list (run_out q)))%list as Hsaidu by (unfold said, run_updates, updates_of; by rewrite omap_app).
    rewrite Hsaidu in Hu. destruct (run_sub q) as [cs|]; [|by apply app_nil in Hu as [-> _]; apply sublist_nil_l].
    destruct Hu as [Hu _]. etrans; [|exact Hu]. rewrite <- app_assoc. by apply sublist_inserts_r.
Qed.

(** A query that is canceled while its records flow. *)
Definition example_labels : list (stream_label nat) :=
  [LStart (string_bytes "1") StopsOnDone (Some [1; 2]%nat) true; LMap 0; LProduce 0 None; LUpdate 0 7%nat; LProduce 0 None; LConsume 0; LSend 0; LConsume 0;
   LSend 0; LWrite; LProduce 0 None; LProduce 0 None; LConsume 0; LConsume 0; LSend 0; LMap 0; LMap 0; LConsume 0; LSend 0].

Lemma stream_answers_witness :
  let q := mkQueryRun (string_bytes "1") StopsOnDone (mkIterator [] true false None) (CloseDone None) NextUpdate (Some (mkClientSub [] false)) None
    [MsgRecord 1%nat; MsgRecord 2%nat; MsgDone; MsgUpdate 7%nat] in
  ∃ opID query sub, started example_labels !! 0%nat = Some (opID, query, sub) ∧ run_opID q = opID ∧
    answers query sub (run_sent q) = true ∧ run_records q `sublist_of` default [] query ∧
    (run_kind q ≠ SkipsOnDone → run_records q `prefix_of` default [] query) ∧
    (MsgDone ∈ run_sent q → undisturbed example_labels 0 = true → run_records q = default [] query) ∧
    run_updates q `sublist_of` omap (update_of 0) example_labels ∧ (length (it_Next (run_it q)) ≤ iterator_capacity)%nat.
Proof.
  apply (stream_answers example_labels (default CreateDatabaseAPI (stream_run example_labels CreateDatabaseAPI)) 0); vm_compute; reflexivity.
Defined.

(** *** Progress *)

Section StreamProgress.
Context {A : Type}.
Implicit Types (q : QueryRun A) (a : DatabaseAPI A) (ls : list (stream_label A)).

(** After the loop, the storage has an end in sight. *)
Definition done_inv (q : QueryRun A) : Prop :=
  match run_consumer q with
  | SaveIterator | NextRecord => True
  | _ => it_DoneClosed (run_it q) = true ∨ it_NextClosed (run_it q) = true
  end.

Definition producer_stage (p : producer_pc A) : nat :=
  match p with Producing rest => 4 + 2 * length rest | CloseNext _ => 3 | CloseDone _ => 2 | SetErr _ => 1 | Produced | Left => 0 end.

Definition consumer_stage (c : consumer_pc) : nat :=
  match c with SaveIterator => 4 | NextRecord => 3 | FeedEnded => 2 | RemoveIterator _ => 1 | _ => 0 end.

(** Each of these steps can mean a message, which then takes a place in the queue. *)
Definition run_measure (q : QueryRun A) : nat :=
  3 * (producer_stage (run_producer q) + length (it_Next (run_it q)) + consumer_stage (run_consumer q)) + 2 * length (option_list (run_out q)).

Lemma done_inv_move d u q q' : run_move d u q q' → done_inv q → done_inv q'.
Proof.
  unfold done_inv. intros Hm Hq. destruct Hm as [q|fail q q' Hf|q q' Hf|r q q' Hf|q q' Hf|q q' Hf|q q' Hf|q Ho Hc|ok q Ho Hc|q Ho Hc|q Ho Hc|q|q]; simpl.
  - done.
  - pose proof (producer_step_handler _ _ _ Hf) as (-> & _). unfold producer_step in Hf.
    destruct (run_consumer q); [done..| | | | | |]; repeat case_match; simplify_eq; simpl; auto.
  - pose proof (producer_cancelled_handler _ _ Hf) as (-> & _). unfold producer_cancelled in Hf.
    destruct (run_producer q) as [[|r rest]| | | | |]; try discriminate Hf. destruct (it_DoneClosed (run_it q)) eqn:Hd; [|discriminate Hf].
    destruct (run_kind q); try discriminate Hf; injection Hf as <-; simpl; by rewrite Hd.
  - unfold feed_update in Hf. apply bind_Some in Hf as (cs & _ & Hf).
    destruct (cs_closed cs); [discriminate Hf|]. destruct (_ <? _)%nat; by injection Hf as <-.
  - unfold consumer_step in Hf. destruct (run_out q); [done|]. destruct (run_consumer q) eqn:Hc; try discriminate Hf.
    + destruct (it_Next (run_it q)); [destruct (it_NextClosed (run_it q)) eqn:Hn; [|discriminate Hf]|]; injection Hf as <-; simpl; [by right|by rewrite Hc].
    + destruct (it_err (run_it q)); injection Hf as <-; simpl; exact Hq.
    + apply bind_Some in Hf as (cs & _ & Hf). destruct (cs_feed cs); [destruct (cs_closed cs); [|discriminate Hf]|]; injection Hf as <-; simpl; rewrite ?Hc; exact Hq.
  - unfold consumer_shutdown in Hf. destruct (run_out q); [done|]. destruct (run_consumer q); try discriminate Hf; injection Hf as <-; simpl; [by left|exact Hq].
  - apply sendBytes_said in Hf as (_ & -> & _ & -> & _). exact Hq.
  - done.
  - rewrite Hc in Hq. unfold after_query. by destruct ok, (run_sub q).
  - by rewrite Hc in Hq.
  - by rewrite Hc in Hq.
  - destruct (run_consumer q); auto.
  - done.
Qed.

Lemma stream_run_done ls a i q : stream_run ls CreateDatabaseAPI = Some a → api_runs a !! i = Some q → done_inv q.
Proof.
  revert a i q. induction ls as [|l ls IH] using rev_ind; intros a i q; [by intros [= <-]|].
  rewrite stream_run_snoc. intros H Hq. apply bind_Some in H as (a1 & H1 & H2).
  destruct (step_run _ _ _ _ _ H2 Hq) as [(q1 & Hq1 & Hm)|(opID & kind & query & sub & _ & _ & ->)].
  - eapply done_inv_move, IH; done.
  - unfold done_inv. destruct query; simpl; auto.
Qed.

(** Only a storage that leaves its iterator open has left. *)
Definition left_inv (q : QueryRun A) : Prop := run_producer q = Left → run_kind q = LeavesOnDone.

Lemma left_inv_move d u q q' : run_move d u q q' → left_inv q → left_inv q'.
Proof.
  unfold left_inv. intros Hm Hq. destruct Hm as [q|fail q q' Hf|q q' Hf|r q q' Hf|q q' Hf|q q' Hf|q q' Hf|q Ho Hc|ok q Ho Hc|q Ho Hc|q Ho Hc|q|q]; try done.
  - unfold producer_step in Hf. by repeat case_match; simplify_eq.
  - unfold producer_cancelled in Hf. by repeat case_match; simplify_eq.
  - unfold feed_update in Hf. apply bind_Some in Hf as (cs & _ & Hf). by repeat case_match; simplify_eq.
  - unfold consumer_step in Hf. destruct (run_out q); [done|]. destruct (run_consumer q); try discriminate Hf;
      try apply bind_Some in Hf as (cs & _ & Hf); by repeat case_match; simplify_eq.
  - unfold consumer_shutdown in Hf. destruct (run_out q); [done|]. destruct (run_consumer q); try discriminate Hf; by injection Hf as <-.
  - unfold sendBytes in Hf. destruct (run_out q); [by injection Hf as <-|done].
Qed.

Lemma stream_run_left ls a i q : stream_run ls CreateDatabaseAPI = Some a → api_runs a !! i = Some q → left_inv q.
Proof.
  revert a i q. induction ls as [|l ls IH] using rev_ind; intros a i q; [by intros [= <-]|].
  rewrite stream_run_snoc. intros H Hq. apply bind_Some in H as (a1 & H1 & H2).
  destruct (step_run _ _ _ _ _ H2 Hq) as [(q1 & Hq1 & Hm)|(opID & kind & query & sub & _ & _ & ->)].
  - eapply left_inv_move, IH; done.
  - by destruct query.
Qed.

(** A step of the run, its writer included, that brings its query closer to the end. *)
Definition closer (a : DatabaseAPI A) (i : nat) (q : QueryRun A) : Prop :=
  ∃ l a' q', own_step i l = true ∧ stream_step l a = Some a' ∧ api_runs a' !! i = Some q' ∧ api_writing a' = api_writing a ∧ run_kind q' = run_kind q ∧
    (run_measure q' + api_queued a' < run_measure q + api_queued a)%nat.

Lemma on_run_closer a i q l f q' :
  api_runs a !! i = Some q → own_step i l = true → stream_step l a = on_run i f a → f q = Some q' → run_kind q' = run_kind q →
  (run_measure q' < run_measure q)%nat → closer a i q.
Proof.
  intros Hq Hl Hs Hf Hk Hm. exists l, (set_run i q' a), q'. split; [done|]. unfold on_run in Hs. rewrite Hq in Hs. simpl in Hs. rewrite Hf in Hs.
  split; [done|]. split; [apply list_lookup_insert_eq; by eapply lookup_lt_Some|]. split; [done|]. split; [done|]. simpl. lia.
Qed.

Lemma own_labels i : own_step i (LProduce i None : stream_label A) = true ∧ own_step i (LProduceCancelled i : stream_label A) = true ∧
  own_step i (LConsume i : stream_label A) = true ∧ own_step i (LMap i : stream_label A) = true ∧ own_step i (LSend i : stream_label A) = true.
Proof. simpl. by rewrite bool_decide_true. Qed.

(** A message goes to the queue, or the writer makes room first. *)
Lemma send_closer a i q m : api_runs a !! i = Some q → api_writing a = true → run_out q = Some m → closer a i q.
Proof.
  intros Hq Hw Hm. pose proof (lookup_lt_Some _ _ _ Hq) as Hlt. destruct (own_labels i) as (_ & _ & _ & _ & Hown).
  destruct (decide (api_queued a + 1 ≤ sendQueue_capacity)%nat) as [Hroom|Hfull].
  - eexists (LSend i), _, _. split; [exact Hown|]. cbn [stream_step]. unfold on_run, sendBytes. rewrite Hq. simpl. rewrite Hm. simpl. unfold enqueue. simpl.
    rewrite (proj2 (Nat.leb_le _ _)) by done. split; [done|]. split; [by apply list_lookup_insert_eq|]. split; [done|]. split; [done|].
    unfold run_measure. simpl. rewrite Hm. simpl. lia.
  - exists LWrite, (set_queued (api_queued a - 1) a), q. split; [done|]. simpl. rewrite Hw. unfold sendQueue_capacity in *.
    rewrite (proj2 (Nat.ltb_lt 0 (api_queued a))) by lia. split; [done|]. split; [done|]. split; [done|]. split; [done|]. simpl. lia.
Qed.

Lemma map_closer a i q : api_runs a !! i = Some q → run_out q = None → run_consumer q = SaveIterator ∨ (∃ ok, run_consumer q = RemoveIterator ok) → closer a i q.
Proof.
  intros Hq Ho Hc. pose proof (lookup_lt_Some _ _ _ Hq) as Hlt. destruct (own_labels i) as (_ & _ & _ & Hown & _).
  exists (LMap i). unfold stream_step, map_step. rewrite Hq. simpl. rewrite Ho.
  destruct Hc as [Hc|[ok Hc]]; rewrite Hc; eexists _, _; (split; [exact Hown|]); (split; [done|]);
    (split; [by apply list_lookup_insert_eq|]); (split; [done|]); (split; [done|]); unfold run_measure, after_query; simpl; rewrite Hc; simpl; [lia|].
  destruct ok, (run_sub q); simpl; lia.
Qed.

(** A run whose query is not over can take a step of its own, or the writer can. *)
Lemma own_progress ls a i q :
  stream_run ls CreateDatabaseAPI = Some a → api_runs a !! i = Some q → api_writing a = true → ends_on_done (run_kind q) = true →
  query_over q = false → closer a i q.
Proof.
  intros H Hq Hw Hk Hover. pose proof (stream_run_done _ _ _ _ H Hq) as Hd.
  assert (run_producer q ≠ Left) as Hleft by (intros Hl; by rewrite (stream_run_left _ _ _ _ H Hq Hl) in Hk).
  destruct (stream_run_inv _ _ _ _ H Hq) as (_ & _ & _ & _ & _ & _ & (Hcl & _ & _ & Hpf & _) & _).
  destruct (own_labels i) as (O1 & O2 & O3 & O4 & _).
  destruct (run_out q) as [m|] eqn:Ho; [by eapply send_closer|].
  assert (∀ q', producer_step None q = Some q' → run_kind q' = run_kind q → (run_measure q' < run_measure q)%nat → closer a i q) as Hprod.
  { intros q' Hf Hk' Hm. by apply (on_run_closer a i q (LProduce i None) (producer_step None) q'). }
  assert (∀ q', consumer_step q = Some q' → run_kind q' = run_kind q → (run_measure q' < run_measure q)%nat → closer a i q) as Hcons.
  { intros q' Hf Hk' Hm. by apply (on_run_closer a i q (LConsume i) consumer_step q'). }
  unfold query_over in Hover. unfold done_inv in Hd. rewrite Ho in Hover.
  destruct (run_producer q) as [rest|err|err|err| |] eqn:Hp; [..|done].
  - destruct rest as [|r rest]; [eapply Hprod; [unfold producer_step; by rewrite Hp|done|unfold run_measure; simpl; rewrite Hp; simpl; lia]|].
    destruct (length (it_Next (run_it q)) <? iterator_capacity)%nat eqn:Hlen.
    { eapply Hprod; [unfold producer_step; by rewrite Hp, Hlen|done|]. unfold run_measure. simpl. rewrite Hp, length_app. simpl. lia. }
    assert (it_DoneClosed (run_it q) = true → closer a i q) as Hcancel.
    { intros Hdc. assert (∃ q', producer_cancelled q = Some q' ∧ run_kind q' = run_kind q ∧ (run_measure q' < run_measure q)%nat) as (q' & Hf & Hk' & Hm).
      { unfold producer_cancelled. rewrite Hp, Hdc. destruct (run_kind q) eqn:Hkq; try done; (eexists; split; [done|]; split; [done|]);
          unfold run_measure; simpl; rewrite Hp; simpl; lia. }
      by apply (on_run_closer a i q (LProduceCancelled i) producer_cancelled q'). }
    rewrite Hcl in Hd. destruct (run_consumer q) eqn:Hc; try (apply Hcancel; by destruct Hd); [apply map_closer; [done|done|by left]|].
    destruct (it_Next (run_it q)) as [|r0 l] eqn:Hn; [done|].
    eapply Hcons; [unfold consumer_step; by rewrite Ho, Hc, Hn|done|]. unfold run_measure. simpl. rewrite Hc, Hn, Hp, Ho. simpl. lia.
  - eapply Hprod; [unfold producer_step; by rewrite Hp|done|unfold run_measure; simpl; rewrite Hp; simpl; lia].
  - eapply Hprod; [unfold producer_step; by rewrite Hp|done|unfold run_measure; simpl; rewrite Hp; simpl; lia].
  - eapply Hprod; [unfold producer_step; by rewrite Hp|done|unfold run_measure; simpl; rewrite Hp; simpl; lia].
  - destruct (run_consumer q) eqn:Hc; try discriminate Hover; [apply map_closer; [done|done|by left]| | |apply map_closer; eauto].
    + destruct (it_Next (run_it q)) as [|r0 l] eqn:Hn.
      * eapply Hcons; [unfold consumer_step; by rewrite Ho, Hc, Hn, Hcl|done|]. unfold run_measure. simpl. rewrite Hc, Hp, Ho, Hn. simpl. lia.
      * eapply Hcons; [unfold consumer_step; by rewrite Ho, Hc, Hn|done|]. unfold run_measure. simpl. rewrite Hc, Hn, Hp, Ho. simpl. lia.
    + destruct (it_err (run_it q)) eqn:He; (eapply Hcons; [unfold consumer_step; by rewrite Ho, Hc, He|done|]); unfold run_measure; simpl; rewrite Hc, Hp, Ho; simpl; lia.
Qed.


(** *** Canceling *)

Definition queries_inv (a : DatabaseAPI A) : Prop :=
  (∀ i q, api_runs a !! i = Some q → iterator_saved q = true → api_queries a !! run_opID q = Some i) ∧
  (∀ opID i, api_queries a !! opID = Some i → ∃ q, api_runs a !! i = Some q ∧ run_opID q = opID ∧ iterator_saved q = true).

(** A change of a run that keeps its name and its part in the map. *)
Lemma queries_inv_runs a a' :
  api_queries a' = api_queries a →
  (∀ i q', api_runs a' !! i = Some q' → ∃ q, api_runs a !! i = Some q ∧ run_opID q = run_opID q' ∧ iterator_saved q = iterator_saved q') →
  length (api_runs a') = length (api_runs a) → queries_inv a → queries_inv a'.
Proof.
  intros He Hr Hl [H1 H2]. unfold queries_inv. rewrite He. split.
  - intros i q' Hq' Hs. destruct (Hr i q' Hq') as (q & Hq & Ho & Hs'). rewrite <- Ho. apply H1; [done|by rewrite Hs'].
  - intros opID i H. destruct (H2 opID i H) as (q & Hq & Ho & Hs).
    destruct (api_runs a' !! i) as [q'|] eqn:Hq'; [|apply lookup_ge_None in Hq'; apply lookup_lt_Some in Hq; lia].
    destruct (Hr i q' Hq') as (q0 & Hq0 & Ho' & Hs'). simplify_eq. exists q'. by rewrite <- Ho', <- Hs'.
Qed.

Lemma on_run_saved i f a a' :
  (∀ q q', f q = Some q' → run_opID q' = run_opID q ∧ iterator_saved q' = iterator_saved q) →
  on_run i f a = Some a' → queries_inv a → queries_inv a'.
Proof.
  intros Hf H. apply on_run_inv in H as (q & q1 & Hq & Hq1 & ->). apply queries_inv_runs; [done| |by simpl; rewrite length_insert].
  intros j q' Hq'. simpl in Hq'. rewrite (insert_lookup_runs _ _ _ _ _ Hq) in Hq'. apply Hf in Hq1 as [H1 H2].
  destruct (decide (i = j)) as [<-|]; simplify_eq; eexists; by split_and!.
Qed.

Lemma alter_saved i (f : QueryRun A → QueryRun A) a :
  (∀ q, run_opID (f q) = run_opID q ∧ iterator_saved (f q) = iterator_saved q) →
  queries_inv a → queries_inv (set_runs (alter f i (api_runs a)) a).
Proof.
  intros Hf. apply queries_inv_runs; [done| |by simpl; rewrite length_alter]. intros j q' Hq'. simpl in Hq'.
  destruct (decide (i = j)) as [<-|Hne].
  - rewrite list_lookup_alter_eq in Hq'. apply fmap_Some in Hq' as (q & Hq & ->). destruct (Hf q) as [H1 H2]. exists q. by rewrite H1, H2.
  - rewrite list_lookup_alter_ne in Hq' by done. by exists q'.
Qed.

Lemma move_saved d u q q' :
  run_move d u q q' → run_consumer q ≠ SaveIterator → (∀ ok, run_consumer q ≠ RemoveIterator ok) → iterator_saved q' = iterator_saved q.
Proof.
  unfold iterator_saved. intros Hm H1 H2. destruct Hm as [q|fail q q' Hf|q q' Hf|r q q' Hf|q q' Hf|q q' Hf|q q' Hf|q Ho Hc|ok q Ho Hc|q Ho Hc|q Ho Hc|q|q]; try done.
  - by apply producer_step_handler in Hf as (-> & _).
  - by apply producer_cancelled_handler in Hf as (-> & _).
  - unfold feed_update in Hf. apply bind_Some in Hf as (cs & _ & Hf). destruct (cs_closed cs); [discriminate Hf|]. destruct (_ <? _)%nat; by injection Hf as <-.
  - unfold consumer_step in Hf. destruct (run_out q); [done|]. destruct (run_consumer q) eqn:Hc; try discriminate Hf.
    + destruct (it_Next (run_it q)); [destruct (it_NextClosed (run_it q)); [|discriminate Hf]|]; injection Hf as <-; simpl; by rewrite ?Hc.
    + destruct (it_err (run_it q)); by injection Hf as <-.
    + apply bind_Some in Hf as (cs & _ & Hf). destruct (cs_feed cs); [destruct (cs_closed cs); [|discriminate Hf]|]; injection Hf as <-; simpl; by rewrite ?Hc.
  - unfold consumer_shutdown in Hf. destruct (run_out q); [done|]. destruct (run_consumer q); try discriminate Hf; by injection Hf as <-.
  - by apply sendBytes_said in Hf as (_ & -> & _).
  - by destruct (H2 ok).
  - by rewrite Hc.
  - by rewrite Hc.
Qed.

(** The handler takes no step of its own at the map. *)
Lemma handler_step_saved q q' :
  (∃ fail, producer_step fail q = Some q') ∨ producer_cancelled q = Some q' ∨ (∃ r, feed_update r q = Some q') ∨
  consumer_step q = Some q' ∨ consumer_shutdown q = Some q' ∨ sendBytes q = Some q' →
  run_opID q' = run_opID q ∧ iterator_saved q' = iterator_saved q.
Proof.
  intros H. split.
  - destruct H as [[fail H]|[H|[[r H]|[H|[H|H]]]]]; eapply run_move_opID;
      [eapply MoveProduce|eapply MoveCancelled|eapply MoveUpdate|eapply MoveConsume|eapply MoveShutdown|eapply MoveSend]; done.
  - destruct H as [[fail H]|[H|[[r H]|[H|[H|H]]]]].
    + unfold iterator_saved. by apply producer_step_handler in H as (-> & _).
    + unfold iterator_saved. by apply producer_cancelled_handler in H as (-> & _).
    + unfold feed_update in H. apply bind_Some in H as (cs & _ & H). destruct (cs_closed cs); [discriminate H|]. destruct (_ <? _)%nat; by injection H as <-.
    + eapply move_saved; [by eapply MoveConsume| |].
      * intros Hc. unfold consumer_step in H. rewrite Hc in H. by destruct (run_out q).
      * intros ok Hc. unfold consumer_step in H. rewrite Hc in H. by destruct (run_out q).
    + eapply move_saved; [by eapply MoveShutdown| |].
      * intros Hc. unfold consumer_shutdown in H. rewrite Hc in H. by destruct (run_out q).
      * intros ok Hc. unfold consumer_shutdown in H. rewrite Hc in H. by destruct (run_out q).
    + unfold iterator_saved. by apply sendBytes_said in H as (_ & -> & _).
Qed.

Definition names_unique (a : DatabaseAPI A) : Prop :=
  ∀ i j q q', api_runs a !! i = Some q → api_runs a !! j = Some q' → run_opID q = run_opID q' → i = j.

Lemma map_step_queries i a a' : names_unique a → map_step i a = Some a' → queries_inv a → queries_inv a'.
Proof.
  intros Hu H Hinv. unfold map_step in H. apply bind_Some in H as (q & Hq & H).
  destruct (run_out q) eqn:Ho0; [done|]. destruct (run_consumer q) eqn:Hc; try discriminate H; injection H as <-.
  - destruct Hinv as [H1 H2]. split; simpl.
    + intros j q' Hq' Hs. rewrite (insert_lookup_runs _ _ _ _ _ Hq) in Hq'. destruct (decide (i = j)) as [<-|Hne]; simplify_eq; simpl.
      * by rewrite lookup_insert_eq.
      * rewrite lookup_insert_ne; [by apply H1|]. intros Heq. apply Hne. by eapply Hu.
    + intros opID j Hj. rewrite (insert_lookup_runs _ _ _ _ _ Hq). apply lookup_insert_Some in Hj as [[<- <-]|[Hne Hj]].
      * rewrite decide_True by done. eexists. by split_and!.
      * destruct (H2 _ _ Hj) as (q' & Hq' & Ho & Hs). destruct (decide (i = j)) as [<-|]; [|by exists q']. by simplify_eq.
  - destruct Hinv as [H1 H2]. split; simpl.
    + intros j q' Hq' Hs. rewrite (insert_lookup_runs _ _ _ _ _ Hq) in Hq'. destruct (decide (i = j)) as [<-|Hne]; simplify_eq; simpl.
      * unfold iterator_saved, after_query in Hs. simpl in Hs. by destruct ok, (run_sub q).
      * rewrite lookup_delete_ne; [by apply H1|]. intros Heq. apply Hne. by eapply Hu.
    + intros opID j Hj. rewrite (insert_lookup_runs _ _ _ _ _ Hq). apply lookup_delete_Some in Hj as [Hne Hj].
      destruct (H2 _ _ Hj) as (q' & Hq' & Ho & Hs). destruct (decide (i = j)) as [<-|]; [|by exists q']. by simplify_eq.
  - eapply queries_inv_runs; [..|exact Hinv]; [done| |by simpl; rewrite length_insert]. intros j q' Hq'. simpl in Hq'.
    rewrite (insert_lookup_runs _ _ _ _ _ Hq) in Hq'. destruct (decide (i = j)) as [<-|]; simplify_eq; eexists; (split; [done|]); [|done].
    unfold iterator_saved. simpl. by rewrite Hc.
  - eapply queries_inv_runs; [..|exact Hinv]; [done| |by simpl; rewrite length_insert]. intros j q' Hq'. simpl in Hq'.
    rewrite (insert_lookup_runs _ _ _ _ _ Hq) in Hq'. destruct (decide (i = j)) as [<-|]; simplify_eq; eexists; (split; [done|]); [|done].
    unfold iterator_saved. simpl. by rewrite Hc.
Qed.

Lemma step_queries l a a' : names_unique a → stream_step l a = Some a' → queries_inv a → queries_inv a'.
Proof.
  intros Hu H Hinv. destruct l as [i fail|i|i r|i|i|i|opID kind query sub|opID|opID err| |i| |]; simpl in H.
  - eapply on_run_saved; [|done..]. intros q q' Hf. apply handler_step_saved. eauto.
  - eapply on_run_saved; [|done..]. intros q q' Hf. apply handler_step_saved. auto.
  - eapply on_run_saved; [|done..]. intros q q' Hf. apply handler_step_saved. eauto.
  - eapply on_run_saved; [|done..]. intros q q' Hf. apply handler_step_saved. auto 10.
  - destruct (shuttingDown a); [|done]. eapply on_run_saved; [|done..]. intros q q' Hf. apply handler_step_saved. auto 10.
  - by eapply map_step_queries.
  - assert (a' = start_run opID kind query sub a) as -> by (destruct query, sub; by simplify_eq). destruct Hinv as [H1 H2]. split; simpl.
    + intros i q Hq Hs. apply lookup_app_Some in Hq as [Hq|[_ Hq]]; [by apply H1|].
      apply list_lookup_singleton_Some in Hq as [_ <-]. by destruct query.
    + intros o i Hi. destruct (H2 o i Hi) as (q & Hq & Hr). exists q. split; [by apply lookup_app_l_Some|done].
  - injection H as <-. unfold cancelQuery. destruct (api_queries a !! opID); [|done]. by apply alter_saved.
  - apply enqueue_inv in H as ->. assert (queries_inv (cancelSub err opID a)) as Hc; [|by destruct Hc].
    unfold cancelSub. destruct (api_subs a !! opID); [destruct err; [done|]|done]. by apply alter_saved.
  - by injection H as <-.
  - apply bind_Some in H as (a1 & H & ->%enqueue_inv). eapply on_run_saved in H; [by destruct H| |done]. intros q q' Hf. apply handler_step_saved. auto 10.
  - destruct (_ && _); [|done]. by injection H as <-.
  - by injection H as <-.
Qed.

Lemma stream_names_unique ls a :
  stream_run ls CreateDatabaseAPI = Some a → NoDup ((λ x, x.1.1) <$> started ls) → names_unique a.
Proof.
  intros H Hnd i j q q' Hi Hj Heq.
  destruct (stream_run_inv _ _ _ _ H Hi) as (o1 & x1 & y1 & H1 & <- & _). destruct (stream_run_inv _ _ _ _ H Hj) as (o2 & x2 & y2 & H2 & <- & _).
  eapply NoDup_lookup; [exact Hnd| |]; rewrite list_lookup_fmap, ?H1, ?H2; simpl; [done|by rewrite Heq].
Qed.

Lemma stream_queries_inv ls a :
  stream_run ls CreateDatabaseAPI = Some a → NoDup ((λ x, x.1.1) <$> started ls) → queries_inv a.
Proof.
  revert a. induction ls as [|l ls IH] using rev_ind; intros a; [intros [= <-] _; split; [done|set_solver]|].
  rewrite stream_run_snoc. intros H Hnd. apply bind_Some in H as (a1 & H1 & H2).
  assert (NoDup ((λ x, x.1.1) <$> started ls)) as Hnd'.
  { unfold started in *. rewrite omap_app, fmap_app in Hnd. by apply NoDup_app in Hnd as [? _]. }
  eapply step_queries; [|exact H2|by apply IH]. by eapply stream_names_unique.
Qed.

(** Canceling reaches the query it names, as long as a client uses a name for
    one operation only: between the handler's saving and removing of the iterator,
    a cancel ends this query and changes no other run; a name without a running
    query changes nothing. *)
Theorem cancel_reaches_query ls a opID :
  stream_run ls CreateDatabaseAPI = Some a → NoDup ((λ x, x.1.1) <$> started ls) →
  (∃ i q, api_runs a !! i = Some q ∧ run_opID q = opID ∧ iterator_saved q = true ∧
     cancelQuery opID a = set_run i (set_it (Iterator_Cancel (run_it q)) q) a) ∨
  ((∀ i q, api_runs a !! i = Some q → iterator_saved q = true → run_opID q ≠ opID) ∧ cancelQuery opID a = a).
Proof.
  intros H Hnd. destruct (stream_queries_inv _ _ H Hnd) as [H1 H2]. unfold cancelQuery. destruct (api_queries a !! opID) as [i|] eqn:Hi.
  - left. destruct (H2 _ _ Hi) as (q & Hq & Ho & Hs). exists i, q. split; [done|]. split; [done|]. split; [done|].
    unfold set_run. f_equal. apply list_eq. intros j. rewrite (insert_lookup_runs _ _ _ _ _ Hq). destruct (decide (i = j)) as [<-|Hne].
    + by rewrite list_lookup_alter_eq, Hq.
    + by rewrite list_lookup_alter_ne.
  - right. split; [|done]. intros i q Hq Hs Ho. pose proof (H1 i q Hq Hs) as H'. by rewrite Ho, Hi in H'.
Qed.

End StreamProgress.


Lemma cancel_reaches_query_witness :
  let a := default CreateDatabaseAPI (stream_run (take 3 example_labels) CreateDatabaseAPI) in
  let opID := string_bytes "1" in
  (∃ i q, api_runs a !! i = Some q ∧ run_opID q = opID ∧ iterator_saved q = true ∧
     cancelQuery opID a = set_run i (set_it (Iterator_Cancel (run_it q)) q) a) ∨
  ((∀ i q, api_runs a !! i = Some q → iterator_saved q = true → run_opID q ≠ opID) ∧ cancelQuery opID a = a).
Proof.
  apply (cancel_reaches_query (take 3 example_labels)); [reflexivity|]. apply NoDup_singleton.
Defined.

(** ** Findings *)

(** Finish closes the feed before it stores the error: a handler that gets to the
    end of the feed in between tells the client that the query is done, though the
    storage failed with a record not sent. *)
Lemma error_lost :
  ∃ a q, stream_run [LStart (string_bytes "1") StopsOnDone (Some [1; 2]%nat) false; LMap 0; LProduce 0 None; LProduce 0 (Some "read error");
      LProduce 0 None; LConsume 0; LSend 0; LConsume 0; LConsume 0; LProduce 0 None; LProduce 0 None; LSend 0; LMap 0] CreateDatabaseAPI = Some a ∧
    api_runs a !! 0%nat = Some q ∧ run_sent q = [MsgRecord 1%nat; MsgDone] ∧ it_err (run_it q) = Some "read error".
Proof. eexists _, _. split; [vm_compute; reflexivity|]. split; [reflexivity|]. split; reflexivity. Qed.

(** The handler of a cancel treats its name as a query and then as a subscription:
    a query that is canceled properly also gets an error, that there is no
    subscription. *)
Lemma cancel_query_complains (opID : bytes) (i : nat) (a : DatabaseAPI nat) :
  api_subs a !! opID = None → api_queries a !! opID = Some i →
  handleCancel None opID a =
    add_reply (api_send opID dbMsgTypeError (string_bytes "could not find subscription") []) (set_runs (alter cancel_run i (api_runs a)) a).
Proof. intros Hs Hq. unfold handleCancel, cancelQuery, cancelSub. rewrite Hq. simpl. by rewrite Hs. Qed.

(** A query with a subscription that fails, or is shut down, leaves its subscription
    in the database: nothing closes it, and no cancel finds it. *)
Lemma qsub_leaks_subscription :
  ∃ a q, stream_run [LStart (string_bytes "1") StopsOnDone (Some [1]%nat) true; LMap 0; LProduce 0 (Some "read error"); LProduce 0 None; LProduce 0 None;
      LProduce 0 None; LConsume 0; LConsume 0; LSend 0; LMap 0; LCancelQuery (string_bytes "1"); LCancelSub (string_bytes "1") None;
      LUpdate 0 7%nat] CreateDatabaseAPI = Some a ∧
    api_runs a !! 0%nat = Some q ∧ run_consumer q = RunEnded ∧ run_sub q = Some (mkClientSub [7%nat] false).
Proof. eexists _, _. split; [vm_compute; reflexivity|]. split; [reflexivity|]. split; reflexivity. Qed.

(** With a name in use twice, the end of the first query removes the second one from
    the map, which then no cancel reaches. *)
Lemma reused_name_not_canceled :
  ∃ a q, stream_run [LStart (string_bytes "1") StopsOnDone (Some []) false; LMap 0; LStart (string_bytes "1") StopsOnDone (Some [1]%nat) false; LMap 1;
      LProduce 0 None; LProduce 0 None; LConsume 0; LConsume 0; LSend 0; LMap 0; LCancelQuery (string_bytes "1")] CreateDatabaseAPI = Some a ∧
    api_runs a !! 1%nat = Some q ∧ run_consumer q = NextRecord ∧ it_DoneClosed (run_it q) = false.
Proof. eexists _, _. split; [vm_compute; reflexivity|]. split; [reflexivity|]. split; reflexivity. Qed.

(** The storages that do not end on a cancel, and a handler whose connection is no
    longer written, in the states these lead to: no step of the query is left that a
    handler, a storage or the writer takes. *)
Definition no_step {A : Type} (i : nat) (a : DatabaseAPI A) : Prop :=
  stream_step (LProduce i None) a = None ∧ stream_step (LProduceCancelled i) a = None ∧ stream_step (LConsume i) a = None ∧
  stream_step (LConsumeShutdown i) a = None ∧ stream_step (LMap i) a = None ∧ stream_step (LSend i) a = None ∧ stream_step LWrite a = None.

(** The storage of the configuration does not look at the cancel: a connection shut
    down with more options unsent than the buffer holds leaves its goroutine blocked. *)
Lemma config_query_blocks_forever :
  ∃ a q, stream_run (LStart (string_bytes "1") IgnoresDone (Some (seq 0 11)) false :: LMap 0 :: repeat (LProduce 0 None) 10 ++
      [LShutdown; LConsumeShutdown 0; LMap 0])%list CreateDatabaseAPI = Some a ∧
    api_runs a !! 0%nat = Some q ∧ it_DoneClosed (run_it q) = true ∧ run_producer q = Producing [10%nat] ∧ no_step 0 a.
Proof. eexists _, _. split; [vm_compute; reflexivity|]. split; [reflexivity|]. split; [reflexivity|]. split; [reflexivity|]. vm_compute. by split_and!. Qed.

(** The storage of the notifications leaves a canceled iterator without Finish: the
    handler waits for its end, and the client is never told that the query is over. *)
Lemma notifications_query_never_done :
  ∃ a q, stream_run (LStart (string_bytes "1") LeavesOnDone (Some [1; 2]%nat) false :: LMap 0 ::
      [LCancelQuery (string_bytes "1"); LProduceCancelled 0])%list CreateDatabaseAPI = Some a ∧
    api_runs a !! 0%nat = Some q ∧ run_producer q = Left ∧ run_consumer q = NextRecord ∧ no_step 0 a.
Proof. eexists _, _. split; [vm_compute; reflexivity|]. split; [reflexivity|]. split; [reflexivity|]. split; [reflexivity|]. vm_compute. by split_and!. Qed.

(** Once the writer has ended, a handler with a message and no room in the queue stays
    in its send: it never looks at the shutdown. *)
Lemma handler_blocks_after_writer :
  ∃ a q, stream_run ([LStart (string_bytes "1") StopsOnDone (Some [1; 2]%nat) false; LMap 0; LProduce 0 None; LProduce 0 None; LProduce 0 None;
      LProduce 0 None; LProduce 0 None; LProduce 0 None; LConsume 0] ++ repeat (LCancelSub (string_bytes "2") None) 100 ++
      [LWriterEnd])%list CreateDatabaseAPI = Some a ∧
    api_runs a !! 0%nat = Some q ∧ run_out q = Some (MsgRecord 1%nat) ∧ it_DoneClosed (run_it q) = true ∧ no_step 0 a.
Proof. eexists _, _. split; [vm_compute; reflexivity|]. split; [reflexivity|]. split; [reflexivity|]. split; [reflexivity|]. vm_compute. by split_and!. Qed.

(** The storage of the file system skips the records it could not send after a cancel,
    and goes on: what the client gets before its [done] can miss records in between. *)
Lemma fstree_query_gap :
  ∃ a q, stream_run ((LStart (string_bytes "1") SkipsOnDone (Some (seq 0 12)) false :: LMap 0 :: repeat (LProduce 0 None) 10) ++
      [LCancelQuery (string_bytes "1"); LProduceCancelled 0; LConsume 0; LSend 0; LProduce 0 None; LProduce 0 None; LProduce 0 None] ++
      concat (repeat [LConsume 0; LSend 0] 10) ++ [LConsume 0; LConsume 0; LSend 0])%list CreateDatabaseAPI = Some a ∧
    api_runs a !! 0%nat = Some q ∧ run_sent q = ((MsgRecord <$> seq 0 10) ++ [MsgRecord 11%nat; MsgDone])%list.
Proof. eexists _, _. split; [vm_compute; reflexivity|]. split; [reflexivity|]. reflexivity. Qed.

(** An insert into a record without accessor, as one in another format than JSON,
    sets a value on a nil interface. *)
Lemma insert_without_accessor_panics {V : Type} (set_value : V → string → value → string + V) (v : V) (key : string) (x : value) (l : list json_pair) :
  insert_pairs set_value None v (mkJsonPair true (Some key) (Some x) :: l) = (v, Panic).
Proof. done. Qed.

(** An insert that fails has already changed the record, which the storage and the
    cache share. *)
Lemma insert_partial {V : Type} (set_value : V → string → value → string + V) (acc : Accessor) (v v' : V) (key : string) (x : value) :
  set_value v key x = inr v' →
  insert_pairs set_value (Some acc) v [mkJsonPair true (Some key) (Some x); mkJsonPair true None None] = (v', Fail "keys must be strings").
Proof. intros H. simpl. unfold insert_pair. simpl. by rewrite H. Qed.
