(* ===== verification/Runtime.v ===== *)
(** * runtime: value providers behind a database

    registry.go, provider.go, singe_record_provider.go, storage.go and
    trace_provider.go. A provider is a pair of functions over the heap of records;
    the radix tree of the registry is the class [Radix] with its laws, and the map
    of the providers by key is an instance. The registry is a further storage of
    [StorageInterface]. A query asks its providers one after another; the records
    each of them sends are kept apart, since the source sends them from several
    goroutines. Locks are not modelled. *)

From Stdlib Require Import ZArith Lia Ascii String.
From stdpp Require Import gmap list strings.
From S2P Require Import Prelude GoStrings Record Query Storage Controller Interface.
Local Open Scope string_scope.
Local Open Scope Z_scope.

(** ** The tree: github.com/armon/go-radix *)

Class Radix (A T : Type) := {
  radix_New : T;
  radix_Insert : string → A → T → T;
  radix_LongestPrefix : T → string → option (string * A);
  radix_WalkPrefix : T → string → list (string * A);
}.

Class RadixLaws (A T : Type) `{!Radix A T} (entries : T → gmap string A) := {
  radix_New_law : entries (radix_New (A := A)) = ∅;
  radix_Insert_law k a t : entries (radix_Insert k a t) = <[k := a]> (entries t);
  radix_LongestPrefix_law t s :
    match radix_LongestPrefix t s with
    | Some (k, a) =>
        entries t !! k = Some a ∧ HasPrefix s k = true ∧
        ∀ k', is_Some (entries t !! k') → HasPrefix s k' = true → (String.length k' ≤ String.length k)%nat
    | None => ∀ k, is_Some (entries t !! k) → HasPrefix s k = false
    end;
  radix_WalkPrefix_law t p :
    radix_WalkPrefix t p ≡ₚ filter (λ e, HasPrefix e.1 p = true) (map_to_list (entries t));
}.

(** A map as a tree. *)
Definition longer_match {A : Type} (s : string) (e : string * A) (best : option (string * A)) : option (string * A) :=
  if HasPrefix s e.1 then
    match best with
    | Some b => if (String.length b.1 <? String.length e.1)%nat then Some e else best
    | None => Some e
    end
  else best.

#[global] Instance map_radix (A : Type) : Radix A (gmap string A) := {|
  radix_New := ∅;
  radix_Insert k a t := <[k := a]> t;
  radix_LongestPrefix t s := foldr (longer_match s) None (map_to_list t);
  radix_WalkPrefix t p := filter (λ e, HasPrefix e.1 p = true) (map_to_list t);
|}.

(** ** Providers *)

Inductive rt_error : Type :=
| RtWriteOnly
| RtReadOnly
| RtKeyTaken (key : string)
| RtKeyUnmanaged
| RtInjected
| RtNotFound
| RtInvalidQuery (msg : string)
| RtOther (msg : string)
| RtDatabase (err : db_error).

Section Runtime.
Context {V R : Type} `{!QueryLib R} (accessor_of : V → option Accessor).

Record ValueProvider : Type := mkValueProvider {
  vp_Set : loc → st (heap V) rt_error (option loc);
  vp_Get : string → st (heap V) rt_error (list loc);
}.

Definition SimpleValueSetterFunc (fn : loc → st (heap V) rt_error (option loc)) : ValueProvider :=
  mkValueProvider fn (λ _, st_fail RtWriteOnly).

Definition SimpleValueGetterFunc (fn : string → st (heap V) rt_error (list loc)) : ValueProvider :=
  mkValueProvider (λ _, st_fail RtReadOnly) fn.

Definition ProvideRecord (r : loc) : ValueProvider :=
  mkValueProvider (λ _, st_fail RtReadOnly)
    (λ keyOrPrefix, st_get (λ h, Ret (if String.eqb keyOrPrefix (key_of h r) then [r] else []))).

(** Logging has no effect on the result. *)
Definition TraceProvider (vp : ValueProvider) : ValueProvider := mkValueProvider (vp_Set vp) (vp_Get vp).

Definition ModulesIntegration : ValueProvider := mkValueProvider (λ _, st_fail RtReadOnly) (λ _, st_fail RtNotFound).

Record keyedValueProvider : Type := mkKeyed { kp_provider : ValueProvider; kp_key : string }.

(** ** The registry *)

Context {T : Type} `{!Radix keyedValueProvider T}.

(** [reg_dbName] is set with the controller. *)
Record Registry : Type := mkRegistry { reg_providers : T; reg_dbName : option string }.

Definition NewRegistry : Registry := mkRegistry (radix_New (A := keyedValueProvider)) None.

Definition isPrefixKey (key : string) : bool := HasSuffix key "/".

Definition Registry_DatabaseName (r : Registry) : string := default "" (reg_dbName r).

Definition Register (keyOrPrefix : string) (p : ValueProvider) : st Registry rt_error unit := λ r,
  let insert := (mkRegistry (radix_Insert keyOrPrefix (mkKeyed (TraceProvider p) keyOrPrefix) (reg_providers r)) (reg_dbName r), Ret tt) in
  let walk :=
    if isPrefixKey keyOrPrefix then
      match radix_WalkPrefix (A := keyedValueProvider) (reg_providers r) keyOrPrefix with
      | (foundProvider, _) :: _ => if String.eqb foundProvider "" then insert else (r, Fail (RtKeyTaken foundProvider))
      | [] => insert
      end
    else insert in
  match radix_LongestPrefix (A := keyedValueProvider) (reg_providers r) keyOrPrefix with
  | Some (key, _) => if isPrefixKey key || String.eqb key keyOrPrefix then (r, Fail (RtKeyTaken key)) else walk
  | None => walk
  end.

Definition getMatchingProvider (key : string) (r : Registry) : option keyedValueProvider :=
  match radix_LongestPrefix (reg_providers r) key with
  | None => None
  | Some (providerKey, provider) =>
      if negb (isPrefixKey providerKey) && negb (String.eqb providerKey key) then None else Some provider
  end.

Definition collectProviderByPrefix (prefix : string) (r : Registry) : list keyedValueProvider :=
  match radix_LongestPrefix (reg_providers r) prefix with
  | Some (_, p) => [p]
  | None => snd <$> radix_WalkPrefix (reg_providers r) prefix
  end.

Definition GetRegistrationKeys (r : Registry) : list string :=
  fst <$> radix_WalkPrefix (A := keyedValueProvider) (reg_providers r) "".

(** A call of a provider from a method of the registry. *)
Definition on_heap {A : Type} (m : st (heap V) rt_error A) : st (heap V * Registry) rt_error A := λ s,
  let '(h, a) := m s.1 in ((h, s.2), a).

Definition Registry_Get (key : string) : st (heap V * Registry) rt_error loc := λ s,
  match getMatchingProvider key s.2 with
  | None => (s, Fail RtNotFound)
  | Some p =>
      match on_heap (vp_Get (kp_provider p) key) s with
      | (s, Ret records) =>
          (s, match List.find (λ r, String.eqb (key_of s.1 r) key) records with Some r => Ret r | None => Fail RtNotFound end)
      | (s, Fail RtWriteOnly) => (s, Fail RtNotFound)
      | (s, Fail err) => (s, Fail err)
      | (s, Panic) => (s, Panic)
      end
  end.

Definition Registry_Put (m : loc) : st (heap V * Registry) rt_error (option loc) := λ s,
  match getMatchingProvider (key_of s.1 m) s.2 with
  | None => (s, Fail RtKeyUnmanaged)
  | Some p => on_heap (vp_Set (kp_provider p) m) s
  end.

(** The checks of a record of a provider. *)
Definition rt_selects (now : Z) (h : heap V) (q : Query R) (local internal : bool) (r : loc) : bool :=
  MatchesKey q (key_of h r) && CheckValidity now (meta_of h r) && CheckPermission (meta_of h r) local internal &&
  MatchesRecord q (h !! r ≫= λ o, accessor_of (o_value o)).

(** The goroutine of one provider: the records it sends, and its error. *)
Definition query_provider (now : Z) (q : Query R) (local internal : bool) (p : keyedValueProvider)
    : st (heap V) Empty_set (list loc * option rt_error) := λ h,
  let searchPrefix := q_dbKeyPrefix q in
  let key := if (String.length (kp_key p) <? String.length searchPrefix)%nat then searchPrefix else kp_key p in
  match vp_Get (kp_provider p) key h with
  | (h, Ret records) => (h, Ret (List.filter (rt_selects now h q local internal) records, None))
  | (h, Fail RtWriteOnly) => (h, Ret ([], None))
  | (h, Fail err) => (h, Ret ([], Some err))
  | (h, Panic) => (h, Ret ([], Some (RtOther "panic")))
  end.

Fixpoint query_providers (now : Z) (q : Query R) (local internal : bool) (ps : list keyedValueProvider)
    : st (heap V) Empty_set (list (list loc * option rt_error)) :=
  match ps with
  | [] => st_ret []
  | p :: ps =>
      let$ x := query_provider now q local internal p in
      let$ l := query_providers now q local internal ps in
      st_ret (x :: l)
  end.

(** What the iterator gives: the records of each goroutine, which it interleaves,
    and the error of the group, here that of the first provider in the list. *)
Definition Registry_Query (now : Z) (q : Query R) (local internal : bool)
    : st (heap V * Registry) rt_error (list (list loc) * option rt_error) := λ s,
  match Query_Check q with
  | (_, Fail err) => (s, Fail (RtInvalidQuery err))
  | (_, Panic) => (s, Panic)
  | (q, Ret _) =>
      match collectProviderByPrefix (q_dbKeyPrefix q) s.2 with
      | [] => (s, Fail RtKeyUnmanaged)
      | ps =>
          match query_providers now q local internal ps s.1 with
          | (h, Ret l) => ((h, s.2), Ret (fst <$> l, head (omap snd l)))
          | (h, _) => ((h, s.2), Panic)
          end
      end
  end.

(** ** As a storage *)

Definition rt_text (err : rt_error) : string :=
  match err with
  | RtWriteOnly => "runtime record is write-only"
  | RtReadOnly => "runtime record is read-only"
  | RtKeyTaken key => "runtime key or prefix already used: found provider on " ++ key
  | RtKeyUnmanaged => "runtime key not managed by any provider"
  | RtInjected => "registry already injected"
  | RtNotFound => "database entry not found"
  | RtInvalidQuery msg => "invalid query: " ++ msg
  | RtOther msg => msg
  | RtDatabase _ => "database error"
  end.

Definition as_storage_error (err : rt_error) : storage_error :=
  match err with RtNotFound => StorageErrNotFound | err => StorageErrOther (rt_text err) end.

Definition as_storage {A : Type} (m : st (heap V * Registry) rt_error A) : st (heap V * Registry) storage_error A := λ s,
  match m s with
  | (s, Ret a) => (s, Ret a)
  | (s, Fail err) => (s, Fail (as_storage_error err))
  | (s, Panic) => (s, Panic)
  end.

(** storageWrapper: InjectBase where the registry has no method. The error of an
    iterator is not part of the interface's model. *)
#[global] Instance Registry_storage : StorageInterface V R Registry := {|
  storage_Get key := as_storage (Registry_Get key);
  storage_GetMeta := None;
  storage_Put r := as_storage (Registry_Put r);
  storage_PutMany := None;
  storage_Delete _ := st_fail StorageErrNotImplemented;
  storage_Query now q local internal :=
    as_storage (let$ res := Registry_Query now q local internal in st_ret (concat res.1));
  storage_ReadOnly _ := false;
  storage_Injected _ := true;
  storage_Maintain := None;
  storage_MaintainRecordStates _ _ _ := st_ret tt;
  storage_Purge := None;
  storage_Shutdown := st_ret tt;
|}.

(** The controller holds the registry, which knows its name from then on. *)
Definition InjectAsDatabase (name : string) (r : Registry) : st (System V R Registry) rt_error string :=
  match reg_dbName r with
  | Some _ => st_fail RtInjected
  | None => st_wrap RtDatabase (InjectDatabase name (mkRegistry (reg_providers r) (Some name)))
  end.

(** The PushFunc that Register returns; without a controller it does nothing. *)
Definition PushFunc (r : Registry) (records : list loc) : st (System V R Registry) db_error unit :=
  match reg_dbName r with
  | None => st_ret tt
  | Some name => on_controller name (st_iter (PushUpdate accessor_of) records)
  end.

(** modules_integration.go: the record of an event at a new location. *)
Definition event_record (now : Z) (moduleName eventName : string) (internal : bool) (data : V) : object V :=
  let b := SetKey ("runtime:modules/" ++ moduleName ++ "/event/" ++ eventName) (mkBase "" "" None) in
  let b := UpdateMeta now b in
  mkObject (if internal then SetMeta (option_map (λ m, MakeCrownJewel (MakeSecret m)) (meta b)) b else b) data.

Definition pushModuleEvent (now : Z) (r : Registry) (moduleName eventName : string) (internal : bool) (data : V)
    : st (System V R Registry) db_error unit := λ sys,
  let l := fresh (dom (sys_heap sys)) in
  PushFunc r [l] (set_sys_heap (<[l := event_record now moduleName eventName internal data]> (sys_heap sys)) sys).

End Runtime.

(** ** Lemmas *)

Definition responsible (k key : string) : bool := String.eqb k key || (isPrefixKey k && HasPrefix key k).

(** Two prefixes of one string. *)
Lemma HasPrefix_two (s a b : string) :
  HasPrefix s a = true → HasPrefix s b = true → (String.length a ≤ String.length b)%nat → HasPrefix b a = true.
Proof.
  revert a b. induction s as [|c s IH]; intros a b Ha Hb Hl.
  - destruct b; [|done]. destruct a; [done|simpl in Hl; lia].
  - destruct a as [|x a]; [by destruct b|]. destruct b as [|y b]; [simpl in Hl; lia|].
    unfold HasPrefix in *. simpl in *. destruct (ascii_dec x c); [|done]. destruct (ascii_dec y c); [|done]. subst.
    destruct (ascii_dec c c); [|done]. apply IH; [done..|lia].
Qed.

Lemma HasPrefix_refl (s : string) : HasPrefix s s = true.
Proof. apply HasPrefix_spec. exists "". by rewrite string_app_nil_r. Qed.

Lemma HasPrefix_trans (a b c : string) : HasPrefix a b = true → HasPrefix b c = true → HasPrefix a c = true.
Proof.
  intros [t ->]%HasPrefix_spec [u ->]%HasPrefix_spec. apply HasPrefix_spec. exists (u ++ t). by rewrite string_app_assoc.
Qed.

Lemma HasPrefix_length (s p : string) : HasPrefix s p = true → (String.length p ≤ String.length s)%nat.
Proof. intros [t ->]%HasPrefix_spec. rewrite length_string_app. lia. Qed.

Lemma HasPrefix_antisym (a b : string) : HasPrefix a b = true → (String.length a ≤ String.length b)%nat → a = b.
Proof.
  intros [t ->]%HasPrefix_spec Hl. rewrite length_string_app in Hl. destruct t; [by rewrite string_app_nil_r|simpl in Hl; lia].
Qed.

#[global] Instance map_radix_laws (A : Type) : RadixLaws A (gmap string A) (λ t, t).
Proof.
  split; [done|done| |done]. intros t s. cbn.
  assert (∀ l : list (string * A), match foldr (longer_match s) None l with
    | Some (k, a) => (k, a) ∈ l ∧ HasPrefix s k = true ∧ ∀ e, e ∈ l → HasPrefix s e.1 = true → (String.length e.1 ≤ String.length k)%nat
    | None => ∀ e, e ∈ l → HasPrefix s e.1 = false
    end) as H.
  { induction l as [|e l IH]; simpl; [set_solver|]. unfold longer_match at 1. destruct (HasPrefix s e.1) eqn:He.
    - destruct (foldr (longer_match s) None l) as [[k a]|].
      + simpl. destruct IH as (H1 & H2 & H3). destruct (Nat.ltb_spec (String.length k) (String.length e.1)).
        * destruct e as [k' a']. simpl in *. split; [by left|]. split; [done|]. intros e' [->|He']%elem_of_cons Hp; [done|].
          specialize (H3 e' He' Hp). lia.
        * split; [by right|]. split; [done|]. intros e' [->|He']%elem_of_cons Hp; [lia|auto].
      + destruct e as [k' a']. simpl in *. split; [by left|]. split; [done|]. intros e' [->|He']%elem_of_cons Hp; [done|].
        apply IH in He'. congruence.
    - destruct (foldr (longer_match s) None l) as [[k a]|].
      + destruct IH as (H1 & H2 & H3). split; [by right|]. split; [done|]. intros e' [->|He']%elem_of_cons Hp; [congruence|auto].
      + intros e' [->|He']%elem_of_cons; auto. }
  specialize (H (map_to_list t)). destruct (foldr (longer_match s) None (map_to_list t)) as [[k a]|].
  - destruct H as (H1 & H2 & H3). split; [by apply elem_of_map_to_list|]. split; [done|]. intros k' [a' Hk'] Hp.
    apply (H3 (k', a')); [by apply elem_of_map_to_list|done].
  - intros k [a Hk]. apply (H (k, a)). by apply elem_of_map_to_list.
Qed.

Section RuntimeLemmas.
Context {V R : Type} `{!QueryLib R} (accessor_of : V → option Accessor).
Context {T : Type} {RT : Radix (keyedValueProvider (V := V)) T}.
Context (entries : T → gmap string (keyedValueProvider (V := V))) {laws : RadixLaws _ T entries}.
Implicit Types (r : Registry (T := T)) (p : keyedValueProvider (V := V)).

(** No provider has a key that another one is responsible for. *)
Definition runtime_ok r : Prop :=
  (∀ k p, entries (reg_providers r) !! k = Some p → kp_key p = k) ∧
  (∀ k1 k2, is_Some (entries (reg_providers r) !! k1) → is_Some (entries (reg_providers r) !! k2) → responsible k1 k2 = true → k1 = k2).

Lemma responsible_prefix k key : responsible k key = true → HasPrefix key k = true.
Proof.
  unfold responsible. intros [->%String.eqb_eq|[_ ?]%andb_prop]%orb_prop; [apply HasPrefix_refl|done].
Qed.

Lemma responsible_trans a b c : responsible a b = true → responsible b c = true → responsible a c = true.
Proof.
  intros Hab Hbc. pose proof (responsible_prefix _ _ Hbc) as Hp. unfold responsible in Hab |- *.
  apply orb_prop in Hab as [->%String.eqb_eq|[H1 H2]%andb_prop]; [done|].
  rewrite H1. rewrite (HasPrefix_trans c b a) by done. by rewrite orb_true_r.
Qed.

(** The longest prefix decides: if any provider is responsible, it is. *)
Lemma longest_responsible r key k p :
  runtime_ok r → radix_LongestPrefix (reg_providers r) key = Some (k, p) →
  ∀ k', is_Some (entries (reg_providers r) !! k') → responsible k' key = true → k' = k.
Proof.
  intros [_ Hok] Hl k' Hk' Hr. pose proof (radix_LongestPrefix_law (reg_providers r) key) as H. rewrite Hl in H.
  destruct H as (H1 & H2 & H3). pose proof (responsible_prefix _ _ Hr) as Hp. specialize (H3 k' Hk' Hp).
  apply Hok; [done|by eexists|]. unfold responsible in Hr |- *. apply orb_prop in Hr as [->%String.eqb_eq|[Hs _]%andb_prop].
  - rewrite (HasPrefix_antisym key k); [by rewrite String.eqb_refl|done|done].
  - rewrite Hs, (HasPrefix_two key k' k) by done. by rewrite orb_true_r.
Qed.

(** Whether a key is free: nobody is responsible for it, and it for nobody. *)
Definition conflicts (k1 k2 : string) : bool := responsible k1 k2 || responsible k2 k1.

Lemma runtime_ok_insert r k v :
  runtime_ok r → (∀ k', is_Some (entries (reg_providers r) !! k') → conflicts k k' = false) → kp_key v = k →
  runtime_ok (mkRegistry (radix_Insert k v (reg_providers r)) (reg_dbName r)).
Proof.
  intros [H1 H2] Hc Hv. split; simpl; rewrite radix_Insert_law.
  - intros k' p. rewrite lookup_insert_Some. intros [[<- <-]|[_ ?]]; [done|by apply H1].
  - intros k1 k2. rewrite !lookup_insert_is_Some. unfold conflicts in Hc.
    intros [<-|[Hne1 Hk1]] [<-|[Hne2 Hk2]] Hr; [done| | |by apply H2].
    + specialize (Hc k2 Hk2). by rewrite Hr in Hc.
    + specialize (Hc k1 Hk1). by rewrite Hr, orb_true_r in Hc.
Qed.

Lemma getMatchingProvider_spec r key p :
  runtime_ok r → getMatchingProvider key r = Some p ↔ entries (reg_providers r) !! kp_key p = Some p ∧ responsible (kp_key p) key = true.
Proof.
  intros Hok. unfold getMatchingProvider. pose proof (radix_LongestPrefix_law (reg_providers r) key) as Hl.
  destruct (radix_LongestPrefix (reg_providers r) key) as [[k v]|] eqn:He.
  - destruct Hl as (H1 & H2 & H3). pose proof (proj1 Hok _ _ H1) as Hk. split.
    + intros H. destruct (negb (isPrefixKey k) && negb (String.eqb k key)) eqn:Hc; [done|]. simplify_eq. split; [done|].
      unfold responsible. rewrite H2, andb_true_r. destruct (String.eqb (kp_key p) key), (isPrefixKey (kp_key p)); done.
    + intros [Hp Hr]. pose proof (longest_responsible _ _ _ _ Hok He (kp_key p) ltac:(by eexists) Hr) as Hkp.
      rewrite Hkp in *. simplify_eq. unfold responsible in Hr. apply orb_prop in Hr as [Hr|[Hr _]%andb_prop]; rewrite Hr; [by rewrite andb_false_r|done].
  - split; [done|]. intros [Hp Hr%responsible_prefix]. rewrite Hl in Hr; [done|by eexists].
Qed.

Lemma walk_head r k k' v l :
  radix_WalkPrefix (reg_providers r) k = (k', v) :: l → entries (reg_providers r) !! k' = Some v ∧ HasPrefix k' k = true.
Proof.
  intros H. assert ((k', v) ∈ radix_WalkPrefix (reg_providers r) k) as Hin by (rewrite H; by left).
  rewrite radix_WalkPrefix_law in Hin. apply list_elem_of_filter in Hin as [Hp Hin]. by apply elem_of_map_to_list in Hin.
Qed.

Lemma walk_nil r k k' : radix_WalkPrefix (A := keyedValueProvider) (reg_providers r) k = [] → is_Some (entries (reg_providers r) !! k') → HasPrefix k' k = false.
Proof.
  intros H [v Hv]. destruct (HasPrefix k' k) eqn:Hp; [|done]. pose proof (radix_WalkPrefix_law (reg_providers r) k) as Hl. rewrite H in Hl.
  assert ((k', v) ∈ filter (λ e, HasPrefix e.1 k = true) (map_to_list (entries (reg_providers r)))) as Hin.
  { apply list_elem_of_filter. split; [done|]. by apply elem_of_map_to_list. }
  rewrite <- Hl in Hin. by apply not_elem_of_nil in Hin.
Qed.

(** What a registration may do. *)
Definition registered r key (vp : ValueProvider (V := V)) (res : Registry (T := T) * go rt_error unit) : Prop :=
  match res with
  | (r', Ret _) =>
      (∀ k, is_Some (entries (reg_providers r) !! k) → conflicts key k = false) ∧
      entries (reg_providers r') = <[key := mkKeyed (TraceProvider vp) key]> (entries (reg_providers r)) ∧ runtime_ok r'
  | (r', Fail err) => ∃ k, err = RtKeyTaken k ∧ is_Some (entries (reg_providers r) !! k) ∧ conflicts key k = true ∧ r' = r
  | (_, Panic) => False
  end.

(** Registration where no provider is responsible for the key. *)
Lemma Register_free r key vp :
  runtime_ok r → (∀ k, is_Some (entries (reg_providers r) !! k) → responsible k key = false) → registered r key vp (Register key vp r).
Proof.
  intros Hok Hfree. unfold Register. set (insert := (_, Ret tt)). set (walk := if isPrefixKey key then _ else _).
  assert (∀ k, is_Some (entries (reg_providers r) !! k) → String.eqb key k = false) as Hne.
  { intros k Hk. destruct (String.eqb_spec key k) as [<-|]; [|done]. specialize (Hfree key Hk). unfold responsible in Hfree. by rewrite String.eqb_refl in Hfree. }
  assert ((∀ k, is_Some (entries (reg_providers r) !! k) → responsible key k = false) → registered r key vp insert) as Hins.
  { intros Hfree'. assert (∀ k, is_Some (entries (reg_providers r) !! k) → conflicts key k = false) as Hc.
    { intros k Hk. unfold conflicts. by rewrite Hfree, Hfree'. }
    subst insert. simpl. split; [done|]. split; [apply radix_Insert_law|]. by apply runtime_ok_insert. }
  assert (registered r key vp walk) as Hwalk.
  { subst walk. destruct (isPrefixKey key) eqn:Hpk.
    - destruct (radix_WalkPrefix (reg_providers r) key) as [|[k v] l] eqn:Hw.
      + apply Hins. intros k Hk. unfold responsible. by rewrite (walk_nil r key k Hw Hk), Hne, andb_false_r.
      + apply walk_head in Hw as [Hk Hp]. destruct (String.eqb_spec k "") as [->|_].
        * destruct key; [done|]. apply HasPrefix_length in Hp. simpl in Hp. lia.
        * exists k. split; [done|]. split; [by eexists|]. split; [|done]. unfold conflicts, responsible. by rewrite Hpk, Hp, !orb_true_r.
    - apply Hins. intros k Hk. unfold responsible. by rewrite Hpk, Hne. }
  pose proof (radix_LongestPrefix_law (reg_providers r) key) as Hl.
  destruct (radix_LongestPrefix (reg_providers r) key) as [[k v]|]; [|done]. destruct Hl as (H1 & H2 & _).
  specialize (Hfree k ltac:(by eexists)). unfold responsible in Hfree. rewrite H2, andb_true_r, orb_comm in Hfree. by rewrite Hfree.
Qed.

End RuntimeLemmas.

(** ** Properties *)

Section RuntimeTheorems.
Context {V R : Type} `{!QueryLib R} (accessor_of : V → option Accessor).
Context {T : Type} {RT : Radix (keyedValueProvider (V := V)) T}.
Context (entries : T → gmap string (keyedValueProvider (V := V))) {laws : RadixLaws _ T entries}.
Implicit Types (r : Registry (T := T)) (p : keyedValueProvider (V := V)).

(** C24: Registration keeps the providers apart: a provider is added exactly when no
    registered one is responsible for its key or prefix and it for none of theirs;
    otherwise nothing changes and the error names one of those in the way. *)
Theorem Register_exact r key (vp : ValueProvider (V := V)) : runtime_ok entries r → registered entries r key vp (Register key vp r).
Proof.
  intros Hok. pose proof (radix_LongestPrefix_law (reg_providers r) key) as Hl.
  destruct (radix_LongestPrefix (reg_providers r) key) as [[k v]|] eqn:He.
  - destruct Hl as (H1 & H2 & _). destruct (isPrefixKey k || String.eqb k key) eqn:Hc.
    + unfold Register. rewrite He, Hc. exists k. split; [done|]. split; [by eexists|]. split; [|done].
      unfold conflicts, responsible. rewrite H2, andb_true_r, (orb_comm (String.eqb k key)), Hc. apply orb_true_r.
    + apply Register_free; [done..|]. intros k' Hk'. destruct (responsible k' key) eqn:Hr; [|done].
      pose proof (longest_responsible entries _ _ _ _ Hok He k' Hk' Hr) as ->. unfold responsible in Hr.
      rewrite H2, andb_true_r, orb_comm in Hr. by rewrite Hc in Hr.
  - apply Register_free; [done..|]. intros k Hk. destruct (responsible k key) eqn:Hr; [|done]. apply responsible_prefix in Hr. by rewrite Hl in Hr.
Qed.

(** Get asks the one provider that is responsible for the key, if there is one,
    and returns the first of its records that has exactly this key; a provider that
    only takes values, like a key without provider, is not found. *)
Theorem Registry_Get_exact r key (h : heap V) :
  runtime_ok entries r →
  (∃ p, entries (reg_providers r) !! kp_key p = Some p ∧ responsible (kp_key p) key = true ∧
     (∀ k, is_Some (entries (reg_providers r) !! k) → responsible k key = true → k = kp_key p) ∧
     Registry_Get key (h, r) =
       let '(h', res) := vp_Get (kp_provider p) key h in
       ((h', r), match res with
                 | Ret records => match List.find (λ l, String.eqb (key_of h' l) key) records with Some l => Ret l | None => Fail RtNotFound end
                 | Fail RtWriteOnly => Fail RtNotFound
                 | Fail err => Fail err
                 | Panic => Panic
                 end)) ∨
  ((∀ k, is_Some (entries (reg_providers r) !! k) → responsible k key = false) ∧ Registry_Get key (h, r) = ((h, r), Fail RtNotFound)).
Proof.
  intros Hok. unfold Registry_Get. simpl. destruct (getMatchingProvider key r) as [p|] eqn:Hg.
  - left. exists p. apply (getMatchingProvider_spec entries) in Hg as [H1 H2]; [|done]. split; [done|]. split; [done|]. split.
    + intros k [v Hk] Hr. pose proof (proj1 Hok _ _ Hk) as Hv.
      assert (getMatchingProvider key r = Some v) as Hg' by (apply (getMatchingProvider_spec entries); [done|by rewrite Hv]).
      assert (getMatchingProvider key r = Some p) as Hg by (by apply (getMatchingProvider_spec entries)). simplify_eq. done.
    + unfold on_heap. simpl. destruct (vp_Get (kp_provider p) key h) as [h' [l|[]|]]; done.
  - right. split; [|done]. intros k [v Hk]. destruct (responsible k key) eqn:Hr; [|done]. pose proof (proj1 Hok _ _ Hk) as Hv.
    assert (getMatchingProvider key r = Some v) as Hg' by (apply (getMatchingProvider_spec entries); [done|by rewrite Hv]). congruence.
Qed.

(** The providers that may have records under a prefix. *)
Definition concerned (prefix k : string) : bool := HasPrefix k prefix || responsible k prefix.

(** Unless the longest prefix of the searched prefix is a single key, the query asks
    exactly the providers concerned. *)
Lemma collect_exact r prefix :
  runtime_ok entries r →
  (∀ k, is_Some (entries (reg_providers r) !! k) → HasPrefix prefix k = true → isPrefixKey k = true) →
  collectProviderByPrefix prefix r ≡ₚ snd <$> filter (λ e, concerned prefix e.1 = true) (map_to_list (entries (reg_providers r))).
Proof.
  intros Hok Hc. unfold collectProviderByPrefix. pose proof (radix_LongestPrefix_law (reg_providers r) prefix) as Hl.
  destruct (radix_LongestPrefix (reg_providers r) prefix) as [[k v]|] eqn:He.
  - destruct Hl as (H1 & H2 & _). change [v] with (snd <$> [(k, v)]). apply fmap_Permutation, NoDup_Permutation;
      [apply NoDup_singleton|apply NoDup_filter, NoDup_map_to_list|].
    assert (isPrefixKey k = true) as Hpk by (by apply Hc; [by eexists|]).
    intros [k' v']. rewrite list_elem_of_singleton, list_elem_of_filter, elem_of_map_to_list. simpl. unfold concerned. split.
    + intros [= -> ->]. split; [|done]. unfold responsible. by rewrite Hpk, H2, !orb_true_r.
    + intros [Hr Hk']. assert (k' = k) as ->; [|by simplify_eq]. apply orb_prop in Hr as [Hr|Hr].
      * symmetry. apply (proj2 Hok); [by eexists..|]. unfold responsible. rewrite Hpk, (HasPrefix_trans k' prefix k) by done. by rewrite orb_true_r.
      * by eapply longest_responsible.
  - apply fmap_Permutation. rewrite radix_WalkPrefix_law. apply NoDup_Permutation; [apply NoDup_filter, NoDup_map_to_list..|].
    intros [k v]. rewrite !list_elem_of_filter, elem_of_map_to_list. simpl. unfold concerned. split.
    + intros [-> ?]. done.
    + intros [Hr Hk]. split; [|done]. apply orb_prop in Hr as [Hr|Hr%responsible_prefix]; [done|]. by rewrite Hl in Hr.
Qed.

(** What a provider that changes nothing sends for a query. *)
Definition provider_records (now : Z) (h : heap V) (q : Query R) (local internal : bool) p : list loc :=
  let prefix := q_dbKeyPrefix q in
  let key := if (String.length (kp_key p) <? String.length prefix)%nat then prefix else kp_key p in
  match (vp_Get (kp_provider p) key h).2 with
  | Ret records => List.filter (rt_selects accessor_of now h q local internal) records
  | _ => []
  end.

Lemma query_providers_pure now q local internal ps (h : heap V) :
  (∀ p k, p ∈ ps → (vp_Get (kp_provider p) k h).1 = h) →
  ∃ l, query_providers accessor_of now q local internal ps h = (h, Ret l) ∧ l.*1 = provider_records now h q local internal <$> ps.
Proof.
  induction ps as [|p ps IH]; intros Hp; [by exists []|]. destruct IH as (l & Hl & Hl'); [intros; by apply Hp; right|].
  simpl. unfold st_bind at 1, query_provider.
  set (key := if (String.length (kp_key p) <? _)%nat then _ else _).
  specialize (Hp p key ltac:(by left)).
  destruct (vp_Get (kp_provider p) key h) as [h' res] eqn:Hg. simpl in Hp. subst h'.
  assert (∀ x : list loc * option rt_error, x.1 = provider_records now h q local internal p →
    ∃ l0, st_bind (query_providers accessor_of now q local internal ps) (λ l, st_ret (x :: l)) h = (h, Ret l0) ∧
      l0.*1 = provider_records now h q local internal <$> (p :: ps)) as Hx.
  { intros x Hx. unfold st_bind. rewrite Hl. eexists. split; [done|]. rewrite !fmap_cons. by rewrite Hx, Hl'. }
  unfold provider_records in Hx at 1. fold key in Hx. rewrite Hg in Hx. simpl in Hx.
  destruct res as [records|[]|]; by apply Hx.
Qed.

(** A query delivers what it should: where no single key is a prefix of the
    searched prefix, exactly the providers that may have records under it are asked,
    and the matching, valid and permitted ones of their records are sent; without
    such a provider, the key is not managed. *)
Theorem Registry_Query_exact r now (q q' : Query R) local internal (h : heap V) :
  runtime_ok entries r → Query_Check q = (q', Ret tt) →
  (∀ k, is_Some (entries (reg_providers r) !! k) → HasPrefix (q_dbKeyPrefix q') k = true → isPrefixKey k = true) →
  (∀ k p key, entries (reg_providers r) !! k = Some p → (vp_Get (kp_provider p) key h).1 = h) →
  ∃ ps, ps ≡ₚ snd <$> filter (λ e, concerned (q_dbKeyPrefix q') e.1 = true) (map_to_list (entries (reg_providers r))) ∧
    if decide (ps = []) then Registry_Query accessor_of now q local internal (h, r) = ((h, r), Fail RtKeyUnmanaged)
    else ∃ err, Registry_Query accessor_of now q local internal (h, r) =
      ((h, r), Ret (provider_records now h q' local internal <$> ps, err)).
Proof.
  intros Hok Hq Hc Hpure. pose proof (collect_exact r (q_dbKeyPrefix q') Hok Hc) as Hps.
  exists (collectProviderByPrefix (q_dbKeyPrefix q') r). split; [done|]. unfold Registry_Query. rewrite Hq. simpl.
  destruct (query_providers_pure now q' local internal (collectProviderByPrefix (q_dbKeyPrefix q') r) h) as (l & Hl & Hl').
  { intros p key Hp. rewrite Hps in Hp. apply list_elem_of_fmap in Hp as ([k v] & -> & Hp).
    apply list_elem_of_filter in Hp as [_ Hp]. apply elem_of_map_to_list in Hp. by eapply Hpure. }
  destruct (collectProviderByPrefix (q_dbKeyPrefix q') r) as [|p ps]; [done|]. rewrite decide_False by done.
  simpl in Hl. rewrite Hl. eexists. by rewrite <- Hl'.
Qed.

End RuntimeTheorems.

(** ** Witnesses and findings *)

Abbreviation unit_provider := (keyedValueProvider (V := unit)).

Definition no_accessors (v : unit) : option Accessor := None.

(** Two records: one under a single key, one of a provider of a prefix. *)
Definition rt_heap : heap unit :=
  {[ 0%nat := mkObject (mkBase "runtime" "foo" (Some zeroMeta)) tt;
     1%nat := mkObject (mkBase "runtime" "foobar/x" (Some zeroMeta)) tt ]}.

Definition foobar_provider : ValueProvider (V := unit) := SimpleValueGetterFunc (λ _, st_ret [1%nat]).

Definition rt_entries : gmap string unit_provider :=
  <["foobar/" := mkKeyed foobar_provider "foobar/"]> {[ "foo" := mkKeyed (ProvideRecord 0%nat) "foo" ]}.

Definition rt_registry : Registry (T := gmap string unit_provider) := mkRegistry rt_entries None.

Lemma rt_runtime_ok : runtime_ok (λ t, t) rt_registry.
Proof.
  split; simpl; unfold rt_entries.
  - intros k p. rewrite lookup_insert_Some, lookup_singleton_Some. by intros [[<- <-]|[_ [<- <-]]].
  - intros k1 k2. rewrite !lookup_insert_is_Some, !lookup_singleton_is_Some. by intros [<-|[_ <-]] [<-|[_ <-]].
Qed.

Lemma Register_exact_witness :
  registered (λ t, t) rt_registry "foobar/y" (ProvideRecord 0%nat) (Register "foobar/y" (ProvideRecord 0%nat) rt_registry).
Proof. apply Register_exact; [apply map_radix_laws|apply rt_runtime_ok]. Defined.

Lemma Registry_Get_exact_witness :
  let r := rt_registry in
  (∃ p, rt_entries !! kp_key p = Some p ∧ responsible (kp_key p) "foobar/x" = true ∧
     (∀ k, is_Some (rt_entries !! k) → responsible k "foobar/x" = true → k = kp_key p) ∧
     Registry_Get "foobar/x" (rt_heap, r) =
       let '(h', res) := vp_Get (kp_provider p) "foobar/x" rt_heap in
       ((h', r), match res with
                 | Ret records => match List.find (λ l, String.eqb (key_of h' l) "foobar/x") records with Some l => Ret l | None => Fail RtNotFound end
                 | Fail RtWriteOnly => Fail RtNotFound
                 | Fail err => Fail err
                 | Panic => Panic
                 end)) ∨
  ((∀ k, is_Some (rt_entries !! k) → responsible k "foobar/x" = false) ∧ Registry_Get "foobar/x" (rt_heap, r) = ((rt_heap, r), Fail RtNotFound)).
Proof. apply (Registry_Get_exact (λ t, t) rt_registry "foobar/x" rt_heap), rt_runtime_ok. Defined.

Lemma Registry_Query_exact_witness :
  let q := mkQuery true "runtime" "f" None "" 0 0 in
  ∃ ps, ps ≡ₚ snd <$> filter (λ e, concerned (q_dbKeyPrefix q) e.1 = true) (map_to_list rt_entries) ∧
    if decide (ps = []) then Registry_Query no_accessors 5 q true true (rt_heap, rt_registry) = ((rt_heap, rt_registry), Fail RtKeyUnmanaged)
    else ∃ err, Registry_Query no_accessors 5 q true true (rt_heap, rt_registry) =
      ((rt_heap, rt_registry), Ret (provider_records no_accessors 5 rt_heap q true true <$> ps, err)).
Proof.
  intros q. refine (Registry_Query_exact no_accessors (λ t, t) rt_registry 5 q q true true rt_heap rt_runtime_ok _ _ _).
  - reflexivity.
  - simpl. unfold rt_entries. intros k. rewrite lookup_insert_is_Some, lookup_singleton_is_Some. by intros [<-|[_ <-]].
  - simpl. unfold rt_entries. intros k p key. rewrite lookup_insert_Some, lookup_singleton_Some.
    intros [[<- <-]|[_ [<- <-]]]; reflexivity.
Defined.

(** A query asks only the provider with the longest prefix of what is searched, also
    when this is a single key, which can have nothing below the searched prefix: the
    records of the others are missing. *)
Lemma query_misses_provider :
  let q := mkQuery true "runtime" "foob" None "" 0 0 in
  concerned "foob" "foobar/" = true ∧
  rt_selects no_accessors 5 rt_heap q true true 1%nat = true ∧
  Registry_Query no_accessors 5 q true true (rt_heap, rt_registry) = ((rt_heap, rt_registry), Ret ([[]], None)) ∧
  Registry_Query no_accessors 5 (mkQuery true "runtime" "foo" None "" 0 0) true true (rt_heap, rt_registry) =
    ((rt_heap, rt_registry), Ret ([[0%nat]], None)).
Proof. split; [reflexivity|]. split; [vm_compute; reflexivity|]. split; vm_compute; reflexivity. Qed.
