(* ===== verification/FsTree.v ===== *)
(** * database/storage/fstree: records as files

    fstree.go over the file system of [GoFs]: a record is the file at its key
    below the base path, written atomically by a copy of renameio's WriteFile. A
    file system call may fail at any time. The order in which filepath.Walk visits
    the paths is a parameter; the time-out of a slow consumer is not modelled. *)

From Stdlib Require Import ZArith Lia Ascii String.
From stdpp Require Import gmap list strings.
From S2P Require Import Prelude GoStrings GoPath GoFs UtilsFs Dsd Record Query Storage.
Local Open Scope string_scope.
Local Open Scope Z_scope.

(** ** os.MkdirAll and filepath.Walk *)

(** The ancestors of a path, from above; the number of its bytes bounds them. *)
Fixpoint mkdir_all (env : OsEnv) (fuel : nat) (path : string) (perm : Z) : st Sys os_error unit :=
  match fuel with
  | O => st_ret tt
  | S fuel =>
      let$ found := st_try (os_Stat env path) in
      match found with
      | Ret (DirNode _) => st_ret tt
      | Ret (FileNode _) => st_fail OsOther
      | _ =>
          let parent := path_Dir path in
          let$ _ := (if String.eqb parent "/" then st_ret tt else mkdir_all env fuel parent perm) in
          let$ made := st_try (os_Mkdir env path perm) in
          match made with
          | Ret _ => st_ret tt
          | Fail err =>
              let$ again := st_try (os_Stat env path) in
              match again with Ret (DirNode _) => st_ret tt | _ => st_fail err end
          | Panic => λ s, (s, Panic)
          end
      end
  end.

Definition os_MkdirAll (env : OsEnv) (path : string) (perm : Z) : st Sys os_error unit := mkdir_all env (String.length path) path perm.

(** The paths that Walk visits: the root, which need not exist, and what is below,
    without what is below a directory the function skips. *)
Definition walk_paths (order : list string → list string) (skip : string → bool) (root : string) (m : fs) : list string :=
  let visited := λ p, String.eqb p root || below root p in
  let hidden := λ p, existsb (λ d, visited d && is_dir m d && skip d && below d p) (map_to_list m).*1 in
  root :: order (List.filter (λ p, below root p && negb (hidden p)) (map_to_list m).*1).

(** ** The storage *)

Inductive fst_error : Type :=
| FstNotFound
| FstPath (path : string)
| FstNotDir (path : string)
| FstOs (op path : string) (err : os_error)
| FstRecord (text : string)
| FstQuery (msg : string).

Definition defaultFileMode : Z := 420.
Definition defaultDirMode : Z := 493.

(** The struct, with the file system it works on. *)
Record FSTree : Type := mkFSTree { fst_name : string; basePath : string; fst_sys : Sys }.

Section FsTree.
Context {V R X : Type} `{!QueryLib R} (accessor_of : V → option Accessor).
Context (env : OsEnv) (lib : Codecs Meta X) (order : list string → list string).
Context (wrapped : Z → bytes → V) (marshal_record : object V → go (record_error X) bytes).
Context (record_error_text : record_error X → string).

(** filepath.Abs of a location that is rooted is Clean. *)
Definition NewFSTree (name location : string) : st Sys fst_error (string * string) :=
  let basePath := path_Clean location in
  let$ file := st_try (os_Stat env basePath) in
  match file with
  | Ret (DirNode _) => st_ret (name, basePath)
  | Ret (FileNode _) => st_fail (FstNotDir basePath)
  | Fail OsNotExist =>
      let$ _ := st_wrap (FstOs "create directory" basePath) (os_MkdirAll env basePath defaultDirMode) in
      st_ret (name, basePath)
  | Fail err => st_fail (FstOs "stat" basePath err)
  | Panic => λ s, (s, Panic)
  end.

Definition buildFilePath (key : string) (checkKeyLength : bool) (fst : FSTree) : go fst_error string :=
  if checkKeyLength && (String.length key <? 1)%nat then Fail (FstPath key)
  else
    let dstPath := path_Join (basePath fst) key in
    if negb (HasPrefix dstPath (basePath fst)) then Fail (FstPath dstPath) else Ret dstPath.

Abbreviation W := (heap V * FSTree)%type.

Definition set_sys (s : Sys) (fst : FSTree) : FSTree := mkFSTree (fst_name fst) (basePath fst) s.

(** A file system call of a method. *)
Definition on_os {E A : Type} (m : st Sys E A) : st W E A := λ w,
  let '(s, a) := m (fst_sys w.2) in ((w.1, set_sys s w.2), a).

(** A new wrapper on the heap. *)
Definition new_wrapper (w : Wrapper) : st W fst_error loc := λ s,
  let r := fresh (dom s.1) in ((<[r := mkObject (wbase w) (wrapped (Format w) (Data w))]> s.1, s.2), Ret r).

Definition load_record (key : string) (data : bytes) : st W fst_error loc :=
  let$ name := st_get (λ w, Ret (fst_name w.2)) in
  match NewRawWrapper lib name key data with
  | Ret w => new_wrapper w
  | Fail err => st_fail (FstRecord (record_error_text err))
  | Panic => λ s, (s, Panic)
  end.

Definition FSTree_Get (key : string) : st W fst_error loc :=
  let$ dstPath := st_get (λ w, buildFilePath key true w.2) in
  let$ data := st_try (on_os (os_ReadFile env dstPath)) in
  match data with
  | Ret data => load_record key data
  | Fail OsNotExist => st_fail FstNotFound
  | Fail err => st_fail (FstOs "read" dstPath err)
  | Panic => λ s, (s, Panic)
  end.

Definition FSTree_GetMeta (key : string) : st W fst_error (option Meta) :=
  let$ r := FSTree_Get key in st_get (λ w, Ret (meta_of w.1 r)).

(** The copy of renameio.WriteFile, not on Windows. *)
Definition writeFile (filename : string) (data : bytes) (perm : Z) : st Sys os_error unit :=
  let$ t := TempFile env "" filename in
  with_cleanup env t
    (let$ _ := file_Chmod env (pf_Name t) perm in
     let$ _ := file_Write env (pf_Name t) data in
     CloseAtomicallyReplace env t).

Definition FSTree_Put (r : loc) : st W fst_error (option loc) :=
  let$ dstPath := st_get (λ w, buildFilePath (key_of w.1 r) true w.2) in
  let$ data := st_get (λ w, match w.1 !! r with
                            | Some o => go_mapError (λ e, FstRecord (record_error_text e)) (marshal_record o)
                            | None => Panic
                            end) in
  let$ written := st_try (on_os (writeFile dstPath data defaultFileMode)) in
  match written with
  | Ret _ => st_ret (Some r)
  | Panic => λ s, (s, Panic)
  | Fail _ =>
      let$ _ := st_wrap (FstOs "create directory" (path_Dir dstPath)) (on_os (os_MkdirAll env (path_Dir dstPath) defaultDirMode)) in
      let$ _ := st_wrap (FstOs "write" dstPath) (on_os (writeFile dstPath data defaultFileMode)) in
      st_ret (Some r)
  end.

Definition FSTree_Delete (key : string) : st W fst_error unit :=
  let$ dstPath := st_get (λ w, buildFilePath key true w.2) in
  st_wrap (FstOs "delete" dstPath) (on_os (os_Remove env dstPath)).

(** ** Queries *)

Definition walk_root (walkPrefix : string) : st W fst_error string :=
  let$ fileInfo := st_try (on_os (os_Stat env walkPrefix)) in
  match fileInfo with
  | Ret (DirNode _) => st_ret walkPrefix
  | Ret (FileNode _) | Fail OsNotExist => st_ret (path_Dir walkPrefix)
  | Fail err => st_fail (FstOs "stat" walkPrefix err)
  | Panic => λ s, (s, Panic)
  end.

(** What happens with a record that was read: the checks before it is sent. *)
Definition fst_selects (now : Z) (h : heap V) (q : Query R) (local internal : bool) (r : loc) : bool :=
  CheckValidity now (meta_of h r) && CheckPermission (meta_of h r) local internal &&
  MatchesRecord q (h !! r ≫= λ o, accessor_of (o_value o)).

(** The function given to Walk, for one path: the record it sends, if any. Every
    visit makes a call that may fail. *)
Definition visit (now : Z) (q : Query R) (local internal : bool) (path : string) : st W fst_error (option loc) :=
  let$ base := st_get (λ w, Ret (basePath w.2)) in
  let$ info := st_wrap (FstOs "walk" path) (on_os (os_Stat env path)) in
  match info with
  | DirNode _ => st_ret None
  | FileNode _ =>
      if negb (HasPrefix path base) then st_ret None
      else
        let$ data := st_try (on_os (os_ReadFile env path)) in
        match data with
        | Fail OsNotExist => st_ret None
        | Fail err => st_fail (FstOs "read" path err)
        | Panic => λ s, (s, Panic)
        | Ret data =>
            match path_Rel base path with
            | None => st_fail (FstPath path)
            | Some key =>
                let$ r := load_record key data in
                st_get (λ w, Ret (if fst_selects now w.1 q local internal r then Some r else None))
            end
        end
  end.

(** The records that are sent, and the error that ends the walk and the iterator. *)
Fixpoint fst_walk (now : Z) (q : Query R) (local internal : bool) (paths : list string) : st W Empty_set (list loc * option fst_error) := λ w,
  match paths with
  | [] => (w, Ret ([], None))
  | path :: paths =>
      match visit now q local internal path w with
      | (w, Ret r) =>
          match fst_walk now q local internal paths w with
          | (w, Ret (l, err)) => (w, Ret (option_list r ++ l, err)%list)
          | (w, x) => (w, x)
          end
      | (w, Fail err) => (w, Ret ([], Some err))
      | (w, Panic) => (w, Panic)
      end
  end.

Definition FSTree_queryExecutor (now : Z) (walkRoot : string) (q : Query R) (local internal : bool) : st W Empty_set (list loc * option fst_error) := λ w,
  let base := basePath w.2 in
  fst_walk now q local internal (walk_paths order (λ d, negb (HasPrefix d base)) walkRoot (sys_fs (fst_sys w.2))) w.

Definition FSTree_Query (now : Z) (q : Query R) (local internal : bool) : st W fst_error (list loc * option fst_error) :=
  match Query_Check q with
  | (_, Fail err) => st_fail (FstQuery err)
  | (_, Panic) => λ s, (s, Panic)
  | (q, Ret _) =>
      let$ walkPrefix := st_get (λ w, buildFilePath (q_dbKeyPrefix q) false w.2) in
      let$ walkRoot := walk_root walkPrefix in
      λ w, match FSTree_queryExecutor now walkRoot q local internal w with
           | (w, Ret x) => (w, Ret x)
           | (w, _) => (w, Panic)
           end
  end.

(** ** As a storage *)

Definition fst_text (err : fst_error) : string :=
  match err with
  | FstNotFound => "database entry not found"
  | FstPath path => "fstree: key integrity check failed, compiled path is " ++ path
  | FstNotDir path => "fstree: provided database path (" ++ path ++ ") is a file"
  | FstOs op path _ => "fstree: failed to " ++ op ++ " " ++ path
  | FstRecord text => text
  | FstQuery msg => "invalid query: " ++ msg
  end.

Definition as_fstree {A : Type} (m : st W fst_error A) : st W storage_error A :=
  st_wrap (λ e, match e with FstNotFound => StorageErrNotFound | e => StorageErrOther (fst_text e) end) m.

#[global] Instance FSTree_storage : StorageInterface V R FSTree := {|
  storage_Get key := as_fstree (FSTree_Get key);
  storage_GetMeta := Some (λ key, as_fstree (FSTree_GetMeta key));
  storage_Put r := as_fstree (FSTree_Put r);
  storage_PutMany := None;
  storage_Delete key := as_fstree (FSTree_Delete key);
  storage_Query now q local internal := as_fstree (let$ x := FSTree_Query now q local internal in st_ret x.1);
  storage_ReadOnly _ := false;
  storage_Injected _ := false;
  storage_Maintain := None;
  storage_MaintainRecordStates _ _ _ := st_ret tt;
  storage_Purge := None;
  storage_Shutdown := st_ret tt;
|}.

End FsTree.

(** ** Lemmas *)

(** *** Calls that keep the nodes of a file system *)

(** Whatever its result, the call leaves the nodes of [m0] as they are. *)
Definition stays {E A : Type} (m0 : fs) (m : st Sys E A) : Prop := ∀ s, m0 ⊆ sys_fs s → m0 ⊆ sys_fs (m s).1.

Section Stays.
Context (env : OsEnv) (m0 : fs).

Lemma stays_same {E A} (m : st Sys E A) : (∀ s, sys_fs (m s).1 = sys_fs s) → stays m0 m.
Proof. intros H s Hs. by rewrite H. Qed.

Lemma stays_ret {E A} (a : A) : stays m0 (st_ret (E:=E) a).
Proof. by apply stays_same. Qed.

Lemma stays_result {E A} (r : go E A) : stays m0 (λ s, (s, r)).
Proof. by apply stays_same. Qed.

Lemma stays_bind {E A B} (m : st Sys E A) (k : A → st Sys E B) :
  stays m0 m → (∀ a, stays m0 (k a)) → stays m0 (st_bind m k).
Proof.
  intros Hm Hk s Hs. unfold st_bind. specialize (Hm s Hs). destruct (m s) as [s' [a|e|]]; simpl in *; [|done..].
  by apply Hk.
Qed.

(** The rest of the call may use what is known of the result. *)
Lemma stays_bind_result {E A B} (P : A → Prop) (m : st Sys E A) (k : A → st Sys E B) :
  stays m0 m → (∀ s s' a, m0 ⊆ sys_fs s → m s = (s', Ret a) → P a) → (∀ a, P a → stays m0 (k a)) →
  stays m0 (st_bind m k).
Proof.
  intros Hm HP Hk s Hs. unfold st_bind. specialize (Hm s Hs). specialize (HP s).
  destruct (m s) as [s' [a|e|]]; simpl in *; [|done..]. apply Hk; [by eapply HP|done].
Qed.

Lemma stays_try {E E' A} (m : st Sys E A) : stays m0 m → stays m0 (st_try (E':=E') m).
Proof. intros Hm s Hs. unfold st_try. specialize (Hm s Hs). by destruct (m s) as [s' [a|e|]]. Qed.

Lemma stays_ignore {E E' A} (m : st Sys E A) : stays m0 m → stays m0 (st_ignore (E':=E') m).
Proof. intros Hm. apply stays_bind; [by apply stays_try|]. intros _. apply stays_ret. Qed.

Lemma stays_syscall_torn {A : Type} (torn : nat → fs → fs) (f : fs → fs * go os_error A) :
  (∀ n m, m0 ⊆ m → m0 ⊆ torn n m) → (∀ m, m0 ⊆ m → m0 ⊆ (f m).1) → stays m0 (syscall_torn env torn f).
Proof.
  intros Ht Hf s Hs. unfold syscall_torn. destruct (fault env (sys_tick s)); [by apply Ht|].
  specialize (Hf (sys_fs s) Hs). by destruct (f (sys_fs s)).
Qed.

Lemma stays_syscall {A : Type} (f : fs → fs * go os_error A) :
  (∀ m, m0 ⊆ m → m0 ⊆ (f m).1) → stays m0 (syscall env f).
Proof. by apply stays_syscall_torn. Qed.

Lemma stays_Stat path : stays m0 (os_Stat env path).
Proof. by apply stays_syscall. Qed.

Lemma stays_Chmod_file name mode : stays m0 (file_Chmod env name mode).
Proof. by apply stays_syscall. Qed.

Lemma stays_Sync name : stays m0 (file_Sync env name).
Proof. by apply stays_syscall. Qed.

Lemma stays_Close name : stays m0 (file_Close env name).
Proof. by apply stays_syscall. Qed.

(** What is not in [m0] may be created, changed and removed. *)
Lemma subseteq_insert_new (m : fs) (p : string) (n : node) : m0 !! p = None → m0 ⊆ m → m0 ⊆ <[p := n]> m.
Proof. apply insert_subseteq_r. Qed.

Lemma subseteq_delete_new (m : fs) (p : string) : m0 !! p = None → m0 ⊆ m → m0 ⊆ delete p m.
Proof. intros Hp Hm. rewrite <- (delete_id m0 p Hp). by apply delete_mono. Qed.

Lemma subseteq_new (m : fs) (p : string) : m0 ⊆ m → m !! p = None → m0 !! p = None.
Proof. intros Hm Hp. by eapply lookup_weaken_None. Qed.

Lemma stays_Remove path : m0 !! path = None → stays m0 (os_Remove env path).
Proof. intros Hn. apply stays_syscall. intros m Hm. repeat case_match; simpl; eauto using subseteq_delete_new. Qed.

Lemma stays_file_Write path data : m0 !! path = None → stays m0 (file_Write env path data).
Proof. intros Hn. apply stays_syscall_torn; intros; repeat case_match; simpl; eauto using subseteq_insert_new. Qed.

Lemma stays_Rename old new : m0 !! old = None → m0 !! new = None → stays m0 (os_Rename_file env old new).
Proof.
  intros Ho Hn. apply stays_syscall. intros m Hm. repeat case_match; simpl; eauto using subseteq_insert_new, subseteq_delete_new.
Qed.

(** A directory is made only where nothing is. *)
Lemma stays_Mkdir path perm : stays m0 (os_Mkdir env path perm).
Proof.
  apply stays_syscall. intros m Hm. case_bool_decide as Hp; [done|]. apply eq_None_not_Some in Hp.
  case_match; simpl; eauto using subseteq_insert_new, subseteq_new.
Qed.

Lemma stays_CreateTemp dir pattern : stays m0 (os_CreateTemp env dir pattern).
Proof.
  intros s. unfold os_CreateTemp. apply stays_syscall. intros m Hm. case_bool_decide as Hp; [done|].
  apply eq_None_not_Some in Hp. case_match; simpl; eauto using subseteq_insert_new, subseteq_new.
Qed.

(** The name of a temporary file is new. *)
Lemma CreateTemp_new dir pattern s s' name :
  os_CreateTemp env dir pattern s = (s', Ret name) →
  name = dir ++ "/" ++ pattern ++ random env (sys_tick s) ∧ sys_fs s !! name = None ∧
  sys_fs s' = <[name := FileNode []]> (sys_fs s).
Proof.
  unfold os_CreateTemp, syscall, syscall_torn. intros H. destruct (fault env (sys_tick s)); [done|].
  case_bool_decide as Hp; [done|]. apply eq_None_not_Some in Hp. destruct (is_dir _ _); simplify_eq. done.
Qed.

End Stays.

#[export] Hint Resolve stays_ret stays_result stays_try stays_ignore stays_Stat stays_Chmod_file stays_Sync stays_Close
  stays_Remove stays_file_Write stays_Rename stays_Mkdir stays_CreateTemp : portbase.

(** Follow the structure of a call. *)
Ltac stay :=
  repeat first
    [ progress intros
    | apply stays_bind
    | match goal with |- stays _ (match ?x with _ => _ end) => destruct x eqn:? end
    | solve [eauto with portbase] ].

(** *** Calls that do not panic *)

Definition calm {E A : Type} (m : st Sys E A) : Prop := ∀ s, (m s).2 ≠ Panic.

Lemma calm_ret {E A} (a : A) : calm (st_ret (E:=E) a).
Proof. done. Qed.

Lemma calm_fail {E A} (e : E) : calm (st_fail (A:=A) e).
Proof. done. Qed.

Lemma calm_bind {E A B} (m : st Sys E A) (k : A → st Sys E B) : calm m → (∀ a, calm (k a)) → calm (st_bind m k).
Proof.
  intros Hm Hk s. unfold st_bind. specialize (Hm s). destruct (m s) as [s' [a|e|]]; simpl in *; [apply Hk|done..].
Qed.

Lemma calm_syscall (env : OsEnv) {A : Type} (torn : nat → fs → fs) (f : fs → fs * go os_error A) :
  (∀ m, (f m).2 ≠ Panic) → calm (syscall_torn env torn f).
Proof.
  intros Hf s. unfold syscall_torn. destruct (fault env (sys_tick s)); [done|].
  specialize (Hf (sys_fs s)). by destruct (f (sys_fs s)).
Qed.

(** The result of a tried call is no panic. *)
Lemma calm_try_bind {E E' A B} (m : st Sys E A) (k : go E A → st Sys E' B) :
  calm m → (∀ a, a ≠ Panic → calm (k a)) → calm (st_bind (st_try m) k).
Proof.
  intros Hm Hk s. unfold st_bind, st_try. specialize (Hm s).
  destruct (m s) as [s' [a|e|]]; simpl in *; [by apply Hk..|done].
Qed.

Lemma calm_ignore {E E' A} (m : st Sys E A) : calm m → calm (st_ignore (E':=E') m).
Proof. intros Hm. by apply calm_try_bind. Qed.

Section CalmOs.
Context (env : OsEnv).

Local Ltac one_call := intros; apply calm_syscall; intros m; repeat case_match; done.

Lemma calm_Stat path : calm (os_Stat env path).
Proof. one_call. Qed.

Lemma calm_Remove path : calm (os_Remove env path).
Proof. one_call. Qed.

Lemma calm_Mkdir path perm : calm (os_Mkdir env path perm).
Proof. one_call. Qed.

Lemma calm_CreateTemp dir pattern : calm (os_CreateTemp env dir pattern).
Proof. intros s. unfold os_CreateTemp. revert s. intros s. apply calm_syscall. intros m. repeat case_match; done. Qed.

Lemma calm_file_Write name data : calm (file_Write env name data).
Proof. one_call. Qed.

Lemma calm_Chmod_file name mode : calm (file_Chmod env name mode).
Proof. one_call. Qed.

Lemma calm_Sync name : calm (file_Sync env name).
Proof. one_call. Qed.

Lemma calm_Close name : calm (file_Close env name).
Proof. one_call. Qed.

Lemma calm_Rename old new : calm (os_Rename_file env old new).
Proof. one_call. Qed.

End CalmOs.

#[export] Hint Resolve calm_ret calm_fail calm_ignore calm_Stat calm_Remove calm_Mkdir calm_CreateTemp calm_file_Write
  calm_Chmod_file calm_Sync calm_Close calm_Rename : portbase.

Ltac calm :=
  repeat first
    [ progress intros
    | apply calm_try_bind
    | apply calm_bind
    | match goal with |- calm (match ?x with _ => _ end) => destruct x end
    | done
    | solve [eauto with portbase] ].

Lemma tempDir_calm (env : OsEnv) (dir dst : string) : calm (tempDir env dir dst).
Proof. unfold tempDir. calm. Qed.

(** *** Temporary files and writeFile *)

(** The probe of two directories leaves what was there as it was. *)
Lemma tempDir_stays (env : OsEnv) (m0 : fs) (dir dst : string) : stays m0 (tempDir env dir dst).
Proof.
  unfold tempDir. destruct (negb _); [stay|]. set (new := λ src : go os_error string, ∀ name, src = Ret name → m0 !! name = None).
  assert (∀ d s s' src, m0 ⊆ sys_fs s →
    st_try (E':=os_error) (os_CreateTemp env d ("." ++ path_Base dst)) s = (s', Ret src) → new src) as Hnew.
  { intros d s s' src Hs H name ->. unfold st_try in H. destruct (os_CreateTemp _ _ _ s) as [s1 [n|e|]] eqn:Hc; simplify_eq/=.
    apply CreateTemp_new in Hc as (_ & Hn & _). by eapply subseteq_new. }
  apply (stays_bind_result m0 new); [stay|by apply Hnew|]. intros src Hsrc.
  destruct src as [src|e|]; [|stay..]. specialize (Hsrc src eq_refl). apply stays_bind; [stay|]. intros _.
  apply (stays_bind_result m0 new); [stay|by apply Hnew|]. intros dest Hdest.
  destruct dest as [dest|e|]; [|stay..]. specialize (Hdest dest eq_refl). stay.
Qed.

(** A destination that is a clean path, and names that are no paths. *)
Definition dst_ok (env : OsEnv) (dst : string) : Prop := clean_abs dst ∧ dst ≠ "/" ∧ ∀ n, lacks "/" (random env n).

Lemma temp_not_dst (env : OsEnv) (dst dir : string) (tick : nat) :
  dst_ok env dst → dir ++ "/" ++ ("." ++ path_Base dst) ++ random env tick ≠ dst.
Proof. intros (Hc & Hne & Hr). exact (temp_name_fresh env dir dst tick Hc Hne (Hr _)). Qed.

Lemma touches_CreateTemp (env : OsEnv) (dst dir : string) :
  dst_ok env dst → touches (λ p, p ≠ dst) (os_CreateTemp env dir ("." ++ path_Base dst)).
Proof.
  intros Hd s p Hp. apply dec_stable in Hp as ->. unfold os_CreateTemp.
  apply (touches_syscall env (λ p, p ≠ dst)); [|by intros H; apply H].
  intros m p Hp. apply dec_stable in Hp as ->. case_bool_decide; [done|]. destruct (is_dir _ _); [|done].
  apply lookup_insert_ne. by apply temp_not_dst.
Qed.

Lemma touches_bind_known {E A B} (Q : string → Prop) (P : A → Prop) (m : st Sys E A) (k : A → st Sys E B) :
  touches Q m → (∀ s s' a, m s = (s', Ret a) → P a) → (∀ a, P a → touches Q (k a)) → touches Q (st_bind m k).
Proof.
  intros Hm HP Hk s p Hp. unfold st_bind. specialize (Hm s p Hp). specialize (HP s).
  destruct (m s) as [s' [a|e|]]; simpl in *; [|done..]. rewrite (Hk a (HP _ _ eq_refl) s' p Hp). done.
Qed.

Lemma tempDir_dst (env : OsEnv) (dir dst : string) : dst_ok env dst → touches (λ p, p ≠ dst) (tempDir env dir dst).
Proof.
  intros Hd. unfold tempDir. destruct (negb _); [touch|]. set (new := λ src : go os_error string, ∀ name, src = Ret name → name ≠ dst).
  assert (∀ d s s' src, st_try (E':=os_error) (os_CreateTemp env d ("." ++ path_Base dst)) s = (s', Ret src) → new src) as Hnew.
  { intros d s s' src H name ->. unfold st_try in H. destruct (os_CreateTemp _ _ _ s) as [s1 [n|e|]] eqn:Hc; simplify_eq/=.
    apply CreateTemp_new in Hc as (-> & _). by apply temp_not_dst. }
  pose proof (λ d, touches_CreateTemp env dst d Hd) as Hc.
  apply (touches_bind_known _ new); [touch|by apply Hnew|]. intros src Hsrc.
  destruct src as [src|e|]; [|touch..]. specialize (Hsrc src eq_refl). apply touches_bind; [touch|]. intros _.
  apply (touches_bind_known _ new); [touch|by apply Hnew|]. intros dest Hdest.
  destruct dest as [dest|e|]; [|touch..]. specialize (Hdest dest eq_refl). touch.
Qed.

(** The pending file is a new, empty file that is not the destination. *)
Lemma TempFile_new (env : OsEnv) (m0 : fs) (dst : string) (s s' : Sys) (r : go os_error PendingFile) :
  dst_ok env dst → m0 ⊆ sys_fs s → TempFile env "" dst s = (s', r) →
  m0 ⊆ sys_fs s' ∧ sys_fs s' !! dst = sys_fs s !! dst ∧
  ((∃ name, r = Ret (mkPendingFile name dst false false) ∧ name ≠ dst ∧ m0 !! name = None ∧
      sys_fs s' !! name = Some (FileNode [])) ∨ ∃ e, r = Fail e).
Proof.
  intros Hd Hm H. unfold TempFile in H. unfold st_bind at 1 in H.
  pose proof (tempDir_stays env m0 "" dst s Hm) as Hm1.
  pose proof (tempDir_dst env "" dst Hd s dst (λ H, H eq_refl)) as Hd1.
  pose proof (tempDir_calm env "" dst s) as Hnp.
  destruct (tempDir env "" dst s) as [s1 [tmp|e|]]; simpl in *; simplify_eq; [|by split_and!; eauto].
  unfold st_bind in H. pose proof (stays_CreateTemp env m0 tmp ("." ++ path_Base dst) s1 Hm1) as Hm2.
  pose proof (touches_CreateTemp env dst tmp Hd s1 dst (λ H, H eq_refl)) as Hd2.
  pose proof (calm_CreateTemp env tmp ("." ++ path_Base dst) s1) as Hnp2.
  destruct (os_CreateTemp env tmp _ s1) as [s2 [name|e|]] eqn:Hc; unfold st_ret in H; simplify_eq/=.
  - split_and!; [done|by etrans|]. apply CreateTemp_new in Hc as (Hname & Hn & Hs2). left. exists name.
    split_and!; [done| | |].
    + rewrite Hname. by apply temp_not_dst.
    + exact (subseteq_new m0 (sys_fs s1) name Hm1 Hn).
    + rewrite Hs2. apply lookup_insert_eq.
  - split_and!; [done|by etrans|eauto].
Qed.

(** Writing the pending file and moving it to its destination. *)
Lemma write_body_cases (env : OsEnv) (t : PendingFile) (data : bytes) (perm : Z) (s s' : Sys)
    (r : go os_error (PendingFile * go os_error unit)) :
  sys_fs s !! pf_Name t = Some (FileNode []) → pf_Name t ≠ pf_path t →
  (let$ _ := file_Chmod env (pf_Name t) perm in
   let$ _ := file_Write env (pf_Name t) data in
   CloseAtomicallyReplace env t) s = (s', r) →
  (∃ t', r = Ret (t', Ret tt) ∧ pf_done t' = true ∧ sys_fs s' !! pf_path t = Some (FileNode data)) ∨
  (sys_fs s' !! pf_path t = sys_fs s !! pf_path t ∧
   ((∃ e, r = Fail e) ∨ ∃ t' res, r = Ret (t', res) ∧ res ≠ Ret tt ∧ pf_Name t' = pf_Name t)).
Proof.
  intros Hname Hne H.
  pose proof (write_and_replace env t data None 1 s s'
    (match r with Ret x => Ret (x.1, go_mapError (λ _, OsOther) x.2) | Fail e => Fail e | Panic => Panic end) Hname) as Hw.
  destruct Hw as [(t' & Hr & Hdone & _ & Hs)|[Hs Hr]].
  - change (1 =? 0)%Z with false. cbv iota. unfold file_Chmod in *. unfold st_bind in H |- *.
    destruct (syscall env _ s) as [s1 [[]|e|]]; [|by simplify_eq..].
    destruct (file_Write env _ data s1) as [s2 [[]|e|]]; [|by simplify_eq..]. unfold st_ret.
    rewrite H. by destruct r as [x|e|].
  - left. destruct r as [[t1 [[]|e|]]|e|]; simplify_eq/=. exists t'. split_and!; [done..|]. rewrite Hs. apply lookup_insert_eq.
  - right. split; [by apply Hs|]. destruct Hr as [[e Hr]|(t' & res & Hr & Hres & Hn)].
    + left. destruct r as [[t1 res]|e1|]; simplify_eq/=. eauto.
    + right. destruct r as [[t1 res1]|e1|]; simplify_eq/=. exists t', res1. split_and!; [done| |done].
      intros ->. by apply Hres.
Qed.

Lemma Cleanup_stays (env : OsEnv) (m0 : fs) (t : PendingFile) : m0 !! pf_Name t = None → stays m0 (Cleanup env t).
Proof. intros Hn. unfold Cleanup. stay. Qed.

Lemma with_cleanup_stays (env : OsEnv) (m0 : fs) (t : PendingFile) (body : st Sys os_error (PendingFile * go os_error unit)) :
  m0 !! pf_Name t = None → stays m0 body →
  (∀ s s' t' res, body s = (s', Ret (t', res)) → pf_Name t' = pf_Name t) → stays m0 (with_cleanup env t body).
Proof.
  intros Hn Hb Ht. unfold with_cleanup.
  apply (stays_bind_result m0 (λ r, ∀ t' res, r = Ret (t', res) → pf_Name t' = pf_Name t)); [stay| |].
  - intros s s' r _ Hr t' res ->. unfold st_try in Hr. destruct (body s) as [s1 [x|e|]] eqn:H; simplify_eq. by eapply Ht.
  - intros [[t' res]|e|] Hr; [specialize (Hr t' res eq_refl)| |stay];
      (apply stays_bind; [apply stays_ignore, Cleanup_stays; congruence|intros _; apply stays_result]).
Qed.

Lemma CloseAtomicallyReplace_stays (env : OsEnv) (m0 : fs) (t : PendingFile) :
  m0 !! pf_Name t = None → m0 !! pf_path t = None → stays m0 (CloseAtomicallyReplace env t).
Proof. intros Hn Hp. unfold CloseAtomicallyReplace. stay. Qed.

(** writeFile puts the data at the destination as a whole, or leaves what is
    there; all other nodes stay as they are. *)
Lemma writeFile_cases (env : OsEnv) (m0 : fs) (dst : string) (data : bytes) (perm : Z) (s s' : Sys) (r : go os_error unit) :
  dst_ok env dst → m0 ⊆ sys_fs s → m0 !! dst = None → writeFile env dst data perm s = (s', r) →
  m0 ⊆ sys_fs s' ∧
  ((r = Ret tt ∧ sys_fs s' !! dst = Some (FileNode data)) ∨ (r ≠ Ret tt ∧ sys_fs s' !! dst = sys_fs s !! dst)).
Proof.
  intros Hd Hm Hdst H. unfold writeFile in H. unfold st_bind at 1 in H.
  destruct (TempFile env "" dst s) as [s1 rt] eqn:Ht.
  destruct (TempFile_new env m0 dst s s1 rt Hd Hm Ht) as (Hm1 & Hd1 & [(name & -> & Hne & Hn & Hname)|[e ->]]).
  2:{ simplify_eq. split; [done|right]. split; done. }
  set (t := mkPendingFile name dst false false) in *.
  set (body := let$ _ := file_Chmod env (pf_Name t) perm in _) in H.
  assert (stays m0 body) as Hkb.
  { unfold body. do 2 (apply stays_bind; [stay|intros _]). by apply CloseAtomicallyReplace_stays. }
  destruct (body s1) as [s2 rb] eqn:Hb.
  pose proof (write_body_cases env t data perm s1 s2 rb Hname Hne Hb) as Hcases. simpl in Hcases.
  split.
  { assert (stays m0 (with_cleanup env t body)) as Hk.
    { apply with_cleanup_stays; [done..|]. intros s3 s4 t' res H3.
      unfold body, st_bind in H3. destruct (file_Chmod env _ perm s3) as [s5 [[]|e|]]; simplify_eq.
      destruct (file_Write env _ data s5) as [s6 [[]|e|]]; simplify_eq.
      destruct (CloseAtomicallyReplace_spec _ _ _ _ _ H3) as (t1 & res1 & Heq & Hn1 & _). by simplify_eq. }
    specialize (Hk s1 Hm1). by rewrite H in Hk. }
  unfold with_cleanup, st_bind at 1, st_try in H. rewrite Hb in H.
  assert (∀ t1, pf_Name t1 = name → ∀ s3 r3, st_ignore (E':=os_error) (Cleanup env t1) s2 = (s3, r3) → sys_fs s3 !! dst = sys_fs s2 !! dst) as Hcl.
  { intros t1 Ht1 s3 r3 H3. pose proof (touches_ignore (E':=os_error) _ _ (touches_Cleanup env t1) s2 dst) as Hq.
    rewrite H3 in Hq. apply Hq. rewrite Ht1. congruence. }
  destruct Hcases as [(t' & -> & Hdone & Hs2)|[Hs2 Hr]].
  - left. unfold st_ignore, st_bind, st_try, Cleanup in H. rewrite Hdone in H. simpl in H. by simplify_eq.
  - right. rewrite <- Hd1, <- Hs2. destruct Hr as [[e ->]|(t' & res & -> & Hres & Hn')]; unfold st_bind at 1 in H;
      destruct (st_ignore _ s2) as [s3 [[]|e3|]] eqn:H3; unfold st_fail in H; simplify_eq/=;
      (split; [done|]); (eapply Hcl; [|exact H3]); done.
Qed.

(** *** Directories *)

Lemma mkdir_all_stays (env : OsEnv) (m0 : fs) (fuel : nat) (path : string) (perm : Z) : stays m0 (mkdir_all env fuel path perm).
Proof.
  revert path. induction fuel as [|fuel IH]; intros path; simpl; [stay|].
  apply stays_bind; [stay|]. intros found.
  assert (stays m0 (let parent := path_Dir path in
    let$ _ := (if String.eqb parent "/" then st_ret tt else mkdir_all env fuel parent perm) in
    let$ made := st_try (os_Mkdir env path perm) in
    match made with
    | Ret _ => st_ret tt
    | Fail err =>
        let$ again := st_try (os_Stat env path) in
        match again with Ret (DirNode _) => st_ret tt | _ => st_fail err end
    | Panic => λ s, (s, Panic)
    end)) as Hk.
  { apply stays_bind; [destruct (String.eqb _ _); [stay|apply IH]|]. stay. }
  destruct found as [[| ]|e|]; [stay|stay|exact Hk..].
Qed.

Lemma within_Dir (p : string) : clean_abs p → p ≠ "/" → path_Dir p ≠ "/" → within (path_Dir p) p.
Proof.
  intros Hc Hne Hd. destruct (clean_abs_last p Hc Hne) as (l & e & Hl & He & ->). rewrite path_Dir_abs in * by done.
  apply within_app. intros ->. by apply Hd.
Qed.

(** MkdirAll changes nothing but the directory and what it lies in. *)
Lemma mkdir_all_touches (env : OsEnv) (fuel : nat) (path : string) (perm : Z) :
  clean_abs path → touches (λ p, within p path) (mkdir_all env fuel path perm).
Proof.
  revert path. induction fuel as [|fuel IH]; intros path Hc; simpl; [touch|].
  assert (within path path) as Hw by by left.
  apply touches_bind; [touch|]. intros found.
  assert (touches (λ p, within p path) (let parent := path_Dir path in
    let$ _ := (if String.eqb parent "/" then st_ret tt else mkdir_all env fuel parent perm) in
    let$ made := st_try (os_Mkdir env path perm) in
    match made with
    | Ret _ => st_ret tt
    | Fail err =>
        let$ again := st_try (os_Stat env path) in
        match again with Ret (DirNode _) => st_ret tt | _ => st_fail err end
    | Panic => λ s, (s, Panic)
    end)) as Hk.
  { apply touches_bind; [destruct (String.eqb_spec (path_Dir path) "/"); [touch|]|touch].
    assert (path ≠ "/") by (intros ->; by vm_compute in n).
    eapply touches_weaken; [|apply IH; by apply clean_abs_Dir]. simpl. intros p Hp.
    eapply within_trans; [done|by apply within_Dir]. }
  destruct found as [[| ]|e|]; [touch|touch|exact Hk..].
Qed.

Lemma MkdirAll_dst (env : OsEnv) (dst : string) (perm : Z) (s : Sys) :
  dst_ok env dst → sys_fs (os_MkdirAll env (path_Dir dst) perm s).1 !! dst = sys_fs s !! dst.
Proof.
  intros (Hc & Hne & _). unfold os_MkdirAll.
  apply (mkdir_all_touches env _ (path_Dir dst) perm); [by apply clean_abs_Dir|]. by apply not_within_Dir.
Qed.

(** *** The methods *)

Section Methods.
Context {V R X : Type} `{!QueryLib R} (accessor_of : V → option Accessor).
Context (env : OsEnv) (lib : Codecs Meta X).
Context (wrapped : Z → bytes → V) (marshal_record : object V → go (record_error X) bytes).
Context (record_error_text : record_error X → string).

Abbreviation W := (heap V * FSTree)%type.
Abbreviation files w := (sys_fs (fst_sys (snd w))).

Lemma buildFilePath_Ret (key dst : string) (check : bool) (fst : FSTree) :
  buildFilePath key check fst = Ret dst → dst = path_Join (basePath fst) key ∧ HasPrefix dst (basePath fst) = true.
Proof.
  unfold buildFilePath. destruct (_ && _); [done|]. destruct (HasPrefix _ _) eqn:Hb; simpl; [|done]. by intros [= <-].
Qed.

Lemma buildFilePath_no_panic (key : string) (check : bool) (fst : FSTree) : buildFilePath key check fst ≠ Panic.
Proof. unfold buildFilePath. by destruct (_ && _); [|destruct (negb _)]. Qed.

(** What a method leaves when it has written: the same heap and the same
    directory, and all the nodes but the destination. *)
Definition only_at (dst : string) (w w' : W) : Prop :=
  w'.1 = w.1 ∧ fst_name w'.2 = fst_name w.2 ∧ basePath w'.2 = basePath w.2 ∧ delete dst (files w) ⊆ files w'.

(** A destination the directory of which is rooted. *)
Lemma buildFilePath_ok (key dst : string) (check : bool) (fst : FSTree) :
  HasPrefix (basePath fst) "/" = true → buildFilePath key check fst = Ret dst → dst ≠ "/" →
  (∀ n, lacks "/" (random env n)) → dst_ok env dst.
Proof.
  intros Hb (-> & _)%buildFilePath_Ret Hne Hr. split_and!; [by apply path_Join_rooted|done|done].
Qed.

Lemma writeFile_only_at (dst : string) (data : bytes) (m0 : fs) (s s' : Sys) (r : go os_error unit) :
  dst_ok env dst → m0 !! dst = None → m0 ⊆ sys_fs s → writeFile env dst data defaultFileMode s = (s', r) →
  m0 ⊆ sys_fs s' ∧ (r = Ret tt → sys_fs s' !! dst = Some (FileNode data)) ∧
  (r ≠ Ret tt → sys_fs s' !! dst = sys_fs s !! dst).
Proof.
  intros Hd Hn Hm H. destruct (writeFile_cases env m0 dst data _ s s' r Hd Hm Hn H) as [Hm' [[-> Hs]|[Hr Hs]]]; done.
Qed.

(** One attempt, and another one after the directory was made. *)
Lemma FSTree_Put_cases (r : loc) (o : object V) (dst : string) (w w' : W) (res : go fst_error (option loc)) :
  w.1 !! r = Some o → buildFilePath (key_of w.1 r) true w.2 = Ret dst → dst_ok env dst →
  FSTree_Put env marshal_record record_error_text r w = (w', res) →
  only_at dst w w' ∧
  ((res = Ret (Some r) ∧ ∃ data, marshal_record o = Ret data ∧ files w' !! dst = Some (FileNode data)) ∨
   ((∀ x, res ≠ Ret x) ∧ files w' !! dst = files w !! dst)).
Proof.
  intros Ho Hdst Hd H. set (m0 := delete dst (files w)).
  assert (m0 !! dst = None) as Hn by apply lookup_delete_eq.
  assert (m0 ⊆ files w) as Hm by apply delete_subseteq.
  unfold FSTree_Put in H. unfold st_bind at 1, st_get at 1 in H. rewrite Hdst in H.
  unfold st_bind at 1, st_get at 1 in H. rewrite Ho in H.
  destruct (marshal_record o) as [data|e|] eqn:Hmar; simpl in H; [|simplify_eq; split; [done|right; split; done]..].
  unfold st_bind at 1, st_try at 1, on_os at 1 in H.
  destruct (writeFile env dst data defaultFileMode (fst_sys w.2)) as [s1 r1] eqn:Hw.
  destruct (writeFile_only_at _ _ _ _ _ _ Hd Hn Hm Hw) as (Hm1 & Hok & Hbad).
  destruct r1 as [[]|e|]; simpl in H.
  { unfold st_ret in H. simplify_eq. split; [done|]. left. eauto. }
  2:{ simplify_eq. split; [done|right]. split; [done|]. by apply Hbad. }
  assert (sys_fs s1 !! dst = files w !! dst) as Hs1 by by apply Hbad.
  unfold st_bind at 1, st_wrap at 1, on_os at 1 in H. simpl in H.
  pose proof (mkdir_all_stays env m0 (String.length (path_Dir dst)) (path_Dir dst) defaultDirMode s1 Hm1) as Hm2.
  pose proof (MkdirAll_dst env dst defaultDirMode s1 Hd) as Hs2. unfold os_MkdirAll in Hs2, H.
  destruct (mkdir_all env _ _ _ s1) as [s2 [[]|e2|]]; simpl in H, Hm2, Hs2;
    [|simplify_eq; split; [done|right]; (split; [done|]); by etrans..].
  unfold st_bind at 1, st_wrap at 1, on_os at 1 in H. simpl in H.
  destruct (writeFile env dst data defaultFileMode s2) as [s3 r3] eqn:Hw3.
  destruct (writeFile_only_at _ _ _ _ _ _ Hd Hn Hm2 Hw3) as (Hm3 & Hok3 & Hbad3).
  destruct r3 as [[]|e3|]; unfold st_ret in H; simplify_eq/=; (split; [done|]).
  - left. eauto.
  - right. split; [done|]. rewrite Hbad3 by done. by etrans.
  - right. split; [done|]. rewrite Hbad3 by done. by etrans.
Qed.

End Methods.

(** *** Queries *)

Section Queries.
Context {V R X : Type} `{!QueryLib R} (accessor_of : V → option Accessor).
Context (env : OsEnv) (lib : Codecs Meta X) (order : list string → list string).
Context (wrapped : Z → bytes → V) (marshal_record : object V → go (record_error X) bytes).
Context (record_error_text : record_error X → string).

Abbreviation W := (heap V * FSTree)%type.
Abbreviation files w := (sys_fs (fst_sys (snd w))).

(** The record is what the file at the path holds. *)
Definition stored_at (w : W) (path : string) (o : object V) : Prop :=
  ∃ data key wr, files w !! path = Some (FileNode data) ∧ HasPrefix path (basePath w.2) = true ∧
    path_Rel (basePath w.2) path = Some key ∧ NewRawWrapper lib (fst_name w.2) key data = Ret wr ∧
    o = mkObject (wbase wr) (wrapped (Format wr) (Data wr)).

(** Reading adds objects to the heap and changes nothing else. *)
Definition reads (w w' : W) : Prop :=
  w.1 ⊆ w'.1 ∧ files w' = files w ∧ basePath w'.2 = basePath w.2 ∧ fst_name w'.2 = fst_name w.2.

Lemma reads_refl (w : W) : reads w w.
Proof. done. Qed.

Lemma reads_trans (w1 w2 w3 : W) : reads w1 w2 → reads w2 w3 → reads w1 w3.
Proof. intros (H1 & H2 & H3 & H4) (G1 & G2 & G3 & G4). split_and!; [by etrans|congruence..]. Qed.

Lemma stored_at_reads (w w' : W) (path : string) (o : object V) : reads w w' → stored_at w' path o → stored_at w path o.
Proof. intros (_ & Hf & Hb & Hn). unfold stored_at. by rewrite Hf, Hb, Hn. Qed.

(** What a check sees of a record stays when objects are added. *)
Lemma fst_selects_weaken (now : Z) (h h' : heap V) (q : Query R) (local internal : bool) (r : loc) :
  is_Some (h !! r) → h ⊆ h' →
  fst_selects accessor_of now h' q local internal r = fst_selects accessor_of now h q local internal r.
Proof.
  intros [o Ho] Hsub. unfold fst_selects, meta_of, base_of. by rewrite Ho, (lookup_weaken _ _ _ _ Ho Hsub).
Qed.

Lemma syscall_result {A : Type} (f : fs → go os_error A) (w w' : W) (r : go os_error A) :
  on_os (syscall env (λ m, (m, f m))) w = (w', r) → reads w w' ∧ ((∃ e, r = Fail e) ∨ r = f (files w)).
Proof.
  unfold on_os, syscall, syscall_torn. destruct (fault env _) as [e|]; intros H; simplify_eq/=; (split; [done|]); eauto.
Qed.

Lemma load_record_reads (key : string) (data : bytes) (w w' : W) (x : go fst_error loc) :
  load_record lib wrapped record_error_text key data w = (w', x) →
  reads w w' ∧ ∀ r, x = Ret r → ∃ wr, NewRawWrapper lib (fst_name w.2) key data = Ret wr ∧
    w'.1 !! r = Some (mkObject (wbase wr) (wrapped (Format wr) (Data wr))).
Proof.
  unfold load_record, st_bind, st_get. intros H.
  destruct (NewRawWrapper lib _ key data) as [wr|e|] eqn:Hw; [|unfold st_fail in H; by simplify_eq..].
  unfold new_wrapper in H. simplify_eq/=. split.
  - split_and!; [|done..]. simpl. apply insert_subseteq. apply not_elem_of_dom, is_fresh.
  - intros r [= <-]. exists wr. split; [done|]. apply lookup_insert_eq.
Qed.

Lemma visit_sends (now : Z) (q : Query R) (local internal : bool) (path : string) (w w' : W) (x : go fst_error (option loc)) :
  visit accessor_of env lib wrapped record_error_text now q local internal path w = (w', x) →
  reads w w' ∧ ∀ r, x = Ret (Some r) →
    fst_selects accessor_of now w'.1 q local internal r = true ∧ ∃ o, w'.1 !! r = Some o ∧ stored_at w path o.
Proof.
  unfold visit. unfold st_bind at 1, st_get at 1. unfold st_bind at 1, st_wrap at 1, os_Stat. intros H.
  destruct (on_os (syscall env _) w) as [w1 r1] eqn:H1. apply syscall_result in H1 as [Hr1 Hs1].
  destruct r1 as [[c|p]|e|]; simpl in H; [|unfold st_ret in H; by simplify_eq..].
  destruct (negb (HasPrefix path (basePath w.2))) eqn:Hb; [unfold st_ret in H; by simplify_eq|].
  apply negb_false_iff in Hb. unfold st_bind at 1, st_try at 1, os_ReadFile in H.
  destruct (on_os (syscall env _) w1) as [w2 r2] eqn:H2. apply syscall_result in H2 as [Hr2 Hs2].
  pose proof (reads_trans _ _ _ Hr1 Hr2) as Hr.
  destruct r2 as [data|[]|]; simpl in H; try (unfold st_ret, st_fail in H; by simplify_eq).
  assert (files w !! path = Some (FileNode data)) as Hdata.
  { destruct Hr1 as (_ & <- & _). destruct Hs2 as [[e ?]|Hs2]; [done|]. destruct (files w1 !! path) as [[c'|p]|]; by simplify_eq. }
  destruct (path_Rel (basePath w.2) path) as [key|] eqn:Hkey; [|unfold st_fail in H; by simplify_eq].
  unfold st_bind at 1 in H. destruct (load_record _ _ _ key data w2) as [w3 r3] eqn:H3.
  apply load_record_reads in H3 as [Hr3 H3]. pose proof (reads_trans _ _ _ Hr Hr3) as Hr'.
  destruct r3 as [r|e|]; [|by simplify_eq..]. unfold st_get in H. simplify_eq. split; [done|].
  intros r' Hsel. destruct (fst_selects _ _ _ _ _ _ r) eqn:Hs; [|done]. simplify_eq. split; [done|].
  destruct (H3 r' eq_refl) as (wr & Hwr & Hl). eexists. split; [done|]. exists data, key, wr.
  split; [done|]. split; [done|]. split; [done|]. split; [|done]. destruct Hr as (_ & _ & _ & <-). done.
Qed.

Lemma fst_walk_sends (now : Z) (q : Query R) (local internal : bool) (paths : list string) (w w' : W) l err :
  fst_walk accessor_of env lib wrapped record_error_text now q local internal paths w = (w', Ret (l, err)) →
  reads w w' ∧ Forall (λ r, fst_selects accessor_of now w'.1 q local internal r = true ∧
    ∃ o path, w'.1 !! r = Some o ∧ path ∈ paths ∧ stored_at w path o) l.
Proof.
  revert w w' l err. induction paths as [|path paths IH]; intros w w' l err H; simpl in H.
  { simplify_eq. split; [done|by apply Forall_nil_2]. }
  destruct (visit _ _ _ _ _ _ _ _ _ path w) as [w1 x1] eqn:H1. apply visit_sends in H1 as [Hr1 H1].
  destruct x1 as [sent|e|]; [|simplify_eq; by split; [|apply Forall_nil_2]|done].
  destruct (fst_walk _ _ _ _ _ _ _ _ _ paths w1) as [w2 [[l2 err2]|e|]] eqn:H2; simplify_eq.
  apply IH in H2 as [Hr2 H2]. split; [by eapply reads_trans|]. apply Forall_app. split.
  - destruct sent as [r|]; [|by apply Forall_nil_2]. destruct (H1 r eq_refl) as (Hs & o & Ho & Hst).
    apply Forall_singleton. destruct Hr2 as (Hsub & _). split.
    + rewrite (fst_selects_weaken now w1.1) by (done || by eexists). done.
    + exists o, path. split; [by eapply lookup_weaken|]. split; [by left|done].
  - eapply Forall_impl; [done|]. intros r (Hs & o & p & Ho & Hp & Hst). split; [done|]. exists o, p.
    split; [done|]. split; [by right|]. by eapply stored_at_reads.
Qed.

End Queries.

(** ** Properties *)

Section Properties.
Context {V R X : Type} `{!QueryLib R} (accessor_of : V → option Accessor).
Context (env : OsEnv) (lib : Codecs Meta X) (order : list string → list string).
Context (wrapped : Z → bytes → V) (marshal_record : object V → go (record_error X) bytes).
Context (record_error_text : record_error X → string).

(** C27: Put replaces the file of a record as a whole or not at all, whatever call
    of the system fails: when it returns the record, the file holds what the
    record was packed to, and else it is as before; every other file and directory
    that existed is as before in both cases. *)
Theorem FSTree_Put_atomic (h h' : heap V) (fst fst' : FSTree) (r : loc) (o : object V) (dst : string) (res : go fst_error (option loc)) :
  h !! r = Some o → HasPrefix (basePath fst) "/" = true → (∀ n, lacks "/" (random env n)) →
  buildFilePath (key_of h r) true fst = Ret dst → dst ≠ "/" →
  FSTree_Put env marshal_record record_error_text r (h, fst) = ((h', fst'), res) →
  let m := sys_fs (fst_sys fst) in let m' := sys_fs (fst_sys fst') in
  h' = h ∧ delete dst m ⊆ m' ∧
  ((res = Ret (Some r) ∧ ∃ data, marshal_record o = Ret data ∧ m' !! dst = Some (FileNode data)) ∨
   ((∀ x, res ≠ Ret x) ∧ m' !! dst = m !! dst)).
Proof.
  intros Ho Hb Hr Hdst Hne H m m'. assert (dst_ok env dst) as Hd by by eapply buildFilePath_ok.
  destruct (FSTree_Put_cases env marshal_record record_error_text r o dst (h, fst) (h', fst') res Ho Hdst Hd H)
    as ((Hh & _ & _ & Hsub) & Hcases). split; [done|]. split; [done|]. exact Hcases.
Qed.

(** A wrapped record that was put is found by Get under its key, unless the
    read fails: in a new object with the key, the metadata, the format and the
    data; of a deleted record only the metadata is left. *)
Theorem FSTree_Put_Get (h : heap V) (fst fst1 : FSTree) (r : loc) (o : object V) (wr : Wrapper) (m : Meta) (dst : string) x :
  h !! r = Some o → HasPrefix (basePath fst) "/" = true → (∀ n, lacks "/" (random env n)) →
  buildFilePath (key_of h r) true fst = Ret dst → dst ≠ "/" →
  o_base o = wbase wr → dbName (wbase wr) = fst_name fst → meta (wbase wr) = Some m → Meta_ok m → 0 ≤ Format wr < 128 →
  marshal_record o = Wrapper_MarshalRecord lib wr →
  FSTree_Put env marshal_record record_error_text r (h, fst) = ((h, fst1), Ret x) →
  fault env (sys_tick (fst_sys fst1)) = None →
  ∃ fst2 r', FSTree_Get env lib wrapped record_error_text (key_of h r) (h, fst1) =
    ((<[r' := mkObject (wbase wr) (if IsDeleted m then wrapped RAW [] else wrapped (Format wr) (Data wr))]> h, fst2), Ret r') ∧ h !! r' = None.
Proof.
  intros Ho Hb Hr Hdst Hne Hbase Hname Hm Hok Hf Hmar H Hfault.
  assert (dst_ok env dst) as Hd by by eapply buildFilePath_ok.
  destruct (FSTree_Put_cases env marshal_record record_error_text r o dst (h, fst) (h, fst1) _ Ho Hdst Hd H)
    as ((_ & Hn1 & Hb1 & _) & [(_ & data & Hdata & Hfile)|[Hno _]]); [|by specialize (Hno x)]. simpl in Hn1, Hb1, Hfile.
  destruct (wrapper_storage_roundtrip lib wr m Hm Hok Hf) as (stored & Hst & Hload).
  assert (data = stored) as -> by congruence.
  assert (dbKey (wbase wr) = key_of h r) as Hkey by (unfold key_of, base_of; by rewrite Ho, <- Hbase).
  rewrite Hname, Hkey, <- Hn1 in Hload.
  assert (buildFilePath (key_of h r) true fst1 = Ret dst) as Hdst1 by (unfold buildFilePath in *; by rewrite Hb1).
  unfold FSTree_Get, st_bind, st_get, st_try, on_os, os_ReadFile, syscall, syscall_torn. simpl.
  rewrite Hdst1, Hfault, Hfile. simpl. unfold load_record, st_bind, st_get. simpl. rewrite Hload.
  eexists _, (fresh (dom h)). split; [|apply not_elem_of_dom, is_fresh].
  unfold new_wrapper. simpl. by destruct (IsDeleted m).
Qed.

(** Every record a query sends is what a file below the base path holds under
    its key, is valid, permitted for the client and meets the condition; the query
    changes no file. *)
Theorem FSTree_Query_sends (now : Z) (q : Query R) (local internal : bool) (h h' : heap V) (fst fst' : FSTree) l err :
  FSTree_Query accessor_of env lib order wrapped record_error_text now q local internal (h, fst) = ((h', fst'), Ret (l, err)) →
  h ⊆ h' ∧ sys_fs (fst_sys fst') = sys_fs (fst_sys fst) ∧
  Forall (λ r, fst_selects accessor_of now h' (Query_Check q).1 local internal r = true ∧
    ∃ o path, h' !! r = Some o ∧ stored_at lib wrapped (h, fst) path o) l.
Proof.
  unfold FSTree_Query. destruct (Query_Check q) as [q' [s|e|]]; [|unfold st_fail; done|done]. intros H.
  unfold st_bind at 1, st_get in H. simpl in H.
  destruct (buildFilePath _ false fst) as [prefix|e|]; simpl in H; [|done..].
  unfold st_bind at 1 in H. destruct (walk_root env prefix (h, fst)) as [w1 [root|e|]] eqn:H1; simpl in H; [|done..].
  assert (reads (h, fst) w1) as Hr1.
  { unfold walk_root, st_bind, st_try, os_Stat in H1. destruct (on_os (syscall env _) (h, fst)) as [w2 r2] eqn:H2.
    apply syscall_result in H2 as [Hr2 _]. destruct r2 as [[c|p]|[]|]; unfold st_ret, st_fail in H1; simpl in H1; by simplify_eq. }
  destruct (FSTree_queryExecutor _ _ _ _ _ _ _ root q' local internal w1) as [w3 [[l3 err3]|e|]] eqn:H3; simplify_eq.
  unfold FSTree_queryExecutor in H3. apply fst_walk_sends in H3 as [Hr3 Hl].
  pose proof (reads_trans _ _ _ Hr1 Hr3) as (Hsub & Hfs & _). split; [done|]. split; [done|].
  eapply Forall_impl; [done|]. intros r (Hs & o & path & Ho & _ & Hst). split; [done|]. exists o, path.
  split; [done|]. by eapply stored_at_reads.
Qed.

End Properties.

(** *** Witnesses *)

Definition fst_example : FSTree := mkFSTree "db" "/data/db" (mkSys {["/data" := DirNode 493; "/data/db" := DirNode 493; "/tmp" := DirNode 511]} 0).

Definition fst_example_wrapper (key : string) : Wrapper := mkWrapper (mkBase "db" key (Some (mkMeta 1 2 0 0 false false))) JSON [123; 125].

(** Values are the format and the data. *)
Definition fst_marshal (o : object (Z * bytes)) : go (record_error unit) bytes :=
  Wrapper_MarshalRecord no_codecs (mkWrapper (o_base o) (o_value o).1 (o_value o).2).

Definition fst_example_heap (key : string) : heap (Z * bytes) := {[0%nat := mkObject (wbase (fst_example_wrapper key)) (JSON, [123; 125])]}.

(** A system whose calls fail at some ticks. *)
Definition fst_env (bad : list nat) : OsEnv :=
  mkOsEnv (λ n, if existsb (Nat.eqb n) bad then Some OsOther else None) (λ n, Nat.iter n (String "x") "") "/tmp" (λ _, None) (λ _ _, false).

Definition fst_text_of (_ : record_error unit) : string := "record".

Definition fst_put (bad : list nat) (key : string) (fst : FSTree) :=
  FSTree_Put (fst_env bad) fst_marshal fst_text_of 0%nat (fst_example_heap key, fst).

Lemma fst_env_lacks (bad : list nat) (n : nat) : lacks "/" (random (fst_env bad) n).
Proof. simpl. induction n as [|n IH]; [apply Cut_None; reflexivity|]. simpl. by apply lacks_cons. Qed.

(** The rename of both attempts fails: the record is not stored. *)
Lemma FSTree_Put_atomic_witness :
  let w := (fst_put [9; 17]%nat "a" fst_example).1 in
  let m := sys_fs (fst_sys fst_example) in let m' := sys_fs (fst_sys w.2) in
  w.1 = fst_example_heap "a" ∧ delete "/data/db/a" m ⊆ m'.
Proof.
  intros w m m'.
  destruct (FSTree_Put_atomic (fst_env [9; 17]%nat) fst_marshal fst_text_of
    (fst_example_heap "a") w.1 fst_example w.2 0%nat (mkObject (wbase (fst_example_wrapper "a")) (JSON, [123; 125])) "/data/db/a"
    (fst_put [9; 17]%nat "a" fst_example).2) as (H1 & H2 & _).
  - reflexivity.
  - reflexivity.
  - apply fst_env_lacks.
  - reflexivity.
  - discriminate.
  - unfold w. vm_compute. reflexivity.
  - split; [exact H1|exact H2].
Defined.

Lemma FSTree_Put_Get_witness :
  let w := (fst_put [] "a/b" fst_example).1 in
  ∃ fst2 r', FSTree_Get (fst_env []) no_codecs pair fst_text_of "a/b" w =
    ((<[r' := mkObject (wbase (fst_example_wrapper "a/b")) (JSON, [123; 125])]> (fst_example_heap "a/b"), fst2), Ret r') ∧
    fst_example_heap "a/b" !! r' = None.
Proof.
  intros w.
  apply (FSTree_Put_Get (fst_env []) no_codecs pair fst_marshal fst_text_of (fst_example_heap "a/b") fst_example w.2 0%nat
    (mkObject (wbase (fst_example_wrapper "a/b")) (JSON, [123; 125])) (fst_example_wrapper "a/b") (mkMeta 1 2 0 0 false false) "/data/db/a/b" (Some 0%nat)).
  - reflexivity.
  - reflexivity.
  - apply fst_env_lacks.
  - reflexivity.
  - discriminate.
  - reflexivity.
  - reflexivity.
  - reflexivity.
  - repeat split; vm_compute; discriminate.
  - split; vm_compute; [discriminate|reflexivity].
  - reflexivity.
  - vm_compute. reflexivity.
  - reflexivity.
Defined.

(** What a query for a prefix finds in a directory with a record. *)
Definition fst_query (prefix key : string) :=
  FSTree_Query (R := string) (λ _, None) (fst_env []) no_codecs (λ l, l) pair fst_text_of 5
    (mkQuery true "db" prefix None "" 0 0) true true (fst_put [] key fst_example).1.

Lemma FSTree_Query_sends_witness :
  let w := (fst_put [] "zz" fst_example).1 in
  let w' := (fst_query "z" "zz").1 in
  w.1 ⊆ w'.1 ∧ sys_fs (fst_sys w'.2) = sys_fs (fst_sys w.2) ∧
  Forall (λ r, fst_selects (λ _, None) 5 w'.1 (Query_Check (mkQuery true "db" "z" None "" 0 0)).1 true true r = true ∧
    ∃ o path, w'.1 !! r = Some o ∧ stored_at no_codecs pair w path o) [1%nat].
Proof.
  intros w w'.
  apply (FSTree_Query_sends (R := string) (λ _, None) (fst_env []) no_codecs (λ l, l) pair fst_text_of 5 (mkQuery true "db" "z" None "" 0 0) true true
    w.1 w'.1 w.2 w'.2 [1%nat] None).
  vm_compute. reflexivity.
Defined.

(** The executor never asks whether the query matches the key: what it searches for
    the prefix is the whole directory, so a query for a also finds zz. *)
Lemma fstree_query_ignores_prefix : ∃ r, (fst_query "a" "zz").2 = Ret ([r], None) ∧ key_of (fst_query "a" "zz").1.1 r = "zz".
Proof. exists 1%nat. split; vm_compute; reflexivity. Qed.

(** The check compares texts: a key reaches a file next to the directory the name
    of which starts like that of the directory. *)
Lemma fstree_key_escapes : buildFilePath "../dbx" true fst_example = Ret "/data/dbx".
Proof. vm_compute. reflexivity. Qed.
