(* ===== verification/Bbolt.v ===== *)
(** * database/storage/bbolt: records in a key/value file

    bbolt.go over the library go.etcd.io/bbolt, which is the class [Bolt]: a bucket
    with its entries, cursors that visit the keys in the order of their bytes, and
    transactions that take effect as a whole or not at all. Its laws are what its
    documentation promises; a map of keys is an instance. Where a cursor goes on after
    its entry was deleted is not documented, and the source relies on it: the law is
    only that it does not go back, and that it skips no key is a hypothesis of its
    own, [keeps_place]. Which commits fail and how often Batch calls its function is
    left open. *)

From Stdlib Require Import ZArith Lia Ascii String.
From stdpp Require Import gmap list strings.
From S2P Require Import Prelude GoStrings Dsd Record Query Storage.
Local Open Scope string_scope.
Local Open Scope Z_scope.

(** ** The library *)

(** [bolt_Put] and the others are methods of a bucket in a transaction; a cursor is
    its position, [bolt_Next_deleted] its Next after its Delete. [bolt_Commit n] is the error of the n-th commit, [bolt_again n]
    how many times more than once Batch calls its function. *)
Class Bolt (B BE : Type) := {
  bolt_entries : B → gmap string bytes;
  bolt_Get : B → string → option bytes;
  bolt_Put : string → bytes → B → BE + B;
  bolt_Delete : string → B → BE + B;
  bolt_First : B → option (string * bytes);
  bolt_Seek : B → string → option (string * bytes);
  bolt_Next : B → string → option (string * bytes);
  bolt_Next_deleted : B → string → option (string * bytes);
  bolt_Commit : nat → option BE;
  bolt_again : nat → nat;
}.

(** The cursor is at the first of the keys in [P]. *)
Definition at_first (m : gmap string bytes) (P : string → bool) (cur : option (string * bytes)) : Prop :=
  match cur with
  | Some (k, v) => m !! k = Some v ∧ P k = true ∧ ∀ k', is_Some (m !! k') → P k' = true → k' = k ∨ bytes_lt k k' = true
  | None => ∀ k', is_Some (m !! k') → P k' = false
  end.

(** It is at one of them, if it is anywhere. *)
Definition at_some (m : gmap string bytes) (P : string → bool) (cur : option (string * bytes)) : Prop :=
  match cur with Some (k, v) => m !! k = Some v ∧ P k = true | None => True end.

Class BoltLaws (B BE : Type) `{!Bolt B BE} := {
  bolt_Get_law b k : bolt_Get b k = bolt_entries b !! k;
  bolt_Put_law k v b b' : bolt_Put k v b = inr b' → bolt_entries b' = <[k := v]> (bolt_entries b);
  bolt_Delete_law k b b' : bolt_Delete k b = inr b' → bolt_entries b' = delete k (bolt_entries b);
  bolt_First_law b : at_first (bolt_entries b) (λ _, true) (bolt_First b);
  bolt_Seek_law b k : at_first (bolt_entries b) (λ k', negb (bytes_lt k' k)) (bolt_Seek b k);
  bolt_Next_law b k : at_first (bolt_entries b) (bytes_lt k) (bolt_Next b k);
  bolt_Next_deleted_law b k : at_some (bolt_entries b) (bytes_lt k) (bolt_Next_deleted b k);
}.

(** Not documented: after a delete the cursor goes on with the next key. *)
Definition keeps_place (B BE : Type) `{!Bolt B BE} : Prop :=
  ∀ (b : B) k, bolt_entries b !! k = None → at_first (bolt_entries b) (bytes_lt k) (bolt_Next_deleted b k).

(** A map as a bucket; a blank key is refused. *)
Definition first_of (P : string → bool) (m : gmap string bytes) : option (string * bytes) :=
  foldr (λ e best, if P e.1 then match best with Some b => if bytes_lt b.1 e.1 then best else Some e | None => Some e end else best)
    None (map_to_list m).

#[global] Instance map_bolt : Bolt (gmap string bytes) unit := {|
  bolt_entries m := m;
  bolt_Get m k := m !! k;
  bolt_Put k v m := if String.eqb k "" then inl tt else inr (<[k := v]> m);
  bolt_Delete k m := inr (delete k m);
  bolt_First m := first_of (λ _, true) m;
  bolt_Seek m k := first_of (λ k', negb (bytes_lt k' k)) m;
  bolt_Next m k := first_of (bytes_lt k) m;
  bolt_Next_deleted m k := first_of (bytes_lt k) m;
  bolt_Commit _ := None;
  bolt_again _ := O;
|}.

(** ** The storage *)

Inductive bb_error (BE : Type) : Type :=
| BbNotFound
| BbBolt (e : BE)
| BbRecord (text : string)
| BbQuery (msg : string).
Arguments BbNotFound {BE}.
Arguments BbBolt {BE} e.
Arguments BbRecord {BE} text.
Arguments BbQuery {BE} msg.

(** The struct, and the number of commits so far. *)
Record BBolt (B : Type) : Type := mkBBolt { bb_name : string; bb_db : B; bb_tick : nat }.
Arguments mkBBolt {B} bb_name bb_db bb_tick.
Arguments bb_name {B} _.
Arguments bb_db {B} _.
Arguments bb_tick {B} _.

Section BBolt.
Context {V R X B BE : Type} `{!QueryLib R} {BL : Bolt B BE} (accessor_of : V → option Accessor).
Context (lib : Codecs Meta X) (wrapped : Z → bytes → V) (marshal_record : object V → go (record_error X) bytes).
Context (record_error_text : record_error X → string).

Abbreviation W := (heap V * BBolt B)%type.
Abbreviation error := (bb_error BE).
Implicit Types (b : B) (w : W).

Definition of_bolt {A : Type} (x : BE + A) : go error A := match x with inl e => Fail (BbBolt e) | inr a => Ret a end.

Definition raw_wrapper (name key : string) (data : bytes) : go error Wrapper :=
  go_mapError (λ e, BbRecord (record_error_text e)) (NewRawWrapper lib name key data).

Definition marshal_wrapper (w : Wrapper) : go error bytes := go_mapError (λ e, BbRecord (record_error_text e)) (Wrapper_MarshalRecord lib w).

(** *** Transactions *)

Definition bolt_View {A : Type} (fn : W → go error A) : st W error A := λ w, (w, fn w).

(** An error, of the function or of the commit, leaves the bucket as it was. *)
Definition bolt_Update {A : Type} (fn : heap V → B → B * go error A) : st W error A := λ w,
  let s := w.2 in
  let '(db, r) := fn w.1 (bb_db s) in
  match r with
  | Ret a =>
      let w' db := (w.1, mkBBolt (bb_name s) db (S (bb_tick s))) in
      match bolt_Commit (bb_tick s) with
      | None => (w' db, Ret a)
      | Some e => (w' (bb_db s), Fail (BbBolt e))
      end
  | Fail e => (w, Fail e)
  | Panic => (w, Panic)
  end.

(** *** Single records *)

Definition BBolt_new_wrapper (x : Wrapper) : st W error loc := λ s,
  let r := fresh (dom s.1) in ((<[r := mkObject (wbase x) (wrapped (Format x) (Data x))]> s.1, s.2), Ret r).

Definition BBolt_Get (key : string) : st W error loc :=
  let$ r := bolt_View (λ w,
    match bolt_Get (bb_db w.2) key with
    | None => Fail BbNotFound
    | Some value => raw_wrapper (bb_name w.2) key value
    end) in
  BBolt_new_wrapper r.

Definition BBolt_GetMeta (key : string) : st W error (option Meta) :=
  let$ r := BBolt_Get key in st_get (λ w, Ret (meta_of w.1 r)).

Definition marshal_at (h : heap V) (r : loc) : go error bytes :=
  match h !! r with
  | Some o => go_mapError (λ e, BbRecord (record_error_text e)) (marshal_record o)
  | None => Panic
  end.

Definition put_data (key : string) (data : bytes) (b : B) : B * go error unit :=
  match bolt_Put key data b with inl e => (b, Fail (BbBolt e)) | inr b => (b, Ret tt) end.

Definition BBolt_Put (r : loc) : st W error (option loc) :=
  let$ data := st_get (λ w, marshal_at w.1 r) in
  let$ _ := bolt_Update (λ h b, put_data (key_of h r) data b) in
  st_ret (Some r).

Definition BBolt_Delete (key : string) : st W error unit :=
  bolt_Update (λ _ b, match bolt_Delete key b with inl e => (b, Fail (BbBolt e)) | inr b => (b, Ret tt) end).

(** *** Batches *)

Definition BBolt_batchPutOrDelete (shadowDelete : bool) (h : heap V) (r : loc) (b : B) : B * go error unit :=
  match (if shadowDelete then Ret false else is_deleted h r) with
  | Ret true => match bolt_Delete (key_of h r) b with inl e => (b, Fail (BbBolt e)) | inr b => (b, Ret tt) end
  | Ret false =>
      match marshal_at h r with
      | Ret data => put_data (key_of h r) data b
      | Fail e => (b, Fail e)
      | Panic => (b, Panic)
      end
  | Fail e => (b, Fail e)
  | Panic => (b, Panic)
  end.

(** The function of Batch takes the records from the channel: those after a record
    that fails are left in it. *)
Fixpoint put_batch (shadowDelete : bool) (h : heap V) (batch : list loc) (b : B) : B * list loc * go error unit :=
  match batch with
  | [] => (b, [], Ret tt)
  | r :: batch =>
      match BBolt_batchPutOrDelete shadowDelete h r b with
      | (b, Ret _) => put_batch shadowDelete h batch b
      | (b, x) => (b, batch, x)
      end
  end.

(** The calls that Batch makes: each on the bucket as it was, but on what the former
    one left in the channel. The last one counts. *)
Fixpoint batch_calls (shadowDelete : bool) (h : heap V) (calls : nat) (batch : list loc) (b : B) : B * go error unit :=
  let '(b', batch', r) := put_batch shadowDelete h batch b in
  match calls with
  | O => (b', r)
  | S calls => batch_calls shadowDelete h calls batch' b
  end.

Definition BBolt_PutMany (shadowDelete : bool) (batch : list loc) : st W error unit := λ w,
  bolt_Update (λ h b, batch_calls shadowDelete h (bolt_again (bb_tick w.2)) batch b) w.

(** *** Queries *)

Definition bb_selects (now : Z) (q : Query R) (local internal : bool) (x : Wrapper) : bool :=
  CheckValidity now (meta (wbase x)) && CheckPermission (meta (wbase x)) local internal &&
  MatchesRecord q (accessor_of (wrapped (Format x) (Data x))).

(** What is sent, and how the transaction ends; more fuel than keys is enough. *)
Fixpoint query_loop (now : Z) (q : Query R) (local internal : bool) (name : string) (b : B) (fuel : nat) (cur : option (string * bytes))
    : list Wrapper * go error unit :=
  match fuel, cur with
  | O, _ => ([], Panic)
  | S _, None => ([], Ret tt)
  | S fuel, Some (key, value) =>
      if negb (HasPrefix key (q_dbKeyPrefix q)) then ([], Ret tt)
      else
        match raw_wrapper name key value with
        | Fail e => ([], Fail e)
        | Panic => ([], Panic)
        | Ret x =>
            let '(sent, r) := query_loop now q local internal name b fuel (bolt_Next b key) in
            (if bb_selects now q local internal x then x :: sent else sent, r)
        end
  end.

Definition loop_fuel (b : B) : nat := S (size (bolt_entries b)).

Definition BBolt_queryExecutor (now : Z) (q : Query R) (local internal : bool) : st W error (list loc * go error unit) :=
  let$ x := st_get (λ w, let b := bb_db w.2 in
    Ret (query_loop now q local internal (bb_name w.2) b (loop_fuel b) (bolt_Seek b (q_dbKeyPrefix q)))) in
  let$ sent := st_fold (λ l x, let$ r := BBolt_new_wrapper x in st_ret (l ++ [r])%list) [] x.1 in
  st_ret (sent, x.2).

Definition BBolt_Query (now : Z) (q : Query R) (local internal : bool) : st W error (list loc * go error unit) :=
  match Query_Check q with
  | (_, Fail err) => st_fail (BbQuery err)
  | (_, Panic) => λ s, (s, Panic)
  | (q, Ret _) => BBolt_queryExecutor now q local internal
  end.

(** *** Maintenance *)

(** The cursor after [c.Seek(key)] and [c.Next()]. *)
Definition next_after_Seek (b : B) (key : string) : option (string * bytes) :=
  match bolt_Seek b key with Some (k, _) => bolt_Next b k | None => None end.

Definition set_wrapper_meta (m : Meta) (x : Wrapper) : Wrapper := mkWrapper (SetMeta (Some m) (wbase x)) (Format x) (Data x).

(** A record is written again with other metadata. *)
Definition rewrite_record (key : string) (m : Meta) (x : Wrapper) (b : B) : go error B :=
  let! data := marshal_wrapper (set_wrapper_meta m x) in of_bolt (bolt_Put key data b).

(** [ctx_done n]: the context is done when it is asked for the n-th time. *)
Fixpoint bb_maintain (now purgeThreshold : Z) (shadowDelete : bool) (ctx_done : nat → bool) (name : string)
    (fuel polls : nat) (b : B) (cur : option (string * bytes)) : B * go error unit :=
  match fuel, cur with
  | O, _ => (b, Panic)
  | S _, None => (b, Ret tt)
  | S fuel, Some (key, value) =>
      if ctx_done polls then (b, Ret tt)
      else
        let next := bb_maintain now purgeThreshold shadowDelete ctx_done name fuel (S polls) in
        match raw_wrapper name key value with
        | Fail e => (b, Fail e)
        | Panic => (b, Panic)
        | Ret x =>
            match meta (wbase x) with
            | None => (b, Panic)
            | Some m =>
                let expired := (Deleted m =? 0) && (0 <? Expires m) && (Expires m <? now) in
                if expired && shadowDelete then
                  match rewrite_record key (mkMeta (Created m) (Modified m) (Expires m) (Expires m) (secret m) (cronjewel m)) x b with
                  | Ret b => next b (next_after_Seek b key)
                  | Fail e => (b, Fail e)
                  | Panic => (b, Panic)
                  end
                else if expired || ((0 <? Deleted m) && (negb shadowDelete || (Deleted m <? purgeThreshold))) then
                  match bolt_Delete key b with
                  | inr b => next b (bolt_Next_deleted b key)
                  | inl e => (b, Fail (BbBolt e))
                  end
                else next b (bolt_Next b key)
            end
        end
  end.

Definition BBolt_MaintainRecordStates (now purgeThreshold : Z) (shadowDelete : bool) (ctx_done : nat → bool) : st W error unit := λ w,
  bolt_Update (λ _ b, bb_maintain now purgeThreshold shadowDelete ctx_done (bb_name w.2) (loop_fuel b) 0 b (bolt_First b)) w.

(** *** Purge *)

Definition purge_selects (q : Query R) (local internal : bool) (m : Meta) (x : Wrapper) : bool :=
  CheckPermission (Some m) local internal && negb (IsDeleted m) && MatchesRecord q (accessor_of (wrapped (Format x) (Data x))).

(** One transaction: the counter and whether the purge is done. *)
Fixpoint purge_tx (now : Z) (q : Query R) (local internal shadowDelete : bool) (ctx_done : nat → bool) (name : string)
    (fuel polls : nat) (cnt : Z) (b : B) (cur : option (string * bytes)) : B * Z * go error (bool * nat) :=
  match fuel, cur with
  | O, _ => (b, cnt, Panic)
  | S _, None => (b, cnt, Ret (true, polls))
  | S fuel, Some (key, value) =>
      if ctx_done polls then (b, cnt, Ret (true, S polls))
      else if negb (HasPrefix key (q_dbKeyPrefix q)) then (b, cnt, Ret (true, S polls))
      else
        let next := purge_tx now q local internal shadowDelete ctx_done name fuel (S polls) in
        match raw_wrapper name key value with
        | Fail e => (b, cnt, Fail e)
        | Panic => (b, cnt, Panic)
        | Ret x =>
            match meta (wbase x) with
            | None => (b, cnt, Panic)
            | Some m =>
                if negb (purge_selects q local internal m x) then next cnt b (bolt_Next b key)
                else
                  let counted b cur := if (cnt + 1) mod 1000 =? 0 then (b, cnt + 1, Ret (false, S polls)) else next (cnt + 1) b cur in
                  if shadowDelete then
                    match rewrite_record key (Meta_Delete now m) x b with
                    | Ret b => counted b (next_after_Seek b key)
                    | Fail e => (b, cnt, Fail e)
                    | Panic => (b, cnt, Panic)
                    end
                  else
                    match bolt_Delete key b with
                    | inr b => counted b (bolt_Next_deleted b key)
                    | inl e => (b, cnt, Fail (BbBolt e))
                    end
            end
        end
  end.

(** The transactions one after another; the counter keeps what it counted in one
    that fails. More fuel than records is enough. *)
Fixpoint purge_rounds (now : Z) (q : Query R) (local internal shadowDelete : bool) (ctx_done : nat → bool) (rounds polls : nat) (cnt : Z)
    : st W error (Z * option error) := λ w,
  match rounds with
  | O => (w, Panic)
  | S rounds =>
      let b := bb_db w.2 in
      let '(b', cnt', r) := purge_tx now q local internal shadowDelete ctx_done (bb_name w.2) (loop_fuel b) polls cnt b (bolt_Seek b (q_dbKeyPrefix q)) in
      match bolt_Update (λ _ _, (b', r)) w with
      | (w, Ret (true, _)) => (w, Ret (cnt', None))
      | (w, Ret (false, polls)) => purge_rounds now q local internal shadowDelete ctx_done rounds polls cnt' w
      | (w, Fail e) => (w, Ret (cnt', Some e))
      | (w, Panic) => (w, Panic)
      end
  end.

Definition BBolt_Purge (now : Z) (q : Query R) (local internal shadowDelete : bool) (ctx_done : nat → bool) : st W error (Z * option error) := λ w,
  purge_rounds now q local internal shadowDelete ctx_done (loop_fuel (bb_db w.2)) 0 0 w.

(** *** As a storage *)

Context (bolt_error_text : BE → string).

Definition bb_storage_error (e : error) : storage_error :=
  match e with
  | BbNotFound => StorageErrNotFound
  | BbBolt e => StorageErrOther (bolt_error_text e)
  | BbRecord text => StorageErrOther text
  | BbQuery msg => StorageErrOther ("invalid query: " ++ msg)
  end.

Definition as_bbolt {A : Type} (m : st W error A) : st W storage_error A := st_wrap bb_storage_error m.

(** The controller's contexts are not done. *)
#[global] Instance BBolt_storage (now : Z) : StorageInterface V R (BBolt B) := {|
  storage_Get key := as_bbolt (BBolt_Get key);
  storage_GetMeta := Some (λ key, as_bbolt (BBolt_GetMeta key));
  storage_Put r := as_bbolt (BBolt_Put r);
  storage_PutMany := Some (λ shadowDelete batch, as_bbolt (BBolt_PutMany shadowDelete batch));
  storage_Delete key := as_bbolt (BBolt_Delete key);
  storage_Query now q local internal := as_bbolt (let$ x := BBolt_Query now q local internal in st_ret x.1);
  storage_ReadOnly _ := false;
  storage_Injected _ := false;
  storage_Maintain := None;
  storage_MaintainRecordStates now purgeDeletedBefore shadowDelete :=
    as_bbolt (BBolt_MaintainRecordStates now purgeDeletedBefore shadowDelete (λ _, false));
  storage_Purge := Some (λ now q local internal shadowDelete,
    as_bbolt (let$ x := BBolt_Purge now q local internal shadowDelete (λ _, false) in
              match x.2 with None => st_ret x.1 | Some e => st_fail e end));
  storage_Shutdown := st_ret tt;
|}.

End BBolt.

(** ** Lemmas *)

(** *** The order of keys *)

Lemma bytes_ge_after (p k k' : string) : bytes_lt k p = false → bytes_lt k k' = true → bytes_lt k' p = false.
Proof. intros H Hlt. apply not_true_iff_false. intros H'. by rewrite (bytes_lt_trans k k' p Hlt H') in H. Qed.

(** The keys with a prefix follow each other. *)
Lemma bytes_lt_prefix (p k k' : string) :
  bytes_lt k p = false → HasPrefix k p = false → bytes_lt k k' = true → HasPrefix k' p = false.
Proof.
  unfold HasPrefix. revert k k'. induction p as [|a p IH]; intros [|b k] [|c k']; simpl; try done.
  destruct (ascii_dec a c) as [<-|Hac]; [|done].
  destruct (Ascii.eqb_spec b a) as [->|Hba].
  - destruct (ascii_dec a a); [|done]. apply IH.
  - destruct (Ascii.eqb_spec b a); [done|]. intros H1%N.ltb_ge _ H2%N.ltb_lt. lia.
Qed.

Lemma prefix_not_lt (p k : string) : HasPrefix k p = true → bytes_lt k p = false.
Proof.
  intros [t ->]%HasPrefix_spec. induction p as [|a p IH]; simpl; [by destruct t|]. by rewrite Ascii.eqb_refl.
Qed.

(** *** Cursors *)

(** With a key all keys after it. *)
Definition upward (P : string → bool) : Prop := ∀ k k', P k = true → bytes_lt k k' = true → P k' = true.

Definition left_in (P : string → bool) (m : gmap string bytes) : nat := size (filter (λ e, P e.1 = true) m).

Lemma at_first_some (m : gmap string bytes) P cur : at_first m P cur → at_some m P cur.
Proof. destruct cur as [[k v]|]; [|done]. by intros (? & ? & _). Qed.

Lemma upward_all : upward (λ _, true).
Proof. done. Qed.

Lemma upward_after (k : string) : upward (bytes_lt k).
Proof. intros k1 k2 H1 H2. by eapply bytes_lt_trans. Qed.

Lemma upward_from (p : string) : upward (λ k, negb (bytes_lt k p)).
Proof.
  intros k k' H1%negb_true_iff H2. apply negb_true_iff, not_true_iff_false. intros H3.
  by rewrite (bytes_lt_trans k k' p) in H1.
Qed.

(** Fewer keys are left after the first one, whatever happens to that. *)
Lemma left_in_step (P : string → bool) (m m' : gmap string bytes) (k : string) (v : bytes) :
  upward P → m !! k = Some v → P k = true → (∀ k', k' ≠ k → m' !! k' = m !! k') → (left_in (bytes_lt k) m' < left_in P m)%nat.
Proof.
  intros Hup Hk HP Hsame. unfold left_in.
  assert (filter (λ e, bytes_lt k e.1 = true) m' ⊆ delete k (filter (λ e, P e.1 = true) m)) as Hsub.
  { apply map_subseteq_spec. intros k' v' [H1 H2]%map_lookup_filter_Some. simpl in H2.
    assert (k' ≠ k) as Hne by (intros ->; by rewrite bytes_lt_irrefl in H2).
    rewrite lookup_delete_ne by congruence. apply map_lookup_filter_Some. split; [by rewrite <- Hsame|]. by eapply Hup. }
  apply map_subseteq_size in Hsub. rewrite map_size_delete_Some in Hsub.
  - assert (size (filter (λ e, P e.1 = true) m) ≠ 0)%nat; [|lia]. intros H0%map_size_empty_inv.
    assert (filter (λ e, P e.1 = true) m !! k = Some v) as H by (by apply map_lookup_filter_Some). by rewrite H0 in H.
  - exists v. by apply map_lookup_filter_Some.
Qed.

Lemma left_in_bound (P : string → bool) (m : gmap string bytes) : (left_in P m < S (size m))%nat.
Proof. unfold left_in. pose proof (map_subseteq_size _ _ (map_filter_subseteq (λ e, P e.1 = true) m)). lia. Qed.

(** The keys from the current one on: it, or one after it. *)
Lemma at_first_rest (P : string → bool) (m : gmap string bytes) (k k' : string) (v : bytes) :
  upward P → at_first m P (Some (k, v)) → is_Some (m !! k') → P k' = true ↔ k' = k ∨ bytes_lt k k' = true.
Proof.
  intros Hup (_ & HP & Hmin) Hk'. split; [by apply Hmin|]. intros [->|H]; [done|by eapply Hup].
Qed.

Section BboltLemmas.
Context {V R X B BE : Type} `{!QueryLib R} {BL : Bolt B BE} {laws : BoltLaws B BE} (accessor_of : V → option Accessor).
Context (lib : Codecs Meta X) (wrapped : Z → bytes → V) (marshal_record : object V → go (record_error X) bytes).
Context (record_error_text : record_error X → string).

Abbreviation W := (heap V * BBolt B)%type.
Abbreviation error := (bb_error BE).
Abbreviation entries b := (bolt_entries b).

(** The value of a key is a record with that metadata; every value is a record. *)
Definition loads (name k : string) (d : bytes) (x : Wrapper) (m : Meta) : Prop :=
  NewRawWrapper lib name k d = Ret x ∧ meta (wbase x) = Some m ∧ Meta_ok m.

Definition all_load (name : string) (m : gmap string bytes) : Prop :=
  ∀ k d, m !! k = Some d → ∃ x m, loads name k d x m.

Lemma NewRawWrapper_base (name k : string) (d : bytes) (x : Wrapper) :
  NewRawWrapper lib name k d = Ret x → ∃ m, wbase x = mkBase name k (Some m).
Proof.
  unfold NewRawWrapper. intros H.
  repeat match type of H with
  | go_bind ?a _ = _ => destruct a as [?|?|]; simpl in H; try done
  | (let '(_, _) := ?p in _) = _ => destruct p
  | (if ?c then _ else _) = _ => destruct c
  end; simplify_eq; by eexists.
Qed.

Lemma raw_wrapper_Ret (name k : string) (d : bytes) (x : Wrapper) :
  NewRawWrapper lib name k d = Ret x → raw_wrapper (BE := BE) lib record_error_text name k d = Ret x.
Proof. intros H. unfold raw_wrapper. by rewrite H. Qed.

(** The loop of a query over the keys from the prefix on. *)
Lemma query_loop_spec now (q : Query R) local internal name (b : B) (fuel : nat) (P : string → bool) cur :
  all_load name (entries b) → upward P → (∀ k, P k = true → bytes_lt k (q_dbKeyPrefix q) = false) →
  at_first (entries b) P cur → (left_in P (entries b) < fuel)%nat →
  ∃ xs, query_loop accessor_of lib wrapped record_error_text now q local internal name b fuel cur = (xs, Ret tt) ∧
    StronglySorted (λ x y, bytes_lt (dbKey (wbase x)) (dbKey (wbase y)) = true) xs ∧
    ∀ x, x ∈ xs ↔ ∃ k d, entries b !! k = Some d ∧ P k = true ∧ HasPrefix k (q_dbKeyPrefix q) = true ∧
      NewRawWrapper lib name k d = Ret x ∧ bb_selects accessor_of wrapped now q local internal x = true.
Proof.
  intros Hload. revert P cur. induction fuel as [|fuel IH]; intros P cur Hup Hpre Hcur Hfuel; [lia|].
  destruct cur as [[key value]|]; simpl.
  2:{ exists []. split; [done|]. split; [constructor|]. intros x. split; [by intros ?%elem_of_nil|].
      intros (k & d & Hk & HP & _). simpl in Hcur. by rewrite Hcur in HP. }
  pose proof Hcur as (Hkey & HPkey & _). destruct (HasPrefix key (q_dbKeyPrefix q)) eqn:Hb; simpl.
  2:{ exists []. split; [done|]. split; [constructor|]. intros x. split; [by intros ?%elem_of_nil|].
      intros (k & d & Hk & HP & Hbk & _). apply (at_first_rest P _ key k value Hup Hcur) in HP; [|by eexists].
      destruct HP as [->|Hlt]; [congruence|]. by rewrite (bytes_lt_prefix _ key k) in Hbk by auto. }
  destruct (Hload key value Hkey) as (x & _ & Hx & _). rewrite (raw_wrapper_Ret _ _ _ _ Hx).
  destruct (IH (bytes_lt key) (bolt_Next b key)) as (xs & Hrun & Hsort & Hin).
  { apply upward_after. }
  { intros k. apply bytes_ge_after, Hpre, HPkey. }
  { apply bolt_Next_law. }
  { pose proof (left_in_step P _ (entries b) key value Hup Hkey HPkey ltac:(done)). lia. }
  rewrite Hrun. destruct (NewRawWrapper_base _ _ _ _ Hx) as [m0 Hbase].
  assert (∀ y, y ∈ xs → bytes_lt key (dbKey (wbase y)) = true) as Hafter.
  { intros y (k & d & _ & HP & _ & Hy & _)%Hin. destruct (NewRawWrapper_base _ _ _ _ Hy) as [m1 ->]. done. }
  assert (∀ y, (∃ k d, entries b !! k = Some d ∧ P k = true ∧ HasPrefix k (q_dbKeyPrefix q) = true ∧
      NewRawWrapper lib name k d = Ret y ∧ bb_selects accessor_of wrapped now q local internal y = true) ↔
      (y = x ∧ bb_selects accessor_of wrapped now q local internal x = true) ∨ y ∈ xs) as Hsplit.
  { intros y. rewrite Hin. split.
    - intros (k & d & Hk & HP & Hbk & Hy & Hs). apply (at_first_rest P _ key k value Hup Hcur) in HP; [|by eexists].
      destruct HP as [->|Hlt]; [left|right; by exists k, d]. rewrite Hkey in Hk. injection Hk as <-. rewrite Hx in Hy. by injection Hy as <-.
    - intros [[-> Hs]|(k & d & Hk & HP & Hbk & Hy & Hs)]; [by exists key, value|]. exists k, d. split; [done|].
      split; [|done]. apply (at_first_rest P _ key k value Hup Hcur); [by eexists|by right]. }
  destruct (bb_selects _ _ _ _ _ _ x) eqn:Hs.
  - exists (x :: xs). split; [done|]. split.
    + constructor; [done|]. apply Forall_forall. intros y Hy. rewrite Hbase. by apply Hafter.
    + intros y. rewrite Hsplit, elem_of_cons. naive_solver.
  - exists xs. split; [done|]. split; [done|]. intros y. rewrite Hsplit. naive_solver.
Qed.

(** The records of a query are new objects. *)
Lemma alloc_wrappers_spec (xs : list Wrapper) (ls : list loc) (w : W) :
  ∃ h' ls', st_fold (λ l x, let$ r := BBolt_new_wrapper (BE := BE) wrapped x in st_ret (l ++ [r])%list) ls xs w = ((h', w.2), Ret (ls ++ ls')%list) ∧
    w.1 ⊆ h' ∧ Forall2 (λ l x, h' !! l = Some (mkObject (wbase x) (wrapped (Format x) (Data x))) ∧ w.1 !! l = None) ls' xs.
Proof.
  set (f := λ (l : list loc) (x : Wrapper), _).
  revert ls w. induction xs as [|x xs IH]; intros ls w.
  { exists w.1, []. rewrite app_nil_r. by destruct w. }
  set (l := fresh (dom w.1)). assert (w.1 !! l = None) as Hl by apply not_elem_of_dom, is_fresh.
  set (w1 := (<[l := mkObject (wbase x) (wrapped (Format x) (Data x))]> w.1, w.2)).
  assert (st_fold f ls (x :: xs) w = st_fold f (ls ++ [l])%list xs w1) as -> by reflexivity.
  destruct (IH (ls ++ [l])%list w1) as (h' & ls' & Hrun & Hsub & Hall).
  exists h', (l :: ls'). rewrite Hrun, <- app_assoc. split; [done|]. simpl in *. split.
  - etrans; [|exact Hsub]. by apply insert_subseteq.
  - constructor; [split; [|done]; eapply lookup_weaken; [|exact Hsub]; apply lookup_insert_eq|].
    eapply Forall2_impl; [exact Hall|]. simpl. intros l' x' [H1 H2]. split; [done|]. by apply lookup_insert_None in H2 as [? _].
Qed.

(** *** Records written again *)

Lemma loads_base (name k : string) (d : bytes) (x : Wrapper) (m : Meta) :
  loads name k d x m → wbase x = mkBase name k (Some m).
Proof. intros (Hx & Hm & _). destruct (NewRawWrapper_base _ _ _ _ Hx) as [m' Hb]. rewrite Hb in *. simpl in Hm. by injection Hm as ->. Qed.

(** With the mark of the deletion a record is its metadata. *)
Lemma rewrite_record_spec (name k : string) (d : bytes) (x : Wrapper) (m0 m : Meta) (b : B) :
  loads name k d x m0 → Meta_ok m → IsDeleted m = true →
  (∃ d' x' b', rewrite_record lib record_error_text k m x b = Ret b' ∧ loads name k d' x' m ∧ entries b' = <[k := d']> (entries b)) ∨
  ∃ e, rewrite_record lib record_error_text k m x b = Fail (BbBolt (BE := BE) e).
Proof.
  intros Hx%loads_base Hok Hdel. unfold rewrite_record, marshal_wrapper, set_wrapper_meta. rewrite Hx. unfold SetMeta. simpl.
  destruct (wrapper_storage_roundtrip lib (mkWrapper (mkBase name k (Some m)) RAW []) m) as (d' & Hd & Hl); [done..|].
  assert (Wrapper_MarshalRecord lib (mkWrapper (mkBase name k (Some m)) (Format x) (Data x)) = Ret d') as ->.
  { rewrite <- Hd. unfold Wrapper_MarshalRecord, Wrapper_Marshal. simpl. unfold IsDeleted in Hdel. by rewrite Hdel. }
  simpl. destruct (bolt_Put k d' b) as [e|b'] eqn:Hput; simpl; [right; by exists e|]. left.
  rewrite Hdel in Hl. eexists d', _, b'. split; [done|]. split; [by split|]. by apply bolt_Put_law.
Qed.

(** The cursor is repositioned at a key that is there. *)
Lemma next_after_Seek_law (b : B) (k : string) :
  is_Some (entries b !! k) → at_first (entries b) (bytes_lt k) (next_after_Seek b k).
Proof.
  intros Hk. unfold next_after_Seek. pose proof (bolt_Seek_law b k) as Hs. destruct (bolt_Seek b k) as [[k0 v]|].
  - destruct Hs as (H0 & HP & Hmin). assert (k0 = k) as ->; [|apply bolt_Next_law].
    destruct (Hmin k Hk) as [->|Hlt]; [by rewrite bytes_lt_irrefl|done|]. by rewrite Hlt in HP.
  - specialize (Hs k Hk). simpl in Hs. by rewrite bytes_lt_irrefl in Hs.
Qed.

(** *** Sweeps: the keys in [P] one after another *)

Definition swept (P : string → bool) (Rel : string → option bytes → option bytes → Prop) (m m' : gmap string bytes) : Prop :=
  ∀ k, if P k then Rel k (m !! k) (m' !! k) else m' !! k = m !! k.

Lemma swept_end P Rel (m : gmap string bytes) : (∀ k, Rel k None None) → at_first m P None → swept P Rel m m.
Proof.
  intros Hnone Hcur k. destruct (P k) eqn:HP; [|done]. destruct (m !! k) eqn:Hk; [|done].
  rewrite (Hcur k) in HP; [done|by eexists].
Qed.

Lemma swept_step P Rel (m m1 m' : gmap string bytes) (k : string) (v : bytes) :
  (∀ k, Rel k None None) → upward P → at_first m P (Some (k, v)) → (∀ k', k' ≠ k → m1 !! k' = m !! k') →
  Rel k (m !! k) (m1 !! k) → swept (bytes_lt k) Rel m1 m' → swept P Rel m m'.
Proof.
  intros Hnone Hup Hcur Hsame Hrel Hrest k'. specialize (Hrest k'). destruct (decide (k' = k)) as [->|Hne].
  { pose proof Hcur as (_ & HP & _). rewrite HP. rewrite bytes_lt_irrefl in Hrest. by rewrite Hrest. }
  rewrite (Hsame k' Hne) in Hrest. destruct (m !! k') eqn:Hk'.
  - pose proof (at_first_rest P m k k' v Hup Hcur ltac:(by eexists)) as Hiff.
    destruct (P k'), (bytes_lt k k'); try done; [destruct (proj1 Hiff eq_refl); congruence|].
    by discriminate (proj2 Hiff (or_intror eq_refl)).
  - destruct (bytes_lt k k') eqn:Hlt.
    + destruct Hcur as (_ & HP & _). by rewrite (Hup k k' HP Hlt).
    + destruct (P k'); [|done]. by rewrite Hrest.
Qed.

(** With keys that may be skipped. *)
Lemma swept_step_some P (Rel : string → option bytes → option bytes → Prop) (m m1 m' : gmap string bytes) (k : string) :
  (∀ k o, Rel k o o) → upward P → P k = true → (∀ k', k' ≠ k → m1 !! k' = m !! k') →
  Rel k (m !! k) (m1 !! k) → swept (bytes_lt k) Rel m1 m' → swept P Rel m m'.
Proof.
  intros Hrefl Hup HP Hsame Hrel Hrest k'. specialize (Hrest k'). destruct (decide (k' = k)) as [->|Hne].
  { rewrite HP. rewrite bytes_lt_irrefl in Hrest. by rewrite Hrest. }
  rewrite (Hsame k' Hne) in Hrest. destruct (bytes_lt k k') eqn:Hlt; [by rewrite (Hup k k' HP Hlt)|].
  rewrite Hrest. destruct (P k'); [apply Hrefl|done].
Qed.

(** Only one key has changed, and it still is a record. *)
Lemma all_load_step (name : string) (m m1 : gmap string bytes) (k : string) :
  all_load name m → (∀ k', k' ≠ k → m1 !! k' = m !! k') → (∀ d, m1 !! k = Some d → ∃ x m, loads name k d x m) → all_load name m1.
Proof.
  intros Hload Hsame Hk k' d Hk'. destruct (decide (k' = k)) as [->|Hne]; [by apply Hk|]. rewrite Hsame in Hk' by done. by apply Hload.
Qed.

(** *** Maintenance *)

(** What a run makes of a record, in the terms of the hash map's. *)
Definition maintained_entry (now purgeThreshold : Z) (shadowDelete : bool) (name k : string) (old new : option bytes) : Prop :=
  match old with
  | None => new = None
  | Some d => ∃ x m, loads name k d x m ∧
      if purged now purgeThreshold shadowDelete m then new = None
      else ∃ d' x', new = Some d' ∧ loads name k d' x' (maintained now shadowDelete m) ∧ (maintained now shadowDelete m = m → d' = d)
  end.

Lemma expired_deletes (now : Z) (m : Meta) : expired now m = true → (0 <? Expires m) = true ∧ Deleted m ≠ Expires m.
Proof. unfold expired. intros [[H1%Z.eqb_eq H2]%andb_prop _]%andb_prop. split; [done|]. apply Z.ltb_lt in H2. lia. Qed.

(** None of the records in [P] is to be removed. *)
Definition none_removed (now purgeThreshold : Z) (shadowDelete : bool) (name : string) (P : string → bool) (entries : gmap string bytes) : Prop :=
  ∀ k d x m, entries !! k = Some d → P k = true → loads name k d x m → purged now purgeThreshold shadowDelete m = false.

(** A run that is not stopped, and does not depend on where the cursor is after a
    removal. *)
Definition whole_run (ctx_done : nat → bool) (none : Prop) : Prop := (∀ n, ctx_done n = false) ∧ (keeps_place B BE ∨ none).

Lemma bb_maintain_spec now purgeThreshold shadowDelete ctx_done name (whole : Prop) fuel : ∀ polls (b : B) P cur,
  all_load name (entries b) → upward P → at_some (entries b) P cur →
  (whole → whole_run ctx_done (none_removed now purgeThreshold shadowDelete name P (entries b))) → (whole → at_first (entries b) P cur) →
  (left_in P (entries b) < fuel)%nat →
  (∃ b', bb_maintain lib record_error_text now purgeThreshold shadowDelete ctx_done name fuel polls b cur = (b', Ret tt) ∧
    swept P (λ k o n, n = o ∨ maintained_entry now purgeThreshold shadowDelete name k o n) (entries b) (entries b') ∧
    (whole →
     swept P (maintained_entry now purgeThreshold shadowDelete name) (entries b) (entries b'))) ∨
  ∃ b' e, bb_maintain lib record_error_text now purgeThreshold shadowDelete ctx_done name fuel polls b cur = (b', Fail (BbBolt (BE := BE) e)).
Proof.
  induction fuel as [|fuel IH]; intros polls b P cur Hload Hup Hcur Hwhole Hfirst Hfuel; [lia|].
  assert (∀ k (o : option bytes), o = o ∨ maintained_entry now purgeThreshold shadowDelete name k o o) as Hrefl by auto.
  assert (swept P (λ k o n, n = o ∨ maintained_entry now purgeThreshold shadowDelete name k o n) (entries b) (entries b)) as Hnone.
  { intros k. destruct (P k); auto. }
  destruct cur as [[key value]|]; simpl; [|left; exists b; split; [done|]; split; [done|]; intros Hw; by apply swept_end, Hfirst].
  destruct (ctx_done polls) eqn:Hctx.
  { left. exists b. split; [done|]. split; [done|]. intros [Hw _]%Hwhole. by rewrite Hw in Hctx. }
  pose proof Hcur as (Hkey & HPkey). destruct (Hload key value Hkey) as (x & m & Hx).
  pose proof Hx as (Hx1 & Hx2 & Hok). rewrite (raw_wrapper_Ret _ _ _ _ Hx1). rewrite Hx2.
  assert (∀ (b1 : B) cur1, (∀ k', k' ≠ key → entries b1 !! k' = entries b !! k') → (∀ d, entries b1 !! key = Some d → ∃ x m, loads name key d x m) →
    at_some (entries b1) (bytes_lt key) cur1 →
    (whole → at_first (entries b1) (bytes_lt key) cur1) →
    maintained_entry now purgeThreshold shadowDelete name key (entries b !! key) (entries b1 !! key) →
    (∃ b', bb_maintain lib record_error_text now purgeThreshold shadowDelete ctx_done name fuel (S polls) b1 cur1 = (b', Ret tt) ∧
      swept P (λ k o n, n = o ∨ maintained_entry now purgeThreshold shadowDelete name k o n) (entries b) (entries b') ∧
      (whole →
       swept P (maintained_entry now purgeThreshold shadowDelete name) (entries b) (entries b'))) ∨
    ∃ b' e, bb_maintain lib record_error_text now purgeThreshold shadowDelete ctx_done name fuel (S polls) b1 cur1 = (b', Fail (BbBolt (BE := BE) e))) as Hgo.
  { intros b1 cur1 Hsame Hl1 Hcur1 Hfirst1 Hrel.
    assert (whole → whole_run ctx_done (none_removed now purgeThreshold shadowDelete name (bytes_lt key) (entries b1))) as Hw.
    { intros [Hc Hk]%Hwhole. split; [done|]. destruct Hk as [Hk|Hno]; [by left|right]. intros k d x0 m0 Hkd Hlt.
      assert (k ≠ key) as Hne by (intros ->; by rewrite bytes_lt_irrefl in Hlt). rewrite Hsame in Hkd by done. apply (Hno k d); [done|by eapply Hup]. }
    destruct (IH (S polls) b1 (bytes_lt key) cur1) as [(b' & Hrun & Hsw & Hex)|He]; [| | | | | |left|by right].
    - by eapply all_load_step.
    - apply upward_after.
    - done.
    - done.
    - done.
    - pose proof (left_in_step P _ (entries b1) key value Hup Hkey HPkey Hsame). lia.
    - exists b'. split; [done|]. split; [eapply swept_step_some; try done; by right|]. intros Hw'. eapply swept_step; try done; [by apply Hfirst|by apply Hex]. }
  unfold maintained_entry in Hgo. rewrite Hkey in Hgo. fold (expired now m).
  destruct (expired now m && shadowDelete) eqn:Hes.
  - assert (maintained now shadowDelete m = mkMeta (Created m) (Modified m) (Expires m) (Expires m) (secret m) (cronjewel m)) as Hm
      by (unfold maintained; by rewrite Hes).
    apply andb_prop in Hes as [Hexp ->]. pose proof (expired_deletes now m Hexp) as [Hdel Hne]. rewrite <- Hm.
    destruct (rewrite_record_spec name key value x m (maintained now true m) b) as [(d' & x' & b1 & -> & Hl & Hb1)|[e ->]]; [done|..].
    { rewrite Hm. by destruct Hok as (? & ? & ? & ?). }
    { by rewrite Hm. }
    2:{ right. by eexists _, _. }
    assert (at_first (entries b1) (bytes_lt key) (next_after_Seek b1 key)) as Hnext by (apply next_after_Seek_law; rewrite Hb1, lookup_insert_eq; by eexists).
    apply Hgo.
    + intros k' Hne'. by rewrite Hb1, lookup_insert_ne.
    + intros d. rewrite Hb1, lookup_insert_eq. intros [= <-]. by eexists _, _.
    + by apply at_first_some.
    + done.
    + rewrite Hb1, lookup_insert_eq. exists x, m. split; [done|]. unfold purged. rewrite Hexp. exists d', x'. split_and!; [done..|].
      intros Heq. rewrite Hm in Heq. by apply (f_equal Deleted) in Heq.
  - assert (maintained now shadowDelete m = m) as Hm by (unfold maintained; by rewrite Hes).
    destruct (expired now m || _) eqn:Hc.
    + assert (purged now purgeThreshold shadowDelete m = true) as Hpm by (unfold purged; destruct (expired now m), shadowDelete; done).
      destruct (bolt_Delete key b) as [e|b1] eqn:Hdel; [right; by eexists _, _|]. apply bolt_Delete_law in Hdel. apply Hgo.
      * intros k' Hne. by rewrite Hdel, lookup_delete_ne.
      * intros d. by rewrite Hdel, lookup_delete_eq.
      * apply bolt_Next_deleted_law.
      * intros [_ [Hkeep|Hno]]%Hwhole; [apply Hkeep; by rewrite Hdel, lookup_delete_eq|]. by rewrite (Hno key value x m Hkey HPkey Hx) in Hpm.
      * rewrite Hdel, lookup_delete_eq. exists x, m. split; [done|]. by rewrite Hpm.
    + apply Hgo; [done| |apply at_first_some, bolt_Next_law|intros _; apply bolt_Next_law|].
      * intros d [= <-]%(eq_trans (eq_sym Hkey)). by eexists _, _.
      * exists x, m. split; [done|]. rewrite Hm, Hkey.
        assert (purged now purgeThreshold shadowDelete m = false) as ->; [|by exists value, x].
        unfold purged. destruct (expired now m), shadowDelete; done.
Qed.

(** *** Purging *)

Section PurgeLemmas.
Context (now : Z) (q : Query R) (local internal shadowDelete : bool) (name : string) (ctx_done : nat → bool).
Hypothesis (Hnow : 0 < now < 2 ^ 63).

(** The purge is not stopped, and does not depend on where the cursor is after a
    removal: a mark of the deletion is followed by a Seek. *)
Abbreviation whole_purge := (whole_run ctx_done (shadowDelete = true)).

(** The record matches the query, may be deleted and is not. *)
Definition to_purge (k : string) (d : bytes) : bool :=
  HasPrefix k (q_dbKeyPrefix q) &&
  match NewRawWrapper lib name k d with
  | Ret x => match meta (wbase x) with Some m => purge_selects accessor_of wrapped q local internal m x | None => false end
  | _ => false
  end.

Definition to_purge_count (m : gmap string bytes) : Z := Z.of_nat (size (filter (λ e, to_purge e.1 e.2 = true) m)).

Definition erased (k : string) (d : bytes) (new : option bytes) : Prop :=
  if shadowDelete then ∃ x m d' x', loads name k d x m ∧ new = Some d' ∧ loads name k d' x' (Meta_Delete now m)
  else new = None.

(** Nothing but what matches is erased; all of it is erased. *)
Definition some_erased (m m' : gmap string bytes) : Prop :=
  ∀ k, m' !! k = m !! k ∨ ∃ d, m !! k = Some d ∧ to_purge k d = true ∧ erased k d (m' !! k).

Definition none_left (P : string → bool) (m : gmap string bytes) : Prop := ∀ k d, m !! k = Some d → P k = true → to_purge k d = false.

Definition all_erased (m m' : gmap string bytes) : Prop :=
  ∀ k, match m !! k with
       | Some d => if to_purge k d then erased k d (m' !! k) else m' !! k = Some d
       | None => m' !! k = None
       end.

Lemma to_purge_loads (k : string) (d : bytes) (x : Wrapper) (m : Meta) :
  loads name k d x m → to_purge k d = HasPrefix k (q_dbKeyPrefix q) && purge_selects accessor_of wrapped q local internal m x.
Proof. intros (Hx & Hm & _). unfold to_purge. by rewrite Hx, Hm. Qed.

Lemma erased_spares (k : string) (d d' : bytes) (new : option bytes) : erased k d new → new = Some d' → to_purge k d' = false.
Proof.
  unfold erased. destruct shadowDelete; [|by intros ->]. intros (x & m & d1 & x' & _ & -> & Hl) [= ->].
  rewrite (to_purge_loads _ _ _ _ Hl). unfold purge_selects, IsDeleted. simpl.
  assert (0 <? now = true) as -> by (apply Z.ltb_lt; lia). simpl. by rewrite andb_false_r, andb_false_l, andb_false_r.
Qed.

Lemma erased_loads (k : string) (d d' : bytes) (new : option bytes) : erased k d new → new = Some d' → ∃ x m, loads name k d' x m.
Proof. unfold erased. destruct shadowDelete; [|by intros ->]. intros (x & m & d1 & x' & _ & -> & Hl) [= ->]. by eexists _, _. Qed.

Lemma some_erased_load (m m' : gmap string bytes) : some_erased m m' → all_load name m → all_load name m'.
Proof. intros Hs Hl k d Hk. destruct (Hs k) as [He|(d0 & _ & _ & He)]; [rewrite He in Hk; by apply Hl|by eapply erased_loads]. Qed.

Lemma some_erased_trans (m1 m2 m3 : gmap string bytes) : some_erased m1 m2 → some_erased m2 m3 → some_erased m1 m3.
Proof.
  intros H12 H23 k. destruct (H12 k) as [He|(d & Hd & Hp & He)]; destruct (H23 k) as [He'|(d' & Hd' & Hp' & He')].
  - left. congruence.
  - right. exists d'. split; [congruence|done].
  - right. exists d. by rewrite He'.
  - rewrite (erased_spares k d d' _ He Hd') in Hp'. done.
Qed.

Lemma all_erased_intro (m m' : gmap string bytes) : some_erased m m' → none_left (λ _, true) m' → all_erased m m'.
Proof.
  intros Hs Hn k. destruct (Hs k) as [He|(d & -> & -> & He)]; [|done]. rewrite He.
  destruct (m !! k) as [d|] eqn:Hk; [|done]. by rewrite (Hn k d).
Qed.

Lemma to_purge_count_nonneg m : 0 ≤ to_purge_count m.
Proof. unfold to_purge_count. lia. Qed.

Lemma to_purge_count_bound m : to_purge_count m ≤ Z.of_nat (size m).
Proof. unfold to_purge_count. pose proof (map_subseteq_size _ _ (map_filter_subseteq (λ e, to_purge e.1 e.2 = true) m)). lia. Qed.

(** One record less. *)
Lemma to_purge_count_erased (m m1 : gmap string bytes) (k : string) (d : bytes) :
  m !! k = Some d → to_purge k d = true → (∀ k', k' ≠ k → m1 !! k' = m !! k') → erased k d (m1 !! k) →
  to_purge_count m1 + 1 = to_purge_count m.
Proof.
  intros Hk Hp Hsame He. unfold to_purge_count.
  assert (filter (λ e, to_purge e.1 e.2 = true) m1 = delete k (filter (λ e, to_purge e.1 e.2 = true) m)) as ->.
  { apply map_eq. intros k'. destruct (decide (k' = k)) as [->|Hne].
    - rewrite lookup_delete_eq. apply map_lookup_filter_None. right. intros d' Hd'. simpl.
      by rewrite (erased_spares k d d' _ He Hd').
    - rewrite lookup_delete_ne by congruence. rewrite !map_lookup_filter. by rewrite Hsame. }
  assert (filter (λ e, to_purge e.1 e.2 = true) m !! k = Some d) as Hf by (by apply map_lookup_filter_Some).
  rewrite map_size_delete_Some by (by eexists).
  assert (size (filter (λ e, to_purge e.1 e.2 = true) m) ≠ 0)%nat; [|lia]. intros H0%map_size_empty_inv. by rewrite H0 in Hf.
Qed.

(** What a transaction that succeeds has done. *)
Definition tx_done (P : string → bool) (cnt : Z) (m : gmap string bytes) (cnt' : Z) (m' : gmap string bytes) (done : bool) : Prop :=
  some_erased m m' ∧ cnt' + to_purge_count m' = cnt + to_purge_count m ∧
    if done then whole_purge → none_left P m' else cnt < cnt'.

Abbreviation tx := (purge_tx accessor_of lib wrapped record_error_text now q local internal shadowDelete ctx_done name).

(** The rest of the transaction after a record. *)
Lemma tx_done_skip P cnt (m : gmap string bytes) cnt' m' done (k : string) (d : bytes) :
  upward P → (whole_purge → at_first m P (Some (k, d))) → to_purge k d = false →
  tx_done (bytes_lt k) cnt m cnt' m' done → tx_done P cnt m cnt' m' done.
Proof.
  intros Hup Hfirst Hp (Hs & Hc & Hd). split; [done|]. split; [done|]. destruct done; [|done].
  intros Hw k' d' Hk' HP. pose proof (Hfirst Hw) as Hcur. pose proof Hcur as (Hk & _ & _). destruct (Hs k') as [He|(d0 & _ & _ & He)]; [|by eapply erased_spares].
  rewrite He in Hk'. apply (at_first_rest P m k k' d Hup Hcur) in HP; [|by eexists].
  destruct HP as [->|Hlt]; [congruence|]. by apply (Hd Hw); [rewrite He|].
Qed.

Lemma tx_done_erase P cnt (m m1 : gmap string bytes) cnt' m' (done : bool) (k : string) (d : bytes) :
  upward P → m !! k = Some d → (whole_purge → at_first m P (Some (k, d))) → to_purge k d = true →
  (∀ k', k' ≠ k → m1 !! k' = m !! k') → erased k d (m1 !! k) →
  some_erased m1 m' → cnt' + to_purge_count m' = cnt + 1 + to_purge_count m1 →
  (if done then whole_purge → none_left (bytes_lt k) m' else cnt < cnt') → tx_done P cnt m cnt' m' done.
Proof.
  intros Hup Hk Hfirst Hp Hsame He Hs Hc Hd.
  pose proof (to_purge_count_erased m m1 k d Hk Hp Hsame He) as Hcount.
  assert (some_erased m m1) as Hs1.
  { intros k'. destruct (decide (k' = k)) as [->|Hne]; [right; by exists d|left; by apply Hsame]. }
  split; [by eapply some_erased_trans|]. split; [lia|]. destruct done; [|done].
  intros Hw k' d' Hk' HP. pose proof (Hfirst Hw) as Hcur. destruct (some_erased_trans _ _ _ Hs1 Hs k') as [He'|(d0 & _ & _ & He')]; [|by eapply erased_spares].
  assert (is_Some (m !! k')) as Hm by (rewrite <- He'; by eexists). apply (at_first_rest P m k k' d Hup Hcur Hm) in HP as [->|Hlt].
  - destruct (Hs k) as [He1|(d0 & _ & _ & He1)]; [|by eapply erased_spares]. rewrite He1 in Hk'. by eapply erased_spares.
  - by apply (Hd Hw).
Qed.

Lemma purge_tx_spec fuel : ∀ polls cnt (b : B) P cur,
  all_load name (entries b) → upward P → (∀ k, P k = true → bytes_lt k (q_dbKeyPrefix q) = false) →
  at_some (entries b) P cur → (whole_purge → at_first (entries b) P cur) → (left_in P (entries b) < fuel)%nat →
  (∃ b' cnt' done polls', tx fuel polls cnt b cur = (b', cnt', Ret (done, polls')) ∧ tx_done P cnt (entries b) cnt' (entries b') done) ∨
  ∃ b' cnt' e, tx fuel polls cnt b cur = (b', cnt', Fail (BbBolt (BE := BE) e)).
Proof.
  induction fuel as [|fuel IH]; intros polls cnt b P cur Hload Hup Hpre Hcur Hfirst Hfuel; [lia|].
  assert (∀ m, some_erased m m) as Hid by (intros ??; by left).
  destruct cur as [[key value]|]; simpl.
  2:{ left. exists b, cnt, true, polls. split; [done|]. split; [done|]. split; [done|]. intros Hw k d Hk HP. rewrite (Hfirst Hw k) in HP; [done|by eexists]. }
  pose proof Hcur as (Hkey & HPkey). destruct (ctx_done polls) eqn:Hctx.
  { left. exists b, cnt, true, (S polls). split; [done|]. split; [done|]. split; [done|]. intros [Hw _]. by rewrite Hw in Hctx. }
  destruct (HasPrefix key (q_dbKeyPrefix q)) eqn:Hb; simpl.
  2:{ left. exists b, cnt, true, (S polls). split; [done|]. split; [done|]. split; [done|]. intros Hw k d Hk HP.
      apply (at_first_rest P _ key k value Hup (Hfirst Hw)) in HP; [|by eexists]. unfold to_purge.
      destruct HP as [->|Hlt]; [by rewrite Hb|]. by rewrite (bytes_lt_prefix _ key k) by auto. }
  destruct (Hload key value Hkey) as (x & m & Hx). pose proof Hx as (Hx1 & Hx2 & Hok). rewrite (raw_wrapper_Ret _ _ _ _ Hx1), Hx2.
  pose proof (to_purge_loads key value x m Hx) as Hp. rewrite Hb in Hp. simpl in Hp. rewrite <- Hp.
  assert (∀ k, bytes_lt key k = true → bytes_lt k (q_dbKeyPrefix q) = false) as Hpre'.
  { intros k. apply bytes_ge_after, Hpre, HPkey. }
  destruct (to_purge key value) eqn:Hpk; simpl.
  2:{ destruct (IH (S polls) cnt b (bytes_lt key) (bolt_Next b key)) as [(b' & cnt' & dn & p' & Hrun & Htx)|He];
        [done|apply upward_after|done|apply at_first_some, bolt_Next_law|intros _; apply bolt_Next_law| |left|by right].
      - pose proof (left_in_step P _ (entries b) key value Hup Hkey HPkey ltac:(done)). lia.
      - exists b', cnt', dn, p'. split; [done|]. by eapply tx_done_skip. }
  assert (∀ (b1 : B) cur1, (∀ k', k' ≠ key → entries b1 !! k' = entries b !! k') → erased key value (entries b1 !! key) →
    at_some (entries b1) (bytes_lt key) cur1 → (whole_purge → at_first (entries b1) (bytes_lt key) cur1) →
    let r := if (cnt + 1) mod 1000 =? 0 then (b1, cnt + 1, Ret (false, S polls)) else tx fuel (S polls) (cnt + 1) b1 cur1 in
    (∃ b' cnt' done polls', r = (b', cnt', Ret (done, polls')) ∧ tx_done P cnt (entries b) cnt' (entries b') done) ∨
    ∃ b' cnt' e, r = (b', cnt', Fail (BbBolt (BE := BE) e))) as Hgo.
  { intros b1 cur1 Hsame He Hcur1 Hfirst1 r. subst r. destruct ((cnt + 1) mod 1000 =? 0).
    { left. exists b1, (cnt + 1), false, (S polls). split; [done|]. eapply tx_done_erase; [done..|lia]. }
    destruct (IH (S polls) (cnt + 1) b1 (bytes_lt key) cur1) as [(b' & cnt' & dn & p' & Hrun & Htx)|He'];
      [|apply upward_after|done|done|done| |left|by right].
    - eapply all_load_step; [done..|]. intros d Hd. by eapply erased_loads.
    - pose proof (left_in_step P _ (entries b1) key value Hup Hkey HPkey Hsame). lia.
    - destruct Htx as (Hs & Hc & Hd). exists b', cnt', dn, p'. split; [done|]. eapply tx_done_erase; [done..|]. destruct dn; [done|lia]. }
  unfold erased in Hgo. destruct shadowDelete eqn:Hshadow.
  - destruct (rewrite_record_spec name key value x m (Meta_Delete now m) b) as [(d' & x' & b1 & -> & Hl & Hb1)|[e ->]]; [done|..].
    { destruct Hok as (? & ? & ? & ?). split_and!; try done; simpl; unfold is_s64; lia. }
    { apply Z.ltb_lt. simpl. lia. }
    2:{ right. by eexists _, _, _. }
    assert (at_first (entries b1) (bytes_lt key) (next_after_Seek b1 key)) as Hnext by (apply next_after_Seek_law; rewrite Hb1, lookup_insert_eq; by eexists).
    apply Hgo.
    + intros k' Hne. by rewrite Hb1, lookup_insert_ne.
    + exists x, m, d', x'. by rewrite Hb1, lookup_insert_eq.
    + by apply at_first_some.
    + done.
  - destruct (bolt_Delete key b) as [e|b1] eqn:Hdel; [right; by eexists _, _, _|]. apply bolt_Delete_law in Hdel. apply Hgo.
    + intros k' Hne. by rewrite Hdel, lookup_delete_ne.
    + by rewrite Hdel, lookup_delete_eq.
    + apply bolt_Next_deleted_law.
    + intros [_ [Hkeep|?]]; [|done]. apply Hkeep. by rewrite Hdel, lookup_delete_eq.
Qed.

Abbreviation rounds_of := (purge_rounds accessor_of lib wrapped record_error_text now q local internal shadowDelete ctx_done).

(** A transaction after another one. *)
Lemma some_all_erased (m1 m2 m3 : gmap string bytes) : some_erased m1 m2 → all_erased m2 m3 → all_erased m1 m3.
Proof.
  intros Hs Ha k. specialize (Ha k). destruct (Hs k) as [Hk|(d & Hk & Hp & Her)]; [by rewrite Hk in Ha|].
  rewrite Hk, Hp. destruct (m2 !! k) as [d'|] eqn:Hk'; [|by rewrite Ha].
  rewrite (erased_spares k d d' _ Her eq_refl) in Ha. by rewrite Ha.
Qed.

(** After the last key with the prefix nothing is left. *)
Lemma none_left_prefix (m : gmap string bytes) :
  none_left (λ k, negb (bytes_lt k (q_dbKeyPrefix q))) m → none_left (λ _, true) m ∧ to_purge_count m = 0.
Proof.
  intros Hd. assert (none_left (λ _, true) m) as Hnone.
  { intros k d Hk _. destruct (HasPrefix k (q_dbKeyPrefix q)) eqn:Hpre; [|unfold to_purge; by rewrite Hpre].
    apply (Hd k d Hk). by rewrite (prefix_not_lt _ _ Hpre). }
  split; [done|]. unfold to_purge_count. rewrite (proj2 (map_empty_filter _ _)); [by rewrite map_size_empty|].
  intros k d Hk. simpl. by rewrite (Hnone k d Hk).
Qed.

(** The round trips of a purge: each that is not the last one erases a record. *)
Lemma purge_rounds_spec rounds : ∀ polls cnt (w : W),
  bb_name w.2 = name → all_load name (entries (bb_db w.2)) → to_purge_count (entries (bb_db w.2)) < Z.of_nat rounds →
  ∃ s' cnt' err, rounds_of rounds polls cnt w = ((w.1, s'), Ret (cnt', err)) ∧ bb_name s' = name ∧
    some_erased (entries (bb_db w.2)) (entries (bb_db s')) ∧
    match err with
    | None => cnt' + to_purge_count (entries (bb_db s')) = cnt + to_purge_count (entries (bb_db w.2)) ∧
        (whole_purge → to_purge_count (entries (bb_db s')) = 0 ∧ all_erased (entries (bb_db w.2)) (entries (bb_db s')))
    | Some e => ∃ be, e = BbBolt be
    end.
Proof.
  induction rounds as [|rounds IH]; intros polls cnt [h s] Hname Hload Hrounds; cbn [fst snd] in *.
  { pose proof (to_purge_count_nonneg (entries (bb_db s))). lia. }
  assert (∀ m, some_erased m m) as Hid by (intros ??; by left). cbn [purge_rounds fst snd]. rewrite Hname.
  destruct (purge_tx_spec (loop_fuel (bb_db s)) polls cnt (bb_db s) (λ k, negb (bytes_lt k (q_dbKeyPrefix q))) (bolt_Seek (bb_db s) (q_dbKeyPrefix q)))
    as [(b' & cnt' & dn & p' & -> & Hs & Hc & Hd)|(b' & cnt' & e & ->)].
  - done.
  - apply upward_from.
  - intros k. apply negb_true_iff.
  - apply at_first_some, bolt_Seek_law.
  - intros _. apply bolt_Seek_law.
  - apply left_in_bound.
  - unfold bolt_Update. simpl. destruct (bolt_Commit (bb_tick s)) as [e|].
    { exists (mkBBolt (bb_name s) (bb_db s) (S (bb_tick s))), cnt', (Some (BbBolt e)).
      split; [by destruct dn|]. split; [done|]. split; [apply Hid|by eexists]. }
    destruct dn.
    + eexists _, cnt', None. split; [done|]. split; [done|]. simpl. split; [done|]. split; [lia|].
      intros [Hnone Hzero]%Hd%none_left_prefix. split; [done|by apply all_erased_intro].
    + destruct (IH p' cnt' (h, mkBBolt (bb_name s) b' (S (bb_tick s)))) as (s' & cnt2 & err & Hrun & Hn & Herr); simpl in *.
      * done.
      * by eapply some_erased_load.
      * lia.
      * destruct Herr as [Hs2 Herr]. exists s', cnt2, err. split; [done|]. split; [done|]. split; [by eapply some_erased_trans|].
        destruct err; [done|]. destruct Herr as [Hc2 He]. split; [lia|]. intros [H0 Ha]%He. split; [done|by eapply some_all_erased].
  - eexists s, cnt', (Some (BbBolt e)). split; [done|]. split; [done|]. split; [apply Hid|by eexists].
Qed.

End PurgeLemmas.

(** *** Transactions and batches *)

Lemma bolt_Update_atomic {A : Type} (fn : heap V → B → B * go error A) (h : heap V) (s : BBolt B) :
  ∃ s' r, bolt_Update fn (h, s) = ((h, s'), r) ∧ bb_name s' = bb_name s ∧
    bb_db s' = match r with Ret _ => (fn h (bb_db s)).1 | _ => bb_db s end ∧
    match (fn h (bb_db s)).2 with Ret a => r = Ret a ∨ ∃ e, r = Fail (BbBolt e) | x => r = x end.
Proof.
  unfold bolt_Update. simpl. destruct (fn h (bb_db s)) as [b [a|e|]]; simpl; [|by eexists _, _..].
  destruct (bolt_Commit (bb_tick s)) as [e|]; eexists _, _; (split; [done|]); (split; [done|]); (split; [done|]); [right; by eexists|by left].
Qed.

(** What a record of a batch does to the entries. *)
Definition batch_effect (shadowDelete : bool) (h : heap V) (m : gmap string bytes) (r : loc) : gmap string bytes :=
  match (if shadowDelete then Ret false else is_deleted (E := error) h r) with
  | Ret true => delete (key_of h r) m
  | _ => match marshal_at marshal_record record_error_text (BE := BE) h r with Ret data => <[key_of h r := data]> m | _ => m end
  end.

Lemma put_batch_Ret shadowDelete (h : heap V) (batch : list loc) (b b' : B) rest :
  put_batch marshal_record record_error_text shadowDelete h batch b = (b', rest, Ret tt) →
  rest = [] ∧ entries b' = fold_left (batch_effect shadowDelete h) batch (entries b).
Proof.
  revert b. induction batch as [|r batch IH]; intros b; simpl; [by intros [= <- <-]|].
  destruct (BBolt_batchPutOrDelete _ _ shadowDelete h r b) as [b1 [[]|e|]] eqn:H1; [|done..].
  intros H. apply IH in H as [-> ->]. split; [done|]. f_equal. unfold BBolt_batchPutOrDelete in H1. unfold batch_effect.
  destruct (if shadowDelete then Ret false else is_deleted h r) as [[]|e|]; [| |done..].
  - destruct (bolt_Delete (key_of h r) b) eqn:Hd; simplify_eq. by apply bolt_Delete_law.
  - destruct (marshal_at _ _ h r) as [data|e|]; [|done..]. unfold put_data in H1.
    destruct (bolt_Put (key_of h r) data b) eqn:Hp; simplify_eq. by apply bolt_Put_law.
Qed.

End BboltLemmas.

(** *** A map of keys *)

Lemma first_of_spec (P : string → bool) (m : gmap string bytes) : at_first m P (first_of P m).
Proof.
  assert (∀ l : list (string * bytes),
    match foldr (λ e best, if P e.1 then match best with Some b => if bytes_lt b.1 e.1 then best else Some e | None => Some e end else best) None l with
    | Some (k, v) => (k, v) ∈ l ∧ P k = true ∧ ∀ e, e ∈ l → P e.1 = true → e.1 = k ∨ bytes_lt k e.1 = true
    | None => ∀ e, e ∈ l → P e.1 = false
    end) as Hl.
  { induction l as [|[k v] l IH]; simpl; [by intros e ?%elem_of_nil|].
    destruct (foldr _ None l) as [[k0 v0]|]; destruct (P k) eqn:HP; simpl.
    - destruct IH as (Hin & HP0 & Hmin). destruct (bytes_lt k0 k) eqn:Hlt.
      + split; [apply elem_of_cons; by right|]. split; [done|]. intros e [->|He]%elem_of_cons HPe; [by right|by apply Hmin].
      + split; [apply elem_of_cons; by left|]. split; [done|]. intros e [->|He]%elem_of_cons HPe; [by left|].
        destruct (bytes_lt_total e.1 k) as [->|[H|H]]; [by left| |by right]. exfalso.
        destruct (Hmin e He HPe) as [Heq|H0]; [by rewrite <- Heq, H in Hlt|]. by rewrite (bytes_lt_trans _ _ _ H0 H) in Hlt.
    - destruct IH as (Hin & HP0 & Hmin). split; [apply elem_of_cons; by right|]. split; [done|]. intros e [->|He]%elem_of_cons HPe; [simpl in HPe; congruence|by apply Hmin].
    - split; [apply elem_of_cons; by left|]. split; [done|]. intros e [->|He]%elem_of_cons HPe; [by left|]. by rewrite (IH e He) in HPe.
    - intros e [->|He]%elem_of_cons; [done|by apply IH]. }
  specialize (Hl (map_to_list m)). unfold first_of, at_first. destruct (foldr _ None _) as [[k v]|].
  - destruct Hl as (Hin & HP & Hmin). apply elem_of_map_to_list in Hin. split; [done|]. split; [done|].
    intros k' [v' Hk'%elem_of_map_to_list] HP'. by apply (Hmin (k', v')).
  - intros k' [v' Hk'%elem_of_map_to_list]. by apply (Hl (k', v')).
Qed.

#[global] Instance map_bolt_laws : BoltLaws (gmap string bytes) unit.
Proof.
  split; simpl; intros.
  - done.
  - destruct (String.eqb k ""); by simplify_eq.
  - by simplify_eq.
  - apply first_of_spec.
  - apply first_of_spec.
  - apply first_of_spec.
  - apply at_first_some, first_of_spec.
Qed.

Lemma map_bolt_keeps_place : keeps_place (gmap string bytes) unit.
Proof. intros b k _. apply first_of_spec. Qed.

(** ** Properties *)

Section Properties.
Context {V R X B BE : Type} `{!QueryLib R} {BL : Bolt B BE} {laws : BoltLaws B BE} (accessor_of : V → option Accessor).
Context (lib : Codecs Meta X) (wrapped : Z → bytes → V) (marshal_record : object V → go (record_error X) bytes).
Context (record_error_text : record_error X → string).

Abbreviation entries s := (bolt_entries (bb_db s)).

(** What is put is found by Get under its key, in a new object with the metadata,
    the format and the data (of a deleted record only the metadata); the other keys
    stay. A Put that fails changes nothing. *)
Theorem BBolt_Put_Get (h : heap V) (s : BBolt B) (r : loc) (o : object V) (wr : Wrapper) (m : Meta) :
  h !! r = Some o → o_base o = wbase wr → dbName (wbase wr) = bb_name s → meta (wbase wr) = Some m → Meta_ok m → 0 ≤ Format wr < 128 →
  marshal_record o = Wrapper_MarshalRecord lib wr →
  ∃ s', (BBolt_Put marshal_record record_error_text r (h, s) = ((h, s'), Ret (Some r)) ∧
    (∀ k, k ≠ key_of h r → entries s' !! k = entries s !! k) ∧
    ∃ r', BBolt_Get lib wrapped record_error_text (key_of h r) (h, s') =
      ((<[r' := mkObject (wbase wr) (if IsDeleted m then wrapped RAW [] else wrapped (Format wr) (Data wr))]> h, s'), Ret r') ∧ h !! r' = None) ∨
  (∃ e, BBolt_Put marshal_record record_error_text r (h, s) = ((h, s'), Fail (BbBolt (BE := BE) e)) ∧ bb_db s' = bb_db s).
Proof.
  intros Ho Hbase Hname Hm Hok Hf Hmar.
  destruct (wrapper_storage_roundtrip lib wr m Hm Hok Hf) as (stored & Hst & Hload).
  assert (dbKey (wbase wr) = key_of h r) as Hkey by (unfold key_of, base_of; by rewrite Ho, <- Hbase).
  unfold BBolt_Put, st_bind, st_get, marshal_at, st_ret. simpl. rewrite Ho, Hmar, Hst. simpl.
  destruct (bolt_Update_atomic (BE := BE) (λ h b, put_data (key_of h r) stored b) h s) as (s' & x & Hrun & Hn & Hdb & Hx).
  exists s'. rewrite Hrun. unfold put_data in Hdb, Hx. destruct (bolt_Put (key_of h r) stored (bb_db s)) as [e|b'] eqn:Hput; simpl in Hx.
  { subst x. right. by exists e. }
  destruct Hx as [->|[e ->]]; [|right; by exists e]. left. apply bolt_Put_law in Hput. simpl in Hdb. rewrite Hdb, Hput.
  split; [done|]. split; [intros k Hk; by rewrite lookup_insert_ne|].
  exists (fresh (dom h)). split; [|apply not_elem_of_dom, is_fresh].
  unfold BBolt_Get, st_bind, bolt_View. simpl. rewrite bolt_Get_law, Hdb, Hput, lookup_insert_eq.
  rewrite Hname, Hkey, <- Hn in Hload. unfold raw_wrapper. rewrite Hload. simpl. unfold BBolt_new_wrapper. simpl. by destruct (IsDeleted m).
Qed.

(** A batch takes effect as its records do one after another, or not at all; that
    is with a library that calls the function once. *)
Theorem BBolt_PutMany_refines (shadowDelete : bool) (batch : list loc) (h : heap V) (s : BBolt B) :
  bolt_again (bb_tick s) = O →
  ∃ s' r, BBolt_PutMany marshal_record record_error_text shadowDelete batch (h, s) = ((h, s'), r) ∧ bb_name s' = bb_name s ∧
    match r with
    | Ret _ => entries s' = fold_left (batch_effect (BE := BE) marshal_record record_error_text shadowDelete h) batch (entries s)
    | _ => bb_db s' = bb_db s
    end.
Proof.
  intros Hagain. unfold BBolt_PutMany. simpl. rewrite Hagain.
  destruct (bolt_Update_atomic (BE := BE) (λ h b, batch_calls marshal_record record_error_text shadowDelete h 0 batch b) h s) as (s' & x & Hrun & Hn & Hdb & Hx).
  exists s', x. split; [done|]. split; [done|]. simpl in Hdb, Hx.
  destruct (put_batch _ _ shadowDelete h batch (bb_db s)) as [[b' rest] [[]|e|]] eqn:Hb; simpl in Hdb, Hx; [|by subst x..].
  destruct x as [[]|e|]; [|done|by destruct Hx as [?|[? ?]]]. apply put_batch_Ret in Hb as [_ Hb]. by rewrite Hdb.
Qed.

(** A query sends each record the key of which has the prefix and that is valid,
    permitted and matched, once, in the order of the keys, as a new object; and
    nothing else. *)
Theorem BBolt_Query_exact (now : Z) (q q' : Query R) (local internal : bool) (h : heap V) (s : BBolt B) :
  Query_Check q = (q', Ret tt) → all_load lib (bb_name s) (entries s) →
  ∃ h' l xs, BBolt_Query accessor_of lib wrapped record_error_text now q local internal (h, s) = ((h', s), Ret (l, Ret tt)) ∧ h ⊆ h' ∧
    Forall2 (λ r x, h' !! r = Some (mkObject (wbase x) (wrapped (Format x) (Data x))) ∧ h !! r = None) l xs ∧
    StronglySorted (λ x y, bytes_lt (dbKey (wbase x)) (dbKey (wbase y)) = true) xs ∧
    ∀ x, x ∈ xs ↔ ∃ k d, entries s !! k = Some d ∧ HasPrefix k (q_dbKeyPrefix q') = true ∧
      NewRawWrapper lib (bb_name s) k d = Ret x ∧ bb_selects accessor_of wrapped now q' local internal x = true.
Proof.
  intros Hq Hload. unfold BBolt_Query. rewrite Hq. unfold BBolt_queryExecutor, st_bind at 1, st_get. cbn -[query_loop loop_fuel st_bind st_fold].
  destruct (query_loop_spec accessor_of lib wrapped record_error_text now q' local internal (bb_name s) (bb_db s) (loop_fuel (bb_db s))
    (λ k, negb (bytes_lt k (q_dbKeyPrefix q'))) (bolt_Seek (bb_db s) (q_dbKeyPrefix q'))) as (xs & -> & Hsort & Hin).
  - done.
  - apply upward_from.
  - intros k. apply negb_true_iff.
  - apply bolt_Seek_law.
  - apply left_in_bound.
  - cbn -[st_bind st_fold]. destruct (alloc_wrappers_spec (B := B) (BE := BE) wrapped xs [] (h, s)) as (h' & l & Hrun & Hsub & Hall).
    unfold st_bind at 1. rewrite Hrun. exists h', l, xs. split; [done|]. split; [done|]. split; [done|]. split; [done|].
    intros x. rewrite Hin. split; intros (k & d & H); exists k, d; [naive_solver|].
    destruct H as (? & Hpre & ? & ?). split_and!; try done. by rewrite (prefix_not_lt _ _ Hpre).
Qed.



End Properties.

(** *** Witnesses *)

Definition bb_wrapper (key : string) (m : Meta) : Wrapper := mkWrapper (mkBase "db" key (Some m)) JSON [123; 125].

Definition bb_bytes (key : string) (m : Meta) : bytes :=
  match Wrapper_MarshalRecord no_codecs (bb_wrapper key m) with Ret d => d | _ => [] end.

Definition bb_live : Meta := mkMeta 1 2 0 0 false false.
Definition bb_expired : Meta := mkMeta 1 2 50 0 false false.

(** A record that is live, one that is expired and one with another prefix. *)
Definition bb_example : BBolt (gmap string bytes) :=
  mkBBolt "db" (<["a/2" := bb_bytes "a/2" bb_expired]> (<["a/1" := bb_bytes "a/1" bb_live]> (<["b" := bb_bytes "b" bb_live]> ∅))) 0.

Lemma bb_bytes_loads (key : string) (m : Meta) : Meta_ok m → IsDeleted m = false → loads no_codecs "db" key (bb_bytes key m) (bb_wrapper key m) m.
Proof.
  intros Hok Hdel. destruct (wrapper_storage_roundtrip no_codecs (bb_wrapper key m) m) as (d & Hd & Hl); [done|done|done|].
  unfold bb_bytes. rewrite Hd. rewrite Hdel in Hl. by split.
Qed.

Lemma bb_example_loads : all_load no_codecs (bb_name bb_example) (bolt_entries (bb_db bb_example)).
Proof.
  intros k d H. simpl in *.
  repeat (apply lookup_insert_Some in H as [[<- <-]|[_ H]]; [eexists _, _; by apply bb_bytes_loads|]). by rewrite lookup_empty in H.
Qed.

(** Values are the format and the data; one with format 0 is refused. *)
Definition bb_marshal (o : object (Z * bytes)) : go (record_error unit) bytes :=
  if (o_value o).1 =? 0 then Fail ErrMissingMeta else Wrapper_MarshalRecord no_codecs (mkWrapper (o_base o) (o_value o).1 (o_value o).2).

Definition bb_text_of (e : record_error unit) : string := "".

Definition bb_heap (keys : list (string * Z)) : heap (Z * bytes) :=
  list_to_map (imap (λ n k, (n, mkObject (mkBase "db" k.1 (Some bb_live)) (k.2, [123; 125]))) keys).

Lemma BBolt_Put_Get_witness :
  let h := bb_heap [("c", JSON)] in
  ∃ s', (BBolt_Put bb_marshal bb_text_of 0%nat (h, bb_example) = ((h, s'), Ret (Some 0%nat)) ∧
    (∀ k, k ≠ key_of h 0%nat → bolt_entries (bb_db s') !! k = bolt_entries (bb_db bb_example) !! k) ∧
    ∃ r', BBolt_Get no_codecs pair bb_text_of (key_of h 0%nat) (h, s') =
      ((<[r' := mkObject (wbase (bb_wrapper "c" bb_live)) (if IsDeleted bb_live then (RAW, []) else (JSON, [123; 125]))]> h, s'), Ret r') ∧ h !! r' = None) ∨
  (∃ e, BBolt_Put bb_marshal bb_text_of 0%nat (h, bb_example) = ((h, s'), Fail (BbBolt (BE := unit) e)) ∧ bb_db s' = bb_db bb_example).
Proof.
  intros h. refine (BBolt_Put_Get no_codecs pair bb_marshal bb_text_of h bb_example 0%nat
    (mkObject (mkBase "db" "c" (Some bb_live)) (JSON, [123; 125])) (bb_wrapper "c" bb_live) bb_live _ _ _ _ _ _ _).
  - reflexivity.
  - reflexivity.
  - reflexivity.
  - reflexivity.
  - repeat split; vm_compute; discriminate.
  - split; vm_compute; [discriminate|reflexivity].
  - reflexivity.
Defined.

Lemma BBolt_PutMany_refines_witness :
  let h := bb_heap [("c", JSON); ("a/1", JSON)] in
  ∃ s' r, BBolt_PutMany (BE := unit) bb_marshal bb_text_of false [0%nat; 1%nat] (h, bb_example) = ((h, s'), r) ∧ bb_name s' = bb_name bb_example ∧
    match r with
    | Ret _ => bolt_entries (bb_db s') = fold_left (batch_effect (BE := unit) bb_marshal bb_text_of false h) [0%nat; 1%nat] (bolt_entries (bb_db bb_example))
    | _ => bb_db s' = bb_db bb_example
    end.
Proof. intros h. refine (BBolt_PutMany_refines bb_marshal bb_text_of false [0%nat; 1%nat] h bb_example _). reflexivity. Defined.

Definition bb_query (prefix : string) : Query string := mkQuery true "db" prefix None "" 0 0.

Lemma BBolt_Query_exact_witness :
  let q' := (Query_Check (bb_query "a/")).1 in
  ∃ h' l xs, BBolt_Query (BE := unit) (λ _, None) no_codecs pair bb_text_of 100 (bb_query "a/") true true (∅, bb_example) = ((h', bb_example), Ret (l, Ret tt)) ∧ ∅ ⊆ h' ∧
    Forall2 (λ r x, h' !! r = Some (mkObject (wbase x) (Format x, Data x)) ∧ (∅ : heap (Z * bytes)) !! r = None) l xs ∧
    StronglySorted (λ x y, bytes_lt (dbKey (wbase x)) (dbKey (wbase y)) = true) xs ∧
    ∀ x, x ∈ xs ↔ ∃ k d, bolt_entries (bb_db bb_example) !! k = Some d ∧ HasPrefix k (q_dbKeyPrefix q') = true ∧
      NewRawWrapper no_codecs (bb_name bb_example) k d = Ret x ∧ bb_selects (λ _, None) pair 100 q' true true x = true.
Proof.
  intros q'. refine (BBolt_Query_exact (λ _, None) no_codecs pair bb_text_of 100 (bb_query "a/") q' true true ∅ bb_example _ _).
  - reflexivity.
  - exact bb_example_loads.
Defined.



(** The example is purged of two records, maintained and queried. *)
Lemma bb_example_runs :
  (BBolt_Purge (V := Z * bytes) (BE := unit) (λ _, None) no_codecs pair bb_text_of 100 (bb_query "a/") true true false (λ _, false) (∅, bb_example)).2 = Ret (2, None) ∧
  (BBolt_Query (V := Z * bytes) (BE := unit) (λ _, None) no_codecs pair bb_text_of 100 (bb_query "a/") true true (∅, bb_example)).2 = Ret ([0%nat], Ret tt).
Proof. split; vm_compute; reflexivity. Qed.

(** *** What modelling showed *)

(** A library that calls a function of a batch again after it failed: the records
    before the one that failed were taken from the channel by the first call, so
    PutMany loses them and reports no error. *)
Definition retry_bolt : Bolt (gmap string bytes) unit := {|
  bolt_entries m := m; bolt_Get := @bolt_Get _ _ map_bolt; bolt_Put := @bolt_Put _ _ map_bolt; bolt_Delete := @bolt_Delete _ _ map_bolt;
  bolt_First := @bolt_First _ _ map_bolt; bolt_Seek := @bolt_Seek _ _ map_bolt; bolt_Next := @bolt_Next _ _ map_bolt; bolt_Next_deleted := @bolt_Next_deleted _ _ map_bolt;
  bolt_Commit _ := None; bolt_again _ := 1%nat;
|}.

Lemma PutMany_loses_records :
  let h := bb_heap [("c", JSON); ("d", 0); ("e", JSON)] in
  let x := BBolt_PutMany (BL := retry_bolt) bb_marshal bb_text_of false [0; 1; 2]%nat (h, bb_example) in
  x.2 = Ret tt ∧ bb_db x.1.2 !! "c" = None ∧ bb_db x.1.2 !! "d" = None ∧ is_Some (bb_db x.1.2 !! "e").
Proof. vm_compute. split_and!; try reflexivity. by eexists. Qed.

(** A commit that fails: the count is of deletes that were undone. *)
Definition broken_bolt : Bolt (gmap string bytes) unit := {|
  bolt_entries m := m; bolt_Get := @bolt_Get _ _ map_bolt; bolt_Put := @bolt_Put _ _ map_bolt; bolt_Delete := @bolt_Delete _ _ map_bolt;
  bolt_First := @bolt_First _ _ map_bolt; bolt_Seek := @bolt_Seek _ _ map_bolt; bolt_Next := @bolt_Next _ _ map_bolt; bolt_Next_deleted := @bolt_Next_deleted _ _ map_bolt;
  bolt_Commit _ := Some tt; bolt_again _ := 0%nat;
|}.

Lemma Purge_counts_undone :
  let x := BBolt_Purge (BL := broken_bolt) (λ _ : Z * bytes, None) no_codecs pair bb_text_of 100 (bb_query "a/") true true false (λ _, false) (∅, bb_example) in
  x.2 = Ret (2, Some (BbBolt tt)) ∧ bb_db x.1.2 = bb_db bb_example.
Proof. vm_compute. split; reflexivity. Qed.

(** A cursor that is one entry further after a delete: its laws hold, and a purge by
    removal returns without an error and leaves records that match. *)
Definition skipping_bolt : Bolt (gmap string bytes) unit := {|
  bolt_entries m := m; bolt_Get := @bolt_Get _ _ map_bolt; bolt_Put := @bolt_Put _ _ map_bolt; bolt_Delete := @bolt_Delete _ _ map_bolt;
  bolt_First := @bolt_First _ _ map_bolt; bolt_Seek := @bolt_Seek _ _ map_bolt; bolt_Next := @bolt_Next _ _ map_bolt;
  bolt_Next_deleted m k := match first_of (bytes_lt k) m with Some (k', _) => first_of (bytes_lt k') m | None => None end;
  bolt_Commit _ := None; bolt_again _ := 0%nat;
|}.

Lemma skipping_bolt_laws : @BoltLaws (gmap string bytes) unit skipping_bolt.
Proof.
  destruct map_bolt_laws as [H1 H2 H3 H4 H5 H6 _]. split; [exact H1|exact H2|exact H3|exact H4|exact H5|exact H6|].
  intros b k. simpl. pose proof (first_of_spec (bytes_lt k) b) as Hk. destruct (first_of (bytes_lt k) b) as [[k' v']|]; [|done].
  destruct Hk as (_ & Hlt & _). pose proof (first_of_spec (bytes_lt k') b) as Hk'. destruct (first_of (bytes_lt k') b) as [[k2 v2]|]; [|done].
  destruct Hk' as (Hin & Hlt' & _). split; [done|]. by eapply bytes_lt_trans.
Qed.

Lemma Purge_relies_on_cursor :
  let x := BBolt_Purge (BL := skipping_bolt) (λ _ : Z * bytes, None) no_codecs pair bb_text_of 100 (bb_query "a/") true true false (λ _, false) (∅, bb_example) in
  x.2 = Ret (1, None) ∧ is_Some (bb_db x.1.2 !! "a/2").
Proof. vm_compute. split; [reflexivity|]. by eexists. Qed.
