(* ===== verification/Migration.v ===== *)
(** * database/migration: ordered changes of the stored data

    migration.go and error.go over the database interface of [Interface] and the
    versions of [GoVersion]. A migration function is any computation on the
    databases and on the interface that it is given. The status is a record: which
    values are wrappers, and their data, is [as_wrapper]. *)

From Stdlib Require Import ZArith Lia String.
From stdpp Require Import gmap list strings sorting.
From S2P Require Import Prelude GoStrings GoVersion GoSort Dsd Record Query Storage Controller Interface.
Local Open Scope string_scope.

(** ** error.go *)

Inductive mg_error : Type :=
| MgDb (e : db_error)
| MgText (text : string).

Record DiagnosticStep : Type := mkStep { step_Version : string; step_Description : string }.

Record Diagnostics : Type := mkDiagnostics {
  dg_Message : string;
  dg_Wrapped : option mg_error;
  StartOfMigration : string;
  LastSuccessfulMigration : string;
  TargetVersion : string;
  ExecutionPlan : list DiagnosticStep;
  FailedMigration : string;
}.

Definition zeroDiagnostics : Diagnostics := mkDiagnostics "" None "" "" "" [] "".

Definition Diagnostics_Error (error_text : mg_error → string) (err : Diagnostics) : go Empty_set string :=
  let msg := if String.eqb (FailedMigration err) "" then "" else FailedMigration err ++ ": " in
  let msg := if String.eqb (dg_Message err) "" then msg else msg ++ dg_Message err ++ ": " in
  match dg_Wrapped err with
  | Some e => Ret (msg ++ error_text e)
  | None => Panic
  end.

Definition Diagnostics_Unwrap (errors_Unwrap : mg_error → option mg_error) (err : Diagnostics) : option mg_error :=
  match dg_Wrapped err ≫= errors_Unwrap with
  | Some u => Some u
  | None => dg_Wrapped err
  end.

Definition failed_to (message : string) (e : mg_error) (description : string) : Diagnostics :=
  mkDiagnostics message (Some e) "" "" "" [] description.

(** ** migration.go *)

Section Migration.
Context {V R S C SV : Type} `{!QueryLib R, !StorageInterface V R S, !Cache C, !SemVer SV, !StrictSemVer SV} {sort_lib : SortLib}.
Context (accessor_of : V → option Accessor) (start_storage : string → string → go db_error S).
Context (as_wrapper : V → option bytes) (wrapped : Z → bytes → V).
Context (clock : nat → Z).

Abbreviation SYS := (System V R S).
Abbreviation I := (SYS * Interface C)%type.

Record Migration : Type := mkMigration {
  mg_Description : string;
  mg_Version : string;
  MigrateFunc : option SV → SV → st I mg_error unit;
}.

Record MgRegistry : Type := mkMgRegistry { mg_key : string; mg_migrations : list Migration }.

Definition mg_New (key : string) : MgRegistry := mkMgRegistry key [].

(** The parts of the error text. *)
Record invalid_version : Type := mkInvalid { iv_Description : string; iv_Version : string; iv_err : string }.

(** The migrations before an invalid one are added. *)
Definition mg_Add (migrations : list Migration) : st MgRegistry invalid_version unit :=
  st_iter (λ m reg,
    match NewSemver (V := SV) (mg_Version m) with
    | inl err => (reg, Fail (mkInvalid (mg_Description m) (mg_Version m) err))
    | inr _ => (mkMgRegistry (mg_key reg) (mg_migrations reg ++ [m])%list, Ret tt)
    end) migrations.

Definition getLatestSuccessfulMigration (now : Z) (reg : MgRegistry) : st I Diagnostics (option SV) :=
  let$ rec := st_try (Interface_Get accessor_of start_storage now (mg_key reg)) in
  match rec with
  | Fail DbErrNotFound => st_ret None
  | Fail err => st_fail (failed_to "failed to query database for migration status" (MgDb err) "")
  | Panic => λ s, (s, Panic)
  | Ret r =>
      let$ data := st_get (λ s, Ret (sys_heap s.1 !! r ≫= λ o, as_wrapper (o_value o))) in
      match data with
      | None => st_fail (failed_to "" (MgText "expected wrapped database record") "")
      | Some data =>
          match NewSemver (bytes_string data) with
          | inl err => st_fail (failed_to "failed to parse version stored in migration status record" (MgText err) "")
          | inr sv => st_ret (Some sv)
          end
      end
  end.

Definition saveLastSuccessfulMigration (now : Z) (reg : MgRegistry) (ver : SV) : st I mg_error unit := λ s,
  let h := sys_heap s.1 in
  let r := fresh (dom h) in
  let o := mkObject (SetKey (mg_key reg) (mkBase "" "" None)) (wrapped RAW (string_bytes (sv_String ver))) in
  st_wrap MgDb (Interface_Put accessor_of start_storage now r) (set_sys_heap (<[r := o]> h) s.1, s.2).

(** *** The execution plan *)

Fixpoint parse_all (ms : list Migration) (lm : gmap string Migration) (versions : list SV) : go Diagnostics (gmap string Migration * list SV) :=
  match ms with
  | [] => Ret (lm, versions)
  | m :: ms =>
      match NewSemver (mg_Version m) with
      | inl err => Fail (failed_to "failed to parse version of migration" (MgText err) (mg_Description m))
      | inr ver => parse_all ms (<[sv_String ver := m]> lm) (versions ++ [ver])%list
      end
  end.

Definition LessThan (a b : SV) : bool := match sv_Compare a b with Lt => true | _ => false end.

Definition GreaterThanOrEqual (a b : SV) : bool := negb (LessThan a b).

(** The migration was not applied yet. *)
Definition pending (start : option SV) (ver : SV) : bool :=
  negb (match start with Some start => GreaterThanOrEqual start ver | None => false end).

(** A version that is not in the map would give a zero migration. *)
Definition zeroMigration : Migration := mkMigration "" "" (λ _ _ s, (s, Panic)).

Definition getExecutionPlan (start : option SV) (reg : MgRegistry) : go Diagnostics (list Migration * Diagnostics) :=
  let! (lm, versions) := parse_all (mg_migrations reg) ∅ [] in
  let planned := filter (λ ver, pending start ver = true) (sort_Sort LessThan versions) in
  let migration_of ver := default zeroMigration (lm !! sv_String ver) in
  Ret (migration_of <$> planned,
       mkDiagnostics "" None (match start with Some v => sv_String v | None => "" end) "" ""
         ((λ ver, mkStep (sv_String ver) (mg_Description (migration_of ver))) <$> planned) "").

(** *** Running it *)

Definition report_failed (m : Migration) (message : option string) (err : mg_error) (diag : Diagnostics) : Diagnostics :=
  mkDiagnostics (default (dg_Message diag) message) (Some err) (StartOfMigration diag) (LastSuccessfulMigration diag)
    (TargetVersion diag) (ExecutionPlan diag) (mg_Description m).

Definition report_applied (ver : SV) (diag : Diagnostics) : Diagnostics :=
  mkDiagnostics (dg_Message diag) (dg_Wrapped diag) (StartOfMigration diag) (sv_String ver) (TargetVersion diag) (ExecutionPlan diag) (FailedMigration diag).

(** The loop over the plan from the [n]-th migration on. A status that cannot be
    saved is only noted in the diagnostics. *)
Fixpoint apply_migrations (reg : MgRegistry) (n : nat) (plan : list Migration) (last : option SV) (diag : Diagnostics) : st I Diagnostics unit :=
  match plan with
  | [] => st_ret tt
  | m :: plan =>
      match NewSemver (mg_Version m) with
      | inl _ => λ s, (s, Panic)
      | inr target =>
          let$ x := st_try (MigrateFunc m last target) in
          match x with
          | Fail err => st_fail (report_failed m None err diag)
          | Panic => λ s, (s, Panic)
          | Ret _ =>
              let diag := report_applied target diag in
              let$ saved := st_try (saveLastSuccessfulMigration (clock n) reg target) in
              let diag := match saved with
                          | Fail err => report_failed m (Some "failed to persist migration status") err diag
                          | _ => diag
                          end in
              apply_migrations reg (Datatypes.S n) plan (Some target) diag
          end
      end
  end.

Definition set_target (version : string) (diag : Diagnostics) : Diagnostics :=
  mkDiagnostics (dg_Message diag) (dg_Wrapped diag) (StartOfMigration diag) (LastSuccessfulMigration diag) version (ExecutionPlan diag) (FailedMigration diag).

Definition run_migrations (reg : MgRegistry) : st I Diagnostics unit :=
  let$ start := getLatestSuccessfulMigration (clock 0) reg in
  let$ x := (λ s, (s, getExecutionPlan start reg)) in
  match last x.1 with
  | None => st_ret tt
  | Some final => apply_migrations reg 1 x.1 start (set_target (mg_Version final) x.2)
  end.

Definition Migrate (reg : MgRegistry) : st SYS Diagnostics unit := λ sys,
  let '((sys, _), r) := run_migrations reg (sys, NewInterface (Some (mkOptions true true false false 0 0 0 ""))) in (sys, r).

End Migration.

Arguments Migration V R S C SV : clear implicits.
Arguments mkMigration {V R S C SV}.
Arguments MgRegistry V R S C SV : clear implicits.
Arguments mkMgRegistry {V R S C SV}.

(** ** Lemmas *)

Section Lemmas.
Context {V R S C SV : Type} `{!QueryLib R, !StorageInterface V R S, !Cache C, !SemVer SV, !SemVerLaws SV, !StrictSemVer SV, !StrictSemVerLaws SV}.
Context {sort_lib : SortLib} {sort_laws : SortLaws} {stored : S → gmap string loc} `{!StorageLaws V R S stored}.
Context (accessor_of : V → option Accessor) (start_storage : string → string → go db_error S).
Context (as_wrapper : V → option bytes) (wrapped : Z → bytes → V).
Context (clock : nat → Z).

Abbreviation I := (System V R S * Interface C)%type.
Abbreviation mig := (Migration V R S C SV).
Implicit Types (reg : MgRegistry V R S C SV) (plan : list (mig * SV)).

(** *** Versions *)

Lemma sv_Compare_refl (a : SV) : sv_Compare a a = Eq.
Proof. pose proof (Compare_antisym a a) as H. by destruct (sv_Compare a a). Qed.

Lemma LessThan_ordering (l : list SV) : ordering_on LessThan l.
Proof.
  assert (∀ a b : SV, LessThan a b = false ↔ sv_Compare a b ≠ Lt) as Hf by (intros a b; unfold LessThan; by destruct (sv_Compare a b)).
  assert (∀ a b : SV, LessThan a b = true ↔ sv_Compare a b = Lt) as Ht by (intros a b; unfold LessThan; by destruct (sv_Compare a b)).
  split_and!; intros x.
  - intros _. apply Hf. by rewrite sv_Compare_refl.
  - intros y z _ _ _ Hxy%Ht Hyz%Ht. apply Ht. destruct (sv_Compare x z) eqn:Hxz; [|done|]; exfalso.
    + apply (Compare_trans y x z); [by rewrite (Compare_antisym x y), Hxy|by rewrite Hxz|done].
    + apply (Compare_trans y x z); [by rewrite (Compare_antisym x y), Hxy|by rewrite Hxz|done].
  - intros y z _ _ _. rewrite !Hf. apply Compare_trans.
Qed.

Lemma LessThan_trans (a b c : SV) : LessThan a b = true → LessThan b c = true → LessThan a c = true.
Proof. destruct (LessThan_ordering [a; b; c]) as (_ & Htr & _). apply (Htr a b c); set_solver. Qed.

(** What compares equal compares alike. *)
Lemma LessThan_same (a b c : SV) : sv_String a = sv_String b → LessThan a c = LessThan b c.
Proof.
  intros H%Compare_String. assert (sv_Compare b a ≠ Lt) as Hba by by rewrite (Compare_antisym a b), H.
  assert (sv_Compare a b ≠ Lt) as Hab by by rewrite H. unfold LessThan.
  pose proof (Compare_trans a b c Hab) as H1. pose proof (Compare_trans b a c Hba) as H2.
  destruct (sv_Compare a c), (sv_Compare b c); try done; exfalso; first [by apply H1|by apply H2].
Qed.

(** *** The plan *)

Definition parsed reg (vs : list SV) : Prop := Forall2 (λ m v, NewSemver (mg_Version m) = inr v) (mg_migrations reg) vs.

Lemma parse_all_spec (ms : list mig) (vs : list SV) : Forall2 (λ m v, NewSemver (mg_Version m) = inr v) ms vs →
  ∀ lm acc, ∃ lm', parse_all ms lm acc = Ret (lm', acc ++ vs)%list ∧
    (∀ k, k ∉ sv_String <$> vs → lm' !! k = lm !! k) ∧
    (NoDup (sv_String <$> vs) → Forall2 (λ m v, lm' !! sv_String v = Some m) ms vs).
Proof.
  induction 1 as [|m v ms vs Hv _ IH]; intros lm acc; simpl.
  { exists lm. rewrite app_nil_r. split; [done|]. split; [done|]. constructor. }
  rewrite Hv. destruct (IH (<[sv_String v := m]> lm) (acc ++ [v])%list) as (lm' & Hrun & Hout & Hin).
  exists lm'. rewrite Hrun, <- app_assoc. split; [done|]. split.
  - intros k Hk. apply not_elem_of_cons in Hk as [Hne Hk]. rewrite Hout by done. apply lookup_insert_ne. congruence.
  - intros Hnd. apply NoDup_cons in Hnd as [Hnew Hnd]. constructor; [by rewrite Hout, lookup_insert_eq|by apply Hin].
Qed.

(** All migrations in the order of their versions; the plan is what is pending. *)
Definition in_order reg (vs : list SV) (all : list (mig * SV)) : Prop :=
  all ≡ₚ zip (mg_migrations reg) vs ∧ StronglySorted (λ p q, LessThan q.2 p.2 = false) all.

Lemma StronglySorted_pair (f : SV → mig) (l : list SV) :
  StronglySorted (λ u v, LessThan v u = false) l → StronglySorted (λ p q : mig * SV, LessThan q.2 p.2 = false) ((λ v, (f v, v)) <$> l).
Proof. induction 1 as [|v l _ IH Hv]; [constructor|]. rewrite fmap_cons. constructor; [done|]. by apply Forall_fmap. Qed.

Lemma Forall2_zip_elem {A B : Type} (P : A → B → Prop) (l : list A) (k : list B) (x : A) (y : B) :
  Forall2 P l k → (x, y) ∈ zip l k → P x y.
Proof.
  induction 1 as [|a b l k Hab _ IH]; simpl; [by intros ?%elem_of_nil|]. intros [[= <- <-]|Hin]%elem_of_cons; [done|by apply IH].
Qed.

Lemma filter_fmap_pair (f : SV → mig) (P : SV → bool) (l : list SV) :
  (λ v, (f v, v)) <$> filter (λ v, P v = true) l = filter (λ p, P p.2 = true) ((λ v, (f v, v)) <$> l).
Proof.
  induction l as [|v l IH]; [done|]. rewrite fmap_cons, !filter_cons. simpl. destruct (decide (P v = true)); [rewrite fmap_cons; f_equal|]; exact IH.
Qed.

Lemma sorted_all reg (vs : list SV) : parsed reg vs → NoDup (sv_String <$> vs) →
  ∃ all, in_order reg vs all ∧ ∀ start, ∃ diag,
    getExecutionPlan start reg = Ret ((filter (λ p, pending start p.2 = true) all).*1, diag) ∧
    ExecutionPlan diag = (λ p, mkStep (sv_String p.2) (mg_Description p.1)) <$> filter (λ p, pending start p.2 = true) all ∧
    LastSuccessfulMigration diag = "".
Proof.
  intros Hp Hnd. destruct (parse_all_spec _ _ Hp ∅ []) as (lm & Hrun & _ & Hlm). specialize (Hlm Hnd).
  set (mof := λ v, default zeroMigration (lm !! sv_String v)).
  exists ((λ v, (mof v, v)) <$> sort_Sort LessThan vs). split; [split|].
  - rewrite Sort_perm. subst mof. clear Hnd Hrun. unfold parsed in Hp.
    assert (zip (mg_migrations reg) vs = (λ v, (default zeroMigration (lm !! sv_String v), v)) <$> vs) as ->; [|done].
    clear Hp. induction Hlm as [|m v ms vs Hm _ IH]; [done|]. cbn. by rewrite Hm, IH.
  - apply StronglySorted_pair, Sort_sorted, LessThan_ordering.
  - intros start. eexists. unfold getExecutionPlan. rewrite Hrun. simpl.
    rewrite <- (filter_fmap_pair mof (pending start)), <- !list_fmap_compose. split; [reflexivity|]. by split.
Qed.

(** The version the database has after the first part of a plan. *)
Definition reached (start : option SV) plan : option SV :=
  match last plan with Some p => Some p.2 | None => start end.

(** No two versions differ only in what does not count for their order. *)
Definition told_apart (vs : list SV) : Prop := ∀ u v, u ∈ vs → v ∈ vs → sv_Compare u v = Eq → sv_String u = sv_String v.

Lemma in_order_strict reg (vs : list SV) all : parsed reg vs → NoDup (sv_String <$> vs) → told_apart vs → in_order reg vs all →
  StronglySorted (λ p q, LessThan p.2 q.2 = true) all.
Proof.
  intros Hp Hnd Hapart [Hperm Hs].
  assert (all.*2 ≡ₚ vs) as H2.
  { rewrite Hperm. apply Forall2_length in Hp. by rewrite snd_zip by lia. }
  assert (NoDup (sv_String <$> all.*2)) as Hnd' by by rewrite H2.
  assert (∀ p, p ∈ all → p.2 ∈ vs) as Hin by (intros p Hp'; rewrite <- H2; by apply list_elem_of_fmap_2).
  clear Hp Hperm H2 Hnd. induction Hs as [|p all Hs IH Hall]; [constructor|].
  simpl in Hnd'. apply NoDup_cons in Hnd' as [Hnew Hnd']. constructor.
  - apply IH; [done|]. intros q Hq. apply Hin. by apply elem_of_cons; right.
  - apply Forall_forall. intros q Hq. pose proof (proj1 (Forall_forall _ _) Hall q Hq) as Hqp. simpl in Hqp.
    unfold LessThan in *. rewrite (Compare_antisym q.2 p.2). destruct (sv_Compare q.2 p.2) eqn:Hc; try done.
    exfalso. apply Hnew. rewrite <- (Hapart q.2 p.2); [|apply Hin; by apply elem_of_cons; right|apply Hin; by left|done].
    by apply list_elem_of_fmap_2, list_elem_of_fmap_2.
Qed.

Lemma filter_true {A : Type} (P : A → bool) (l : list A) : Forall (λ x, P x = true) l → filter (λ x, P x = true) l = l.
Proof. induction 1 as [|x l Hx _ IH]; [done|]. by rewrite filter_cons_True, IH. Qed.

Lemma filter_false {A : Type} (P : A → bool) (l : list A) : Forall (λ x, P x = false) l → filter (λ x, P x = true) l = [].
Proof. induction 1 as [|x l Hx _ IH]; [done|]. rewrite filter_cons_False; [done|]. by rewrite Hx. Qed.

Lemma StronglySorted_filter {A : Type} (Rel : A → A → Prop) (P : A → bool) (l : list A) :
  StronglySorted Rel l → StronglySorted Rel (filter (λ x, P x = true) l).
Proof.
  induction 1 as [|x l _ IH Hx]; [constructor|]. rewrite filter_cons. destruct (decide (P x = true)); [|done].
  constructor; [done|]. rewrite Forall_forall in Hx. apply Forall_forall. intros y [_ Hy]%list_elem_of_filter. by apply Hx.
Qed.

(** Pending after the first part of the plan is the rest of it. *)
Lemma pending_rest start all pre post :
  StronglySorted (λ p q, LessThan p.2 q.2 = true) all → filter (λ p, pending start p.2 = true) all = (pre ++ post)%list →
  filter (λ p, pending (reached start pre) p.2 = true) all = post.
Proof.
  intros Hs Hplan. unfold reached. destruct (last pre) as [x|] eqn:Hlast.
  2:{ apply last_None in Hlast as ->. done. }
  apply last_Some in Hlast as [pre' ->].
  assert (∀ p : mig * SV, pending (Some x.2) p.2 = LessThan x.2 p.2) as Hpend by (intros p; unfold pending, GreaterThanOrEqual; by rewrite negb_involutive).
  assert (x ∈ filter (λ p, pending start p.2 = true) all) as Hx by (rewrite Hplan; set_solver).
  apply list_elem_of_filter in Hx as [Hx _].
  assert (filter (λ p, pending (Some x.2) p.2 = true) all =
    filter (λ p, pending (Some x.2) p.2 = true) (filter (λ p, pending start p.2 = true) all)) as ->.
  { symmetry. apply list_filter_filter_l. intros p. rewrite Hpend. intros Hlt.
    unfold pending, GreaterThanOrEqual in *. destruct start as [s0|]; [|done]. rewrite negb_involutive in *. by eapply LessThan_trans. }
  assert (StronglySorted (λ p q, LessThan p.2 q.2 = true) (filter (λ p, pending start p.2 = true) all)) as Hs' by by apply StronglySorted_filter.
  rewrite Hplan in *. rewrite <- app_assoc in *. simpl in *. rewrite filter_app. 
  assert (Forall (λ p, LessThan x.2 p.2 = false) pre') as Hpre.
  { apply Forall_forall. intros p Hp. apply not_true_iff_false. intros Hlt.
    apply StronglySorted_app in Hs' as (Hcross & _ & _). pose proof (Hcross p x Hp ltac:(by left)) as Hpx.
    pose proof (LessThan_trans _ _ _ Hlt Hpx) as Hxx. unfold LessThan in Hxx. by rewrite sv_Compare_refl in Hxx. }
  apply StronglySorted_app in Hs' as (_ & _ & Hs'). apply StronglySorted_inv in Hs' as [_ Hpost].
  rewrite (filter_false (λ p, pending (Some x.2) p.2)) by (eapply Forall_impl; [exact Hpre|]; intros p; by rewrite Hpend).
  rewrite filter_cons_False by (rewrite Hpend; unfold LessThan; by rewrite sv_Compare_refl).
  apply (filter_true (λ p, pending (Some x.2) p.2)). eapply Forall_impl; [exact Hpost|]. intros p. by rewrite Hpend.
Qed.

(** *** The status record *)

(** The database of the status runs and its version is [v], by its text; the record
    is not deleted and does not expire. *)
Definition status_is reg (v : option SV) (sys : System V R S) : Prop :=
  ∃ c, serves sys (ParseKey (mg_key reg)).1 c ∧
    match stored (c_storage c) !! (ParseKey (mg_key reg)).2 with
    | None => v = None
    | Some r => ∃ o m d v0 v1, sys_heap sys !! r = Some o ∧ meta (o_base o) = Some m ∧ Deleted m = 0%Z ∧ Expires m = 0%Z ∧
        as_wrapper (o_value o) = Some d ∧ NewSemver (bytes_string d) = inr v0 ∧ v = Some v1 ∧ sv_String v0 = sv_String v1
    end.

Definition mg_options : Options := mkOptions true true false false 0 0 0 "".

(** The interface as Migrate makes it. *)
Definition mg_ready reg (v : option SV) (s : I) : Prop := status_is reg v s.1 ∧ i_cache s.2 = None ∧ i_options s.2 = mg_options.

Lemma lasting_valid (now : Z) (m : Meta) : Deleted m = 0%Z → Expires m = 0%Z → CheckValidity now (Some m) = true.
Proof. intros Hd He. simpl. by rewrite Hd, He. Qed.

Lemma getLatest_ready reg (v : option SV) (now : Z) (s : I) : mg_ready reg v s →
  ∃ v', getLatestSuccessfulMigration accessor_of start_storage as_wrapper now reg s = (s, Ret v') ∧ sv_String <$> v' = sv_String <$> v.
Proof.
  destruct s as [sys i]. intros ((c & Hs & Hst) & Hc & Ho). simpl in *. unfold getLatestSuccessfulMigration.
  destruct (ParseKey (mg_key reg)) as [dbN dbK] eqn:Hk. simpl in *.
  pose proof (getRecord_running accessor_of start_storage (stored := stored) now (mg_key reg) dbN dbK false sys i c Hc Hk Hs) as Hget.
  destruct (stored (c_storage c) !! dbK) as [r|].
  - destruct Hst as (o & m & d & v0 & v1 & Hr & Hm & Hd & He & Hw & Hv & -> & Heq).
    assert (meta_of (sys_heap sys) r = Some m) as Hmeta by (unfold meta_of, base_of; by rewrite Hr).
    rewrite Hmeta, lasting_valid in Hget by done. unfold hasAccessPermission in Hget. rewrite Ho in Hget. simpl in Hget.
    unfold st_bind at 1, st_try, Interface_Get. rewrite (st_bind_Ret _ _ _ _ _ Hget). simpl.
    unfold st_bind, st_get. simpl. rewrite Hr. simpl. rewrite Hw, Hv. exists (Some v0). split; [done|]. simpl. by rewrite Heq.
  - unfold st_bind at 1, st_try, Interface_Get. rewrite (st_bind_Fail _ _ _ _ _ Hget). exists None. by subst v.
Qed.

(** The options change the metadata of the record only. *)
Lemma Options_Apply_value (now : Z) (o : Options) (r : loc) (h : heap V) (x : object V) :
  h !! r = Some x → ∃ b, Options_Apply now o r h !! r = Some (mkObject b (o_value x)).
Proof.
  intros Hx. unfold Options_Apply, update_meta.
  assert (∀ f (h : heap V), (∃ b, h !! r = Some (mkObject b (o_value x))) → ∃ b, update_base f r h !! r = Some (mkObject b (o_value x))) as Hup.
  { intros f h0 [b Hb]. unfold update_base. rewrite lookup_alter_eq, Hb. by eexists. }
  repeat match goal with |- context [if ?b then _ else _] => destruct b end; repeat apply Hup; exists (o_base x); by destruct x.
Qed.

Hypothesis (Hwrapped : ∀ f d, as_wrapper (wrapped f d) = Some d).

Lemma save_ready reg (v : option SV) (ver : SV) (now : Z) (s : I) : mg_ready reg v s →
  ∃ s', saveLastSuccessfulMigration accessor_of start_storage wrapped now reg ver s = (s', Ret tt) ∧ mg_ready reg (Some ver) s'.
Proof.
  destruct s as [sys i]. intros ((c & Hs & _) & Hc & Ho). simpl in *. unfold saveLastSuccessfulMigration. simpl.
  set (r := fresh (dom (sys_heap sys))).
  set (b := SetKey (mg_key reg) (mkBase "" "" None)).
  assert (b = mkBase (ParseKey (mg_key reg)).1 (ParseKey (mg_key reg)).2 None) as Hb.
  { unfold b, SetKey. simpl. by destruct (ParseKey (mg_key reg)). }
  set (h := <[r := mkObject b (wrapped RAW (string_bytes (sv_String ver)))]> (sys_heap sys)).
  assert (base_of h r = b) as Hbr by (unfold base_of, h; by rewrite lookup_insert_eq).
  assert (is_Some (h !! r)) as Hr by (unfold h; rewrite lookup_insert_eq; by eexists).
  assert (HasAllPermissions (i_options i) = true) as Hall by by rewrite Ho.
  assert (serves (set_sys_heap h sys) (dbName (base_of h r)) c) as Hs' by (rewrite Hbr, Hb; by apply serves_heap).
  pose proof (Interface_Put_running accessor_of start_storage now r (set_sys_heap h sys) i c Hc Hall Hr Hs') as Hput.
  cbv zeta in Hput. simpl in Hput. unfold st_wrap. rewrite Hput. clear Hput.
  set (h' := Options_Apply now (i_options i) r h). set (m0 := applied_meta now mg_options None).
  assert (Deleted m0 = 0%Z ∧ Expires m0 = 0%Z) as [Hdel Hexp] by done.
  assert (base_of h' r = mkBase (dbName b) (dbKey b) (Some m0)) as Hb'.
  { unfold h', m0. rewrite base_of_Apply by done. unfold meta_of. rewrite Hbr, Ho. by rewrite Hb. }
  destruct (Options_Apply_value now (i_options i) r h _ (lookup_insert_eq _ _ _)) as [b1 Hor]. fold h' in Hor.
  clearbody m0 h'. rewrite Hbr.
  destruct (Controller_Put_running accessor_of (stored := stored) r m0 (world_of (set_sys_heap h' (set_sys_heap h sys)) c))
    as (st' & subs' & -> & Hst & _ & _ & Hrun & Hro).
  - by apply (serves_heap h' _ _ _ Hs').
  - by apply (serves_heap h' _ _ _ Hs').
  - unfold meta_of. simpl. by rewrite Hb'.
  - eexists. split; [reflexivity|]. split; [|done]. eexists. split.
    { rewrite Hb. apply serves_after; [by destruct Hs|done|exact Hrun|exact Hro]. }
    simpl. rewrite Hst. simpl. unfold key_of. rewrite Hb'. simpl. unfold IsDeleted. rewrite Hdel. simpl. rewrite andb_false_r.
    rewrite Hb. simpl. rewrite lookup_insert_eq. destruct (NewSemver_String ver) as (v' & Hv' & Heq).
    eexists _, m0, (string_bytes (sv_String ver)), v', ver. split; [exact Hor|].
    unfold base_of in Hb'. rewrite Hor in Hb'. simpl in *. split_and!; try done; [by rewrite Hb'|by rewrite bytes_string_bytes].
Qed.

(** *** The run *)

Abbreviation save := (saveLastSuccessfulMigration accessor_of start_storage wrapped).

(** The functions of a part of the plan, one after another, each with the version
    before and its own, and the status saved after each. *)
Inductive applied reg : nat → list (mig * SV) → option SV → I → I → Prop :=
| applied_nil n from s : applied reg n [] from s s
| applied_cons n m to plan from s s1 s2 s3 :
    MigrateFunc m from to s = (s1, Ret tt) → save (clock n) reg to s1 = (s2, Ret tt) →
    applied reg (Datatypes.S n) plan (Some to) s2 s3 → applied reg n ((m, to) :: plan) from s s3.

(** A migration does not panic and leaves the status to Migrate. *)
Definition well_behaved reg (m : mig) : Prop :=
  ∀ from to v s, mg_ready reg v s → ∃ s' r, MigrateFunc m from to s = (s', r) ∧ mg_ready reg v s' ∧ r ≠ Panic.

(** How far the loop gets. *)
Definition run_outcome reg (n : nat) plan (start : option SV) (before : string) (s s' : I) (r : go Diagnostics unit) : Prop :=
  ∃ pre post s1, plan = (pre ++ post)%list ∧ applied reg n pre start s s1 ∧ mg_ready reg (reached start pre) s' ∧
    match r with
    | Ret _ => post = [] ∧ s' = s1
    | Fail d => ∃ m to rest err, post = (m, to) :: rest ∧ MigrateFunc m (reached start pre) to s1 = (s', Fail err) ∧
        FailedMigration d = mg_Description m ∧ dg_Wrapped d = Some err ∧
        LastSuccessfulMigration d = match last pre with Some p => sv_String p.2 | None => before end
    | Panic => False
    end.

Lemma reached_cons (p : mig * SV) pre (start : option SV) : reached start (p :: pre) = reached (Some p.2) pre.
Proof. unfold reached. rewrite last_cons. by destruct (last pre). Qed.

Lemma apply_migrations_spec reg plan : ∀ n start diag (s : I),
  Forall (λ p, NewSemver (mg_Version p.1) = inr p.2 ∧ well_behaved reg p.1) plan → mg_ready reg start s →
  ∃ s' r, apply_migrations accessor_of start_storage wrapped clock reg n plan.*1 start diag s = (s', r) ∧
    run_outcome reg n plan start (LastSuccessfulMigration diag) s s' r.
Proof.
  induction plan as [|[m to] plan IH]; intros n start diag s Hall Hs; simpl.
  { exists s, (Ret tt). split; [done|]. exists [], [], s. split; [done|]. split; [constructor|]. by split. }
  apply Forall_cons in Hall as [[Hto Hm] Hall]. simpl in Hto, Hm. rewrite Hto.
  destruct (Hm start to start s Hs) as (s1 & x & Hx & Hs1 & Hp). unfold st_bind at 1, st_try at 1. rewrite Hx.
  destruct x as [[]|err|]; [|clear Hp|done].
  - destruct (save_ready reg start to (clock n) s1 Hs1) as (s2 & Hsave & Hs2).
    unfold st_bind at 1, st_try at 1. rewrite Hsave.
    destruct (IH (Datatypes.S n) (Some to) (report_applied to diag) s2 Hall Hs2) as (s' & r & Hrun & pre & post & s3 & -> & Happ & Hready & Hr).
    exists s', r. split; [exact Hrun|]. exists ((m, to) :: pre), post, s3. split; [done|]. split; [by econstructor|].
    rewrite reached_cons. split; [done|]. destruct r as [[]|d|]; [done| |done].
    destruct Hr as (m' & to' & rest & err & Hpost & Hf & Hd & Hw & Hl). exists m', to', rest, err.
    split; [done|]. split; [done|]. split; [done|]. split; [done|]. rewrite Hl, last_cons. simpl. by destruct (last pre).
  - eexists s1, _. split; [reflexivity|]. exists [], ((m, to) :: plan), s. split; [done|]. split; [constructor|]. split; [done|].
    by exists m, to, plan, err.
Qed.

End Lemmas.

(** ** Properties *)

Section Properties.
Context {V R S C SV : Type} `{!QueryLib R, !StorageInterface V R S, !Cache C, !SemVer SV, !SemVerLaws SV, !StrictSemVer SV, !StrictSemVerLaws SV}.
Context {sort_lib : SortLib} {sort_laws : SortLaws} {stored : S → gmap string loc} `{!StorageLaws V R S stored}.
Context (accessor_of : V → option Accessor) (start_storage : string → string → go db_error S).
Context (as_wrapper : V → option bytes) (wrapped : Z → bytes → V) (clock : nat → Z).
Hypothesis (Hwrapped : ∀ f d, as_wrapper (wrapped f d) = Some d).

(** Add refuses what is not a version and keeps the registry parsable. *)
Theorem mg_Add_parsed (reg : MgRegistry V R S C SV) (vs : list SV) (ms : list (Migration V R S C SV)) :
  parsed reg vs →
  ∃ reg' r vs' added rest, mg_Add ms reg = (reg', r) ∧ parsed reg' (vs ++ vs') ∧
    mg_migrations reg' = (mg_migrations reg ++ added)%list ∧ ms = (added ++ rest)%list ∧
    match r with
    | Ret _ => rest = []
    | Fail e => ∃ m rest', rest = m :: rest' ∧ NewSemver (V := SV) (mg_Version m) = inl (iv_err e)
    | Panic => False
    end.
Proof.
  intros Hp. revert reg vs Hp. induction ms as [|m ms IH]; intros reg vs Hp; simpl.
  { exists reg, (Ret tt), [], [], []. rewrite !app_nil_r. done. }
  unfold mg_Add, st_bind. simpl. unfold st_bind. destruct (NewSemver (V := SV) (mg_Version m)) as [err|v] eqn:Hv.
  - eexists reg, _, [], [], (m :: ms). split; [reflexivity|]. rewrite !app_nil_r. split_and!; try done. by exists m, ms.
  - destruct (IH (mkMgRegistry (mg_key reg) (mg_migrations reg ++ [m])) (vs ++ [v])%list) as (reg' & r & vs' & added & rest & Hrun & Hp' & Hms & -> & Hr).
    { apply Forall2_app; [exact Hp|by repeat constructor]. }
    exists reg', r, (v :: vs'), (m :: added), rest. split; [exact Hrun|]. split; [by rewrite <- app_assoc in Hp'|].
    split; [by rewrite Hms; simpl; rewrite <- app_assoc|]. done.
Qed.

(** The plan holds exactly the registered migrations that are newer than the status,
    in the order of their versions; the diagnostics list it. *)
Theorem getExecutionPlan_exact (reg : MgRegistry V R S C SV) (vs : list SV) (start : option SV) :
  parsed reg vs → NoDup (sv_String <$> vs) →
  ∃ plan diag, getExecutionPlan start reg = Ret (plan.*1, diag) ∧
    plan ≡ₚ filter (λ p, pending start p.2 = true) (zip (mg_migrations reg) vs) ∧
    StronglySorted (λ p q, LessThan q.2 p.2 = false) plan ∧
    ExecutionPlan diag = (λ p, mkStep (sv_String p.2) (mg_Description p.1)) <$> plan.
Proof.
  intros Hp Hnd. destruct (sorted_all reg vs Hp Hnd) as (all & [Hperm Hs] & Hplan).
  destruct (Hplan start) as (diag & Hrun & Hd & _). exists (filter (λ p, pending start p.2 = true) all), diag.
  split; [done|]. split; [by rewrite Hperm|]. split; [by apply (StronglySorted_filter _ (λ p, pending start p.2))|done].
Qed.


End Properties.

(** *** Witnesses *)

Abbreviation MV := (Z * bytes)%type.

#[local] Instance mg_storage : StorageInterface MV string HashMap := HashMap_storage (λ _, None).

Definition mg_controller : Controller MV string HashMap := mkController "core" (NewHashMap "core") false [] [].

Definition mg_example : System MV string HashMap := mkSystem true false {[ "core" := mg_controller ]} ∅ ∅ ∅.

Definition mg_start (name storageType : string) : go db_error HashMap := Ret (NewHashMap name).

Abbreviation example_migration := (Migration MV string HashMap (gmap string loc) nat).

(** A migration with the result of its function, which does nothing. *)
Definition mg_step (version : string) (r : go mg_error unit) : example_migration := mkMigration version version (λ _ _ s, (s, r)).

Definition mg_registry (ms : list example_migration) : MgRegistry MV string HashMap (gmap string loc) nat := mkMgRegistry "core:version" ms.

Definition mg_three : list example_migration := [mg_step "111" (Fail (MgText "broken")); mg_step "1" (Ret tt); mg_step "11" (Ret tt)].

Definition mg_run (ms : list example_migration) : st (System MV string HashMap) Diagnostics unit :=
  Migrate (λ _, None) mg_start (λ v, Some v.2) pair (λ n, Z.of_nat n) (mg_registry ms).

Lemma mg_example_ready (ms : list example_migration) :
  status_is (SV := nat) (stored := hm_db) (λ v : MV, Some v.2) (mg_registry ms) None mg_example.
Proof.
  exists mg_controller. split; [|done]. split_and!; [done|done| |done]. split_and!; [done|constructor|constructor|].
  intros id sub Hid. by apply elem_of_nil in Hid.
Defined.

Lemma mg_Add_parsed_witness :
  ∃ reg' r vs' added rest, mg_Add mg_three (mg_New "core:version") = (reg', r) ∧ parsed reg' vs' ∧
    mg_migrations reg' = added ∧ mg_three = (added ++ rest)%list ∧
    match r with
    | Ret _ => rest = []
    | Fail e => ∃ m rest', rest = m :: rest' ∧ NewSemver (V := nat) (mg_Version m) = inl (iv_err e)
    | Panic => False
    end.
Proof. refine (mg_Add_parsed (mg_New "core:version") [] mg_three _). constructor. Defined.

Lemma getExecutionPlan_exact_witness :
  ∃ plan diag, getExecutionPlan (Some 1%nat) (mg_registry mg_three) = Ret (plan.*1, diag) ∧
    plan ≡ₚ filter (λ p, pending (Some 1%nat) p.2 = true) (zip mg_three [3; 1; 2]%nat) ∧
    StronglySorted (λ p q, LessThan q.2 p.2 = false) plan ∧
    ExecutionPlan diag = (λ p, mkStep (sv_String p.2) (mg_Description p.1)) <$> plan.
Proof.
  refine (getExecutionPlan_exact (mg_registry mg_three) [3; 1; 2]%nat (Some 1%nat) _ _).
  - repeat constructor.
  - apply (bool_decide_unpack _). vm_compute. exact Logic.I.
Defined.


(** Three migrations, of which the last one fails, are run twice: the second run
    starts with the failed one. *)
Lemma mg_example_runs :
  let x := mg_run mg_three mg_example in
  let report start last steps := Fail (mkDiagnostics "" (Some (MgText "broken")) start last "111" ((λ v, mkStep v v) <$> steps) "111") in
  x.2 = report "" "11" ["1"; "11"; "111"] ∧ (mg_run mg_three x.1).2 = report "11" "" ["111"].
Proof. split; vm_compute; reflexivity. Qed.

(** *** What modelling showed *)

(** Two migrations with the same version: the one that was added last is run twice,
    the other one never. *)
Lemma equal_versions_lost :
  let a := mkMigration "a" "1" (λ _ _ s, (s, Ret tt)) : example_migration in
  let b := mkMigration "b" "1" (λ _ _ s, (s, Ret tt)) : example_migration in
  match getExecutionPlan None (mg_registry [a; b]) with Ret (plan, _) => mg_Description <$> plan = ["b"; "b"] | _ => False end.
Proof. vm_compute. reflexivity. Qed.

(** A migration during which the databases shut down: its status cannot be saved,
    but the run succeeds, and the next one will apply it again. *)
Definition mg_shutdown : example_migration :=
  mkMigration "1" "1" (λ _ _ '(sys, i), ((mkSystem (sys_initialized sys) true (sys_controllers sys) (sys_registry sys) (sys_heap sys) (sys_subs sys), i), Ret tt)).

Lemma save_error_ignored :
  let x := mg_run [mg_shutdown] mg_example in x.2 = Ret tt ∧ hm_db (c_storage (default mg_controller (sys_controllers x.1 !! "core"))) = ∅.
Proof. split; vm_compute; reflexivity. Qed.

(** The error of a later migration is reported with the message of the failed
    save. *)
Lemma stale_message :
  match (mg_run [mg_shutdown; mg_step "11" (Fail (MgText "broken"))] mg_example).2 with
  | Fail d => Diagnostics_Error (λ e, match e with MgText t => t | MgDb _ => "" end) d = Ret "11: failed to persist migration status: broken"
  | _ => False
  end.
Proof. vm_compute. reflexivity. Qed.
