(* ===== verification/Notifications.v ===== *)
(** * notifications: the notifications of the program and their database

    notification.go, database.go, cleaner.go, module.go and module-mirror.go of
    notifications/. A notification is an object on the heap of records. A method
    holds the lock of the notification while it works, and a goroutine that asks for
    a lock it holds waits forever. Channels are numbers; how many listeners receive a
    selected action is given, as are the time and the drawn numbers of a call. The
    modules are those of [Modules]: what their failure status reports is mirrored. *)

From Stdlib Require Import ZArith Lia Ascii String.
From stdpp Require Import gmap list strings.
From S2P Require Import Prelude GoStrings GoPath Dsd Record Query Storage Modules GoAny.
Local Open Scope string_scope.
Local Open Scope Z_scope.

(** ** Notifications *)

Definition Type_Info : Z := 0.
Definition Type_Warning : Z := 1.
Definition Type_Prompt : Z := 2.
Definition Type_Error : Z := 3.

Definition State_Active : string := "active".
Definition State_Responded : string := "responded".
Definition State_Executed : string := "executed".

Definition ActionTypeNone : string := "".
Definition ActionTypeOpenURL : string := "open-url".
Definition ActionTypeOpenSetting : string := "open-setting".

(** The payload of an action; settings are referred to by a struct. *)
Inductive ActionPayload : Type :=
| PayloadAny (a : any)
| PayloadOpenSetting (key profile : string).

Record Action : Type := mkAction { a_ID : string; a_Text : string; a_Type : string; a_Payload : ActionPayload }.

(** The exported fields. *)
Record NData : Type := mkNData {
  n_EventID : string;
  n_GUID : string;
  n_Type : Z;
  n_Title : string;
  n_Category : string;
  n_Message : string;
  n_ShowOnSystem : bool;
  n_EventData : any;
  n_Expires : Z;
  n_State : string;
  n_AvailableActions : list Action;
  n_SelectedActionID : string;
}.

(** The rest; [None] is nil. A function is a number. *)
Record Notification : Type := mkNotification {
  n_data : NData;
  belongsTo : option string;
  actionFunction : option nat;
  actionTrigger : option nat;
  expiredTrigger : option nat;
}.

(** The record that holds nothing but its key, and the zero value of the rest. *)
Definition new_notification (d : NData) : Notification := mkNotification d None None None None.

(** The objects of the heap: notifications and records of other kinds. *)
Inductive NValue : Type :=
| NNotification (n : Notification)
| NWrapped (format : Z) (data : bytes)
| NOther.

Abbreviation nheap := (heap NValue).

(** ** The state of the package *)

(** [nt_held] are the locks of the goroutine; [nt_closed], [nt_sent], [nt_started]
    and [nt_pushed] are what happened to channels, action functions and the
    subscribers of the database. *)
Record NSys : Type := mkNSys {
  nots : gmap string loc;
  nt_held : list loc;
  nt_next : nat;
  nt_closed : list nat;
  nt_sent : list (nat * string);
  nt_started : list (nat * loc);
  nt_pushed : list (loc * object NValue);
  nt_mods : ModSys;
}.

Definition set_nots (x : gmap string loc) (s : NSys) : NSys :=
  mkNSys x (nt_held s) (nt_next s) (nt_closed s) (nt_sent s) (nt_started s) (nt_pushed s) (nt_mods s).
Definition set_held (x : list loc) (s : NSys) : NSys :=
  mkNSys (nots s) x (nt_next s) (nt_closed s) (nt_sent s) (nt_started s) (nt_pushed s) (nt_mods s).
Definition set_next (x : nat) (s : NSys) : NSys :=
  mkNSys (nots s) (nt_held s) x (nt_closed s) (nt_sent s) (nt_started s) (nt_pushed s) (nt_mods s).
Definition set_closed (x : list nat) (s : NSys) : NSys :=
  mkNSys (nots s) (nt_held s) (nt_next s) x (nt_sent s) (nt_started s) (nt_pushed s) (nt_mods s).
Definition set_sent (x : list (nat * string)) (s : NSys) : NSys :=
  mkNSys (nots s) (nt_held s) (nt_next s) (nt_closed s) x (nt_started s) (nt_pushed s) (nt_mods s).
Definition set_started (x : list (nat * loc)) (s : NSys) : NSys :=
  mkNSys (nots s) (nt_held s) (nt_next s) (nt_closed s) (nt_sent s) x (nt_pushed s) (nt_mods s).
Definition set_pushed (x : list (loc * object NValue)) (s : NSys) : NSys :=
  mkNSys (nots s) (nt_held s) (nt_next s) (nt_closed s) (nt_sent s) (nt_started s) x (nt_mods s).
Definition set_mods (x : ModSys) (s : NSys) : NSys :=
  mkNSys (nots s) (nt_held s) (nt_next s) (nt_closed s) (nt_sent s) (nt_started s) (nt_pushed s) x.

(** [NtDeadlock]: the goroutine waits for a lock it holds itself. *)
Inductive nt_error : Type :=
| NtNotFound
| NtInvalidData
| NtInvalidPath
| NtAlreadyExecuted
| NtDeadlock.

#[global] Instance nt_error_eq_dec : EqDecision nt_error.
Proof. solve_decision. Defined.

Abbreviation NW := (nheap * NSys)%type.

(** The notification at a location. *)
Definition notif_at (h : nheap) (l : loc) : option (Base * Notification) :=
  match h !! l with
  | Some o => match o_value o with NNotification n => Some (o_base o, n) | _ => None end
  | None => None
  end.

(** What is outside of a call: the time, the option for system notifications, what
    uuid.NewV4 draws, the UUID of the time, and how many listeners receive. *)
Record NEnv : Type := mkNEnv { ne_now : Z; ne_system : bool; ne_draw : option string; ne_uuidFromTime : string; ne_heard : nat }.

Section Notifications.
Context {R : Type} `{!QueryLib R} (accessor_of : NValue → option Accessor).

(** github.com/gofrs/uuid: the texts of version 5, in a name space, and of drawn
    ones, when drawing does not fail. *)
Context (uuid_V5 : string → string → string) (constantUUID instanceUUID : string).

(** The order in which a range visits the notifications. *)
Context (order : list loc → list loc).

(** The Go type is loaded by dsd. *)
Context {X : Type} `{!Codecs NData X}.

Implicit Types (e : NEnv) (l : loc) (w : NW).

(** *** utils/uuid.go *)

Definition RandomUUID (e : NEnv) (ns : string) : string :=
  match ne_draw e with
  | None => uuid_V5 (ne_uuidFromTime e) ns
  | Some randUUID => if negb (String.eqb ns "") then uuid_V5 randUUID ns else randUUID
  end.

Definition DerivedUUID (input : string) : string := uuid_V5 constantUUID input.

Definition DerivedInstanceUUID (input : string) : string := uuid_V5 instanceUUID input.

(** *** Access to the state *)

Definition on_nsys (f : NSys → NSys) : st NW nt_error unit := st_mod (λ w, (w.1, f w.2)).

(** A nil pointer is dereferenced when there is no notification. *)
Definition the_notif (l : loc) : st NW nt_error (Base * Notification) := st_get (λ w,
  match notif_at w.1 l with Some x => Ret x | None => Panic end).

Definition put_notif (l : loc) (b : Base) (n : Notification) : st NW nt_error unit :=
  st_mod (λ w, (<[l := mkObject b (NNotification n)]> w.1, w.2)).

(** [n.lock.Lock()] and the deferred Unlock around the rest. *)
Definition with_lock {A : Type} (l : loc) (body : st NW nt_error A) : st NW nt_error A := λ w,
  if decide (l ∈ nt_held w.2) then (w, Fail NtDeadlock)
  else
    let '(w', r) := body (w.1, set_held (l :: nt_held w.2) w.2) in
    ((w'.1, set_held (nt_held w.2) w'.2), r).

(** Closing a closed channel and sending on one panic. *)
Definition close_channel (c : nat) : st NW nt_error unit :=
  let$ closed := st_get (λ w, Ret (nt_closed w.2)) in
  if decide (c ∈ closed) then λ w, (w, Panic) else on_nsys (λ s, set_closed (c :: nt_closed s) s).

Definition send_channel (c : nat) (id : string) (heard : nat) : st NW nt_error unit :=
  let$ closed := st_get (λ w, Ret (nt_closed w.2)) in
  if decide (c ∈ closed) then λ w, (w, Panic)
  else on_nsys (λ s, set_sent (nt_sent s ++ replicate heard (c, id))%list s).

Definition make_channel : st NW nt_error nat := λ w, ((w.1, set_next (S (nt_next w.2)) w.2), Ret (nt_next w.2)).

(** dbController.PushUpdate: the subscribers see the notification as it is. *)
Definition PushNotification (l : loc) : st NW nt_error unit :=
  st_mod (λ w, (w.1, set_pushed (nt_pushed w.2 ++ option_list (pair l <$> w.1 !! l))%list w.2)).

(** *** Saving *)

Definition with_data (f : NData → NData) (n : Notification) : Notification :=
  mkNotification (f (n_data n)) (belongsTo n) (actionFunction n) (actionTrigger n) (expiredTrigger n).

Definition set_ids (id guid state : string) (show : bool) (d : NData) : NData :=
  mkNData id guid (n_Type d) (n_Title d) (n_Category d) (n_Message d) show (n_EventData d) (n_Expires d) state
    (n_AvailableActions d) (n_SelectedActionID d).

(** What save does while it holds the lock; the result is the id to store. *)
Definition save_locked (e : NEnv) (l : loc) (pushUpdate : bool) : st NW nt_error string :=
  let$ x := the_notif l in
  let '(b, n) := x in
  let d := n_data n in
  if String.eqb (n_Title d) "" && String.eqb (n_Message d) "" then st_ret ""
  else
    let id := if String.eqb (n_EventID d) "" then "unknown:" ++ DerivedInstanceUUID (n_Message d) else n_EventID d in
    let guid := if String.eqb (n_GUID d) "" then RandomUUID e id else n_GUID d in
    let state := if String.eqb (n_State d) "" then State_Active else n_State d in
    let show := if KeyIsSet b then n_ShowOnSystem d else n_ShowOnSystem d && ne_system e in
    let b := if KeyIsSet b then b else SetKey ("notifications:all/" ++ id) b in
    let$ _ := put_notif l (UpdateMeta (ne_now e) b) (with_data (set_ids id guid state show) n) in
    let$ _ := (if pushUpdate then PushNotification l else st_ret tt) in
    st_ret id.

Definition save (e : NEnv) (l : loc) (pushUpdate : bool) : st NW nt_error unit :=
  let$ id := with_lock l (save_locked e l pushUpdate) in
  if String.eqb id "" then st_ret tt else on_nsys (λ s, set_nots (<[id := l]> (nots s)) s).

Definition Notify (e : NEnv) (l : loc) : st NW nt_error loc := let$ _ := save e l true in st_ret l.

Definition Notification_Save (e : NEnv) (l : loc) : st NW nt_error unit := save e l true.

(** A new notification on the heap. *)
Definition alloc_notification (d : NData) : st NW nt_error loc := λ w,
  let l := fresh (dom w.1) in ((<[l := mkObject (mkBase "" "" None) (NNotification (new_notification d))]> w.1, w.2), Ret l).

Definition notify (e : NEnv) (nType : Z) (id title msg : string) (showOnSystem : bool) (actions : list Action) : st NW nt_error loc :=
  let acts := match actions with [] => [mkAction "ack" "OK" "" (PayloadAny ANil)] | _ => actions end in
  let$ l := alloc_notification (mkNData id "" nType title "" msg showOnSystem ANil 0 "" acts "") in
  Notify e l.

Definition NotifyInfo e id title msg actions := notify e Type_Info id title msg false actions.
Definition NotifyWarn e id title msg actions := notify e Type_Warning id title msg true actions.
Definition NotifyError e id title msg actions := notify e Type_Error id title msg true actions.
Definition NotifyPrompt e id title msg actions := notify e Type_Prompt id title msg false actions.

Definition notifications_Get (id : string) : st NW nt_error (option loc) := st_get (λ w, Ret (nots w.2 !! id)).

(** *** Listeners *)

Definition SetActionFunction (l : loc) (fn : option nat) : st NW nt_error loc :=
  with_lock l (
    let$ x := the_notif l in
    let '(b, n) := x in
    let$ _ := put_notif l b (mkNotification (n_data n) (belongsTo n) fn (actionTrigger n) (expiredTrigger n)) in
    st_ret l).

Definition Response (l : loc) : st NW nt_error nat :=
  with_lock l (
    let$ x := the_notif l in
    let '(b, n) := x in
    match actionTrigger n with
    | Some c => st_ret c
    | None =>
        let$ c := make_channel in
        let$ _ := put_notif l b (mkNotification (n_data n) (belongsTo n) (actionFunction n) (Some c) (expiredTrigger n)) in
        st_ret c
    end).

Definition Expired (l : loc) : st NW nt_error nat :=
  with_lock l (
    let$ x := the_notif l in
    let '(b, n) := x in
    match expiredTrigger n with
    | Some c => st_ret c
    | None =>
        let$ c := make_channel in
        let$ _ := put_notif l b (mkNotification (n_data n) (belongsTo n) (actionFunction n) (actionTrigger n) (Some c)) in
        st_ret c
    end).

(** *** Updating *)

Definition set_expires (expires : Z) (d : NData) : NData :=
  mkNData (n_EventID d) (n_GUID d) (n_Type d) (n_Title d) (n_Category d) (n_Message d) (n_ShowOnSystem d) (n_EventData d)
    expires (n_State d) (n_AvailableActions d) (n_SelectedActionID d).

(** [n.Meta().Modified] of a nil Meta panics. *)
Definition Notification_Update (e : NEnv) (l : loc) (expires : Z) : st NW nt_error unit :=
  let$ do_save := with_lock l (
    let$ x := the_notif l in
    let '(b, n) := x in
    if negb (String.eqb (n_State (n_data n)) State_Active) then st_ret false
    else
      match meta b with
      | None => λ w, (w, Panic)
      | Some m =>
          if s64 (ne_now e - 10) <? Modified m then st_ret false
          else let$ _ := put_notif l b (with_data (set_expires expires) n) in st_ret true
      end) in
  if do_save : bool then save e l true else st_ret tt.

(** *** Deleting *)

(** A call into the modules, whose registered modules stay. *)
Definition lift_mods (f : ModSys → go disabled ModSys) : st NW nt_error unit := λ w,
  match f (nt_mods w.2) with
  | Ret m => ((w.1, set_mods m w.2), Ret tt)
  | _ => (w, Panic)
  end.

Definition resolveModuleFailure (l : loc) : st NW nt_error unit :=
  let$ x := the_notif l in
  let '(b, n) := x in
  match belongsTo n with
  | None => st_ret tt
  | Some m =>
      let$ _ := lift_mods (Resolve (n_EventID (n_data n)) m) in
      put_notif l b (mkNotification (n_data n) None (actionFunction n) (actionTrigger n) (expiredTrigger n))
  end.

Definition delete_locked (e : NEnv) (l : loc) (pushUpdate : bool) : st NW nt_error unit :=
  let$ x := the_notif l in
  let '(b, n) := x in
  match meta b with
  | None => λ w, (w, Panic)
  | Some m =>
      let b := SetMeta (Some (Meta_Delete (ne_now e) m)) b in
      let$ _ := put_notif l b n in
      let$ _ := match expiredTrigger n with
                | None => st_ret tt
                | Some c =>
                    let$ _ := close_channel c in
                    put_notif l b (mkNotification (n_data n) (belongsTo n) (actionFunction n) (actionTrigger n) None)
                end in
      let$ _ := (if pushUpdate then PushNotification l else st_ret tt) in
      resolveModuleFailure l
  end.

(** The deferred function removes what is stored under the id that was read, also
    after a panic. *)
Definition Notification_delete (e : NEnv) (l : loc) (pushUpdate : bool) : st NW nt_error unit := λ w,
  match notif_at w.1 l with
  | None => (w, Panic)
  | Some (_, n) =>
      match with_lock l (delete_locked e l pushUpdate) w with
      | (w, Fail NtDeadlock) => (w, Fail NtDeadlock)
      | (w, r) => ((w.1, set_nots (delete (n_EventID (n_data n)) (nots w.2)) w.2), r)
      end
  end.

Definition dismiss (l : loc) : st NW nt_error unit :=
  with_lock l (
    let$ x := the_notif l in
    let '(b, n) := x in
    match actionTrigger n with
    | None => st_ret tt
    | Some c =>
        let$ _ := close_channel c in
        put_notif l b (mkNotification (n_data n) (belongsTo n) (actionFunction n) None (expiredTrigger n))
    end).

Definition Notification_Delete (e : NEnv) (l : loc) : st NW nt_error unit :=
  let$ _ := dismiss l in Notification_delete e l true.

Definition notifications_Delete (e : NEnv) (id : string) : st NW nt_error unit :=
  let$ n := notifications_Get id in
  match n with Some l => Notification_Delete e l | None => st_ret tt end.

(** *** Responding *)

Definition set_state (state : string) (d : NData) : NData :=
  mkNData (n_EventID d) (n_GUID d) (n_Type d) (n_Title d) (n_Category d) (n_Message d) (n_ShowOnSystem d) (n_EventData d)
    (n_Expires d) state (n_AvailableActions d) (n_SelectedActionID d).

Definition set_selected (id : string) (d : NData) : NData :=
  mkNData (n_EventID d) (n_GUID d) (n_Type d) (n_Title d) (n_Category d) (n_Message d) (n_ShowOnSystem d) (n_EventData d)
    (n_Expires d) (n_State d) (n_AvailableActions d) id.

(** The lock is held. The action is sent until no listener receives it. *)
Definition selectAndExecuteAction (e : NEnv) (l : loc) (id : string) : st NW nt_error unit :=
  let$ x := the_notif l in
  let '(b, n) := x in
  if negb (String.eqb (n_State (n_data n)) State_Active) then st_ret tt
  else
    let n := with_data (λ d, set_selected id (set_state State_Responded d)) n in
    let$ _ := put_notif l b n in
    let$ _ := match actionFunction n with
              | Some fn => on_nsys (λ s, set_started (nt_started s ++ [(fn, l)])%list s)
              | None => st_ret tt
              end in
    let$ _ := match actionTrigger n with Some c => send_channel c id (ne_heard e) | None => st_ret tt end in
    let executed := bool_decide (is_Some (actionFunction n)) || (bool_decide (is_Some (actionTrigger n)) && (0 <? ne_heard e)%nat) in
    if executed then
      let$ _ := put_notif l b (with_data (set_state State_Executed) n) in
      resolveModuleFailure l
    else st_ret tt.

(** *** module-mirror.go *)

(** The notification of a module failure: id is where it is stored. *)
Definition mirror_data (moduleFailure : Z) (id title msg : string) : NData :=
  let help := [mkAction "" "Get Help" ActionTypeOpenURL (PayloadAny (AString "https://safing.io/support/"))] in
  let '(nType, show, actions) :=
    if moduleFailure =? FailureHint then (Type_Info, false, [])
    else if moduleFailure =? FailureWarning then (Type_Warning, true, help)
    else if moduleFailure =? FailureError then (Type_Error, true, help)
    else (Type_Info, false, help) in
  mkNData id "" nType title "" msg show ANil 0 "" actions "".

Definition mirrorModuleStatus (e : NEnv) (moduleFailure : Z) (id title msg : string) : st NW nt_error unit :=
  if String.eqb id "" then st_ret tt
  else
    let$ n := notifications_Get id in
    match n with
    | Some l =>
        if negb (moduleFailure =? FailureNone) then st_ret tt
        else
          let$ x := the_notif l in
          match meta x.1 with
          | None => λ w, (w, Panic)
          | Some m =>
              if IsDeleted m then st_ret tt
              else
                let$ _ := with_lock l (
                  let$ x := the_notif l in
                  put_notif l x.1 (mkNotification (n_data x.2) None (actionFunction x.2) (actionTrigger x.2) (expiredTrigger x.2))) in
                Notification_Delete e l
          end
    | None =>
        if moduleFailure =? FailureNone then st_ret tt
        else
          let$ l := alloc_notification (mirror_data moduleFailure id title msg) in
          let$ _ := Notify e l in
          st_ret tt
    end.

(** A call into the modules with the updates of the failure status it makes. *)
Definition on_modules (e : NEnv) (f : ModSys → go disabled ModSys) : st NW nt_error unit :=
  let$ before := st_get (λ w, Ret (length (failure_log (nt_mods w.2)))) in
  let$ _ := lift_mods f in
  let$ after := st_get (λ w, Ret (failure_log (nt_mods w.2))) in
  st_iter (λ '(moduleFailure, id, title, msg), mirrorModuleStatus e moduleFailure id title msg) (drop before after).

Definition module_status (nType : Z) (msg : string) : Z * string :=
  if nType =? Type_Info then (FailureHint, msg)
  else if nType =? Type_Warning then (FailureWarning, msg)
  else if nType =? Type_Error then (FailureError, msg)
  else (FailureError, (msg ++ " [incompatible notification type]")%string).

(** [m] is not nil. *)
Definition AttachToModule (e : NEnv) (l : loc) (m : string) : st NW nt_error unit :=
  with_lock l (
    let$ x := the_notif l in
    let '(b, n) := x in
    let d := n_data n in
    if negb (String.eqb (n_State d) State_Active) then st_ret tt
    else if bool_decide (is_Some (belongsTo n)) then st_ret tt
    else
      let$ _ := put_notif l b (mkNotification d (Some m) (actionFunction n) (actionTrigger n) (expiredTrigger n)) in
      let '(status, msg) := module_status (n_Type d) (n_Message d) in
      on_modules e (setFailure status (n_EventID d) (n_Title d) msg m)).

(** *** cleaner.go *)

Definition getNotsCopy : st NW nt_error (list loc) := st_get (λ w, Ret (order (map_to_list (nots w.2)).*2)).

Definition isExpired (e : NEnv) (l : loc) : st NW nt_error bool :=
  with_lock l (
    let$ x := the_notif l in
    st_ret ((0 <? n_Expires (n_data x.2)) && (n_Expires (n_data x.2) <? ne_now e))).

Definition deleteExpiredNotifs (e : NEnv) : st NW nt_error unit :=
  let$ notsCopy := getNotsCopy in
  st_iter (λ l, let$ expired := isExpired e l in if expired : bool then Notification_delete e l true else st_ret tt) notsCopy.

(** *** database.go *)

Definition all_key (key : string) : option string := if HasPrefix key "all/" then Some (string_drop 4 key) else None.

Definition NtStorage_Get (key : string) : st NW nt_error loc :=
  match all_key key with
  | None => st_fail NtNotFound
  | Some key =>
      let$ n := notifications_Get key in
      match n with Some l => st_ret l | None => st_fail NtNotFound end
  end.

(** The query of another goroutine: it waits for no lock of this one. *)
Definition inQuery (h : nheap) (q : Query R) (l : loc) : go nt_error bool :=
  match notif_at h l with
  | None => Panic
  | Some (b, n) =>
      match meta b with
      | None => Panic
      | Some m => Ret (negb (IsDeleted m) && MatchesKey q (dbKey b) && MatchesRecord q (accessor_of (NNotification n)))
      end
  end.

Fixpoint processQuery (h : nheap) (q : Query R) (notsCopy : list loc) : go nt_error (list loc) :=
  match notsCopy with
  | [] => Ret []
  | l :: notsCopy =>
      let! found := inQuery h q l in
      let! rest := processQuery h q notsCopy in
      Ret (if found : bool then l :: rest else rest)
  end.

Definition NtStorage_Query (q : Query R) (local internal : bool) : st NW nt_error (list loc) :=
  let$ notsCopy := getNotsCopy in st_get (λ w, processQuery w.1 q notsCopy).

(** A wrapped record is loaded into a new notification. *)
Definition EnsureNotification (r : loc) : st NW nt_error loc := λ w,
  match w.1 !! r with
  | None => (w, Panic)
  | Some o =>
      match o_value o with
      | NNotification _ => (w, Ret r)
      | NOther => (w, Fail NtInvalidData)
      | NWrapped format data =>
          match Unwrap (T := NData) (X := X) (Wrapped (mkWrapper (o_base o) format data)) (mkBase "" "" None) with
          | Ret (Typed b d) =>
              let l := fresh (dom w.1) in ((<[l := mkObject b (NNotification (new_notification d))]> w.1, w.2), Ret l)
          | Panic => (w, Panic)
          | _ => (w, Fail NtInvalidData)
          end
      end
  end.

Definition applyUpdate (e : NEnv) (l : loc) (key : string) : st NW nt_error loc :=
  let$ existing := notifications_Get key in
  let$ active := match existing with
                 | None => st_ret None
                 | Some ex =>
                     let$ x := the_notif ex in
                     match meta x.1 with
                     | None => λ w, (w, Panic)
                     | Some m => st_ret (if IsDeleted m then None else Some ex)
                     end
                 end in
  match active with
  | None => let$ _ := save e l false in st_ret l
  | Some ex =>
      let$ do_save := with_lock ex (
        let$ x := the_notif ex in
        let$ update := the_notif l in
        let '(b, n) := x in
        let d := n_data update.2 in
        if String.eqb (n_State (n_data n)) State_Executed then st_fail NtAlreadyExecuted
        else
          let external := String.eqb (n_State d) State_Executed in
          let n := if external then
                     with_data (λ c, let c := set_state State_Executed c in
                                     if String.eqb (n_SelectedActionID d) "" then c else set_selected (n_SelectedActionID d) c) n
                   else n in
          let$ _ := put_notif ex b n in
          if negb (String.eqb (n_SelectedActionID d) "") && String.eqb (n_State (n_data n)) State_Active then
            let$ _ := selectAndExecuteAction e ex (n_SelectedActionID d) in st_ret true
          else st_ret external) in
      let$ _ := (if do_save : bool then save e ex false else st_ret tt) in
      st_ret ex
  end.

(** The caller holds the lock of the record. *)
Definition NtStorage_Put (e : NEnv) (r : loc) : st NW nt_error loc :=
  with_lock r (
    let$ key := st_get (λ w, Ret (key_of w.1 r)) in
    let$ l := EnsureNotification r in
    match all_key key with
    | None => st_fail NtInvalidPath
    | Some key => applyUpdate e l key
    end).

Definition NtStorage_Delete (e : NEnv) (key : string) : st NW nt_error unit :=
  match all_key key with
  | None => st_fail NtNotFound
  | Some key =>
      let$ n := notifications_Get key in
      match n with Some l => Notification_delete e l true | None => st_fail NtNotFound end
  end.

(** *** module.go: a setting that was loaded although it is not valid *)

Definition validation_notification (e : NEnv) (setting : string * string * string) : st NW nt_error unit :=
  let '(key, name, err) := setting in
  let nl := String "010" "" in
  let$ _ := NotifyError e ("config:validation-error:" ++ key) ("Invalid Setting for " ++ name)
    ("Your current setting for " ++ name ++ " is invalid: " ++ err ++ nl ++ nl ++
     "Please update the setting and restart the Portmaster, until then the default value is used.")
    [mkAction "" "Change" ActionTypeOpenSetting (PayloadOpenSetting key "")] in
  st_ret tt.

(** [validationErrors]: key and name of the options, text of the error. *)
Definition showConfigLoadingErrors (e : NEnv) (validationErrors : list (string * string * string)) : st NW nt_error unit :=
  match validationErrors with
  | [] => st_ret tt
  | _ =>
      let$ _ := on_modules e (Module_Error "config:validation-errors-on-load" "Invalid Settings"
        "Some current settings are invalid. Please update them and restart the Portmaster." "notifications") in
      st_iter (validation_notification e) validationErrors
  end.

(** *** As a storage *)

Definition nt_text (err : nt_error) : string :=
  match err with
  | NtNotFound => "database entry not found"
  | NtInvalidData => "invalid data, must be a notification object"
  | NtInvalidPath => "invalid path"
  | NtAlreadyExecuted => "action already executed"
  | NtDeadlock => "fatal error: all goroutines are asleep - deadlock!"
  end.

Definition as_nt_storage {A : Type} (m : st NW nt_error A) : st NW storage_error A :=
  st_wrap (λ err, match err with NtNotFound => StorageErrNotFound | _ => StorageErrOther (nt_text err) end) m.

(** The methods that are not written for it are those of InjectBase. *)
#[global] Instance NtStorage (e : NEnv) : StorageInterface NValue R NSys := {|
  storage_Get key := as_nt_storage (NtStorage_Get key);
  storage_GetMeta := None;
  storage_Put r := as_nt_storage (let$ l := NtStorage_Put e r in st_ret (Some l));
  storage_PutMany := None;
  storage_Delete key := as_nt_storage (NtStorage_Delete e key);
  storage_Query now q local internal := as_nt_storage (NtStorage_Query q local internal);
  storage_ReadOnly _ := false;
  storage_Injected _ := true;
  storage_Maintain := None;
  storage_MaintainRecordStates _ _ _ := st_ret tt;
  storage_Purge := None;
  storage_Shutdown := st_ret tt;
|}.

End Notifications.

(** ** Lemmas *)

(** *** What holds of the notifications *)

(** How far a notification has come; other texts come from records that are put. *)
Definition state_rank (state : string) : nat :=
  if String.eqb state "" then 0 else if String.eqb state State_Active then 1 else if String.eqb state State_Executed then 3 else 2.

Definition state_advances (a b : string) : Prop := (state_rank a < state_rank b)%nat ∨ a = b.

Definition channels (n : Notification) : list nat := (option_list (actionTrigger n) ++ option_list (expiredTrigger n))%list.

Record notif_ok (w : NW) : Prop := {
  ok_nots : ∀ id l, nots w.2 !! id = Some l → id ≠ "" ∧
    ∃ b n, notif_at w.1 l = Some (b, n) ∧ n_EventID (n_data n) = id ∧ is_Some (meta b) ∧ KeyIsSet b = true;
  ok_channels : ∀ l b n c, notif_at w.1 l = Some (b, n) → c ∈ channels n → (c < nt_next w.2)%nat ∧ c ∉ nt_closed w.2;
  ok_two : ∀ l b n, notif_at w.1 l = Some (b, n) → NoDup (channels n);
  ok_apart : ∀ l l' b b' n n' c, notif_at w.1 l = Some (b, n) → notif_at w.1 l' = Some (b', n') →
    c ∈ channels n → c ∈ channels n' → l = l';
  ok_started : ∀ fn l, (fn, l) ∈ nt_started w.2 → ∃ b n, notif_at w.1 l = Some (b, n) ∧ (2 ≤ state_rank (n_State (n_data n)))%nat;
  ok_once : NoDup (snd <$> nt_started w.2);
  ok_belongs : ∀ l b n m, notif_at w.1 l = Some (b, n) → belongsTo n = Some m → is_Some (modules (nt_mods w.2) !! m);
  ok_closed : ∀ c, c ∈ nt_closed w.2 → (c < nt_next w.2)%nat;
}.

(** What a call may do to a notification: metadata and key stay set, the id stays,
    the state goes on. *)
Definition notif_goes_on (x x' : Base * Notification) : Prop :=
  (is_Some (meta x.1) → is_Some (meta x'.1)) ∧ (KeyIsSet x.1 = true → KeyIsSet x'.1 = true ∧ dbKey x'.1 = dbKey x.1) ∧
  (n_EventID (n_data x.2) ≠ "" → n_EventID (n_data x'.2) = n_EventID (n_data x.2)) ∧
  state_advances (n_State (n_data x.2)) (n_State (n_data x'.2)).

Definition goes_on (w w' : NW) : Prop :=
  (∀ l x, notif_at w.1 l = Some x → ∃ x', notif_at w'.1 l = Some x' ∧ notif_goes_on x x') ∧
  dom (modules (nt_mods w.2)) ⊆ dom (modules (nt_mods w'.2)).

Lemma state_advances_trans a b c : state_advances a b → state_advances b c → state_advances a c.
Proof. unfold state_advances. intros [H1|H1] [H2|H2]; subst; [left; lia|by left|by left|by right]. Qed.

Lemma notif_goes_on_refl x : notif_goes_on x x.
Proof. split; [done|]. split; [done|]. split; [done|by right]. Qed.

Lemma notif_goes_on_trans x y z : notif_goes_on x y → notif_goes_on y z → notif_goes_on x z.
Proof.
  intros (H1 & H2 & H3 & H4) (G1 & G2 & G3 & G4). split; [by eauto|]. split.
  { intros Hk. destruct (H2 Hk) as [Hk' E]. destruct (G2 Hk') as [Hk'' E']. split; [done|congruence]. }
  split; [|by eapply state_advances_trans]. intros Hne. rewrite G3; [by apply H3|]. by rewrite H3.
Qed.

#[global] Instance goes_on_preorder : PreOrder goes_on.
Proof.
  split.
  - intros w. split; [|done]. intros l x Hx. exists x. split; [done|apply notif_goes_on_refl].
  - intros w1 w2 w3 [H1 D1] [H2 D2]. split; [|by etrans]. intros l x Hx. destruct (H1 l x Hx) as (x' & Hx' & G1).
    destruct (H2 l x' Hx') as (x'' & Hx'' & G2). exists x''. split; [done|by eapply notif_goes_on_trans].
Qed.

(** A call keeps this in every case and, with [np], does not panic. *)
Definition nt_spec {A : Type} (np : bool) (pre : NW → Prop) (m : st NW nt_error A) : Prop := ∀ w,
  notif_ok w → pre w → notif_ok (m w).1 ∧ goes_on w (m w).1 ∧ (np = true → (m w).2 ≠ Panic).

(** Conditions that a call keeps. *)
Definition lasting (pre : NW → Prop) : Prop := ∀ w w', goes_on w w' → pre w → pre w'.

Lemma nt_spec_weaken {A} {np : bool} (pre pre' : NW → Prop) (m : st NW nt_error A) :
  (∀ w, notif_ok w → pre' w → pre w) → nt_spec np pre m → nt_spec np pre' m.
Proof. intros H Hm w Hok Hp. apply Hm; eauto. Qed.

Lemma nt_spec_ret {A} {np : bool} pre (a : A) : nt_spec np pre (st_ret a).
Proof. intros w Hok _. split; [done|]. split; [reflexivity|done]. Qed.

Lemma nt_spec_fail {A} {np : bool} pre err : nt_spec np pre (st_fail (A := A) err).
Proof. intros w Hok _. split; [done|]. split; [reflexivity|done]. Qed.

Lemma nt_spec_bind {A B} {np : bool} pre (pre' : A → NW → Prop) (m : st NW nt_error A) (k : A → st NW nt_error B) :
  nt_spec np pre m → (∀ w w' a, notif_ok w → notif_ok w' → goes_on w w' → pre w → m w = (w', Ret a) → pre' a w') →
  (∀ a, nt_spec np (pre' a) (k a)) → nt_spec np pre (st_bind m k).
Proof.
  intros Hm Hpre Hk w Hok Hp. destruct (Hm w Hok Hp) as (Hok1 & Hon1 & Hnp). unfold st_bind.
  destruct (m w) as [w1 [a|err|]] eqn:E; [|done|split; [done|]; split; [done|]; intros Hnp'; by destruct (Hnp Hnp')]. simpl in *.
  destruct (Hk a w1 Hok1) as (Hok2 & Hon2 & Hnp2); [exact (Hpre w w1 a Hok Hok1 Hon1 Hp E)|].
  split; [done|]. split; [by etrans|done].
Qed.

Lemma nt_spec_bind_lasting {A B} {np : bool} pre (m : st NW nt_error A) (k : A → st NW nt_error B) :
  lasting pre → nt_spec np pre m → (∀ a, nt_spec np pre (k a)) → nt_spec np pre (st_bind m k).
Proof. intros Hl Hm Hk. apply (nt_spec_bind pre (λ _, pre)); [done| |done]. intros w w' a _ _ Hon Hp _. by eapply Hl. Qed.

Lemma nt_spec_iter {A} {np : bool} pre (f : A → st NW nt_error unit) (l : list A) :
  lasting pre → (∀ a, a ∈ l → nt_spec np pre (f a)) → nt_spec np pre (st_iter f l).
Proof.
  intros Hl Hf. induction l as [|a l IH]; [apply nt_spec_ret|]. apply nt_spec_bind_lasting; [done|apply Hf; by left|].
  intros _. apply IH. intros a' Ha'. apply Hf. by right.
Qed.

(** Reading. *)
Lemma nt_spec_get {A B} {np : bool} pre (f : NW → go nt_error A) (k : A → st NW nt_error B) :
  (∀ w, notif_ok w → pre w → f w ≠ Panic) →
  (∀ a, nt_spec np (λ w, pre w ∧ f w = Ret a) (k a)) → nt_spec np pre (st_bind (st_get f) k).
Proof.
  intros Hf Hk w Hok Hp. unfold st_bind, st_get. destruct (f w) as [a|err|] eqn:E.
  - by apply Hk.
  - split; [done|]. split; [reflexivity|done].
  - by specialize (Hf w Hok Hp).
Qed.

(** *** One change *)

Lemma notif_at_insert (h : nheap) (l l' : loc) (b : Base) (n : Notification) :
  notif_at (<[l := mkObject b (NNotification n)]> h) l' = if decide (l = l') then Some (b, n) else notif_at h l'.
Proof.
  unfold notif_at. destruct (decide (l = l')) as [->|Hne]; [by rewrite lookup_insert_eq|by rewrite lookup_insert_ne].
Qed.

(** What a change of a notification has to fulfil. *)
Definition may_put (l : loc) (b : Base) (n : Notification) (w : NW) : Prop :=
  ∃ b0 n0, notif_at w.1 l = Some (b0, n0) ∧ notif_goes_on (b0, n0) (b, n) ∧ NoDup (channels n) ∧
    (∀ c, c ∈ channels n → c ∈ channels n0 ∨
       ((c < nt_next w.2)%nat ∧ c ∉ nt_closed w.2 ∧ ∀ l' b' n', notif_at w.1 l' = Some (b', n') → c ∉ channels n')) ∧
    (∀ m, belongsTo n = Some m → belongsTo n0 = Some m ∨ is_Some (modules (nt_mods w.2) !! m)).

Lemma put_notif_ok (l : loc) (b : Base) (n : Notification) (w : NW) :
  notif_ok w → may_put l b n w →
  let w' := (<[l := mkObject b (NNotification n)]> w.1, w.2) in notif_ok w' ∧ goes_on w w'.
Proof.
  intros Hok (b0 & n0 & Hat & Hon & Hnd & Hch & Hbel). destruct Hok as [H1 H2 H3 H4 H5 H6 H7 H8]. split.
  - split; simpl.
    + intros id l' Hl. destruct (H1 id l' Hl) as (Hne & b' & n' & Hat' & Hid & Hm & Hk). split; [done|]. rewrite notif_at_insert.
      destruct (decide (l = l')) as [<-|_]; [|by eauto 10]. rewrite Hat in Hat'. injection Hat' as <- <-. subst id. exists b, n.
      destruct Hon as (G1 & G2 & G3 & G4). simpl in *. split; [done|]. split; [by apply G3|]. split; [by apply G1|by apply G2].
    + intros l' b' n' c. rewrite notif_at_insert. destruct (decide (l = l')) as [<-|_]; [|by apply H2].
      intros [= <- <-] Hc. destruct (Hch c Hc) as [?|(? & ? & _)]; [by eapply H2|done].
    + intros l' b' n'. rewrite notif_at_insert. destruct (decide (l = l')) as [<-|_]; [by intros [= <- <-]|by apply H3].
    + intros l1 l2 b1 b2 n1 n2 c. rewrite !notif_at_insert. destruct (decide (l = l1)) as [<-|H1']; destruct (decide (l = l2)) as [<-|H2'];
        [done| | |by apply H4]; intros E1 E2 Hc1 Hc2.
      * injection E1 as <- <-. destruct (Hch c Hc1) as [?|(_ & _ & Hno)]; [by eapply H4|by destruct (Hno _ _ _ E2)].
      * injection E2 as <- <-. destruct (Hch c Hc2) as [?|(_ & _ & Hno)]; [by eapply H4|by destruct (Hno _ _ _ E1)].
    + intros fn l' Hs. destruct (H5 fn l' Hs) as (b' & n' & Hat' & Hr). rewrite notif_at_insert.
      destruct (decide (l = l')) as [<-|_]; [|by eauto]. rewrite Hat in Hat'. injection Hat' as <- <-. exists b, n. split; [done|].
      destruct Hon as (_ & _ & _ & [G|G]); simpl in *; [lia|by rewrite <- G].
    + done.
    + intros l' b' n' m. rewrite notif_at_insert. destruct (decide (l = l')) as [<-|_]; [|by apply H7].
      intros [= <- <-] Hm. destruct (Hbel m Hm); [by eapply H7|done].
    + done.
  - split; [|done]. intros l' x Hx. simpl. rewrite notif_at_insert. destruct (decide (l = l')) as [<-|_].
    + rewrite Hat in Hx. injection Hx as <-. by eauto.
    + exists x. split; [done|apply notif_goes_on_refl].
Qed.

Lemma nt_spec_put {np : bool} (l : loc) (b : Base) (n : Notification) : nt_spec np (may_put l b n) (put_notif l b n).
Proof. intros w Hok Hp. destruct (put_notif_ok l b n w Hok Hp) as [? ?]. done. Qed.

(** Changes of the rest of the state. *)
Definition keeps_notifs (f : NSys → NSys) : Prop := ∀ s,
  nots (f s) = nots s ∧ (nt_next s ≤ nt_next (f s))%nat ∧ nt_closed (f s) = nt_closed s ∧ nt_started (f s) = nt_started s ∧ nt_mods (f s) = nt_mods s.

Lemma notif_ok_rest (w : NW) (f : NSys → NSys) : keeps_notifs f → notif_ok w → notif_ok (w.1, f w.2) ∧ goes_on w (w.1, f w.2).
Proof.
  intros Hf [H1 H2 H3 H4 H5 H6 H7 H8]. destruct (Hf w.2) as (F1 & F2 & F3 & F4 & F5). split.
  - split; simpl; rewrite ?F1, ?F3, ?F4, ?F5; try done.
    + intros l b n c Hat Hc. destruct (H2 l b n c Hat Hc). split; [lia|done].
    + intros c Hc. specialize (H8 c Hc). lia.
  - split; simpl; [|by rewrite F5]. intros l x Hx. exists x. split; [done|apply notif_goes_on_refl].
Qed.

Lemma nt_spec_rest {np : bool} pre (f : NSys → NSys) : keeps_notifs f → nt_spec np pre (on_nsys f).
Proof. intros Hf w Hok _. destruct (notif_ok_rest w f Hf Hok). done. Qed.

Lemma nt_spec_push {np : bool} pre (l : loc) : nt_spec np pre (PushNotification l).
Proof.
  intros w Hok _. destruct (notif_ok_rest w (λ s, set_pushed (nt_pushed s ++ option_list (pair l <$> w.1 !! l))%list s)); done.
Qed.

(** The lock changes nothing but what is held. *)
Lemma nt_spec_lock {A} {np : bool} pre (l : loc) (body : st NW nt_error A) :
  (∀ w x, pre w → pre (w.1, set_held x w.2)) → nt_spec np pre body → nt_spec np pre (with_lock l body).
Proof.
  intros Hpre Hb w Hok Hp. unfold with_lock. destruct (decide (l ∈ nt_held w.2)); [split; [done|]; split; [reflexivity|done]|].
  destruct (notif_ok_rest w (set_held (l :: nt_held w.2)) ltac:(done) Hok) as [Hok1 Hon1].
  destruct (Hb (w.1, set_held (l :: nt_held w.2) w.2) Hok1) as (Hok2 & Hon2 & Hnp); [by apply Hpre|].
  destruct (body _) as [w2 r]. simpl in *. destruct (notif_ok_rest w2 (set_held (nt_held w.2)) ltac:(done) Hok2) as [Hok3 Hon3].
  split; [done|]. split; [|done]. etrans; [exact Hon1|]. by etrans.
Qed.

(** Conditions on a notification; they do not depend on locks. *)
Definition there (l : loc) (w : NW) : Prop := is_Some (notif_at w.1 l).
Definition saved (l : loc) (w : NW) : Prop := ∃ b n, notif_at w.1 l = Some (b, n) ∧ is_Some (meta b).
Definition is_at (l : loc) (x : Base * Notification) (w : NW) : Prop := notif_at w.1 l = Some x.

Lemma there_lasting l : lasting (there l).
Proof. intros w w' [H _] [x Hx]. destruct (H l x Hx) as (x' & Hx' & _). by exists x'. Qed.

Lemma saved_lasting l : lasting (saved l).
Proof.
  intros w w' [H _] (b & n & Hx & Hm). destruct (H l _ Hx) as ([b' n'] & Hx' & (G & _)). exists b', n'. split; [done|by apply G].
Qed.

Lemma saved_there l w : saved l w → there l w.
Proof. intros (b & n & H & _). by eexists. Qed.

Lemma nots_saved w id l : notif_ok w → nots w.2 !! id = Some l → saved l w.
Proof. intros Hok H. destruct (ok_nots _ Hok id l H) as (_ & b & n & Hat & _ & Hm & _). by exists b, n. Qed.

(** Reading a notification that is there. *)
Lemma nt_spec_read {A} {np : bool} pre (l : loc) (k : Base * Notification → st NW nt_error A) :
  (∀ w, notif_ok w → pre w → there l w) → (∀ x, nt_spec np (λ w, pre w ∧ is_at l x w) (k x)) →
  nt_spec np pre (let$ x := the_notif l in k x).
Proof.
  intros Ht Hk. apply nt_spec_get.
  - intros w Hok Hp. destruct (Ht w Hok Hp) as [x ->]. done.
  - intros x. eapply nt_spec_weaken; [|apply (Hk x)]. intros w _ [Hp E]. split; [done|]. unfold is_at.
    by destruct (notif_at w.1 l); simplify_eq.
Qed.

(** Closing a channel of a notification and forgetting it. *)
Lemma nt_spec_close {np : bool} (l : loc) (c : nat) (b : Base) (n n' : Notification) :
  c ∈ channels n → (∀ c', c' ∈ channels n' → c' ∈ channels n ∧ c' ≠ c) → NoDup (channels n') →
  n_data n' = n_data n → belongsTo n' = belongsTo n →
  nt_spec np (is_at l (b, n)) (let$ _ := close_channel c in put_notif l b n').
Proof.
  intros Hc Hsub Hnd Hd Hb w Hok Hat. destruct (ok_channels _ Hok l b n c Hat Hc) as [Hlt Hcl].
  unfold close_channel, st_bind, st_get, on_nsys, st_mod. simpl. destruct (decide (c ∈ nt_closed w.2)); [done|]. simpl.
  destruct Hok as [H1 H2 H3 H4 H5 H6 H7 H8]. split; [split; simpl|split; [split; [|done]|done]].
  - intros id l' Hl. destruct (H1 id l' Hl) as (Hne & b' & n'' & Hat' & Hrest). split; [done|]. rewrite notif_at_insert.
    destruct (decide (l = l')) as [<-|_]; [|by eauto 10]. rewrite Hat in Hat'. injection Hat' as <- <-. exists b, n'. by rewrite Hd.
  - intros l' b' n'' c' Hat' Hc'. rewrite notif_at_insert in Hat'. destruct (decide (l = l')) as [<-|Hne].
    + injection Hat' as <- <-. destruct (Hsub c' Hc') as [Hin Hne]. destruct (H2 l b n c' Hat Hin). split; [done|].
      by apply not_elem_of_cons.
    + destruct (H2 l' b' n'' c' Hat' Hc'). split; [done|]. apply not_elem_of_cons. split; [|done].
      intros ->. apply Hne. by eapply H4.
  - intros l' b' n''. rewrite notif_at_insert. destruct (decide (l = l')) as [<-|_]; [by intros [= <- <-]|by apply H3].
  - intros l1 l2 b1 b2 n1 n2 c'. rewrite !notif_at_insert. destruct (decide (l = l1)) as [<-|_]; destruct (decide (l = l2)) as [<-|_];
      [done| | |by apply H4]; intros E1 E2 Hc1 Hc2.
    + injection E1 as <- <-. eapply H4; [exact Hat|exact E2| |done]. by apply Hsub.
    + injection E2 as <- <-. eapply H4; [exact E1|exact Hat|done|]. by apply Hsub.
  - intros fn l' Hs. destruct (H5 fn l' Hs) as (b' & n'' & Hat' & Hr). rewrite notif_at_insert.
    destruct (decide (l = l')) as [<-|_]; [|by eauto]. rewrite Hat in Hat'. injection Hat' as <- <-. exists b, n'. by rewrite Hd.
  - done.
  - intros l' b' n'' m. rewrite notif_at_insert. destruct (decide (l = l')) as [<-|_]; [|by apply H7].
    intros [= <- <-]. rewrite Hb. by apply H7 with (1 := Hat).
  - intros c'. rewrite elem_of_cons. intros [->|Hc']; [done|by apply H8].
  - intros l' x Hx. simpl. rewrite notif_at_insert. destruct (decide (l = l')) as [<-|_].
    + rewrite Hat in Hx. injection Hx as <-. exists (b, n'). split; [done|]. split; [done|]. split; [done|]. simpl. rewrite Hd. split; [done|by right].
    + exists x. split; [done|apply notif_goes_on_refl].
Qed.

(** A change that leaves the channels and the module, or drops the module. *)
Lemma may_put_same (l : loc) (b0 b : Base) (n0 n : Notification) (w : NW) :
  notif_ok w → notif_at w.1 l = Some (b0, n0) → notif_goes_on (b0, n0) (b, n) →
  channels n = channels n0 → (belongsTo n = belongsTo n0 ∨ belongsTo n = None) → may_put l b n w.
Proof.
  intros Hok Hat Hon Hch Hb. exists b0, n0. split; [done|]. split; [done|]. rewrite Hch. split; [by eapply ok_two|].
  split; [by left|]. intros m Hm. left. destruct Hb as [<-|Hb]; [done|congruence].
Qed.

Section Specs.
Context {R : Type} `{!QueryLib R} (accessor_of : NValue → option Accessor).
Context (uuid_V5 : string → string → string) (constantUUID instanceUUID : string).
Context (order : list loc → list loc) (order_perm : ∀ l, order l ≡ₚ l).
Context {X : Type} `{!Codecs NData X}.
Implicit Types (e : NEnv) (l : loc).


Lemma KeyIsSet_SetKey (id : string) (b : Base) : KeyIsSet b = false → KeyIsSet (SetKey ("notifications:all/" ++ id) b) = true.
Proof. intros Hk. unfold SetKey. rewrite Hk. reflexivity. Qed.

Lemma KeyIsSet_UpdateMeta (now : Z) (b : Base) : KeyIsSet (UpdateMeta now b) = KeyIsSet b.
Proof. by destruct b as [? ? [?|]]. Qed.

Lemma UpdateMeta_Some (now : Z) (b : Base) : is_Some (meta (UpdateMeta now b)).
Proof. destruct b as [? ? [?|]]; by eexists. Qed.

(** What save makes of the Base and the fields. *)
Lemma save_locked_case e l push w b n :
  notif_at w.1 l = Some (b, n) →
  save_locked uuid_V5 instanceUUID e l push w = (w, Ret "") ∨
  ∃ b' n' w', save_locked uuid_V5 instanceUUID e l push w = (w', Ret (n_EventID (n_data n'))) ∧ n_EventID (n_data n') ≠ "" ∧
    notif_goes_on (b, n) (b', n') ∧ is_Some (meta b') ∧ KeyIsSet b' = true ∧
    channels n' = channels n ∧ belongsTo n' = belongsTo n ∧ n_Expires (n_data n') = n_Expires (n_data n) ∧
    w'.1 = <[l := mkObject b' (NNotification n')]> w.1 ∧ ∃ x, w'.2 = set_pushed x w.2.
Proof.
  intros Hat. unfold save_locked, the_notif, st_get, st_bind, put_notif, st_mod. rewrite Hat. cbv beta iota zeta.
  destruct (String.eqb (n_Title (n_data n)) "" && _); [by left|]. right.
  set (id := if String.eqb (n_EventID (n_data n)) "" then "unknown:" ++ DerivedInstanceUUID uuid_V5 instanceUUID (n_Message (n_data n)) else n_EventID (n_data n)).
  assert (id ≠ "") as Hid. { unfold id. by destruct (String.eqb_spec (n_EventID (n_data n)) ""). }
  set (b' := UpdateMeta (ne_now e) (if KeyIsSet b then b else SetKey ("notifications:all/" ++ id) b)).
  set (n' := with_data (set_ids id (if String.eqb (n_GUID (n_data n)) "" then RandomUUID uuid_V5 e id else n_GUID (n_data n))
    (if String.eqb (n_State (n_data n)) "" then State_Active else n_State (n_data n))
    (if KeyIsSet b then n_ShowOnSystem (n_data n) else n_ShowOnSystem (n_data n) && ne_system e)) n).
  exists b', n', ((<[l := mkObject b' (NNotification n')]> w.1, set_pushed
    (if push then (nt_pushed w.2 ++ [(l, mkObject b' (NNotification n'))])%list else nt_pushed w.2) w.2)).
  split.
  { destruct push; unfold PushNotification, st_mod, st_ret; simpl; [by rewrite lookup_insert_eq|].
    f_equal. by destruct w as [h []]. }
  assert (is_Some (meta b') ∧ KeyIsSet b' = true) as [Hm Hk].
  { unfold b'. rewrite KeyIsSet_UpdateMeta. split; [apply UpdateMeta_Some|]. destruct (KeyIsSet b) eqn:Hk; [done|by apply KeyIsSet_SetKey]. }
  split; [done|]. split.
  - split; [done|]. split; [|split].
    + intros Hk0. split; [done|]. unfold b', UpdateMeta. simpl in Hk0 |- *. rewrite Hk0. by destruct b as [? ? [?|]].
    + intros Hne. simpl in *. unfold id. by destruct (String.eqb_spec (n_EventID (n_data n)) "").
    + simpl. destruct (String.eqb_spec (n_State (n_data n)) "") as [->|]; [left; vm_compute; lia|by right].
  - do 6 (split; [done|]). by eexists.
Qed.

Lemma save_spec {np : bool} e l push : nt_spec np (there l) (save uuid_V5 instanceUUID e l push).
Proof.
  set (ready := λ (id : string) (w : NW), id = "" ∨ ∃ b n, notif_at w.1 l = Some (b, n) ∧ n_EventID (n_data n) = id ∧ is_Some (meta b) ∧ KeyIsSet b = true).
  apply (nt_spec_bind _ ready).
  - apply nt_spec_lock; [done|]. intros w Hok [[b n] Hat]. destruct (save_locked_case e l push w b n Hat) as [->|Hs].
    { split; [done|]. split; [reflexivity|done]. }
    destruct Hs as (b' & n' & w' & -> & _ & Hon & _ & _ & Hch & Hb & _ & Hw1 & x & Hw2). simpl.
    destruct (put_notif_ok l b' n' w Hok) as [Hok1 Hon1]; [by eapply may_put_same; eauto|].
    destruct (notif_ok_rest (<[l:=mkObject b' (NNotification n')]> w.1, w.2) (set_pushed x) ltac:(done) Hok1) as [Hok2 Hon2].
    destruct w' as [h s]. simpl in *. subst. split; [done|]. split; [by etrans|done].
  - intros w w' id Hok Hok' Hon [[b n] Hat] H. unfold with_lock in H. destruct (decide _); [done|].
    set (w1 := (w.1, _)) in H. destruct (save_locked_case e l push w1 b n Hat) as [E|E].
    { rewrite E in H. injection H as _ <-. by left. }
    destruct E as (b' & n' & w2 & E & _ & _ & Hm & Hk & _ & _ & _ & Hw1 & _). rewrite E in H. injection H as <- <-. right.
    exists b', n'. split; [simpl; rewrite Hw1; by rewrite notif_at_insert, decide_True|]. done.
  - intros id w Hok Hr. destruct (String.eqb_spec id "") as [->|Hne].
    { split; [done|]. split; [reflexivity|done]. }
    destruct Hr as [?|Hr]; [done|]. unfold on_nsys, st_mod. destruct Hok as [H1 H2 H3 H4 H5 H6 H7 H8].
    split; [split; try done|]; simpl.
    + intros id' l'. destruct (decide (id = id')) as [<-|Hne'].
      * rewrite lookup_insert_eq. intros [= <-]. done.
      * rewrite lookup_insert_ne by done. apply H1.
    + split; [|done]. split; [|done]. intros l' x' Hx. exists x'. split; [done|apply notif_goes_on_refl].
Qed.

(** Allocation: a new object without channels. *)
Lemma notif_at_fresh (h : nheap) : notif_at h (fresh (dom h)) = None.
Proof. unfold notif_at. by rewrite (not_elem_of_dom_1 _ _ (is_fresh _)). Qed.

Lemma alloc_ok w (b : Base) (d : NData) :
  notif_ok w → let l := fresh (dom w.1) in let w' := (<[l := mkObject b (NNotification (new_notification d))]> w.1, w.2) in
  notif_ok w' ∧ goes_on w w' ∧ there l w'.
Proof.
  intros [H1 H2 H3 H4 H5 H6 H7 H8] l w'.
  assert (∀ l' x, notif_at w.1 l' = Some x → notif_at w'.1 l' = Some x) as Hold.
  { intros l' x Hx. unfold w'. simpl. rewrite notif_at_insert. destruct (decide (l = l')) as [<-|_]; [|done].
    unfold l in Hx. by rewrite notif_at_fresh in Hx. }
  assert (∀ l' b' n', notif_at w'.1 l' = Some (b', n') → n' = new_notification d ∨ notif_at w.1 l' = Some (b', n')) as Hnew.
  { intros l' b' n'. unfold w'. simpl. rewrite notif_at_insert. destruct (decide (l = l')); [by intros [= _ <-]; left|by right]. }
  split; [split; try done|split; [split; [|done]|]].
  - intros id l' Hl. destruct (H1 id l' Hl) as (Hne & b' & n' & Hat & Hrest). split; [done|]. exists b', n'. by split; [apply Hold|].
  - intros l' b' n' c Hat Hc. destruct (Hnew _ _ _ Hat) as [->|Hat']; [by apply not_elem_of_nil in Hc|]. by apply (H2 l' b' n').
  - intros l' b' n' Hat. destruct (Hnew _ _ _ Hat) as [->|Hat']; [apply NoDup_nil_2|]. by eapply H3.
  - intros l1 l2 b1 b2 n1 n2 c E1 E2 C1 C2. destruct (Hnew _ _ _ E1) as [->|E1']; [by apply not_elem_of_nil in C1|].
    destruct (Hnew _ _ _ E2) as [->|E2']; [by apply not_elem_of_nil in C2|]. by eapply H4.
  - intros fn l' Hs. destruct (H5 fn l' Hs) as (b' & n' & Hat & Hr). exists b', n'. by split; [apply Hold|].
  - intros l' b' n' m Hat Hm. destruct (Hnew _ _ _ Hat) as [->|Hat']; [done|]. by eapply H7.
  - intros l' x Hx. exists x. split; [by apply Hold|apply notif_goes_on_refl].
  - unfold there, w'. simpl. rewrite notif_at_insert, decide_True by done. by eexists.
Qed.

Lemma alloc_then {A} {np : bool} pre (d : NData) (k : loc → st NW nt_error A) :
  (∀ l, nt_spec np (there l) (k l)) → nt_spec np pre (let$ l := alloc_notification d in k l).
Proof.
  intros Hk. apply (nt_spec_bind _ there); [| |exact Hk].
  - intros w Hok _. unfold alloc_notification. destruct (alloc_ok w (mkBase "" "" None) d Hok) as (? & ? & _). done.
  - intros w w' l Hok Hok' Hon _ H. unfold alloc_notification in H. injection H as <- <-. by apply (alloc_ok w).
Qed.

Lemma Notify_spec {np : bool} e l : nt_spec np (there l) (Notify uuid_V5 instanceUUID e l).
Proof. apply nt_spec_bind_lasting; [apply there_lasting|apply save_spec|intros _; apply nt_spec_ret]. Qed.

(** *** The operations *)

Lemma state_advances_refl a : state_advances a a.
Proof. by right. Qed.

(** Changes of the fields that are not the channels. *)
Lemma put_same_spec {np : bool} (pre : NW → Prop) (l : loc) (b0 b : Base) (n0 n : Notification) :
  notif_goes_on (b0, n0) (b, n) → channels n = channels n0 → (belongsTo n = belongsTo n0 ∨ belongsTo n = None) →
  nt_spec np (λ w, pre w ∧ is_at l (b0, n0) w) (put_notif l b n).
Proof. intros Hon Hch Hb. eapply nt_spec_weaken; [|apply nt_spec_put]. intros w Hok [_ Hat]. by eapply may_put_same. Qed.

Lemma goes_on_same (b : Base) (n n' : Notification) : n_data n' = n_data n → notif_goes_on (b, n) (b, n').
Proof. intros E. split; [done|]. split; [done|]. split; simpl; rewrite E; [done|by right]. Qed.

(** Two steps, the second of which needs only what lasts. *)
Lemma then_lasting {A B} {np : bool} (pre pre' : NW → Prop) (m : st NW nt_error A) (k : A → st NW nt_error B) :
  nt_spec np pre m → (∀ w, pre w → pre' w) → lasting pre' → (∀ a, nt_spec np pre' (k a)) → nt_spec np pre (st_bind m k).
Proof. intros Hm Hp Hl Hk. apply (nt_spec_bind pre (λ _, pre')); [done| |done]. intros w w' a _ _ Hon Hw _. eapply Hl; [exact Hon|]. by apply Hp. Qed.

Lemma SetActionFunction_spec {np : bool} l fn : nt_spec np (there l) (SetActionFunction l fn).
Proof.
  apply nt_spec_lock; [done|]. apply nt_spec_read; [done|]. intros [b n].
  apply (then_lasting _ (λ _, True)); [|done|done|intros _; apply nt_spec_ret].
  apply put_same_spec; [by apply goes_on_same|done|by left].
Qed.

(** A channel that is made is not used elsewhere. *)
Lemma new_channel_spec {np : bool} l b n (n' : nat → Notification) :
  (∀ c, n_data (n' c) = n_data n ∧ belongsTo (n' c) = belongsTo n ∧ channels (n' c) ≡ₚ c :: channels n) →
  nt_spec np (λ w, there l w ∧ is_at l (b, n) w) (let$ c := make_channel in let$ _ := put_notif l b (n' c) in st_ret c).
Proof.
  intros Hn. apply (nt_spec_bind _ (λ c, may_put l b (n' c))).
  - intros w Hok _. unfold make_channel. destruct (notif_ok_rest w (λ s, set_next (S (nt_next s)) s)) as [? ?]; [|done|done].
    intros s. simpl. split; [done|]. split; [lia|done].
  - intros w w' c Hok Hok' _ [_ Hat] H. unfold make_channel in H. injection H as <- <-. destruct (Hn (nt_next w.2)) as (Hd & Hb & Hch).
    exists b, n. split; [done|]. split; [by apply goes_on_same|]. rewrite Hch. split; [|split].
    + apply NoDup_cons. split; [|by eapply ok_two]. intros Hc. destruct (ok_channels _ Hok l b n _ Hat Hc). lia.
    + intros c. rewrite Hch, elem_of_cons. intros [->|Hc]; [|by left]. right. simpl. split; [lia|].
      split; [intros Hc; pose proof (ok_closed _ Hok _ Hc); lia|].
      intros l' b' n'' Hat' Hc. destruct (ok_channels _ Hok l' b' n'' _ Hat' Hc). lia.
    + intros m. rewrite Hb. by left.
  - intros c. apply (then_lasting _ (λ _, True)); [apply nt_spec_put|done|done|intros _; apply nt_spec_ret].
Qed.

Lemma Response_spec {np : bool} l : nt_spec np (there l) (Response l).
Proof.
  apply nt_spec_lock; [done|]. apply nt_spec_read; [done|]. intros [b n]. destruct (actionTrigger n) as [c|] eqn:E; [apply nt_spec_ret|].
  apply (new_channel_spec l b n). intros c. split; [done|]. split; [done|]. unfold channels. by rewrite E.
Qed.

Lemma Expired_spec {np : bool} l : nt_spec np (there l) (Expired l).
Proof.
  apply nt_spec_lock; [done|]. apply nt_spec_read; [done|]. intros [b n]. destruct (expiredTrigger n) as [c|] eqn:E; [apply nt_spec_ret|].
  apply (new_channel_spec l b n). intros c. split; [done|]. split; [done|]. unfold channels. rewrite E. simpl.
  by rewrite app_nil_r, (Permutation_app_comm _ [c]).
Qed.

Lemma Update_spec {np : bool} e l expires :
  nt_spec np (saved l) (Notification_Update uuid_V5 instanceUUID e l expires).
Proof.
  apply nt_spec_bind_lasting; [apply saved_lasting| |].
  - apply nt_spec_lock; [done|]. apply nt_spec_read; [intros w _; apply saved_there|]. intros [b n].
    destruct (negb _); [apply nt_spec_ret|]. destruct (meta b) as [m|] eqn:Hm.
    + destruct (_ <? _); [apply nt_spec_ret|]. apply (then_lasting _ (λ _, True)); [|done|done|intros _; apply nt_spec_ret].
      apply put_same_spec; [|done|by left]. split; [done|]. split; [done|]. split; [done|apply state_advances_refl].
    + intros w Hok [(b' & n' & Hat & [m Hm']) Hat']. exfalso. unfold is_at in Hat'. congruence.
  - intros []; [|apply nt_spec_ret]. eapply nt_spec_weaken; [|apply save_spec]. intros w _. apply saved_there.
Qed.

(** A call into the modules that registers none of them away. *)
Lemma lift_mods_spec {np : bool} (pre : NW → Prop) (f : ModSys → go disabled ModSys) :
  (∀ s s', f s = Ret s' → dom (modules s) ⊆ dom (modules s')) →
  (∀ w, notif_ok w → pre w → np = true → ∃ s', f (nt_mods w.2) = Ret s') → nt_spec np pre (lift_mods f).
Proof.
  intros Hdom Hret w Hok Hp. unfold lift_mods. destruct (f (nt_mods w.2)) as [s'|err|] eqn:E; simpl.
  - apply Hdom in E. destruct Hok as [H1 H2 H3 H4 H5 H6 H7 H8]. split; [split; try done|split; [split; [|done]|done]]; simpl.
    + intros l b n m Hat Hm. apply elem_of_dom, E, elem_of_dom. by eapply H7.
    + intros l x Hx. exists x. split; [done|apply notif_goes_on_refl].
  - split; [done|]. split; [reflexivity|]. intros Hnp. destruct (Hret w Hok Hp Hnp) as [s' ?]. congruence.
  - split; [done|]. split; [reflexivity|]. intros Hnp. destruct (Hret w Hok Hp Hnp) as [s' ?]. congruence.
Qed.

Lemma Resolve_Ret (id m : string) (s : ModSys) : is_Some (modules s !! m) → ∃ s', Resolve id m s = Ret s'.
Proof. intros [x Hx]. unfold Resolve. rewrite Hx. destruct (_ && _); by eexists. Qed.

Lemma modules_StartWorker (m : string) (x : work) (s : ModSys) : modules (StartWorker m x s) = modules s.
Proof. done. Qed.

Lemma Resolve_dom (id m : string) (s s' : ModSys) : Resolve id m s = Ret s' → dom (modules s) ⊆ dom (modules s').
Proof.
  unfold Resolve, notifyOfChange. intros H. destruct (modules s !! m) as [x|] eqn:Hx; [|done].
  destruct (_ && _) in H; [by simplify_eq|]. injection H as <-.
  destruct (_ && _); destruct (failureUpdateNotifyFuncReady _); rewrite ?modules_StartWorker; simpl; rewrite dom_insert; set_solver.
Qed.

Lemma resolveModuleFailure_spec {np : bool} l : nt_spec np (there l) (resolveModuleFailure l).
Proof.
  apply nt_spec_read; [done|]. intros [b n]. destruct (belongsTo n) as [m|] eqn:Hb; [|apply nt_spec_ret].
  apply (nt_spec_bind _ (λ _ w, there l w ∧ is_at l (b, n) w)).
  - apply lift_mods_spec; [apply Resolve_dom|]. intros w Hok [_ Hat] _. apply Resolve_Ret. by eapply ok_belongs.
  - intros w w' [] _ _ _ Hat H. unfold lift_mods in H. destruct (Resolve _ _ _); by simplify_eq.
  - intros _. apply put_same_spec; [by apply goes_on_same|done|by right].
Qed.

(** After a put the notification is there. *)
Lemma put_then {A} {np : bool} (pre : NW → Prop) l b n (k : unit → st NW nt_error A) :
  nt_spec np pre (put_notif l b n) → nt_spec np (is_at l (b, n)) (k tt) → nt_spec np pre (st_bind (put_notif l b n) k).
Proof.
  intros Hp Hk. apply (nt_spec_bind _ (λ _, is_at l (b, n))); [done| |by intros []].
  intros w w' [] _ _ _ _ H. unfold put_notif, st_mod in H. injection H as <-. unfold is_at. simpl. by rewrite notif_at_insert, decide_True.
Qed.

Lemma is_at_there l x w : is_at l x w → there l w.
Proof. intros H. by exists x. Qed.

Lemma delete_locked_spec {np : bool} e l push : nt_spec np (saved l) (delete_locked e l push).
Proof.
  apply nt_spec_read; [intros w _; apply saved_there|]. intros [b n]. destruct (meta b) as [m|] eqn:Hm.
  - apply put_then.
    { apply put_same_spec; [|done|by left]. split; [by intros _; eexists|]. split; [done|]. split; [done|apply state_advances_refl]. }
    apply (then_lasting _ (there l)); [|apply is_at_there|apply there_lasting|].
    + destruct (expiredTrigger n) as [c|] eqn:E; [|apply nt_spec_ret]. intros w Hok Hat. pose proof (ok_two _ Hok l _ _ Hat) as Hnd.
      unfold channels in Hnd. rewrite E in Hnd. apply NoDup_app in Hnd as (Hnd & Hdisj & _).
      apply (nt_spec_close (np := np) l c _ n); [| | |done|done|done|done]; unfold channels; simpl.
      * rewrite E. apply elem_of_app. right. by left.
      * intros c'. rewrite app_nil_r, E. intros Hc'. split; [by apply elem_of_app; left|]. intros ->. apply (Hdisj c Hc'). by left.
      * by rewrite app_nil_r.
    + intros _. apply nt_spec_bind_lasting; [apply there_lasting|destruct push; [apply nt_spec_push|apply nt_spec_ret]|].
      intros _. apply resolveModuleFailure_spec.
  - intros w Hok [(b' & n' & Hat & [m Hm']) Hat']. exfalso. unfold is_at in Hat'. congruence.
Qed.

(** Forgetting an id. *)
Lemma notif_ok_forget w id : notif_ok w → notif_ok (w.1, set_nots (delete id (nots w.2)) w.2) ∧ goes_on w (w.1, set_nots (delete id (nots w.2)) w.2).
Proof.
  intros [H1 H2 H3 H4 H5 H6 H7 H8]. split; [split; try done|]; simpl.
  - intros id' l. rewrite lookup_delete_Some. intros [_ Hl]. by apply H1.
  - split; [|done]. intros l x Hx. exists x. split; [done|apply notif_goes_on_refl].
Qed.

Lemma Notification_delete_spec {np : bool} e l push : nt_spec np (saved l) (Notification_delete e l push).
Proof.
  intros w Hok Hp. unfold Notification_delete. destruct (saved_there _ _ Hp) as [[b n] Hat]. rewrite Hat.
  destruct (nt_spec_lock (np := np) (saved l) l (delete_locked e l push) ltac:(done) (delete_locked_spec e l push) w Hok Hp) as (Hok1 & Hon & Hnp).
  destruct (with_lock l _ w) as [w1 r] eqn:E. simpl in *.
  destruct (notif_ok_forget w1 (n_EventID (n_data n)) Hok1) as [Hok2 Hon2].
  destruct r as [[]|[]|]; simpl; (split; [done|]); (split; [done || by etrans|done]).
Qed.

Lemma dismiss_spec {np : bool} l : nt_spec np (there l) (dismiss l).
Proof.
  apply nt_spec_lock; [done|]. apply nt_spec_read; [done|]. intros [b n]. destruct (actionTrigger n) as [c|] eqn:E; [|apply nt_spec_ret].
  intros w Hok [_ Hat]. pose proof (ok_two _ Hok l _ _ Hat) as Hnd. unfold channels in Hnd. rewrite E in Hnd.
  apply NoDup_cons in Hnd as [Hc Hnd]. apply (nt_spec_close (np := np) l c b n); [| | |done|done|done|done]; unfold channels; simpl.
  - rewrite E. by left.
  - intros c' Hc'. rewrite E. split; [by right|]. intros ->. by apply Hc.
  - done.
Qed.

Lemma Notification_Delete_spec {np : bool} e l : nt_spec np (saved l) (Notification_Delete e l).
Proof.
  apply nt_spec_bind_lasting; [apply saved_lasting| |intros _; apply Notification_delete_spec].
  eapply nt_spec_weaken; [|apply dismiss_spec]. intros w _. apply saved_there.
Qed.

(** What is stored is saved. *)
Lemma nt_spec_stored {A} {np : bool} pre (id : string) (k : option loc → st NW nt_error A) :
  nt_spec np pre (k None) → (∀ l, nt_spec np (λ w, pre w ∧ saved l w ∧ nots w.2 !! id = Some l) (k (Some l))) →
  nt_spec np pre (let$ n := notifications_Get id in k n).
Proof.
  intros Hn Hs. apply nt_spec_get; [done|]. intros [l|].
  - eapply nt_spec_weaken; [|apply (Hs l)]. intros w Hok [Hp [= E]]. split; [done|]. split; [by eapply nots_saved|done].
  - eapply nt_spec_weaken; [|apply Hn]. by intros w _ [Hp _].
Qed.

Lemma notifications_Delete_spec {np : bool} e id : nt_spec np (λ _, True) (notifications_Delete e id).
Proof.
  apply nt_spec_stored; [apply nt_spec_ret|]. intros l. eapply nt_spec_weaken; [|apply Notification_Delete_spec]. by intros w _ (_ & ? & _).
Qed.

(** Sending on an open channel. *)
Lemma send_spec {np : bool} l b n c id heard : c ∈ channels n → nt_spec np (is_at l (b, n)) (send_channel c id heard).
Proof.
  intros Hc w Hok Hat. destruct (ok_channels _ Hok l b n c Hat Hc) as [_ Hcl].
  unfold send_channel, st_bind, st_get. destruct (decide (c ∈ nt_closed w.2)); [done|].
  unfold on_nsys, st_mod. destruct (notif_ok_rest w (λ s, set_sent (nt_sent s ++ replicate heard (c, id))%list s)); done.
Qed.

Lemma on_nsys_bind {A} {np : bool} (pre : NW → Prop) (f : NSys → NSys) (k : unit → st NW nt_error A) :
  (∀ w, notif_ok w → pre w → notif_ok (w.1, f w.2) ∧ goes_on w (w.1, f w.2)) → (∀ w, pre w → pre (w.1, f w.2)) →
  nt_spec np pre (k tt) → nt_spec np pre (st_bind (on_nsys f) k).
Proof.
  intros Hf Hp Hk. apply (nt_spec_bind _ (λ _, pre)); [| |by intros []].
  - intros w Hok Hw. destruct (Hf w Hok Hw). done.
  - intros w w' [] _ _ _ Hw H. unfold on_nsys, st_mod in H. injection H as <-. by apply Hp.
Qed.

(** The action function starts for a notification that was active till now. *)
Lemma start_ok w l b n b1 n1 fn :
  notif_ok w → notif_at w.1 l = Some (b, n) → n_State (n_data n) = State_Active → may_put l b1 n1 w →
  (2 ≤ state_rank (n_State (n_data n1)))%nat →
  let w' := (<[l := mkObject b1 (NNotification n1)]> w.1, set_started (nt_started w.2 ++ [(fn, l)])%list w.2) in
  notif_ok w' ∧ goes_on w w'.
Proof.
  intros Hok Hat Hact Hput Hr w'. destruct (put_notif_ok l b1 n1 w Hok Hput) as [Hok1 Hon1].
  split; [|destruct Hon1; by split]. destruct Hok1 as [H1 H2 H3 H4 H5 H6 H7 H8]. split; try done; simpl.
  - intros fn' l'. rewrite elem_of_app, list_elem_of_singleton. intros [Hs|[= -> ->]]; [by eapply H5|].
    exists b1, n1. split; [by rewrite notif_at_insert, decide_True|done].
  - rewrite fmap_app. apply NoDup_app. split; [apply (ok_once _ Hok)|]. split; [|apply NoDup_singleton].
    intros l' Hl' ->%list_elem_of_singleton. apply list_elem_of_fmap in Hl' as ([fn' l'] & E & Hs). simpl in E. subst.
    destruct (ok_started _ Hok _ _ Hs) as (b' & n' & Hat' & Hr'). simplify_eq. rewrite Hact in Hr'. vm_compute in Hr'. lia.
Qed.

Lemma selectAndExecuteAction_spec {np : bool} e l id : nt_spec np (there l) (selectAndExecuteAction e l id).
Proof.
  apply nt_spec_read; [done|]. intros [b n]. destruct (String.eqb_spec (n_State (n_data n)) State_Active) as [Hact|]; [|apply nt_spec_ret].
  cbv beta iota zeta delta [negb]. set (n1 := with_data _ n).
  assert (notif_goes_on (b, n) (b, n1)) as Hon1.
  { split; [done|]. split; [done|]. split; [done|]. simpl. rewrite Hact. left. vm_compute. lia. }
  (* the rest after the action function was started *)
  set (rest := let$ _ := match actionTrigger n1 with Some c => send_channel c id (ne_heard e) | None => st_ret tt end in _).
  assert (nt_spec np (is_at l (b, n1)) rest) as Hrest.
  { apply (nt_spec_bind _ (λ _, is_at l (b, n1))).
    - destruct (actionTrigger n1) as [c|] eqn:E; [|apply nt_spec_ret]. apply (send_spec l b n1). unfold channels. rewrite E. by left.
    - intros w w' [] _ _ _ Hat H. destruct (actionTrigger n1) as [c|]; [|by injection H as <-].
      unfold send_channel, st_bind, st_get in H. destruct (decide _); [done|]. unfold on_nsys, st_mod in H. by injection H as <-.
    - intros _. destruct (bool_decide _ || _); [|apply nt_spec_ret].
      apply put_then; [|eapply nt_spec_weaken; [|apply resolveModuleFailure_spec]; intros w _; apply is_at_there].
      eapply nt_spec_weaken; [|apply (put_same_spec (λ _, True) l b b n1)]; [by intros w _ Hat| |done|by left].
      split; [done|]. split; [done|]. split; [done|]. left. vm_compute. lia. }
  destruct (actionFunction n1) as [fn|] eqn:Hfn.
  - intros w Hok [_ Hat]. unfold put_notif, on_nsys, st_bind at 1, st_mod at 1, st_bind at 1, st_mod at 1. simpl.
    destruct (start_ok w l b n b n1 fn Hok Hat Hact) as [Hok1 Hon']; [by eapply may_put_same; eauto|vm_compute; lia|].
    destruct (Hrest _ Hok1) as (Hok2 & Hon2 & Hnp); [unfold is_at; simpl; by rewrite notif_at_insert, decide_True|].
    split; [done|]. split; [by etrans|done].
  - apply put_then; [by apply put_same_spec; [|done|by left]|]. exact Hrest.
Qed.

Lemma True_lasting : lasting (λ _, True).
Proof. done. Qed.

Lemma mirror_spec {np : bool} e moduleFailure id title msg :
  nt_spec np (λ _, True) (mirrorModuleStatus uuid_V5 instanceUUID e moduleFailure id title msg).
Proof.
  unfold mirrorModuleStatus. destruct (String.eqb id ""); [apply nt_spec_ret|]. apply nt_spec_stored.
  { destruct (_ =? _); [apply nt_spec_ret|]. apply alloc_then. intros l.
    apply nt_spec_bind_lasting; [apply there_lasting|apply Notify_spec|intros _; apply nt_spec_ret]. }
  intros l. destruct (negb _); [apply nt_spec_ret|].
  apply nt_spec_read; [by intros w _ (_ & ? & _); apply saved_there|]. intros [b n]. simpl. destruct (meta b) as [m|] eqn:Hm.
  - destruct (IsDeleted m); [apply nt_spec_ret|].
    apply (then_lasting _ (saved l)); [|by intros w ((_ & ? & _) & _)|apply saved_lasting|intros _; apply Notification_Delete_spec].
    eapply (nt_spec_weaken (there l)); [by intros w _ ((_ & ? & _) & _); apply saved_there|].
    apply nt_spec_lock; [done|]. apply nt_spec_read; [done|]. intros [b' n']. apply put_same_spec; [by apply goes_on_same|done|by right].
  - intros w Hok ((_ & (b' & n' & Hat & [m Hm']) & _) & Hat'). exfalso. unfold is_at in Hat'. congruence.
Qed.

Lemma on_modules_spec {np : bool} (pre : NW → Prop) e (f : ModSys → go disabled ModSys) :
  (∀ s s', f s = Ret s' → dom (modules s) ⊆ dom (modules s')) →
  (∀ w, notif_ok w → pre w → np = true → ∃ s', f (nt_mods w.2) = Ret s') → nt_spec np pre (on_modules uuid_V5 instanceUUID e f).
Proof.
  intros Hdom Hret. apply nt_spec_get; [done|]. intros before.
  apply (then_lasting _ (λ _, True)); [|done|done|].
  { eapply nt_spec_weaken; [|by apply lift_mods_spec]. by intros w _ [? _]. }
  intros _. apply nt_spec_get; [done|]. intros after. eapply (nt_spec_weaken (λ _, True)); [done|].
  apply nt_spec_iter; [apply True_lasting|]. intros [[[st id] title] msg] _. apply mirror_spec.
Qed.

Lemma on_module_dom (m : string) (g : GoModule → go disabled GoModule) (s s' : ModSys) :
  on_module m g s = Ret s' → dom (modules s) ⊆ dom (modules s').
Proof.
  unfold on_module. destruct (modules s !! m) as [x|] eqn:Hx; [|done]. destruct (g x) as [x'|err|]; simpl; [|done..].
  intros [= <-]. simpl. rewrite dom_insert. set_solver.
Qed.

Lemma setFailure_dom st id title msg m (s s' : ModSys) : setFailure st id title msg m s = Ret s' → dom (modules s) ⊆ dom (modules s').
Proof.
  unfold setFailure. destruct (modules s !! m) as [x|] eqn:Hx; [|done]. intros H.
  set (s1 := notifyOfChange m _) in H.
  assert (dom (modules s) ⊆ dom (modules s1)) as Hs1.
  { unfold s1, notifyOfChange. destruct (_ && _); rewrite ?modules_StartWorker; simpl; rewrite dom_insert; set_solver. }
  destruct (failureUpdateNotifyFuncReady s1); [|by injection H as <-]. apply on_module_dom in H. etrans; [exact Hs1|]. exact H.
Qed.

(** A notification is attached to a module that is registered; what the module
    reports may fail. *)
Lemma AttachToModule_spec e l m : nt_spec false (λ w, there l w ∧ is_Some (modules (nt_mods w.2) !! m)) (AttachToModule uuid_V5 instanceUUID e l m).
Proof.
  apply nt_spec_lock; [done|]. apply nt_spec_read; [by intros w _ [? _]|]. intros [b n].
  cbv beta iota zeta. destruct (negb _); [apply nt_spec_ret|]. destruct (bool_decide _); [apply nt_spec_ret|].
  apply (then_lasting _ (λ _, True)); [|done|done|].
  - eapply nt_spec_weaken; [|apply nt_spec_put]. intros w Hok ([_ Hm] & Hat). exists b, n. split; [done|]. split; [by apply goes_on_same|].
    split; [exact (ok_two _ Hok l b n Hat)|]. split; [by left|]. intros m' [= <-]. by right.
  - intros _. destruct (module_status (n_Type (n_data n)) (n_Message (n_data n))) as [status msg]. apply on_modules_spec; [apply setFailure_dom|done].
Qed.

(** *** The cleaner and the database *)

Definition all_saved (L : list loc) (w : NW) : Prop := ∀ l, l ∈ L → saved l w.

Lemma all_saved_lasting L : lasting (all_saved L).
Proof. intros w w' Hon H l Hl. eapply saved_lasting; [done|by apply H]. Qed.

Lemma copy_saved w : notif_ok w → all_saved (order (map_to_list (nots w.2)).*2) w.
Proof.
  intros Hok l. rewrite order_perm, list_elem_of_fmap. intros ([id l'] & -> & H%elem_of_map_to_list). by eapply nots_saved.
Qed.

Lemma isExpired_spec {np : bool} e l : nt_spec np (there l) (isExpired e l).
Proof. apply nt_spec_lock; [done|]. apply nt_spec_read; [done|]. intros x. apply nt_spec_ret. Qed.

Lemma deleteExpiredNotifs_spec {np : bool} e : nt_spec np (λ _, True) (deleteExpiredNotifs order e).
Proof.
  apply nt_spec_get; [done|]. intros L. eapply (nt_spec_weaken (all_saved L)).
  { intros w Hok [_ [= <-]]. by apply copy_saved. }
  apply nt_spec_iter; [apply all_saved_lasting|]. intros l Hl.
  eapply (nt_spec_weaken (saved l)); [by intros w _ H; apply H|]. apply nt_spec_bind_lasting; [apply saved_lasting| |].
  - eapply nt_spec_weaken; [|apply isExpired_spec]. intros w _. apply saved_there.
  - intros []; [apply Notification_delete_spec|apply nt_spec_ret].
Qed.

Lemma NtStorage_Get_spec {np : bool} key : nt_spec np (λ _, True) (NtStorage_Get key).
Proof.
  unfold NtStorage_Get. destruct (all_key key); [|apply nt_spec_fail]. apply nt_spec_stored; [apply nt_spec_fail|intros l; apply nt_spec_ret].
Qed.

Lemma processQuery_no_panic (h : nheap) (q : Query R) (L : list loc) (s : NSys) : all_saved L (h, s) → processQuery accessor_of h q L ≠ Panic.
Proof.
  induction L as [|l L IH]; intros Hs; simpl; [done|]. destruct (Hs l) as (b & n & Hat & [m Hm]); [by left|]. simpl in Hat.
  unfold inQuery. rewrite Hat, Hm. simpl. specialize (IH (λ l' Hl', Hs l' (list_elem_of_further _ _ _ Hl'))).
  by destruct (processQuery _ h q L).
Qed.

Lemma NtStorage_Query_spec {np : bool} (q : Query R) local internal : nt_spec np (λ _, True) (NtStorage_Query accessor_of order q local internal).
Proof.
  apply nt_spec_get; [done|]. intros L w Hok [_ [= <-]]. unfold st_get. split; [done|]. split; [reflexivity|]. intros _.
  destruct w as [h s]. by apply (processQuery_no_panic h q _ s), copy_saved.
Qed.

Lemma state_below_executed s : s ≠ State_Executed → state_advances s State_Executed.
Proof.
  intros Hne. left. unfold state_rank. destruct (String.eqb s ""); [vm_compute; lia|]. destruct (String.eqb s State_Active); [vm_compute; lia|].
  destruct (String.eqb_spec s State_Executed); [done|]. vm_compute. lia.
Qed.

Lemma applyUpdate_spec {np : bool} e l key : nt_spec np (there l) (applyUpdate uuid_V5 instanceUUID e l key).
Proof.
  apply nt_spec_stored.
  { apply (nt_spec_bind _ (λ a w, there l w ∧ a = None)); [apply nt_spec_ret| |].
    - intros w w' a _ _ _ Hl [= <- <-]. done.
    - intros a. destruct a as [ex|]; [by intros w Hok [_ ?]|]. eapply (nt_spec_weaken (there l)); [by intros w _ [? _]|].
      apply nt_spec_bind_lasting; [apply there_lasting|apply save_spec|intros _; apply nt_spec_ret]. }
  intros ex. set (both := λ w, there l w ∧ saved ex w).
  assert (lasting both) as Hboth.
  { intros w w' Hon [H1 H2]. split; [by eapply there_lasting|by eapply saved_lasting]. }
  eapply (nt_spec_weaken both); [by intros w _ (? & ? & _)|].
  apply (nt_spec_bind _ (λ a w, both w ∧ (a = None ∨ a = Some ex))).
  { apply nt_spec_read; [intros w _ [_ ?]; by apply saved_there|]. intros [b n]. simpl. destruct (meta b) as [m|] eqn:Hm; [apply nt_spec_ret|].
    intros w Hok [[_ (b' & n' & Hat & [m Hm'])] Hat']. exfalso. unfold is_at in Hat'. congruence. }
  { intros w w' a Hok Hok' Hon Hb H. split; [by eapply Hboth|]. unfold st_bind, the_notif, st_get in H.
    destruct (notif_at w.1 ex) as [x|]; [|done]. destruct (meta x.1) as [m|]; [|done]. injection H as <- <-. destruct (IsDeleted m); eauto. }
  intros [ex'|].
  2:{ eapply (nt_spec_weaken (there l)); [by intros w _ [[? _] _]|].
      apply nt_spec_bind_lasting; [apply there_lasting|apply save_spec|intros _; apply nt_spec_ret]. }
  intros w Hok [Hb [?|[= ->]]]; [done|]. revert w Hok Hb. change (nt_spec np both (let$ do_save := with_lock ex (
        let$ x := the_notif ex in
        let$ update := the_notif l in
        let '(b, n) := x in
        let d := n_data update.2 in
        if String.eqb (n_State (n_data n)) State_Executed then st_fail NtAlreadyExecuted
        else
          let external := String.eqb (n_State d) State_Executed in
          let n := if external then
                     with_data (λ c, let c := set_state State_Executed c in
                                     if String.eqb (n_SelectedActionID d) "" then c else set_selected (n_SelectedActionID d) c) n
                   else n in
          let$ _ := put_notif ex b n in
          if negb (String.eqb (n_SelectedActionID d) "") && String.eqb (n_State (n_data n)) State_Active then
            let$ _ := selectAndExecuteAction e ex (n_SelectedActionID d) in st_ret true
          else st_ret external) in
      let$ _ := (if do_save : bool then save uuid_V5 instanceUUID e ex false else st_ret tt) in
      st_ret ex)).
  assert (∀ w, both w → there ex w) as Hex by (intros w [_ ?]; by apply saved_there).
  apply nt_spec_bind_lasting; [done| |].
  - apply nt_spec_lock; [done|]. apply nt_spec_read; [intros w _; apply Hex|]. intros [b n].
    apply nt_spec_read; [by intros w _ [[? _] _]|]. intros [b' n'].
    destruct (String.eqb_spec (n_State (n_data n)) State_Executed) as [|Hne]; [apply nt_spec_fail|].
    cbv beta iota zeta. match goal with |- context [put_notif ex b ?x] => set (n1 := x) end.
    apply put_then.
    { eapply (nt_spec_weaken (λ w, True ∧ is_at ex (b, n) w)); [by intros w _ [[_ ?] _]|].
      apply put_same_spec; unfold n1; destruct (String.eqb _ State_Executed); try done; try (by left); [|apply notif_goes_on_refl].
      split; [done|]. split; [done|]. simpl. destruct (String.eqb _ ""); simpl; (split; [done|by apply state_below_executed]). }
    destruct (_ && _); [|apply nt_spec_ret]. eapply (nt_spec_weaken (there ex)); [intros w _; apply is_at_there|].
    apply nt_spec_bind_lasting; [apply there_lasting|apply selectAndExecuteAction_spec|intros _; apply nt_spec_ret].
  - intros do_save. eapply (nt_spec_weaken (there ex)); [intros w _; apply Hex|].
    apply nt_spec_bind_lasting; [apply there_lasting|destruct do_save; [apply save_spec|apply nt_spec_ret]|intros _; apply nt_spec_ret].
Qed.

(** A record of any kind is put: its lock is held. *)
Lemma NtStorage_Put_spec {np : bool} e r :
  (∀ b format data, np = true → Unwrap (T := NData) (X := X) (Wrapped (mkWrapper b format data)) (mkBase "" "" None) ≠ Panic) →
  nt_spec np (λ w, is_Some (w.1 !! r)) (NtStorage_Put uuid_V5 instanceUUID e r).
Proof.
  intros Hload. apply nt_spec_lock; [done|]. apply nt_spec_get; [done|]. intros key.
  apply (nt_spec_bind _ there).
  - intros w Hok [[o Ho] _]. unfold EnsureNotification. rewrite Ho.
    destruct (o_value o) as [n|format data|]; [split; [done|]; split; [reflexivity|done]| |split; [done|]; split; [reflexivity|done]].
    specialize (Hload (o_base o) format data). destruct (Unwrap _ _) as [[b d|w']|err|].
    + destruct (alloc_ok w b d Hok) as (? & ? & _). done.
    + split; [done|]. split; [reflexivity|done].
    + split; [done|]. split; [reflexivity|done].
    + split; [done|]. split; [reflexivity|]. intros Hnp. by destruct (Hload Hnp).
  - intros w w' l Hok _ _ [[o Ho] _] H. unfold EnsureNotification in H. rewrite Ho in H.
    destruct (o_value o) as [n|format data|] eqn:Hv; [|destruct (Unwrap _ _) as [[b d|w2]|err|]|]; simplify_eq.
    + exists (o_base o, n). unfold notif_at. by rewrite Ho, Hv.
    + by apply (alloc_ok w b d Hok).
  - intros l. destruct (all_key key); [apply applyUpdate_spec|apply nt_spec_fail].
Qed.

Lemma NtStorage_Delete_spec {np : bool} e key : nt_spec np (λ _, True) (NtStorage_Delete e key).
Proof.
  unfold NtStorage_Delete. destruct (all_key key); [|apply nt_spec_fail]. apply nt_spec_stored; [apply nt_spec_fail|].
  intros l. eapply nt_spec_weaken; [|apply Notification_delete_spec]. by intros w _ (_ & ? & _).
Qed.

(** *** What deleting does *)

(** The state after a change that only concerns one notification. *)
Definition only_changes (l : loc) (b : Base) (n : Notification) (w w' : NW) : Prop :=
  w'.1 = <[l := mkObject b (NNotification n)]> w.1 ∧ nots w'.2 = nots w.2 ∧ nt_held w'.2 = nt_held w.2.

Lemma resolveModuleFailure_result l b n w :
  notif_ok w → notif_at w.1 l = Some (b, n) →
  ∃ w' n', resolveModuleFailure l w = (w', Ret tt) ∧ n_data n' = n_data n ∧ (w' = w ∨ only_changes l b n' w w').
Proof.
  intros Hok Hat. unfold resolveModuleFailure, st_bind at 1, the_notif, st_get. rewrite Hat. destruct (belongsTo n) as [m|] eqn:Hb.
  - destruct (Resolve_Ret (n_EventID (n_data n)) m (nt_mods w.2)) as [s' Hs']; [by eapply ok_belongs|].
    unfold st_bind, lift_mods. rewrite Hs'. unfold put_notif, st_mod. eexists _, _. split; [done|]. split; [|by right]. done.
  - exists w, n. split; [done|]. split; [done|by left].
Qed.

Lemma close_result w l b n c :
  notif_ok w → notif_at w.1 l = Some (b, n) → c ∈ channels n → close_channel c w = ((w.1, set_closed (c :: nt_closed w.2) w.2), Ret tt).
Proof.
  intros Hok Hat Hc. destruct (ok_channels _ Hok l b n c Hat Hc) as [_ Hcl]. unfold close_channel, st_bind, st_get.
  by destruct (decide (c ∈ nt_closed w.2)).
Qed.

Lemma delete_locked_result e l push w b n m :
  notif_ok w → notif_at w.1 l = Some (b, n) → meta b = Some m →
  ∃ w' n', delete_locked e l push w = (w', Ret tt) ∧ n_data n' = n_data n ∧
    only_changes l (SetMeta (Some (Meta_Delete (ne_now e) m)) b) n' w w'.
Proof.
  intros Hok Hat Hm. set (b' := SetMeta _ b).
  assert (∀ w1 n1, notif_ok w1 → notif_at w1.1 l = Some (b', n1) → n_data n1 = n_data n → only_changes l b' n1 w w1 →
    ∃ w' n', (let$ _ := (if push then PushNotification l else st_ret tt) in resolveModuleFailure l) w1 = (w', Ret tt) ∧
      n_data n' = n_data n ∧ only_changes l b' n' w w') as Hrest.
  { intros w1 n1 Hok1 Hat1 Hd1 (G1 & G2 & G3).
    set (w2 := if push then (w1.1, set_pushed (nt_pushed w1.2 ++ option_list (pair l <$> w1.1 !! l))%list w1.2) else w1).
    assert ((if push then PushNotification l else st_ret tt) w1 = (w2, Ret tt)) as E by (unfold w2; by destruct push).
    unfold st_bind at 1. rewrite E.
    assert (notif_ok w2 ∧ w2.1 = w1.1 ∧ nots w2.2 = nots w1.2 ∧ nt_held w2.2 = nt_held w1.2) as (Hok2 & F1 & F2 & F3).
    { unfold w2. destruct push; [|done]. split; [|done]. by apply (notif_ok_rest w1 (λ s, set_pushed (nt_pushed s ++ option_list (pair l <$> w1.1 !! l))%list s)). }
    destruct (resolveModuleFailure_result l b' n1 w2 Hok2) as (w' & n' & Hr & Hd & Hc); [by rewrite F1|].
    exists w'. destruct Hc as [->|(C1 & C2 & C3)].
    - exists n1. split; [done|]. split; [done|]. split; [congruence|]. split; congruence.
    - exists n'. split; [done|]. split; [congruence|]. split; [|split; congruence].
      by rewrite C1, F1, G1, insert_insert_eq. }
  unfold delete_locked, st_bind at 1, the_notif, st_get. rewrite Hat, Hm. cbv beta iota zeta. fold b'.
  unfold st_bind at 1, put_notif at 1, st_mod at 1. set (w1 := (<[l := _]> w.1, w.2)).
  assert (notif_ok w1) as Hok1.
  { apply (put_notif_ok l b' n w Hok). eapply may_put_same; [done..| |done|by left].
    split; [by eexists|]. split; [done|]. split; [done|apply state_advances_refl]. }
  assert (notif_at w1.1 l = Some (b', n)) as Hat1 by (unfold w1; simpl; by rewrite notif_at_insert, decide_True).
  destruct (expiredTrigger n) as [c|] eqn:Hx.
  - unfold st_bind at 1. assert (c ∈ channels n) as Hc by (unfold channels; rewrite Hx; apply elem_of_app; right; by left).
    pose proof (nt_spec_close (np := false) l c b' n (mkNotification (n_data n) (belongsTo n) (actionFunction n) (actionTrigger n) None) Hc) as Hcl.
    unfold st_bind at 1 in Hcl. unfold st_bind at 1.
    rewrite (close_result w1 l b' n c Hok1 Hat1 Hc). unfold put_notif, st_mod.
    apply (Hrest _ (mkNotification (n_data n) (belongsTo n) (actionFunction n) (actionTrigger n) None)); [|simpl; by rewrite notif_at_insert, decide_True|done|].
    + destruct (Hcl) with (w := w1) as (Hok2 & _); [| |done|done|done|done|].
      * unfold channels. simpl. intros c' Hc'. rewrite app_nil_r in Hc'. split; [apply elem_of_app; by left|]. intros ->.
        pose proof (ok_two _ Hok1 l _ _ Hat1) as Hnd. unfold channels in Hnd. rewrite Hx in Hnd. apply NoDup_app in Hnd as (_ & Hd & _).
        apply (Hd c Hc'). by left.
      * pose proof (ok_two _ Hok1 l _ _ Hat1) as Hnd. unfold channels in Hnd |- *. simpl. rewrite app_nil_r. by apply NoDup_app in Hnd as (? & _).
      * rewrite (close_result w1 l b' n c Hok1 Hat1 Hc) in Hok2. exact Hok2.
    + split; [unfold w1; simpl; by rewrite insert_insert_eq|done].
  - by apply (Hrest w1 n).
Qed.

(** The id is free afterwards, the notification is marked as deleted, all else stays. *)
Lemma Notification_delete_result e l push w b n m :
  notif_ok w → nt_held w.2 = [] → notif_at w.1 l = Some (b, n) → meta b = Some m →
  ∃ w' n', Notification_delete e l push w = (w', Ret tt) ∧ n_data n' = n_data n ∧
    w'.1 = <[l := mkObject (SetMeta (Some (Meta_Delete (ne_now e) m)) b) (NNotification n')]> w.1 ∧
    nots w'.2 = delete (n_EventID (n_data n)) (nots w.2) ∧ nt_held w'.2 = [].
Proof.
  intros Hok Hheld Hat Hm. unfold Notification_delete. rewrite Hat. unfold with_lock. rewrite Hheld.
  rewrite decide_False by apply not_elem_of_nil.
  destruct (notif_ok_rest w (set_held [l]) ltac:(done) Hok) as [Hok1 _].
  destruct (delete_locked_result e l push (w.1, set_held [l] w.2) b n m Hok1 Hat Hm) as (w1 & n' & -> & Hd & H1 & H2 & _).
  eexists _, n'. split; [done|]. split; [done|]. simpl in *. by rewrite H2.
Qed.

(** The cleaner over a list of stored notifications. *)
Definition has_expired (e : NEnv) (w : NW) (l : loc) : bool :=
  match notif_at w.1 l with Some (_, n) => (0 <? n_Expires (n_data n)) && (n_Expires (n_data n) <? ne_now e) | None => false end.

Lemma isExpired_result e l w : nt_held w.2 = [] → there l w → isExpired e l w = (w, Ret (has_expired e w l)).
Proof.
  intros Hheld [[b n] Hat]. unfold isExpired, with_lock. rewrite Hheld, decide_False by apply not_elem_of_nil.
  unfold st_bind, the_notif, st_get, st_ret. simpl. unfold has_expired. rewrite Hat. destruct w as [h s]. simpl in *. subst.
  destruct s. simpl in *. by rewrite Hheld.
Qed.

Lemma deleteExpired_list e (L : list loc) w :
  notif_ok w → nt_held w.2 = [] → NoDup L → (∀ l, l ∈ L → ∃ id, nots w.2 !! id = Some l) →
  ∃ w', st_iter (λ l, let$ expired := isExpired e l in if expired : bool then Notification_delete e l true else st_ret tt) L w = (w', Ret tt) ∧
    ∀ id l, nots w'.2 !! id = Some l ↔ nots w.2 !! id = Some l ∧ ¬ (l ∈ L ∧ has_expired e w l = true).
Proof.
  revert w. induction L as [|l L IH]; intros w Hok Hheld Hnd Hin.
  { exists w. split; [done|]. intros id l. split; [|by intros [? _]]. intros H. split; [done|]. by intros [?%elem_of_nil _]. }
  apply NoDup_cons in Hnd as [Hl Hnd]. destruct (Hin l) as [id Hid]; [by left|].
  destruct (ok_nots _ Hok id l Hid) as (Hne & b & n & Hat & Hev & [m Hm] & _).
  cbn [st_iter]. unfold st_bind at 1, st_bind at 1. rewrite isExpired_result by (done || by eexists).
  destruct (has_expired e w l) eqn:Hex.
  - destruct (Notification_delete_result e l true w b n m Hok Hheld Hat Hm) as (w1 & n' & Hdel & Hd & Hw1 & Hnots & Hheld1).
    destruct (Notification_delete_spec (np := false) e l true w Hok) as (Hok1 & _); [by exists b, n|]. rewrite Hdel in Hok1 |- *. simpl in Hok1.
    assert (∀ l', l' ≠ l → has_expired e w1 l' = has_expired e w l') as Hsame.
    { intros l' Hl'. unfold has_expired. rewrite Hw1, notif_at_insert, decide_False by congruence. done. }
    destruct (IH w1 Hok1 Hheld1 Hnd) as (w' & -> & Hres).
    { intros l' Hl'. destruct (Hin l') as [id' Hid']; [by right|]. exists id'. rewrite Hnots. apply lookup_delete_Some. split; [|done].
      intros E. rewrite <- E, Hev in Hid'. rewrite Hid in Hid'. simplify_eq. }
    exists w'. split; [done|]. intros id' l'. rewrite Hres, Hnots, lookup_delete_Some, Hev, elem_of_cons. split.
    + intros [[Hne' H] Hno]. split; [done|]. intros [[->|H'] Hx].
      * apply Hne'. destruct (ok_nots _ Hok id' l H) as (_ & b' & n'' & Hat' & Hev' & _). congruence.
      * apply Hno. split; [done|]. rewrite Hsame; [done|]. by intros ->.
    + intros [H Hno]. split; [split; [|done]|].
      * intros ->. apply Hno. rewrite Hid in H. simplify_eq. by split; [left|].
      * intros [H' Hx]. apply Hno. split; [by right|]. rewrite Hsame in Hx; [done|]. by intros ->.
  - destruct (IH w Hok Hheld Hnd) as (w' & Hrun & Hres); [intros l' Hl'; apply Hin; by right|].
    exists w'. split; [exact Hrun|]. intros id' l'. rewrite Hres, elem_of_cons. split; intros [H Hno]; (split; [done|]).
    + intros [[->|H'] Hx]; [congruence|]. by apply Hno.
    + intros [H' Hx]. apply Hno. by split; [right|].
Qed.

(** A notification is stored under one id only. *)
Lemma stored_once w : notif_ok w → NoDup (map_to_list (nots w.2)).*2.
Proof.
  intros Hok. apply NoDup_fmap_2_strong; [|apply NoDup_map_to_list].
  intros [id1 l1] [id2 l2] H1%elem_of_map_to_list H2%elem_of_map_to_list E. simpl in E. subst.
  destruct (ok_nots _ Hok _ _ H1) as (_ & b & n & Hat & E1 & _). destruct (ok_nots _ Hok _ _ H2) as (_ & b' & n' & Hat' & E2 & _). congruence.
Qed.

(** *** Programs *)

(** The calls of the package, of its database, the cleaner and the modules. *)
Inductive notif_op : Type :=
| OpNotify (nType : Z) (id title msg : string) (showOnSystem : bool) (actions : list Action)
| OpNew (d : NData)
| OpRecord (b : Base) (format : Z) (data : bytes)
| OpSave (l : loc)
| OpSetActionFunction (l : loc) (fn : option nat)
| OpResponse (l : loc)
| OpExpired (l : loc)
| OpUpdate (l : loc) (expires : Z)
| OpDelete (l : loc)
| OpAttach (l : loc) (m : string)
| OpDeleteId (id : string)
| OpGet (key : string)
| OpQuery (q : Query R) (local internal : bool)
| OpPut (r : loc)
| OpDbDelete (key : string)
| OpClean
| OpFailure (status : Z) (id title msg : string) (m : string)
| OpResolve (id m : string)
| OpMirror (moduleFailure : Z) (id title msg : string).

Definition done_with {A : Type} (m : st NW nt_error A) : st NW nt_error unit := let$ _ := m in st_ret tt.

(** The worker that Resolve starts calls what OpMirror stands for. *)
Definition run_op (e : NEnv) (op : notif_op) : st NW nt_error unit :=
  match op with
  | OpNotify nType id title msg show actions => done_with (notify uuid_V5 instanceUUID e nType id title msg show actions)
  | OpNew d => done_with (alloc_notification d)
  | OpRecord b format data => λ w, ((<[fresh (dom w.1) := mkObject b (NWrapped format data)]> w.1, w.2), Ret tt)
  | OpSave l => Notification_Save uuid_V5 instanceUUID e l
  | OpSetActionFunction l fn => done_with (SetActionFunction l fn)
  | OpResponse l => done_with (Response l)
  | OpExpired l => done_with (Expired l)
  | OpUpdate l expires => Notification_Update uuid_V5 instanceUUID e l expires
  | OpDelete l => Notification_Delete e l
  | OpAttach l m => AttachToModule uuid_V5 instanceUUID e l m
  | OpDeleteId id => notifications_Delete e id
  | OpGet key => done_with (NtStorage_Get key)
  | OpQuery q local internal => done_with (NtStorage_Query accessor_of order q local internal)
  | OpPut r => done_with (NtStorage_Put uuid_V5 instanceUUID e r)
  | OpDbDelete key => NtStorage_Delete e key
  | OpClean => deleteExpiredNotifs order e
  | OpFailure status id title msg m => on_modules uuid_V5 instanceUUID e (setFailure status id title msg m)
  | OpResolve id m => on_modules uuid_V5 instanceUUID e (Resolve id m)
  | OpMirror moduleFailure id title msg => mirrorModuleStatus uuid_V5 instanceUUID e moduleFailure id title msg
  end.

(** Methods are called on notifications; those that need metadata on saved ones. *)
Definition op_ready (op : notif_op) (w : NW) : Prop :=
  match op with
  | OpSave l | OpSetActionFunction l _ | OpResponse l | OpExpired l => there l w
  | OpUpdate l _ | OpDelete l => saved l w
  | OpAttach l m => there l w ∧ is_Some (modules (nt_mods w.2) !! m)
  | OpPut r => is_Some (w.1 !! r)
  | _ => True
  end.

(** Whether an operation calls into the modules at once. *)
Definition calls_modules (op : notif_op) : bool :=
  match op with OpAttach _ _ | OpFailure _ _ _ _ _ | OpResolve _ _ => true | _ => false end.

Inductive nt_step : NW → NW → Prop :=
| nt_step_op e op w : op_ready op w → nt_step w (run_op e op w).1.

Lemma nt_spec_done {A} {np : bool} pre (m : st NW nt_error A) : nt_spec np pre m → nt_spec np pre (done_with m).
Proof. intros Hm. apply (then_lasting pre (λ _, True)); [done..|]. intros _. apply nt_spec_ret. Qed.

Lemma alloc_record_ok w (b : Base) format data :
  notif_ok w → let w' := (<[fresh (dom w.1) := mkObject b (NWrapped format data)]> w.1, w.2) in notif_ok w' ∧ goes_on w w'.
Proof.
  intros [H1 H2 H3 H4 H5 H6 H7 H8] w'.
  assert (∀ l, notif_at w'.1 l = notif_at w.1 l) as Hsame.
  { intros l. unfold w', notif_at. simpl. destruct (decide (fresh (dom w.1) = l)) as [<-|Hne]; [|by rewrite lookup_insert_ne].
    rewrite lookup_insert_eq. simpl. by rewrite (not_elem_of_dom_1 _ _ (is_fresh _)). }
  split; [split; try (setoid_rewrite Hsame); done|]. split; [|done]. intros l x Hx. exists x. rewrite Hsame. split; [done|apply notif_goes_on_refl].
Qed.

(** Every operation keeps the invariant; those that do not call the modules do not panic. *)
Lemma run_op_spec e op :
  (∀ b format data, Unwrap (T := NData) (X := X) (Wrapped (mkWrapper b format data)) (mkBase "" "" None) ≠ Panic) →
  nt_spec (negb (calls_modules op)) (op_ready op) (run_op e op).
Proof.
  intros Hload. destruct op; simpl;
    eauto using nt_spec_done, save_spec, SetActionFunction_spec, Response_spec, Expired_spec, Update_spec, Notification_Delete_spec,
      AttachToModule_spec, notifications_Delete_spec, NtStorage_Get_spec, NtStorage_Query_spec, NtStorage_Put_spec, NtStorage_Delete_spec,
      deleteExpiredNotifs_spec, mirror_spec.
  - apply nt_spec_done, alloc_then. intros l. apply Notify_spec.
  - apply nt_spec_done. change (alloc_notification d) with (λ w : NW, alloc_notification d w).
    intros w Hok _. unfold alloc_notification. destruct (alloc_ok w (mkBase "" "" None) d Hok) as (? & ? & _). done.
  - intros w Hok _. destruct (alloc_record_ok w b format data Hok). done.
  - apply on_modules_spec; [apply setFailure_dom|done].
  - apply on_modules_spec; [apply Resolve_dom|done].
Qed.

(** *** The modules' failure status *)

Lemma with_lock_free {A} l (body : st NW nt_error A) w w' r :
  nt_held w.2 = [] → body (w.1, set_held [l] w.2) = (w', r) → with_lock l body w = ((w'.1, set_held [] w'.2), r).
Proof. intros Hh Hb. unfold with_lock. rewrite Hh, decide_False by apply not_elem_of_nil. by rewrite Hb. Qed.

Lemma dismiss_result l w b n :
  notif_ok w → nt_held w.2 = [] → notif_at w.1 l = Some (b, n) →
  ∃ w' n', dismiss l w = (w', Ret tt) ∧ n_data n' = n_data n ∧ notif_at w'.1 l = Some (b, n') ∧
    (∀ l', l' ≠ l → notif_at w'.1 l' = notif_at w.1 l') ∧ nots w'.2 = nots w.2 ∧ nt_held w'.2 = [].
Proof.
  intros Hok Hh Hat. unfold dismiss. set (body := st_bind (the_notif l) _).
  destruct (notif_ok_rest w (set_held [l]) ltac:(done) Hok) as [Hok1 _]. set (w1 := (w.1, set_held [l] w.2)) in *.
  destruct (actionTrigger n) as [c|] eqn:Ht.
  - set (n1 := mkNotification (n_data n) (belongsTo n) (actionFunction n) None (expiredTrigger n)).
    assert (body w1 = ((<[l := mkObject b (NNotification n1)]> w1.1, set_closed (c :: nt_closed w1.2) w1.2), Ret tt)) as Hb.
    { unfold body, st_bind at 1, the_notif, st_get. simpl. rewrite Hat, Ht. unfold st_bind.
      rewrite (close_result w1 l b n c Hok1 Hat); [done|]. unfold channels. rewrite Ht. by left. }
    eexists _, n1. split; [exact (with_lock_free l body w _ _ Hh Hb)|]. split; [done|]. simpl.
    split; [by rewrite notif_at_insert, decide_True|]. split; [|done]. intros l' Hl'. by rewrite notif_at_insert, decide_False by congruence.
  - assert (body w1 = (w1, Ret tt)) as Hb by (unfold body, st_bind, the_notif, st_get; simpl; by rewrite Hat, Ht).
    eexists _, n. split; [exact (with_lock_free l body w _ _ Hh Hb)|]. done.
Qed.

(** A notification that is deleted is not stored under its id any more. *)
Lemma Notification_Delete_result e l w b n m :
  notif_ok w → nt_held w.2 = [] → notif_at w.1 l = Some (b, n) → meta b = Some m →
  ∃ w', Notification_Delete e l w = (w', Ret tt) ∧ nt_held w'.2 = [] ∧ nots w'.2 = delete (n_EventID (n_data n)) (nots w.2) ∧
    (∀ l', l' ≠ l → notif_at w'.1 l' = notif_at w.1 l').
Proof.
  intros Hok Hh Hat Hm. destruct (dismiss_result l w b n Hok Hh Hat) as (w1 & n1 & E1 & Hd1 & Hat1 & Hl1 & Hn1 & Hh1).
  destruct (dismiss_spec (np := false) l w Hok) as (Hok1 & _); [by eexists|]. rewrite E1 in Hok1. simpl in Hok1.
  destruct (Notification_delete_result e l true w1 b n1 m Hok1 Hh1 Hat1 Hm) as (w2 & n2 & E2 & _ & Hw2 & Hn2 & Hh2).
  exists w2. unfold Notification_Delete, st_bind. rewrite E1. split; [done|]. split; [done|]. split; [by rewrite Hn2, Hn1, Hd1|].
  intros l' Hl'. rewrite Hw2, notif_at_insert, decide_False by congruence. by apply Hl1.
Qed.

Definition gone (id : string) (w : NW) : Prop :=
  ∀ l, nots w.2 !! id = Some l → ∃ b n m, notif_at w.1 l = Some (b, n) ∧ meta b = Some m ∧ IsDeleted m = true.

(** The notification of an id, stored and not marked as deleted. *)
Definition live (id : string) (w : NW) (n : Notification) : Prop :=
  ∃ l b m, nots w.2 !! id = Some l ∧ notif_at w.1 l = Some (b, n) ∧ meta b = Some m ∧ IsDeleted m = false.

(** A failure that is over: its notification goes. *)
Lemma mirror_none e id title msg w :
  notif_ok w → nt_held w.2 = [] → id ≠ "" →
  ∃ w', mirrorModuleStatus uuid_V5 instanceUUID e FailureNone id title msg w = (w', Ret tt) ∧ nt_held w'.2 = [] ∧ gone id w' ∧
    (∀ id', id' ≠ id → nots w'.2 !! id' = nots w.2 !! id') ∧ ∀ id' n, id' ≠ id → live id' w n → live id' w' n.
Proof.
  intros Hok Hh Hid. unfold mirrorModuleStatus. destruct (String.eqb_spec id "") as [|_]; [done|]. unfold st_bind at 1, notifications_Get, st_get at 1.
  destruct (nots w.2 !! id) as [l|] eqn:Hl.
  2:{ exists w. split; [done|]. split; [done|]. split; [|done]. intros l' Hl'. congruence. }
  destruct (ok_nots _ Hok id l Hl) as (_ & b & n & Hat & Hev & [m Hm] & _).
  change (negb (FailureNone =? FailureNone)) with false. cbv iota. unfold st_bind at 1, the_notif at 1, st_get at 1. rewrite Hat. simpl. rewrite Hm.
  destruct (IsDeleted m) eqn:Hdel.
  { exists w. split; [done|]. split; [done|]. split; [|done]. intros l' Hl'. simplify_eq. by exists b, n, m. }
  set (n1 := mkNotification (n_data n) None (actionFunction n) (actionTrigger n) (expiredTrigger n)).
  set (body := st_bind (the_notif l) _). set (w1 := (w.1, set_held [l] w.2)).
  assert (body w1 = ((<[l := mkObject b (NNotification n1)]> w1.1, w1.2), Ret tt)) as Hb.
  { unfold body, st_bind, the_notif, st_get. simpl. by rewrite Hat. }
  unfold st_bind at 1. rewrite (with_lock_free l body w _ _ Hh Hb). simpl. set (w2 := (_, _) : NW).
  destruct (put_notif_ok l b n1 w Hok) as [Hok1 _]; [apply (may_put_same l b b n n1 w Hok Hat); [by apply goes_on_same|done|by right]|].
  destruct (notif_ok_rest (<[l:=mkObject b (NNotification n1)]> w.1, w.2) (set_held []) ltac:(done) Hok1) as [Hok2 _].
  destruct (Notification_Delete_result e l w2 b n1 m) as (w3 & E & Hh3 & Hn3 & Hl3); [exact Hok2|done| |done|].
  { simpl. by rewrite notif_at_insert, decide_True. }
  exists w3. split; [exact E|]. split; [done|]. simpl in Hn3. rewrite Hn3, Hev.
  assert (∀ id', id' ≠ id → nots w3.2 !! id' = nots w.2 !! id') as Hother by (intros id' Hne; by rewrite Hn3, Hev, lookup_delete_ne).
  split; [|split; [by intros id' Hne; apply lookup_delete_ne|]].
  - intros l'. rewrite Hn3, Hev, lookup_delete_eq. done.
  - intros id' n' Hne (l' & b' & m' & Hl' & Hat' & Hm'). exists l', b', m'. split; [by rewrite Hother|]. split; [|done].
    assert (l' ≠ l) as Hll.
    { intros ->. destruct (ok_nots _ Hok id' l Hl') as (_ & b1 & n2 & Hat1 & Hev1 & _). rewrite Hat in Hat1. simplify_eq. }
    rewrite Hl3 by done. simpl. by rewrite notif_at_insert, decide_False by congruence.
Qed.

(** What a notification made for a failure says. *)
Definition failure_type (st : Z) : Z :=
  if st =? FailureWarning then Type_Warning else if st =? FailureError then Type_Error else Type_Info.

Definition tells (st : Z) (id title msg : string) (n : Notification) : Prop :=
  n_EventID (n_data n) = id ∧ n_Title (n_data n) = title ∧ n_Message (n_data n) = msg ∧ n_Type (n_data n) = failure_type st ∧
  n_State (n_data n) = State_Active.

Lemma mirror_data_says st id title msg :
  let d := mirror_data st id title msg in
  n_EventID d = id ∧ n_Title d = title ∧ n_Message d = msg ∧ n_Type d = failure_type st ∧ n_State d = "".
Proof.
  unfold mirror_data, failure_type. destruct (Z.eqb_spec st FailureHint) as [->|]; [done|]. by destruct (st =? FailureWarning), (st =? FailureError).
Qed.

(** Saving a new notification, with an id and a text. *)
Lemma save_locked_new e l push w d :
  notif_at w.1 l = Some (mkBase "" "" None, new_notification d) → n_EventID d ≠ "" → (n_Title d ≠ "" ∨ n_Message d ≠ "") → n_State d = "" →
  ∃ b n m w' x, save_locked uuid_V5 instanceUUID e l push w = (w', Ret (n_EventID d)) ∧
    w'.1 = <[l := mkObject b (NNotification n)]> w.1 ∧ w'.2 = set_pushed x w.2 ∧ meta b = Some m ∧ IsDeleted m = false ∧
    (n_EventID (n_data n) = n_EventID d ∧ n_Title (n_data n) = n_Title d ∧ n_Message (n_data n) = n_Message d ∧ n_Type (n_data n) = n_Type d ∧
     n_State (n_data n) = State_Active).
Proof.
  intros Hat Hid Htext Hst. unfold save_locked, the_notif, st_get, st_bind, put_notif, st_mod. rewrite Hat. cbv beta iota zeta. unfold new_notification. cbn [n_data].
  destruct (String.eqb (n_Title d) "" && String.eqb (n_Message d) "") eqn:Ht.
  { apply andb_prop in Ht as [Ht1%String.eqb_eq Ht2%String.eqb_eq]. by destruct Htext. }
  rewrite Hst. destruct (String.eqb_spec (n_EventID d) "") as [|_]; [done|].
  destruct push; unfold PushNotification, st_mod, st_ret; simpl; eexists _, _, _, _, _; (split; [done|]); simpl.
  - split; [done|]. split; [by rewrite lookup_insert_eq|]. by split; [|split].
  - split; [done|]. split; [instantiate (1 := nt_pushed w.2); by destruct w as [h []]|]. by split; [|split].
Qed.

(** A new failure has a notification, which was there or is created. *)
Lemma mirror_some e st id title msg w :
  notif_ok w → nt_held w.2 = [] → id ≠ "" → st ≠ FailureNone → (title ≠ "" ∨ msg ≠ "") →
  ∃ w', mirrorModuleStatus uuid_V5 instanceUUID e st id title msg w = (w', Ret tt) ∧
    (nots w.2 !! id = None → ∃ n, live id w' n ∧ tells st id title msg n) ∧ (∀ n, live id w n → live id w' n) ∧
    (∀ id', id' ≠ id → nots w'.2 !! id' = nots w.2 !! id') ∧ (∀ l x, notif_at w.1 l = Some x → notif_at w'.1 l = Some x).
Proof.
  intros Hok Hh Hid Hst Htext. unfold mirrorModuleStatus. destruct (String.eqb_spec id "") as [|_]; [done|]. unfold st_bind at 1, notifications_Get, st_get at 1.
  destruct (Z.eqb_spec st FailureNone) as [|_]; [done|]. simpl.
  destruct (nots w.2 !! id) as [l|] eqn:Hl. { exists w. by split. }
  set (d := mirror_data st id title msg). unfold st_bind at 1, alloc_notification at 1. set (l := fresh (dom w.1)).
  set (w1 := (<[l := _]> w.1, w.2)).
  destruct (mirror_data_says st id title msg) as (Hev & Hti & Hme & Hty & Hstate). fold d in Hev, Hti, Hme, Hty, Hstate.
  assert (notif_at w1.1 l = Some (mkBase "" "" None, new_notification d)) as Hat by (unfold w1; simpl; by rewrite notif_at_insert, decide_True).
  unfold Notify, save. unfold st_bind at 1, st_bind at 1, st_bind at 1.
  destruct (save_locked_new e l true (w1.1, set_held [l] w1.2) d Hat) as (b & n & m & w2 & x & E & Hw2 & Hs2 & Hm & Hdel & Hsays);
    [by rewrite Hev|by rewrite Hti, Hme|done|].
  rewrite (with_lock_free l _ w1 _ _ Hh E). rewrite Hev. destruct (String.eqb_spec id "") as [|_]; [done|].
  unfold on_nsys, st_mod, st_ret. eexists. split; [done|]. simpl. rewrite Hs2. simpl. split; [|split; [|split]].
  - intros _. exists n. split; [exists l, b, m|by rewrite Hev, Hti, Hme, Hty in Hsays].
    split; [simpl; by rewrite lookup_insert_eq|]. split; [|done]. simpl. by rewrite Hw2, notif_at_insert, decide_True.
  - intros n' (l' & b' & m' & Hl' & _). congruence.
  - intros id' Hid'. by rewrite lookup_insert_ne.
  - intros l' x' Hx'. rewrite Hw2. unfold w1. simpl. rewrite notif_at_insert. destruct (decide (l = l')) as [<-|Hl']; [|by rewrite notif_at_insert, decide_False].
    unfold l in Hx'. by rewrite notif_at_fresh in Hx'.
Qed.

(** What setFailure reports. *)
Lemma setFailure_log st id title msg m (s s' : ModSys) x :
  modules s !! m = Some x → failureID x ≠ id → failureUpdateNotifyFuncReady s = true → setFailure st id title msg m s = Ret s' →
  failure_log s' = (failure_log s ++ (if bool_decide (failureID x = "") then [] else [(FailureNone, failureID x, "", "")]) ++ [(st, id, title, msg)])%list.
Proof.
  intros Hx Hne Hready H. unfold setFailure in H. rewrite Hx in H. rewrite (bool_decide_false (id = failureID x)) in H by congruence.
  set (s1 := notifyOfChange m _) in H.
  assert (failureUpdateNotifyFuncReady s1 = true ∧ failure_log s1 = failure_log s) as [Hr Hlog].
  { unfold s1, notifyOfChange. by destruct (_ && _). }
  rewrite Hr in H.
  unfold on_module in H. destruct (modules (log_failure _ s1) !! m) as [y|]; [|done].
  destruct (checkIfStopComplete y) as [y'|err|]; simpl in H; [|done..]. injection H as <-. simpl. by rewrite Hlog.
Qed.

Lemma Unwrap_no_panic (b : Base) format data : Unwrap (T := NData) (X := X) (Wrapped (mkWrapper b format data)) (mkBase "" "" None) ≠ Panic.
Proof.
  unfold Unwrap. simpl. pose proof (LoadAsFormat_no_panic (T := NData) (X := X) data format). by destruct (LoadAsFormat data format).
Qed.

Lemma steps_ok (w0 w : NW) : notif_ok w0 → rtc nt_step w0 w → notif_ok w ∧ goes_on w0 w.
Proof.
  intros Hok Hrun. induction Hrun as [w|w1 w2 w3 [e op w1' Hop] Hrun IH]; [by split|].
  destruct (run_op_spec e op Unwrap_no_panic w1' Hok Hop) as (Hok2 & Hon2 & _). destruct (IH Hok2) as [Hok3 Hon3].
  split; [done|by etrans].
Qed.

(** ** Properties *)


(** The cleaner removes exactly the expired notifications: afterwards an id is
    stored just if it was before and its notification has not expired. *)
Theorem deleteExpiredNotifs_exact e (w : NW) :
  notif_ok w → nt_held w.2 = [] →
  ∃ w', deleteExpiredNotifs order e w = (w', Ret tt) ∧
    ∀ id l, nots w'.2 !! id = Some l ↔ nots w.2 !! id = Some l ∧ has_expired e w l = false.
Proof.
  intros Hok Hh. destruct (deleteExpired_list e (order (map_to_list (nots w.2)).*2) w Hok Hh) as (w' & Hrun & Hres).
  - rewrite order_perm. by apply stored_once.
  - intros l. rewrite order_perm, list_elem_of_fmap. intros ([id l'] & -> & H%elem_of_map_to_list). by exists id.
  - exists w'. split; [exact Hrun|]. intros id l. rewrite Hres. split; intros [H Hno]; (split; [done|]).
    + apply not_true_iff_false. intros Hx. apply Hno. split; [|done]. rewrite order_perm. apply list_elem_of_fmap.
      exists (id, l). split; [done|]. by apply elem_of_map_to_list.
    + rewrite Hno. by intros [_ ?].
Qed.

(** C26: A module that reports a failure with a text, while the mirror is registered
    and no notification is locked: if no notification is stored under the id of the
    failure, one is made, active and not deleted, that tells the failure with its
    title, message and type; one that is stored and not deleted stays. The
    notification of the module's former failure is gone: it is not stored any
    more or marked as deleted. *)
Theorem module_failure_notified e (st : Z) (id title msg m : string) (w w' : NW) (x : GoModule) :
  notif_ok w → nt_held w.2 = [] → modules (nt_mods w.2) !! m = Some x → failureUpdateNotifyFuncReady (nt_mods w.2) = true →
  failureID x ≠ id → id ≠ "" → st ≠ FailureNone → (title ≠ "" ∨ msg ≠ "") →
  on_modules uuid_V5 instanceUUID e (setFailure st id title msg m) w = (w', Ret tt) →
  (nots w.2 !! id = None → ∃ n, live id w' n ∧ tells st id title msg n) ∧ (∀ n, live id w n → live id w' n) ∧
  (failureID x ≠ "" → gone (failureID x) w').
Proof.
  intros Hok Hh Hx Hready Hne Hid Hst Htext H. unfold on_modules in H. unfold st_bind at 1, st_get at 1 in H.
  unfold st_bind at 1, lift_mods in H. destruct (setFailure st id title msg m (nt_mods w.2)) as [s'|err|] eqn:E; [|done..].
  pose proof (setFailure_log _ _ _ _ _ _ _ _ Hx Hne Hready E) as Hlog.
  assert (notif_ok (w.1, set_mods s' w.2)) as Hok1.
  { destruct (lift_mods_spec (np := false) (λ _, True) (setFailure st id title msg m)) with (w := w) as (Hok1 & _);
      [apply setFailure_dom|done|done|done|]. unfold lift_mods in Hok1. by rewrite E in Hok1. }
  unfold st_bind at 1, st_get in H. simpl in H. rewrite Hlog, drop_app_length in H.
  destruct (bool_decide_reflect (failureID x = "")) as [Hx0|Hx0]; cbn [app st_iter] in H.
  - destruct (mirror_some e st id title msg (w.1, set_mods s' w.2) Hok1 Hh Hid Hst Htext) as (w2 & E2 & Hnew & Hs & _ & _).
    unfold st_bind in H. rewrite E2 in H. unfold st_ret in H. simplify_eq. by split_and!.
  - destruct (mirror_none e (failureID x) "" "" (w.1, set_mods s' w.2) Hok1 Hh Hx0) as (w2 & E2 & Hh2 & Hgone & Hkeep & Hlive).
    destruct (mirror_spec (np := false) e FailureNone (failureID x) "" "" _ Hok1 I) as (Hok2 & _). rewrite E2 in Hok2. simpl in Hok2.
    destruct (mirror_some e st id title msg w2 Hok2 Hh2 Hid Hst Htext) as (w3 & E3 & Hnew & Hs & Hother & Hat).
    unfold st_bind at 1 in H. rewrite E2 in H. unfold st_bind in H. rewrite E3 in H. unfold st_ret in H. simplify_eq.
    split; [intros Hn; apply Hnew; by rewrite Hkeep|]. split; [intros n Hn; apply Hs, Hlive; [done|exact Hn]|].
    intros _ l Hl. rewrite Hother in Hl by done. destruct (Hgone l Hl) as (b & n & m' & Hat' & Hm' & Hdel).
    exists b, n, m'. split; [by apply Hat|done].
Qed.

End Specs.

(** *** Witnesses and findings *)

(** One module, core, and no notifications. *)
Definition nt_modules : ModSys :=
  put_modules {["core" := initNewModule "core" false false false []]} (initial true (mkStartup None None false None)).

Definition nt_empty : NW := (∅, mkNSys ∅ [] 0 [] [] [] [] nt_modules).

Definition nt_env (now : Z) : NEnv := mkNEnv now true (Some "draw") "time" 1.

Definition nt_v5 (ns text : string) : string := ns ++ "-" ++ text.

(** A library that reads every JSON text as this notification. *)
Definition nt_loaded (id state selected : string) : NData := mkNData id "" 0 "title" "" "" false ANil 0 state [] selected.

Definition nt_codecs (d : NData) : Codecs NData unit := {|
  json_Marshal _ := inl tt; json_MarshalIndent _ _ := inl tt; json_Unmarshal _ := inr d;
  yaml_Marshal _ := inl tt; yaml_Unmarshal _ := inl tt; cbor_Marshal _ := inl tt; cbor_Unmarshal _ := inl tt;
  msgpack_Marshal _ := inl tt; msgpack_Unmarshal _ := inl tt; gencode_Marshal := None; gencode_Unmarshal := None;
  raw_bytes _ := None; gzip_compress _ := inl tt; gzip_decompress _ := inl tt;
|}.

Lemma nt_empty_ok : notif_ok nt_empty.
Proof.
  split; simpl; try done; try (by intros ? ? ?%elem_of_nil); try (by intros ? ?%elem_of_nil); try (by intros ?%elem_of_nil).
  constructor.
Qed.

Definition nt_run_op (c : Codecs NData unit) (e : NEnv) (op : notif_op (R := string)) : st NW nt_error unit :=
  run_op (R := string) (λ _, None) nt_v5 "instance" (λ l, l) e op.

Definition nt_run (c : Codecs NData unit) (script : list (NEnv * notif_op (R := string))) (w : NW) : NW :=
  fold_left (λ w x, (nt_run_op c x.1 x.2 w).1) script w.

Fixpoint all_ready (c : Codecs NData unit) (script : list (NEnv * notif_op (R := string))) (w : NW) : Prop :=
  match script with
  | [] => True
  | x :: script => op_ready x.2 w ∧ all_ready c script (nt_run_op c x.1 x.2 w).1
  end.

Lemma nt_run_steps (c : Codecs NData unit) script w :
  all_ready c script w → rtc (nt_step (R := string) (λ _, None) nt_v5 "instance" (λ l, l)) w (nt_run c script w).
Proof.
  revert w. induction script as [|[e op] script IH]; intros w; [done|]. intros [Hop Hrest].
  eapply rtc_l; [by apply (nt_step_op _ _ _ _ e op)|]. by apply IH.
Qed.

(** A notification is sent, waited for, attached and answered, and the cleaner runs. *)
Definition nt_script : list (NEnv * notif_op (R := string)) :=
  [(nt_env 100, OpNotify 1 "core:hot" "Hot" "It is hot" true []);
   (nt_env 100, OpSetActionFunction 0%nat (Some 7%nat)); (nt_env 100, OpResponse 0%nat); (nt_env 101, OpAttach 0%nat "core");
   (nt_env 102, OpRecord (mkBase "notifications" "all/core:hot" (Some zeroMeta)) JSON [1]); (nt_env 102, OpPut 1%nat);
   (nt_env 200, OpClean)].

Definition nt_answer : Codecs NData unit := nt_codecs (nt_loaded "core:hot" "active" "ack").


(** Two notifications, the second of which has expired. *)
Definition nt_two : NW :=
  nt_run nt_answer
    [(nt_env 100, OpNotify 0 "a" "A" "" false []); (nt_env 100, OpNotify 0 "b" "B" "" false []); (nt_env 120, OpUpdate 1%nat 130)] nt_empty.

Lemma nt_run_ok (c : Codecs NData unit) script : all_ready c script nt_empty → notif_ok (nt_run c script nt_empty).
Proof.
  intros Hr. apply (steps_ok (R := string) (λ _, None) nt_v5 "instance" (λ l, l) ltac:(reflexivity) (X := unit) (Codecs0 := c) nt_empty);
    [apply nt_empty_ok|by apply nt_run_steps].
Qed.

Lemma deleteExpiredNotifs_exact_witness :
  ∃ w', deleteExpiredNotifs (λ l, l) (nt_env 200) nt_two = (w', Ret tt) ∧
    ∀ id l, nots w'.2 !! id = Some l ↔ nots nt_two.2 !! id = Some l ∧ has_expired (nt_env 200) nt_two l = false.
Proof.
  apply (deleteExpiredNotifs_exact nt_v5 (λ l, l) ltac:(reflexivity) (nt_env 200) nt_two).
  - apply nt_run_ok. repeat split; try (do 2 eexists; split; [vm_compute; reflexivity|eexists; vm_compute; reflexivity]).
  - vm_compute. reflexivity.
Defined.

(** The module has reported a warning before. *)
Definition nt_warned : NW := nt_run nt_answer [(nt_env 100, OpFailure FailureWarning "core:warm" "Warm" "" "core")] nt_empty.

Lemma module_failure_notified_witness :
  let w' := (on_modules nt_v5 "instance" (nt_env 110) (setFailure FailureError "core:hot" "Hot" "" "core") nt_warned).1 in
  (∃ n, live "core:warm" nt_warned n) ∧ (∃ n, live "core:hot" w' n ∧ tells FailureError "core:hot" "Hot" "" n) ∧ gone "core:warm" w' ∧
  nots w'.2 !! "core:warm" = None.
Proof.
  intros w'. split; [eexists _, _, _, _; split; [vm_compute; reflexivity|]; split; [vm_compute; reflexivity|]; split; vm_compute; reflexivity|].
  destruct (module_failure_notified nt_v5 "instance" (λ l, l) ltac:(reflexivity) (nt_env 110) FailureError "core:hot" "Hot" "" "core" nt_warned w'
    (default (initNewModule "core" false false false []) (modules (nt_mods nt_warned.2) !! "core"))) as (H1 & _ & H2).
  - apply nt_run_ok. repeat split.
  - vm_compute. reflexivity.
  - vm_compute. reflexivity.
  - vm_compute. reflexivity.
  - vm_compute. discriminate.
  - discriminate.
  - discriminate.
  - left. discriminate.
  - vm_compute. reflexivity.
  - split; [apply H1; vm_compute; reflexivity|]. split; [apply H2; vm_compute; discriminate|vm_compute; reflexivity].
Defined.

(** A notification that is saved after it was deleted is stored and still marked as
    deleted; a failure with its id then makes no notification. *)
Lemma saved_after_delete_hides_failure :
  let w := nt_run nt_answer [(nt_env 100, OpNotify 0 "core:hot" "A" "" false []); (nt_env 101, OpDelete 0%nat); (nt_env 102, OpSave 0%nat);
    (nt_env 103, OpFailure FailureError "core:hot" "Hot" "" "core")] nt_empty in
  nots w.2 = {["core:hot" := 0%nat]} ∧ (option_map IsDeleted ∘ meta ∘ fst <$> notif_at w.1 0%nat) = Some (Some true) ∧ dom w.1 = {[0%nat]}.
Proof. split; [|split]; vm_compute; reflexivity. Qed.

(** A record is stored under the id in its data, not under the key it is put at. *)
Lemma put_stores_under_id :
  let c := nt_codecs (nt_loaded "other" "" "") in
  let w := nt_run c [(nt_env 100, OpRecord (mkBase "notifications" "all/x" (Some zeroMeta)) JSON [1]); (nt_env 100, OpPut 0%nat)] nt_empty in
  nots w.2 = {["other" := 1%nat]} ∧ (NtStorage_Get "all/x" w).2 = Fail NtNotFound.
Proof. split; vm_compute; reflexivity. Qed.

(** In this way a notification that was executed is replaced by an active one. *)
Lemma put_replaces_executed :
  let w := nt_run (nt_codecs (nt_loaded "a" "executed" "")) [(nt_env 100, OpNotify 0 "a" "A" "" false []);
    (nt_env 101, OpRecord (mkBase "notifications" "all/a" (Some zeroMeta)) JSON [1]); (nt_env 101, OpPut 1%nat)] nt_empty in
  let w' := nt_run (nt_codecs (nt_loaded "a" "active" ""))
    [(nt_env 102, OpRecord (mkBase "notifications" "all/x" (Some zeroMeta)) JSON [1]); (nt_env 102, OpPut 3%nat)] w in
  (n_State ∘ n_data ∘ snd <$> (nots w.2 !! "a" ≫= notif_at w.1)) = Some "executed" ∧
  (n_State ∘ n_data ∘ snd <$> (nots w'.2 !! "a" ≫= notif_at w'.1)) = Some "active".
Proof. split; vm_compute; reflexivity. Qed.

(** A notification that is put itself, not wrapped, is locked by the caller, and Put
    locks it once more. *)
Lemma put_unwrapped_deadlocks :
  let w := nt_run nt_answer [(nt_env 100, OpNotify 0 "a" "A" "" false [])] nt_empty in
  (nt_run_op nt_answer (nt_env 101) (OpPut 0%nat) w).2 = Fail NtDeadlock.
Proof. vm_compute. reflexivity. Qed.

(** When a notification was replaced by another one with its id, deleting it makes
    the new one disappear, which is not marked as deleted. *)
Lemma delete_drops_successor :
  let w := nt_run nt_answer [(nt_env 100, OpNotify 0 "a" "A" "" false []); (nt_env 100, OpNotify 0 "a" "A2" "" false []);
    (nt_env 101, OpDelete 0%nat)] nt_empty in
  nots w.2 = ∅ ∧ (option_map IsDeleted ∘ meta ∘ fst <$> notif_at w.1 1%nat) = Some (Some false).
Proof. split; vm_compute; reflexivity. Qed.

(** Deleting a notification that was never saved panics. *)
Lemma delete_unsaved_panics :
  let w := nt_run nt_answer [(nt_env 100, OpNew (nt_loaded "a" "" ""))] nt_empty in
  (nt_run_op nt_answer (nt_env 101) (OpDelete 0%nat) w).2 = Panic.
Proof. vm_compute. reflexivity. Qed.

(** A record without title and message is acknowledged but not stored. *)
Lemma put_without_text_lost :
  let c := nt_codecs (mkNData "x" "" 0 "" "" "" false ANil 0 "" [] "") in
  let w := nt_run c [(nt_env 100, OpRecord (mkBase "notifications" "all/x" (Some zeroMeta)) JSON [1])] nt_empty in
  (nt_run_op c (nt_env 101) (OpPut 0%nat) w).2 = Ret tt ∧ nots (nt_run c [(nt_env 101, OpPut 0%nat)] w).2 = ∅.
Proof. split; vm_compute; reflexivity. Qed.
