(* ===== verification/UpdaterNames.v ===== *)
(** * updater/filename.go: versioned file names

    The scheme that maps an identifier and a version to the name of the file
    that holds it, and back. The two regular expressions of the file are the
    same scanner with another separator: their character classes are disjoint
    from what follows them, so the longest run of each class is the only
    match and no backtracking is needed. *)

From Stdlib Require Import ZArith Lia Ascii String.
From S2P Require Import Prelude GoStrings GoPath.
Local Open Scope string_scope.

(** [[0-9]+<sep>[0-9]+<sep>[0-9]+(-[a-z]+)?] at the beginning of [s]. *)
Record version_text : Type := mkVersionText {
  vt_major : string;
  vt_minor : string;
  vt_patch : string;
  vt_suffix : string;  (* with its dash, or empty *)
}.

Definition scan_suffix (s : string) : string * string :=
  match s with
  | String "-" s' =>
      let '(letters, rest) := span is_lower s' in
      if String.eqb letters "" then ("", s) else ("-" ++ letters, rest)
  | _ => ("", s)
  end.

Definition scan_digits (s : string) : option (string * string) :=
  let '(digits, rest) := span is_digit s in
  if String.eqb digits "" then None else Some (digits, rest).

Definition scan_byte (sep : ascii) (s : string) : option string :=
  match s with
  | String a s' => if Ascii.eqb a sep then Some s' else None
  | EmptyString => None
  end.

Definition scan_version (sep : ascii) (s : string) : option (version_text * string) :=
  '(major, s) ← scan_digits s;
  s ← scan_byte sep s;
  '(minor, s) ← scan_digits s;
  s ← scan_byte sep s;
  '(patch, s) ← scan_digits s;
  let '(suffix, s) := scan_suffix s in
  Some (mkVersionText major minor patch suffix, s).

Definition version_string (sep : ascii) (v : version_text) : string :=
  vt_major v ++ String sep (vt_minor v ++ String sep (vt_patch v ++ vt_suffix v)).

(** [rawVersionRegex.MatchString]. *)
Definition rawVersionRegex (s : string) : bool :=
  match scan_version "." s with
  | Some (_, rest) => String.eqb rest ""
  | None => false
  end.

(** [fileVersionRegex] at the beginning of [s]; the matched text. *)
Definition fileVersionRegex_at (s : string) : option string :=
  s ← scan_byte "_" s;
  s ← scan_byte "v" s;
  '(v, _) ← scan_version "-" s;
  Some ("_v" ++ version_string "-" v).

(** [fileVersionRegex.FindString]: the leftmost match, empty when there is
    none. *)
Fixpoint fileVersionRegex_FindString (s : string) : string :=
  match fileVersionRegex_at s with
  | Some matched => matched
  | None =>
      match s with
      | EmptyString => ""
      | String _ s' => fileVersionRegex_FindString s'
      end
  end.

Definition GetIdentifierAndVersion (versionedPath : string) : option (string * string) :=
  let '(dirPath, filename) := path_Split versionedPath in
  let rawVersion := fileVersionRegex_FindString filename in
  if String.eqb rawVersion "" then None
  else
    let version :=
      ReplaceN (TrimLeftBy (λ a, Ascii.eqb a "_" || Ascii.eqb a "v") rawVersion) "-" "." 2 in
    i ← strings_Index filename rawVersion;
    let filename :=
      String.substring 0 i filename ++ string_drop (i + String.length rawVersion) filename in
    Some (dirPath ++ filename, version).

Definition GetVersionedPath (identifier version : string) : string :=
  let '(identifierPath, filename) := path_Split identifier in
  let splittedFilename := SplitN2 filename "." in
  let transformedVersion := ReplaceN version "." "-" 2 in
  match splittedFilename with
  | [] => ""  (* SplitN2 never returns it *)
  | [first] => identifierPath ++ first ++ "_v" ++ transformedVersion
  | first :: second :: _ =>
      identifierPath ++ first ++ "_v" ++ transformedVersion ++ "." ++ second
  end.

(** ** Lemmas on the scanner *)

Definition suffix_ok (s : string) : Prop :=
  s = "" ∨ ∃ letters, s = "-" ++ letters ∧ letters ≠ "" ∧ all_bytes is_lower letters = true.

Definition digits_ok (s : string) : Prop := s ≠ "" ∧ all_bytes is_digit s = true.

Definition version_ok (v : version_text) : Prop :=
  digits_ok (vt_major v) ∧ digits_ok (vt_minor v) ∧ digits_ok (vt_patch v) ∧ suffix_ok (vt_suffix v).

(** The byte ends every part of a version. *)
Definition ends_version (a : ascii) : bool :=
  negb (is_digit a) && negb (is_lower a) && negb (Ascii.eqb a "-").

Definition ends (s : string) : Prop :=
  match s with String a _ => ends_version a = true | EmptyString => True end.

Lemma scan_digits_spec (s digits rest : string) :
  scan_digits s = Some (digits, rest) → s = digits ++ rest ∧ digits_ok digits.
Proof.
  unfold scan_digits. destruct (span is_digit s) as [p r] eqn:Hs. apply span_spec in Hs as (-> & Hp & _).
  destruct (String.eqb_spec p ""); intros; simplify_eq. done.
Qed.

Lemma scan_digits_app (digits rest : string) :
  digits_ok digits → match rest with String a _ => is_digit a = false | EmptyString => True end →
  scan_digits (digits ++ rest) = Some (digits, rest).
Proof.
  intros [Hne Hd] Hr. unfold scan_digits. rewrite span_app by done.
  by destruct (String.eqb_spec digits "").
Qed.

Lemma scan_suffix_spec (s suffix rest : string) :
  scan_suffix s = (suffix, rest) → s = suffix ++ rest ∧ suffix_ok suffix.
Proof.
  unfold scan_suffix. intros H.
  destruct s as [|a s]; [simplify_eq; split; [done|by left]|].
  destruct (Ascii.eqb_spec a "-") as [->|Hne].
  - destruct (span is_lower s) as [p r] eqn:Hs. apply span_spec in Hs as (-> & Hp & _).
    destruct (String.eqb_spec p ""); simplify_eq.
    + split; [done|by left].
    + split; [done|]. right. by exists p.
  - assert ((("", String a s) : string * string) = (suffix, rest)) as ?.
    { rewrite <- H. destruct a as [[] [] [] [] [] [] [] []]; done. }
    simplify_eq. split; [done|by left].
Qed.

Lemma scan_suffix_app (suffix rest : string) :
  suffix_ok suffix → ends rest → scan_suffix (suffix ++ rest) = (suffix, rest).
Proof.
  intros [->|(letters & -> & Hne & Hl)] Hr; unfold ends, ends_version in Hr.
  - destruct rest as [|a rest]; [done|]. bool_to_prop.
    destruct a as [[] [] [] [] [] [] [] []]; done.
  - simpl. rewrite span_app; [by destruct (String.eqb_spec letters "")|done|].
    destruct rest; [done|]. by bool_to_prop.
Qed.

Lemma scan_byte_spec (sep : ascii) (s rest : string) :
  scan_byte sep s = Some rest → s = String sep rest.
Proof.
  destruct s as [|a s]; simpl; [done|]. destruct (Ascii.eqb_spec a sep); intros; by simplify_eq.
Qed.

Lemma scan_byte_hit (sep : ascii) (s : string) : scan_byte sep (String sep s) = Some s.
Proof. simpl. by rewrite Ascii.eqb_refl. Qed.

Lemma scan_version_spec (sep : ascii) (s : string) (v : version_text) (rest : string) :
  scan_version sep s = Some (v, rest) → s = version_string sep v ++ rest ∧ version_ok v.
Proof.
  unfold scan_version. intros H.
  apply bind_Some in H as ([major s1] & H1 & H). apply bind_Some in H as (s2 & H2 & H).
  apply bind_Some in H as ([minor s3] & H3 & H). apply bind_Some in H as (s4 & H4 & H).
  apply bind_Some in H as ([patch s5] & H5 & H). destruct (scan_suffix s5) as [suffix s6] eqn:H6.
  simplify_eq.
  repeat match goal with
  | H : scan_digits _ = Some _ |- _ => apply scan_digits_spec in H as [-> ?]
  | H : scan_byte _ _ = Some _ |- _ => apply scan_byte_spec in H as ->
  | H : scan_suffix _ = _ |- _ => apply scan_suffix_spec in H as [-> ?]
  end.
  split; [|done]. unfold version_string. simpl.
  rewrite !string_app_assoc. simpl. rewrite !string_app_assoc. simpl. by rewrite !string_app_assoc.
Qed.

Lemma scan_version_app (sep : ascii) (v : version_text) (rest : string) :
  is_digit sep = false → version_ok v → ends rest →
  scan_version sep (version_string sep v ++ rest) = Some (v, rest).
Proof.
  intros Hsep (H1 & H2 & H3 & H4) Hr. unfold scan_version, version_string.
  rewrite !string_app_assoc. simpl. rewrite !string_app_assoc. simpl. rewrite !string_app_assoc.
  assert (∀ d t, digits_ok d → scan_digits (d ++ String sep t) = Some (d, String sep t)) as Hd.
  { intros d t Hd. by apply scan_digits_app. }
  rewrite Hd by done. simpl. rewrite Ascii.eqb_refl. simpl.
  rewrite Hd by done. simpl. rewrite Ascii.eqb_refl. simpl.
  rewrite scan_digits_app; [|done|].
  - simpl. rewrite scan_suffix_app by done. by destruct v.
  - destruct H4 as [->|(l & -> & _)]; simpl; [|done].
    destruct rest; simpl; [done|]. unfold ends, ends_version in Hr. by bool_to_prop.
Qed.

(** An underscore ends the scan: what precedes it is scanned as if it were the
    whole text. *)
Lemma scan_digits_stop (s t : string) :
  scan_digits (s ++ String "_" t) = prod_map id (λ r, r ++ String "_" t) <$> scan_digits s.
Proof.
  unfold scan_digits. rewrite span_stop by done. destruct (span is_digit s) as [p r].
  by destruct (String.eqb_spec p "").
Qed.

Lemma scan_byte_stop (sep : ascii) (s t : string) :
  sep ≠ "_"%char →
  scan_byte sep (s ++ String "_" t) = (λ r, r ++ String "_" t) <$> scan_byte sep s.
Proof.
  intros Hsep. destruct s as [|a s]; cbn [scan_byte String.append].
  - destruct (Ascii.eqb_spec "_" sep); [by subst|done].
  - by destruct (Ascii.eqb a sep).
Qed.

Lemma scan_suffix_stop (s t : string) :
  scan_suffix (s ++ String "_" t) = prod_map id (λ r, r ++ String "_" t) (scan_suffix s).
Proof.
  destruct s as [|a s]; [done|]. destruct (Ascii.eqb_spec a "-") as [->|Hne].
  - simpl. rewrite span_stop by done. destruct (span is_lower s) as [p r].
    by destruct (String.eqb_spec p "").
  - simpl. destruct a as [[] [] [] [] [] [] [] []]; done.
Qed.

Lemma scan_version_stop (s t : string) :
  scan_version "-" (s ++ String "_" t) = prod_map id (λ r, r ++ String "_" t) <$> scan_version "-" s.
Proof.
  unfold scan_version.
  repeat first
    [ rewrite scan_digits_stop
    | rewrite scan_byte_stop by done
    | rewrite scan_suffix_stop
    | match goal with
      | |- context [scan_digits ?s ≫= _] => destruct (scan_digits s) as [[? ?]|]; simpl; [|done]
      | |- context [scan_byte ?a ?s ≫= _] => destruct (scan_byte a s) as [?|]; simpl; [|done]
      | |- context [scan_suffix ?s] => destruct (scan_suffix s) as [? ?]; simpl; done
      | |- context [scan_digits ?s] => destruct (scan_digits s) as [[? ?]|]; simpl; [|done]
      | |- context [scan_byte ?a ?s] => destruct (scan_byte a s) as [?|]; simpl; [|done]
      end ].
Qed.

Lemma fileVersionRegex_at_stop (a : ascii) (s t : string) :
  fileVersionRegex_at (String a s ++ String "_" t) = fileVersionRegex_at (String a s).
Proof.
  unfold fileVersionRegex_at. simpl. destruct (Ascii.eqb a "_"); [|done]. simpl.
  rewrite scan_byte_stop by done. destruct (scan_byte "v" s) as [r|]; simpl; [|done].
  rewrite scan_version_stop. by destruct (scan_version "-" r) as [[v rest]|].
Qed.

Lemma fileVersionRegex_at_hit (v : version_text) (rest : string) :
  version_ok v → ends rest →
  fileVersionRegex_at ("_v" ++ version_string "-" v ++ rest) = Some ("_v" ++ version_string "-" v).
Proof. intros Hv Hr. unfold fileVersionRegex_at. simpl. by rewrite scan_version_app. Qed.

Lemma FindString_nonempty (s : string) (m : string) :
  fileVersionRegex_at s = Some m → m ≠ "".
Proof.
  unfold fileVersionRegex_at. intros H.
  apply bind_Some in H as (s1 & H1 & H). apply bind_Some in H as (s2 & H2 & H).
  apply bind_Some in H as ([v rest] & H3 & H). by simplify_eq.
Qed.

(** Text without a version, followed by a version. *)
Lemma FindString_app (first : string) (v : version_text) (rest : string) :
  fileVersionRegex_FindString first = "" → version_ok v → ends rest →
  fileVersionRegex_FindString (first ++ "_v" ++ version_string "-" v ++ rest)
    = "_v" ++ version_string "-" v.
Proof.
  intros Hf Hv Hr. induction first as [|a s IH].
  - simpl String.append at 1. pose proof (fileVersionRegex_at_hit v rest Hv Hr) as H.
    simpl in *. by rewrite H.
  - assert (fileVersionRegex_at (String a s) = None ∧ fileVersionRegex_FindString s = "") as [Hat Hs].
    { simpl in Hf. destruct (fileVersionRegex_at (String a s)) eqn:Hat; [|done].
      subst. by apply FindString_nonempty in Hat. }
    pose proof (fileVersionRegex_at_stop a s ("v" ++ version_string "-" v ++ rest)) as Hst.
    rewrite Hat in Hst. simpl in *. rewrite Hst. by apply IH.
Qed.

(** A version at the beginning is found whatever follows it. *)
Lemma scan_digits_some (digits t : string) : digits_ok digits → is_Some (scan_digits (digits ++ t)).
Proof.
  intros [Hne Hd]. unfold scan_digits. destruct digits as [|a d]; [done|]. simpl.
  unfold all_bytes in Hd. simpl in Hd. apply andb_true_iff in Hd as [-> _].
  destruct (span is_digit (d ++ t)). simpl. eauto.
Qed.

Lemma scan_version_some (v : version_text) (t : string) :
  version_ok v → is_Some (scan_version "-" (version_string "-" v ++ t)).
Proof.
  intros (H1 & H2 & H3 & _). unfold scan_version, version_string.
  rewrite !string_app_assoc. simpl. rewrite !string_app_assoc. simpl. rewrite !string_app_assoc.
  rewrite scan_digits_app by done. simpl. rewrite scan_digits_app by done. simpl.
  destruct (scan_digits_some (vt_patch v) (vt_suffix v ++ t) H3) as [[p r] ->]. simpl.
  destruct (scan_suffix r). eauto.
Qed.

Lemma Index_version (first : string) (v : version_text) (rest : string) :
  fileVersionRegex_FindString first = "" → version_ok v →
  strings_Index (first ++ ("_v" ++ version_string "-" v) ++ rest) ("_v" ++ version_string "-" v)
    = Some (String.length first).
Proof.
  intros Hf Hv. set (m := "_v" ++ version_string "-" v). induction first as [|a s IH].
  - cbn [String.append]. destruct (m ++ rest) eqn:Hm; [done|]. cbn [strings_Index]. by rewrite <- Hm, HasPrefix_app.
  - assert (fileVersionRegex_at (String a s) = None ∧ fileVersionRegex_FindString s = "") as [Hat Hs].
    { simpl in Hf. destruct (fileVersionRegex_at (String a s)) eqn:Hat; [|done].
      subst. by apply FindString_nonempty in Hat. }
    cbn [String.append strings_Index]. destruct (HasPrefix (String a (s ++ m ++ rest)) m) eqn:Hp.
    + apply HasPrefix_spec in Hp as [t Ht].
      pose proof (fileVersionRegex_at_stop a s ("v" ++ version_string "-" v ++ rest)) as Hst.
      change (String "_" ("v" ++ version_string "-" v ++ rest)) with (m ++ rest) in Hst.
      cbn [String.append] in Hst. rewrite Ht, Hat in Hst. unfold m, fileVersionRegex_at in Hst.
      simpl in Hst. destruct (scan_version_some v t Hv) as [[v' r] Hsv]. by rewrite Hsv in Hst.
    + by rewrite IH.
Qed.

Lemma rawVersionRegex_spec (version : string) :
  rawVersionRegex version = true → ∃ v, version = version_string "." v ∧ version_ok v.
Proof.
  unfold rawVersionRegex. destruct (scan_version "." version) as [[v rest]|] eqn:Hs; [|done].
  intros ->%String.eqb_eq. apply scan_version_spec in Hs as [-> Hv]. exists v.
  by rewrite string_app_nil_r.
Qed.

Lemma digits_lack (sep : ascii) (d : string) : is_digit sep = false → digits_ok d → lacks sep d.
Proof. intros Hs [_ Hd]. by apply (lacks_all_bytes is_digit). Qed.

(** Replacing the separators of a version. *)
Lemma ReplaceN_version (old new : ascii) (v : version_text) :
  is_digit old = false → version_ok v →
  ReplaceN (version_string old v) old new 2 = version_string new v.
Proof.
  intros Hold (H1 & H2 & _). unfold version_string.
  rewrite ReplaceN_lacks by (by apply digits_lack). rewrite ReplaceN_hit.
  rewrite ReplaceN_lacks by (by apply digits_lack). by rewrite ReplaceN_hit, ReplaceN_0.
Qed.

Lemma trim_version_mark (v : version_text) :
  version_ok v →
  TrimLeftBy (λ a, Ascii.eqb a "_" || Ascii.eqb a "v") ("_v" ++ version_string "-" v)
    = version_string "-" v.
Proof.
  intros ((Hne & Hd) & _). unfold version_string. destruct (vt_major v) as [|a d]; [done|].
  unfold all_bytes in Hd. simpl in Hd. apply andb_true_iff in Hd as [Ha _]. simpl.
  destruct (Ascii.eqb_spec a "_"); [by subst|]. by destruct (Ascii.eqb_spec a "v"); [subst|].
Qed.

Lemma version_lacks_slash (v : version_text) :
  version_ok v → lacks "/" ("_v" ++ version_string "-" v).
Proof.
  intros (H1 & H2 & H3 & H4). unfold version_string. cbn [String.append].
  rewrite !lacks_cons, lacks_app, lacks_cons, lacks_app, lacks_cons, lacks_app.
  split_and!; try done; try (by apply digits_lack).
  destruct H4 as [->|(l & -> & _ & Hl)]; [unfold lacks; set_solver|]. simpl. rewrite lacks_cons.
  split; [done|]. by apply (lacks_all_bytes is_lower).
Qed.

(** A file name made of text without a version, a version and an end is taken
    apart. *)
Lemma GetIdentifierAndVersion_spec (path dir file first : string) (v : version_text) (rest : string) :
  path_Split path = (dir, file) → file = first ++ ("_v" ++ version_string "-" v) ++ rest →
  fileVersionRegex_FindString first = "" → version_ok v → ends rest →
  GetIdentifierAndVersion path = Some (dir ++ first ++ rest, version_string "." v).
Proof.
  intros Hsplit -> Hf Hv Hr. unfold GetIdentifierAndVersion. rewrite Hsplit.
  pose proof (FindString_app first v rest Hf Hv Hr) as HF. rewrite <- string_app_assoc in HF.
  rewrite !string_app_assoc in HF. rewrite (string_app_assoc "_v"). rewrite HF.
  destruct (String.eqb_spec ("_v" ++ version_string "-" v) ""); [done|].
  pose proof (Index_version first v rest Hf Hv) as HI. rewrite (string_app_assoc "_v") in HI. rewrite HI.
  cbn [mbind option_bind]. rewrite trim_version_mark, ReplaceN_version by done.
  rewrite substring_prefix. do 4 f_equal.
  rewrite <- length_string_app, <- (string_app_assoc "_v"), <- (string_app_assoc first _ rest).
  apply string_drop_app.
Qed.

(** ** Properties *)

(** The name of a versioned file gives back the identifier and the version it
    was made from, for every version of the accepted form, unless the file name
    of the identifier holds a version already before its first dot. *)
Theorem versioned_path_roundtrip (identifier version : string) :
  rawVersionRegex version = true →
  fileVersionRegex_FindString (default (path_Split identifier).2 (fst <$> Cut (path_Split identifier).2 ".")) = "" →
  GetIdentifierAndVersion (GetVersionedPath identifier version) = Some (identifier, version).
Proof.
  intros (v & -> & Hv)%rawVersionRegex_spec Hf. unfold GetVersionedPath.
  destruct (path_Split identifier) as [dir file] eqn:Hsplit. simpl in Hf.
  destruct (path_Split_spec _ _ _ Hsplit) as (-> & Hslash & _).
  rewrite ReplaceN_version by done. unfold SplitN2.
  destruct (Cut file ".") as [[first second]|] eqn:Hc; simpl in Hf.
  - apply Cut_Some in Hc as ->. apply lacks_app in Hslash as [Hs1 Hs2].
    assert (lacks "/" (first ++ ("_v" ++ version_string "-" v) ++ String "." second)) as Hl.
    { by rewrite lacks_app, (lacks_app _ (_ ++ _)); split_and!; [|apply version_lacks_slash|]. }
    exact (GetIdentifierAndVersion_spec _ dir _ first v (String "." second)
      (path_Split_same_dir _ _ _ _ Hsplit Hl) eq_refl Hf Hv eq_refl).
  - apply Cut_None in Hc.
    assert (lacks "/" (file ++ ("_v" ++ version_string "-" v) ++ "")) as Hl.
    { rewrite string_app_nil_r, lacks_app. split; [done|by apply version_lacks_slash]. }
    pose proof (GetIdentifierAndVersion_spec _ dir _ file v ""
      (path_Split_same_dir _ _ _ _ Hsplit Hl) eq_refl Hf Hv I) as H.
    by rewrite !string_app_nil_r in H.
Qed.

Lemma versioned_path_roundtrip_witness :
  GetVersionedPath "all/ui/app.tar.gz" "1.20.3-beta" = "all/ui/app_v1-20-3-beta.tar.gz" ∧
  GetIdentifierAndVersion (GetVersionedPath "all/ui/app.tar.gz" "1.20.3-beta")
    = Some ("all/ui/app.tar.gz", "1.20.3-beta").
Proof. split; [done|]. apply versioned_path_roundtrip; vm_compute; reflexivity. Defined.

(** A file found on disk is stored under the path that its identifier and
    version give, when the version is followed by the first dot of the file
    name or ends it. *)
Theorem scanned_path_roundtrip (path dir first version rest : string) :
  path_Split path = (dir, first ++ "_v" ++ ReplaceN version "." "-" 2 ++ rest) →
  rawVersionRegex version = true → fileVersionRegex_FindString first = "" →
  lacks "." first → rest = "" ∨ HasPrefix rest "." = true →
  ∃ identifier, GetIdentifierAndVersion path = Some (identifier, version) ∧
    GetVersionedPath identifier version = path.
Proof.
  intros Hsplit (v & -> & Hv)%rawVersionRegex_spec Hf Hdot Hr. exists (dir ++ first ++ rest).
  rewrite ReplaceN_version in Hsplit by done.
  assert (ends rest) as He.
  { destruct Hr as [->|Hr]; [done|]. by apply HasPrefix_spec in Hr as [t ->]. }
  destruct (path_Split_spec _ _ _ Hsplit) as (Hpath & Hslash & _).
  rewrite !lacks_app in Hslash. destruct Hslash as (Hs1 & _ & _ & Hs2).
  split.
  { eapply GetIdentifierAndVersion_spec; [done|by rewrite string_app_assoc|done..]. }
  unfold GetVersionedPath, SplitN2. rewrite (path_Split_same_dir _ _ _ _ Hsplit) by (by apply lacks_app).
  rewrite ReplaceN_version by done. destruct Hr as [->|Hr].
  - rewrite string_app_nil_r in *. rewrite (proj2 (Cut_None first ".") Hdot). done.
  - apply HasPrefix_spec in Hr as [t ->]. cbn [String.append]. by rewrite (Cut_app first t "." Hdot).
Qed.

Lemma scanned_path_roundtrip_witness :
  ∃ identifier, GetIdentifierAndVersion "all/ui/app_v1-20-3.tar.gz" = Some (identifier, "1.20.3") ∧
    GetVersionedPath identifier "1.20.3" = "all/ui/app_v1-20-3.tar.gz".
Proof.
  apply (scanned_path_roundtrip "all/ui/app_v1-20-3.tar.gz" "all/ui/" "app" "1.20.3" ".tar.gz");
    [reflexivity..| |by right]. apply Cut_None. reflexivity.
Defined.
