(* ===== verification/Updater.v ===== *)
(** * updater: resources, versions and the registry

    updater/resource.go, notifier.go, file.go, signing.go, state.go and the
    operations of registry.go on the registry's own state. The versions of a
    resource are shared objects: [Versions], [ActiveVersion] and
    [SelectedVersion] are references into the [store] of the objects that were
    created for the resource. Resources and indexes are referenced in the same
    way. Every method runs under the locks it takes, so it is one step. *)

From Stdlib Require Import ZArith Lia Ascii String.
From stdpp Require Import gmap strings sorting.
From S2P Require Import Prelude GoStrings UtilsSlices GoVersion GoSort GoPath GoFs UtilsFs UpdaterNames.
Local Open Scope string_scope.

(** ** Data *)

Section Data.
Context {SV TS : Type}.

Record ResourceVersion : Type := mkResourceVersion {
  VersionNumber : string;
  semVer : SV;
  Available : bool;
  SigAvailable : bool;
  CurrentRelease : bool;
  PreRelease : bool;
  Blacklisted : bool;
}.

(** Signature policies: SignaturePolicyRequire, -Warn and -Disable are 0, 1
    and 2. *)
Definition SignaturePolicyRequire : Z := 0.
Definition SignaturePolicyWarn : Z := 1.
Definition SignaturePolicyDisable : Z := 2.

Record VerificationOptions : Type := mkVerificationOptions {
  TrustStore : option TS;
  DownloadPolicy : Z;
  DiskLoadPolicy : Z;
}.

(** The flag and whether the channel is closed. *)
Record notifier : Type := mkNotifier {
  upgradeAvailable : bool;
  notifyChannel_closed : bool;
}.

Record Resource : Type := mkResource {
  Identifier : string;
  store : list ResourceVersion;      (* the versions created for the resource *)
  Versions : list nat;
  ActiveVersion : option nat;
  SelectedVersion : option nat;
  notifiers : list notifier;         (* the notifiers created for the resource *)
  res_notifier : option nat;
  res_VerificationOptions : option VerificationOptions;
  res_Index : option nat;
}.

Record Index : Type := mkIndex {
  idx_Path : string;
  idx_Channel : string;
  idx_PreRelease : bool;
  idx_AutoDownload : bool;
  idx_LastRelease : option Z;        (* the zero time is None *)
}.

Record File : Type := mkFile {
  file_resource : nat;
  file_version : nat;
  file_notifier : option nat;
  file_versionedPath : string;
  file_storagePath : string;
}.

(** *** state.go *)

Definition StateReady : string := "ready".
Definition StateChecking : string := "checking".
Definition StateDownloading : string := "downloading".
Definition StateFetching : string := "fetching".

Record StateDownloadingDetails : Type := mkDetails {
  det_Resources : list string;
  det_FinishedUpTo : Z;
}.

Inductive upd_error : Type :=
| UpdNotFound
| UpdNotAvailableLocally
| UpdVerificationNotConfigured
| UpdInvalidVersion
| UpdBlacklistLast
| UpdVersionNotFound
| UpdIndexChecksumMismatch
| UpdIndexFromFuture
| UpdIndexIsOlder
| UpdIndexChannelMismatch
| UpdIndexUnparsable
| UpdSigUnparsable
| UpdSigNone
| UpdSigInvalid
| UpdSigHashesDiffer
| UpdChecksum
| UpdRequest
| UpdShortDownload
| UpdAllIndexesFailed (last : option upd_error)
| UpdNoTrustStore
| UpdPolicyOrder
| UpdOs (e : os_error)
| UpdUtils (e : utils_error)
| UpdAlreadyInitialized
| UpdOutsideStorage
| UpdNoSelectedVersion
| UpdUnsupportedArchive
| UpdBlockedByFile
| UpdBlocks.  (* the call waits for a lock that is held *)

Record UpdateState : Type := mkUpdateState {
  LastCheckAt : option Z;
  LastCheckError : option upd_error;
  PendingDownload : list string;
  LastDownloadAt : option Z;
  LastDownloadError : option upd_error;
  LastDownload : list string;
  LastSuccessAt : option Z;
}.

(** [reported] is what StateNotifyFunc was called with, the last call first. *)
Record RegistryState : Type := mkRegistryState {
  st_ID : string;
  st_Details : option StateDownloadingDetails;
  st_Updates : UpdateState;
  operationLocked : bool;
  reported : list (string * option StateDownloadingDetails * UpdateState);
}.

(** *** registry.go *)

Record ResourceRegistry : Type := mkResourceRegistry {
  reg_dirs : dirs;
  storageDir : nat;
  tmpDir : nat;
  indexes : list nat;
  index_objs : list Index;
  resources : gmap string nat;
  resource_objs : list Resource;
  UpdateURLs : list string;
  MandatoryUpdates : list string;
  AutoUnpack : list string;
  Verification : option (gmap string (option VerificationOptions));
  UsePreReleases : bool;
  DevMode : bool;
  Online : bool;
  StateNotify : bool;                (* StateNotifyFunc is set *)
  reg_state : option RegistryState;  (* nil before Initialize *)
}.

End Data.

Arguments ResourceVersion : clear implicits.
Arguments VerificationOptions : clear implicits.
Arguments Resource : clear implicits.
Arguments ResourceRegistry : clear implicits.

Section Resource.
Context {SV TS : Type} `{!SemVer SV, !SortLib} (env : OsEnv).
(** [filesig.Extension]. *)
Context (sig_Extension : string).

Abbreviation rversion := (ResourceVersion SV).
Abbreviation res := (Resource SV TS).
Abbreviation registry := (ResourceRegistry SV TS).

(** ** Versions *)

Definition GreaterThan (a b : SV) : bool := bool_decide (sv_Compare a b = Gt).

Definition sv_Equal (a b : SV) : bool := bool_decide (sv_Compare a b = Eq).

(** [devVersion], set by init. *)
Definition is_devVersion (v : SV) : bool :=
  match NewVersion "0" with
  | Some dev => sv_Equal v dev
  | None => false  (* init panics *)
  end.

Definition EqualsVersion (rv : rversion) (version : string) : bool :=
  match NewVersion version with
  | None => false
  | Some cmpSemVer => sv_Equal (semVer rv) cmpSemVer
  end.

Definition isBetaVersionNumber (rv : rversion) : bool :=
  bool_decide (Prerelease (semVer rv) ∈ ["b"; "beta"]).

(** ** Field updates *)

Definition set_store (s : list rversion) (r : res) : res :=
  mkResource (Identifier r) s (Versions r) (ActiveVersion r) (SelectedVersion r) (notifiers r)
    (res_notifier r) (res_VerificationOptions r) (res_Index r).

Definition set_Versions (vs : list nat) (r : res) : res :=
  mkResource (Identifier r) (store r) vs (ActiveVersion r) (SelectedVersion r) (notifiers r)
    (res_notifier r) (res_VerificationOptions r) (res_Index r).

Definition set_ActiveVersion (v : option nat) (r : res) : res :=
  mkResource (Identifier r) (store r) (Versions r) v (SelectedVersion r) (notifiers r)
    (res_notifier r) (res_VerificationOptions r) (res_Index r).

Definition set_SelectedVersion (v : option nat) (r : res) : res :=
  mkResource (Identifier r) (store r) (Versions r) (ActiveVersion r) v (notifiers r)
    (res_notifier r) (res_VerificationOptions r) (res_Index r).

Definition set_notifier (ns : list notifier) (n : option nat) (r : res) : res :=
  mkResource (Identifier r) (store r) (Versions r) (ActiveVersion r) (SelectedVersion r) ns
    n (res_VerificationOptions r) (res_Index r).

Definition set_Index (i : option nat) (r : res) : res :=
  mkResource (Identifier r) (store r) (Versions r) (ActiveVersion r) (SelectedVersion r) (notifiers r)
    (res_notifier r) (res_VerificationOptions r) i.

Definition set_Available (b : bool) (rv : rversion) : rversion :=
  mkResourceVersion (VersionNumber rv) (semVer rv) b (SigAvailable rv) (CurrentRelease rv) (PreRelease rv) (Blacklisted rv).

Definition set_SigAvailable (b : bool) (rv : rversion) : rversion :=
  mkResourceVersion (VersionNumber rv) (semVer rv) (Available rv) b (CurrentRelease rv) (PreRelease rv) (Blacklisted rv).

Definition set_CurrentRelease (b : bool) (rv : rversion) : rversion :=
  mkResourceVersion (VersionNumber rv) (semVer rv) (Available rv) (SigAvailable rv) b (PreRelease rv) (Blacklisted rv).

Definition set_PreRelease (b : bool) (rv : rversion) : rversion :=
  mkResourceVersion (VersionNumber rv) (semVer rv) (Available rv) (SigAvailable rv) (CurrentRelease rv) b (Blacklisted rv).

Definition set_Blacklisted (b : bool) (rv : rversion) : rversion :=
  mkResourceVersion (VersionNumber rv) (semVer rv) (Available rv) (SigAvailable rv) (CurrentRelease rv) (PreRelease rv) b.

(** Change the object behind a reference. *)
Definition update_version (f : rversion → rversion) (i : nat) (r : res) : res :=
  set_store (alter f i (store r)) r.

(** A field of the object behind a reference. *)
Definition vflag (f : rversion → bool) (r : res) (i : nat) : bool :=
  match store r !! i with Some rv => f rv | None => false end.

(** ** resource.go: what a version and a resource know *)

Definition index_of (reg : registry) (r : res) : option Index :=
  i ← res_Index r; index_objs reg !! i.

Definition isSelectable (reg : registry) (r : res) (rv : rversion) : bool :=
  if Blacklisted rv then false
  else if Available rv then true
  else if negb (Online reg) then false
  else match index_of reg r with
       | None => false
       | Some idx => idx_AutoDownload idx
       end.

Definition Less (r : res) (i j : nat) : bool :=
  match store r !! i, store r !! j with
  | Some a, Some b => GreaterThan (semVer a) (semVer b)
  | _, _ => false
  end.

Definition available (r : res) : bool := existsb (vflag Available r) (Versions r).

Definition inUse (r : res) : bool := bool_decide (is_Some (ActiveVersion r)).

Definition dir_path (reg : registry) (d : nat) : string :=
  match reg_dirs reg !! d with Some ds => ds_Path ds | None => "" end.

Definition versionedPath (r : res) (rv : rversion) : string :=
  GetVersionedPath (Identifier r) (VersionNumber rv).

Definition versionedSigPath (r : res) (rv : rversion) : string :=
  GetVersionedPath (Identifier r) (VersionNumber rv) ++ sig_Extension.

Definition storagePath (reg : registry) (r : res) (rv : rversion) : string :=
  path_Join (dir_path reg (storageDir reg)) (versionedPath r rv).

Definition storageSigPath (reg : registry) (r : res) (rv : rversion) : string :=
  storagePath reg r rv ++ sig_Extension.

Definition SigningMetadata (r : res) (rv : rversion) : list (string * string) :=
  [("id", Identifier r); ("version", VersionNumber rv)].

(** ** signing.go: the options of the longest matching prefix *)

Definition better_match (identifier : string) (best : Z * option (VerificationOptions TS))
    (entry : string * option (VerificationOptions TS)) : Z * option (VerificationOptions TS) :=
  let '(prefix, opts) := entry in
  if (best.1 <? Z.of_nat (String.length prefix))%Z && HasPrefix identifier prefix
  then (Z.of_nat (String.length prefix), opts) else best.

(** [entries] is the order of the map iteration. *)
Definition GetVerificationOptions_loop (entries : list (string * option (VerificationOptions TS)))
    (identifier : string) : option (VerificationOptions TS) :=
  (fold_left (better_match identifier) entries (-1, None)%Z).2.

Definition GetVerificationOptions (reg : registry) (identifier : string) : option (VerificationOptions TS) :=
  match Verification reg with
  | None => None
  | Some m => GetVerificationOptions_loop (map_to_list m) identifier
  end.

Definition newResource (reg : registry) (identifier : string) : res :=
  mkResource identifier [] [] None None [] None (GetVerificationOptions reg identifier) None.

(** ** notifier.go *)

Definition newNotifier : notifier := mkNotifier false false.

(** [close] of a closed channel panics. *)
Definition markAsUpgradeable {E : Type} (n : notifier) : go E notifier :=
  if upgradeAvailable n then Ret n
  else if notifyChannel_closed n then Panic
  else Ret (mkNotifier true true).

(** ** resource.go: operations *)

(** The version of AddVersion: an existing one, or a new one. *)
Definition find_or_create (version : string) : st (res * Sys) upd_error nat :=
  λ '(r, s),
    match List.find (λ i, vflag (λ rv, String.eqb (VersionNumber rv) version) r i) (Versions r) with
    | Some i => ((r, s), Ret i)
    | None =>
        match NewVersion version with
        | None => ((r, s), Fail UpdInvalidVersion)
        | Some sv =>
            let rv := mkResourceVersion (sv_String sv) sv false false false false false in
            let i := length (store r) in
            ((set_Versions (Versions r ++ [i])%list (set_store (store r ++ [rv])%list r), s), Ret i)
        end
    end.

(** The signature file is looked for when signatures are enabled. *)
Definition set_available (reg : registry) (i : nat) : st (res * Sys) upd_error unit :=
  λ '(r, s),
    let r := update_version (set_Available true) i r in
    match res_VerificationOptions r, store r !! i with
    | Some _, Some rv =>
        let '(s, exists_) := PathExists env (storageSigPath reg r rv) s in
        ((if bool_decide (exists_ = Ret true) then update_version (set_SigAvailable true) i r else r, s), Ret tt)
    | _, _ => ((r, s), Ret tt)
    end.

Definition AddVersion (reg : registry) (version : string) (available currentRelease preRelease : bool)
    : st (res * Sys) upd_error unit :=
  let$ _ := st_mod (λ '(r, s),
    (if currentRelease : bool
     then set_store (fold_right (alter (set_CurrentRelease false)) (store r) (Versions r)) r
     else r, s)) in
  let$ i := find_or_create version in
  let$ _ := (if available then set_available reg i else st_ret tt) in
  st_mod (λ '(r, s),
    let r := if currentRelease : bool then update_version (set_CurrentRelease true) i r else r in
    let r :=
      if preRelease || vflag (λ rv, negb (String.eqb (Prerelease (semVer rv)) "")) r i
      then update_version (set_PreRelease true) i r else r in
    (r, s)).

(** The target selection of selectVersion, on sorted versions. *)
Definition select_target (reg : registry) (r : res) : option nat :=
  let selectable := vflag (isSelectable reg r) r in
  match last (Versions r), Versions r with
  | Some oldest, newest :: _ =>
      if DevMode reg && vflag (λ rv, is_devVersion (semVer rv) && Available rv) r oldest then Some oldest
      else
        let current := List.find (vflag CurrentRelease r) (Versions r) in
        if match current with Some i => selectable i | None => false end then current
        else
          match (if UsePreReleases reg then List.find selectable (Versions r) else None) with
          | Some i => Some i
          | None =>
              match List.find (λ i, vflag (λ rv, negb (PreRelease rv)) r i && selectable i) (Versions r) with
              | Some i => Some i
              | None => Some newest
              end
          end
  | _, _ => None
  end.

(** The deferred part of selectVersion. *)
Definition notify_selection {E : Type} (r : res) : go E res :=
  if inUse r && bool_decide (SelectedVersion r ≠ ActiveVersion r) then
    match res_notifier r ≫= λ n, (pair n) <$> notifiers r !! n with
    | None => Ret r
    | Some (n, nt) =>
        let! nt := markAsUpgradeable nt in
        Ret (set_notifier (<[n := nt]> (notifiers r)) None r)
    end
  else Ret r.

Definition selectVersion {E : Type} (reg : registry) (r : res) : go E res :=
  let r := set_Versions (sort_Sort (Less r) (Versions r)) r in
  notify_selection (set_SelectedVersion (select_target reg r) r).

Definition Blacklist (reg : registry) (version : string) : st res upd_error unit :=
  λ r,
    let valid := length (List.filter (λ i, vflag (λ rv, negb (is_devVersion (semVer rv)) && negb (Blacklisted rv)) r i)
                           (Versions r)) in
    if (Z.of_nat valid <=? 1)%Z then (r, Fail UpdBlacklistLast)
    else
      match List.find (λ i, vflag (λ rv, String.eqb (VersionNumber rv) version) r i) (Versions r) with
      | None => (r, Fail UpdVersionNotFound)
      | Some i =>
          let r := update_version (set_Blacklisted true) i r in
          match selectVersion reg r with
          | Ret r' => (r', Ret tt)
          | Fail e => (r, Fail e)
          | Panic => (r, Panic)
          end
      end.

(** *** Purge *)

Record boundary_search : Type := mkSearch {
  skippedActiveVersion : bool;
  skippedSelectedVersion : bool;
  skippedStableVersion : bool;
}.

Fixpoint boundarySearch (r : res) (keepExtra : Z) (i : Z) (b : boundary_search) (vs : list nat) : Z :=
  match vs with
  | [] => 0
  | rv :: vs' =>
      if (negb (skippedActiveVersion b) && bool_decide (is_Some (ActiveVersion r)))
         || (negb (skippedSelectedVersion b) && bool_decide (is_Some (SelectedVersion r)))
         || negb (skippedStableVersion b)
      then
        boundarySearch r keepExtra (i + 1)
          (mkSearch (skippedActiveVersion b || bool_decide (Some rv = ActiveVersion r))
                    (skippedSelectedVersion b || bool_decide (Some rv = SelectedVersion r))
                    (skippedStableVersion b || vflag (λ v, negb (PreRelease v)) r rv)) vs'
      else s64 (i + keepExtra)
  end.

Definition purgeBoundary (r : res) (keepExtra : Z) : Z :=
  boundarySearch r keepExtra 0 (mkSearch false false false) (Versions r).

(** The files of one version: the resource, its signature and the unpacked
    resource. *)
Definition purge_version (reg : registry) (r : res) (i : nat) : st Sys os_error unit :=
  match store r !! i with
  | None => st_ret tt
  | Some rv =>
      if negb (Available rv) then st_ret tt
      else
        let storagePath := storagePath reg r rv in
        let$ _ := st_ignore (os_Remove env storagePath) in
        let$ _ := st_ignore (os_Remove env (storageSigPath reg r rv)) in
        let ext := path_Ext storagePath in
        if String.eqb ext "" then st_ret tt
        else
          let unpackedPath := TrimSuffix storagePath ext in
          let$ stat := st_try (os_Stat env unpackedPath) in
          match stat with
          | Fail OsNotExist => st_ret tt
          | _ => st_ignore (os_Remove env unpackedPath)
          end
  end.

Definition Resource_Purge (reg : registry) (keepExtra : Z) : st (res * Sys) os_error unit :=
  λ '(r, s),
    if existsb (vflag Blacklisted r) (Versions r) then ((r, s), Ret tt)
    else
      let keepExtra := (if (keepExtra <? 2)%Z then 2 else keepExtra)%Z in
      let boundary := purgeBoundary r keepExtra in
      if (boundary <=? keepExtra)%Z || (len (Versions r) <=? boundary)%Z then ((r, s), Ret tt)
      else
        match slice (Versions r) boundary (len (Versions r)) with
        | Ret purged =>
            let '(s, result) := st_iter (purge_version reg r) purged s in
            match result with
            | Ret _ => ((set_Versions purged r, s), Ret tt)
            | Fail e => ((r, s), Fail e)
            | Panic => ((r, s), Panic)
            end
        | Fail e => ((r, s), Fail e)
        | Panic => ((r, s), Panic)
        end.

(** *** Files *)

(** The notifier of a resource, created when there is none. *)
Definition ensure_notifier (r : res) : res * nat :=
  match res_notifier r with
  | Some n => (r, n)
  | None =>
      let n := length (notifiers r) in
      (set_notifier (notifiers r ++ [newNotifier])%list (Some n) r, n)
  end.

(** [Resource.GetFile]; it dereferences SelectedVersion. *)
Definition Resource_GetFile {E : Type} (reg : registry) (id : nat) (r : res) : go E (res * File) :=
  let '(r, _) := ensure_notifier r in
  let! r := (if bool_decide (SelectedVersion r = None) then selectVersion reg r else Ret r) in
  match SelectedVersion r ≫= λ i, (pair i) <$> store r !! i with
  | None => Panic
  | Some (i, rv) =>
      Ret (r, mkFile id i (res_notifier r) (versionedPath r rv) (storagePath reg r rv))
  end.

(** [ResourceVersion.GetFile] of the version [i]. *)
Definition ResourceVersion_GetFile {E : Type} (reg : registry) (id i : nat) (r : res) : go E (res * File) :=
  let '(r, n) := ensure_notifier r in
  match store r !! i with
  | None => Panic
  | Some rv => Ret (r, mkFile id i (Some n) (versionedPath r rv) (storagePath reg r rv))
  end.

Definition markActive (f : File) (r : res) : res :=
  if bool_decide (ActiveVersion r ≠ Some (file_version f)) then set_ActiveVersion (Some (file_version f)) r else r.

(** A nil notifier is dereferenced. *)
Definition UpgradeAvailable {E : Type} (f : File) (r : res) : go E bool :=
  match file_notifier f ≫= λ n, notifiers r !! n with
  | Some n => Ret (upgradeAvailable n)
  | None => Panic
  end.

(** [Resource.Export]: the exposed fields. *)
Definition Resource_Export (r : res) : string * list nat * option nat * option nat :=
  (Identifier r, Versions r, ActiveVersion r, SelectedVersion r).

End Resource.

(** ** The registry *)

Section Registry.
Context {SV TS : Type} `{!SemVer SV, !SortLib} (env : OsEnv) (sig_Extension : string).

(** [time.Now()] at the n-th external call. *)
Context (clock : nat → Z).

Abbreviation res := (Resource SV TS).
Abbreviation registry := (ResourceRegistry SV TS).

Record World : Type := mkWorld {
  w_reg : registry;
  w_sys : Sys;
}.

Abbreviation upd A := (st World upd_error A).

Definition set_resources (m : gmap string nat) (objs : list res) (g : registry) : registry :=
  mkResourceRegistry (reg_dirs g) (storageDir g) (tmpDir g) (indexes g) (index_objs g) m objs
    (UpdateURLs g) (MandatoryUpdates g) (AutoUnpack g) (Verification g) (UsePreReleases g) (DevMode g)
    (Online g) (StateNotify g) (reg_state g).

Definition set_indexes (l : list nat) (objs : list Index) (g : registry) : registry :=
  mkResourceRegistry (reg_dirs g) (storageDir g) (tmpDir g) l objs (resources g) (resource_objs g)
    (UpdateURLs g) (MandatoryUpdates g) (AutoUnpack g) (Verification g) (UsePreReleases g) (DevMode g)
    (Online g) (StateNotify g) (reg_state g).

Definition set_state (x : option RegistryState) (g : registry) : registry :=
  mkResourceRegistry (reg_dirs g) (storageDir g) (tmpDir g) (indexes g) (index_objs g) (resources g)
    (resource_objs g) (UpdateURLs g) (MandatoryUpdates g) (AutoUnpack g) (Verification g)
    (UsePreReleases g) (DevMode g) (Online g) (StateNotify g) x.

Definition set_dirs (h : dirs) (storage tmp : nat) (g : registry) : registry :=
  mkResourceRegistry h storage tmp (indexes g) (index_objs g) (resources g) (resource_objs g)
    (UpdateURLs g) (MandatoryUpdates g) (AutoUnpack g) (Verification g) (UsePreReleases g) (DevMode g)
    (Online g) (StateNotify g) (reg_state g).

Definition SetDevMode (on : bool) (g : registry) : registry :=
  mkResourceRegistry (reg_dirs g) (storageDir g) (tmpDir g) (indexes g) (index_objs g) (resources g)
    (resource_objs g) (UpdateURLs g) (MandatoryUpdates g) (AutoUnpack g) (Verification g)
    (UsePreReleases g) on (Online g) (StateNotify g) (reg_state g).

Definition SetUsePreReleases (yes : bool) (g : registry) : registry :=
  mkResourceRegistry (reg_dirs g) (storageDir g) (tmpDir g) (indexes g) (index_objs g) (resources g)
    (resource_objs g) (UpdateURLs g) (MandatoryUpdates g) (AutoUnpack g) (Verification g) yes
    (DevMode g) (Online g) (StateNotify g) (reg_state g).

Definition on_reg (f : registry → registry) : upd unit :=
  st_mod (λ w, mkWorld (f (w_reg w)) (w_sys w)).

Definition upd_panic {A : Type} : upd A := λ w, (w, Panic).

(** A call of the file system. *)
Definition on_os {E A : Type} (f : E → upd_error) (m : st Sys E A) : upd A :=
  λ w, let '(s, r) := m (w_sys w) in (mkWorld (w_reg w) s, go_mapError f r).

(** A method of the resource [id]. *)
Definition on_resource {A : Type} (id : nat) (m : registry → st (res * Sys) upd_error A) : upd A :=
  λ w, match resource_objs (w_reg w) !! id with
       | None => (w, Panic)
       | Some r =>
           let '((r', s'), a) := m (w_reg w) (r, w_sys w) in
           (mkWorld (set_resources (resources (w_reg w)) (<[id := r']> (resource_objs (w_reg w))) (w_reg w)) s', a)
       end.

(** A method that changes only the resource. *)
Definition lift_resource {A : Type} (f : res → go upd_error (res * A)) : st (res * Sys) upd_error A :=
  λ '(r, s), match f r with
             | Ret (r', a) => ((r', s), Ret a)
             | Fail e => ((r, s), Fail e)
             | Panic => ((r, s), Panic)
             end.

(** *** state.go *)

(** The deferred [s.notify()]. *)
Definition notify (notifyFunc : bool) (s : RegistryState) : RegistryState :=
  if notifyFunc
  then mkRegistryState (st_ID s) (st_Details s) (st_Updates s) (operationLocked s)
         ((st_ID s, st_Details s, st_Updates s) :: reported s)
  else s.

Definition on_state (f : RegistryState → go upd_error RegistryState) : upd unit :=
  λ w, match reg_state (w_reg w) with
       | None => (w, Panic)
       | Some s =>
           match f s with
           | Ret s' => (mkWorld (set_state (Some (notify (StateNotify (w_reg w)) s')) (w_reg w)) (w_sys w), Ret tt)
           | Fail e => (w, Fail e)
           | Panic => (w, Panic)
           end
       end.

Definition StartOperation (id : string) : upd unit :=
  on_state (λ s, if operationLocked s then Fail UpdBlocks
                 else Ret (mkRegistryState id (st_Details s) (st_Updates s) true (reported s))).

Definition UpdateOperationDetails (details : StateDownloadingDetails) : upd unit :=
  on_state (λ s, Ret (mkRegistryState (st_ID s) (Some details) (st_Updates s) (operationLocked s) (reported s))).

Definition EndOperation : upd unit :=
  on_state (λ s, if operationLocked s
                 then Ret (mkRegistryState StateReady None (st_Updates s) false (reported s))
                 else Panic).

(** [defer reg.state.EndOperation()]. *)
Definition with_operation {A : Type} (id : string) (body : upd A) : upd A :=
  let$ _ := StartOperation id in
  let$ r := st_try body in
  let$ _ := EndOperation in
  λ w, (w, r).

(** [time.Now()]. *)
Definition time_Now : upd Z :=
  λ w, let s := w_sys w in (mkWorld (w_reg w) (mkSys (sys_fs s) (S (sys_tick s))), Ret (clock (sys_tick s))).

Definition string_less (a b : string) : bool := String.ltb a b.

Definition ReportUpdateCheck (pendingDownload : list string) (failed : option upd_error) : upd unit :=
  let pendingDownload := sort_Sort string_less pendingDownload in
  let$ now := time_Now in
  on_state (λ s,
    let u := st_Updates s in
    Ret (mkRegistryState (st_ID s) (st_Details s)
      (mkUpdateState (Some now) failed pendingDownload (LastDownloadAt u) (LastDownloadError u) (LastDownload u)
         (match failed with None => Some now | Some _ => LastSuccessAt u end))
      (operationLocked s) (reported s))).

Definition ReportDownloads (downloaded : list string) (failed : option upd_error) : upd unit :=
  let downloaded := sort_Sort string_less downloaded in
  let$ now := time_Now in
  on_state (λ s,
    let u := st_Updates s in
    let pending := List.filter (λ p, negb (StringInSlice downloaded p)) (PendingDownload u) in
    Ret (mkRegistryState (st_ID s) (st_Details s)
      (mkUpdateState (LastCheckAt u) (LastCheckError u) pending (Some now) failed downloaded
         (match failed with None => Some now | Some _ => LastSuccessAt u end))
      (operationLocked s) (reported s))).

(** *** registry.go *)

Definition empty_updates : UpdateState := mkUpdateState None None [] None None [] None.

Definition PreInitUpdateState (u : UpdateState) : upd unit :=
  λ w, match reg_state (w_reg w) with
       | Some _ => (w, Fail UpdAlreadyInitialized)
       | None => (mkWorld (set_state (Some (mkRegistryState "" None u false [])) (w_reg w)) (w_sys w), Ret tt)
       end.

(** The checks of the verification options, in the order of the map
    iteration. *)
Fixpoint check_Verification (entries : list (string * option (VerificationOptions TS))) : go upd_error unit :=
  match entries with
  | [] => Ret tt
  | (_, None) :: entries' => check_Verification entries'
  | (_, Some opts) :: entries' =>
      match TrustStore opts with
      | None => Fail UpdNoTrustStore
      | Some _ =>
          if (DiskLoadPolicy opts <? DownloadPolicy opts)%Z then Fail UpdPolicyOrder
          else check_Verification entries'
      end
  end.

Definition Cleanup_tmp : upd unit :=
  λ w, on_os UpdOs (os_RemoveAll env (dir_path (w_reg w) (tmpDir (w_reg w)))) w.

(** [storage] is the DirStructure given to Initialize. *)
Definition Initialize (storage : nat) : upd unit :=
  let$ _ := λ w, on_os UpdUtils (Ensure env (reg_dirs (w_reg w)) storage) w in
  let$ _ := λ w,
    match ChildDir storage "tmp" 448 (reg_dirs (w_reg w)) with
    | None => (w, Panic)
    | Some (h, tmp) => (mkWorld (set_dirs h storage tmp (w_reg w)) (w_sys w), Ret tt)
    end in
  let$ _ := on_reg (λ g,
    let s := default (mkRegistryState "" None empty_updates false []) (reg_state g) in
    set_state (Some (mkRegistryState StateReady (st_Details s) (st_Updates s) (operationLocked s) (reported s)))
      (set_resources ∅ (resource_objs g) g)) in
  let$ _ := st_ignore Cleanup_tmp in
  let$ _ := st_ignore (λ w, on_os UpdUtils (Ensure env (reg_dirs (w_reg w)) (tmpDir (w_reg w))) w) in
  λ w, (w, match Verification (w_reg w) with
           | None => Ret tt
           | Some m => check_Verification (map_to_list m)
           end).

(** The channel is the name of the file without its extension. *)
Definition AddIndex (idx : Index) (g : registry) : registry :=
  let idx := mkIndex (idx_Path idx) (TrimSuffix (path_Base (idx_Path idx)) (path_Ext (idx_Path idx)))
               (idx_PreRelease idx) (idx_AutoDownload idx) (idx_LastRelease idx) in
  set_indexes (indexes g ++ [length (index_objs g)])%list (index_objs g ++ [idx])%list g.

(** The resource of an identifier, created when there is none. *)
Definition find_resource (identifier : string) : upd nat :=
  λ w,
    let g := w_reg w in
    match resources g !! identifier with
    | Some id => (w, Ret id)
    | None =>
        let id := length (resource_objs g) in
        (mkWorld (set_resources (<[identifier := id]> (resources g))
                   (resource_objs g ++ [newResource g identifier])%list g) (w_sys w), Ret id)
    end.

Definition addResource (identifier version : string) (index : option nat)
    (available currentRelease preRelease : bool) : upd unit :=
  let$ id := find_resource identifier in
  let$ _ := on_resource id (λ _, st_mod (λ '(r, s), (set_Index index r, s))) in
  on_resource id (λ g, AddVersion env sig_Extension g version available currentRelease preRelease).

(** The error of the last iteration. *)
Fixpoint AddResources_loop (versions : list (string * string)) (index : option nat)
    (available currentRelease preRelease : bool) (lastError : option upd_error) : upd unit :=
  match versions with
  | [] => match lastError with None => st_ret tt | Some e => st_fail e end
  | (identifier, version) :: versions' =>
      let$ r := st_try (addResource identifier version index available currentRelease preRelease) in
      AddResources_loop versions' index available currentRelease preRelease
        (match r with Fail e => Some e | _ => None end)
  end.

(** [versions] is the order of the map iteration. *)
Definition AddResources (versions : list (string * string)) (index : option nat)
    (available currentRelease preRelease : bool) : upd unit :=
  AddResources_loop versions index available currentRelease preRelease None.

(** [order] is the order of the iteration over the resources, here and
    below. *)
Definition SelectVersions (order : list nat) : upd unit :=
  st_iter (λ id, on_resource id (λ g, lift_resource (λ r, let! r := selectVersion g r in Ret (r, tt)))) order.

(** The result map is nil, and an assignment into a nil map panics. *)
Definition GetSelectedVersions {E : Type} (order : list nat) (g : registry) : go E (gmap string string) :=
  match order with
  | [] => Ret ∅
  | _ :: _ => Panic
  end.

Definition Registry_Purge (keep : Z) (order : list nat) : upd unit :=
  st_iter (λ id, on_resource id (λ g rs,
    let '(rs', r) := Resource_Purge env sig_Extension g keep rs in (rs', go_mapError UpdOs r))) order.

Definition ResetResources (g : registry) : registry := set_resources ∅ (resource_objs g) g.

Definition ResetIndexes (g : registry) : registry := set_indexes [] (index_objs g) g.

(** *** file.go and get.go, without the network *)

Definition File_Blacklist (f : File) : upd unit :=
  on_resource (file_resource f) (λ g '(r, s),
    match store r !! file_version f with
    | None => ((r, s), Panic)
    | Some rv => let '(r', a) := Blacklist g (VersionNumber rv) r in ((r', s), a)
    end).

Definition markActiveWithLocking (f : File) : upd unit :=
  on_resource (file_resource f) (λ _, st_mod (λ '(r, s), (markActive f r, s))).

Definition GetVersion (identifier : string) (g : registry) : go upd_error (option nat) :=
  match resources g !! identifier with
  | None => Fail UpdNotFound
  | Some id =>
      match resource_objs g !! id with
      | None => Panic
      | Some r => Ret (SelectedVersion r)
      end
  end.

(** *** updating.go: pending downloads *)

(** The versions of one resource that have to be downloaded, and those whose
    signature is missing. *)
Definition pending_of (g : registry) (manual auto : bool) (id : nat) : list (nat * nat) * list (nat * nat) :=
  match resource_objs g !! id with
  | None => ([], [])
  | Some r =>
      match index_of g r with
      | None => ([], [])
      | Some idx =>
          if negb ((manual && negb (idx_AutoDownload idx)) || (auto && idx_AutoDownload idx)) then ([], [])
          else if negb (inUse r || available r || StringInSlice (MandatoryUpdates g) (Identifier r)) then ([], [])
          else
            ((pair id) <$> List.filter (λ i, vflag (λ rv, CurrentRelease rv && negb (Available rv)) r i) (Versions r),
             (pair id) <$> List.filter (λ i, vflag (λ rv, CurrentRelease rv && Available rv &&
                negb (SigAvailable rv) && bool_decide (is_Some (res_VerificationOptions r))) r i) (Versions r))
      end
  end.

Definition identifier_of (g : registry) (id : nat) : string :=
  match resource_objs g !! id with Some r => Identifier r | None => "" end.

Definition GetPendingDownloads (manual auto : bool) (order : list nat) (g : registry)
    : list (nat * nat) * list (nat * nat) :=
  let less (a b : nat * nat) := string_less (identifier_of g a.1) (identifier_of g b.1) in
  let found := pending_of g manual auto <$> order in
  (sort_Sort less (concat found.*1), sort_Sort less (concat found.*2)).

Definition version_of (g : registry) (rv : nat * nat) : option (res * ResourceVersion SV) :=
  r ← resource_objs g !! rv.1; v ← store r !! rv.2; Some (r, v).

Definition humanInfo (g : registry) (rv : nat * nat) : string :=
  match version_of g rv with
  | Some (r, v) => Identifier r ++ " v" ++ VersionNumber v
  | None => ""
  end.

Definition humanInfoFromResourceVersions (g : registry) (rvs : list (nat * nat)) : list string :=
  humanInfo g <$> rvs.

End Registry.

Arguments World : clear implicits.
