(* ===== verification/UpdaterSelect.v ===== *)
(** * updater: which version is selected, blacklisted and purged

    The invariant of a resource, the order of its versions, and the theorems
    about selectVersion, Blacklist, AddVersion and Purge of
    updater/resource.go, for every version library that compares with a total
    preorder and every sorting algorithm. *)

From Stdlib Require Import ZArith Lia Ascii String.
From stdpp Require Import gmap strings sorting.
From S2P Require Import Prelude GoStrings GoVersion GoSort GoPath GoFs UtilsFs UpdaterNames Updater.
Local Open Scope string_scope.

(** ** The invariant of a resource *)

Section Spec.
Context {SV TS : Type} `{!SemVer SV}.
Abbreviation res := (Resource SV TS).
Abbreviation registry := (ResourceRegistry SV TS).

Definition in_store (r : res) (i : nat) : Prop := i < length (store r).

Definition version_fields_ok (rv : ResourceVersion SV) : Prop :=
  VersionNumber rv = sv_String (semVer rv) ∧
  (Prerelease (semVer rv) ≠ "" → PreRelease rv = true).

Record resource_ok (r : res) : Prop := {
  versions_nodup : NoDup (Versions r);
  versions_in_store : Forall (in_store r) (Versions r);
  active_in_store : ∀ i, ActiveVersion r = Some i → in_store r i;
  selected_in_store : ∀ i, SelectedVersion r = Some i → in_store r i;
  single_current : ∀ i j, i ∈ Versions r → j ∈ Versions r →
    vflag CurrentRelease r i = true → vflag CurrentRelease r j = true → i = j;
  fields_ok : Forall version_fields_ok (store r);
  current_notifier_unused : ∀ n, res_notifier r = Some n → notifiers r !! n = Some newNotifier;
  notifiers_ok : Forall (λ n, upgradeAvailable n = notifyChannel_closed n) (notifiers r);
}.

(** ** What selectVersion promises *)

(** Among the versions that satisfy [P], [i] is one than which none is newer. *)
Definition newest (r : res) (P : nat → bool) (i : nat) : Prop :=
  i ∈ Versions r ∧ P i = true ∧ ∀ j, j ∈ Versions r → P j = true → Less r j i = false.

(** No version is older than [i]. *)
Definition oldest (r : res) (i : nat) : Prop :=
  i ∈ Versions r ∧ ∀ j, j ∈ Versions r → Less r i j = false.

Definition selectable (reg : registry) (r : res) : nat → bool := vflag (isSelectable reg r) r.

Definition dev_available (r : res) : nat → bool :=
  vflag (λ rv, is_devVersion (semVer rv) && Available rv) r.

Definition stable (r : res) : nat → bool := vflag (λ rv, negb (PreRelease rv)) r.

Definition no_dev (reg : registry) (r : res) : Prop :=
  DevMode reg = false ∨ ∃ i, oldest r i ∧ dev_available r i = false.

Definition no_current (reg : registry) (r : res) : Prop :=
  ∀ i, i ∈ Versions r → vflag CurrentRelease r i = true → selectable reg r i = false.

(** The five rules of the target selection, in their order. *)
Inductive selection (reg : registry) (r : res) : option nat → Prop :=
| selection_empty : Versions r = [] → selection reg r None
| selection_dev i :
    DevMode reg = true → oldest r i → dev_available r i = true → selection reg r (Some i)
| selection_current i :
    no_dev reg r →
    i ∈ Versions r → vflag CurrentRelease r i = true → selectable reg r i = true →
    selection reg r (Some i)
| selection_prerelease i :
    no_dev reg r → no_current reg r →
    UsePreReleases reg = true → newest r (selectable reg r) i → selection reg r (Some i)
| selection_stable i :
    no_dev reg r → no_current reg r →
    (UsePreReleases reg = true → ∀ j, j ∈ Versions r → selectable reg r j = false) →
    newest r (λ j, stable r j && selectable reg r j) i → selection reg r (Some i)
| selection_fallback i :
    no_dev reg r → no_current reg r →
    (UsePreReleases reg = true → ∀ j, j ∈ Versions r → selectable reg r j = false) →
    (∀ j, j ∈ Versions r → stable r j && selectable reg r j = false) →
    newest r (λ _, true) i → selection reg r (Some i).

(** Who is told about a new selection. *)
Definition notified (r : res) (selected : option nat) : bool :=
  inUse r && bool_decide (selected ≠ ActiveVersion r) && bool_decide (is_Some (res_notifier r)).

End Spec.

(** ** Versions are ordered *)

Section Order.
Context {SV TS : Type} `{!SemVer SV, !SemVerLaws SV}.
Abbreviation res := (Resource SV TS).

Lemma Compare_refl (a : SV) : sv_Compare a a = Eq.
Proof. pose proof (Compare_antisym a a) as H. by destruct (sv_Compare a a). Qed.

Lemma GreaterThan_false (a b : SV) : GreaterThan a b = false ↔ sv_Compare b a ≠ Lt.
Proof.
  unfold GreaterThan. rewrite bool_decide_eq_false, (Compare_antisym b a).
  by destruct (sv_Compare b a); naive_solver.
Qed.

Lemma GreaterThan_total (a b : SV) : GreaterThan a b = true → GreaterThan b a = false.
Proof.
  rewrite GreaterThan_false. unfold GreaterThan. rewrite bool_decide_eq_true. by intros ->.
Qed.

(** [Less] is an ordering of references to stored versions, as sort.Sort
    requires. *)
Lemma Less_ordering (r : res) : Forall (in_store r) (Versions r) → ordering_on (Less r) (Versions r).
Proof.
  intros Hin. rewrite Forall_forall in Hin. unfold ordering_on, Less.
  assert (∀ i, i ∈ Versions r → ∃ rv, store r !! i = Some rv) as Hs.
  { intros i Hi. apply lookup_lt_is_Some. by apply Hin. }
  split_and!.
  - intros i Hi. destruct (Hs i Hi) as [rv ->]. rewrite GreaterThan_false, Compare_refl. done.
  - intros i j k Hi Hj Hk. destruct (Hs i Hi) as [a ->], (Hs j Hj) as [b ->], (Hs k Hk) as [c ->].
    intros H1 H2. destruct (GreaterThan (semVer a) (semVer c)) eqn:H3; [done|].
    apply GreaterThan_total in H2. rewrite GreaterThan_false in H2, H3.
    assert (GreaterThan (semVer a) (semVer b) = false) as H4.
    { apply GreaterThan_false. by apply (Compare_trans _ (semVer c)). }
    by rewrite H4 in H1.
  - intros i j k Hi Hj Hk. destruct (Hs i Hi) as [a ->], (Hs j Hj) as [b ->], (Hs k Hk) as [c ->].
    rewrite !GreaterThan_false. intros H1 H2. by eapply Compare_trans.
Qed.

End Order.

(** Searching a sorted list from its beginning finds a least element. *)
Lemma find_sorted {A : Type} (less : A → A → bool) (P : A → bool) (l : list A) (x : A) :
  (∀ y, y ∈ l → less y y = false) →
  StronglySorted (λ a b, less b a = false) l → List.find P l = Some x →
  x ∈ l ∧ P x = true ∧ ∀ y, y ∈ l → P y = true → less y x = false.
Proof.
  intros Hirr Hs Hf. induction Hs as [|a l Hs IH Ha]; [done|]. simpl in Hf.
  rewrite Forall_forall in Ha. destruct (P a) eqn:HP; simplify_eq.
  - split_and!; [by left|done|]. intros y [->|Hy]%elem_of_cons _; [|by apply Ha]. apply Hirr. by left.
  - destruct IH as (Hx & HPx & Hall); [by intros y Hy; apply Hirr; right|done|].
    split_and!; [by right|done|]. intros y [->|Hy]%elem_of_cons HPy; [by rewrite HP in HPy|by apply Hall].
Qed.

Lemma find_none_elem {A : Type} (P : A → bool) (l : list A) :
  List.find P l = None ↔ ∀ x, x ∈ l → P x = false.
Proof.
  induction l as [|a l IH]; simpl; [by split; [intros _ x Hx%elem_of_nil|]|].
  destruct (P a) eqn:Ha.
  - split; [done|]. intros H. rewrite H in Ha; [done|by left].
  - rewrite IH. split; intros H x; [intros [->|Hx]%elem_of_cons; [done|by apply H]|].
    intros Hx. apply H. by right.
Qed.

Lemma last_sorted {A : Type} (less : A → A → bool) (l : list A) (x : A) :
  (∀ y, y ∈ l → less y y = false) →
  StronglySorted (λ a b, less b a = false) l → last l = Some x →
  x ∈ l ∧ ∀ y, y ∈ l → less x y = false.
Proof.
  intros Hirr Hs Hl. induction Hs as [|a l Hs IH Ha]; [done|].
  rewrite Forall_forall in Ha. destruct l as [|b l].
  - simpl in Hl. simplify_eq. split; [by left|]. intros y [->|Hy%elem_of_nil]%elem_of_cons; [|done].
    apply Hirr. by left.
  - destruct IH as [Hx Hall]; [by intros y Hy; apply Hirr; right|done|].
    split; [by right|]. intros y [->|Hy]%elem_of_cons; [by apply Ha|by apply Hall].
Qed.

(** ** selectVersion *)

Section Select.
Context {SV TS : Type} `{!SemVer SV, !SemVerLaws SV} {sort_lib : SortLib} {sort_laws : SortLaws}.
Abbreviation res := (Resource SV TS).
Abbreviation registry := (ResourceRegistry SV TS).
Implicit Types (r : res) (reg : registry).

Definition versions_sorted (r : res) : Prop := StronglySorted (λ i j, Less r j i = false) (Versions r).

Lemma Less_irrefl r i : Less r i i = false.
Proof. unfold Less. destruct (store r !! i); [|done]. by rewrite GreaterThan_false, Compare_refl. Qed.

Lemma find_newest r P i : versions_sorted r → List.find P (Versions r) = Some i → newest r P i.
Proof. intros Hs Hf. apply (find_sorted (Less r)); [|done|done]. intros y _. apply Less_irrefl. Qed.

(** The rules for pre-releases, stable versions and the fallback. *)
Lemma select_rest_spec reg r n :
  versions_sorted r → no_dev reg r → no_current reg r → newest r (λ _, true) n →
  selection reg r
    match (if UsePreReleases reg then List.find (selectable reg r) (Versions r) else None) with
    | Some i => Some i
    | None =>
        match List.find (λ i, stable r i && selectable reg r i) (Versions r) with
        | Some i => Some i
        | None => Some n
        end
    end.
Proof.
  intros Hs Hnd Hnc Hn. destruct (if UsePreReleases reg then _ else _) as [p|] eqn:Hp.
  - destruct (UsePreReleases reg) eqn:Hup; [|done]. apply selection_prerelease; [done..|]. by apply find_newest.
  - assert (UsePreReleases reg = true → ∀ j, j ∈ Versions r → selectable reg r j = false) as Hnp.
    { intros Hup. rewrite Hup in Hp. by apply find_none_elem. }
    clear Hp. destruct (List.find _ (Versions r)) as [x|] eqn:Hx.
    + apply selection_stable; [done..|]. by apply find_newest.
    + apply selection_fallback; [done..| |done]. by apply find_none_elem.
Qed.

Lemma select_target_spec reg r : resource_ok r → versions_sorted r → selection reg r (select_target reg r).
Proof.
  intros Hok Hs. unfold select_target.
  destruct (last (Versions r)) as [o|] eqn:Hlast.
  2:{ apply last_None in Hlast. by apply selection_empty. }
  assert (oldest r o) as Ho.
  { apply (last_sorted (Less r)); [|done|done]. intros y _. apply Less_irrefl. }
  destruct (Versions r) as [|n vs] eqn:Hvs; [done|]. rewrite <- Hvs.
  assert (newest r (λ _, true) n) as Hn. { apply find_newest; [done|]. by rewrite Hvs. }
  destruct (DevMode reg && _) eqn:Hdev.
  { apply andb_true_iff in Hdev as [Hd Ha]. by apply selection_dev. }
  assert (no_dev reg r) as Hnd.
  { apply andb_false_iff in Hdev as [Hd|Hd]; [by left|]. right. exists o. by split. }
  destruct (List.find (vflag CurrentRelease r) (Versions r)) as [c|] eqn:Hc.
  - destruct (find_newest r _ c Hs Hc) as (Hcin & Hcc & _).
    destruct (vflag (isSelectable reg r) r c) eqn:Hcs; [by apply selection_current|].
    apply select_rest_spec; [done..| |done].
    intros i Hi Hic. by rewrite (single_current r Hok i c Hi Hcin Hic Hcc).
  - apply select_rest_spec; [done..| |done].
    intros i Hi Hic. rewrite find_none_elem in Hc. by rewrite (Hc i Hi) in Hic.
Qed.

Lemma newest_perm r vs P i : vs ≡ₚ Versions r → newest (set_Versions vs r) P i → newest r P i.
Proof. intros Hp (H1 & H2 & H3). unfold newest in *. simpl in *. split_and!; [by rewrite <- Hp|done|]. intros j. rewrite <- Hp. apply H3. Qed.

Lemma oldest_perm r vs i : vs ≡ₚ Versions r → oldest (set_Versions vs r) i → oldest r i.
Proof. intros Hp (H1 & H2). unfold oldest in *. simpl in *. split; [by rewrite <- Hp|]. intros j. rewrite <- Hp. apply H2. Qed.

Lemma no_dev_perm reg r vs : vs ≡ₚ Versions r → no_dev reg (set_Versions vs r) → no_dev reg r.
Proof. intros Hp [?|(i & Hi & Hd)]; [by left|right]. exists i. split; [by eapply oldest_perm|done]. Qed.

Lemma all_perm r vs (P : nat → Prop) :
  vs ≡ₚ Versions r → (∀ j, j ∈ Versions (set_Versions vs r) → P j) → ∀ j, j ∈ Versions r → P j.
Proof. intros Hp H j Hj. apply H. simpl. by rewrite Hp. Qed.

Lemma no_current_perm reg r vs : vs ≡ₚ Versions r → no_current reg (set_Versions vs r) → no_current reg r.
Proof. intros Hp H i Hi. apply H. simpl. by rewrite Hp. Qed.

(** The selection does not depend on the order in which the versions are
    kept. *)
Lemma selection_perm reg r vs x :
  vs ≡ₚ Versions r → selection reg (set_Versions vs r) x → selection reg r x.
Proof.
  intros Hp H. destruct H as [H|i Hd Ho Ha|i Hnd Hi Hc Hs|i Hnd Hnc Hu Hn|i Hnd Hnc Hu Hn|i Hnd Hnc Hu Hst Hn].
  - apply selection_empty. simpl in H. subst. by apply Permutation_nil_l in Hp.
  - apply selection_dev; [done|by eapply oldest_perm|done].
  - apply selection_current; [by eapply no_dev_perm| |done|done]. by rewrite <- Hp.
  - apply selection_prerelease; [by eapply no_dev_perm| |done|by eapply newest_perm].
    by eapply no_current_perm.
  - apply selection_stable; [by eapply no_dev_perm| | |by eapply newest_perm].
    + by eapply no_current_perm.
    + intros Hup. apply (all_perm r vs _ Hp). by apply Hu.
  - apply selection_fallback; [by eapply no_dev_perm| | | |by eapply newest_perm].
    + by eapply no_current_perm.
    + intros Hup. apply (all_perm r vs _ Hp). by apply Hu.
    + by apply (all_perm r vs _ Hp).
Qed.

Lemma resource_ok_perm r vs : vs ≡ₚ Versions r → resource_ok r → resource_ok (set_Versions vs r).
Proof.
  intros Hp [H1 H2 H3 H4 H5 H6 H7 H8]. split; simpl; try done.
  - by rewrite Hp.
  - apply (Forall_Permutation (in_store r)) with (Versions r); done.
  - intros i j Hi Hj. rewrite Hp in Hi, Hj. by apply H5.
Qed.

Lemma sort_versions_sorted r :
  resource_ok r → versions_sorted (set_Versions (sort_Sort (Less r) (Versions r)) r).
Proof. intros Hok. apply (Sort_sorted nat (Less r)). apply Less_ordering. by destruct Hok. Qed.

Lemma selection_in_versions reg r i : selection reg r (Some i) → i ∈ Versions r.
Proof.
  inversion 1 as [|? ? Ho| |? ? ? ? Hn|? ? ? ? Hn|? ? ? ? ? Hn]; subst; [apply Ho|done|apply Hn..].
Qed.

(** The deferred notification never closes a channel twice. *)
Lemma notify_selection_spec {E : Type} r :
  resource_ok r →
  notify_selection (E:=E) r = Ret
    (if notified r (SelectedVersion r)
     then set_notifier (match res_notifier r with
                        | Some n => <[n := mkNotifier true true]> (notifiers r)
                        | None => notifiers r
                        end) None r
     else r).
Proof.
  intros Hok. unfold notify_selection, notified. destruct (inUse r && _) eqn:Hu; [|done].
  destruct (res_notifier r) as [n|] eqn:Hn; simpl; [|done].
  by rewrite (current_notifier_unused r Hok n Hn).
Qed.

Lemma resource_ok_select r x :
  resource_ok r → (∀ i, x = Some i → i ∈ Versions r) → resource_ok (set_SelectedVersion x r).
Proof.
  intros [H1 H2 H3 H4 H5 H6 H7 H8] Hx. split; simpl; try done.
  intros i Hi. rewrite Forall_forall in H2. by apply H2, Hx.
Qed.

Lemma resource_ok_marked r n :
  resource_ok r → resource_ok (set_notifier (<[n := mkNotifier true true]> (notifiers r)) None r).
Proof. intros [H1 H2 H3 H4 H5 H6 H7 H8]. split; simpl; try done. by apply Forall_insert. Qed.

Lemma resource_ok_no_notifier r : resource_ok r → resource_ok (set_notifier (notifiers r) None r).
Proof. intros [H1 H2 H3 H4 H5 H6 H7 H8]. by split. Qed.

Lemma selectVersion_ok {E : Type} reg r :
  resource_ok r → ∃ r', selectVersion (E:=E) reg r = Ret r' ∧ resource_ok r' ∧
    selection reg r (SelectedVersion r') ∧ Versions r' ≡ₚ Versions r ∧ versions_sorted r' ∧
    r' = set_Versions (Versions r') (set_SelectedVersion (SelectedVersion r')
           (set_notifier (notifiers r') (res_notifier r') r)) ∧
    (notifiers r', res_notifier r') =
      (if notified r (SelectedVersion r')
       then (match res_notifier r with
             | Some n => <[n := mkNotifier true true]> (notifiers r)
             | None => notifiers r
             end, None)
       else (notifiers r, res_notifier r)).
Proof.
  intros Hok. unfold selectVersion. set (vs := sort_Sort (Less r) (Versions r)).
  assert (vs ≡ₚ Versions r) as Hp by apply Sort_perm.
  assert (resource_ok (set_Versions vs r)) as Hok1 by (by apply resource_ok_perm).
  assert (versions_sorted (set_Versions vs r)) as Hs by (by apply sort_versions_sorted).
  pose proof (select_target_spec reg _ Hok1 Hs) as Hsel. set (x := select_target reg (set_Versions vs r)) in *.
  assert (resource_ok (set_SelectedVersion x (set_Versions vs r))) as Hok2.
  { apply resource_ok_select; [done|]. intros i Hi. rewrite Hi in Hsel. by eapply selection_in_versions. }
  rewrite notify_selection_spec by done. eexists. split; [done|].
  change (notified (set_SelectedVersion x (set_Versions vs r)) (SelectedVersion (set_SelectedVersion x (set_Versions vs r))))
    with (notified r x).
  destruct (notified r x) eqn:Hnot; simpl; rewrite ?Hnot.
  - split_and!; [|by eapply selection_perm|done..]. destruct (res_notifier r); [|by apply (resource_ok_no_notifier (set_SelectedVersion x (set_Versions vs r)))].
    by apply (resource_ok_marked (set_SelectedVersion x (set_Versions vs r))).
  - split_and!; [done|by eapply selection_perm|done..|by destruct r].
Qed.

End Select.

(** ** Instances *)

(** A small version library: up to three numbers and a pre-release; a
    pre-release comes before its release, and numbers are compared up to a
    thousand. *)
Record simple_version : Type := mkSimple {
  sm_major : Z;
  sm_minor : Z;
  sm_patch : Z;
  sm_pre : string;
}.

Definition simple_key (v : simple_version) : Z :=
  (((sm_major v * 1000 + sm_minor v) * 1000 + sm_patch v) * 2 + (if String.eqb (sm_pre v) "" then 1 else 0))%Z.

Definition parse_numbers (s : string) : option (list Z) := mapM (λ d, ParseUint d 32) (Split s ".").

Definition simple_parse (s : string) : option simple_version :=
  let '(numbers, pre) := default (s, "") (Cut s "-") in
  l ← parse_numbers numbers;
  match l with
  | [a] => Some (mkSimple a 0 0 pre)
  | [a; b] => Some (mkSimple a b 0 pre)
  | [a; b; c] => Some (mkSimple a b c pre)
  | _ => None
  end.

Definition simple_string (v : simple_version) : string :=
  FormatUint (sm_major v) ++ "." ++ FormatUint (sm_minor v) ++ "." ++ FormatUint (sm_patch v) ++
  (if String.eqb (sm_pre v) "" then "" else "-" ++ sm_pre v).

#[global] Instance simple_semver : SemVer simple_version := {|
  NewVersion := simple_parse;
  sv_String := simple_string;
  sv_Compare := λ a b, (simple_key a ?= simple_key b)%Z;
  Prerelease := sm_pre;
|}.

#[global] Instance simple_semver_laws : SemVerLaws simple_version.
Proof.
  split; simpl.
  - intros a b. apply Z.compare_antisym.
  - intros a b c. rewrite !Z.compare_nlt_iff. lia.
  - vm_compute. by eexists.
Qed.

(** A registry with the given switches and one index. *)
Definition example_registry (dev pre online auto : bool) : ResourceRegistry simple_version unit :=
  mkResourceRegistry [mkDirStructure "/data/updates" "" 493 None ∅] 0 0 [0]
    [mkIndex "stable.json" "stable" false auto None] ∅ [] ["https://updates"] [] [] None pre dev online
    false None.

Definition example_version (version : string) (available current black : bool) : ResourceVersion simple_version :=
  let v := default (mkSimple 0 0 0 "") (simple_parse version) in
  mkResourceVersion (simple_string v) v available false current (negb (String.eqb (sm_pre v) "")) black.

(** A resource with these versions, all of them referenced in this order. *)
Definition example_resource (vs : list (ResourceVersion simple_version)) (active : option nat)
    : Resource simple_version unit :=
  mkResource "all/app.zip" vs (seq 0 (length vs)) active active [newNotifier] (Some 0) None (Some 0).

Lemma example_resource_ok vs active :
  Forall version_fields_ok vs →
  (∀ i, active = Some i → i < length vs) →
  (∀ i j a b, vs !! i = Some a → vs !! j = Some b → CurrentRelease a = true → CurrentRelease b = true → i = j) →
  resource_ok (example_resource vs active).
Proof.
  intros Hf Ha Hc. split; simpl; try done.
  - apply NoDup_seq.
  - apply Forall_forall. intros i Hi%elem_of_seq. unfold in_store. simpl. lia.
  - intros i j _ _. unfold vflag. simpl. destruct (vs !! i) eqn:Hi, (vs !! j) eqn:Hj; try done.
    intros H1 H2. by eapply Hc.
  - by intros n [= <-].
  - by apply Forall_singleton.
Qed.

(** ** Properties: selection *)

(** C7: selectVersion always returns, without closing a notification channel twice,
    and selects by the five rules of its target selection: the available
    development version in development mode, else the current release if it
    may be used, else the newest usable version when pre-releases are used,
    else the newest usable stable version, else the newest version, whatever
    order the sorting leaves equal versions in. The versions are kept, sorted;
    the notifier of a resource in use is marked and dropped exactly when the
    selection is another version than the active one. *)
Theorem selectVersion_selects {SV TS : Type} `{!SemVer SV, !SemVerLaws SV} {sort_lib : SortLib}
    {sort_laws : SortLaws} (reg : ResourceRegistry SV TS) (r : Resource SV TS) :
  resource_ok r →
  ∃ r', selectVersion (E:=upd_error) reg r = Ret r' ∧
    selection reg r (SelectedVersion r') ∧
    Versions r' ≡ₚ Versions r ∧ versions_sorted r' ∧
    store r' = store r ∧ ActiveVersion r' = ActiveVersion r ∧
    (if notified r (SelectedVersion r')
     then ∃ n, res_notifier r = Some n ∧ res_notifier r' = None ∧
            notifiers r' = <[n := mkNotifier true true]> (notifiers r)
     else res_notifier r' = res_notifier r ∧ notifiers r' = notifiers r).
Proof.
  intros Hok. destruct (selectVersion_ok (E:=upd_error) reg r Hok) as (r' & Hr' & _ & Hsel & Hp & Hs & Heq & Hn).
  exists r'. split_and!; [done..|by rewrite Heq|by rewrite Heq|].
  unfold notified in *. destruct (inUse r && _); simpl in *; [|by simplify_eq].
  destruct (res_notifier r) as [n|]; simpl in *; simplify_eq; [by exists n|done].
Qed.

Lemma selectVersion_selects_witness :
  let r := example_resource [example_version "1.0.0" true false false; example_version "2.0.0-beta" true false false;
                             example_version "1.5" false true false] (Some 0) in
  ∃ r', selectVersion (E:=upd_error) (example_registry false false true true) r = Ret r' ∧
    selection (example_registry false false true true) r (SelectedVersion r') ∧
    SelectedVersion r' = Some 2 ∧ Versions r' = [1; 2; 0] ∧ res_notifier r' = None.
Proof.
  intros r.
  destruct (selectVersion_selects (example_registry false false true true) r) as (r' & H1 & H2 & _).
  - apply example_resource_ok.
    + by repeat constructor.
    + intros i [= <-]. simpl. lia.
    + intros [|[|[|i]]] [|[|[|j]]] a b Hi Hj Ha Hb; simpl in *; by simplify_eq/=.
  - exists r'. split_and!; [exact H1|exact H2|..]; vm_compute in H1; injection H1 as <-; reflexivity.
Defined.

(** ** AddVersion *)

Section AddVersion.
Context {SV TS : Type} `{!SemVer SV} (env : OsEnv) (sig_Extension : string).
Abbreviation res := (Resource SV TS).
Abbreviation registry := (ResourceRegistry SV TS).
Implicit Types (r : res) (reg : registry) (rv : ResourceVersion SV).

(** The versions after the flags of the current release were reset. *)
Definition reset_current (currentRelease : bool) (r : res) : list (ResourceVersion SV) :=
  if currentRelease then fold_right (alter (set_CurrentRelease false)) (store r) (Versions r) else store r.

(** What the flags of AddVersion make of a version. *)
Record flagged (available currentRelease preRelease : bool) (rv rv' : ResourceVersion SV) : Prop := {
  flagged_number : VersionNumber rv' = VersionNumber rv;
  flagged_semVer : semVer rv' = semVer rv;
  flagged_available : Available rv' = Available rv || available;
  flagged_current : CurrentRelease rv' = CurrentRelease rv || currentRelease;
  flagged_pre : PreRelease rv' = PreRelease rv || preRelease || negb (String.eqb (Prerelease (semVer rv)) "");
  flagged_black : Blacklisted rv' = Blacklisted rv;
}.

Lemma alter_insert_lookup {A : Type} (f : A → A) (i : nat) (l : list A) (x : A) :
  l !! i = Some x → alter f i l = <[i := f x]> l.
Proof.
  intros Hx. apply list_eq. intros j. destruct (decide (i = j)) as [<-|Hne].
  - rewrite list_lookup_alter_eq, Hx, list_lookup_insert_eq; [done|by eapply lookup_lt_Some].
  - by rewrite list_lookup_alter_ne, list_lookup_insert_ne.
Qed.

Lemma update_version_insert f i r rv :
  store r !! i = Some rv → update_version f i r = set_store (<[i := f rv]> (store r)) r.
Proof. intros H. unfold update_version. by rewrite (alter_insert_lookup f i (store r) rv). Qed.

Lemma update_inserted f i r (base : list (ResourceVersion SV)) rv :
  i < length base →
  update_version f i (set_store (<[i := rv]> base) r) = set_store (<[i := f rv]> base) r.
Proof.
  intros Hi. rewrite (update_version_insert _ _ _ rv).
  - simpl. unfold set_store at 1. simpl. by rewrite list_insert_insert_eq.
  - simpl. by apply list_lookup_insert_eq.
Qed.

(** The versions a call of AddVersion works on: the found one, or a new one at
    the end. *)
Definition base_versions (version : string) (currentRelease : bool) (r : res) (i : nat)
    (base : list (ResourceVersion SV)) (vs : list nat) : Prop :=
  (i ∈ Versions r ∧ vs = Versions r ∧ base = reset_current currentRelease r ∧
     vflag (λ rv, String.eqb (VersionNumber rv) version) r i = true) ∨
  (∃ sv, NewVersion version = Some sv ∧ i = length (store r) ∧ vs = (Versions r ++ [i])%list ∧
     base = (reset_current currentRelease r ++ [mkResourceVersion (sv_String sv) sv false false false false false])%list).

Lemma length_reset_current b r : length (reset_current b r) = length (store r).
Proof.
  unfold reset_current. destruct b; [|done]. induction (Versions r) as [|i l IH]; simpl; [done|].
  by rewrite length_alter.
Qed.

Lemma fold_alter_lookup {A : Type} (f : A → A) (vs : list nat) (l : list A) (i : nat) :
  NoDup vs →
  fold_right (alter f) l vs !! i = if decide (i ∈ vs) then f <$> l !! i else l !! i.
Proof.
  induction vs as [|j vs IH]; intros Hnd; cbn [fold_right].
  { case_decide; [set_solver|done]. }
  apply NoDup_cons in Hnd as [Hj Hnd]. destruct (decide (j = i)) as [->|Hne].
  - rewrite list_lookup_alter_eq, (IH Hnd). repeat case_decide; set_solver.
  - rewrite list_lookup_alter_ne, (IH Hnd) by done. repeat case_decide; set_solver.
Qed.

(** The fields that resetting the current release keeps. *)
Lemma vflag_reset {A : Type} (f : ResourceVersion SV → A) b r i :
  (∀ rv c, f (set_CurrentRelease c rv) = f rv) → NoDup (Versions r) →
  f <$> reset_current b r !! i = f <$> store r !! i.
Proof.
  intros Hf Hnd. unfold reset_current. destruct b; [|done]. rewrite fold_alter_lookup by done.
  destruct (decide _); [|done]. destruct (store r !! i); simpl; [|done]. by rewrite Hf.
Qed.

Lemma set_available_spec reg i r s rv :
  store r !! i = Some rv →
  ∃ sig s', set_available env sig_Extension reg i (r, s) =
    ((set_store (<[i := set_SigAvailable sig (set_Available true rv)]> (store r)) r, s'), Ret tt).
Proof.
  intros Hi. pose proof (lookup_lt_Some _ _ _ Hi) as Hlt. unfold set_available.
  rewrite (update_version_insert _ _ _ rv Hi). simpl.
  assert (set_Available true rv = set_SigAvailable (SigAvailable rv) (set_Available true rv)) as Heq by done.
  rewrite list_lookup_insert_eq by done. destruct (res_VerificationOptions r).
  - destruct (PathExists _ _ _) as [s' e]. destruct (bool_decide (e = Ret true)).
    + exists true, s'. by rewrite update_inserted.
    + exists (SigAvailable rv), s'. by rewrite Heq at 1.
  - exists (SigAvailable rv), s. by rewrite Heq at 1.
Qed.

(** The version with the flags of AddVersion. *)
Lemma AddVersion_flags reg i r s rv (available currentRelease preRelease : bool) :
  store r !! i = Some rv →
  ∃ rv' s', flagged available currentRelease preRelease rv rv' ∧
    (let$ _ := (if available then set_available env sig_Extension reg i else st_ret tt) in
     st_mod (λ '(r, s),
       let r := if currentRelease : bool then update_version (set_CurrentRelease true) i r else r in
       let r :=
         if preRelease || vflag (λ rv, negb (String.eqb (Prerelease (semVer rv)) "")) r i
         then update_version (set_PreRelease true) i r else r in
       (r, s))) (r, s) = ((set_store (<[i := rv']> (store r)) r, s'), Ret tt).
Proof.
  intros Hi. pose proof (lookup_lt_Some _ _ _ Hi) as Hlt.
  assert (∃ sig s', (if available then set_available env sig_Extension reg i else st_ret tt) (r, s) =
    ((set_store (<[i := set_SigAvailable sig (set_Available (Available rv || available) rv)]> (store r)) r, s'), Ret tt))
    as (sig & s' & Hav).
  { destruct available.
    - rewrite orb_true_r. by apply set_available_spec.
    - exists (SigAvailable rv), s. rewrite orb_false_r. replace (set_SigAvailable _ _) with rv by (by destruct rv).
      rewrite list_insert_id by done. by destruct r. }
  unfold st_bind. rewrite Hav. unfold st_mod. set (rv1 := set_SigAvailable _ _).
  exists (set_PreRelease (PreRelease rv || preRelease || negb (String.eqb (Prerelease (semVer rv)) ""))
            (set_CurrentRelease (CurrentRelease rv || currentRelease) rv1)), s'.
  split; [by split|]. f_equal. f_equal.
  assert ((if currentRelease then update_version (set_CurrentRelease true) i (set_store (<[i := rv1]> (store r)) r)
      else set_store (<[i := rv1]> (store r)) r) =
    set_store (<[i := set_CurrentRelease (CurrentRelease rv || currentRelease) rv1]> (store r)) r) as ->.
  { destruct currentRelease; [by rewrite update_inserted, orb_true_r|]. by rewrite orb_false_r. }
  unfold vflag. simpl. rewrite list_lookup_insert_eq by done. simpl.
  destruct (preRelease || _) eqn:Hpre.
  - rewrite update_inserted by done. by rewrite <- orb_assoc, Hpre, orb_true_r.
  - by rewrite <- orb_assoc, Hpre, orb_false_r.
Qed.

Lemma AddVersion_spec reg version available currentRelease preRelease r s :
  Forall (in_store r) (Versions r) → NoDup (Versions r) →
  (∃ i base vs rv rv' s', base_versions version currentRelease r i base vs ∧
     base !! i = Some rv ∧ flagged available currentRelease preRelease rv rv' ∧
     AddVersion env sig_Extension reg version available currentRelease preRelease (r, s) =
       ((set_Versions vs (set_store (<[i := rv']> base) r), s'), Ret tt)) ∨
  (NewVersion version = None ∧
     AddVersion env sig_Extension reg version available currentRelease preRelease (r, s) =
       ((set_store (reset_current currentRelease r) r, s), Fail UpdInvalidVersion)).
Proof.
  intros Hin Hnd. unfold AddVersion.
  set (r1 := set_store (reset_current currentRelease r) r).
  rewrite (st_bind_Ret _ _ _ (r1, s) tt).
  2:{ unfold st_mod, r1, reset_current. destruct currentRelease; [done|]. by destruct r. }
  assert (∀ i, vflag (λ rv, String.eqb (VersionNumber rv) version) r1 i
             = vflag (λ rv, String.eqb (VersionNumber rv) version) r i) as Hsame.
  { intros i. unfold vflag. simpl.
    pose proof (vflag_reset VersionNumber currentRelease r i ltac:(done) Hnd) as H.
    destruct (reset_current currentRelease r !! i), (store r !! i); simpl in H; congruence. }
  destruct (List.find (λ i, vflag (λ rv, String.eqb (VersionNumber rv) version) r1 i) (Versions r1)) as [i|] eqn:Hf.
  - assert (find_or_create version (r1, s) = ((r1, s), Ret i)) as Hfc by (unfold find_or_create; by rewrite Hf).
    left. apply List.find_some in Hf as [Hi Hv]. apply list_elem_of_In in Hi. rewrite Hsame in Hv.
    assert (∃ rv, store r1 !! i = Some rv) as [rv Hrv].
    { apply lookup_lt_is_Some. simpl. rewrite length_reset_current.
      rewrite Forall_forall in Hin. by apply Hin. }
    destruct (AddVersion_flags reg i r1 s rv available currentRelease preRelease Hrv) as (rv' & s' & Hfl & Hrun).
    exists i, (reset_current currentRelease r), (Versions r), rv, rv', s'. split_and!; [by left|done|done|].
    rewrite (st_bind_Ret _ _ _ _ _ Hfc). etransitivity; [exact Hrun|]. by destruct r.
  - destruct (NewVersion version) as [sv|] eqn:Hnv.
    2:{ right. split; [done|]. rewrite (st_bind_Fail _ _ _ (r1, s) UpdInvalidVersion); [done|].
        unfold find_or_create. by rewrite Hf, Hnv. }
    left.
    set (rv := mkResourceVersion (sv_String sv) sv false false false false false).
    set (i := length (store r1)).
    set (r2 := set_Versions (Versions r1 ++ [i])%list (set_store (store r1 ++ [rv])%list r1)).
    assert (store r2 !! i = Some rv) as Hrv.
    { subst i r2 r1. simpl. by rewrite list_lookup_middle. }
    destruct (AddVersion_flags reg i r2 s rv available currentRelease preRelease Hrv) as (rv' & s' & Hfl & Hrun).
    exists i, (store r2), (Versions r2), rv, rv', s'. split_and!; [|done|done|].
    2:{ rewrite (st_bind_Ret _ _ _ (r2, s) i); [exact Hrun|]. unfold find_or_create. by rewrite Hf, Hnv. }
    right. exists sv. subst i r2 r1. simpl. by rewrite length_reset_current.
Qed.

End AddVersion.

(** ** The invariant is preserved *)

Section Preserved.
Context {SV TS : Type} `{!SemVer SV} (env : OsEnv) (sig_Extension : string).
Abbreviation res := (Resource SV TS).
Abbreviation registry := (ResourceRegistry SV TS).
Implicit Types (r : res) (reg : registry) (rv : ResourceVersion SV).

(** Other versions in the store, and a longer list of references. *)
Lemma resource_ok_store r (st : list (ResourceVersion SV)) (vs : list nat) :
  resource_ok r → (length (store r) ≤ length st)%nat → NoDup vs → (∀ i, i ∈ vs → i < length st) →
  (∀ i j a b, i ∈ vs → j ∈ vs → st !! i = Some a → st !! j = Some b →
     CurrentRelease a = true → CurrentRelease b = true → i = j) →
  Forall version_fields_ok st → resource_ok (set_Versions vs (set_store st r)).
Proof.
  intros [H1 H2 H3 H4 H5 H6 H7 H8] Hlen Hnd Hin Hcur Hf. unfold in_store in *.
  split; simpl; try done; unfold in_store; simpl.
  - by apply Forall_forall.
  - intros i Hi. specialize (H3 i Hi). lia.
  - intros i Hi. specialize (H4 i Hi). lia.
  - intros i j Hi Hj. unfold vflag. simpl. destruct (st !! i) eqn:Hsi, (st !! j) eqn:Hsj; try done. by eapply Hcur.
Qed.

Lemma fields_ok_reset b r : resource_ok r → Forall version_fields_ok (reset_current b r).
Proof.
  intros Hok. apply Forall_lookup. intros i rv Hi.
  assert (∃ rv0, store r !! i = Some rv0 ∧ VersionNumber rv = VersionNumber rv0 ∧ semVer rv = semVer rv0 ∧
    PreRelease rv = PreRelease rv0) as (rv0 & Hi0 & H1 & H2 & H3).
  { unfold reset_current in Hi. destruct b; [|by eauto].
    rewrite fold_alter_lookup in Hi by apply Hok. destruct (decide _); [|by eauto].
    destruct (store r !! i) as [rv0|]; simplify_eq/=. by eauto. }
  unfold version_fields_ok. rewrite H1, H2, H3. by apply (Forall_lookup_1 _ _ i _ (fields_ok r Hok)).
Qed.

(** After the reset no listed version is the current release. *)
Lemma reset_no_current r i rv :
  NoDup (Versions r) → i ∈ Versions r → reset_current true r !! i = Some rv → CurrentRelease rv = false.
Proof.
  intros Hnd Hi. unfold reset_current. rewrite fold_alter_lookup, decide_True by done.
  destruct (store r !! i); simpl; [|done]. by intros [= <-].
Qed.

Lemma reset_single_current b r i j rv rv' :
  resource_ok r → i ∈ Versions r → j ∈ Versions r →
  reset_current b r !! i = Some rv → reset_current b r !! j = Some rv' →
  CurrentRelease rv = true → CurrentRelease rv' = true → b = false ∧ i = j.
Proof.
  intros Hok Hi Hj Hrv Hrv' Hc Hc'. destruct b.
  - by rewrite (reset_no_current r i rv) in Hc; [|apply Hok| |].
  - split; [done|]. unfold reset_current in *.
    apply (single_current r Hok); try done; unfold vflag; by rewrite ?Hrv, ?Hrv'.
Qed.

Lemma resource_ok_reset b r : resource_ok r → resource_ok (set_store (reset_current b r) r).
Proof.
  intros Hok.
  change (set_store (reset_current b r) r) with (set_Versions (Versions r) (set_store (reset_current b r) r)).
  apply resource_ok_store; [done|by rewrite length_reset_current|apply Hok| | |by apply fields_ok_reset].
  - rewrite length_reset_current. by apply Forall_forall, (versions_in_store r Hok).
  - intros i j a b' Hi Hj Ha Hb Hca Hcb. by destruct (reset_single_current b r i j a b').
Qed.

(** The versions AddVersion works on. *)
Lemma base_versions_ok version currentRelease r i base vs :
  resource_ok r → base_versions version currentRelease r i base vs →
  i ∈ vs ∧ NoDup vs ∧ (∀ j, j ∈ vs → j < length base) ∧ (length (store r) ≤ length base)%nat ∧
  (∀ j, j ∈ vs → j ≠ i → j ∈ Versions r ∧ base !! j = reset_current currentRelease r !! j).
Proof.
  intros Hok Hb. pose proof (versions_in_store r Hok) as Hin. rewrite Forall_forall in Hin.
  unfold in_store in Hin. destruct Hb as [(Hi & -> & -> & _)|(sv & _ & -> & -> & ->)].
  - rewrite length_reset_current. split_and!; [done|apply Hok|done|done|done].
  - rewrite length_app, length_reset_current. simpl. split_and!.
    + set_solver.
    + apply NoDup_app. split_and!; [apply Hok| |apply NoDup_singleton].
      intros j Hj ->%list_elem_of_singleton. specialize (Hin _ Hj). lia.
    + intros j [Hj| ->%list_elem_of_singleton]%elem_of_app; [|lia]. specialize (Hin _ Hj). lia.
    + lia.
    + intros j [Hj|Hj%list_elem_of_singleton]%elem_of_app Hne; [|done]. split; [done|].
      rewrite lookup_app_l; [done|]. rewrite length_reset_current. by apply Hin.
Qed.

(** The found version was current before, a new one was not. *)
Lemma base_versions_current version r i base vs rv :
  base_versions version false r i base vs → base !! i = Some rv → CurrentRelease rv = true →
  i ∈ Versions r ∧ vflag CurrentRelease r i = true.
Proof.
  intros [(Hi & -> & -> & _)|(sv & _ & -> & -> & ->)] Hrv Hc.
  - split; [done|]. unfold vflag. unfold reset_current in Hrv. by rewrite Hrv.
  - rewrite lookup_app_r in Hrv by (by rewrite length_reset_current).
    rewrite length_reset_current, Nat.sub_diag in Hrv. by simplify_eq/=.
Qed.

Lemma base_fields_ok version b r i base vs j rv :
  resource_ok r → base_versions version b r i base vs → base !! j = Some rv →
  (i ≠ j → version_fields_ok rv) ∧ VersionNumber rv = sv_String (semVer rv).
Proof.
  intros Hok Hb Hrv. pose proof (fields_ok_reset b r Hok) as Hf.
  destruct Hb as [(_ & _ & -> & _)|(sv & _ & -> & _ & ->)].
  - destruct (Forall_lookup_1 _ _ j _ Hf Hrv). done.
  - apply lookup_app_Some in Hrv as [Hrv|[Hle Hrv]].
    + destruct (Forall_lookup_1 _ _ j _ Hf Hrv). done.
    + rewrite length_reset_current in *. apply list_lookup_singleton_Some in Hrv as [Hj <-].
      split; [|done]. intros Hne. lia.
Qed.

Lemma AddVersion_result_ok version available currentRelease preRelease r i base vs rv rv' :
  resource_ok r → base_versions version currentRelease r i base vs → base !! i = Some rv →
  flagged available currentRelease preRelease rv rv' →
  resource_ok (set_Versions vs (set_store (<[i := rv']> base) r)).
Proof.
  intros Hok Hb Hrv Hfl. destruct (base_versions_ok _ _ _ _ _ _ Hok Hb) as (Hi & Hnd & Hlt & Hlen & Hother).
  assert (∀ j x, j ∈ vs → j ≠ i → base !! j = Some x → CurrentRelease x = true → CurrentRelease rv' = false) as Hone.
  { intros j x Hj Hne Hx Hc. destruct (Hother j Hj Hne) as [Hjr Hbj]. rewrite Hbj in Hx.
    rewrite (flagged_current _ _ _ _ _ Hfl). destruct currentRelease.
    - by rewrite (reset_no_current r j x) in Hc; [|apply Hok| |].
    - rewrite orb_false_r. apply not_true_iff_false. intros Hc'.
      destruct (base_versions_current _ _ _ _ _ _ Hb Hrv Hc') as [Hir Hci]. apply Hne.
      apply (single_current r Hok); try done. unfold vflag. unfold reset_current in Hx. by rewrite Hx. }
  apply resource_ok_store; rewrite ?length_insert; try done.
  - intros j k a b Hj Hk Ha Hb' Hca Hcb. apply list_lookup_insert_Some in Ha as [(<- & -> & _)|(Hij & Ha)];
      apply list_lookup_insert_Some in Hb' as [(Hik & Hbb & _)|(Hik & Hb')]; subst; [done|..].
    + by rewrite (Hone k b) in Hca.
    + by rewrite (Hone j a) in Hcb.
    + destruct (Hother j) as [Hjr Hj'], (Hother k) as [Hkr Hk']; [done..|]. rewrite Hj' in Ha. rewrite Hk' in Hb'.
      by destruct (reset_single_current currentRelease r j k a b).
  - apply Forall_lookup. intros j x Hx. apply list_lookup_insert_Some in Hx as [(<- & -> & _)|(Hij & Hx)].
    + destruct (base_fields_ok _ _ _ _ _ _ i rv Hok Hb Hrv) as [_ Hn]. destruct Hfl as [F1 F2 F3 F4 F5 F6].
      split; [by rewrite F1, F2|]. rewrite F2, F5. intros Hp.
      rewrite (proj2 (String.eqb_neq _ _) Hp). apply orb_true_r.
    + by apply (base_fields_ok _ _ _ _ _ _ j x Hok Hb Hx).
Qed.

(** AddVersion on every branch. *)
Lemma AddVersion_ok reg version available currentRelease preRelease r s r' s' a :
  resource_ok r →
  AddVersion env sig_Extension reg version available currentRelease preRelease (r, s) = ((r', s'), a) →
  resource_ok r' ∧ Identifier r' = Identifier r ∧
  match a with
  | Ret _ =>
      ∃ i rv, i ∈ Versions r' ∧ store r' !! i = Some rv ∧
        (VersionNumber rv = version ∨ NewVersion version = Some (semVer rv)) ∧
        (available = true → Available rv = true) ∧
        (preRelease = true ∨ Prerelease (semVer rv) ≠ "" → PreRelease rv = true) ∧
        (currentRelease = true → ∀ j, j ∈ Versions r' → vflag CurrentRelease r' j = bool_decide (j = i))
  | Fail e => e = UpdInvalidVersion ∧ NewVersion version = None
  | Panic => False
  end.
Proof.
  intros Hok Hrun.
  destruct (AddVersion_spec env sig_Extension reg version available currentRelease preRelease r s)
    as [(i & base & vs & rv & rv' & s1 & Hb & Hrv & Hfl & Heq)|[Hnv Heq]]; [apply Hok..| |];
    rewrite Heq in Hrun; simplify_eq.
  2:{ split_and!; [by apply resource_ok_reset|done..]. }
  assert (Hok' := AddVersion_result_ok _ _ _ _ _ _ _ _ _ _ Hok Hb Hrv Hfl).
  assert (Hlt := lookup_lt_Some _ _ _ Hrv).
  destruct (base_versions_ok _ _ _ _ _ _ Hok Hb) as (Hi & _). split_and!; [done..|].
  exists i, rv'. simpl. pose proof Hfl as [F1 F2 F3 F4 F5 F6].
  split_and!; [done|by apply list_lookup_insert_eq|..].
  - rewrite F1, F2. destruct Hb as [(_ & _ & -> & Hv)|(sv & Hsv & -> & _ & ->)].
    + left. unfold vflag in Hv.
      pose proof (vflag_reset VersionNumber currentRelease r i ltac:(done) (versions_nodup r Hok)) as H.
      rewrite Hrv in H. destruct (store r !! i); simplify_eq/=. by apply String.eqb_eq in Hv as <-.
    + right. rewrite lookup_app_r in Hrv by (by rewrite length_reset_current).
      rewrite length_reset_current, Nat.sub_diag in Hrv. by simplify_eq/=.
  - intros ->. by rewrite F3, orb_true_r.
  - rewrite F2, F5. intros [->|Hp]; [by rewrite orb_true_r|].
    rewrite (proj2 (String.eqb_neq _ _) Hp). apply orb_true_r.
  - intros Hcur j Hj.
    assert (vflag CurrentRelease (set_Versions vs (set_store (<[i:=rv']> base) r)) i = true) as Hci.
    { unfold vflag. simpl. rewrite list_lookup_insert_eq by done. by rewrite F4, Hcur, orb_true_r. }
    case_bool_decide as Hji; [by subst|]. apply not_true_iff_false. intros Hcj. apply Hji.
    by apply (single_current _ Hok').
Qed.

(** Changes of one version that keep what the invariant speaks of. *)
Lemma resource_ok_update r i (f : ResourceVersion SV → ResourceVersion SV) :
  (∀ rv, VersionNumber (f rv) = VersionNumber rv ∧ semVer (f rv) = semVer rv ∧
     CurrentRelease (f rv) = CurrentRelease rv ∧ PreRelease (f rv) = PreRelease rv) →
  resource_ok r → resource_ok (update_version f i r).
Proof.
  intros Hf Hok. unfold update_version.
  change (set_store (alter f i (store r)) r) with (set_Versions (Versions r) (set_store (alter f i (store r)) r)).
  assert (∀ j x, alter f i (store r) !! j = Some x → ∃ y, store r !! j = Some y ∧ CurrentRelease x = CurrentRelease y ∧
    (version_fields_ok y → version_fields_ok x)) as Hl.
  { intros j x Hx. destruct (decide (i = j)) as [<-|Hne].
    - rewrite list_lookup_alter_eq in Hx. destruct (store r !! i) as [y|]; simplify_eq/=. exists y.
      destruct (Hf y) as (F1 & F2 & F3 & F4). unfold version_fields_ok. by rewrite F1, F2, F3, F4.
    - rewrite list_lookup_alter_ne in Hx by done. by exists x. }
  apply resource_ok_store; rewrite ?length_alter; [done|done|apply Hok| | |].
  - by apply Forall_forall, (versions_in_store r Hok).
  - intros j k a b Hj Hk Ha Hb Hca Hcb. destruct (Hl _ _ Ha) as (a' & Ha' & Hca' & _).
    destruct (Hl _ _ Hb) as (b' & Hb' & Hcb' & _). apply (single_current r Hok); try done; unfold vflag;
      rewrite ?Ha', ?Hb'; congruence.
  - apply Forall_lookup. intros j x Hx. destruct (Hl _ _ Hx) as (y & Hy & _ & Hfy). apply Hfy.
    by apply (Forall_lookup_1 _ _ j _ (fields_ok r Hok)).
Qed.

Lemma resource_ok_new reg identifier : resource_ok (newResource (SV:=SV) reg identifier : res).
Proof. split; simpl; try done. apply NoDup_nil_2. Qed.

Lemma resource_ok_Index r i : resource_ok r → resource_ok (set_Index i r).
Proof. intros [H1 H2 H3 H4 H5 H6 H7 H8]. by split. Qed.

Lemma resource_ok_sublist r vs : resource_ok r → vs `sublist_of` Versions r → resource_ok (set_Versions vs r).
Proof.
  intros Hok Hs. destruct Hok as [H1 H2 H3 H4 H5 H6 H7 H8]. split; simpl; try done.
  - by eapply sublist_NoDup.
  - apply Forall_forall. intros i Hi. rewrite Forall_forall in H2. apply H2. by eapply elem_of_sublist.
  - intros i j Hi Hj. apply H5; by eapply elem_of_sublist.
Qed.

Lemma resource_ok_markActive r (f : File) : in_store r (file_version f) → resource_ok r → resource_ok (markActive f r).
Proof.
  intros Hf Hok. unfold markActive. case_bool_decide; [|done]. destruct Hok as [H1 H2 H3 H4 H5 H6 H7 H8].
  split; simpl; try done. by intros i [= <-].
Qed.

Lemma resource_ok_ensure_notifier r : resource_ok r → resource_ok (ensure_notifier r).1.
Proof.
  intros Hok. unfold ensure_notifier. destruct (res_notifier r) eqn:Hn; [done|].
  destruct Hok as [H1 H2 H3 H4 H5 H6 H7 H8]. split; simpl; try done.
  - intros n [= <-]. by rewrite list_lookup_middle.
  - apply Forall_app. by split; [|apply Forall_singleton].
Qed.

Lemma resource_ok_Purge reg keep r s r' s' a :
  resource_ok r → Resource_Purge env sig_Extension reg keep (r, s) = ((r', s'), a) → resource_ok r'.
Proof.
  intros Hok. unfold Resource_Purge, slice. repeat (case_match; intros; simplify_eq; try done).
  all: apply resource_ok_sublist; [done|].
  all: eapply transitivity; [apply sublist_take|apply sublist_drop].
Qed.

End Preserved.

(** ** Purge *)

Section Purge.
Context {SV TS : Type} `{!SemVer SV} (env : OsEnv) (sig_Extension : string).
Abbreviation res := (Resource SV TS).
Abbreviation registry := (ResourceRegistry SV TS).
Implicit Types (r : res) (reg : registry) (rv : ResourceVersion SV).

(** The search stops behind all required versions. *)
Lemma boundarySearch_spec r (keepExtra i : Z) (b : boundary_search) (vs : list nat) :
  boundarySearch r keepExtra i b vs = 0%Z ∨
  ∃ pre post, vs = (pre ++ post)%list ∧ boundarySearch r keepExtra i b vs = s64 (i + len pre + keepExtra) ∧
    (∀ a, ActiveVersion r = Some a → skippedActiveVersion b = true ∨ a ∈ pre) ∧
    (∀ a, SelectedVersion r = Some a → skippedSelectedVersion b = true ∨ a ∈ pre) ∧
    (skippedStableVersion b = true ∨ ∃ a, a ∈ pre ∧ stable r a = true).
Proof.
  revert i b. induction vs as [|v vs IH]; intros i b; [by left|]. cbn [boundarySearch].
  destruct (_ || _ || _) eqn:Hc.
  - destruct (IH (i + 1)%Z (mkSearch (skippedActiveVersion b || bool_decide (Some v = ActiveVersion r))
      (skippedSelectedVersion b || bool_decide (Some v = SelectedVersion r))
      (skippedStableVersion b || vflag (λ v, negb (PreRelease v)) r v))) as [->|(pre & post & -> & -> & Ha & Hs & Hst)];
      [by left|right].
    exists (v :: pre), post. simpl in *. split_and!; [done| | | |].
    + rewrite len_cons. f_equal. lia.
    + intros a Haa. destruct (Ha a Haa) as [H|H]; [|set_solver]. apply orb_true_iff in H as [H|H]; [by left|].
      bool_to_prop. right. rewrite Haa in H. simplify_eq. by left.
    + intros a Haa. destruct (Hs a Haa) as [H|H]; [|set_solver]. apply orb_true_iff in H as [H|H]; [by left|].
      bool_to_prop. right. rewrite Haa in H. simplify_eq. by left.
    + destruct Hst as [H|(a & Ha' & H)]; [|right; exists a; split; [by right|done]].
      apply orb_true_iff in H as [H|H]; [by left|]. right. exists v. split; [by left|done].
  - right. exists [], (v :: vs). unfold len. simpl. rewrite !orb_false_iff in Hc. destruct Hc as [[H1 H2] H3].
    split_and!; [done|f_equal; lia| | |].
    + intros a Haa. rewrite Haa in H1. rewrite bool_decide_true in H1 by eauto. left. by destruct (skippedActiveVersion b).
    + intros a Haa. rewrite Haa in H2. rewrite bool_decide_true in H2 by eauto. left. by destruct (skippedSelectedVersion b).
    + left. by destruct (skippedStableVersion b).
Qed.

(** The paths of the files of a version. *)
Definition version_paths reg r rv : list string :=
  [storagePath reg r rv; storageSigPath sig_Extension reg r rv;
   TrimSuffix (storagePath reg r rv) (path_Ext (storagePath reg r rv))].

Definition paths_of reg r (vs : list nat) (p : string) : Prop :=
  ∃ i rv, i ∈ vs ∧ store r !! i = Some rv ∧ Available rv = true ∧ p ∈ version_paths reg r rv.

Lemma touches_purge_version reg r vs i :
  i ∈ vs → touches (paths_of reg r vs) (purge_version env sig_Extension reg r i).
Proof.
  intros Hi. unfold purge_version. destruct (store r !! i) as [rv|] eqn:Hrv; [|touch].
  destruct (Available rv) eqn:Ha; simpl; [|touch].
  assert (∀ p, p ∈ version_paths reg r rv → paths_of reg r vs p) as Hp.
  { intros p Hp. exists i, rv. done. }
  repeat (apply touches_bind; [apply touches_ignore, touches_Remove, Hp; unfold version_paths; set_solver|intros _]).
  case_match; [touch|]. apply touches_bind; [touch|]. intros a.
  assert (touches (paths_of reg r vs) (st_ignore (E':=os_error) (os_Remove env
    (TrimSuffix (storagePath reg r rv) (path_Ext (storagePath reg r rv)))))) as Hrm.
  { apply touches_ignore, touches_Remove, Hp. unfold version_paths. set_solver. }
  destruct a as [|[]|]; try apply touches_ret; done.
Qed.

Lemma touches_iter {S E A : Type} `{!HasFs S} (Q : string → Prop) (f : A → st S E unit) (l : list A) :
  (∀ a, a ∈ l → touches Q (f a)) → touches Q (st_iter f l).
Proof.
  induction l as [|a l IH]; intros H; simpl; [apply touches_ret|]. apply touches_bind; [apply H; by left|].
  intros _. apply IH. intros b Hb. apply H. by right.
Qed.

(** Errors of the file system are logged only. *)
Lemma os_Remove_no_panic path (s : Sys) : (os_Remove env path s).2 ≠ Panic.
Proof. unfold os_Remove, syscall, syscall_torn. repeat case_match; simplify_eq/=; done. Qed.

Lemma ignore_Remove path (s : Sys) : ∃ s', st_ignore (E':=os_error) (os_Remove env path) s = (s', Ret tt).
Proof.
  unfold st_ignore, st_bind, st_try. pose proof (os_Remove_no_panic path s) as H.
  destruct (os_Remove env path s) as [s' [a|e|]]; simpl in *; [by eexists..|done].
Qed.

Lemma try_Stat path (s : Sys) : ∃ s' a, st_try (E':=os_error) (os_Stat env path) s = (s', Ret a).
Proof. unfold st_try, os_Stat, syscall, syscall_torn. destruct (fault env _); simpl; [by eauto|]. destruct (_ !! path); eauto. Qed.

Lemma purge_version_Ret reg r i (s : Sys) : ∃ s', purge_version env sig_Extension reg r i s = (s', Ret tt).
Proof.
  unfold purge_version. destruct (store r !! i) as [rv|]; [|by eexists]. destruct (negb _); [by eexists|].
  destruct (ignore_Remove (storagePath reg r rv) s) as [s1 H1]. rewrite (st_bind_Ret _ _ _ _ _ H1).
  destruct (ignore_Remove (storageSigPath sig_Extension reg r rv) s1) as [s2 H2]. rewrite (st_bind_Ret _ _ _ _ _ H2).
  case_match; [by eexists|].
  destruct (try_Stat (TrimSuffix (storagePath reg r rv) (path_Ext (storagePath reg r rv))) s2) as (s3 & a & H3).
  rewrite (st_bind_Ret _ _ _ _ _ H3). destruct a as [|[]|]; try apply ignore_Remove. by eexists.
Qed.

Lemma purge_all_Ret reg r (l : list nat) (s : Sys) : ∃ s', st_iter (purge_version env sig_Extension reg r) l s = (s', Ret tt).
Proof.
  revert s. induction l as [|i l IH]; intros s; simpl; [by eexists|].
  destruct (purge_version_Ret reg r i s) as [s' H]. rewrite (st_bind_Ret _ _ _ _ _ H). apply IH.
Qed.

(** Purge does nothing, or removes the versions behind a boundary. *)
Lemma Purge_cases reg keep r s r' s' a :
  is_s64 keep → (len (Versions r) < 2 ^ 63)%Z →
  Resource_Purge env sig_Extension reg keep (r, s) = ((r', s'), a) →
  a = Ret tt ∧
  ((r' = r ∧ s' = s) ∨
   ∃ kept purged, Versions r = (kept ++ purged)%list ∧ purged ≠ [] ∧
     existsb (vflag Blacklisted r) (Versions r) = false ∧
     r' = set_Versions purged r ∧
     st_iter (purge_version env sig_Extension reg r) purged s = (s', Ret tt) ∧
     (∀ i, ActiveVersion r = Some i → i ∈ kept) ∧ (∀ i, SelectedVersion r = Some i → i ∈ kept) ∧
     (∃ i, i ∈ kept ∧ stable r i = true) ∧ (Z.max 2 keep < len kept)%Z).
Proof.
  intros Hk Hlen H. unfold Resource_Purge in H.
  destruct (existsb (vflag Blacklisted r) (Versions r)) eqn:Hb; [by simplify_eq; split; [|left]|].
  set (k := (if (keep <? 2)%Z then 2 else keep)%Z) in *.
  assert (k = Z.max 2 keep) as Hkk. { unfold k. destruct (Z.ltb_spec keep 2); lia. }
  destruct ((purgeBoundary r k <=? k)%Z || _) eqn:Hc; [by simplify_eq; split; [|left]|].
  bool_to_prop. unfold purgeBoundary in *.
  destruct (boundarySearch_spec r k 0 (mkSearch false false false) (Versions r))
    as [Hz|(pre & post & Hvs & Hbd & Ha & Hs & Hst)]; [lia|].
  assert (boundarySearch r k 0 (mkSearch false false false) (Versions r) = len pre + k)%Z as Hbd'.
  { rewrite Hbd in *. unfold is_s64 in Hk. rewrite Hvs, len_app in *.
    pose proof (len_nonneg pre). pose proof (len_nonneg post).
    destruct (decide (0 + len pre + k < 2 ^ 63)%Z) as [Hlt|Hge].
    - rewrite s64_small; [lia|]. unfold is_s64. lia.
    - rewrite s64_wrap in *; lia. }
  rewrite Hbd' in *. pose proof (len_nonneg pre).
  unfold slice in H. rewrite bool_decide_true in H by lia.
  rewrite firstn_all2 in H by (rewrite length_drop; unfold len in *; lia).
  set (n := Z.to_nat (len pre + k)) in *.
  destruct (purge_all_Ret reg r (drop n (Versions r)) s) as [s1 Hs1]. rewrite Hs1 in H. simplify_eq.
  split; [done|]. right. exists (take n (Versions r)), (drop n (Versions r)).
  assert (∀ i, i ∈ pre → i ∈ take n (Versions r)) as Hpre.
  { intros i Hi. rewrite Hvs, take_app_ge by (unfold n, len; lia). set_solver. }
  split_and!; [by rewrite take_drop| |done|done|done| | | |].
  - intros Hd. apply (f_equal length) in Hd. rewrite length_drop in Hd. unfold n, len in *. simpl in Hd. lia.
  - intros i Hi. destruct (Ha i Hi); [done|by apply Hpre].
  - intros i Hi. destruct (Hs i Hi); [done|by apply Hpre].
  - destruct Hst as [?|(i & Hi & Hst)]; [done|]. exists i. split; [by apply Hpre|done].
  - unfold len at 1. rewrite length_take. rewrite <- Hkk.
    destruct pre as [|p pre]; [|unfold n, len in *; simpl in *; lia].
    destruct Hst as [?|(i & Hi & _)]; [done|]. by apply elem_of_nil in Hi.
Qed.

End Purge.

(** ** Properties: versions, blacklisting and purging *)

(** AddVersion fails exactly for a version that is not listed and cannot be
    parsed; otherwise the version is listed with its flags, and when it is
    given as the current release it is the only one. The invariant of the
    resource is kept in every case. *)
Theorem AddVersion_adds {SV TS : Type} `{!SemVer SV} (env : OsEnv) (sig_Extension : string)
    (reg : ResourceRegistry SV TS) (version : string) (available currentRelease preRelease : bool)
    (r r' : Resource SV TS) (s s' : Sys) (a : go upd_error unit) :
  resource_ok r →
  AddVersion env sig_Extension reg version available currentRelease preRelease (r, s) = ((r', s'), a) →
  resource_ok r' ∧
  match a with
  | Ret _ =>
      ∃ i rv, i ∈ Versions r' ∧ store r' !! i = Some rv ∧
        (VersionNumber rv = version ∨ NewVersion version = Some (semVer rv)) ∧
        (available = true → Available rv = true) ∧
        (preRelease = true ∨ Prerelease (semVer rv) ≠ "" → PreRelease rv = true) ∧
        (currentRelease = true → ∀ j, j ∈ Versions r' → vflag CurrentRelease r' j = bool_decide (j = i))
  | Fail e => e = UpdInvalidVersion ∧ NewVersion version = None
  | Panic => False
  end.
Proof. intros Hok H. by destruct (AddVersion_ok _ _ _ _ _ _ _ _ _ _ _ _ Hok H) as (? & _ & ?). Qed.

Definition example_two : Resource simple_version unit :=
  example_resource [example_version "1.0.0" true true false; example_version "2.0.0" true false false] (Some 0).

Lemma example_two_ok : resource_ok example_two.
Proof.
  apply example_resource_ok.
  - by repeat constructor.
  - intros i [= <-]. simpl. lia.
  - intros [|[|i]] [|[|j]] a b Hi Hj Ha Hb; simpl in *; by simplify_eq/=.
Qed.

Lemma AddVersion_adds_witness :
  let run := AddVersion quiet_env ".sig" (example_registry false false true true) "2.0.0" true true false
               (example_two, mkSys ∅ 0) in
  resource_ok run.1.1 ∧ run.2 = Ret tt ∧ vflag CurrentRelease run.1.1 0 = false ∧ vflag CurrentRelease run.1.1 1 = true.
Proof.
  intros run.
  destruct (AddVersion_adds quiet_env ".sig" (example_registry false false true true) "2.0.0" true true false
    example_two run.1.1 (mkSys ∅ 0) run.1.2 run.2) as [H _].
  - apply example_two_ok.
  - reflexivity.
  - split; [exact H|]. split_and!; reflexivity.
Defined.

(** A failing AddVersion of a current release leaves the resource without
    one. *)
Theorem AddVersion_loses_current_release :
  let run := AddVersion quiet_env ".sig" (example_registry false false true true) "latest" false true false
               (example_two, mkSys ∅ 0) in
  vflag CurrentRelease example_two 0 = true ∧ run.2 = Fail UpdInvalidVersion ∧
  existsb (vflag CurrentRelease run.1.1) (Versions run.1.1) = false.
Proof. vm_compute. done. Qed.

(** A version that is not in normal form is added again each time, because the
    given text is compared with the normalised one. *)
Theorem AddVersion_duplicates :
  let reg := example_registry false false true true in
  let '(rs, _) := AddVersion quiet_env ".sig" reg "3.0" true false false (example_two, mkSys ∅ 0) in
  let '((r, _), _) := AddVersion quiet_env ".sig" reg "3.0" true false false rs in
  omap (λ i, VersionNumber <$> store r !! i) (Versions r) = ["1.0.0"; "2.0.0"; "3.0.0"; "3.0.0"].
Proof. vm_compute. done. Qed.

(** Blacklist refuses the last usable version and unknown versions without
    changing anything; otherwise the version is blacklisted and a new one is
    selected, which is not blacklisted unless it is the development version in
    development mode or no stable version can be used at all. *)
Theorem Blacklist_outcome {SV TS : Type} `{!SemVer SV, !SemVerLaws SV} {sort_lib : SortLib} {sort_laws : SortLaws}
    (reg : ResourceRegistry SV TS) (version : string) (r : Resource SV TS) :
  resource_ok r →
  let '(r', a) := Blacklist reg version r in
  match a with
  | Ret _ =>
      (∃ i, i ∈ Versions r ∧ vflag (λ rv, String.eqb (VersionNumber rv) version) r i = true ∧
         vflag Blacklisted r' i = true ∧
         selection reg (update_version (set_Blacklisted true) i r) (SelectedVersion r')) ∧
      ∀ i, SelectedVersion r' = Some i → vflag Blacklisted r' i = true →
        (DevMode reg = true ∧ dev_available r' i = true) ∨
        (∀ j, j ∈ Versions r' → stable r' j && selectable reg r' j = false)
  | Fail UpdBlacklistLast =>
      r' = r ∧ (length (List.filter (λ i, vflag (λ rv, negb (is_devVersion (semVer rv)) && negb (Blacklisted rv)) r i)
                  (Versions r)) ≤ 1)%nat
  | Fail e =>
      r' = r ∧ e = UpdVersionNotFound ∧
      ∀ i, i ∈ Versions r → vflag (λ rv, String.eqb (VersionNumber rv) version) r i = false
  | Panic => False
  end.
Proof.
  intros Hok. unfold Blacklist. destruct (Z.leb_spec (Z.of_nat (length (List.filter
    (λ i, vflag (λ rv, negb (is_devVersion (semVer rv)) && negb (Blacklisted rv)) r i) (Versions r)))) 1); [split; [done|lia]|].
  destruct (List.find _ (Versions r)) as [i|] eqn:Hf.
  2:{ split_and!; [done..|]. by apply find_none_elem. }
  apply List.find_some in Hf as [Hi Hv]. apply list_elem_of_In in Hi.
  set (r1 := update_version (set_Blacklisted true) i r).
  assert (resource_ok r1) as Hok1 by (by apply resource_ok_update).
  destruct (selectVersion_ok (E:=upd_error) reg r1 Hok1) as (r2 & -> & Hok2 & Hsel & Hp & _ & Heq & _).
  assert (∀ f j, vflag f r2 j = vflag f r1 j) as Hfl by (intros f j; by rewrite Heq).
  split.
  - exists i. split_and!; [done|done| |done]. rewrite Hfl. unfold vflag, r1. simpl.
    rewrite list_lookup_alter_eq. pose proof (versions_in_store r Hok) as Hin. rewrite Forall_forall in Hin.
    destruct (lookup_lt_is_Some_2 _ _ (Hin _ Hi)) as [rv ->]. done.
  - intros j Hj Hbl. rewrite Hfl in Hbl.
    assert (selectable reg r1 j = false) as Hns.
    { unfold selectable, vflag in *. destruct (store r1 !! j); [|done]. unfold isSelectable. by rewrite Hbl. }
    rewrite Hj in Hsel. inversion Hsel as [|x Hd Ho Ha|x _ _ _ Hs|x _ _ _ Hn|x _ _ _ Hn|x _ _ _ Hst _]; subst x.
    + left. split; [done|]. unfold dev_available. by rewrite Hfl.
    + by rewrite Hs in Hns.
    + destruct Hn as (_ & Hs & _). by rewrite Hs in Hns.
    + destruct Hn as (_ & Hs & _). apply andb_true_iff in Hs as [_ Hs]. by rewrite Hs in Hns.
    + right. intros k Hk. rewrite Hp in Hk. specialize (Hst k Hk). unfold stable, selectable in *.
      by rewrite Heq.
Qed.

Lemma Blacklist_outcome_witness :
  let reg := example_registry false false true true in
  (Blacklist reg "1.0.0" example_two).2 = Ret tt ∧
  SelectedVersion (Blacklist reg "1.0.0" example_two).1 = Some 1 ∧
  vflag Blacklisted (Blacklist reg "1.0.0" example_two).1 1 = false ∧
  ∃ i, i ∈ Versions example_two ∧ vflag Blacklisted (Blacklist reg "1.0.0" example_two).1 i = true.
Proof.
  intros reg. split_and!; [vm_compute; reflexivity..|].
  assert (H := Blacklist_outcome reg "1.0.0" example_two example_two_ok).
  destruct (Blacklist reg "1.0.0" example_two) as [r' a] eqn:E.
  replace a with (Ret (E := upd_error) tt) in H by (vm_compute in E; congruence).
  destruct H as [(i & Hi & _ & Hb & _) _]. by exists i.
Defined.

(** A version stays selected although it was blacklisted and another, usable
    pre-release exists: the fallback takes the newest version whatever its
    flags. *)
Theorem blacklisted_stays_selected :
  let r := example_resource [example_version "3.0.0" true false false; example_version "2.9.0-beta" true false false]
             (Some 0) in
  let '(r', a) := Blacklist (example_registry false false true true) "3.0.0" r in
  a = Ret tt ∧ SelectedVersion r' = Some 0 ∧ vflag Blacklisted r' 0 = true ∧
  selectable (example_registry false false true true) r' 1 = true.
Proof. vm_compute. done. Qed.

(** In development mode an available version 0.0.0 is not selected when a
    pre-release of it exists: only the oldest version is looked at. *)
Theorem dev_version_missed :
  let r := example_resource [example_version "1.0.0" true false false; example_version "0.0.0" true false false;
                             example_version "0.0.0-alpha" true false false] None in
  ∃ r', selectVersion (E:=upd_error) (example_registry true false true true) r = Ret r' ∧ SelectedVersion r' = Some 0.
Proof. eexists. split; vm_compute; reflexivity. Qed.

(** Purge never returns an error and removes only files of versions behind a
    boundary that lies after the active, the selected and a stable version and
    leaves more than max(2, keep) versions; whatever the file system answers,
    no other path changes, and with a blacklisted version nothing does. *)
Theorem Purge_removes_only_old {SV TS : Type} `{!SemVer SV} (env : OsEnv) (sig_Extension : string)
    (reg : ResourceRegistry SV TS) (keep : Z) (r r' : Resource SV TS) (s s' : Sys) (a : go os_error unit) :
  is_s64 keep → (len (Versions r) < 2 ^ 63)%Z →
  Resource_Purge env sig_Extension reg keep (r, s) = ((r', s'), a) →
  a = Ret tt ∧
  ∃ kept purged, Versions r = (kept ++ purged)%list ∧
    (∀ p, ¬ paths_of sig_Extension reg r purged p → sys_fs s' !! p = sys_fs s !! p) ∧
    (purged ≠ [] →
       (∀ i, ActiveVersion r = Some i → i ∈ kept) ∧ (∀ i, SelectedVersion r = Some i → i ∈ kept) ∧
       (∃ i, i ∈ kept ∧ stable r i = true) ∧ (Z.max 2 keep < len kept)%Z ∧
       existsb (vflag Blacklisted r) (Versions r) = false).
Proof.
  intros Hk Hl H.
  destruct (Purge_cases _ _ _ _ _ _ _ _ _ Hk Hl H) as [-> [[-> ->]|(kept & purged & Hvs & Hne & Hb & -> & Hrun & Ha & Hs & Hst & Hlen)]].
  - split; [done|]. exists (Versions r), []. by rewrite app_nil_r.
  - split; [done|]. exists kept, purged. split_and!; [done| |done]. intros p Hp.
    assert (touches (paths_of sig_Extension reg r purged) (st_iter (purge_version env sig_Extension reg r) purged)) as Ht.
    { apply touches_iter. intros i Hi. by apply touches_purge_version. }
    specialize (Ht s p Hp). by rewrite Hrun in Ht.
Qed.

Definition example_many : Resource simple_version unit :=
  example_resource (map (λ v, example_version v true false false) ["5.0.0"; "4.0.0"; "3.0.0"; "2.0.0"; "1.0.0"; "0.9.0"])
    (Some 0).

Definition example_many_sys : Sys :=
  mkSys (list_to_map (map (λ v, ("/data/updates/all/app_v" ++ v ++ "-0-0.zip", FileNode [])) ["5"; "4"; "3"; "2"; "1"])) 0.

Lemma Purge_removes_only_old_witness :
  let run := Resource_Purge quiet_env ".sig" (example_registry false false true true) 2 (example_many, example_many_sys) in
  run.2 = Ret tt ∧ sys_fs run.1.2 !! "/data/updates/all/app_v3-0-0.zip" = Some (FileNode []) ∧
  sys_fs run.1.2 !! "/data/updates/all/app_v2-0-0.zip" = None.
Proof.
  intros run.
  destruct (Purge_removes_only_old quiet_env ".sig" (example_registry false false true true) 2
    example_many run.1.1 example_many_sys run.1.2 run.2) as [H _].
  - unfold is_s64. lia.
  - reflexivity.
  - reflexivity.
  - split; [exact H|]. split; vm_compute; reflexivity.
Defined.

(** When Purge removes files, the versions that stay listed are the removed
    ones: the active and the selected version are no longer in the list. *)
Theorem Purge_lists_the_purged {SV TS : Type} `{!SemVer SV} (env : OsEnv) (sig_Extension : string)
    (reg : ResourceRegistry SV TS) (keep : Z) (r r' : Resource SV TS) (s s' : Sys) (a : go os_error unit) :
  is_s64 keep → (len (Versions r) < 2 ^ 63)%Z → NoDup (Versions r) →
  Resource_Purge env sig_Extension reg keep (r, s) = ((r', s'), a) → r' ≠ r →
  ∃ kept, Versions r = (kept ++ Versions r')%list ∧ (Z.max 2 keep < len kept)%Z ∧
    (∀ i, ActiveVersion r' = Some i → i ∉ Versions r') ∧ (∀ i, SelectedVersion r' = Some i → i ∉ Versions r').
Proof.
  intros Hk Hl Hnd H Hne.
  destruct (Purge_cases _ _ _ _ _ _ _ _ _ Hk Hl H) as [_ [[-> _]|(kept & purged & Hvs & _ & _ & -> & _ & Ha & Hs & _ & Hlen)]]; [done|].
  exists kept. simpl. rewrite Hvs in Hnd. apply NoDup_app in Hnd as (_ & Hd & _).
  split_and!; [done|done|intros i Hi; apply Hd; by apply Ha|intros i Hi; apply Hd; by apply Hs].
Qed.

Lemma Purge_lists_the_purged_witness :
  let run := Resource_Purge quiet_env ".sig" (example_registry false false true true) 2 (example_many, example_many_sys) in
  ∃ kept, Versions example_many = (kept ++ Versions run.1.1)%list ∧ Versions run.1.1 = [3; 4; 5].
Proof.
  intros run.
  destruct (Purge_lists_the_purged quiet_env ".sig" (example_registry false false true true) 2
    example_many run.1.1 example_many_sys run.1.2 run.2) as (kept & H & _).
  - unfold is_s64. lia.
  - reflexivity.
  - apply NoDup_seq.
  - reflexivity.
  - intros Heq. apply (f_equal Versions) in Heq. vm_compute in Heq. discriminate Heq.
  - exists kept. split; [exact H|]. vm_compute. reflexivity.
Defined.

(** After such a purge the next selection takes an old version whose file was
    just removed and that is still marked as available. *)
Theorem Purge_then_downgrade :
  let reg := example_registry false false true true in
  let '((r, s), _) := Resource_Purge quiet_env ".sig" reg 2 (example_many, example_many_sys) in
  ∃ r', selectVersion (E:=upd_error) reg r = Ret r' ∧ SelectedVersion r' = Some 3 ∧
    (VersionNumber <$> store r' !! 3) = Some "2.0.0" ∧ vflag Available r' 3 = true ∧
    sys_fs s !! "/data/updates/all/app_v2-0-0.zip" = None.
Proof. vm_compute. eexists. split; [reflexivity|]. done. Qed.
