(* ===== verification/UpdaterFetch.v ===== *)
(** * updater: fetching files and indexes

    updater/fetch.go, indexes.go, get.go, updating.go and the parts of
    storage.go that read the disk. The network is a function from the number
    of the external call, the update URL and the path to the response; whether
    a context is done while a retry waits, and the time, are functions of the
    number of the call as well. The signature library (jess) and the JSON
    parser are parameters. *)

From Stdlib Require Import ZArith Lia Ascii String.
From stdpp Require Import gmap strings.
From S2P Require Import Prelude GoStrings GoVersion GoSort GoPath GoFs UtilsFs UpdaterNames Updater.
Local Open Scope string_scope.

(** ** Libraries *)

(** github.com/safing/jess: filesig and lhash. [VerifyFileData] returns the
    file hash of the verified file data. *)
Class SigLib (TS SIG HASH : Type) := {
  filesig_Extension : string;
  ParseSigFile : bytes → list SIG * bool;            (* the signatures; an error *)
  VerifyFileData : SIG → option (list (string * string)) → option TS → option HASH;
  VerifyFile : bytes → bytes → list (string * string) → option TS → bool;
  Hash_Equal : HASH → HASH → bool;
  Matches : HASH → bytes → bool;
  RawSum : HASH → bytes → bytes;                     (* Algorithm().RawHasher() over the data *)
  EqualRaw : HASH → bytes → bool;
}.

Record IndexFile : Type := mkIndexFile {
  if_Channel : string;
  if_Published : option Z;                           (* the zero time is None *)
  if_Releases : gmap string string;
}.

(** json.Unmarshal into an IndexFile, and into a map of releases. *)
Class IndexCodec := {
  json_IndexFile : bytes → option IndexFile;
  json_Releases : bytes → option (gmap string string);
}.

Inductive http_result : Type :=
| HttpFailed                                         (* no URL, no request or no response *)
| HttpResponse (status : Z) (body : bytes) (read_error : bool) (contentLength : Z).

(** What happens outside: the n-th external call sees these values. *)
Record UpdEnv : Type := mkUpdEnv {
  ue_os : OsEnv;
  ue_clock : nat → Z;
  ue_done : nat → bool;
  ue_request : nat → string → string → http_result;
}.

Section Fetch.
Context {SV TS SIG HASH : Type} `{!SemVer SV} {sort_lib : SortLib} `{!SigLib TS SIG HASH} {codec : IndexCodec}.
Context (env : UpdEnv).

Abbreviation rversion := (ResourceVersion SV).
Abbreviation res := (Resource SV TS).
Abbreviation registry := (ResourceRegistry SV TS).
Abbreviation world := (World SV TS).
Abbreviation os := (ue_os env).

(** An external call that only reads. *)
Definition external {E A : Type} (f : nat → A) : st Sys E A :=
  λ s, (mkSys (sys_fs s) (S (sys_tick s)), Ret (f (sys_tick s))).

(** ** fetch.go *)

(** [UpdateURLs[tries % len(UpdateURLs)]]: without URLs the division panics. *)
Definition makeRequest (reg : registry) (downloadPath : string) (tries : Z)
    : st Sys upd_error (bytes * bool * Z) :=
  match UpdateURLs reg !! Z.to_nat (tries `mod` len (UpdateURLs reg)) with
  | None => λ s, (s, Panic)
  | Some updateBaseURL =>
      let$ resp := external (λ n, ue_request env n updateBaseURL downloadPath) in
      match resp with
      | HttpFailed => st_fail UpdRequest
      | HttpResponse status body read_error contentLength =>
          if (status =? 200)%Z then st_ret (body, read_error, contentLength) else st_fail UpdRequest
      end
  end.

(** The wait before a retry; [true] when the context is done. *)
Definition backoff (tries : Z) : st Sys upd_error bool :=
  if (0 <? tries)%Z then external (ue_done env) else st_ret false.

(** All signatures have to verify and to agree on the hash. *)
Fixpoint verify_sigs (sigs : list SIG) (metadata : option (list (string * string))) (ts : option TS)
    (verifiedHash : option HASH) : go upd_error (option HASH) :=
  match sigs with
  | [] => Ret verifiedHash
  | sig :: sigs' =>
      match VerifyFileData sig metadata ts with
      | None => Fail UpdSigInvalid
      | Some h =>
          match verifiedHash with
          | None => verify_sigs sigs' metadata ts (Some h)
          | Some h0 => if Hash_Equal h h0 then verify_sigs sigs' metadata ts verifiedHash else Fail UpdSigHashesDiffer
          end
      end
  end.

Definition parse_sigs (sigFileData : bytes) : go upd_error (list SIG) :=
  match ParseSigFile sigFileData with
  | ([], true) => Fail UpdSigUnparsable
  | ([], false) => Fail UpdSigNone
  | (_, true) => Fail UpdSigUnparsable
  | (sigs, false) => Ret sigs
  end.

(** The hash, the data of the signature file, and the error; the data is
    returned with the error once the signatures were parsed. *)
Record sig_result : Type := mkSigResult {
  sr_hash : option HASH;
  sr_data : bytes;
  sr_error : option upd_error;
}.

Definition check_sig_data (sigFileData : bytes) (metadata : option (list (string * string))) (ts : option TS)
    : sig_result :=
  match parse_sigs sigFileData with
  | Ret sigs =>
      match verify_sigs sigs metadata ts None with
      | Ret h => mkSigResult h sigFileData None
      | Fail e => mkSigResult None sigFileData (Some e)
      | Panic => mkSigResult None [] None  (* never *)
      end
  | Fail e => mkSigResult None [] (Some e)
  | Panic => mkSigResult None [] None  (* never *)
  end.

Definition fetchAndVerifySigFile (reg : registry) (verifOpts : VerificationOptions TS) (sigFilePath : string)
    (metadata : option (list (string * string))) (tries : Z) : st Sys upd_error sig_result :=
  let$ resp := st_try (makeRequest reg sigFilePath tries) in
  match resp with
  | Ret (body, false, _) => st_ret (check_sig_data body metadata (TrustStore verifOpts))
  | Ret (_, true, _) => st_ret (mkSigResult None [] (Some UpdRequest))
  | Fail e => st_ret (mkSigResult None [] (Some e))
  | Panic => λ s, (s, Panic)
  end.

(** [make([]byte, 0, resp.ContentLength)] panics for a negative length, which
    is what an unknown length is. *)
Definition fetchData (reg : registry) (downloadPath : string) (tries : Z) : st Sys upd_error bytes :=
  let$ done := backoff tries in
  if done : bool then st_ret []
  else
    let$ resp := makeRequest reg downloadPath tries in
    let '(body, read_error, contentLength) := resp in
    if (contentLength <? 0)%Z then λ s, (s, Panic)
    else if read_error : bool then st_fail UpdRequest
    else if (contentLength =? len body)%Z then st_ret body
    else st_fail UpdShortDownload.

(** An error that is returned, logged or ignored according to the policy. *)
Definition by_policy (policy : Z) (e : upd_error) : st Sys upd_error unit :=
  if (policy =? SignaturePolicyRequire)%Z then st_fail e else st_ret tt.

(** The download into the temporary file and the check of its hash: whether
    the signature is to be written. *)
Definition download_to (reg : registry) (r : res) (rv : rversion) (policy : Z) (verifiedHash : option HASH)
    (name : string) (tries : Z) : st Sys upd_error bool :=
  let$ resp := makeRequest reg (versionedPath r rv) tries in
  let '(body, read_error, contentLength) := resp in
  let$ _ := st_wrap UpdOs (file_Write os name body) in
  if read_error : bool then st_fail UpdRequest
  else if negb (contentLength =? len body)%Z then st_fail UpdShortDownload
  else
    match verifiedHash with
    | None => st_ret false
    | Some h =>
        if EqualRaw h (RawSum h body) then st_ret true
        else
          let$ _ := by_policy policy UpdChecksum in
          st_ret false
    end.

Definition write_sig (reg : registry) (r : res) (rv : rversion) (policy : Z) (sigFileData : bytes) (verified : bool)
    : st Sys upd_error unit :=
  if verified && negb (bool_decide (sigFileData = [])) then
    let$ written := st_try (os_WriteFile os (storagePath reg r rv ++ filesig_Extension) sigFileData) in
    match written with
    | Fail e => by_policy policy (UpdOs e)
    | _ => st_ret tt
    end
  else st_ret tt.

(** The signature is downloaded first, if verification is enabled. *)
Definition fetch_sig (reg : registry) (r : res) (rv : rversion) (policy : Z) (tries : Z) : st Sys upd_error sig_result :=
  match res_VerificationOptions r with
  | None => st_ret (mkSigResult None [] None)
  | Some opts =>
      let$ sig := fetchAndVerifySigFile reg opts (versionedSigPath filesig_Extension r rv)
                    (Some (SigningMetadata r rv)) tries in
      let$ _ := match sr_error sig with Some e => by_policy policy e | None => st_ret tt end in
      st_ret sig
  end.

Definition fetchFile (reg : registry) (r : res) (rv : rversion) (tries : Z) : st Sys upd_error unit :=
  let$ done := backoff tries in
  if done : bool then st_ret tt
  else
    let path := storagePath reg r rv in
    let$ _ := st_wrap UpdUtils (EnsureAbsPath os (reg_dirs reg) (storageDir reg) (path_Dir path)) in
    let policy := match res_VerificationOptions r with Some opts => DownloadPolicy opts | None => SignaturePolicyDisable end in
    let$ sig := fetch_sig reg r rv policy tries in
    let$ atomicFile := st_wrap UpdOs (TempFile os (dir_path reg (tmpDir reg)) path) in
    let$ written := st_try
      (let$ verified := download_to reg r rv policy (sr_hash sig) (pf_Name atomicFile) tries in
       write_sig reg r rv policy (sr_data sig) verified) in
    match written with
    | Ret _ =>
        let$ closed := st_wrap UpdOs (CloseAtomicallyReplace os atomicFile) in
        match closed.2 with
        | Ret _ =>
            let$ _ := st_ignore (st_wrap UpdOs (os_Chmod os path 493)) in
            st_ignore (st_wrap UpdOs (Cleanup os closed.1))
        | Fail e =>
            let$ _ := st_ignore (st_wrap UpdOs (Cleanup os closed.1)) in
            st_fail (UpdOs e)
        | Panic => λ s, (s, Panic)
        end
    | Fail e =>
        let$ _ := st_ignore (st_wrap UpdOs (Cleanup os atomicFile)) in
        st_fail e
    | Panic => λ s, (s, Panic)
    end.

(** [verifiedHash.MatchesFile]. *)
Definition MatchesFile (h : HASH) (path : string) : st Sys upd_error bool :=
  let$ data := st_wrap UpdOs (os_ReadFile os path) in
  st_ret (Matches h data).

Definition fetchMissingSig (reg : registry) (r : res) (rv : rversion) (tries : Z) : st Sys upd_error unit :=
  let$ done := backoff tries in
  if done : bool then st_ret tt
  else
    let$ _ := st_wrap UpdUtils (EnsureAbsPath os (reg_dirs reg) (storageDir reg) (path_Dir (storagePath reg r rv))) in
    match res_VerificationOptions r with
    | None => λ s, (s, Panic)
    | Some opts =>
        let policy := DownloadPolicy opts in
        let$ sig := fetchAndVerifySigFile reg opts (versionedSigPath filesig_Extension r rv)
                      (Some (SigningMetadata r rv)) tries in
        match sr_error sig, sr_hash sig with
        | Some e, _ => by_policy policy e
        | None, None => λ s, (s, Panic)
        | None, Some h =>
            let$ ok := st_try (MatchesFile h (storagePath reg r rv)) in
            match ok with
            | Ret true =>
                let$ written := st_try (os_WriteFile os (storageSigPath filesig_Extension reg r rv) (sr_data sig)) in
                match written with
                | Fail e => by_policy policy (UpdOs e)
                | _ => st_ret tt
                end
            | Ret false => by_policy policy UpdChecksum
            | Fail e => by_policy policy e
            | Panic => λ s, (s, Panic)
            end
        end
    end.

(** ** indexes.go *)

Definition loadOldIndexFormat (indexData : bytes) (channel : string) : go upd_error IndexFile :=
  match json_Releases indexData with
  | None => Fail UpdIndexUnparsable
  | Some releases => Ret (mkIndexFile channel None releases)
  end.

Definition ParseIndexFile (indexData : bytes) (channel : string) (lastIndexRelease : option Z) (now : Z)
    : go upd_error IndexFile :=
  match json_IndexFile indexData with
  | None => Fail UpdIndexUnparsable
  | Some indexFile =>
      if bool_decide (if_Releases indexFile = ∅) && String.eqb (if_Channel indexFile) ""
      then loadOldIndexFormat indexData channel
      else if match if_Published indexFile with Some p => (now <? p)%Z | None => false end
      then Fail UpdIndexFromFuture
      else if match if_Published indexFile, lastIndexRelease with
              | Some p, Some l => (p <? l)%Z
              | _, _ => false
              end
      then Fail UpdIndexIsOlder
      else if negb (String.eqb channel "") && negb (String.eqb (if_Channel indexFile) "")
              && negb (String.eqb channel (if_Channel indexFile))
      then Fail UpdIndexChannelMismatch
      else Ret indexFile
  end.

(** ** The registry *)

Abbreviation upd A := (st world upd_error A).

Definition on_sys {A : Type} (f : registry → st Sys upd_error A) : upd A :=
  λ w, let '(s, a) := f (w_reg w) (w_sys w) in (mkWorld (w_reg w) s, a).

Definition get_reg {A : Type} (f : registry → A) : upd A := λ w, (w, Ret (f (w_reg w))).

(** The files on disk and the state of the registry change with these calls. *)

(** *** storage.go *)

Definition loadAndVerifySigFile (verifOpts : VerificationOptions TS) (sigFilePath : string)
    : st Sys upd_error sig_result :=
  let$ data := st_try (os_ReadFile os sigFilePath) in
  match data with
  | Ret sigFileData => st_ret (check_sig_data sigFileData None (TrustStore verifOpts))
  | Fail e => st_ret (mkSigResult None [] (Some (UpdOs e)))
  | Panic => λ s, (s, Panic)
  end.

(** The check of the signature of an index on disk. *)
Definition check_disk_index (verifOpts : VerificationOptions TS) (indexPath : string) (indexData : bytes)
    : st Sys upd_error unit :=
  let$ sig := loadAndVerifySigFile verifOpts (indexPath ++ filesig_Extension) in
  match sr_error sig, sr_hash sig with
  | Some e, _ => by_policy (DiskLoadPolicy verifOpts) e
  | None, None => λ s, (s, Panic)
  | None, Some h =>
      if Matches h indexData then st_ret tt else by_policy (DiskLoadPolicy verifOpts) UpdChecksum
  end.

Definition set_LastRelease (i : nat) (t : option Z) (g : registry) : registry :=
  set_indexes (indexes g)
    (alter (λ idx, mkIndex (idx_Path idx) (idx_Channel idx) (idx_PreRelease idx) (idx_AutoDownload idx) t) i (index_objs g)) g.

(** [order] is the order of the iteration over the releases. *)
Definition loadIndexFile (i : nat) (order : gmap string string → list (string * string)) : upd unit :=
  λ w,
  match index_objs (w_reg w) !! i with
  | None => (w, Panic)
  | Some idx =>
      (let indexPath := path_Join (dir_path (w_reg w) (storageDir (w_reg w))) (idx_Path idx) in
       let$ indexData := on_sys (λ _, st_wrap UpdOs (os_ReadFile os indexPath)) in
       let$ _ := on_sys (λ g,
         match GetVerificationOptions g (idx_Path idx) with
         | None => st_ret tt
         | Some verifOpts => check_disk_index verifOpts indexPath indexData
         end) in
       let$ now := on_sys (λ _, external (ue_clock env)) in
       let$ indexFile := λ w, (w, ParseIndexFile indexData (idx_Channel idx) (idx_LastRelease idx) now) in
       let$ _ := on_reg (set_LastRelease i (if_Published indexFile)) in
       if bool_decide (if_Releases indexFile = ∅) then st_ret tt
       else st_ignore (AddResources os filesig_Extension (order (if_Releases indexFile)) (Some i) false true
                         (idx_PreRelease idx))) w
  end.

(** *** updating.go *)

Definition downloadIndexPath (verifOpts : option (VerificationOptions TS)) (path : string) : string :=
  match verifOpts with
  | None => path
  | Some _ => TrimSuffix path ".json" ++ ".v2.json"
  end.

(** The result of the loop that fetches an index and its signature. *)
Record index_fetch : Type := mkIndexFetch {
  fx_indexErr : option upd_error;
  fx_indexData : bytes;
  fx_sigErr : option upd_error;
  fx_sigData : bytes;
}.

Fixpoint fetch_index (n : nat) (tries : Z) (reg : registry) (verifOpts : option (VerificationOptions TS))
    (path : string) (x : index_fetch) : st Sys upd_error index_fetch :=
  match n with
  | O => st_ret x
  | S n' =>
      let$ data := st_try (fetchData reg path tries) in
      match data with
      | Panic => λ s, (s, Panic)
      | Fail e =>
          fetch_index n' (tries + 1) reg verifOpts path
            (mkIndexFetch (Some e) [] (fx_sigErr x) (fx_sigData x))
      | Ret indexData =>
          match verifOpts with
          | None => st_ret (mkIndexFetch None indexData (fx_sigErr x) (fx_sigData x))
          | Some opts =>
              let$ sig := fetchAndVerifySigFile reg opts (path ++ filesig_Extension) None tries in
              match sr_error sig, sr_hash sig with
              | Some e, _ =>
                  fetch_index n' (tries + 1) reg verifOpts path (mkIndexFetch None indexData (Some e) (sr_data sig))
              | None, None => λ s, (s, Panic)
              | None, Some h =>
                  if Matches h indexData then st_ret (mkIndexFetch None indexData None (sr_data sig))
                  else fetch_index n' (tries + 1) reg verifOpts path
                         (mkIndexFetch None indexData (Some UpdIndexChecksumMismatch) (sr_data sig))
              end
          end
      end
  end.

(** [path.Dir(idx.Path) + "/"], empty for an index at the root. *)
Definition authoritativePath (path : string) : string :=
  let p := path_Dir path ++ "/" in
  if String.eqb p "./" then "" else p.

Definition cleanedData (path : string) (releases : gmap string string) : gmap string string :=
  filter (λ '(key, _), HasPrefix key (authoritativePath path) = true) releases.

(** The index and its signature are written to disk; errors are logged. *)
Definition save_index (reg : registry) (idx : Index) (indexData sigFileData : bytes) : st Sys upd_error unit :=
  let dir := dir_path reg (storageDir reg) in
  let$ _ := st_ignore (EnsureRelPath os (reg_dirs reg) (storageDir reg) (path_Dir (idx_Path idx))) in
  let$ _ := st_ignore (os_WriteFile os (path_Join dir (idx_Path idx)) indexData) in
  if bool_decide (sigFileData = []) then st_ret tt
  else st_ignore (os_WriteFile os (path_Join dir (idx_Path idx ++ filesig_Extension)) sigFileData).

(** [order] is the order of the iteration over the releases, [rorder] that over
    the resources. *)
Context (order : gmap string string → list (string * string)) (rorder : gmap string nat → list nat).

Definition downloadIndex (i : nat) : upd unit :=
  λ w,
  match index_objs (w_reg w) !! i with
  | None => (w, Panic)
  | Some idx =>
      (let verifOpts := GetVerificationOptions (w_reg w) (idx_Path idx) in
       let$ x := on_sys (λ g, fetch_index 3 0 g verifOpts (downloadIndexPath verifOpts (idx_Path idx))
                                (mkIndexFetch None [] None [])) in
       match fx_indexErr x, fx_sigErr x with
       | Some e, _ => st_fail e
       | None, Some e => st_fail e
       | None, None =>
           let$ now := on_sys (λ _, external (ue_clock env)) in
           let$ indexFile := λ w, (w, ParseIndexFile (fx_indexData x) (idx_Channel idx) (idx_LastRelease idx) now) in
           let$ _ :=
             (if bool_decide (if_Releases indexFile = ∅) then st_ret tt
              else st_ignore (AddResources os filesig_Extension
                     (order (cleanedData (idx_Path idx) (if_Releases indexFile))) (Some i) false true (idx_PreRelease idx))) in
           on_sys (λ g, save_index g idx (fx_indexData x) (fx_sigData x))
       end) w
  end.

(** The last error and whether any index was updated. *)
Fixpoint update_indexes (l : list nat) (lastErr : option upd_error) (anySuccess : bool)
    : upd (option upd_error * bool) :=
  match l with
  | [] => st_ret (lastErr, anySuccess)
  | i :: l' =>
      let$ r := st_try (downloadIndex i) in
      match r with
      | Fail e => update_indexes l' (Some e) anySuccess
      | _ => update_indexes l' lastErr true
      end
  end.

Definition UpdateIndexes : upd unit :=
  with_operation StateChecking
    (let$ l := get_reg indexes in
     let$ r := update_indexes l None false in
     if r.2 then
       let$ pending := get_reg (λ g,
         humanInfoFromResourceVersions g (GetPendingDownloads true false (rorder (resources g)) g).1) in
       ReportUpdateCheck (ue_clock env) pending None
     else
       let err := UpdAllIndexesFailed r.1 in
       let$ _ := ReportUpdateCheck (ue_clock env) [] (Some err) in
       st_fail err).

(** The first error is returned. *)
Fixpoint LoadIndexes_loop (l : list nat) (firstErr : option upd_error) : upd unit :=
  match l with
  | [] => match firstErr with None => st_ret tt | Some e => st_fail e end
  | i :: l' =>
      let$ online := get_reg Online in
      let$ r := st_try (loadIndexFile i order) in
      let$ r :=
        match r with
        | Fail (UpdOs OsNotExist) | Fail (UpdOs OsPermission) =>
            if online : bool then st_try (downloadIndex i) else st_ret r
        | _ => st_ret r
        end in
      LoadIndexes_loop l'
        (match firstErr, r with None, Fail e => Some e | _, _ => firstErr end)
  end.

Definition LoadIndexes : upd unit :=
  let$ l := get_reg indexes in
  LoadIndexes_loop l None.

(** *** Downloads *)

Definition fetch_version (fetch : registry → res → rversion → Z → st Sys upd_error unit) (rv : nat * nat) (tries : Z)
    : upd unit :=
  on_sys (λ g, match version_of g rv with
               | None => λ s, (s, Panic)
               | Some (r, v) => fetch g r v tries
               end).

Definition update_flags (f : rversion → rversion) (rv : nat * nat) : upd unit :=
  on_resource rv.1 (λ _, st_mod (λ '(r, s), (update_version f rv.2 r, s))).

(** Up to [n] tries; the flags are set after the first one without error. *)
Fixpoint download_tries (n : nat) (tries : Z)
    (fetch : registry → res → rversion → Z → st Sys upd_error unit) (done : upd unit) (rv : nat * nat) : upd unit :=
  match n with
  | O => st_ret tt
  | S n' =>
      let$ r := st_try (fetch_version fetch rv tries) in
      match r with
      | Ret _ => done
      | _ => download_tries n' (tries + 1) fetch done rv
      end
  end.

Definition set_downloaded (rv : nat * nat) : upd unit :=
  let$ _ := update_flags (set_Available true) rv in
  let$ verified := get_reg (λ g, match version_of g rv with
                                 | Some (r, _) => bool_decide (is_Some (res_VerificationOptions r))
                                 | None => false
                                 end) in
  if verified : bool then update_flags (set_SigAvailable true) rv else st_ret tt.

Fixpoint download_all (names : list string) (i : Z) (l : list (nat * nat)) : upd unit :=
  match l with
  | [] => st_ret tt
  | rv :: l' =>
      let$ _ := download_tries 3 0 fetchFile (set_downloaded rv) rv in
      let$ _ := UpdateOperationDetails (mkDetails names (i + 1)) in
      download_all names (i + 1) l'
  end.

(** The variable reportError of the loops is a new one in each, so the one
    that is reported stays nil. *)
Definition DownloadUpdates (includeManual : bool) : upd unit :=
  with_operation StateDownloading
    (let$ pending := get_reg (λ g, GetPendingDownloads includeManual true (rorder (resources g)) g) in
     let '(toUpdate, missingSigs) := pending in
     let$ names := get_reg (λ g, humanInfoFromResourceVersions g toUpdate) in
     let$ _ := UpdateOperationDetails (mkDetails names 0) in
     if bool_decide (toUpdate = []) && bool_decide (missingSigs = []) then st_ret tt
     else
       let$ _ := on_sys (λ g, st_wrap UpdUtils (Ensure os (reg_dirs g) (tmpDir g))) in
       let$ _ := download_all names 0 toUpdate in
       let$ _ := st_iter (λ rv, download_tries 3 0 fetchMissingSig (update_flags (set_SigAvailable true) rv) rv)
                   missingSigs in
       ReportDownloads (ue_clock env) names None).

(** *** file.go and get.go *)

(** [Verify] of a file. *)
Definition File_Verify (g : registry) (f : File) : st Sys upd_error unit :=
  match version_of g (file_resource f, file_version f) with
  | None => λ s, (s, Panic)
  | Some (r, rv) =>
      match res_VerificationOptions r with
      | None => st_fail UpdVerificationNotConfigured
      | Some opts =>
          let$ data := st_try (os_ReadFile os (file_storagePath f)) in
          let$ sig := st_try (os_ReadFile os (file_storagePath f ++ filesig_Extension)) in
          match data, sig with
          | Ret data, Ret sig =>
              if VerifyFile data sig (SigningMetadata r rv) (TrustStore opts) then st_ret tt
              else by_policy (DiskLoadPolicy opts) UpdSigInvalid
          | _, _ => by_policy (DiskLoadPolicy opts) UpdSigInvalid
          end
      end
  end.

Fixpoint GetFile_tries (n : nat) (tries : Z) (f : File) (last : option upd_error) : upd File :=
  match n with
  | O => match last with Some e => st_fail e | None => upd_panic end
  | S n' =>
      let$ r := st_try (fetch_version fetchFile (file_resource f, file_version f) tries) in
      match r with
      | Ret _ =>
          let$ _ := markActiveWithLocking f in
          st_ret f
      | Fail e => GetFile_tries n' (tries + 1) f (Some e)
      | Panic => upd_panic
      end
  end.

Definition GetFile (identifier : string) : upd File :=
  λ w,
  match resources (w_reg w) !! identifier with
  | None => (w, Fail UpdNotFound)
  | Some id =>
      (let$ f := on_resource id (λ g, lift_resource (Resource_GetFile g id)) in
       let$ here := get_reg (λ g, match version_of g (file_resource f, file_version f) with
                                  | Some (_, rv) => Available rv
                                  | None => false
                                  end) in
       if here : bool then
         let$ _ := markActiveWithLocking f in
         let$ r := st_try (on_sys (λ g, File_Verify g f)) in
         match r with
         | Fail UpdVerificationNotConfigured => st_ret f
         | Fail e => st_fail e
         | _ => st_ret f
         end
       else
         let$ online := get_reg Online in
         if negb online then st_fail UpdNotAvailableLocally
         else
           let$ _ := on_sys (λ g, st_wrap UpdUtils (Ensure os (reg_dirs g) (tmpDir g))) in
           with_operation StateFetching (GetFile_tries 5 0 f None)) w
  end.

(** *** ScanStorage *)

(** One call of the function given to filepath.Walk: the new last error and
    whether SkipDir is returned. *)
Definition scan_entry (path : string) (is_dir walk_error : bool) (lastError : option upd_error)
    : upd (option upd_error * bool) :=
  let$ g := get_reg (λ g, g) in
  if HasPrefix path (dir_path g (tmpDir g)) then st_ret (lastError, true)
  else if walk_error then st_ret (Some (UpdOs OsOther), false)
  else if HasSuffix path filesig_Extension then st_ret (lastError, false)
  else
    match path_Rel (dir_path g (storageDir g)) path with
    | None => st_ret (Some (UpdUtils UtilsRel), false)
    | Some relativePath =>
        match GetIdentifierAndVersion relativePath with
        | None => st_ret (lastError, false)
        | Some (identifier, version) =>
            if is_dir then st_ret (lastError, true)
            else
              let$ r := st_try (addResource os filesig_Extension identifier version None true false false) in
              st_ret (match r with Fail e => Some e | _ => lastError end, false)
        end
    end.

(** What SkipDir leaves out: what is below a directory, or the rest of the
    directory of a file. *)
Definition skipped (path : string) (is_dir : bool) (entry : string * bool * bool) : bool :=
  below (if is_dir then path else path_Dir path) entry.1.1.

(** [entries] is what filepath.Walk visits when nothing is skipped: the path,
    whether it is a directory, and whether it could not be read. *)
Fixpoint scan_walk (fuel : nat) (entries : list (string * bool * bool)) (lastError : option upd_error)
    : upd (option upd_error) :=
  match fuel, entries with
  | S fuel', (path, is_dir, walk_error) :: entries' =>
      let$ r := scan_entry path is_dir walk_error lastError in
      scan_walk fuel' (if r.2 then List.filter (λ e, negb (skipped path is_dir e)) entries' else entries') r.1
  | _, _ => st_ret lastError
  end.

Definition ScanStorage (root : string) (entries : list (string * bool * bool)) : upd unit :=
  let$ storage := get_reg (λ g, dir_path g (storageDir g)) in
  if negb (String.eqb root "") && negb (HasPrefix (path_Clean root) storage) then st_fail UpdOutsideStorage
  else
    let$ lastError := scan_walk (length entries) entries None in
    match lastError with None => st_ret tt | Some e => st_fail e end.

End Fetch.
