(* ===== verification/UpdaterSafe.v ===== *)
(** * updater: what may end up on disk and in the registry

    Theorems about updater/fetch.go, storage.go, indexes.go, signing.go and
    updating.go: which files a download may change and with which content,
    which resources an index may define, which options apply to an identifier,
    and the state that is reported. *)

From Stdlib Require Import ZArith Lia Ascii String.
From stdpp Require Import gmap strings sorting.
From S2P Require Import Prelude GoStrings GoVersion GoSort GoPath GoFs UtilsFs UpdaterNames Updater UpdaterSelect UpdaterFetch.
Local Open Scope string_scope.

(** ** Signed content *)

Section Signed.
Context {SV TS SIG HASH : Type} `{!SemVer SV} `{!SigLib TS SIG HASH}.

(** The hash comes from a signature file whose signatures all verify. *)
Definition signed_hash (metadata : option (list (string * string))) (ts : option TS) (h : HASH) : Prop :=
  ∃ data sigs, ParseSigFile data = (sigs, false) ∧
    (∃ sig, sig ∈ sigs ∧ VerifyFileData sig metadata ts = Some h) ∧
    (∀ sig, sig ∈ sigs → is_Some (VerifyFileData sig metadata ts)).

(** The content has the hash of a signature for this resource and version. *)
Definition signed_content (r : Resource SV TS) (rv : ResourceVersion SV) (ts : option TS) (content : bytes) : Prop :=
  ∃ h, signed_hash (Some (SigningMetadata r rv)) ts h ∧ EqualRaw h (RawSum h content) = true.

Lemma verify_sigs_spec (sigs : list SIG) metadata (ts : option TS) (h0 : option HASH) (h : option HASH) :
  verify_sigs sigs metadata ts h0 = Ret h →
  (∀ sig, sig ∈ sigs → is_Some (VerifyFileData sig metadata ts)) ∧
  match h0 with
  | Some x => h = Some x
  | None => match sigs with
            | [] => h = None
            | sig :: _ => h = VerifyFileData sig metadata ts
            end
  end.
Proof.
  revert h0. induction sigs as [|sig sigs IH]; intros h0 H; simpl in H.
  - simplify_eq. split; [by intros sig Hs%elem_of_nil|by destruct h].
  - destruct (VerifyFileData sig metadata ts) as [x|] eqn:Hv; [|done]. destruct h0 as [h0|].
    + destruct (Hash_Equal x h0); [|done]. destruct (IH _ H) as [Hall ->]. split; [|done].
      intros s [->|Hs]%elem_of_cons; [by eexists|by apply Hall].
    + destruct (IH _ H) as [Hall ->]. split; [|done]. intros s [->|Hs]%elem_of_cons; [by eexists|by apply Hall].
Qed.

Lemma check_sig_data_spec data metadata (ts : option TS) :
  sr_error (check_sig_data (HASH:=HASH) data metadata ts) = None →
  ∃ h, sr_hash (check_sig_data data metadata ts) = Some h ∧ signed_hash metadata ts h.
Proof.
  unfold check_sig_data, parse_sigs. destruct (ParseSigFile data) as [[|sig sigs] []] eqn:Hp; try done.
  destruct (verify_sigs (sig :: sigs) metadata ts None) as [h|e|] eqn:Hv; try done.
  - intros _. destruct (verify_sigs_spec _ _ _ _ _ Hv) as [Hall ->]. simpl.
    destruct (Hall sig) as [h Hh]; [by left|]. exists h. split; [done|]. exists data, (sig :: sigs).
    split_and!; [done| |done]. exists sig. split; [by left|done].
  - exfalso. clear Hp. revert Hv. generalize (@None HASH). generalize (sig :: sigs).
    induction l as [|x l IH]; intros h0; simpl; [done|]. repeat case_match; try done; apply IH.
Qed.

End Signed.

(** ** Calls of the network do not change files *)

Section Touch.
Context {SV TS SIG HASH : Type} `{!SemVer SV} `{!SigLib TS SIG HASH} (env : UpdEnv).
Abbreviation os := (ue_os env).
Context (Q : string → Prop).

Lemma touches_external {E A : Type} (f : nat → A) : touches Q (external (E:=E) f).
Proof. by intros s p _. Qed.

Lemma touches_makeRequest (reg : ResourceRegistry SV TS) path tries : touches Q (makeRequest env reg path tries).
Proof.
  unfold makeRequest. destruct (UpdateURLs reg !! _); [|by intros s p _].
  apply touches_bind; [apply touches_external|]. intros []; touch.
Qed.

Lemma touches_backoff tries : touches Q (backoff env tries).
Proof. unfold backoff. destruct (0 <? tries)%Z; [apply touches_external|touch]. Qed.

Lemma touches_by_policy policy e : touches Q (by_policy policy e).
Proof. unfold by_policy. touch. Qed.

Lemma touches_fetchAndVerifySigFile (reg : ResourceRegistry SV TS) opts path metadata tries :
  touches Q (fetchAndVerifySigFile env reg opts path metadata tries).
Proof.
  unfold fetchAndVerifySigFile. apply touches_bind; [apply touches_try, touches_makeRequest|].
  intros [[[body []] n]| |]; by intros s p _.
Qed.

Lemma touches_download_to (reg : ResourceRegistry SV TS) r rv policy h name tries :
  Q name → touches Q (download_to env reg r rv policy h name tries).
Proof.
  intros Hq. unfold download_to. apply touches_bind; [apply touches_makeRequest|]. intros [[body re] n].
  apply touches_bind; [touch|]. intros _. destruct re; [touch|]. destruct (negb _); [touch|].
  destruct h; [|touch]. destruct (EqualRaw _ _); [touch|]. apply touches_bind; [apply touches_by_policy|touch].
Qed.

Lemma touches_write_sig (reg : ResourceRegistry SV TS) r rv policy data verified :
  Q (storagePath reg r rv ++ filesig_Extension) → touches Q (write_sig env reg r rv policy data verified).
Proof.
  intros Hq. unfold write_sig. destruct (_ && _); [|touch]. apply touches_bind; [touch|].
  intros []; [touch|apply touches_by_policy|touch].
Qed.

End Touch.

(** ** fetchFile *)

Lemma touches_bind_result {S E A B : Type} `{!HasFs S} (Q : string → Prop) (m : st S E A) (k : A → st S E B) :
  touches Q m → (∀ s s' a, m s = (s', Ret a) → touches Q (k a)) → touches Q (st_bind m k).
Proof.
  intros Hm Hk s p Hp. unfold st_bind. specialize (Hm s p Hp).
  destruct (m s) as [s' [a|e|]] eqn:Hms; simpl in *; [|done..]. by rewrite (Hk _ _ _ Hms s' p Hp).
Qed.

Section FetchFile.
Context {SV TS SIG HASH : Type} `{!SemVer SV} `{!SigLib TS SIG HASH} (env : UpdEnv).
Abbreviation os := (ue_os env).
Abbreviation registry := (ResourceRegistry SV TS).
Abbreviation res := (Resource SV TS).

(** The directories of the registry: a tree below [root]. *)
Record storage_ok (reg : registry) (root : string) : Prop := {
  so_dirs : dirs_ok (reg_dirs reg);
  so_top : ∃ top d, top_dir (length (reg_dirs reg)) (reg_dirs reg) (storageDir reg) = Some top ∧
    reg_dirs reg !! top = Some d ∧ ds_Path d = root;
  so_root : root ≠ "/";
  so_storage : is_Some (reg_dirs reg !! storageDir reg);
  so_tmp : dir_path reg (tmpDir reg) ≠ "";
}.

(** Temporary names end in a number, and the extension of signatures in
    something else. *)
Record names_ok : Prop := {
  no_random : ∀ n, digits_ok (random os n);
  no_extension : ∃ q a, filesig_Extension = q ++ String a "" ∧ is_digit a = false;
}.

Context (reg : registry) (root : string) (Hst : storage_ok reg root) (Hn : names_ok).
Context (r : res) (rv : ResourceVersion SV) (Hpath : storagePath reg r rv ≠ "/").
Abbreviation path := (storagePath reg r rv).
Abbreviation tmp := (dir_path reg (tmpDir reg)).

Lemma storagePath_clean : clean_abs path.
Proof.
  destruct Hst as [Hd _ _ [d Hdd] _]. unfold storagePath, dir_path. rewrite Hdd.
  destruct (Hd _ _ Hdd) as ((el & _ & ->) & _). apply path_Join_rooted, HasPrefix_abs.
Qed.

Lemma digits_last (s : string) : digits_ok s → ∃ q a, s = q ++ String a "" ∧ is_digit a = true.
Proof.
  intros [Hne Hd]. induction s as [|b s IH]; [done|]. unfold all_bytes in Hd. simpl in Hd.
  apply andb_true_iff in Hd as [Hb Hd]. destruct (decide (s = "")) as [->|Hs]; [by exists "", b|].
  destruct (IH Hs Hd) as (q & a & -> & Ha). by exists (String b q), a.
Qed.

Lemma snoc_inj (s t : string) (a b : ascii) : s ++ String a "" = t ++ String b "" → a = b.
Proof.
  intros H. apply (f_equal string_rev) in H. rewrite !string_rev_app in H. by injection H.
Qed.

Lemma temp_not_path n : temp_name os tmp path n ≠ path.
Proof.
  apply temp_name_fresh; [apply storagePath_clean|done|]. apply digits_lack; [done|apply Hn].
Qed.

Lemma temp_not_sig n : temp_name os tmp path n ≠ path ++ filesig_Extension.
Proof.
  destruct (no_extension Hn) as (q & a & -> & Ha). destruct (digits_last _ (no_random Hn n)) as (t & b & Ht & Hb).
  unfold temp_name. rewrite Ht. rewrite <- !string_app_assoc. intros ->%snoc_inj. by rewrite Hb in Ha.
Qed.

Lemma sig_not_path : path ++ filesig_Extension ≠ path.
Proof.
  destruct (no_extension Hn) as (q & a & -> & _). intros H. apply (f_equal String.length) in H.
  rewrite !length_string_app in H. simpl in H. lia.
Qed.

(** The paths a download may change. *)
Definition fetch_paths (p : string) : Prop :=
  (within root p ∧ within p (path_Dir path)) ∨ p = path ∨ p = path ++ filesig_Extension ∨
  ∃ n, p = temp_name os tmp path n.

Lemma touches_fetch_dirs :
  touches (λ p, within root p ∧ within p (path_Dir path))
    (st_wrap UpdUtils (EnsureAbsPath os (reg_dirs reg) (storageDir reg) (path_Dir path))).
Proof.
  pose proof Hst as [Hd (top & d & Htop & Hl & Hroot) Hr _ _]. apply touches_wrap.
  eapply touches_weaken; [|eapply touches_EnsureAbsPath; [done..| |apply clean_abs_Dir, storagePath_clean]].
  - by rewrite Hroot.
  - by rewrite Hroot.
Qed.

Lemma touches_TempFile (Q : string → Prop) :
  (∀ n, Q (temp_name os tmp path n)) → touches Q (TempFile os tmp path).
Proof.
  intros HQ s p Hp. destruct (TempFile os tmp path s) as [s' x] eqn:Ht.
  destruct (TempFile_spec os path tmp s s' x (so_tmp reg root Hst) Ht) as [(_ & _ & H)|(e & _ & H)];
    unfold the_fs, Sys_HasFs; simpl; rewrite H; [|done].
  apply lookup_insert_ne. intros <-. apply Hp, HQ.
Qed.

Lemma TempFile_name s s' t : TempFile os tmp path s = (s', Ret t) →
  ∃ n, pf_Name t = temp_name os tmp path n ∧ pf_path t = path ∧ sys_fs s' !! pf_Name t = Some (FileNode []).
Proof.
  intros Ht. destruct (TempFile_spec os path tmp s s' _ (so_tmp reg root Hst) Ht) as [([= ->] & _ & ->)|(e & ? & _)]; [|done].
  exists (sys_tick s). split_and!; [done|done|]. simpl. apply lookup_insert_eq.
Qed.

Lemma touches_CloseAtomicallyReplace (Q : string → Prop) t :
  Q (pf_Name t) → Q (pf_path t) → touches Q (CloseAtomicallyReplace os t).
Proof. intros H1 H2. unfold CloseAtomicallyReplace. touch. Qed.

Lemma touches_fetch_sig (Q : string → Prop) policy tries : touches Q (fetch_sig env reg r rv policy tries).
Proof.
  unfold fetch_sig. destruct (res_VerificationOptions r); [|touch].
  apply touches_bind; [apply touches_fetchAndVerifySigFile|]. intros sig. apply touches_bind; [|touch].
  destruct (sr_error sig); [apply touches_by_policy|touch].
Qed.

(** Every path a download changes is the file, its signature, a temporary file
    or a directory on the way to it. *)
Lemma touches_fetchFile tries : touches fetch_paths (fetchFile env reg r rv tries).
Proof.
  unfold fetchFile. apply touches_bind; [apply touches_backoff|]. intros []; [touch|].
  apply touches_bind; [eapply touches_weaken; [|apply touches_fetch_dirs]; unfold fetch_paths; tauto|]. intros _.
  apply touches_bind; [apply touches_fetch_sig|]. intros sig. apply touches_bind_result.
  { apply touches_wrap, touches_TempFile. unfold fetch_paths. eauto. }
  intros s s' t Ht%st_wrap_Ret. destruct (TempFile_name _ _ _ Ht) as (n & Hname & Hp & _).
  assert (fetch_paths (pf_Name t)) as H1 by (rewrite Hname; unfold fetch_paths; eauto).
  assert (fetch_paths (pf_path t)) as H2 by (rewrite Hp; unfold fetch_paths; eauto).
  apply touches_bind.
  { apply touches_try, touches_bind; [by apply touches_download_to|]. intros v. apply touches_write_sig.
    unfold fetch_paths. eauto. }
  assert (∀ t', pf_Name t' = pf_Name t → touches fetch_paths (st_ignore (E':=upd_error) (st_wrap UpdOs (Cleanup os t')))) as Hcl.
  { intros t' Hn'. apply touches_ignore, touches_wrap. eapply touches_weaken; [|apply touches_Cleanup].
    intros p ->. by rewrite Hn'. }
  intros [u|e|]; [|apply touches_bind; [by apply Hcl|touch]|by intros ? ? _].
  apply touches_bind_result; [by apply touches_wrap, touches_CloseAtomicallyReplace|].
  intros s1 s2 [t' x] Hc%st_wrap_Ret.
  destruct (CloseAtomicallyReplace_spec _ _ _ _ _ Hc) as (t0 & x0 & [= <- <-] & Hn' & _). simpl.
  destruct x as [|e|]; [|apply touches_bind; [by apply Hcl|touch]|by intros ? ? _].
  apply touches_bind; [|intros _; by apply Hcl]. apply touches_ignore, touches_wrap, touches_Chmod.
  unfold fetch_paths. eauto.
Qed.

(** What was downloaded is in the temporary file; with the strict policy its
    hash was checked. *)
Lemma download_to_spec policy (h : option HASH) name tries s s' v :
  sys_fs s !! name = Some (FileNode []) →
  download_to env reg r rv policy h name tries s = (s', Ret v) →
  ∃ body, sys_fs s' !! name = Some (FileNode body) ∧
    (∀ x, h = Some x → policy = SignaturePolicyRequire → EqualRaw x (RawSum x body) = true).
Proof.
  intros Hname H. unfold download_to in H. unfold st_bind at 1 in H.
  destruct (makeRequest env reg (versionedPath r rv) tries s) as [s1 [[[body re] n]|e|]] eqn:Hreq; [|done..].
  pose proof (touches_makeRequest env (λ _, False) reg (versionedPath r rv) tries s name) as Hs1.
  rewrite Hreq in Hs1. specialize (Hs1 ltac:(tauto)). unfold the_fs, Sys_HasFs in Hs1. simpl in Hs1. rewrite Hname in Hs1.
  unfold st_bind at 1, st_wrap, file_Write, syscall, syscall_torn in H. rewrite Hs1 in H.
  destruct (fault os (sys_tick s1)) as [e|]; simpl in H; [done|].
  set (s2 := mkSys _ _) in H. assert (sys_fs s2 !! name = Some (FileNode body)) as Hs2 by apply lookup_insert_eq.
  exists body. destruct re; [done|]. destruct (negb _); [done|]. destruct h as [h|].
  2:{ unfold st_ret in H. by simplify_eq. }
  destruct (EqualRaw h (RawSum h body)) eqn:He; [unfold st_ret in H; simplify_eq; by split; [|intros x [= <-]]|].
  unfold st_bind, by_policy in H. destruct (Z.eqb_spec policy SignaturePolicyRequire); [done|].
  unfold st_ret in H. simplify_eq. by split.
Qed.

(** The signature part of a download: without an error under the strict policy
    there is a verified hash. *)
Lemma fetch_sig_spec policy tries s s' sig :
  fetch_sig env reg r rv policy tries s = (s', Ret sig) →
  ∀ opts, res_VerificationOptions r = Some opts → policy = SignaturePolicyRequire →
    ∃ h, sr_hash sig = Some h ∧ signed_hash (Some (SigningMetadata r rv)) (TrustStore opts) h.
Proof.
  intros H opts Hopts ->. unfold fetch_sig in H. rewrite Hopts in H.
  unfold fetchAndVerifySigFile, st_bind, st_try, st_ret in H.
  destruct (makeRequest env reg _ tries s) as [s1 [[[body []] n]|e|]]; simpl in H; try done.
  destruct (sr_error (check_sig_data body _ _)) as [e|] eqn:He; [done|]. simplify_eq.
  by apply check_sig_data_spec.
Qed.

(** Once the content is complete and checked, it replaces the file. *)
Definition finish_download (t : PendingFile) : st Sys upd_error unit :=
  let$ closed := st_wrap UpdOs (CloseAtomicallyReplace os t) in
  match closed.2 with
  | Ret _ =>
      let$ _ := st_ignore (st_wrap UpdOs (os_Chmod os path 493)) in
      st_ignore (st_wrap UpdOs (Cleanup os closed.1))
  | Fail e =>
      let$ _ := st_ignore (st_wrap UpdOs (Cleanup os closed.1)) in
      st_fail (UpdOs e)
  | Panic => λ s, (s, Panic)
  end.

Lemma ignore_Chmod_file p c s :
  sys_fs s !! p = Some (FileNode c) →
  ∃ s', st_ignore (E':=upd_error) (st_wrap UpdOs (os_Chmod os p 493)) s = (s', Ret tt) ∧ sys_fs s' = sys_fs s.
Proof.
  intros H. unfold st_ignore, st_bind, st_try, st_wrap, os_Chmod, syscall, syscall_torn. rewrite H.
  destruct (fault os (sys_tick s)); simpl; by eexists.
Qed.

Lemma Cleanup_done t s : pf_done t = true → st_ignore (E':=upd_error) (st_wrap UpdOs (Cleanup os t)) s = (s, Ret tt).
Proof. intros H. unfold st_ignore, st_bind, st_try, st_wrap, Cleanup. by rewrite H. Qed.

Lemma finish_download_spec t n body s s' a :
  pf_Name t = temp_name os tmp path n → pf_path t = path → sys_fs s !! pf_Name t = Some (FileNode body) →
  finish_download t s = (s', a) →
  sys_fs s' !! path = sys_fs s !! path ∨ (a = Ret tt ∧ sys_fs s' !! path = Some (FileNode body)).
Proof.
  intros Hname Hp Hbody H. unfold finish_download in H.
  assert (pf_Name t ≠ path) as Hne. { rewrite Hname. apply temp_not_path. }
  unfold st_bind at 1, st_wrap at 1 in H. destruct (CloseAtomicallyReplace os t s) as [s1 x] eqn:Hc.
  destruct (CloseAtomicallyReplace_spec _ _ _ _ _ Hc)
    as (t' & y & -> & Hn' & [(-> & Hdone & c & Hcc & Hs1)|[Hy Hs1]]); simpl in H.
  - right. rewrite Hbody in Hcc. simplify_eq. rewrite Hp in Hs1.
    assert (sys_fs s1 !! path = Some (FileNode c)) as H1 by (rewrite Hs1; apply lookup_insert_eq).
    destruct (ignore_Chmod_file _ c s1 H1) as (s2 & Hch & Hs2). rewrite (st_bind_Ret _ _ _ _ _ Hch) in H.
    rewrite Cleanup_done in H by done. simplify_eq. split; [done|]. by rewrite Hs2.
  - left. rewrite <- Hs1. destruct y as [[]|e|]; [done| |by simplify_eq].
    assert (touches (λ p, p ≠ path) (let$ _ := st_ignore (st_wrap UpdOs (Cleanup os t')) in st_fail (A:=unit) (UpdOs e))) as Ht.
    { apply touches_bind; [|touch]. apply touches_ignore, touches_wrap. eapply touches_weaken; [|apply touches_Cleanup].
      intros p ->. by rewrite Hn'. }
    specialize (Ht s1 path ltac:(tauto)). by rewrite H in Ht.
Qed.

(** Steps that do not touch the path of the file. *)
Lemma keeps_path {A : Type} (m : st Sys upd_error A) s s' a :
  touches (λ p, p ≠ path) m → m s = (s', a) → sys_fs s' !! path = sys_fs s !! path.
Proof. intros Ht H. specialize (Ht s path ltac:(tauto)). by rewrite H in Ht. Qed.

Lemma keeps_path_bind {A B : Type} (m : st Sys upd_error A) (k : A → st Sys upd_error B) s s' b :
  touches (λ p, p ≠ path) m → st_bind m k s = (s', b) →
  sys_fs s' !! path = sys_fs s !! path ∨
  ∃ s1 a, m s = (s1, Ret a) ∧ sys_fs s1 !! path = sys_fs s !! path ∧ k a s1 = (s', b).
Proof.
  intros Ht H. apply st_bind_cases in H as [(s1 & a & H1 & H)|[(e & H1 & _)|[H1 _]]]; [|left; by eapply keeps_path..].
  right. exists s1, a. split_and!; [done|by eapply keeps_path|done].
Qed.

Lemma touches_fetch_dirs' :
  touches (λ p, p ≠ path) (st_wrap UpdUtils (EnsureAbsPath os (reg_dirs reg) (storageDir reg) (path_Dir path))).
Proof.
  eapply touches_weaken; [|apply touches_fetch_dirs]. intros p [_ Hw] ->.
  by apply (not_within_Dir path storagePath_clean Hpath).
Qed.

Lemma touches_TempFile' : touches (λ p, p ≠ path) (st_wrap UpdOs (TempFile os tmp path)).
Proof. apply touches_wrap, touches_TempFile. intros n. apply temp_not_path. Qed.

(** The temporary file holds the checked content when the signature has been
    written. *)
Lemma download_and_sign_spec t n policy (sig : sig_result) tries s s' :
  pf_Name t = temp_name os tmp path n → sys_fs s !! pf_Name t = Some (FileNode []) →
  (let$ verified := download_to env reg r rv policy (sr_hash sig) (pf_Name t) tries in
   write_sig env reg r rv policy (sr_data sig) verified) s = (s', Ret tt) →
  ∃ body, sys_fs s' !! pf_Name t = Some (FileNode body) ∧
    (∀ x, sr_hash sig = Some x → policy = SignaturePolicyRequire → EqualRaw x (RawSum x body) = true).
Proof.
  intros Hname Hempty H. apply st_bind_cases in H as [(s1 & v & H1 & H)|[(e & _ & ?)|[_ ?]]]; [|done..].
  destruct (download_to_spec _ _ _ _ _ _ _ Hempty H1) as (body & Hbody & Heq). exists body. split; [|done].
  assert (touches (λ p, p = path ++ filesig_Extension) (write_sig env reg r rv policy (sr_data sig) v)) as Hw.
  { by apply touches_write_sig. }
  rewrite <- Hbody. specialize (Hw s1 (pf_Name t)). rewrite H in Hw. apply Hw. rewrite Hname. apply temp_not_sig.
Qed.

(** The file of a version is replaced only by a successful call, and under the
    strict policy only by signed content. *)
Lemma fetchFile_content tries s s' a :
  fetchFile env reg r rv tries s = (s', a) →
  sys_fs s' !! path = sys_fs s !! path ∨
  (a = Ret tt ∧ ∃ body, sys_fs s' !! path = Some (FileNode body) ∧
     ∀ opts, res_VerificationOptions r = Some opts → DownloadPolicy opts = SignaturePolicyRequire →
       signed_content r rv (TrustStore opts) body).
Proof.
  intros H. unfold fetchFile in H.
  destruct (keeps_path_bind _ _ _ _ _ (touches_backoff _ _ _) H) as [?|(s1 & done & _ & <- & H1)]; [by left|]. clear H.
  destruct done; [unfold st_ret in H1; simplify_eq; by left|].
  destruct (keeps_path_bind _ _ _ _ _ touches_fetch_dirs' H1) as [?|(s2 & u & _ & <- & H2)]; [by left|]. clear H1.
  set (policy := match res_VerificationOptions r with Some opts => DownloadPolicy opts | None => _ end) in *.
  destruct (keeps_path_bind _ _ _ _ _ (touches_fetch_sig _ _ _) H2) as [?|(s3 & sig & Hsig & <- & H3)]; [by left|]. clear H2.
  destruct (keeps_path_bind _ _ _ _ _ touches_TempFile' H3) as [?|(s4 & t & Ht%st_wrap_Ret & <- & H4)]; [by left|]. clear H3.
  destruct (TempFile_name _ _ _ Ht) as (n & Hname & Hp & Hempty).
  assert (pf_Name t ≠ path) as Hne. { rewrite Hname. apply temp_not_path. }
  unfold st_bind at 1, st_try at 1 in H4.
  destruct ((let$ verified := _ in write_sig _ _ _ _ _ _ _) s4) as [s5 x] eqn:H5.
  assert (sys_fs s5 !! path = sys_fs s4 !! path) as <-.
  { eapply keeps_path; [|exact H5]. apply touches_bind; [by apply touches_download_to|]. intros v.
    apply touches_write_sig, sig_not_path. }
  destruct x as [[]|e|]; [|left|left; by simplify_eq].
  - change (finish_download t s5 = (s', a)) in H4.
    destruct (download_and_sign_spec _ _ _ _ _ _ _ Hname Hempty H5) as (body & Hbody & Heq).
    destruct (finish_download_spec t n body s5 s' a Hname Hp Hbody H4) as [?|[-> Hf]]; [by left|right].
    split; [done|]. exists body. split; [done|]. intros opts Hopts Hreq.
    assert (policy = SignaturePolicyRequire) as Hpol by (unfold policy; by rewrite Hopts).
    destruct (fetch_sig_spec _ _ _ _ _ Hsig opts Hopts Hpol) as (h & Hh & Hsh). exists h. split; [done|]. by apply Heq.
  - eapply keeps_path; [|exact H4]. apply touches_bind; [|touch]. apply touches_ignore, touches_wrap.
    eapply touches_weaken; [|apply touches_Cleanup]. by intros p ->.
Qed.

End FetchFile.

(** ** Instances for examples *)

(** A signature library whose signature is the signed data itself. *)
#[global] Instance plain_siglib : SigLib unit bytes bytes := {|
  filesig_Extension := ".sig";
  ParseSigFile := λ data, (if bool_decide (data = []) then [] else [data], false);
  VerifyFileData := λ sig _ ts, match ts with Some _ => Some sig | None => None end;
  VerifyFile := λ data sig _ ts, bool_decide (data = sig) && bool_decide (is_Some ts);
  Hash_Equal := λ a b, bool_decide (a = b);
  Matches := λ h data, bool_decide (h = data);
  RawSum := λ _ data, data;
  EqualRaw := λ h sum, bool_decide (h = sum);
|}.

(** Every request is answered with the same bytes. *)
Definition server (body : bytes) (contentLength : Z) : nat → string → string → http_result :=
  λ _ _ _, HttpResponse 200 body false contentLength.

Definition steady_env (request : nat → string → string → http_result) (done : nat → bool) : UpdEnv :=
  mkUpdEnv (mkOsEnv (λ _, None) (λ _, "42") "/tmp" (λ _, None) (λ _ _, false)) Z.of_nat done request.

Lemma steady_names_ok request done : names_ok (steady_env request done).
Proof.
  split.
  - intros n. by split.
  - exists ".si", "g"%char. done.
Qed.

Definition strict_options : VerificationOptions unit := mkVerificationOptions (Some tt) SignaturePolicyRequire SignaturePolicyRequire.

(** The storage directory with its child for temporary files. *)
Definition fetch_dirs : dirs :=
  [mkDirStructure "/data/updates" "" 493 None {["tmp" := 1]};
   mkDirStructure "/data/updates/tmp" "tmp" 448 (Some 0) ∅].

Definition fetch_resource (verif : option (VerificationOptions unit)) : Resource simple_version unit :=
  mkResource "all/app.zip" [example_version "1.0.0" false true false] [0] None None [] None verif (Some 0).

Definition fetch_registry (verif : option (VerificationOptions unit)) : ResourceRegistry simple_version unit :=
  mkResourceRegistry fetch_dirs 0 1 [0] [mkIndex "stable.json" "stable" false true None]
    {["all/app.zip" := 0]} [fetch_resource verif] ["https://updates"] ["all/app.zip"] []
    (Some {["" := verif]}) false false true true (Some (mkRegistryState StateReady None empty_updates false [])).

Definition fetch_fs : fs :=
  {["/data/updates" := DirNode 493; "/data/updates/tmp" := DirNode 448]}.

Lemma fetch_storage_ok verif : storage_ok (fetch_registry verif) "/data/updates".
Proof.
  assert (plain "updates" ∧ plain "data" ∧ plain "tmp") as (Hu & Hd & Ht).
  { split_and!; (split_and!; [done..|apply Cut_None; done]). }
  split; simpl; [|by exists 0, (mkDirStructure "/data/updates" "" 493 None {["tmp" := 1]})|done|done|done].
  intros [|[|i]] d H; simpl in H; simplify_eq/=.
  - split_and!; [|done|].
    + exists ["data"; "updates"]. split; [|done]. by repeat (apply Forall_cons; split).
    + intros name child Hc. apply lookup_singleton_Some in Hc as [<- <-]. split; [done|]. eexists. split; [done|]. done.
  - split_and!; [|intros ? [= <-]; lia|intros ? ? H; done].
    exists ["data"; "updates"; "tmp"]. split; [|done]. by repeat (apply Forall_cons; split).
Qed.

(** ** Properties: downloads *)

(** C6: Whatever the network, the signature library and the file system answer, a
    download changes nothing but the file of the version, its signature,
    temporary files and the directories on the way below the topmost storage
    directory; the file is replaced only when the call returns nil; and when
    signatures are required, only by content whose hash was signed for this
    identifier and version under the trust store. *)
Theorem fetchFile_verified {SV TS SIG HASH : Type} `{!SemVer SV} `{!SigLib TS SIG HASH} (env : UpdEnv)
    (reg : ResourceRegistry SV TS) (root : string) (r : Resource SV TS) (rv : ResourceVersion SV) (tries : Z)
    (s s' : Sys) (a : go upd_error unit) :
  storage_ok reg root → names_ok env → storagePath reg r rv ≠ "/" →
  fetchFile env reg r rv tries s = (s', a) →
  (∀ p, ¬ fetch_paths env reg root r rv p → sys_fs s' !! p = sys_fs s !! p) ∧
  (sys_fs s' !! storagePath reg r rv = sys_fs s !! storagePath reg r rv ∨
   (a = Ret tt ∧ ∃ body, sys_fs s' !! storagePath reg r rv = Some (FileNode body) ∧
      ∀ opts, res_VerificationOptions r = Some opts → DownloadPolicy opts = SignaturePolicyRequire →
        signed_content r rv (TrustStore opts) body)).
Proof.
  intros Hst Hn Hp H. split; [|by apply (fetchFile_content env reg root Hst Hn r rv Hp tries)].
  intros p Hnot. pose proof (touches_fetchFile env reg root Hst r rv tries s p Hnot) as Ht. by rewrite H in Ht.
Qed.

Lemma fetchFile_verified_witness :
  let env := steady_env (server [1; 2; 3]%Z 3) (λ _, false) in
  let reg := fetch_registry (Some strict_options) in
  let r := fetch_resource (Some strict_options) in
  let rv := example_version "1.0.0" false true false in
  let run := fetchFile env reg r rv 0 (mkSys fetch_fs 0) in
  run.2 = Ret tt ∧ sys_fs run.1 !! "/data/updates/all/app_v1-0-0.zip" = Some (FileNode [1; 2; 3]%Z) ∧
  (sys_fs run.1 !! storagePath reg r rv = sys_fs (mkSys fetch_fs 0) !! storagePath reg r rv ∨
   (run.2 = Ret tt ∧ ∃ body, sys_fs run.1 !! storagePath reg r rv = Some (FileNode body) ∧
      ∀ opts, res_VerificationOptions r = Some opts → DownloadPolicy opts = SignaturePolicyRequire →
        signed_content r rv (TrustStore opts) body)).
Proof.
  intros env reg r rv run.
  destruct (fetchFile_verified env reg "/data/updates" r rv 0 (mkSys fetch_fs 0) run.1 run.2) as [_ H].
  - apply fetch_storage_ok.
  - apply steady_names_ok.
  - vm_compute. discriminate.
  - apply surjective_pairing.
  - split_and!; [vm_compute; reflexivity|vm_compute; reflexivity|exact H].
Defined.

(** When the context is done while a retry waits, fetchFile returns nil
    without having fetched anything, and the version is marked as available
    although there is no file. *)
Theorem cancelled_download_marked_available :
  let env := steady_env (λ _ _ _, HttpFailed) (λ _, true) in
  let w := mkWorld (fetch_registry (Some strict_options)) (mkSys fetch_fs 0) in
  let run := download_tries 3 0 (fetchFile env) (set_downloaded (0, 0)) (0, 0) w in
  run.2 = Ret tt ∧ sys_fs (w_sys run.1) !! "/data/updates/all/app_v1-0-0.zip" = None ∧
  match version_of (w_reg run.1) (0, 0) with
  | Some (_, rv) => Available rv = true ∧ SigAvailable rv = true
  | None => False
  end.
Proof. vm_compute. done. Qed.

(** With the policy that only warns, a signature that cannot be fetched is
    reported as available. *)
Theorem missing_sig_marked_available :
  let opts := mkVerificationOptions (Some tt) SignaturePolicyWarn SignaturePolicyWarn in
  let env := steady_env (λ _ _ _, HttpFailed) (λ _, false) in
  let w := mkWorld (fetch_registry (Some opts)) (mkSys fetch_fs 0) in
  let run := download_tries 3 0 (fetchMissingSig env) (update_flags (set_SigAvailable true) (0, 0)) (0, 0) w in
  run.2 = Ret tt ∧ sys_fs (w_sys run.1) !! "/data/updates/all/app_v1-0-0.zip.sig" = None ∧
  match version_of (w_reg run.1) (0, 0) with
  | Some (_, rv) => SigAvailable rv = true
  | None => False
  end.
Proof. vm_compute. done. Qed.

(** A response without a content length makes fetchData panic. *)
Theorem fetchData_panics_unknown_length {SV TS : Type} (env : UpdEnv) (reg : ResourceRegistry SV TS) (url path : string)
    (body : bytes) (read_error : bool) (s : Sys) :
  UpdateURLs reg !! 0 = Some url → ue_request env (sys_tick s) url path = HttpResponse 200 body read_error (-1) →
  (fetchData env reg path 0 s).2 = Panic.
Proof.
  intros Hurl Hreq. unfold fetchData, backoff, st_bind, st_ret, makeRequest. simpl.
  rewrite Zmod_0_l. change (Z.to_nat 0) with 0. rewrite Hurl. unfold st_bind, external. simpl. by rewrite Hreq.
Qed.
