(* ===== verification/UpdaterReg.v ===== *)
(** * updater: the invariant of the registry and the operations on it

    The well-formedness of a registry and its preservation by every operation
    of updater/registry.go, get.go, storage.go and updating.go; which resources
    an index may change; what is pending and what is reported. *)

From Stdlib Require Import ZArith Lia Ascii String.
From stdpp Require Import gmap strings sorting.
From S2P Require Import Prelude GoStrings UtilsSlices GoVersion GoSort GoPath GoFs UtilsFs UpdaterNames Updater UpdaterSelect UpdaterFetch UpdaterSafe.
Local Open Scope string_scope.

(** ** The invariant *)

Section Invariant.
Context {SV TS : Type} `{!SemVer SV}.
Abbreviation registry := (ResourceRegistry SV TS).
Abbreviation world := (World SV TS).

(** Every resource is well-formed, and the map finds a resource under its own
    identifier. *)
Record registry_ok (g : registry) : Prop := {
  reg_resources : Forall resource_ok (resource_objs g);
  reg_identifiers : ∀ k id, resources g !! k = Some id → ∃ r, resource_objs g !! id = Some r ∧ Identifier r = k;
}.

(** The file belongs to a version of its resource. *)
Definition file_valid (f : File) (g : registry) : Prop :=
  ∃ r, resource_objs g !! file_resource f = Some r ∧ in_store r (file_version f).

(** A call that keeps a property of the registry. *)
Definition keeps {E A : Type} (I : registry → Prop) (m : st world E A) : Prop :=
  ∀ w, I (w_reg w) → I (w_reg (m w).1).

Section Keeps.
Context (I : registry → Prop).

Lemma keeps_same {E A : Type} (m : st world E A) : (∀ w, w_reg (m w).1 = w_reg w) → keeps I m.
Proof. intros H w Hw. by rewrite H. Qed.

Lemma keeps_ret {E A : Type} (a : A) : keeps I (st_ret (E:=E) a).
Proof. by apply keeps_same. Qed.

Lemma keeps_fail {E A : Type} (e : E) : keeps (A:=A) I (st_fail e).
Proof. by apply keeps_same. Qed.

Lemma keeps_result {E A : Type} (x : go E A) : keeps I (λ w, (w, x)).
Proof. by apply keeps_same. Qed.

Lemma keeps_panic {A : Type} : keeps (A:=A) I upd_panic.
Proof. by apply keeps_same. Qed.

Lemma keeps_get_reg {A : Type} (f : registry → A) : keeps I (get_reg f).
Proof. by apply keeps_same. Qed.

Lemma keeps_bind {E A B : Type} (m : st world E A) (k : A → st world E B) :
  keeps I m → (∀ a, keeps I (k a)) → keeps I (st_bind m k).
Proof.
  intros Hm Hk w Hw. unfold st_bind. specialize (Hm w Hw). destruct (m w) as [w' [a|e|]]; simpl in *; try done.
  by apply Hk.
Qed.

Lemma keeps_try {E E' A : Type} (m : st world E A) : keeps I m → keeps I (st_try (E':=E') m).
Proof. intros Hm w Hw. unfold st_try. specialize (Hm w Hw). by destruct (m w) as [w' [a|e|]]. Qed.

Lemma keeps_ignore {E E' A : Type} (m : st world E A) : keeps I m → keeps I (st_ignore (E':=E') m).
Proof. intros Hm. apply keeps_bind; [by apply keeps_try|]. intros _. apply keeps_ret. Qed.

Lemma keeps_iter {E A : Type} (f : A → st world E unit) (l : list A) :
  (∀ a, keeps I (f a)) → keeps I (st_iter f l).
Proof. intros Hf. induction l as [|a l IH]; simpl; [apply keeps_ret|]. by apply keeps_bind. Qed.

Lemma keeps_on_sys {A : Type} (f : registry → st Sys upd_error A) : keeps I (on_sys f).
Proof. apply keeps_same. intros w. unfold on_sys. by destruct (f (w_reg w) (w_sys w)). Qed.

Lemma keeps_on_os {E A : Type} (f : E → upd_error) (m : st Sys E A) : keeps I (on_os f m).
Proof. apply keeps_same. intros w. unfold on_os. by destruct (m (w_sys w)). Qed.

Lemma keeps_on_reg (f : registry → registry) : (∀ g, I g → I (f g)) → keeps I (on_reg f).
Proof. intros Hf w Hw. by apply Hf. Qed.

Lemma keeps_on_state (f : RegistryState → go upd_error RegistryState) :
  (∀ g x, I g → I (set_state x g)) → keeps I (on_state f).
Proof. intros HI w Hw. unfold on_state. repeat case_match; simpl; try done. by apply HI. Qed.

Lemma keeps_time_Now clock : keeps I (time_Now clock).
Proof. by apply keeps_same. Qed.

End Keeps.

(** The parts of the registry the invariant does not speak of. *)
Lemma registry_ok_state g x : registry_ok g → registry_ok (set_state x g).
Proof. intros [H1 H2]. by split. Qed.

Lemma registry_ok_indexes g l objs : registry_ok g → registry_ok (set_indexes l objs g).
Proof. intros [H1 H2]. by split. Qed.

Lemma registry_ok_dirs g h a b : registry_ok g → registry_ok (set_dirs h a b g).
Proof. intros [H1 H2]. by split. Qed.

Lemma file_valid_state f g x : file_valid f g → file_valid f (set_state x g).
Proof. done. Qed.

(** A resource method that keeps the resource well-formed. *)
Definition method_ok {A : Type} (m : registry → st (Resource SV TS * Sys) upd_error A) : Prop :=
  ∀ g r s, resource_ok r →
    resource_ok (m g (r, s)).1.1 ∧ Identifier (m g (r, s)).1.1 = Identifier r.

Lemma registry_ok_insert g id (r r' : Resource SV TS) :
  registry_ok g → resource_objs g !! id = Some r → resource_ok r' → Identifier r' = Identifier r →
  registry_ok (set_resources (resources g) (<[id := r']> (resource_objs g)) g).
Proof.
  intros [H1 H2] Hr Hok Hid. split; simpl; [by apply Forall_insert|].
  intros k i Hk. destruct (H2 k i Hk) as (x & Hx & Hxk). destruct (decide (id = i)) as [->|Hne].
  - exists r'. rewrite list_lookup_insert_eq by (by eapply lookup_lt_Some). split; [done|]. rewrite Hid. congruence.
  - exists x. by rewrite list_lookup_insert_ne.
Qed.

Lemma keeps_on_resource {A : Type} id (m : registry → st (Resource SV TS * Sys) upd_error A) :
  method_ok m → keeps registry_ok (on_resource id m).
Proof.
  intros Hm w Hw. unfold on_resource. destruct (resource_objs (w_reg w) !! id) as [r|] eqn:Hr; [|done].
  destruct (Hm (w_reg w) r (w_sys w)) as [H1 H2]; [by apply (Forall_lookup_1 _ _ id _ (reg_resources _ Hw))|].
  destruct (m (w_reg w) (r, w_sys w)) as [[r' s'] a]. by eapply registry_ok_insert.
Qed.

End Invariant.

#[export] Hint Resolve keeps_ret keeps_fail keeps_result keeps_panic keeps_get_reg keeps_try keeps_ignore
  keeps_iter keeps_on_sys keeps_on_os keeps_time_Now registry_ok_state registry_ok_indexes registry_ok_dirs
  file_valid_state : portbase.

(** Follow the structure of a call. *)
Ltac keep :=
  repeat first
    [ progress intros
    | apply keeps_bind
    | match goal with |- keeps _ (match ?x with _ => _ end) => destruct x end
    | solve [eauto with portbase] ].

(** ** The operations *)

Section Operations.
Context {SV TS SIG HASH : Type} `{!SemVer SV, !SemVerLaws SV} {sort_lib : SortLib} {sort_laws : SortLaws}
  `{!SigLib TS SIG HASH} {codec : IndexCodec}.
Context (env : UpdEnv) (order : gmap string string → list (string * string)) (rorder : gmap string nat → list nat).
Abbreviation registry := (ResourceRegistry SV TS).
Abbreviation world := (World SV TS).
Abbreviation os := (ue_os env).
Abbreviation ok := (registry_ok (SV:=SV) (TS:=TS)).

Lemma method_AddVersion ext version a c p :
  method_ok (SV:=SV) (TS:=TS) (λ g, AddVersion os ext g version a c p).
Proof.
  intros g r s Hok. destruct (AddVersion os ext g version a c p (r, s)) as [[r' s'] x] eqn:H.
  by destruct (AddVersion_ok _ _ _ _ _ _ _ _ _ _ _ _ Hok H) as (? & ? & _).
Qed.

Lemma method_pure (f : Resource SV TS → Resource SV TS) :
  (∀ r, resource_ok r → resource_ok (f r) ∧ Identifier (f r) = Identifier r) →
  method_ok (λ _ : registry, st_mod (λ '(r, s), (f r, s))).
Proof. intros Hf g r s Hok. by apply Hf. Qed.

Lemma method_selectVersion :
  method_ok (SV:=SV) (TS:=TS) (λ g, lift_resource (λ r, let! r := selectVersion g r in Ret (r, tt))).
Proof.
  intros g r s Hok. unfold lift_resource.
  destruct (selectVersion_ok (E:=upd_error) g r Hok) as (r' & -> & Hok' & _ & _ & _ & Heq & _). simpl.
  split; [done|]. by rewrite Heq.
Qed.

Lemma Purge_Identifier ext (g : registry) keep r s : Identifier (Resource_Purge os ext g keep (r, s)).1.1 = Identifier r.
Proof. unfold Resource_Purge. by repeat (case_match; simplify_eq/=). Qed.

Lemma method_Purge ext keep :
  method_ok (SV:=SV) (TS:=TS) (λ g rs, let '(rs', r) := Resource_Purge os ext g keep rs in (rs', go_mapError UpdOs r)).
Proof.
  intros g r s Hok. pose proof (Purge_Identifier ext g keep r s) as Hid.
  destruct (Resource_Purge os ext g keep (r, s)) as [[r' s'] x] eqn:H. simpl in *. split; [|done].
  by eapply resource_ok_Purge.
Qed.

Lemma method_Blacklist f :
  method_ok (SV:=SV) (TS:=TS) (λ g '(r, s),
    match store r !! file_version f with
    | None => ((r, s), Panic)
    | Some rv => let '(r', a) := Blacklist g (VersionNumber rv) r in ((r', s), a)
    end).
Proof.
  intros g r s Hok. destruct (store r !! file_version f) as [rv|]; [|done]. unfold Blacklist.
  destruct (Z.of_nat _ <=? 1)%Z; [done|]. destruct (List.find _ _) as [i|]; [|done].
  assert (resource_ok (update_version (set_Blacklisted true) i r)) as Hok1 by (by apply resource_ok_update).
  destruct (selectVersion_ok (E:=upd_error) g _ Hok1) as (r' & -> & Hok' & _ & _ & _ & Heq & _). simpl.
  split; [done|]. by rewrite Heq.
Qed.

(** The resource is found or added; all others stay. *)
Lemma find_resource_spec identifier (w : world) :
  registry_ok (w_reg w) →
  ∃ id w', find_resource identifier w = (w', Ret id) ∧ registry_ok (w_reg w') ∧
    resources (w_reg w') !! identifier = Some id ∧
    (∀ k, k ≠ identifier → resources (w_reg w') !! k = resources (w_reg w) !! k) ∧
    (∀ i r, resource_objs (w_reg w) !! i = Some r → resource_objs (w_reg w') !! i = Some r).
Proof.
  intros Hw. unfold find_resource. destruct (resources (w_reg w) !! identifier) as [id|] eqn:Hid; [by exists id, w|].
  eexists _, _. split; [done|]. simpl. destruct Hw as [H1 H2]. split_and!.
  - split; simpl.
    + apply Forall_app. split; [done|]. apply Forall_singleton, resource_ok_new.
    + intros k i. rewrite lookup_insert_Some. intros [[<- <-]|[Hne Hk]].
      * eexists. split; [by rewrite list_lookup_middle|done].
      * destruct (H2 k i Hk) as (r & Hr & Hrk). exists r. split; [by apply lookup_app_l_Some|done].
  - apply lookup_insert_eq.
  - intros k Hk. by rewrite lookup_insert_ne.
  - intros i r Hr. by apply lookup_app_l_Some.
Qed.

Lemma method_set_Index index : method_ok (λ _ : registry, st_mod (λ '(r, s), (set_Index index r, s))).
Proof. apply method_pure. intros r Hr. split; [by apply resource_ok_Index|done]. Qed.

Lemma keeps_addResource ext identifier version index a c p :
  keeps ok (addResource os ext identifier version index a c p).
Proof.
  unfold addResource. apply keeps_bind.
  - intros w Hw. by destruct (find_resource_spec identifier w Hw) as (id & w' & -> & ? & _).
  - intros id. apply keeps_bind; [|intros _; apply keeps_on_resource, method_AddVersion].
    apply keeps_on_resource, method_set_Index.
Qed.

Lemma keeps_AddResources ext l index a c p : keeps ok (AddResources os ext l index a c p).
Proof.
  unfold AddResources. generalize (@None upd_error). induction l as [|[k v] l IH]; intros e; simpl; [keep|].
  apply keeps_bind; [apply keeps_try, keeps_addResource|]. intros x. apply IH.
Qed.

#[local] Hint Resolve keeps_addResource keeps_AddResources : portbase.

Lemma keeps_ok_state f : keeps ok (on_state f).
Proof. apply keeps_on_state. intros g x. apply registry_ok_state. Qed.

#[local] Hint Resolve keeps_ok_state : portbase.

Lemma keeps_with_operation {A : Type} (I : registry → Prop) id (body : st world upd_error A) :
  (∀ g x, I g → I (set_state x g)) → keeps I body → keeps I (with_operation id body).
Proof.
  intros HI Hb. unfold with_operation, StartOperation, EndOperation.
  apply keeps_bind; [by apply keeps_on_state|]. intros _. apply keeps_bind; [by apply keeps_try|]. intros x.
  apply keeps_bind; [by apply keeps_on_state|]. intros _. apply keeps_result.
Qed.

Lemma keeps_set_LastRelease i t : keeps ok (on_reg (set_LastRelease i t)).
Proof. apply keeps_on_reg. intros g Hg. by apply registry_ok_indexes. Qed.

#[local] Hint Resolve keeps_set_LastRelease : portbase.

(** A call whose body depends on the state it starts in. *)
Local Ltac keep_from w :=
  match goal with |- ?I (w_reg (?m w).1) =>
    let Hk := fresh in assert (keeps I m) as Hk; [|by apply Hk]
  end.

Lemma keeps_loadIndexFile i : keeps ok (loadIndexFile env i order).
Proof.
  intros w Hw. unfold loadIndexFile. destruct (index_objs (w_reg w) !! i) as [idx|]; [|done].
  keep_from w. keep.
Qed.

Lemma keeps_downloadIndex i : keeps ok (downloadIndex env order i).
Proof.
  intros w Hw. unfold downloadIndex. destruct (index_objs (w_reg w) !! i) as [idx|]; [|done].
  keep_from w. keep.
Qed.

#[local] Hint Resolve keeps_loadIndexFile keeps_downloadIndex : portbase.

Lemma keeps_update_indexes l e b : keeps ok (update_indexes env order l e b).
Proof.
  revert e b. induction l as [|i l IH]; intros e b; simpl; [keep|]. apply keeps_bind; [keep|]. by intros [].
Qed.

Lemma keeps_ReportUpdateCheck (I : registry → Prop) clock l e :
  (∀ g x, I g → I (set_state x g)) → keeps I (ReportUpdateCheck (SV:=SV) (TS:=TS) clock l e).
Proof. intros HI. apply keeps_bind; [keep|]. intros now. by apply keeps_on_state. Qed.

Lemma keeps_ReportDownloads (I : registry → Prop) clock l e :
  (∀ g x, I g → I (set_state x g)) → keeps I (ReportDownloads (SV:=SV) (TS:=TS) clock l e).
Proof. intros HI. apply keeps_bind; [keep|]. intros now. by apply keeps_on_state. Qed.

Lemma keeps_UpdateOperationDetails (I : registry → Prop) d :
  (∀ g x, I g → I (set_state x g)) → keeps I (UpdateOperationDetails (SV:=SV) (TS:=TS) d).
Proof. intros HI. by apply keeps_on_state. Qed.

#[local] Hint Resolve keeps_update_indexes keeps_ReportUpdateCheck keeps_ReportDownloads
  keeps_UpdateOperationDetails keeps_with_operation : portbase.

Lemma keeps_UpdateIndexes : keeps ok (UpdateIndexes env order rorder).
Proof. apply keeps_with_operation; [eauto with portbase|]. keep. Qed.

Lemma keeps_LoadIndexes : keeps ok (LoadIndexes env order).
Proof.
  apply keeps_bind; [keep|]. intros l. generalize (@None upd_error).
  induction l as [|i l IH]; intros e; simpl; [keep|]. apply keeps_bind; [keep|]. intros online.
  apply keeps_bind; [keep|]. intros x. apply keeps_bind; [|intros y; apply IH]. keep.
Qed.

Lemma method_update_flags i (f : ResourceVersion SV → ResourceVersion SV) :
  (∀ rv, VersionNumber (f rv) = VersionNumber rv ∧ semVer (f rv) = semVer rv ∧
     CurrentRelease (f rv) = CurrentRelease rv ∧ PreRelease (f rv) = PreRelease rv) →
  keeps ok (update_flags f i).
Proof.
  intros Hf. apply keeps_on_resource, method_pure. intros r Hr. split; [by apply resource_ok_update|done].
Qed.

Lemma keeps_download_tries n tries fetch done rv :
  keeps ok done → keeps ok (download_tries n tries fetch done rv).
Proof.
  intros Hd. revert tries. induction n as [|n IH]; intros tries; simpl; [keep|].
  apply keeps_bind; [apply keeps_try, keeps_on_sys|]. intros []; [done|apply IH..].
Qed.

Lemma keeps_set_downloaded rv : keeps ok (set_downloaded rv).
Proof.
  apply keeps_bind; [by apply method_update_flags|]. intros _. apply keeps_bind; [keep|]. intros [].
  - by apply method_update_flags.
  - keep.
Qed.

Lemma keeps_download_all names i l : keeps ok (download_all env names i l).
Proof.
  revert i. induction l as [|rv l IH]; intros i; cbn [download_all]; [keep|].
  apply keeps_bind; [apply keeps_download_tries, keeps_set_downloaded|]. intros _.
  apply keeps_bind; [apply keeps_UpdateOperationDetails; eauto with portbase|]. intros _. apply IH.
Qed.

Lemma keeps_DownloadUpdates includeManual : keeps ok (DownloadUpdates env rorder includeManual).
Proof.
  apply keeps_with_operation; [eauto with portbase|]. apply keeps_bind; [keep|]. intros [toUpdate missing].
  apply keeps_bind; [keep|]. intros names. apply keeps_bind; [keep|]. intros _. destruct (_ && _); [keep|].
  apply keeps_bind; [keep|]. intros _. apply keeps_bind; [apply keeps_download_all|]. intros _.
  apply keeps_bind; [|keep]. apply keeps_iter. intros rv. apply keeps_download_tries. by apply method_update_flags.
Qed.

Lemma keeps_scan_entry path is_dir walk_error e : keeps ok (scan_entry env path is_dir walk_error e).
Proof.
  unfold scan_entry. apply keeps_bind; [keep|]. intros g. repeat case_match; keep.
Qed.

Lemma keeps_ScanStorage root entries : keeps ok (ScanStorage env root entries).
Proof.
  unfold ScanStorage. apply keeps_bind; [keep|]. intros storage. destruct (_ && _); [keep|].
  apply keeps_bind; [|keep]. generalize (@None upd_error) (length entries). intros e n. revert entries e.
  induction n as [|n IH]; intros [|[[path d] err] entries] e; simpl; [keep..|].
  apply keeps_bind; [apply keeps_scan_entry|]. intros x. apply IH.
Qed.

Lemma keeps_SelectVersions l : keeps ok (SelectVersions l).
Proof. apply keeps_iter. intros id. apply keeps_on_resource, method_selectVersion. Qed.

Lemma keeps_Purge keep_ l : keeps ok (Registry_Purge os filesig_Extension keep_ l).
Proof. apply keeps_iter. intros id. apply keeps_on_resource, method_Purge. Qed.

Lemma keeps_Blacklist f : keeps ok (File_Blacklist f).
Proof. apply keeps_on_resource, method_Blacklist. Qed.

Lemma Resource_GetFile_ok (g : registry) id r r' f :
  resource_ok r → Resource_GetFile (E:=upd_error) g id r = Ret (r', f) →
  resource_ok r' ∧ Identifier r' = Identifier r ∧ file_resource f = id ∧ in_store r' (file_version f).
Proof.
  intros Hok H. unfold Resource_GetFile in H.
  assert (Hok1 := resource_ok_ensure_notifier r Hok).
  assert (Identifier (ensure_notifier r).1 = Identifier r) as Hid.
  { unfold ensure_notifier. by destruct (res_notifier r). }
  destruct (ensure_notifier r) as [r1 n]. simpl in Hok1, Hid.
  assert (∃ r2, (if bool_decide (SelectedVersion r1 = None) then selectVersion (E:=upd_error) g r1 else Ret r1) = Ret r2 ∧
    resource_ok r2 ∧ Identifier r2 = Identifier r1) as (r2 & Hr2 & Hok2 & Hid2).
  { case_bool_decide; [|by exists r1].
    destruct (selectVersion_ok (E:=upd_error) g r1 Hok1) as (r2 & Hr2 & Hok2 & _ & _ & _ & Heq & _).
    exists r2. split_and!; [done..|]. by rewrite Heq. }
  rewrite Hr2 in H. simpl in H. destruct (SelectedVersion r2) as [i|] eqn:Hs; [|done]. simpl in H.
  destruct (store r2 !! i) as [rv|] eqn:Hrv; [|done]. simpl in H. simplify_eq. simpl.
  split_and!; [done|congruence|done|]. by eapply lookup_lt_Some.
Qed.

Lemma keeps_markActive f : keeps (λ g, ok g ∧ file_valid f g) (markActiveWithLocking f).
Proof.
  intros w [Hw (r & Hr & Hin)]. unfold markActiveWithLocking, on_resource. rewrite Hr. simpl.
  assert (Identifier (markActive f r) = Identifier r ∧ store (markActive f r) = store r) as [Hid Hst].
  { unfold markActive. by case_bool_decide. }
  split.
  - eapply registry_ok_insert; [done|done| |done]. apply resource_ok_markActive; [done|].
    by apply (Forall_lookup_1 _ _ _ _ (reg_resources _ Hw) Hr).
  - exists (markActive f r). simpl. rewrite list_lookup_insert_eq by (by eapply lookup_lt_Some).
    split; [done|]. unfold in_store. by rewrite Hst.
Qed.

Lemma keeps_GetFile_tries n tries f e : keeps (λ g, ok g ∧ file_valid f g) (GetFile_tries env n tries f e).
Proof.
  revert tries e. induction n as [|n IH]; intros tries e; cbn [GetFile_tries]; [keep|].
  apply keeps_bind; [apply keeps_try, keeps_on_sys|]. intros [u|e'|]; [|apply IH|keep].
  apply keeps_bind; [apply keeps_markActive|]. keep.
Qed.

Lemma keeps_GetFile identifier : keeps ok (GetFile env identifier).
Proof.
  intros w Hw. unfold GetFile. destruct (resources (w_reg w) !! identifier) as [id|]; [|done].
  unfold st_bind at 1. unfold on_resource at 1.
  destruct (resource_objs (w_reg w) !! id) as [r|] eqn:Hr; [|done].
  assert (resource_ok r) as Hok by (by apply (Forall_lookup_1 _ _ id _ (reg_resources _ Hw))).
  unfold lift_resource. destruct (Resource_GetFile (w_reg w) id r) as [[r' f]|e|] eqn:Hf; simpl.
  2,3: by eapply registry_ok_insert.
  destruct (Resource_GetFile_ok _ _ _ _ _ Hok Hf) as (Hok' & Hid & Hfr & Hin).
  set (w1 := mkWorld _ _).
  assert (ok (w_reg w1) ∧ file_valid f (w_reg w1)) as Hw1.
  { split; [by eapply registry_ok_insert|]. exists r'. rewrite Hfr. simpl. split; [|done].
    apply list_lookup_insert_eq. by eapply lookup_lt_Some. }
  clearbody w1. clear Hr Hok Hf Hok' Hid Hin Hfr Hw r' r w id.
  match goal with |- _ (w_reg (?m w1).1) => assert (keeps (λ g, ok g ∧ file_valid f g) m) as Hk end.
  { apply keeps_bind; [keep|]. intros [].
    - apply keeps_bind; [apply keeps_markActive|]. intros _. apply keeps_bind; [keep|]. intros [|[]|]; keep.
    - apply keeps_bind; [keep|]. intros []; simpl; [|keep]. apply keeps_bind; [keep|]. intros _.
      apply keeps_with_operation; [|exact (keeps_GetFile_tries 5 0 f None)].
      intros g x [H1 H2]. split; [by apply registry_ok_state|done]. }
  by apply Hk.
Qed.

Lemma keeps_Initialize storage : keeps ok (Initialize os storage).
Proof.
  unfold Initialize. apply keeps_bind; [|intros _; apply keeps_bind]; [by intros w Hw; apply keeps_on_os| |].
  - intros w Hw. destruct (ChildDir _ _ _ _) as [[h t]|]; [|done]. by apply registry_ok_dirs.
  - intros _. apply keeps_bind.
    { apply keeps_on_reg. intros g Hg. apply registry_ok_state. destruct Hg as [H1 H2]. split; [done|].
      intros k id Hk. simpl in Hk. by rewrite lookup_empty in Hk. }
    intros _. apply keeps_bind; [apply keeps_ignore; intros w Hw; unfold Cleanup_tmp; by apply keeps_on_os|]. intros _.
    apply keeps_bind; [apply keeps_ignore; intros w Hw; by apply keeps_on_os|]. intros _.
    intros w Hw. done.
Qed.

End Operations.

(** ** Runs *)

Inductive upd_op : Type :=
| OpPreInit (u : UpdateState)
| OpInitialize (storage : nat)
| OpAddIndex (idx : Index)
| OpAddResource (identifier version : string) (index : option nat) (available currentRelease preRelease : bool)
| OpAddResources (versions : list (string * string)) (index : option nat) (available currentRelease preRelease : bool)
| OpSelectVersions
| OpPurge (keep : Z)
| OpResetResources
| OpResetIndexes
| OpSetDevMode (on : bool)
| OpSetUsePreReleases (yes : bool)
| OpBlacklist (f : File)
| OpGetFile (identifier : string)
| OpLoadIndexes
| OpUpdateIndexes
| OpDownloadUpdates (includeManual : bool)
| OpScanStorage (root : string) (entries : list (string * bool * bool)).

Section Runs.
Context {SV TS SIG HASH : Type} `{!SemVer SV} {sort_lib : SortLib} `{!SigLib TS SIG HASH} {codec : IndexCodec}.
Context (env : UpdEnv) (order : gmap string string → list (string * string)) (rorder : gmap string nat → list nat).

(** The state after a call, whatever it returns. *)
Definition run_op (op : upd_op) (w : World SV TS) : World SV TS :=
  match op with
  | OpPreInit u => (PreInitUpdateState u w).1
  | OpInitialize storage => (Initialize (ue_os env) storage w).1
  | OpAddIndex idx => (on_reg (AddIndex idx) w).1
  | OpAddResource identifier version index a c p =>
      (addResource (ue_os env) filesig_Extension identifier version index a c p w).1
  | OpAddResources versions index a c p => (AddResources (ue_os env) filesig_Extension versions index a c p w).1
  | OpSelectVersions => (SelectVersions (rorder (resources (w_reg w))) w).1
  | OpPurge keep => (Registry_Purge (ue_os env) filesig_Extension keep (rorder (resources (w_reg w))) w).1
  | OpResetResources => (on_reg ResetResources w).1
  | OpResetIndexes => (on_reg ResetIndexes w).1
  | OpSetDevMode on => (on_reg (SetDevMode on) w).1
  | OpSetUsePreReleases yes => (on_reg (SetUsePreReleases yes) w).1
  | OpBlacklist f => (File_Blacklist f w).1
  | OpGetFile identifier => (GetFile env identifier w).1
  | OpLoadIndexes => (LoadIndexes env order w).1
  | OpUpdateIndexes => (UpdateIndexes env order rorder w).1
  | OpDownloadUpdates includeManual => (DownloadUpdates env rorder includeManual w).1
  | OpScanStorage root entries => (ScanStorage env root entries w).1
  end.

Definition run_ops (ops : list upd_op) (w : World SV TS) : World SV TS := fold_left (λ w op, run_op op w) ops w.

End Runs.

Section RunsOk.
Context {SV TS SIG HASH : Type} `{!SemVer SV, !SemVerLaws SV} {sort_lib : SortLib} {sort_laws : SortLaws}
  `{!SigLib TS SIG HASH} {codec : IndexCodec}.
Context (env : UpdEnv) (order : gmap string string → list (string * string)) (rorder : gmap string nat → list nat).

Lemma run_op_ok op (w : World SV TS) : registry_ok (w_reg w) → registry_ok (w_reg (run_op env order rorder op w)).
Proof.
  intros Hw. destruct op; simpl.
  - unfold PreInitUpdateState. destruct (reg_state (w_reg w)); [done|]. by apply registry_ok_state.
  - by apply keeps_Initialize.
  - by apply registry_ok_indexes.
  - by apply keeps_addResource.
  - by apply keeps_AddResources.
  - by apply keeps_SelectVersions.
  - by apply keeps_Purge.
  - destruct Hw as [H1 H2]. split; [done|]. intros k id Hk. simpl in Hk. by rewrite lookup_empty in Hk.
  - by apply registry_ok_indexes.
  - destruct Hw as [H1 H2]. by split.
  - destruct Hw as [H1 H2]. by split.
  - by apply keeps_Blacklist.
  - by apply keeps_GetFile.
  - by apply keeps_LoadIndexes.
  - by apply keeps_UpdateIndexes.
  - by apply keeps_DownloadUpdates.
  - by apply keeps_ScanStorage.
Qed.

Lemma run_ops_ok ops (w : World SV TS) : registry_ok (w_reg w) → registry_ok (w_reg (run_ops env order rorder ops w)).
Proof.
  unfold run_ops. revert w. induction ops as [|op ops IH]; intros w Hw; simpl; [done|]. by apply IH, run_op_ok.
Qed.

End RunsOk.

(** ** Properties: the registry *)

(** C8: Whatever operations are called in whatever order, and whatever the network,
    the disk, the version and signature libraries and the iteration orders do,
    a registry that starts without resources stays well-formed: the map finds
    every resource under its own identifier, references point to versions of
    the resource, no version is listed twice, at most one version is the
    current release, version numbers are in normal form, versions with a
    pre-release part are marked as such, and no notification channel can be
    closed twice. *)
Theorem registry_well_formed {SV TS SIG HASH : Type} `{!SemVer SV, !SemVerLaws SV} {sort_lib : SortLib}
    {sort_laws : SortLaws} `{!SigLib TS SIG HASH} {codec : IndexCodec} (env : UpdEnv)
    (order : gmap string string → list (string * string)) (rorder : gmap string nat → list nat)
    (ops : list upd_op) (w : World SV TS) :
  resources (w_reg w) = ∅ → resource_objs (w_reg w) = [] →
  let g := w_reg (run_ops env order rorder ops w) in
  Forall resource_ok (resource_objs g) ∧
  ∀ k id, resources g !! k = Some id → ∃ r, resource_objs g !! id = Some r ∧ Identifier r = k.
Proof.
  intros H1 H2 g. assert (registry_ok g) as [Hr Hi]; [|done]. apply run_ops_ok. split.
  - by rewrite H2.
  - intros k id Hk. by rewrite H1, lookup_empty in Hk.
Qed.

(** An index parser that knows one index. *)
#[global] Instance one_index_codec : IndexCodec := {|
  json_IndexFile := λ data, if bool_decide (data = []) then None
                            else Some (mkIndexFile "stable" (Some 5%Z) {["all/app.zip" := "1.2.0"]});
  json_Releases := λ _, None;
|}.

Definition map_order (m : gmap string string) : list (string * string) := map_to_list m.
Definition resource_order (m : gmap string nat) : list nat := (map_to_list m).*2.

Definition empty_world (verif : option (VerificationOptions unit)) : World simple_version unit :=
  mkWorld (mkResourceRegistry fetch_dirs 0 1 [] [] ∅ [] ["https://updates"] ["all/app.zip"] []
    (Some {["" := verif]}) false false true true None) (mkSys fetch_fs 6).

Definition example_ops : list upd_op :=
  [OpInitialize 0; OpAddIndex (mkIndex "stable.json" "" false true None);
   OpScanStorage "" [("/data/updates/all/app_v1-0-0.zip", false, false)];
   OpUpdateIndexes; OpSelectVersions; OpGetFile "all/app.zip"; OpDownloadUpdates false].

Lemma registry_well_formed_witness :
  let g := w_reg (run_ops (steady_env (server [1; 2; 3]%Z 3) (λ _, false)) map_order resource_order example_ops
                    (empty_world (Some strict_options))) in
  Forall resource_ok (resource_objs g) ∧
  ∃ r, resource_objs g = [r] ∧ Identifier r = "all/app.zip" ∧ (VersionNumber <$> store r) = ["1.0.0"; "1.2.0"] ∧
    (Available <$> store r) = [true; true] ∧ SelectedVersion r = Some 1 ∧ ActiveVersion r = Some 1.
Proof.
  intros g.
  destruct (registry_well_formed (steady_env (server [1; 2; 3]%Z 3) (λ _, false)) map_order resource_order example_ops
    (empty_world (Some strict_options))) as [H _].
  - reflexivity.
  - reflexivity.
  - split; [exact H|]. subst g. vm_compute. eexists. split; [reflexivity|]. done.
Defined.

(** ** The authority of an index *)

Section Authority.
Context {SV TS SIG HASH : Type} `{!SemVer SV, !SemVerLaws SV} {sort_lib : SortLib} {sort_laws : SortLaws}
  `{!SigLib TS SIG HASH} {codec : IndexCodec}.
Context (env : UpdEnv) (order : gmap string string → list (string * string)).
Abbreviation registry := (ResourceRegistry SV TS).
Abbreviation os := (ue_os env).

(** The resources whose identifiers are not in [P] are as in [g0]. *)
Definition untouched (P : string → Prop) (g0 g : registry) : Prop :=
  ∀ k, ¬ P k → resources g !! k = resources g0 !! k ∧
    ∀ id, resources g0 !! k = Some id → resource_objs g !! id = resource_objs g0 !! id.

Lemma keeps_untouched_resource {A : Type} P g0 identifier id (m : registry → st (Resource SV TS * Sys) upd_error A) :
  method_ok m → P identifier →
  keeps (λ g, registry_ok g ∧ untouched P g0 g ∧ resources g !! identifier = Some id) (on_resource id m).
Proof.
  intros Hm HP w (Hok & Hun & Hid). split; [by apply keeps_on_resource|].
  unfold on_resource. destruct (resource_objs (w_reg w) !! id) as [r|] eqn:Hr; [|done].
  destruct (m (w_reg w) (r, w_sys w)) as [[r' s'] a]. simpl. split; [|done].
  intros k Hk. destruct (Hun k Hk) as [H1 H2]. split; [done|]. intros id' Hid'. simpl.
  rewrite list_lookup_insert_ne; [by apply H2|]. intros <-. rewrite <- H1 in Hid'.
  destruct (reg_identifiers _ Hok _ _ Hid) as (r1 & Hr1 & <-), (reg_identifiers _ Hok _ _ Hid') as (r2 & Hr2 & <-).
  by simplify_eq.
Qed.

Lemma keeps_untouched_addResource (P : string → Prop) g0 identifier version index a c p :
  P identifier → keeps (λ g, registry_ok g ∧ untouched P g0 g) (addResource os filesig_Extension identifier version index a c p).
Proof.
  intros HP w [Hok Hun]. unfold addResource.
  destruct (find_resource_spec identifier w Hok) as (id & w1 & Hf & Hok1 & Hid & Hk & Hobj).
  rewrite (st_bind_Ret _ _ _ _ _ Hf).
  assert (untouched P g0 (w_reg w1)) as Hun1.
  { intros k Hnk. destruct (Hun k Hnk) as [H1 H2]. rewrite Hk by (by intros ->). split; [done|].
    intros i Hi. rewrite <- H2 by done. rewrite <- H1 in Hi.
    destruct (reg_identifiers _ Hok _ _ Hi) as (r & Hr & _). rewrite Hr. by apply Hobj. }
  assert (keeps (λ g, registry_ok g ∧ untouched P g0 g ∧ resources g !! identifier = Some id)
    (let$ _ := on_resource id (λ _ : registry, st_mod (λ '(r, s), (set_Index index r, s))) in
     on_resource id (λ g, AddVersion os filesig_Extension g version a c p))) as Hkeep.
  { apply keeps_bind; [|intros _].
    - apply keeps_untouched_resource; [apply method_set_Index|done].
    - apply keeps_untouched_resource; [apply method_AddVersion|done]. }
  by destruct (Hkeep w1) as (? & ? & _).
Qed.

Lemma keeps_untouched_AddResources (P : string → Prop) g0 l index a c p :
  (∀ k v, (k, v) ∈ l → P k) → keeps (λ g, registry_ok g ∧ untouched P g0 g) (AddResources os filesig_Extension l index a c p).
Proof.
  intros HP. unfold AddResources. generalize (@None upd_error). induction l as [|[k v] l IH]; intros e; simpl; [keep|].
  apply keeps_bind; [apply keeps_try, keeps_untouched_addResource, (HP k v); by left|].
  intros x. apply IH. intros k' v' H. apply (HP k' v'). by right.
Qed.

(** The data is what one of the tries has fetched; when signatures are enabled, its
    hash is the one signed in the signature file that was fetched next, from the same
    source. *)
Definition fetched_index (reg : registry) (verifOpts : option (VerificationOptions TS)) (path : string) (data : bytes) : Prop :=
  ∃ tries s0 s1, (0 ≤ tries < 3)%Z ∧ fetchData env reg path tries s0 = (s1, Ret data) ∧
    ∀ opts, verifOpts = Some opts → ∃ s2 sig h,
      fetchAndVerifySigFile env reg opts (path ++ filesig_Extension) None tries s1 = (s2, Ret sig) ∧ sr_error sig = None ∧ sr_hash sig = Some h ∧
      signed_hash None (TrustStore opts) h ∧ Matches h data = true.

Lemma verified_sig_signed (reg : registry) opts path tries s s' sig :
  fetchAndVerifySigFile env reg opts path None tries s = (s', Ret sig) → sr_error sig = None →
  ∃ h, sr_hash sig = Some h ∧ signed_hash None (TrustStore opts) h.
Proof.
  unfold fetchAndVerifySigFile, st_bind, st_try, st_ret. intros H He.
  destruct (makeRequest _ _ _ _ s) as [s3 [[[body []] m]|e|]]; simplify_eq; try done. by apply check_sig_data_spec.
Qed.

Lemma fetch_index_fetched n tries (reg : registry) verifOpts path (x x' : index_fetch) s s' :
  (0 ≤ tries)%Z → (tries + Z.of_nat n = 3)%Z → (n = 0 → fx_indexErr x = None → fx_sigErr x = None → fetched_index reg verifOpts path (fx_indexData x)) →
  fetch_index env n tries reg verifOpts path x s = (s', Ret x') →
  fx_indexErr x' = None → fx_sigErr x' = None → fetched_index reg verifOpts path (fx_indexData x').
Proof.
  revert tries x s. induction n as [|n IH]; intros tries x s Ht Hn H0 H Hi Hs; simpl in H.
  { unfold st_ret in H. simplify_eq. by apply H0. }
  unfold st_bind at 1, st_try at 1 in H. destruct (fetchData env reg path tries s) as [s1 [data|e|]] eqn:Hd; [|eapply IH in H; [done|lia|lia|done|done|done]|done].
  destruct verifOpts as [opts|]; [|unfold st_ret in H; simplify_eq; exists tries, s; eexists; by split_and!; [lia..|done|]].
  unfold st_bind at 1 in H. destruct (fetchAndVerifySigFile _ _ _ _ _ _ s1) as [s2 [sig|e|]] eqn:Hsig; [|done..].
  destruct (sr_error sig) as [e|] eqn:He; [eapply IH in H; [done|lia|lia|done|done|done]|]. destruct (sr_hash sig) as [h|] eqn:Hh; [|done].
  destruct (Matches h data) eqn:Hm; [|eapply IH in H; [done|lia|lia|done|done|done]]. unfold st_ret in H. simplify_eq. simpl.
  destruct (verified_sig_signed _ _ _ _ _ _ _ Hsig He) as (h' & Hh' & Hsh). simplify_eq.
  exists tries, s, s1. split_and!; [lia..|done|]. intros opts' [= <-]. eexists _, sig, h. by split_and!.
Qed.

(** Writing the files changes nothing in the registry. *)
Lemma added_registry (m : st (World SV TS) upd_error unit) (f : registry → st Sys upd_error unit) w w' a :
  (let$ _ := st_ignore m in on_sys f) w = (w', a) → w_reg w' = w_reg (m w).1.
Proof.
  unfold st_ignore, st_bind, st_try, st_ret, on_sys. destruct (m w) as [w1 [[]|e|]]; [..|by intros [= <- <-]];
    destruct (f (w_reg w1) (w_sys w1)); by intros [= <- <-].
Qed.

End Authority.

(** ** Properties: indexes *)

(** C9: A downloaded index can only define resources below its own directory: all
    others keep their entry and their state, whatever the index contains. And
    when a download changes the registry, the change is exactly that of adding the
    releases below this directory of one index file: the one that the fetched data
    parses to under the checks of the index. This data is what one of the tries
    fetched, and when signatures are enabled for the index, it is also the data whose
    hash the signature fetched with it signs under the trust store. *)
Theorem downloadIndex_authority {SV TS SIG HASH : Type} `{!SemVer SV, !SemVerLaws SV} {sort_lib : SortLib}
    {sort_laws : SortLaws} `{!SigLib TS SIG HASH} {codec : IndexCodec} (env : UpdEnv)
    (order : gmap string string → list (string * string)) (i : nat) (idx : Index) (w w' : World SV TS)
    (a : go upd_error unit) :
  registry_ok (w_reg w) → index_objs (w_reg w) !! i = Some idx → (∀ m, order m ≡ₚ map_to_list m) →
  downloadIndex env order i w = (w', a) →
  untouched (λ k, HasPrefix k (authoritativePath (idx_Path idx)) = true) (w_reg w) (w_reg w') ∧
  let verifOpts := GetVerificationOptions (w_reg w) (idx_Path idx) in
  let path := downloadIndexPath verifOpts (idx_Path idx) in
  (w_reg w' ≠ w_reg w → ∃ x s indexFile,
    fetch_index env 3 0 (w_reg w) verifOpts path (mkIndexFetch None [] None []) (w_sys w) = (s, Ret x) ∧
    fetched_index env (w_reg w) verifOpts path (fx_indexData x) ∧
    ParseIndexFile (fx_indexData x) (idx_Channel idx) (idx_LastRelease idx) (ue_clock env (sys_tick s)) = Ret indexFile ∧
    w_reg w' = w_reg (AddResources (ue_os env) filesig_Extension (order (cleanedData (idx_Path idx) (if_Releases indexFile)))
      (Some i) false true (idx_PreRelease idx) (mkWorld (w_reg w) (mkSys (sys_fs s) (S (sys_tick s))))).1).
Proof.
  intros Hok Hi Hord H. unfold downloadIndex in H. rewrite Hi in H.
  set (verifOpts := GetVerificationOptions (w_reg w) (idx_Path idx)) in *.
  set (P := λ k, HasPrefix k (authoritativePath (idx_Path idx)) = true). cbv zeta.
  assert (untouched P (w_reg w) (w_reg w)) as Hsame by done.
  unfold st_bind at 1, on_sys at 1 in H.
  destruct (fetch_index env 3 0 (w_reg w) verifOpts _ _ (w_sys w)) as [s1 [x|e|]] eqn:Hf;
    [|by simplify_eq; split..].
  destruct (fx_indexErr x) as [e|] eqn:Hie; [unfold st_fail in H; by simplify_eq|].
  destruct (fx_sigErr x) as [e|] eqn:Hse; [unfold st_fail in H; by simplify_eq|].
  unfold st_bind at 1, on_sys at 1, external in H. unfold st_bind at 1 in H.
  match type of H with (match ParseIndexFile ?d ?c ?l ?n with _ => _ end) = _ =>
    destruct (ParseIndexFile d c l n) as [indexFile|e|] eqn:Hparse end; [|by simplify_eq; split..].
  simpl in H. split.
  - match type of H with ?m ?w1 = _ => assert (keeps (λ g, registry_ok g ∧ untouched P (w_reg w) g) m) as Hk end.
    { apply keeps_bind; [|keep]. destruct (bool_decide _); [keep|]. apply keeps_ignore, keeps_untouched_AddResources.
      intros k v Hkv. rewrite Hord in Hkv. apply elem_of_map_to_list in Hkv.
      by apply map_lookup_filter_Some in Hkv as [_ ?]. }
    match type of H with _ ?w1 = _ => pose proof (Hk w1 (conj Hok Hsame)) as Hk' end. rewrite H in Hk'. by destruct Hk'.
  - intros Hne. exists x, s1, indexFile. split; [done|].
    split; [by eapply (fetch_index_fetched env 3 0); [| | |exact Hf|..]|]. split; [exact Hparse|].
    destruct (bool_decide _).
    + unfold st_bind at 1, st_ret at 1, on_sys in H. destruct (save_index _ _ _ _ _ _). by simplify_eq.
    + by eapply added_registry.
Qed.

(** An index that defines a resource of its own directory and a foreign one. *)
#[local] Instance greedy_index_codec : IndexCodec := {|
  json_IndexFile := λ _, Some (mkIndexFile "stable" None {["ui/app.zip" := "2.0.0"; "core/service.exe" := "6.6.6"]});
  json_Releases := λ _, None;
|}.

Definition authority_world : World simple_version unit :=
  mkWorld (set_indexes [0] [mkIndex "ui/stable.json" "stable" false true None] (fetch_registry (Some strict_options)))
    (mkSys fetch_fs 0).

Lemma authority_world_ok : registry_ok (w_reg authority_world).
Proof.
  split; simpl.
  - apply Forall_singleton. split; simpl; try done.
    + apply NoDup_singleton.
    + apply Forall_singleton. unfold in_store. simpl. lia.
    + intros i j Hi%list_elem_of_singleton Hj%list_elem_of_singleton _ _. by subst.
    + by repeat constructor.
  - intros k id Hk. apply lookup_singleton_Some in Hk as [<- <-]. eexists. split; [reflexivity|reflexivity].
Qed.

Lemma downloadIndex_authority_witness :
  let env := steady_env (server [1; 2; 3]%Z 3) (λ _, false) in
  let run := downloadIndex env map_order 0 authority_world in
  untouched (λ k, HasPrefix k "ui/" = true) (w_reg authority_world) (w_reg run.1) ∧
  run.2 = Ret tt ∧ is_Some (resources (w_reg run.1) !! "ui/app.zip") ∧
  resources (w_reg run.1) !! "core/service.exe" = None ∧
  GetVerificationOptions (w_reg authority_world) "ui/stable.json" = Some strict_options ∧
  ∃ data, fetched_index env (w_reg authority_world) (Some strict_options) "ui/stable.v2.json" data.
Proof.
  intros env run.
  destruct (downloadIndex_authority env map_order 0 (mkIndex "ui/stable.json" "stable" false true None)
    authority_world run.1 run.2) as [H Hx].
  - apply authority_world_ok.
  - reflexivity.
  - intros m. reflexivity.
  - apply surjective_pairing.
  - split; [exact H|]. split; [vm_compute; reflexivity|]. split; [vm_compute; by eexists|]. split; [vm_compute; reflexivity|].
    split; [vm_compute; reflexivity|]. cbv zeta in Hx. destruct Hx as (x & s & f & _ & Hx & _); [|by exists (fx_indexData x)].
    intros He. assert (resources (w_reg run.1) !! "ui/app.zip" = None) as Hn by (rewrite He; vm_compute; reflexivity). vm_compute in Hn. done.
Defined.

(** Downloading an index does not record its release time: an older index is
    accepted right after a newer one. *)
#[local] Instance dated_index_codec : IndexCodec := {|
  json_IndexFile := λ data, Some (mkIndexFile "stable" (head data) {["all/app.zip" := "1.0.0"]});
  json_Releases := λ _, None;
|}.

Theorem downloadIndex_accepts_rollback :
  let env n := steady_env (server [n; 0; 0]%Z 3) (λ _, false) in
  let w0 := mkWorld (fetch_registry None) (mkSys fetch_fs 1000) in
  let run1 := downloadIndex (env 500%Z) map_order 0 w0 in
  let run2 := downloadIndex (env 100%Z) map_order 0 run1.1 in
  run1.2 = Ret tt ∧ run2.2 = Ret tt ∧
  (idx_LastRelease <$> index_objs (w_reg run2.1) !! 0) = Some None.
Proof. vm_compute. done. Qed.

(** The rules of ParseIndexFile for the current format: an index is accepted
    unless it is dated in the future, older than the last one seen, or for
    another channel, in this order; indexes without a date or a channel skip
    the check. *)
Theorem ParseIndexFile_rules {codec : IndexCodec} (data : bytes) (channel : string) (last : option Z) (now : Z) (f : IndexFile) :
  json_IndexFile data = Some f → if_Releases f ≠ ∅ ∨ if_Channel f ≠ "" →
  let future := ∃ p, if_Published f = Some p ∧ (now < p)%Z in
  let older := ∃ p l, if_Published f = Some p ∧ last = Some l ∧ (p < l)%Z in
  let mismatch := channel ≠ "" ∧ if_Channel f ≠ "" ∧ channel ≠ if_Channel f in
  match ParseIndexFile data channel last now with
  | Ret f' => f' = f ∧ ¬ future ∧ ¬ older ∧ ¬ mismatch
  | Fail UpdIndexFromFuture => future
  | Fail UpdIndexIsOlder => ¬ future ∧ older
  | Fail e => e = UpdIndexChannelMismatch ∧ ¬ future ∧ ¬ older ∧ mismatch
  | Panic => False
  end.
Proof.
  intros Hj Hf. unfold ParseIndexFile. rewrite Hj.
  destruct (bool_decide (if_Releases f = ∅) && String.eqb (if_Channel f) "") eqn:Hold.
  { bool_to_prop. destruct Hf as [?|Hc]; [done|]. by apply String.eqb_eq in H0. }
  destruct (match if_Published f with Some p => (now <? p)%Z | None => false end) eqn:Hfut.
  { destruct (if_Published f) as [p|]; [|done]. bool_to_prop. eauto. }
  assert (¬ ∃ p, if_Published f = Some p ∧ (now < p)%Z) as Hnf.
  { intros (p & Hp & Hlt). rewrite Hp in Hfut. bool_to_prop. lia. }
  destruct (match if_Published f with Some p => match last with Some l => (p <? l)%Z | None => false end | None => false end) eqn:Holder.
  { split; [done|]. destruct (if_Published f) as [p|], last as [l|]; try done. bool_to_prop. eauto 10. }
  assert (¬ ∃ p l, if_Published f = Some p ∧ last = Some l ∧ (p < l)%Z) as Hno.
  { intros (p & l & Hp & Hl & Hlt). rewrite Hp, Hl in Holder. bool_to_prop. lia. }
  destruct (negb (String.eqb channel "") && _ && _) eqn:Hmis.
  - rewrite !andb_true_iff, !negb_true_iff, !String.eqb_neq in Hmis. tauto.
  - split_and!; [done..|]. intros (H1 & H2 & H3).
    by rewrite (proj2 (String.eqb_neq _ _) H1), (proj2 (String.eqb_neq _ _) H2), (proj2 (String.eqb_neq _ _) H3) in Hmis.
Qed.

(** ** Properties: signing, downloads and scans *)

Section Longest.
Context {TS : Type}.

(** The best match after some entries. *)
Definition best_of (identifier : string) (entries : list (string * option (VerificationOptions TS)))
    (best : Z * option (VerificationOptions TS)) : Prop :=
  (∀ p o, (p, o) ∈ entries → HasPrefix identifier p = true → (Z.of_nat (String.length p) ≤ best.1)%Z) ∧
  ((best = (-1, None)%Z) ∨
   ∃ p o, (p, o) ∈ entries ∧ HasPrefix identifier p = true ∧ best = (Z.of_nat (String.length p), o)).

Lemma best_of_fold identifier (done rest : list (string * option (VerificationOptions TS))) best :
  best_of identifier done best → best_of identifier (done ++ rest)%list (fold_left (better_match identifier) rest best).
Proof.
  revert done best. induction rest as [|[p o] rest IH]; intros done best Hb; simpl; [by rewrite app_nil_r|].
  rewrite cons_middle, app_assoc. apply IH. destruct Hb as [Hmax Hsrc]. unfold better_match.
  destruct ((best.1 <? Z.of_nat (String.length p))%Z && HasPrefix identifier p) eqn:Hc.
  - bool_to_prop. split; simpl.
    + intros p' o' [Hin|Hin%list_elem_of_singleton]%elem_of_app Hp'; simplify_eq; [|done].
      specialize (Hmax _ _ Hin Hp'). lia.
    + right. exists p, o. split_and!; [set_solver|done|done].
  - split.
    + intros p' o' [Hin|Hin%list_elem_of_singleton]%elem_of_app Hp'; simplify_eq; [by apply (Hmax p' o')|].
      rewrite Hp', andb_true_r in Hc. bool_to_prop. done.
    + destruct Hsrc as [->|(p' & o' & Hin & Hp' & ->)]; [by left|right]. exists p', o'. split_and!; [set_solver|done|done].
Qed.

Lemma prefix_length_unique (s p q : string) :
  HasPrefix s p = true → HasPrefix s q = true → String.length p = String.length q → p = q.
Proof.
  rewrite !HasPrefix_spec. intros [t ->] [u Hu] Hlen. revert q Hu Hlen.
  induction p as [|a p IH]; intros [|b q] Hu Hlen; simpl in *; try done.
  simplify_eq. f_equal. by eapply IH.
Qed.

End Longest.

(** The options for an identifier are those of its longest configured prefix,
    and none without a matching prefix, whatever the iteration order of the
    map: a nil entry for a longer prefix switches verification off. *)
Theorem GetVerificationOptions_longest {TS : Type} (m : gmap string (option (VerificationOptions TS)))
    (entries : list (string * option (VerificationOptions TS))) (identifier : string) :
  entries ≡ₚ map_to_list m →
  match GetVerificationOptions_loop entries identifier with
  | result =>
      (∃ p, m !! p = Some result ∧ HasPrefix identifier p = true ∧
         ∀ q o, m !! q = Some o → HasPrefix identifier q = true → (String.length q ≤ String.length p)%nat) ∨
      (result = None ∧ ∀ q o, m !! q = Some o → HasPrefix identifier q = false)
  end ∧
  GetVerificationOptions_loop entries identifier = GetVerificationOptions_loop (map_to_list m) identifier.
Proof.
  intros Hperm.
  assert (∀ l, l ≡ₚ map_to_list m →
    (∃ p, m !! p = Some (GetVerificationOptions_loop l identifier) ∧ HasPrefix identifier p = true ∧
       ∀ q o, m !! q = Some o → HasPrefix identifier q = true → (String.length q ≤ String.length p)%nat) ∨
    (GetVerificationOptions_loop l identifier = None ∧ ∀ q o, m !! q = Some o → HasPrefix identifier q = false)) as Hspec.
  { intros l Hl. unfold GetVerificationOptions_loop.
    destruct (best_of_fold identifier [] l (-1, None)%Z) as [Hmax Hsrc]; [split; [set_solver|by left]|]. simpl in *.
    assert (∀ q o, m !! q = Some o ↔ (q, o) ∈ l) as Hin by (intros q o; by rewrite Hl, elem_of_map_to_list).
    destruct Hsrc as [Hb|(p & o & Hp & Hpre & Hb)]; rewrite Hb in *; simpl in *.
    - right. split; [done|]. intros q o' Hq. apply not_true_iff_false. intros Hpre.
      apply Hin in Hq. specialize (Hmax _ _ Hq Hpre). lia.
    - left. exists p. split_and!; [by apply Hin|done|]. intros q o' Hq Hpre'. apply Hin in Hq.
      specialize (Hmax _ _ Hq Hpre'). lia. }
  split; [by apply Hspec|].
  destruct (Hspec entries Hperm) as [(p & Hp & Hpre & Hmax)|[-> Hno]], (Hspec (map_to_list m)) as [(q & Hq & Hqre & Hqmax)|[-> Hno']]; try done.
  - assert (p = q) as <-.
    { apply (prefix_length_unique identifier); [done..|]. apply Nat.le_antisymm; [by eapply Hqmax|by eapply Hmax]. }
    congruence.
  - by rewrite (Hno' _ _ Hp) in Hpre.
  - by rewrite (Hno _ _ Hq) in Hqre.
Qed.

Lemma GetVerificationOptions_longest_witness :
  let m : gmap string (option (VerificationOptions unit)) := {["" := Some strict_options; "dev/" := None]} in
  GetVerificationOptions_loop (reverse (map_to_list m)) "dev/app" = None.
Proof.
  intros m.
  destruct (GetVerificationOptions_longest m (reverse (map_to_list m)) "dev/app") as [_ H]; [apply reverse_Permutation|].
  rewrite H. vm_compute. reflexivity.
Defined.

Section Reports.
Context {SV TS : Type}.
Abbreviation world := (World SV TS).

Lemma on_state_inv (f : RegistryState → go upd_error RegistryState) (w w' : world) :
  on_state f w = (w', Ret tt) →
  ∃ s s1, reg_state (w_reg w) = Some s ∧ f s = Ret s1 ∧
    w' = mkWorld (set_state (Some (notify (StateNotify (w_reg w)) s1)) (w_reg w)) (w_sys w).
Proof.
  unfold on_state. destruct (reg_state (w_reg w)) as [s|]; [|done]. destruct (f s) as [s1|e|] eqn:Hf; [|done..].
  intros H. simplify_eq. by exists s, s1.
Qed.

Lemma notify_fields b s :
  st_ID (notify b s) = st_ID s ∧ st_Updates (notify b s) = st_Updates s ∧ operationLocked (notify b s) = operationLocked s.
Proof. by destruct b. Qed.

Lemma st_try_Ret {S E E' A : Type} (m : st S E A) (w w' : S) (a : A) :
  st_try (E' := E') m w = (w', Ret (Ret a)) → m w = (w', Ret a).
Proof. unfold st_try. destruct (m w) as [w1 [b|e|]]; intros; by simplify_eq. Qed.

(** A call inside an operation: the lock is taken before and released after. *)
Lemma with_operation_inv {A : Type} id (body : st world upd_error A) (w w' : world) (a : A) :
  with_operation id body w = (w', Ret a) →
  ∃ s s1 w2 s2, reg_state (w_reg w) = Some s ∧ operationLocked s = false ∧
    body (mkWorld (set_state (Some s1) (w_reg w)) (w_sys w)) = (w2, Ret a) ∧
    reg_state (w_reg w2) = Some s2 ∧
    ∃ s3, reg_state (w_reg w') = Some s3 ∧ st_ID s3 = StateReady ∧ operationLocked s3 = false ∧
      st_Updates s3 = st_Updates s2.
Proof.
  unfold with_operation. intros H.
  apply st_bind_inv in H as (w1 & [] & H1 & H).
  apply on_state_inv in H1 as (s & s1 & Hs & Hf & ->). destruct (operationLocked s) eqn:Hl; [done|].
  apply st_bind_inv in H as (w2 & r & H2 & H).
  apply st_bind_inv in H as (w3 & [] & H3 & H).
  simplify_eq. apply on_state_inv in H3 as (s2 & s3 & Hs2 & Hf2 & ->).
  destruct (operationLocked s2); [|done]. simplify_eq.
  eexists s, _, w2, s2. split_and!; [done|done|by eapply st_try_Ret|done|].
  - simpl. eexists. split; [done|]. destruct (notify_fields (StateNotify (w_reg w2))
      (mkRegistryState StateReady None (st_Updates s2) false (reported s2))) as (H1 & H2' & H3).
    by rewrite H1, H2', H3.
Qed.

Lemma ReportDownloads_inv {sort_lib : SortLib} {sort_laws : SortLaws} clock names e (w w' : world) :
  ReportDownloads clock names e w = (w', Ret tt) →
  ∃ s, reg_state (w_reg w') = Some s ∧ LastDownloadError (st_Updates s) = e ∧
    LastDownload (st_Updates s) ≡ₚ names ∧ ∀ n, n ∈ names → n ∉ PendingDownload (st_Updates s).
Proof.
  unfold ReportDownloads. intros H. apply st_bind_inv in H as (w1 & now & H1 & H).
  apply on_state_inv in H as (s & s1 & Hs & Hf & ->). simpl. eexists. split; [done|]. simplify_eq.
  match goal with |- context [notify ?b ?s] => destruct (notify_fields b s) as (_ & -> & _) end. simpl.
  split_and!; [done|apply Sort_perm|]. intros n Hn. rewrite list_elem_of_In, filter_In.
  intros [_ Hneg]. apply negb_true_iff, not_true_iff_false in Hneg. apply Hneg, StringInSlice_true.
  by rewrite (Sort_perm string string_less names).
Qed.

End Reports.

(** A registry operation that ended without error has reported its downloads:
    no error, and every announced download as done and no longer pending,
    whether its download succeeded or not. *)
Theorem DownloadUpdates_reports {SV TS SIG HASH : Type} `{!SemVer SV} {sort_lib : SortLib} {sort_laws : SortLaws}
    `{!SigLib TS SIG HASH} (env : UpdEnv) (rorder : gmap string nat → list nat) (includeManual : bool)
    (w w' : World SV TS) :
  let toUpdate := (GetPendingDownloads includeManual true (rorder (resources (w_reg w))) (w_reg w)).1 in
  let names := humanInfoFromResourceVersions (w_reg w) toUpdate in
  toUpdate ≠ [] → DownloadUpdates env rorder includeManual w = (w', Ret tt) →
  ∃ s, reg_state (w_reg w') = Some s ∧ st_ID s = StateReady ∧ operationLocked s = false ∧
    LastDownloadError (st_Updates s) = None ∧ LastDownload (st_Updates s) ≡ₚ names ∧
    ∀ n, n ∈ names → n ∉ PendingDownload (st_Updates s).
Proof.
  intros toUpdate names Hne H.
  apply with_operation_inv in H as (s & s1 & w2 & s2 & _ & _ & H & Hs2 & s3 & Hs3 & Hid & Hl & Hu).
  unfold st_bind at 1, get_reg at 1 in H. cbn [w_reg] in H.
  change (GetPendingDownloads includeManual true _ _) with
    (GetPendingDownloads includeManual true (rorder (resources (w_reg w))) (w_reg w)) in H.
  destruct (GetPendingDownloads _ _ _ (w_reg w)) as [toUpdate' missing] eqn:Hp. subst toUpdate names. simpl in Hne |- *.
  unfold st_bind at 1, get_reg at 1 in H. cbn [w_reg] in H.
  apply st_bind_inv in H as (wa & [] & _ & H).
  rewrite bool_decide_false in H by done. simpl in H.
  apply st_bind_inv in H as (wb & [] & _ & H).
  apply st_bind_inv in H as (wc & [] & _ & H).
  apply st_bind_inv in H as (wd & [] & _ & H).
  destruct (ReportDownloads_inv _ _ _ _ _ H) as (s4 & Hs4 & He & Hlast & Hpend).
  simplify_eq. exists s3. rewrite Hu. split_and!; done.
Qed.

(** The server answers nothing: all downloads fail, and none is reported. *)
Lemma DownloadUpdates_reports_witness :
  let env := steady_env (λ _ _ _, HttpFailed) (λ _, false) in
  let w := mkWorld (fetch_registry (Some strict_options)) (mkSys fetch_fs 0) in
  let run := DownloadUpdates env resource_order false w in
  sys_fs (w_sys run.1) !! "/data/updates/all/app_v1-0-0.zip" = None ∧
  ∃ s, reg_state (w_reg run.1) = Some s ∧ LastDownloadError (st_Updates s) = None ∧
    LastDownload (st_Updates s) ≡ₚ ["all/app.zip v1.0.0"].
Proof.
  intros env w run. split; [vm_compute; reflexivity|].
  destruct (DownloadUpdates_reports env resource_order false w run.1) as (s & Hs & _ & _ & He & Hl & _).
  - vm_compute. discriminate.
  - change (run = (run.1, Ret tt)). rewrite (surjective_pairing run) at 1.
    apply pair_equal_spec. split; [done|vm_compute; reflexivity].
  - exists s. split_and!; [exact Hs|exact He|]. etransitivity; [exact Hl|]. vm_compute. reflexivity.
Defined.
